(* ===== verification/_CoqProject ===== *)
-Q . S2P
Prelude.v
GoStrings.v
FileHistory.v
FileHistoryFacts.v
Disk.v
DiskFacts.v
Locker.v
Environment.v
Power.v
PowerFacts.v
Paths.v
PathsFacts.v
Tokens.v
Uploads.v
UploadsFacts.v
Policy.v
PolicyFacts.v
CanonicalFacts.v
Nft.v
NftFacts.v
NftWf.v
AddrText.v
Route.v
Shaping.v
ShapingFacts.v
Store.v
StoreFacts.v
NftState.v
NftEval.v
NftImplied.v
NftLink.v
NftGood.v
NftVerify.v
RuntimePath.v
Runtime.v
RuntimeFacts.v
NetPolicy.v
NetPolicyFacts.v
NetExample.v
Inodes.v
Ufs.v
UfsFacts.v
UfsRemove.v
UfsExample.v
Files.v
FilesFacts.v
FilesWrite.v
FilesExample.v
Collab.v
CollabFacts.v
Threads.v
Socket.v
SocketSafe.v
Rooms.v
RoomsFacts.v
RoomsSafe.v
RoomsExample.v
Native.v
NativeFacts.v
NativeSafe.v
NativeExample.v
Network.v
NetworkFacts.v
Activity.v
Remote.v
RemoteFacts.v
Delivery.v
DeliveryFacts.v
DeliverySafe.v
DeliveryExample.v
Sinks.v
SinksFacts.v
Console.v
FileOps.v
Downloader.v
DownloaderFacts.v
DownloaderExample.v
