(* ===== verification/Prelude.v ===== *)
(** * Wings: a verification development of the server daemon

    Wings runs game servers in Docker containers for a Panel.  For every server it
    keeps a container environment and its process state, a data directory with a disk
    quota, a revision history of edited files and a network policy; clients reach it
    through HTTP, websocket and SFTP with tokens the Panel signs.

    ** The program's parts and where they are modelled

    - [Prelude] (this file): results for Go's pairs of value and error, a state and
      error monad with weakest preconditions, 64-bit wrap-around, generic lemmas.
    - [GoStrings]: what Wings uses of Go's strings, path, strconv and utf8 packages,
      byte by byte.
    - [FileHistory], [FileHistoryFacts]: src/server/file_history.go.  The SQLite tables
      are a record of row lists; every statement may fail, as an arbitrary predicate on
      the statement's number decides, and [transaction] is begin, commit and deferred
      rollback, with SQLite's atomic commit.  [runs] says what a computation does unless
      one of the statements it sent fails.  zstd is a type class ([Zstd]) whose law
      ([ZstdLaws]) is the round trip of the plain codec; SHA-256 is a field of the class,
      of which nothing is assumed.
    - [Disk], [DiskFacts]: src/internal/ufs/fs_quota.go and, of src/server/filesystem,
      disk_space.go, quota_file.go, upload.go and [Write] of filesystem.go.  The
      [Filesystem] record holds the counters; the answers of system calls are arguments.
      Concurrent writers are a step relation on the counters and the reservations held.
    - [Locker]: src/system/locker.go.  Calls under the mutex are single steps, a
      [TryAcquire] is several; a step relation interleaves goroutines, and an abstract
      lock is its specification.
    - [Environment]: src/environment/docker/power.go, environment.go and container.go.
      The process state machine; Docker's answers are a record of outcomes per operation.
      The state keeps the list of published states, so that what listeners may see can
      be stated.
    - [Power], [PowerFacts]: src/server/power.go, crash.go and the state handling of
      server.go and install.go.  It calls the environment and the disk accounting, and
      uses the lock through the type class [PowerLock] with its laws [PowerLockLaws],
      which [Locker] implements.
    - [Paths], [PathsFacts]: src/router/betterfiles_paths.go, the archive handling of
      src/router/router_server_archive_nbt.go, and the deny list of
      src/server/filesystem/path.go.  An extraction yields the list of actions on the
      file system.  Case folding beyond ASCII is the type class [UnicodeTables].
    - [Tokens]: src/router/tokens.  Scopes, permissions, revocation and one-time use; the
      third-party cache is the type class [TokenCache].
    - [Uploads], [UploadsFacts]: src/router/router_resumable_upload.go.  The three
      registries and both handlers, composed of the components above.
    - [Policy], [PolicyFacts], [CanonicalFacts]: src/internal/networkpolicy/policy.go.
      SHA-256 and the length of the marshalled document are section variables.
    - [Nft], [NftFacts], [NftWf]: the compiler from a policy to an nftables document
      (compileRuleset of linux.go, with allocation.go, replies.go and icmp.go).  [NftFacts]
      gives documents a packet semantics and policies a meaning of their own.
    - [AddrText]: the text of addresses, for the round trip with the policy's parser.
    - [Route], [Shaping], [ShapingFacts]: route.go and shaping.go.  The kernel is the type
      class [Kernel], a function of the requests sent so far.
    - [Store], [StoreFacts]: store.go and the strict decoding of policy.go.  A write is the
      list of the file systems on its way, one per system call, so that a crash is any of
      its members; the JSON lexer is the type class [JSON].
    - [NftState], [NftEval], [NftImplied], [NftLink], [NftGood], [NftVerify]: replacing,
      removing and verifying the live table (linux.go).  [NftState] has the operations;
      [NftEval] evaluates a listing on packets, [NftImplied] justifies the matches that
      normalisation drops, [NftLink] and [NftGood] relate the compiled document to its
      listing, and [NftVerify] has the result.
    - [RuntimePath], [Runtime], [RuntimeFacts]: runtime.go and src/cmd/nsm_runtime.go, the
      wrapper of runc.  [namei] resolves paths the way the kernel does; the [world] is the
      files, the commands sent to nft and to the kernel, the lease and the calls of runc.
    - [NetPolicy], [NetPolicyFacts]: src/environment/docker/network_policy.go and
      src/environment/allocations.go.  The state [env] is the environment's policy fields
      and the world; Docker is a type class over the calls made so far.
    - [NetExample]: one simulated host on which every hypothesis of the two groups before
      holds, and the theorems applied to it.
    - [Collab], [CollabFacts]: src/router/websocket/betterfiles_collaboration_ot.go.  The
      operational transformation library is the type class [OT], with the documented
      behaviour of its functions in [OTLaws]; [RuneOps] is an instance that has it.
    - [Inodes], [Ufs], [UfsFacts], [UfsRemove], [UfsExample]: src/internal/ufs.  [Inodes] is
      a store of inodes with Linux's path resolution and system calls, any of which may
      fail, and with the events by which other processes change the tree between two
      calls; [Ufs] has the operations below the directory a server may use.
    - [Files], [FilesFacts], [FilesWrite], [FilesExample]: filesystem.go and stat.go of
      src/server/filesystem, over [Ufs] and the counters of [Disk].
    - [Threads]: goroutines as trees of atomic actions on a shared state, their
      interleavings as a step relation, and a rely-guarantee judgement [safe] for them.
    - [Socket], [SocketSafe]: the requests of src/router/websocket (websocket.go,
      limiter.go, message.go, server_importer.go).  A request is a thread over the [world]
      of connections, servers and tokens; the class [Shared] says what the rest of the
      program promises and relies on, [Tells] what a message may tell of the collaboration
      sessions, and [handleMessage_fine] is proved against them.
    - [Rooms], [RoomsFacts], [RoomsSafe], [RoomsExample]: betterfiles_collaboration.go.  The
      heaps of sessions, members and documents are shared by all requests; a critical
      section is one action.
    - [Native], [NativeFacts], [NativeSafe], [NativeExample]: file_collaboration_yjs.go; the
      replicated document is the type class [CRDT], base64 is modelled.
    - [Network], [NetworkFacts]: src/internal/network and src/server/websockets.go, with what
      they use of Go's netip package.
    - [Activity]: src/internal/models and src/server/activity.go, the rows of the activity log.
    - [Remote], [RemoteFacts]: src/remote, the client of the Panel.  A request is a thread whose
      attempts are appended to a log; the Panel and the network are a function of that log
      (class [Http]), the verdicts of the backoff are a finite list, and JSON is the class
      [Decode].
    - [Delivery], [DeliveryFacts], [DeliverySafe], [DeliveryExample]: the jobs of
      src/internal/cron that send activity to the Panel.  Every statement on the table is one
      action of a thread and may fail (class [Database] with its laws).
    - [Sinks], [SinksFacts]: src/system/sink_pool.go and src/events/events.go.  The heap of
      channels, the pool and the senders in flight, with a step relation that interleaves them.
    - [Console]: src/system/rate.go, src/server/console.go and the handling of output of
      src/server/listeners.go; it calls [Locker], [Environment] and [Sinks].
    - [FileOps]: src/server/file_operations.go, the operations with both their goroutines as a
      step relation.
    - [Downloader], [DownloaderFacts], [DownloaderExample]: src/router/downloader and the
      handlers of downloads.  Requests are threads; names, connections and answers may differ at
      every look (class [Internet]).

    ** What the theorems show

    - History: recording fails and changes nothing, or can be read back
      ([record_then_content]); over a store's whole life, with any statements failing,
      every revision left reads back something that was recorded
      ([history_stays_readable]); integrity holds whatever the tables contain, pruning
      reaches the server budget, renaming moves a file's revisions; the per-file budget
      has no effect and deep chains cannot be read ([per_file_budget_unused],
      [reconstruct_depth_limit]).
    - Disk: concurrent writers never overrun the quota ([quota_never_overrun]), handles and
      writers account for what they did, the walk counts an inode once, the saturating
      addition stays in range; [WriteUpload] keeps its reservation
      ([WriteUpload_leaks_reservation]).
    - Lock and power: every trace of acquisitions, refusals and releases of the locker is one
      of the abstract lock, also when it is destroyed under a waiting goroutine
      ([lock_refinement]); every power action gives the lock back, and a termination does
      not wait for it ([power_lock_balanced]); only a server that may
      run is started; deliberate operations never look like crashes; restarts after crashes
      are spaced; reattaching is bounded.  Two cases are taken for crashes all the same
      ([failed_start_race], [kill_missing_restarts]).
    - Paths: accepted paths are canonical and have no denied ancestor, uploads land where
      they say, extraction stays below its destination, except for the entry ".."
      ([archive_parent_escapes]).
    - Tokens and uploads: revocation is permanent, a one-time token is used once, the
      registries count exactly and are bounded, a chunk is appended whole or not at all, a
      finished upload cannot be repeated, a request gives back what it takes.
    - Policies: a valid policy is bound to exactly the server's allocations, its ports are
      exactly those its groups select, its rules are in a strict order, and its hash
      identifies it.  Decoding accepts only exact documents; saving is atomic at every
      crash point.
    - Firewall: the compiled table decides every packet as the policy means it
      ([compileRuleset_decides]) and is well formed; a listing that verification accepts
      decides packets the same way ([VerifyFirewall_sound], for listings of the form nft
      prints and packets whose headers agree), except for one kind of match that
      normalisation should not drop ([masked_type_passes]).
    - Shaping: a profile fits the kernel's fields, decoding a datagram terminates, a dump
      is only used when complete, what was shaped verifies, and no other queueing
      discipline is touched.
    - Runtime: the wrapper trusts a path exactly when every entry the kernel passes is
      controlled by root or the daemon (a sticky directory may be open to others), parses
      runc's arguments exactly, and starts a container only when the saved policy is
      installed, verified and shaped, under the lease ([runtime_start_enforced]).
    - Policy of a container: after any sequence of operations an applied status means that
      the policy was read back in force for that container at some moment of the run, its
      rules from nft and its limits from the kernel ([applied_status_verified]); a failed
      reconciliation leaves the gate shut, the container killed or absent, or says
      so ([reconcile_fails_closed]); a container is created behind the gate only.
    - Collaboration: concurrent edits converge, in every editor, and an edit whose base is
      still in the history is never lost to concurrency.
    - Files: whatever other processes do to the tree meanwhile, no operation touches an inode
      outside the server's directory ([files_confined]), except [Chown] by its last link
      ([Chown_escapes]); writing writes, removing removes, a listing is sorted.
    - Rooms and native sessions: under every interleaving of requests the limits on
      sessions, members and documents hold ([session_limits], [native_limits]), a session
      only ever serves its own server and the files its members may read, and no answer
      names another server's session ([sessions_confined]), a member who may only view
      changes nothing ([view_sessions_unchanged]), and an update sent in pieces through
      the websocket's handler is applied whole ([update_reassembled]).  Some requests lose
      a race ([join_lost_in_race], [subscribe_lost_in_race]).
    - Panel: every attempt of a request is the same request, and what the client returns is
      the answer to the last ([request_attempts]); the list of servers is complete
      ([GetServers_complete]); responses are closed.
    - Activity: at every moment every stored activity is still there or accounted for
      ([activity_accounted]), a refused one does not hold up the others ([deliver_isolates]),
      requests of merged events are bounded and collecting them ends
      ([sftp_request_bounded]).  Rows may be merged twice ([row_merged_twice]).
    - Console and events: sinks do not panic and account for every message, and a full
      channel loses at most two for each sender that waited in vain ([sinks_accounted]),
      every sender ends ([push_ends]), what stays in a full channel is the newest
      ([deposits_newest]) unless it has no buffer ([unbuffered_drops_newest]); the rate is
      bounded ([rate_bounded]) and the warning appears once ([strikes_once]).
    - File operations end once, and say so once ([operation_ends_once], [operation_ends]).
    - Network: internal addresses are exactly the special ranges ([IsInternal_exact]); the
      counters of connections count what is open.  A download connects to no internal address
      that is not allowed, also when a name resolves differently later, and writes where it may
      ([downloads_confined]); two races of its handlers are [limit_raced] and
      [cancelled_before_start].

    ** Bounds and fuel

    Recursion is structural wherever the code loops over data.  Elsewhere: the loops that
    prune chains run for at most one turn per row and one more, and every turn that does
    not stop deletes a row, so that they end by themselves ([server_budget_enforced]
    states the result, not only partial correctness); reconstruction follows at most 1000
    links, the bound of the code; printing an integer uses 20 digits, enough for 64 bits;
    the loop of the compare-and-swap runs over the list of the other goroutines' swaps;
    an IPv6 address has eight groups and nine turns of its parser; a document keeps 128
    operations, as in the code.  A datagram is decoded with its own length as fuel, and
    [decodeRouteReply_terminates] shows that this is enough; a packet passes at most three
    chains, hook, direction and origin, as [compileRuleset_decides] and the listing's
    theorem rely on; a path follows at most 40 links, the bound of the code and of the
    kernel; taking the lease runs over the list of the attempts before the context is done.
    A removal or walk takes the depth and the number of turns of its loops as fuel, and
    [RemoveAll_removes] shows the fuel that is enough; a retried system call is retried at
    most once per event of another process; a link is read with five sizes of buffer; a
    missing directory is made in at most as many turns as its name is long; copy names are
    tried as often as the code does.  A thread is an inductive tree, so that requests end.
    A page of SFTP events that adds one adds 256 bytes to a request of at most 4 MiB, which
    gives the fuel of its loop ([sftp_request_bounded] shows that it never runs out); a refused
    batch is halved, so that its length is enough ([deliver_ends]); rows are deleted in chunks, of
    which there are at most as many as rows; looking for the part of a merged event passes
    every entry of the map at most once.
    Counters that may overflow wrap at 64 bits ([wrap64]); lengths and offsets stay below
    that by the limits the code checks.

    ** What is not modelled

    Docker, SQLite's file, runc, nft, netlink sockets and HTTP transport are outcomes or
    parameters of the model, and so are the system calls of the components other than
    [Ufs] and [Files]; JWT signatures, zstd, SHA-256, JSON, replicated documents and the
    cache are parameters.  Not modelled at all: walking with [WalkDir] and the decoding of
    raw directory entries, upgrading and reading a websocket connection and the listeners
    behind it, the SFTP transport, backups, transfers and imports, git, the configuration
    file parser, the scheduler of jobs, probing the host's capabilities, and the parsing of
    the daemon's YAML configuration. *)

From stdpp Require Import base gmap sets list strings numbers sorting.
From Stdlib Require Import Strings.Byte.

Declare Scope wings_scope.
Delimit Scope wings_scope with wings.
Open Scope Z_scope.

Create HintDb wings.

(** ** Results: Go's [(value, error)] pairs, with exactly one side meaningful. *)

Inductive result (E A : Type) : Type :=
| Ok (a : A)
| Err (e : E).
Arguments Ok {E A} a.
Arguments Err {E A} e.

#[global] Instance result_ret E : MRet (result E) := λ A a, Ok a.
#[global] Instance result_bind E : MBind (result E) := λ A B f m,
  match m with Ok a => f a | Err e => Err e end.

#[global] Instance result_eq_dec {E A} `{EqDecision E, EqDecision A} : EqDecision (result E A).
Proof. solve_decision. Defined.

Definition is_ok {E A} (r : result E A) : bool :=
  match r with Ok _ => true | Err _ => false end.

(** [require b e]: the early return [if !b { return e }]. *)
Definition require {E} (b : bool) (e : E) : result E unit :=
  if b then Ok tt else Err e.

Lemma result_bind_Ok {E A B} (m : result E A) (f : A → result E B) b :
  m ≫= f = Ok b ↔ ∃ a, m = Ok a ∧ f a = Ok b.
Proof. destruct m; simpl; naive_solver. Qed.

Lemma require_Ok {E} b (e : E) u : require b e = Ok u ↔ b = true.
Proof. destruct b, u; simpl; naive_solver. Qed.

(** ** State and errors: a computation that reads and writes a state [S] and
    may stop with an error [E]; the state reached so far survives the error. *)

Definition st (S E A : Type) : Type := S → result E A * S.

#[global] Instance st_ret S E : MRet (st S E) := λ A a s, (Ok a, s).
#[global] Instance st_bind S E : MBind (st S E) := λ A B f m s,
  match m s with
  | (Ok a, s') => f a s'
  | (Err e, s') => (Err e, s')
  end.

Definition st_err {S E A} (e : E) : st S E A := λ s, (Err e, s).
Definition st_lift {S E A} (r : result E A) : st S E A := λ s, (r, s).

Lemma st_bind_Ok {S E A B} (m : st S E A) (f : A → st S E B) s b s' :
  (m ≫= f) s = (Ok b, s') ↔ ∃ a s1, m s = (Ok a, s1) ∧ f a s1 = (Ok b, s').
Proof.
  unfold mbind, st_bind. destruct (m s) as [[a|e] s1]; naive_solver.
Qed.

Lemma st_ret_Ok {S E A} (a b : A) (s s' : S) :
  (mret a : st S E A) s = (Ok b, s') ↔ a = b ∧ s = s'.
Proof. unfold mret, st_ret. naive_solver. Qed.

(** [wp m Q s]: started in [s], [m] returns a value (no error) and the value and
    the state it leaves satisfy [Q]. *)
Definition wp {S E A} (m : st S E A) (Q : A → S → Prop) (s : S) : Prop :=
  match m s with
  | (Ok a, s') => Q a s'
  | (Err _, _) => False
  end.

Lemma wp_bind {S E A B} (m : st S E A) (f : A → st S E B) Q s :
  wp m (λ a s', wp (f a) Q s') s → wp (m ≫= f) Q s.
Proof. unfold wp, mbind, st_bind. by destruct (m s) as [[a|e] s']. Qed.

Lemma wp_ret {S E A} (a : A) Q (s : S) : Q a s → wp (mret a : st S E A) Q s.
Proof. done. Qed.

Lemma wp_lift {S E A} (r : result E A) a Q (s : S) :
  r = Ok a → Q a s → wp (st_lift r) Q s.
Proof. by intros ->. Qed.

Lemma wp_mono {S E A} (m : st S E A) (P Q : A → S → Prop) s :
  wp m P s → (∀ a s', P a s' → Q a s') → wp m Q s.
Proof. unfold wp. destruct (m s) as [[a|e] s']; eauto. Qed.

Lemma wp_Ok {S E A} (m : st S E A) Q s :
  wp m Q s ↔ ∃ a s', m s = (Ok a, s') ∧ Q a s'.
Proof. unfold wp. destruct (m s) as [[a|e] s']; naive_solver. Qed.

(** ** Machine integers *)

Definition int64_max : Z := 2 ^ 63 - 1.
Definition int64_min : Z := - 2 ^ 63.
Definition uint64_max : Z := 2 ^ 64 - 1.

(** Two's-complement truncation of a mathematical integer to [int64]. *)
Definition wrap64 (z : Z) : Z := (z + 2 ^ 63) `mod` 2 ^ 64 - 2 ^ 63.
Definition wrapu64 (z : Z) : Z := z `mod` 2 ^ 64.
Definition wrapu32 (z : Z) : Z := z `mod` 2 ^ 32.

Definition in_int64 (z : Z) : Prop := int64_min ≤ z ≤ int64_max.

Lemma wrap64_id z : in_int64 z → wrap64 z = z.
Proof. unfold in_int64, wrap64, int64_min, int64_max. intros. rewrite Z.mod_small; lia. Qed.

Lemma wrap64_range z : in_int64 (wrap64 z).
Proof.
  unfold in_int64, wrap64, int64_min, int64_max.
  pose proof (Z.mod_pos_bound (z + 2 ^ 63) (2 ^ 64)). lia.
Qed.

Lemma wrap64_add_sub a b : wrap64 (wrap64 (a + b) - b) = wrap64 a.
Proof.
  unfold wrap64. f_equal.
  replace ((a + b + 2 ^ 63) `mod` 2 ^ 64 - 2 ^ 63 - b + 2 ^ 63)
    with ((a + b + 2 ^ 63) `mod` 2 ^ 64 - b) by lia.
  rewrite Zminus_mod_idemp_l. f_equal. lia.
Qed.

#[global] Instance byte_eq_dec : EqDecision byte := Byte.byte_eq_dec.

(** ** Lists *)

Definition zlen {A} (l : list A) : Z := Z.of_nat (length l).

Fixpoint zsum {A} (f : A → Z) (l : list A) : Z :=
  match l with
  | [] => 0
  | x :: l' => f x + zsum f l'
  end.

Lemma zsum_app {A} (f : A → Z) l1 l2 : zsum f (l1 ++ l2) = zsum f l1 + zsum f l2.
Proof. induction l1 as [|x l1 IH]; simpl; [done|]. rewrite IH. lia. Qed.

(** A sum does not depend on the order. *)
#[global] Instance zsum_Permutation {A} (f : A → Z) : Proper ((≡ₚ) ==> (=)) (zsum f).
Proof. induction 1; simpl; lia. Qed.

Lemma zsum_nonneg {A} (f : A → Z) l : (∀ x, x ∈ l → 0 ≤ f x) → 0 ≤ zsum f l.
Proof.
  induction l as [|x l IH]; simpl; intros Hf; [lia|].
  pose proof (Hf x ltac:(set_solver)). specialize (IH ltac:(set_solver)). lia.
Qed.

Lemma zsum_filter_le {A} (P : A → Prop) `{∀ x, Decision (P x)} (f : A → Z) l :
  (∀ x, x ∈ l → 0 ≤ f x) → zsum f (filter P l) ≤ zsum f l.
Proof.
  induction l as [|x l IH]; intros Hf; [done|].
  rewrite filter_cons. specialize (IH ltac:(set_solver)).
  pose proof (Hf x ltac:(set_solver)). destruct (decide (P x)); simpl; lia.
Qed.

(** Largest element of a list with respect to a key; the first of equals. *)
Fixpoint max_by {A} (key : A → Z) (l : list A) : option A :=
  match l with
  | [] => None
  | x :: l' =>
      match max_by key l' with
      | None => Some x
      | Some m => if key x <? key m then Some m else Some x
      end
  end.

Lemma max_by_None {A} (key : A → Z) l : max_by key l = None ↔ l = [].
Proof.
  destruct l as [|x l]; simpl; [done|].
  destruct (max_by key l) as [m|]; [case_match|]; done.
Qed.

Lemma max_by_Some {A} (key : A → Z) l m :
  max_by key l = Some m → m ∈ l ∧ ∀ x, x ∈ l → key x ≤ key m.
Proof.
  revert m. induction l as [|y l IH]; simpl; intros m Hm; [done|].
  destruct (max_by key l) as [m'|] eqn:E.
  - destruct (IH m' eq_refl) as [Hin Hle]. destruct (Z.ltb_spec (key y) (key m')); simplify_eq.
    + split; [set_solver|]. intros x [->|Hx]%elem_of_cons; [lia|auto].
    + split; [set_solver|]. intros x [->|Hx]%elem_of_cons; [lia|].
      specialize (Hle x Hx). lia.
  - apply max_by_None in E as ->. simplify_eq. set_solver.
Qed.

(** Descending order on a key: SQL's [ORDER BY key DESC]. *)
Definition key_desc {A} (key : A → Z) (a b : A) : Prop := key b ≤ key a.

#[global] Instance key_desc_dec {A} (key : A → Z) : RelDecision (key_desc key).
Proof. unfold key_desc. intros a b. apply _. Defined.
#[global] Instance key_desc_trans {A} (key : A → Z) : Transitive (key_desc key).
Proof. unfold key_desc. intros a b c. lia. Qed.
#[global] Instance key_desc_total {A} (key : A → Z) : Total (key_desc key).
Proof. unfold key_desc. intros a b. lia. Qed.

(** [SELECT DISTINCT x .. ORDER BY x DESC]. *)
Definition distinct_desc (l : list Z) : list Z :=
  merge_sort (key_desc id) (remove_dups l).

Lemma elem_of_distinct_desc l x : x ∈ distinct_desc l ↔ x ∈ l.
Proof. unfold distinct_desc. by rewrite merge_sort_Permutation, elem_of_remove_dups. Qed.

Lemma NoDup_distinct_desc l : NoDup (distinct_desc l).
Proof. unfold distinct_desc. rewrite merge_sort_Permutation. apply NoDup_remove_dups. Qed.

Lemma distinct_desc_sorted l : StronglySorted (key_desc id) (distinct_desc l).
Proof. apply StronglySorted_merge_sort; apply _. Qed.

(** A function injective on a duplicate-free image. *)
Lemma NoDup_fmap_inj_on {A B} (f : A → B) (l : list A) x y :
  NoDup (f <$> l) → x ∈ l → y ∈ l → f x = f y → x = y.
Proof.
  induction l as [|z l IH]; [set_solver|]. simpl. intros [Hz Hnd]%NoDup_cons Hx Hy Hf.
  apply elem_of_cons in Hx as [->|Hx]; apply elem_of_cons in Hy as [->|Hy]; [done| | |by apply IH].
  - destruct Hz. rewrite Hf. by apply list_elem_of_fmap_2.
  - destruct Hz. rewrite <-Hf. by apply list_elem_of_fmap_2.
Qed.

Lemma elem_of_flat_map {A B} (f : A → list B) (l : list A) y :
  y ∈ flat_map f l ↔ ∃ x, x ∈ l ∧ y ∈ f x.
Proof.
  induction l as [|x l IH]; simpl; [set_solver|]. rewrite elem_of_app, IH.
  setoid_rewrite elem_of_cons. naive_solver.
Qed.

Lemma StronglySorted_le_lt (l : list Z) :
  StronglySorted Z.le l → NoDup l → StronglySorted Z.lt l.
Proof.
  induction 1 as [|x l Hs IH Hx]; intros Hnd; constructor; apply NoDup_cons in Hnd as [Hn Hnd]; auto.
  rewrite Forall_forall in Hx |- *. intros y Hy. specialize (Hx y Hy).
  assert (x ≠ y) by congruence. lia.
Qed.
