(* ===== verification/GoStrings.v ===== *)
(** * The parts of Go's strings, path and utf8 packages that Wings uses

    A Go string is a sequence of bytes; here it is a [string], one [ascii] per
    byte.  Every function below is the byte-level behaviour of the standard
    library function it is named after. *)

From stdpp Require Import base list strings numbers.
From Stdlib Require Import Ascii.
From S2P Require Import Prelude.
Open Scope Z_scope.

Definition slash : ascii := "/"%char.
Definition dot : ascii := "."%char.
Definition backslash : ascii := "\"%char.

Definition byteZ (c : ascii) : Z := Z.of_N (N_of_ascii c).

Definition strlen (s : string) : Z := Z.of_nat (String.length s).

(** [strings.HasPrefix] *)
Definition HasPrefix (s pre : string) : bool := String.prefix pre s.

Fixpoint rev_app (s acc : string) : string :=
  match s with
  | EmptyString => acc
  | String c s' => rev_app s' (String c acc)
  end.
Definition str_rev (s : string) : string := rev_app s EmptyString.

(** [strings.HasSuffix] *)
Definition HasSuffix (s suf : string) : bool := HasPrefix (str_rev s) (str_rev suf).

(** [strings.ContainsRune] / [IndexByte >= 0] for one ASCII byte. *)
Fixpoint contains_byte (c : ascii) (s : string) : bool :=
  match s with
  | EmptyString => false
  | String x s' => Ascii.eqb x c || contains_byte c s'
  end.

(** [strings.Contains] *)
Fixpoint Contains (s sub : string) : bool :=
  HasPrefix s sub ||
  match s with
  | EmptyString => false
  | String _ s' => Contains s' sub
  end.

(** [strings.ReplaceAll] of one byte by another. *)
Fixpoint replace_byte (old new : ascii) (s : string) : string :=
  match s with
  | EmptyString => EmptyString
  | String x s' => String (if Ascii.eqb x old then new else x) (replace_byte old new s')
  end.

(** [strings.Split(s, sep)] for a one-byte separator. *)
Fixpoint Split (sep : ascii) (s : string) : list string :=
  match s with
  | EmptyString => [EmptyString]
  | String x s' =>
      if Ascii.eqb x sep then EmptyString :: Split sep s'
      else match Split sep s' with
           | [] => [String x EmptyString]
           | w :: ws => String x w :: ws
           end
  end.

(** [strings.Join(parts, sep)] for a one-byte separator. *)
Fixpoint Join (sep : ascii) (parts : list string) : string :=
  match parts with
  | [] => EmptyString
  | [w] => w
  | w :: ws => w +:+ String sep (Join sep ws)
  end.

(** [strings.TrimLeft(s, c)] and [strings.TrimRight(s, c)] for one byte. *)
Fixpoint TrimLeft (c : ascii) (s : string) : string :=
  match s with
  | EmptyString => EmptyString
  | String x s' => if Ascii.eqb x c then TrimLeft c s' else s
  end.
Definition TrimRight (c : ascii) (s : string) : string := str_rev (TrimLeft c (str_rev s)).
Definition Trim (c : ascii) (s : string) : string := TrimRight c (TrimLeft c s).

(** [strings.TrimPrefix(s, c)] for one byte. *)
Definition TrimPrefix (c : ascii) (s : string) : string :=
  match s with
  | String x s' => if Ascii.eqb x c then s' else s
  | EmptyString => s
  end.

(** [strings.ToLower].  ASCII strings take Go's fast path; a string with a
    non-ASCII byte goes through the Unicode tables, which are a parameter. *)
Definition ascii_lower (c : ascii) : ascii :=
  let n := N_of_ascii c in
  if (N.leb 65 n && N.leb n 90)%bool then ascii_of_N (n + 32) else c.
Fixpoint map_string (f : ascii → ascii) (s : string) : string :=
  match s with
  | EmptyString => EmptyString
  | String x s' => String (f x) (map_string f s')
  end.
Fixpoint is_ascii (s : string) : bool :=
  match s with
  | EmptyString => true
  | String x s' => N.ltb (N_of_ascii x) 128 && is_ascii s'
  end.
Class UnicodeTables := {
  unicode_lower : string → string;
  unicode_upper : string → string;
  unicode_trim : string → string;      (* TrimFunc with unicode.IsSpace *)
}.
Definition ToLower `{UnicodeTables} (s : string) : string :=
  if is_ascii s then map_string ascii_lower s else unicode_lower s.

(** [strings.ToUpper]: likewise. *)
Definition ascii_upper (c : ascii) : ascii :=
  let n := N_of_ascii c in
  if (N.leb 97 n && N.leb n 122)%bool then ascii_of_N (n - 32) else c.
Definition ToUpper `{UnicodeTables} (s : string) : string :=
  if is_ascii s then map_string ascii_upper s else unicode_upper s.

(** [strings.TrimSpace]: likewise. *)
Definition ascii_space (c : ascii) : bool :=
  let n := N_of_ascii c in (N.leb 9 n && N.leb n 13) || N.eqb n 32.
Fixpoint trim_left_space (s : string) : string :=
  match s with
  | EmptyString => EmptyString
  | String x s' => if ascii_space x then trim_left_space s' else s
  end.
Definition TrimSpace `{UnicodeTables} (s : string) : string :=
  if is_ascii s then str_rev (trim_left_space (str_rev (trim_left_space s))) else unicode_trim s.

(** [path.Ext] (and [filepath.Ext] on Unix): the suffix from the last dot of the
    last path element. *)
Fixpoint ext_rev (r acc : string) : string :=
  match r with
  | EmptyString => EmptyString
  | String x r' =>
      if Ascii.eqb x slash then EmptyString
      else if Ascii.eqb x dot then String x acc
      else ext_rev r' (String x acc)
  end.
Definition Ext (path : string) : string := ext_rev (str_rev path) EmptyString.

(** [utf8.ValidString]: Go's table-driven decoder, by the range of the first byte
    and the accepted range of the second. *)
Definition cont (lo hi : Z) (c : ascii) : bool := (lo <=? byteZ c) && (byteZ c <=? hi).
Fixpoint ValidUTF8 (s : string) : bool :=
  match s with
  | EmptyString => true
  | String c0 s1 =>
      let b0 := byteZ c0 in
      if b0 <? 128 then ValidUTF8 s1
      else match s1 with
      | EmptyString => false
      | String c1 s2 =>
          if (194 <=? b0) && (b0 <=? 223) then cont 128 191 c1 && ValidUTF8 s2
          else match s2 with
          | EmptyString => false
          | String c2 s3 =>
              let lo3 := if b0 =? 224 then 160 else 128 in
              let hi3 := if b0 =? 237 then 159 else 191 in
              if (224 <=? b0) && (b0 <=? 239)
              then cont lo3 hi3 c1 && cont 128 191 c2 && ValidUTF8 s3
              else match s3 with
              | EmptyString => false
              | String c3 s4 =>
                  let lo4 := if b0 =? 240 then 144 else 128 in
                  let hi4 := if b0 =? 244 then 143 else 191 in
                  (240 <=? b0) && (b0 <=? 244) && cont lo4 hi4 c1
                    && cont 128 191 c2 && cont 128 191 c3 && ValidUTF8 s4
              end
          end
      end
  end.

(** [io/fs.ValidPath]: unrooted, slash separated, no empty, "." or ".." element
    ("." alone is the root). *)
Definition valid_element (e : string) : bool :=
  negb (bool_decide (e = EmptyString)) && negb (bool_decide (e = "."%string))
  && negb (bool_decide (e = ".."%string)).
Definition ValidPath (name : string) : bool :=
  ValidUTF8 name &&
  (bool_decide (name = "."%string) || forallb valid_element (Split slash name)).

(** [path.Clean].  Go's byte loop is written by path elements: empty and "." elements
    are dropped, ".." drops the element before it (at the root of a rooted path it is
    dropped itself, at the start of a relative one it is kept); [stack] holds the
    elements kept so far, last first. *)
Definition clean_push (rooted : bool) (stack : list string) (e : string) : list string :=
  if bool_decide (e = EmptyString) || bool_decide (e = "."%string) then stack
  else if bool_decide (e = ".."%string) then
    match stack with
    | top :: rest => if bool_decide (top = ".."%string) then e :: stack else rest
    | [] => if rooted then [] else [e]
    end
  else e :: stack.

Definition clean_stack (rooted : bool) (elements : list string) : list string :=
  foldl (clean_push rooted) [] elements.

Definition is_rooted (p : string) : bool := HasPrefix p "/".

Definition Clean (p : string) : string :=
  let out := Join slash (rev (clean_stack (is_rooted p) (Split slash p))) in
  if is_rooted p then String slash out
  else if bool_decide (out = EmptyString) then "." else out.

(** [path.IsAbs], and [path.Join] of two elements: empty elements are dropped. *)
Definition IsAbs (p : string) : bool := is_rooted p.
Definition path_Join (a b : string) : string :=
  if bool_decide (a = EmptyString) then
    if bool_decide (b = EmptyString) then EmptyString else Clean b
  else if bool_decide (b = EmptyString) then Clean a
  else Clean (a +:+ String slash b).

(** [path.Dir] and [path.Base]. *)
Fixpoint after_slash (s : string) : string :=
  match s with
  | EmptyString => EmptyString
  | String x s' => if contains_byte slash s' then after_slash s'
                   else if Ascii.eqb x slash then s' else s
  end.
Fixpoint upto_slash (s : string) : string :=
  match s with
  | EmptyString => EmptyString
  | String x s' => if contains_byte slash s' then String x (upto_slash s')
                   else if Ascii.eqb x slash then String x EmptyString else EmptyString
  end.
Definition path_Dir (p : string) : string := Clean (upto_slash p).
Definition path_Base (p : string) : string :=
  if bool_decide (p = EmptyString) then "."
  else let b := after_slash (TrimRight slash p) in
       if bool_decide (b = EmptyString) then "/" else b.

(** [strconv.FormatInt(n, 10)]: a 64-bit number has at most 20 digits. *)
Fixpoint format_digits (fuel : nat) (n : Z) (acc : string) : string :=
  match fuel with
  | O => acc
  | S fuel' =>
      let d := ascii_of_N (Z.to_N (48 + n mod 10)) in
      if n <? 10 then String d acc else format_digits fuel' (n / 10) (String d acc)
  end.
Definition FormatInt (n : Z) : string :=
  if n <? 0 then String "-"%char (format_digits 20 (- n) EmptyString)
  else format_digits 20 n EmptyString.

(** The order of strings, by bytes. *)
Fixpoint str_leb (a b : string) : bool :=
  match a, b with
  | EmptyString, _ => true
  | String _ _, EmptyString => false
  | String x a', String y b' => (byteZ x <? byteZ y) || ((byteZ x =? byteZ y) && str_leb a' b')
  end.

(** [utf8.RuneCountInString]: a byte that starts no valid sequence counts as one. *)
Fixpoint RuneCount (s : string) : Z :=
  match s with
  | EmptyString => 0
  | String c0 s1 =>
      let b0 := byteZ c0 in
      if b0 <? 128 then 1 + RuneCount s1
      else match s1 with
      | EmptyString => 1
      | String c1 s2 =>
          if (194 <=? b0) && (b0 <=? 223) && cont 128 191 c1 then 1 + RuneCount s2
          else match s2 with
          | EmptyString => 1 + RuneCount s1
          | String c2 s3 =>
              let lo3 := if b0 =? 224 then 160 else 128 in
              let hi3 := if b0 =? 237 then 159 else 191 in
              if (224 <=? b0) && (b0 <=? 239) && cont lo3 hi3 c1 && cont 128 191 c2
              then 1 + RuneCount s3
              else match s3 with
              | EmptyString => 1 + RuneCount s1
              | String c3 s4 =>
                  let lo4 := if b0 =? 240 then 144 else 128 in
                  let hi4 := if b0 =? 244 then 143 else 191 in
                  if (240 <=? b0) && (b0 <=? 244) && cont lo4 hi4 c1 && cont 128 191 c2
                     && cont 128 191 c3
                  then 1 + RuneCount s4 else 1 + RuneCount s1
              end
          end
      end
  end.

(** The string with U+FFFD for every byte that starts no valid sequence: what a range
    over the runes, appended one by one, gives. *)
Definition replacement : string :=
  String (ascii_of_N 239) (String (ascii_of_N 191) (String (ascii_of_N 189) EmptyString)).
Fixpoint ToValidUTF8 (s : string) : string :=
  match s with
  | EmptyString => EmptyString
  | String c0 s1 =>
      let b0 := byteZ c0 in
      if b0 <? 128 then String c0 (ToValidUTF8 s1)
      else match s1 with
      | EmptyString => replacement
      | String c1 s2 =>
          if (194 <=? b0) && (b0 <=? 223) && cont 128 191 c1 then String c0 (String c1 (ToValidUTF8 s2))
          else match s2 with
          | EmptyString => replacement +:+ ToValidUTF8 s1
          | String c2 s3 =>
              let lo3 := if b0 =? 224 then 160 else 128 in
              let hi3 := if b0 =? 237 then 159 else 191 in
              if (224 <=? b0) && (b0 <=? 239) && cont lo3 hi3 c1 && cont 128 191 c2
              then String c0 (String c1 (String c2 (ToValidUTF8 s3)))
              else match s3 with
              | EmptyString => replacement +:+ ToValidUTF8 s1
              | String c3 s4 =>
                  let lo4 := if b0 =? 240 then 144 else 128 in
                  let hi4 := if b0 =? 244 then 143 else 191 in
                  if (240 <=? b0) && (b0 <=? 244) && cont lo4 hi4 c1 && cont 128 191 c2
                     && cont 128 191 c3
                  then String c0 (String c1 (String c2 (String c3 (ToValidUTF8 s4))))
                  else replacement +:+ ToValidUTF8 s1
              end
          end
      end
  end.

(** ** Decimal digits *)

Definition digit_of (c : ascii) : option Z :=
  let n := byteZ c in if (48 <=? n) && (n <=? 57) then Some (n - 48) else None.

(** The digits of [strconv.ParseUint] in base 10. *)
Fixpoint parse_digits (acc : Z) (s : string) : option Z :=
  match s with
  | EmptyString => Some acc
  | String c s' => d ← digit_of c; parse_digits (acc * 10 + d) s'
  end.

Lemma byteZ_ascii n : 0 ≤ n < 256 → byteZ (ascii_of_N (Z.to_N n)) = n.
Proof. intros Hn. unfold byteZ. rewrite N_ascii_embedding by lia. lia. Qed.

Lemma digit_of_digit n : 0 ≤ n < 10 → digit_of (ascii_of_N (Z.to_N (48 + n))) = Some n.
Proof.
  intros Hn. unfold digit_of. rewrite byteZ_ascii by lia.
  rewrite (proj2 (Z.leb_le 48 _)), (proj2 (Z.leb_le _ 57)) by lia. simpl. f_equal. lia.
Qed.

Lemma parse_format fuel n acc :
  0 ≤ n < 10 ^ Z.of_nat fuel →
  parse_digits 0 (format_digits fuel n acc) = parse_digits n acc.
Proof.
  revert n acc. induction fuel as [|fuel IH]; intros n acc Hn.
  { simpl in *. by replace n with 0 by lia. }
  rewrite Nat2Z.inj_succ, Z.pow_succ_r in Hn by lia.
  pose proof (Z.mod_pos_bound n 10 ltac:(lia)) as Hm.
  pose proof (Z.div_mod n 10 ltac:(lia)) as Hd.
  cbn [format_digits]. destruct (Z.ltb_spec n 10).
  - cbn [parse_digits]. rewrite digit_of_digit by done. cbn [mbind option_bind].
    by rewrite Z.mod_small by lia.
  - rewrite IH by (split; [apply Z.div_pos; lia|apply Z.div_lt_upper_bound; lia]).
    cbn [parse_digits]. rewrite digit_of_digit by done. cbn [mbind option_bind].
    f_equal. lia.
Qed.

Lemma format_digits_head fuel n acc :
  0 ≤ n → (0 < fuel)%nat →
  ∃ d s, 0 ≤ d < 10 ∧ format_digits fuel n acc = String (ascii_of_N (Z.to_N (48 + d))) s.
Proof.
  revert n acc. induction fuel as [|fuel IH]; intros n acc Hn Hf; [lia|].
  pose proof (Z.mod_pos_bound n 10 ltac:(lia)) as Hm. cbn [format_digits].
  destruct (n <? 10); [by eexists _, _|]. destruct fuel as [|fuel]; [by eexists _, _|].
  apply IH; [apply Z.div_pos; lia|lia].
Qed.
