(* ===== verification/FileHistory.v ===== *)
(** * File revision history (server/file_history.go)

    The per-server revision store: a SQLite database with a [files] and a
    [revisions] table.  A revision is a zstd snapshot, or a zstd delta against a
    base revision of the same chain; a chain starts at a snapshot, whose id is
    the chain id.  [record] appends a revision and prunes old chains;
    [reconstructHistoryRevision] follows the base links back to the snapshot and
    decodes forward, checking the SHA-256 of every step. *)

From stdpp Require Import base gmap sets list strings numbers sorting.
From Stdlib Require Import Strings.Byte.
From S2P Require Import Prelude GoStrings.
Open Scope Z_scope.

Abbreviation bytes := (list byte).

(** ** Data *)

Record FileHistoryConfiguration := mkHistoryConfig {
  cfgEnabled : bool;
  cfgZstdLevel : Z;
  cfgAnchorInterval : Z;
  cfgKeepChains : Z;
  cfgFileSizeCap : Z;
  cfgPerFileDiskBudget : Z;
  cfgPerServerDiskBudget : Z;
}.

(** A row of the [revisions] table. *)
Record revision := mkRevision {
  rv_id : Z;
  rv_file : Z;
  rv_chain : Z;
  rv_size : Z;
  rv_user : option string;
  rv_base : option Z;
  rv_payload : bytes;
  rv_hash : string;
  rv_created : Z;
}.

(** A row of the [files] table. *)
Record file_row := mkFile { fl_id : Z; fl_path : string }.

Record db := mkDb { files : list file_row; revisions : list revision }.

(** The entry [ListFileRevisions] returns. *)
Record FileRevision := mkFileRevision {
  fr_ID : Z;
  fr_Size : Z;
  fr_StoredSize : Z;
  fr_User : string;
  fr_IsSnapshot : bool;
  fr_Created : Z;
}.

Inductive herr :=
| ErrSql            (* the database failed to answer a statement *)
| ErrNoRows         (* sql.ErrNoRows *)
| ErrUnique         (* UNIQUE constraint on files.path *)
| ErrUint64         (* database/sql refuses a uint64 with the high bit set *)
| ErrCodec          (* zstd *)
| ErrRoundTrip      (* zstd delta round-trip mismatch *)
| ErrNoAnchor       (* the revision has no snapshot anchor *)
| ErrHashMismatch   (* content hash mismatch *)
| ErrFuel.          (* the bounded loops below ran out; never produced *)

#[global] Instance herr_eq_dec : EqDecision herr.
Proof. solve_decision. Defined.

(** ** What the store takes from libraries: klauspost/compress/zstd and
    crypto/sha256.  [None] is an error of the encoder or decoder. *)

Class Zstd := {
  zstd_encode : Z → bytes → option bytes;               (* level, content *)
  zstd_decode : bytes → option bytes;
  zstd_encode_dict : Z → bytes → bytes → option bytes;  (* level, dictionary, content *)
  zstd_decode_dict : bytes → bytes → option bytes;      (* payload, dictionary *)
  sha256_hex : bytes → string;
}.

(** The documented round trip of the plain codec at a level.  Nothing is assumed
    of the dictionary codec: the code checks it at run time. *)
Class ZstdLaws `{Zstd} (level : Z) := {
  zstd_round_trip : ∀ content, ∃ payload,
    zstd_encode level content = Some payload ∧ zstd_decode payload = Some content;
}.

(** ** Tables and statements *)

(** State of one database handle: the tables and the number of statements sent. *)
Record conn := mkConn { c_db : db; c_stmts : nat }.

Abbreviation tx := (st conn herr).

(** First row of a result set that is not ordered by the statement. *)
Definition find_row {A} (P : A → Prop) `{∀ a, Decision (P a)} (l : list A) : option A :=
  head (filter P l).

(** Row ids: one more than the largest id of the table (SQLite's rowid rule). *)
Definition next_id (ids : list Z) : Z := 1 + foldr Z.max 0 ids.

Definition of_file (fileID : Z) (l : list revision) : list revision :=
  filter (λ r, rv_file r = fileID) l.
Definition of_chain (fileID chainID : Z) (l : list revision) : list revision :=
  filter (λ r, rv_file r = fileID ∧ rv_chain r = chainID) l.
Definition chains_of (fileID : Z) (l : list revision) : list Z :=
  distinct_desc (rv_chain <$> of_file fileID l).
Definition payload_bytes (l : list revision) : Z := zsum (λ r, zlen (rv_payload r)) l.

(** [NULLIF(?, '')] and [COALESCE(user_id, '')]. *)
Definition nullif_empty (user : string) : option string :=
  if decide (user = EmptyString) then None else Some user.

Section store.
Context `{Zstd}.

(** [sql_fails n] says that the [n]-th statement sent to the database fails. *)
Variable sql_fails : nat → bool.

(** Sending one statement: it may fail; otherwise it yields a result and the
    updated tables. *)
Definition statement {A} (f : db → result herr A * db) : tx A := λ c,
  if sql_fails (c_stmts c) then (Err ErrSql, mkConn (c_db c) (S (c_stmts c)))
  else let rd := f (c_db c) in (fst rd, mkConn (snd rd) (S (c_stmts c))).

Definition query {A} (f : db → A) : tx A := statement (λ d, (Ok (f d), d)).
Definition query_row {A} (f : db → option A) : tx A :=
  statement (λ d, (match f d with Some a => Ok a | None => Err ErrNoRows end, d)).
Definition exec (f : list revision → list revision) : tx unit :=
  statement (λ d, (Ok tt, mkDb (files d) (f (revisions d)))).

(** Running a computation whose error the caller inspects. *)
Definition try_tx {A} (m : tx A) : tx (result herr A) := λ c,
  let rc := m c in (Ok (fst rc), snd rc).

(** ** Codec helpers *)

Definition contentHash (content : bytes) : string := sha256_hex content.

Definition encodeHistorySnapshot (content : bytes) (level : Z) : result herr bytes :=
  match zstd_encode level content with Some p => Ok p | None => Err ErrCodec end.

Definition decodeHistorySnapshot (payload : bytes) : result herr bytes :=
  match zstd_decode payload with Some c => Ok c | None => Err ErrCodec end.

Definition decodeHistoryDelta (payload base : bytes) : result herr bytes :=
  match zstd_decode_dict payload base with Some c => Ok c | None => Err ErrCodec end.

Definition encodeHistoryDelta (base content : bytes) (level : Z) : result herr bytes :=
  match zstd_encode_dict level base content with
  | None => Err ErrCodec
  | Some payload =>
      decoded ← decodeHistoryDelta payload base;
      if decide (decoded = content) then Ok payload else Err ErrRoundTrip
  end.

Definition maxUint64 (value fallback : Z) : Z := if value =? 0 then fallback else value.

(** ** Queries *)

Definition upsertHistoryFile (path : string) : tx Z :=
  found ← query (λ d, fl_id <$> find_row (λ f, fl_path f = path) (files d));
  match found with
  | Some id => mret id
  | None =>
      statement (λ d,
        let id := next_id (fl_id <$> files d) in
        (Ok id, mkDb (files d ++ [mkFile id path]) (revisions d)))
  end.

Definition findHistoryFile (path : string) : tx Z :=
  query (λ d, default 0 (fl_id <$> find_row (λ f, fl_path f = path) (files d))).

Definition latestFileRevision (fileID : Z) : tx (option revision) :=
  query (λ d, max_by rv_id (of_file fileID (revisions d))).

Definition latestHistoryChainID (fileID : Z) : tx (option Z) :=
  query (λ d, rv_chain <$> max_by rv_id (of_file fileID (revisions d))).

Definition currentHistoryChainLength (fileID chainID : Z) : tx Z :=
  query (λ d, zlen (of_chain fileID chainID (revisions d))).

Definition historyFilePayloadBytes (fileID : Z) : tx Z :=
  query (λ d, payload_bytes (of_file fileID (revisions d))).

Definition historyTotalPayloadBytes : tx Z :=
  query (λ d, payload_bytes (revisions d)).

(** ** Inserting revisions *)

Definition insert_row (r : Z → revision) : tx Z :=
  statement (λ d,
    let id := next_id (rv_id <$> revisions d) in
    (Ok id, mkDb (files d) (revisions d ++ [r id]))).

Definition set_chain (chain : Z) (r : revision) : revision :=
  mkRevision (rv_id r) (rv_file r) chain (rv_size r) (rv_user r) (rv_base r)
    (rv_payload r) (rv_hash r) (rv_created r).

Definition insertEncodedHistorySnapshot
    (fileID : Z) (user : string) (content payload : bytes) (createdMs : Z) : tx Z :=
  id ← insert_row (λ id, mkRevision id fileID 0 (zlen content) (nullif_empty user) None
                           payload (contentHash content) createdMs);
  _ ← exec (fmap (λ r, if decide (rv_id r = id) then set_chain id r else r));
  mret id.

Definition insertHistorySnapshot
    (fileID : Z) (user : string) (content : bytes) (createdMs level : Z) : tx Z :=
  payload ← st_lift (encodeHistorySnapshot content level);
  insertEncodedHistorySnapshot fileID user content payload createdMs.

Definition insertEncodedHistoryDelta
    (fileID baseID chainID : Z) (user : string) (content payload : bytes)
    (createdMs : Z) : tx Z :=
  insert_row (λ id, mkRevision id fileID chainID (zlen content) (nullif_empty user)
                      (Some baseID) payload (contentHash content) createdMs).

Definition insertCompactHistoryRevision
    (fileID baseID chainID : Z) (base : bytes) (user : string) (content : bytes)
    (createdMs level : Z) : tx Z :=
  snapshotPayload ← st_lift (encodeHistorySnapshot content level);
  match encodeHistoryDelta base content level with
  | Err _ => insertEncodedHistorySnapshot fileID user content snapshotPayload createdMs
  | Ok deltaPayload =>
      if zlen snapshotPayload * 9 <=? zlen deltaPayload * 10
      then insertEncodedHistorySnapshot fileID user content snapshotPayload createdMs
      else insertEncodedHistoryDelta fileID baseID chainID user content deltaPayload createdMs
  end.

(** ** Reconstruction *)

(** The loop over base links: at most [steps] rows, newest first. *)
Fixpoint collect_chain (steps : nat) (current : Z) (chain : list revision)
    : tx (list revision) :=
  match steps with
  | O => mret chain
  | S steps' =>
      row ← query_row (λ d, find_row (λ r, rv_id r = current) (revisions d));
      match rv_base row with
      | None => mret (chain ++ [row])
      | Some base => collect_chain steps' base (chain ++ [row])
      end
  end.

(** Decoding forward from the snapshot, checking every hash. *)
Fixpoint replay (content : bytes) (chain : list revision) : result herr bytes :=
  match chain with
  | [] => Ok content
  | next :: rest =>
      content' ← decodeHistoryDelta (rv_payload next) content;
      if decide (contentHash content' = rv_hash next) then replay content' rest
      else Err ErrHashMismatch
  end.

Definition replay_chain (chain : list revision) : result herr bytes :=
  match chain with
  | [] => Err ErrNoAnchor
  | first :: rest =>
      if decide (is_Some (rv_base first)) then Err ErrNoAnchor
      else
        content ← decodeHistorySnapshot (rv_payload first);
        if decide (contentHash content = rv_hash first) then replay content rest
        else Err ErrHashMismatch
  end.

Definition reconstruct_limit : nat := 1000.

Definition reconstructHistoryRevision (id : Z) : tx bytes :=
  chain ← collect_chain reconstruct_limit id [];
  st_lift (replay_chain (reverse chain)).

(** ** Pruning *)

Definition delete_rows (P : revision → Prop) `{∀ r, Decision (P r)} : tx unit :=
  exec (filter (λ r, ¬ P r)).

Definition pruneOldHistoryChains (fileID keepChains : Z) : tx unit :=
  if 2 ^ 63 <=? keepChains then st_err ErrUint64
  else
    chains ← query (λ d, take (Z.to_nat keepChains) (chains_of fileID (revisions d)));
    match last chains with
    | None => mret tt
    | Some oldest =>
        if zlen chains <? keepChains then mret tt
        else delete_rows (λ r, rv_file r = fileID ∧ rv_chain r < oldest)
    end.

(** [SELECT MIN(x)]. *)
Definition min_of (l : list Z) : option Z := Z.opp <$> max_by id (Z.opp <$> l).

Definition dropOldestHistoryChain (fileID : Z) (protected : option Z) (minChains : Z) : tx Z :=
  count ← query (λ d, zlen (chains_of fileID (revisions d)));
  if count <=? maxUint64 minChains 1 then mret 0
  else
    chainID ← query (λ d,
      min_of (rv_chain <$> filter (λ r, protected ≠ Some (rv_chain r))
                             (of_file fileID (revisions d))));
    match chainID with
    | None => mret 0
    | Some chainID =>
        freed ← query (λ d, payload_bytes (of_chain fileID chainID (revisions d)));
        _ ← delete_rows (λ r, rv_file r = fileID ∧ rv_chain r = chainID);
        mret freed
    end.

(** The rows the global query ranges over: files with more than one chain, less
    the protected chain. *)
Definition prunable (protectedFile : Z) (protectedChain : option Z) (l : list revision)
    : list revision :=
  filter (λ r, 1 < zlen (chains_of (rv_file r) l)
    ∧ ¬ (rv_file r = protectedFile ∧ protectedChain = Some (rv_chain r))) l.

(** [GROUP BY file_id, chain_id ORDER BY MIN(created) ASC, chain_id ASC LIMIT 1]:
    the row of least (created, chain_id) lies in the group the query returns. *)
Definition older (a b : revision) : bool :=
  (rv_created a <? rv_created b)
  || ((rv_created a =? rv_created b) && (rv_chain a <=? rv_chain b)).
Fixpoint oldest_row (l : list revision) : option revision :=
  match l with
  | [] => None
  | r :: l' =>
      match oldest_row l' with
      | None => Some r
      | Some m => if older r m then Some r else Some m
      end
  end.

Definition dropGloballyOldestHistoryChain (protectedFile : Z) (protectedChain : option Z)
    : tx Z :=
  victim ← query (λ d, (λ r, (rv_file r, rv_chain r)) <$>
                         oldest_row (prunable protectedFile protectedChain (revisions d)));
  match victim with
  | None => mret 0
  | Some (fileID, chainID) =>
      freed ← query (λ d, payload_bytes (of_chain fileID chainID (revisions d)));
      _ ← delete_rows (λ r, rv_file r = fileID ∧ rv_chain r = chainID);
      mret freed
  end.

(** A loop bound read off the table: one turn per revision, and one to stop. *)
Definition turns_per_row (loop : nat → tx unit) : tx unit := λ c,
  loop (S (length (revisions (c_db c)))) c.

(** The [for] loops of the pruners.  Every turn but the last deletes a chain, so
    one turn per revision is enough. *)
Fixpoint prune_file_loop (turns : nat) (fileID : Z) (protected : option Z)
    (cfg : FileHistoryConfiguration) : tx unit :=
  match turns with
  | O => st_err ErrFuel
  | S turns' =>
      size ← historyFilePayloadBytes fileID;
      if size <=? cfgPerFileDiskBudget cfg then mret tt
      else
        freed ← dropOldestHistoryChain fileID protected (maxUint64 (cfgKeepChains cfg) 1);
        if freed =? 0 then mret tt else prune_file_loop turns' fileID protected cfg
  end.

Definition pruneHistory (fileID : Z) (protected : option Z)
    (cfg : FileHistoryConfiguration) : tx unit :=
  _ ← pruneOldHistoryChains fileID (maxUint64 (cfgKeepChains cfg) 1);
  turns_per_row (λ turns, prune_file_loop turns fileID protected cfg).

Fixpoint prune_server_loop (turns : nat) (protectedFile : Z) (protected : option Z)
    (cfg : FileHistoryConfiguration) : tx unit :=
  match turns with
  | O => st_err ErrFuel
  | S turns' =>
      size ← historyTotalPayloadBytes;
      if size <=? cfgPerServerDiskBudget cfg then mret tt
      else
        freed ← dropGloballyOldestHistoryChain protectedFile protected;
        if freed =? 0 then mret tt else prune_server_loop turns' protectedFile protected cfg
  end.

Definition pruneServerHistory (protectedFile : Z) (protected : option Z)
    (cfg : FileHistoryConfiguration) : tx unit :=
  if cfgPerServerDiskBudget cfg =? 0 then mret tt
  else turns_per_row (λ turns, prune_server_loop turns protectedFile protected cfg).

(** ** The store's operations *)

(** What the [switch] of [record] does: [inl id] inserted revision [id] and goes on
    to prune; [inr id] commits and returns at once. *)
Definition record_switch (fileID : Z) (latest : option revision) (before after : bytes)
    (user : string) (nowMs : Z) (cfg : FileHistoryConfiguration) : tx (Z + Z) :=
  let level := cfgZstdLevel cfg in
  match latest with
  | None =>
      if 0 <? zlen before then
        baseID ← insertHistorySnapshot fileID EmptyString before (nowMs - 1) level;
        id ← insertCompactHistoryRevision fileID baseID baseID before user after nowMs level;
        mret (inl id)
      else
        id ← insertHistorySnapshot fileID user after nowMs level;
        mret (inl id)
  | Some latest =>
      if decide (rv_hash latest = contentHash after) then mret (inr (rv_id latest))
      else
        chainLength ← currentHistoryChainLength fileID (rv_chain latest);
        if wrap64 (maxUint64 (cfgAnchorInterval cfg) 1) <=? chainLength then
          id ← insertHistorySnapshot fileID user after nowMs level;
          mret (inl id)
        else
          previous ← try_tx (reconstructHistoryRevision (rv_id latest));
          match previous with
          | Err _ =>
              id ← insertHistorySnapshot fileID user after nowMs level;
              mret (inl id)
          | Ok previous =>
              id ← insertCompactHistoryRevision fileID (rv_id latest) (rv_chain latest)
                     previous user after nowMs level;
              mret (inl id)
          end
  end.

Definition record_tx (path : string) (before after : bytes) (user : string) (nowMs : Z)
    (cfg : FileHistoryConfiguration) : tx Z :=
  fileID ← upsertHistoryFile path;
  latest ← latestFileRevision fileID;
  outcome ← record_switch fileID latest before after user nowMs cfg;
  match outcome with
  | inr id => mret id
  | inl revisionID =>
      protectedChain ← latestHistoryChainID fileID;
      _ ← pruneHistory fileID protectedChain cfg;
      _ ← pruneServerHistory fileID protectedChain cfg;
      mret revisionID
  end.

(** [Begin], the body, [Commit].  What the deferred [Rollback] relies on is SQLite's
    atomic commit: a transaction that was not committed (its body failed, or [Commit]
    answered with an error) never shows in the tables, whether or not the [ROLLBACK]
    statement itself is answered. *)
Definition transaction {A} (body : tx A) : tx A := λ c,
  match (_ ← query (λ _, tt); a ← body; _ ← query (λ _, tt); mret a) c with
  | (Ok a, c') => (Ok a, c')
  | (Err e, c') => (Err e, mkConn (c_db c) (c_stmts c'))
  end.

Definition record (path : string) (before after : bytes) (user : string) (nowMs : Z)
    (cfg : FileHistoryConfiguration) : tx Z :=
  if decide (before = after) then mret 0
  else transaction (record_tx path before after user nowMs cfg).

Definition to_entry (r : revision) : FileRevision :=
  mkFileRevision (rv_id r) (rv_size r) (zlen (rv_payload r)) (default EmptyString (rv_user r))
    (bool_decide (rv_base r = None)) (rv_created r).

Definition list_revisions (path : string) : tx (list FileRevision) :=
  fileID ← findHistoryFile path;
  if fileID =? 0 then mret []
  else query (λ d, to_entry <$> merge_sort (key_desc rv_id) (of_file fileID (revisions d))).

Definition content (id : Z) : tx (bytes * string) :=
  body ← reconstructHistoryRevision id;
  path ← query_row (λ d,
    r ← find_row (λ r, rv_id r = id) (revisions d);
    fl_path <$> find_row (λ f, fl_id f = rv_file r) (files d));
  mret (body, path).

(** [DELETE FROM files]; the foreign key deletes the file's revisions ([init] turns
    foreign keys on for the connection, and the store's mutex keeps it to one). *)
Definition deleteFile (path : string) : tx unit :=
  statement (λ d,
    let gone := filter (λ f, fl_path f = path) (files d) in
    (Ok tt, mkDb (filter (λ f, fl_path f ≠ path) (files d))
                 (filter (λ r, rv_file r ∉ fl_id <$> gone) (revisions d)))).

Definition renameFile (oldPath newPath : string) : tx unit :=
  statement (λ d,
    if decide (oldPath ≠ newPath ∧ oldPath ∈ fl_path <$> files d
               ∧ newPath ∈ fl_path <$> files d)
    then (Err ErrUnique, d)
    else (Ok tt, mkDb ((λ f, if decide (fl_path f = oldPath) then mkFile (fl_id f) newPath else f)
                         <$> files d) (revisions d))).
(** ** What is recorded *)

Definition fileHistorySkippedExtensions : list string :=
  [".7z"; ".a"; ".avi"; ".bin"; ".br"; ".bz2"; ".class"; ".dat"; ".db"; ".dll"; ".dylib";
   ".exe"; ".gif"; ".gz"; ".idx"; ".jar"; ".jpeg"; ".jpg"; ".ldb"; ".lz4"; ".m4a"; ".m4v";
   ".mca"; ".mcc"; ".mcr"; ".mdb"; ".mkv"; ".mov"; ".mp3"; ".mp4"; ".o"; ".ogg"; ".ogv";
   ".pak"; ".pack"; ".png"; ".rar"; ".rdb"; ".so"; ".sqlite"; ".sqlite3"; ".sst"; ".tar";
   ".tgz"; ".war"; ".wav"; ".webm"; ".webp"; ".xz"; ".zip"; ".zst"]%string.

Definition isFileHistoryPathAllowed `{UnicodeTables} (path : string) : bool :=
  let ext := ToLower (Ext path) in
  if decide (ext = EmptyString) then true
  else negb (bool_decide (ext ∈ fileHistorySkippedExtensions)).

(** The loop over the sample: [None] when a NUL byte was met. *)
Fixpoint count_control (sample : bytes) (controlBytes : Z) : option Z :=
  match sample with
  | [] => Some controlBytes
  | b :: rest =>
      let n := Z.of_N (Byte.to_N b) in
      if n =? 0 then None
      else if (n =? 10) || (n =? 13) || (n =? 9) || (n =? 12) then count_control rest controlBytes
      else count_control rest (if n <? 32 then controlBytes + 1 else controlBytes)
  end.

Definition isLikelyBinaryHistoryContent (body : bytes) : bool :=
  if zlen body =? 0 then false
  else
    let sample := if 8192 <? zlen body then take (Z.to_nat 8192) body else body in
    match count_control sample 0 with
    | None => true
    | Some controlBytes => zlen sample * 5 <? controlBytes * 100
    end.

Definition ShouldRecordFileHistory `{UnicodeTables} (cfg : FileHistoryConfiguration)
    (path : string) (size : Z) : bool :=
  cfgEnabled cfg && (size <=? cfgFileSizeCap cfg) && isFileHistoryPathAllowed path.

(** [open] is the result of opening the server's store. *)
Definition RecordFileRevision `{UnicodeTables} (open : result herr unit)
    (cfg : FileHistoryConfiguration) (path : string) (before after : bytes) (user : string)
    (nowMs : Z) : tx Z :=
  if negb (ShouldRecordFileHistory cfg path (zlen after)) || isLikelyBinaryHistoryContent after
  then mret 0
  else
    _ ← st_lift open;
    record path before after user nowMs cfg.

Definition ListFileRevisions (open : result herr unit) (cfg : FileHistoryConfiguration)
    (path : string) : tx (list FileRevision) :=
  if negb (cfgEnabled cfg) then mret []
  else _ ← st_lift open; list_revisions path.

Definition FileRevisionContent (open : result herr unit) (cfg : FileHistoryConfiguration)
    (id : Z) : tx (bytes * string) :=
  if negb (cfgEnabled cfg) then st_err ErrNoRows
  else _ ← st_lift open; content id.

(** The two notifications log their errors and return nothing. *)
Definition ForgetFileHistory (open : result herr unit) (cfg : FileHistoryConfiguration)
    (path : string) : tx unit :=
  if negb (cfgEnabled cfg) then mret tt
  else _ ← try_tx (_ ← st_lift open; deleteFile path); mret tt.

Definition RenameFileHistory (open : result herr unit) (cfg : FileHistoryConfiguration)
    (oldPath newPath : string) : tx unit :=
  if negb (cfgEnabled cfg) then mret tt
  else _ ← try_tx (_ ← st_lift open; renameFile oldPath newPath); mret tt.
End store.
