(* ===== verification/FileHistoryFacts.v ===== *)
(** * Correctness of the file revision history

    The invariant of the store ([wf], with [represents] for the content of a row), what
    each statement and each operation does to it, and the properties of recording, reading,
    pruning and renaming. *)

From stdpp Require Import base gmap sets list strings numbers sorting.
From Stdlib Require Import Strings.Byte.
From S2P Require Import Prelude GoStrings FileHistory.
Open Scope Z_scope.

(** ** Abstract contents and the store's invariant *)

Section invariant.
Context `{Zstd}.

(** [represents l r c n]: following the base links of row [r] through table [l]
    reaches a snapshot after [n] rows, and decoding forward yields [c], with the
    recorded hash at every step. *)
Inductive represents (l : list revision) : revision → bytes → nat → Prop :=
| rep_snapshot r c :
    r ∈ l → rv_base r = None →
    zstd_decode (rv_payload r) = Some c → contentHash c = rv_hash r →
    represents l r c 1
| rep_delta r rb c cb n :
    r ∈ l → rv_base r = Some (rv_id rb) → represents l rb cb n →
    zstd_decode_dict (rv_payload r) cb = Some c → contentHash c = rv_hash r →
    represents l r c (S n).

(** How a row hangs on its chain. *)
Definition linked (l : list revision) (r : revision) : Prop :=
  match rv_base r with
  | None => rv_chain r = rv_id r
  | Some b => ∃ rb, rb ∈ l ∧ rv_id rb = b ∧ rv_file rb = rv_file r
                    ∧ rv_chain rb = rv_chain r ∧ b < rv_id r
  end.

(** The contents the store may hold. *)
Context {L : bytes → Prop}.

Record wf (d : db) : Prop := {
  wf_ids : NoDup (rv_id <$> revisions d);
  wf_file_ids : NoDup (fl_id <$> files d);
  wf_file_paths : NoDup (fl_path <$> files d);
  wf_file_pos : ∀ f, f ∈ files d → 0 < fl_id f;
  wf_foreign_key : ∀ r, r ∈ revisions d → rv_file r ∈ fl_id <$> files d;
  wf_linked : ∀ r, r ∈ revisions d → linked (revisions d) r;
  wf_order : ∀ r1 r2, r1 ∈ revisions d → r2 ∈ revisions d → rv_file r1 = rv_file r2 →
    rv_chain r1 < rv_chain r2 → rv_id r1 < rv_chain r2;
  wf_content : ∀ r, r ∈ revisions d →
    ∃ c n, represents (revisions d) r c n ∧ (n ≤ reconstruct_limit)%nat ∧ L c;
}.

Lemma represents_in l r c n : represents l r c n → r ∈ l.
Proof. by destruct 1. Qed.

Lemma represents_hash l r c n : represents l r c n → contentHash c = rv_hash r.
Proof. by destruct 1. Qed.

Lemma NoDup_ids_eq (l : list revision) r1 r2 :
  NoDup (rv_id <$> l) → r1 ∈ l → r2 ∈ l → rv_id r1 = rv_id r2 → r1 = r2.
Proof.
  induction l as [|r l IH]; simpl; [set_solver|].
  rewrite NoDup_cons, !elem_of_cons. intros [Hn Hd] H1 H2 E.
  destruct H1 as [->|H1], H2 as [->|H2]; auto.
  - destruct Hn. rewrite E. by apply list_elem_of_fmap_2.
  - destruct Hn. rewrite <-E. by apply list_elem_of_fmap_2.
Qed.

Lemma represents_fun l r c c' n n' :
  NoDup (rv_id <$> l) → represents l r c n → represents l r c' n' → c = c' ∧ n = n'.
Proof.
  intros Hnd Hr. revert c' n'. induction Hr as [r c Hin Hb Hd _|r rb c cb n Hin Hb Hr IH Hd _];
    intros c' n' H'; inversion H'; simplify_eq; [done|].
  match goal with
  | Hrb : represents l ?r0 _ _, E : rv_id ?r0 = rv_id rb |- _ =>
      assert (r0 = rb) as -> by eauto using NoDup_ids_eq, represents_in;
      destruct (IH _ _ Hrb) as [-> ->]
  end. by simplify_eq.
Qed.

Lemma represents_mono l l' r c n :
  represents l r c n → l ⊆ l' → represents l' r c n.
Proof.
  induction 1; intros Hsub; [eapply rep_snapshot|eapply rep_delta]; eauto.
Qed.

(** Every row's chain has its snapshot in the table, no later than the row. *)
Lemma anchor d r : wf d → r ∈ revisions d →
  ∃ s, s ∈ revisions d ∧ rv_base s = None ∧ rv_id s = rv_chain r
       ∧ rv_file s = rv_file r ∧ rv_chain r ≤ rv_id r.
Proof.
  intros Hwf Hin. destruct (wf_content _ Hwf r Hin) as (c & n & Hrep & _).
  induction Hrep as [r c _ Hb|r rb c cb n _ Hb Hrep IH];
    pose proof (wf_linked _ Hwf r Hin) as Hl; unfold linked in Hl; rewrite Hb in Hl.
  - exists r. rewrite Hl. auto with lia.
  - destruct Hl as (rb' & Hrb' & Eid & Ef & Ec & Hlt).
    assert (rb' = rb) as -> by eauto using NoDup_ids_eq, wf_ids, represents_in.
    destruct (IH Hrb') as (s & ? & ? & ? & ? & ?).
    exists s. rewrite <-Ec, <-Ef. repeat split; auto. lia.
Qed.

Lemma chain_file d r1 r2 : wf d → r1 ∈ revisions d → r2 ∈ revisions d →
  rv_chain r1 = rv_chain r2 → rv_file r1 = rv_file r2.
Proof.
  intros Hwf H1 H2 E.
  destruct (anchor d r1) as (s1 & ? & ? & ? & ? & ?); auto.
  destruct (anchor d r2) as (s2 & ? & ? & ? & ? & ?); auto.
  assert (s1 = s2) as -> by (eapply NoDup_ids_eq; eauto using wf_ids; congruence).
  congruence.
Qed.

(** The newest row of a file belongs to the file's newest chain. *)
Lemma latest_chain_max d r r' : wf d → r ∈ revisions d → r' ∈ revisions d →
  rv_file r' = rv_file r → rv_id r' ≤ rv_id r → (∀ x, x ∈ revisions d → rv_file x = rv_file r → rv_id x ≤ rv_id r) →
  rv_chain r' ≤ rv_chain r.
Proof.
  intros Hwf Hr Hr' Ef _ Hmax.
  destruct (Z.le_gt_cases (rv_chain r') (rv_chain r)) as [|Hlt]; [done|].
  pose proof (wf_order _ Hwf r r' Hr Hr' (eq_sym Ef) Hlt).
  destruct (anchor d r' Hwf Hr') as (s & Hs & _ & Hid & Hf & ?).
  pose proof (Hmax s Hs ltac:(congruence)). lia.
Qed.

(** A row decodes in at most as many steps as its chain has rows. *)
Lemma represents_depth d r c n : wf d → represents (revisions d) r c n →
  (n ≤ length (of_chain (rv_file r) (rv_chain r) (revisions d)))%nat.
Proof.
  intros Hwf Hrep.
  enough (∃ path, length path = n ∧ NoDup path
    ∧ (∀ x, x ∈ path → x ∈ revisions d ∧ rv_file x = rv_file r
         ∧ rv_chain x = rv_chain r ∧ rv_id x ≤ rv_id r)) as (path & <- & Hnd & Hpath).
  { apply submseteq_length, NoDup_submseteq; [done|]. intros x Hx.
    destruct (Hpath x Hx) as (? & ? & ? & _). by apply list_elem_of_filter. }
  induction Hrep as [r c Hin|r rb c cb n Hin Hb Hrep IH].
  { exists [r]. split; [done|]. split; [apply NoDup_singleton|].
    intros x ->%list_elem_of_singleton. auto with lia. }
  pose proof (wf_linked _ Hwf r Hin) as Hl. unfold linked in Hl. rewrite Hb in Hl.
  destruct Hl as (rb' & Hrb' & Eid & Ef & Ec & Hlt).
  assert (rb' = rb) as -> by eauto using NoDup_ids_eq, wf_ids, represents_in.
  destruct IH as (path & <- & Hnd & Hpath). exists (r :: path). split; [done|]. split.
  - apply NoDup_cons. split; [|done]. intros Hx. apply Hpath in Hx. lia.
  - intros x [->|Hx]%elem_of_cons; [auto with lia|].
    destruct (Hpath x Hx) as (? & ? & ? & ?). repeat split; [done|congruence..|lia].
Qed.

(** ** Preservation by the table updates *)

(** Deleting whole chains keeps the invariant. *)
Lemma wf_delete d (P : revision → Prop) `{∀ r, Decision (P r)} :
  wf d →
  (∀ r1 r2, r1 ∈ revisions d → r2 ∈ revisions d → rv_file r1 = rv_file r2 →
     rv_chain r1 = rv_chain r2 → P r1 → P r2) →
  wf (mkDb (files d) (filter (λ r, ¬ P r) (revisions d))).
Proof.
  intros Hwf Hwhole.
  assert (∀ r, r ∈ filter (λ r, ¬ P r) (revisions d) ↔ ¬ P r ∧ r ∈ revisions d) as Hin
    by (intros; by rewrite list_elem_of_filter).
  split; simpl; try apply Hwf.
  - eapply sublist_NoDup; [apply (wf_ids _ Hwf)|]. apply fmap_sublist, sublist_filter.
  - intros r [_ Hr]%Hin. by apply (wf_foreign_key _ Hwf).
  - intros r [HP Hr]%Hin. pose proof (wf_linked _ Hwf r Hr) as Hl. unfold linked in *.
    destruct (rv_base r); [|done]. destruct Hl as (rb & ? & ? & ? & ? & ?).
    exists rb. rewrite Hin. repeat split; auto. intros ?. apply HP. eauto.
  - intros r1 r2 [_ H1]%Hin [_ H2]%Hin. by apply (wf_order _ Hwf).
  - intros r [HP Hr]%Hin. destruct (wf_content _ Hwf r Hr) as (c & n & Hrep & Hn).
    exists c, n. split; [|done]. clear Hn.
    induction Hrep as [r c _ Hb|r rb c cb n _ Hb Hrep IH].
    + apply rep_snapshot; auto. by apply Hin.
    + pose proof (wf_linked _ Hwf r Hr) as Hl. unfold linked in Hl. rewrite Hb in Hl.
      destruct Hl as (rb' & Hrb' & Eid & Ef & Ec & Hlt).
      assert (rb' = rb) as -> by eauto using NoDup_ids_eq, wf_ids, represents_in.
      assert (represents (filter (λ r, ¬ P r) (revisions d)) rb cb n) as Hrb
        by (apply IH; [intros ?; apply HP; eauto|done]).
      eapply rep_delta; eauto. by apply Hin.
Qed.

Lemma next_id_fresh (ids : list Z) x : x ∈ ids → x < next_id ids.
Proof.
  unfold next_id. induction ids as [|y ids IH]; [set_solver|].
  simpl. rewrite elem_of_cons. intros [->|Hx]; [lia|]. specialize (IH Hx). lia.
Qed.

Lemma next_id_pos (ids : list Z) : 0 < next_id ids.
Proof. unfold next_id. enough (0 ≤ foldr Z.max 0 ids) by lia. induction ids; simpl; lia. Qed.

Lemma next_row_fresh (l : list revision) r : r ∈ l → rv_id r < next_id (rv_id <$> l).
Proof. intros. by apply next_id_fresh, list_elem_of_fmap_2. Qed.

(** Appending a row with a fresh id, linked to its chain and placed after every
    other chain of its file, keeps the invariant. *)
Lemma wf_append d r c n :
  wf d →
  rv_id r = next_id (rv_id <$> revisions d) →
  rv_file r ∈ fl_id <$> files d →
  linked (revisions d) r →
  (∀ x, x ∈ revisions d → rv_file x = rv_file r → rv_chain x ≤ rv_chain r) →
  (∀ x, x ∈ revisions d → rv_file x = rv_file r → rv_chain x < rv_chain r → rv_id x < rv_chain r) →
  represents (revisions d ++ [r]) r c n → (n ≤ reconstruct_limit)%nat → L c →
  wf (mkDb (files d) (revisions d ++ [r])).
Proof.
  intros Hwf Hid Hfk Hl Hmax Hord Hrep Hn HL.
  assert (∀ x, x ∈ revisions d ++ [r] → x ∈ revisions d ∨ x = r) as Hcase by set_solver.
  split; simpl; try apply Hwf.
  - rewrite fmap_app. apply NoDup_app. split; [apply Hwf|]. split; [|apply NoDup_singleton].
    intros i (x & -> & Hx)%list_elem_of_fmap E%list_elem_of_singleton.
    apply next_row_fresh in Hx. lia.
  - intros x [Hx| ->]%Hcase; [by apply (wf_foreign_key _ Hwf)|done].
  - intros x Hx. assert (linked (revisions d) x) as Hlx.
    { apply Hcase in Hx as [Hx| ->]; [by apply (wf_linked _ Hwf)|done]. }
    unfold linked in *. destruct (rv_base x); [|done]. destruct Hlx as (rb & ? & ?).
    exists rb. set_solver.
  - intros x y [Hx| ->]%Hcase [Hy| ->]%Hcase Ef Hlt; auto.
    + by apply (wf_order _ Hwf).
    + pose proof (Hmax y Hy (eq_sym Ef)). lia.
    + lia.
  - intros x [Hx| ->]%Hcase; [|eauto].
    destruct (wf_content _ Hwf x Hx) as (c' & n' & Hrep' & ? & ?). exists c', n'.
    split; [|done]. eapply represents_mono; [done|]. set_solver.
Qed.

(** What recording a content establishes: [r] is the row of revision [id], decodes
    to [c], and is the newest row of its file. *)
Record newest (d : db) (fileID id : Z) (c : bytes) (r : revision) : Prop := {
  nw_in : r ∈ revisions d;
  nw_id : rv_id r = id;
  nw_file : rv_file r = fileID;
  nw_content : ∃ n, represents (revisions d) r c n;
  nw_max : ∀ x, x ∈ revisions d → rv_file x = fileID → rv_id x ≤ id;
}.

Lemma newest_chain d fileID id c r x :
  wf d → newest d fileID id c r → x ∈ revisions d → rv_file x = fileID →
  rv_chain x ≤ rv_chain r.
Proof.
  intros Hwf [Hr Hi Hf _ Hmax] Hx Hxf. subst.
  apply (latest_chain_max d r x); auto.
Qed.

(** Appending a snapshot row. *)
Lemma wf_append_snapshot d r c :
  wf d → rv_id r = next_id (rv_id <$> revisions d) → rv_chain r = rv_id r →
  rv_base r = None → rv_file r ∈ fl_id <$> files d →
  zstd_decode (rv_payload r) = Some c → contentHash c = rv_hash r → L c →
  wf (mkDb (files d) (revisions d ++ [r]))
  ∧ newest (mkDb (files d) (revisions d ++ [r])) (rv_file r) (rv_id r) c r.
Proof.
  intros Hwf Hid Hch Hb Hfk Hdec Hhash HL.
  assert (represents (revisions d ++ [r]) r c 1) as Hrep by (apply rep_snapshot; set_solver).
  assert (∀ x, x ∈ revisions d → rv_id x < rv_id r) as Hfresh.
  { intros x Hx. rewrite Hid. by apply next_row_fresh. }
  split.
  - apply (wf_append d r c 1); auto; try (unfold reconstruct_limit; lia).
    + unfold linked. by rewrite Hb.
    + intros x Hx _. destruct (anchor d x Hwf Hx) as (_ & _ & _ & _ & _ & ?).
      specialize (Hfresh x Hx). lia.
    + intros x Hx _ _. rewrite Hch. auto.
  - split; simpl; eauto; [set_solver|].
    intros x [Hx| ->%list_elem_of_singleton]%elem_of_app _; [|lia].
    specialize (Hfresh x Hx). lia.
Qed.

(** Appending a delta row on top of the newest row of its file. *)
Lemma wf_append_delta d r rb c cb n :
  wf d → rv_id r = next_id (rv_id <$> revisions d) →
  newest d (rv_file r) (rv_id rb) cb rb → represents (revisions d) rb cb n →
  (S n ≤ reconstruct_limit)%nat →
  rv_base r = Some (rv_id rb) → rv_chain r = rv_chain rb →
  zstd_decode_dict (rv_payload r) cb = Some c → contentHash c = rv_hash r → L c →
  wf (mkDb (files d) (revisions d ++ [r]))
  ∧ newest (mkDb (files d) (revisions d ++ [r])) (rv_file r) (rv_id r) c r.
Proof.
  intros Hwf Hid Hnew Hrb Hn Hb Hch Hdec Hhash HL. pose proof Hnew as [Hrbin _ Hrbf _ Hmax].
  assert (represents (revisions d ++ [r]) r c (S n)) as Hrep.
  { eapply rep_delta; eauto; [set_solver|]. eapply represents_mono; [done|set_solver]. }
  assert (∀ x, x ∈ revisions d → rv_id x < rv_id r) as Hfresh.
  { intros x Hx. rewrite Hid. by apply next_row_fresh. }
  split.
  - apply (wf_append d r c (S n)); auto.
    + rewrite <-Hrbf. by apply (wf_foreign_key _ Hwf).
    + unfold linked. rewrite Hb. exists rb. auto 6.
    + intros x Hx Hf. rewrite Hch. by apply (newest_chain _ _ _ _ _ _ Hwf Hnew).
    + intros x Hx Hf Hlt. rewrite Hch in *. apply (wf_order _ Hwf); auto. congruence.
  - split; simpl; eauto; [set_solver|].
    intros x [Hx| ->%list_elem_of_singleton]%elem_of_app _; [|lia].
    specialize (Hfresh x Hx). lia.
Qed.

End invariant.

Arguments wf {_} L d.

(** ** Tables, rows and decoding *)

Section tables.
Context `{Zstd}.

Lemma find_row_id (l : list revision) r :
  NoDup (rv_id <$> l) → r ∈ l → find_row (λ x, rv_id x = rv_id r) l = Some r.
Proof.
  intros Hnd Hin. unfold find_row.
  destruct (filter (λ x, rv_id x = rv_id r) l) as [|x xs] eqn:E.
  - assert (r ∈ filter (λ x, rv_id x = rv_id r) l) as Hr by (by apply list_elem_of_filter).
    rewrite E in Hr. by apply elem_of_nil in Hr.
  - assert (x ∈ filter (λ x, rv_id x = rv_id r) l) as [Hx ?]%list_elem_of_filter
      by (rewrite E; set_solver).
    simpl. f_equal. by eapply NoDup_ids_eq.
Qed.

Lemma replay_app c p r : replay c (p ++ [r]) =
  (c' ← replay c p; c'' ← decodeHistoryDelta (rv_payload r) c';
   if decide (contentHash c'' = rv_hash r) then Ok c'' else Err ErrHashMismatch).
Proof.
  revert c. induction p as [|x p IH]; intros c; simpl.
  - by destruct (decodeHistoryDelta (rv_payload r) c).
  - destruct (decodeHistoryDelta (rv_payload x) c) as [c'|]; simpl; [|done].
    case_decide; [apply IH|done].
Qed.

Lemma replay_chain_app p r c : replay_chain p = Ok c →
  replay_chain (p ++ [r]) =
  (c' ← decodeHistoryDelta (rv_payload r) c;
   if decide (contentHash c' = rv_hash r) then Ok c' else Err ErrHashMismatch).
Proof.
  destruct p as [|x p]; [done|]. simpl. case_decide; [done|].
  destruct (decodeHistorySnapshot (rv_payload x)) as [c0|]; simpl; [|done].
  case_decide; [|done]. rewrite replay_app. by intros ->.
Qed.

Lemma set_chain_fresh (l : list revision) id :
  (∀ r, r ∈ l → rv_id r ≠ id) →
  (λ r, if decide (rv_id r = id) then set_chain id r else r) <$> l = l.
Proof.
  intros Hne. rewrite <-(list_fmap_id l) at 2. apply list_fmap_ext.
  intros i r Hr. rewrite decide_False; [done|]. apply Hne. by eapply list_elem_of_lookup_2.
Qed.

Lemma encodeHistoryDelta_decodes base body level payload :
  encodeHistoryDelta base body level = Ok payload → zstd_decode_dict payload base = Some body.
Proof.
  unfold encodeHistoryDelta, decodeHistoryDelta.
  destruct (zstd_encode_dict level base body) as [p|]; [|done].
  destruct (zstd_decode_dict p base) as [b|] eqn:E; simpl; [|done].
  case_decide; naive_solver.
Qed.

Lemma of_file_max fileID l r : max_by rv_id (of_file fileID l) = Some r →
  r ∈ l ∧ rv_file r = fileID ∧ ∀ x, x ∈ l → rv_file x = fileID → rv_id x ≤ rv_id r.
Proof.
  intros [[Hf Hin]%list_elem_of_filter Hmax]%max_by_Some. split; [done|]. split; [done|].
  intros x Hx Hxf. apply Hmax. by apply list_elem_of_filter.
Qed.

Lemma elem_of_chains_of fileID l c :
  c ∈ chains_of fileID l ↔ ∃ r, r ∈ l ∧ rv_file r = fileID ∧ rv_chain r = c.
Proof.
  unfold chains_of. rewrite elem_of_distinct_desc, list_elem_of_fmap.
  unfold of_file. setoid_rewrite list_elem_of_filter. naive_solver.
Qed.

Lemma filter_strict_length {A} (P : A → Prop) `{∀ a, Decision (P a)} (l : list A) x :
  x ∈ l → P x → (length (filter (λ a, ¬ P a) l) < length l)%nat.
Proof.
  induction l as [|y l IH]; [set_solver|]. rewrite elem_of_cons, filter_cons.
  pose proof (length_filter (λ a, ¬ P a) l). intros [->|Hx] Px; simpl.
  - rewrite decide_False by tauto. lia.
  - specialize (IH Hx Px). case_decide; simpl; lia.
Qed.

Lemma min_of_elem l m : min_of l = Some m → m ∈ l.
Proof.
  unfold min_of. intros (x & [Hx _]%max_by_Some & ->)%fmap_Some.
  apply list_elem_of_fmap in Hx as (y & -> & Hy). by rewrite Z.opp_involutive.
Qed.

Lemma oldest_row_elem l m : oldest_row l = Some m → m ∈ l.
Proof.
  revert m. induction l as [|x l IH]; simpl; intros m Hm; [done|].
  destruct (oldest_row l) as [y|]; [case_match|]; simplify_eq; set_solver.
Qed.

(** Deleting whole chains other than the newest row's keeps that row newest. *)
Lemma newest_delete {L} d (P : revision → Prop) `{∀ r, Decision (P r)} fileID id body r :
  wf L d → newest d fileID id body r → ¬ P r →
  wf L (mkDb (files d) (filter (λ r, ¬ P r) (revisions d))) →
  newest (mkDb (files d) (filter (λ r, ¬ P r) (revisions d))) fileID id body r.
Proof.
  intros Hwf [Hin Hid Hf [n Hrep] Hmax] HP Hwf'.
  assert (r ∈ filter (λ r, ¬ P r) (revisions d)) as Hin' by (by apply list_elem_of_filter).
  split; auto; simpl.
  - destruct (wf_content _ Hwf' r Hin') as (c & m & Hrep' & _). exists m.
    enough (c = body) as -> by done.
    eapply represents_fun; [apply (wf_ids _ Hwf)| |done].
    eapply represents_mono; [done|]. intros x. simpl. rewrite list_elem_of_filter. tauto.
  - intros x [_ Hx]%list_elem_of_filter. auto.
Qed.

Lemma NoDup_file_ids_eq (l : list file_row) f1 f2 :
  NoDup (fl_id <$> l) → f1 ∈ l → f2 ∈ l → fl_id f1 = fl_id f2 → f1 = f2.
Proof.
  induction l as [|f l IH]; simpl; [set_solver|].
  rewrite NoDup_cons, !elem_of_cons. intros [Hn Hd] H1 H2 E.
  destruct H1 as [->|H1], H2 as [->|H2]; auto.
  - destruct Hn. rewrite E. by apply list_elem_of_fmap_2.
  - destruct Hn. rewrite <-E. by apply list_elem_of_fmap_2.
Qed.

Lemma find_row_Some {A} (P : A → Prop) `{∀ a, Decision (P a)} (l : list A) a :
  find_row P l = Some a → a ∈ l ∧ P a.
Proof.
  unfold find_row. intros Hh. apply head_Some_elem_of, list_elem_of_filter in Hh. tauto.
Qed.

Lemma find_row_None {A} (P : A → Prop) `{∀ a, Decision (P a)} (l : list A) a :
  find_row P l = None → a ∈ l → ¬ P a.
Proof.
  unfold find_row. rewrite head_None. intros E Ha HP.
  assert (a ∈ filter P l) as Hin by (by apply list_elem_of_filter).
  rewrite E in Hin. by apply elem_of_nil in Hin.
Qed.

Lemma find_file_id (l : list file_row) f :
  NoDup (fl_id <$> l) → f ∈ l → find_row (λ x, fl_id x = fl_id f) l = Some f.
Proof.
  intros Hnd Hin. destruct (find_row _ l) as [x|] eqn:E.
  - apply find_row_Some in E as [Hx Ex]. f_equal. by eapply NoDup_file_ids_eq.
  - by apply (find_row_None _ _ f) in E.
Qed.

End tables.

(** ** Running the store *)

Section answering.
Context `{Zstd}.
Variable sql_fails : nat → bool.

(** The database answers every statement. *)
Definition answers : Prop := ∀ n, sql_fails n = false.

Hypothesis sql_answers : answers.

Lemma wp_statement {A} (f : db → result herr A * db) a d Q c :
  f (c_db c) = (Ok a, d) → Q a (mkConn d (S (c_stmts c))) → wp (statement sql_fails f) Q c.
Proof. intros Hf HQ. unfold wp, statement. rewrite sql_answers, Hf. done. Qed.

Lemma wp_query {A} (f : db → A) (Q : A → conn → Prop) c :
  Q (f (c_db c)) (mkConn (c_db c) (S (c_stmts c))) → wp (query sql_fails f) Q c.
Proof. intros. by eapply wp_statement. Qed.

Lemma wp_query_row {A} (f : db → option A) a (Q : A → conn → Prop) c :
  f (c_db c) = Some a → Q a (mkConn (c_db c) (S (c_stmts c))) → wp (query_row sql_fails f) Q c.
Proof. intros Hf HQ. eapply wp_statement; [|done]. simpl. by rewrite Hf. Qed.

Lemma wp_delete_rows (P : revision → Prop) `{∀ r, Decision (P r)} Q c :
  Q tt (mkConn (mkDb (files (c_db c)) (filter (λ r, ¬ P r) (revisions (c_db c)))) (S (c_stmts c))) →
  wp (delete_rows sql_fails P) Q c.
Proof. intros. by eapply wp_statement. Qed.
End answering.

Section running.
Context `{Zstd}.
Variable sql_fails : nat → bool.

(** [runs m Q c]: started in [c], [m] returns a value that satisfies [Q], or one of the
    statements it sent to the database failed. *)
Definition runs {A} (m : st conn herr A) (Q : A → conn → Prop) (c : conn) : Prop :=
  match m c with
  | (Ok a, c') => (c_stmts c ≤ c_stmts c')%nat ∧ Q a c'
  | (Err _, c') => ∃ n, (c_stmts c ≤ n < c_stmts c')%nat ∧ sql_fails n = true
  end.

Lemma runs_wp {A} (m : st conn herr A) Q c : answers sql_fails → runs m Q c → wp m Q c.
Proof.
  intros Ha. unfold runs, wp. destruct (m c) as [[a|e] c']; [tauto|].
  intros (n & _ & Hn). by rewrite Ha in Hn.
Qed.

Lemma runs_bind {A B} (m : st conn herr A) (f : A → st conn herr B) Q c :
  runs m (λ a c', runs (f a) Q c') c → runs (m ≫= f) Q c.
Proof.
  unfold runs, mbind, st_bind. destruct (m c) as [[a|e] c']; [|done].
  destruct (f a c') as [[b|e] c'']; [intuition lia|].
  intros (Hle & n & Hn & E). exists n. split; [lia|done].
Qed.

Lemma runs_ret {A} (a : A) Q c : Q a c → runs (mret a) Q c.
Proof. by split. Qed.

Lemma runs_lift {A} (r : result herr A) a Q c : r = Ok a → Q a c → runs (st_lift r) Q c.
Proof. intros -> HQ. by split. Qed.

Lemma runs_mono {A} (m : st conn herr A) (P Q : A → conn → Prop) c :
  runs m P c → (∀ a c', P a c' → Q a c') → runs m Q c.
Proof. unfold runs. destruct (m c) as [[a|e] c']; naive_solver. Qed.

Lemma runs_statement {A} (f : db → result herr A * db) a d Q c :
  f (c_db c) = (Ok a, d) → Q a (mkConn d (S (c_stmts c))) → runs (statement sql_fails f) Q c.
Proof.
  intros Hf HQ. unfold runs, statement. destruct (sql_fails (c_stmts c)) eqn:E; simpl.
  - exists (c_stmts c). auto with lia.
  - rewrite Hf. simpl. auto with lia.
Qed.

Lemma runs_query {A} (f : db → A) (Q : A → conn → Prop) c :
  Q (f (c_db c)) (mkConn (c_db c) (S (c_stmts c))) → runs (query sql_fails f) Q c.
Proof. intros. by eapply runs_statement. Qed.

Lemma runs_query_row {A} (f : db → option A) a (Q : A → conn → Prop) c :
  f (c_db c) = Some a → Q a (mkConn (c_db c) (S (c_stmts c))) → runs (query_row sql_fails f) Q c.
Proof. intros Hf HQ. eapply runs_statement; [|done]. simpl. by rewrite Hf. Qed.

Lemma runs_delete_rows (P : revision → Prop) `{∀ r, Decision (P r)} Q c :
  Q tt (mkConn (mkDb (files (c_db c)) (filter (λ r, ¬ P r) (revisions (c_db c)))) (S (c_stmts c))) →
  runs (delete_rows sql_fails P) Q c.
Proof. intros. by eapply runs_statement. Qed.

Lemma collect_chain_represents steps r c n acc cn :
  NoDup (rv_id <$> revisions (c_db cn)) →
  represents (revisions (c_db cn)) r c n → (n ≤ steps)%nat →
  runs (collect_chain sql_fails steps (rv_id r) acc) (λ chain cn',
    ∃ path, chain = acc ++ path ∧ replay_chain (reverse path) = Ok c ∧ c_db cn' = c_db cn) cn.
Proof.
  intros Hnd Hrep. revert steps acc cn Hnd Hrep.
  assert (∀ l, represents l r c n → ∀ steps acc cn, l = revisions (c_db cn) →
    NoDup (rv_id <$> l) → (n ≤ steps)%nat →
    runs (collect_chain sql_fails steps (rv_id r) acc) (λ chain cn',
      ∃ path, chain = acc ++ path ∧ replay_chain (reverse path) = Ok c ∧ c_db cn' = c_db cn) cn)
    as Hind; [|eauto].
  induction 1 as [r c Hin Hb Hd Hh|r rb c cb n Hin Hb Hrep IH Hd Hh];
    intros [|steps] acc cn El Hnd Hle; try lia; simpl.
  - apply runs_bind, (runs_query_row _ r); [subst; by apply find_row_id|]. rewrite Hb.
    apply runs_ret. exists [r]. split; [done|]. split; [|done].
    simpl. rewrite Hb, decide_False by (by intros [? ?]).
    unfold decodeHistorySnapshot. rewrite Hd. simpl. by rewrite decide_True.
  - apply runs_bind, (runs_query_row _ r); [subst; by apply find_row_id|]. rewrite Hb.
    eapply runs_mono; [apply IH; simpl; auto; lia|].
    intros chain cn' (path & -> & Hrp & Edb). exists (r :: path).
    rewrite <-app_assoc. split; [done|]. split; [|done].
    rewrite reverse_cons, (replay_chain_app _ _ _ Hrp).
    unfold decodeHistoryDelta. rewrite Hd. simpl. by rewrite decide_True.
Qed.

Lemma reconstruct_represents r c n cn :
  NoDup (rv_id <$> revisions (c_db cn)) →
  represents (revisions (c_db cn)) r c n → (n ≤ reconstruct_limit)%nat →
  runs (reconstructHistoryRevision sql_fails (rv_id r))
    (λ c' cn', c' = c ∧ c_db cn' = c_db cn) cn.
Proof.
  intros Hnd Hrep Hn. apply runs_bind.
  eapply runs_mono; [by apply (collect_chain_represents _ r c n)|].
  intros chain cn' (path & -> & Hrp & Edb). by eapply runs_lift.
Qed.

(** ** Insertion *)

Context {L : bytes → Prop}.

Lemma runs_insert_row (r : Z → revision) (Q : Z → conn → Prop) c :
  (let id := next_id (rv_id <$> revisions (c_db c)) in
   Q id (mkConn (mkDb (files (c_db c)) (revisions (c_db c) ++ [r id])) (S (c_stmts c)))) →
  runs (insert_row sql_fails r) Q c.
Proof. intros. by eapply runs_statement. Qed.

(** A snapshot insertion succeeds and leaves its content as the newest revision. *)
Lemma insert_snapshot_newest fileID user body payload created cn :
  wf L (c_db cn) → fileID ∈ fl_id <$> files (c_db cn) → zstd_decode payload = Some body → L body →
  runs (insertEncodedHistorySnapshot sql_fails fileID user body payload created) (λ id cn',
    wf L (c_db cn') ∧ files (c_db cn') = files (c_db cn)
    ∧ ∃ r, newest (c_db cn') fileID id body r ∧ rv_chain r = id ∧ represents (revisions (c_db cn')) r body 1) cn.
Proof.
  intros Hwf Hfk Hdec HL. apply runs_bind, runs_insert_row. simpl. apply runs_bind.
  eapply runs_statement; [reflexivity|]. apply runs_ret. simpl.
  set (id := next_id _). rewrite fmap_app, set_chain_fresh; simpl.
  2: { intros r Hr. apply next_row_fresh in Hr. fold id in Hr. lia. }
  rewrite decide_True by done. unfold set_chain; simpl.
  match goal with |- context [_ ++ [?row]] => set (r := row) end.
  destruct (wf_append_snapshot (L:=L) (c_db cn) r body) as [Hwf' Hnew]; auto.
  split; [done|]. split; [done|]. exists r. split; [done|]. split; [done|].
  apply rep_snapshot; set_solver.
Qed.

Lemma insertHistorySnapshot_newest fileID user body created level `{!ZstdLaws level} cn :
  wf L (c_db cn) → fileID ∈ fl_id <$> files (c_db cn) → L body →
  runs (insertHistorySnapshot sql_fails fileID user body created level) (λ id cn',
    wf L (c_db cn') ∧ files (c_db cn') = files (c_db cn)
    ∧ ∃ r, newest (c_db cn') fileID id body r ∧ rv_chain r = id ∧ represents (revisions (c_db cn')) r body 1) cn.
Proof.
  intros Hwf Hfk HL. destruct (zstd_round_trip (level:=level) body) as (payload & He & Hd).
  apply runs_bind, (runs_lift _ payload); [unfold encodeHistorySnapshot; by rewrite He|].
  by apply insert_snapshot_newest.
Qed.

(** A compact insertion on top of the newest row succeeds and leaves its content
    as the newest revision, whether it chooses a delta or a snapshot. *)
Lemma insertCompact_newest fileID rb base user body created level n `{!ZstdLaws level} cn :
  wf L (c_db cn) → newest (c_db cn) fileID (rv_id rb) base rb →
  represents (revisions (c_db cn)) rb base n → (S n ≤ reconstruct_limit)%nat → L body →
  runs (insertCompactHistoryRevision sql_fails fileID (rv_id rb) (rv_chain rb) base user body
        created level) (λ id cn',
    wf L (c_db cn') ∧ files (c_db cn') = files (c_db cn) ∧ ∃ r, newest (c_db cn') fileID id body r) cn.
Proof.
  intros Hwf Hnew Hrep Hn HL.
  assert (fileID ∈ fl_id <$> files (c_db cn)) as Hfk.
  { destruct Hnew as [? _ <- _ _]. by apply (wf_foreign_key _ Hwf). }
  destruct (zstd_round_trip (level:=level) body) as (snap & He & Hd).
  apply runs_bind, (runs_lift _ snap); [unfold encodeHistorySnapshot; by rewrite He|].
  assert (runs (insertEncodedHistorySnapshot sql_fails fileID user body snap created) (λ id cn',
    wf L (c_db cn') ∧ files (c_db cn') = files (c_db cn) ∧ ∃ r, newest (c_db cn') fileID id body r) cn)
    as Hsnap.
  { eapply runs_mono; [by apply insert_snapshot_newest|]. naive_solver. }
  destruct (encodeHistoryDelta base body level) as [delta|] eqn:Edelta; [|done].
  case_match; [done|]. apply runs_insert_row. simpl.
  match goal with |- context [_ ++ [?row]] => set (r := row) end.
  destruct (wf_append_delta (L:=L) (c_db cn) r rb body base n); auto; [|eauto].
  by apply (encodeHistoryDelta_decodes _ _ level).
Qed.

(** ** The switch of [record] *)

(** Reading never changes a table, even when it fails. *)
Lemma collect_chain_reads steps id acc cn :
  c_db (snd (collect_chain sql_fails steps id acc cn)) = c_db cn.
Proof.
  revert id acc cn. induction steps as [|steps IH]; intros id acc cn; [done|]. simpl.
  unfold query_row, statement, mbind, st_bind. destruct (sql_fails (c_stmts cn)); [done|]. simpl.
  destruct (find_row _ _) as [r|]; [|done]. simpl. destruct (rv_base r); [|done]. by rewrite IH.
Qed.

Lemma reconstruct_reads id cn : c_db (snd (reconstructHistoryRevision sql_fails id cn)) = c_db cn.
Proof.
  unfold reconstructHistoryRevision, mbind, st_bind.
  pose proof (collect_chain_reads reconstruct_limit id [] cn) as E.
  by destruct (collect_chain _ _ _ _ cn) as [[chain|e] cn'].
Qed.

Lemma runs_try {A} (m : st conn herr A) (Q : A → conn → Prop) c :
  runs m Q c → c_db (snd (m c)) = c_db c →
  runs (try_tx m) (λ r c', c_db c' = c_db c ∧ ∀ a, r = Ok a → Q a c') c.
Proof.
  unfold runs, try_tx. destruct (m c) as [[a|e] c']; simpl; [naive_solver|].
  intros (n & Hn & _) E. split; [lia|]. naive_solver.
Qed.

Lemma record_switch_newest fileID before after user now cfg `{!ZstdLaws (cfgZstdLevel cfg)} cn :
  wf L (c_db cn) → fileID ∈ fl_id <$> files (c_db cn) →
  wrap64 (maxUint64 (cfgAnchorInterval cfg) 1) ≤ Z.of_nat reconstruct_limit →
  L before → L after →
  runs (record_switch sql_fails fileID (max_by rv_id (of_file fileID (revisions (c_db cn))))
        before after user now cfg) (λ out cn',
    wf L (c_db cn') ∧ files (c_db cn') = files (c_db cn) ∧
    match out with
    | inl id => ∃ r, newest (c_db cn') fileID id after r
    | inr id => c_db cn' = c_db cn ∧ ∃ r, r ∈ revisions (c_db cn) ∧ rv_id r = id
                  ∧ rv_file r = fileID ∧ rv_hash r = contentHash after
    end) cn.
Proof.
  intros Hwf Hfk Hanchor HLb HLa. unfold record_switch.
  assert (∀ cn', wf L (c_db cn') → files (c_db cn') = files (c_db cn) →
    runs (id ← insertHistorySnapshot sql_fails fileID user after now (cfgZstdLevel cfg);
        mret (inl id : Z + Z)) (λ out cn'', wf L (c_db cn'') ∧ files (c_db cn'') = files (c_db cn) ∧
      match out with
      | inl id => ∃ r, newest (c_db cn'') fileID id after r
      | inr id => c_db cn'' = c_db cn ∧ ∃ r, r ∈ revisions (c_db cn) ∧ rv_id r = id
                  ∧ rv_file r = fileID ∧ rv_hash r = contentHash after
      end) cn') as Hsnap.
  { intros cn' Hwf' Ef. apply runs_bind.
    eapply runs_mono; [apply insertHistorySnapshot_newest; [apply _|done|by rewrite Ef|done]|].
    intros id cn'' (Hw & Hf & r & Hr & _). apply runs_ret. rewrite Hf. eauto. }
  destruct (max_by _ _) as [r|] eqn:Elatest.
  - apply of_file_max in Elatest as (Hr & Hrf & Hmax).
    case_decide as Ehash; [apply runs_ret; eauto 10|].
    apply runs_bind, runs_query. case_match eqn:Elen; [by apply Hsnap|].
    apply Z.leb_gt in Elen.
    destruct (wf_content _ Hwf r Hr) as (c & n & Hrep & Hn & _).
    apply runs_bind. eapply runs_mono.
    { apply runs_try; [|apply reconstruct_reads].
      apply (reconstruct_represents r c n); simpl; auto. apply Hwf. }
    intros previous cn' [Edb Hprev]. simpl in Edb. destruct previous as [c'|e].
    2: { apply Hsnap; by rewrite Edb. }
    destruct (Hprev c' eq_refl) as [-> _]. apply runs_bind. eapply runs_mono.
    { apply (insertCompact_newest fileID r c user after now _ n); rewrite ?Edb; auto.
      - split; eauto.
      - pose proof (represents_depth _ _ _ _ Hwf Hrep) as Hd. simpl in Elen.
        rewrite <-Hrf in Elen. unfold zlen in Elen. unfold reconstruct_limit in *. lia. }
    intros id cn'' (Hw & Hf & Hex). apply runs_ret. rewrite Hf, Edb. auto.
  - case_match; [|by apply Hsnap]. apply runs_bind.
    eapply runs_mono; [by apply insertHistorySnapshot_newest|].
    intros base cn' (Hw & Hf & rb & Hrb & Hch & Hrep). apply runs_bind.
    pose proof (nw_id _ _ _ _ _ Hrb) as Hid. rewrite <-Hch at 2. rewrite <-Hid.
    eapply runs_mono; [apply (insertCompact_newest fileID rb before user after now _ 1); auto|].
    + by rewrite Hid.
    + unfold reconstruct_limit. lia.
    + intros id cn'' (Hw' & Hf' & Hex). apply runs_ret. rewrite Hf', Hf. auto.
Qed.

(** ** Pruning *)

(** What every pruning step keeps: the invariant, the files and the newest row. *)
Definition keeps (fileID id : Z) (body : bytes) (r : revision) (fs : list file_row) (cn : conn) : Prop :=
  wf L (c_db cn) ∧ newest (c_db cn) fileID id body r ∧ files (c_db cn) = fs.

Lemma keeps_delete (P : revision → Prop) `{∀ r, Decision (P r)} fileID id body r fs cn Q :
  keeps fileID id body r fs cn →
  (∀ r1 r2, rv_file r1 = rv_file r2 → rv_chain r1 = rv_chain r2 → P r1 → P r2) →
  ¬ P r →
  (∀ cn', keeps fileID id body r fs cn' →
     revisions (c_db cn') = filter (λ r, ¬ P r) (revisions (c_db cn)) → Q tt cn') →
  runs (delete_rows sql_fails P) Q cn.
Proof.
  intros (Hwf & Hnew & Hf) Hwhole HP HQ. apply runs_delete_rows, HQ; [|done].
  assert (wf L (mkDb (files (c_db cn)) (filter (λ r, ¬ P r) (revisions (c_db cn))))) as Hwf'
    by (apply wf_delete; eauto).
  split; [done|]. split; [|done]. by apply (newest_delete (L:=L)).
Qed.

Lemma keeps_query {A} (f : db → A) fileID id body r fs cn (Q : A → conn → Prop) :
  keeps fileID id body r fs cn →
  (∀ cn', keeps fileID id body r fs cn' → c_db cn' = c_db cn → Q (f (c_db cn)) cn') →
  runs (query sql_fails f) Q cn.
Proof. intros Hk HQ. by apply runs_query, HQ. Qed.

Lemma pruneOld_keeps fileID id body r fs keep cn :
  keeps fileID id body r fs cn → keep < 2 ^ 63 →
  runs (pruneOldHistoryChains sql_fails fileID keep) (λ _ cn', keeps fileID id body r fs cn') cn.
Proof.
  intros Hk Hkeep. unfold pruneOldHistoryChains. rewrite (proj2 (Z.leb_gt _ _) Hkeep).
  apply runs_bind. eapply keeps_query; [done|]. intros cn' Hk' Edb.
  destruct (last _) as [oldest|] eqn:Elast; [|by apply runs_ret].
  case_match; [by apply runs_ret|].
  eapply keeps_delete; [done| | |by auto].
  - intros r1 r2 -> -> ?. done.
  - intros [_ Hlt]. destruct Hk as (Hwf & Hnew & _).
    apply last_Some_elem_of in Elast. apply elem_of_take in Elast as (i & Hi & _).
    apply list_elem_of_lookup_2, elem_of_chains_of in Hi as (x & Hx & Hxf & <-).
    pose proof (newest_chain _ _ _ _ _ x Hwf Hnew Hx Hxf). lia.
Qed.

(** A turn of a pruning loop that frees something shortens the table. *)
Definition shrinks (cn : conn) (freed : Z) (cn' : conn) : Prop :=
  freed = 0 ∧ c_db cn' = c_db cn
  ∨ (length (revisions (c_db cn')) < length (revisions (c_db cn)))%nat.

Lemma drop_chain_keeps fileID id body r fs f c x cn :
  keeps fileID id body r fs cn → x ∈ revisions (c_db cn) → rv_file x = f → rv_chain x = c →
  ¬ (rv_file r = f ∧ rv_chain r = c) →
  runs (freed ← query sql_fails (λ d, payload_bytes (of_chain f c (revisions d)));
      _ ← delete_rows sql_fails (λ r, rv_file r = f ∧ rv_chain r = c);
      mret freed) (λ freed cn', keeps fileID id body r fs cn' ∧ shrinks cn freed cn') cn.
Proof.
  intros Hk Hx Hxf Hxc Hr. apply runs_bind. eapply keeps_query; [done|]. intros cn1 Hk1 E1.
  apply runs_bind. eapply keeps_delete; [done| |done|].
  - intros r1 r2 -> ->. done.
  - intros cn2 Hk2 E2. apply runs_ret. split; [done|]. right. rewrite E2, E1.
    by eapply filter_strict_length.
Qed.

Lemma dropOldest_keeps fileID id body r fs minChains cn :
  keeps fileID id body r fs cn →
  runs (dropOldestHistoryChain sql_fails fileID (Some (rv_chain r)) minChains)
    (λ freed cn', keeps fileID id body r fs cn' ∧ shrinks cn freed cn') cn.
Proof.
  intros Hk. apply runs_bind. eapply keeps_query; [done|]. intros cn1 Hk1 E1.
  case_match; [apply runs_ret; unfold shrinks; auto|].
  apply runs_bind. eapply keeps_query; [done|]. intros cn2 Hk2 E2. rewrite E1 in *.
  destruct (min_of _) as [c|] eqn:Emin; [|apply runs_ret; unfold shrinks; rewrite E2; auto].
  apply min_of_elem, list_elem_of_fmap in Emin as (x & -> & [Hne [Hxf Hx]%list_elem_of_filter]%list_elem_of_filter).
  eapply runs_mono; [eapply drop_chain_keeps; eauto|].
  - by rewrite E2.
  - intros [_ E]. congruence.
  - intros freed cn' [? ?]. unfold shrinks in *. rewrite <-E2. auto.
Qed.

Lemma dropGlobally_keeps fileID id body r fs cn :
  keeps fileID id body r fs cn →
  runs (dropGloballyOldestHistoryChain sql_fails fileID (Some (rv_chain r)))
    (λ freed cn', keeps fileID id body r fs cn' ∧ shrinks cn freed cn') cn.
Proof.
  intros Hk. apply runs_bind. eapply keeps_query; [done|]. intros cn1 Hk1 E1.
  destruct (oldest_row _) as [x|] eqn:Eo; simpl; [|apply runs_ret; unfold shrinks; auto].
  apply oldest_row_elem, list_elem_of_filter in Eo as [[_ Hne] Hx].
  eapply runs_mono; [eapply (drop_chain_keeps _ _ _ _ _ (rv_file x) (rv_chain x) x); eauto|].
  - by rewrite E1.
  - destruct Hk as (_ & [_ _ Hrf _ _] & _). intros [Ef Ec]. apply Hne.
    split; congruence.
  - intros freed cn' [? ?]. unfold shrinks in *. rewrite <-E1. auto.
Qed.

Lemma prune_file_loop_keeps turns fileID id body r fs cfg cn :
  keeps fileID id body r fs cn → (length (revisions (c_db cn)) < turns)%nat →
  runs (prune_file_loop sql_fails turns fileID (Some (rv_chain r)) cfg)
    (λ _ cn', keeps fileID id body r fs cn') cn.
Proof.
  revert cn. induction turns as [|turns IH]; intros cn Hk Hlen; [lia|]; simpl.
  apply runs_bind. eapply keeps_query; [done|]. intros cn1 Hk1 E1.
  case_match; [by apply runs_ret|]. apply runs_bind.
  eapply runs_mono; [by apply dropOldest_keeps|]. intros freed cn2 [Hk2 Hs].
  case_match eqn:Efreed; [by apply runs_ret|]. apply IH; [done|].
  apply Z.eqb_neq in Efreed. destruct Hs as [[? _]|Hs]; [done|]. rewrite E1 in Hs. lia.
Qed.

Lemma prune_server_loop_keeps turns fileID id body r fs cfg cn :
  keeps fileID id body r fs cn → (length (revisions (c_db cn)) < turns)%nat →
  runs (prune_server_loop sql_fails turns fileID (Some (rv_chain r)) cfg)
    (λ _ cn', keeps fileID id body r fs cn') cn.
Proof.
  revert cn. induction turns as [|turns IH]; intros cn Hk Hlen; [lia|]; simpl.
  apply runs_bind. eapply keeps_query; [done|]. intros cn1 Hk1 E1.
  case_match; [by apply runs_ret|]. apply runs_bind.
  eapply runs_mono; [by apply dropGlobally_keeps|]. intros freed cn2 [Hk2 Hs].
  case_match eqn:Efreed; [by apply runs_ret|]. apply IH; [done|].
  apply Z.eqb_neq in Efreed. destruct Hs as [[? _]|Hs]; [done|]. rewrite E1 in Hs. lia.
Qed.

Lemma pruneHistory_keeps fileID id body r fs cfg cn :
  keeps fileID id body r fs cn → maxUint64 (cfgKeepChains cfg) 1 < 2 ^ 63 →
  runs (pruneHistory sql_fails fileID (Some (rv_chain r)) cfg)
    (λ _ cn', keeps fileID id body r fs cn') cn.
Proof.
  intros Hk Hkeep. apply runs_bind.
  eapply runs_mono; [by apply pruneOld_keeps|]. intros ? cn1 Hk1.
  by apply prune_file_loop_keeps; [|lia].
Qed.

Lemma pruneServerHistory_keeps fileID id body r fs cfg cn :
  keeps fileID id body r fs cn →
  runs (pruneServerHistory sql_fails fileID (Some (rv_chain r)) cfg)
    (λ _ cn', keeps fileID id body r fs cn') cn.
Proof.
  intros Hk. unfold pruneServerHistory. case_match; [by apply runs_ret|].
  by apply prune_server_loop_keeps; [|lia].
Qed.

(** ** Recording and reading back *)

Lemma upsert_wf path cn : wf L (c_db cn) →
  runs (upsertHistoryFile sql_fails path) (λ fileID cn',
    wf L (c_db cn') ∧ revisions (c_db cn') = revisions (c_db cn)
    ∧ mkFile fileID path ∈ files (c_db cn')
    ∧ (files (c_db cn') = files (c_db cn)
       ∨ files (c_db cn') = files (c_db cn) ++ [mkFile fileID path]
         ∧ ∀ r, r ∈ revisions (c_db cn) → rv_file r ≠ fileID)) cn.
Proof.
  intros Hwf. apply runs_bind, runs_query.
  destruct (find_row _ _) as [f|] eqn:E; simpl.
  - apply runs_ret. apply find_row_Some in E as [Hf <-]. destruct f. simpl. auto.
  - eapply runs_statement; [reflexivity|]. simpl. set (id := next_id _).
    assert (∀ f, f ∈ files (c_db cn) → fl_id f < id) as Hfresh.
    { intros f Hf. by apply next_id_fresh, list_elem_of_fmap_2. }
    split; [|split; [done|split; [set_solver|]]].
    + split; simpl; try apply Hwf.
      * rewrite fmap_app. apply NoDup_app. split; [apply Hwf|]. split; [|apply NoDup_singleton].
        intros i (f & -> & Hf)%list_elem_of_fmap Ei%list_elem_of_singleton.
        specialize (Hfresh f Hf). simpl in Ei. lia.
      * rewrite fmap_app. apply NoDup_app. split; [apply Hwf|]. split; [|apply NoDup_singleton].
        intros i (f & -> & Hf)%list_elem_of_fmap Ei%list_elem_of_singleton.
        by apply (find_row_None _ _ f) in E.
      * intros f [Hf| ->%list_elem_of_singleton]%elem_of_app; [by apply (wf_file_pos _ Hwf)|].
        apply next_id_pos.
      * intros r Hr. rewrite fmap_app. apply elem_of_app. left. by apply (wf_foreign_key _ Hwf).
    + right. split; [done|]. intros r Hr Ef.
      pose proof (wf_foreign_key _ Hwf r Hr) as (f & Ef' & Hf)%list_elem_of_fmap.
      specialize (Hfresh f Hf). lia.
Qed.

Lemma content_represents id r body n path cn :
  wf L (c_db cn) → represents (revisions (c_db cn)) r body n → (n ≤ reconstruct_limit)%nat →
  rv_id r = id → mkFile (rv_file r) path ∈ files (c_db cn) →
  runs (content sql_fails id) (λ bp cn', bp = (body, path) ∧ c_db cn' = c_db cn) cn.
Proof.
  intros Hwf Hrep Hn <- Hf. apply runs_bind.
  eapply runs_mono; [by apply (reconstruct_represents r body n); [apply Hwf|..]|].
  intros ? cn' [-> Edb]. apply runs_bind. eapply (runs_query_row _ path); [|by apply runs_ret].
  rewrite Edb, find_row_id by eauto using wf_ids, represents_in. simpl.
  pose proof (find_file_id _ _ (wf_file_ids _ Hwf) Hf) as E. simpl in E. by rewrite E.
Qed.

Lemma record_tx_newest path before after user now cfg `{!ZstdLaws (cfgZstdLevel cfg)} cn :
  wf L (c_db cn) →
  wrap64 (maxUint64 (cfgAnchorInterval cfg) 1) ≤ Z.of_nat reconstruct_limit →
  maxUint64 (cfgKeepChains cfg) 1 < 2 ^ 63 → L before → L after →
  runs (record_tx sql_fails path before after user now cfg) (λ id cn',
    wf L (c_db cn') ∧ ∃ r body, r ∈ revisions (c_db cn') ∧ rv_id r = id
      ∧ mkFile (rv_file r) path ∈ files (c_db cn')
      ∧ (∃ n, represents (revisions (c_db cn')) r body n)
      ∧ contentHash body = contentHash after
      ∧ (body = after ∨ c_db cn' = c_db cn)) cn.
Proof.
  intros Hwf Hanchor Hkeep HLb HLa. apply runs_bind.
  eapply runs_mono; [by apply upsert_wf|]. intros fileID cn1 (Hwf1 & E1 & Hfile & Hfiles).
  apply runs_bind, runs_query. apply runs_bind.
  assert (fileID ∈ fl_id <$> files (c_db cn1)) as Hfk
    by (by apply (list_elem_of_fmap_2 fl_id _ (mkFile fileID path))).
  eapply runs_mono; [by eapply (record_switch_newest fileID _ _ _ _ _ (mkConn (c_db cn1) _))|].
  simpl. intros [id|id] cn2 (Hwf2 & Ef2 & Hout).
  - destruct Hout as [r Hnew]. apply runs_bind, runs_query. simpl.
    assert (rv_chain <$> max_by rv_id (of_file fileID (revisions (c_db cn2))) = Some (rv_chain r))
      as ->.
    { pose proof Hnew as [Hin Hid Hrf _ Hmax].
      destruct (max_by _ _) as [m|] eqn:Em; simpl.
      - apply of_file_max in Em as (Hm & Hmf & Hmm). f_equal.
        assert (m = r) as -> by (eapply NoDup_ids_eq; eauto using wf_ids;
          pose proof (Hmax m Hm Hmf); pose proof (Hmm r Hin Hrf); lia). done.
      - apply max_by_None in Em. exfalso.
        assert (r ∈ of_file fileID (revisions (c_db cn2))) as Hr by (by apply list_elem_of_filter).
        rewrite Em in Hr. by apply elem_of_nil in Hr. }
    apply runs_bind. eapply runs_mono.
    { apply (pruneHistory_keeps fileID id after r (files (c_db cn2))); [|done]. by split. }
    intros ? cn3 Hk3. apply runs_bind. eapply runs_mono; [eapply pruneServerHistory_keeps; exact Hk3|].
    intros ? cn4 (Hwf4 & [Hin Hid Hrf Hrep _] & Ef4). apply runs_ret.
    split; [done|]. exists r, after. rewrite Ef4, Ef2, Hrf. auto 10.
  - destruct Hout as (Edb & r & Hr & Hid & Hrf & Hhash). apply runs_ret. split; [done|].
    rewrite Edb. destruct (wf_content _ Hwf1 r Hr) as (body & n & Hrep & _).
    exists r, body. rewrite Hrf. split; [done|]. split; [done|]. split; [done|].
    split; [eauto|]. split; [rewrite <-Hhash; by eapply represents_hash|].
    right. destruct Hfiles as [Ef|[_ Hnone]].
    + destruct (c_db cn1), (c_db cn). simpl in *. congruence.
    + rewrite E1 in Hr. by apply Hnone in Hr.
Qed.

End running.

(** ** Properties *)

Section properties.
Context `{Zstd}.

(** The configuration keeps delta chains within the reach of
    [reconstructHistoryRevision] and its chain count fits an int64. *)
Definition config_ok (cfg : FileHistoryConfiguration) : Prop :=
  wrap64 (maxUint64 (cfgAnchorInterval cfg) 1) ≤ Z.of_nat reconstruct_limit
  ∧ maxUint64 (cfgKeepChains cfg) 1 < 2 ^ 63.

(** The store holds, for revision [id], the content [body] under [path]: reading it
    answers so, unless one of the statements sent for reading fails. *)
Definition reads_back (cn : conn) (id : Z) (body : bytes) (path : string) : Prop :=
  ∀ sql_fails, runs sql_fails (content sql_fails id) (λ bp _, bp = (body, path)) cn.

Lemma reads_represents L cn r body n path :
  wf L (c_db cn) → represents (revisions (c_db cn)) r body n →
  mkFile (rv_file r) path ∈ files (c_db cn) → reads_back cn (rv_id r) body path.
Proof.
  intros Hwf Hrep Hf sql_fails.
  destruct (wf_content _ Hwf r (represents_in _ _ _ _ Hrep)) as (c & m & Hrep' & Hm & _).
  destruct (represents_fun _ _ _ _ _ _ (wf_ids _ Hwf) Hrep Hrep') as [-> ->].
  eapply runs_mono; [by apply (content_represents (L:=L) sql_fails _ r c m path)|naive_solver].
Qed.

(** What a transaction that returned left behind, or failed and left as it was. *)
Lemma transaction_outcome {A} sql_fails (m : st conn herr A) (Q : A → db → Prop) cn :
  runs sql_fails m (λ a cn', Q a (c_db cn')) (mkConn (c_db cn) (S (c_stmts cn))) →
  match transaction sql_fails m cn with
  | (Ok a, cn') => Q a (c_db cn')
  | (Err _, cn') => c_db cn' = c_db cn
      ∧ ∃ n, (c_stmts cn ≤ n < c_stmts cn')%nat ∧ sql_fails n = true
  end.
Proof.
  intros Hm.
  assert (runs sql_fails (_ ← query sql_fails (λ _, tt); a ← m; _ ← query sql_fails (λ _, tt); mret a)
            (λ a cn', Q a (c_db cn')) cn) as Hw.
  { apply runs_bind, runs_query, runs_bind. eapply runs_mono; [exact Hm|].
    intros a cn' HQ. by apply runs_bind, runs_query, runs_ret. }
  unfold runs in Hw. unfold transaction.
  destruct ((_ ≫= _ : st conn herr A) cn) as [[a|e] cn']; [apply Hw|by split].
Qed.

Lemma record_outcome L sql_fails path before after user now cfg
    `{!ZstdLaws (cfgZstdLevel cfg)} cn :
  wf L (c_db cn) → config_ok cfg → before ≠ after → L before → L after →
  match record sql_fails path before after user now cfg cn with
  | (Ok id, cn') => wf L (c_db cn') ∧ ∃ body, reads_back cn' id body path
      ∧ contentHash body = contentHash after ∧ (body = after ∨ c_db cn' = c_db cn)
  | (Err _, cn') => c_db cn' = c_db cn
      ∧ ∃ n, (c_stmts cn ≤ n < c_stmts cn')%nat ∧ sql_fails n = true
  end.
Proof.
  intros Hwf [Hanchor Hkeep] Hne HLb HLa. unfold record. rewrite decide_False by done.
  pose proof (transaction_outcome sql_fails (record_tx sql_fails path before after user now cfg)
    (λ id d, wf L d ∧ ∃ r body, r ∈ revisions d ∧ rv_id r = id
      ∧ mkFile (rv_file r) path ∈ files d ∧ (∃ n, represents (revisions d) r body n)
      ∧ contentHash body = contentHash after ∧ (body = after ∨ d = c_db cn)) cn) as Hout.
  destruct (transaction _ _ cn) as [[id|e] cn'].
  - destruct Hout as (Hwf' & r & body & Hr & <- & Hf & [n Hrep] & Hh & Hor).
    { by apply (record_tx_newest sql_fails _ _ _ _ _ _ (mkConn (c_db cn) (S (c_stmts cn)))). }
    split; [done|]. exists body. split; [by eapply reads_represents|done].
  - apply Hout. by apply (record_tx_newest sql_fails _ _ _ _ _ _ (mkConn (c_db cn) (S (c_stmts cn)))).
Qed.

(** C1: recording a changed file either fails, and then one of the statements it sent to
    the database failed and both tables are as they were, or it keeps the store well formed
    and the revision id it returns reads back, under the file's own path, a content with the
    hash of what was recorded: exactly the recorded bytes, unless the tables were left as
    they were because the newest revision already has that hash.  It is stated of a
    well-formed store (every store this code has built is one, whatever failed meanwhile),
    of a configuration whose anchor interval, as an int64, is at most the 1000 rows that
    reconstruction follows and whose chain count fits an int64, and of a codec that decodes
    the snapshots it encodes; deltas are not trusted to decode. *)
Theorem record_then_content sql_fails path before after user now cfg
    `{!ZstdLaws (cfgZstdLevel cfg)} cn :
  wf (λ _, True) (c_db cn) → config_ok cfg → before ≠ after →
  match record sql_fails path before after user now cfg cn with
  | (Ok id, cn') => wf (λ _, True) (c_db cn') ∧ ∃ body, reads_back cn' id body path
      ∧ contentHash body = contentHash after ∧ (body = after ∨ c_db cn' = c_db cn)
  | (Err _, cn') => c_db cn' = c_db cn
      ∧ ∃ n, (c_stmts cn ≤ n < c_stmts cn')%nat ∧ sql_fails n = true
  end.
Proof. intros. by apply record_outcome. Qed.

Lemma collect_chain_head sql_fails steps id acc cn chain cn' :
  collect_chain sql_fails steps id acc cn = (Ok chain, cn') → (0 < steps)%nat →
  c_db cn' = c_db cn ∧ ∃ r path, chain = acc ++ r :: path
    ∧ r ∈ revisions (c_db cn) ∧ rv_id r = id.
Proof.
  revert id acc cn. induction steps as [|steps IH]; intros id acc cn Hc Hpos; [lia|].
  simpl in Hc. apply st_bind_Ok in Hc as (r & cn1 & Hq & Hc).
  unfold query_row, statement in Hq. destruct (sql_fails _); [done|]. simpl in Hq.
  destruct (find_row _ _) as [r'|] eqn:Ef; simplify_eq.
  apply find_row_Some in Ef as [Hr <-].
  assert (chain = acc ++ [r] ∧ c_db cn' = c_db cn ∨ ∃ b, (0 < steps)%nat ∧
    collect_chain sql_fails steps b (acc ++ [r]) (mkConn (c_db cn) (S (c_stmts cn))) = (Ok chain, cn'))
    as [[-> ?]|(b & Hs & Hrec)].
  { destruct (rv_base r) as [b|]; [|apply st_ret_Ok in Hc as [-> <-]; auto].
    destruct steps; [apply st_ret_Ok in Hc as [-> <-]; auto|]. right. exists b. auto with lia. }
  - split; [done|]. eauto.
  - apply IH in Hrec as (E & r2 & path & -> & _); [|done]. split; [done|].
    exists r, (r2 :: path). rewrite <-app_assoc. auto.
Qed.

Lemma replay_chain_last p c r : replay_chain (p ++ [r]) = Ok c → contentHash c = rv_hash r.
Proof.
  destruct p as [|x p]; simpl.
  - case_decide; [done|]. destruct (decodeHistorySnapshot _); simpl; [|done].
    case_decide; naive_solver.
  - case_decide; [done|]. destruct (decodeHistorySnapshot _); simpl; [|done].
    case_decide; [|done]. rewrite replay_app. destruct (replay _ p); simpl; [|done].
    destruct (decodeHistoryDelta _ _); simpl; [|done]. case_decide; naive_solver.
Qed.

(** C11: whatever the tables hold and however the database fails, a content that
    [reconstructHistoryRevision] returns carries the SHA-256 recorded in the row
    it was asked for, and reading changes no table. *)
Theorem reconstruct_integrity sql_fails id cn body cn' :
  reconstructHistoryRevision sql_fails id cn = (Ok body, cn') →
  c_db cn' = c_db cn ∧
  ∃ r, r ∈ revisions (c_db cn) ∧ rv_id r = id ∧ contentHash body = rv_hash r.
Proof.
  intros (chain & cn1 & Hc & Hr)%st_bind_Ok.
  apply collect_chain_head in Hc as (E & r & path & -> & Hin & Hid); [|unfold reconstruct_limit; lia].
  unfold st_lift in Hr. injection Hr as Hr <-. split; [done|]. exists r. split; [done|].
  split; [done|]. simpl in Hr. rewrite reverse_cons in Hr. by eapply replay_chain_last.
Qed.

(** *** Pruning *)

Lemma take_last_ge (l : list Z) k oldest x :
  StronglySorted (key_desc id) l → NoDup l → last (take k l) = Some oldest →
  x ∈ l → oldest ≤ x → x ∈ take k l.
Proof.
  intros Hs Hnd Hlast Hx Hge. rewrite <-(take_drop k l) in Hx.
  apply elem_of_app in Hx as [Hx|Hx]; [done|].
  apply last_Some_elem_of in Hlast.
  rewrite <-(take_drop k l) in Hs, Hnd.
  assert (x ≤ oldest).
  { exact (StronglySorted_app_1_elem_of _ _ _ oldest x Hs Hlast Hx). }
  apply NoDup_app in Hnd as (_ & Hdisj & _).
  assert (x = oldest) as -> by lia. by apply Hdisj in Hlast.
Qed.

Lemma take_all_chains keep (l : list Z) :
  0 ≤ keep → zlen (take (Z.to_nat keep) l) < keep → zlen l < keep.
Proof. unfold zlen. rewrite length_take. lia. Qed.

(** After [pruneOldHistoryChains] at most [keep] chains of the file are left. *)
Lemma pruneOld_chain_count sql_fails fileID keep cn :
  answers sql_fails → 1 ≤ keep < 2 ^ 63 →
  wp (pruneOldHistoryChains sql_fails fileID keep)
    (λ _ cn', zlen (chains_of fileID (revisions (c_db cn'))) ≤ keep) cn.
Proof.
  intros Ha Hkeep. unfold pruneOldHistoryChains.
  rewrite (proj2 (Z.leb_gt _ _) (proj2 Hkeep)). apply wp_bind, wp_query; [done|].
  set (l := revisions (c_db cn)). set (kept := take (Z.to_nat keep) (chains_of fileID l)).
  destruct (last kept) as [oldest|] eqn:Elast.
  - case_match eqn:Elen.
    + apply wp_ret, Z.lt_le_incl, take_all_chains; [lia|by apply Z.ltb_lt].
    + apply wp_delete_rows; [done|]. simpl. fold l. transitivity (zlen kept).
      * unfold zlen. apply Nat2Z.inj_le, submseteq_length, NoDup_submseteq.
        { apply NoDup_distinct_desc. }
        intros c (r & [Hn Hr]%list_elem_of_filter & Hf & <-)%elem_of_chains_of.
        apply (take_last_ge _ _ oldest); auto.
        -- apply distinct_desc_sorted.
        -- apply NoDup_distinct_desc.
        -- apply elem_of_chains_of. eauto.
        -- destruct (Z.le_gt_cases oldest (rv_chain r)); [done|]. by destruct Hn.
      * unfold zlen, kept. rewrite length_take. lia.
  - apply wp_ret. simpl. apply last_None in Elast. fold l.
    assert (length kept = 0%nat) as Hz by (by rewrite Elast).
    unfold kept in Hz. rewrite length_take in Hz. unfold zlen. lia.
Qed.

Lemma prune_file_loop_idle sql_fails turns fileID protected cfg cn :
  answers sql_fails → (0 < turns)%nat →
  zlen (chains_of fileID (revisions (c_db cn))) ≤ maxUint64 (cfgKeepChains cfg) 1 →
  1 ≤ maxUint64 (cfgKeepChains cfg) 1 →
  wp (prune_file_loop sql_fails turns fileID protected cfg) (λ _ cn', c_db cn' = c_db cn) cn.
Proof.
  intros Ha Hpos Hcount Hkeep. destruct turns as [|turns]; [lia|]. simpl.
  apply wp_bind, wp_query; [done|]. case_match; [by apply wp_ret|].
  apply wp_bind, wp_bind, wp_query; [done|]. simpl.
  rewrite (proj2 (Z.leb_le _ _)); [by apply wp_ret|].
  unfold maxUint64 at 1. case_match; lia.
Qed.

(** The per-file disk budget is never enforced.  After [pruneOldHistoryChains]
    no more than [KeepChains] chains are left, and the loop that compares the
    payload with [PerFileDiskBudget] only drops a chain when there are more, so
    [pruneHistory] changes the tables exactly as [pruneOldHistoryChains] does,
    whatever the budget. *)
Theorem per_file_budget_unused sql_fails fileID protected cfg cn :
  answers sql_fails → 0 ≤ cfgKeepChains cfg < 2 ^ 63 →
  ∃ cn1 cn2,
    pruneOldHistoryChains sql_fails fileID (maxUint64 (cfgKeepChains cfg) 1) cn = (Ok tt, cn1)
    ∧ pruneHistory sql_fails fileID protected cfg cn = (Ok tt, cn2)
    ∧ c_db cn2 = c_db cn1.
Proof.
  intros Ha Hkeep.
  assert (1 ≤ maxUint64 (cfgKeepChains cfg) 1 < 2 ^ 63) as Hk
    by (unfold maxUint64; case_match eqn:E; [|apply Z.eqb_neq in E]; lia).
  destruct (proj1 (wp_Ok _ _ _) (pruneOld_chain_count sql_fails fileID _ cn Ha Hk))
    as ([] & cn1 & E1 & Hcount).
  assert (wp (turns_per_row (λ turns, prune_file_loop sql_fails turns fileID protected cfg))
            (λ _ cn', c_db cn' = c_db cn1) cn1) as ([] & cn2 & E2 & Hdb)%wp_Ok.
  { apply prune_file_loop_idle; auto; lia. }
  exists cn1, cn2. split; [done|]. split; [|done].
  unfold pruneHistory. unfold mbind, st_bind. by rewrite E1.
Qed.

(** Chains of distinct files have distinct ids and every row carries a payload. *)
Definition payloads_nonempty (l : list revision) : Prop := ∀ r, r ∈ l → rv_payload r ≠ [].

Lemma payload_bytes_pos l r : r ∈ l → rv_payload r ≠ [] → 0 < payload_bytes l.
Proof.
  unfold payload_bytes. induction l as [|x l IH]; [set_solver|]. simpl.
  assert (0 ≤ zsum (λ r, zlen (rv_payload r)) l) by (apply zsum_nonneg; unfold zlen; lia).
  intros [->|Hr]%elem_of_cons Hp; unfold zlen in *.
  - destruct (rv_payload x); [done|]. simpl. lia.
  - specialize (IH Hr Hp). lia.
Qed.

(** What the server pruner leaves: the budget met or nothing to drop, and the
    protected chain whole. *)
Definition server_pruned (fileID : Z) (protected : option Z) (cfg : FileHistoryConfiguration)
    (l l' : list revision) : Prop :=
  (cfgPerServerDiskBudget cfg = 0 ∨ payload_bytes l' ≤ cfgPerServerDiskBudget cfg
   ∨ prunable fileID protected l' = [])
  ∧ ∀ r, r ∈ l → rv_file r = fileID → protected = Some (rv_chain r) → r ∈ l'.

Lemma oldest_row_None l : oldest_row l = None → l = [].
Proof. destruct l as [|y l]; [done|]. simpl. destruct (oldest_row l); [case_match|]; done. Qed.

Lemma prune_server_loop_post sql_fails turns fileID protected cfg cn :
  answers sql_fails → payloads_nonempty (revisions (c_db cn)) →
  (length (revisions (c_db cn)) < turns)%nat →
  wp (prune_server_loop sql_fails turns fileID protected cfg) (λ _ cn',
    server_pruned fileID protected cfg (revisions (c_db cn)) (revisions (c_db cn'))) cn.
Proof.
  intros Ha. revert cn. induction turns as [|turns IH]; intros cn Hne Hlen; [lia|]. simpl.
  apply wp_bind, wp_query; [done|]. case_match eqn:Esz.
  { apply wp_ret. apply Z.leb_le in Esz. split; simpl; auto. }
  apply wp_bind, wp_bind, wp_query; [done|]. simpl.
  destruct (oldest_row _) as [x|] eqn:Eo; simpl.
  2: { apply wp_ret. apply oldest_row_None in Eo. split; simpl; auto. }
  apply wp_bind, wp_query; [done|]. apply wp_bind, wp_delete_rows; [done|]. apply wp_ret. simpl.
  apply oldest_row_elem, list_elem_of_filter in Eo as [[_ Hx] Hin].
  assert (x ∈ of_chain (rv_file x) (rv_chain x) (revisions (c_db cn))) as Hxc
    by (by apply list_elem_of_filter).
  rewrite (proj2 (Z.eqb_neq _ _)) by (pose proof (payload_bytes_pos _ _ Hxc (Hne x Hin)); lia).
  eapply wp_mono; [apply IH|]; simpl.
  - intros r [_ Hr]%list_elem_of_filter. auto.
  - pose proof (filter_strict_length (λ r, rv_file r = rv_file x ∧ rv_chain r = rv_chain x)
      (revisions (c_db cn)) x Hin (conj eq_refl eq_refl)). lia.
  - intros _ cn' [Hpost Hkeep]. split; [done|]. intros r Hr Hf Hp. apply Hkeep; auto.
    apply list_elem_of_filter. split; [|done]. intros [Ef Ec]. apply Hx. split; congruence.
Qed.

(** Pruning for the server budget terminates with the budget met, or with no
    chain left that it is allowed to drop (every file down to one chain, the chain
    being recorded aside); it never loses a row of the protected chain. *)
Theorem server_budget_enforced sql_fails fileID protected cfg cn :
  answers sql_fails → payloads_nonempty (revisions (c_db cn)) →
  ∃ cn', pruneServerHistory sql_fails fileID protected cfg cn = (Ok tt, cn')
    ∧ server_pruned fileID protected cfg (revisions (c_db cn)) (revisions (c_db cn')).
Proof.
  intros Ha Hne. enough (wp (pruneServerHistory sql_fails fileID protected cfg) (λ _ cn',
    server_pruned fileID protected cfg (revisions (c_db cn)) (revisions (c_db cn'))) cn)
    as ([] & cn' & ? & ?)%wp_Ok by eauto.
  unfold pruneServerHistory. case_match eqn:Eb.
  - apply wp_ret. apply Z.eqb_eq in Eb. split; auto.
  - by apply prune_server_loop_post; [| |lia].
Qed.

(** *** The reach of reconstruction *)

Lemma collect_chain_deep sql_fails steps r c n acc cn :
  answers sql_fails → NoDup (rv_id <$> revisions (c_db cn)) →
  represents (revisions (c_db cn)) r c n → (steps < n)%nat →
  wp (collect_chain sql_fails steps (rv_id r) acc) (λ chain _,
    ∀ x, last chain = Some x → last acc = Some x ∨ rv_base x ≠ None) cn.
Proof.
  intros Ha Hnd Hrep. remember (revisions (c_db cn)) as l eqn:El.
  revert steps acc cn El. induction Hrep as [r c Hin Hb|r rb c cb n Hin Hb Hrep IH];
    intros [|steps] acc cn El Hlt; simpl; try lia; try (apply wp_ret; by auto).
  apply wp_bind, (wp_query_row sql_fails Ha _ r); [subst; by apply find_row_id|]. rewrite Hb.
  eapply wp_mono; [apply IH; simpl; auto; lia|].
  intros chain cn1 Hlast x Hx. apply Hlast in Hx as [Hx|Hx]; [|by auto].
  rewrite last_snoc in Hx. simplify_eq. right. by rewrite Hb.
Qed.

(** [reconstructHistoryRevision] reads exactly the revisions whose delta chain
    is at most 1000 rows deep: those decode to their content, and a revision any
    deeper is answered with the "no snapshot anchor" error although every row down
    to its snapshot is present. *)
Theorem reconstruct_depth_limit sql_fails r body n cn :
  answers sql_fails → NoDup (rv_id <$> revisions (c_db cn)) →
  represents (revisions (c_db cn)) r body n →
  fst (reconstructHistoryRevision sql_fails (rv_id r) cn)
  = if decide (n ≤ reconstruct_limit)%nat then Ok body else Err ErrNoAnchor.
Proof.
  intros Ha Hnd Hrep. case_decide as Hn.
  - pose proof (runs_wp _ _ _ _ Ha (reconstruct_represents sql_fails r body n cn Hnd Hrep Hn))
      as (? & ? & -> & -> & _)%wp_Ok. done.
  - pose proof (collect_chain_deep sql_fails reconstruct_limit r body n [] cn Ha Hnd Hrep
      ltac:(lia)) as (chain & cn' & E & Hlast)%wp_Ok.
    unfold reconstructHistoryRevision, mbind, st_bind. rewrite E. simpl.
    destruct (last chain) as [x|] eqn:El.
    + apply last_Some in El as [l' ->]. rewrite reverse_snoc. simpl.
      destruct (Hlast x eq_refl) as [|Hb]; [done|].
      rewrite decide_True; [done|]. by apply not_eq_None_Some.
    + by apply last_None in El as ->.
Qed.

(** *** Forgetting and renaming *)

(** The tables after [deleteFile]. *)
Definition forgotten (path : string) (d : db) : db :=
  mkDb (filter (λ f, fl_path f ≠ path) (files d))
    (filter (λ r, rv_file r ∉ fl_id <$> filter (λ f, fl_path f = path) (files d)) (revisions d)).

Lemma forgotten_rows path d r :
  r ∈ revisions (forgotten path d) ↔ r ∈ revisions d ∧ mkFile (rv_file r) path ∉ files d.
Proof.
  simpl. rewrite list_elem_of_filter, list_elem_of_fmap. setoid_rewrite list_elem_of_filter.
  enough ((∃ f, rv_file r = fl_id f ∧ fl_path f = path ∧ f ∈ files d)
    ↔ mkFile (rv_file r) path ∈ files d) as -> by tauto. split.
  - intros ([j q] & E & <- & Hf). simpl in *. by rewrite E.
  - intros Hf. by exists (mkFile (rv_file r) path).
Qed.

Lemma wf_forgotten L path d : wf L d → wf L (forgotten path d).
Proof.
  intros Hwf.
  pose proof (wf_delete (L:=L) d (λ r, rv_file r ∈ fl_id <$> filter (λ f, fl_path f = path) (files d)) Hwf)
    as [? ? ? ? ? ? ? ?].
  { intros r1 r2 _ _ -> _ ?. done. }
  split; simpl; auto.
  - eapply sublist_NoDup; [apply (wf_file_ids _ Hwf)|]. apply fmap_sublist, sublist_filter.
  - eapply sublist_NoDup; [apply (wf_file_paths _ Hwf)|]. apply fmap_sublist, sublist_filter.
  - intros f [_ Hf]%list_elem_of_filter. by apply (wf_file_pos _ Hwf).
  - intros r [Hr Hng]%forgotten_rows.
    pose proof (wf_foreign_key _ Hwf r Hr) as (f & Ef & Hf)%list_elem_of_fmap.
    apply list_elem_of_fmap. exists f. split; [done|]. apply list_elem_of_filter. split; [|done].
    intros E. apply Hng. rewrite Ef, <-E. by destruct f.
Qed.

(** [deleteFile] removes the file and, through the foreign key, all of its
    revisions and nothing else; the store stays well formed. *)
Theorem deleteFile_forgets L sql_fails path cn :
  answers sql_fails → wf L (c_db cn) →
  ∃ cn', deleteFile sql_fails path cn = (Ok tt, cn') ∧ wf L (c_db cn')
    ∧ (path ∉ (fl_path <$> files (c_db cn')))
    ∧ (∀ f, f ∈ files (c_db cn') ↔ f ∈ files (c_db cn) ∧ fl_path f ≠ path)
    ∧ (∀ r, r ∈ revisions (c_db cn') ↔
         r ∈ revisions (c_db cn) ∧ mkFile (rv_file r) path ∉ files (c_db cn)).
Proof.
  intros Ha Hwf. exists (mkConn (forgotten path (c_db cn)) (S (c_stmts cn))).
  split; [unfold deleteFile, statement; by rewrite Ha|]. split; [by apply wf_forgotten|].
  split; [|split; [|apply forgotten_rows]]; simpl.
  - intros (f & E & [Hne _]%list_elem_of_filter)%list_elem_of_fmap. by apply Hne.
  - intros f. rewrite list_elem_of_filter. tauto.
Qed.

Definition renamed (oldPath newPath : string) (f : file_row) : file_row :=
  if decide (fl_path f = oldPath) then mkFile (fl_id f) newPath else f.

Lemma renamed_paths oldPath newPath (l : list file_row) :
  NoDup (fl_path <$> l) → newPath ∉ fl_path <$> l →
  NoDup (fl_path <$> (renamed oldPath newPath <$> l)).
Proof.
  induction l as [|f l IH]; simpl; [auto|].
  rewrite !NoDup_cons, not_elem_of_cons. intros [Hf Hnd] [Hne Hnew]. split; [|auto].
  rewrite <-list_fmap_compose. intros (g & E & Hg)%list_elem_of_fmap.
  assert (fl_path g ∈ fl_path <$> l) as Hg' by (by apply list_elem_of_fmap_2).
  unfold compose, renamed in E. repeat case_decide; simpl in E;
    first [congruence | apply Hf; by replace (fl_path f) with (fl_path g) by congruence
          | apply Hnew; by replace newPath with (fl_path g) by congruence].
Qed.

Lemma renamed_ids oldPath newPath (l : list file_row) :
  fl_id <$> (renamed oldPath newPath <$> l) = fl_id <$> l.
Proof.
  rewrite <-list_fmap_compose. apply list_fmap_ext. intros i f _.
  unfold compose, renamed. by case_decide.
Qed.

Lemma find_file_path (l : list file_row) f :
  NoDup (fl_path <$> l) → f ∈ l → find_row (λ x, fl_path x = fl_path f) l = Some f.
Proof.
  intros Hnd Hin. destruct (find_row _ l) as [x|] eqn:E.
  - apply find_row_Some in E as [Hx Ex]. f_equal.
    apply list_elem_of_lookup in Hx as [i Hi], Hin as [j Hj].
    assert (i = j) as ->.
    { eapply (NoDup_lookup (fl_path <$> l)); [done|by rewrite list_lookup_fmap, Hi|].
      rewrite list_lookup_fmap, Hj. simpl. by rewrite Ex. }
    congruence.
  - by apply (find_row_None _ _ f) in E.
Qed.

(** Renaming keeps the invariant whenever the paths stay distinct: the new path is free,
    the old one has no row, or the two are one. *)
Lemma wf_renamed L oldPath newPath d :
  wf L d → ¬ (oldPath ≠ newPath ∧ oldPath ∈ fl_path <$> files d ∧ newPath ∈ fl_path <$> files d) →
  wf L (mkDb (renamed oldPath newPath <$> files d) (revisions d)).
Proof.
  intros Hwf Hok. destruct (decide (newPath ∈ fl_path <$> files d)) as [Hin|Hnew].
  - assert (renamed oldPath newPath <$> files d = files d) as ->; [|by destruct d].
    rewrite <-(list_fmap_id (files d)) at 2. apply list_fmap_ext.
    intros i f Hf%list_elem_of_lookup_2. unfold renamed. case_decide as E; [|done].
    destruct (decide (oldPath = newPath)) as [->|Hne]; [destruct f; by simpl in *; subst|].
    destruct Hok. split; [done|]. split; [|done]. rewrite <-E. by apply list_elem_of_fmap_2.
  - split; simpl; rewrite ?renamed_ids; try apply Hwf.
    + apply renamed_paths; [apply Hwf|done].
    + intros g (h & -> & Hh)%list_elem_of_fmap. unfold renamed.
      pose proof (wf_file_pos _ Hwf h Hh). by case_decide.
Qed.

(** Renaming a file that has history to a path that has none succeeds, keeps
    the store well formed and moves the whole listing: the revisions listed under
    the new path are exactly those listed under the old path before. *)
Theorem renameFile_moves_history L sql_fails oldPath newPath cn :
  answers sql_fails → wf L (c_db cn) →
  oldPath ∈ fl_path <$> files (c_db cn) → newPath ∉ fl_path <$> files (c_db cn) →
  ∃ cn', renameFile sql_fails oldPath newPath cn = (Ok tt, cn') ∧ wf L (c_db cn')
    ∧ fst (list_revisions sql_fails newPath cn') = fst (list_revisions sql_fails oldPath cn)
    ∧ fst (list_revisions sql_fails oldPath cn') = Ok [].
Proof.
  intros Ha Hwf (f & -> & Hf)%list_elem_of_fmap Hnew.
  unfold renameFile, statement. rewrite Ha. simpl. rewrite decide_False by tauto. simpl.
  change (λ f0, if decide (fl_path f0 = fl_path f) then mkFile (fl_id f0) newPath else f0)
    with (renamed (fl_path f) newPath).
  pose proof (renamed_paths (fl_path f) newPath _ (wf_file_paths _ Hwf) Hnew) as Hnd.
  assert (mkFile (fl_id f) newPath ∈ renamed (fl_path f) newPath <$> files (c_db cn)) as Hf'.
  { apply list_elem_of_fmap. exists f. split; [|done]. unfold renamed. by rewrite decide_True. }
  eexists. split; [done|]. simpl. split; [|split].
  - apply wf_renamed; [done|]. tauto.
  - unfold list_revisions, findHistoryFile, query, statement, mbind, st_bind. rewrite !Ha. simpl.
    pose proof (find_file_path _ _ Hnd Hf') as E1. simpl in E1. rewrite E1.
    rewrite (find_file_path _ _ (wf_file_paths _ Hwf) Hf). simpl.
    pose proof (wf_file_pos _ Hwf f Hf). rewrite (proj2 (Z.eqb_neq _ _)) by lia.
    unfold statement. by rewrite !Ha.
  - unfold list_revisions, findHistoryFile, query, statement, mbind, st_bind. rewrite !Ha. simpl.
    destruct (find_row _ _) as [g|] eqn:E; simpl; [|done].
    apply find_row_Some in E as [(h & -> & Hh)%list_elem_of_fmap E]. exfalso.
    unfold renamed in E. case_decide; simpl in E; [|done].
    apply Hnew. rewrite E. by apply list_elem_of_fmap_2.
Qed.

(** *** A store over its whole life *)

(** What the daemon asks of a server's store, each with the configuration and the result
    of opening the store at that time. *)
Inductive history_call :=
| RecordCall (open : result herr unit) (cfg : FileHistoryConfiguration) (path : string)
    (before after : bytes) (user : string) (nowMs : Z)
| ForgetCall (open : result herr unit) (cfg : FileHistoryConfiguration) (path : string)
| RenameCall (open : result herr unit) (cfg : FileHistoryConfiguration)
    (oldPath newPath : string).

(** The contents a call hands to the store. *)
Definition handed (call : history_call) : list bytes :=
  match call with RecordCall _ _ _ before after _ _ => [before; after] | _ => [] end.

Definition call_ok (call : history_call) : Prop :=
  match call with
  | RecordCall _ cfg _ _ _ _ _ => config_ok cfg ∧ ZstdLaws (cfgZstdLevel cfg)
  | _ => True
  end.

Context `{UnicodeTables}.

Definition perform (sql_fails : nat → bool) (call : history_call) (cn : conn) : conn :=
  match call with
  | RecordCall open cfg path before after user nowMs =>
      snd (RecordFileRevision sql_fails open cfg path before after user nowMs cn)
  | ForgetCall open cfg path => snd (ForgetFileHistory sql_fails open cfg path cn)
  | RenameCall open cfg oldPath newPath =>
      snd (RenameFileHistory sql_fails open cfg oldPath newPath cn)
  end.

Definition perform_all (sql_fails : nat → bool) (calls : list history_call) (cn : conn) : conn :=
  foldl (λ c call, perform sql_fails call c) cn calls.

Lemma RecordFileRevision_wf L sql_fails open cfg path before after user now cn :
  wf L (c_db cn) → config_ok cfg → ZstdLaws (cfgZstdLevel cfg) → L before → L after →
  wf L (c_db (snd (RecordFileRevision sql_fails open cfg path before after user now cn))).
Proof.
  intros Hwf Hcfg Hz HLb HLa. unfold RecordFileRevision. case_match; [done|].
  unfold mbind, st_bind, st_lift. destruct open; [|done].
  destruct (decide (before = after)) as [E|Hne]; [unfold record; by rewrite decide_True|].
  pose proof (record_outcome L sql_fails path before after user now cfg cn Hwf Hcfg Hne HLb HLa) as Hr.
  destruct (record _ _ _ _ _ _ _ cn) as [[id|e] cn']; simpl; [apply Hr|].
  destruct Hr as [-> _]. done.
Qed.

Lemma ForgetFileHistory_wf L sql_fails open cfg path cn :
  wf L (c_db cn) → wf L (c_db (snd (ForgetFileHistory sql_fails open cfg path cn))).
Proof.
  intros Hwf. unfold ForgetFileHistory. case_match; [done|].
  unfold mbind, st_bind, try_tx, st_lift, deleteFile, statement. destruct open; [|done].
  destruct (sql_fails _); [done|]. simpl. by apply wf_forgotten.
Qed.

Lemma RenameFileHistory_wf L sql_fails open cfg oldPath newPath cn :
  wf L (c_db cn) → wf L (c_db (snd (RenameFileHistory sql_fails open cfg oldPath newPath cn))).
Proof.
  intros Hwf. unfold RenameFileHistory. case_match; [done|].
  unfold mbind, st_bind, try_tx, st_lift, renameFile, statement. destruct open; [|done].
  destruct (sql_fails _); [done|]. simpl. case_decide; [done|]. simpl. by apply wf_renamed.
Qed.

Lemma perform_all_wf L sql_fails calls cn :
  wf L (c_db cn) → Forall call_ok calls → Forall (λ call, Forall L (handed call)) calls →
  wf L (c_db (perform_all sql_fails calls cn)).
Proof.
  intros Hwf Hok. revert cn Hwf. induction Hok as [|call calls Hcall _ IH]; intros cn Hwf HL; [done|].
  apply Forall_cons in HL as [HL Hrest]. apply IH; [|done]. destruct call; simpl in *.
  - apply Forall_cons in HL as [? [? _]%Forall_cons]. destruct Hcall. by apply RecordFileRevision_wf.
  - by apply ForgetFileHistory_wf.
  - by apply RenameFileHistory_wf.
Qed.

Lemma empty_wf L : wf L (mkDb [] []).
Proof. split; simpl; try apply NoDup_nil_2; intros; set_solver. Qed.

(** C2: take a server's store from empty through any sequence of recordings, forgettings
    and renamings, with any of them unable to open the store and any pattern of failing
    statements.  Every revision row then left belongs to a file row and reads back, under
    that file's path, one of the contents that the recordings were handed, with the hash the
    row carries (unless a statement sent for reading fails): pruning, deltas, renaming and
    half-done recordings never leave a row that cannot be decoded or that decodes to bytes
    nobody wrote.  Each recording's configuration keeps the anchor interval, as an int64,
    within the 1000 rows that reconstruction follows and the chain count within an int64,
    and the codec decodes the snapshots it encodes. *)
Theorem history_stays_readable sql_fails calls cn :
  Forall call_ok calls → cn = perform_all sql_fails calls (mkConn (mkDb [] []) 0) →
  wf (λ body, ∃ call, call ∈ calls ∧ body ∈ handed call) (c_db cn)
  ∧ ∀ r, r ∈ revisions (c_db cn) →
      ∃ call body f, call ∈ calls ∧ body ∈ handed call ∧ contentHash body = rv_hash r
        ∧ f ∈ files (c_db cn) ∧ fl_id f = rv_file r
        ∧ reads_back cn (rv_id r) body (fl_path f).
Proof.
  intros Hok ->.
  assert (wf (λ body, ∃ call, call ∈ calls ∧ body ∈ handed call)
    (c_db (perform_all sql_fails calls (mkConn (mkDb [] []) 0)))) as Hwf.
  { apply perform_all_wf; [apply empty_wf|done|].
    apply Forall_forall. intros call Hcall. apply Forall_forall. eauto. }
  split; [done|]. intros r Hr.
  destruct (wf_content _ Hwf r Hr) as (body & n & Hrep & _ & call & Hcall & Hbody).
  pose proof (wf_foreign_key _ Hwf r Hr) as (f & Ef & Hf)%list_elem_of_fmap.
  exists call, body, f. split; [done|]. split; [done|].
  split; [by eapply represents_hash|]. split; [done|]. split; [done|].
  apply (reads_represents _ _ r body n _ Hwf Hrep). rewrite Ef. by destruct f.
Qed.
End properties.

(** ** Witnesses *)

Section witnesses.

(** A codec that frames a snapshot with two bytes and stores a delta bare. *)
#[local] Instance plain_codec : Zstd := {|
  zstd_encode _ c := Some (x28 :: xb5 :: c);
  zstd_decode p := match p with x28 :: xb5 :: c => Some c | _ => None end;
  zstd_encode_dict _ _ c := Some c;
  zstd_decode_dict p _ := Some p;
  sha256_hex c := String.string_of_list_byte c;
|}.

#[local] Instance plain_codec_laws level : ZstdLaws level.
Proof. split. intros c. exists (x28 :: xb5 :: c). done. Defined.

Definition demo_cfg : FileHistoryConfiguration :=
  mkHistoryConfig true 12 4 2 1048576 5242880 209715200.
Definition always (n : nat) : bool := false.
Definition empty_store : conn := mkConn (mkDb [] []) 0.

Lemma record_then_content_witness :
  ∃ id cn', record always "a.txt" [x41] [x42] "u" 1000 demo_cfg empty_store = (Ok id, cn')
    ∧ ∃ body, reads_back cn' id body "a.txt" ∧ contentHash body = contentHash [x42].
Proof.
  pose proof (record_then_content always "a.txt" [x41] [x42] "u" 1000 demo_cfg empty_store) as Hr.
  assert (is_ok (fst (record always "a.txt" [x41] [x42] "u" 1000 demo_cfg empty_store)) = true) as Eo
    by (vm_compute; reflexivity).
  destruct (record always "a.txt" [x41] [x42] "u" 1000 demo_cfg empty_store) as [[id|e] cn'];
    [|discriminate].
  destruct Hr as [_ (body & Hb & Hh & _)].
  - apply empty_wf.
  - split; vm_compute; [discriminate|reflexivity].
  - discriminate.
  - exists id, cn'. split; [reflexivity|]. exists body. split; [exact Hb|exact Hh].
Defined.

(** One statement of the second recording fails. *)
Definition failing (n : nat) : bool := Nat.eqb n 20.

#[local] Instance fh_unicode : UnicodeTables :=
  {| unicode_lower s := s; unicode_upper s := s; unicode_trim s := s |}.

Definition demo_calls : list history_call :=
  [RecordCall (Ok tt) demo_cfg "a.txt" [x41] [x42] "u" 1000;
   RecordCall (Ok tt) demo_cfg "a.txt" [x42] [x43] "u" 1001;
   RenameCall (Ok tt) demo_cfg "a.txt" "b.txt";
   RecordCall (Ok tt) demo_cfg "b.txt" [x43] [x44] "u" 1002;
   RecordCall (Ok tt) demo_cfg "c.txt" [] [x45] "u" 1003;
   ForgetCall (Ok tt) demo_cfg "c.txt"].
Definition demo_life : conn := perform_all failing demo_calls empty_store.

Lemma history_stays_readable_witness :
  revisions (c_db demo_life) ≠ []
  ∧ ∀ r, r ∈ revisions (c_db demo_life) →
      ∃ call body f, call ∈ demo_calls ∧ body ∈ handed call ∧ contentHash body = rv_hash r
        ∧ f ∈ files (c_db demo_life) ∧ fl_id f = rv_file r
        ∧ reads_back demo_life (rv_id r) body (fl_path f).
Proof.
  split; [vm_compute; discriminate|].
  apply (history_stays_readable failing demo_calls demo_life); [|reflexivity].
  repeat apply List.Forall_cons; try apply List.Forall_nil; try exact I;
    (split; [split; vm_compute; [discriminate|reflexivity]|apply plain_codec_laws]).
Defined.

(** The store after three recordings of one file. *)
Definition demo_store : conn :=
  snd (record always "a.txt" [x42] [x43] "u" 1001 demo_cfg
    (snd (record always "a.txt" [x41] [x42] "u" 1000 demo_cfg empty_store))).

Lemma reconstruct_integrity_witness :
  ∃ r, r ∈ revisions (c_db demo_store) ∧ rv_id r = 3 ∧ contentHash [x43] = rv_hash r.
Proof.
  apply (reconstruct_integrity always 3 demo_store [x43]
    (snd (reconstructHistoryRevision always 3 demo_store))).
  vm_compute. reflexivity.
Defined.

Lemma per_file_budget_unused_witness :
  ∃ cn1 cn2, pruneOldHistoryChains always 1 2 demo_store = (Ok tt, cn1)
    ∧ pruneHistory always 1 (Some 1) (mkHistoryConfig true 12 4 2 1048576 0 0) demo_store = (Ok tt, cn2)
    ∧ c_db cn2 = c_db cn1.
Proof.
  apply (per_file_budget_unused always 1 (Some 1) (mkHistoryConfig true 12 4 2 1048576 0 0) demo_store).
  - intros n. reflexivity.
  - simpl. lia.
Defined.

Lemma server_budget_enforced_witness :
  ∃ cn', pruneServerHistory always 1 (Some 1) (mkHistoryConfig true 12 4 2 1048576 0 1) demo_store = (Ok tt, cn')
    ∧ server_pruned 1 (Some 1) (mkHistoryConfig true 12 4 2 1048576 0 1)
        (revisions (c_db demo_store)) (revisions (c_db cn')).
Proof.
  apply server_budget_enforced.
  - intros n. reflexivity.
  - unfold payloads_nonempty. apply Forall_forall. vm_compute. repeat constructor; discriminate.
Defined.

(** A chain of [n] rows, every row the delta of the one before it. *)
Definition deep_row (i : nat) : revision :=
  mkRevision (Z.of_nat i) 1 1 0 None (match i with S (S j) => Some (Z.of_nat (S j)) | _ => None end)
    (match i with S (S _) => [] | _ => [x28; xb5] end) EmptyString 0.
Definition deep_store (n : nat) : conn := mkConn (mkDb [mkFile 1 "a.txt"] (deep_row <$> seq 1 n)) 0.

Lemma deep_represents n i : (1 ≤ i ≤ n)%nat →
  represents (revisions (c_db (deep_store n))) (deep_row i) [] i.
Proof.
  intros [H1 Hn]. induction i as [|[|i] IH]; [lia| |].
  - apply rep_snapshot; try done. apply list_elem_of_fmap_2, elem_of_seq. lia.
  - apply (rep_delta _ _ (deep_row (S i)) _ []); try done.
    + apply list_elem_of_fmap_2, elem_of_seq. lia.
    + apply IH; lia.
Qed.

Lemma deep_ids n : NoDup (rv_id <$> revisions (c_db (deep_store n))).
Proof.
  simpl. rewrite <-list_fmap_compose. apply NoDup_fmap_2; [|apply NoDup_seq].
  intros i j. unfold compose. simpl. lia.
Qed.

Lemma reconstruct_depth_limit_witness :
  fst (reconstructHistoryRevision always 1001 (deep_store 1001)) = Err ErrNoAnchor.
Proof.
  apply (reconstruct_depth_limit always (deep_row 1001) [] 1001 (deep_store 1001)).
  - intros n. reflexivity.
  - apply deep_ids.
  - apply deep_represents. lia.
Defined.

(** One file with one snapshot. *)
Definition one_row : revision := mkRevision 1 1 1 1 None None [x28; xb5; x41] "A" 7.
Definition one_store : conn := mkConn (mkDb [mkFile 1 "a.txt"] [one_row]) 0.

Lemma one_wf : wf (λ _, True) (c_db one_store).
Proof.
  assert (wf (λ _, True) (mkDb [mkFile 1 "a.txt"] [])) as Hwf.
  { split; simpl; try apply NoDup_singleton; try apply NoDup_nil_2; try set_solver. }
  apply (wf_append_snapshot _ one_row [x41] Hwf); try done. apply list_elem_of_singleton. done.
Qed.

Lemma deleteFile_forgets_witness :
  ∃ cn', deleteFile always "a.txt" one_store = (Ok tt, cn') ∧ wf (λ _, True) (c_db cn').
Proof.
  destruct (deleteFile_forgets (λ _, True) always "a.txt" one_store) as (cn' & E & Hwf & _).
  - intros n. reflexivity.
  - apply one_wf.
  - exists cn'. split; [exact E|exact Hwf].
Defined.

Lemma renameFile_moves_history_witness :
  ∃ cn', renameFile always "a.txt" "b.txt" one_store = (Ok tt, cn') ∧ wf (λ _, True) (c_db cn')
    ∧ fst (list_revisions always "b.txt" cn') = fst (list_revisions always "a.txt" one_store)
    ∧ fst (list_revisions always "a.txt" cn') = Ok [].
Proof.
  apply renameFile_moves_history.
  - intros n. reflexivity.
  - apply one_wf.
  - apply list_elem_of_singleton. reflexivity.
  - intros E%list_elem_of_singleton. discriminate.
Defined.
End witnesses.
