(* ===== verification/Disk.v ===== *)
(** * Disk quota (internal/ufs/fs_quota.go, server/filesystem/disk_space.go,
    quota_file.go, and the writers of filesystem.go and upload.go)

    [Quota] keeps a limit and a tracked usage in two atomics.  [Filesystem] adds
    the reservations of writes in progress and the cached result of the last walk
    of the disk.  A writer reserves what it may add ([reserveDisk]), writes, and
    releases the reservation with what it really added ([releaseDisk]). *)

From stdpp Require Import base sets list strings numbers.
From S2P Require Import Prelude GoStrings.
Open Scope Z_scope.

(** Errors of the filesystem layer that the code distinguishes. *)
Inductive fserr :=
| ErrCodeDiskSpace
| ErrIsDirectory
| ErrBadPathResolution
| ErrNotExist
| ErrIgnored
| ErrIO (n : Z).        (* any other error of the operating system *)

#[global] Instance fserr_eq_dec : EqDecision fserr.
Proof. solve_decision. Defined.

(** What [Lstat] reports: the size, whether the file is regular, and the link
    count and inode when the platform provides them. *)
Record FileInfo := mkInfo {
  fi_regular : bool;
  fi_size : Z;
  fi_nlink : Z;
  fi_ino : Z;
}.

(** ** The quota counters *)

Record Quota := mkQuota { q_limit : Z; q_usage : Z }.

Definition NewQuota (limit : Z) : Quota := mkQuota limit 0.
Definition Limit (q : Quota) : Z := q_limit q.
Definition SetLimit (newLimit : Z) (q : Quota) : Z * Quota :=
  (q_limit q, mkQuota newLimit (q_usage q)).
Definition Usage (q : Quota) : Z := q_usage q.
Definition SetUsage (newUsage : Z) (q : Quota) : Z * Quota :=
  (q_usage q, mkQuota (q_limit q) newUsage).

(** The value one turn of [Add]'s loop computes from the usage it read. *)
Definition add_next (usage i : Z) : Z :=
  if 0 <? i then
    if int64_max - i <? usage then int64_max else wrap64 (usage + i)
  else if i <? 0 then
    if i =? int64_min then 0
    else if usage <=? wrap64 (- i) then 0
    else wrap64 (usage + i)
  else usage.

(** [Add]'s compare-and-swap loop.  [others] are the values other goroutines store
    between a read and the swap that follows it, one per failed turn; the loop
    returns its result and the usage it leaves. *)
Fixpoint add_loop (others : list Z) (usage i : Z) : Z * Z :=
  if i =? 0 then (usage, usage)
  else
    let next := add_next usage i in
    match others with
    | [] => (next, next)
    | seen :: others' => if seen =? usage then (next, next) else add_loop others' seen i
    end.

(** [Add] when nothing intervenes. *)
Definition Add (i : Z) (q : Quota) : Z * Quota :=
  let r := add_loop [] (q_usage q) i in
  (fst r, mkQuota (q_limit q) (snd r)).

Definition CanFit (size : Z) (q : Quota) : bool :=
  if q_limit q =? -1 then false
  else if q_limit q =? 0 then true
  else if q_usage q =? -1 then true
  else if size <=? 0 then true
  else if q_limit q <=? q_usage q then false
  else size <=? wrap64 (q_limit q - q_usage q).

Definition freedBy (s : FileInfo) : Z :=
  if negb (fi_regular s) then 0
  else if 1 <? fi_nlink s then 0
  else fi_size s.

(** [Remove] with the outcome of the underlying [RemoveStat]. *)
Definition Remove (removed : result fserr FileInfo) (q : Quota) : result fserr unit * Quota :=
  match removed with
  | Err e => (Err e, q)
  | Ok s => (Ok tt, snd (Add (- freedBy s) q))
  end.

(** [unlinkat] with the outcomes of [Lstatat] and of the system call; only plain
    files ([flags = 0]) are accounted. *)
Definition unlinkat (flags : Z) (stat : result fserr FileInfo) (unlink : result fserr unit)
    (q : Quota) : result fserr unit * Quota :=
  let q' := if flags =? 0 then
              match stat with Ok s => snd (Add (- freedBy s) q) | Err _ => q end
            else q in
  (unlink, q').

(** ** The filesystem's disk accounting *)

Record Filesystem := mkFs {
  fs_quota : Quota;
  fs_reserved : Z;
  fs_walking : bool;
  fs_walkReserved : Z;
  fs_lastLookup : Z;           (* time of the last walk *)
  fs_lookupInProgress : bool;
  fs_diskCheckInterval : Z;    (* seconds *)
}.

Definition set_quota (q : Quota) (fs : Filesystem) : Filesystem :=
  mkFs q (fs_reserved fs) (fs_walking fs) (fs_walkReserved fs) (fs_lastLookup fs)
    (fs_lookupInProgress fs) (fs_diskCheckInterval fs).
Definition set_reserved (r w : Z) (fs : Filesystem) : Filesystem :=
  mkFs (fs_quota fs) r (fs_walking fs) w (fs_lastLookup fs)
    (fs_lookupInProgress fs) (fs_diskCheckInterval fs).
Definition fs_usage (fs : Filesystem) : Z := q_usage (fs_quota fs).
Definition fs_limit (fs : Filesystem) : Z := q_limit (fs_quota fs).

Definition MaxDisk (fs : Filesystem) : Z := Limit (fs_quota fs).
Definition SetDiskLimit (i : Z) (fs : Filesystem) : Filesystem :=
  set_quota (snd (SetLimit i (fs_quota fs))) fs.
Definition CachedUsage (fs : Filesystem) : Z := Usage (fs_quota fs).

Definition HasSpaceFor (size : Z) (fs : Filesystem) : result fserr unit :=
  require (CanFit size (fs_quota fs)) ErrCodeDiskSpace.

Definition reserveDisk (size : Z) (fs : Filesystem) : result fserr unit * Filesystem :=
  if size <=? 0 then (Ok tt, fs)
  else match HasSpaceFor size fs with
  | Err e => (Err e, fs)
  | Ok _ =>
      let q := snd (Add size (fs_quota fs)) in
      let w := if fs_walking fs then wrap64 (fs_walkReserved fs + size) else fs_walkReserved fs in
      (Ok tt, set_quota q (set_reserved (wrap64 (fs_reserved fs + size)) w fs))
  end.

Definition releaseDisk (reserved used : Z) (fs : Filesystem) : Filesystem :=
  let reserved := if reserved <? 0 then 0 else reserved in
  let w := if fs_walking fs then Z.max (wrap64 (fs_walkReserved fs - reserved)) 0
           else fs_walkReserved fs in
  let fs1 := set_reserved (wrap64 (fs_reserved fs - reserved)) w fs in
  set_quota (snd (Add (wrap64 (used - reserved)) (fs_quota fs1))) fs1.

Definition adjustDisk (size : Z) (fs : Filesystem) : Z * Filesystem :=
  if size =? 0 then (CachedUsage fs, fs)
  else let r := Add size (fs_quota fs) in (fst r, set_quota (snd r) fs).

(** ** Walking the disk *)

(** One callback of [WalkDirat]: the entry's error, or its type and the outcome of
    [Lstatat]. *)
Inductive walk_entry :=
| WalkError (e : fserr)
| WalkFile (regular : bool) (stat : result fserr FileInfo).

(** [DirectorySize]'s walk: the inodes already counted and the size so far; a walk
    error ends it. *)
Fixpoint directory_size (entries : list walk_entry) (hardLinks : list Z) (size : Z)
    : Z * result fserr unit :=
  match entries with
  | [] => (size, Ok tt)
  | WalkError e :: rest =>
      if decide (e = ErrNotExist) then directory_size rest hardLinks size else (size, Err e)
  | WalkFile regular stat :: rest =>
      if negb regular then directory_size rest hardLinks size
      else match stat with
      | Err e => if decide (e = ErrNotExist) then directory_size rest hardLinks size
                 else (size, Err e)
      | Ok info =>
          if 1 <? fi_nlink info then
            if decide (fi_ino info ∈ hardLinks) then directory_size rest hardLinks size
            else directory_size rest (hardLinks ++ [fi_ino info]) (wrap64 (size + fi_size info))
          else directory_size rest hardLinks (wrap64 (size + fi_size info))
      end
  end.

(** [SafePath] may fail before the walk starts. *)
Definition DirectorySize (root : result fserr (list walk_entry)) : Z * result fserr unit :=
  match root with
  | Err e => (0, Err e)
  | Ok entries => directory_size entries [] 0
  end.

(** The two critical sections of [walkDiskUsage]; writes run between them. *)
Definition walk_begin (fs : Filesystem) : Filesystem :=
  mkFs (fs_quota fs) (fs_reserved fs) true (fs_reserved fs) (fs_lastLookup fs) true
    (fs_diskCheckInterval fs).

Definition walk_end (walked : Z * result fserr unit) (now : Z) (fs : Filesystem)
    : Z * result fserr unit * Filesystem :=
  let usage := wrap64 (fst walked + fs_walkReserved fs) in
  let usage := match snd walked with
               | Ok _ => usage
               | Err _ => Z.max usage (fs_usage fs)
               end in
  (usage, snd walked,
   mkFs (mkQuota (fs_limit fs) usage) (fs_reserved fs) false (fs_walkReserved fs) now false
     (fs_diskCheckInterval fs)).

(** [walkDiskUsage] when no write runs during the walk. *)
Definition walkDiskUsage (walked : Z * result fserr unit) (now : Z) (fs : Filesystem)
    : Z * result fserr unit * Filesystem :=
  walk_end walked now (walk_begin fs).

Definition second : Z := 1000000000.

(** The cached value is fresh: the last walk is after [now - interval]. *)
Definition lookup_fresh (now : Z) (fs : Filesystem) : bool :=
  now + wrap64 (wrap64 (second * fs_diskCheckInterval fs) * -1) <? fs_lastLookup fs.

Definition refreshDiskUsage (walked : Z * result fserr unit) (now : Z) (fs : Filesystem)
    : Z * result fserr unit * Filesystem :=
  if lookup_fresh now fs then (fs_usage fs, Ok tt, fs) else walkDiskUsage walked now fs.

Definition updateCachedDiskUsage (walked : Z * result fserr unit) (now : Z) (fs : Filesystem)
    : Z * result fserr unit * Filesystem :=
  walkDiskUsage walked now fs.

Definition set_lookup (b : bool) (fs : Filesystem) : Filesystem :=
  mkFs (fs_quota fs) (fs_reserved fs) (fs_walking fs) (fs_walkReserved fs) (fs_lastLookup fs) b
    (fs_diskCheckInterval fs).

(** The size, the error, the state, and whether a background refresh was started. *)
Definition DiskUsage (allowStaleValue : bool) (walked : Z * result fserr unit) (now : Z)
    (fs : Filesystem) : Z * result fserr unit * Filesystem * bool :=
  if fs_diskCheckInterval fs =? 0 then (0, Ok tt, fs, false)
  else if lookup_fresh now fs then (fs_usage fs, Ok tt, fs, false)
  else if negb allowStaleValue then (refreshDiskUsage walked now fs, false)
  else if fs_lookupInProgress fs then (fs_usage fs, Ok tt, fs, false)
  else (fs_usage fs, Ok tt, set_lookup true fs, true).

(** The goroutine [DiskUsage] starts. *)
Definition background_refresh (walked : Z * result fserr unit) (now : Z) (fs : Filesystem)
    : Filesystem :=
  set_lookup false (snd (refreshDiskUsage walked now fs)).

(** An error of [DiskUsage] is only logged. *)
Definition HasSpaceAvailable (allowStaleValue : bool) (walked : Z * result fserr unit) (now : Z)
    (fs : Filesystem) : bool * Filesystem :=
  let '(size, _, fs', _) := DiskUsage allowStaleValue walked now fs in
  (if MaxDisk fs' =? 0 then true else size <=? MaxDisk fs', fs').

Definition HasSpaceErr (allowStaleValue : bool) (walked : Z * result fserr unit) (now : Z)
    (fs : Filesystem) : result fserr unit * Filesystem :=
  let r := HasSpaceAvailable allowStaleValue walked now fs in
  (require (fst r) ErrCodeDiskSpace, snd r).

(** ** Writers *)

(** Outcomes of the system calls a whole-file write makes. *)
Record write_calls := mkWriteCalls {
  wc_isDirectory : bool;                 (* the path is an existing directory *)
  wc_mkdir : result fserr unit;
  wc_existed : bool;
  wc_open : result fserr Z;              (* the size of the opened file *)
  wc_remove : result fserr FileInfo;     (* removing it again *)
  wc_truncate : result fserr unit;
  wc_copy : Z * result fserr unit;       (* bytes copied, and the copy's error *)
  wc_chown : result fserr unit;
}.

(** [Filesystem.Write]: the deferred [releaseDisk] runs with the value [used] has
    when the function returns. *)
Definition Write (c : write_calls) (newSize : Z) (fs : Filesystem)
    : result fserr unit * Filesystem :=
  if wc_isDirectory c then (Err ErrIsDirectory, fs)
  else match wc_mkdir c with
  | Err e => (Err e, fs)
  | Ok _ =>
    match wc_open c with
    | Err e => (Err e, fs)
    | Ok currentSize =>
      match reserveDisk (wrap64 (newSize - currentSize)) fs with
      | (Err e, fs1) =>
          (Err e, if wc_existed c then fs1
                  else set_quota (snd (Remove (wc_remove c) (fs_quota fs1))) fs1)
      | (Ok _, fs1) =>
          let reserved := Z.max (wrap64 (newSize - currentSize)) 0 in
          match wc_truncate c with
          | Err e => (Err e, releaseDisk reserved 0 fs1)
          | Ok _ =>
              let '(n, err) := if 0 <? newSize then wc_copy c else (0, Ok tt) in
              let fs2 := releaseDisk reserved (wrap64 (n - currentSize)) fs1 in
              match wc_chown c with
              | Err e => (Err e, fs2)
              | Ok _ => (err, fs2)
              end
          end
      end
    end
  end.

(** Outcomes of the system calls of [WriteUpload]: walking to the parent and opening
    the file, its stat, the truncation, the copy, the stat afterwards, the chown and
    the close. *)
Record upload_calls := mkUploadCalls {
  uc_ignored : result fserr unit;
  uc_open : result fserr unit;
  uc_stat : result fserr FileInfo;
  uc_truncate : result fserr unit;
  uc_copy : result fserr unit;
  uc_after : result fserr Z;
  uc_chown : result fserr unit;
  uc_close : result fserr unit;
}.

Definition nul : Ascii.ascii := Ascii.ascii_of_N 0.

Definition upload_name_ok (name : string) (size : Z) : bool :=
  negb ((size <? 0) || negb (ValidPath name) || bool_decide (name = "."%string)
        || contains_byte backslash name || contains_byte nul name).

(** [Filesystem.WriteUpload].  The deferred functions run in reverse order: the disk
    adjustment, then the close, each keeping the first error. *)
Definition WriteUpload (c : upload_calls) (name : string) (size : Z) (fs : Filesystem)
    : result fserr unit * Filesystem :=
  let name := TrimPrefix slash name in
  let first (a b : result fserr unit) := match a with Ok _ => b | Err e => Err e end in
  if negb (upload_name_ok name size) then (Err ErrBadPathResolution, fs)
  else match uc_ignored c, HasSpaceFor 0 fs, uc_open c with
  | Err e, _, _ | Ok _, Err e, _ | Ok _, Ok _, Err e => (Err e, fs)
  | Ok _, Ok _, Ok _ =>
    match uc_stat c with
    | Err e => (Err e, fs)
    | Ok info =>
      if negb (fi_regular info) || negb (fi_nlink info =? 1)
      then (Err ErrBadPathResolution, fs)
      else
        let growth := wrap64 (size - fi_size info) in
        match HasSpaceFor growth fs with
        | Err e => (Err e, fs)
        | Ok _ =>
          match (if 0 <? growth then reserveDisk growth fs else (Ok tt, fs)) with
          | (Err e, fs1) => (Err e, fs1)
          | (Ok _, fs1) =>
              let reserved := if 0 <? growth then growth else 0 in
              let err := first (uc_truncate c) (first (uc_copy c) (uc_chown c)) in
              let '(err, fs2) :=
                match uc_after c with
                | Ok after => (err, snd (adjustDisk (wrap64 (wrap64 (after - fi_size info) - reserved)) fs1))
                | Err e => (first err (Err e), fs1)
                end in
              (first err (uc_close c), fs2)
          end
        end
    end
  end.

(** ** Files handed out by [Touch] (quota_file.go) *)

Record quotaFile := mkQuotaFile { qf_size : Z }.

Definition quotaWriteEnd (off size : Z) : option Z :=
  if (size <? 0) || (int64_max - size <? off) then None else Some (wrap64 (off + size)).

(** [writeAtLocked] for [len] bytes at [off]; [write] is the outcome of the write
    itself, the bytes it wrote and its error. *)
Definition writeAtLocked (len off : Z) (write : Z * result fserr unit)
    (f : quotaFile) (fs : Filesystem) : Z * result fserr unit * quotaFile * Filesystem :=
  let previousSize := qf_size f in
  match quotaWriteEnd off len with
  | None => (0, Err ErrCodeDiskSpace, f, fs)
  | Some end_ =>
      let reserved := wrap64 (end_ - previousSize) in
      match (if 0 <? reserved then reserveDisk reserved fs else (Ok tt, fs)) with
      | (Err e, fs1) => (0, Err e, f, fs1)
      | (Ok _, fs1) =>
          let '(n, err) := write in
          let writtenEnd := if 0 <? n then default 0 (quotaWriteEnd off n) else previousSize in
          let f' := if (0 <? n) && (previousSize <? writtenEnd) then mkQuotaFile writtenEnd else f in
          let fs2 := if 0 <? reserved then
                       let actual := if previousSize <? writtenEnd
                                     then wrap64 (writtenEnd - previousSize) else 0 in
                       releaseDisk reserved actual fs1
                     else fs1 in
          (n, err, f', fs2)
      end
  end.

(** [Write] at the current offset; [seek] is the outcome of reading it. *)
Definition qf_Write (len : Z) (seek : result fserr Z) (write : Z * result fserr unit)
    (f : quotaFile) (fs : Filesystem) : Z * result fserr unit * quotaFile * Filesystem :=
  if len =? 0 then (write, f, fs)
  else match seek with
  | Err e => (0, Err e, f, fs)
  | Ok off => writeAtLocked len off write f fs
  end.

Definition qf_WriteAt (len off : Z) (write : Z * result fserr unit)
    (f : quotaFile) (fs : Filesystem) : Z * result fserr unit * quotaFile * Filesystem :=
  if (off <? 0) || (len =? 0) then (write, f, fs) else writeAtLocked len off write f fs.

Definition CheckSize (size : Z) (f : quotaFile) (fs : Filesystem) : result fserr unit :=
  if size <=? qf_size f then Ok tt else HasSpaceFor (wrap64 (size - qf_size f)) fs.

Definition qf_Close (stat : result fserr Z) (close : result fserr unit)
    (f : quotaFile) (fs : Filesystem) : result fserr unit * Filesystem :=
  match stat with
  | Ok size => (close, snd (adjustDisk (wrap64 (size - qf_size f)) fs))
  | Err e => (Err e, fs)
  end.
