(* ===== verification/DiskFacts.v ===== *)
(** * Correctness of the disk quota

    The saturating addition, the writers and file handles, the walk, and the system of
    concurrent writers. *)

From stdpp Require Import base gmap sets list strings numbers relations.
From S2P Require Import Prelude GoStrings Disk.
Open Scope Z_scope.

(** ** Saturating addition *)

Ltac int64 := unfold in_int64, int64_min, int64_max in *.

(** The counters are int64 and the tracked usage has been calculated. *)
Definition counted (usage : Z) : Prop := 0 ≤ usage ≤ int64_max.

Lemma add_next_clamps usage i : counted usage → in_int64 i →
  add_next usage i = Z.max 0 (Z.min int64_max (usage + i)).
Proof.
  intros Hu Hi. unfold add_next, counted in *.
  destruct (Z.ltb_spec 0 i); [|destruct (Z.ltb_spec i 0)].
  - destruct (Z.ltb_spec (int64_max - i) usage); [int64; lia|]. rewrite wrap64_id; int64; lia.
  - destruct (Z.eqb_spec i int64_min); [int64; lia|].
    rewrite (wrap64_id (- i)) by (int64; lia).
    destruct (Z.leb_spec usage (- i)); [int64; lia|]. rewrite wrap64_id; int64; lia.
  - int64; lia.
Qed.

Lemma add_next_counted usage i : counted usage → in_int64 i → counted (add_next usage i).
Proof. intros. rewrite add_next_clamps by done. unfold counted. int64; lia. Qed.

Lemma add_loop_reads others usage i : i ≠ 0 →
  ∃ u, u ∈ usage :: others ∧ add_loop others usage i = (add_next u i, add_next u i).
Proof.
  intros Hi. revert usage. induction others as [|o others IH]; intros usage; simpl;
    rewrite (proj2 (Z.eqb_neq _ _) Hi).
  - exists usage. set_solver.
  - destruct (Z.eqb_spec o usage); [exists usage; set_solver|].
    destruct (IH o) as (u & Hu & E). exists u. set_solver.
Qed.

(** [Add] is an atomic saturating addition: however many times the swap is lost
    to other goroutines, the value it returns and stores is the clamped sum of its
    argument and a usage that was stored when the swap succeeded, and it stays a
    non-negative int64. *)
Theorem Add_saturates others usage i :
  Forall counted (usage :: others) → in_int64 i → i ≠ 0 →
  ∃ u, u ∈ usage :: others
    ∧ add_loop others usage i
      = (Z.max 0 (Z.min int64_max (u + i)), Z.max 0 (Z.min int64_max (u + i))).
Proof.
  intros Hc Hi Hne. destruct (add_loop_reads others usage i Hne) as (u & Hu & ->).
  exists u. split; [done|].
  rewrite add_next_clamps; [done| |done]. by apply (proj1 (list.Forall_forall _ _) Hc).
Qed.

Lemma Add_snd i q : counted (q_usage q) → in_int64 i →
  snd (Add i q) = mkQuota (q_limit q) (Z.max 0 (Z.min int64_max (q_usage q + i))).
Proof.
  intros Hc Hi. unfold Add. simpl. f_equal. destruct (Z.eqb_spec i 0) as [->|Hne]; simpl.
  - unfold counted in Hc. int64; lia.
  - by rewrite add_next_clamps.
Qed.

(** ** The limit *)

(** [CanFit] under a real limit is exactly "the usage plus the size is within it". *)
Lemma CanFit_spec size q :
  0 < q_limit q ≤ int64_max → counted (q_usage q) →
  CanFit size q = true ↔ size ≤ 0 ∨ q_usage q + size ≤ q_limit q.
Proof.
  intros Hl Hu. unfold CanFit, counted in *.
  destruct (Z.eqb_spec (q_limit q) (-1)); [lia|].
  destruct (Z.eqb_spec (q_limit q) 0); [lia|].
  destruct (Z.eqb_spec (q_usage q) (-1)); [lia|].
  destruct (Z.leb_spec size 0); [split; auto|].
  destruct (Z.leb_spec (q_limit q) (q_usage q)); [split; [done|lia]|].
  rewrite wrap64_id by (int64; lia). rewrite Z.leb_le. lia.
Qed.

(** ** Reservations of concurrent writers *)

(** A state of the accounting together with the reservations not yet released. *)
Record world := mkWorld { w_fs : Filesystem; w_open : list Z }.

(** The atomic steps: each runs under [fs.mu] (or is one compare-and-swap). *)
Inductive disk_step : world → world → Prop :=
| step_reserve size fs fs' l :
    0 < size → fs_reserved fs + size ≤ int64_max →
    reserveDisk size fs = (Ok tt, fs') →
    disk_step (mkWorld fs l) (mkWorld fs' (size :: l))
| step_refused size fs e fs' l :
    reserveDisk size fs = (Err e, fs') →
    disk_step (mkWorld fs l) (mkWorld fs' l)
| step_release r used fs l1 l2 :
    used ≤ r → in_int64 (used - r) →
    disk_step (mkWorld fs (l1 ++ r :: l2)) (mkWorld (releaseDisk r used fs) (l1 ++ l2))
| step_shrink size fs l :
    int64_min ≤ size ≤ 0 →
    disk_step (mkWorld fs l) (mkWorld (snd (adjustDisk size fs)) l)
| step_removed info fs l :
    0 ≤ fi_size info ≤ int64_max →
    disk_step (mkWorld fs l)
      (mkWorld (set_quota (snd (Remove (Ok info) (fs_quota fs))) fs) l)
| step_walk_begin fs l :
    disk_step (mkWorld fs l) (mkWorld (walk_begin fs) l)
| step_walk_end walked now fs l :
    fs_walking fs = true → 0 ≤ fst walked →
    fst walked + fs_reserved fs ≤ fs_limit fs →
    disk_step (mkWorld fs l) (mkWorld (snd (walk_end walked now fs)) l).

Definition total : list Z → Z := zsum id.

(** The accounting invariant. *)
Record accounted (w : world) : Prop := {
  ac_limit : 0 < fs_limit (w_fs w) ≤ int64_max;
  ac_usage : 0 ≤ fs_usage (w_fs w) ≤ fs_limit (w_fs w);
  ac_open : ∀ r, r ∈ w_open w → 0 < r;
  ac_reserved : fs_reserved (w_fs w) = total (w_open w);
  ac_range : fs_reserved (w_fs w) ≤ int64_max;
  ac_walk : fs_walking (w_fs w) = true → fs_walkReserved (w_fs w) = fs_reserved (w_fs w);
}.

Lemma reserve_inv size fs fs' :
  0 < size → reserveDisk size fs = (Ok tt, fs') →
  CanFit size (fs_quota fs) = true
  ∧ fs' = set_quota (snd (Add size (fs_quota fs)))
            (set_reserved (wrap64 (fs_reserved fs + size))
               (if fs_walking fs then wrap64 (fs_walkReserved fs + size) else fs_walkReserved fs) fs).
Proof.
  intros Hs. unfold reserveDisk, HasSpaceFor, require.
  rewrite (proj2 (Z.leb_gt _ _) Hs). destruct (CanFit _ _); naive_solver.
Qed.

Lemma reserve_refused size fs e fs' : reserveDisk size fs = (Err e, fs') → fs' = fs.
Proof.
  unfold reserveDisk. case_match; [done|]. destruct (HasSpaceFor _ _); naive_solver.
Qed.

Lemma total_nonneg l : (∀ r, r ∈ l → 0 < r) → 0 ≤ total l.
Proof. intros Hl. apply zsum_nonneg. intros r Hr. specialize (Hl r Hr). simpl. lia. Qed.

Lemma accounted_reserve size fs fs' l :
  accounted (mkWorld fs l) → 0 < size → fs_reserved fs + size ≤ int64_max →
  reserveDisk size fs = (Ok tt, fs') → accounted (mkWorld fs' (size :: l)).
Proof.
  intros [Hl Hu Ho Hr Hg Hw] Hs Hsum Hok. simpl in *.
  apply reserve_inv in Hok as [Hfit ->]; [|done].
  pose proof (total_nonneg l Ho) as Hn.
  assert (counted (q_usage (fs_quota fs))) as Hc by (unfold counted, fs_usage in *; lia).
  apply CanFit_spec in Hfit; [|done|done].
  rewrite Add_snd by (try done; int64; lia).
  split; simpl; unfold fs_limit, fs_usage in *; simpl in *; [lia|int64; lia|..].
  - intros r [->|Hin]%elem_of_cons; [lia|auto].
  - rewrite wrap64_id by (int64; lia). unfold total in *. simpl. lia.
  - rewrite wrap64_id by (int64; lia). lia.
  - intros Hwk. specialize (Hw Hwk). rewrite Hwk, Hw. done.
Qed.

Lemma accounted_release r used fs l1 l2 :
  accounted (mkWorld fs (l1 ++ r :: l2)) → used ≤ r → in_int64 (used - r) →
  accounted (mkWorld (releaseDisk r used fs) (l1 ++ l2)).
Proof.
  intros [Hl Hu Ho Hr Hg Hw] Hused Hdiff. simpl in *.
  assert (0 < r) by (apply Ho; set_solver).
  assert (∀ x, x ∈ l1 ++ l2 → 0 < x) as Ho' by (intros; apply Ho; set_solver).
  pose proof (total_nonneg _ Ho') as Hn.
  assert (total (l1 ++ r :: l2) = r + total (l1 ++ l2)) as Ht
    by (unfold total; rewrite !zsum_app; simpl; lia).
  unfold releaseDisk. rewrite (proj2 (Z.ltb_ge _ _)) by lia.
  rewrite Ht in Hr. rewrite (wrap64_id (used - r)) by done.
  rewrite Add_snd by (unfold counted, fs_usage in *; simpl; int64; lia).
  rewrite (wrap64_id (fs_reserved fs - r)) by (int64; lia).
  split; simpl; unfold fs_limit, fs_usage in *; simpl in *; [int64; lia|int64; lia|done|lia|int64; lia|].
  intros Hwk. specialize (Hw Hwk). rewrite Hwk, Hw. rewrite wrap64_id by (int64; lia). lia.
Qed.

Lemma accounted_shrink size fs l :
  accounted (mkWorld fs l) → int64_min ≤ size ≤ 0 →
  accounted (mkWorld (set_quota (snd (Add size (fs_quota fs))) fs) l).
Proof.
  intros [Hl Hu Ho Hr Hg Hw] Hs. simpl in Hl, Hu, Ho, Hr, Hg, Hw.
  rewrite Add_snd by (unfold counted, fs_usage in *; int64; lia).
  split; simpl; unfold fs_limit, fs_usage in *; simpl in *; auto; int64; lia.
Qed.

Lemma freedBy_range info : 0 ≤ fi_size info ≤ int64_max → 0 ≤ freedBy info ≤ int64_max.
Proof. unfold freedBy. intros. repeat case_match; int64; lia. Qed.

Lemma accounted_step w w' : accounted w → disk_step w w' → accounted w'.
Proof.
  intros Hw Hstep. destruct Hstep.
  - by eapply accounted_reserve.
  - by apply reserve_refused in H as ->.
  - by apply accounted_release.
  - unfold adjustDisk. destruct (Z.eqb_spec size 0); [done|]. by apply accounted_shrink.
  - simpl. apply accounted_shrink; [done|]. pose proof (freedBy_range info H). int64; lia.
  - destruct Hw as [Hl Hu Ho Hr Hg Hw]. split; simpl in *; auto.
  - destruct Hw as [Hl Hu Ho Hr Hg Hw]. simpl in *. specialize (Hw H).
    pose proof (total_nonneg l Ho). rewrite <-Hr in *.
    unfold walk_end. split; simpl; try done.
    rewrite Hw, wrap64_id by (int64; lia). unfold fs_limit, fs_usage in *; simpl in *.
    destruct (snd walked); lia.
Qed.

(** C16: the quota is never overrun by concurrent writers.  From a state within its
    limit, any interleaving of reservations, refusals, releases (of at most what
    was reserved), removals, shrinking adjustments and disk walks (whose measured
    size fits beside the reservations) keeps the tracked usage within the limit,
    the reserved total equal to the open reservations, and, while a walk runs, the
    walk's own total equal to it. *)
Theorem quota_never_overrun w w' :
  accounted w → rtc disk_step w w' →
  0 ≤ fs_usage (w_fs w') ≤ fs_limit (w_fs w')
  ∧ fs_reserved (w_fs w') = total (w_open w')
  ∧ (fs_walking (w_fs w') = true → fs_walkReserved (w_fs w') = fs_reserved (w_fs w')).
Proof.
  intros Hw Hsteps. assert (accounted w') as [].
  { induction Hsteps as [|w w1 w' Hs _ IH]; [done|]. eauto using accounted_step. }
  auto.
Qed.

(** ** Reservations of one writer *)

(** Reserving and releasing cancel out in the reserved total. *)
Lemma reserve_release_reserved size used fs fs1 :
  in_int64 (fs_reserved fs) → reserveDisk size fs = (Ok tt, fs1) →
  fs_reserved (releaseDisk (Z.max size 0) used fs1) = fs_reserved fs.
Proof.
  intros Hr Hok. unfold releaseDisk. simpl. rewrite (proj2 (Z.ltb_ge (Z.max size 0) 0)) by lia.
  destruct (Z.le_gt_cases size 0) as [Hs|Hs].
  - unfold reserveDisk in Hok. rewrite (proj2 (Z.leb_le _ _) Hs) in Hok. simplify_eq.
    rewrite Z.max_r, Z.sub_0_r by lia. by apply wrap64_id.
  - apply reserve_inv in Hok as [_ ->]; [|done]. simpl. rewrite Z.max_l by lia.
    rewrite wrap64_add_sub. by apply wrap64_id.
Qed.

(** [Write] returns every byte it reserved: whatever the system calls answer, on
    every path, the reserved total is what it was before the call. *)
Theorem Write_returns_reservation c newSize fs :
  in_int64 (fs_reserved fs) → fs_reserved (snd (Write c newSize fs)) = fs_reserved fs.
Proof.
  intros Hr. unfold Write.
  destruct (wc_isDirectory c); [done|]. destruct (wc_mkdir c); [|done].
  destruct (wc_open c) as [cur|]; [|done].
  destruct (reserveDisk _ fs) as [[[]|e] fs1] eqn:Eres.
  - destruct (wc_truncate c); [|by apply reserve_release_reserved].
    destruct (if 0 <? newSize then _ else _) as [n err].
    destruct (wc_chown c); by apply reserve_release_reserved.
  - apply reserve_refused in Eres as ->. by destruct (wc_existed c).
Qed.

(** The state a granted reservation leaves. *)
Definition reserved_by (size : Z) (fs : Filesystem) : Filesystem :=
  set_quota (mkQuota (fs_limit fs) (fs_usage fs + size))
    (set_reserved (fs_reserved fs + size)
       (if fs_walking fs then wrap64 (fs_walkReserved fs + size) else fs_walkReserved fs) fs).

(** A write that fits its limit is granted. *)
Lemma reserveDisk_granted size fs :
  0 < size → 0 < fs_limit fs ≤ int64_max → 0 ≤ fs_usage fs → fs_usage fs + size ≤ fs_limit fs →
  0 ≤ fs_reserved fs → fs_reserved fs + size ≤ int64_max →
  reserveDisk size fs = (Ok tt, reserved_by size fs).
Proof.
  intros Hs Hl Hu Hfit Hr Hrs. unfold fs_limit, fs_usage in *.
  assert (counted (q_usage (fs_quota fs))) as Hc by (unfold counted; lia).
  unfold reserveDisk, HasSpaceFor. rewrite (proj2 (Z.leb_gt size 0)) by done.
  rewrite (proj2 (CanFit_spec size (fs_quota fs) Hl Hc)) by auto.
  rewrite Add_snd by (try done; int64; lia).
  rewrite (wrap64_id (fs_reserved fs + size)) by (int64; lia).
  unfold reserved_by, fs_limit, fs_usage. do 3 f_equal. int64; lia.
Qed.

Lemma HasSpaceFor_fits size fs :
  0 < fs_limit fs ≤ int64_max → counted (fs_usage fs) →
  size ≤ 0 ∨ fs_usage fs + size ≤ fs_limit fs → HasSpaceFor size fs = Ok tt.
Proof. intros Hl Hc Hs. unfold HasSpaceFor. by rewrite (proj2 (CanFit_spec _ _ Hl Hc)). Qed.

(** The calls of an upload that goes through: a fresh regular file, all of the
    [size] bytes copied. *)
Definition upload_done (size : Z) : upload_calls :=
  mkUploadCalls (Ok tt) (Ok tt) (Ok (mkInfo true 0 1 7)) (Ok tt) (Ok tt) (Ok size) (Ok tt) (Ok tt).

(** [WriteUpload] never releases what it reserves.  A completed upload of a new
    file is accounted once in the usage, but its size stays in the reserved total
    for good, and the next walk of the disk, which adds the reserved total to the
    size it measured, counts the uploaded file twice. *)
Theorem WriteUpload_leaks_reservation name size now fs :
  upload_name_ok (TrimPrefix slash name) size = true →
  0 < size → 0 < fs_limit fs ≤ int64_max → 0 ≤ fs_usage fs → fs_usage fs + size ≤ fs_limit fs →
  0 ≤ fs_reserved fs → fs_reserved fs + size ≤ int64_max →
  let fs1 := snd (WriteUpload (upload_done size) name size fs) in
  fst (WriteUpload (upload_done size) name size fs) = Ok tt
  ∧ fs_usage fs1 = fs_usage fs + size
  ∧ fs_reserved fs1 = fs_reserved fs + size
  ∧ ∀ disk, 0 ≤ disk → disk + fs_reserved fs + size ≤ int64_max →
      fst (walkDiskUsage (disk, Ok tt) now fs1) = (disk + fs_reserved fs + size, Ok tt).
Proof.
  intros Hname Hs Hl Hu Hfit Hr Hrs.
  assert (counted (fs_usage fs)) as Hc by (unfold counted; lia).
  assert (WriteUpload (upload_done size) name size fs = (Ok tt, reserved_by size fs)) as ->.
  { unfold WriteUpload, upload_done. rewrite Hname. cbn [uc_ignored uc_open uc_stat uc_truncate
      uc_copy uc_after uc_chown uc_close fi_regular fi_nlink fi_size negb orb].
    rewrite (HasSpaceFor_fits 0) by auto with lia.
    rewrite Z.sub_0_r, (wrap64_id size) by (int64; lia).
    rewrite HasSpaceFor_fits by auto. rewrite (proj2 (Z.ltb_lt 0 size) Hs).
    rewrite reserveDisk_granted by done. rewrite (wrap64_id (size - size)) by (int64; lia).
    unfold adjustDisk. by rewrite Z.sub_diag. }
  simpl. unfold fs_usage, fs_limit in *. simpl. repeat split; try lia.
  intros disk Hd Hsum. unfold walkDiskUsage, walk_end, walk_begin. simpl.
  rewrite wrap64_id by (int64; lia). f_equal. lia.
Qed.

(** ** A file handle's whole session *)

(** One [Write]/[WriteAt] call that reached [writeAtLocked]: the range it asked for
    and what the system call did. *)
Record qf_op := mkOp { op_len : Z; op_off : Z; op_write : Z * result fserr unit }.

Definition qf_run (ops : list qf_op) (f : quotaFile) (fs : Filesystem) : quotaFile * Filesystem :=
  foldl (λ acc op,
    let '(_, _, f', fs') := writeAtLocked (op_len op) (op_off op) (op_write op) (fst acc) (snd acc) in
    (f', fs')) (f, fs) ops.

(** The system writes at most what it was asked to. *)
Definition op_ok (op : qf_op) : Prop :=
  0 ≤ op_off op ∧ 0 < op_len op ≤ int64_max ∧ 0 ≤ fst (op_write op) ≤ op_len op.

(** The usage counter is within the limit and far from saturation on both sides. *)
Definition quiet (fs : Filesystem) (f : quotaFile) : Prop :=
  0 < fs_limit fs ≤ int64_max ∧ 0 ≤ qf_size f ≤ fs_usage fs ∧ fs_usage fs ≤ fs_limit fs
  ∧ in_int64 (fs_reserved fs).

Lemma quotaWriteEnd_exact off size e :
  0 ≤ off → quotaWriteEnd off size = Some e → e = off + size ∧ 0 ≤ size ∧ off + size ≤ int64_max.
Proof.
  intros Ho. unfold quotaWriteEnd.
  destruct (Z.ltb_spec size 0); [done|]. destruct (Z.ltb_spec (int64_max - size) off); [done|].
  intros [= <-]. rewrite wrap64_id by (int64; lia). lia.
Qed.

(** Releasing a granted reservation with what was really used. *)
Lemma reserve_release_usage size used fs fs1 :
  0 < size → 0 ≤ used ≤ size → 0 < fs_limit fs ≤ int64_max → counted (fs_usage fs) →
  reserveDisk size fs = (Ok tt, fs1) →
  fs_usage (releaseDisk size used fs1) = fs_usage fs + used
  ∧ fs_limit (releaseDisk size used fs1) = fs_limit fs ∧ fs_usage fs + size ≤ fs_limit fs.
Proof.
  intros Hs Hused Hl Hc Hok. apply reserve_inv in Hok as [Hfit ->]; [|done].
  apply CanFit_spec in Hfit; [|done|done]. unfold fs_limit, fs_usage, counted in *.
  rewrite Add_snd by (try done; int64; lia).
  unfold releaseDisk. rewrite (proj2 (Z.ltb_ge size 0)) by lia.
  rewrite (wrap64_id (used - size)) by (int64; lia).
  rewrite Add_snd by (unfold counted; simpl; int64; lia). simpl. int64. lia.
Qed.

Lemma writeAtLocked_accounts op f fs :
  op_ok op → quiet fs f →
  let '(_, _, f', fs') := writeAtLocked (op_len op) (op_off op) (op_write op) f fs in
  fs_usage fs' - qf_size f' = fs_usage fs - qf_size f
  ∧ fs_limit fs' = fs_limit fs ∧ quiet fs' f'.
Proof.
  intros (Ho & Hlen & Hn) Hq. pose proof Hq as (Hl & Hsz & Hu & Hr).
  destruct op as [len off [n err]]. simpl in *. unfold writeAtLocked.
  destruct (quotaWriteEnd off len) as [e|] eqn:Ee; [|done].
  apply quotaWriteEnd_exact in Ee as (-> & _ & Hmax); [|done].
  rewrite (wrap64_id (off + len - qf_size f)) by (int64; lia).
  assert (quotaWriteEnd off n = Some (off + n)) as En.
  { unfold quotaWriteEnd. rewrite (proj2 (Z.ltb_ge n 0)), (proj2 (Z.ltb_ge _ off)) by lia.
    by rewrite wrap64_id by (int64; lia). }
  rewrite En. simpl.
  set (wEnd := if 0 <? n then off + n else qf_size f).
  set (used := Z.max 0 (wEnd - qf_size f)).
  assert ((if (0 <? n) && (qf_size f <? wEnd) then mkQuotaFile wEnd else f)
          = mkQuotaFile (qf_size f + used)) as ->.
  { unfold used, wEnd. destruct f as [sz]. simpl.
    destruct (Z.ltb_spec 0 n); simpl; [destruct (Z.ltb_spec sz (off + n)); simpl|]; f_equal; lia. }
  assert ((if qf_size f <? wEnd then wrap64 (wEnd - qf_size f) else 0) = used) as ->.
  { unfold used, wEnd. destruct (Z.ltb_spec 0 n).
    - destruct (Z.ltb_spec (qf_size f) (off + n)); [rewrite wrap64_id by (int64; lia)|]; lia.
    - rewrite Z.ltb_irrefl. lia. }
  assert (0 ≤ used ≤ Z.max 0 (off + len - qf_size f)) as Hused
    by (unfold used, wEnd; destruct (Z.ltb_spec 0 n); lia).
  destruct (Z.ltb_spec 0 (off + len - qf_size f)) as [Hpos|Hneg].
  - destruct (reserveDisk _ fs) as [[[]|e] fs1] eqn:Eres.
    + pose proof (reserve_release_reserved _ used _ _ Hr Eres) as Hres.
      rewrite Z.max_l in Hres by lia.
      apply (reserve_release_usage _ used) in Eres as (EU & EL & Hfit);
        [|lia..|done|unfold counted; int64; lia].
      unfold quiet. rewrite EU, EL, Hres. simpl. repeat split; try lia; apply Hr.
    + apply reserve_refused in Eres as ->. done.
  - unfold quiet. simpl. repeat split; try lia; apply Hr.
Qed.

Lemma qf_run_accounts ops f fs :
  Forall op_ok ops → quiet fs f →
  let r := qf_run ops f fs in
  fs_usage (snd r) - qf_size (fst r) = fs_usage fs - qf_size f
  ∧ fs_limit (snd r) = fs_limit fs ∧ quiet (snd r) (fst r).
Proof.
  unfold qf_run. revert f fs. induction ops as [|op ops IH]; intros f fs Hops Hq; [done|].
  apply Forall_cons in Hops as [Hop Hops]. simpl.
  pose proof (writeAtLocked_accounts op f fs Hop Hq) as Hstep.
  destruct (writeAtLocked _ _ _ f fs) as [[[n err] f'] fs']. destruct Hstep as (E1 & E2 & Hq').
  destruct (IH f' fs' Hops Hq') as (E3 & E4 & Hq''). simpl in *. split_and!; [lia|lia|done].
Qed.

(** A file handle accounts for exactly what it did to the file.  After any
    sequence of writes within the limit (complete, short, failed or refused) and
    the close, the tracked usage has changed by the final size of the file less the
    size it had when it was opened, and has stayed within the limit until the
    close. *)
Theorem qf_session_accounts ops size0 final close fs :
  Forall op_ok ops → quiet fs (mkQuotaFile size0) →
  0 ≤ final ≤ int64_max → fs_usage fs - size0 + final ≤ int64_max →
  let r := qf_run ops (mkQuotaFile size0) fs in
  fs_usage (snd r) ≤ fs_limit fs
  ∧ fs_usage (snd (qf_Close (Ok final) close (fst r) (snd r))) = fs_usage fs + (final - size0).
Proof.
  intros Hops Hq Hf Hmax. destruct (qf_run_accounts ops _ fs Hops Hq) as (E & EL & Hq').
  simpl. simpl in E. set (r := qf_run ops (mkQuotaFile size0) fs) in *.
  destruct Hq' as (Hl & Hsz & Hu & _). destruct Hq as (_ & Hsz0 & _). simpl in Hsz0.
  split; [lia|]. rewrite (wrap64_id (final - qf_size (fst r))) by (int64; lia).
  unfold adjustDisk. destruct (Z.eqb_spec (final - qf_size (fst r)) 0); [simpl; lia|].
  cbn [snd]. rewrite Add_snd by (unfold counted, fs_usage in *; int64; lia).
  unfold fs_usage in *. simpl. int64; lia.
Qed.

(** ** Measuring the disk *)

(** The regular files a walk met. *)
Definition infos (entries : list walk_entry) : list FileInfo :=
  omap (λ e, match e with WalkFile true (Ok info) => Some info | _ => None end) entries.

(** The walk met no error but files removed under it. *)
Definition walk_clean (entries : list walk_entry) : Prop :=
  ∀ e, WalkError e ∈ entries ∨ (WalkFile true (Err e) ∈ entries) → e = ErrNotExist.

Definition linked_more (l : list FileInfo) : list Z :=
  fi_ino <$> filter (λ i, 1 < fi_nlink i) l.
Definition linked_once (l : list FileInfo) : list FileInfo :=
  filter (λ i, ¬ 1 < fi_nlink i) l.

(** The sizes of hard-linked files are a function of their inode. *)
Definition inode_size (sz : Z → Z) (l : list FileInfo) : Prop :=
  ∀ i, i ∈ l → 0 ≤ fi_size i ∧ (1 < fi_nlink i → fi_size i = sz (fi_ino i)).

(** The disk a walk measures: every singly linked file, and every hard-linked inode
    not in [seen] once. *)
Definition disk_measure (sz : Z → Z) (seen : gset Z) (l : list FileInfo) : Z :=
  zsum fi_size (linked_once l) + zsum sz (elements ((list_to_set (linked_more l) : gset Z) ∖ seen)).

Lemma disk_measure_once sz seen i l : ¬ 1 < fi_nlink i →
  disk_measure sz seen (i :: l) = fi_size i + disk_measure sz seen l.
Proof.
  intros Hi. unfold disk_measure, linked_once, linked_more.
  rewrite filter_cons_True, filter_cons_False by done. simpl. lia.
Qed.

Lemma disk_measure_seen sz seen i l : 1 < fi_nlink i → fi_ino i ∈ seen →
  disk_measure sz seen (i :: l) = disk_measure sz seen l.
Proof.
  intros Hi Hin. unfold disk_measure, linked_once, linked_more.
  rewrite filter_cons_False by lia. rewrite filter_cons_True by done. rewrite fmap_cons.
  do 3 f_equal. set_solver.
Qed.

Lemma disk_measure_new sz seen i l : 1 < fi_nlink i → fi_ino i ∉ seen →
  disk_measure sz seen (i :: l) = sz (fi_ino i) + disk_measure sz ({[fi_ino i]} ∪ seen) l.
Proof.
  intros Hi Hin. unfold disk_measure, linked_once, linked_more.
  rewrite filter_cons_False by lia. rewrite filter_cons_True by done. rewrite fmap_cons.
  set (S := (list_to_set (fi_ino <$> filter (λ i, 1 < fi_nlink i) l) : gset Z)).
  assert ((list_to_set (fi_ino i :: (fi_ino <$> filter (λ i, 1 < fi_nlink i) l)) : gset Z) ∖ seen
          = {[fi_ino i]} ∪ (S ∖ ({[fi_ino i]} ∪ seen))) as ->.
  { apply set_eq. intros x. rewrite list_to_set_cons. fold S.
    destruct (decide (x = fi_ino i)); set_solver. }
  rewrite elements_disj_union by set_solver. rewrite elements_singleton. simpl. lia.
Qed.

Lemma walk_clean_cons e l : walk_clean (e :: l) → walk_clean l.
Proof. intros Hw x Hx. apply Hw. set_solver. Qed.

Lemma directory_size_measures sz entries seen size :
  walk_clean entries → inode_size sz (infos entries) → 0 ≤ size →
  size + zsum fi_size (infos entries) ≤ int64_max →
  directory_size entries seen size
  = (size + disk_measure sz (list_to_set seen) (infos entries), Ok tt).
Proof.
  revert seen size. induction entries as [|e entries IH]; intros seen size Hw Hi Hs Hm.
  { unfold disk_measure. simpl.
    assert (∅ ∖ list_to_set seen = (∅ : gset Z)) as -> by set_solver.
    rewrite elements_empty. simpl. f_equal. lia. }
  pose proof (walk_clean_cons _ _ Hw) as Hw'.
  destruct e as [err|[] [info|err]]; simpl in *; try by apply IH.
  - rewrite (Hw err) by set_solver. by apply IH.
  - assert (inode_size sz (infos entries)) as Hi' by (intros x Hx; apply Hi; set_solver).
    destruct (Hi info ltac:(set_solver)) as [Hpos Hsz].
    assert (0 ≤ zsum fi_size (infos entries)) by (apply zsum_nonneg; intros x Hx; by apply Hi').
    destruct (Z.ltb_spec 1 (fi_nlink info)) as [Hl|Hl].
    + case_decide as Hin.
      * rewrite disk_measure_seen by set_solver. apply IH; [done|done|done|lia].
      * rewrite disk_measure_new by set_solver. rewrite wrap64_id by (int64; lia).
        rewrite IH by (done || lia). rewrite list_to_set_app_L, <-Hsz by done.
        simpl. rewrite (union_comm_L _ (list_to_set seen)), union_empty_r_L. f_equal. lia.
    + rewrite disk_measure_once by lia. rewrite wrap64_id by (int64; lia).
      rewrite IH by (done || lia). f_equal. lia.
  - rewrite (Hw err) by set_solver. by apply IH.
Qed.

(** Measuring the disk counts every regular file once, and a hard-linked inode
    once however many names it has, whatever files vanish during the walk; other
    entries count nothing. *)
Theorem DirectorySize_counts_inodes_once sz entries :
  walk_clean entries → inode_size sz (infos entries) →
  zsum fi_size (infos entries) ≤ int64_max →
  DirectorySize (Ok entries)
  = (zsum fi_size (linked_once (infos entries))
       + zsum sz (elements (list_to_set (linked_more (infos entries)) : gset Z)), Ok tt).
Proof.
  intros Hw Hi Hm. unfold DirectorySize. rewrite (directory_size_measures sz) by (done || lia).
  unfold disk_measure. simpl. by rewrite difference_empty_L.
Qed.

(** ** Witnesses *)

Lemma Add_saturates_witness :
  Forall counted [5; 9; 12] ∧ in_int64 (-20) ∧ -20 ≠ 0
  ∧ ∃ u, u ∈ [5; 9; 12] ∧ add_loop [9; 12] 5 (-20)
      = (Z.max 0 (Z.min int64_max (u + -20)), Z.max 0 (Z.min int64_max (u + -20))).
Proof.
  assert (Forall counted [5; 9; 12]) as Hc by (repeat constructor; vm_compute; congruence).
  assert (in_int64 (-20)) as Hi by (split; vm_compute; congruence).
  split; [done|]. split; [done|]. split; [lia|].
  exact (Add_saturates [9; 12] 5 (-20) Hc Hi ltac:(lia)).
Defined.

Definition fs_ex : Filesystem := mkFs (mkQuota 100 10) 0 false 0 0 false 60.

Lemma quota_never_overrun_witness :
  ∃ w', accounted (mkWorld fs_ex []) ∧ rtc disk_step (mkWorld fs_ex []) w'
    ∧ fs_reserved (w_fs w') = 30 ∧ fs_walkReserved (w_fs w') = 30
    ∧ 0 ≤ fs_usage (w_fs w') ≤ fs_limit (w_fs w').
Proof.
  pose (w1 := mkWorld (snd (reserveDisk 20 fs_ex)) [20]).
  pose (w2 := mkWorld (walk_begin (w_fs w1)) [20]).
  pose (w3 := mkWorld (snd (reserveDisk 30 (w_fs w2))) [30; 20]).
  pose (w4 := mkWorld (releaseDisk 20 5 (w_fs w3)) ([30] ++ [])).
  assert (accounted (mkWorld fs_ex [])) as Hac by
    (split; simpl; try (vm_compute; intuition congruence); set_solver).
  assert (rtc disk_step (mkWorld fs_ex []) w4) as Hs.
  { apply (rtc_l _ _ w1); [apply step_reserve; vm_compute; congruence|].
    apply (rtc_l _ _ w2); [apply step_walk_begin|].
    apply (rtc_l _ _ w3); [apply step_reserve; vm_compute; congruence|].
    apply (rtc_l _ _ w4); [|apply rtc_refl].
    apply (step_release 20 5 _ [30] []); [lia|split; vm_compute; congruence]. }
  exists w4. split; [exact Hac|]. split; [exact Hs|]. split; [reflexivity|]. split; [reflexivity|].
  exact (proj1 (quota_never_overrun _ _ Hac Hs)).
Defined.

Lemma Write_returns_reservation_witness :
  let c := mkWriteCalls false (Ok tt) false (Ok 0) (Err ErrNotExist) (Ok tt)
             (7, Err (ErrIO 28)) (Ok tt) in
  fst (Write c 50 fs_ex) = Err (ErrIO 28) ∧ fs_usage (snd (Write c 50 fs_ex)) = 17
  ∧ fs_reserved (snd (Write c 50 fs_ex)) = 0.
Proof.
  intros c. split; [reflexivity|]. split; [reflexivity|].
  apply (Write_returns_reservation c 50 fs_ex). split; vm_compute; congruence.
Defined.

Lemma WriteUpload_leaks_reservation_witness :
  fst (walkDiskUsage (60, Ok tt) 1000 (snd (WriteUpload (upload_done 50) "world/level.dat" 50 fs_ex)))
  = (110, Ok tt).
Proof.
  destruct (WriteUpload_leaks_reservation "world/level.dat" 50 1000 fs_ex) as (_ & _ & _ & H);
    [vm_compute; intuition congruence..|].
  apply (H 60); vm_compute; congruence.
Defined.

Lemma qf_session_accounts_witness :
  let ops := [mkOp 40 0 (40, Ok tt); mkOp 80 30 (80, Ok tt); mkOp 20 40 (5, Err (ErrIO 28))] in
  let r := qf_run ops (mkQuotaFile 10) fs_ex in
  fs_usage (snd r) = 45
  ∧ fs_usage (snd (qf_Close (Ok 45) (Ok tt) (fst r) (snd r))) = 45.
Proof.
  intros ops r. split; [reflexivity|].
  refine (proj2 (qf_session_accounts ops 10 45 (Ok tt) fs_ex _ _ _ _)).
  - unfold ops. repeat constructor; vm_compute; intuition congruence.
  - repeat split; vm_compute; congruence.
  - split; vm_compute; congruence.
  - vm_compute; congruence.
Defined.

Lemma DirectorySize_counts_inodes_once_witness :
  let entries := [WalkFile true (Ok (mkInfo true 10 1 1)); WalkFile true (Ok (mkInfo true 7 2 9));
                  WalkError ErrNotExist; WalkFile false (Err ErrNotExist);
                  WalkFile true (Ok (mkInfo true 7 2 9))] in
  DirectorySize (Ok entries) = (17, Ok tt).
Proof.
  intros entries. refine (DirectorySize_counts_inodes_once (λ _, 7) entries _ _ _).
  - intros e [He|He]; unfold entries in He; set_solver.
  - intros i Hi. unfold entries in Hi. simpl in Hi.
    repeat (apply elem_of_cons in Hi as [->|Hi]; [simpl; lia|]). by apply not_elem_of_nil in Hi.
  - vm_compute; congruence.
Defined.
