(* ===== verification/Locker.v ===== *)
(** * The power lock (system/locker.go)

    A [Locker] is a channel of capacity one (full while the lock is held) and a
    [done] channel that [Destroy] closes.  [Acquire], [Release], [Destroy] and
    [IsLocked] run under the locker's mutex, so each is one atomic step;
    [TryAcquire] is three steps, between which other goroutines run.  The file has
    the operations, the step relation of goroutines using one locker, an abstract
    lock, and the refinement between the two. *)

From stdpp Require Import base gmap list relations.
From S2P Require Import Prelude.

Inductive lockerr := ErrLockerLocked | ErrLockerDestroyed.

#[global] Instance lockerr_eq_dec : EqDecision lockerr.
Proof. solve_decision. Defined.

(** [l_ch]: the channel holds its value; [l_done]: [done] is closed. *)
Record Locker := mkLocker { l_ch : bool; l_done : bool }.

#[global] Instance Locker_eq_dec : EqDecision Locker.
Proof. solve_decision. Defined.

Definition NewLocker : Locker := mkLocker false false.

Definition IsLocked (l : Locker) : bool := l_ch l.

Definition destroyed (l : Locker) : bool := l_done l.

(** Receiving from the channel if it holds a value. *)
Definition drain (l : Locker) : Locker := mkLocker false (l_done l).

Definition Acquire (l : Locker) : result lockerr unit * Locker :=
  if destroyed l then (Err ErrLockerDestroyed, l)
  else if l_ch l then (Err ErrLockerLocked, l)
  else (Ok tt, mkLocker true (l_done l)).

Definition Release (l : Locker) : Locker := drain l.

Definition Destroy (l : Locker) : Locker :=
  if destroyed l then l else mkLocker false true.

(** ** [TryAcquire] *)

(** What the context reports once it is done. *)
Inductive ctxerr := DeadlineExceeded | Canceled | OtherCtxErr.

(** The first [select]: stop if the locker is destroyed already. *)
Definition try_check (l : Locker) : option (result lockerr unit) :=
  if l_done l then Some (Err ErrLockerDestroyed) else None.

(** The cases of the second [select]; Go takes any case that is ready. *)
Inductive try_case := CaseSend | CaseDone | CaseCtx (e : option ctxerr).

Definition case_ready (c : try_case) (l : Locker) : bool :=
  match c with
  | CaseSend => negb (l_ch l)
  | CaseDone => l_done l
  | CaseCtx _ => true
  end.

(** Taking the send case: under the mutex, the lock is confirmed or given back. *)
Definition try_confirm (l : Locker) : result lockerr unit * Locker :=
  if destroyed l then (Err ErrLockerDestroyed, drain l) else (Ok tt, l).

(** Taking the context's case. *)
Definition try_ctx (e : option ctxerr) : result lockerr unit :=
  match e with
  | Some DeadlineExceeded | Some Canceled => Err ErrLockerLocked
  | _ => Ok tt
  end.

(** A whole call: [case] is the ready case the second [select] takes ([None] when
    it is not ready, and the call still waits), [meanwhile] what other goroutines do
    between the send and the confirmation. *)
Definition TryAcquire (case : try_case) (meanwhile : Locker → Locker) (l : Locker)
    : option (result lockerr unit * Locker) :=
  match try_check l with
  | Some r => Some (r, l)
  | None =>
      if negb (case_ready case l) then None
      else Some match case with
      | CaseSend => try_confirm (meanwhile (mkLocker true (l_done l)))
      | CaseDone => (Err ErrLockerDestroyed, l)
      | CaseCtx e => (try_ctx e, l)
      end
  end.

(** ** Goroutines sharing a locker *)

(** Where a goroutine is: outside, in [TryAcquire]'s second [select], past its send
    and waiting for the mutex, or holding the lock (the call returned nil). *)
Inductive pc := Out | Selecting | Sent | Holding.

#[global] Instance pc_eq_dec : EqDecision pc.
Proof. solve_decision. Defined.

Record system := mkSystem { sys_lock : Locker; sys_pc : gmap nat pc }.

Definition pc_of (s : system) (t : nat) : pc := default Out (sys_pc s !! t).
Definition goto (t : nat) (p : pc) (l : Locker) (s : system) : system :=
  mkSystem l (<[t := p]> (sys_pc s)).

(** Where a goroutine is once an acquiring call returned [r]. *)
Definition after (r : result lockerr unit) : pc := if is_ok r then Holding else Out.

(** What a step shows its callers: an acquiring call of a goroutine returned nil or
    an error, a holder released, [Destroy] returned, or nothing yet. *)
Inductive lock_event :=
  Acquired (t : nat) | Refused (t : nat) (e : lockerr) | Released (t : nat) | Destroyed | Silent.

(** The event of an acquiring call of [t] that returned [r]. *)
Definition returned (t : nat) (r : result lockerr unit) : lock_event :=
  match r with Ok _ => Acquired t | Err e => Refused t e end.

(** One step, with its event.  Only a holder releases; anyone may destroy.  A context
    that is done reports one of the two errors [context] documents. *)
Inductive lock_step : system → lock_event → system → Prop :=
| ls_acquire t s r l :
    pc_of s t = Out → Acquire (sys_lock s) = (r, l) →
    lock_step s (returned t r) (goto t (after r) l s)
| ls_try_fail t s r :
    pc_of s t = Out → try_check (sys_lock s) = Some r →
    lock_step s (returned t r) (goto t (after r) (sys_lock s) s)
| ls_try t s :
    pc_of s t = Out → try_check (sys_lock s) = None →
    lock_step s Silent (goto t Selecting (sys_lock s) s)
| ls_send t s :
    pc_of s t = Selecting → case_ready CaseSend (sys_lock s) = true →
    lock_step s Silent (goto t Sent (mkLocker true (l_done (sys_lock s))) s)
| ls_done t s :
    pc_of s t = Selecting → case_ready CaseDone (sys_lock s) = true →
    lock_step s (Refused t ErrLockerDestroyed) (goto t (after (Err ErrLockerDestroyed)) (sys_lock s) s)
| ls_ctx t s e :
    pc_of s t = Selecting → e = DeadlineExceeded ∨ e = Canceled →
    lock_step s (returned t (try_ctx (Some e))) (goto t (after (try_ctx (Some e))) (sys_lock s) s)
| ls_confirm t s r l :
    pc_of s t = Sent → try_confirm (sys_lock s) = (r, l) →
    lock_step s (returned t r) (goto t (after r) l s)
| ls_release t s :
    pc_of s t = Holding →
    lock_step s (Released t) (goto t Out (Release (sys_lock s)) s)
| ls_destroy s :
    lock_step s Destroyed (mkSystem (Destroy (sys_lock s)) (sys_pc s)).

(** Runs of a labelled transition relation, with the events in order. *)
Inductive traced {A} (step : A → lock_event → A → Prop) : A → list lock_event → A → Prop :=
| traced_nil a : traced step a [] a
| traced_snoc a tr b e c : traced step a tr b → step b e c → traced step a (tr ++ [e]) c.

Definition initial : system := mkSystem NewLocker ∅.

(** ** The abstract lock *)

(** Held by at most one goroutine; once dead it is never acquired again, and the
    goroutine that held it may still believe it does. *)
Inductive abs_lock := Free | HeldBy (t : nat) | Dead (t : option nat).

(** What the lock promises: it is acquired only while free, released only by its
    holder, refused as destroyed only once dead, and dead for good.  A call that gave
    up, or found the lock busy, may be refused as locked in any state. *)
Inductive abs_step : abs_lock → lock_event → abs_lock → Prop :=
| as_silent a : abs_step a Silent a
| as_acquire t : abs_step Free (Acquired t) (HeldBy t)
| as_busy a t : abs_step a (Refused t ErrLockerLocked) a
| as_dead o t : abs_step (Dead o) (Refused t ErrLockerDestroyed) (Dead o)
| as_release t : abs_step (HeldBy t) (Released t) Free
| as_dead_release t : abs_step (Dead (Some t)) (Released t) (Dead None)
| as_destroy_free : abs_step Free Destroyed (Dead None)
| as_destroy_held t : abs_step (HeldBy t) Destroyed (Dead (Some t))
| as_destroy_dead o : abs_step (Dead o) Destroyed (Dead o).

(** [abstracts a s]: [a] says who holds the lock in [s]. *)
Definition abstracts (a : abs_lock) (s : system) : Prop :=
  match a with
  | Free => l_done (sys_lock s) = false ∧ ∀ t, pc_of s t ≠ Holding
  | HeldBy t => l_done (sys_lock s) = false ∧ ∀ u, pc_of s u = Holding ↔ u = t
  | Dead o => l_done (sys_lock s) = true ∧ ∀ u, pc_of s u = Holding ↔ o = Some u
  end.

(** ** The invariant *)

(** A goroutine that put the value into the channel and has not taken it out. *)
Definition owns (p : pc) : Prop := p = Sent ∨ p = Holding.

Record lock_inv (s : system) : Prop := {
  li_one : l_done (sys_lock s) = false →
    ∀ t u, owns (pc_of s t) → owns (pc_of s u) → t = u;
  li_full : l_done (sys_lock s) = false →
    (l_ch (sys_lock s) = true ↔ ∃ t, owns (pc_of s t));
  li_holder : ∀ t u, pc_of s t = Holding → pc_of s u = Holding → t = u;
}.

Lemma pc_goto t u p l s : pc_of (goto t p l s) u = if decide (t = u) then p else pc_of s u.
Proof. unfold pc_of, goto. simpl. case_decide; subst; by simplify_map_eq. Qed.

Lemma lock_goto t p l s : sys_lock (goto t p l s) = l.
Proof. done. Qed.

(** Case analysis of the goroutine a statement is about against the one that moved. *)
Ltac threads :=
  repeat match goal with
  | H : context [pc_of (goto _ _ _ _) _] |- _ => rewrite pc_goto in H
  | |- context [pc_of (goto _ _ _ _) _] => rewrite pc_goto
  end.

Lemma after_cases r : after r = Holding ∧ is_ok r = true ∨ after r = Out ∧ is_ok r = false.
Proof. destruct r; auto. Qed.

(** A step of [t] that neither takes nor gives back the lock. *)
Lemma inv_stay t p s :
  lock_inv s → ¬ owns (pc_of s t) → ¬ owns p → lock_inv (goto t p (sys_lock s) s).
Proof.
  intros [H1 H2 H3] Hp Hq. unfold owns in *.
  split; try (intros Hd; specialize (H1 Hd); specialize (H2 Hd)); rewrite ?lock_goto in *.
  - intros u v. threads. repeat case_decide; naive_solver.
  - rewrite H2. split; intros [u Hu]; exists u; threads; repeat case_decide; naive_solver.
  - intros u v. threads. repeat case_decide; naive_solver.
Qed.

(** A step of [t] that takes the free lock. *)
Lemma inv_take t p s d :
  lock_inv s → l_ch (sys_lock s) = false → l_done (sys_lock s) = d →
  pc_of s t ≠ Holding → (d = false → owns p) → (d = true → p ≠ Holding) →
  lock_inv (goto t p (mkLocker true d) s).
Proof.
  intros [H1 H2 H3] Hch Hd Hp Hq Hdead. destruct d.
  - specialize (Hdead eq_refl). split; simpl; [done..|].
    intros u v. threads. repeat case_decide; naive_solver.
  - specialize (H1 Hd). specialize (H2 Hd). specialize (Hq eq_refl).
    assert (∀ u, ¬ owns (pc_of s u)) as Hno.
    { intros u Hu. destruct H2 as [_ H2]. rewrite H2 in Hch by eauto. done. }
    split; simpl.
    + intros _ u v. threads. repeat case_decide; naive_solver.
    + intros _. split; [intros _|done]. exists t. threads. by rewrite decide_True.
    + intros u v. threads. unfold owns in Hno. repeat case_decide; naive_solver.
Qed.

(** A step of [t], which owned the value or meets a destroyed locker, that empties
    the channel. *)
Lemma inv_give t s :
  lock_inv s → (l_done (sys_lock s) = false → owns (pc_of s t)) →
  lock_inv (goto t Out (drain (sys_lock s)) s).
Proof.
  intros [H1 H2 H3] Hp. unfold owns in *. split; simpl.
  - intros Hd u v. threads. specialize (H1 Hd). repeat case_decide; naive_solver.
  - intros Hd. specialize (H1 Hd). specialize (Hp Hd). split; [done|].
    intros [u Hu]. exfalso. revert Hu. threads. case_decide as Hne; [by intros []|].
    intros Hu. apply Hne. by apply H1.
  - intros u v. threads. repeat case_decide; naive_solver.
Qed.

(** A confirmed send. *)
Lemma inv_confirm t s :
  lock_inv s → pc_of s t = Sent → l_done (sys_lock s) = false →
  lock_inv (goto t Holding (sys_lock s) s).
Proof.
  intros [H1 H2 H3] Hp Hd. specialize (H1 Hd). unfold owns in *. split; simpl.
  - intros _ u v. threads. repeat case_decide; naive_solver.
  - intros _. rewrite H2 by done. split; intros _; exists t;
      [threads; rewrite decide_True by done|]; unfold owns; auto.
  - intros u v. threads. repeat case_decide; naive_solver.
Qed.

Lemma inv_destroy s : lock_inv s → lock_inv (mkSystem (Destroy (sys_lock s)) (sys_pc s)).
Proof.
  intros Hi. unfold Destroy, destroyed. destruct (l_done (sys_lock s)) eqn:Hd.
  - by destruct s.
  - split; simpl; [done..|]. apply (li_holder _ Hi).
Qed.

#[export] Hint Resolve inv_stay inv_take inv_give inv_confirm inv_destroy : wings.

Lemma not_owns_out s t : pc_of s t = Out ∨ pc_of s t = Selecting → ¬ owns (pc_of s t).
Proof. unfold owns. intros [->| ->] []; done. Qed.

Lemma inv_step s e s' : lock_inv s → lock_step s e s' → lock_inv s'.
Proof.
  intros Hi Hstep. destruct Hstep as [t s r l Hp Ha|t s r Hp Hc|t s Hp Hc|t s Hp Hr|t s Hp Hr
    |t s er Hp He|t s r l Hp Hc|t s Hp|s].
  - unfold Acquire, destroyed in Ha. destruct (l_done (sys_lock s)) eqn:Hd;
      [|destruct (l_ch (sys_lock s)) eqn:Hch]; simplify_eq.
    1-2: apply inv_stay; [done|apply not_owns_out; auto|by intros []].
    apply inv_take; [done..|congruence|by right|done].
  - unfold try_check in Hc. case_match; simplify_eq.
    apply inv_stay; [done|apply not_owns_out; auto|by intros []].
  - apply inv_stay; [done|apply not_owns_out; auto|by intros []].
  - simpl in Hr. apply negb_true_iff in Hr.
    apply inv_take; [done..|congruence|by left|done].
  - apply inv_stay; [done|apply not_owns_out; auto|by intros []].
  - assert (after (try_ctx (Some er)) = Out) as -> by (by destruct He as [->| ->]).
    apply inv_stay; [done|apply not_owns_out; auto|by intros []].
  - unfold try_confirm, destroyed in Hc.
    destruct (l_done (sys_lock s)) eqn:Hd; simplify_eq; [|by apply inv_confirm].
    apply inv_give; [done|congruence].
  - apply inv_give; [done|]. intros _. by right.
  - by apply inv_destroy.
Qed.

Lemma inv_initial : lock_inv initial.
Proof.
  split; unfold pc_of, owns; simpl.
  - intros _ t u. rewrite lookup_empty. naive_solver.
  - intros _. split; [done|]. intros [t Ht]. rewrite lookup_empty in Ht. naive_solver.
  - intros t u. rewrite lookup_empty. done.
Qed.

Lemma inv_traced tr s : traced lock_step initial tr s → lock_inv s.
Proof.
  intros Hr. remember initial as s0 eqn:E. revert E.
  induction Hr; intros ->; eauto using inv_initial, inv_step.
Qed.

(** Mutual exclusion.  In every state reachable by goroutines calling [Acquire],
    [TryAcquire], [Release] (after acquiring) and [Destroy] in any interleaving, at
    most one goroutine holds the lock, and as long as the locker is not destroyed
    [IsLocked] reports exactly whether one holds it or is about to. *)
Theorem lock_mutual_exclusion tr s :
  traced lock_step initial tr s →
  (∀ t u, pc_of s t = Holding → pc_of s u = Holding → t = u)
  ∧ (l_done (sys_lock s) = false →
      IsLocked (sys_lock s) = true ↔ ∃ t, pc_of s t = Sent ∨ pc_of s t = Holding).
Proof.
  intros [H1 H2 H3]%inv_traced. split; [done|]. intros Hd. by apply H2.
Qed.

(** ** Refinement *)

(** A step of [t] that leaves it outside the lock, as it was. *)
Lemma abs_stay a t p s l :
  abstracts a s → pc_of s t ≠ Holding → p ≠ Holding → l_done l = l_done (sys_lock s) →
  abstracts a (goto t p l s).
Proof.
  intros Ha Hp Hq Hd. destruct a; simpl in *; rewrite Hd; destruct Ha as [Ha1 Ha2];
    (split; [done|]); intros u; threads; case_decide; subst; auto; rewrite <-Ha2; naive_solver.
Qed.

Lemma abs_get t s l :
  abstracts Free s → l_done l = false → abstracts (HeldBy t) (goto t Holding l s).
Proof.
  intros [Ha1 Ha2] Hl. split; [done|]. intros u. threads. specialize (Ha2 u).
  case_decide; naive_solver.
Qed.

Lemma abs_put t s a :
  abstracts a s → pc_of s t = Holding →
  ∃ a', abs_step a (Released t) a' ∧ abstracts a' (goto t Out (drain (sys_lock s)) s).
Proof.
  intros Ha Hp. destruct a as [|v|o]; simpl in Ha; destruct Ha as [Hd Ha].
  - by destruct (Ha t).
  - apply Ha in Hp as Ht. subst v. exists Free. split; [constructor|]. split; [done|].
    intros u. threads. case_decide as Hne; [done|]. rewrite Ha. congruence.
  - apply Ha in Hp as Ht. subst o. exists (Dead None). split; [constructor|]. split; [done|].
    intros u. threads. case_decide as Hne; [done|]. rewrite Ha. naive_solver.
Qed.

(** Nobody holds the lock while another goroutine owns the channel's value. *)
Lemma abs_free t s a :
  lock_inv s → abstracts a s → l_done (sys_lock s) = false →
  (l_ch (sys_lock s) = true → pc_of s t = Sent) → a = Free.
Proof.
  intros [H1 H2 _] Ha Hd Hsent. destruct a as [|v|o]; [done|exfalso..|by destruct Ha; congruence].
  destruct Ha as [_ Ha]. assert (pc_of s v = Holding) as Hv by by apply Ha.
  assert (pc_of s t = Sent) as Ht by (apply Hsent, H2; [done|exists v; by right]).
  assert (t = v) as -> by (apply H1; [done|by left|by right]). congruence.
Qed.

Lemma abs_destroy s a :
  abstracts a s →
  ∃ a', abs_step a Destroyed a' ∧ abstracts a' (mkSystem (Destroy (sys_lock s)) (sys_pc s)).
Proof.
  intros Ha. unfold Destroy, destroyed. destruct (l_done (sys_lock s)) eqn:Hd.
  - destruct a as [|v|o]; [by destruct Ha as [Ha _]; congruence..|].
    exists (Dead o). split; [constructor|]. by destruct s.
  - destruct a as [|v|o]; destruct Ha as [Hd' Ha]; [..|congruence].
    + exists (Dead None). split; [constructor|]. split; [done|]. intros u.
      specialize (Ha u). unfold pc_of in *. simpl. naive_solver.
    + exists (Dead (Some v)). split; [constructor|]. split; [done|]. intros u.
      specialize (Ha u). unfold pc_of in *. simpl. naive_solver.
Qed.

(** A destroyed locker is abstracted by a dead lock. *)
Lemma abs_dead a s : abstracts a s → l_done (sys_lock s) = true → ∃ o, a = Dead o.
Proof. destruct a as [|v|o]; intros [Hd _] H; [congruence..|eauto]. Qed.

(** A call of [t] refused because the locker is destroyed. *)
Lemma abs_refused a t s l :
  abstracts a s → l_done (sys_lock s) = true → l_done l = true → pc_of s t ≠ Holding →
  ∃ a', abs_step a (Refused t ErrLockerDestroyed) a' ∧ abstracts a' (goto t Out l s).
Proof.
  intros Ha Hd Hl Hp. destruct (abs_dead _ _ Ha Hd) as [o ->]. exists (Dead o).
  split; [constructor|]. apply abs_stay; [done..|congruence].
Qed.

Lemma lock_simulation s e s' a :
  lock_inv s → abstracts a s → lock_step s e s' → ∃ a', abs_step a e a' ∧ abstracts a' s'.
Proof.
  intros Hi Ha Hstep. destruct Hstep as [t s r l Hp Hacq|t s r Hp Hc|t s Hp Hc|t s Hp Hr|t s Hp Hr
    |t s er Hp He|t s r l Hp Hc|t s Hp|s].
  - unfold Acquire, destroyed in Hacq. destruct (l_done (sys_lock s)) eqn:Hd;
      [|destruct (l_ch (sys_lock s)) eqn:Hch]; simplify_eq; simpl.
    + apply abs_refused; [done..|congruence].
    + exists a. split; [constructor|apply abs_stay; [done|congruence|done|done]].
    + assert (a = Free) as -> by (eapply (abs_free t); eauto; congruence).
      exists (HeldBy t). split; [constructor|by apply abs_get].
  - unfold try_check in Hc. case_match; simplify_eq; simpl. apply abs_refused; [done..|congruence].
  - exists a. split; [constructor|apply abs_stay; [done|congruence|done|done]].
  - exists a. split; [constructor|apply abs_stay; [done|congruence|done|done]].
  - apply abs_refused; [done..|congruence].
  - exists a. destruct He as [->| ->]; (split; [constructor|apply abs_stay; [done|congruence|done|done]]).
  - unfold try_confirm, destroyed in Hc. destruct (l_done (sys_lock s)) eqn:Hd; simplify_eq; simpl.
    + apply abs_refused; [done..|congruence].
    + assert (a = Free) as -> by (eapply (abs_free t); eauto).
      exists (HeldBy t). split; [constructor|by apply abs_get].
  - by apply abs_put.
  - by apply abs_destroy.
Qed.

Lemma abs_traced tr s :
  traced lock_step initial tr s → ∃ a, traced abs_step Free tr a ∧ abstracts a s.
Proof.
  intros Hr. remember initial as s0 eqn:E. revert E.
  induction Hr as [s|s tr s1 e s2 Hr IH Hstep]; intros ->.
  - exists Free. split; [constructor|]. split; [done|]. intros t. unfold pc_of. simpl.
    by rewrite lookup_empty.
  - destruct (IH eq_refl) as (a & Hrun & Ha).
    destruct (lock_simulation _ _ _ _ (inv_traced _ _ Hr) Ha Hstep) as (a' & Hs & Ha').
    exists a'. split; [by econstructor|done].
Qed.

(** Once a run of the abstract lock has shown [Destroyed] the lock is dead, and a
    dead lock is not acquired. *)
Lemma abs_traced_dead tr a :
  traced abs_step Free tr a →
  (Destroyed ∈ tr → ∃ o, a = Dead o)
  ∧ ∀ tr1 tr2 t, tr = tr1 ++ Destroyed :: tr2 → Acquired t ∉ tr2.
Proof.
  intros Hr. remember Free as a0 eqn:E. revert E.
  induction Hr as [a|a tr b e c Hr IH Hstep]; intros ->.
  - split; [by intros ?%not_elem_of_nil|]. by intros [|??] ??.
  - destruct (IH eq_refl) as [Hdead Hnot]. split.
    + rewrite elem_of_app, list_elem_of_singleton. intros [Hin|<-].
      * destruct (Hdead Hin) as [o ->]. inversion Hstep; eauto.
      * inversion Hstep; eauto.
    + intros tr1 tr2 t Heq. destruct tr2 as [|x tr2 _] using rev_ind; [by intros ?%not_elem_of_nil|].
      rewrite app_comm_cons, app_assoc in Heq. apply app_inj_tail in Heq as [-> ->].
      rewrite elem_of_app, list_elem_of_singleton. intros [Hin|<-].
      * by apply (Hnot tr1 tr2 t eq_refl).
      * destruct Hdead as [o ->]; [|inversion Hstep]. rewrite elem_of_app. right. constructor.
Qed.

(** [Acquire] succeeds exactly when the locker is not destroyed and nobody holds the
    lock or has sent its value. *)
Lemma Acquire_free s :
  lock_inv s →
  is_ok (fst (Acquire (sys_lock s))) = true
  ↔ l_done (sys_lock s) = false ∧ ∀ t, ¬ owns (pc_of s t).
Proof.
  intros [_ H2 _]. unfold Acquire, destroyed. destruct (l_done (sys_lock s)) eqn:Hd; [naive_solver|].
  specialize (H2 eq_refl). destruct (l_ch (sys_lock s)) eqn:Hch; simpl; [naive_solver|].
  split; [|done]. intros _. split; [done|]. intros t Ht.
  assert (false = true); [|done]. apply H2. eauto.
Qed.

(** C17: the locker refines the abstract lock.  Goroutines call [Acquire],
    [TryAcquire], [Destroy] and, holding it, [Release] on a new locker in any
    interleaving.  The sequence of events they see (calls that acquired, calls that
    were refused and with which error, releases, destructions) is, event for event, a
    run of the abstract lock from free: acquired only when free, released only by its
    holder, refused as destroyed only once dead.  No call acquires after [Destroy],
    and in every state [Acquire] succeeds exactly when the locker is not destroyed and
    no goroutine holds the lock or has sent its value. *)
Theorem lock_refinement tr s :
  traced lock_step initial tr s →
  (∃ a, traced abs_step Free tr a ∧ abstracts a s)
  ∧ (∀ tr1 tr2 t, tr = tr1 ++ Destroyed :: tr2 → Acquired t ∉ tr2)
  ∧ (is_ok (fst (Acquire (sys_lock s))) = true
     ↔ l_done (sys_lock s) = false ∧ ∀ t, ¬ owns (pc_of s t)).
Proof.
  intros Hr. destruct (abs_traced _ _ Hr) as (a & Hrun & Ha).
  split; [eauto|]. split; [apply (abs_traced_dead _ _ Hrun)|]. apply Acquire_free. by eapply inv_traced.
Qed.

(** The state a locker destroyed while in use can still be in. *)
Lemma dead_stays s e s' : lock_step s e s' → l_done (sys_lock s) = true →
  l_done (sys_lock s') = true ∧ ∀ t, pc_of s' t = Holding → pc_of s t = Holding.
Proof.
  intros Hstep Hd. destruct Hstep as [t s r l Hp Ha|t s r Hp Hc|t s Hp Hc|t s Hp Hr|t s Hp Hr
    |t s er Hp He|t s r l Hp Hc|t s Hp|s].
  - unfold Acquire, destroyed in Ha. rewrite Hd in Ha. simplify_eq. split; [done|].
    intros u. threads. by case_decide.
  - unfold try_check in Hc. rewrite Hd in Hc. simplify_eq. split; [done|].
    intros u. threads. by case_decide.
  - split; [done|]. intros u. threads. by case_decide.
  - split; [done|]. intros u. threads. by case_decide.
  - split; [done|]. intros u. threads. by case_decide.
  - split; [done|]. intros u. threads. case_decide; [|done]. by destruct He as [->| ->].
  - unfold try_confirm, destroyed in Hc. rewrite Hd in Hc. simplify_eq. split; [done|].
    intros u. threads. by case_decide.
  - split; [done|]. intros u. threads. by case_decide.
  - unfold Destroy, destroyed. by rewrite Hd.
Qed.

(** A destroyed locker stays destroyed and is never acquired again: whoever holds
    it later held it when it was destroyed, even a goroutine that was waiting in
    [TryAcquire], or had already sent its value, when [Destroy] ran. *)
Theorem destroyed_never_acquired s tr s' t :
  l_done (sys_lock s) = true → traced lock_step s tr s' →
  l_done (sys_lock s') = true ∧ (pc_of s' t = Holding → pc_of s t = Holding).
Proof.
  intros Hd Hr. induction Hr as [|s1 tr s2 e s3 _ IH Hs]; [done|].
  destruct (IH Hd) as [Hd' Hh]. destruct (dead_stays _ _ _ Hs Hd'). auto.
Qed.

(** ** Witnesses *)

(** Goroutine 1 has sent its value, 2 waits in [TryAcquire], and the locker is
    destroyed: both fail. *)
Definition racing : system := mkSystem (mkLocker true false) {[1%nat := Sent; 2%nat := Selecting]}.

Lemma racing_reachable : traced lock_step initial [Silent; Silent; Silent] racing.
Proof.
  set (s1 := goto 1 Selecting NewLocker initial). set (s2 := goto 2 Selecting NewLocker s1).
  assert (racing = goto 1 Sent (mkLocker true (l_done (sys_lock s2))) s2) as -> by reflexivity.
  apply (traced_snoc _ _ [Silent; Silent] s2); [|by apply ls_send].
  apply (traced_snoc _ _ [Silent] s1); [|by apply (ls_try 2 s1)].
  apply (traced_snoc _ _ [] initial); [constructor|by apply ls_try].
Qed.

Lemma lock_mutual_exclusion_witness :
  IsLocked (sys_lock racing) = true ↔ ∃ t, pc_of racing t = Sent ∨ pc_of racing t = Holding.
Proof. exact (proj2 (lock_mutual_exclusion _ racing racing_reachable) eq_refl). Defined.

(** [Destroy] arrives between goroutine 1's send and its confirmation, which is
    refused: no event after it acquires. *)
Definition aborted : system :=
  goto 1 Out (mkLocker false true) (mkSystem (Destroy (sys_lock racing)) (sys_pc racing)).

Lemma aborted_reachable :
  traced lock_step initial [Silent; Silent; Silent; Destroyed; Refused 1 ErrLockerDestroyed] aborted.
Proof.
  apply (traced_snoc _ _ [Silent; Silent; Silent; Destroyed]
           (mkSystem (Destroy (sys_lock racing)) (sys_pc racing))).
  - apply (traced_snoc _ _ [Silent; Silent; Silent] racing); [apply racing_reachable|constructor].
  - by apply (ls_confirm 1 _ (Err ErrLockerDestroyed)).
Qed.

Lemma lock_refinement_witness :
  (∃ a, traced abs_step Free [Silent; Silent; Silent; Destroyed; Refused 1 ErrLockerDestroyed] a
     ∧ abstracts a aborted)
  ∧ Acquired 2 ∉ [Refused 1 ErrLockerDestroyed].
Proof.
  destruct (lock_refinement _ aborted aborted_reachable) as (Ha & Hnot & _).
  split; [exact Ha|]. exact (Hnot [Silent; Silent; Silent] _ 2%nat eq_refl).
Defined.

Lemma destroyed_never_acquired_witness :
  let s := mkSystem (Destroy (sys_lock racing)) (sys_pc racing) in
  l_done (sys_lock aborted) = true ∧ (pc_of aborted 1 = Holding → pc_of s 1 = Holding).
Proof.
  intros s. apply (destroyed_never_acquired s [Refused 1 ErrLockerDestroyed] aborted 1); [reflexivity|].
  apply (traced_snoc _ _ [] s); [constructor|]. by apply (ls_confirm 1 s (Err ErrLockerDestroyed)).
Defined.
