(* ===== verification/Environment.v ===== *)
(** * The container environment (environment/docker/power.go, environment.go,
    container.go)

    The process state machine of one server's container: [SetState] and the events
    it publishes, and the operations that drive it ([Start], [Stop],
    [SignalContainer], [Terminate], [WaitForStop], [SendCommand], [Destroy], the
    attached stream and its loss).  Docker's answers and the results of network
    setup are arguments, one record of outcomes per operation. *)

From stdpp Require Import base list strings numbers.
From S2P Require Import Prelude GoStrings.
Open Scope Z_scope.

Inductive pstate := Offline | Starting | Running | Stopping.

#[global] Instance pstate_eq_dec : EqDecision pstate.
Proof. solve_decision. Defined.

(** Errors: Docker's "not found", which the code tells apart, and the others. *)
Inductive derr := NotFound | ErrNotAttached | ErrControlChars | Failed (n : Z).

#[global] Instance derr_eq_dec : EqDecision derr.
Proof. solve_decision. Defined.

Definition IsNotFound (e : derr) : bool := bool_decide (e = NotFound).

(** remote.ProcessStopConfiguration *)
Inductive stop_type := StopSignal | StopCommand | StopNative | StopUnset.

Record stop_config := mkStop { stop_Type : stop_type; stop_Value : string }.

Record env := mkEnv {
  e_st : pstate;
  e_events : list pstate;        (* state changes published so far, oldest first *)
  e_stream : bool;               (* attached to the container *)
  e_stop : stop_config;
  e_reattachedAt : option Z;     (* nanoseconds *)
  e_reattachedCount : Z;
  e_monitor : bool;              (* the network monitor runs *)
}.

Definition set_st (s : pstate) (ev : list pstate) (e : env) : env :=
  mkEnv s ev (e_stream e) (e_stop e) (e_reattachedAt e) (e_reattachedCount e) (e_monitor e).
Definition SetStream (b : bool) (e : env) : env :=
  mkEnv (e_st e) (e_events e) b (e_stop e) (e_reattachedAt e) (e_reattachedCount e) (e_monitor e).
Definition set_reattached (at_ : option Z) (n : Z) (e : env) : env :=
  mkEnv (e_st e) (e_events e) (e_stream e) (e_stop e) at_ n (e_monitor e).
Definition stop_monitor (e : env) : env :=
  mkEnv (e_st e) (e_events e) (e_stream e) (e_stop e) (e_reattachedAt e) (e_reattachedCount e) false.
Definition SetStopConfiguration (c : stop_config) (e : env) : env :=
  mkEnv (e_st e) (e_events e) (e_stream e) c (e_reattachedAt e) (e_reattachedCount e) (e_monitor e).

Definition New (stop : stop_config) : env := mkEnv Offline [] false stop None 0 false.

Definition IsAttached (e : env) : bool := e_stream e.
Definition State (e : env) : pstate := e_st e.

(** A state change is stored and published; setting the current state does nothing. *)
Definition SetState (s : pstate) (e : env) : env :=
  if decide (e_st e = s) then e else set_st s (e_events e ++ [s]) e.

(** Operations: they may fail with a Docker error. *)
Definition op := st env derr.
Definition run (f : env → env) : op unit := λ e, (Ok tt, f e).
Definition get {A} (f : env → A) : op A := λ e, (Ok (f e), e).

(** ** Starting *)

(** ContainerRemove, then ContainerCreate and what surrounds it. *)
Record boot_calls := mkBootCalls {
  bc_remove : result derr unit;
  bc_create : result derr unit;
}.

Definition onBeforeStart (c : boot_calls) : op unit :=
  match bc_remove c with
  | Err e => if IsNotFound e then st_lift (bc_create c) else st_err e
  | Ok _ => st_lift (bc_create c)
  end.

Definition attach (call : result derr unit) : op unit :=
  attached ← get IsAttached;
  if (attached : bool) then mret tt
  else _ ← st_lift call; run (SetStream true).

Record start_calls := mkStartCalls {
  sc_begin : result derr unit;          (* beginNetworkChange *)
  sc_inspect : result derr bool;        (* is the container running? *)
  sc_reconcile : result derr unit;
  sc_log : option (result derr unit);   (* truncating the log, if it exists *)
  sc_boot : boot_calls;
  sc_attach : result derr unit;
  sc_start : result derr unit;          (* ContainerStart *)
  sc_finish : result derr unit;         (* finishNetworkStart *)
}.

(** The deferred function: an error leaves the environment offline, by way of
    stopping. *)
Definition saw_error (m : op unit) : op unit := λ e,
  match m e with
  | (Ok u, e') => (Ok u, e')
  | (Err x, e') => (Err x, SetState Offline (SetState Stopping e'))
  end.

Definition boot (c : start_calls) : op unit :=
  _ ← run (SetState Starting);
  saw_error (
    _ ← onBeforeStart (sc_boot c);
    _ ← attach (sc_attach c);
    _ ← st_lift (sc_start c);
    st_lift (sc_finish c)).

Definition Start (c : start_calls) : op unit :=
  _ ← st_lift (sc_begin c);
  match sc_inspect c with
  | Err e => if IsNotFound e then boot c else st_err e
  | Ok true =>
      _ ← run (SetState Running);
      _ ← st_lift (sc_reconcile c);
      attach (sc_attach c)
  | Ok false =>
      match sc_log c with
      | Some (Err e) => st_err e
      | _ => boot c
      end
  end.

(** ** Stopping *)

Record signal_calls := mkSignalCalls {
  gc_inspect : result derr bool;
  gc_kill : result derr unit;
}.

Definition SignalContainer (c : signal_calls) : op unit :=
  match gc_inspect c with
  | Err e => if IsNotFound e then mret tt else st_err e
  | Ok false =>
      s ← get State;
      if decide (s = Offline) then mret tt
      else run (λ e, SetState Offline (SetState Stopping e))
  | Ok true =>
      _ ← run (SetState Stopping);
      match gc_kill c with
      | Err e => if IsNotFound e then mret tt else st_err e
      | Ok _ => mret tt
      end
  end.

Definition Terminate (c : signal_calls) : op unit :=
  _ ← SignalContainer c;
  run (SetState Offline).

(** A control character other than tab, newline or carriage return. *)
Definition control_char (b : Ascii.ascii) : bool :=
  let r := byteZ b in
  ((r <? 32) && negb (r =? 9) && negb (r =? 10) && negb (r =? 13)) || (r =? 127).

Fixpoint contains_control (s : string) : bool :=
  match s with
  | EmptyString => false
  | String b s' => control_char b || contains_control s'
  end.

Definition SendCommand (c : string) (write : result derr unit) : op unit :=
  if contains_control c then st_err ErrControlChars
  else
    stream ← get e_stream;
    stop ← get e_stop;
    if negb (stream : bool) then st_err ErrNotAttached
    else
      _ ← (match stop_Type stop with
           | StopCommand => if decide (c = stop_Value stop) then run (SetState Stopping) else mret tt
           | _ => mret tt
           end);
      st_lift write.

Record stop_calls := mkStopCalls {
  tc_signal : signal_calls;
  tc_write : result derr unit;
  tc_stop : result derr unit;           (* ContainerStop *)
}.

Definition Stop (c : stop_calls) : op unit :=
  s ← get e_stop;
  st ← get State;
  _ ← (if decide (st = Offline) then mret tt else run (SetState Stopping));
  match stop_Type s with
  | StopSignal => SignalContainer (tc_signal c)
  | ty =>
      attached ← get IsAttached;
      match ty, (attached : bool) with
      | StopCommand, true => SendCommand (stop_Value s) (tc_write c)
      | _, _ =>
          match tc_stop c with
          | Err e => if IsNotFound e
                     then run (λ e, SetState Offline (SetStream false e))
                     else st_err e
          | Ok _ => mret tt
          end
      end
  end.

(** The signal [Stop] sends for a configured value. *)
Definition stop_signal (upper : string) : string :=
  if decide (upper = "SIGABRT"%string) then "SIGABRT"
  else if decide (upper = "SIGINT"%string ∨ upper = "C"%string) then "SIGINT"
  else if decide (upper = "SIGTERM"%string) then "SIGTERM"
  else "SIGKILL".

(** How the wait ends: the caller's context, Docker's error channel, or the
    container has stopped. *)
Inductive wait_end :=
| WaitCtx (e : option derr)
| WaitErr (e : option derr)
| WaitOk.

Record wait_calls := mkWaitCalls {
  wc_stop : stop_calls;
  wc_end : wait_end;
  wc_terminate : signal_calls;
}.

Definition WaitForStop (c : wait_calls) (terminate : bool) : op unit := λ e,
  match Stop (wc_stop c) e with
  | (Err x, e1) => if terminate then Terminate (wc_terminate c) e1 else (Err x, e1)
  | (Ok _, e1) =>
      match wc_end c with
      | WaitCtx (Some x) => if terminate then Terminate (wc_terminate c) e1 else (Err x, e1)
      | WaitErr (Some x) =>
          if IsNotFound x then (Ok tt, e1)
          else if terminate then Terminate (wc_terminate c) e1 else (Err x, e1)
      | _ => (Ok tt, e1)
      end
  end.

(** ** The attached stream *)

Record reattach_calls := mkReattachCalls {
  rc_inspect : result derr bool;
  rc_now : Z;
  rc_reconcile : result derr unit;
  rc_attach : result derr unit;
  rc_again : result derr bool;          (* the inspection after a failed attach *)
  rc_terminate : signal_calls;
}.

(** [time.Since(e.reattachedAt) > 5 min]; the zero time is long ago. *)
Definition window_over (now : Z) (at_ : option Z) : bool :=
  match at_ with
  | None => true
  | Some t => 5 * 60 * 1000000000 <? now - t
  end.

Definition count_reattach (now : Z) (e : env) : env :=
  let e := if window_over now (e_reattachedAt e) then set_reattached (Some now) 0 e else e in
  set_reattached (e_reattachedAt e) (e_reattachedCount e + 1) e.

Definition Attach (reconcile call : result derr unit) : op unit :=
  _ ← st_lift reconcile;
  attach call.

(** [true]: the container is still running, or was terminated. *)
Definition reattach (c : reattach_calls) (e : env) : bool * env :=
  let abandon e := (true, snd (Terminate (rc_terminate c) e)) in
  match rc_inspect c with
  | Ok true =>
      let e := count_reattach (rc_now c) e in
      if e_reattachedCount e <=? 3 then
        match Attach (rc_reconcile c) (rc_attach c) e with
        | (Ok _, e) => (true, e)
        | (Err _, e) => match rc_again c with Ok false => (false, e) | _ => abandon e end
        end
      else abandon e
  | _ => (false, e)
  end.

(** What the goroutine of [attach] does when its stream ends. *)
Definition stream_end (c : reattach_calls) (e : env) : env :=
  let '(alive, e) := reattach c (SetStream false e) in
  if alive then e else SetState Offline e.

(** ** Destroying *)

Definition Destroy (remove policy : result derr unit) : op unit :=
  _ ← run stop_monitor;
  _ ← run (SetState Stopping);
  _ ← run (SetState Offline);
  match remove with
  | Err e => if IsNotFound e then st_lift policy else st_err e
  | Ok _ => st_lift policy
  end.

(** ** The exit state *)

Record container_state := mkContainer { cs_ExitCode : Z; cs_OOMKilled : bool }.

Definition ExitState (inspect : result derr container_state) : result derr (Z * bool) :=
  match inspect with
  | Err e => if IsNotFound e then Ok (1, false) else Err e
  | Ok c =>
      if cs_ExitCode c <? 0 then Err (Failed 1)
      else if 2 ^ 32 - 1 <? cs_ExitCode c then Err (Failed 2)
      else Ok (wrapu32 (cs_ExitCode c), cs_OOMKilled c)
  end.

Definition Exists (inspect : result derr bool) : result derr bool :=
  match inspect with
  | Err e => if IsNotFound e then Ok false else Err e
  | Ok _ => Ok true
  end.

Definition IsRunning (inspect : result derr bool) : result derr bool := inspect.

(** ** Facts *)

(** The states the operations pass through, as published. *)
Definition published (e e' : env) (l : list pstate) : Prop := e_events e' = e_events e ++ l.

(** A crash is seen in a run of states that goes from an online state straight to
    offline. *)
Fixpoint crash_seen (prev : pstate) (l : list pstate) : bool :=
  match l with
  | [] => false
  | s :: l' =>
      (bool_decide (prev = Starting ∨ prev = Running) && bool_decide (s = Offline))
      || crash_seen s l'
  end.

(** What an operation that ends in [e'] published, as one run of states. *)
Definition changed (e e' : env) (l : list pstate) : Prop :=
  e_events e' = e_events e ++ l ∧ e_st e' = last l (e_st e).

(** An operation that never looks like a crash, whatever it returns. *)
Definition calm_at {A} (e : env) (r : result derr A * env) : Prop :=
  ∃ l, changed e (snd r) l ∧ crash_seen (e_st e) l = false.
Definition calm {A} (m : op A) : Prop := ∀ e, calm_at e (m e).

Lemma SetState_st s e : e_st (SetState s e) = s.
Proof. unfold SetState. by case_decide. Qed.

Lemma SetState_stream s e : e_stream (SetState s e) = e_stream e.
Proof. unfold SetState. by case_decide. Qed.

Lemma SetState_changed s e : changed e (SetState s e) (if decide (e_st e = s) then [] else [s]).
Proof. unfold changed, SetState. case_decide; [by rewrite app_nil_r|done]. Qed.

Lemma last_app (l1 l2 : list pstate) d : last (l1 ++ l2) d = last l2 (last l1 d).
Proof.
  destruct l2 as [|x l2 _] using rev_ind; [by rewrite app_nil_r|].
  by rewrite app_assoc, !last_last.
Qed.

Lemma last_cons x (l : list pstate) d : last (x :: l) d = last l x.
Proof.
  destruct l as [|y l _] using rev_ind; [done|]. by rewrite app_comm_cons, !last_last.
Qed.

Lemma crash_seen_app p l1 l2 :
  crash_seen p (l1 ++ l2) = crash_seen p l1 || crash_seen (last l1 p) l2.
Proof.
  revert p. induction l1 as [|x l1 IH]; intros p; [done|].
  cbn [app crash_seen]. rewrite IH, last_cons. by destruct (_ && _).
Qed.

Lemma calm_at_trans {A B} e (r1 : result derr A * env) (r2 : result derr B * env) :
  calm_at e r1 → calm_at (snd r1) r2 → calm_at e r2.
Proof.
  intros (l1 & [E1 S1] & C1) (l2 & [E2 S2] & C2). exists (l1 ++ l2).
  unfold changed. rewrite E2, E1, app_assoc, last_app, crash_seen_app, C1, <-S1. auto.
Qed.

Lemma calm_at_same {A} e e' (r : result derr A) :
  e_events e' = e_events e → e_st e' = e_st e → calm_at e (r, e').
Proof. exists []. unfold changed. by rewrite app_nil_r. Qed.

Lemma calm_bind {A B} (m : op A) (f : A → op B) : calm m → (∀ a, calm (f a)) → calm (m ≫= f).
Proof.
  intros Hm Hf e. unfold mbind, st_bind. specialize (Hm e).
  destruct (m e) as [[a|x] e1] eqn:E; [|exact Hm].
  eapply calm_at_trans; [exact Hm|]. apply Hf.
Qed.

Lemma calm_lift {A} (r : result derr A) : calm (st_lift r).
Proof. intros e. by apply calm_at_same. Qed.
Lemma calm_err {A} x : calm (st_err x : op A).
Proof. intros e. by apply calm_at_same. Qed.
Lemma calm_ret {A} (a : A) : calm (mret a : op A).
Proof. intros e. by apply calm_at_same. Qed.
Lemma calm_get {A} (f : env → A) : calm (get f).
Proof. intros e. by apply calm_at_same. Qed.
Lemma calm_SetStream b : calm (run (SetStream b)).
Proof. intros e. by apply calm_at_same. Qed.
Lemma calm_stop_monitor : calm (run stop_monitor).
Proof. intros e. by apply calm_at_same. Qed.

Lemma calm_at_SetState {A} s e (r : result derr A) :
  s ≠ Offline ∨ e_st e = Offline ∨ e_st e = Stopping → calm_at e (r, SetState s e).
Proof.
  intros Hs. eexists. split; [apply SetState_changed|].
  case_decide; [done|]. simpl. rewrite orb_false_r, andb_false_iff.
  rewrite !bool_decide_eq_false. destruct Hs as [Hs|[->| ->]]; [by right|left; naive_solver..].
Qed.

Lemma calm_SetState s : s ≠ Offline → calm (run (SetState s)).
Proof. intros Hs e. apply calm_at_SetState. auto. Qed.

Lemma calm_stop_offline : calm (run (λ e, SetState Offline (SetState Stopping e))).
Proof.
  intros e. eapply (calm_at_trans _ (Ok tt, SetState Stopping e)).
  - by apply calm_at_SetState; left.
  - apply calm_at_SetState. simpl. rewrite SetState_st. auto.
Qed.

#[export] Hint Resolve calm_bind calm_lift calm_err calm_ret calm_get calm_SetStream
  calm_stop_monitor calm_stop_offline : wings.
#[export] Hint Extern 1 (calm (run (SetState _))) => apply calm_SetState; discriminate : wings.

(** Splits an operation into its calls. *)
Ltac calm_tac :=
  repeat first
    [ progress intros
    | apply calm_bind
    | case_decide
    | case_match
    | solve [eauto with wings] ].

Lemma calm_saw_error m : calm m → calm (saw_error m).
Proof.
  intros Hm e. unfold saw_error. specialize (Hm e). destruct (m e) as [[u|x] e1]; [done|].
  eapply calm_at_trans; [exact Hm|]. exact (calm_stop_offline e1).
Qed.

Lemma calm_onBeforeStart c : calm (onBeforeStart c).
Proof. unfold onBeforeStart. calm_tac. Qed.
Lemma calm_attach c : calm (attach c).
Proof. unfold attach. calm_tac. Qed.

#[export] Hint Resolve calm_saw_error calm_onBeforeStart calm_attach : wings.

Lemma calm_boot c : calm (boot c).
Proof. unfold boot. apply calm_bind; [eauto with wings|]. intros _. apply calm_saw_error. calm_tac. Qed.

#[export] Hint Resolve calm_boot : wings.

Lemma calm_SignalContainer c : calm (SignalContainer c).
Proof. unfold SignalContainer. calm_tac. Qed.
Lemma calm_SendCommand c w : calm (SendCommand c w).
Proof. unfold SendCommand. calm_tac. Qed.

#[export] Hint Resolve calm_SignalContainer calm_SendCommand : wings.

(** After the first half of [Stop] the process is no longer online. *)
Definition going_down (s : pstate) : Prop := s = Offline ∨ s = Stopping.

#[global] Instance going_down_dec s : Decision (going_down s).
Proof. unfold going_down. apply _. Defined.

Lemma SignalContainer_down c e : going_down (e_st e) → going_down (e_st (snd (SignalContainer c e))).
Proof.
  intros Hd. unfold SignalContainer, run, get, mbind, st_bind, mret, st_ret, st_err.
  destruct (gc_inspect c) as [[]|x]; simpl.
  - destruct (gc_kill c) as [|y]; [|destruct (IsNotFound y)]; simpl; rewrite SetState_st; by right.
  - case_decide; [done|]. simpl. rewrite SetState_st. by left.
  - by destruct (IsNotFound x).
Qed.

Lemma SendCommand_down c w e : going_down (e_st e) → going_down (e_st (snd (SendCommand c w e))).
Proof.
  intros Hd. unfold SendCommand, run, get, mbind, st_bind, mret, st_ret, st_err, st_lift.
  destruct (contains_control c); [done|]. simpl. destruct (e_stream e); [|done]. simpl.
  destruct (stop_Type (e_stop e)); simpl; try done.
  case_decide; simpl; [rewrite SetState_st; by right|done].
Qed.

(** [Stop]'s state once it asked for the stop. *)
Definition stopping_state (e : env) : env :=
  if decide (e_st e = Offline) then e else SetState Stopping e.

Lemma stopping_state_down e : going_down (e_st (stopping_state e)).
Proof. unfold stopping_state. case_decide; [by left|]. rewrite SetState_st. by right. Qed.

(** [Stop] is its first half followed by one of three ways to ask. *)
Lemma Stop_cases c e :
  (∃ g, Stop c e = SignalContainer g (stopping_state e))
  ∨ (∃ v w, Stop c e = SendCommand v w (stopping_state e))
  ∨ (∃ r, Stop c e = (r, stopping_state e))
  ∨ Stop c e = (Ok tt, SetState Offline (SetStream false (stopping_state e))).
Proof.
  unfold Stop, stopping_state, State, run, get, mbind, st_bind, mret, st_ret, st_err.
  case_decide as Hd; simpl; (destruct (stop_Type (e_stop e)); [by eauto|..]);
    cbn beta; try (destruct (IsAttached _); [by eauto|]);
    (destruct (tc_stop c) as [|x]; [by eauto|destruct (IsNotFound x); by eauto]).
Qed.

Lemma calm_stopping_state {A} e (r : result derr A) : calm_at e (r, stopping_state e).
Proof.
  unfold stopping_state. case_decide; [by apply calm_at_same|]. by apply calm_at_SetState; left.
Qed.

Lemma Stop_calm c e : calm_at e (Stop c e) ∧ going_down (e_st (snd (Stop c e))).
Proof.
  pose proof (stopping_state_down e) as Hd.
  assert (calm_at e (Ok tt : result derr unit, stopping_state e)) as Hc by apply calm_stopping_state.
  destruct (Stop_cases c e) as [[g ->]|[(v & w & ->)|[[r ->]| ->]]]; split.
  - eapply calm_at_trans; [exact Hc|]. apply calm_SignalContainer.
  - by apply SignalContainer_down.
  - eapply calm_at_trans; [exact Hc|]. apply calm_SendCommand.
  - by apply SendCommand_down.
  - apply calm_stopping_state.
  - done.
  - eapply calm_at_trans; [exact Hc|]. eapply (calm_at_trans _ (Ok tt, SetStream false _)).
    + by apply calm_at_same.
    + apply calm_at_SetState. destruct Hd; auto.
  - simpl. rewrite SetState_st. by left.
Qed.

Lemma Terminate_down c e : going_down (e_st e) → calm_at e (Terminate c e).
Proof.
  intros Hd. unfold Terminate, mbind, st_bind, run.
  pose proof (calm_SignalContainer c e) as Hc. pose proof (SignalContainer_down c e Hd) as Hd'.
  destruct (SignalContainer c e) as [[u|x] e1]; [|exact Hc].
  eapply calm_at_trans; [exact Hc|]. apply calm_at_SetState. destruct Hd'; auto.
Qed.

(** No operation Wings performs on purpose looks like a crash.  Whatever Docker
    answers and in whatever state it is called, starting (also a failed start),
    stopping, waiting for a stop with or without forced termination, signalling,
    sending a command and destroying never publish a change from starting or
    running straight to offline, so that a listener that follows the published
    states does not start crash detection. *)
Theorem operations_never_look_crashed :
  (∀ c, calm (Start c)) ∧ (∀ c, calm (Stop c)) ∧ (∀ c b, calm (WaitForStop c b))
  ∧ (∀ c, calm (SignalContainer c)) ∧ (∀ c w, calm (SendCommand c w))
  ∧ (∀ r p, calm (Destroy r p)).
Proof.
  split_and!; try by eauto with wings.
  - intros c. unfold Start. calm_tac.
  - intros c e. apply Stop_calm.
  - intros c b e. unfold WaitForStop. destruct (Stop_calm (wc_stop c) e) as [Hc Hd].
    destruct (Stop (wc_stop c) e) as [[u|x] e1]; simpl in Hd.
    + destruct (wc_end c) as [[x|]|[x|]|]; try exact Hc.
      * destruct b; [|exact Hc]. eapply calm_at_trans; [exact Hc|]. by apply Terminate_down.
      * destruct (IsNotFound x); [exact Hc|]. destruct b; [|exact Hc].
        eapply calm_at_trans; [exact Hc|]. by apply Terminate_down.
    + destruct b; [|exact Hc]. eapply calm_at_trans; [exact Hc|]. by apply Terminate_down.
  - intros r p e. unfold Destroy.
    assert (calm (run (λ e, SetState Offline (SetState Stopping (stop_monitor e))))) as Hm.
    { intros e0. eapply (calm_at_trans _ (Ok tt, stop_monitor e0)); [by apply calm_at_same|].
      exact (calm_stop_offline (stop_monitor e0)). }
    assert (calm (match r with Err x => if IsNotFound x then st_lift p else st_err x
                  | Ok _ => st_lift p end)) as Hp by calm_tac.
    eapply calm_at_trans; [exact (Hm e)|]. exact (Hp _).
Qed.

Lemma onBeforeStart_reply c : ∃ r, ∀ e, onBeforeStart c e = (r, e).
Proof.
  unfold onBeforeStart. destruct (bc_remove c) as [|y]; [|destruct (IsNotFound y)]; by eexists.
Qed.

Lemma attach_outcome r e :
  match attach r e with
  | (Ok _, e') => e' = SetStream true e
  | (Err _, e') => e' = e
  end.
Proof.
  unfold attach, get, run, mbind, st_bind, mret, st_ret, st_lift. simpl.
  destruct (IsAttached e) eqn:Ea; [|by destruct r as [[]|]].
  destruct e. unfold IsAttached, SetStream in *. simpl in *. by rewrite Ea.
Qed.

Lemma boot_outcome c e :
  match boot c e with
  | (Ok _, e') => e_st e' = Starting ∧ IsAttached e' = true
  | (Err _, e') => e_st e' = Offline
  end.
Proof.
  unfold boot, saw_error, run, mbind, st_bind, st_lift.
  destruct (onBeforeStart_reply (sc_boot c)) as [r Hr]. rewrite Hr.
  destruct r as [[]|x]; [|apply SetState_st].
  pose proof (attach_outcome (sc_attach c) (SetState Starting e)) as Ha.
  destruct (attach _ _) as [[[]|x] e2]; [subst e2|apply SetState_st].
  destruct (sc_start c) as [[]|x]; [|apply SetState_st].
  destruct (sc_finish c) as [[]|x]; [|apply SetState_st]. simpl. by rewrite SetState_st.
Qed.

(** A start leaves the environment in a definite state.  A start that succeeds
    leaves it online and attached (running when the container was running already);
    one that fails either did not touch it, or found the container running and could
    not reconcile or attach, or leaves it offline. *)
Theorem Start_outcome c e :
  match Start c e with
  | (Ok _, e') =>
      e_st e' = (if decide (sc_inspect c = Ok true) then Running else Starting)
      ∧ IsAttached e' = true
  | (Err _, e') =>
      e' = e ∨ (sc_inspect c = Ok true ∧ e' = SetState Running e) ∨ e_st e' = Offline
  end.
Proof.
  pose proof (boot_outcome c e) as Hboot.
  unfold Start. destruct (sc_begin c) as [[]|x]; [|by left]. unfold mbind at 1, st_bind at 1. simpl.
  destruct (sc_inspect c) as [[]|x] eqn:Ei.
  - unfold run, mbind, st_bind, st_lift. destruct (sc_reconcile c) as [[]|x]; [|by auto].
    pose proof (attach_outcome (sc_attach c) (SetState Running e)) as Ha.
    destruct (attach _ _) as [[[]|x] e2]; subst e2; [|by auto].
    rewrite decide_True by done. simpl. by rewrite SetState_st.
  - rewrite decide_False by done.
    destruct (sc_log c) as [[[]|x]|]; [|by left|]; destruct (boot c e) as [[] ?]; auto.
  - rewrite decide_False by done.
    destruct (IsNotFound x); [|by left]. destruct (boot c e) as [[] ?]; auto.
Qed.

Lemma Terminate_missing c e : gc_inspect c = Err NotFound → Terminate c e = (Ok tt, SetState Offline e).
Proof. intros Hc. unfold Terminate, SignalContainer, mbind, st_bind. by rewrite Hc. Qed.

(** Terminating looks like a crash in exactly one case: the container no longer
    exists while the process is thought to be online.  The state then goes straight
    to offline, because the missing container is "already terminated" and the
    stopping state is never entered; in every other case the termination is
    published as a stop. *)
Theorem Terminate_crash_iff c e :
  (∃ l, changed e (snd (Terminate c e)) l ∧ crash_seen (e_st e) l = true)
  ↔ gc_inspect c = Err NotFound ∧ ¬ going_down (e_st e).
Proof.
  assert (∀ l1 l2, changed e (snd (Terminate c e)) l1 → changed e (snd (Terminate c e)) l2 → l1 = l2)
    as Hfun by (intros l1 l2 [E1 _] [E2 _]; rewrite E1 in E2; by simplify_eq).
  split.
  - intros (l & Hl & Hcrash). destruct (decide (going_down (e_st e))) as [Hd|Hd].
    { destruct (Terminate_down c e Hd) as (l' & Hl' & Hc). rewrite (Hfun l l') in Hcrash by done.
      congruence. }
    split; [|done]. destruct (decide (gc_inspect c = Err NotFound)) as [|Hne]; [done|].
    exfalso. assert (calm_at e (Terminate c e)) as (l' & Hl' & Hc);
      [|rewrite (Hfun l l') in Hcrash by done; congruence].
    unfold Terminate, mbind, st_bind, run. pose proof (calm_SignalContainer c e) as Hs.
    destruct (SignalContainer c e) as [[u|x] e1] eqn:E; [|exact Hs].
    eapply calm_at_trans; [exact Hs|]. apply calm_at_SetState. right. simpl.
    assert (going_down (e_st e1)) as []; [|by auto..].
    unfold SignalContainer, get, run, mbind, st_bind, mret, st_ret, st_err in E. simpl in E.
    destruct (gc_inspect c) as [[]|x]; simpl in E.
    + destruct (gc_kill c) as [|y]; [|destruct (IsNotFound y)]; simplify_eq; right; apply SetState_st.
    + case_decide; simplify_eq; left; [done|apply SetState_st].
    + unfold IsNotFound in E. case_bool_decide; congruence.
  - intros [Hc Hd]. rewrite Terminate_missing by done. simpl. exists [Offline].
    unfold going_down in Hd. split.
    + pose proof (SetState_changed Offline e) as H. rewrite decide_False in H by tauto. done.
    + simpl. destruct (e_st e); try done; exfalso; apply Hd; auto.
Qed.

(** ** Losing the stream *)

(** [stream_end] tries to attach again. *)
Definition attempts (c : reattach_calls) (e : env) : bool :=
  bool_decide (rc_inspect c = Ok true) && (e_reattachedCount (count_reattach (rc_now c) e) <=? 3).

Fixpoint total_attempts (cs : list reattach_calls) (e : env) : Z :=
  match cs with
  | [] => 0
  | c :: cs' => (if attempts c e then 1 else 0) + total_attempts cs' (stream_end c e)
  end.

Definition window : Z := 5 * 60 * 1000000000.

(** The two fields that count reattaching. *)
Definition counters (e : env) : option Z * Z := (e_reattachedAt e, e_reattachedCount e).

Lemma SetState_counters s e : counters (SetState s e) = counters e.
Proof. unfold SetState. by case_decide. Qed.

Lemma Terminate_counters c e : counters (snd (Terminate c e)) = counters e.
Proof.
  unfold Terminate, SignalContainer, get, run, mbind, st_bind, mret, st_ret, st_err. simpl.
  destruct (gc_inspect c) as [[]|x]; simpl.
  - destruct (gc_kill c) as [|y]; [|destruct (IsNotFound y)]; simpl; by rewrite ?SetState_counters.
  - case_decide; simpl; by rewrite ?SetState_counters.
  - destruct (IsNotFound x); simpl; by rewrite ?SetState_counters.
Qed.

Lemma Attach_counters r a e : counters (snd (Attach r a e)) = counters e.
Proof.
  unfold Attach, attach, get, run, mbind, st_bind, mret, st_ret, st_lift. simpl.
  destruct r as [[]|]; [|done]. destruct (IsAttached e); [done|]. by destruct a as [[]|].
Qed.

Lemma stream_end_counters c e :
  counters (stream_end c e)
  = if decide (rc_inspect c = Ok true) then counters (count_reattach (rc_now c) e) else counters e.
Proof.
  unfold stream_end, reattach. destruct (rc_inspect c) as [[]|x]; simpl.
  2-3: by rewrite SetState_counters.
  set (e1 := count_reattach (rc_now c) (SetStream false e)).
  assert (counters e1 = counters (count_reattach (rc_now c) e)) as <-.
  { unfold e1, count_reattach, counters. simpl. by destruct (window_over _ _). }
  destruct (_ <=? 3); [|by rewrite Terminate_counters].
  pose proof (Attach_counters (rc_reconcile c) (rc_attach c) e1) as Ha.
  destruct (Attach _ _ e1) as [[u|x] e2]; simpl in Ha; [done|].
  destruct (rc_again c) as [[]|]; simpl; by rewrite ?Terminate_counters, ?SetState_counters.
Qed.

(** A container whose stream keeps ending is attached to at most three times in
    the five minutes after the first loss; further losses terminate it instead. *)
Theorem reattach_bounded cs e t0 :
  e_reattachedAt e = Some t0 → 0 ≤ e_reattachedCount e →
  Forall (λ c, rc_now c - t0 ≤ window) cs →
  total_attempts cs e ≤ Z.max 0 (3 - e_reattachedCount e).
Proof.
  revert e. induction cs as [|c cs IH]; intros e Ht Hn Hcs; [simpl; lia|].
  apply list.Forall_cons in Hcs as [Hc Hcs].
  assert (count_reattach (rc_now c) e = set_reattached (Some t0) (e_reattachedCount e + 1) e) as Ec.
  { unfold count_reattach, window_over, window in *. rewrite Ht.
    rewrite (proj2 (Z.ltb_ge _ _)) by lia. by rewrite Ht. }
  pose proof (stream_end_counters c e) as Es. rewrite Ec in Es.
  cbn [total_attempts]. unfold attempts. rewrite Ec. simpl e_reattachedCount.
  case_decide as Hr; injection Es as E1 E2.
  - rewrite bool_decide_true by done. specialize (IH (stream_end c e)).
    rewrite E1, E2 in IH. simpl in IH. specialize (IH eq_refl ltac:(lia) Hcs).
    destruct (Z.leb_spec (e_reattachedCount e + 1) 3); simpl; lia.
  - rewrite bool_decide_false by done. specialize (IH (stream_end c e)).
    rewrite E1, E2 in IH. specialize (IH Ht Hn Hcs). simpl. lia.
Qed.

Lemma reattach_bounded_witness :
  let bad := mkSignalCalls (Ok true) (Ok tt) in
  let c t := mkReattachCalls (Ok true) t (Ok tt) (Ok tt) (Ok true) bad in
  let e := mkEnv Running [] true (mkStop StopUnset "") (Some 100) 1 false in
  total_attempts [c 200; c 300; c 400; c 500] e = 2 ∧ 2 ≤ Z.max 0 (3 - 1).
Proof.
  intros bad c e. split; [reflexivity|].
  change 2 with (total_attempts [c 200; c 300; c 400; c 500] e) at 1.
  apply (reattach_bounded _ e 100); [reflexivity|simpl; lia|].
  repeat constructor; vm_compute; congruence.
Defined.
