(* ===== verification/Power.v ===== *)
(** * Power actions and crash detection (server/power.go, server/crash.go, and the
    state handling of server/server.go and server/install.go)

    [HandlePowerAction] takes the power lock, runs the preflight checks and drives
    the container environment; [OnStateChange] follows the environment's state and
    decides when a server has crashed; [handleServerCrash] restarts it, unless it
    crashed too recently.  The power lock is used through the interface [PowerLock],
    which [Locker] implements; the environment and the disk accounting are those of
    [Environment] and [Disk]. *)

From stdpp Require Import base gmap list strings numbers relations.
From S2P Require Import Prelude GoStrings Disk Environment Locker.
Open Scope Z_scope.

(** ** The lock, as the power handler sees it *)

(** [pl_attempt] says how a waiting attempt goes; [None]: it still waits. *)
Class PowerLock (L : Type) := {
  pl_attempt : Type;
  pl_acquire : L → result lockerr unit * L;
  pl_try : pl_attempt → L → option (result lockerr unit * L);
  pl_release : L → L;
  pl_locked : L → bool;
}.

Class PowerLockLaws (L : Type) `{PowerLock L} := {
  pl_acquire_ok : ∀ l l', pl_acquire l = (Ok tt, l') → pl_locked l = false;
  pl_acquire_err : ∀ l e l', pl_acquire l = (Err e, l') → l' = l;
  pl_acquire_locked : ∀ l, pl_locked l = true → ∃ e, fst (pl_acquire l) = Err e;
  pl_released : ∀ l, pl_locked (pl_release l) = false;
}.

#[global] Instance Locker_PowerLock : PowerLock Locker := {
  pl_attempt := try_case * (Locker → Locker);
  pl_acquire := Acquire;
  pl_try a l := TryAcquire (fst a) (snd a) l;
  pl_release := Release;
  pl_locked := IsLocked;
}.

#[global] Instance Locker_PowerLockLaws : PowerLockLaws Locker.
Proof.
  split; unfold pl_acquire, pl_locked, pl_release; simpl; unfold Acquire, IsLocked.
  - intros l l'. by repeat case_match.
  - intros l e l'. repeat case_match; naive_solver.
  - intros l Hl. rewrite Hl. case_match; simpl; eauto.
  - done.
Qed.

(** ** The server *)

Inductive perr :=
| ErrServerIsRestoring | ErrServerIsTransferring | ErrServerIsInstalling
| ErrLock (e : lockerr)
| ErrIsRunning | ErrSuspended
| ErrDisk (e : fserr)
| ErrEnv (e : derr)
| ErrSync (n : Z)
| ErrChown (e : fserr)
| ErrUnknownAction
| ErrCrashTooFrequent.

Definition PowerAction := string.
Definition PowerActionStart : PowerAction := "start".
Definition PowerActionStop : PowerAction := "stop".
Definition PowerActionRestart : PowerAction := "restart".
Definition PowerActionTerminate : PowerAction := "kill".

Definition IsValid (pa : PowerAction) : bool :=
  bool_decide (pa = PowerActionStart) || bool_decide (pa = PowerActionStop)
  || bool_decide (pa = PowerActionTerminate) || bool_decide (pa = PowerActionRestart).

Definition IsStart (pa : PowerAction) : bool :=
  bool_decide (pa = PowerActionStart) || bool_decide (pa = PowerActionRestart).

(** The parts of the server that power actions read and write. *)
Record server (L : Type) := mkServer {
  s_lock : L;
  s_env : env;
  s_fs : Filesystem;
  s_installing : bool;
  s_transferring : bool;
  s_restoring : bool;
  s_suspended : bool;
  s_diskMiB : Z;               (* Build.DiskSpace *)
  s_crashDetection : bool;     (* CrashDetectionEnabled *)
  s_lastCrash : option Z;      (* nanoseconds; None: the zero time *)
  s_tracked : pstate;          (* resources.State *)
}.
Arguments mkServer {L}.
Arguments s_lock {L}. Arguments s_env {L}. Arguments s_fs {L}.
Arguments s_installing {L}. Arguments s_transferring {L}. Arguments s_restoring {L}.
Arguments s_suspended {L}. Arguments s_diskMiB {L}. Arguments s_crashDetection {L}.
Arguments s_lastCrash {L}. Arguments s_tracked {L}.

Section Setters.
Context {L : Type}.
Implicit Types s : server L.

Definition set_lock (l : L) s := mkServer l (s_env s) (s_fs s) (s_installing s) (s_transferring s)
  (s_restoring s) (s_suspended s) (s_diskMiB s) (s_crashDetection s) (s_lastCrash s) (s_tracked s).
Definition set_env (e : env) s := mkServer (s_lock s) e (s_fs s) (s_installing s) (s_transferring s)
  (s_restoring s) (s_suspended s) (s_diskMiB s) (s_crashDetection s) (s_lastCrash s) (s_tracked s).
Definition set_fs (fs : Filesystem) s := mkServer (s_lock s) (s_env s) fs (s_installing s)
  (s_transferring s) (s_restoring s) (s_suspended s) (s_diskMiB s) (s_crashDetection s)
  (s_lastCrash s) (s_tracked s).
Definition set_config (suspended : bool) (disk : Z) s := mkServer (s_lock s) (s_env s) (s_fs s)
  (s_installing s) (s_transferring s) (s_restoring s) suspended disk (s_crashDetection s)
  (s_lastCrash s) (s_tracked s).
Definition SetLastCrash (t : Z) s := mkServer (s_lock s) (s_env s) (s_fs s)
  (s_installing s) (s_transferring s) (s_restoring s) (s_suspended s) (s_diskMiB s)
  (s_crashDetection s) (Some t) (s_tracked s).
Definition set_tracked (p : pstate) s := mkServer (s_lock s) (s_env s) (s_fs s)
  (s_installing s) (s_transferring s) (s_restoring s) (s_suspended s) (s_diskMiB s)
  (s_crashDetection s) (s_lastCrash s) p.
Definition set_transferring (b : bool) s := mkServer (s_lock s) (s_env s) (s_fs s)
  (s_installing s) b (s_restoring s) (s_suspended s) (s_diskMiB s)
  (s_crashDetection s) (s_lastCrash s) (s_tracked s).
End Setters.

Section Power.
Context {L : Type} `{PowerLock L}.
Implicit Types s : server L.

Definition act := st (server L) perr.

Definition LastCrashTime s : option Z := s_lastCrash s.
Definition ExecutingPowerAction s : bool := pl_locked (s_lock s).
Definition IsSuspended s : bool := s_suspended s.
Definition srv_IsRunning s : bool :=
  bool_decide (State (s_env s) = Running ∨ State (s_env s) = Starting).
Definition IsInProtectedState s : bool := s_installing s || s_transferring s || s_restoring s.
Definition DiskSpace s : Z := wrap64 (s_diskMiB s * 1024 * 1024).

Definition StartTransferring s : bool * server L :=
  if s_installing s || s_restoring s || s_transferring s then (false, s)
  else (true, set_transferring true s).

Definition on_env {A} (m : op A) : act A := λ s,
  let '(r, e) := m (s_env s) in
  (match r with Ok a => Ok a | Err x => Err (ErrEnv x) end, set_env e s).

Definition on_fs {A} (m : Filesystem → A * Filesystem) : act A := λ s,
  let '(a, fs) := m (s_fs s) in (Ok a, set_fs fs s).

(** *** Preflight *)

(** The Panel's configuration (suspended, disk space) once applied, and updating the
    environment with it. *)
Record sync_calls := mkSyncCalls {
  sy_configuration : result perr (bool * Z);
  sy_environment : result perr unit;
}.

Definition Sync (c : sync_calls) : act unit :=
  cfg ← st_lift (sy_configuration c);
  _ ← (λ s, (Ok tt, set_config (fst cfg) (snd cfg) s) : result perr unit * server L);
  _ ← (λ s, (Ok tt, set_fs (SetDiskLimit (DiskSpace s) (s_fs s)) s) : result perr unit * server L);
  st_lift (sy_environment c).

Record preflight_calls := mkPreflightCalls {
  pf_sync : sync_calls;
  pf_walk : Z * result fserr unit;      (* the measured disk usage *)
  pf_now : Z;
  pf_chown : option (result fserr unit);  (* None: CheckPermissionsOnBoot is off *)
}.

(** The server's [onBeforeStart]; updating the configuration files only logs its
    errors. *)
Definition preflight (c : preflight_calls) : act unit :=
  _ ← Sync (pf_sync c);
  suspended ← (λ s, (Ok (IsSuspended s), s) : result perr bool * server L);
  if (suspended : bool) then st_err ErrSuspended
  else
    disk ← (λ s, (Ok (DiskSpace s), s) : result perr Z * server L);
    _ ← (if disk <=? 0 then
           _ ← on_fs (HasSpaceAvailable true (pf_walk c) (pf_now c)); mret tt
         else
           r ← on_fs (HasSpaceErr false (pf_walk c) (pf_now c));
           match r with Ok _ => mret tt | Err e => st_err (ErrDisk e) end);
    match pf_chown c with
    | Some (Err e) => st_err (ErrChown e)
    | _ => mret tt
    end.

(** *** The handler *)

Record power_calls := mkPowerCalls {
  pw_attempt : pl_attempt;
  pw_preflight : preflight_calls;
  pw_start : start_calls;
  pw_wait : wait_calls;
  pw_kill : signal_calls;
}.

(** The [switch] on the action, with the lock taken care of. *)
Definition power_switch (c : power_calls) (action : PowerAction) : act unit :=
  if decide (action = PowerActionStart) then
    state ← (λ s, (Ok (State (s_env s)), s) : result perr pstate * server L);
    if decide (state = Offline) then
      _ ← preflight (pw_preflight c);
      on_env (Start (pw_start c))
    else st_err ErrIsRunning
  else if decide (action = PowerActionStop ∨ action = PowerActionRestart) then
    _ ← on_env (WaitForStop (pw_wait c) true);
    if decide (action = PowerActionStop) then mret tt
    else
      _ ← preflight (pw_preflight c);
      on_env (Start (pw_start c))
  else if decide (action = PowerActionTerminate) then on_env (Terminate (pw_kill c))
  else st_err ErrUnknownAction.

(** [defer cleanup()]: the lock is released when the handler returns. *)
Definition with_cleanup (m : act unit) s : result perr unit * server L :=
  let '(r, s') := m s in (r, set_lock (pl_release (s_lock s')) s').

Definition protected_error s : option perr :=
  if s_restoring s then Some ErrServerIsRestoring
  else if s_transferring s then Some ErrServerIsTransferring
  else if s_installing s then Some ErrServerIsInstalling
  else None.

(** [None]: the call still waits for the lock. *)
Definition HandlePowerAction (c : power_calls) (action : PowerAction) (wait : Z) s
    : option (result perr unit * server L) :=
  match protected_error s with
  | Some e => Some (Err e, s)
  | None =>
      if decide (action = PowerActionTerminate) then
        Some match pl_acquire (s_lock s) with
        | (Ok _, l) => with_cleanup (power_switch c action) (set_lock l s)
        | (Err ErrLockerDestroyed, l) => (Err (ErrLock ErrLockerDestroyed), set_lock l s)
        | (Err ErrLockerLocked, l) => power_switch c action (set_lock l s)
        end
      else
        attempt ← (if 0 <? wait then pl_try (pw_attempt c) (s_lock s)
                   else Some (pl_acquire (s_lock s)));
        Some match attempt with
        | (Ok _, l) => with_cleanup (power_switch c action) (set_lock l s)
        | (Err e, l) => (Err (ErrLock e), set_lock l s)
        end
  end.

(** *** Crash detection *)

(** [OnStateChange]: the second component says whether the crash handler runs. *)
Definition OnStateChange s : server L * bool :=
  let prevState := s_tracked s in
  let st := State (s_env s) in
  (set_tracked st s,
   bool_decide (prevState = Starting ∨ prevState = Running) && bool_decide (st = Offline)).

Record crash_config := mkCrashConfig {
  cf_cleanExitAsCrash : bool;
  cf_timeout : Z;                       (* seconds *)
}.

Definition too_soon (cf : crash_config) (now : Z) (last : option Z) : bool :=
  match last with
  | None => false
  | Some t => negb (cf_timeout cf =? 0) && (now <? t + wrap64 (second * cf_timeout cf))
  end.

(** [handleServerCrash]: the restart it attempted, if any, is its second component. *)
Definition handleServerCrash (cf : crash_config) (inspect : result derr container_state)
    (now : Z) (c : power_calls) s : option (result perr unit * server L) * bool :=
  if decide (State (s_env s) = Offline) then
    if negb (s_crashDetection s) then (Some (Ok tt, s), false)
    else match ExitState inspect with
    | Err e => (Some (Err (ErrEnv e), s), false)
    | Ok (exitCode, oomKilled) =>
        if (exitCode =? 0) && negb oomKilled && negb (cf_cleanExitAsCrash cf)
        then (Some (Ok tt, s), false)
        else if too_soon cf now (LastCrashTime s)
        then (Some (Err ErrCrashTooFrequent, s), false)
        else (HandlePowerAction c PowerActionStart 0 (SetLastCrash now s), true)
    end
  else (Some (Ok tt, s), false).

End Power.
