(* ===== verification/PowerFacts.v ===== *)
(** * Correctness of power actions and crash detection

    Proved against the interface of the power lock; the witnesses use [Locker]. *)

From stdpp Require Import base gmap list strings numbers sorting.
From S2P Require Import Prelude GoStrings Disk Environment Locker Power.
Open Scope Z_scope.

Lemma some_pair {A B} (p : A * B) : Some p = Some (fst p, snd p).
Proof. by destruct p. Qed.

Section Facts.
Context {L : Type} `{PowerLockLaws L}.
Implicit Types s : server L.

(** ** What an action leaves alone *)

(** A part of the server that is neither the environment, nor the filesystem, nor
    the synced configuration. *)
Record apart {X} (f : server L → X) : Prop := {
  apart_env : ∀ e s, f (set_env e s) = f s;
  apart_fs : ∀ fs s, f (set_fs fs s) = f s;
  apart_config : ∀ b d s, f (set_config b d s) = f s;
}.

Definition keeps {X A} (f : server L → X) (m : @act L A) : Prop := ∀ s, f (snd (m s)) = f s.

Lemma keeps_bind {X A B} (f : server L → X) (m : @act L A) (k : A → @act L B) :
  keeps f m → (∀ a, keeps f (k a)) → keeps f (m ≫= k).
Proof.
  intros Hm Hk s. unfold mbind, st_bind. specialize (Hm s).
  destruct (m s) as [[a|x] s1]; simpl in *; [|done]. by rewrite Hk.
Qed.

Lemma keeps_lift {X A} (f : server L → X) (r : result perr A) : keeps f (st_lift r).
Proof. done. Qed.
Lemma keeps_err {X A} (f : server L → X) x : keeps f (st_err x : @act L A).
Proof. done. Qed.
Lemma keeps_ret {X A} (f : server L → X) (a : A) : keeps f (mret a : @act L A).
Proof. done. Qed.
Lemma keeps_read {X A} (f : server L → X) (g : server L → A) :
  keeps f (λ s, (Ok (g s), s) : result perr A * server L).
Proof. done. Qed.
Lemma keeps_env {X A} (f : server L → X) (m : op A) : apart f → keeps f (on_env m).
Proof. intros Hf s. unfold on_env. destruct (m (s_env s)). simpl. apply Hf. Qed.
Lemma keeps_fs {X A} (f : server L → X) (m : Filesystem → A * Filesystem) :
  apart f → keeps f (on_fs m).
Proof. intros Hf s. unfold on_fs. destruct (m (s_fs s)). simpl. apply Hf. Qed.

Hint Resolve keeps_lift keeps_err keeps_ret keeps_read keeps_env keeps_fs : core.

Lemma keeps_Sync {X} (f : server L → X) c : apart f → keeps f (Sync c).
Proof.
  intros Hf. unfold Sync. apply keeps_bind; [done|]. intros cfg.
  apply keeps_bind; [intros s; apply Hf|]. intros _.
  apply keeps_bind; [intros s; apply Hf|]. done.
Qed.

Lemma keeps_preflight {X} (f : server L → X) c : apart f → keeps f (preflight c).
Proof.
  intros Hf. unfold preflight. apply keeps_bind; [by apply keeps_Sync|]. intros _.
  apply keeps_bind; [done|]. intros []; [done|].
  apply keeps_bind; [done|]. intros d. apply keeps_bind.
  - case_match; apply keeps_bind; auto. intros []; auto.
  - intros _. destruct (pf_chown c) as [[]|]; auto.
Qed.

Lemma keeps_switch {X} (f : server L → X) c a : apart f → keeps f (power_switch c a).
Proof.
  intros Hf. pose proof (keeps_preflight f (pw_preflight c) Hf) as Hp.
  unfold power_switch. repeat case_decide; auto;
    repeat (apply keeps_bind; [by auto|intros ?]; try case_decide; auto).
Qed.

Lemma apart_lock : apart s_lock.
Proof. by split. Qed.
Lemma apart_lastCrash : apart s_lastCrash.
Proof. by split. Qed.

(** ** The lock *)

Lemma with_cleanup_unlocked m s : pl_locked (s_lock (snd (with_cleanup m s))) = false.
Proof. unfold with_cleanup. destruct (m s). simpl. apply pl_released. Qed.

(** A termination, with the lock or without it, is [Terminate]. *)
Lemma switch_kill c l s :
  fst (power_switch c PowerActionTerminate (set_lock l s)) = fst (on_env (Terminate (pw_kill c)) s)
  ∧ s_env (snd (power_switch c PowerActionTerminate (set_lock l s))) = snd (Terminate (pw_kill c) (s_env s)).
Proof.
  unfold power_switch. rewrite !decide_False by naive_solver. rewrite decide_True by done.
  unfold on_env. simpl. by destruct (Terminate _ _).
Qed.
Lemma with_cleanup_kill c l s :
  fst (with_cleanup (power_switch c PowerActionTerminate) (set_lock l s)) = fst (on_env (Terminate (pw_kill c)) s)
  ∧ s_env (snd (with_cleanup (power_switch c PowerActionTerminate) (set_lock l s)))
    = snd (Terminate (pw_kill c) (s_env s)).
Proof.
  destruct (switch_kill c l s) as [H1 H2]. unfold with_cleanup. by destruct (power_switch _ _ _).
Qed.

(** C18: power actions leave the lock as they found it.  A call that does not wait
    returns, on every path (errors of the preflight checks, of Docker, of the stop
    and of an unknown action included), with the lock released if it took it and
    untouched if it did not.  When another action holds the lock, every action but a
    termination is refused with nothing changed.  A termination goes ahead whether or
    not the lock is held, unless the lock was destroyed or the server is being
    restored, transferred or installed: its result and the environment it leaves are
    those of [Terminate]. *)
Theorem power_lock_balanced c action wait s :
  wait ≤ 0 →
  ∃ r s', HandlePowerAction c action wait s = Some (r, s')
    ∧ pl_locked (s_lock s') = pl_locked (s_lock s)
    ∧ (pl_locked (s_lock s) = true → action ≠ PowerActionTerminate →
        is_ok r = false ∧ s' = set_lock (s_lock s) s)
    ∧ (action = PowerActionTerminate → protected_error s = None →
        fst (pl_acquire (s_lock s)) ≠ Err ErrLockerDestroyed →
        r = fst (on_env (Terminate (pw_kill c)) s) ∧ s_env s' = snd (Terminate (pw_kill c) (s_env s))).
Proof.
  intros Hw. unfold HandlePowerAction. destruct (protected_error s) as [e|].
  { exists (Err e), s. split_and!; [done|done| |done]. by destruct s. }
  case_decide as Ha.
  - subst action. destruct (pl_acquire (s_lock s)) as [[[]|[]] l] eqn:Eq.
    + eexists _, _. split; [apply some_pair|].
      rewrite with_cleanup_unlocked. split; [by apply pl_acquire_ok in Eq|]. split; [done|].
      intros _ _ _. apply with_cleanup_kill.
    + apply pl_acquire_err in Eq as ->. eexists _, _. split; [apply some_pair|].
      rewrite (keeps_switch s_lock) by apply apart_lock. split; [done|]. split; [done|].
      intros _ _ _. apply switch_kill.
    + apply pl_acquire_err in Eq as ->. by eexists _, _.
  - rewrite (proj2 (Z.ltb_ge 0 wait)) by lia. cbn [mbind option_bind].
    destruct (pl_acquire (s_lock s)) as [[[]|e] l] eqn:Eq.
    + eexists _, _. split; [apply some_pair|].
      rewrite with_cleanup_unlocked. split; [by apply pl_acquire_ok in Eq|]. split; [|done].
      intros Hl. apply pl_acquire_ok in Eq. congruence.
    + apply pl_acquire_err in Eq as ->. by eexists _, _.
Qed.

(** A waiting action that gets the lock also releases it: when it returns, it was
    either refused the lock, and only the lock may have changed, or the lock is
    free. *)
Theorem power_wait_releases c action wait s r s' :
  0 < wait → action ≠ PowerActionTerminate → HandlePowerAction c action wait s = Some (r, s') →
  protected_error s = None →
  (∃ e, r = Err (ErrLock e) ∧ s' = set_lock (s_lock s') s) ∨ pl_locked (s_lock s') = false.
Proof.
  intros Hw Ha Hh Hp. unfold HandlePowerAction in Hh. rewrite Hp, decide_False in Hh by done.
  rewrite (proj2 (Z.ltb_lt 0 wait) Hw) in Hh.
  destruct (pl_try (pw_attempt c) (s_lock s)) as [[[[]|e] l]|]; simplify_eq/=; [right|left; eauto].
  pose proof (with_cleanup_unlocked (power_switch c action) (set_lock l s)) as Hu.
  by rewrite Hh in Hu.
Qed.

(** ** What a start requires *)

Lemma set_fs_fields fs s : s_fs (set_fs fs s) = fs ∧ s_suspended (set_fs fs s) = s_suspended s
  ∧ DiskSpace (set_fs fs s) = DiskSpace s.
Proof. done. Qed.

Lemma HasSpaceErr_within walked now fs fs' :
  HasSpaceErr false walked now fs = (Ok tt, fs') → fs_limit fs ≠ 0 → fs_diskCheckInterval fs ≠ 0 →
  fs_usage fs' ≤ fs_limit fs'.
Proof.
  unfold HasSpaceErr, HasSpaceAvailable, DiskUsage, refreshDiskUsage, walkDiskUsage.
  intros Hok Hl Hi. rewrite (proj2 (Z.eqb_neq _ _) Hi) in Hok.
  destruct (lookup_fresh now fs) eqn:Ef; simpl in Hok;
    unfold require, MaxDisk, Limit, fs_limit in *; simpl in Hok.
  - rewrite (proj2 (Z.eqb_neq _ _) Hl) in Hok.
    destruct (Z.leb_spec (fs_usage fs) (q_limit (fs_quota fs))); by simplify_eq.
  - rewrite (proj2 (Z.eqb_neq _ _) Hl) in Hok.
    match type of Hok with context [?u <=? ?l] => destruct (Z.leb_spec u l) end; by simplify_eq.
Qed.

Lemma HasSpaceErr_limit walked now fs :
  fs_limit (snd (HasSpaceErr false walked now fs)) = fs_limit fs
  ∧ fs_diskCheckInterval (snd (HasSpaceErr false walked now fs)) = fs_diskCheckInterval fs.
Proof.
  unfold HasSpaceErr, HasSpaceAvailable, DiskUsage, refreshDiskUsage, walkDiskUsage.
  destruct (_ =? 0); [done|]. by destruct (lookup_fresh now fs).
Qed.

(** What the preflight checks establish. *)
Definition bootable (s : server L) : Prop :=
  s_suspended s = false
  ∧ (0 < DiskSpace s → fs_limit (s_fs s) = DiskSpace s
      ∧ (fs_diskCheckInterval (s_fs s) ≠ 0 → fs_usage (s_fs s) ≤ fs_limit (s_fs s))).

Lemma preflight_ok c s s' : preflight c s = (Ok tt, s') → bootable s' ∧ s_env s' = s_env s.
Proof.
  unfold preflight, Sync. intros Hok.
  apply st_bind_Ok in Hok as ([] & s1 & Hsync & Hok).
  apply st_bind_Ok in Hsync as ([susp disk] & s0 & Hcfg & Hsync).
  unfold st_lift in Hcfg. simplify_eq.
  apply st_bind_Ok in Hsync as ([] & sa & Ha & Hsync). simplify_eq.
  apply st_bind_Ok in Hsync as ([] & sb & Hb & Hsync). simplify_eq.
  unfold st_lift in Hsync. simplify_eq.
  set (s1 := set_fs _ _) in Hok.
  apply st_bind_Ok in Hok as (b & sc & Hb & Hok). injection Hb as Eb <-.
  destruct b; [done|].
  apply st_bind_Ok in Hok as (d & sd & Hd & Hok). injection Hd as Ed <-.
  apply st_bind_Ok in Hok as ([] & se & He & Hok).
  assert (s' = se) as -> by (destruct (pf_chown c) as [[[]|]|]; by inversion Hok).
  change (DiskSpace s1 = d) in Ed. change (s_suspended s1 = false) in Eb.
  destruct (Z.leb_spec d 0) as [Hle|Hgt].
  - apply st_bind_Ok in He as (x & sf & Hf & He). injection He as <-.
    unfold on_fs in Hf. destruct (HasSpaceAvailable _ _ _ _). injection Hf as <- <-.
    split; [|done]. split; [done|]. change (0 < DiskSpace s1 → fs_limit f = DiskSpace s1
      ∧ (fs_diskCheckInterval f ≠ 0 → fs_usage f ≤ fs_limit f)). lia.
  - apply st_bind_Ok in He as (x & sf & Hf & He). unfold on_fs in Hf.
    destruct (HasSpaceErr false (pf_walk c) (pf_now c) (s_fs s1)) as [y fs'] eqn:Ehs. injection Hf as <- <-.
    pose proof (HasSpaceErr_limit (pf_walk c) (pf_now c) (s_fs s1)) as [Hlim Hint].
    rewrite Ehs in Hlim, Hint. simpl in Hlim, Hint.
    destruct y as [[]|]; [|done]. injection He as <-.
    split; [|done]. split; [done|]. intros _. split; [exact Hlim|].
    intros Hi. eapply HasSpaceErr_within; [exact Ehs| |].
    2: { change (fs_diskCheckInterval fs' ≠ 0) in Hi. by rewrite Hint in Hi. }
    change (DiskSpace s1 ≠ 0). lia.
Qed.

(** C20: a server is only started when it may run.  A start that succeeds found the
    environment offline, and after the configuration was synced the server was not
    suspended and, when it has a disk limit ([DiskSpace] above zero), its filesystem
    has that limit and its usage was within it, unless the check of the usage is turned
    off (a disk check interval of zero).  The start leaves the environment online and
    attached. *)
Theorem start_requires c wait s s' :
  HandlePowerAction c PowerActionStart wait s = Some (Ok tt, s') →
  IsInProtectedState s = false ∧ State (s_env s) = Offline ∧ bootable s'
  ∧ srv_IsRunning s' = true ∧ IsAttached (s_env s') = true.
Proof.
  unfold HandlePowerAction. destruct (protected_error s) as [|] eqn:Ep; [done|].
  rewrite decide_False by done. intros Hh.
  assert (IsInProtectedState s = false) as ->.
  { unfold protected_error, IsInProtectedState in *.
    by destruct (s_restoring s), (s_transferring s), (s_installing s). }
  destruct (if 0 <? wait then _ else _) as [[[[]|e] l]|]; simplify_eq/=.
  unfold with_cleanup in Hh. destruct (power_switch _ _ _) as [r s1] eqn:Esw. simplify_eq/=.
  unfold power_switch in Esw. rewrite decide_True in Esw by done.
  apply st_bind_Ok in Esw as (st & s2 & Hst & Esw). simplify_eq/=.
  case_decide as Hoff; [|done]. apply st_bind_Ok in Esw as ([] & s3 & Hpre & Esw).
  apply preflight_ok in Hpre as [Hboot Henv].
  unfold on_env in Esw. pose proof (Start_outcome (pw_start c) (s_env s3)) as Hs.
  destruct (Start (pw_start c) (s_env s3)) as [[[]|x] e']; simplify_eq/=.
  destruct Hs as [Hst Hatt]. split_and!; [done|done|exact Hboot| |done].
  unfold srv_IsRunning, State. simpl. apply bool_decide_eq_true. rewrite Hst.
  case_decide; auto.
Qed.

(** ** Following the environment's state *)

(** The listener handles state-change events one by one; [views] are the
    environments it sees when it handles each of them.  True: one of them started
    the crash handler. *)
Fixpoint deliver (views : list env) s : bool :=
  match views with
  | [] => false
  | e :: views' => let '(s', crash) := OnStateChange (set_env e s) in crash || deliver views' s'
  end.

Lemma deliver_crash_seen views s : deliver views s = crash_seen (s_tracked s) (e_st <$> views).
Proof.
  revert s. induction views as [|e views IH]; intros s; [done|].
  cbn [deliver]. unfold OnStateChange. simpl. rewrite IH. done.
Qed.

(** A failed start is hidden from crash detection only if its events are handled
    promptly.  The failure publishes starting, stopping, offline: a listener that
    sees each state as it was published never runs the crash handler, but the
    listener reads the environment's current state, and one that handles the last
    two events after both changes were made goes from starting to offline and runs
    it. *)
Theorem failed_start_race c e x e' :
  e_st e = Offline → sc_inspect c ≠ Ok true → Start c e = (Err x, e') → e' ≠ e →
  changed e e' [Starting; Stopping; Offline]
  ∧ ∀ s views, s_tracked s = Offline →
      (e_st <$> views = [Starting; Stopping; Offline] → deliver views s = false)
      ∧ (e_st <$> views = [Starting; Offline; Offline] → deliver views s = true).
Proof.
  intros Hoff Hi Hs Hne. split.
  - assert (boot c e = (Err x, e')) as Hb.
    { unfold Start, mbind, st_bind, st_lift, st_err in Hs.
      destruct (sc_begin c) as [[]|]; [|congruence].
      destruct (sc_inspect c) as [[]|y]; [done|..].
      - destruct (sc_log c) as [[[]|]|]; [done|congruence|done].
      - destruct (IsNotFound y); [done|congruence]. }
    unfold boot, saw_error, run, mbind, st_bind, st_lift in Hb. simpl in Hb.
    set (e1 := SetState Starting e) in Hb.
    assert (e_st e1 = Starting ∧ e_events e1 = e_events e ++ [Starting]) as [Est Eev].
    { unfold e1, SetState. by rewrite decide_False by congruence. }
    assert (∀ e2, e_st e2 = Starting → e_events e2 = e_events e ++ [Starting] →
      changed e (SetState Offline (SetState Stopping e2)) [Starting; Stopping; Offline]) as Hch.
    { intros e2 Es Ee. split; [|apply SetState_st].
      unfold SetState. rewrite (decide_False (P := e_st e2 = Stopping)) by congruence. simpl.
      by rewrite Ee, <-!app_assoc. }
    destruct (onBeforeStart_reply (sc_boot c)) as [r Hr]. rewrite Hr in Hb.
    destruct r as [[]|y]; [|simplify_eq; by apply Hch].
    pose proof (attach_outcome (sc_attach c) e1) as Ha.
    destruct (attach (sc_attach c) e1) as [[[]|y] e2]; subst e2; [|simplify_eq; by apply Hch].
    destruct (sc_start c) as [[]|y]; [|simplify_eq; by apply Hch].
    destruct (sc_finish c) as [[]|y]; simplify_eq. by apply Hch.
  - intros s views Ht. rewrite deliver_crash_seen, Ht. split; intros ->; done.
Qed.

(** ** Crash detection *)

Lemma start_lastCrash c s r s' :
  HandlePowerAction c PowerActionStart 0 s = Some (r, s') → s_lastCrash s' = s_lastCrash s.
Proof.
  unfold HandlePowerAction. destruct (protected_error s); [naive_solver|].
  rewrite decide_False by done. simpl.
  destruct (pl_acquire (s_lock s)) as [[[]|e] l]; intros [= Hh]; [|by simplify_eq].
  unfold with_cleanup in Hh. pose proof (keeps_switch s_lastCrash c PowerActionStart apart_lastCrash
    (set_lock l s)) as Hk. destruct (power_switch _ _ _) as [r1 s1]. by simplify_eq/=.
Qed.

(** A history of crash handlings: the times, and whether each restarted the server.
    Between two of them the server may change in any way, its last crash apart. *)
Inductive crash_history (cf : crash_config) : option Z → list (Z * bool) → Prop :=
| ch_nil last : crash_history cf last []
| ch_cons last now inspect c s r s' b rest :
    s_lastCrash s = last →
    handleServerCrash cf inspect now c s = (Some (r, s'), b) →
    crash_history cf (s_lastCrash s') rest →
    crash_history cf last ((now, b) :: rest).

Definition restarts (l : list (Z * bool)) : list Z := (filter (λ p, snd p = true) l).*1.

Lemma handleServerCrash_restarts cf inspect now c s r s' :
  handleServerCrash cf inspect now c s = (Some (r, s'), true) →
  too_soon cf now (s_lastCrash s) = false ∧ s_lastCrash s' = Some now.
Proof.
  unfold handleServerCrash. repeat case_match; try congruence. intros [= Hh].
  split; [done|]. by apply start_lastCrash in Hh.
Qed.

Lemma handleServerCrash_keeps cf inspect now c s r s' :
  handleServerCrash cf inspect now c s = (Some (r, s'), false) → s_lastCrash s' = s_lastCrash s.
Proof. unfold handleServerCrash. repeat case_match; intros Hh; by simplify_eq/=. Qed.

Lemma restarts_bounded cf last l :
  0 < cf_timeout cf → second * cf_timeout cf ≤ int64_max → crash_history cf last l →
  StronglySorted (λ t u, t + second * cf_timeout cf ≤ u) (restarts l)
  ∧ ∀ t u, last = Some t → u ∈ restarts l → t + second * cf_timeout cf ≤ u.
Proof.
  intros Ht Hmax Hl. assert (0 < second) by (unfold second; lia).
  assert (wrap64 (second * cf_timeout cf) = second * cf_timeout cf) as Ew.
  { apply wrap64_id. split; [unfold int64_min; lia|done]. }
  induction Hl as [|last now inspect c s r s' b rest Hlast Hh Hrest [IH1 IH2]].
  { split; [constructor|]. intros t u _ Hu. by apply elem_of_nil in Hu. }
  unfold restarts in *. destruct b.
  - rewrite filter_cons_True by done. cbn [fmap list_fmap fst].
    apply handleServerCrash_restarts in Hh as [Hsoon Hlc]. rewrite Hlast in Hsoon.
    assert (∀ t, last = Some t → t + second * cf_timeout cf ≤ now) as Hnow.
    { intros t ->. unfold too_soon in Hsoon. rewrite Ew in Hsoon.
      rewrite (proj2 (Z.eqb_neq (cf_timeout cf) 0)) in Hsoon by lia. simpl in Hsoon. lia. }
    split.
    + constructor; [done|]. apply list.Forall_forall. intros u Hu. by apply IH2.
    + intros t u Hsome [->|Hu]%elem_of_cons; [by apply Hnow|].
      specialize (Hnow t Hsome). specialize (IH2 now u Hlc Hu). lia.
  - rewrite filter_cons_False by done. apply handleServerCrash_keeps in Hh.
    split; [done|]. intros t u Hsome. apply IH2. congruence.
Qed.

(** A crashing server is not restarted in a tight loop.  With a positive timeout,
    whatever happens between the crashes, two automatic restarts are at least the
    timeout apart. *)
Theorem crash_restarts_spaced cf last l :
  0 < cf_timeout cf → second * cf_timeout cf ≤ int64_max → crash_history cf last l →
  StronglySorted (λ t u, t + second * cf_timeout cf ≤ u) (restarts l).
Proof. intros Ht Hm Hl. by apply (restarts_bounded cf last l). Qed.

(** Killing a server whose container has disappeared restarts it.  The
    termination succeeds and marks the server offline, the state listener takes this
    for a crash, the missing container's exit state is "exit code 1", and (with crash
    detection on and no recent crash) the crash handler starts the server that was
    just killed. *)
Theorem kill_missing_restarts cf c c2 now s s1 :
  srv_IsRunning s = true → s_tracked s = State (s_env s) → gc_inspect (pw_kill c) = Err NotFound →
  s_crashDetection s = true → too_soon cf now (s_lastCrash s) = false →
  HandlePowerAction c PowerActionTerminate 0 s = Some (Ok tt, s1) →
  State (s_env s1) = Offline ∧ snd (OnStateChange s1) = true
  ∧ handleServerCrash cf (Err NotFound) now c2 (fst (OnStateChange s1))
    = (HandlePowerAction c2 PowerActionStart 0 (SetLastCrash now (fst (OnStateChange s1))), true).
Proof.
  intros Hrun Htr Hc Hcd Hsoon Hh.
  assert (∃ l, s1 = set_lock l (set_env (SetState Offline (s_env s)) s)) as [l ->].
  { unfold HandlePowerAction in Hh. destruct (protected_error s); [done|].
    rewrite decide_True in Hh by done. injection Hh as Hh.
    assert (∀ l, power_switch c PowerActionTerminate (set_lock l s)
      = (Ok tt, set_env (SetState Offline (s_env s)) (set_lock l s))) as Hsw.
    { intros l. change (power_switch c PowerActionTerminate) with (on_env (L := L) (Terminate (pw_kill c))).
      unfold on_env. simpl. by rewrite Terminate_missing. }
    destruct (pl_acquire (s_lock s)) as [[[]|[]] l]; [|rewrite Hsw in Hh|done].
    - unfold with_cleanup in Hh. rewrite Hsw in Hh. simplify_eq. by eexists.
    - simplify_eq. by eexists. }
  unfold State in *. simpl. rewrite SetState_st. split; [done|].
  apply bool_decide_eq_true in Hrun. unfold State in Hrun.
  split.
  - unfold OnStateChange, State. simpl. rewrite SetState_st, Htr.
    rewrite bool_decide_true by tauto. by rewrite bool_decide_true.
  - unfold handleServerCrash, State. simpl. rewrite SetState_st, decide_True by done.
    rewrite Hcd. simpl. unfold LastCrashTime. simpl. by rewrite Hsoon.
Qed.
End Facts.

(** ** Witnesses *)

Definition ex_kill : signal_calls := mkSignalCalls (Err NotFound) (Ok tt).
Definition ex_start : start_calls :=
  mkStartCalls (Ok tt) (Err NotFound) (Ok tt) None (mkBootCalls (Err NotFound) (Ok tt)) (Ok tt)
    (Ok tt) (Ok tt).
Definition ex_start_fails : start_calls :=
  mkStartCalls (Ok tt) (Err NotFound) (Ok tt) None (mkBootCalls (Err NotFound) (Err (Failed 3)))
    (Ok tt) (Ok tt) (Ok tt).
Definition ex_calls (case : try_case) : power_calls (L := Locker) :=
  mkPowerCalls (L := Locker) (case, id)
    (mkPreflightCalls (mkSyncCalls (Ok (false, 1)) (Ok tt)) (2000, Ok tt) 0 None)
    ex_start (mkWaitCalls (mkStopCalls ex_kill (Ok tt) (Ok tt)) WaitOk ex_kill) ex_kill.
Definition ex_server (l : Locker) (p : pstate) : server Locker :=
  mkServer l (set_st p [] (New (mkStop StopUnset ""))) (mkFs (mkQuota 0 0) 0 false 0 0 false 60)
    false false false false 0 true None p.

Lemma power_lock_balanced_witness :
  let s := ex_server (mkLocker true false) Running in
  (∃ r s', HandlePowerAction (ex_calls CaseSend) PowerActionStop 0 s = Some (r, s')
    ∧ is_ok r = false ∧ s' = set_lock (s_lock s) s)
  ∧ ∃ r s', HandlePowerAction (ex_calls CaseSend) PowerActionTerminate 0 s = Some (r, s')
    ∧ pl_locked (s_lock s') = true ∧ s_env s' = snd (Terminate ex_kill (s_env s)).
Proof.
  intros s. split.
  - destruct (power_lock_balanced (ex_calls CaseSend) PowerActionStop 0 s (Z.le_refl 0))
      as (r & s' & Hh & _ & Hr & _). exists r, s'. split; [exact Hh|]. apply Hr; [reflexivity|discriminate].
  - destruct (power_lock_balanced (ex_calls CaseSend) PowerActionTerminate 0 s (Z.le_refl 0))
      as (r & s' & Hh & Hl & _ & Hk). exists r, s'. split; [exact Hh|]. split; [exact Hl|].
    apply Hk; [reflexivity|reflexivity|discriminate].
Defined.

Lemma power_wait_releases_witness :
  let s := ex_server NewLocker Offline in
  ∃ s', HandlePowerAction (ex_calls CaseSend) PowerActionStart 30 s = Some (Ok tt, s')
    ∧ ((∃ e, Ok tt = Err (ErrLock e) ∧ s' = set_lock (s_lock s') s)
       ∨ pl_locked (s_lock s') = false).
Proof.
  intros s. eexists. split; [vm_compute; reflexivity|].
  apply (power_wait_releases (ex_calls CaseSend) PowerActionStart 30 s (Ok tt));
    [lia|discriminate|reflexivity|reflexivity].
Defined.

Lemma start_requires_witness :
  let s := ex_server NewLocker Offline in
  ∃ s', HandlePowerAction (ex_calls CaseSend) PowerActionStart 0 s = Some (Ok tt, s')
    ∧ bootable s' ∧ srv_IsRunning s' = true.
Proof.
  intros s. eexists. split; [vm_compute; reflexivity|].
  destruct (start_requires (ex_calls CaseSend) 0 s _ ltac:(vm_compute; reflexivity))
    as (_ & _ & Hb & Hr & _).
  split; [exact Hb|exact Hr].
Defined.

Lemma failed_start_race_witness :
  let s := ex_server NewLocker Offline in
  let view p := set_st p [] (s_env s) in
  fst (Start ex_start_fails (s_env s)) = Err (Failed 3)
  ∧ deliver [view Starting; view Stopping; view Offline] s = false
  ∧ deliver [view Starting; view Offline; view Offline] s = true.
Proof.
  intros s view. split; [reflexivity|].
  destruct (failed_start_race (L := Locker) ex_start_fails (s_env s) (Failed 3)
    (snd (Start ex_start_fails (s_env s)))) as [_ H];
    [reflexivity|discriminate|reflexivity|discriminate|].
  split; [apply (H s)|apply (H s)]; reflexivity.
Defined.

Lemma crash_restarts_spaced_witness :
  let cf := mkCrashConfig false 60 in
  crash_history (L := Locker) cf None [(100 * second, true); (130 * second, false); (170 * second, true)]
  ∧ StronglySorted (λ t u, t + second * 60 ≤ u) [100 * second; 170 * second].
Proof.
  intros cf.
  pose (s0 := ex_server NewLocker Offline).
  pose (s1 := SetLastCrash (100 * second) s0).
  assert (crash_history (L := Locker) cf None
    [(100 * second, true); (130 * second, false); (170 * second, true)]) as Hh.
  { eapply (ch_cons cf None _ (Err NotFound) (ex_calls CaseSend) s0);
      [reflexivity|vm_compute; reflexivity|].
    eapply (ch_cons cf _ _ (Err NotFound) (ex_calls CaseSend) s1);
      [reflexivity|vm_compute; reflexivity|].
    eapply (ch_cons cf _ _ (Err NotFound) (ex_calls CaseSend) s1);
      [reflexivity|vm_compute; reflexivity|]. constructor. }
  split; [exact Hh|].
  apply (crash_restarts_spaced cf None _ ltac:(simpl; lia) ltac:(vm_compute; congruence) Hh).
Defined.

Lemma kill_missing_restarts_witness :
  let s := ex_server NewLocker Running in
  ∃ s1, HandlePowerAction (ex_calls CaseSend) PowerActionTerminate 0 s = Some (Ok tt, s1)
    ∧ snd (OnStateChange s1) = true
    ∧ snd (handleServerCrash (mkCrashConfig false 60) (Err NotFound) 5 (ex_calls CaseSend)
             (fst (OnStateChange s1))) = true.
Proof.
  intros s. eexists. split; [vm_compute; reflexivity|].
  edestruct (kill_missing_restarts (mkCrashConfig false 60) (ex_calls CaseSend) (ex_calls CaseSend) 5 s)
    as (_ & H1 & H2); [reflexivity..|].
  split; [exact H1|]. exact (f_equal snd H2).
Defined.
