(* ===== verification/Paths.v ===== *)
(** * File paths from requests (router/betterfiles_paths.go, the archive handling of
    router/router_server_archive_nbt.go, server/filesystem/path.go)

    Turning the paths a client sends, and the entry names of an archive, into
    canonical server paths. *)

From stdpp Require Import base list strings numbers.
From Stdlib Require Import Ascii.
From S2P Require Import Prelude GoStrings.
Open Scope Z_scope.

Definition betterFilesMaxPathLength : Z := 4096.
Definition betterFilesMaxNameLength : Z := 255.
Definition nul_byte : ascii := ascii_of_N 0.

Inductive patherr := errBetterFilesInvalidPath | ErrDenylisted.

Definition validBetterFilesPathText (value : string) : bool :=
  negb (bool_decide (value = EmptyString))
  && (strlen value <=? betterFilesMaxPathLength)
  && ValidUTF8 value
  && negb (contains_byte nul_byte value).

Definition valid_component (component : string) : bool :=
  bool_decide (component = EmptyString)
  || negb (bool_decide (component = "."%string) || bool_decide (component = ".."%string)
           || (betterFilesMaxNameLength <? strlen component)).

Definition validBetterFilesComponents (value : string) : bool :=
  forallb valid_component (Split slash (Trim slash value)).

Definition hasParentPathComponent (value : string) : bool :=
  existsb (λ c, bool_decide (c = ".."%string)) (Split slash value).

Definition normalizeBetterFilesRoot (value : string) : result patherr string :=
  if bool_decide (value = EmptyString) then Ok "/"%string
  else if negb (validBetterFilesPathText value) then Err errBetterFilesInvalidPath
  else if contains_byte backslash value || hasParentPathComponent value
  then Err errBetterFilesInvalidPath
  else
    let cleaned := Clean (String slash (TrimLeft slash value)) in
    let cleaned := if bool_decide (cleaned = "."%string) then "/"%string else cleaned in
    if negb (HasPrefix cleaned "/") || (betterFilesMaxPathLength <? strlen cleaned)
    then Err errBetterFilesInvalidPath
    else if negb (validBetterFilesComponents cleaned) then Err errBetterFilesInvalidPath
    else Ok cleaned.

Definition joinBetterFilesPath (root value : string) : result patherr string :=
  if bool_decide (value = EmptyString) || IsAbs value || negb (validBetterFilesPathText value)
  then Err errBetterFilesInvalidPath
  else if contains_byte backslash value || hasParentPathComponent value
  then Err errBetterFilesInvalidPath
  else
    let relative := Clean value in
    if bool_decide (relative = "."%string) || bool_decide (relative = "/"%string)
       || HasPrefix relative "../"
    then Err errBetterFilesInvalidPath
    else if negb (validBetterFilesComponents relative) then Err errBetterFilesInvalidPath
    else
      let joined := path_Join root relative in
      if bool_decide (joined = root) || bool_decide (joined = "/"%string)
         || (betterFilesMaxPathLength <? strlen joined)
      then Err errBetterFilesInvalidPath
      else if negb (bool_decide (root = "/"%string)) && negb (HasPrefix joined (root +:+ "/"))
      then Err errBetterFilesInvalidPath
      else Ok joined.

Definition normalizeBetterFilesUploadPath (directory filename : string)
    : result patherr (string * string) :=
  root ← normalizeBetterFilesRoot directory;
  if bool_decide (filename = EmptyString) || bool_decide (filename = "."%string)
     || bool_decide (filename = ".."%string) || negb (validBetterFilesPathText filename)
  then Err errBetterFilesInvalidPath
  else if contains_byte slash filename || contains_byte backslash filename
          || (betterFilesMaxNameLength <? strlen filename)
  then Err errBetterFilesInvalidPath
  else
    target ← joinBetterFilesPath root filename;
    Ok (root, target).

(** ** The deny list *)

Section DenyList.
(** The server's compiled ignore patterns (go-gitignore's [MatchesPath]). *)
Variable matches : string → bool.

Definition is_ignored1 (p : string) : bool :=
  let cleaned := Clean (String slash p) in
  matches (if HasSuffix p "/" && negb (bool_decide (cleaned = "/"%string))
           then cleaned +:+ "/" else cleaned).

Definition IsIgnored (paths : list string) : result patherr unit :=
  require (negb (existsb is_ignored1 paths)) ErrDenylisted.

(** The loop over the prefixes of a path, shortest first. *)
Fixpoint allowed_prefixes (done rest : list string) : result patherr unit :=
  match rest with
  | [] => Ok tt
  | p :: rest' =>
      let relative := Join slash (done ++ [p]) in
      _ ← IsIgnored [relative; String slash relative];
      allowed_prefixes (done ++ [p]) rest'
  end.

Fixpoint ensureBetterFilesAllowed (paths : list string) : result patherr unit :=
  match paths with
  | [] => Ok tt
  | value :: paths' =>
      cleaned ← normalizeBetterFilesRoot value;
      _ ← (if bool_decide (cleaned = "/"%string) then Ok tt
           else allowed_prefixes [] (Split slash (TrimPrefix slash cleaned)));
      ensureBetterFilesAllowed paths'
  end.
End DenyList.

(** ** Archives *)

Definition betterFilesArchiveMaxExtract : Z := 2000.

Definition betterFilesIsZipFile `{UnicodeTables} (value : string) : bool :=
  let ext := ToLower (Ext value) in
  bool_decide (ext = ".zip"%string) || bool_decide (ext = ".jar"%string)
  || bool_decide (ext = ".war"%string).

Definition betterFilesIsTarFile `{UnicodeTables} (value : string) : bool :=
  let lower := ToLower value in
  HasSuffix lower ".tar" || HasSuffix lower ".tar.gz" || HasSuffix lower ".tgz".

Definition betterFilesIsArchiveFile `{UnicodeTables} (value : string) : bool :=
  betterFilesIsZipFile value || betterFilesIsTarFile value.

Definition betterFilesCleanServerPath `{UnicodeTables} (raw : string) (allowRoot : bool)
    : option string :=
  let cleaned := TrimSpace (replace_byte backslash slash raw) in
  if bool_decide (cleaned = EmptyString) || contains_byte nul_byte cleaned
     || negb (ValidUTF8 cleaned) || (4096 <? strlen cleaned)
  then None
  else
    let cleaned := if HasPrefix cleaned "/" then cleaned else String slash cleaned in
    if hasParentPathComponent cleaned then None
    else
      let displayPath := Clean cleaned in
      if bool_decide (displayPath = "."%string)
         || (negb allowRoot && bool_decide (displayPath = "/"%string))
         || negb (HasPrefix displayPath "/")
      then None
      else Some displayPath.

Definition betterFilesCleanArchiveEntryPath (value : string) : option string :=
  let entryPath := TrimPrefix slash (Clean (replace_byte backslash slash value)) in
  if bool_decide (entryPath = "."%string) || bool_decide (entryPath = EmptyString)
     || HasPrefix entryPath "../" || Contains entryPath "/../"
  then None
  else Some entryPath.

Definition betterFilesArchiveEntryDirectory (entryPath : string) : string :=
  let directory := path_Dir entryPath in
  if bool_decide (directory = "."%string) then "/" else String slash directory.

Record selection := mkSelection { sel_Path : string; sel_IsDirectory : bool }.

(** [seen] holds the keys of the selections kept so far. *)
Fixpoint clean_selections (entries : list selection) (seen : list string)
    : option (list selection) :=
  match entries with
  | [] => Some []
  | entry :: entries' =>
      cleaned ← betterFilesCleanArchiveEntryPath (sel_Path entry);
      let key := if sel_IsDirectory entry then cleaned +:+ "/" else cleaned in
      if bool_decide (key ∈ seen) then clean_selections entries' seen
      else
        rest ← clean_selections entries' (key :: seen);
        Some (mkSelection cleaned (sel_IsDirectory entry) :: rest)
  end.
Definition betterFilesCleanArchiveSelections (entries : list selection) : option (list selection) :=
  clean_selections entries [].

Definition betterFilesArchiveSelectionMatches (entryPath : string) (selections : list selection)
    : bool :=
  existsb (λ s,
    if sel_IsDirectory s
    then bool_decide (entryPath = sel_Path s) || HasPrefix entryPath (sel_Path s +:+ "/")
    else bool_decide (entryPath = sel_Path s)) selections.

Definition betterFilesExtractOutputPath (destination entryPath : string) : string :=
  Clean (path_Join destination entryPath).

(** What is done to the filesystem. *)
Inductive fs_action :=
| CreateDirectory (base dir : string)
| WriteFile (path : string) (size : Z).

Inductive archive_error := ErrArchiveRead | ErrEntryTooLarge | ErrTooManyFiles | ErrNoMatch
| ErrFilesystem.

(** One archive entry, with the outcome of opening it and of the filesystem call it
    leads to. *)
Record archive_entry := mkEntry {
  ae_name : string;
  ae_dir : bool;
  ae_regular : bool;            (* tar: the type flag is a regular file *)
  ae_size : Z;
  ae_open : bool;               (* zip: the entry can be opened *)
  ae_done : bool;               (* the filesystem call succeeds *)
}.

(** [betterFilesExtractZipEntries]: the loop; the actions done so far are kept when it
    fails. *)
Fixpoint extract_zip (destination : string) (selections : list selection)
    (entries : list archive_entry) (extracted : Z)
    : list fs_action * (Z * result archive_error unit) :=
  match entries with
  | [] => ([], (extracted, if extracted =? 0 then Err ErrNoMatch else Ok tt))
  | e :: entries' =>
      match betterFilesCleanArchiveEntryPath (ae_name e) with
      | None => extract_zip destination selections entries' extracted
      | Some normalized =>
          if negb (betterFilesArchiveSelectionMatches normalized selections)
          then extract_zip destination selections entries' extracted
          else
            let out := betterFilesExtractOutputPath destination normalized in
            if ae_dir e then
              let act := CreateDirectory (path_Base out) (path_Dir out) in
              if ae_done e then
                let '(acts, r) := extract_zip destination selections entries' extracted in
                (act :: acts, r)
              else ([act], (extracted, Err ErrFilesystem))
            else if negb (ae_open e) then ([], (extracted, Err ErrArchiveRead))
            else if int64_max <? ae_size e then ([], (extracted, Err ErrEntryTooLarge))
            else
              let act := WriteFile out (ae_size e) in
              if negb (ae_done e) then ([act], (extracted, Err ErrFilesystem))
              else if betterFilesArchiveMaxExtract <? extracted + 1
              then ([act], (extracted + 1, Err ErrTooManyFiles))
              else
                let '(acts, r) := extract_zip destination selections entries' (extracted + 1) in
                (act :: acts, r)
      end
  end.

(** [betterFilesExtractTarEntries]: [truncated] when reading the next header fails
    after the entries. *)
Fixpoint extract_tar (destination : string) (selections : list selection)
    (entries : list archive_entry) (truncated : bool) (extracted : Z)
    : list fs_action * (Z * result archive_error unit) :=
  match entries with
  | [] => ([], (extracted, if truncated then Err ErrArchiveRead
                           else if extracted =? 0 then Err ErrNoMatch else Ok tt))
  | e :: entries' =>
      match betterFilesCleanArchiveEntryPath (ae_name e) with
      | None => extract_tar destination selections entries' truncated extracted
      | Some normalized =>
          if negb (betterFilesArchiveSelectionMatches normalized selections)
          then extract_tar destination selections entries' truncated extracted
          else
            let out := betterFilesExtractOutputPath destination normalized in
            if ae_dir e then
              let act := CreateDirectory (path_Base out) (path_Dir out) in
              if ae_done e then
                let '(acts, r) := extract_tar destination selections entries' truncated extracted in
                (act :: acts, r)
              else ([act], (extracted, Err ErrFilesystem))
            else if negb (ae_regular e)
            then extract_tar destination selections entries' truncated extracted
            else
              let act := WriteFile out (ae_size e) in
              if negb (ae_done e) then ([act], (extracted, Err ErrFilesystem))
              else if betterFilesArchiveMaxExtract <? extracted + 1
              then ([act], (extracted + 1, Err ErrTooManyFiles))
              else
                let '(acts, r) := extract_tar destination selections entries' truncated (extracted + 1) in
                (act :: acts, r)
      end
  end.
