(* ===== verification/PathsFacts.v ===== *)
(** * Correctness of request paths and archive extraction

    Splitting, joining and cleaning paths; the paths the handlers accept; where
    extraction writes. *)

From stdpp Require Import base sets list strings numbers.
From Stdlib Require Import Ascii.
From S2P Require Import Prelude GoStrings Paths.
Open Scope Z_scope.

(** ** Splitting and joining *)

(** A string without a slash. *)
Definition no_sep (w : string) : Prop := contains_byte slash w = false.

Lemma Split_not_nil s : Split slash s ≠ [].
Proof. destruct s as [|x s]; simpl; [done|]. repeat case_match; done. Qed.

Lemma Split_no_sep s : Forall no_sep (Split slash s).
Proof.
  induction s as [|x s IH]; simpl; [by repeat constructor|].
  destruct (Ascii.eqb x slash) eqn:E; [by constructor|].
  pose proof (Split_not_nil s). destruct (Split slash s) as [|w ws]; [done|].
  apply list.Forall_cons in IH as [Hw Hws]. constructor; [|done].
  unfold no_sep in *. simpl. by rewrite E.
Qed.

Lemma Split_app a b : Split slash (a +:+ String slash b) = Split slash a ++ Split slash b.
Proof.
  induction a as [|x a IH]; simpl; [done|].
  destruct (Ascii.eqb x slash); [by rewrite IH|].
  rewrite IH. pose proof (Split_not_nil a). by destruct (Split slash a).
Qed.

Lemma Split_word w : no_sep w → Split slash w = [w].
Proof.
  induction w as [|x w IH]; [done|]. unfold no_sep. simpl.
  intros [Hx Hw]%orb_false_iff. by rewrite Hx, IH.
Qed.

Lemma Split_Join ws : ws ≠ [] → Forall no_sep ws → Split slash (Join slash ws) = ws.
Proof.
  induction ws as [|w ws IH]; intros Hne Hws; [done|]. apply list.Forall_cons in Hws as [Hw Hws].
  destruct ws as [|v ws]; [by apply Split_word|].
  change (Join slash (w :: v :: ws)) with (w +:+ String slash (Join slash (v :: ws))).
  rewrite Split_app, Split_word, IH by done. done.
Qed.

Lemma app_str_assoc (a b c : string) : (a +:+ b) +:+ c = a +:+ (b +:+ c).
Proof. induction a as [|x a IH]; [done|]. exact (f_equal (String x) IH). Qed.

Lemma Join_app ws vs : ws ≠ [] → vs ≠ [] →
  Join slash (ws ++ vs) = Join slash ws +:+ String slash (Join slash vs).
Proof.
  intros Hw Hv. induction ws as [|w ws IH]; [done|]. destruct ws as [|w' ws].
  - destruct vs as [|v vs]; done.
  - change (Join slash ((w :: w' :: ws) ++ vs))
      with (w +:+ String slash (Join slash ((w' :: ws) ++ vs))).
    rewrite IH by done. change (Join slash (w :: w' :: ws))
      with (w +:+ String slash (Join slash (w' :: ws))).
    by rewrite app_str_assoc.
Qed.

(** Any property of a string that splits at slashes holds of a joined list when it
    holds of the parts. *)
Lemma Join_Forall (P : string → Prop) ws :
  P EmptyString → (∀ a b, P (a +:+ String slash b) ↔ P a ∧ P b) →
  P (Join slash ws) ↔ Forall P ws.
Proof.
  intros H0 Happ. induction ws as [|w ws IH]; [by split|]. destruct ws as [|v ws].
  - simpl. rewrite Forall_singleton. done.
  - change (Join slash (w :: v :: ws)) with (w +:+ String slash (Join slash (v :: ws))).
    rewrite Happ, IH. by rewrite (list.Forall_cons _ w).
Qed.

Lemma Join_Split s : Join slash (Split slash s) = s.
Proof.
  induction s as [|x s IH]; [done|]. simpl. pose proof (Split_not_nil s) as Hne.
  destruct (Ascii.eqb x slash) eqn:E.
  - apply Ascii.eqb_eq in E as ->. destruct (Split slash s) as [|w ws]; [done|].
    change (Join slash ("" :: w :: ws)) with (String slash (Join slash (w :: ws))). by rewrite IH.
  - destruct (Split slash s) as [|w [|v ws]]; [done|exact (f_equal (String x) IH)..].
Qed.

Lemma Split_Forall (P : string → Prop) s :
  P EmptyString → (∀ a b, P (a +:+ String slash b) ↔ P a ∧ P b) → P s → Forall P (Split slash s).
Proof. intros H0 Happ Hs. apply (Join_Forall P); [done..|]. by rewrite Join_Split. Qed.

(** The properties that split at slashes. *)
Lemma contains_byte_app c a b : c ≠ slash →
  contains_byte c (a +:+ String slash b) = contains_byte c a || contains_byte c b.
Proof.
  intros Hc. induction a as [|x a IH].
  - change (contains_byte c (String slash b) = contains_byte c b). cbn [contains_byte].
    destruct (Ascii.eqb slash c) eqn:E; [|done]. apply Ascii.eqb_eq in E. congruence.
  - change (String x a +:+ String slash b) with (String x (a +:+ String slash b)).
    cbn [contains_byte]. by rewrite IH, orb_assoc.
Qed.

Lemma cont_ascii lo hi : 128 ≤ lo → cont lo hi slash = false.
Proof. intros H. unfold cont. change (byteZ slash) with 47. rewrite (proj2 (Z.leb_gt lo 47)) by lia. done. Qed.

Lemma ValidUTF8_app a b : ValidUTF8 (a +:+ String slash b) = ValidUTF8 a && ValidUTF8 b.
Proof.
  remember (String.length a) as n eqn:En. revert a En.
  induction n as [n IH] using lt_wf_ind. intros a ->.
  assert (∀ a', (String.length a' < String.length a)%nat →
    ValidUTF8 (a' +:+ String slash b) = ValidUTF8 a' && ValidUTF8 b) as IH'
    by (intros a' Ha'; by eapply IH). clear IH.
  destruct a as [|c0 a]; [done|].
  change (String c0 a +:+ String slash b) with (String c0 (a +:+ String slash b)).
  cbn [ValidUTF8]. destruct (byteZ c0 <? 128); [apply IH'; simpl; lia|].
  destruct a as [|c1 a].
  { change (EmptyString +:+ String slash b) with (String slash b). cbv iota.
    rewrite !cont_ascii by (repeat case_match; lia). rewrite ?andb_false_r. simpl.
    repeat case_match; done. }
  change (String c1 a +:+ String slash b) with (String c1 (a +:+ String slash b)). cbv iota.
  destruct ((194 <=? byteZ c0) && (byteZ c0 <=? 223)).
  { rewrite IH' by (simpl; lia). by rewrite andb_assoc. }
  destruct a as [|c2 a].
  { change (EmptyString +:+ String slash b) with (String slash b). cbv iota.
    rewrite !(cont_ascii 128) by lia. rewrite ?andb_false_r. simpl.
    repeat case_match; rewrite ?andb_false_r; done. }
  change (String c2 a +:+ String slash b) with (String c2 (a +:+ String slash b)). cbv iota.
  destruct ((224 <=? byteZ c0) && (byteZ c0 <=? 239)).
  { rewrite IH' by (simpl; lia). by rewrite !andb_assoc. }
  destruct a as [|c3 a].
  { change (EmptyString +:+ String slash b) with (String slash b). cbv iota.
    rewrite !(cont_ascii 128) by lia. rewrite ?andb_false_r. done. }
  change (String c3 a +:+ String slash b) with (String c3 (a +:+ String slash b)). cbv iota.
  rewrite IH' by (simpl; lia). by rewrite !andb_assoc.
Qed.

(** ** Cleaning *)

(** An element that cleaning keeps. *)
Definition plain (w : string) : Prop := w ≠ EmptyString ∧ w ≠ "."%string ∧ w ≠ ".."%string ∧ no_sep w.

Definition kept (w : string) : Prop := w ≠ EmptyString ∧ w ≠ "."%string.
#[global] Instance kept_dec w : Decision (kept w).
Proof. unfold kept. apply _. Defined.

(** The rooted path with the given elements. *)
Definition abs (ws : list string) : string := String slash (Join slash ws).

Definition dots (n : nat) : list string := replicate n ".."%string.

(** Cleaning leaves plain elements, after some leading ".." when not rooted. *)
Lemma clean_push_shape rooted ps n e :
  Forall plain ps → no_sep e → (rooted = true → n = 0%nat) →
  ∃ ps' n', clean_push rooted (ps ++ dots n) e = ps' ++ dots n' ∧ Forall plain ps'
    ∧ (rooted = true → n' = 0%nat).
Proof.
  intros Hps He Hr. unfold clean_push.
  destruct (decide (e = EmptyString)) as [|H1]; [exists ps, n; by rewrite bool_decide_true|].
  rewrite (bool_decide_false (e = EmptyString)) by done.
  destruct (decide (e = "."%string)) as [|H2]; [exists ps, n; by rewrite bool_decide_true|].
  rewrite (bool_decide_false (e = "."%string)) by done. simpl.
  case_bool_decide as H3.
  - subst e. destruct ps as [|p ps].
    + destruct n as [|n]; simpl.
      * destruct rooted; [by exists [], 0%nat|by exists [], 1%nat].
      * exists [], (S (S n)). split; [done|]. split; [done|]. intros E. by specialize (Hr E).
    + apply list.Forall_cons in Hps as [Hp Hps]. simpl.
      rewrite bool_decide_false by apply Hp. by exists ps, n.
  - exists (e :: ps), n. split; [done|]. split; [|done]. constructor; [|done]. done.
Qed.

Lemma clean_stack_shape rooted es :
  Forall no_sep es →
  ∃ ps n, clean_stack rooted es = ps ++ dots n ∧ Forall plain ps ∧ (rooted = true → n = 0%nat).
Proof.
  intros Hes. unfold clean_stack.
  cut (∀ ps n, Forall plain ps → (rooted = true → n = 0%nat) →
    ∃ ps' n', foldl (clean_push rooted) (ps ++ dots n) es = ps' ++ dots n' ∧ Forall plain ps'
      ∧ (rooted = true → n' = 0%nat)).
  { intros H. by apply (H [] 0%nat). }
  induction Hes as [|e es He Hes IH]; intros ps n Hps Hn; [by exists ps, n|].
  simpl. destruct (clean_push_shape rooted ps n e Hps He Hn) as (ps' & n' & -> & Hps' & Hn').
  by apply IH.
Qed.

(** Without ".." elements, cleaning drops the empty and "." ones. *)
Lemma clean_stack_no_parent rooted es :
  ".."%string ∉ es → rev (clean_stack rooted es) = filter kept es.
Proof.
  intros Hes. unfold clean_stack.
  cut (∀ st, rev (foldl (clean_push rooted) st es) = rev st ++ filter kept es).
  { intros H. by rewrite H. }
  induction es as [|e es IH]; intros st; simpl; [by rewrite app_nil_r|].
  rewrite IH by set_solver. rewrite filter_cons. unfold clean_push.
  destruct (decide (kept e)) as [[H1 H2]|H].
  - rewrite !bool_decide_false by (done || set_solver). simpl. by rewrite <-app_assoc.
  - destruct (decide (e = EmptyString)); [by rewrite bool_decide_true|].
    destruct (decide (e = "."%string)); [|by destruct H].
    by rewrite (bool_decide_true (e = "."%string)), orb_true_r.
Qed.

Lemma is_rooted_cons s : is_rooted (String slash s) = true.
Proof. by destruct s. Qed.

Lemma is_rooted_inv p : is_rooted p = true → ∃ s, p = String slash s.
Proof.
  unfold is_rooted, HasPrefix. destruct p as [|x p]; [done|]. simpl.
  case_match; [subst x|done]. eauto.
Qed.

Lemma Clean_no_parent p :
  ".."%string ∉ Split slash p →
  Clean p = if is_rooted p then abs (filter kept (Split slash p))
            else if decide (filter kept (Split slash p) = []) then "."%string
            else Join slash (filter kept (Split slash p)).
Proof.
  intros Hp. unfold Clean. rewrite clean_stack_no_parent by done.
  destruct (is_rooted p); [done|]. case_decide as He; [by rewrite He|].
  rewrite bool_decide_false; [done|]. intros E.
  destruct (filter kept (Split slash p)) as [|w ws] eqn:Ef; [done|].
  assert (kept w) as [Hw _].
  { assert (w ∈ filter kept (Split slash p)) as Hin by (rewrite Ef; set_solver).
    by apply list_elem_of_filter in Hin as [? _]. }
  destruct w as [|x w]; [done|]. destruct ws; discriminate E.
Qed.

(** What is before and after the last slash. *)
Lemma upto_slash_app a w : no_sep w → upto_slash (a +:+ String slash w) = a +:+ String slash EmptyString.
Proof.
  intros W. induction a as [|x a IH].
  - change (upto_slash (String slash w) = "/"%string). unfold no_sep in W. cbn [upto_slash]. by rewrite W.
  - change (String x a +:+ String slash w) with (String x (a +:+ String slash w)). cbn [upto_slash].
    rewrite IH. replace (contains_byte slash (a +:+ String slash w)) with true; [done|].
    clear. induction a as [|y a IH]; [done|].
    change (true = Ascii.eqb y slash || contains_byte slash (a +:+ String slash w)). by rewrite <-IH, orb_true_r.
Qed.
Lemma after_slash_app a w : no_sep w → after_slash (a +:+ String slash w) = w.
Proof.
  intros W. induction a as [|x a IH].
  - change (after_slash (String slash w) = w). unfold no_sep in W. cbn [after_slash]. by rewrite W.
  - change (String x a +:+ String slash w) with (String x (a +:+ String slash w)). cbn [after_slash].
    rewrite IH. replace (contains_byte slash (a +:+ String slash w)) with true; [done|].
    clear. induction a as [|y a IH]; [done|].
    change (true = Ascii.eqb y slash || contains_byte slash (a +:+ String slash w)). by rewrite <-IH, orb_true_r.
Qed.
Lemma slash_word w : no_sep w → upto_slash w = EmptyString ∧ after_slash w = w.
Proof.
  destruct w as [|x w]; [done|]. unfold no_sep. cbn [contains_byte upto_slash after_slash].
  intros [X W]%orb_false_iff. by rewrite X, W.
Qed.

Lemma plain_filter es : ".."%string ∉ es → Forall no_sep es → Forall plain (filter kept es).
Proof.
  intros Hp Hs. apply list.Forall_forall. intros w [[H1 H2] Hin]%list_elem_of_filter.
  rewrite list.Forall_forall in Hs. split_and!; [done|done| |by apply Hs]. by intros ->.
Qed.

Lemma plain_no_sep ws : Forall plain ws → Forall no_sep ws.
Proof. apply Forall_impl. by intros w (_ & _ & _ & H). Qed.

Lemma filter_plain ws : Forall plain ws → filter kept ws = ws.
Proof.
  induction 1 as [|w ws Hw _ IH]; [done|]. rewrite filter_cons_True; [by rewrite IH|].
  by destruct Hw as (? & ? & _).
Qed.

Lemma Split_abs ws : Forall plain ws → filter kept (Split slash (abs ws)) = ws.
Proof.
  intros Hws. unfold abs. change (String slash (Join slash ws)) with ("" +:+ String slash (Join slash ws)).
  rewrite Split_app. simpl. rewrite filter_cons_False by (by intros []).
  destruct (decide (ws = [])) as [->|Hne].
  - simpl. by rewrite filter_cons_False by (by intros []).
  - rewrite Split_Join by auto using plain_no_sep. by apply filter_plain.
Qed.

Lemma Split_abs_no_parent ws : Forall plain ws → ".."%string ∉ Split slash (abs ws).
Proof.
  intros Hws Hin. assert (".."%string ∈ filter kept (Split slash (abs ws))) as H.
  { apply list_elem_of_filter. split; [by split|done]. }
  rewrite Split_abs in H by done. rewrite list.Forall_forall in Hws.
  by destruct (Hws _ H) as (_ & _ & ? & _).
Qed.

Lemma Clean_abs ws : Forall plain ws → Clean (abs ws) = abs ws.
Proof.
  intros Hws. rewrite Clean_no_parent by by apply Split_abs_no_parent.
  unfold abs at 1. by rewrite is_rooted_cons, Split_abs.
Qed.

(** Joining below a canonical path. *)
Lemma path_Join_abs ws vs : Forall plain ws → Forall plain vs → vs ≠ [] →
  path_Join (abs ws) (Join slash vs) = abs (ws ++ vs).
Proof.
  intros Hws Hvs Hne. unfold path_Join. rewrite bool_decide_false by done.
  assert (Split slash (abs ws +:+ String slash (Join slash vs)) = Split slash (abs ws) ++ vs) as Hs.
  { by rewrite Split_app, (Split_Join vs) by auto using plain_no_sep. }
  rewrite bool_decide_false.
  - rewrite Clean_no_parent; rewrite Hs.
    + change (abs ws +:+ String slash (Join slash vs))
        with (String slash (Join slash ws +:+ String slash (Join slash vs))).
      rewrite is_rooted_cons. by rewrite list.filter_app, Split_abs, filter_plain.
    + rewrite elem_of_app. intros [H|H]; [by apply Split_abs_no_parent in H|].
      rewrite list.Forall_forall in Hvs. by destruct (Hvs _ H) as (_ & _ & ? & _).
  - intros E. assert (Split slash (Join slash vs) = vs) as H by (apply Split_Join; auto using plain_no_sep).
    rewrite E in H. simpl in H. subst vs. by apply Forall_singleton in Hvs as (? & _).
Qed.

(** ** Trimming *)

Lemma rev_app_spec s acc : rev_app s acc = str_rev s +:+ acc.
Proof.
  unfold str_rev. revert acc. induction s as [|x s IH]; intros acc; [done|].
  simpl. rewrite IH, (IH (String x EmptyString)), app_str_assoc. done.
Qed.

Lemma str_rev_cons x s : str_rev (String x s) = str_rev s +:+ String x EmptyString.
Proof. unfold str_rev at 1. simpl. apply rev_app_spec. Qed.

Lemma app_str_nil (a : string) : a +:+ EmptyString = a.
Proof. induction a as [|x a IH]; [done|]. exact (f_equal (String x) IH). Qed.

Lemma str_rev_app a b : str_rev (a +:+ b) = str_rev b +:+ str_rev a.
Proof.
  induction a as [|x a IH].
  - change (str_rev b = str_rev b +:+ EmptyString). by rewrite app_str_nil.
  - change (String x a +:+ b) with (String x (a +:+ b)).
    by rewrite !str_rev_cons, IH, app_str_assoc.
Qed.

Lemma str_rev_involutive s : str_rev (str_rev s) = s.
Proof.
  induction s as [|x s IH]; [done|]. rewrite str_rev_cons, str_rev_app, IH. done.
Qed.

(** A string that does not end in a slash is not trimmed on the right. *)
Lemma TrimRight_id s : (∀ s', s ≠ s' +:+ String slash EmptyString) → TrimRight slash s = s.
Proof.
  intros Hs. unfold TrimRight. destruct (str_rev s) as [|x r] eqn:E.
  - apply (f_equal str_rev) in E. rewrite str_rev_involutive in E. by subst.
  - simpl. destruct (Ascii.eqb x slash) eqn:Ex; [|by rewrite <-E, str_rev_involutive].
    apply Ascii.eqb_eq in Ex as ->. apply (f_equal str_rev) in E.
    rewrite str_rev_involutive, str_rev_cons in E. by destruct (Hs (str_rev r)).
Qed.

Lemma TrimLeft_Join ws : Forall plain ws → TrimLeft slash (Join slash ws) = Join slash ws.
Proof.
  destruct ws as [|w ws]; [done|]. intros [(Hne & _ & _ & Hs) _]%list.Forall_cons.
  destruct w as [|x w]; [done|]. unfold no_sep in Hs. simpl in Hs.
  apply orb_false_iff in Hs as [Hx _].
  assert (∃ r, Join slash (String x w :: ws) = String x r) as [r ->].
  { destruct ws as [|v ws]; [by exists w|]. by eexists. }
  simpl. by rewrite Hx.
Qed.

Lemma Trim_abs ws : Forall plain ws → Trim slash (abs ws) = Join slash ws.
Proof.
  intros Hws. unfold Trim, abs.
  change (TrimLeft slash (String slash (Join slash ws))) with (TrimLeft slash (Join slash ws)).
  rewrite TrimLeft_Join by done. apply TrimRight_id. intros s' E.
  destruct (decide (ws = [])) as [->|Hne].
  { simpl in E. by destruct s'. }
  assert (ws = Split slash s' ++ [EmptyString]) as Hw.
  { rewrite <-(Split_Join ws) by auto using plain_no_sep. by rewrite E, Split_app. }
  rewrite Hw, Forall_app, Forall_singleton in Hws. by destruct Hws as [_ [? _]].
Qed.

Lemma components_abs ws : Forall plain ws →
  validBetterFilesComponents (abs ws) = true ↔ Forall (λ w, strlen w ≤ betterFilesMaxNameLength) ws.
Proof.
  intros Hws. unfold validBetterFilesComponents. rewrite Trim_abs by done.
  destruct (decide (ws = [])) as [->|Hne]; [by split|].
  rewrite Split_Join by auto using plain_no_sep. clear Hne.
  induction Hws as [|w ws (H1 & H2 & H3 & _) _ IH]; [by split|]. simpl.
  rewrite andb_true_iff, IH, list.Forall_cons. unfold valid_component.
  rewrite !bool_decide_false by done. simpl. by rewrite negb_true_iff, Z.ltb_ge.
Qed.

(** ** Normalising a path *)

Lemma hasParent_false v : hasParentPathComponent v = false ↔ ".."%string ∉ Split slash v.
Proof.
  unfold hasParentPathComponent. induction (Split slash v) as [|w ws IH]; simpl.
  - split; [set_solver|done].
  - rewrite orb_false_iff, bool_decide_eq_false, IH. set_solver.
Qed.

Lemma Split_TrimLeft v :
  filter kept (Split slash (TrimLeft slash v)) = filter kept (Split slash v)
  ∧ (".."%string ∈ Split slash (TrimLeft slash v) → ".."%string ∈ Split slash v).
Proof.
  induction v as [|x v [IH1 IH2]]; [done|]. simpl.
  destruct (Ascii.eqb x slash) eqn:E; simpl; [|by rewrite E].
  rewrite filter_cons_False by (by intros []). split; [done|]. set_solver.
Qed.

(** The checks on the text of a path, for the path with the given elements. *)
Lemma text_abs v ws :
  validBetterFilesPathText v = true → contains_byte backslash v = false →
  ws = filter kept (Split slash v) → strlen (abs ws) ≤ betterFilesMaxPathLength →
  validBetterFilesPathText (abs ws) = true ∧ contains_byte backslash (abs ws) = false.
Proof.
  intros Ht Hb Hws Hlen. unfold validBetterFilesPathText in *.
  rewrite !andb_true_iff in Ht. destruct Ht as [[[Hne Hl] Hu] Hn].
  assert (∀ P : string → Prop, P EmptyString → (∀ a b, P (a +:+ String slash b) ↔ P a ∧ P b) →
    P v → P (abs ws)) as Htr.
  { intros P H0 Happ Hv. apply (Split_Forall P) in Hv; [|done..].
    apply (Happ EmptyString (Join slash ws)). split; [done|]. apply (Join_Forall P); [done..|].
    subst ws. rewrite list.Forall_forall in Hv. apply list.Forall_forall.
    intros w [_ Hin]%list_elem_of_filter. by apply Hv. }
  assert (∀ c, c ≠ slash → contains_byte c v = false → contains_byte c (abs ws) = false) as Hc.
  { intros c Hcs. apply (Htr (λ s, contains_byte c s = false)); [done|]. intros a b.
    by rewrite contains_byte_app, orb_false_iff. }
  split; [|by apply Hc]. rewrite !andb_true_iff. split_and!.
  - done.
  - by apply Z.leb_le.
  - apply (Htr (λ s, ValidUTF8 s = true)); [done| |done]. intros a b.
    by rewrite ValidUTF8_app, andb_true_iff.
  - apply negb_true_iff in Hn. rewrite Hc; done.
Qed.

(** The checks that follow the cleaning. *)
Lemma normalize_checks v ws :
  ws = filter kept (Split slash v) → ".."%string ∉ Split slash v → v ≠ EmptyString →
  validBetterFilesPathText v = true → contains_byte backslash v = false →
  normalizeBetterFilesRoot v
  = if (strlen (abs ws) <=? betterFilesMaxPathLength) && validBetterFilesComponents (abs ws)
    then Ok (abs ws) else Err errBetterFilesInvalidPath.
Proof.
  intros Hws Hp Hne Ht Hb. unfold normalizeBetterFilesRoot.
  rewrite bool_decide_false, Ht, Hb, (proj2 (hasParent_false v) Hp) by done. simpl.
  assert (Clean (String slash (TrimLeft slash v)) = abs ws) as ->.
  { destruct (Split_TrimLeft v) as [Hf Hd].
    assert (Split slash (String slash (TrimLeft slash v)) = EmptyString :: Split slash (TrimLeft slash v))
      as Hs by done.
    rewrite Clean_no_parent; rewrite Hs; [|set_solver].
    rewrite is_rooted_cons, filter_cons_False by (by intros []). by rewrite Hf, Hws. }
  rewrite bool_decide_false by done.
  assert (HasPrefix (abs ws) "/" = true) as -> by (apply is_rooted_cons).
  rewrite Z.leb_antisym. destruct (betterFilesMaxPathLength <? _); [done|]. simpl.
  by destruct (validBetterFilesComponents (abs ws)).
Qed.

Lemma normalize_spec value p :
  normalizeBetterFilesRoot value = Ok p →
  ∃ ws, p = abs ws ∧ ws = filter kept (Split slash value) ∧ Forall plain ws
    ∧ Forall (λ w, strlen w ≤ betterFilesMaxNameLength) ws
    ∧ strlen p ≤ betterFilesMaxPathLength ∧ contains_byte backslash p = false
    ∧ normalizeBetterFilesRoot p = Ok p.
Proof.
  intros Hn. destruct (decide (value = EmptyString)) as [->|Hne].
  { injection Hn as <-. exists []. by repeat split. }
  assert (validBetterFilesPathText value = true ∧ contains_byte backslash value = false
    ∧ hasParentPathComponent value = false) as (Ht & Hb & Hp).
  { unfold normalizeBetterFilesRoot in Hn. rewrite bool_decide_false in Hn by done.
    destruct (validBetterFilesPathText value); [|done].
    destruct (contains_byte backslash value); [done|].
    by destruct (hasParentPathComponent value). }
  apply hasParent_false in Hp.
  assert (Forall plain (filter kept (Split slash value))) as Hplain
    by auto using plain_filter, Split_no_sep.
  remember (filter kept (Split slash value)) as ws eqn:Ews.
  rewrite (normalize_checks value ws) in Hn by done.
  destruct (Z.leb_spec (strlen (abs ws)) betterFilesMaxPathLength) as [Hl|]; [|done].
  destruct (validBetterFilesComponents (abs ws)) eqn:Hc; [|done]. injection Hn as <-.
  destruct (text_abs value ws Ht Hb Ews Hl) as [Ht' Hb'].
  exists ws. split_and!; try done.
  - by apply components_abs.
  - rewrite (normalize_checks _ ws); [| |by apply Split_abs_no_parent|done..].
    + by rewrite (proj2 (Z.leb_le _ _) Hl), Hc.
    + by rewrite Split_abs.
Qed.

(** A normalised path is canonical.  It is a slash followed by the request path's
    elements without the empty and "." ones; it has no "." or ".." element, no
    element longer than 255 bytes, no backslash and at most 4096 bytes; and
    normalising it again changes nothing. *)
Theorem normalize_canonical value p :
  normalizeBetterFilesRoot value = Ok p →
  ∃ ws, p = abs ws ∧ ws = filter kept (Split slash value) ∧ Forall plain ws
    ∧ Forall (λ w, strlen w ≤ betterFilesMaxNameLength) ws
    ∧ strlen p ≤ betterFilesMaxPathLength ∧ contains_byte backslash p = false
    ∧ normalizeBetterFilesRoot p = Ok p.
Proof. apply normalize_spec. Qed.

(** ** Joining a request path *)

Lemma join_inv root v j :
  joinBetterFilesPath root v = Ok j →
  v ≠ EmptyString ∧ IsAbs v = false ∧ (".."%string ∉ Split slash v)
  ∧ Clean v ≠ "."%string ∧ validBetterFilesComponents (Clean v) = true
  ∧ j = path_Join root (Clean v) ∧ strlen j ≤ betterFilesMaxPathLength.
Proof.
  unfold joinBetterFilesPath. intros Hj.
  destruct (bool_decide_reflect (v = EmptyString)); [done|].
  destruct (IsAbs v); [done|]. destruct (validBetterFilesPathText v); [|done]. simpl in Hj.
  destruct (contains_byte backslash v); [done|]. simpl in Hj.
  destruct (hasParentPathComponent v) eqn:Hp; [done|]. apply hasParent_false in Hp.
  destruct (bool_decide_reflect (Clean v = "."%string)); [done|].
  destruct (_ || HasPrefix (Clean v) "../"); [done|]. simpl in Hj.
  destruct (validBetterFilesComponents (Clean v)) eqn:Hc; [|done]. simpl in Hj.
  destruct (bool_decide (path_Join root (Clean v) = root)); [done|].
  destruct (bool_decide (path_Join root (Clean v) = "/"%string)); [done|]. simpl in Hj.
  destruct (Z.ltb_spec betterFilesMaxPathLength (strlen (path_Join root (Clean v)))); [done|].
  destruct (_ && _); [done|]. by injection Hj as <-.
Qed.

Lemma join_spec ws v j :
  Forall plain ws → joinBetterFilesPath (abs ws) v = Ok j →
  ∃ vs, vs = filter kept (Split slash v) ∧ vs ≠ [] ∧ Forall plain vs
    ∧ Forall (λ w, strlen w ≤ betterFilesMaxNameLength) vs ∧ j = abs (ws ++ vs)
    ∧ strlen j ≤ betterFilesMaxPathLength.
Proof.
  intros Hws Hj. apply join_inv in Hj as (Hne & Habs & Hp & Hdot & Hc & -> & Hl).
  assert (Forall plain (filter kept (Split slash v))) as Hplain
    by auto using plain_filter, Split_no_sep.
  rewrite Clean_no_parent in Hdot, Hc, Hl |- * by done. unfold IsAbs in Habs.
  rewrite Habs in Hdot, Hc, Hl |- *. case_decide as Hnil; [done|].
  exists (filter kept (Split slash v)). split_and!; try done.
  - by apply components_abs.
  - by apply path_Join_abs.
Qed.

(** A joined path stays below its root.  Resolving a request path below a
    canonical root gives the root's elements followed by at least one further
    element, none of them "." or ".." or longer than 255 bytes: it is strictly
    below the root, whatever was requested. *)
Theorem join_confined ws v j :
  Forall plain ws → joinBetterFilesPath (abs ws) v = Ok j →
  ∃ vs, vs = filter kept (Split slash v) ∧ vs ≠ [] ∧ Forall plain vs
    ∧ Forall (λ w, strlen w ≤ betterFilesMaxNameLength) vs ∧ j = abs (ws ++ vs)
    ∧ strlen j ≤ betterFilesMaxPathLength.
Proof. apply join_spec. Qed.

Lemma Clean_word w : plain w → Clean w = w.
Proof.
  intros Hw. destruct Hw as (H1 & H2 & H3 & H4).
  assert (filter kept (Split slash w) = [w]) as Hf.
  { rewrite Split_word by done. by apply filter_plain, Forall_singleton. }
  rewrite Clean_no_parent, Hf.
  - destruct (is_rooted w) eqn:Hr; [|done]. exfalso.
    apply is_rooted_inv in Hr as [r ->]. done.
  - rewrite Split_word by done. set_solver.
Qed.

(** An upload lands exactly where it says.  When a directory and a file name are
    accepted, the directory is normalised, the file name is a single element (no
    slash, no backslash, not "." or ".."), and the target is the directory's path
    with the file name appended. *)
Theorem upload_path_exact directory filename root target :
  normalizeBetterFilesUploadPath directory filename = Ok (root, target) →
  normalizeBetterFilesRoot directory = Ok root ∧ plain filename
  ∧ contains_byte backslash filename = false ∧ strlen filename ≤ betterFilesMaxNameLength
  ∧ ∃ ws, root = abs ws ∧ Forall plain ws ∧ target = abs (ws ++ [filename]).
Proof.
  unfold normalizeBetterFilesUploadPath. intros (r & Hr & Hu)%result_bind_Ok.
  destruct (bool_decide_reflect (filename = EmptyString)) as [|H1]; [done|].
  destruct (bool_decide_reflect (filename = "."%string)) as [|H2]; [done|].
  destruct (bool_decide_reflect (filename = ".."%string)) as [|H3]; [done|]. simpl in Hu.
  destruct (validBetterFilesPathText filename); [|done]. simpl in Hu.
  destruct (contains_byte slash filename) eqn:H4; [done|].
  destruct (contains_byte backslash filename) eqn:H5; [done|]. simpl in Hu.
  destruct (Z.ltb_spec betterFilesMaxNameLength (strlen filename)) as [|H6]; [done|].
  destruct (joinBetterFilesPath r filename) as [t|] eqn:Hj; [|done]. simplify_eq/=.
  assert (plain filename) as Hplain by done.
  destruct (normalize_spec directory root Hr) as (ws & -> & _ & Hws & _).
  destruct (join_spec ws filename target Hws Hj) as (vs & Hvs & _ & _ & _ & -> & _).
  split_and!; try done. exists ws. split_and!; try done. do 2 f_equal.
  rewrite Hvs, Split_word by done. by apply filter_plain, Forall_singleton.
Qed.

(** ** The deny list *)

Lemma HasSuffix_slash s : HasSuffix s "/" = true → ∃ s', s = s' +:+ String slash EmptyString.
Proof.
  unfold HasSuffix. intros [r E]%is_rooted_inv. exists (str_rev r).
  apply (f_equal str_rev) in E. by rewrite str_rev_involutive, str_rev_cons in E.
Qed.

Lemma Join_no_suffix ws : Forall plain ws → HasSuffix (Join slash ws) "/" = false.
Proof.
  intros Hws. apply not_true_iff_false. intros [s' E]%HasSuffix_slash.
  destruct (decide (ws = [])) as [->|Hne]; [by destruct s'|].
  assert (ws = Split slash s' ++ [EmptyString]) as Hw.
  { rewrite <-(Split_Join ws) by auto using plain_no_sep. by rewrite E, Split_app. }
  rewrite Hw, Forall_app, Forall_singleton in Hws. by destruct Hws as [_ [? _]].
Qed.

Lemma is_ignored1_abs matches ws : Forall plain ws →
  is_ignored1 matches (Join slash ws) = matches (abs ws).
Proof.
  intros Hws. unfold is_ignored1. rewrite Join_no_suffix by done. cbn [andb].
  f_equal. by apply Clean_abs.
Qed.

Lemma allowed_prefixes_spec matches front rest :
  Forall plain (front ++ rest) → allowed_prefixes matches front rest = Ok tt →
  ∀ n, (n < length rest)%nat → matches (abs (front ++ take (S n) rest)) = false.
Proof.
  revert front. induction rest as [|p rest IH]; intros front Hp Hok n Hn; simpl in *; [lia|].
  assert (front ++ p :: rest = (front ++ [p]) ++ rest) as E by by rewrite <-app_assoc.
  apply result_bind_Ok in Hok as ([] & Hi & Hok). destruct n as [|n].
  - rewrite E, Forall_app in Hp. destruct Hp as [Hp _].
    unfold IsIgnored in Hi. apply require_Ok, negb_true_iff in Hi. cbn [existsb] in Hi.
    apply orb_false_iff in Hi as [Hi _]. by rewrite is_ignored1_abs in Hi.
  - rewrite E in Hp. specialize (IH _ Hp Hok n ltac:(lia)). by rewrite <-app_assoc in IH.
Qed.

(** An allowed path has no denied ancestor.  When the check passes, neither the
    path nor any directory above it matches the server's deny list. *)
Theorem allowed_ancestors matches value p ws :
  ensureBetterFilesAllowed matches [value] = Ok tt →
  normalizeBetterFilesRoot value = Ok p → p = abs ws → Forall plain ws →
  ∀ n, (0 < n ≤ length ws)%nat → matches (abs (take n ws)) = false.
Proof.
  intros Hok Hn -> Hws n Hlen. simpl in Hok. rewrite Hn in Hok. simpl in Hok.
  destruct ws as [|w ws]; [simpl in Hlen; lia|].
  assert (abs (w :: ws) ≠ "/"%string) as Hne.
  { intros E. assert (filter kept (Split slash (abs (w :: ws))) = w :: ws) as Hf by by apply Split_abs.
    by rewrite E in Hf. }
  rewrite bool_decide_false in Hok by done.
  apply result_bind_Ok in Hok as ([] & Hok & _).
  change (TrimPrefix slash (abs (w :: ws))) with (Join slash (w :: ws)) in Hok.
  rewrite Split_Join in Hok by auto using plain_no_sep.
  destruct n as [|n]; [lia|]. apply (allowed_prefixes_spec matches [] (w :: ws)); [done..|lia].
Qed.

(** ** Archives *)

Lemma dots_no_sep n : Forall no_sep (dots n).
Proof. induction n; simpl; by constructor. Qed.

Lemma rev_dots n : rev (dots n) = dots n.
Proof.
  unfold dots. induction n as [|n IH]; [done|]. simpl. rewrite IH.
  by rewrite <-replicate_S_end.
Qed.

Lemma HasPrefix_app a b : HasPrefix (a +:+ b) a = true.
Proof.
  unfold HasPrefix. induction a as [|x a IH]; [by destruct b|].
  change (String x a +:+ b) with (String x (a +:+ b)). simpl.
  case_match; [done|congruence].
Qed.

(** A cleaned path: leading ".." (none when rooted), then plain elements. *)
Lemma Clean_shape p :
  ∃ n ps, Forall plain ps ∧ (is_rooted p = true → n = 0%nat)
    ∧ Clean p = (if is_rooted p then abs ps
                 else if decide (dots n ++ ps = []) then "."%string else Join slash (dots n ++ ps)).
Proof.
  destruct (clean_stack_shape (is_rooted p) (Split slash p) (Split_no_sep p))
    as (ps & n & Hst & Hps & Hn).
  exists n, (rev ps). split; [by apply Forall_rev|]. split; [done|].
  unfold Clean. rewrite Hst, rev_app_distr, rev_dots.
  destruct (is_rooted p); [by rewrite (Hn eq_refl)|].
  case_decide as Hnil; [by rewrite Hnil|].
  rewrite bool_decide_false; [done|]. intros E.
  destruct (dots n ++ rev ps) as [|w ws] eqn:El; [done|].
  assert (w ≠ EmptyString) as Hw.
  { destruct n as [|n]; simpl in El; [|by simplify_eq].
    assert (w ∈ rev ps) as Hin by (rewrite El; set_solver).
    apply Forall_rev in Hps. rewrite list.Forall_forall in Hps. by apply Hps. }
  destruct w as [|x w]; [done|]. destruct ws; discriminate E.
Qed.

(** An entry path that is accepted is ".." itself or has plain elements only. *)
Lemma entry_shape v p :
  betterFilesCleanArchiveEntryPath v = Some p →
  p = ".."%string ∨ ∃ ps, ps ≠ [] ∧ Forall plain ps ∧ p = Join slash ps.
Proof.
  unfold betterFilesCleanArchiveEntryPath. intros He.
  destruct (Clean_shape (replace_byte backslash slash v)) as (n & ps & Hps & Hn & Hc).
  destruct (is_rooted _).
  - rewrite Hc in He. change (TrimPrefix slash (abs ps)) with (Join slash ps) in He.
    destruct ps as [|w ps]; [done|]. right. exists (w :: ps).
    destruct (_ || Contains _ _); [done|]. by simplify_eq.
  - case_decide as Hnil; [by rewrite Hc in He|].
    assert (TrimPrefix slash (Join slash (dots n ++ ps)) = Join slash (dots n ++ ps)) as Ht.
    { destruct n as [|n].
      - destruct ps as [|w ps]; [done|]. apply list.Forall_cons in Hps as [(H1 & _ & _ & Hs) _].
        destruct w as [|x w]; [done|]. unfold no_sep in Hs. simpl in Hs.
        apply orb_false_iff in Hs as [Hx _].
        assert (∃ r, Join slash (dots 0 ++ String x w :: ps) = String x r) as [r ->].
        { destruct ps as [|v' ps]; [by exists w|]. by eexists. }
        simpl. by rewrite Hx.
      - change (dots (S n) ++ ps) with (".."%string :: (dots n ++ ps)).
        destruct (dots n ++ ps); reflexivity. }
    rewrite Hc, Ht in He. destruct n as [|n].
    + right. exists ps. destruct (_ || Contains _ _); [done|]. by simplify_eq.
    + destruct (dots n ++ ps) as [|w ws] eqn:El.
      * left. assert (dots (S n) ++ ps = [".."%string]) as E by exact (f_equal (cons ".."%string) El).
        rewrite E in He. vm_compute in He. congruence.
      * exfalso. assert (dots (S n) ++ ps = ".."%string :: w :: ws) as E by exact (f_equal (cons ".."%string) El).
        rewrite E in He.
        change (Join slash (".."%string :: w :: ws)) with ("../" +:+ Join slash (w :: ws)) in He.
        rewrite HasPrefix_app, !orb_true_r in He. done.
Qed.

Lemma output_plain ds ps : Forall plain ds → Forall plain ps → ps ≠ [] →
  betterFilesExtractOutputPath (abs ds) (Join slash ps) = abs (ds ++ ps).
Proof.
  intros Hds Hps Hne. unfold betterFilesExtractOutputPath. rewrite path_Join_abs by done.
  apply Clean_abs. by apply Forall_app.
Qed.

(** A path below (or at) the destination. *)
Definition below (ds : list string) (p : string) : Prop :=
  ∃ ps, Forall plain ps ∧ p = abs (ds ++ ps).

(** What an extraction may do: write below the destination, or create the directory
    of a path below it. *)
Definition confined (ds : list string) (a : fs_action) : Prop :=
  match a with
  | WriteFile p _ => below ds p
  | CreateDirectory b d => ∃ p, below ds p ∧ b = path_Base p ∧ d = path_Dir p
  end.

(** Nothing selects the entry "..". *)
Definition no_parent_selected (selections : list selection) : Prop :=
  ∀ s, s ∈ selections → sel_Path s ≠ ".."%string.

Lemma parent_not_matched selections :
  no_parent_selected selections → betterFilesArchiveSelectionMatches ".." selections = false.
Proof.
  intros Hsel. unfold betterFilesArchiveSelectionMatches.
  induction selections as [|s sel IH]; [done|]. cbn [existsb].
  rewrite IH by (intros x Hx; apply Hsel; set_solver). rewrite orb_false_r.
  specialize (Hsel s ltac:(set_solver)).
  rewrite (bool_decide_false (".."%string = sel_Path s)) by done.
  destruct (sel_IsDirectory s); [|done]. simpl. unfold HasPrefix.
  destruct (sel_Path s) as [|x [|y [|z r]]]; [done|..].
  - change (String x EmptyString +:+ "/") with (String x "/"). simpl. by repeat case_match; subst.
  - change (String x (String y EmptyString) +:+ "/") with (String x (String y "/")). simpl.
    by repeat case_match.
  - change (String x (String y (String z r)) +:+ "/") with (String x (String y (String z (r +:+ "/")))).
    simpl. by repeat case_match.
Qed.

Lemma entry_confined ds v p selections :
  Forall plain ds → no_parent_selected selections →
  betterFilesCleanArchiveEntryPath v = Some p →
  betterFilesArchiveSelectionMatches p selections = true →
  below ds (betterFilesExtractOutputPath (abs ds) p).
Proof.
  intros Hds Hsel [->|(ps & Hps & Hpl & ->)]%entry_shape Hm.
  - rewrite parent_not_matched in Hm; done.
  - exists ps. split; [done|]. by apply output_plain.
Qed.

Lemma zip_confined ds selections entries k :
  Forall plain ds → no_parent_selected selections →
  Forall (confined ds) (fst (extract_zip (abs ds) selections entries k)).
Proof.
  intros Hds Hsel. revert k. induction entries as [|e entries IH]; intros k; [by constructor|].
  cbn [extract_zip]. destruct (betterFilesCleanArchiveEntryPath (ae_name e)) as [p|] eqn:He; [|done].
  destruct (betterFilesArchiveSelectionMatches p selections) eqn:Hm; simpl; [|done].
  pose proof (entry_confined ds _ p selections Hds Hsel He Hm) as Hb.
  destruct (ae_dir e).
  - assert (confined ds (CreateDirectory (path_Base (betterFilesExtractOutputPath (abs ds) p))
      (path_Dir (betterFilesExtractOutputPath (abs ds) p)))) by (by eexists).
    destruct (ae_done e); [|by repeat constructor].
    specialize (IH k). destruct (extract_zip _ _ entries k). by constructor.
  - destruct (ae_open e); simpl; [|by constructor].
    destruct (int64_max <? ae_size e); simpl; [by constructor|].
    destruct (ae_done e); simpl; [|by repeat constructor].
    destruct (betterFilesArchiveMaxExtract <? k + 1); [by repeat constructor|].
    specialize (IH (k + 1)). destruct (extract_zip _ _ entries (k + 1)). by constructor.
Qed.

Lemma tar_confined ds selections entries truncated k :
  Forall plain ds → no_parent_selected selections →
  Forall (confined ds) (fst (extract_tar (abs ds) selections entries truncated k)).
Proof.
  intros Hds Hsel. revert k. induction entries as [|e entries IH]; intros k; [by constructor|].
  cbn [extract_tar]. destruct (betterFilesCleanArchiveEntryPath (ae_name e)) as [p|] eqn:He; [|done].
  destruct (betterFilesArchiveSelectionMatches p selections) eqn:Hm; simpl; [|done].
  pose proof (entry_confined ds _ p selections Hds Hsel He Hm) as Hb.
  destruct (ae_dir e).
  - assert (confined ds (CreateDirectory (path_Base (betterFilesExtractOutputPath (abs ds) p))
      (path_Dir (betterFilesExtractOutputPath (abs ds) p)))) by (by eexists).
    destruct (ae_done e); [|by repeat constructor].
    specialize (IH k). destruct (extract_tar _ _ entries _ k). by constructor.
  - destruct (ae_regular e); simpl; [|done].
    destruct (ae_done e); simpl; [|by repeat constructor].
    destruct (betterFilesArchiveMaxExtract <? k + 1); [by repeat constructor|].
    specialize (IH (k + 1)). destruct (extract_tar _ _ entries _ (k + 1)). by constructor.
Qed.

(** C23: extracting an archive stays below the destination.  Whatever names its
    entries have, every file written and every directory created by a zip or tar
    extraction is below the destination directory, as long as the entry ".." is not
    itself selected. *)
Theorem extract_confined ds selections entries truncated :
  Forall plain ds → no_parent_selected selections →
  Forall (confined ds) (fst (extract_zip (abs ds) selections entries 0))
  ∧ Forall (confined ds) (fst (extract_tar (abs ds) selections entries truncated 0)).
Proof. intros. split; [by apply zip_confined|by apply tar_confined]. Qed.

(** The entry name ".." is accepted and leaves the destination.  The check for
    parent elements looks for "../" and "/../" only, so the path ".." passes it, and
    a selected entry of that name is written to the destination's parent. *)
Theorem archive_parent_escapes ds d size :
  Forall plain (ds ++ [d]) → size ≤ int64_max →
  betterFilesCleanArchiveSelections [mkSelection ".." false] = Some [mkSelection ".." false]
  ∧ fst (extract_zip (abs (ds ++ [d])) [mkSelection ".." false]
           [mkEntry ".." false true size true true] 0)
    = [WriteFile (abs ds) size].
Proof.
  intros Hds Hsz. split; [reflexivity|].
  assert (betterFilesExtractOutputPath (abs (ds ++ [d])) ".." = abs ds) as Ho.
  { unfold betterFilesExtractOutputPath. apply Forall_app in Hds as Hds'. destruct Hds' as [Hd1 _].
    assert (path_Join (abs (ds ++ [d])) ".." = abs ds) as ->; [|by apply Clean_abs].
    unfold path_Join. rewrite !bool_decide_false by done. unfold Clean.
    assert (is_rooted (abs (ds ++ [d]) +:+ String slash "..") = true) as -> by apply is_rooted_cons.
    rewrite Split_app. unfold clean_stack. rewrite foldl_app.
    assert (foldl (clean_push true) [] (Split slash (abs (ds ++ [d]))) = d :: rev ds) as ->.
    { pose proof (clean_stack_no_parent true _ (Split_abs_no_parent _ Hds)) as H.
      rewrite Split_abs in H by done. apply (f_equal (@rev string)) in H. rewrite rev_involutive in H.
      unfold clean_stack in H. by rewrite H, rev_app_distr. }
    change (foldl (clean_push true) (d :: rev ds) (Split slash ".."))
      with (if bool_decide (d = ".."%string) then ".."%string :: d :: rev ds else rev ds).
    rewrite bool_decide_false; [by rewrite rev_involutive|].
    apply Forall_app in Hds as [_ (_ & _ & Hd & _)%Forall_singleton]. exact Hd. }
  transitivity (fst (if int64_max <? size then ([], (0, Err ErrEntryTooLarge))
    else ([WriteFile (betterFilesExtractOutputPath (abs (ds ++ [d])) "..") size], (1, Ok tt)))).
  - cbn [extract_zip ae_size]. by destruct (int64_max <? size).
  - by rewrite Ho, (proj2 (Z.ltb_ge int64_max size)).
Qed.

(** ** Witnesses *)

Lemma normalize_canonical_witness :
  ∃ p, normalizeBetterFilesRoot "//world/./region//r.0.0.mca" = Ok p
    ∧ p = "/world/region/r.0.0.mca"%string ∧ normalizeBetterFilesRoot p = Ok p.
Proof.
  eexists. split; [vm_compute; reflexivity|]. split; [reflexivity|].
  destruct (normalize_canonical "//world/./region//r.0.0.mca" "/world/region/r.0.0.mca")
    as (ws & _ & _ & _ & _ & _ & _ & H); [vm_compute; reflexivity|exact H].
Defined.

Lemma join_confined_witness :
  ∃ vs, joinBetterFilesPath (abs ["world"%string]) "region/./r.mca" = Ok (abs (["world"%string] ++ vs))
    ∧ vs ≠ [].
Proof.
  destruct (join_confined ["world"%string] "region/./r.mca" "/world/region/r.mca")
    as (vs & _ & Hne & _ & _ & Hj & _); [by repeat constructor|vm_compute; reflexivity|].
  exists vs. split; [rewrite <-Hj; vm_compute; reflexivity|exact Hne].
Defined.

Lemma upload_path_exact_witness :
  ∃ ws, "/world/region"%string = abs ws ∧ "/world/region/r.mca"%string = abs (ws ++ ["r.mca"%string]).
Proof.
  destruct (upload_path_exact "world/region/" "r.mca" "/world/region" "/world/region/r.mca")
    as (_ & _ & _ & _ & ws & H1 & _ & H2); [vm_compute; reflexivity|].
  exists ws. split; [exact H1|exact H2].
Defined.

Lemma allowed_ancestors_witness :
  let matches p := bool_decide (p = "/secret"%string) in
  matches (abs (take 1 ["world"%string; "level.dat"%string])) = false.
Proof.
  intros matches.
  refine (allowed_ancestors matches "world/level.dat" "/world/level.dat"
    ["world"%string; "level.dat"%string] _ _ _ _ 1 _);
    [vm_compute; reflexivity|vm_compute; reflexivity|reflexivity|by repeat constructor|simpl; lia].
Defined.

Lemma extract_confined_witness :
  Forall (confined ["data"%string])
    (fst (extract_zip (abs ["data"%string]) [mkSelection "mods" true]
      [mkEntry "../../etc/passwd" false true 4 true true; mkEntry "mods/../mods/a.jar" false true 9 true true] 0))
  ∧ fst (extract_zip (abs ["data"%string]) [mkSelection "mods" true]
      [mkEntry "../../etc/passwd" false true 4 true true; mkEntry "mods/../mods/a.jar" false true 9 true true] 0)
    = [WriteFile "/data/mods/a.jar" 9].
Proof.
  split; [|vm_compute; reflexivity].
  refine (proj1 (extract_confined ["data"%string] [mkSelection "mods" true] _ false _ _)).
  - by repeat constructor.
  - intros s Hs. apply list_elem_of_singleton in Hs as ->. done.
Defined.

Lemma archive_parent_escapes_witness :
  fst (extract_zip (abs ["srv"%string; "data"%string]) [mkSelection ".." false]
         [mkEntry ".." false true 4 true true] 0)
  = [WriteFile "/srv" 4].
Proof.
  refine (proj2 (archive_parent_escapes ["srv"%string] "data" 4 _ _));
    [by repeat constructor|vm_compute; congruence].
Defined.
