(* ===== verification/Tokens.v ===== *)
(** * Tokens (router/tokens)

    The claims of a JWT that Wings acts on: scopes, permissions, revocation by the
    Panel, and one-time use.  Verifying the signature and decoding the claims is the
    JWT library's; the one-time store is the cache library's, a parameter here. *)

From stdpp Require Import base gmap sets list strings numbers sorting.
From Stdlib Require Import Ascii.
From S2P Require Import Prelude GoStrings.
Open Scope Z_scope.

(** jwt.Payload; times are absent when the claim is. *)
Record payload := mkPayload {
  pl_IssuedAt : option Z;
  pl_ExpirationTime : option Z;
  pl_JWTID : string;
}.

(** ** Scopes *)

Definition Scopes (scope : string) : list string := Split " "%char scope.
Definition HasScope (scope wanted : string) : bool :=
  existsb (λ v, bool_decide (v = wanted)) (Scopes scope).

Definition FileUpload : string := "file-upload".
Definition Websocket : string := "websocket".

(** ** Revocation *)

Record denials := mkDenials {
  dn_bootTime : Z;                       (* wingsBootTime *)
  dn_jti : gmap string Z;                (* denylist *)
  dn_user : gmap string Z;               (* userDenylist *)
}.

Definition user_key (s u : string) : string := Join ":"%char [s; u].

Definition DenyJTI (now : Z) (jti : string) (d : denials) : denials :=
  mkDenials (dn_bootTime d) (<[jti := now]> (dn_jti d)) (dn_user d).
Definition DenyForServer (now : Z) (s u : string) (d : denials) : denials :=
  mkDenials (dn_bootTime d) (dn_jti d) (<[user_key s u := now]> (dn_user d)).

(** Issued at or before the denial recorded under the key. *)
Definition denied_at (m : gmap string Z) (k : string) (issued : Z) : bool :=
  match m !! k with
  | Some t => negb (t <? issued)
  | None => false
  end.

Definition isDenylisted (d : denials) (p : payload) (serverUUID userUUID : string) : bool :=
  match pl_IssuedAt p with
  | None => true
  | Some issued =>
      if bool_decide (serverUUID = EmptyString) || bool_decide (userUUID = EmptyString) then true
      else if issued <? dn_bootTime d then true
      else if denied_at (dn_jti d) (pl_JWTID p) issued then true
      else denied_at (dn_user d) (user_key serverUUID userUUID) issued
  end.

(** ** Websocket permissions *)

Record WebsocketPayload := mkWebsocket {
  ws_payload : payload;
  ws_UserUUID : string;
  ws_ServerUUID : string;
  ws_Permissions : list string;
  ws_scope : string;
  ws_UserName : string;
  ws_UserAvatar : option string;
}.

Definition ws_Denylisted (d : denials) (p : WebsocketPayload) : bool :=
  isDenylisted d (ws_payload p) (ws_ServerUUID p) (ws_UserUUID p).

(** The loop returns at the first permission that grants. *)
Fixpoint has_permission (denied : bool) (permission : string) (l : list string) : bool :=
  match l with
  | [] => false
  | k :: l' =>
      if bool_decide (k = permission)
         || (negb (HasPrefix permission "admin") && bool_decide (k = "*"%string))
      then negb denied
      else has_permission denied permission l'
  end.
Definition HasPermission (d : denials) (p : WebsocketPayload) (permission : string) : bool :=
  has_permission (ws_Denylisted d p) permission (ws_Permissions p).

(** ** One-time tokens *)

(** The cache library: a lookup at a time, and storing a key for a duration. *)
Class TokenCache (C : Type) := {
  cache_get : Z → string → C → bool;
  cache_set : Z → string → Z → C → C;
}.

(** Documented behaviour of the cache: a stored key is found until its duration has
    passed, and storing one key does not change another. *)
Class TokenCacheLaws (C : Type) `{TokenCache C} := {
  cache_get_set : ∀ t k d now c, t ≤ now < t + d → cache_get now k (cache_set t k d c) = true;
  cache_get_other : ∀ t k k' d now c, k ≠ k' →
    cache_get now k (cache_set t k' d c) = cache_get now k c;
}.

Definition minute : Z := 60 * 1000000000.

Definition IsValidToken {C} `{TokenCache C} (now : Z) (token : string) (c : C) : bool * C :=
  if cache_get now token c then (false, c)
  else (true, cache_set now token (60 * minute) c).

(** ** Upload tokens *)

Record UploadPayload := mkUploadPayload {
  ut_payload : payload;
  ut_scope : string;
  ut_ServerUuid : string;
  ut_UserUuid : string;
  ut_UniqueId : string;
}.

Definition ut_Denylisted (d : denials) (p : UploadPayload) : bool :=
  isDenylisted d (ut_payload p) (ut_ServerUuid p) (ut_UserUuid p).

(** ** Facts *)

(** A revocation by the Panel, at a time. *)
Inductive denial := DJti (jti : string) | DUser (s u : string).
Definition deny (now : Z) (x : denial) (d : denials) : denials :=
  match x with DJti j => DenyJTI now j d | DUser s u => DenyForServer now s u d end.

Fixpoint deny_all (l : list (Z * denial)) (d : denials) : denials :=
  match l with
  | [] => d
  | (now, x) :: l' => deny_all l' (deny now x d)
  end.

(** The denials recorded so far are in the past. *)
Definition recorded_by (t : Z) (d : denials) : Prop :=
  (∀ k u, dn_jti d !! k = Some u → u ≤ t) ∧ (∀ k u, dn_user d !! k = Some u → u ≤ t).

Lemma denied_at_insert m k k' now issued :
  (∀ u, m !! k = Some u → u ≤ now) → denied_at m k issued = true →
  denied_at (<[k' := now]> m) k issued = true.
Proof.
  unfold denied_at. intros Hm Hd. destruct (decide (k = k')) as [->|Hne]; simplify_map_eq; [|done].
  destruct (m !! k') as [u|]; [|done]. specialize (Hm u eq_refl).
  apply negb_true_iff, Z.ltb_ge in Hd. apply negb_true_iff, Z.ltb_ge. lia.
Qed.

Lemma deny_keeps now x d p s u :
  recorded_by now d → isDenylisted d p s u = true → isDenylisted (deny now x d) p s u = true.
Proof.
  intros [Hj Hu] Hd. unfold isDenylisted in *. destruct (pl_IssuedAt p) as [issued|]; [|done].
  destruct (_ || _); [done|]. destruct x as [j|s' u']; simpl;
    (destruct (issued <? dn_bootTime d); [done|]);
    destruct (denied_at (dn_jti d) (pl_JWTID p) issued) eqn:E.
  - rewrite denied_at_insert; [done|intros; by eapply Hj|done].
  - case_match; done.
  - done.
  - apply denied_at_insert; [intros; by eapply Hu|done].
Qed.

Lemma deny_recorded now x d : recorded_by now d → recorded_by now (deny now x d).
Proof.
  intros [Hj Hu]. destruct x; split; simpl; intros k t Hk; [|by eapply Hu|by eapply Hj|];
    apply lookup_insert_Some in Hk as [[_ ->]|[_ Hk]]; eauto; lia.
Qed.

Lemma recorded_mono t t' d : t ≤ t' → recorded_by t d → recorded_by t' d.
Proof. intros Ht [Hj Hu]. split; intros k v Hk; [apply Hj in Hk|apply Hu in Hk]; lia. Qed.

Lemma deny_all_keeps l t0 d p s u :
  recorded_by t0 d → StronglySorted Z.le (t0 :: l.*1) →
  isDenylisted d p s u = true → isDenylisted (deny_all l d) p s u = true.
Proof.
  revert t0 d. induction l as [|[now x] l IH]; intros t0 d Hr Hs Hd; [done|].
  apply StronglySorted_inv in Hs as [Hs Hall]. simpl. apply (IH now).
  - apply deny_recorded, (recorded_mono t0); [|done]. by apply list.Forall_cons in Hall as [? _].
  - done.
  - apply deny_keeps; [|done]. apply (recorded_mono t0); [|done]. by apply list.Forall_cons in Hall as [? _].
Qed.

Lemma has_permission_denied perm l : has_permission true perm l = false.
Proof. induction l as [|k l IH]; [done|]. simpl. by case_match. Qed.

(** Revocation is permanent.  Once the Panel has revoked a user's access to a
    server, every token of that user and server issued at or before that moment is
    refused, whatever is revoked later, and so grants no permission. *)
Theorem revoked_forever now s u d later p :
  recorded_by now d → StronglySorted Z.le (now :: later.*1) →
  (∀ t, pl_IssuedAt (ws_payload p) = Some t → t ≤ now) →
  ws_ServerUUID p = s → ws_UserUUID p = u →
  let d' := deny_all later (DenyForServer now s u d) in
  ws_Denylisted d' p = true ∧ ∀ perm, HasPermission d' p perm = false.
Proof.
  intros Hr Hs Hp <- <- d'.
  assert (ws_Denylisted d' p = true) as Hd.
  { unfold ws_Denylisted, d'. eapply deny_all_keeps; [|exact Hs|].
    - exact (deny_recorded now (DUser _ _) d Hr).
    - unfold isDenylisted. destruct (pl_IssuedAt (ws_payload p)) as [t|]; [|done].
      specialize (Hp t eq_refl). simpl. unfold denied_at at 2. rewrite lookup_insert_eq.
      rewrite (proj2 (Z.ltb_ge now t)) by lia. by repeat case_match. }
  split; [done|]. intros perm. unfold HasPermission. rewrite Hd. apply has_permission_denied.
Qed.

(** Permissions are granted exactly by name, or by the wildcard for permissions
    that are not administrative; a denied token has none. *)
Theorem HasPermission_iff d p perm :
  HasPermission d p perm = true ↔
    ws_Denylisted d p = false
    ∧ (perm ∈ ws_Permissions p
       ∨ (HasPrefix perm "admin" = false ∧ "*"%string ∈ ws_Permissions p)).
Proof.
  unfold HasPermission. destruct (ws_Denylisted d p) eqn:Hd.
  { rewrite has_permission_denied. split; [done|by intros []]. }
  transitivity (perm ∈ ws_Permissions p
    ∨ (HasPrefix perm "admin" = false ∧ "*"%string ∈ ws_Permissions p)); [|naive_solver].
  induction (ws_Permissions p) as [|k l IH]; simpl.
  - split; [done|]. set_solver.
  - destruct (decide (k = perm)) as [->|Hne]; [rewrite bool_decide_true by done; set_solver|].
    rewrite bool_decide_false by done. simpl. destruct (HasPrefix perm "admin") eqn:Ha; simpl.
    + rewrite IH. set_solver.
    + destruct (decide (k = "*"%string)) as [->|Hk]; [rewrite bool_decide_true by done; set_solver|].
      rewrite bool_decide_false by done. rewrite IH. set_solver.
Qed.

Section OneTime.
Context {C : Type} `{TokenCacheLaws C}.

(** Uses of one-time tokens, at their times. *)
Fixpoint uses (l : list (Z * string)) (c : C) : list bool * C :=
  match l with
  | [] => ([], c)
  | (now, k) :: l' =>
      let '(ok, c') := IsValidToken now k c in
      let '(oks, c'') := uses l' c' in (ok :: oks, c'')
  end.

Lemma uses_keeps l c k t0 now :
  (∀ t, t0 ≤ t < t0 + 60 * minute → cache_get t k c = true) →
  Forall (λ p, t0 ≤ fst p < t0 + 60 * minute) l → t0 ≤ now < t0 + 60 * minute →
  cache_get now k (snd (uses l c)) = true.
Proof.
  revert c. induction l as [|[t k'] l IH]; intros c Hc Hl Hnow; [by apply Hc|].
  apply list.Forall_cons in Hl as [Ht Hl]. simpl in *. unfold IsValidToken.
  destruct (cache_get t k' c) eqn:Eg.
  - specialize (IH c Hc Hl Hnow). by destruct (uses l c).
  - assert (k ≠ k') as Hne by (intros ->; rewrite Hc in Eg; done).
    specialize (IH (cache_set t k' (60 * minute) c)).
    destruct (uses l (cache_set t k' (60 * minute) c)). apply IH; [|done|done].
    intros u Hu. rewrite cache_get_other by done. by apply Hc.
Qed.

(** A one-time token is accepted once.  After it was accepted, every further use
    within the hour is refused, whatever other tokens are used in between. *)
Theorem token_used_once now now' k between c c' :
  IsValidToken now k c = (true, c') → now ≤ now' < now + 60 * minute →
  Forall (λ p, now ≤ fst p < now + 60 * minute) between →
  fst (IsValidToken now' k (snd (uses between c'))) = false.
Proof.
  unfold IsValidToken. destruct (cache_get now k c); [done|]. intros [= <-] Hn Hb.
  rewrite (uses_keeps between _ k now); [done| |done|done].
  intros t Ht. by apply cache_get_set.
Qed.
End OneTime.

(** ** Witnesses *)

(** A cache as a map from keys to their expiry. *)
#[local] Instance map_cache : TokenCache (gmap string Z) := {
  cache_get now k c := match c !! k with Some e => now <? e | None => false end;
  cache_set now k d c := <[k := now + d]> c;
}.
#[local] Instance map_cache_laws : TokenCacheLaws (gmap string Z).
Proof.
  split; unfold cache_get, cache_set; simpl.
  - intros t k d now c [_ Hn]. rewrite lookup_insert_eq. by apply Z.ltb_lt.
  - intros t k k' d now c Hne. by rewrite lookup_insert_ne.
Qed.

Lemma token_used_once_witness :
  fst (IsValidToken (59 * minute) "a" (snd (uses [(5, "b"%string)] (snd (IsValidToken 0 "a" (∅ : gmap string Z))))))
  = false.
Proof.
  apply (token_used_once 0 (59 * minute) "a" [(5, "b"%string)] ∅);
    [reflexivity|vm_compute; intuition congruence|].
  constructor; [vm_compute; intuition congruence|constructor].
Defined.

Lemma revoked_forever_witness :
  let p := mkWebsocket (mkPayload (Some 5) None "j") "u" "s" ["*"%string] "websocket" "" None in
  let d := mkDenials 0 ∅ ∅ in
  HasPermission d p "control.start" = true
  ∧ HasPermission (deny_all [(20, DJti "x")] (DenyForServer 10 "s" "u" d)) p "control.start" = false.
Proof.
  intros p d. split; [reflexivity|].
  apply (revoked_forever 10 "s" "u" d [(20, DJti "x")] p); try reflexivity.
  - split; intros k v Hk; unfold d in Hk; simpl in Hk; by rewrite lookup_empty in Hk.
  - repeat constructor; simpl; lia.
  - intros t Ht. injection Ht as <-. lia.
Defined.
