(* ===== verification/Uploads.v ===== *)
(** * Resumable uploads (router/router_resumable_upload.go)

    Three process-wide registries guard uploads: the locks of files being written,
    the admissions of active requests (globally, per server and per token), and the
    sessions that bind an upload token to the one file it may write.  The two
    handlers report the offset of a file and append a chunk to it. *)

From stdpp Require Import base gmap sets list strings numbers.
From Stdlib Require Import Ascii Strings.Byte.
From S2P Require Import Prelude GoStrings Disk Paths Tokens.
Open Scope Z_scope.

Definition maxConcurrentResumableUploads : Z := 64.
Definition maxConcurrentResumableUploadsPerServer : Z := 16.
Definition maxConcurrentResumableUploadsPerToken : Z := 4.
Definition maxResumableUploadLocks : Z := maxConcurrentResumableUploads + 64.
Definition maxResumableUploadSessions : Z := 4096.
Definition maxResumableUploadSessionsPerServer : Z := 256.

(** [a + "\x00" + b]. *)
Definition joined_key (a b : string) : string := a +:+ String (ascii_of_N 0) b.

(** ** Locks *)

Abbreviation locks := (gset string).

Definition lock_acquire (key : string) (r : locks) : option locks :=
  if bool_decide (key ∈ r) || (maxResumableUploadLocks <=? Z.of_nat (size r)) then None
  else Some ({[key]} ∪ r).
Definition lock_release (key : string) (r : locks) : locks := r ∖ {[key]}.

(** ** Counters: Go maps whose missing keys count zero *)

Abbreviation counter := (gmap string Z).
Definition count_of (k : string) (m : counter) : Z := default 0 (m !! k).
Definition count_up (k : string) (m : counter) : counter := <[k := count_of k m + 1]> m.
Definition count_down (k : string) (m : counter) : counter :=
  let n := count_of k m - 1 in
  if n =? 0 then delete k m else <[k := n]> m.

(** ** Admissions *)

Record admissions := mkAdmissions {
  ad_globalLimit : Z;
  ad_perServerLimit : Z;
  ad_perTokenLimit : Z;
  ad_global : Z;
  ad_byServer : counter;
  ad_byToken : counter;
}.

Definition newResumableUploadAdmissionRegistry (global perServer perToken : Z) : admissions :=
  mkAdmissions global perServer perToken 0 ∅ ∅.

Definition adm_acquire (serverID tokenID : string) (r : admissions) : option admissions :=
  let tokenKey := joined_key serverID tokenID in
  if (ad_globalLimit r <=? ad_global r)
     || (ad_perServerLimit r <=? count_of serverID (ad_byServer r))
     || (ad_perTokenLimit r <=? count_of tokenKey (ad_byToken r))
  then None
  else Some (mkAdmissions (ad_globalLimit r) (ad_perServerLimit r) (ad_perTokenLimit r)
               (ad_global r + 1) (count_up serverID (ad_byServer r))
               (count_up tokenKey (ad_byToken r))).

(** The closure [acquire] returns; [sync.Once] makes further calls do nothing. *)
Definition adm_release (serverID tokenID : string) (r : admissions) : admissions :=
  mkAdmissions (ad_globalLimit r) (ad_perServerLimit r) (ad_perTokenLimit r)
    (ad_global r - 1) (count_down serverID (ad_byServer r))
    (count_down (joined_key serverID tokenID) (ad_byToken r)).

(** ** Sessions *)

Record session := mkSession {
  ss_serverID : string;
  ss_target : string;
  ss_expires : Z;
  ss_consumed : bool;
}.

Record sessions := mkSessions {
  se_globalLimit : Z;
  se_perServerLimit : Z;
  se_nextExpiry : option Z;             (* None: the zero time *)
  se_sessions : gmap string session;
  se_byServer : counter;
}.

Definition newResumableUploadSessionRegistry (global perServer : Z) : sessions :=
  mkSessions global perServer None ∅ ∅.

(** [r.nextExpiry.IsZero() || expires.Before(r.nextExpiry)] *)
Definition earlier (expires : Z) (next : option Z) : option Z :=
  match next with
  | None => Some expires
  | Some t => if expires <? t then Some expires else next
  end.

(** The loop of [pruneExpired], over the entries of the map in any order. *)
Fixpoint prune_loop (now : Z) (entries : list (string * session)) (r : sessions) : sessions :=
  match entries with
  | [] => r
  | (id, s) :: entries' =>
      prune_loop now entries'
        (if negb (now <? ss_expires s)
         then mkSessions (se_globalLimit r) (se_perServerLimit r) (se_nextExpiry r)
                (delete id (se_sessions r)) (count_down (ss_serverID s) (se_byServer r))
         else mkSessions (se_globalLimit r) (se_perServerLimit r)
                (earlier (ss_expires s) (se_nextExpiry r)) (se_sessions r) (se_byServer r))
  end.

Definition pruneExpired (now : Z) (r : sessions) : sessions :=
  match se_nextExpiry r with
  | None => r
  | Some t =>
      if now <? t then r
      else prune_loop now (map_to_list (se_sessions r))
             (mkSessions (se_globalLimit r) (se_perServerLimit r) None (se_sessions r) (se_byServer r))
  end.

Section Bind.
Context {C : Type} `{TokenCache C}.

Definition bind (now : Z) (token : UploadPayload) (serverID target : string) (r : sessions) (c : C)
    : bool * sessions * C :=
  let r := pruneExpired now r in
  match se_sessions r !! ut_UniqueId token with
  | Some s =>
      (negb (ss_consumed s) && bool_decide (ss_serverID s = serverID)
       && bool_decide (ss_target s = target), r, c)
  | None =>
      if (se_globalLimit r <=? Z.of_nat (size (se_sessions r)))
         || (se_perServerLimit r <=? count_of serverID (se_byServer r))
      then (false, r, c)
      else match pl_ExpirationTime (ut_payload token) with
      | None => (false, r, c)
      | Some expires =>
          if negb (now <? expires) then (false, r, c)
          else
            let '(fresh, c') := IsValidToken now (ut_UniqueId token) c in
            if negb fresh then (false, r, c')
            else (true,
                  mkSessions (se_globalLimit r) (se_perServerLimit r)
                    (earlier expires (se_nextExpiry r))
                    (<[ut_UniqueId token := mkSession serverID target expires false]> (se_sessions r))
                    (count_up serverID (se_byServer r)), c')
      end
  end.
End Bind.

Definition retire (tokenID serverID target : string) (r : sessions) : sessions :=
  match se_sessions r !! tokenID with
  | Some s =>
      if negb (ss_consumed s) && bool_decide (ss_serverID s = serverID)
         && bool_decide (ss_target s = target)
      then mkSessions (se_globalLimit r) (se_perServerLimit r) (se_nextExpiry r)
             (<[tokenID := mkSession (ss_serverID s) EmptyString (ss_expires s) true]> (se_sessions r))
             (se_byServer r)
      else r
  | None => r
  end.

(** ** Headers *)

(** [strconv.ParseInt(s, 10, 64)] *)
Definition ParseInt64 (s : string) : option Z :=
  let '(neg, digits) :=
    match s with
    | String c s' => if Ascii.eqb c "-"%char then (true, s')
                     else if Ascii.eqb c "+"%char then (false, s') else (false, s)
    | EmptyString => (false, s)
    end in
  if bool_decide (digits = EmptyString) then None
  else
    n ← parse_digits 0 digits;
    if neg : bool then (if 2 ^ 63 <? n then None else Some (- n))
    else (if int64_max <? n then None else Some n).

Definition status := Z.

Definition parseUploadInteger (value : string) (required : bool) : result status Z :=
  if bool_decide (value = EmptyString) && required then Err 400
  else match ParseInt64 value with
  | Some n => if n <? 0 then Err 400 else Ok n
  | None => Err 400
  end.

(** [None]: the header is absent. *)
Definition parseOptionalUploadInteger (value : string) : result status (option Z) :=
  if bool_decide (value = EmptyString) then Ok None
  else n ← parseUploadInteger value false; Ok (Some n).

Definition parseUploadComplete (value : string) : result status bool :=
  if bool_decide (value = EmptyString) || bool_decide (value = "?0"%string) then Ok false
  else if bool_decide (value = "?1"%string) then Ok true
  else Err 400.

Definition resumableUploadLimit (megabytes : Z) : result status Z :=
  let maxMegabytes := int64_max / (1024 * 1024) in
  if (megabytes <=? 0) || (maxMegabytes <? megabytes) then Err 500
  else Ok (megabytes * 1024 * 1024).

(** ** The handlers *)

(** What [Lstat] finds at the target: nothing, a regular file, or something else. *)
Inductive file := Regular (data : list byte) | Special.

Definition resumableUploadOffset (lstat_fails : bool) (f : option file) : result status Z :=
  if lstat_fails then Err 404
  else match f with
  | None => Ok 0
  | Some (Regular data) => Ok (zlen data)
  | Some Special => Err 404
  end.

Inductive copy_error := CopyDiskSpace | CopyIdleTimeout | CopyOther.

(** A request: the token's verified claims, the query, the headers, the body, and the
    outcomes of the system calls.  [rq_cut]: the copy stops with an error after some
    bytes. *)
Record request := mkRequest {
  rq_token : option UploadPayload;       (* None: ParseToken fails *)
  rq_serverKnown : bool;
  rq_directory : string;
  rq_file : string;
  rq_contentType : string;
  rq_offset : string;
  rq_length : string;
  rq_complete : string;
  rq_contentLength : Z;                  (* -1: unknown *)
  rq_body : list byte;
  rq_cut : option (nat * copy_error);
  rq_lstatFails : bool;
  rq_mkdir : bool;
  rq_touch : bool;
  rq_truncate : bool;                    (* the rollback's Truncate works *)
  rq_close : bool;
  rq_chown : bool;
}.

(** The process-wide state, the files by lock key, and the server's disk. *)
Record uploads (C : Type) := mkUploads {
  up_locks : locks;
  up_adm : admissions;
  up_sess : sessions;
  up_cache : C;
  up_files : gmap string file;
  up_activity : list string;             (* keys of files whose upload was recorded *)
}.
Arguments mkUploads {C}. Arguments up_locks {C}. Arguments up_adm {C}. Arguments up_sess {C}.
Arguments up_cache {C}. Arguments up_files {C}. Arguments up_activity {C}.

Section Handlers.
Context {C : Type} `{TokenCache C}.

(** The configuration, the clock, the denials, the deny list and the disk. *)
Variable megabytes : Z.
Variable now : Z.
Variable dn : denials.
Variable matches : string → bool.
Variable fs : Filesystem.

Definition resumableUploadServer (rq : request) : result status UploadPayload :=
  match rq_token rq with
  | None => Err 404
  | Some token =>
      if negb (rq_serverKnown rq) || bool_decide (ut_UniqueId token = EmptyString)
         || ut_Denylisted dn token || negb (HasScope (ut_scope token) FileUpload)
      then Err 404 else Ok token
  end.

Definition resumableUploadTarget (rq : request) : result status (string * string) :=
  match normalizeBetterFilesUploadPath (rq_directory rq) (rq_file rq) with
  | Err _ => Err 404
  | Ok (directory, target) =>
      match ensureBetterFilesAllowed matches [target] with
      | Err _ => Err 404
      | Ok _ => Ok (directory, target)
      end
  end.

(** The bytes [io.CopyBuffer] reads from the limited body. *)
Definition copied (allowed : Z) (rq : request) : list byte :=
  let limited := take (Z.to_nat (allowed + 1)) (rq_body rq) in
  match rq_cut rq with
  | Some (n, _) => take n limited
  | None => limited
  end.

(** How the part of [patchServerUploadFile] that holds the file's lock ends. *)
Record chunk_result := mkChunk {
  cr_status : status;
  cr_offset : option Z;                  (* the last Upload-Offset header *)
  cr_file : option file;
  cr_completed : bool;
}.

Definition append_chunk (rq : request) (directory : string) (requestedOffset : Z)
    (uploadLength : option Z) (complete : bool) (maxSize : Z) (f : option file) : chunk_result :=
  match resumableUploadOffset (rq_lstatFails rq) f with
  | Err code => mkChunk code None f false
  | Ok current =>
      let refuse code := mkChunk code (Some current) f false in
      let inconsistent := match uploadLength with
                          | Some len => (len <? current) || (len <? requestedOffset)
                          | None => false
                          end in
      let allowed := match uploadLength with
                     | Some len => if len - current <? maxSize - current then len - current
                                   else maxSize - current
                     | None => maxSize - current
                     end in
      if negb (requestedOffset =? current) then refuse 409
      else if (maxSize <? current) || inconsistent then refuse 409
      else if (0 <=? rq_contentLength rq) && (allowed <? rq_contentLength rq) then refuse 413
      else if negb (is_ok (HasSpaceFor (Z.max (rq_contentLength rq) 0) fs)) then refuse 507
      else if negb (bool_decide (directory = "/"%string)) && negb (rq_mkdir rq) then refuse 500
      else if negb (rq_touch rq) then refuse 500
      else
        let old := match f with Some (Regular d) => d | _ => [] end in
        let written := copied allowed rq in
        let kept := Some (Regular (old ++ written)) in
        let rolled := if rq_truncate rq then Some (Regular old) else kept in
        if negb (bool_decide (rq_cut rq = None)) || (allowed <? zlen written) then
          mkChunk (match rq_cut rq with
                   | Some (_, CopyDiskSpace) => 507
                   | cut => if allowed <? zlen written then 413
                            else match cut with Some (_, CopyIdleTimeout) => 408 | _ => 500 end
                   end) (Some current) rolled false
        else
          let newOffset := current + zlen written in
          if complete && negb (bool_decide (uploadLength = None ∨ uploadLength = Some newOffset))
          then mkChunk 409 (Some current) rolled false
          else if negb (rq_close rq) || negb (rq_chown rq)
          then mkChunk 500 (Some current) kept false
          else mkChunk 200 (Some newOffset) kept complete
  end.

Definition patchServerUploadFile (rq : request) (up : uploads C)
    : status * option Z * uploads C :=
  let stop code := (code, None, up) in
  match resumableUploadServer rq, resumableUploadTarget rq with
  | Err code, _ | Ok _, Err code => stop code
  | Ok token, Ok (directory, target) =>
      if negb (bool_decide (rq_contentType rq = "application/offset+octet-stream"%string)) then stop 415
      else match parseUploadInteger (rq_offset rq) true,
                 parseOptionalUploadInteger (rq_length rq),
                 parseUploadComplete (rq_complete rq), resumableUploadLimit megabytes with
      | Err code, _, _, _ | Ok _, Err code, _, _ | Ok _, Ok _, Err code, _ | Ok _, Ok _, Ok _, Err code =>
          stop code
      | Ok requestedOffset, Ok uploadLength, Ok complete, Ok maxSize =>
          if match uploadLength with Some len => maxSize <? len | None => false end then stop 413
          else
            let id := ut_ServerUuid token in
            let key := joined_key id target in
            let '(bound, sess, cache) := bind now token id target (up_sess up) (up_cache up) in
            let up1 := mkUploads (up_locks up) (up_adm up) sess cache (up_files up) (up_activity up) in
            if negb bound then (404, None, up1)
            else match adm_acquire id (ut_UniqueId token) (up_adm up) with
            | None => (429, None, up1)
            | Some adm =>
                match lock_acquire key (up_locks up) with
                | None =>
                    (409, None, mkUploads (up_locks up) (adm_release id (ut_UniqueId token) adm)
                                  sess cache (up_files up) (up_activity up))
                | Some lk =>
                    let r := append_chunk rq directory requestedOffset uploadLength complete maxSize
                               (up_files up !! key) in
                    (cr_status r, cr_offset r,
                     mkUploads (lock_release key lk) (adm_release id (ut_UniqueId token) adm)
                       (if cr_completed r then retire (ut_UniqueId token) id target sess else sess)
                       cache
                       (match cr_file r with
                        | Some f => <[key := f]> (up_files up)
                        | None => up_files up
                        end)
                       (if cr_completed r then key :: up_activity up else up_activity up))
                end
            end
      end
  end.

Definition headServerUploadFile (rq : request) (up : uploads C) : status * option Z * uploads C :=
  match resumableUploadServer rq, resumableUploadTarget rq with
  | Err code, _ | Ok _, Err code => (code, None, up)
  | Ok token, Ok (_, target) =>
      let id := ut_ServerUuid token in
      let key := joined_key id target in
      let '(bound, sess, cache) := bind now token id target (up_sess up) (up_cache up) in
      let up1 := mkUploads (up_locks up) (up_adm up) sess cache (up_files up) (up_activity up) in
      if negb bound then (404, None, up1)
      else match lock_acquire key (up_locks up) with
      | None => (503, None, up1)
      | Some lk =>
          let up2 := mkUploads (lock_release key lk) (up_adm up) sess cache (up_files up)
                       (up_activity up) in
          match resumableUploadOffset (rq_lstatFails rq) (up_files up !! key) with
          | Err code => (code, None, up2)
          | Ok offset => (200, Some offset, up2)
          end
      end
  end.

End Handlers.
