(* ===== verification/UploadsFacts.v ===== *)
(** * Correctness of resumable uploads

    The registries as systems of requests, the chunk that is appended, and the handlers. *)

From stdpp Require Import base gmap sets list strings numbers relations.
From Stdlib Require Import Ascii Strings.Byte.
From S2P Require Import Prelude GoStrings Disk Paths Tokens Uploads.
Open Scope Z_scope.

(** ** Offsets in headers *)

(** Offsets survive the wire.  The Upload-Offset header Wings sends for any
    offset an int64 can hold is read back, by the parser of the same header, as that
    offset. *)
Theorem upload_offset_roundtrip n :
  0 ≤ n ≤ int64_max → parseUploadInteger (FormatInt n) true = Ok n.
Proof.
  intros Hn. assert (10 ^ Z.of_nat 20 = 100000000000000000000) as E by reflexivity.
  unfold FormatInt. rewrite (proj2 (Z.ltb_ge n 0)) by lia.
  assert (parse_digits 0 (format_digits 20 n EmptyString) = Some n) as Hp.
  { rewrite parse_format; [done|]. rewrite E. unfold int64_max in Hn. lia. }
  unfold parseUploadInteger, ParseInt64.
  destruct (format_digits_head 20 n EmptyString ltac:(lia) ltac:(lia)) as (d & s & Hd & Es).
  rewrite Es in *. rewrite bool_decide_false by done. cbn [andb].
  assert (∀ c, byteZ c < 48 → Ascii.eqb (ascii_of_N (Z.to_N (48 + d))) c = false) as Hne.
  { intros c Hc. apply Ascii.eqb_neq. intros Eq. rewrite <-Eq, byteZ_ascii in Hc; lia. }
  rewrite !Hne by done. rewrite bool_decide_false by done. rewrite Hp. cbn [mbind option_bind].
  rewrite (proj2 (Z.ltb_ge int64_max n)) by lia. by rewrite (proj2 (Z.ltb_ge n 0)) by lia.
Qed.

(** ** Counters *)

(** A counter that counts, for every key, the elements of a list with that key. *)
Definition tally {A} (f : A → string) (l : list A) (k : string) : Z :=
  zlen (filter (λ a, f a = k) l).
Definition counts {A} (f : A → string) (l : list A) (m : counter) : Prop :=
  ∀ k, m !! k = if decide (tally f l k = 0) then None else Some (tally f l k).

Lemma tally_nonneg {A} (f : A → string) l k : 0 ≤ tally f l k.
Proof. unfold tally, zlen. lia. Qed.

Lemma tally_cons {A} (f : A → string) a l k :
  tally f (a :: l) k = (if decide (f a = k) then 1 else 0) + tally f l k.
Proof. unfold tally, zlen. rewrite filter_cons. case_decide; simpl; lia. Qed.

#[global] Instance tally_Permutation {A} (f : A → string) : Proper ((≡ₚ) ==> (=) ==> (=)) (tally f).
Proof. intros l l' Hl k ? <-. unfold tally, zlen. by rewrite Hl. Qed.

#[global] Instance counts_Permutation {A} (f : A → string) : Proper ((≡ₚ) ==> (=) ==> iff) (counts f).
Proof.
  intros l l' Hl m ? <-. assert (∀ k, tally f l k = tally f l' k) as E by (intros k; by rewrite Hl).
  split; intros Hc k; specialize (Hc k); [by rewrite <-E|by rewrite E].
Qed.

Lemma counts_of {A} (f : A → string) l m k : counts f l m → count_of k m = tally f l k.
Proof. intros Hc. unfold count_of. rewrite Hc. case_decide; simpl; lia. Qed.

Lemma counts_up {A} (f : A → string) a l m :
  counts f l m → counts f (a :: l) (count_up (f a) m).
Proof.
  intros Hc k. unfold count_up. rewrite (counts_of f l m _ Hc), tally_cons.
  pose proof (tally_nonneg f l k). destruct (decide (f a = k)) as [<-|Hne].
  - rewrite lookup_insert_eq, decide_False by lia. f_equal. lia.
  - rewrite lookup_insert_ne by done. by rewrite Hc.
Qed.

Lemma counts_down {A} (f : A → string) a l m :
  counts f (a :: l) m → counts f l (count_down (f a) m).
Proof.
  intros Hc k. unfold count_down. rewrite (counts_of f _ m _ Hc), tally_cons, decide_True by done.
  pose proof (tally_nonneg f l k). replace (1 + tally f l (f a) - 1) with (tally f l (f a)) by lia.
  destruct (decide (f a = k)) as [<-|Hne].
  - destruct (Z.eqb_spec (tally f l (f a)) 0) as [E|E].
    + by rewrite lookup_delete_eq, decide_True.
    + by rewrite lookup_insert_eq, decide_False.
  - specialize (Hc k). rewrite tally_cons, (decide_False (P := f a = k)) in Hc by done.
    change (0 + tally f l k) with (tally f l k) in Hc.
    destruct (_ =? 0); [rewrite lookup_delete_ne by done|rewrite lookup_insert_ne by done]; done.
Qed.

(** ** Admissions *)

(** The requests being served. *)
Definition active := list (string * string).

Definition adm_token (p : string * string) : string := joined_key (fst p) (snd p).

Record adm_inv (r : admissions) (l : active) : Prop := {
  ai_global : ad_global r = zlen l;
  ai_server : counts fst l (ad_byServer r);
  ai_token : counts adm_token l (ad_byToken r);
}.

(** The registry as requests come and go, in any order. *)
Inductive adm_step : admissions * active → admissions * active → Prop :=
| adm_enter s t r r' l :
    adm_acquire s t r = Some r' → adm_step (r, l) (r', (s, t) :: l)
| adm_refuse s t r l :
    adm_acquire s t r = None → adm_step (r, l) (r, l)
| adm_leave s t r l1 l2 :
    adm_step (r, l1 ++ (s, t) :: l2) (adm_release s t r, l1 ++ l2).

(** Within the limits. *)
Definition adm_within (r : admissions) (l : active) : Prop :=
  ad_global r ≤ Z.max 0 (ad_globalLimit r)
  ∧ (∀ s, tally fst l s ≤ Z.max 0 (ad_perServerLimit r))
  ∧ (∀ k, tally adm_token l k ≤ Z.max 0 (ad_perTokenLimit r)).

Lemma adm_enter_ok s t r r' l :
  adm_inv r l → adm_within r l → adm_acquire s t r = Some r' →
  adm_inv r' ((s, t) :: l) ∧ adm_within r' ((s, t) :: l).
Proof.
  intros [Hg Hs Ht] (Wg & Ws & Wt) Ha. unfold adm_acquire in Ha.
  destruct (Z.leb_spec (ad_globalLimit r) (ad_global r)); [done|].
  destruct (Z.leb_spec (ad_perServerLimit r) (count_of s (ad_byServer r))) as [|Hsl]; [done|].
  destruct (Z.leb_spec (ad_perTokenLimit r) (count_of (joined_key s t) (ad_byToken r))) as [|Htl];
    [done|]. injection Ha as <-.
  rewrite (counts_of fst l) in Hsl by done. rewrite (counts_of adm_token l) in Htl by done. split.
  - split; simpl; [rewrite Hg; unfold zlen; simpl; lia|..].
    + by apply (counts_up fst (s, t)).
    + by apply (counts_up adm_token (s, t)).
  - split_and!; simpl; [lia|..].
    + intros k. rewrite tally_cons. specialize (Ws k). simpl. case_decide; subst; lia.
    + intros k. rewrite tally_cons. specialize (Wt k). unfold adm_token at 1. simpl.
      case_decide; subst; lia.
Qed.

Lemma adm_leave_ok s t r l1 l2 :
  adm_inv r (l1 ++ (s, t) :: l2) → adm_within r (l1 ++ (s, t) :: l2) →
  adm_inv (adm_release s t r) (l1 ++ l2) ∧ adm_within (adm_release s t r) (l1 ++ l2).
Proof.
  intros [Hg Hs Ht] (Wg & Ws & Wt).
  assert (zlen (l1 ++ (s, t) :: l2) = 1 + zlen (l1 ++ l2)) as El
    by (unfold zlen; rewrite !length_app; simpl; lia).
  split.
  - split; simpl; [lia|..].
    + apply (counts_down fst (s, t)). by rewrite Permutation_middle.
    + apply (counts_down adm_token (s, t)). by rewrite Permutation_middle.
  - split_and!; simpl; [lia|..].
    + intros k. specialize (Ws k). rewrite <-Permutation_middle, tally_cons in Ws. case_decide; lia.
    + intros k. specialize (Wt k). rewrite <-Permutation_middle, tally_cons in Wt. case_decide; lia.
Qed.

(** Admissions are counted exactly.  From an empty registry, however requests are
    admitted, refused and finished, the three counters equal the numbers of requests
    being served in all, for the server and for the token; none exceeds its limit;
    and when no request is left the registry is empty again, so that no server or
    token leaves an entry behind. *)
Theorem admissions_exact global perServer perToken r l :
  rtc adm_step (newResumableUploadAdmissionRegistry global perServer perToken, []) (r, l) →
  adm_inv r l ∧ adm_within r l ∧ (l = [] → ad_global r = 0 ∧ ad_byServer r = ∅ ∧ ad_byToken r = ∅).
Proof.
  intros Hr. remember (newResumableUploadAdmissionRegistry _ _ _, []) as p0 eqn:E0.
  remember (r, l) as p1 eqn:E1. revert r l E1.
  cut (adm_inv p1.1 p1.2 ∧ adm_within p1.1 p1.2).
  { intros [Hi Hw] r l ->. simpl in *. split; [done|]. split; [done|]. intros ->.
    destruct Hi as [Hg Hs Ht]. split; [done|].
    split; apply map_eq; intros k; [rewrite Hs|rewrite Ht]; by rewrite lookup_empty. }
  assert (adm_inv p0.1 p0.2 ∧ adm_within p0.1 p0.2) as Hi.
  { subst p0. split; [split; simpl; try done; intros k; by rewrite lookup_empty|].
    unfold adm_within, tally, zlen. simpl. split_and!; intros; lia. }
  clear E0. induction Hr as [|x y z Hs _ IH]; [done|]. apply IH. clear IH.
  destruct Hi as [Hi Hw]. destruct Hs; simpl in *; [by eapply adm_enter_ok|done|by apply adm_leave_ok].
Qed.

(** ** Sessions *)

(** The servers of the sessions a registry holds. *)
Definition held (m : gmap string session) : list session := (map_to_list m).*2.

Record sess_inv (r : sessions) : Prop := {
  si_server : counts ss_serverID (held (se_sessions r)) (se_byServer r);
  si_next : ∀ id s, se_sessions r !! id = Some s →
    ∃ t, se_nextExpiry r = Some t ∧ t ≤ ss_expires s;
}.

Definition sess_within (r : sessions) : Prop :=
  Z.of_nat (size (se_sessions r)) ≤ Z.max 0 (se_globalLimit r)
  ∧ ∀ s, tally ss_serverID (held (se_sessions r)) s ≤ Z.max 0 (se_perServerLimit r).

Lemma held_insert m id s : m !! id = None → held (<[id := s]> m) ≡ₚ s :: held m.
Proof. intros Hn. unfold held. by rewrite map_to_list_insert. Qed.

Lemma held_delete m id s : m !! id = Some s → held m ≡ₚ s :: held (delete id m).
Proof. intros Hs. rewrite <-held_insert by apply lookup_delete_eq. by rewrite insert_delete_id. Qed.

Lemma earlier_le e next t : earlier e next = Some t → t ≤ e ∧ ∀ u, next = Some u → t ≤ u.
Proof.
  unfold earlier. destruct next as [u|]; [|intros [= ->]; split; [lia|done]].
  destruct (Z.ltb_spec e u); intros [= <-]; (split; [lia|]); intros v [= <-]; lia.
Qed.

Lemma earlier_Some e next : ∃ t, earlier e next = Some t.
Proof. unfold earlier. repeat case_match; eauto. Qed.

(** What the loop over the map's entries leaves: the entries still to visit are in the
    map, and those visited and kept are covered by the next expiry. *)
Lemma prune_loop_inv now entries r :
  NoDup entries.*1 → (∀ id s, (id, s) ∈ entries → se_sessions r !! id = Some s) →
  counts ss_serverID (held (se_sessions r)) (se_byServer r) →
  (∀ id s, se_sessions r !! id = Some s → id ∉ entries.*1 →
     now < ss_expires s ∧ ∃ t, se_nextExpiry r = Some t ∧ t ≤ ss_expires s) →
  let r' := prune_loop now entries r in
  sess_inv r' ∧ se_globalLimit r' = se_globalLimit r ∧ se_perServerLimit r' = se_perServerLimit r
  ∧ ∀ id s, se_sessions r' !! id = Some s ↔ se_sessions r !! id = Some s ∧ now < ss_expires s.
Proof.
  revert r. induction entries as [|[id s] entries IH]; intros r Hnd Hin Hc Hrest.
  { simpl. split_and!; [|done..|].
    - split; [done|]. intros id s Hs. apply Hrest in Hs as [_ Hs]; [done|set_solver].
    - intros id s. split; [|by intros []]. intros Hs. split; [done|].
      apply Hrest in Hs as [Hs _]; [done|set_solver]. }
  apply NoDup_cons in Hnd as [Hnid Hnd]. cbn [prune_loop].
  assert (se_sessions r !! id = Some s) as Hs by (apply Hin, elem_of_cons; by left).
  destruct (Z.ltb_spec now (ss_expires s)) as [Hlt|Hge]; cbn [negb].
  - set (r1 := mkSessions _ _ _ _ _).
    assert (∀ id' s', se_sessions r !! id' = Some s' → id' ∉ entries.*1 →
      now < ss_expires s' ∧ ∃ t, se_nextExpiry r1 = Some t ∧ t ≤ ss_expires s') as Hrest'.
    { intros id' s' Hs' Hni. destruct (earlier_Some (ss_expires s) (se_nextExpiry r)) as [t Ht].
      pose proof (earlier_le _ _ _ Ht) as [Hle Hu]. destruct (decide (id' = id)) as [->|Hne].
      - simplify_eq. eauto.
      - destruct (Hrest id' s' Hs') as [Hl (u & Hnu & Hul)]; [by apply not_elem_of_cons|].
        split; [done|]. exists t. split; [done|]. specialize (Hu u Hnu). lia. }
    apply (IH r1); [done| |done|exact Hrest']. intros id' s' Hi. apply Hin, elem_of_cons. by right.
  - set (r1 := mkSessions _ _ _ _ _).
    assert (∀ id' s', se_sessions r1 !! id' = Some s' ↔ se_sessions r !! id' = Some s' ∧ id' ≠ id) as Hr1.
    { intros id' s'. unfold r1. simpl. rewrite lookup_delete_Some. clear. intuition congruence. }
    destruct (IH r1) as (Hi & E1 & E2 & Hiff); [done|..].
    + intros id' s' Hi. apply Hr1. split; [apply Hin, elem_of_cons; by right|]. intros ->.
      apply Hnid. apply (list_elem_of_fmap_2 fst) in Hi. done.
    + unfold r1. simpl. apply (counts_down ss_serverID s). by rewrite <-held_delete.
    + intros id' s' [Hs' Hne]%Hr1 Hni. apply (Hrest id' s' Hs'). by apply not_elem_of_cons.
    + split; [done|]. split; [done|]. split; [done|]. intros id' s'. rewrite Hiff, Hr1.
      split; [intros [[Ha _] Hb]; by split|]. intros [Hs' Hl]. split; [|done]. split; [done|]. intros ->.
      simplify_eq. lia.
Qed.

(** Pruning keeps exactly the sessions that have not expired. *)
Lemma pruneExpired_spec now r :
  sess_inv r →
  let r' := pruneExpired now r in
  sess_inv r' ∧ se_globalLimit r' = se_globalLimit r ∧ se_perServerLimit r' = se_perServerLimit r
  ∧ ∀ id s, se_sessions r' !! id = Some s ↔ se_sessions r !! id = Some s ∧ now < ss_expires s.
Proof.
  intros [Hc Hn]. unfold pruneExpired. destruct (se_nextExpiry r) as [t|] eqn:En.
  - destruct (Z.ltb_spec now t) as [Hlt|Hge].
    + split; [split; [done|]; by rewrite En|]. split; [done|]. split; [done|]. intros id s.
      split; [|by intros []]. intros Hs. split; [done|]. apply Hn in Hs as (u & Hu & Hle).
      injection Hu as <-. lia.
    + apply (prune_loop_inv now (map_to_list (se_sessions r)) (mkSessions _ _ None _ _)); simpl.
      * apply NoDup_fst_map_to_list.
      * intros id s Hi. by apply elem_of_map_to_list.
      * done.
      * intros id s Hs Hni. exfalso. apply Hni. apply list_elem_of_fmap. exists (id, s).
        by rewrite elem_of_map_to_list.
  - split; [split; [done|]; by rewrite En|]. split; [done|]. split; [done|]. intros id s.
    split; [|by intros []]. intros Hs. by apply Hn in Hs as (u & Hu & _).
Qed.

Lemma tally_submseteq {A} (f : A → string) l l' k : l ⊆+ l' → tally f l k ≤ tally f l' k.
Proof.
  induction 1 as [|x l l' _ IH|x y l|x l l' _ IH|l1 l2 l3 _ IH1 _ IH2];
    rewrite ?tally_cons; repeat case_decide; lia.
Qed.

Lemma held_subseteq m m' : m ⊆ m' → held m ⊆+ held m'.
Proof. intros Hm. apply fmap_submseteq. by apply map_to_list_submseteq. Qed.

(** A registry with fewer sessions is still within its limits. *)
Lemma within_subseteq r r' :
  sess_within r → se_sessions r' ⊆ se_sessions r → se_globalLimit r' = se_globalLimit r →
  se_perServerLimit r' = se_perServerLimit r → sess_within r'.
Proof.
  intros [Wg Ws] Hsub E1 E2. split.
  - rewrite E1. pose proof (map_subseteq_size _ _ Hsub). lia.
  - intros s. rewrite E2. specialize (Ws s).
    pose proof (tally_submseteq ss_serverID _ _ s (held_subseteq _ _ Hsub)). lia.
Qed.

Lemma pruneExpired_ok now r :
  sess_inv r → sess_within r → sess_inv (pruneExpired now r) ∧ sess_within (pruneExpired now r).
Proof.
  intros Hi Hw. destruct (pruneExpired_spec now r Hi) as (Hi' & E1 & E2 & Hiff).
  split; [done|]. apply (within_subseteq r); [done| |done|done].
  apply map_subseteq_spec. intros id s Hs. by apply Hiff in Hs as [? _].
Qed.

Lemma retire_ok id srv target r :
  sess_inv r → sess_within r → sess_inv (retire id srv target r) ∧ sess_within (retire id srv target r).
Proof.
  intros Hi Hw. unfold retire. destruct (se_sessions r !! id) as [s|] eqn:Es; [|done].
  case_match; [|done]. destruct Hi as [Hc Hn]. destruct Hw as [Wg Ws].
  set (s' := mkSession _ _ _ _). set (m' := <[id := s']> (se_sessions r)).
  assert (∀ k, tally ss_serverID (held m') k = tally ss_serverID (held (se_sessions r)) k) as Ht.
  { intros k. rewrite (held_delete (se_sessions r) id s Es). unfold m'.
    rewrite <-insert_delete_eq, held_insert by apply lookup_delete_eq. by rewrite !tally_cons. }
  split.
  - split; simpl.
    + intros k. fold m'. rewrite Ht. apply Hc.
    + intros id' x. unfold m'. rewrite lookup_insert_Some.
      intros [[<- <-]|[_ Hx]]; [by apply (Hn id s)|by apply (Hn id')].
  - split; simpl.
    + unfold m'. by rewrite map_size_insert, Es.
    + intros k. fold m'. rewrite Ht. apply Ws.
Qed.

Section Sessions.
Context {C : Type} `{TokenCache C}.

Lemma bind_ok now token srv target r (c : C) b r' c' :
  sess_inv r → sess_within r → bind now token srv target r c = (b, r', c') →
  sess_inv r' ∧ sess_within r'.
Proof.
  intros Hi Hw Hb. destruct (pruneExpired_ok now r Hi Hw) as [Hi1 Hw1]. unfold bind in Hb.
  set (r1 := pruneExpired now r) in *.
  destruct (se_sessions r1 !! ut_UniqueId token) as [s|] eqn:Es; [by simplify_eq|].
  destruct (Z.leb_spec (se_globalLimit r1) (Z.of_nat (size (se_sessions r1)))) as [|Hg]; [by simplify_eq/=|].
  destruct (Z.leb_spec (se_perServerLimit r1) (count_of srv (se_byServer r1))) as [|Hs]; [by simplify_eq/=|].
  destruct (pl_ExpirationTime (ut_payload token)) as [e|]; [|by simplify_eq/=].
  destruct (now <? e); [|by simplify_eq/=]. cbn [orb negb] in Hb.
  destruct (IsValidToken now (ut_UniqueId token) c) as [[] c1]; simplify_eq/=; [|done].
  destruct Hi1 as [Hc Hn]. destruct Hw1 as [Wg Ws].
  rewrite (counts_of ss_serverID (held (se_sessions r1))) in Hs by done.
  set (s' := mkSession srv target e false). split.
  - split; simpl.
    + rewrite held_insert by done. by apply (counts_up ss_serverID s').
    + intros id x. destruct (earlier_Some e (se_nextExpiry r1)) as [t Ht]. rewrite Ht.
      pose proof (earlier_le _ _ _ Ht) as [Hle Hu].
      rewrite lookup_insert_Some. intros [[<- <-]|[_ Hx]]; [by exists t|].
      apply Hn in Hx as (u & Hnu & Hul). exists t. split; [done|]. specialize (Hu u Hnu). lia.
  - split; simpl.
    + rewrite map_size_insert_None by done. lia.
    + intros k. rewrite held_insert, tally_cons by done. specialize (Ws k). simpl.
      case_decide; subst; lia.
Qed.

(** The registry's operations, at any times and for any tokens. *)
Inductive sess_step : sessions * C → sessions * C → Prop :=
| ss_bind now token srv target r c b r' c' :
    bind now token srv target r c = (b, r', c') → sess_step (r, c) (r', c')
| ss_retire id srv target r c :
    sess_step (r, c) (retire id srv target r, c)
| ss_prune now r c :
    sess_step (r, c) (pruneExpired now r, c).

Lemma sess_step_ok x y :
  sess_step x y → sess_inv x.1 → sess_within x.1 → sess_inv y.1 ∧ sess_within y.1.
Proof.
  intros Hs Hi Hw. destruct Hs; simpl in *; [by eapply bind_ok|by apply retire_ok|by apply pruneExpired_ok].
Qed.

(** Sessions are bounded and counted exactly.  In every state the registry of
    upload sessions reaches, the per-server counters equal the numbers of sessions of
    each server, no more sessions are held than the global and the per-server limit
    allow, and the next expiry is not later than any session's, so that pruning
    never misses one. *)
Theorem sessions_bounded global perServer (c0 : C) r c :
  rtc sess_step (newResumableUploadSessionRegistry global perServer, c0) (r, c) →
  sess_inv r ∧ sess_within r.
Proof.
  intros Hr. change (sess_inv (r, c).1 ∧ sess_within (r, c).1).
  assert (sess_inv (newResumableUploadSessionRegistry global perServer, c0).1
    ∧ sess_within (newResumableUploadSessionRegistry global perServer, c0).1) as Hi.
  { split; split; simpl.
    - intros k. by rewrite lookup_empty.
    - intros id s Hs. by rewrite lookup_empty in Hs.
    - rewrite map_size_empty. lia.
    - intros s. unfold held. rewrite map_to_list_empty. unfold tally, zlen. simpl. lia. }
  induction Hr as [|x y z Hs _ IH]; [done|]. apply IH. destruct Hi. by eapply sess_step_ok.
Qed.

(** *** One file per token *)

(** The state of the registry at a time, as the token [id], which expires at [e], is
    used up: its session is consumed, or it is past its expiry. *)
Definition spent (id : string) (e t : Z) (r : sessions) : Prop :=
  match se_sessions r !! id with
  | Some s => ss_consumed s = true ∧ ss_expires s = e
  | None => e ≤ t
  end.

(** Steps as time passes; every token with this id is the same token. *)
Inductive timed_step (id : string) (e : Z) : Z * sessions * C → Z * sessions * C → Prop :=
| td_bind t now token srv target r c b r' c' :
    t ≤ now → (ut_UniqueId token = id → pl_ExpirationTime (ut_payload token) = Some e) →
    bind now token srv target r c = (b, r', c') →
    timed_step id e (t, r, c) (now, r', c')
| td_retire t id' srv target r c :
    timed_step id e (t, r, c) (t, retire id' srv target r, c)
| td_prune t now r c :
    t ≤ now → timed_step id e (t, r, c) (now, pruneExpired now r, c).

Lemma prune_spent id e t now r :
  sess_inv r → t ≤ now → spent id e t r → spent id e now (pruneExpired now r).
Proof.
  intros Hi Ht Hs. destruct (pruneExpired_spec now r Hi) as (_ & _ & _ & Hiff). unfold spent in *.
  destruct (se_sessions (pruneExpired now r) !! id) as [s'|] eqn:E'.
  - apply Hiff in E' as [E' _]. by rewrite E' in Hs.
  - destruct (se_sessions r !! id) as [s|] eqn:E; [|lia]. destruct Hs as [_ He].
    destruct (Z.le_gt_cases e now) as [|Hlt]; [done|]. exfalso.
    assert (se_sessions (pruneExpired now r) !! id = Some s) by (apply Hiff; split; [done|lia]).
    congruence.
Qed.

Lemma bind_spent id e t now token srv target r (c : C) b r' c' :
  sess_inv r → t ≤ now → spent id e t r →
  (ut_UniqueId token = id → pl_ExpirationTime (ut_payload token) = Some e) →
  bind now token srv target r c = (b, r', c') →
  spent id e now r' ∧ (ut_UniqueId token = id → b = false).
Proof.
  intros Hi Ht Hs He Hb. apply (prune_spent id e t now r Hi Ht) in Hs as Hs1. unfold bind in Hb.
  set (r1 := pruneExpired now r) in *.
  destruct (se_sessions r1 !! ut_UniqueId token) as [s|] eqn:Es.
  { simplify_eq. split; [done|]. intros <-. unfold spent in Hs1. rewrite Es in Hs1.
    destruct Hs1 as [-> _]. done. }
  destruct (_ || _); [simplify_eq/=; split; done|].
  destruct (pl_ExpirationTime (ut_payload token)) as [e'|] eqn:Ee; [|simplify_eq/=; split; done].
  destruct (Z.ltb_spec now e') as [Hlt|]; [|simplify_eq/=; split; done]. cbn [negb] in Hb.
  assert (ut_UniqueId token ≠ id) as Hne.
  { intros <-. specialize (He eq_refl). simplify_eq. unfold spent in Hs1. rewrite Es in Hs1. lia. }
  destruct (IsValidToken now (ut_UniqueId token) c) as [[] c1]; simplify_eq/=; (split; [|done]); [|done].
  unfold spent in *. simpl. by rewrite lookup_insert_ne.
Qed.

Lemma retire_spent id e t id' srv target r : spent id e t r → spent id e t (retire id' srv target r).
Proof.
  unfold spent, retire. intros Hs. destruct (se_sessions r !! id') as [s|] eqn:E; [|done].
  destruct (_ && _); [|done]. simpl. destruct (decide (id' = id)) as [->|Hne].
  - rewrite lookup_insert_eq. rewrite E in Hs. by destruct Hs.
  - by rewrite lookup_insert_ne.
Qed.

Lemma timed_inv id e x y :
  timed_step id e x y → sess_inv x.1.2 → sess_within x.1.2 → spent id e x.1.1 x.1.2 →
  sess_inv y.1.2 ∧ sess_within y.1.2 ∧ spent id e y.1.1 y.1.2.
Proof.
  intros Hs Hi Hw Hp. destruct Hs as [t now token srv target r c b r' c' Ht He Hb|t id' srv target r c|t now r c Ht];
    simpl in *.
  - destruct (bind_ok _ _ _ _ _ _ _ _ _ Hi Hw Hb). split_and!; [done|done|].
    by destruct (bind_spent _ _ _ _ _ _ _ _ _ _ _ _ Hi Ht Hp He Hb).
  - destruct (retire_ok id' srv target r Hi Hw). split_and!; [done|done|by apply retire_spent].
  - destruct (pruneExpired_ok now r Hi Hw). split_and!; [done|done|by eapply prune_spent].
Qed.

(** C21: a completed upload cannot be repeated with its token.  Once the upload of a
    token's session is complete and the session is retired, no later request with
    that token is bound to any file, whatever other requests do and also after the
    session has expired and been forgotten. *)
Theorem completed_upload_final id e t r (c : C) srv target s now r1 c1 token srv' target' :
  sess_inv r → sess_within r →
  se_sessions r !! id = Some s → ss_consumed s = false → ss_serverID s = srv → ss_target s = target →
  ss_expires s = e →
  rtc (timed_step id e) (t, retire id srv target r, c) (now, r1, c1) →
  ut_UniqueId token = id → pl_ExpirationTime (ut_payload token) = Some e →
  fst (fst (bind now token srv' target' r1 c1)) = false.
Proof.
  intros Hi Hw Hs Hcons Hsrv Htgt Hexp Hsteps Hid He.
  assert (spent id e t (retire id srv target r)) as Hp.
  { unfold spent, retire. rewrite Hs, Hcons, !bool_decide_true by done. simpl.
    by rewrite lookup_insert_eq. }
  destruct (retire_ok id srv target r Hi Hw) as [Hi' Hw'].
  assert (∀ x y, rtc (timed_step id e) x y → sess_inv x.1.2 → sess_within x.1.2 →
    spent id e x.1.1 x.1.2 → sess_inv y.1.2 ∧ spent id e y.1.1 y.1.2) as Hrun.
  { intros x y Hxy. induction Hxy as [x|x y z Hxy _ IH]; [done|]. intros H1 H2 H3.
    destruct (timed_inv _ _ _ _ Hxy H1 H2 H3) as (H4 & H5 & H6). by apply IH. }
  destruct (Hrun _ _ Hsteps Hi' Hw' Hp) as [Hi1 Hp1]. simpl in Hi1, Hp1.
  destruct (bind now token srv' target' r1 c1) as [[b r2] c2] eqn:Hb.
  by destruct (bind_spent id e now now token srv' target' r1 c1 b r2 c2 Hi1 (Z.le_refl now) Hp1
    (λ _, He) Hb) as [_ ->].
Qed.
End Sessions.

(** ** Appending a chunk *)

Definition content (f : option file) : list byte :=
  match f with Some (Regular d) => d | _ => [] end.

Lemma copied_all allowed rq :
  rq_cut rq = None → zlen (copied allowed rq) ≤ allowed → copied allowed rq = rq_body rq.
Proof.
  intros Hc Hl. unfold copied in *. rewrite Hc in *. apply take_ge. unfold zlen in Hl.
  rewrite length_take in Hl. lia.
Qed.

(** A refused chunk. *)
Ltac refused := split; [intros; discriminate|intros _; split; [reflexivity|auto]].

Section Chunk.
Context (fs : Filesystem).

Lemma append_chunk_spec rq directory offset len complete maxSize f :
  let r := append_chunk fs rq directory offset len complete maxSize f in
  let total := zlen (content f) + zlen (rq_body rq) in
  (cr_status r = 200 →
     f ≠ Some Special ∧ offset = zlen (content f)
     ∧ cr_file r = Some (Regular (content f ++ rq_body rq)) ∧ cr_offset r = Some total
     ∧ total ≤ maxSize ∧ cr_completed r = complete
     ∧ (∀ L, len = Some L → total ≤ L ∧ (complete = true → total = L)))
  ∧ (cr_status r ≠ 200 → cr_completed r = false
     ∧ (rq_truncate rq = true → rq_close rq = true → rq_chown rq = true →
        cr_file r = f ∨ (f = None ∧ cr_file r = Some (Regular [])))).
Proof.
  intros r total. unfold r, append_chunk, resumableUploadOffset.
  destruct (rq_lstatFails rq); [refused|].
  assert (f = Some Special ∨ f ≠ Some Special) as [->|Hf]; [|refused|].
  { destruct f as [[]|]; auto. }
  assert ((match f with None => Ok 0 | Some (Regular data) => Ok (zlen data) | Some Special => Err 404 end
           : result status Z) = Ok (zlen (content f))) as -> by (by destruct f as [[]|]).
  change (match f with Some (Regular d) => d | _ => [] end) with (content f).
  set (inc := match len with Some L => (L <? _) || (L <? _) | None => false end).
  set (allowed := match len with Some L => if L - _ <? _ then _ else _ | None => _ end).
  destruct (Z.eqb_spec offset (zlen (content f))) as [->|]; simpl; [|refused].
  destruct (Z.ltb_spec maxSize (zlen (content f))) as [|Hmax]; simpl; [refused|].
  destruct inc eqn:Einc; simpl; [refused|].
  destruct ((0 <=? rq_contentLength rq) && _); simpl; [refused|].
  destruct (is_ok (HasSpaceFor _ fs)); simpl; [|refused].
  destruct (negb (bool_decide (directory = "/"%string)) && _); simpl; [refused|].
  destruct (rq_touch rq); simpl; [|refused].
  assert (rq_truncate rq = true → (if rq_truncate rq then Some (Regular (content f))
    else Some (Regular (content f ++ copied allowed rq))) = f
    ∨ (f = None ∧ (if rq_truncate rq then Some (Regular (content f))
        else Some (Regular (content f ++ copied allowed rq))) = Some (Regular []))) as Hroll.
  { intros ->. destruct f as [[d|]|]; simpl; [by left|done|by right]. }
  destruct (bool_decide_reflect (rq_cut rq = None)) as [Hcut|Hcut]; simpl.
  2: { split; [|by auto]. intros E. exfalso. revert E.
       destruct (rq_cut rq) as [[n []]|]; [done|..|done]; by destruct (allowed <? _). }
  destruct (Z.ltb_spec allowed (zlen (copied allowed rq))) as [|Hall]; simpl.
  { rewrite Hcut. refused. }
  pose proof (copied_all allowed rq Hcut Hall) as Hbody. rewrite Hbody in *. fold total.
  destruct (complete && negb (bool_decide _)) eqn:Ecomp; simpl.
  { refused. }
  assert (total ≤ maxSize ∧ ∀ L, len = Some L → total ≤ L) as [Htot HL].
  { unfold allowed, total in *. destruct len as [L|].
    - destruct (Z.ltb_spec (L - zlen (content f)) (maxSize - zlen (content f)));
        (split; [lia|]); intros L' [= <-]; lia.
    - split; [lia|done]. }
  destruct (rq_close rq); simpl; [|refused; congruence].
  destruct (rq_chown rq); simpl; [|refused; congruence].
  split; [|done]. intros _. split_and!; try done. intros L HLs. split; [by apply HL|].
  intros ->. simpl in Ecomp. apply negb_false_iff, bool_decide_eq_true in Ecomp.
  destruct Ecomp as [E|E]; congruence.
Qed.

(** C22: a chunk is appended whole or not at all.  A success means the request's offset
    was the size of the file, the file is now its old bytes followed by exactly the
    request's body, its size is the offset reported, within the upload limit and
    within the announced length, and equal to it when the upload is completed.  When
    the chunk is refused (and the rollback, close and chown themselves work) the file
    is as it was, except that a file that did not exist may be left behind empty. *)
Theorem append_chunk_atomic rq directory offset len complete maxSize f :
  let r := append_chunk fs rq directory offset len complete maxSize f in
  let total := zlen (content f) + zlen (rq_body rq) in
  (cr_status r = 200 →
     f ≠ Some Special ∧ offset = zlen (content f)
     ∧ cr_file r = Some (Regular (content f ++ rq_body rq)) ∧ cr_offset r = Some total
     ∧ total ≤ maxSize ∧ cr_completed r = complete
     ∧ (∀ L, len = Some L → total ≤ L ∧ (complete = true → total = L)))
  ∧ (cr_status r ≠ 200 → cr_completed r = false
     ∧ (rq_truncate rq = true → rq_close rq = true → rq_chown rq = true →
        cr_file r = f ∨ (f = None ∧ cr_file r = Some (Regular [])))).
Proof. apply append_chunk_spec. Qed.

Lemma append_chunk_ok rq directory offset len complete maxSize f :
  let r := append_chunk fs rq directory offset len complete maxSize f in
  cr_status r = 200 →
  offset = zlen (content f) ∧ cr_file r = Some (Regular (content f ++ rq_body rq))
  ∧ cr_offset r = Some (zlen (content f) + zlen (rq_body rq))
  ∧ zlen (content f) + zlen (rq_body rq) ≤ maxSize.
Proof.
  intros r Hr. destruct (append_chunk_spec rq directory offset len complete maxSize f) as [Hok _].
  by destruct (Hok Hr) as (_ & ? & ? & ? & ? & _).
Qed.
End Chunk.

(** ** The handler *)

Lemma count_up_down {A} (f : A → string) l k m :
  counts f l m → count_down k (count_up k m) = m.
Proof.
  intros Hc. unfold count_down, count_up.
  assert (count_of k (<[k := count_of k m + 1]> m) - 1 = count_of k m) as ->
    by (unfold count_of at 1; rewrite lookup_insert_eq; simpl; lia).
  rewrite (counts_of f l m k Hc). specialize (Hc k).
  destruct (Z.eqb_spec (tally f l k) 0) as [E|E].
  - rewrite decide_True in Hc by done. by rewrite delete_insert_eq, delete_id.
  - rewrite decide_False in Hc by done. by rewrite insert_insert_eq, insert_id.
Qed.

Lemma adm_balanced s t r r' l : adm_inv r l → adm_acquire s t r = Some r' → adm_release s t r' = r.
Proof.
  intros [Hg Hs Ht] Ha. unfold adm_acquire in Ha. case_match; [done|]. injection Ha as <-.
  unfold adm_release. simpl.
  rewrite (count_up_down fst l), (count_up_down adm_token l) by done.
  destruct r. simpl. f_equal. lia.
Qed.

Lemma lock_balanced k r r' : lock_acquire k r = Some r' → lock_release k r' = r.
Proof.
  unfold lock_acquire, lock_release. destruct (bool_decide_reflect (k ∈ r)) as [|Hk]; [done|].
  case_match; [done|]. intros [= <-]. set_solver.
Qed.

(** Refusals are not successes. *)
Lemma server_refuses dn rq code : resumableUploadServer dn rq = Err code → code = 404.
Proof. unfold resumableUploadServer. repeat case_match; naive_solver. Qed.
Lemma target_refuses matches rq code : resumableUploadTarget matches rq = Err code → code = 404.
Proof. unfold resumableUploadTarget. repeat case_match; naive_solver. Qed.
Lemma integer_refuses v b code : parseUploadInteger v b = Err code → code = 400.
Proof. unfold parseUploadInteger. repeat case_match; naive_solver. Qed.
Lemma optional_refuses v code : parseOptionalUploadInteger v = Err code → code = 400.
Proof.
  unfold parseOptionalUploadInteger. case_match; [done|].
  destruct (parseUploadInteger v false) eqn:E; [done|]. intros [= <-]. by eapply integer_refuses.
Qed.
Lemma complete_refuses v code : parseUploadComplete v = Err code → code = 400.
Proof. unfold parseUploadComplete. repeat case_match; naive_solver. Qed.
Lemma limit_refuses m code : resumableUploadLimit m = Err code → code = 500.
Proof. unfold resumableUploadLimit. case_match; naive_solver. Qed.
Lemma limit_value m n : resumableUploadLimit m = Ok n → n = m * 1024 * 1024.
Proof. unfold resumableUploadLimit. case_match; naive_solver. Qed.

Section Handler.
Context {C : Type} `{TokenCache C}.
Context (megabytes now : Z) (dn : denials) (matches : string → bool) (fs : Filesystem).

(** Every upload request gives back what it takes.  Whatever the request, and on
    every path of the handler, the file locks and the admission registry are, when it
    returns, what they were when it started. *)
Theorem patch_releases rq (up : uploads C) l :
  adm_inv (up_adm up) l →
  let up' := snd (patchServerUploadFile megabytes now dn matches fs rq up) in
  up_locks up' = up_locks up ∧ up_adm up' = up_adm up.
Proof.
  intros Hi. unfold patchServerUploadFile.
  destruct (resumableUploadServer dn rq) as [token|]; [|done].
  destruct (resumableUploadTarget matches rq) as [[directory target]|]; [|done].
  destruct (bool_decide (rq_contentType rq = _)); [|done]. cbn [negb].
  destruct (parseUploadInteger (rq_offset rq) true); [|done].
  destruct (parseOptionalUploadInteger (rq_length rq)) as [len|]; [|done].
  destruct (parseUploadComplete (rq_complete rq)); [|done].
  destruct (resumableUploadLimit megabytes) as [maxSize|]; [|done].
  destruct (match len with Some _ => _ | None => _ end); [done|].
  destruct (bind now token _ target (up_sess up) (up_cache up)) as [[[] sess] cache]; [|done].
  cbn [negb]. destruct (adm_acquire _ _ (up_adm up)) as [adm|] eqn:Ea; [|done].
  pose proof (adm_balanced _ _ _ _ l Hi Ea) as Hadm.
  destruct (lock_acquire _ (up_locks up)) as [lk|] eqn:El; [|done].
  by rewrite (lock_balanced _ _ _ El).
Qed.

(** An upload writes only the file its token is bound to.  When a chunk is
    accepted, the token was valid (known server, upload scope, not revoked) and bound
    to the target, which is the requested file in the requested directory; the target
    and its parents are not denied; the file is within the upload limit; and no other
    file has changed. *)
Theorem patch_accepted rq (up : uploads C) offset up' :
  patchServerUploadFile megabytes now dn matches fs rq up = (200, offset, up') →
  ∃ token directory target,
    rq_token rq = Some token ∧ rq_serverKnown rq = true
    ∧ HasScope (ut_scope token) FileUpload = true ∧ ut_Denylisted dn token = false
    ∧ normalizeBetterFilesUploadPath (rq_directory rq) (rq_file rq) = Ok (directory, target)
    ∧ ensureBetterFilesAllowed matches [target] = Ok tt
    ∧ fst (fst (bind now token (ut_ServerUuid token) target (up_sess up) (up_cache up))) = true
    ∧ let key := joined_key (ut_ServerUuid token) target in
      let old := content (up_files up !! key) in
      up_files up' = <[key := Regular (old ++ rq_body rq)]> (up_files up)
      ∧ offset = Some (zlen old + zlen (rq_body rq))
      ∧ zlen old + zlen (rq_body rq) ≤ megabytes * 1024 * 1024.
Proof.
  unfold patchServerUploadFile. intros Hp.
  destruct (resumableUploadServer dn rq) as [token|code] eqn:Es; [|by apply server_refuses in Es as ->].
  destruct (resumableUploadTarget matches rq) as [[directory target]|code] eqn:Et;
    [|by apply target_refuses in Et as ->].
  destruct (bool_decide (rq_contentType rq = _)); [|done]. cbn [negb] in Hp.
  destruct (parseUploadInteger (rq_offset rq) true) as [off|code] eqn:Eo; [|by apply integer_refuses in Eo as ->].
  destruct (parseOptionalUploadInteger (rq_length rq)) as [len|code] eqn:Eln;
    [|by apply optional_refuses in Eln as ->].
  destruct (parseUploadComplete (rq_complete rq)) as [complete|code] eqn:Ec;
    [|by apply complete_refuses in Ec as ->].
  destruct (resumableUploadLimit megabytes) as [maxSize|code] eqn:Em;
    [|by apply limit_refuses in Em as ->].
  destruct (match len with Some _ => _ | None => _ end); [done|].
  destruct (bind now token _ target (up_sess up) (up_cache up)) as [[[] sess] cache] eqn:Eb; [|done].
  cbn [negb] in Hp. destruct (adm_acquire _ _ (up_adm up)) as [adm|]; [|done].
  destruct (lock_acquire _ (up_locks up)) as [lk|]; [|done].
  set (key := joined_key (ut_ServerUuid token) target) in *.
  injection Hp as Hst Hof Hup.
  destruct (append_chunk_ok fs rq directory off len complete maxSize (up_files up !! key) Hst)
    as (_ & Hfile & Hoff & Hmax). rewrite Hfile in Hup. rewrite Hoff in Hof. clear Hfile Hst Hoff.
  unfold resumableUploadServer in Es. unfold resumableUploadTarget in Et.
  destruct (rq_token rq) as [token'|]; [|done].
  destruct (rq_serverKnown rq); [|done].
  destruct (bool_decide (ut_UniqueId token' = EmptyString)); [done|].
  destruct (ut_Denylisted dn token') eqn:Edn; [done|].
  destruct (HasScope (ut_scope token') FileUpload) eqn:Esc; [|done]. injection Es as ->.
  destruct (normalizeBetterFilesUploadPath _ _) as [[d t]|]; [|done].
  destruct (ensureBetterFilesAllowed matches [t]) as [[]|] eqn:Een; [|done]. injection Et as -> ->.
  exists token, directory, target. rewrite Eb. apply limit_value in Em as ->.
  rewrite <-Hup, <-Hof. cbn [up_files]. cbv zeta. split_and!; done.
Qed.
End Handler.

(** ** Witnesses *)

Lemma upload_offset_roundtrip_witness :
  FormatInt 9223372036854775807 = "9223372036854775807"%string
  ∧ parseUploadInteger (FormatInt 9223372036854775807) true = Ok 9223372036854775807.
Proof.
  split; [reflexivity|]. apply upload_offset_roundtrip. split; vm_compute; congruence.
Defined.

Lemma admissions_exact_witness :
  let r0 := newResumableUploadAdmissionRegistry 64 16 4 in
  ∃ r1, adm_acquire "srv" "tok" r0 = Some r1 ∧ adm_inv r1 [("srv", "tok")%string]
    ∧ ad_byServer (adm_release "srv" "tok" r1) = ∅.
Proof.
  intros r0. eexists. split; [vm_compute; reflexivity|].
  match goal with |- adm_inv ?r _ ∧ _ => set (r1 := r) end.
  assert (rtc adm_step (r0, []) (r1, [("srv", "tok")%string])) as H1 by (apply rtc_once; by constructor).
  assert (rtc adm_step (r0, []) (adm_release "srv" "tok" r1, [] ++ [])) as H2
    by (eapply rtc_r; [exact H1|apply (adm_leave "srv" "tok" r1 [] [])]).
  split; [apply (admissions_exact 64 16 4 _ _ H1)|].
  apply (admissions_exact 64 16 4 _ _ H2). reflexivity.
Defined.

(** A cache as a map from keys to their expiry. *)
#[local] Instance up_cache_map : TokenCache (gmap string Z) := {
  cache_get now k c := match c !! k with Some e => now <? e | None => false end;
  cache_set now k d c := <[k := now + d]> c;
}.

Definition ex_token : UploadPayload :=
  mkUploadPayload (mkPayload (Some 5) (Some 1000) "jti") "file-upload" "srv" "user" "uniq".

Lemma sessions_bounded_witness :
  let r0 := newResumableUploadSessionRegistry 4096 256 in
  let r1 := snd (fst (bind 10 ex_token "srv" "/a" r0 (∅ : gmap string Z))) in
  fst (fst (bind 10 ex_token "srv" "/a" r0 (∅ : gmap string Z))) = true ∧ sess_inv r1 ∧ sess_within r1.
Proof.
  intros r0 r1. split; [vm_compute; reflexivity|].
  apply (sessions_bounded (C := gmap string Z) 4096 256 ∅ r1
    (snd (bind 10 ex_token "srv" "/a" r0 (∅ : gmap string Z)))).
  apply rtc_once. apply (ss_bind 10 ex_token "srv" "/a" r0 ∅ true). reflexivity.
Defined.

Lemma completed_upload_final_witness :
  let r0 := mkSessions 4096 256 (Some 1000) {["uniq"%string := mkSession "srv" "/a" 1000 false]}
              {["srv"%string := 1]} in
  fst (fst (bind 2000 ex_token "srv" "/a" (pruneExpired 2000 (retire "uniq" "srv" "/a" r0))
              (∅ : gmap string Z))) = false.
Proof.
  intros r0.
  refine (completed_upload_final (C := gmap string Z) "uniq" 1000 20 r0 ∅ "srv" "/a"
    (mkSession "srv" "/a" 1000 false) 2000 _ ∅ ex_token "srv" "/a" _ _ _ _ _ _ _ _ _ _);
    try reflexivity.
  - split.
    + intros k. unfold r0, held, tally. simpl. rewrite map_to_list_singleton. simpl.
      destruct (decide (k = "srv"%string)) as [->|Hne]; [reflexivity|].
      rewrite lookup_singleton_ne by done. rewrite filter_cons_False by (simpl; congruence). done.
    + intros id s Hs. unfold r0 in Hs. simpl in Hs. apply lookup_singleton_Some in Hs as [_ <-].
      exists 1000. split; [reflexivity|simpl; lia].
  - split; [vm_compute; congruence|]. intros s. unfold r0, held, tally. simpl.
    rewrite map_to_list_singleton. simpl. rewrite filter_cons. case_decide; vm_compute; congruence.
  - apply rtc_once. apply (td_prune "uniq" 1000 20 2000 (retire "uniq" "srv" "/a" r0) ∅). lia.
Defined.

Definition ex_request (body : list byte) : request :=
  mkRequest (Some ex_token) true "/" "a" "application/offset+octet-stream" "0" "2" "?1" 2 body None
    false true true true true true.
Definition ex_uploads : uploads (gmap string Z) :=
  mkUploads ∅ (newResumableUploadAdmissionRegistry 64 16 4)
    (newResumableUploadSessionRegistry 4096 256) ∅ ∅ [].
Definition ex_fs : Filesystem := mkFs (mkQuota 0 0) 0 false 0 0 false 60.
Definition ex_patch : Z * option Z * uploads (gmap string Z) :=
  patchServerUploadFile 100 10 (mkDenials 0 ∅ ∅) (λ _, false) ex_fs
    (ex_request [x01; x02]) ex_uploads.

Lemma patch_releases_witness :
  fst (fst ex_patch) = 200 ∧ up_locks (snd ex_patch) = ∅
  ∧ up_adm (snd ex_patch) = newResumableUploadAdmissionRegistry 64 16 4.
Proof.
  split; [vm_compute; reflexivity|].
  apply (patch_releases 100 10 (mkDenials 0 ∅ ∅) (λ _, false) ex_fs (ex_request [x01; x02]) ex_uploads []).
  split; [reflexivity|..]; intros k; exact (lookup_empty k).
Defined.

Lemma patch_accepted_witness :
  ∃ token directory target,
    rq_token (ex_request [x01; x02]) = Some token
    ∧ up_files (snd ex_patch)
      = <[joined_key (ut_ServerUuid token) target := Regular [x01; x02]]> ∅
    ∧ directory = "/"%string.
Proof.
  destruct (patch_accepted 100 10 (mkDenials 0 ∅ ∅) (λ _, false) ex_fs (ex_request [x01; x02]) ex_uploads
    (Some 2) (snd ex_patch)) as (token & directory & target & H1 & _ & _ & _ & H2 & _ & _ & H3 & _);
    [vm_compute; reflexivity|].
  exists token, directory, target. split; [exact H1|]. split; [exact H3|].
  vm_compute in H2. congruence.
Defined.
