(* ===== verification/Policy.v ===== *)
(** * Network policies (internal/networkpolicy/policy.go)

    A policy names the server's allocations, groups of them, ordered firewall rules
    and bandwidth limits.  It is validated on its own ([validateStatic]) and against
    the allocations the server really owns ([Validate]), identified by a canonical
    hash, and asked for its effective limits, its rules in order of evaluation and
    the ports of its groups. *)

From stdpp Require Import base gmap sets list strings numbers sorting.
From Stdlib Require Import Ascii.
From S2P Require Import Prelude GoStrings.
Open Scope Z_scope.

(** ** Addresses: Go's net/netip *)

(** An address without a zone. *)
Inductive addr := V4 (n : Z) | V6 (n : Z).

#[global] Instance addr_eq_dec : EqDecision addr.
Proof. solve_decision. Defined.
#[global] Instance addr_countable : Countable addr.
Proof.
  refine (inj_countable (λ a, match a with V4 n => inl n | V6 n => inr n end)
    (λ s, match s with inl n => Some (V4 n) | inr n => Some (V6 n) end) _).
  by intros [].
Defined.

Definition hex_val (c : ascii) : option Z :=
  let n := byteZ c in
  if (48 <=? n) && (n <=? 57) then Some (n - 48)
  else if (97 <=? n) && (n <=? 102) then Some (n - 87)
  else if (65 <=? n) && (n <=? 70) then Some (n - 55)
  else None.

Fixpoint octet_digits (acc : Z) (s : string) : option Z :=
  match s with
  | EmptyString => Some acc
  | String c s' =>
      d ← digit_of c;
      if 255 <? acc * 10 + d then None else octet_digits (acc * 10 + d) s'
  end.
(** One field of a dotted quad: digits, no leading zero, at most 255. *)
Definition parse_octet (s : string) : option Z :=
  match s with
  | EmptyString => None
  | String c s' =>
      if Ascii.eqb c "0"%char && negb (bool_decide (s' = EmptyString)) then None
      else octet_digits 0 s
  end.
Definition parse_v4 (s : string) : option Z :=
  match Split dot s with
  | [a; b; c; d] =>
      a ← parse_octet a; b ← parse_octet b; c ← parse_octet c; d ← parse_octet d;
      Some (((a * 256 + b) * 256 + c) * 256 + d)
  | _ => None
  end.

(** The hexadecimal digits at the front of a string: their number, their value and
    the rest; [None] when there are more than four. *)
Fixpoint hex_group (n acc : Z) (s : string) : option (Z * Z * string) :=
  match s with
  | EmptyString => Some (n, acc, s)
  | String c s' =>
      match hex_val c with
      | None => Some (n, acc, s)
      | Some d => if 3 <? n then None else hex_group (n + 1) (acc * 16 + d) s'
      end
  end.

(** The loop of [parseIPv6]: [groups] are the 16-bit groups read so far, last first,
    and [ellipsis] their number when "::" was met; at most eight rounds. *)
Fixpoint v6_loop (fuel : nat) (groups : list Z) (ellipsis : option nat) (s : string)
    : option (list Z * option nat) :=
  match fuel with
  | O => if bool_decide (s = EmptyString) then Some (groups, ellipsis) else None
  | S fuel' =>
      '(n, acc, rest) ← hex_group 0 0 s;
      if n =? 0 then None
      else match rest with
      | EmptyString => Some (acc :: groups, ellipsis)
      | String c rest' =>
          if Ascii.eqb c dot then
            if bool_decide (ellipsis = None) && negb (bool_decide (length groups = 6%nat)) then None
            else if bool_decide (6 < length groups)%nat then None
            else
              v ← parse_v4 s;
              Some (v mod 65536 :: v / 65536 :: groups, ellipsis)
          else if negb (Ascii.eqb c ":"%char) then None
          else match rest' with
          | EmptyString => None
          | String c2 rest2 =>
              if Ascii.eqb c2 ":"%char then
                match ellipsis with
                | Some _ => None
                | None =>
                    let e := Some (S (length groups)) in
                    if bool_decide (rest2 = EmptyString) then Some (acc :: groups, e)
                    else v6_loop fuel' (acc :: groups) e rest2
                end
              else v6_loop fuel' (acc :: groups) ellipsis rest'
          end
      end
  end.

Definition v6_value (groups : list Z) : Z := foldl (λ a g, a * 65536 + g) 0 groups.

Definition parse_v6 (s : string) : option Z :=
  let '(start, body) :=
    match s with
    | String c1 (String c2 s') =>
        if Ascii.eqb c1 ":"%char && Ascii.eqb c2 ":"%char then (Some 0%nat, s') else (None, s)
    | _ => (None, s)
    end in
  if bool_decide (start = Some 0%nat) && bool_decide (body = EmptyString) then Some 0
  else
    '(rgroups, ellipsis) ← v6_loop 8 [] start body;
    let groups := rev rgroups in
    let n := length groups in
    match ellipsis with
    | None => if bool_decide (n = 8%nat) then Some (v6_value groups) else None
    | Some k =>
        if bool_decide (n < 8)%nat
        then Some (v6_value (take k groups ++ replicate (8 - n) 0 ++ drop k groups))
        else None
    end.

(** The first "." or ":" decides the family; a "%" makes a zone or an error. *)
Fixpoint family (s : string) : option ascii :=
  match s with
  | EmptyString => None
  | String c s' =>
      if Ascii.eqb c dot || Ascii.eqb c ":"%char || Ascii.eqb c "%"%char then Some c else family s'
  end.

(** The address is an IPv4 address mapped into IPv6. *)
Definition is4in6 (n : Z) : bool := n / 2 ^ 32 =? 65535.

(** [parseIP]: an address with a zone, like an unparsable one, is refused. *)
Definition parseIP (value : string) : option addr :=
  if contains_byte "%"%char value then None
  else
    c ← family value;
    if Ascii.eqb c dot then V4 <$> parse_v4 value
    else
      n ← parse_v6 value;
      if is4in6 n then None else Some (V6 n).

(** ** Policies *)

Record Allocation := mkAllocation { al_ID : Z; al_IP : string; al_Port : Z }.
#[global] Instance Allocation_eq_dec : EqDecision Allocation.
Proof. solve_decision. Defined.

(** A nil slice is [None]. *)
Record ResolvedGroup := mkResolved {
  rg_ID : string; rg_Protocol : string; rg_Allocations : option (list Allocation) }.

Record Group := mkGroup {
  gr_ID : string; gr_Name : string; gr_Mode : string; gr_Protocol : string;
  gr_AllocationIDs : option (list Z); gr_PortStart : Z; gr_PortEnd : Z; gr_IP : option string }.

Record Chain := mkChain { ch_ID : string; ch_Name : string; ch_Enabled : bool }.

Record Rule := mkRule {
  ru_ID : string; ru_Name : string; ru_Enabled : bool; ru_ChainID : option string;
  ru_Direction : string; ru_Action : string; ru_Protocol : string;
  ru_GroupID : option string; ru_CIDR : option string }.

Record Firewall := mkFirewall {
  fw_Enabled : bool; fw_DefaultInbound : string; fw_DefaultOutbound : string;
  fw_Chains : option (list Chain); fw_Rules : option (list Rule) }.

Record Bandwidth := mkBandwidth { bw_Upload : Z; bw_Download : Z }.

Record Rules := mkRules {
  rs_Groups : option (list Group); rs_Firewall : Firewall; rs_Bandwidth : Bandwidth }.

Record Policy := mkPolicy {
  po_APIVersion : Z; po_Revision : Z; po_PolicyHash : string;
  po_Allocations : option (list Allocation); po_ResolvedGroups : option (list ResolvedGroup);
  po_Body : Rules }.

#[global] Instance ResolvedGroup_eq_dec : EqDecision ResolvedGroup.
Proof. solve_decision. Defined.
#[global] Instance Group_eq_dec : EqDecision Group.
Proof. solve_decision. Defined.
#[global] Instance Chain_eq_dec : EqDecision Chain.
Proof. solve_decision. Defined.
#[global] Instance Rule_eq_dec : EqDecision Rule.
Proof. solve_decision. Defined.
#[global] Instance Firewall_eq_dec : EqDecision Firewall.
Proof. solve_decision. Defined.
#[global] Instance Bandwidth_eq_dec : EqDecision Bandwidth.
Proof. solve_decision. Defined.
#[global] Instance Rules_eq_dec : EqDecision Rules.
Proof. solve_decision. Defined.
#[global] Instance Policy_eq_dec : EqDecision Policy.
Proof. solve_decision. Defined.

(** The elements of a slice. *)
Definition elems {A} (o : option (list A)) : list A := default [] o.

Definition Empty : Policy :=
  mkPolicy 0 0 EmptyString None None
    (mkRules None (mkFirewall false EmptyString EmptyString None None) (mkBandwidth 0 0)).

Definition Required (p : Policy) (ceiling : Bandwidth) : bool :=
  fw_Enabled (rs_Firewall (po_Body p)) || (0 <? bw_Upload (rs_Bandwidth (po_Body p)))
  || (0 <? bw_Download (rs_Bandwidth (po_Body p))) || (0 <? bw_Upload ceiling)
  || (0 <? bw_Download ceiling).

Definition cap (rate ceiling : Z) : Z :=
  if (0 <? ceiling) && ((rate =? 0) || (ceiling <? rate)) then ceiling else rate.

Definition Effective (p : Policy) (ceiling : Bandwidth) : Bandwidth :=
  let b := rs_Bandwidth (po_Body p) in
  mkBandwidth (cap (bw_Upload b) (bw_Upload ceiling)) (cap (bw_Download b) (bw_Download ceiling)).

Definition SameRules (p other : Policy) : bool := bool_decide (po_Body p = po_Body other).

Definition in_chain (c : Chain) (r : Rule) : Prop :=
  ru_Enabled r = true ∧ ru_ChainID r = Some (ch_ID c).
#[global] Instance in_chain_dec c r : Decision (in_chain c r).
Proof. unfold in_chain. apply _. Defined.
Definition unchained (r : Rule) : Prop := ru_Enabled r = true ∧ ru_ChainID r = None.
#[global] Instance unchained_dec r : Decision (unchained r).
Proof. unfold unchained. apply _. Defined.

Definition OrderedRules (p : Policy) : list Rule :=
  let rules := elems (fw_Rules (rs_Firewall (po_Body p))) in
  flat_map (λ c, if ch_Enabled c then filter (in_chain c) rules else [])
    (elems (fw_Chains (rs_Firewall (po_Body p))))
  ++ filter unchained rules.

(** ** Validation *)

Inductive polerr :=
| EBandwidth | EVersion | ERevision | EHashFormat | ENull | ETooMany
| EAllocation | EDuplicateAllocation | EAmbiguous | EAddress
| EGroup | EDuplicateGroup | EResolved | EFirewall | EHash | ESize | EAssigned | EIdentity.

Definition maxRate : Z := 1000000000000.
Definition MaxBody : Z := 1048576.

Definition validProtocol (v : string) : bool :=
  bool_decide (v = "tcp"%string) || bool_decide (v = "udp"%string) || bool_decide (v = "both"%string).
Definition validAction (v : string) : bool :=
  bool_decide (v = "allow"%string) || bool_decide (v = "drop"%string).
Definition validRate (rate : Z) : bool := (0 <=? rate) && (rate <=? maxRate).
Definition validateBandwidth (rate ceiling : Z) : result polerr unit :=
  _ ← require (validRate rate && validRate ceiling) EBandwidth;
  require (negb ((0 <? ceiling) && (ceiling <? rate))) EBandwidth.
Definition validName (v : string) : bool :=
  negb (bool_decide (v = EmptyString)) && (RuneCount v <=? 80).

(** The regular expressions of identifiers and hashes. *)
Definition id_char (c : ascii) : bool :=
  let n := byteZ c in
  ((97 <=? n) && (n <=? 122)) || ((65 <=? n) && (n <=? 90)) || ((48 <=? n) && (n <=? 57))
  || (n =? 95) || (n =? 45).
Definition hash_char (c : ascii) : bool :=
  let n := byteZ c in ((48 <=? n) && (n <=? 57)) || ((97 <=? n) && (n <=? 102)).
Fixpoint all_chars (f : ascii → bool) (s : string) : bool :=
  match s with EmptyString => true | String c s' => f c && all_chars f s' end.
Definition idPattern (s : string) : bool :=
  all_chars id_char s && (1 <=? strlen s) && (strlen s <=? 64).
Definition hashPattern (s : string) : bool := all_chars hash_char s && (strlen s =? 64).

(** [allocationKey]: the text of an address and port is used as a map key only, so the
    key is the pair itself; the port is converted to 16 bits. *)
Abbreviation key := (addr * Z)%type.
Definition allocationKey (value : string) (port : Z) : result polerr key :=
  match parseIP value with
  | None => Err EAddress
  | Some ip => Ok (ip, port mod 65536)
  end.

(** The first loop of [validateStatic]: allocations by ID, and IDs by key. *)
Fixpoint check_allocations (l : list Allocation) (byID : gmap Z Allocation) (byKey : gmap key Z)
    : result polerr (gmap Z Allocation) :=
  match l with
  | [] => Ok byID
  | a :: l' =>
      if (al_ID a <=? 0) || (al_Port a <? 1) || (65535 <? al_Port a) then Err EAllocation
      else if bool_decide (is_Some (byID !! al_ID a)) then Err EDuplicateAllocation
      else
        k ← allocationKey (al_IP a) (al_Port a);
        if bool_decide (is_Some (byKey !! k)) then Err EAmbiguous
        else check_allocations l' (<[al_ID a := a]> byID) (<[k := al_ID a]> byKey)
  end.

Definition group_ok (g : Group) : bool :=
  validName (gr_Name g)
  && (bool_decide (gr_Mode g = "allocations"%string) || bool_decide (gr_Mode g = "range"%string))
  && validProtocol (gr_Protocol g)
  && match gr_AllocationIDs g with
     | None => false
     | Some ids => (zlen ids <=? 1000) && forallb (λ i, 0 <? i) ids
     end
  && (1 <=? gr_PortStart g) && (gr_PortEnd g <=? 65535) && (gr_PortStart g <=? gr_PortEnd g)
  && match gr_IP g with None => true | Some ip => bool_decide (is_Some (parseIP ip)) end.

Fixpoint check_groups (l : list Group) (groups : gmap string Group)
    : result polerr (gmap string Group) :=
  match l with
  | [] => Ok groups
  | g :: l' =>
      if negb (idPattern (gr_ID g)) then Err EGroup
      else if bool_decide (is_Some (groups !! gr_ID g)) then Err EDuplicateGroup
      else if negb (group_ok g) then Err EGroup
      else check_groups l' (<[gr_ID g := g]> groups)
  end.

(** [selectedAllocations] *)
Fixpoint select_range (g : Group) (match_ip : option addr) (l : list Allocation) (sel : gset Z)
    : result polerr (gset Z) :=
  match l with
  | [] => Ok sel
  | a :: l' =>
      if (al_Port a <? gr_PortStart g) || (gr_PortEnd g <? al_Port a)
      then select_range g match_ip l' sel
      else match match_ip with
      | None => select_range g match_ip l' ({[al_ID a]} ∪ sel)
      | Some m =>
          match parseIP (al_IP a) with
          | None => Err EAddress
          | Some ip => if decide (ip = m) then select_range g match_ip l' ({[al_ID a]} ∪ sel)
                       else select_range g match_ip l' sel
          end
      end
  end.

Definition selectedAllocations (g : Group) (allocations : list Allocation) : result polerr (gset Z) :=
  if decide (gr_Mode g = "allocations"%string) then
    Ok (list_to_set (filter (λ i, i ∈ al_ID <$> allocations) (elems (gr_AllocationIDs g))))
  else match gr_IP g with
  | None => select_range g None allocations ∅
  | Some ip => match parseIP ip with
               | None => Err EAddress
               | Some m => select_range g (Some m) allocations ∅
               end
  end.

(** The loop over one resolved group's allocations. *)
Fixpoint check_resolved (byID : gmap Z Allocation) (l : list Allocation) (expected : gset Z)
    : result polerr (gset Z) :=
  match l with
  | [] => Ok expected
  | a :: l' =>
      if bool_decide (byID !! al_ID a = Some a) && bool_decide (al_ID a ∈ expected)
      then check_resolved byID l' (expected ∖ {[al_ID a]})
      else Err EResolved
  end.

Fixpoint resolved_loop (groups : gmap string Group) (byID : gmap Z Allocation)
    (allocations : list Allocation) (l : list ResolvedGroup) (seen : gset string)
    : result polerr unit :=
  match l with
  | [] => Ok tt
  | r :: l' =>
      match groups !! rg_ID r, decide (rg_ID r ∈ seen) with
      | None, _ | Some _, left _ => Err EResolved
      | Some g, right _ =>
          if negb (bool_decide (rg_Protocol r = gr_Protocol g)) then Err EResolved
          else match rg_Allocations r with
          | None => Err EResolved
          | Some l2 =>
              expected ← selectedAllocations g allocations;
              if negb (zlen l2 =? Z.of_nat (size expected)) then Err EResolved
              else
                rest ← check_resolved byID l2 expected;
                if negb (bool_decide (rest = ∅)) then Err EResolved
                else resolved_loop groups byID allocations l' ({[rg_ID r]} ∪ seen)
          end
      end
  end.

Definition validateResolvedGroups (p : Policy) (groups : gmap string Group) (byID : gmap Z Allocation)
    : result polerr unit :=
  if negb (zlen (elems (po_ResolvedGroups p)) =? Z.of_nat (size groups)) then Err EResolved
  else resolved_loop groups byID (elems (po_Allocations p)) (elems (po_ResolvedGroups p)) ∅.

(** ** Peers *)

Definition bit_len (a : addr) : Z := match a with V4 _ => 32 | V6 _ => 128 end.
Definition masked (a : addr) (bits : Z) : addr :=
  let clear n := let h := 2 ^ (bit_len a - bits) in n / h * h in
  match a with V4 n => V4 (clear n) | V6 n => V6 (clear n) end.

(** The length of a prefix: digits without a leading zero. *)
Definition prefix_bits (s : string) : option Z :=
  match s with
  | EmptyString => None
  | String c s' =>
      if Ascii.eqb c "0"%char && negb (bool_decide (s' = EmptyString)) then None else parse_digits 0 s
  end.

(** [Peer]: an address, or [netip.ParsePrefix] masked. *)
Definition Peer (value : string) : option (addr * Z) :=
  match parseIP value with
  | Some ip => Some (ip, bit_len ip)
  | None =>
      match rev (Split slash value) with
      | bits :: ((_ :: _) as front) =>
          ip ← parseIP (Join slash (rev front));
          b ← prefix_bits bits;
          if bit_len ip <? b then None else Some (masked ip b, b)
      | _ => None
      end
  end.

(** ** The firewall *)

Fixpoint check_chains (l : list Chain) (chains : gset string) : result polerr (gset string) :=
  match l with
  | [] => Ok chains
  | c :: l' =>
      if negb (idPattern (ch_ID c) && validName (ch_Name c)) then Err EFirewall
      else if bool_decide (ch_ID c ∈ chains) then Err EFirewall
      else check_chains l' ({[ch_ID c]} ∪ chains)
  end.

Definition rule_ok (groups : gmap string Group) (chains : gset string) (r : Rule) : bool :=
  (bool_decide (ru_Direction r = "inbound"%string) || bool_decide (ru_Direction r = "outbound"%string))
  && validAction (ru_Action r) && validProtocol (ru_Protocol r)
  && match ru_ChainID r with None => true | Some c => bool_decide (c ∈ chains) end
  && match ru_GroupID r with
     | None => true
     | Some g =>
         match groups !! g with
         | None => false
         | Some g => bool_decide (ru_Protocol r = "both"%string) || bool_decide (gr_Protocol g = "both"%string)
                     || bool_decide (ru_Protocol r = gr_Protocol g)
         end
     end
  && match ru_CIDR r with None => true | Some c => bool_decide (is_Some (Peer c)) end.

Fixpoint check_rules (groups : gmap string Group) (chains : gset string) (l : list Rule)
    (seen : gset string) : result polerr unit :=
  match l with
  | [] => Ok tt
  | r :: l' =>
      if negb (idPattern (ru_ID r) && validName (ru_Name r)) then Err EFirewall
      else if bool_decide (ru_ID r ∈ seen) then Err EFirewall
      else if negb (rule_ok groups chains r) then Err EFirewall
      else check_rules groups chains l' ({[ru_ID r]} ∪ seen)
  end.

Definition validateFirewall (p : Policy) (groups : gmap string Group) : result polerr unit :=
  let f := rs_Firewall (po_Body p) in
  if negb (validAction (fw_DefaultInbound f) && validAction (fw_DefaultOutbound f)) then Err EFirewall
  else
    chains ← check_chains (elems (fw_Chains f)) ∅;
    check_rules groups chains (elems (fw_Rules f)) ∅.

(** ** The server's allocations: ports by host *)

Abbreviation assignment := (gmap string (list Z)).

Fixpoint assign_ports (host : string) (ports : list Z) (owned : gset key) : result polerr (gset key) :=
  match ports with
  | [] => Ok owned
  | port :: ports' =>
      if (port <? 1) || (65535 <? port) then Err EAssigned
      else
        k ← allocationKey host port;
        if bool_decide (k ∈ owned) then Err EAssigned
        else assign_ports host ports' ({[k]} ∪ owned)
  end.
Fixpoint assign_hosts (l : list (string * list Z)) (owned : gset key) : result polerr (gset key) :=
  match l with
  | [] => Ok owned
  | (host, ports) :: l' => owned' ← assign_ports host ports owned; assign_hosts l' owned'
  end.
Definition assignedAllocations (assigned : assignment) : result polerr (gset key) :=
  assign_hosts (map_to_list assigned) ∅.

Definition hasAllocation (assigned : assignment) (a : Allocation) : bool :=
  match allocationKey (al_IP a) (al_Port a) with
  | Err _ => false
  | Ok wanted =>
      existsb (λ hp : string * list Z,
        bool_decide (al_Port a ∈ snd hp)
        && match allocationKey (fst hp) (al_Port a) with
           | Ok k => bool_decide (k = wanted)
           | Err _ => false
           end) (map_to_list assigned)
  end.

(** [Ports]: the sorted union. *)
Definition in_scope (names : list string) (proto : string) (g : ResolvedGroup) : bool :=
  bool_decide (rg_ID g ∈ names)
  && (bool_decide (rg_Protocol g = "both"%string) || bool_decide (rg_Protocol g = proto)).

Definition owned_ports (assigned : assignment) (g : ResolvedGroup) : list Z :=
  al_Port <$> filter (λ a, hasAllocation assigned a = true) (elems (rg_Allocations g)).

Definition Ports (p : Policy) (names : list string) (proto : string) (assigned : assignment) : list Z :=
  merge_sort Z.le
    (remove_dups (flat_map (λ g, if in_scope names proto g then owned_ports assigned g else [])
                    (elems (po_ResolvedGroups p)))).

(** ** Canonical JSON *)

(** A decoded JSON value; numbers are integers, as in a policy. *)
#[warnings="-register-all"]
Inductive json :=
| JNull | JBool (b : bool) | JNum (n : Z) | JStr (s : string)
| JArr (l : list json) | JObj (l : list (string * json)).

Definition hex_digit (n : Z) : ascii := ascii_of_N (Z.to_N (if n <? 10 then 48 + n else 87 + n)).
Definition quote : ascii := ascii_of_N 34.

(** [appendJSONString]: the range over the string yields U+FFFD for a byte of no valid
    sequence, and a rune of several bytes is copied. *)
Definition escape (c : ascii) : string :=
  let n := byteZ c in
  if (n =? 34) || (n =? 92) then String backslash (String c EmptyString)
  else if n =? 8 then "\b" else if n =? 12 then "\f" else if n =? 10 then "\n"
  else if n =? 13 then "\r" else if n =? 9 then "\t"
  else if n <? 32 then "\u00" +:+ String (hex_digit (n / 16)) (String (hex_digit (n mod 16)) EmptyString)
  else String c EmptyString.
Fixpoint escape_all (s : string) : string :=
  match s with EmptyString => EmptyString | String c s' => escape c +:+ escape_all s' end.
Definition appendJSONString (s : string) : string :=
  String quote (escape_all (ToValidUTF8 s) +:+ String quote EmptyString).

Definition key_le {A} (p q : string * A) : Prop := str_leb (fst p) (fst q) = true.
#[global] Instance key_le_dec {A} : RelDecision (@key_le A).
Proof. intros p q. unfold key_le. apply _. Defined.

(** Commas between the members. *)
Definition commas (l : list string) : string := Join ","%char l.

(** [appendCanonical]: objects with their keys sorted, arrays in order. *)
Fixpoint canonical (v : json) : string :=
  match v with
  | JNull => "null"
  | JBool b => if b then "true" else "false"
  | JNum n => FormatInt n
  | JStr s => appendJSONString s
  | JArr l => String "["%char (commas (map canonical l) +:+ "]")
  | JObj l =>
      String "{"%char
        (commas (map (λ m, appendJSONString (fst m) +:+ String ":"%char (snd m))
                   (merge_sort key_le (map (λ m, (fst m, canonical (snd m))) l)))
         +:+ "}")
  end.

(** ** The JSON of a policy: field names and order of the Go structs *)

Definition j_opt {A} (f : A → json) (o : option A) : json := default JNull (f <$> o).
Definition j_list {A} (f : A → json) (o : option (list A)) : json := j_opt (λ l, JArr (map f l)) o.

Definition allocation_json (a : Allocation) : json :=
  JObj [("id", JNum (al_ID a)); ("ip", JStr (al_IP a)); ("port", JNum (al_Port a))]%string.
Definition resolved_json (g : ResolvedGroup) : json :=
  JObj [("id", JStr (rg_ID g)); ("protocol", JStr (rg_Protocol g));
        ("allocations", j_list allocation_json (rg_Allocations g))]%string.
Definition group_json (g : Group) : json :=
  JObj [("id", JStr (gr_ID g)); ("name", JStr (gr_Name g)); ("mode", JStr (gr_Mode g));
        ("protocol", JStr (gr_Protocol g)); ("allocation_ids", j_list JNum (gr_AllocationIDs g));
        ("port_start", JNum (gr_PortStart g)); ("port_end", JNum (gr_PortEnd g));
        ("ip", j_opt JStr (gr_IP g))]%string.
Definition chain_json (c : Chain) : json :=
  JObj [("id", JStr (ch_ID c)); ("name", JStr (ch_Name c)); ("enabled", JBool (ch_Enabled c))]%string.
Definition rule_json (r : Rule) : json :=
  JObj [("id", JStr (ru_ID r)); ("name", JStr (ru_Name r)); ("enabled", JBool (ru_Enabled r));
        ("chain_id", j_opt JStr (ru_ChainID r)); ("direction", JStr (ru_Direction r));
        ("action", JStr (ru_Action r)); ("protocol", JStr (ru_Protocol r));
        ("group_id", j_opt JStr (ru_GroupID r)); ("cidr", j_opt JStr (ru_CIDR r))]%string.
Definition firewall_json (f : Firewall) : json :=
  JObj [("enabled", JBool (fw_Enabled f)); ("default_inbound", JStr (fw_DefaultInbound f));
        ("default_outbound", JStr (fw_DefaultOutbound f)); ("chains", j_list chain_json (fw_Chains f));
        ("rules", j_list rule_json (fw_Rules f))]%string.
Definition bandwidth_json (b : Bandwidth) : json :=
  JObj [("upload_bps", JNum (bw_Upload b)); ("download_bps", JNum (bw_Download b))]%string.
Definition rules_json (r : Rules) : json :=
  JObj [("groups", j_list group_json (rs_Groups r)); ("firewall", firewall_json (rs_Firewall r));
        ("bandwidth", bandwidth_json (rs_Bandwidth r))]%string.

(** The envelope without its hash, which [hashCanonicalObject] deletes. *)
Definition envelope_json (p : Policy) : json :=
  JObj [("api_version", JNum (po_APIVersion p)); ("revision", JNum (po_Revision p));
        ("allocations", j_list allocation_json (po_Allocations p));
        ("resolved_groups", j_list resolved_json (po_ResolvedGroups p));
        ("policy", rules_json (po_Body p))]%string.

Section Hash.
(** SHA-256 in hexadecimal, and the length of [json.Marshal]'s output. *)
Variable sha256_hex : string → string.
Variable marshal_len : Policy → Z.

Definition CalculatedHash (p : Policy) : result polerr string :=
  if MaxBody <? marshal_len p then Err ESize else Ok (sha256_hex (canonical (envelope_json p))).

Definition validateStatic (p : Policy) : result polerr unit :=
  _ ← require (po_APIVersion p =? 1) EVersion;
  _ ← require (negb (po_Revision p =? 0)) ERevision;
  _ ← require (hashPattern (po_PolicyHash p)) EHashFormat;
  _ ← require (bool_decide (is_Some (po_Allocations p)) && bool_decide (is_Some (po_ResolvedGroups p))
               && bool_decide (is_Some (rs_Groups (po_Body p)))
               && bool_decide (is_Some (fw_Chains (rs_Firewall (po_Body p))))
               && bool_decide (is_Some (fw_Rules (rs_Firewall (po_Body p))))) ENull;
  _ ← require (zlen (elems (rs_Groups (po_Body p))) <=? 50) ETooMany;
  _ ← require (zlen (elems (fw_Chains (rs_Firewall (po_Body p)))) <=? 25) ETooMany;
  _ ← require (zlen (elems (fw_Rules (rs_Firewall (po_Body p)))) <=? 100) ETooMany;
  byID ← check_allocations (elems (po_Allocations p)) ∅ ∅;
  groups ← check_groups (elems (rs_Groups (po_Body p))) ∅;
  _ ← validateResolvedGroups p groups byID;
  _ ← validateFirewall p groups;
  _ ← validateBandwidth (bw_Upload (rs_Bandwidth (po_Body p))) 0;
  _ ← validateBandwidth (bw_Download (rs_Bandwidth (po_Body p))) 0;
  hash ← CalculatedHash p;
  require (bool_decide (po_PolicyHash p = hash)) EHash.

(** The last loop of [Validate]. *)
Fixpoint check_owned (owned : gset key) (l : list Allocation) : result polerr unit :=
  match l with
  | [] => Ok tt
  | a :: l' =>
      k ← allocationKey (al_IP a) (al_Port a);
      if bool_decide (k ∈ owned) then check_owned owned l' else Err EAssigned
  end.

Definition Validate (p : Policy) (assigned : assignment) (ceiling : Bandwidth) : result polerr unit :=
  if decide (p = Empty) then
    _ ← validateBandwidth 0 (bw_Upload ceiling);
    validateBandwidth 0 (bw_Download ceiling)
  else
    _ ← validateStatic p;
    _ ← validateBandwidth (bw_Upload (rs_Bandwidth (po_Body p))) (bw_Upload ceiling);
    _ ← validateBandwidth (bw_Download (rs_Bandwidth (po_Body p))) (bw_Download ceiling);
    owned ← assignedAllocations assigned;
    if negb (Z.of_nat (size owned) =? zlen (elems (po_Allocations p))) then Err EAssigned
    else check_owned owned (elems (po_Allocations p)).
End Hash.
