(* ===== verification/PolicyFacts.v ===== *)
(** * Correctness of network policies

    What validation establishes about allocations and groups, the ports of groups, and
    the order of rules. *)

From stdpp Require Import base gmap sets list strings numbers sorting.
From Stdlib Require Import Ascii.
From S2P Require Import Prelude GoStrings Policy.
Open Scope Z_scope.

(** ** Allocations *)

(** The key of an allocation. *)
Definition has_key (a : Allocation) (k : key) : Prop := allocationKey (al_IP a) (al_Port a) = Ok k.

(** Allocations with distinct IDs and distinct keys. *)
Lemma check_allocations_distinct l byID byKey byID' :
  check_allocations l byID byKey = Ok byID' →
  ∃ ks, Forall2 has_key l ks ∧ NoDup ks ∧ (∀ k, k ∈ ks → byKey !! k = None)
    ∧ NoDup (al_ID <$> l) ∧ (∀ a, a ∈ l → byID !! al_ID a = None)
    ∧ Forall (λ a, 0 < al_ID a ∧ 1 ≤ al_Port a ≤ 65535) l.
Proof.
  revert byID byKey. induction l as [|a l IH]; intros byID byKey Hc; simpl in Hc.
  { exists []. repeat split; try constructor; set_solver. }
  destruct (Z.leb_spec (al_ID a) 0); [done|]. destruct (Z.ltb_spec (al_Port a) 1); [done|].
  destruct (Z.ltb_spec 65535 (al_Port a)); [done|]. cbn [orb] in Hc.
  destruct (bool_decide_reflect (is_Some (byID !! al_ID a))) as [|Hid]; [done|].
  apply result_bind_Ok in Hc as (k & Hk & Hc).
  destruct (bool_decide_reflect (is_Some (byKey !! k))) as [|Hkn]; [done|].
  apply eq_None_not_Some in Hid, Hkn.
  apply IH in Hc as (ks & Hf & Hnd & Hnew & Hids & Hidn & Hok).
  exists (k :: ks). split_and!.
  - by constructor.
  - constructor; [|done]. intros Hin. apply Hnew in Hin. by rewrite lookup_insert_eq in Hin.
  - intros k' [->|Hin]%elem_of_cons; [done|]. apply Hnew in Hin.
    by apply lookup_insert_None in Hin as [? _].
  - simpl. constructor; [|done]. intros (b & Eb & Hin)%list_elem_of_fmap. apply Hidn in Hin.
    by rewrite <-Eb, lookup_insert_eq in Hin.
  - intros b [->|Hin]%elem_of_cons; [done|]. apply Hidn in Hin.
    by apply lookup_insert_None in Hin as [? _].
  - constructor; [lia|done].
Qed.

Lemma check_owned_keys owned l ks :
  Forall2 has_key l ks → check_owned owned l = Ok tt → ∀ k, k ∈ ks → k ∈ owned.
Proof.
  induction 1 as [|a k l ks Hk _ IH]; simpl; intros Hc k' Hin; [set_solver|].
  unfold has_key in Hk. rewrite Hk in Hc. simpl in Hc.
  case_bool_decide; [|done]. apply elem_of_cons in Hin as [->|Hin]; [done|]. by apply IH.
Qed.

(** The keys of the ports assigned to a server. *)
Definition assigned_key (l : list (string * list Z)) (k : key) : Prop :=
  ∃ host ports port, (host, ports) ∈ l ∧ port ∈ ports ∧ allocationKey host port = Ok k.

Lemma assign_ports_spec host ports owned owned' :
  assign_ports host ports owned = Ok owned' →
  ∀ k, k ∈ owned' ↔ k ∈ owned ∨ ∃ port, port ∈ ports ∧ allocationKey host port = Ok k.
Proof.
  revert owned. induction ports as [|port ports IH]; intros owned Ha k; simpl in Ha.
  { simplify_eq. set_solver. }
  case_match; [done|]. apply result_bind_Ok in Ha as (k0 & Hk0 & Ha). case_bool_decide; [done|].
  rewrite (IH _ Ha). setoid_rewrite elem_of_cons. rewrite elem_of_union, elem_of_singleton.
  split.
  - intros [[->|Hk]|(q & Hq & Hk)]; eauto.
  - intros [Hk|(q & [->|Hq] & Hk)]; [by auto| |by eauto]. left; left. congruence.
Qed.

Lemma assign_hosts_spec l owned owned' :
  assign_hosts l owned = Ok owned' → ∀ k, k ∈ owned' ↔ k ∈ owned ∨ assigned_key l k.
Proof.
  unfold assigned_key. revert owned. induction l as [|[h ps] l IH]; intros owned Ha k; simpl in Ha.
  { simplify_eq. split; [by left|]. intros [|(? & ? & ? & Hin & _)]; [done|set_solver]. }
  apply result_bind_Ok in Ha as (o1 & H1 & Ha). rewrite (IH _ Ha), (assign_ports_spec _ _ _ _ H1).
  setoid_rewrite elem_of_cons. split.
  - intros [[Hk|(q & Hq & Hk)]|(h' & ps' & q & Hin & Hq & Hk)]; [by auto|right|right].
    + exists h, ps, q. auto.
    + exists h', ps', q. auto.
  - intros [Hk|(h' & ps' & q & [Heq|Hin] & Hq & Hk)]; [by auto| |].
    + simplify_eq. left; right. eauto.
    + right. exists h', ps', q. auto.
Qed.

Lemma assigned_key_map (m : assignment) k :
  assigned_key (map_to_list m) k ↔
  ∃ host ports port, m !! host = Some ports ∧ port ∈ ports ∧ allocationKey host port = Ok k.
Proof.
  unfold assigned_key. split; intros (h & ps & q & Hin & H); exists h, ps, q;
    (split; [by apply elem_of_map_to_list|done]).
Qed.

Section Static.
Context (sha256_hex : string → string) (marshal_len : Policy → Z).

Lemma validateStatic_inv p :
  validateStatic sha256_hex marshal_len p = Ok tt →
  ∃ byID groups, check_allocations (elems (po_Allocations p)) ∅ ∅ = Ok byID
    ∧ check_groups (elems (rs_Groups (po_Body p))) ∅ = Ok groups
    ∧ validateResolvedGroups p groups byID = Ok tt ∧ validateFirewall p groups = Ok tt.
Proof.
  unfold validateStatic. intros Hv.
  do 7 (apply result_bind_Ok in Hv as (_ & _ & Hv)).
  apply result_bind_Ok in Hv as (byID & Hb & Hv). apply result_bind_Ok in Hv as (groups & Hg & Hv).
  apply result_bind_Ok in Hv as ([] & Hr & Hv). apply result_bind_Ok in Hv as ([] & Hf & _). eauto 6.
Qed.

(** A valid policy other than the empty one passed the static checks, and the keys of
    its allocations are those assigned to the server. *)
Lemma Validate_inv p assigned ceiling :
  Validate sha256_hex marshal_len p assigned ceiling = Ok tt → p ≠ Empty →
  validateStatic sha256_hex marshal_len p = Ok tt
  ∧ ∃ owned, assignedAllocations assigned = Ok owned
      ∧ size owned = length (elems (po_Allocations p))
      ∧ check_owned owned (elems (po_Allocations p)) = Ok tt.
Proof.
  intros Hv Hne. unfold Validate in Hv. rewrite decide_False in Hv by done.
  apply result_bind_Ok in Hv as ([] & Hst & Hv). do 2 (apply result_bind_Ok in Hv as (_ & _ & Hv)).
  apply result_bind_Ok in Hv as (owned & Ho & Hv).
  destruct (Z.eqb_spec (Z.of_nat (size owned)) (zlen (elems (po_Allocations p)))) as [Hsz|]; [|done].
  split; [done|]. exists owned. unfold zlen in Hsz. split_and!; [done|lia|done].
Qed.

(** C39: a validated policy is bound to exactly the server's allocations.  When a
    policy (other than the empty one) is valid for a server, the address and port
    pairs it names are precisely those assigned to the server: it can neither refer
    to an allocation of another server nor leave one of its own out; and no two of
    its allocations share an ID or denote the same address and port. *)
Theorem Validate_binds_allocations p assigned ceiling :
  Validate sha256_hex marshal_len p assigned ceiling = Ok tt → p ≠ Empty →
  (∀ k, (∃ a, a ∈ elems (po_Allocations p) ∧ has_key a k)
        ↔ ∃ host ports port, assigned !! host = Some ports ∧ port ∈ ports
            ∧ allocationKey host port = Ok k)
  ∧ NoDup (al_ID <$> elems (po_Allocations p))
  ∧ (∀ a b k, a ∈ elems (po_Allocations p) → b ∈ elems (po_Allocations p) →
       has_key a k → has_key b k → a = b).
Proof.
  intros Hv Hne. destruct (Validate_inv _ _ _ Hv Hne) as (Hst & owned & Ho & Hsz & Hch).
  apply validateStatic_inv in Hst as (byID & _ & Hb & _).
  apply check_allocations_distinct in Hb as (ks & Hf & Hnd & _ & Hids & _ & _).
  pose proof (check_owned_keys _ _ _ Hf Hch) as Hsub.
  assert (list_to_set ks = owned) as Hset.
  { apply set_subseteq_size_eq; [set_solver|]. rewrite size_list_to_set by done.
    apply Forall2_length in Hf. lia. }
  assert (∀ k, k ∈ ks ↔ ∃ a, a ∈ elems (po_Allocations p) ∧ has_key a k) as Hks.
  { intros k. split.
    - intros Hin. apply list_elem_of_lookup in Hin as [i Hi].
      destruct (Forall2_lookup_r _ _ _ _ _ Hf Hi) as (a & Ha & Hk). exists a.
      split; [by eapply list_elem_of_lookup_2|done].
    - intros (a & Hin & Hk). apply list_elem_of_lookup in Hin as [i Hi].
      destruct (Forall2_lookup_l _ _ _ _ _ Hf Hi) as (k' & Hk' & Hka).
      unfold has_key in Hk, Hka. rewrite Hk in Hka. injection Hka as ->.
      by eapply list_elem_of_lookup_2. }
  split; [|split; [done|]].
  - intros k. rewrite <-Hks, <-assigned_key_map.
    rewrite <-(elem_of_list_to_set (C := gset key)), Hset.
    unfold assignedAllocations in Ho. rewrite (assign_hosts_spec _ _ _ Ho). set_solver.
  - intros a b k Ha Hb Hka Hkb.
    apply list_elem_of_lookup in Ha as [i Hi]. apply list_elem_of_lookup in Hb as [j Hj].
    destruct (Forall2_lookup_l _ _ _ _ _ Hf Hi) as (ka & Hia & Hha).
    destruct (Forall2_lookup_l _ _ _ _ _ Hf Hj) as (kb & Hjb & Hhb).
    unfold has_key in *. rewrite Hka in Hha. rewrite Hkb in Hhb. simplify_eq.
    pose proof (NoDup_lookup _ _ _ _ Hnd Hia Hjb). congruence.
Qed.
End Static.

(** ** Groups *)

(** Group [g] selects allocation [a], as the fields of the group describe it. *)
Definition selects (g : Group) (a : Allocation) : Prop :=
  if decide (gr_Mode g = "allocations"%string) then al_ID a ∈ elems (gr_AllocationIDs g)
  else gr_PortStart g ≤ al_Port a ≤ gr_PortEnd g
       ∧ ∀ ip, gr_IP g = Some ip → ∃ m, parseIP ip = Some m ∧ parseIP (al_IP a) = Some m.

Lemma select_range_spec g mi l sel sel' :
  select_range g mi l sel = Ok sel' →
  ∀ i, i ∈ sel' ↔ i ∈ sel ∨ ∃ a, a ∈ l ∧ al_ID a = i ∧ gr_PortStart g ≤ al_Port a ≤ gr_PortEnd g
                               ∧ ∀ m, mi = Some m → parseIP (al_IP a) = Some m.
Proof.
  revert sel. induction l as [|a l IH]; intros sel Hs i; cbn [select_range] in Hs.
  { simplify_eq. set_solver. }
  setoid_rewrite elem_of_cons.
  destruct (Z.ltb_spec (al_Port a) (gr_PortStart g)); cbn [orb] in Hs;
    [|destruct (Z.ltb_spec (gr_PortEnd g) (al_Port a)); cbn [orb] in Hs].
  1,2: rewrite (IH _ Hs); split; [naive_solver|];
    intros [?|(b & [->|?] & ? & ? & ?)]; [by left|lia|naive_solver].
  destruct mi as [m|].
  - destruct (parseIP (al_IP a)) as [ip|] eqn:Eip; [|done]. case_decide as Hm; rewrite (IH _ Hs).
    + rewrite elem_of_union, elem_of_singleton. subst ip. split.
      * intros [[->|?]|(b & ? & ? & ? & ?)]; [right; exists a; naive_solver|by left|naive_solver].
      * intros [?|(b & [->|?] & ? & ? & ?)]; naive_solver.
    + split; [naive_solver|].
      intros [?|(b & [->|?] & ? & ? & Hb)]; [by left| |naive_solver].
      specialize (Hb m eq_refl). congruence.
  - rewrite (IH _ Hs), elem_of_union, elem_of_singleton. split.
    + intros [[->|?]|(b & ? & ? & ? & ?)]; [right; exists a; naive_solver|by left|naive_solver].
    + intros [?|(b & [->|?] & ? & ? & ?)]; naive_solver.
Qed.

(** [selectedAllocations] computes the IDs of the selected allocations. *)
Lemma selectedAllocations_spec g l sel :
  selectedAllocations g l = Ok sel → ∀ i, i ∈ sel ↔ ∃ a, a ∈ l ∧ al_ID a = i ∧ selects g a.
Proof.
  unfold selectedAllocations, selects. intros Hs i. destruct (decide (gr_Mode g = "allocations"%string)).
  - simplify_eq. rewrite elem_of_list_to_set, list_elem_of_filter, list_elem_of_fmap. naive_solver.
  - destruct (gr_IP g) as [ip|] eqn:Eip; [destruct (parseIP ip) as [m|] eqn:Em; [|done]|];
      rewrite (select_range_spec _ _ _ _ _ Hs); split; intros H.
    + destruct H as [?|(a & ? & ? & ? & Ha)]; [set_solver|]. exists a. split_and!; try done; try lia.
      intros ip' [= <-]. exists m. auto.
    + right. destruct H as (a & ? & ? & ? & Ha). exists a. split_and!; try done; try lia.
      intros m' [= <-]. destruct (Ha _ eq_refl) as (m' & ? & ?). congruence.
    + destruct H as [?|(a & ? & ? & ? & Ha)]; [set_solver|]. exists a. split_and!; done || lia.
    + right. destruct H as (a & ? & ? & ? & Ha). exists a. split_and!; done || lia.
Qed.

Lemma check_allocations_byID l byID byKey byID' :
  check_allocations l byID byKey = Ok byID' →
  ∀ i a, byID' !! i = Some a → byID !! i = Some a ∨ (a ∈ l ∧ al_ID a = i).
Proof.
  revert byID byKey. induction l as [|b l IH]; intros byID byKey Hc i a Hi; simpl in Hc.
  { simplify_eq. by left. }
  case_match; [done|]. case_bool_decide; [done|].
  apply result_bind_Ok in Hc as (k & _ & Hc). case_bool_decide; [done|].
  destruct (IH _ _ Hc _ _ Hi) as [Hb|[? ?]]; [|right; set_solver].
  apply lookup_insert_Some in Hb as [[<- <-]|[_ ?]]; [right; set_solver|by left].
Qed.

(** [check_resolved] removes the IDs of the listed allocations, all expected. *)
Lemma check_resolved_spec byID l expected rest :
  check_resolved byID l expected = Ok rest →
  (∀ a, a ∈ l → byID !! al_ID a = Some a ∧ al_ID a ∈ expected)
  ∧ ∀ i, i ∈ expected → i ∈ rest ∨ ∃ a, a ∈ l ∧ al_ID a = i.
Proof.
  revert expected. induction l as [|a l IH]; intros expected Hc; cbn [check_resolved] in Hc.
  { simplify_eq. set_solver. }
  case_bool_decide as Hid; [|done]. case_bool_decide as Hex; [|done]. cbn [andb] in Hc.
  apply IH in Hc as [H1 H2]. split.
  - intros b [->|Hb]%elem_of_cons; [done|]. apply H1 in Hb as [? ?]. set_solver.
  - intros i Hi. destruct (decide (i = al_ID a)) as [->|Hne]; [right; set_solver|].
    destruct (H2 i) as [?|(b & ? & ?)]; [set_solver|by left|]. right. exists b. set_solver.
Qed.

(** The groups by ID. *)
Lemma check_groups_spec l groups groups' :
  check_groups l groups = Ok groups' →
  (∀ i g, groups' !! i = Some g ↔ groups !! i = Some g ∨ (g ∈ l ∧ gr_ID g = i))
  ∧ NoDup (gr_ID <$> l) ∧ (∀ g, g ∈ l → groups !! gr_ID g = None).
Proof.
  revert groups. induction l as [|g l IH]; intros groups Hc; cbn [check_groups] in Hc.
  { simplify_eq. split_and!; [set_solver|constructor|set_solver]. }
  case_match; [done|]. case_bool_decide as Hg; [done|]. case_match; [done|].
  apply eq_None_not_Some in Hg. apply IH in Hc as (H1 & H2 & H3). split_and!.
  - intros i h. rewrite H1, lookup_insert_Some, elem_of_cons. split.
    + intros [[[<- <-]|[? ?]]|[? ?]]; auto.
    + intros [Hi|[[->|Hin] <-]]; auto. left. right. split; [|done]. congruence.
  - simpl. constructor; [|done]. intros (h & Eh & Hin)%list_elem_of_fmap.
    apply H3 in Hin. by rewrite <-Eh, lookup_insert_eq in Hin.
  - intros h [->|Hin]%elem_of_cons; [done|]. apply H3 in Hin. by apply lookup_insert_None in Hin as [? _].
Qed.

(** What the validation of one resolved group establishes. *)
Definition resolves (groups : gmap string Group) (byID : gmap Z Allocation) (allocations : list Allocation)
    (r : ResolvedGroup) : Prop :=
  ∃ g sel, groups !! rg_ID r = Some g ∧ rg_Protocol r = gr_Protocol g
    ∧ selectedAllocations g allocations = Ok sel
    ∧ (∀ a, a ∈ elems (rg_Allocations r) → byID !! al_ID a = Some a ∧ al_ID a ∈ sel)
    ∧ ∀ i, i ∈ sel → ∃ a, a ∈ elems (rg_Allocations r) ∧ al_ID a = i.

Lemma resolved_loop_spec groups byID allocations l seen :
  resolved_loop groups byID allocations l seen = Ok tt →
  Forall (resolves groups byID allocations) l ∧ NoDup (rg_ID <$> l) ∧ ∀ r, r ∈ l → rg_ID r ∉ seen.
Proof.
  revert seen. induction l as [|r l IH]; intros seen Hc; cbn [resolved_loop] in Hc.
  { split_and!; [constructor|constructor|set_solver]. }
  destruct (groups !! rg_ID r) as [g|] eqn:Eg; [|done].
  destruct (decide (rg_ID r ∈ seen)) as [|Hns]; [done|].
  case_bool_decide as Hp; [|done]. cbn [negb] in Hc.
  destruct (rg_Allocations r) as [l2|] eqn:E2; [|done].
  apply result_bind_Ok in Hc as (sel & Hsel & Hc). case_match; [done|].
  apply result_bind_Ok in Hc as (rest & Hrest & Hc). case_bool_decide as Hr; [|done].
  apply IH in Hc as (H1 & H2 & H3). apply check_resolved_spec in Hrest as [Ha Hb].
  split_and!.
  - constructor; [|done]. exists g, sel. rewrite E2. split_and!; try done.
    intros i Hi. destruct (Hb _ Hi); [set_solver|done].
  - simpl. constructor; [|done]. intros (h & Eh & Hin)%list_elem_of_fmap. apply H3 in Hin. set_solver.
  - intros h [->|Hin]%elem_of_cons; [done|]. apply H3 in Hin. set_solver.
Qed.

(** Every group has its resolved entry. *)
Lemma resolved_complete p groups byID :
  validateResolvedGroups p groups byID = Ok tt →
  Forall (resolves groups byID (elems (po_Allocations p))) (elems (po_ResolvedGroups p))
  ∧ ∀ i g, groups !! i = Some g → ∃ r, r ∈ elems (po_ResolvedGroups p) ∧ rg_ID r = i.
Proof.
  unfold validateResolvedGroups. intros Hv.
  destruct (Z.eqb_spec (zlen (elems (po_ResolvedGroups p))) (Z.of_nat (size groups))) as [Hsz|]; [|done].
  apply resolved_loop_spec in Hv as (Hf & Hnd & _). split; [done|].
  assert (list_to_set (rg_ID <$> elems (po_ResolvedGroups p)) = dom groups) as Hdom.
  { apply set_subseteq_size_eq.
    - intros i (r & -> & Hr)%elem_of_list_to_set%list_elem_of_fmap.
      rewrite Forall_forall in Hf. destruct (Hf _ Hr) as (g & _ & Hg & _).
      by eapply elem_of_dom_2.
    - rewrite size_list_to_set, size_dom, length_fmap by done. unfold zlen in Hsz. lia. }
  intros i g Hi. apply elem_of_dom_2 in Hi. rewrite <-Hdom in Hi.
  apply elem_of_list_to_set, list_elem_of_fmap in Hi as (r & -> & ?). eauto.
Qed.

(** [hasAllocation] recognises the server's allocations. *)
Lemma hasAllocation_spec assigned a k :
  has_key a k → 1 ≤ al_Port a ≤ 65535 → assigned_key (map_to_list assigned) k →
  (∀ host ports port, assigned !! host = Some ports → port ∈ ports → 1 ≤ port ≤ 65535) →
  hasAllocation assigned a = true.
Proof.
  intros Hk Ha (h & ps & q & Hin & Hq & Hhk) Hrange. unfold hasAllocation. rewrite Hk.
  apply existsb_exists. exists (h, ps). split; [by apply list_elem_of_In|]. simpl.
  apply elem_of_map_to_list in Hin. pose proof (Hrange _ _ _ Hin Hq) as Hqr.
  unfold has_key, allocationKey in Hk, Hhk. destruct (parseIP (al_IP a)) as [ip|]; [|done].
  destruct (parseIP h) as [ip'|] eqn:Eh; [|done]. simplify_eq.
  rewrite !Z.mod_small in * by lia. simplify_eq.
  unfold allocationKey. rewrite Eh, Z.mod_small by lia. by rewrite !bool_decide_eq_true_2 by done.
Qed.

Lemma assign_ports_range host ports owned owned' :
  assign_ports host ports owned = Ok owned' → ∀ port, port ∈ ports → 1 ≤ port ≤ 65535.
Proof.
  revert owned. induction ports as [|q ports IH]; intros owned Ha port Hin; [set_solver|].
  cbn [assign_ports] in Ha. destruct (Z.ltb_spec q 1); [done|].
  destruct (Z.ltb_spec 65535 q); [done|]. cbn [orb] in Ha.
  apply result_bind_Ok in Ha as (k & _ & Ha). case_bool_decide; [done|].
  apply elem_of_cons in Hin as [->|Hin]; [lia|by eapply IH].
Qed.

Lemma assigned_range assigned owned :
  assignedAllocations assigned = Ok owned →
  ∀ host ports port, assigned !! host = Some ports → port ∈ ports → 1 ≤ port ≤ 65535.
Proof.
  unfold assignedAllocations. intros Ha host ports port Hh Hp.
  apply elem_of_map_to_list in Hh. revert Ha Hh. generalize (∅ : gset key).
  induction (map_to_list assigned) as [|[h ps] l IH]; intros o Ha Hh; [set_solver|].
  cbn [assign_hosts] in Ha. apply result_bind_Ok in Ha as (o1 & H1 & Ha).
  apply elem_of_cons in Hh as [[= -> ->]|Hh]; [by eapply assign_ports_range|by eapply IH].
Qed.

(** ** Ports *)

(** The transport protocol is one the group covers. *)
Definition covers (g : Group) (proto : string) : Prop :=
  gr_Protocol g = "both"%string ∨ gr_Protocol g = proto.

Section Resolved.
Context (sha256_hex : string → string) (marshal_len : Policy → Z).

(** Every allocation a valid policy lists is recognised as the server's. *)
Lemma valid_allocation_owned p assigned ceiling a :
  Validate sha256_hex marshal_len p assigned ceiling = Ok tt → p ≠ Empty →
  a ∈ elems (po_Allocations p) → hasAllocation assigned a = true.
Proof.
  intros Hv Hne Ha. destruct (Validate_inv _ _ _ _ _ Hv Hne) as (Hst & owned & Ho & Hsz & Hch).
  apply validateStatic_inv in Hst as (byID & _ & Hb & _).
  apply check_allocations_distinct in Hb as (ks & Hf & _ & _ & _ & _ & Hok).
  pose proof (check_owned_keys _ _ _ Hf Hch) as Hsub. rewrite Forall_forall in Hok.
  destruct (Hok _ Ha) as [_ Hport]. apply list_elem_of_lookup in Ha as [i Hi].
  destruct (Forall2_lookup_l _ _ _ _ _ Hf Hi) as (k & Hk & Hka).
  eapply hasAllocation_spec; [done|done| |by eapply assigned_range].
  apply list_elem_of_lookup_2, Hsub in Hk.
  unfold assignedAllocations in Ho. rewrite (assign_hosts_spec _ _ _ Ho) in Hk. set_solver.
Qed.

(** The ports of a valid policy's groups.  For a policy valid for a server, the
    ports computed for a list of group names and a protocol are in strictly ascending
    order and are exactly the ports of the policy's own allocations that some named
    group covering the protocol selects: the resolved groups the panel sends can
    neither add a port the group's definition does not select nor hide one. *)
Theorem Ports_exact p assigned ceiling names proto :
  Validate sha256_hex marshal_len p assigned ceiling = Ok tt → p ≠ Empty →
  StronglySorted Z.lt (Ports p names proto assigned)
  ∧ ∀ port, port ∈ Ports p names proto assigned ↔
      ∃ g a, g ∈ elems (rs_Groups (po_Body p)) ∧ gr_ID g ∈ names ∧ covers g proto
             ∧ a ∈ elems (po_Allocations p) ∧ selects g a ∧ al_Port a = port.
Proof.
  intros Hv Hne. split.
  { apply StronglySorted_le_lt.
    - apply (StronglySorted_merge_sort Z.le).
    - unfold Ports. rewrite merge_sort_Permutation. apply NoDup_remove_dups. }
  intros port. pose proof (λ a, valid_allocation_owned _ _ _ a Hv Hne) as Hown.
  destruct (Validate_inv _ _ _ _ _ Hv Hne) as (Hst & _).
  apply validateStatic_inv in Hst as (byID & groups & Hb & Hg & Hr & _).
  apply check_groups_spec in Hg as (Hg & _ & _). apply resolved_complete in Hr as [Hf Hcomplete].
  rewrite Forall_forall in Hf. pose proof (check_allocations_byID _ _ _ _ Hb) as Hby.
  apply check_allocations_distinct in Hb as (_ & _ & _ & _ & Hids & _).
  unfold Ports. rewrite merge_sort_Permutation, elem_of_remove_dups, elem_of_flat_map.
  split.
  - intros (r & Hr & Hin). destruct (in_scope names proto r) eqn:Es; [|set_solver].
    apply andb_true_iff in Es as [Hn%bool_decide_eq_true Hp].
    destruct (Hf _ Hr) as (g & sel & Hlg & Epr & Hsel & Hin1 & _).
    apply Hg in Hlg as [?|[Hgl Hid]]; [set_solver|].
    unfold owned_ports in Hin. apply list_elem_of_fmap in Hin as (a & -> & Ha).
    apply list_elem_of_filter in Ha as [_ Ha]. destruct (Hin1 _ Ha) as [Hbya Hasel].
    apply Hby in Hbya as [?|[Hal _]]; [set_solver|].
    rewrite (selectedAllocations_spec _ _ _ Hsel) in Hasel. destruct Hasel as (b & Hbl & Eb & Hsb).
    assert (b = a) as -> by (by eapply NoDup_fmap_inj_on).
    exists g, a. rewrite Hid. split_and!; try done. unfold covers. rewrite <-Epr.
    apply orb_true_iff in Hp as [Hp%bool_decide_eq_true|Hp%bool_decide_eq_true]; auto.
  - intros (g & a & Hgl & Hn & Hcov & Hal & Hsa & <-).
    destruct (Hcomplete (gr_ID g) g) as (r & Hr & Hid); [apply Hg; auto|].
    exists r. split; [done|]. destruct (Hf _ Hr) as (g' & sel & Hlg & Epr & Hsel & Hin1 & Hin2).
    assert (g' = g) as ->.
    { rewrite Hid in Hlg. destruct (Hg (gr_ID g) g) as [_ H2]. rewrite H2 in Hlg by auto. congruence. }
    destruct (Hin2 (al_ID a)) as (b & Hb & Eb).
    { rewrite (selectedAllocations_spec _ _ _ Hsel). eauto. }
    destruct (Hin1 _ Hb) as [Hbyb _]. apply Hby in Hbyb as [?|[Hbl _]]; [set_solver|].
    assert (b = a) as -> by (by eapply NoDup_fmap_inj_on).
    assert (in_scope names proto r = true) as ->.
    { unfold in_scope. rewrite bool_decide_eq_true_2 by congruence. simpl. rewrite Epr.
      apply orb_true_iff. destruct Hcov as [Hc|Hc]; [left|right]; by apply bool_decide_eq_true_2. }
    unfold owned_ports. apply list_elem_of_fmap. exists a. split; [done|].
    apply list_elem_of_filter. split; [by apply Hown|done].
Qed.
End Resolved.

(** ** The order of evaluation *)

(** The position at which the rules of a chain, or those of none, are evaluated. *)
Definition chain_rank (chains : list Chain) (r : Rule) (n : nat) : Prop :=
  match ru_ChainID r with
  | Some c => ∃ ch, chains !! n = Some ch ∧ ch_ID ch = c
  | None => n = length chains
  end.

(** [r] comes before [s]: in an earlier chain, or in the same and earlier in the list
    of rules. *)
Definition evaluated_before (chains : list Chain) (rules : list Rule) (r s : Rule) : Prop :=
  ∃ m n i j, chain_rank chains r m ∧ chain_rank chains s n ∧ rules !! i = Some r ∧ rules !! j = Some s
    ∧ ((m < n)%nat ∨ m = n ∧ (i < j)%nat).

(** A rule takes part: enabled, and its chain, if any, enabled. *)
Definition active (chains : list Chain) (r : Rule) : Prop :=
  ru_Enabled r = true ∧
  ∀ c, ru_ChainID r = Some c → ∃ ch, ch ∈ chains ∧ ch_ID ch = c ∧ ch_Enabled ch = true.

Lemma StronglySorted_filter_index {A} (P : A → Prop) `{!∀ x, Decision (P x)} (R : A → A → Prop) (l : list A) :
  (∀ i j x y, l !! i = Some x → l !! j = Some y → (i < j)%nat → P x → P y → R x y) →
  StronglySorted R (filter P l).
Proof.
  induction l as [|x l IH]; intros HR; [constructor|]. rewrite filter_cons.
  assert (StronglySorted R (filter P l)) as Hs.
  { apply IH. intros i j y z Hi Hj Hlt. by apply (HR (S i) (S j)); try lia. }
  case_decide as Hx; [|done]. constructor; [done|]. rewrite Forall_forall.
  intros y [Hy Hin]%list_elem_of_filter. apply list_elem_of_lookup in Hin as [j Hj].
  by apply (HR 0%nat (S j)); try lia.
Qed.

Lemma StronglySorted_app_rel {A} (R : A → A → Prop) (l1 l2 : list A) :
  StronglySorted R l1 → StronglySorted R l2 → (∀ x y, x ∈ l1 → y ∈ l2 → R x y) →
  StronglySorted R (l1 ++ l2).
Proof.
  induction 1 as [|x l1 H1 IH Hx]; simpl; intros H2 Hc; [done|]. constructor.
  - apply IH; [done|]. intros; apply Hc; set_solver.
  - apply list.Forall_app. split; [done|]. rewrite Forall_forall. intros; apply Hc; set_solver.
Qed.

Lemma StronglySorted_flat_map {A B} (R : B → B → Prop) (f : A → list B) (l : list A) :
  (∀ x, x ∈ l → StronglySorted R (f x)) →
  (∀ i j x y, l !! i = Some x → l !! j = Some y → (i < j)%nat → ∀ a b, a ∈ f x → b ∈ f y → R a b) →
  StronglySorted R (flat_map f l).
Proof.
  induction l as [|x l IH]; simpl; intros H1 H2; [constructor|]. apply StronglySorted_app_rel.
  - apply H1. set_solver.
  - apply IH; [intros; apply H1; set_solver|].
    intros i j y z Hi Hj Hlt. by apply (H2 (S i) (S j)); try lia.
  - intros a b Ha (y & Hy & Hb)%elem_of_flat_map. apply list_elem_of_lookup in Hy as [j Hj].
    eapply (H2 0%nat (S j)); eauto. lia.
Qed.

Lemma check_chains_NoDup l chains chains' :
  check_chains l chains = Ok chains' → NoDup (ch_ID <$> l) ∧ ∀ c, c ∈ l → ch_ID c ∉ chains.
Proof.
  revert chains. induction l as [|c l IH]; intros chains Hc; cbn [check_chains] in Hc.
  { split; [constructor|set_solver]. }
  case_match; [done|]. case_bool_decide; [done|]. apply IH in Hc as [Hn1 Hn2]. split.
  - simpl. constructor; [|done]. intros (h & Eh & Hin)%list_elem_of_fmap. apply Hn2 in Hin. set_solver.
  - intros h [->|Hin]%elem_of_cons; [done|]. apply Hn2 in Hin. set_solver.
Qed.

Lemma check_rules_NoDup groups chains l seen :
  check_rules groups chains l seen = Ok tt → NoDup (ru_ID <$> l) ∧ ∀ r, r ∈ l → ru_ID r ∉ seen.
Proof.
  revert seen. induction l as [|r l IH]; intros seen Hc; cbn [check_rules] in Hc.
  { split; [constructor|set_solver]. }
  case_match; [done|]. case_bool_decide; [done|]. case_match; [done|]. apply IH in Hc as [Hn1 Hn2]. split.
  - simpl. constructor; [|done]. intros (h & Eh & Hin)%list_elem_of_fmap. apply Hn2 in Hin. set_solver.
  - intros h [->|Hin]%elem_of_cons; [done|]. apply Hn2 in Hin. set_solver.
Qed.

(** The rules in order, whatever the policy: members and order. *)
Lemma OrderedRules_members p r :
  r ∈ OrderedRules p ↔ r ∈ elems (fw_Rules (rs_Firewall (po_Body p)))
    ∧ active (elems (fw_Chains (rs_Firewall (po_Body p)))) r.
Proof.
  unfold OrderedRules, active. rewrite elem_of_app, elem_of_flat_map, list_elem_of_filter. split.
  - intros [(c & Hc & Hr)|[[He Hn] Hr]]; [|split; [done|split; [done|congruence]]].
    destruct (ch_Enabled c) eqn:Ec; [|set_solver].
    apply list_elem_of_filter in Hr as [[He Hch] Hr]. split; [done|]. split; [done|].
    intros c' Hc'. exists c. split_and!; congruence || done.
  - intros (Hr & He & Hc). destruct (ru_ChainID r) as [c|] eqn:E; [left|right; split; done].
    destruct (Hc _ eq_refl) as (ch & Hch & <- & Een). exists ch. rewrite Een. split; [done|].
    apply list_elem_of_filter. by split.
Qed.

Lemma OrderedRules_sorted p :
  StronglySorted (evaluated_before (elems (fw_Chains (rs_Firewall (po_Body p))))
                    (elems (fw_Rules (rs_Firewall (po_Body p))))) (OrderedRules p).
Proof.
  unfold OrderedRules. set (chains := elems (fw_Chains _)). set (rules := elems (fw_Rules _)).
  assert (∀ c r, r ∈ (if ch_Enabled c then filter (in_chain c) rules else []) →
            ru_ChainID r = Some (ch_ID c) ∧ ∃ i, rules !! i = Some r) as Hin.
  { intros c r Hr. destruct (ch_Enabled c); [|set_solver].
    apply list_elem_of_filter in Hr as [[_ ?] Hr]. by apply list_elem_of_lookup in Hr. }
  apply StronglySorted_app_rel.
  - apply StronglySorted_flat_map.
    + intros c Hc. apply list_elem_of_lookup in Hc as [n Hn]. destruct (ch_Enabled c); [|constructor].
      apply StronglySorted_filter_index. intros i j r s Hi Hj Hlt [_ Er] [_ Es].
      exists n, n, i, j. unfold chain_rank. rewrite Er, Es. split_and!; eauto.
    + intros m n c d Hm Hn Hlt r s [Er [i Hi]]%Hin [Es [j Hj]]%Hin.
      exists m, n, i, j. unfold chain_rank. rewrite Er, Es. split_and!; eauto.
  - apply StronglySorted_filter_index. intros i j r s Hi Hj Hlt [_ Er] [_ Es].
    exists (length chains), (length chains), i, j. unfold chain_rank. rewrite Er, Es. split_and!; eauto.
  - intros r s (c & Hc & [Er [i Hi]]%Hin)%elem_of_flat_map [[_ Es] Hs]%list_elem_of_filter.
    apply list_elem_of_lookup in Hc as [m Hm]. apply list_elem_of_lookup in Hs as [j Hj].
    exists m, (length chains), i, j. unfold chain_rank. rewrite Er, Es. split_and!; eauto.
    left. by eapply lookup_lt_Some.
Qed.

(** With distinct chain IDs and distinct rules the order is strict. *)
Lemma evaluated_before_asymm chains rules r s :
  NoDup (ch_ID <$> chains) → NoDup rules →
  evaluated_before chains rules r s → ¬ evaluated_before chains rules s r.
Proof.
  intros Hc Hr (m & n & i & j & Hm & Hn & Hi & Hj & H) (n' & m' & j' & i' & Hn' & Hm' & Hj' & Hi' & H').
  assert (∀ x a b, chain_rank chains x a → chain_rank chains x b → a = b) as Hfun.
  { unfold chain_rank. intros x a b. destruct (ru_ChainID x) as [c|]; [|congruence].
    intros (ca & Ha & <-) (cb & Hb & Eb).
    apply (NoDup_lookup (ch_ID <$> chains) a b (ch_ID ca)); [done| |]; rewrite list_lookup_fmap.
    - by rewrite Ha.
    - rewrite Hb. simpl. congruence. }
  pose proof (Hfun _ _ _ Hm Hm'). pose proof (Hfun _ _ _ Hn Hn').
  pose proof (NoDup_lookup _ _ _ _ Hr Hi Hi'). pose proof (NoDup_lookup _ _ _ _ Hr Hj Hj'). lia.
Qed.

Lemma StronglySorted_asymm_NoDup {A} (R : A → A → Prop) (l : list A) :
  (∀ x y, R x y → ¬ R y x) → StronglySorted R l → NoDup l.
Proof.
  intros HR. induction 1 as [|x l _ IH Hx]; constructor; [|done]. intros Hin.
  rewrite Forall_forall in Hx. specialize (Hx _ Hin). by eapply HR.
Qed.

(** The order of the firewall's rules.  For a policy whose firewall is valid, the
    rules are evaluated in an order that is strict and total on the active ones: the
    active rules, and only they, appear, each once; rules of an earlier chain precede
    those of a later one, rules of the same chain keep the order of the policy, and
    rules of no chain come last. *)
Theorem OrderedRules_order p groups :
  let chains := elems (fw_Chains (rs_Firewall (po_Body p))) in
  let rules := elems (fw_Rules (rs_Firewall (po_Body p))) in
  validateFirewall p groups = Ok tt →
  (∀ r, r ∈ OrderedRules p ↔ r ∈ rules ∧ active chains r) ∧ NoDup (OrderedRules p)
  ∧ StronglySorted (evaluated_before chains rules) (OrderedRules p)
  ∧ ∀ r s, evaluated_before chains rules r s → ¬ evaluated_before chains rules s r.
Proof.
  intros chains rules Hv. unfold validateFirewall in Hv. case_match; [done|].
  apply result_bind_Ok in Hv as (cs & Hc & Hr).
  apply check_chains_NoDup in Hc as [Hc _]. apply check_rules_NoDup in Hr as [Hr _].
  apply NoDup_fmap_1 in Hr.
  assert (∀ r s, evaluated_before chains rules r s → ¬ evaluated_before chains rules s r) as Has.
  { intros r s. by apply evaluated_before_asymm. }
  split_and!; [apply OrderedRules_members| |apply OrderedRules_sorted|done].
  eapply StronglySorted_asymm_NoDup; [exact Has|apply OrderedRules_sorted].
Qed.

(** ** A concrete policy *)

Definition w_hash : string := "00112233445566778899aabbccddeeff00112233445566778899aabbccddeeff".
Definition w_sha (_ : string) : string := w_hash.
Definition w_len (_ : Policy) : Z := 900.
Definition w_alloc1 := mkAllocation 7 "192.0.2.1" 25565.
Definition w_alloc2 := mkAllocation 9 "2001:db8::1" 8123.
Definition w_game := mkGroup "game" "Game" "allocations" "tcp" (Some [7; 4]) 1 65535 None.
Definition w_web := mkGroup "web" "Web" "range" "both" (Some []) 8000 9000 (Some "2001:db8:0::1"%string).
Definition w_rule id chain := mkRule id "Rule" true chain "inbound" "allow" "tcp" (Some "game"%string) (Some "198.51.100.0/24"%string).
Definition w_policy : Policy :=
  mkPolicy 1 3 w_hash (Some [w_alloc1; w_alloc2])
    (Some [mkResolved "web" "both" (Some [w_alloc2]); mkResolved "game" "tcp" (Some [w_alloc1])])
    (mkRules (Some [w_game; w_web])
       (mkFirewall true "drop" "allow" (Some [mkChain "a" "A" true; mkChain "b" "B" true])
          (Some [w_rule "1" None; w_rule "2" (Some "b"%string); w_rule "3" (Some "a"%string)]))
       (mkBandwidth 0 5000)).
Definition w_assigned : assignment :=
  {["192.0.2.1"%string := [25565]; "2001:db8:0:0::1"%string := [8123]]}.

Definition w_key : key := (V6 (8193 * 2 ^ 112 + 3512 * 2 ^ 96 + 1), 8123).
Lemma Validate_binds_allocations_witness :
  Validate w_sha w_len w_policy w_assigned (mkBandwidth 0 0) = Ok tt ∧ has_key w_alloc2 w_key
  ∧ ∃ host ports port, w_assigned !! host = Some ports ∧ port ∈ ports
      ∧ allocationKey host port = Ok w_key.
Proof.
  split; [vm_compute; reflexivity|]. split; [vm_compute; reflexivity|].
  apply (Validate_binds_allocations w_sha w_len w_policy w_assigned (mkBandwidth 0 0));
    [vm_compute; reflexivity|discriminate|].
  exists w_alloc2. split; [apply list_elem_of_In; simpl; auto|vm_compute; reflexivity].
Defined.

Lemma Ports_exact_witness :
  Ports w_policy ["web"; "game"]%string "tcp" w_assigned = [8123; 25565]
  ∧ StronglySorted Z.lt (Ports w_policy ["web"; "game"]%string "tcp" w_assigned).
Proof.
  split; [vm_compute; reflexivity|].
  apply (Ports_exact w_sha w_len w_policy w_assigned (mkBandwidth 0 0));
    [vm_compute; reflexivity|discriminate].
Defined.

Lemma OrderedRules_order_witness :
  (ru_ID <$> OrderedRules w_policy) = ["3"; "2"; "1"]%string ∧ NoDup (OrderedRules w_policy).
Proof.
  split; [vm_compute; reflexivity|].
  apply (OrderedRules_order w_policy (<["game"%string := w_game]> ∅)). vm_compute. reflexivity.
Defined.
