(* ===== verification/CanonicalFacts.v ===== *)
(** * The canonical text of a policy identifies it

    [appendCanonical] writes a JSON value with the keys of its objects sorted.  Here:
    the text is that of the value with its keys in order ([canonical_print]), a text
    can be read back ([print_readable]), and so equal policy hashes mean equal
    policies, SHA-256 collisions apart. *)

From stdpp Require Import base list strings numbers sorting.
From Stdlib Require Import Ascii.
From S2P Require Import Prelude GoStrings Policy PolicyFacts.
Open Scope Z_scope.

(** ** Strings *)

Lemma str_app_assoc (a b c : string) : (a +:+ b) +:+ c = a +:+ (b +:+ c).
Proof. induction a as [|x a IH]; [done|]. change (String x ((a +:+ b) +:+ c) = String x (a +:+ (b +:+ c))). by f_equal. Qed.
Lemma str_app_cons x (a b : string) : String x a +:+ b = String x (a +:+ b).
Proof. done. Qed.
Lemma str_app_nil (b : string) : EmptyString +:+ b = b.
Proof. done. Qed.
Create Rewrite HintDb str.
#[local] Hint Rewrite str_app_assoc str_app_cons str_app_nil : str.

(** ** Numbers *)

(** The digits at the front of a string, and what follows. *)
Fixpoint read_digits (acc : Z) (s : string) : Z * string :=
  match s with
  | EmptyString => (acc, EmptyString)
  | String c s' => match digit_of c with
                   | Some d => read_digits (acc * 10 + d) s'
                   | None => (acc, s)
                   end
  end.

(** What can follow a value: nothing, a comma or a closing bracket. *)
Definition delim (r : string) : Prop :=
  match r with
  | EmptyString => True
  | String c _ => c = ","%char ∨ c = "]"%char ∨ c = "}"%char
  end.

Lemma read_format fuel n acc :
  0 ≤ n < 10 ^ Z.of_nat fuel → read_digits 0 (format_digits fuel n acc) = read_digits n acc.
Proof.
  revert n acc. induction fuel as [|fuel IH]; intros n acc Hn.
  { simpl in *. by replace n with 0 by lia. }
  rewrite Nat2Z.inj_succ, Z.pow_succ_r in Hn by lia.
  pose proof (Z.mod_pos_bound n 10 ltac:(lia)) as Hm.
  pose proof (Z.div_mod n 10 ltac:(lia)) as Hd.
  cbn [format_digits]. destruct (Z.ltb_spec n 10).
  - cbn [read_digits]. rewrite digit_of_digit by done. by rewrite Z.mod_small by lia.
  - rewrite IH by (split; [apply Z.div_pos; lia|apply Z.div_lt_upper_bound; lia]).
    cbn [read_digits]. rewrite digit_of_digit by done. f_equal. lia.
Qed.

Lemma format_digits_app fuel n acc r : format_digits fuel n acc +:+ r = format_digits fuel n (acc +:+ r).
Proof.
  revert n acc. induction fuel as [|fuel IH]; intros n acc; [done|].
  cbn [format_digits]. case_match; [done|]. by rewrite IH.
Qed.

Lemma read_delim n r : delim r → read_digits n r = (n, r).
Proof. destruct r as [|c r]; [done|]. by intros [->|[->| ->]]. Qed.

(** Reading a number back. *)
Definition read_number (s : string) : Z * string :=
  match s with
  | String "-"%char s' => let '(n, r) := read_digits 0 s' in (- n, r)
  | _ => read_digits 0 s
  end.

Definition in_machine (n : Z) : Prop := - 10 ^ 20 < n < 10 ^ 20.

Lemma format_not_minus fuel n acc r :
  0 ≤ n → (0 < fuel)%nat → read_number (format_digits fuel n acc +:+ r) = read_digits 0 (format_digits fuel n acc +:+ r).
Proof.
  intros Hn Hf. destruct (format_digits_head fuel n acc Hn Hf) as (d & s & Hd & ->).
  assert (d = 0 ∨ d = 1 ∨ d = 2 ∨ d = 3 ∨ d = 4 ∨ d = 5 ∨ d = 6 ∨ d = 7 ∨ d = 8 ∨ d = 9) as Hc by lia.
  by destruct_or? Hc; subst d.
Qed.

Lemma read_FormatInt n r : in_machine n → delim r → read_number (FormatInt n +:+ r) = (n, r).
Proof.
  unfold in_machine, FormatInt. intros Hn Hr. assert (10 ^ Z.of_nat 20 = 10 ^ 20) as E by reflexivity.
  destruct (Z.ltb_spec n 0).
  - rewrite str_app_cons. cbn [read_number].
    rewrite format_digits_app, read_format, str_app_nil by (rewrite E; lia).
    rewrite read_delim by done. f_equal. lia.
  - rewrite format_not_minus by lia.
    rewrite format_digits_app, read_format, str_app_nil by (rewrite E; lia). by apply read_delim.
Qed.

(** ** Strings between quotes *)

Definition unhex (c : ascii) : Z := default 0 (hex_val c).
(** Reading one escaped byte. *)
Definition unescape (s : string) : option (ascii * string) :=
  match s with
  | EmptyString => None
  | String c s' =>
      if Ascii.eqb c backslash then
        match s' with
        | String "u"%char (String _ (String _ (String a (String b r)))) =>
            Some (ascii_of_N (Z.to_N (unhex a * 16 + unhex b)), r)
        | String "b"%char r => Some (ascii_of_N 8, r)
        | String "f"%char r => Some (ascii_of_N 12, r)
        | String "n"%char r => Some (ascii_of_N 10, r)
        | String "r"%char r => Some (ascii_of_N 13, r)
        | String "t"%char r => Some (ascii_of_N 9, r)
        | String x r => Some (x, r)
        | EmptyString => None
        end
      else if Ascii.eqb c quote then None else Some (c, s')
  end.

Lemma unescape_escape c r : unescape (escape c +:+ r) = Some (c, r).
Proof. by destruct c as [[] [] [] [] [] [] [] []]. Qed.
Lemma unescape_quote r : unescape (String quote r) = None.
Proof. done. Qed.

Lemma escape_all_inj s t r1 r2 :
  escape_all s +:+ String quote r1 = escape_all t +:+ String quote r2 → s = t ∧ r1 = r2.
Proof.
  revert t. induction s as [|c s IH]; intros [|d t] H; cbn [escape_all] in H;
    autorewrite with str in H; apply (f_equal unescape) in H as Hu;
    rewrite ?unescape_escape, ?unescape_quote in Hu; [|done|done|].
  - by injection H.
  - injection Hu as -> [-> ->]%IH. done.
Qed.

Lemma appendJSONString_inj s t r1 r2 :
  ToValidUTF8 s = s → ToValidUTF8 t = t →
  appendJSONString s +:+ r1 = appendJSONString t +:+ r2 → s = t ∧ r1 = r2.
Proof.
  unfold appendJSONString. intros -> ->. autorewrite with str. intros [= H%escape_all_inj]. done.
Qed.

(** ** Sorting keys, then printing *)

(** Induction over the members of arrays and objects. *)
Lemma json_rect_nested (P : json → Prop) :
  P JNull → (∀ b, P (JBool b)) → (∀ n, P (JNum n)) → (∀ s, P (JStr s)) →
  (∀ l, Forall P l → P (JArr l)) → (∀ l, Forall (λ m : string * json, P (snd m)) l → P (JObj l)) →
  ∀ v, P v.
Proof.
  intros Hn Hb Hm Hs Ha Ho. fix IH 1. intros [|b|n|s|l|l]; [done|done|done|done| |].
  - apply Ha. induction l as [|x l IHl]; constructor; [apply IH|done].
  - apply Ho. induction l as [|[k x] l IHl]; constructor; [apply IH|done].
Qed.

(** The value with the keys of its objects in order. *)
Fixpoint normal (v : json) : json :=
  match v with
  | JArr l => JArr (map normal l)
  | JObj l => JObj (merge_sort key_le (map (λ m, (fst m, normal (snd m))) l))
  | _ => v
  end.

(** The text of a value as it stands. *)
Definition member (f : json → string) (m : string * json) : string :=
  appendJSONString (fst m) +:+ String ":"%char (f (snd m)).
Fixpoint print (v : json) : string :=
  match v with
  | JNull => "null"
  | JBool b => if b then "true" else "false"
  | JNum n => FormatInt n
  | JStr s => appendJSONString s
  | JArr l => String "["%char (commas (map print l) +:+ "]")
  | JObj l => String "{"%char (commas (map (member print) l) +:+ "}")
  end.

Section SortMap.
Context {A B} (R : A → A → Prop) `{!RelDecision R} (S' : B → B → Prop) `{!RelDecision S'} (f : A → B).
Context (HRS : ∀ x y, R x y ↔ S' (f x) (f y)).

Lemma list_merge_map l1 l2 : list_merge S' (map f l1) (map f l2) = map f (list_merge R l1 l2).
Proof.
  revert l2. induction l1 as [|x l1 IH1]; intros l2; [by destruct l2|].
  induction l2 as [|y l2 IH2]; [done|]. cbn [map]. rewrite !list_merge_cons.
  destruct (decide (R x y)) as [H|H].
  - rewrite decide_True by (by apply HRS). cbn [map]. f_equal. apply (IH1 (y :: l2)).
  - rewrite decide_False by (by rewrite <-HRS). cbn [map]. f_equal. apply IH2.
Qed.

Lemma merge_list_to_stack_map st l :
  merge_list_to_stack S' (map (fmap (map f)) st) (map f l)
  = map (fmap (map f)) (merge_list_to_stack R st l).
Proof.
  revert l. induction st as [|[l'|] st IH]; intros l; cbn [map]; simpl; [done| |done].
  f_equal. by rewrite list_merge_map, IH.
Qed.

Lemma merge_sort_map l : merge_sort S' (map f l) = map f (merge_sort R l).
Proof.
  unfold merge_sort. change (@nil (option (list B))) with (map (fmap (map f)) (@nil (option (list A)))).
  generalize (@nil (option (list A))). induction l as [|x l IH]; intros st; cbn [map merge_sort_aux].
  - induction st as [|[l'|] st IH]; simpl; [done| |done]. by rewrite IH, list_merge_map.
  - rewrite <-IH. f_equal. apply (merge_list_to_stack_map st [x]).
Qed.
End SortMap.

Lemma canonical_print v : canonical v = print (normal v).
Proof.
  induction v as [| | | |l IH|l IH] using json_rect_nested; cbn [canonical normal print]; try done.
  - do 3 f_equal. rewrite map_map. by induction IH; cbn [map]; f_equal.
  - do 3 f_equal.
    set (g := λ m : string * json, (m.1, print m.2)).
    assert (map (λ m, (m.1, canonical m.2)) l = map g (map (λ m, (m.1, normal m.2)) l)) as ->.
    { rewrite map_map. induction IH as [|m l Hm _ IHl]; cbn [map]; [done|]. unfold g at 1. simpl.
      by rewrite Hm, IHl. }
    rewrite (merge_sort_map key_le key_le g), map_map by done. done.
Qed.

(** ** Reading a printed value back *)

(** Numbers in the range of 64 bits and strings of valid UTF-8, throughout. *)
Fixpoint json_ok (v : json) : bool :=
  match v with
  | JNum n => (- 2 ^ 63 <=? n) && (n <? 2 ^ 64)
  | JStr s => bool_decide (ToValidUTF8 s = s)
  | JArr l => forallb json_ok l
  | JObj l => forallb (λ m, bool_decide (ToValidUTF8 (fst m) = fst m) && json_ok (snd m)) l
  | _ => true
  end.

(** [f] can be read back at [a]: a text of [a] is the text of no other value. *)
Definition readable {A} (ok : A → bool) (f : A → string) (a : A) : Prop :=
  ∀ b r1 r2, ok b = true → delim r1 → delim r2 → f a +:+ r1 = f b +:+ r2 → a = b ∧ r1 = r2.

(** The members after the first one. *)
Fixpoint rest_members (ws : list string) (e : string) : string :=
  match ws with
  | [] => e
  | w :: ws' => String ","%char (w +:+ rest_members ws' e)
  end.
Lemma commas_rest w ws e : commas (w :: ws) +:+ e = w +:+ rest_members ws e.
Proof.
  unfold commas. revert w. induction ws as [|v ws IH]; intros w; [done|].
  cbn [Join rest_members]. rewrite str_app_assoc, str_app_cons. do 2 f_equal. apply IH.
Qed.

Section Members.
Context {A} (ok : A → bool) (f : A → string) (close : ascii).
Context (Hclose : close = "]"%char ∨ close = "}"%char).
Context (Hhead : ∀ a r r', ok a = true → f a +:+ r ≠ String close r').

Lemma rest_delim l r : delim (rest_members (map f l) (String close r)).
Proof. destruct l; simpl; [tauto|by left]. Qed.

Lemma rest_members_inj l l' r1 r2 :
  Forall (readable ok f) l → forallb ok l' = true →
  rest_members (map f l) (String close r1) = rest_members (map f l') (String close r2) → l = l' ∧ r1 = r2.
Proof.
  intros Hl. revert l'. induction Hl as [|a l Ha _ IH]; intros [|b l'] Hok; cbn [map rest_members].
  - intros [= ->]. done.
  - intros [= -> _]. by destruct Hclose.
  - intros [= <- _]. by destruct Hclose.
  - apply andb_true_iff in Hok as [Hb Hok].
    intros [= [-> E]%Ha]; [|done|apply rest_delim|apply rest_delim]. apply IH in E as [-> ->]; done.
Qed.

Lemma commas_inj l l' r1 r2 :
  Forall (readable ok f) l → forallb ok l = true → forallb ok l' = true →
  commas (map f l) +:+ String close r1 = commas (map f l') +:+ String close r2 → l = l' ∧ r1 = r2.
Proof.
  intros Hl. destruct Hl as [|a l Ha Hl]; destruct l' as [|b l']; intros Hok Hok'; cbn [map];
    rewrite ?commas_rest.
  - unfold commas. cbn [Join]. rewrite !str_app_nil. intros [= ->]. done.
  - apply andb_true_iff in Hok' as [Hb _]. intros E. symmetry in E. by apply Hhead in E.
  - apply andb_true_iff in Hok as [Hb _]. intros E. by apply Hhead in E.
  - apply andb_true_iff in Hok' as [Hb Hok'].
    intros [-> E]%Ha; [|done|apply rest_delim|apply rest_delim].
    apply rest_members_inj in E as [-> ->]; done.
Qed.
End Members.

(** The first character of a value's text tells its kind. *)
Definition kind (v : json) : nat :=
  match v with JNull => 0 | JBool true => 1 | JBool false => 2 | JNum _ => 3 | JStr _ => 4
             | JArr _ => 5 | JObj _ => 6 end%nat.
Definition kind_of (c : ascii) : nat :=
  (if Ascii.eqb c "n" then 0 else if Ascii.eqb c "t" then 1 else if Ascii.eqb c "f" then 2
   else if Ascii.eqb c "-" || bool_decide (is_Some (digit_of c)) then 3
   else if Ascii.eqb c quote then 4 else if Ascii.eqb c "[" then 5 else if Ascii.eqb c "{" then 6
   else 7)%char%nat.

Lemma print_head v r : ∃ c s, print v +:+ r = String c s ∧ kind_of c = kind v.
Proof.
  destruct v as [|[]|n|s|l|l]; cbn [print]; try (eexists _, _; split; [reflexivity|done]).
  unfold FormatInt. destruct (Z.ltb_spec n 0); [eexists _, _; split; [reflexivity|done]|].
  destruct (format_digits_head 20 n EmptyString) as (d & s & Hd & ->); [lia|lia|].
  eexists _, _; split; [reflexivity|].
  assert (d = 0 ∨ d = 1 ∨ d = 2 ∨ d = 3 ∨ d = 4 ∨ d = 5 ∨ d = 6 ∨ d = 7 ∨ d = 8 ∨ d = 9) as Hc by lia.
  by destruct_or? Hc; subst d.
Qed.

Lemma print_kind v w r1 r2 : print v +:+ r1 = print w +:+ r2 → kind v = kind w.
Proof.
  intros E. destruct (print_head v r1) as (c & s & Ev & <-), (print_head w r2) as (d & t & Ew & <-).
  congruence.
Qed.

Lemma print_not_close v r r' : print v +:+ r ≠ String "]"%char r'.
Proof. intros E. destruct (print_head v r) as (c & s & Ev & Hk). rewrite Ev in E. injection E as -> ->. by destruct v as [|[]| | | |]. Qed.

Definition member_ok (m : string * json) : bool := bool_decide (ToValidUTF8 (fst m) = fst m) && json_ok (snd m).

Lemma member_readable m :
  ToValidUTF8 (fst m) = fst m → readable json_ok print (snd m) → readable member_ok (member print) m.
Proof.
  intros Hk Hv [k' v'] r1 r2 [Hk'%bool_decide_eq_true Hv']%andb_true_iff Hr1 Hr2. destruct m as [k v].
  unfold member. simpl in *. rewrite !str_app_assoc, !str_app_cons.
  intros [-> [= E]]%appendJSONString_inj; [|done|done]. apply Hv in E as [-> ->]; done.
Qed.

Lemma forallb_cons {A} (f : A → bool) x l : forallb f (x :: l) = true → f x = true ∧ forallb f l = true.
Proof. apply andb_true_iff. Qed.

(** Texts of values can be read back. *)
Lemma print_readable v : json_ok v = true → readable json_ok print v.
Proof.
  induction v as [|b|n|s|l IH|l IH] using json_rect_nested; intros Hok w r1 r2 Hw Hr1 Hr2 E;
    pose proof (print_kind _ _ _ _ E) as Hk;
    destruct w as [|b'|m|t|l'|l']; try (destruct b as []; done); try (destruct b' as []; done); try done.
  - by injection E.
  - destruct b, b'; try done; by injection E.
  - cbn [print json_ok] in *. apply andb_true_iff in Hok as [?%Z.leb_le ?%Z.ltb_lt].
    apply andb_true_iff in Hw as [?%Z.leb_le ?%Z.ltb_lt]. apply (f_equal read_number) in E.
    rewrite !read_FormatInt in E by (unfold in_machine; lia || done). by injection E as -> ->.
  - cbn [print json_ok] in *. apply bool_decide_eq_true in Hok, Hw.
    by apply appendJSONString_inj in E as [-> ->].
  - cbn [print json_ok] in *. rewrite !str_app_cons, !str_app_assoc in E. injection E as E.
    apply (commas_inj json_ok print) in E as [-> ->]; [done|by left|intros ? ? ? _; apply print_not_close| |done|done].
    clear -IH Hok. induction IH as [|x l Hx _ IHl]; constructor; apply forallb_cons in Hok as [? ?]; auto.
  - cbn [print json_ok] in *. rewrite !str_app_cons, !str_app_assoc in E. injection E as E.
    apply (commas_inj member_ok (member print)) in E as [-> ->]; [done|by right|done| |done|done].
    clear -IH Hok. induction IH as [|x l Hx _ IHl]; constructor; apply forallb_cons in Hok as [Hx' ?]; auto.
    apply andb_true_iff in Hx' as [?%bool_decide_eq_true ?]. apply member_readable; auto.
Qed.

Lemma forallb_Permutation {A} (f : A → bool) l l' : l ≡ₚ l' → forallb f l = forallb f l'.
Proof.
  induction 1; simpl; [done|congruence| |congruence].
  rewrite !andb_assoc. f_equal. apply andb_comm.
Qed.

Lemma normal_ok v : json_ok v = true → json_ok (normal v) = true.
Proof.
  induction v as [|b|n|s|l IH|l IH] using json_rect_nested; cbn [normal json_ok]; try done; intros Hok.
  - induction IH as [|x l Hx _ IHl]; [done|]. apply forallb_cons in Hok as [? ?]. cbn [map forallb].
    rewrite Hx, IHl; done.
  - rewrite (forallb_Permutation _ _ _ (merge_sort_Permutation _ _)).
    induction IH as [|x l Hx _ IHl]; [done|]. apply forallb_cons in Hok as [Hx' ?]. cbn [map forallb].
    apply andb_true_iff in Hx' as [Hk Hv]. cbn [fst snd].
    by rewrite Hk, (Hx Hv), IHl.
Qed.

(** Equal canonical texts: equal values, up to the order of keys. *)
Lemma canonical_inj v w :
  json_ok v = true → json_ok w = true → canonical v = canonical w → normal v = normal w.
Proof.
  rewrite !canonical_print. intros Hv Hw E.
  apply (print_readable (normal v) (normal_ok _ Hv) (normal w) EmptyString EmptyString (normal_ok _ Hw)); [done|done|congruence].
Qed.

(** ** Policies *)

(** The [n]th member of an object. *)
Definition field (n : nat) (v : json) : json :=
  match v with JObj l => default JNull (snd <$> l !! n) | _ => JNull end.

(** The normal forms of a policy's parts determine them. *)
Lemma j_opt_inj {A} (f : A → json) (o o' : option A) :
  (∀ a b, normal (f a) = normal (f b) → a = b) → (∀ a, normal (f a) ≠ JNull) →
  normal (j_opt f o) = normal (j_opt f o') → o = o'.
Proof.
  intros Hf Hn. destruct o as [a|], o' as [b|]; simpl; [|by intros ?%Hn|by intros ?%symmetry%Hn|done].
  intros ->%Hf. done.
Qed.
Lemma j_list_inj {A} (f : A → json) (o o' : option (list A)) :
  (∀ a b, normal (f a) = normal (f b) → a = b) → normal (j_list f o) = normal (j_list f o') → o = o'.
Proof.
  intros Hf. unfold j_list. apply j_opt_inj; [|done]. simpl. intros l. induction l as [|a l IH]; intros [|b l'] [=]; [done|].
  f_equal; [by apply Hf|]. apply IH. simpl. congruence.
Qed.
Lemma j_str_inj (o o' : option string) : normal (j_opt JStr o) = normal (j_opt JStr o') → o = o'.
Proof. apply j_opt_inj; [by intros a b [=]|done]. Qed.

Lemma allocation_json_inj a b : normal (allocation_json a) = normal (allocation_json b) → a = b.
Proof. destruct a, b. by intros [= -> -> ->]. Qed.

Lemma resolved_json_normal g : normal (resolved_json g) =
  JObj [("allocations", normal (j_list allocation_json (rg_Allocations g))); ("id", JStr (rg_ID g));
        ("protocol", JStr (rg_Protocol g))]%string.
Proof. reflexivity. Qed.
Lemma resolved_json_inj a b : normal (resolved_json a) = normal (resolved_json b) → a = b.
Proof.
  rewrite !resolved_json_normal. destruct a, b; simpl. intros H. injection H as H1 -> ->.
  apply j_list_inj in H1 as ->; [done|apply allocation_json_inj].
Qed.

Lemma group_json_normal g : normal (group_json g) =
  JObj [("allocation_ids", normal (j_list JNum (gr_AllocationIDs g))); ("id", JStr (gr_ID g));
        ("ip", normal (j_opt JStr (gr_IP g))); ("mode", JStr (gr_Mode g)); ("name", JStr (gr_Name g));
        ("port_end", JNum (gr_PortEnd g)); ("port_start", JNum (gr_PortStart g));
        ("protocol", JStr (gr_Protocol g))]%string.
Proof. reflexivity. Qed.
Lemma group_json_inj a b : normal (group_json a) = normal (group_json b) → a = b.
Proof.
  rewrite !group_json_normal. destruct a, b; cbn. intros H. injection H as H1 -> H2 -> -> -> -> ->.
  apply j_list_inj in H1 as ->; [|by intros ? ? [=]]. by apply j_str_inj in H2 as ->.
Qed.

Lemma chain_json_inj a b : normal (chain_json a) = normal (chain_json b) → a = b.
Proof. destruct a, b. by intros [= -> -> ->]. Qed.

Lemma rule_json_normal r : normal (rule_json r) =
  JObj [("action", JStr (ru_Action r)); ("chain_id", normal (j_opt JStr (ru_ChainID r)));
        ("cidr", normal (j_opt JStr (ru_CIDR r))); ("direction", JStr (ru_Direction r));
        ("enabled", JBool (ru_Enabled r)); ("group_id", normal (j_opt JStr (ru_GroupID r)));
        ("id", JStr (ru_ID r)); ("name", JStr (ru_Name r)); ("protocol", JStr (ru_Protocol r))]%string.
Proof. reflexivity. Qed.
Lemma rule_json_inj a b : normal (rule_json a) = normal (rule_json b) → a = b.
Proof.
  rewrite !rule_json_normal. destruct a, b; cbn.
  intros H. injection H as -> H1 H2 -> -> H3 -> -> ->.
  by apply j_str_inj in H1 as ->, H2 as ->, H3 as ->.
Qed.

Lemma firewall_json_normal f : normal (firewall_json f) =
  JObj [("chains", normal (j_list chain_json (fw_Chains f))); ("default_inbound", JStr (fw_DefaultInbound f));
        ("default_outbound", JStr (fw_DefaultOutbound f)); ("enabled", JBool (fw_Enabled f));
        ("rules", normal (j_list rule_json (fw_Rules f)))]%string.
Proof. reflexivity. Qed.
Lemma firewall_json_inj a b : normal (firewall_json a) = normal (firewall_json b) → a = b.
Proof.
  rewrite !firewall_json_normal. destruct a, b; cbn. intros H. injection H as H1 -> -> -> H2.
  apply j_list_inj in H1 as ->; [|apply chain_json_inj].
  by apply j_list_inj in H2 as ->; [|apply rule_json_inj].
Qed.

Lemma rules_json_normal r : normal (rules_json r) =
  JObj [("bandwidth", normal (bandwidth_json (rs_Bandwidth r))); ("firewall", normal (firewall_json (rs_Firewall r)));
        ("groups", normal (j_list group_json (rs_Groups r)))]%string.
Proof. reflexivity. Qed.
Lemma rules_json_inj a b : normal (rules_json a) = normal (rules_json b) → a = b.
Proof.
  rewrite !rules_json_normal. intros H.
  pose proof (f_equal (field 0) H : normal (bandwidth_json _) = normal (bandwidth_json _)) as H1.
  pose proof (f_equal (field 1) H : normal (firewall_json _) = normal (firewall_json _)) as H2.
  pose proof (f_equal (field 2) H : normal (j_list _ _) = normal (j_list _ _)) as H3. clear H.
  apply firewall_json_inj in H2. apply j_list_inj in H3; [|apply group_json_inj].
  destruct a as [ga fa [ua da]], b as [gb fb [ub db]]; simpl in *. by injection H1 as -> ->; subst.
Qed.

Lemma envelope_json_normal p : normal (envelope_json p) =
  JObj [("allocations", normal (j_list allocation_json (po_Allocations p)));
        ("api_version", JNum (po_APIVersion p)); ("policy", normal (rules_json (po_Body p)));
        ("resolved_groups", normal (j_list resolved_json (po_ResolvedGroups p)));
        ("revision", JNum (po_Revision p))]%string.
Proof. reflexivity. Qed.

(** The policy with another recorded hash. *)
Definition with_hash (p : Policy) (h : string) : Policy :=
  mkPolicy (po_APIVersion p) (po_Revision p) h (po_Allocations p) (po_ResolvedGroups p) (po_Body p).

Lemma envelope_json_inj p q h :
  normal (envelope_json p) = normal (envelope_json q) → with_hash p h = with_hash q h.
Proof.
  rewrite !envelope_json_normal. intros H. unfold with_hash.
  pose proof (f_equal (field 0) H : normal (j_list _ _) = normal (j_list _ _)) as H1.
  pose proof (f_equal (field 1) H : JNum _ = JNum _) as [= ->].
  pose proof (f_equal (field 2) H : normal (rules_json _) = normal (rules_json _)) as ->%rules_json_inj.
  pose proof (f_equal (field 3) H : normal (j_list _ _) = normal (j_list _ _)) as H2.
  pose proof (f_equal (field 4) H : JNum _ = JNum _) as [= ->].
  apply j_list_inj in H1 as ->; [|apply allocation_json_inj].
  by apply j_list_inj in H2 as ->; [|apply resolved_json_inj].
Qed.

Section Identity.
Context (sha256_hex : string → string) (marshal_len : Policy → Z).

Lemma validateStatic_hash p :
  validateStatic sha256_hex marshal_len p = Ok tt →
  po_PolicyHash p = sha256_hex (canonical (envelope_json p)).
Proof.
  unfold validateStatic. intros Hv. do 13 (apply result_bind_Ok in Hv as (? & _ & Hv)).
  apply result_bind_Ok in Hv as (hash & Hh & Hv). unfold CalculatedHash in Hh. case_match; [done|].
  injection Hh as <-. unfold require in Hv. by case_bool_decide.
Qed.

(** C40: the policy hash identifies the policy.  Take two policies whose numbers fit in
    64 bits and whose strings are valid UTF-8, as decoded documents are.  If both pass
    static validation and carry the same hash they are the same policy, in every
    allocation, group, chain, rule and limit and in the order of the lists, unless
    their canonical texts are a collision of SHA-256. *)
Theorem policy_hash_identifies p q :
  validateStatic sha256_hex marshal_len p = Ok tt → validateStatic sha256_hex marshal_len q = Ok tt →
  json_ok (envelope_json p) = true → json_ok (envelope_json q) = true →
  po_PolicyHash p = po_PolicyHash q →
  p = q ∨ (canonical (envelope_json p) ≠ canonical (envelope_json q)
           ∧ sha256_hex (canonical (envelope_json p)) = sha256_hex (canonical (envelope_json q))).
Proof.
  intros Hp%validateStatic_hash Hq%validateStatic_hash Hokp Hokq Heq.
  destruct (decide (canonical (envelope_json p) = canonical (envelope_json q))) as [E|Hne];
    [left|right; split; congruence].
  apply canonical_inj in E; [|done|done]. apply (envelope_json_inj _ _ (po_PolicyHash p)) in E.
  destruct p, q. unfold with_hash in E. simpl in *. congruence.
Qed.
End Identity.

(** With a constant function for SHA-256 two policies that differ in their revision carry
    the same hash: the statement finds the collision. *)
Definition w_policy' : Policy :=
  mkPolicy 1 4 w_hash (po_Allocations w_policy) (po_ResolvedGroups w_policy) (po_Body w_policy).
Lemma policy_hash_identifies_witness :
  w_policy = w_policy'
  ∨ (canonical (envelope_json w_policy) ≠ canonical (envelope_json w_policy')
     ∧ w_sha (canonical (envelope_json w_policy)) = w_sha (canonical (envelope_json w_policy'))).
Proof.
  apply (policy_hash_identifies w_sha w_len w_policy w_policy'); vm_compute; reflexivity.
Defined.
