(* ===== verification/Nft.v ===== *)
(** * Compiling a network policy to nftables (internal/networkpolicy/linux.go,
    allocation.go, icmp.go, replies.go)

    [compileRuleset] turns a policy and the server's allocations into one bridge table:
    hooks that select the server's bridge, a chain per direction with the policy's rules
    in order, and chains that judge the original flow of a reply.  The document is a list
    of typed objects; NftState renders it as the JSON given to nft. *)

From stdpp Require Import base gmap sets list strings numbers sorting.
From Stdlib Require Import Ascii.
From S2P Require Import Prelude GoStrings Policy.
Open Scope Z_scope.

(** ** Names *)

(** google/uuid: whether a string is the canonical text of a UUID, that is
    [uuid.Parse] accepts it and [String] gives it back. *)
Class UUIDs := { uuid_canonical : string → bool }.
(** The canonical text: 32 digits in five groups. *)
Class UUIDLaws `{UUIDs} := {
  uuid_length id : uuid_canonical id = true → strlen id = 36;
  uuid_ascii id : uuid_canonical id = true → is_ascii id = true;
}.

Fixpoint remove_byte (c : ascii) (s : string) : string :=
  match s with
  | EmptyString => EmptyString
  | String x s' => if Ascii.eqb x c then remove_byte c s' else String x (remove_byte c s')
  end.
Fixpoint take_string (n : nat) (s : string) : string :=
  match n, s with
  | S n', String x s' => String x (take_string n' s')
  | _, _ => EmptyString
  end.

Definition ownerPrefix : string := "wings-networkstats:".
Definition maxCompiledAllocationMatches : Z := 16 * 1024.

Definition Names `{UUIDs} (id : string) : option (string * string * string) :=
  if uuid_canonical id then
    let hex := remove_byte "-"%char id in
    Some ("wings-nsm-" +:+ id, "nsm" +:+ take_string 12 hex, "wings_nsm_" +:+ hex)%string
  else None.

(** ** The text of an address *)

Definition hex_lower (n : Z) : ascii := ascii_of_N (Z.to_N (if n <? 10 then 48 + n else 87 + n)).
Fixpoint hex_text (fuel : nat) (n : Z) (acc : string) : string :=
  match fuel with
  | O => acc
  | S fuel' => let acc' := String (hex_lower (n mod 16)) acc in
               if n <? 16 then acc' else hex_text fuel' (n / 16) acc'
  end.
Definition v4_text (n : Z) : string :=
  Join dot [FormatInt (n / 2 ^ 24); FormatInt (n / 2 ^ 16 mod 256); FormatInt (n / 2 ^ 8 mod 256);
            FormatInt (n mod 256)].
Definition v6_groups (n : Z) : list Z := map (λ i, n / 2 ^ (16 * (7 - Z.of_nat i)) mod 65536) (seq 0 8).
Fixpoint zeros (l : list Z) : nat :=
  match l with 0 :: l' => S (zeros l') | _ => O end.
(** The first longest run of at least two zero groups. *)
Fixpoint zero_run (i : nat) (l : list Z) (best : nat * nat) : nat * nat :=
  match l with
  | [] => best
  | _ :: l' =>
      let n := zeros l in
      zero_run (S i) l' (if bool_decide (2 ≤ n)%nat && bool_decide (snd best < n)%nat then (i, n) else best)
  end.
Fixpoint v6_from (fuel i : nat) (run : nat * nat) (gs : list Z) : string :=
  match fuel with
  | O => EmptyString
  | S fuel' =>
      if bool_decide (8 ≤ i)%nat then EmptyString
      else if bool_decide (0 < snd run)%nat && bool_decide (i = fst run) then
        let j := (i + snd run)%nat in
        if bool_decide (8 ≤ j)%nat then "::"
        else "::" +:+ hex_text 4 (gs !!! j) EmptyString +:+ v6_from fuel' (S j) run gs
      else (if bool_decide (i = 0%nat) then EmptyString else ":")
           +:+ hex_text 4 (gs !!! i) EmptyString +:+ v6_from fuel' (S i) run gs
  end.
(** [netip.Addr.String] *)
Definition addr_String (a : addr) : string :=
  match a with
  | V4 n => v4_text n
  | V6 n => let gs := v6_groups n in v6_from 9 0 (zero_run 0 gs (0, 0)%nat) gs
  end.

Definition family_of (a : addr) : string := match a with V4 _ => "ip" | V6 _ => "ip6" end.

(** ** Statements *)

Inductive scalar := SInt (n : Z) | SStr (s : string) | SBool (b : bool) | SAddr (a : addr).
Inductive left_expr :=
| Payload (protocol field : string)
| Meta (key : string)
| CtKey (key : string)
| CtDir (key dir : string)
| BitAnd (e : left_expr) (mask : scalar)
| Exthdr (name : string)
| Concat (a b : left_expr).
Inductive right_expr :=
| RScalar (s : scalar)
| RSet (l : list scalar)
| RTuples (l : list (addr * Z))
| RPrefix (a : addr) (len : Z).
Inductive stmt :=
| Match (op : string) (l : left_expr) (r : right_expr)
| Jump (target : string)
| Goto (target : string)
| Verdict (action : string).

Definition match_ (l : left_expr) (r : right_expr) : stmt := Match "==" l r.
Definition match_ne (l : left_expr) (r : right_expr) : stmt := Match "!=" l r.
(** [ct]: the family goes in front of the key, and "protocol" has no direction. *)
Definition ct (key family direction : string) : left_expr :=
  let key' := if bool_decide (family = EmptyString) then key else (family +:+ " " +:+ key)%string in
  if bool_decide (key = "protocol"%string) then CtKey key' else CtDir key' direction.
Definition ct_status (flag : string) : left_expr := BitAnd (CtKey "status") (SStr flag).
Definition matchCTStatus (flag : string) : stmt := match_ (ct_status flag) (RScalar (SStr flag)).
Definition matchCTStatus_ne (flag : string) : stmt := match_ne (ct_status flag) (RScalar (SStr flag)).
Definition strings (l : list string) : right_expr := RSet (map SStr l).
Definition intSet (values : list Z) : right_expr :=
  match values with [v] => RScalar (SInt v) | _ => RSet (map SInt values) end.
Definition tupleSet (l : list (addr * Z)) : right_expr := RTuples l.
(** [prefix]: a full-length prefix is an address. *)
Definition prefix (p : addr * Z) : right_expr :=
  if snd p =? bit_len (fst p) then RScalar (SAddr (fst p)) else RPrefix (fst p) (snd p).

Definition ether_type : left_expr := Payload "ether" "type".
Definition is_ether (t : string) : stmt := match_ ether_type (RScalar (SStr t)).
Definition l4proto (t : string) : stmt := match_ (Meta "l4proto") (RScalar (SStr t)).

(** ** The document *)

Record base_hook := mkHook { hk_hook : string; hk_prio : Z }.
Inductive nft_object :=
| NTable (name comment : string)
| NChain (table name : string) (hook : option base_hook)
| NRule (table chain : string) (expr : list stmt).
Abbreviation nftDocument := (list nft_object).

Definition addRule (table chain : string) (expr : list stmt) (d : nftDocument) : nftDocument :=
  d ++ [NRule table chain expr].

(** ** Allocations of a group *)

Record allocationMatch := mkMatch {
  am_family : string; am_ports : list Z; am_allocations : list (addr * Z) }.
Definition no_match : allocationMatch := mkMatch EmptyString [] [].

Record policyAllocationMatch := mkPMatch { pm_match : allocationMatch; pm_path : string; pm_drop : bool }.

Definition tuple_le (a b : addr * Z) : Prop :=
  if decide (addr_String (fst a) = addr_String (fst b)) then snd a ≤ snd b
  else str_leb (addr_String (fst a)) (addr_String (fst b)) = true.
#[global] Instance tuple_le_dec : RelDecision tuple_le.
Proof. intros a b. unfold tuple_le. case_decide; apply _. Defined.

(** The allocations of the group that the server owns, with their addresses. *)
Fixpoint group_tuples (assigned : assignment) (l : list Allocation) : result polerr (list (addr * Z)) :=
  match l with
  | [] => Ok []
  | a :: l' =>
      if hasAllocation assigned a then
        match parseIP (al_IP a) with
        | None => Err EAddress
        | Some ip => ts ← group_tuples assigned l'; Ok ((ip, al_Port a) :: ts)
        end
      else group_tuples assigned l'
  end.

Definition family_match (ts : list (addr * Z)) (family : string) : list allocationMatch :=
  match filter (λ t, family_of (fst t) = family) ts with
  | [] => []
  | l => [mkMatch family (merge_sort Z.le (remove_dups (snd <$> l))) (merge_sort tuple_le (remove_dups l))]
  end.

Fixpoint find_group (groupID proto : string) (l : list ResolvedGroup) : option ResolvedGroup :=
  match l with
  | [] => None
  | g :: l' =>
      if negb (bool_decide (rg_ID g = groupID))
         || (negb (bool_decide (rg_Protocol g = "both"%string)) && negb (bool_decide (rg_Protocol g = proto)))
      then find_group groupID proto l' else Some g
  end.

Definition resolvedMatches (p : Policy) (groupID proto : string) (assigned : assignment)
    : result polerr (list allocationMatch) :=
  match find_group groupID proto (elems (po_ResolvedGroups p)) with
  | None => Ok []
  | Some g =>
      ts ← group_tuples assigned (elems (rg_Allocations g));
      Ok (family_match ts "ip" ++ family_match ts "ip6")
  end.

(** [directAllocationPorts]: the ports only the selected allocations have, and those
    another address of the family has too. *)
Fixpoint shared_ports (variant : allocationMatch) (hosts : list (string * list Z)) : result polerr (list Z) :=
  match hosts with
  | [] => Ok []
  | (host, ports) :: hosts' =>
      match parseIP host with
      | None => Err EAddress
      | Some ip =>
          shared ← shared_ports variant hosts';
          if negb (bool_decide (family_of ip = am_family variant)) then Ok shared
          else Ok (filter (λ port, port ∈ am_ports variant ∧ (ip, port) ∉ am_allocations variant) ports ++ shared)
      end
  end.
Definition directAllocationPorts (variant : allocationMatch) (assigned : assignment)
    : result polerr (list Z * list Z) :=
  shared ← shared_ports variant (map_to_list assigned);
  Ok (filter (λ port, port ∉ shared) (am_ports variant), filter (λ port, port ∈ shared) (am_ports variant)).

Definition ensurePortScope (variant : allocationMatch) (assigned : assignment) : result polerr unit :=
  '(_, ambiguous) ← directAllocationPorts variant assigned;
  require (bool_decide (ambiguous = [])) EAssigned.

Definition direct_matches (variant : allocationMatch) (ports ambiguous : list Z) (path : string)
    : list policyAllocationMatch :=
  (if bool_decide (ports = []) then []
   else [mkPMatch (mkMatch (am_family variant) ports (am_allocations variant)) path false])
  ++ (if bool_decide (ambiguous = []) then []
      else [mkPMatch (mkMatch (am_family variant) ambiguous (am_allocations variant)) path true]).

Fixpoint policyAllocationMatches (rule : Rule) (variants : list allocationMatch) (assigned : assignment)
    (original : bool) : result polerr (list policyAllocationMatch) :=
  match variants with
  | [] => Ok []
  | variant :: variants' =>
      first ←
        (if negb (bool_decide (ru_Direction rule = "inbound"%string))
            || (bool_decide (ru_GroupID rule = None) && (bool_decide (ru_CIDR rule = None) || original))
         then Ok [mkPMatch variant EmptyString false]
         else if bool_decide (ru_GroupID rule = None)
         then Ok [mkPMatch variant "dnat" false; mkPMatch variant "direct" false; mkPMatch variant "reply" false]
         else
           '(ports, ambiguous) ← directAllocationPorts variant assigned;
           Ok (mkPMatch variant "dnat" false :: direct_matches variant ports ambiguous "direct"
               ++ (if original then [] else direct_matches variant ports ambiguous "reply")));
      rest ← policyAllocationMatches rule variants' assigned original;
      Ok (first ++ rest)
  end.

(** ** The statements of one rule *)

(** The condition on how the packet reached the container. *)
Definition path_stmts (path : string) (original : bool) : list stmt :=
  if bool_decide (path = EmptyString) then []
  else if bool_decide (path = "direct"%string) then [matchCTStatus_ne "dnat"]
  else matchCTStatus "dnat"
       :: (if original then []
           else [match_ (CtKey "direction")
                   (RScalar (SStr (if bool_decide (path = "reply"%string) then "reply" else "original")%string))]).

Definition port_stmts (rule : Rule) (proto : string) (m : policyAllocationMatch) (original : bool) : list stmt :=
  let v := pm_match m in
  if bool_decide (am_family v = EmptyString) then []
  else
    let inbound := bool_decide (ru_Direction rule = "inbound"%string) in
    let port := if original then ct (if inbound then "proto-dst" else "proto-src") EmptyString "original"
                else Payload proto (if inbound then "dport" else "sport") in
    [is_ether (am_family v); match_ port (intSet (am_ports v))]
    ++ (if inbound && bool_decide (pm_path m = "dnat"%string)
        then [match_ (Concat (ct "daddr" (am_family v) "original") (ct "proto-dst" EmptyString "original"))
                (tupleSet (am_allocations v))]
        else []).

(** The condition on the peer: [None] when the families exclude each other. *)
Definition cidr_stmts (rule : Rule) (m : policyAllocationMatch) (original : bool)
    : result polerr (option (list stmt)) :=
  match ru_CIDR rule with
  | None => Ok (Some [])
  | Some c =>
      match Peer c with
      | None => Err EAddress
      | Some cidr =>
          let family := family_of (fst cidr) in
          let v := pm_match m in
          let inbound := bool_decide (ru_Direction rule = "inbound"%string) in
          if negb (bool_decide (am_family v = EmptyString)) && negb (bool_decide (am_family v = family))
          then Ok None
          else
            let field := (if inbound then "saddr" else "daddr")%string in
            let peer := if original || (inbound && bool_decide (pm_path m = "dnat"%string))
                        then ct field family "original" else Payload family field in
            Ok (Some ((if bool_decide (am_family v = EmptyString) then [is_ether family] else [])
                      ++ [match_ peer (prefix cidr)]))
      end
  end.

Definition rule_verdict (rule : Rule) (m : policyAllocationMatch) : string :=
  if bool_decide (ru_Action rule = "allow"%string) && negb (pm_drop m) then "return" else "drop".

Fixpoint match_rules (table chain : string) (rule : Rule) (proto : string) (original : bool)
    (l : list policyAllocationMatch) (d : nftDocument) : result polerr nftDocument :=
  match l with
  | [] => Ok d
  | m :: l' =>
      peer ← cidr_stmts rule m original;
      let protocol := if original then ct "protocol" EmptyString "original" else Meta "l4proto" in
      let d' := match peer with
                | None => d
                | Some peer =>
                    addRule table chain
                      (match_ protocol (RScalar (SStr proto)) :: path_stmts (pm_path m) original
                       ++ port_stmts rule proto m original ++ peer ++ [Verdict (rule_verdict rule m)]) d
                end in
      match_rules table chain rule proto original l' d'
  end.

(** The budget of allocation matches, and the port scope of outbound rules. *)
Fixpoint spend (variants : list allocationMatch) (budget : Z) : result polerr Z :=
  match variants with
  | [] => Ok budget
  | v :: variants' =>
      let budget' := budget + zlen (am_allocations v) in
      if maxCompiledAllocationMatches <? budget' then Err ESize else spend variants' budget'
  end.
Fixpoint ensure_scopes (variants : list allocationMatch) (assigned : assignment) : result polerr unit :=
  match variants with
  | [] => Ok tt
  | v :: variants' => _ ← ensurePortScope v assigned; ensure_scopes variants' assigned
  end.

Definition origin_chain (direction : string) : string := direction +:+ "_origin".

Definition add_proto_rules (table : string) (p : Policy) (rule : Rule) (assigned : assignment)
    (original : bool) (proto : string) (st : nftDocument * Z) : result polerr (nftDocument * Z) :=
  let '(d, budget) := st in
  let chain := if original then origin_chain (ru_Direction rule) else ru_Direction rule in
  if negb (bool_decide (ru_Protocol rule = "both"%string)) && negb (bool_decide (ru_Protocol rule = proto))
  then Ok (d, budget)
  else match ru_GroupID rule with
  | None =>
      matches ← policyAllocationMatches rule [no_match] assigned original;
      d' ← match_rules table chain rule proto original matches d;
      Ok (d', budget)
  | Some g =>
      variants ← resolvedMatches p g proto assigned;
      if bool_decide (variants = []) then Ok (d, budget)
      else
        budget' ← spend variants budget;
        _ ← (if bool_decide (ru_Direction rule = "outbound"%string) then ensure_scopes variants assigned
             else Ok tt);
        matches ← policyAllocationMatches rule variants assigned original;
        d' ← match_rules table chain rule proto original matches d;
        Ok (d', budget')
  end.

Definition addPolicyRule (table : string) (p : Policy) (rule : Rule) (assigned : assignment)
    (original : bool) (st : nftDocument * Z) : result polerr (nftDocument * Z) :=
  st' ← add_proto_rules table p rule assigned original "tcp" st;
  add_proto_rules table p rule assigned original "udp" st'.

(** ** Replies and related errors *)

Definition opposite (direction : string) : string :=
  if bool_decide (direction = "inbound"%string) then "outbound" else "inbound".

Definition addEstablishedReplies (table direction : string) (d : nftDocument) : nftDocument :=
  addRule table direction
    [match_ ether_type (strings ["ip"; "ip6"]); match_ (Meta "l4proto") (strings ["tcp"; "udp"]);
     match_ (CtKey "state") (RScalar (SStr "established")); match_ (CtKey "direction") (RScalar (SStr "reply"));
     matchCTStatus "confirmed"; Goto (origin_chain (opposite direction))]%string d.

Definition related_rules (table chain direction : string) (d : nftDocument) : nftDocument :=
  let origin := if bool_decide (direction = "reply"%string) then opposite chain else chain in
  let related := [match_ (CtKey "state") (RScalar (SStr "related"));
                  match_ (CtKey "direction") (RScalar (SStr direction)); Goto (origin_chain origin)]%string in
  addRule table chain
    ([is_ether "ip6"; l4proto "ipv6-icmp";
      match_ (Payload "icmpv6" "type")
        (strings ["destination-unreachable"; "packet-too-big"; "time-exceeded"; "parameter-problem"])]%string
     ++ related)
    (addRule table chain
       ([is_ether "ip"; l4proto "icmp";
         match_ (Payload "icmp" "type") (strings ["destination-unreachable"; "time-exceeded"; "parameter-problem"])]%string
        ++ related) d).
Definition addRelatedICMPRules (table chain : string) (d : nftDocument) : nftDocument :=
  related_rules table chain "reply" (related_rules table chain "original" d).

(** ** The whole table *)

Definition fragment_rules : list (list stmt) :=
  [ [is_ether "ip"; match_ne (BitAnd (Payload "ip" "frag-off") (SInt 16383)) (RScalar (SInt 0)); Verdict "drop"];
    [is_ether "ip6"; match_ (Exthdr "frag") (RScalar (SBool true)); Verdict "drop"] ]%string.

(** The chain that rejects outbound fragments ahead of connection tracking, and the
    chains that judge the original flow of a reply. *)
Definition enabled_chains (table bridge : string) (d : nftDocument) : nftDocument :=
  let on_bridge := match_ (Meta "ibrname") (RScalar (SStr bridge)) in
  d ++ [NChain table "outbound_fragments" (Some (mkHook "prerouting" (-201)))]
    ++ map (λ r, NRule table "outbound_fragments" (on_bridge :: r)) fragment_rules
    ++ [NChain table (origin_chain "outbound") None; NChain table (origin_chain "inbound") None].

(** ARP and the two NDP messages are let through, fragments are not. *)
Definition control_rules : list (list stmt) :=
  [is_ether "arp"; Verdict "return"]%string
  :: fragment_rules
  ++ [ [is_ether "ip6"; l4proto "ipv6-icmp"; match_ (Payload "ip6" "hoplimit") (RScalar (SInt 255));
        match_ (Payload "icmpv6" "type") (strings ["nd-neighbor-solicit"; "nd-neighbor-advert"]);
        Verdict "return"] ]%string.

Definition hook_name (direction : string) : string := direction +:+ "_hook".

Definition direction_chains (table bridge direction : string) (d : nftDocument) : nftDocument :=
  let inbound := bool_decide (direction = "inbound"%string) in
  d ++ [ NChain table direction None;
         NChain table (hook_name direction)
           (Some (mkHook (if inbound then "postrouting" else "prerouting")%string (-199)));
         NRule table (hook_name direction)
           [match_ (Meta (if inbound then "obrname" else "ibrname")%string) (RScalar (SStr bridge));
            Jump direction] ].

Fixpoint add_rules (table direction : string) (p : Policy) (assigned : assignment) (rules : list Rule)
    (st : nftDocument * Z) : result polerr (nftDocument * Z) :=
  match rules with
  | [] => Ok st
  | rule :: rules' =>
      if bool_decide (ru_Direction rule = direction) then
        st1 ← addPolicyRule table p rule assigned false st;
        st2 ← addPolicyRule table p rule assigned true st1;
        add_rules table direction p assigned rules' st2
      else add_rules table direction p assigned rules' st
  end.

Definition fallback (p : Policy) (direction : string) : string :=
  let f := rs_Firewall (po_Body p) in
  if bool_decide (direction = "inbound"%string) then fw_DefaultInbound f else fw_DefaultOutbound f.

Definition add_fallback (table chain action : string) (d : nftDocument) : nftDocument :=
  let d' := if bool_decide (action = "allow"%string)
            then addRule table chain [match_ ether_type (strings ["ip"; "ip6"]); Verdict "return"]%string d
            else d in
  addRule table chain [Verdict "drop"%string] d'.

Definition compile_direction (table bridge : string) (p : Policy) (assigned : assignment) (gate : bool)
    (rules : list Rule) (direction : string) (st : nftDocument * Z) : result polerr (nftDocument * Z) :=
  let d := direction_chains table bridge direction (fst st) in
  if gate then Ok (addRule table direction [Verdict "drop"%string] d, snd st)
  else if negb (fw_Enabled (rs_Firewall (po_Body p)))
  then Ok (addRule table direction [Verdict "return"%string] d, snd st)
  else
    '(d', budget) ← add_rules table direction p assigned rules
                      (d ++ map (NRule table direction) control_rules, snd st);
    let d2 := addRelatedICMPRules table direction (addEstablishedReplies table direction d') in
    let action := fallback p direction in
    Ok (add_fallback table (origin_chain direction) action (add_fallback table direction action d2), budget).

Definition compileRuleset `{UUIDs} (id : string) (p : Policy) (assigned : assignment) (gate : bool)
    : result polerr nftDocument :=
  match Names id with
  | None => Err EIdentity
  | Some (_, bridge, table) =>
      let enabled := negb gate && fw_Enabled (rs_Firewall (po_Body p)) in
      let rules := if enabled then OrderedRules p else [] in
      let d := [NTable table (ownerPrefix +:+ id)] in
      let d := if enabled then enabled_chains table bridge d else d in
      st ← compile_direction table bridge p assigned gate rules "outbound" (d, 0);
      st' ← compile_direction table bridge p assigned gate rules "inbound" st;
      Ok (fst st')
  end.

(** [ValidateEnforcement]: the policy is valid, its rates are whole bytes and its
    firewall compiles. *)
Definition whole_bytes (rate : Z) : bool := (rate =? 0) || (rate mod 8 =? 0).
Definition validationID : string := "00000000-0000-4000-8000-000000000000".
Definition ValidateEnforcement `{UUIDs} (sha256_hex : string → string) (marshal_len : Policy → Z)
    (p : Policy) (assigned : assignment) (ceiling : Bandwidth) : result polerr unit :=
  _ ← Validate sha256_hex marshal_len p assigned ceiling;
  let effective := Effective p ceiling in
  _ ← require (whole_bytes (bw_Upload effective) && whole_bytes (bw_Download effective)) EBandwidth;
  if negb (fw_Enabled (rs_Firewall (po_Body p))) then Ok tt
  else _ ← compileRuleset validationID p assigned false; Ok tt.
