(* ===== verification/NftFacts.v ===== *)
(** * What the compiled table does to a packet

    A packet is evaluated against the rules of the document the way nft does: a match
    whose field the packet does not have fails, [jump] comes back on [return], [goto]
    does not, and a base chain that returns accepts.  [packet_allowed] is what the policy
    means for the packet; the compiled table decides the same for every packet. *)

From stdpp Require Import base gmap sets list strings numbers sorting.
From Stdlib Require Import Ascii.
From S2P Require Import Prelude GoStrings Policy Nft.
Open Scope Z_scope.

#[global] Instance scalar_eq_dec : EqDecision scalar.
Proof. solve_decision. Defined.

(** ** Packets *)

(** The tracked connection: its state, the packet's direction in it, its status flags and
    its original tuple. *)
Record conn := mkConn {
  cn_state : string; cn_reply : bool; cn_status : list string; cn_proto : string;
  cn_saddr : addr; cn_daddr : addr; cn_sport : Z; cn_dport : Z }.

Record packet := mkPacket {
  pk_ibr : string; pk_obr : string; pk_ether : string; pk_saddr : addr; pk_daddr : addr;
  pk_frag_off : Z; pk_frag : bool; pk_hoplimit : Z; pk_l4 : string;
  pk_sport : Z; pk_dport : Z; pk_icmp_type : string; pk_ct : option conn }.

Definition when {A} (b : bool) (v : A) : option A := if b then Some v else None.
#[global] Arguments when {A} !b v /.

Definition payload_value (k : packet) (protocol field : string) : option scalar :=
  if (protocol =? "ether")%string && (field =? "type")%string then Some (SStr (pk_ether k))
  else if (protocol =? "ip")%string || (protocol =? "ip6")%string then
    if bool_decide (pk_ether k = protocol) then
      if (field =? "saddr")%string then Some (SAddr (pk_saddr k))
      else if (field =? "daddr")%string then Some (SAddr (pk_daddr k))
      else if (field =? "frag-off")%string then Some (SInt (pk_frag_off k))
      else if (field =? "hoplimit")%string then Some (SInt (pk_hoplimit k)) else None
    else None
  else if (protocol =? "tcp")%string || (protocol =? "udp")%string then
    if bool_decide (pk_l4 k = protocol) then
      if (field =? "sport")%string then Some (SInt (pk_sport k))
      else if (field =? "dport")%string then Some (SInt (pk_dport k)) else None
    else None
  else when ((protocol =? "icmp")%string && bool_decide (pk_l4 k = "icmp")
             || (protocol =? "icmpv6")%string && bool_decide (pk_l4 k = "ipv6-icmp"))
         (SStr (pk_icmp_type k)).

Definition meta_value (k : packet) (key : string) : option scalar :=
  if (key =? "ibrname")%string then Some (SStr (pk_ibr k))
  else if (key =? "obrname")%string then Some (SStr (pk_obr k))
  else if (key =? "l4proto")%string then Some (SStr (pk_l4 k)) else None.

Definition direction_text (c : conn) : string := if cn_reply c then "reply" else "original".

Definition ct_value (c : conn) (key : string) : option scalar :=
  if (key =? "state")%string then Some (SStr (cn_state c))
  else if (key =? "direction")%string then Some (SStr (direction_text c))
  else if (key =? "protocol")%string then Some (SStr (cn_proto c)) else None.

(** Addresses of the original tuple exist only in the connection's own family. *)
Definition ct_dir_value (c : conn) (key : string) : option scalar :=
  if (key =? "proto-src")%string then Some (SInt (cn_sport c))
  else if (key =? "proto-dst")%string then Some (SInt (cn_dport c))
  else if (family_of (cn_saddr c) +:+ " saddr" =? key)%string then Some (SAddr (cn_saddr c))
  else if (family_of (cn_daddr c) +:+ " daddr" =? key)%string then Some (SAddr (cn_daddr c)) else None.

Inductive value := VScalar (s : scalar) | VPair (a b : scalar).
#[global] Instance value_eq_dec : EqDecision value.
Proof. solve_decision. Defined.

Definition left_scalar (k : packet) (e : left_expr) : option scalar :=
  match e with
  | Payload protocol field => payload_value k protocol field
  | Meta key => meta_value k key
  | CtKey key => c ← pk_ct k; ct_value c key
  | CtDir key _ => c ← pk_ct k; ct_dir_value c key
  | BitAnd (CtKey "status") (SStr flag) =>
      c ← pk_ct k; Some (if bool_decide (flag ∈ cn_status c) then SStr flag else SInt 0)
  | BitAnd (Payload protocol field) (SInt mask) =>
      match payload_value k protocol field with Some (SInt v) => Some (SInt (Z.land v mask)) | _ => None end
  | Exthdr "frag" => when (bool_decide (pk_ether k = "ip6")) (SBool (pk_frag k))
  | _ => None
  end%string.
Definition left_value (k : packet) (e : left_expr) : option value :=
  match e with
  | Concat a b => x ← left_scalar k a; y ← left_scalar k b; Some (VPair x y)
  | _ => VScalar <$> left_scalar k e
  end.

Definition right_has (r : right_expr) (v : value) : bool :=
  match r with
  | RScalar s => bool_decide (v = VScalar s)
  | RSet l => bool_decide (v ∈ VScalar <$> l)
  | RTuples l => bool_decide (v ∈ (λ t, VPair (SAddr t.1) (SInt t.2)) <$> l)
  | RPrefix a len => match v with VScalar (SAddr x) => bool_decide (masked x len = a) | _ => false end
  end.

Definition match_holds (k : packet) (op : string) (l : left_expr) (r : right_expr) : bool :=
  match left_value k l with
  | None => false
  | Some v => if (op =? "!=")%string then negb (right_has r v) else right_has r v
  end.

(** ** Chains *)

Inductive verdict := Return | Drop.
#[global] Instance verdict_eq_dec : EqDecision verdict.
Proof. solve_decision. Defined.
Inductive effect := Next | Stop (v : verdict).

Definition chain_rules (d : nftDocument) (chain : string) : list (list stmt) :=
  omap (λ o, match o with NRule _ c e => if bool_decide (c = chain) then Some e else None | _ => None end) d.

Section Evaluation.
(** The verdict of another chain. *)
Variable sub : string → packet → verdict.

Fixpoint run_stmts (k : packet) (l : list stmt) : effect :=
  match l with
  | [] => Next
  | Match op e r :: l' => if match_holds k op e r then run_stmts k l' else Next
  | Jump t :: l' => match sub t k with Return => run_stmts k l' | Drop => Stop Drop end
  | Goto t :: _ => Stop (sub t k)
  | Verdict a :: _ => Stop (if (a =? "return")%string then Return else Drop)
  end.
Fixpoint run_rules (k : packet) (l : list (list stmt)) : verdict :=
  match l with
  | [] => Return
  | r :: l' => match run_stmts k r with Next => run_rules k l' | Stop v => v end
  end.
End Evaluation.

(** [fuel] bounds the depth of jumps: hook, direction, origin. *)
Fixpoint run_chain (fuel : nat) (d : nftDocument) (chain : string) (k : packet) : verdict :=
  match fuel with
  | O => Drop
  | S fuel' => run_rules (run_chain fuel' d) k (chain_rules d chain)
  end.

(** The base chains of a hook; the packet passes when none of them drops it. *)
Definition base_chains (d : nftDocument) (hook : string) : list string :=
  omap (λ o, match o with
             | NChain _ c (Some h) => if bool_decide (hk_hook h = hook) then Some c else None
             | _ => None end) d.
Definition table_accepts (d : nftDocument) (hook : string) (k : packet) : bool :=
  forallb (λ c, bool_decide (run_chain 3 d c k = Return)) (base_chains d hook).

(** ** What a policy means for a packet *)

Definition ip_packet (k : packet) : bool := bool_decide (pk_ether k = "ip" ∨ pk_ether k = "ip6").

Definition dnat (c : conn) : bool := bool_decide ("dnat"%string ∈ cn_status c).

(** The allocations of the rule's group that the server owns. *)
Definition group_allocations (p : Policy) (g proto : string) (assigned : assignment) : list (addr * Z) :=
  match find_group g proto (elems (po_ResolvedGroups p)) with
  | None => []
  | Some g =>
      omap (λ a, if hasAllocation assigned a then (λ ip, (ip, al_Port a)) <$> parseIP (al_IP a) else None)
        (elems (rg_Allocations g))
  end.

(** The group has [port] on an address of the packet's family. *)
Definition has_port (G : list (addr * Z)) (family : string) (port : Z) : bool :=
  existsb (λ t, bool_decide (family_of t.1 = family) && (t.2 =? port)) G.
(** Another address of the server has [port] too. *)
Definition shared_elsewhere (assigned : assignment) (G : list (addr * Z)) (family : string) (port : Z) : bool :=
  existsb (λ h : string * list Z, match parseIP h.1 with
                | None => false
                | Some ip => bool_decide (family_of ip = family) && bool_decide (port ∈ h.2)
                             && negb (bool_decide ((ip, port) ∈ G))
                end) (map_to_list assigned).

Definition in_peer (cidr : option string) (family : string) (a : addr) : bool :=
  match cidr with
  | None => true
  | Some c => match Peer c with
              | None => false
              | Some (net, len) => bool_decide (family_of net = family) && bool_decide (masked a len = net)
              end
  end.

(** The two ways a rule looks at a packet: as it is, or as the first packet of its
    connection was. *)
Definition seen_proto (k : packet) (original : bool) : option string :=
  if original then cn_proto <$> pk_ct k else Some (pk_l4 k).
Definition peer_addr (inbound original : bool) (k : packet) : option addr :=
  if inbound then
    c ← pk_ct k; Some (if original || dnat c && negb (cn_reply c) then cn_saddr c else pk_saddr k)
  else if original then cn_daddr <$> pk_ct k else Some (pk_daddr k).

Definition peer_ok (rule : Rule) (original : bool) (k : packet) : bool :=
  match ru_CIDR rule with
  | None => true
  | Some _ => match peer_addr (bool_decide (ru_Direction rule = "inbound"%string)) original k with
              | None => false
              | Some a => in_peer (ru_CIDR rule) (pk_ether k) a
              end
  end.

(** Whether the packet belongs to the group: [Some false] when its port does, but does not
    say which of the server's addresses was meant. *)
Definition group_member (assigned : assignment) (G : list (addr * Z)) (inbound original : bool) (k : packet)
    : option bool :=
  if inbound then
    c ← pk_ct k;
    let port := if original then cn_dport c else pk_dport k in
    if negb (has_port G (pk_ether k) port) then None
    else if dnat c && (original || negb (cn_reply c)) then
      when (bool_decide ((cn_daddr c, cn_dport c) ∈ G) && bool_decide (family_of (cn_daddr c) = pk_ether k)) true
    else Some (negb (shared_elsewhere assigned G (pk_ether k) port))
  else
    port ← (if original then cn_sport <$> pk_ct k else Some (pk_sport k));
    when (has_port G (pk_ether k) port) true.

(** The decision of one rule, [None] when it does not apply. *)
Definition rule_decision (p : Policy) (assigned : assignment) (original : bool) (k : packet) (rule : Rule)
    : option bool :=
  let inbound := bool_decide (ru_Direction rule = "inbound"%string) in
  let allow := bool_decide (ru_Action rule = "allow"%string) in
  proto ← seen_proto k original;
  if bool_decide (proto = "tcp" ∨ proto = "udp")
     && bool_decide (ru_Protocol rule = "both" ∨ ru_Protocol rule = proto)
     && peer_ok rule original k then
    match ru_GroupID rule with
    | None => Some allow
    | Some g => member ← group_member assigned (group_allocations p g proto assigned) inbound original k;
                Some (allow && member)
    end
  else None.

Fixpoint first_decision (f : Rule → option bool) (l : list Rule) : option bool :=
  match l with [] => None | r :: l' => match f r with Some b => Some b | None => first_decision f l' end end.

Definition directed (direction : string) (p : Policy) : list Rule :=
  filter (λ r, ru_Direction r = direction) (OrderedRules p).

(** The default of a direction lets only IP through. *)
Definition default_action (f : Firewall) (direction : string) : string :=
  if bool_decide (direction = "inbound"%string) then fw_DefaultInbound f else fw_DefaultOutbound f.
Definition default_allowed (p : Policy) (direction : string) (k : packet) : bool :=
  bool_decide (default_action (rs_Firewall (po_Body p)) direction = "allow"%string) && ip_packet k.

(** The flow a tracked packet belongs to, judged in [direction]. *)
Definition origin_allowed (p : Policy) (assigned : assignment) (direction : string) (k : packet) : bool :=
  default (default_allowed p direction k)
    (first_decision (rule_decision p assigned true k) (directed direction p)).

Definition is_fragment (k : packet) : bool :=
  bool_decide (pk_ether k = "ip"%string) && negb (Z.land (pk_frag_off k) 16383 =? 0)
  || bool_decide (pk_ether k = "ip6"%string) && pk_frag k.
Definition is_ndp (k : packet) : bool :=
  bool_decide (pk_ether k = "ip6"%string) && bool_decide (pk_l4 k = "ipv6-icmp"%string)
  && (pk_hoplimit k =? 255)
  && bool_decide (pk_icmp_type k ∈ ["nd-neighbor-solicit"; "nd-neighbor-advert"]%string).
Definition established_reply (k : packet) : bool :=
  ip_packet k && bool_decide (pk_l4 k ∈ ["tcp"; "udp"]%string)
  && match pk_ct k with
     | None => false
     | Some c => bool_decide (cn_state c = "established"%string) && cn_reply c
                 && bool_decide ("confirmed"%string ∈ cn_status c)
     end.
(** An ICMP error about a tracked flow. *)
Definition icmp_error (k : packet) : bool :=
  bool_decide (pk_ether k = "ip"%string) && bool_decide (pk_l4 k = "icmp"%string)
  && bool_decide (pk_icmp_type k ∈ ["destination-unreachable"; "time-exceeded"; "parameter-problem"]%string)
  || bool_decide (pk_ether k = "ip6"%string) && bool_decide (pk_l4 k = "ipv6-icmp"%string)
  && bool_decide (pk_icmp_type k ∈ ["destination-unreachable"; "packet-too-big"; "time-exceeded";
                                    "parameter-problem"]%string).
Definition related_error (k : packet) (reply : bool) : bool :=
  icmp_error k && match pk_ct k with
                  | None => false
                  | Some c => bool_decide (cn_state c = "related"%string) && Bool.eqb (cn_reply c) reply
                  end.

Definition packet_allowed (p : Policy) (assigned : assignment) (direction : string) (k : packet) : bool :=
  if bool_decide (pk_ether k = "arp"%string) then true
  else if is_fragment k then false
  else if is_ndp k then true
  else match first_decision (rule_decision p assigned false k) (directed direction p) with
  | Some b => b
  | None =>
      if established_reply k then origin_allowed p assigned (opposite direction) k
      else if related_error k false then origin_allowed p assigned direction k
      else if related_error k true then origin_allowed p assigned (opposite direction) k
      else default_allowed p direction k
  end.

(** The decision for a packet that crosses the server's bridge in a direction. *)
Definition bridge_allowed (p : Policy) (assigned : assignment) (gate : bool) (direction : string) (k : packet)
    : bool :=
  if gate then false
  else if fw_Enabled (rs_Firewall (po_Body p)) then packet_allowed p assigned direction k else true.

(** ** Evaluating conditions *)

Section Facts.
Context (sub : string → packet → verdict).

Definition holds (k : packet) (s : stmt) : bool :=
  match s with Match op e r => match_holds k op e r | _ => false end.
Definition is_match (s : stmt) : bool := match s with Match _ _ _ => true | _ => false end.
Definition effect_of (b : bool) : effect := Stop (if b then Return else Drop).

Lemma run_stmts_app k cs l :
  forallb is_match cs = true →
  run_stmts sub k (cs ++ l) = if forallb (holds k) cs then run_stmts sub k l else Next.
Proof.
  induction cs as [|s cs IH]; intros M; [done|].
  destruct s; try done. cbn in M |- *. destruct (match_holds k op l0 r); [by apply IH | done].
Qed.

Lemma run_rules_app k l1 l2 :
  (∀ r, r ∈ l1 → run_stmts sub k r = Next) → run_rules sub k (l1 ++ l2) = run_rules sub k l2.
Proof.
  induction l1 as [|r l1 IH]; intros F; [done|]. cbn. rewrite F by set_solver. apply IH. set_solver.
Qed.

(** The first rule of a list that decides. *)
Fixpoint first_effect (k : packet) (l : list (list stmt)) : option verdict :=
  match l with
  | [] => None
  | r :: l' => match run_stmts sub k r with Next => first_effect k l' | Stop v => Some v end
  end.
Lemma run_rules_first k l1 l2 :
  run_rules sub k (l1 ++ l2) = match first_effect k l1 with Some v => v | None => run_rules sub k l2 end.
Proof. induction l1 as [|r l1 IH]; [done|]. cbn. by destruct (run_stmts sub k r). Qed.
Lemma first_effect_app k l1 l2 :
  first_effect k (l1 ++ l2) = match first_effect k l1 with Some v => Some v | None => first_effect k l2 end.
Proof. induction l1 as [|r l1 IH]; [done|]. cbn. by destruct (run_stmts sub k r). Qed.
End Facts.

#[local] Arguments right_has : simpl never.
Lemma right_scalar s v : right_has (RScalar s) (VScalar v) = bool_decide (v = s).
Proof. unfold right_has. apply bool_decide_ext. split; [by intros [= ->] | by intros ->]. Qed.
Lemma right_set l v : right_has (RSet l) (VScalar v) = bool_decide (v ∈ l).
Proof.
  unfold right_has. apply bool_decide_ext. rewrite list_elem_of_fmap. split.
  - intros (s & [= ->] & I). done.
  - intros I. by exists v.
Qed.
Lemma sstr_eq a b : bool_decide (SStr a = SStr b) = bool_decide (a = b).
Proof. apply bool_decide_ext. split; [by intros [= ->] | by intros ->]. Qed.
Lemma sint_eq a b : bool_decide (SInt a = SInt b) = (a =? b).
Proof. case_bool_decide as E; symmetry; [apply Z.eqb_eq | apply Z.eqb_neq]; congruence. Qed.

Lemma holds_ether k t : holds k (is_ether t) = bool_decide (pk_ether k = t).
Proof. unfold is_ether, holds, match_, match_holds. cbn. by rewrite right_scalar, sstr_eq. Qed.
Lemma holds_l4 k t : holds k (l4proto t) = bool_decide (pk_l4 k = t).
Proof. unfold l4proto, holds, match_, match_holds. cbn. by rewrite right_scalar, sstr_eq. Qed.

Lemma holds_proto k (original : bool) proto :
  holds k (match_ (if original then ct "protocol" EmptyString "original" else Meta "l4proto")
             (RScalar (SStr proto)))
  = bool_decide (seen_proto k original = Some proto).
Proof.
  unfold seen_proto, holds, match_, match_holds.
  change (ct "protocol" EmptyString "original") with (CtKey "protocol"). destruct original; cbn.
  - destruct (pk_ct k) as [c|]; cbn; [|done].
    rewrite right_scalar, sstr_eq. apply bool_decide_ext. naive_solver.
  - rewrite right_scalar, sstr_eq. apply bool_decide_ext. naive_solver.
Qed.

(** The condition on the way the packet came. *)
Definition path_ok (k : packet) (path : string) (original : bool) : bool :=
  bool_decide (path = EmptyString)
  || match pk_ct k with
     | None => false
     | Some c => if bool_decide (path = "direct"%string) then negb (dnat c)
                 else dnat c && (original || Bool.eqb (cn_reply c) (bool_decide (path = "reply"%string)))
     end.

Lemma holds_status k :
  holds k (matchCTStatus "dnat") = (match pk_ct k with None => false | Some c => dnat c end)
  ∧ holds k (matchCTStatus_ne "dnat") = (match pk_ct k with None => false | Some c => negb (dnat c) end).
Proof.
  unfold matchCTStatus, matchCTStatus_ne, ct_status, holds, match_, match_ne, match_holds, dnat. cbn.
  destruct (pk_ct k) as [c|]; cbn; [|done]. by destruct (bool_decide (_ ∈ cn_status c)).
Qed.
Lemma holds_direction k r :
  holds k (match_ (CtKey "direction") (RScalar (SStr (if r : bool then "reply" else "original")%string)))
  = match pk_ct k with None => false | Some c => Bool.eqb (cn_reply c) r end.
Proof.
  unfold holds, match_, match_holds. cbn. destruct (pk_ct k) as [c|]; cbn; [|done].
  rewrite right_scalar, sstr_eq. unfold direction_text. by destruct (cn_reply c), r.
Qed.
Lemma holds_path k path original : forallb (holds k) (path_stmts path original) = path_ok k path original.
Proof.
  unfold path_stmts, path_ok. destruct (holds_status k) as [HS HN].
  destruct (bool_decide (path = EmptyString)); [done|].
  destruct (bool_decide (path = "direct"%string)).
  - cbn [forallb]. rewrite HN. destruct (pk_ct k); [by rewrite andb_true_r | done].
  - destruct original; cbn [forallb]; rewrite HS; destruct (pk_ct k) as [c|] eqn:C; try done;
      rewrite ?holds_direction, ?C; cbn; by rewrite ?andb_true_r.
Qed.

(** ** The statements of one rule *)

Lemma right_intset l q : right_has (intSet l) (VScalar (SInt q)) = bool_decide (q ∈ l).
Proof.
  assert (S : right_has (RSet (map SInt l)) (VScalar (SInt q)) = bool_decide (q ∈ l)).
  { rewrite right_set. apply bool_decide_ext. rewrite list_elem_of_fmap. naive_solver. }
  destruct l as [|v [|w l]]; [done | | done]. cbn [intSet].
  rewrite right_scalar. apply bool_decide_ext. rewrite list_elem_of_singleton. naive_solver.
Qed.
Lemma right_tuples l a q :
  right_has (tupleSet l) (VPair (SAddr a) (SInt q)) = bool_decide ((a, q) ∈ l).
Proof.
  unfold right_has, tupleSet. apply bool_decide_ext. rewrite list_elem_of_fmap.
  split; [by intros ([? ?] & [= -> ->] & I) | intros I; by exists (a, q)].
Qed.
Lemma masked_full a : masked a (bit_len a) = a.
Proof. destruct a; unfold masked; cbn; by rewrite Z.div_1_r, Z.mul_1_r. Qed.
Lemma masked_family a len : family_of (masked a len) = family_of a.
Proof. by destruct a. Qed.
Lemma right_prefix net len a :
  right_has (prefix (net, len)) (VScalar (SAddr a)) = bool_decide (masked a len = net).
Proof.
  unfold prefix. cbn [fst snd]. case (Z.eqb_spec len (bit_len net)) as [->|N]; [|done].
  rewrite right_scalar. apply bool_decide_ext. split.
  - intros [= ->]. apply masked_full.
  - intros E. f_equal. rewrite <- (masked_full a), <- E. f_equal.
    rewrite <- E. by destruct a.
Qed.

Definition port_of (k : packet) (inbound original : bool) : option Z :=
  if original then (λ c, if inbound then cn_dport c else cn_sport c) <$> pk_ct k
  else Some (if inbound then pk_dport k else pk_sport k).
Definition is_path (m : policyAllocationMatch) (path : string) : bool := bool_decide (pm_path m = path).
Definition tuple_ok (k : packet) (v : allocationMatch) : bool :=
  match pk_ct k with
  | None => false
  | Some c => bool_decide (family_of (cn_daddr c) = am_family v)
              && bool_decide ((cn_daddr c, cn_dport c) ∈ am_allocations v)
  end.
Definition m_port_ok (k : packet) (inbound original : bool) (m : policyAllocationMatch) : bool :=
  let v := pm_match m in
  bool_decide (am_family v = EmptyString)
  || bool_decide (pk_ether k = am_family v)
     && match port_of k inbound original with None => false | Some q => bool_decide (q ∈ am_ports v) end
     && (negb (inbound && is_path m "dnat") || tuple_ok k v).
Definition m_peer (k : packet) (inbound original : bool) (m : policyAllocationMatch) : option addr :=
  if original || inbound && is_path m "dnat"
  then (λ c, if inbound then cn_saddr c else cn_daddr c) <$> pk_ct k
  else Some (if inbound then pk_saddr k else pk_daddr k).
Definition m_peer_ok (k : packet) (rule : Rule) (original : bool) (m : policyAllocationMatch) : bool :=
  match ru_CIDR rule with
  | None => true
  | Some _ => match m_peer k (bool_decide (ru_Direction rule = "inbound"%string)) original m with
              | None => false
              | Some a => in_peer (ru_CIDR rule) (pk_ether k) a
              end
  end.
Definition m_ok (k : packet) (rule : Rule) (original : bool) (m : policyAllocationMatch) : bool :=
  path_ok k (pm_path m) original
  && m_port_ok k (bool_decide (ru_Direction rule = "inbound"%string)) original m
  && m_peer_ok k rule original m.

Definition is_l4 (proto : string) : Prop := proto = "tcp"%string ∨ proto = "udp"%string.
Definition is_family (v : allocationMatch) : Prop :=
  am_family v = EmptyString ∨ am_family v = "ip"%string ∨ am_family v = "ip6"%string.

Lemma match_eq k e r :
  holds k (match_ e r) = match left_value k e with None => false | Some v => right_has r v end.
Proof. done. Qed.

Lemma ct_original (inbound : bool) :
  ct (if inbound then "proto-dst" else "proto-src")%string EmptyString "original"
  = CtDir (if inbound then "proto-dst" else "proto-src")%string "original".
Proof. by destruct inbound. Qed.
Lemma ct_address (family field : string) :
  family ≠ EmptyString → field = "saddr"%string ∨ field = "daddr"%string →
  ct field family "original" = CtDir (family +:+ " " +:+ field) "original".
Proof. intros N [-> | ->]; unfold ct; by rewrite (bool_decide_eq_false_2 _ N). Qed.

Lemma left_port k (inbound original : bool) proto :
  is_l4 proto → seen_proto k original = Some proto →
  left_value k (if original then ct (if inbound then "proto-dst" else "proto-src") EmptyString "original"
                else Payload proto (if inbound then "dport" else "sport"))
  = (λ q, VScalar (SInt q)) <$> port_of k inbound original.
Proof.
  unfold seen_proto, port_of. intros L P. destruct original.
  - rewrite ct_original. destruct inbound; cbn; by destruct (pk_ct k).
  - injection P as P. destruct L as [-> | ->], inbound; cbn; by rewrite (bool_decide_eq_true_2 _ P).
Qed.

Lemma left_tuple k family :
  family = "ip"%string ∨ family = "ip6"%string →
  left_value k (Concat (ct "daddr" family "original") (ct "proto-dst" EmptyString "original"))
  = match pk_ct k with
    | Some c => if bool_decide (family_of (cn_daddr c) = family)
                then Some (VPair (SAddr (cn_daddr c)) (SInt (cn_dport c))) else None
    | None => None
    end.
Proof.
  intros F. rewrite ct_address by naive_solver. change (ct "proto-dst" EmptyString "original")
    with (CtDir "proto-dst" "original").
  destruct F as [-> | ->]; cbn; destruct (pk_ct k) as [c|]; cbn; try done;
    unfold ct_dir_value; destruct (cn_saddr c), (cn_daddr c); reflexivity.
Qed.

Lemma holds_port k rule proto m original :
  is_l4 proto → seen_proto k original = Some proto → is_family (pm_match m) →
  forallb (holds k) (port_stmts rule proto m original)
  = m_port_ok k (bool_decide (ru_Direction rule = "inbound"%string)) original m.
Proof.
  intros L P F. unfold port_stmts, m_port_ok.
  case_bool_decide as E; [done|]. destruct F as [?|F]; [done|]. cbn [orb].
  set (inbound := bool_decide (ru_Direction rule = "inbound"%string)).
  rewrite forallb_app. cbn [forallb]. rewrite holds_ether, andb_true_r. f_equal.
  - f_equal. rewrite match_eq, left_port by done. destruct (port_of k inbound original); [apply right_intset | done].
  - unfold is_path. destruct (inbound && bool_decide (pm_path m = "dnat"%string)); [|done]. cbn [forallb negb orb].
    rewrite andb_true_r, match_eq, left_tuple by done. unfold tuple_ok. destruct (pk_ct k) as [c|]; [|done].
    destruct (bool_decide (family_of (cn_daddr c) = _)); [apply right_tuples | done].
Qed.

Lemma left_peer k (inbound orig : bool) family :
  family = "ip"%string ∨ family = "ip6"%string → pk_ether k = family →
  let field := (if inbound then "saddr" else "daddr")%string in
  left_value k (if orig then ct field family "original" else Payload family field)
  = (a ← (if orig then (λ c, if inbound then cn_saddr c else cn_daddr c) <$> pk_ct k
          else Some (if inbound then pk_saddr k else pk_daddr k));
     if orig && negb (bool_decide (family_of a = family)) then None else Some (VScalar (SAddr a))).
Proof.
  intros F E field. assert (NF : family ≠ EmptyString) by (destruct F as [-> | ->]; done). destruct orig.
  - rewrite ct_address by (try done; unfold field; destruct inbound; auto). unfold field.
    destruct F as [-> | ->], inbound; cbn; destruct (pk_ct k) as [c|]; cbn; try done;
      unfold ct_dir_value; destruct (cn_saddr c), (cn_daddr c); reflexivity.
  - destruct F as [-> | ->], inbound; cbn; by rewrite (bool_decide_eq_true_2 _ E).
Qed.

Lemma family_of_ip a : family_of a = "ip"%string ∨ family_of a = "ip6"%string.
Proof. destruct a; [by left | by right]. Qed.

(** The peer condition: with the port condition it is [m_peer_ok]. *)
Lemma holds_peer k rule m original o :
  is_family (pm_match m) → cidr_stmts rule m original = Ok o →
  m_port_ok k (bool_decide (ru_Direction rule = "inbound"%string)) original m
  && (match o with None => false | Some l => forallb (holds k) l end)
  = m_port_ok k (bool_decide (ru_Direction rule = "inbound"%string)) original m && m_peer_ok k rule original m.
Proof.
  intros F. unfold cidr_stmts, m_peer_ok, m_peer.
  set (inbound := bool_decide (ru_Direction rule = "inbound"%string)).
  destruct (ru_CIDR rule) as [c|]; [|by intros [= <-]].
  unfold in_peer. destruct (Peer c) as [[net len]|]; [|done]. cbn [fst].
  set (P := m_port_ok k inbound original m).
  assert (PE : P = true → am_family (pm_match m) = EmptyString ∨ pk_ether k = am_family (pm_match m)).
  { unfold P, m_port_ok. case_bool_decide; [by left|]. rewrite orb_false_l, !andb_true_iff.
    intros [[E%bool_decide_eq_true _] _]. by right. }
  destruct (negb _ && negb _) eqn:X; intros [= <-].
  - apply andb_true_iff in X as [X1 X2]. rewrite negb_true_iff, bool_decide_eq_false in X1, X2.
    destruct P; [|done]. destruct (PE eq_refl) as [?|E]; [done|]. cbn [andb].
    destruct (if original || inbound && is_path m "dnat" then _ else _) as [a|]; [|done].
    rewrite bool_decide_eq_false_2; [done|]. congruence.
  - destruct P; [|done]. cbn [andb]. rewrite forallb_app.
    assert (EF : (forallb (holds k) (if bool_decide (am_family (pm_match m) = EmptyString)
                                     then [is_ether (family_of net)] else []))
                 = bool_decide (family_of net = pk_ether k)).
    { case_bool_decide as E0.
      - cbn [forallb]. rewrite holds_ether, andb_true_r. apply bool_decide_ext. naive_solver.
      - destruct (PE eq_refl) as [?|E]; [done|]. cbn [andb negb] in X.
        apply negb_false_iff, bool_decide_eq_true in X. cbn. symmetry. apply bool_decide_eq_true_2. congruence. }
    rewrite EF. clear EF. destruct (bool_decide (family_of net = pk_ether k)) eqn:E; [|cbn [andb]; by case_match].
    apply bool_decide_eq_true in E.
    cbn [andb forallb]. rewrite andb_true_r, match_eq.
    fold (is_path m "dnat"). rewrite left_peer by (done || apply family_of_ip).
    destruct (original || inbound && is_path m "dnat").
    + destruct (pk_ct k) as [cn|]; cbn [option_fmap option_map fmap mbind option_bind andb]; [|done].
      set (a := if inbound then cn_saddr cn else cn_daddr cn).
      destruct (bool_decide (family_of a = family_of net)) eqn:EA; cbn [negb]; [apply right_prefix|].
      apply bool_decide_eq_false in EA. symmetry. apply bool_decide_eq_false_2. intros M. apply EA. rewrite <- M. by rewrite masked_family.
    + cbn. apply right_prefix.
Qed.

(** The rules of a list of matches: the first match that holds decides. *)
Definition m_verdict (rule : Rule) (m : policyAllocationMatch) : bool :=
  bool_decide (ru_Action rule = "allow"%string) && negb (pm_drop m).
Fixpoint first_match (k : packet) (rule : Rule) (original : bool) (l : list policyAllocationMatch)
    : option bool :=
  match l with
  | [] => None
  | m :: l' => if m_ok k rule original m then Some (m_verdict rule m) else first_match k rule original l'
  end.

Definition verdict_of (b : bool) : verdict := if b then Return else Drop.

Lemma path_is_match path original : forallb is_match (path_stmts path original) = true.
Proof. unfold path_stmts. by repeat case_match. Qed.
Lemma port_is_match rule proto m original : forallb is_match (port_stmts rule proto m original) = true.
Proof. unfold port_stmts. rewrite ?forallb_app. repeat case_match; try done; rewrite forallb_app; by case_match. Qed.
Lemma cidr_is_match rule m original l : cidr_stmts rule m original = Ok (Some l) → forallb is_match l = true.
Proof.
  unfold cidr_stmts. repeat case_match; intros [= <-]; try done; rewrite forallb_app; by case_match.
Qed.

Lemma run_match_rule sub k rule proto original m peer :
  is_l4 proto → is_family (pm_match m) → cidr_stmts rule m original = Ok (Some peer) →
  run_stmts sub k
    (match_ (if original then ct "protocol" EmptyString "original" else Meta "l4proto") (RScalar (SStr proto))
     :: path_stmts (pm_path m) original ++ port_stmts rule proto m original ++ peer
     ++ [Verdict (rule_verdict rule m)])
  = if bool_decide (seen_proto k original = Some proto) && m_ok k rule original m
    then Stop (verdict_of (m_verdict rule m)) else Next.
Proof.
  intros L F C.
  rewrite !(app_comm_cons _ _ (match_ _ _)), !app_assoc.
  rewrite run_stmts_app.
  2:{ rewrite !forallb_app. cbn [forallb is_match match_]. by rewrite path_is_match, port_is_match, (cidr_is_match _ _ _ _ C). }
  rewrite !forallb_app. cbn [forallb]. rewrite holds_proto, holds_path. unfold m_ok.
  case_bool_decide as S; [|done]. cbn [andb]. rewrite (holds_port k rule proto m original L S F), <- !andb_assoc.
  pose proof (holds_peer k rule m original _ F C) as HP. cbn in HP. rewrite HP.
  match goal with |- (if ?b then _ else _) = _ => destruct b; [|done] end. cbn. unfold rule_verdict, m_verdict. 
  by destruct (bool_decide (ru_Action rule = "allow"%string)), (pm_drop m).
Qed.

Lemma match_rules_spec table chain rule proto original l d d' :
  is_l4 proto → Forall (λ m, is_family (pm_match m)) l →
  match_rules table chain rule proto original l d = Ok d' →
  ∃ rs, d' = d ++ map (NRule table chain) rs ∧
    ∀ sub k, first_effect sub k rs
      = if bool_decide (seen_proto k original = Some proto)
        then verdict_of <$> first_match k rule original l else None.
Proof.
  intros L F. revert d. induction F as [|m l FM F IH]; intros d M; cbn in M.
  - injection M as <-. exists []. split; [by rewrite app_nil_r|]. intros sub k. by case_bool_decide.
  - destruct (cidr_stmts rule m original) as [peer|e] eqn:C; cbn in M; [|done].
    destruct peer as [peer|].
    + destruct (IH _ M) as (rs & -> & R). eexists (_ :: rs). split.
      { unfold addRule. by rewrite <- app_assoc. }
      intros sub k. cbn [first_effect]. rewrite run_match_rule by done. rewrite R. cbn [first_match].
      case_bool_decide; [|done]. cbn [andb]. by destruct (m_ok k rule original m).
    + destruct (IH _ M) as (rs & -> & R). exists rs. split; [done|]. intros sub k. rewrite R.
      case_bool_decide; [|done]. cbn [first_match].
      pose proof (holds_peer k rule m original _ FM C) as HP. cbn in HP. rewrite andb_false_r in HP.
      unfold m_ok. by rewrite <- andb_assoc, <- HP, andb_false_r.
Qed.

(** ** The matches of a group *)

Lemma group_tuples_spec assigned l ts :
  group_tuples assigned l = Ok ts →
  ts = omap (λ a, if hasAllocation assigned a then (λ ip, (ip, al_Port a)) <$> parseIP (al_IP a) else None) l.
Proof.
  revert ts. induction l as [|a l IH]; intros ts T; cbn in T |- *; [by injection T as <-|].
  destruct (hasAllocation assigned a); [|by apply IH].
  destruct (parseIP (al_IP a)); [|done]. cbn in T |- *.
  destruct (group_tuples assigned l) as [ts'|]; cbn in T; [|done]. injection T as <-. by rewrite (IH ts').
Qed.

Lemma resolvedMatches_spec p g proto assigned vs :
  resolvedMatches p g proto assigned = Ok vs →
  vs = family_match (group_allocations p g proto assigned) "ip"
       ++ family_match (group_allocations p g proto assigned) "ip6".
Proof.
  unfold resolvedMatches, group_allocations. destruct (find_group _ _ _) as [gr|]; [|by intros [= <-]].
  destruct (group_tuples _ _) as [ts|] eqn:T; cbn; [|done]. intros [= <-]. by rewrite (group_tuples_spec _ _ _ T).
Qed.

(** A family's match holds the group's ports and tuples of the family. *)
Record variant_of (G : list (addr * Z)) (family : string) (v : allocationMatch) : Prop := {
  vo_family : am_family v = family;
  vo_ports q : q ∈ am_ports v ↔ has_port G family q = true;
  vo_tuples t : t ∈ am_allocations v ↔ t ∈ G ∧ family_of t.1 = family;
}.
Lemma family_match_spec G family :
  (family_match G family = [] ∧ ∀ q, has_port G family q = false)
  ∨ ∃ v, family_match G family = [v] ∧ variant_of G family v.
Proof.
  unfold family_match.
  assert (HP : ∀ q, has_port G family q = true
                    ↔ q ∈ snd <$> filter (λ t : addr * Z, family_of (fst t) = family) G).
  { intros q. unfold has_port. rewrite existsb_exists, list_elem_of_fmap.
    setoid_rewrite list_elem_of_filter. setoid_rewrite andb_true_iff. setoid_rewrite bool_decide_eq_true.
    setoid_rewrite Z.eqb_eq. setoid_rewrite list_elem_of_In. naive_solver. }
  destruct (filter _ G) as [|t l] eqn:FE.
  - left. split; [done|]. intros q. apply not_true_iff_false. rewrite HP. cbn. set_solver.
  - right. eexists. split; [done|]. split; cbn [am_family am_ports am_allocations]; [done| |].
    + intros q. by rewrite merge_sort_Permutation, elem_of_remove_dups, HP.
    + intros x. rewrite merge_sort_Permutation, elem_of_remove_dups, <- FE, list_elem_of_filter. naive_solver.
Qed.

Lemma shared_ports_spec v hosts shared q :
  shared_ports v hosts = Ok shared →
  q ∈ shared ↔ q ∈ am_ports v ∧ ∃ h ip, h ∈ hosts ∧ parseIP h.1 = Some ip ∧ family_of ip = am_family v
                                  ∧ q ∈ h.2 ∧ (ip, q) ∉ am_allocations v.
Proof.
  revert shared. induction hosts as [|[host ports] hosts IH]; intros shared S; cbn in S.
  { injection S as <-. set_solver. }
  destruct (parseIP host) as [ip|] eqn:PI; [|done].
  destruct (shared_ports v hosts) as [sh|]; cbn in S; [|done]. specialize (IH sh eq_refl).
  case_bool_decide as FE; cbn in S; injection S as <-.
  - rewrite elem_of_app, list_elem_of_filter, IH. split.
    + intros [((? & ?) & ?) | (? & h & ip' & ? & ?)]; (split; [done|]).
      * exists (host, ports), ip. set_solver.
      * exists h, ip'. set_solver.
    + intros (QP & h & ip' & [-> | HI]%elem_of_cons & PI' & FI & QI & NI).
      * cbn in PI', QI. simplify_eq. by left.
      * right. split; [done|]. by exists h, ip'.
  - rewrite IH. split.
    + intros (? & h & ip' & ? & ?). split; [done|]. exists h, ip'. set_solver.
    + intros (QP & h & ip' & [-> | HI]%elem_of_cons & PI' & FI & ?).
      * cbn in PI'. simplify_eq.
      * split; [done|]. by exists h, ip'.
Qed.

Lemma shared_elsewhere_spec assigned G family q :
  shared_elsewhere assigned G family q = true ↔
  ∃ h ip, h ∈ map_to_list assigned ∧ parseIP h.1 = Some ip ∧ family_of ip = family ∧ q ∈ h.2 ∧ (ip, q) ∉ G.
Proof.
  unfold shared_elsewhere. rewrite existsb_exists. setoid_rewrite <- list_elem_of_In. split.
  - intros (h & HI & B). destruct (parseIP h.1) as [ip|] eqn:PI; [|done].
    rewrite !andb_true_iff, negb_true_iff, !bool_decide_eq_true, bool_decide_eq_false in B.
    exists h, ip. naive_solver.
  - intros (h & ip & HI & PI & FI & QI & NI). exists h. split; [done|]. rewrite PI.
    rewrite !bool_decide_eq_true_2, bool_decide_eq_false_2 by done. done.
Qed.

(** The two lists of ports: those that identify the group, those that do not. *)
Lemma direct_ports_spec G family v assigned ports ambiguous q :
  variant_of G family v → directAllocationPorts v assigned = Ok (ports, ambiguous) →
  bool_decide (q ∈ ports) = has_port G family q && negb (shared_elsewhere assigned G family q)
  ∧ bool_decide (q ∈ ambiguous) = has_port G family q && shared_elsewhere assigned G family q.
Proof.
  intros V. unfold directAllocationPorts. destruct (shared_ports _ _) as [shared|] eqn:S; cbn; [|done].
  intros [= <- <-]. pose proof (shared_ports_spec _ _ _ q S) as SP.
  assert (SE : q ∈ shared ↔ has_port G family q = true ∧ shared_elsewhere assigned G family q = true).
  { rewrite SP, (vo_ports _ _ _ V), shared_elsewhere_spec. setoid_rewrite (vo_family _ _ _ V).
    setoid_rewrite (vo_tuples _ _ _ V). cbn [fst]. naive_solver. }
  pose proof (vo_ports _ _ _ V q) as VP.
  split; apply Bool.eq_iff_eq_true; rewrite bool_decide_eq_true, list_elem_of_filter, SE, VP, andb_true_iff, ?negb_true_iff;
    destruct (has_port G family q), (shared_elsewhere assigned G family q); naive_solver.
Qed.

Lemma first_match_app k rule original l1 l2 :
  first_match k rule original (l1 ++ l2)
  = match first_match k rule original l1 with Some b => Some b | None => first_match k rule original l2 end.
Proof. induction l1 as [|m l1 IH]; [done|]. cbn. by destruct (m_ok k rule original m). Qed.

(** On an inbound path that holds, the peer looked at is the flow's peer. *)
Definition inbound_paths : list string := ["dnat"; "direct"; "reply"]%string.
Lemma path_ok_ct k path original :
  path ∈ inbound_paths →
  path_ok k path original
  = match pk_ct k with
    | None => false
    | Some c => if bool_decide (path = "direct"%string) then negb (dnat c)
                else dnat c && (original || Bool.eqb (cn_reply c) (bool_decide (path = "reply"%string)))
    end.
Proof. unfold path_ok, inbound_paths. intros I. by rewrite bool_decide_eq_false_2 by set_solver. Qed.

Lemma peer_agrees k rule original v path drop :
  ru_Direction rule = "inbound"%string → path ∈ inbound_paths → path_ok k path original = true →
  m_peer_ok k rule original (mkPMatch v path drop) = peer_ok rule original k.
Proof.
  intros D I. rewrite path_ok_ct by done. unfold m_peer_ok, peer_ok.
  destruct (ru_CIDR rule) as [c|]; [|done]. rewrite (bool_decide_eq_true_2 _ D).
  unfold m_peer, peer_addr, is_path. destruct (pk_ct k) as [cn|]; [|done]. cbn [pm_path].
  unfold inbound_paths in I. rewrite !elem_of_cons in I.
  destruct I as [-> | [-> | [-> | I]]]; [| | |set_solver]; cbn;
    destruct original, (dnat cn), (cn_reply cn); done.
Qed.

(** What one inbound match of a variant decides. *)
Lemma m_ok_inbound k rule original v ports path drop :
  ru_Direction rule = "inbound"%string → path ∈ inbound_paths → am_family v ≠ EmptyString →
  m_ok k rule original (mkPMatch (mkMatch (am_family v) ports (am_allocations v)) path drop)
  = path_ok k path original && bool_decide (pk_ether k = am_family v)
    && match port_of k true original with None => false | Some q => bool_decide (q ∈ ports) end
    && (negb (bool_decide (path = "dnat"%string)) || tuple_ok k v) && peer_ok rule original k.
Proof.
  intros D I N. unfold m_ok. cbn [pm_path].
  destruct (path_ok k path original) eqn:P; [|done]. cbn [andb].
  rewrite peer_agrees by done. rewrite (bool_decide_eq_true_2 _ D). f_equal.
  unfold m_port_ok, is_path, tuple_ok. cbn. rewrite (bool_decide_eq_false_2 _ N). done.
Qed.

Lemma first_direct k rule original G family v assigned ports ambiguous path :
  ru_Direction rule = "inbound"%string → path = "direct"%string ∨ path = "reply"%string →
  variant_of G family v → family ≠ EmptyString →
  directAllocationPorts v assigned = Ok (ports, ambiguous) →
  first_match k rule original (direct_matches v ports ambiguous path)
  = if path_ok k path original && bool_decide (pk_ether k = family) && peer_ok rule original k then
      q ← port_of k true original;
      if has_port G family q
      then Some (bool_decide (ru_Action rule = "allow"%string) && negb (shared_elsewhere assigned G family q))
      else None
    else None.
Proof.
  intros D PD V NE DP. pose proof (vo_family _ _ _ V) as VF.
  assert (I : path ∈ inbound_paths) by (unfold inbound_paths; set_solver).
  assert (ND : bool_decide (path = "dnat"%string) = false) by (by destruct PD as [-> | ->]).
  assert (S : ∀ l b, first_match k rule original
                (if bool_decide (l = []) then [] else [mkPMatch (mkMatch (am_family v) l (am_allocations v)) path b])
              = if path_ok k path original && bool_decide (pk_ether k = family) && peer_ok rule original k
                   && match port_of k true original with None => false | Some q => bool_decide (q ∈ l) end
                then Some (bool_decide (ru_Action rule = "allow"%string) && negb b) else None).
  { intros l b. destruct (decide (l = [])) as [->|EL].
    - destruct (port_of k true original); by rewrite ?andb_false_r.
    - rewrite (bool_decide_eq_false_2 _ EL). cbn [first_match]. rewrite m_ok_inbound, VF, ND by (done || congruence). cbn [negb orb].
      rewrite andb_true_r. unfold m_verdict. cbn [pm_drop].
      by destruct (path_ok _ _ _), (bool_decide (pk_ether k = family)), (peer_ok _ _ _),
        (match port_of k true original with None => false | Some q => _ end). }
  unfold direct_matches. rewrite first_match_app, !S. clear S.
  destruct (_ && peer_ok rule original k); [|done]. cbn [andb].
  destruct (port_of k true original) as [q|]; [|done]. cbn.
  destruct (direct_ports_spec _ _ _ _ _ _ q V DP) as [-> ->].
  by destruct (has_port G family q), (shared_elsewhere assigned G family q).
Qed.

Lemma peer_unscoped k rule original v drop :
  ru_Direction rule ≠ "inbound"%string ∨ ru_CIDR rule = None ∨ original = true →
  m_peer_ok k rule original (mkPMatch v EmptyString drop) = peer_ok rule original k.
Proof.
  intros C. unfold m_peer_ok, peer_ok. destruct (ru_CIDR rule) as [c|]; [|done].
  unfold m_peer, peer_addr, is_path. cbn [pm_path].
  destruct (bool_decide (ru_Direction rule = "inbound"%string)) eqn:D.
  - apply bool_decide_eq_true in D. destruct C as [?|[?| ->]]; [done|done|]. cbn. by destruct (pk_ct k).
  - by destruct original.
Qed.

Lemma m_ok_groupless k rule original path drop :
  m_ok k rule original (mkPMatch no_match path drop)
  = path_ok k path original && m_peer_ok k rule original (mkPMatch no_match path drop).
Proof. unfold m_ok. cbn [pm_path]. by destruct (path_ok k path original). Qed.
Lemma path_ok_empty k original : path_ok k EmptyString original = true.
Proof. done. Qed.

Lemma groupless_decides k rule assigned original ms :
  ru_GroupID rule = None → policyAllocationMatches rule [no_match] assigned original = Ok ms →
  first_match k rule original ms
  = if peer_ok rule original k then Some (bool_decide (ru_Action rule = "allow"%string)) else None.
Proof.
  intros G. cbn. rewrite G, (bool_decide_eq_true_2 (None = None)) by done. cbn [andb].
  destruct (negb _ || _) eqn:C; cbn; intros [= <-].
  - cbn [first_match]. rewrite m_ok_groupless, path_ok_empty, peer_unscoped.
    { destruct (peer_ok rule original k); [|done]. unfold m_verdict. cbn. by rewrite andb_true_r. }
    apply orb_true_iff in C as [C|C]; [left; by apply negb_true_iff, bool_decide_eq_false in C|].
    apply orb_true_iff in C as [C|C]; [right; left; by apply bool_decide_eq_true in C | by right; right].
  - apply orb_false_iff in C as [D C]. apply negb_false_iff, bool_decide_eq_true in D.
    apply orb_false_iff in C as [C ->]. apply bool_decide_eq_false in C.
    assert (S : ∀ path, path ∈ inbound_paths →
      m_ok k rule false (mkPMatch no_match path false) = path_ok k path false && peer_ok rule false k).
    { intros path I. rewrite m_ok_groupless. destruct (path_ok k path false) eqn:P; [|done].
      cbn [andb]. by apply peer_agrees. }
    cbn [first_match]. rewrite !S, !path_ok_ct by (unfold inbound_paths; set_solver).
    unfold m_verdict. cbn [pm_drop negb]. rewrite andb_true_r.
    destruct (pk_ct k) as [c|] eqn:CT; cbn.
    + by destruct (dnat c), (cn_reply c), (peer_ok rule false k).
    + unfold peer_ok, peer_addr. destruct (ru_CIDR rule); [|done]. by rewrite (bool_decide_eq_true_2 _ D), CT.
Qed.

Definition group_decides (assigned : assignment) (rule : Rule) (original : bool) (G : list (addr * Z)) (k : packet)
    : option bool :=
  member ← group_member assigned G (bool_decide (ru_Direction rule = "inbound"%string)) original k;
  Some (bool_decide (ru_Action rule = "allow"%string) && member).

Lemma variant_ports G family v q :
  variant_of G family v → bool_decide (q ∈ am_ports v) = has_port G family q.
Proof. intros V. apply Bool.eq_iff_eq_true. by rewrite bool_decide_eq_true, (vo_ports _ _ _ V). Qed.
Lemma variant_tuple G family v a q :
  variant_of G family v →
  bool_decide (family_of a = family) && bool_decide ((a, q) ∈ am_allocations v)
  = bool_decide ((a, q) ∈ G) && bool_decide (family_of a = family).
Proof.
  intros V. apply Bool.eq_iff_eq_true. rewrite !andb_true_iff, !bool_decide_eq_true, (vo_tuples _ _ _ V).
  cbn [fst]. naive_solver.
Qed.

Lemma reply_matches k rule (original : bool) G family v assigned ports ambiguous :
  ru_Direction rule = "inbound"%string → variant_of G family v → family ≠ EmptyString →
  directAllocationPorts v assigned = Ok (ports, ambiguous) →
  first_match k rule original (if original then [] else direct_matches v ports ambiguous "reply")
  = if negb original && path_ok k "reply" original && bool_decide (pk_ether k = family) && peer_ok rule original k
    then q ← port_of k true original;
         if has_port G family q
         then Some (bool_decide (ru_Action rule = "allow"%string) && negb (shared_elsewhere assigned G family q))
         else None
    else None.
Proof.
  intros D V NE DP. destruct original; [done|].
  by rewrite (first_direct _ _ _ _ _ _ _ _ _ "reply" D (or_intror eq_refl) V NE DP).
Qed.

Lemma variant_inbound k rule g assigned original G family v ms :
  ru_Direction rule = "inbound"%string → ru_GroupID rule = Some g →
  variant_of G family v → family ≠ EmptyString →
  policyAllocationMatches rule [v] assigned original = Ok ms →
  first_match k rule original ms
  = if bool_decide (pk_ether k = family) && peer_ok rule original k
    then group_decides assigned rule original G k else None.
Proof.
  intros D RG V NE. pose proof (vo_family _ _ _ V) as VF. cbn.
  rewrite RG, (bool_decide_eq_false_2 (Some g = None)), orb_false_r by done. unfold group_decides.
  rewrite (bool_decide_eq_true_2 _ D). cbn [negb].
  destruct (directAllocationPorts v assigned) as [[ports ambiguous]|] eqn:DP; cbn; [|done]. intros [= <-].
  rewrite app_nil_r. cbn [first_match]. rewrite first_match_app.
  replace (mkPMatch v "dnat" false) with
    (mkPMatch (mkMatch (am_family v) (am_ports v) (am_allocations v)) "dnat" false) by (by destruct v).
  rewrite m_ok_inbound by (done || unfold inbound_paths; set_solver || congruence).
  rewrite (first_direct _ _ _ _ _ _ _ _ _ "direct" D (or_introl eq_refl) V NE DP).
  rewrite (reply_matches _ _ _ _ _ _ _ _ _ D V NE DP), VF.
  rewrite !path_ok_ct by (unfold inbound_paths; set_solver). unfold group_member, tuple_ok, port_of, m_verdict.
  destruct (pk_ct k) as [c|]; cbn.
  2:{ destruct original; cbn; by case_match. }
  rewrite VF.
  destruct (peer_ok rule original k); [|by rewrite ?andb_false_r].
  destruct (bool_decide (pk_ether k = family)) eqn:E; [|by rewrite ?andb_false_r].
  apply bool_decide_eq_true in E. rewrite E.
  rewrite (variant_tuple _ _ _ _ _ V). destruct (bool_decide (_ ∈ G) && _);
    destruct original; cbn [mbind option_bind]; rewrite (variant_ports _ _ _ _ V);
    match goal with |- context [has_port G family ?q] =>
      destruct (has_port G family q), (shared_elsewhere assigned G family q) end;
    destruct (dnat c), (cn_reply c), (bool_decide (ru_Action rule = "allow"%string)); reflexivity.
Qed.

Lemma variant_outbound k rule g assigned original G family v ms :
  ru_Direction rule ≠ "inbound"%string → ru_GroupID rule = Some g →
  variant_of G family v → family ≠ EmptyString →
  policyAllocationMatches rule [v] assigned original = Ok ms →
  first_match k rule original ms
  = if bool_decide (pk_ether k = family) && peer_ok rule original k
    then group_decides assigned rule original G k else None.
Proof.
  intros D RG V NE. pose proof (vo_family _ _ _ V) as VF. cbn.
  rewrite (bool_decide_eq_false_2 _ D). cbn. intros [= <-]. unfold group_decides.
  rewrite (bool_decide_eq_false_2 _ D). cbn [first_match app]. unfold m_ok. cbn [pm_path]. rewrite path_ok_empty.
  rewrite peer_unscoped by auto. cbn [andb].
  unfold m_port_ok, m_verdict, group_member, port_of. cbn [pm_match pm_drop negb].
  rewrite (bool_decide_eq_false_2 _ D), (bool_decide_eq_false_2 (am_family v = EmptyString)), VF by congruence.
  cbn [orb andb negb]. rewrite !andb_true_r.
  destruct (bool_decide (pk_ether k = family)) eqn:E; [|done]. apply bool_decide_eq_true in E. rewrite E.
  destruct (peer_ok rule original k); [|by rewrite andb_false_r].
  destruct original; [destruct (pk_ct k) as [c|]; [|done]|]; cbn; rewrite (variant_ports _ _ _ _ V);
    match goal with |- context [has_port G family ?q] => destruct (has_port G family q) end; cbn; by rewrite ?andb_true_r.
Qed.

Lemma variant_decides k rule g assigned original G family v ms :
  ru_GroupID rule = Some g → variant_of G family v → family ≠ EmptyString →
  policyAllocationMatches rule [v] assigned original = Ok ms →
  first_match k rule original ms
  = if bool_decide (pk_ether k = family) && peer_ok rule original k
    then group_decides assigned rule original G k else None.
Proof.
  destruct (decide (ru_Direction rule = "inbound"%string)); [by apply variant_inbound | by apply variant_outbound].
Qed.

(** ** From matches to rules *)

Lemma matches_cons rule v vs assigned original ms :
  policyAllocationMatches rule (v :: vs) assigned original = Ok ms →
  ∃ a b, policyAllocationMatches rule [v] assigned original = Ok a
         ∧ policyAllocationMatches rule vs assigned original = Ok b ∧ ms = a ++ b.
Proof.
  cbn. match goal with |- context [mbind _ ?f = Ok ms] => destruct f as [a|] end; cbn; [|done].
  destruct (policyAllocationMatches rule vs assigned original) as [b|]; cbn; [|done].
  intros [= <-]. exists a, b. by rewrite app_nil_r.
Qed.
Lemma direct_matches_family v ports ambiguous path :
  Forall (λ m, am_family (pm_match m) = am_family v) (direct_matches v ports ambiguous path).
Proof. unfold direct_matches. apply Forall_app. split; case_bool_decide; by repeat constructor. Qed.
Lemma matches_family rule vs assigned original ms :
  Forall is_family vs → policyAllocationMatches rule vs assigned original = Ok ms →
  Forall (λ m, is_family (pm_match m)) ms.
Proof.
  intros F. revert ms. induction F as [|v vs FV F IH]; intros ms M; [by injection M as <-|].
  apply matches_cons in M as (a & b & A & B & ->). apply Forall_app. split; [|by apply IH]. clear IH B F.
  assert (D : ∀ ports ambiguous path,
    Forall (λ m, is_family (pm_match m)) (direct_matches v ports ambiguous path)).
  { intros ports ambiguous path. eapply Forall_impl; [apply direct_matches_family|].
    intros m E. unfold is_family in *. by rewrite E. }
  cbn in A. destruct (_ || _); [injection A as <-; repeat (constructor; [done|]); constructor|].
  destruct (bool_decide _); [injection A as <-; repeat (constructor; [done|]); constructor|].
  destruct (directAllocationPorts v assigned) as [[ports ambiguous]|]; cbn in A; [|done]. injection A as <-.
  rewrite app_nil_r. constructor; [done|]. apply Forall_app. split; [done|]. by case_match.
Qed.

Lemma no_member k assigned rule original G :
  (∀ q, has_port G (pk_ether k) q = false) → group_decides assigned rule original G k = None.
Proof.
  intros N. unfold group_decides, group_member. destruct (bool_decide (ru_Direction rule = _)).
  - destruct (pk_ct k); [|done]. cbn. by rewrite N.
  - destruct original; cbn; [destruct (pk_ct k); [|done]|]; cbn; by rewrite N.
Qed.
Lemma has_port_family G family q : has_port G family q = true → family = "ip"%string ∨ family = "ip6"%string.
Proof.
  unfold has_port. rewrite existsb_exists. intros (t & _ & B). apply andb_true_iff in B as [<-%bool_decide_eq_true _].
  apply family_of_ip.
Qed.

Lemma family_decides k rule g assigned original G family rest ms :
  ru_GroupID rule = Some g → family ≠ EmptyString →
  policyAllocationMatches rule (family_match G family ++ rest) assigned original = Ok ms →
  ∃ ms', policyAllocationMatches rule rest assigned original = Ok ms' ∧
    first_match k rule original ms
    = if bool_decide (pk_ether k = family) && peer_ok rule original k then
        match group_decides assigned rule original G k with
        | Some b => Some b
        | None => first_match k rule original ms'
        end
      else first_match k rule original ms'.
Proof.
  intros RG NE M. destruct (family_match_spec G family) as [[FM N]|(v & FM & V)]; rewrite FM in M; cbn [app] in M.
  - exists ms. split; [done|]. case_bool_decide as E; [|done]. cbn [andb].
    rewrite no_member by (by rewrite E). by destruct (peer_ok rule original k).
  - apply matches_cons in M as (a & b & A & B & ->). exists b. split; [done|].
    rewrite first_match_app, (variant_decides k _ _ _ _ _ _ _ _ RG V NE A).
    destruct (_ && _); [|done]. by destruct (group_decides assigned rule original G k).
Qed.

Lemma groups_decide k rule g assigned original G ms :
  ru_GroupID rule = Some g →
  policyAllocationMatches rule (family_match G "ip" ++ family_match G "ip6") assigned original = Ok ms →
  first_match k rule original ms
  = if peer_ok rule original k then group_decides assigned rule original G k else None.
Proof.
  intros RG M. destruct (family_decides k _ _ _ _ _ "ip" _ _ RG ltac:(done) M) as (ms1 & M1 & ->).
  rewrite <- (app_nil_r (family_match G "ip6")) in M1.
  destruct (family_decides k _ _ _ _ _ "ip6" _ _ RG ltac:(done) M1) as (ms2 & M2 & ->).
  injection M2 as <-. cbn [first_match].
  assert (N : pk_ether k ≠ "ip"%string → pk_ether k ≠ "ip6"%string →
              group_decides assigned rule original G k = None).
  { intros N4 N6. apply no_member. intros q. apply not_true_iff_false. intros []%has_port_family; done. }
  case_bool_decide as E4; case_bool_decide as E6; destruct (peer_ok rule original k); cbn [andb]; try done;
    try by destruct (group_decides assigned rule original G k).
  by rewrite N.
Qed.

(** A rule seen with a transport protocol. *)
Lemma rule_decision_proto p assigned original k rule proto :
  is_l4 proto → seen_proto k original = Some proto →
  rule_decision p assigned original k rule
  = if (bool_decide (ru_Protocol rule = "both"%string) || bool_decide (ru_Protocol rule = proto))
       && peer_ok rule original k
    then match ru_GroupID rule with
         | None => Some (bool_decide (ru_Action rule = "allow"%string))
         | Some g => group_decides assigned rule original (group_allocations p g proto assigned) k
         end
    else None.
Proof.
  intros L S. unfold rule_decision, is_l4 in *. rewrite S. cbn. rewrite (bool_decide_eq_true_2 _ L). cbn [andb].
  by rewrite (bool_decide_or (ru_Protocol rule = "both"%string)).
Qed.

Lemma family_match_family G family :
  family = "ip"%string ∨ family = "ip6"%string → Forall is_family (family_match G family).
Proof.
  intros F. destruct (family_match_spec G family) as [[-> _]|(v & -> & V)]; [done|].
  apply list.Forall_singleton. unfold is_family. rewrite (vo_family _ _ _ V). tauto.
Qed.

Lemma add_proto_spec table p rule assigned original proto d b d' b' :
  is_l4 proto → add_proto_rules table p rule assigned original proto (d, b) = Ok (d', b') →
  ∃ rs, d' = d ++ map (NRule table (if original then origin_chain (ru_Direction rule) else ru_Direction rule)) rs ∧
    ∀ sub k, first_effect sub k rs
      = if bool_decide (seen_proto k original = Some proto)
        then verdict_of <$> rule_decision p assigned original k rule else None.
Proof.
  intros L. unfold add_proto_rules. set (chain := if original then _ else _).
  destruct (negb _ && negb _) eqn:X; rewrite <- negb_orb in X.
  { apply negb_true_iff in X. intros [= <- <-]. exists []. split; [by rewrite app_nil_r|]. intros sub k. cbn.
    destruct (bool_decide (seen_proto k original = Some proto)) eqn:S; [|done].
    apply bool_decide_eq_true in S. by rewrite (rule_decision_proto _ _ _ _ _ _ L S), X. }
  apply negb_false_iff in X.
  destruct (ru_GroupID rule) as [g|] eqn:RG.
  - destruct (resolvedMatches p g proto assigned) as [vs|] eqn:RM; cbn; [|done].
    apply resolvedMatches_spec in RM. set (G := group_allocations p g proto assigned) in *.
    assert (FV : Forall is_family vs).
    { rewrite RM. apply Forall_app. split; apply family_match_family; auto. }
    assert (DR : ∀ k ms, policyAllocationMatches rule vs assigned original = Ok ms →
      seen_proto k original = Some proto → first_match k rule original ms = rule_decision p assigned original k rule).
    { intros k ms M S. rewrite RM in M. rewrite (groups_decide k _ _ _ _ _ _ RG M).
      by rewrite (rule_decision_proto _ _ _ _ _ _ L S), X, RG. }
    destruct (bool_decide (vs = [])) eqn:EV; [apply bool_decide_eq_true in EV|].
    + intros [= <- <-]. exists []. split; [by rewrite app_nil_r|]. intros sub k. cbn. destruct (bool_decide (seen_proto k original = Some proto)) eqn:S; [|done].
    apply bool_decide_eq_true in S.
      rewrite <- (DR k [] ltac:(by rewrite EV) S). done.
    + destruct (spend vs b) as [b1|]; cbn; [|done].
      destruct (if bool_decide _ then _ else _) as [[]|]; cbn; [|done].
      destruct (policyAllocationMatches rule vs assigned original) as [ms|] eqn:M; cbn; [|done].
      destruct (match_rules table chain rule proto original ms d) as [d1|] eqn:R; cbn; [|done]. intros [= -> ->].
      apply match_rules_spec in R as (rs & -> & R); [|done|by eapply matches_family].
      exists rs. split; [done|]. intros sub k. rewrite R. destruct (bool_decide (seen_proto k original = Some proto)) eqn:S; [|done].
      apply bool_decide_eq_true in S.
      by rewrite (DR k ms).
  - destruct (policyAllocationMatches rule [no_match] assigned original) as [ms|] eqn:M; cbn; [|done].
    destruct (match_rules table chain rule proto original ms d) as [d1|] eqn:R; cbn; [|done]. intros [= -> ->].
    apply match_rules_spec in R as (rs & -> & R); [|done|].
    2:{ eapply matches_family; [|done]. repeat constructor. }
    exists rs. split; [done|]. intros sub k. rewrite R. destruct (bool_decide (seen_proto k original = Some proto)) eqn:S; [|done].
      apply bool_decide_eq_true in S.
    rewrite (groupless_decides k _ _ _ _ RG M), (rule_decision_proto _ _ _ _ _ _ L S), X, RG. done.
Qed.

Lemma add_policy_spec table p rule assigned original d b d' b' :
  addPolicyRule table p rule assigned original (d, b) = Ok (d', b') →
  ∃ rs, d' = d ++ map (NRule table (if original then origin_chain (ru_Direction rule) else ru_Direction rule)) rs ∧
    ∀ sub k, first_effect sub k rs = verdict_of <$> rule_decision p assigned original k rule.
Proof.
  unfold addPolicyRule.
  destruct (add_proto_rules _ _ _ _ _ "tcp" _) as [[d1 b1]|] eqn:T; cbn [mbind result_bind]; [|done]. intros U.
  apply add_proto_spec in T as (r1 & -> & E1); [|by left]. apply add_proto_spec in U as (r2 & -> & E2); [|by right].
  exists (r1 ++ r2). split; [by rewrite map_app, app_assoc|]. intros sub k.
  rewrite first_effect_app, E1, E2.
  destruct (decide (seen_proto k original = Some "tcp"%string)) as [S|N1].
  { rewrite (bool_decide_eq_true_2 _ S), (bool_decide_eq_false_2 (_ = Some "udp"%string)) by congruence.
    by destruct (rule_decision _ _ _ _ _). }
  rewrite (bool_decide_eq_false_2 _ N1).
  destruct (decide (seen_proto k original = Some "udp"%string)) as [S|N2]; [by rewrite (bool_decide_eq_true_2 _ S)|].
  rewrite (bool_decide_eq_false_2 _ N2). unfold rule_decision.
  destruct (seen_proto k original) as [proto|]; [|done]. cbn.
  by rewrite (bool_decide_eq_false_2 (proto = "tcp"%string ∨ proto = "udp"%string)) by naive_solver.
Qed.

(** ** Chains of a document *)

Lemma chain_rules_app d1 d2 c : chain_rules (d1 ++ d2) c = chain_rules d1 c ++ chain_rules d2 c.
Proof. apply omap_app. Qed.
Lemma base_chains_app d1 d2 h : base_chains (d1 ++ d2) h = base_chains d1 h ++ base_chains d2 h.
Proof. apply omap_app. Qed.
Lemma chain_rules_map table c rs : chain_rules (map (NRule table c) rs) c = rs.
Proof. induction rs as [|r rs IH]; [done|]. cbn. rewrite bool_decide_eq_true_2 by done. cbn. by f_equal. Qed.
Lemma chain_rules_other table c c' rs : c ≠ c' → chain_rules (map (NRule table c) rs) c' = [].
Proof. intros N. induction rs as [|r rs IH]; [done|]. cbn. by rewrite bool_decide_eq_false_2. Qed.
Lemma base_chains_map table c rs h : base_chains (map (NRule table c) rs) h = [].
Proof. by induction rs. Qed.

Lemma origin_ne direction : direction ≠ origin_chain direction.
Proof.
  unfold origin_chain. induction direction as [|c s IH]; [done|]. intros E. injection E as E. by apply IH.
Qed.

(** The objects one direction adds only its own rules. *)
Record rules_of (p : Policy) (assigned : assignment) (direction : string) (rules : list Rule)
    (objs : nftDocument) : Prop := {
  ro_live sub k : first_effect sub k (chain_rules objs direction)
    = verdict_of <$> first_decision (rule_decision p assigned false k) (filter (λ r, ru_Direction r = direction) rules);
  ro_orig sub k : first_effect sub k (chain_rules objs (origin_chain direction))
    = verdict_of <$> first_decision (rule_decision p assigned true k) (filter (λ r, ru_Direction r = direction) rules);
  ro_other c : c ≠ direction → c ≠ origin_chain direction → chain_rules objs c = [];
  ro_base h : base_chains objs h = [];
}.

Lemma add_rules_spec table direction p assigned rules d b d' b' :
  add_rules table direction p assigned rules (d, b) = Ok (d', b') →
  ∃ objs, d' = d ++ objs ∧ rules_of p assigned direction rules objs.
Proof.
  revert d b. induction rules as [|rule rules IH]; intros d b A; cbn [add_rules] in A.
  - injection A as <- <-. exists []. split; [by rewrite app_nil_r | by split].
  - case_bool_decide as D; [|destruct (IH _ _ A) as (objs & -> & R)].
    + destruct (addPolicyRule _ _ _ _ false _) as [[d1 b1]|] eqn:T1; cbn [mbind result_bind] in A; [|done].
      destruct (addPolicyRule _ _ _ _ true _) as [[d2 b2]|] eqn:T2; cbn [mbind result_bind] in A; [|done].
      apply add_policy_spec in T1 as (r1 & -> & E1), T2 as (r2 & -> & E2).
      destruct (IH _ _ A) as (objs & -> & R). rewrite D in *. pose proof (origin_ne direction) as ON.
      exists (map (NRule table direction) r1 ++ map (NRule table (origin_chain direction)) r2 ++ objs).
      split; [by rewrite !app_assoc|]. split.
      * intros sub k. rewrite filter_cons_True, !chain_rules_app, chain_rules_map, chain_rules_other, first_effect_app, E1 by done.
        cbn [app first_decision]. rewrite (ro_live _ _ _ _ _ R).
        by destruct (rule_decision p assigned false k rule).
      * intros sub k. rewrite filter_cons_True, !chain_rules_app, chain_rules_map, chain_rules_other by done.
        cbn [app first_decision]. rewrite first_effect_app, E2. rewrite (ro_orig _ _ _ _ _ R).
        by destruct (rule_decision p assigned true k rule).
      * intros c N1 N2. by rewrite !chain_rules_app, !chain_rules_other, (ro_other _ _ _ _ _ R).
      * intros h. by rewrite !base_chains_app, !base_chains_map, (ro_base _ _ _ _ _ R).
    + exists objs. split; [done|]. destruct R as [L O X B].
      split; [| |exact X|exact B]; intros sub k; rewrite filter_cons_False by done; [apply L | apply O].
Qed.

(** ** The fixed rules *)

Lemma run_cons sub k s l :
  is_match s = true → run_stmts sub k (s :: l) = if holds k s then run_stmts sub k l else Next.
Proof. by destruct s. Qed.
(** Unfolds the conditions of explicit rules. *)
Ltac run_conds :=
  repeat match goal with
  | |- context [run_stmts ?sub ?k (?s :: ?l)] =>
      lazymatch eval hnf in s with Match _ _ _ => rewrite (run_cons sub k s l eq_refl) end
  end.

Lemma holds_strings k e v l :
  left_value k e = Some (VScalar (SStr v)) → holds k (match_ e (strings l)) = bool_decide (v ∈ l).
Proof.
  intros E. rewrite match_eq, E. unfold strings. rewrite right_set. apply bool_decide_ext.
  rewrite list_elem_of_fmap. naive_solver.
Qed.
Lemma holds_frag4 k :
  holds k (match_ne (BitAnd (Payload "ip" "frag-off") (SInt 16383)) (RScalar (SInt 0)))
  = bool_decide (pk_ether k = "ip"%string) && negb (Z.land (pk_frag_off k) 16383 =? 0).
Proof.
  unfold holds, match_ne, match_holds. cbn. destruct (bool_decide (pk_ether k = "ip"%string)); [|done].
  cbn -[Z.land]. by rewrite right_scalar, sint_eq.
Qed.
Lemma holds_frag6 k :
  holds k (match_ (Exthdr "frag") (RScalar (SBool true))) = bool_decide (pk_ether k = "ip6"%string) && pk_frag k.
Proof.
  rewrite match_eq. cbn. destruct (bool_decide (pk_ether k = "ip6"%string)); [|done].
  cbn. rewrite right_scalar. by destruct (pk_frag k).
Qed.
Lemma holds_hop k :
  holds k (match_ (Payload "ip6" "hoplimit") (RScalar (SInt 255)))
  = bool_decide (pk_ether k = "ip6"%string) && (pk_hoplimit k =? 255).
Proof.
  rewrite match_eq. cbn. destruct (bool_decide (pk_ether k = "ip6"%string)); [|done].
  cbn. by rewrite right_scalar, sint_eq.
Qed.
Lemma holds_icmp k proto l4 l :
  (proto, l4) = ("icmp", "icmp")%string ∨ (proto, l4) = ("icmpv6", "ipv6-icmp")%string →
  holds k (match_ (Payload proto "type") (strings l))
  = bool_decide (pk_l4 k = l4) && bool_decide (pk_icmp_type k ∈ l).
Proof.
  intros [[= -> ->]|[= -> ->]];
    match goal with |- _ = bool_decide (pk_l4 k = ?l4) && _ => destruct (decide (pk_l4 k = l4)) as [E|E] end;
    rewrite ?(bool_decide_eq_true_2 _ E), ?(bool_decide_eq_false_2 _ E); cbn [andb].
  1,3: apply holds_strings; cbn; by rewrite E.
  all: rewrite match_eq; cbn; by rewrite (bool_decide_eq_false_2 _ E).
Qed.
Lemma holds_ct k key v s :
  (∀ c, ct_value c key = Some (SStr (v c))) →
  holds k (match_ (CtKey key) (RScalar (SStr s)))
  = match pk_ct k with None => false | Some c => bool_decide (v c = s) end.
Proof.
  intros V. rewrite match_eq. cbn. destruct (pk_ct k) as [c|]; cbn; [|done]. rewrite V. cbn.
  by rewrite right_scalar, sstr_eq.
Qed.
Lemma holds_confirmed k :
  holds k (matchCTStatus "confirmed")
  = match pk_ct k with None => false | Some c => bool_decide ("confirmed"%string ∈ cn_status c) end.
Proof.
  unfold matchCTStatus, ct_status. rewrite match_eq. cbn. destruct (pk_ct k) as [c|]; cbn; [|done].
  rewrite right_scalar. by destruct (bool_decide (_ ∈ cn_status c)).
Qed.

Lemma fragment_effect sub k cs :
  forallb is_match cs = true →
  first_effect sub k (map (app cs) fragment_rules)
  = if forallb (holds k) cs && is_fragment k then Some Drop else None.
Proof.
  intros M. unfold is_fragment, fragment_rules. cbn [map first_effect].
  rewrite !(run_stmts_app sub k cs) by done. destruct (forallb (holds k) cs); [|done]. cbn [andb].
  run_conds. rewrite !holds_ether, holds_frag4, holds_frag6.
  destruct (bool_decide (pk_ether k = "ip"%string)), (bool_decide (pk_ether k = "ip6"%string)),
    (negb (Z.land (pk_frag_off k) 16383 =? 0)), (pk_frag k); reflexivity.
Qed.

Lemma control_effect sub k :
  first_effect sub k control_rules
  = if bool_decide (pk_ether k = "arp"%string) then Some Return
    else if is_fragment k then Some Drop else if is_ndp k then Some Return else None.
Proof.
  unfold control_rules. cbn [first_effect]. run_conds. rewrite holds_ether. destruct (bool_decide (pk_ether k = "arp"%string)); [done|].
  pose proof (fragment_effect sub k [] eq_refl) as FE.
  change (map (app []) fragment_rules) with fragment_rules in FE. rewrite first_effect_app, FE. cbn [forallb andb]. destruct (is_fragment k); [done|].
  cbn [first_effect]. run_conds. rewrite holds_ether, holds_l4, holds_hop, (holds_icmp k "icmpv6" "ipv6-icmp") by auto.
  unfold is_ndp. destruct (bool_decide (pk_ether k = _)), (bool_decide (pk_l4 k = _)), (pk_hoplimit k =? 255),
    (bool_decide (pk_icmp_type k ∈ _)); reflexivity.
Qed.

(** The rules for replies and related errors. *)
Definition reply_rules (table direction : string) : list (list stmt) :=
  chain_rules (addRelatedICMPRules table direction (addEstablishedReplies table direction [])) direction.
Definition fallback_rules (action : string) : list (list stmt) :=
  (if bool_decide (action = "allow"%string)
   then [[match_ ether_type (strings ["ip"; "ip6"]); Verdict "return"]] else [])%string
  ++ [[Verdict "drop"%string]].

Lemma fallback_run sub k p direction :
  run_rules sub k (fallback_rules (fallback p direction)) = verdict_of (default_allowed p direction k).
Proof.
  unfold fallback_rules, default_allowed. change (default_action _ direction) with (fallback p direction).
  destruct (bool_decide (_ = "allow"%string)); [|done].
  cbn [app run_rules andb]. run_conds. rewrite (holds_strings k _ (pk_ether k)) by done. unfold ip_packet.
  rewrite (bool_decide_ext (pk_ether k ∈ _) (pk_ether k = "ip"%string ∨ pk_ether k = "ip6"%string)) by set_solver.
  by destruct (bool_decide _).
Qed.

Lemma established_holds k :
  forallb (holds k)
    [match_ ether_type (strings ["ip"; "ip6"]); match_ (Meta "l4proto") (strings ["tcp"; "udp"]);
     match_ (CtKey "state") (RScalar (SStr "established")); match_ (CtKey "direction") (RScalar (SStr "reply"));
     matchCTStatus "confirmed"]%string
  = established_reply k.
Proof.
  cbn [forallb]. rewrite (holds_strings k _ (pk_ether k)), (holds_strings k _ (pk_l4 k)) by done.
  rewrite (holds_ct k "state" cn_state), (holds_direction k true), holds_confirmed by done.
  unfold established_reply, ip_packet.
  rewrite (bool_decide_ext (pk_ether k ∈ _) (pk_ether k = "ip"%string ∨ pk_ether k = "ip6"%string)) by set_solver.
  rewrite <- !andb_assoc. do 2 f_equal. destruct (pk_ct k) as [c|]; [|done]. rewrite andb_true_r.
  by destruct (cn_reply c), (bool_decide (cn_state c = _)).
Qed.

Lemma related_holds k (reply : bool) ether proto l4 types :
  (proto, l4) = ("icmp", "icmp")%string ∨ (proto, l4) = ("icmpv6", "ipv6-icmp")%string →
  forallb (holds k)
    [is_ether ether; l4proto l4; match_ (Payload proto "type") (strings types);
     match_ (CtKey "state") (RScalar (SStr "related"));
     match_ (CtKey "direction") (RScalar (SStr (if reply then "reply" else "original")))]%string
  = bool_decide (pk_ether k = ether) && bool_decide (pk_l4 k = l4) && bool_decide (pk_icmp_type k ∈ types)
    && match pk_ct k with
       | None => false
       | Some c => bool_decide (cn_state c = "related"%string) && Bool.eqb (cn_reply c) reply
       end.
Proof.
  intros P. cbn [forallb]. rewrite holds_ether, holds_l4, (holds_icmp k _ _ _ P), (holds_ct k "state" cn_state) by done.
  rewrite holds_direction. destruct (pk_ct k); rewrite ?andb_true_r, ?andb_false_r;
    destruct (bool_decide (pk_ether k = ether)), (bool_decide (pk_l4 k = l4)), (bool_decide (pk_icmp_type k ∈ types)); done.
Qed.

(** The reply rules, spelled out. *)
Definition goto_rules (sub : string → packet → verdict) (k : packet) (l : list (list stmt * string)) (rest : verdict)
    : verdict :=
  foldr (λ r acc, if forallb (holds k) (fst r) then sub (snd r) k else acc) rest l.
Lemma goto_run sub k (l : list (list stmt * string)) rest :
  Forall (λ r : list stmt * string, forallb is_match (fst r) = true) l →
  run_rules sub k (map (λ r : list stmt * string, fst r ++ [Goto (snd r)]) l ++ rest)
  = goto_rules sub k l (run_rules sub k rest).
Proof.
  induction 1 as [|[cs t] l M F IH]; [done|]. cbn [map app run_rules fst snd]. rewrite run_stmts_app, IH by done.
  cbn [goto_rules foldr fst snd]. by destruct (forallb (holds k) cs).
Qed.
Definition reply_gotos (direction : string) : list (list stmt * string) :=
  ([match_ ether_type (strings ["ip"; "ip6"]); match_ (Meta "l4proto") (strings ["tcp"; "udp"]);
    match_ (CtKey "state") (RScalar (SStr "established")); match_ (CtKey "direction") (RScalar (SStr "reply"));
    matchCTStatus "confirmed"]%string, origin_chain (opposite direction))
  :: flat_map (λ reply : bool,
       let t := origin_chain (if reply then opposite direction else direction) in
       let related := [match_ (CtKey "state") (RScalar (SStr "related"));
         match_ (CtKey "direction") (RScalar (SStr (if reply then "reply" else "original")))]%string in
       [ ([is_ether "ip"; l4proto "icmp";
           match_ (Payload "icmp" "type") (strings ["destination-unreachable"; "time-exceeded"; "parameter-problem"])]%string
          ++ related, t);
         ([is_ether "ip6"; l4proto "ipv6-icmp";
           match_ (Payload "icmpv6" "type")
            (strings ["destination-unreachable"; "packet-too-big"; "time-exceeded"; "parameter-problem"])]%string
          ++ related, t) ]) [false; true].

Lemma reply_run sub k table direction rest :
  direction = "outbound"%string ∨ direction = "inbound"%string →
  run_rules sub k (reply_rules table direction ++ rest)
  = if established_reply k then sub (origin_chain (opposite direction)) k
    else if related_error k false then sub (origin_chain direction) k
    else if related_error k true then sub (origin_chain (opposite direction)) k
    else run_rules sub k rest.
Proof.
  intros D.
  assert (RR : reply_rules table direction
             = map (λ r : list stmt * string, fst r ++ [Goto (snd r)]) (reply_gotos direction))
    by (by destruct D as [-> | ->]).
  rewrite RR, goto_run by (repeat (apply list.Forall_cons; split; [done|]); done).
  unfold reply_gotos. cbn [flat_map app goto_rules foldr fst snd]. rewrite established_holds.
  rewrite (related_holds k false "ip" "icmp" "icmp"), (related_holds k false "ip6" "icmpv6" "ipv6-icmp"),
    (related_holds k true "ip" "icmp" "icmp"), (related_holds k true "ip6" "icmpv6" "ipv6-icmp") by auto.
  unfold related_error, icmp_error. destruct (established_reply k); [done|].
  rewrite !andb_orb_distrib_l.
  repeat match goal with |- context [(if ?a || ?b then ?x else ?y)] =>
    replace (if a || b then x else y) with (if a then x else if b then x else y) by (by destruct a) end.
  reflexivity.
Qed.

(** ** The whole table *)

Definition hook_of (direction : string) : string :=
  if bool_decide (direction = "inbound"%string) then "postrouting" else "prerouting".
Definition hook_rule (bridge direction : string) : list stmt :=
  [match_ (Meta (if bool_decide (direction = "inbound"%string) then "obrname" else "ibrname")%string)
     (RScalar (SStr bridge)); Jump direction].

(** What a direction adds to the document of an enabled firewall. *)
Record direction_of (p : Policy) (assigned : assignment) (table bridge direction : string)
    (rules : list Rule) (objs : nftDocument) : Prop := {
  do_main : ∃ live, chain_rules objs direction
                    = control_rules ++ live ++ reply_rules table direction ++ fallback_rules (fallback p direction)
    ∧ ∀ sub k, first_effect sub k live
        = verdict_of <$> first_decision (rule_decision p assigned false k)
                           (filter (λ r, ru_Direction r = direction) rules);
  do_orig : ∃ orig, chain_rules objs (origin_chain direction) = orig ++ fallback_rules (fallback p direction)
    ∧ ∀ sub k, first_effect sub k orig
        = verdict_of <$> first_decision (rule_decision p assigned true k)
                           (filter (λ r, ru_Direction r = direction) rules);
  do_hook : chain_rules objs (hook_name direction) = [hook_rule bridge direction];
  do_other c : c ≠ direction → c ≠ origin_chain direction → c ≠ hook_name direction → chain_rules objs c = [];
  do_base h : base_chains objs h = if bool_decide (hook_of direction = h) then [hook_name direction] else [];
}.

Definition two_ways (direction : string) : Prop := direction = "outbound"%string ∨ direction = "inbound"%string.

Lemma add_fallback_app table chain action d :
  add_fallback table chain action d = d ++ map (NRule table chain) (fallback_rules action).
Proof. unfold add_fallback, fallback_rules, addRule. case_bool_decide; cbn; by rewrite <- ?app_assoc. Qed.
Lemma reply_app table direction d :
  two_ways direction →
  addRelatedICMPRules table direction (addEstablishedReplies table direction d)
  = d ++ map (NRule table direction) (reply_rules table direction).
Proof.
  intros D. unfold addRelatedICMPRules, related_rules, addEstablishedReplies, addRule. rewrite <- !app_assoc.
  f_equal. by destruct D as [-> | ->].
Qed.

Lemma compile_enabled table bridge p assigned rules direction d b d' b' :
  two_ways direction → fw_Enabled (rs_Firewall (po_Body p)) = true →
  compile_direction table bridge p assigned false rules direction (d, b) = Ok (d', b') →
  ∃ objs, d' = d ++ objs ∧ direction_of p assigned table bridge direction rules objs.
Proof.
  intros D EN. unfold compile_direction. rewrite EN. cbn [negb fst snd].
  destruct (add_rules _ _ _ _ _ _) as [[d1 b1]|] eqn:A; cbn [mbind result_bind]; [|done]. intros [= <- <-].
  apply add_rules_spec in A as (objs & -> & [RL RO RX RB]).
  rewrite !add_fallback_app, reply_app by done. unfold direction_chains. rewrite <- !app_assoc.
  eexists. split; [reflexivity|].
  set (m := map _ control_rules).
  split.
  - exists (chain_rules objs direction). split; [|done]. unfold m.
    rewrite !chain_rules_app, !chain_rules_map, chain_rules_other by (apply not_eq_sym, origin_ne).
    rewrite app_nil_r. by destruct D as [-> | ->].
  - exists (chain_rules objs (origin_chain direction)). split; [|done]. unfold m.
    rewrite !chain_rules_app, !chain_rules_map, !chain_rules_other by (apply origin_ne).
    rewrite !app_nil_l. by destruct D as [-> | ->].
  - unfold m. rewrite !chain_rules_app, !chain_rules_other, RX by (by destruct D as [-> | ->]).
    by destruct D as [-> | ->].
  - intros c N1 N2 N3. unfold m. rewrite !chain_rules_app, !chain_rules_other, RX by done.
    rewrite !app_nil_r. cbn. by rewrite bool_decide_eq_false_2.
  - intros h. unfold m. rewrite !base_chains_app, !base_chains_map, RB, !app_nil_r. cbn.
    unfold hook_of. by destruct (bool_decide (_ = h)).
Qed.

Definition on_bridge (direction : string) (k : packet) : string :=
  if bool_decide (direction = "inbound"%string) then pk_obr k else pk_ibr k.

Lemma hook_run sub k bridge direction :
  two_ways direction →
  run_rules sub k [hook_rule bridge direction]
  = if bool_decide (on_bridge direction k = bridge) then sub direction k else Return.
Proof.
  intros D. unfold hook_rule. cbn [run_rules]. run_conds. rewrite match_eq. unfold on_bridge.
  destruct D as [-> | ->];
    rewrite ?(bool_decide_eq_false_2 ("outbound"%string = "inbound"%string)),
      ?(bool_decide_eq_true_2 ("inbound"%string = "inbound"%string)) by done;
    cbn; rewrite right_scalar, sstr_eq; destruct (bool_decide _); try done; cbn; by destruct (sub _ k).
Qed.

Section Compiled.
Context `{UUIDs}.

Lemma names_of_compiled id p assigned gate d :
  compileRuleset id p assigned gate = Ok d → ∃ net bridge table, Names id = Some (net, bridge, table).
Proof. unfold compileRuleset. destruct (Names id) as [[[net bridge] table]|]; [by eauto | done]. Qed.

(** The document of an enabled firewall: a preamble and the two directions. *)
Record enabled_doc (p : Policy) (assigned : assignment) (table bridge : string) (d : nftDocument) : Prop := {
  ed_of direction : two_ways direction →
    ∃ objs, direction_of p assigned table bridge direction (OrderedRules p) objs
      ∧ chain_rules d direction = chain_rules objs direction
      ∧ chain_rules d (origin_chain direction) = chain_rules objs (origin_chain direction)
      ∧ chain_rules d (hook_name direction) = chain_rules objs (hook_name direction);
  ed_fragments : chain_rules d "outbound_fragments"
    = map (app [match_ (Meta "ibrname") (RScalar (SStr bridge))]) fragment_rules;
  ed_base direction : two_ways direction → base_chains d (hook_of direction)
    = (if bool_decide (direction = "outbound"%string) then ["outbound_fragments"%string] else [])
      ++ [hook_name direction];
}.

Lemma compiled_enabled id p assigned d net bridge table :
  Names id = Some (net, bridge, table) → fw_Enabled (rs_Firewall (po_Body p)) = true →
  compileRuleset id p assigned false = Ok d → enabled_doc p assigned table bridge d.
Proof.
  intros NM EN. unfold compileRuleset. rewrite NM, EN. cbn [negb andb].
  destruct (compile_direction _ _ _ _ _ _ "outbound" _) as [[d1 b1]|] eqn:C1; cbn [mbind result_bind]; [|done].
  destruct (compile_direction _ _ _ _ _ _ "inbound" _) as [[d2 b2]|] eqn:C2; cbn [mbind result_bind]; [|done].
  intros [= <-]. cbn [fst].
  apply compile_enabled in C1 as (o & -> & O); [|by left|done].
  apply compile_enabled in C2 as (i & -> & I); [|by right|done].
  unfold enabled_chains.
  split.
  - intros direction [-> | ->]; [exists o | exists i]; (split; [done|]);
      repeat split; rewrite !chain_rules_app;
      rewrite ?(do_other _ _ _ _ _ _ _ O), ?(do_other _ _ _ _ _ _ _ I) by done; cbn; by rewrite ?app_nil_r.
  - rewrite !chain_rules_app, (do_other _ _ _ _ _ _ _ O), (do_other _ _ _ _ _ _ _ I) by done. reflexivity.
  - intros direction [-> | ->];
      rewrite !base_chains_app, (do_base _ _ _ _ _ _ _ O), (do_base _ _ _ _ _ _ _ I); reflexivity.
Qed.

(** The two directions of a gate or a disabled firewall hold one verdict. *)
Lemma compiled_plain id p assigned gate d net bridge table direction :
  Names id = Some (net, bridge, table) → gate = true ∨ fw_Enabled (rs_Firewall (po_Body p)) = false →
  two_ways direction → compileRuleset id p assigned gate = Ok d →
  chain_rules d direction = [[Verdict (if gate then "drop" else "return")%string]]
  ∧ chain_rules d (hook_name direction) = [hook_rule bridge direction]
  ∧ base_chains d (hook_of direction) = [hook_name direction].
Proof.
  intros NM G D. unfold compileRuleset, compile_direction. rewrite NM.
  destruct gate; [|destruct G as [?|EN]; [done|rewrite EN]]; intros [= <-]; by destruct D as [-> | ->].
Qed.

Lemma main_run p assigned table bridge d direction k fuel :
  enabled_doc p assigned table bridge d → two_ways direction →
  run_chain (S (S fuel)) d direction k = verdict_of (packet_allowed p assigned direction k).
Proof.
  intros E D.
  assert (OR : ∀ dir, two_ways dir → run_chain (S fuel) d (origin_chain dir) k = verdict_of (origin_allowed p assigned dir k)).
  { intros dir D'. destruct (ed_of _ _ _ _ _ E dir D') as (objs & O & _ & RO & _). cbn [run_chain]. rewrite RO.
    destruct (do_orig _ _ _ _ _ _ _ O) as (orig & -> & FE). rewrite run_rules_first, FE, fallback_run.
    unfold origin_allowed, directed. by destruct (first_decision _ _). }
  destruct (ed_of _ _ _ _ _ E direction D) as (objs & O & RM & _). cbn [run_chain]. rewrite RM.
  destruct (do_main _ _ _ _ _ _ _ O) as (live & -> & FE).
  set (sub := λ c k', run_rules (run_chain fuel d) k' (chain_rules d c)).
  change (λ chain k0, run_rules (run_chain fuel d) k0 (chain_rules d chain)) with sub.
  rewrite run_rules_first, control_effect. unfold packet_allowed.
  destruct (bool_decide (pk_ether k = "arp"%string)); [done|]. destruct (is_fragment k); [done|].
  destruct (is_ndp k); [done|]. rewrite run_rules_first, FE. unfold directed.
  destruct (first_decision _ _) as [b|]; [done|]. cbn [fmap option_fmap option_map].
  rewrite reply_run, fallback_run by done.
  assert (D' : two_ways (opposite direction)) by (destruct D as [-> | ->]; [by right | by left]).
  change (sub (origin_chain direction) k) with (run_chain (S fuel) d (origin_chain direction) k).
  change (sub (origin_chain (opposite direction)) k) with (run_chain (S fuel) d (origin_chain (opposite direction)) k).
  rewrite !OR by done. by destruct (established_reply k), (related_error k false), (related_error k true).
Qed.

Lemma fragments_run p assigned table bridge d k fuel :
  enabled_doc p assigned table bridge d →
  run_chain (S fuel) d "outbound_fragments" k
  = if bool_decide (pk_ibr k = bridge) && is_fragment k then Drop else Return.
Proof.
  intros E. cbn [run_chain]. rewrite (ed_fragments _ _ _ _ _ E).
  rewrite <- (app_nil_r (map _ _)), run_rules_first, fragment_effect by done. cbn [forallb].
  rewrite match_eq. cbn. rewrite right_scalar, sstr_eq, andb_true_r. by destruct (_ && _).
Qed.

Lemma fragment_not_allowed p assigned direction k :
  is_fragment k = true → packet_allowed p assigned direction k = false.
Proof.
  intros F. unfold packet_allowed. rewrite F. case_bool_decide as E; [|done].
  unfold is_fragment in F. by rewrite E in F.
Qed.

Lemma compiled_decides id p assigned gate d net bridge table direction k :
  Names id = Some (net, bridge, table) → compileRuleset id p assigned gate = Ok d →
  direction = "outbound"%string ∨ direction = "inbound"%string →
  table_accepts d (hook_of direction) k
  = if bool_decide (on_bridge direction k = bridge) then bridge_allowed p assigned gate direction k else true.
Proof.
  intros NM C D. unfold table_accepts, bridge_allowed.
  destruct (decide (gate = true ∨ fw_Enabled (rs_Firewall (po_Body p)) = false)) as [G|G].
  - destruct (compiled_plain _ _ _ _ _ _ _ _ _ NM G D C) as (RM & RH & ->).
    cbn [forallb run_chain]. rewrite RH, hook_run, andb_true_r by done. cbn [run_chain]. rewrite RM.
    destruct (bool_decide (on_bridge direction k = bridge)); [|done].
    destruct gate; [done|]. destruct G as [?|EN]; [done|]. by rewrite EN.
  - assert (gate = false) as -> by (destruct gate; tauto).
    assert (EN : fw_Enabled (rs_Firewall (po_Body p)) = true)
      by (destruct (fw_Enabled (rs_Firewall (po_Body p))); tauto).
    rewrite EN. pose proof (compiled_enabled _ _ _ _ _ _ _ NM EN C) as E.
    rewrite (ed_base _ _ _ _ _ E direction D), forallb_app. cbn [forallb]. rewrite andb_true_r.
    assert (HR : run_chain 3 d (hook_name direction) k
                 = if bool_decide (on_bridge direction k = bridge)
                   then verdict_of (packet_allowed p assigned direction k) else Return).
    { destruct (ed_of _ _ _ _ _ E direction D) as (objs & O & _ & _ & RH).
      rewrite <- (main_run _ _ _ _ _ _ k 0 E D).
      change (run_chain 3 d (hook_name direction) k)
        with (run_rules (run_chain 2 d) k (chain_rules d (hook_name direction))). rewrite RH, (do_hook _ _ _ _ _ _ _ O).
      by apply hook_run. }
    rewrite HR. assert (AV : ∀ b : bool, bool_decide (verdict_of b = Return) = b) by (by intros []).
    destruct D as [-> | ->].
    + change (forallb _ (if bool_decide ("outbound"%string = "outbound"%string) then _ else _))
        with (bool_decide (run_chain 3 d "outbound_fragments" k = Return) && true).
      rewrite (fragments_run _ _ _ _ _ _ _ E). change (on_bridge "outbound" k) with (pk_ibr k).
      destruct (bool_decide (pk_ibr k = bridge)); [|done]. rewrite AV. cbn [andb].
      destruct (is_fragment k) eqn:F; [by rewrite fragment_not_allowed | done].
    + change (forallb _ (if bool_decide ("inbound"%string = "outbound"%string) then _ else _)) with true.
      destruct (bool_decide (on_bridge "inbound" k = bridge)); [by rewrite AV | done].
Qed.

(** C6: the compiled table decides, for every packet and in both directions, exactly what
    the policy means: a packet of another bridge is not touched; on the server's bridge a
    gate drops everything, a disabled firewall nothing, and an enabled one lets ARP and
    neighbour discovery through, drops fragments, takes the first rule of the policy's
    order that applies, judges established replies and related ICMP errors by the rules
    for the flow they belong to, and falls back to the direction's default. *)
Theorem compileRuleset_decides id p assigned gate d net bridge table direction k :
  Names id = Some (net, bridge, table) → compileRuleset id p assigned gate = Ok d →
  direction = "outbound"%string ∨ direction = "inbound"%string →
  table_accepts d (hook_of direction) k
  = if bool_decide (on_bridge direction k = bridge) then bridge_allowed p assigned gate direction k else true.
Proof. apply compiled_decides. Qed.
End Compiled.

(** ** An example *)

#[local] Instance ex_uuids : UUIDs := {| uuid_canonical id := strlen id =? 36 |}.
Definition ex_id : string := "3c0b5a4e-8f5d-4c1b-9a55-0f6f4f1f2a11".
Definition ex_allocations : list Allocation :=
  [mkAllocation 1 "203.0.113.5" 25565; mkAllocation 2 "203.0.113.6" 25565; mkAllocation 3 "203.0.113.5" 8080].
Definition ex_assigned : assignment :=
  {[ "203.0.113.5" := [25565; 8080]; "203.0.113.6" := [25565] ]}%string.
Definition ex_policy : Policy :=
  mkPolicy 1 7 EmptyString (Some ex_allocations)
    (Some [mkResolved "game" "both" (Some [mkAllocation 1 "203.0.113.5" 25565; mkAllocation 3 "203.0.113.5" 8080])])
    (mkRules None
       (mkFirewall true "drop" "allow" None
          (Some [mkRule "deny" "deny" true None "inbound" "drop" "tcp" None (Some "198.51.100.0/24");
                 mkRule "game" "game" true None "inbound" "allow" "tcp" (Some "game") None]))
       (mkBandwidth 0 0))%string.
Definition ex_doc : nftDocument :=
  match compileRuleset ex_id ex_policy ex_assigned false with Ok d => d | Err _ => [] end.
(** A connection from 192.0.2.9 to 203.0.113.5:25565, translated to the container. *)
Definition ex_conn (status : list string) : conn :=
  mkConn "new" false status "tcp" (V4 3221226001) (V4 3405803781) 40000 25565.
Definition ex_packet (c : option conn) (port : Z) : packet :=
  mkPacket "br0" "nsm3c0b5a4e8f5d" "ip" (V4 2886729729) (V4 2886729730) 0 false 64 "tcp" 40000 port EmptyString c.
Definition ex_names : string * string * string :=
  ("wings-nsm-3c0b5a4e-8f5d-4c1b-9a55-0f6f4f1f2a11", "nsm3c0b5a4e8f5d",
   "wings_nsm_3c0b5a4e8f5d4c1b9a550f6f4f1f2a11")%string.

(** The translated connection is allowed; the same port reached directly is ambiguous
    between two addresses and is not. *)
Lemma compileRuleset_decides_witness :
  table_accepts ex_doc (hook_of "inbound") (ex_packet (Some (ex_conn ["dnat"; "confirmed"]%string)) 25565) = true
  ∧ table_accepts ex_doc (hook_of "inbound") (ex_packet (Some (ex_conn [])) 25565) = false
  ∧ table_accepts ex_doc (hook_of "inbound") (ex_packet (Some (ex_conn [])) 8080) = true.
Proof.
  assert (NM : Names ex_id = Some ex_names) by reflexivity.
  assert (C : compileRuleset ex_id ex_policy ex_assigned false = Ok ex_doc) by reflexivity.
  split; [|split].
  all: rewrite (compileRuleset_decides ex_id ex_policy ex_assigned false ex_doc _ _ _ "inbound" _ NM C (or_intror eq_refl)).
  all: vm_compute; reflexivity.
Defined.
