(* ===== verification/NftWf.v ===== *)
(** * Compiled tables are well formed

    nft applies the document in order: a rule needs its chain and every chain it jumps to
    before it, and a chain is added once.  [doc_wf] is that discipline as a typing of
    documents; whatever policy compiles, its document is well formed. *)

From stdpp Require Import base gmap sets list strings numbers sorting.
From S2P Require Import Prelude GoStrings Policy Nft NftFacts.
Open Scope Z_scope.

Definition chain_names (d : nftDocument) : list string :=
  omap (λ o, match o with NChain _ c _ => Some c | _ => None end) d.
Definition target (s : stmt) : option string :=
  match s with Jump t | Goto t => Some t | _ => None end.
(** Every chain named by the statements is declared. *)
Definition targets_in (cs : list string) (e : list stmt) : Prop := Forall (λ t, t ∈ cs) (omap target e).

Inductive doc_wf (table comment : string) : nftDocument → Prop :=
| wf_table : doc_wf table comment [NTable table comment]
| wf_chain d c h :
    doc_wf table comment d → c ∉ chain_names d → doc_wf table comment (d ++ [NChain table c h])
| wf_rule d c e :
    doc_wf table comment d → c ∈ chain_names d → targets_in (chain_names d) e →
    doc_wf table comment (d ++ [NRule table c e]).

Lemma wf_head table comment d : doc_wf table comment d → head d = Some (NTable table comment).
Proof. induction 1 as [|[] c h W IH|[] c e W IH]; done. Qed.

Section Documents.
Context (comment : string).

Lemma chain_names_app d1 d2 : chain_names (d1 ++ d2) = chain_names d1 ++ chain_names d2.
Proof. apply omap_app. Qed.
Lemma chain_names_rules table c rs : chain_names (map (NRule table c) rs) = [].
Proof. by induction rs. Qed.

(** [d'] is [d] with more rules. *)
Definition grows (table : string) (d d' : nftDocument) : Prop :=
  (doc_wf table comment d → doc_wf table comment d') ∧ chain_names d' = chain_names d.
#[global] Instance grows_preorder table : PreOrder (grows table).
Proof. split; [by split | intros d1 d2 d3 [W1 N1] [W2 N2]; split; [tauto | congruence]]. Qed.

Lemma grows_rule table c e d :
  c ∈ chain_names d → targets_in (chain_names d) e → grows table d (addRule table c e d).
Proof.
  intros C T. unfold addRule. split; [intros W; by apply wf_rule|].
  rewrite chain_names_app. cbn. by rewrite app_nil_r.
Qed.
Lemma grows_rules table c rs d :
  c ∈ chain_names d → Forall (targets_in (chain_names d)) rs → grows table d (d ++ map (NRule table c) rs).
Proof.
  intros C T. revert d C T. induction rs as [|r rs IH]; intros d C T; cbn.
  - by rewrite app_nil_r.
  - apply list.Forall_cons in T as [T1 T2]. pose proof (grows_rule table c r d C T1) as [W N].
    change (NRule table c r :: map (NRule table c) rs) with ([NRule table c r] ++ map (NRule table c) rs).
    rewrite app_assoc. unfold addRule in *. transitivity (d ++ [NRule table c r]); [by split|].
    apply IH; rewrite N; done.
Qed.
Lemma no_targets cs e : omap target e = [] → targets_in cs e.
Proof. unfold targets_in. by intros ->. Qed.

Lemma omap_path path original : omap target (path_stmts path original) = [].
Proof. unfold path_stmts. by repeat case_match. Qed.
Lemma omap_port rule proto m original : omap target (port_stmts rule proto m original) = [].
Proof. unfold port_stmts. repeat case_match; done. Qed.
Lemma omap_cidr rule m original l : cidr_stmts rule m original = Ok (Some l) → omap target l = [].
Proof. unfold cidr_stmts. repeat case_match; intros [= <-]; done. Qed.

Lemma match_rules_grows table chain rule proto original l d d' :
  chain ∈ chain_names d → match_rules table chain rule proto original l d = Ok d' → grows table d d'.
Proof.
  revert d. induction l as [|m l IH]; intros d C M; cbn in M; [by injection M as <-|].
  destruct (cidr_stmts rule m original) as [[peer|]|] eqn:P; cbn in M; [| |done].
  - match type of M with context [addRule table chain ?e d] =>
      assert (G : grows table d (addRule table chain e d)) end.
    { apply grows_rule; [done|]. apply no_targets. cbn.
      by rewrite !omap_app, omap_path, omap_port, (omap_cidr _ _ _ _ P). }
    etransitivity; [exact G|]. eapply IH; [|done]. by rewrite (proj2 G).
  - by eapply IH.
Qed.

Lemma add_proto_grows table p rule assigned (original : bool) proto d b d' b' :
  (if original then origin_chain (ru_Direction rule) else ru_Direction rule) ∈ chain_names d →
  add_proto_rules table p rule assigned original proto (d, b) = Ok (d', b') → grows table d d'.
Proof.
  intros C. unfold add_proto_rules. destruct (_ && _); [by intros [= <- <-]|].
  destruct (ru_GroupID rule) as [g|].
  - destruct (resolvedMatches p g proto assigned) as [vs|]; cbn [mbind result_bind]; [|done].
    destruct (bool_decide (vs = [])); [by intros [= <- <-]|].
    destruct (spend vs b); cbn [mbind result_bind]; [|done].
    destruct (if bool_decide _ then _ else _) as [[]|]; cbn [mbind result_bind]; [|done].
    destruct (policyAllocationMatches _ _ _ _) as [ms|]; cbn [mbind result_bind]; [|done].
    destruct (match_rules _ _ _ _ _ _ _) as [d1|] eqn:M; cbn [mbind result_bind]; [|done].
    intros [= <- <-]. by eapply match_rules_grows.
  - destruct (policyAllocationMatches _ _ _ _) as [ms|]; cbn [mbind result_bind]; [|done].
    destruct (match_rules _ _ _ _ _ _ _) as [d1|] eqn:M; cbn [mbind result_bind]; [|done].
    intros [= <- <-]. by eapply match_rules_grows.
Qed.

Lemma add_policy_grows table p rule assigned (original : bool) d b d' b' :
  (if original then origin_chain (ru_Direction rule) else ru_Direction rule) ∈ chain_names d →
  addPolicyRule table p rule assigned original (d, b) = Ok (d', b') → grows table d d'.
Proof.
  intros C. unfold addPolicyRule.
  destruct (add_proto_rules _ _ _ _ _ "tcp" _) as [[d1 b1]|] eqn:T; cbn [mbind result_bind]; [|done]. intros U.
  apply add_proto_grows in T as G; [|done]. etransitivity; [exact G|].
  eapply add_proto_grows; [|exact U]. by rewrite (proj2 G).
Qed.

Lemma add_rules_grows table direction p assigned rules d b d' b' :
  direction ∈ chain_names d → origin_chain direction ∈ chain_names d →
  add_rules table direction p assigned rules (d, b) = Ok (d', b') → grows table d d'.
Proof.
  revert d b. induction rules as [|rule rules IH]; intros d b C CO A; cbn [add_rules] in A.
  - by injection A as <- <-.
  - case_bool_decide as D; [|by eapply IH].
    destruct (addPolicyRule _ _ _ _ false _) as [[d1 b1]|] eqn:T1; cbn [mbind result_bind] in A; [|done].
    destruct (addPolicyRule _ _ _ _ true _) as [[d2 b2]|] eqn:T2; cbn [mbind result_bind] in A; [|done].
    rewrite <- D in *. apply add_policy_grows in T1 as G1; [|done].
    apply add_policy_grows in T2 as G2; [|by rewrite (proj2 G1)].
    etransitivity; [exact G1|]. etransitivity; [exact G2|].
    eapply IH; [| |exact A]; by rewrite (proj2 G2), (proj2 G1).
Qed.

(** ** The whole document *)

Definition declared_for (enabled : bool) (direction : string) : list string :=
  (if enabled then ["outbound_fragments"; "outbound_origin"; "inbound_origin"] else [])%string
  ++ (if bool_decide (direction = "inbound"%string) then ["outbound"; "outbound_hook"] else [])%string.

Lemma direction_chains_wf table bridge direction d cs :
  direction = "outbound"%string ∨ direction = "inbound"%string →
  doc_wf table comment d → chain_names d = cs → direction ∉ cs → hook_name direction ∉ cs →
  doc_wf table comment (direction_chains table bridge direction d)
  ∧ chain_names (direction_chains table bridge direction d) = cs ++ [direction; hook_name direction].
Proof.
  intros D W N N1 N2. unfold direction_chains. split; [|by rewrite chain_names_app, N].
  match goal with |- doc_wf _ _ (d ++ [?a; ?b; ?c]) => change [a; b; c] with ([a] ++ [b] ++ [c]) end.
  rewrite !app_assoc. apply wf_rule; [apply wf_chain; [apply wf_chain; [done|]|]|..].
  - by rewrite N.
  - rewrite chain_names_app, N. cbn. destruct D as [-> | ->]; set_solver.
  - rewrite !chain_names_app. cbn. set_solver.
  - unfold targets_in. cbn. apply list.Forall_singleton. rewrite !chain_names_app. cbn. set_solver.
Qed.

Lemma replies_grow table direction d :
  direction ∈ chain_names d → origin_chain direction ∈ chain_names d →
  origin_chain (opposite direction) ∈ chain_names d →
  grows table d (addRelatedICMPRules table direction (addEstablishedReplies table direction d)).
Proof.
  intros C CO CP. unfold addRelatedICMPRules, related_rules, addEstablishedReplies.
  assert (T : ∀ cs e t, omap target e = [] → t ∈ cs → targets_in cs (e ++ [Goto t])).
  { intros cs e t E I. unfold targets_in. rewrite omap_app, E. by apply list.Forall_singleton. }
  assert (R : ∀ d' e t, grows table d d' → omap target e = [] → t ∈ chain_names d →
              grows table d (addRule table direction (e ++ [Goto t]) d')).
  { intros d' e t G E I. etransitivity; [exact G|]. rewrite <- (proj2 G) in *. apply grows_rule; [done|]. by apply T. }
  do 5 (apply (R _ [_; _; _; _; _]); [|done|done]). done.
Qed.

Lemma fallback_grows table chain action d : chain ∈ chain_names d → grows table d (add_fallback table chain action d).
Proof.
  intros C. unfold add_fallback. case_bool_decide.
  - match goal with |- grows _ _ (addRule _ _ _ ?d') => assert (G : grows table d d') end.
    { by apply grows_rule; [|apply no_targets]. }
    etransitivity; [exact G|]. apply grows_rule; [by rewrite (proj2 G) | by apply no_targets].
  - by apply grows_rule; [|apply no_targets].
Qed.

Lemma enabled_chains_wf table bridge d :
  d = [NTable table comment] →
  doc_wf table comment (enabled_chains table bridge d)
  ∧ chain_names (enabled_chains table bridge d) = declared_for true "outbound".
Proof.
  intros ->. split; [|done].
  apply (wf_chain table comment [_; _; _; _; _]); [|set_solver].
  apply (wf_chain table comment [_; _; _; _]); [|set_solver].
  apply (wf_rule table comment [_; _; _]); [|set_solver | by apply no_targets].
  apply (wf_rule table comment [_; _]); [|set_solver | by apply no_targets].
  apply (wf_chain table comment [_]); [apply wf_table | set_solver].
Qed.

Lemma compile_direction_wf table bridge p assigned gate rules direction d b d' b' :
  let enabled := negb gate && fw_Enabled (rs_Firewall (po_Body p)) in
  direction = "outbound"%string ∨ direction = "inbound"%string →
  doc_wf table comment d → chain_names d = declared_for enabled direction →
  compile_direction table bridge p assigned gate rules direction (d, b) = Ok (d', b') →
  doc_wf table comment d' ∧ chain_names d' = declared_for enabled direction ++ [direction; hook_name direction].
Proof.
  intros enabled D W N. unfold compile_direction. cbn [fst snd].
  destruct (direction_chains_wf table bridge direction d _ D W N) as [W1 N1].
  { unfold declared_for. destruct enabled, D as [-> | ->]; vm_compute; set_solver. }
  { unfold declared_for. destruct enabled, D as [-> | ->]; vm_compute; set_solver. }
  set (d1 := direction_chains table bridge direction d) in *.
  assert (CI : direction ∈ chain_names d1) by (rewrite N1; set_solver).
  assert (S : ∀ v, doc_wf table comment (addRule table direction [Verdict v] d1)
                   ∧ chain_names (addRule table direction [Verdict v] d1) = chain_names d1).
  { intros v. destruct (grows_rule table direction [Verdict v] d1 CI) as [G1 G2]; [by apply no_targets | by auto]. }
  destruct gate; [intros [= <- <-]; rewrite <- N1; apply S|].
  destruct (fw_Enabled _) eqn:EN; cbn [negb]; [|intros [= <- <-]; rewrite <- N1; apply S].
  destruct (add_rules _ _ _ _ _ _) as [[d2 b2]|] eqn:A; cbn [mbind result_bind]; [|done]. intros [= <- <-].
  assert (CO : origin_chain direction ∈ chain_names d1 ∧ origin_chain (opposite direction) ∈ chain_names d1).
  { rewrite N1. unfold declared_for, enabled. cbn [negb andb]. destruct D as [-> | ->]; vm_compute; set_solver. }
  destruct CO as [CO CP].
  assert (G1 : grows table d1 (d1 ++ map (NRule table direction) control_rules)).
  { apply grows_rules; [done|]. by repeat (apply list.Forall_cons; split; [by apply no_targets|]). }
  apply add_rules_grows in A as G2; [|by rewrite (proj2 G1)..].
  assert (G3 := replies_grow table direction d2). rewrite (proj2 G2), (proj2 G1) in G3.
  specialize (G3 CI CO CP).
  set (d3 := addRelatedICMPRules _ _ _) in *.
  assert (G4 := fallback_grows table direction (fallback p direction) d3).
  rewrite (proj2 G3), (proj2 G2), (proj2 G1) in G4. specialize (G4 CI).
  set (d4 := add_fallback _ direction _ _) in *.
  assert (G5 := fallback_grows table (origin_chain direction) (fallback p direction) d4).
  rewrite (proj2 G4), (proj2 G3), (proj2 G2), (proj2 G1) in G5. specialize (G5 CO).
  assert (G : grows table d1 (add_fallback table (origin_chain direction) (fallback p direction) d4)) by (by do 4 (etransitivity; [eassumption|])).
  rewrite <- N1. destruct G as [GW GN]. split; [by apply GW | done].
Qed.

End Documents.

(** C35: whatever policy compiles, the document is well formed: it starts with the server's
    own table and its ownership mark, each chain is declared once, and a rule follows its
    chain and every chain it jumps to. *)
Theorem compileRuleset_well_formed `{UUIDs} id p assigned gate d net bridge table :
  Names id = Some (net, bridge, table) → compileRuleset id p assigned gate = Ok d →
  doc_wf table (ownerPrefix +:+ id) d ∧ head d = Some (NTable table (ownerPrefix +:+ id)).
Proof.
  intros NM. unfold compileRuleset. rewrite NM.
  set (enabled := negb gate && _). set (d0 := if enabled then enabled_chains _ _ _ else _).
  assert (W0 : doc_wf table (ownerPrefix +:+ id) d0 ∧ chain_names d0 = declared_for enabled "outbound").
  { unfold d0. destruct enabled; [by eapply enabled_chains_wf | split; [apply wf_table | done]]. }
  destruct W0 as [W0 N0].
  destruct (compile_direction _ _ _ _ _ _ "outbound" _) as [[d1 b1]|] eqn:C1; cbn [mbind result_bind]; [|done].
  destruct (compile_direction _ _ _ _ _ _ "inbound" _) as [[d2 b2]|] eqn:C2; cbn [mbind result_bind]; [|done].
  intros [= <-]. cbn [fst].
  eapply compile_direction_wf in C1 as [W1 N1]; [|by left|exact W0|exact N0].
  eapply compile_direction_wf in C2 as [W2 N2]; [|by right|exact W1|].
  2:{ rewrite N1. unfold declared_for. fold enabled. by destruct enabled. }
  split; [done | by eapply wf_head].
Qed.

Lemma compileRuleset_well_formed_witness :
  doc_wf "wings_nsm_3c0b5a4e8f5d4c1b9a550f6f4f1f2a11"
    "wings-networkstats:3c0b5a4e-8f5d-4c1b-9a55-0f6f4f1f2a11" ex_doc
  ∧ length ex_doc = 48%nat.
Proof.
  split; [|reflexivity].
  exact (proj1 (@compileRuleset_well_formed ex_uuids ex_id ex_policy ex_assigned false ex_doc _ _ _
                  eq_refl eq_refl)).
Defined.
