(* ===== verification/AddrText.v ===== *)
(** * The text of addresses

    The printed form of every address ([netip.Addr.String]) is read back by [parseIP] as
    the same address, so that two addresses print alike only when they are equal. *)

From stdpp Require Import base gmap sets list strings numbers.
From Stdlib Require Import Ascii.
From S2P Require Import Prelude GoStrings Policy Nft.
Open Scope Z_scope.

(** The addresses [parseIP] yields: of their width, and not an IPv4 address in IPv6. *)
Definition valid_addr (a : addr) : Prop :=
  match a with V4 n => 0 ≤ n < 2 ^ 32 | V6 n => 0 ≤ n < 2 ^ 128 ∧ is4in6 n = false end.

Fixpoint all_bytes (f : ascii → bool) (s : string) : bool :=
  match s with EmptyString => true | String c s' => f c && all_bytes f s' end.

Lemma all_bytes_app f a b : all_bytes f (a +:+ b) = all_bytes f a && all_bytes f b.
Proof.
  induction a as [|c a IH]; [done|]. change (String c a +:+ b) with (String c (a +:+ b)).
  cbn [all_bytes]. by rewrite IH, andb_assoc.
Qed.
Lemma all_bytes_impl (f g : ascii → bool) s : (∀ c, f c = true → g c = true) → all_bytes f s = true → all_bytes g s = true.
Proof. intros I. induction s as [|c s IH]; [done|]. cbn. intros [C S]%andb_true_iff. by rewrite (I c C), IH. Qed.

(** ** IPv4 *)

Definition octet_ok (n : Z) : bool :=
  bool_decide (parse_octet (FormatInt n) = Some n)
  && all_bytes (λ c, bool_decide (is_Some (digit_of c))) (FormatInt n)
  && negb (bool_decide (FormatInt n = EmptyString)).
Lemma octets_ok : forallb octet_ok (seqZ 0 256) = true.
Proof. vm_compute. reflexivity. Qed.
Lemma octet n :
  0 ≤ n < 256 → parse_octet (FormatInt n) = Some n
  ∧ all_bytes (λ c, bool_decide (is_Some (digit_of c))) (FormatInt n) = true ∧ FormatInt n ≠ EmptyString.
Proof.
  intros L. pose proof octets_ok as A. rewrite forallb_forall in A.
  specialize (A n). rewrite <- list_elem_of_In, elem_of_seqZ in A. specialize (A ltac:(lia)).
  unfold octet_ok in A. rewrite !andb_true_iff in A. destruct A as [[A B] C].
  split; [by apply bool_decide_eq_true in A|]. split; [done|]. intros E. by rewrite E in C.
Qed.

Definition not_byte (c x : ascii) : bool := negb (Ascii.eqb x c).
Lemma split_word sep w : all_bytes (not_byte sep) w = true → Split sep w = [w].
Proof.
  induction w as [|c w IH]; [done|]. cbn. unfold not_byte at 1. intros [C W]%andb_true_iff.
  destruct (Ascii.eqb c sep); [done|]. by rewrite IH.
Qed.
Lemma split_cons sep w r : all_bytes (not_byte sep) w = true → Split sep (w +:+ String sep r) = w :: Split sep r.
Proof.
  induction w as [|c w IH].
  - intros _. change (EmptyString +:+ String sep r) with (String sep r). cbn [Split]. by rewrite Ascii.eqb_refl.
  - change (String c w +:+ String sep r) with (String c (w +:+ String sep r)). cbn [Split all_bytes].
    unfold not_byte at 1. intros [C W]%andb_true_iff. destruct (Ascii.eqb c sep); [done|]. by rewrite IH.
Qed.
Lemma digit_range c : bool_decide (is_Some (digit_of c)) = true → 48 ≤ byteZ c ≤ 57.
Proof. intros [d D]%bool_decide_eq_true. unfold digit_of in D. case_match eqn:E; [|done]. apply andb_true_iff in E. lia. Qed.
Lemma digits_not c w :
  byteZ c < 48 ∨ 57 < byteZ c → all_bytes (λ c, bool_decide (is_Some (digit_of c))) w = true →
  all_bytes (not_byte c) w = true.
Proof.
  intros C. apply all_bytes_impl. intros x D%digit_range. unfold not_byte.
  apply negb_true_iff, Ascii.eqb_neq. intros ->. lia.
Qed.

(** ** Hexadecimal groups *)

Definition hex_byte (c : ascii) : bool := bool_decide (is_Some (hex_val c)).
Definition group_ok (n : Z) : bool :=
  let w := hex_text 4 n EmptyString in
  all_bytes hex_byte w && negb (bool_decide (w = EmptyString))
  && match hex_group 0 0 w with Some (k, v, r) => (0 <? k) && (v =? n) && bool_decide (r = EmptyString) | None => false end.
Lemma groups_ok : forallb (λ a, forallb (λ b, group_ok (a * 256 + b)) (seqZ 0 256)) (seqZ 0 256) = true.
Proof. vm_compute. reflexivity. Qed.
Lemma group n :
  0 ≤ n < 65536 → let w := hex_text 4 n EmptyString in
  all_bytes hex_byte w = true ∧ w ≠ EmptyString ∧ ∃ k, 0 < k ∧ hex_group 0 0 w = Some (k, n, EmptyString).
Proof.
  intros L. pose proof groups_ok as A. rewrite forallb_forall in A.
  assert (D : 0 ≤ n / 256 < 256) by (split; [apply Z.div_pos; lia | apply Z.div_lt_upper_bound; lia]).
  pose proof (Z.mod_pos_bound n 256 ltac:(lia)) as MB. pose proof (Z.div_mod n 256 ltac:(lia)) as Q.
  specialize (A (n / 256)). rewrite <- list_elem_of_In, elem_of_seqZ in A. specialize (A ltac:(lia)).
  rewrite forallb_forall in A. specialize (A (n mod 256)). rewrite <- list_elem_of_In, elem_of_seqZ in A.
  specialize (A ltac:(lia)). replace (n / 256 * 256 + n mod 256) with n in A by lia.
  unfold group_ok in A. rewrite !andb_true_iff in A. destruct A as [[A B] C]. cbn zeta.
  split; [done|]. split; [intros E; by rewrite E in B|].
  destruct (hex_group 0 0 _) as [[[k v] r]|]; [|done]. rewrite !andb_true_iff in C. destruct C as [[K V] R].
  apply bool_decide_eq_true in R as ->. exists k. split; [lia|]. repeat f_equal. lia.
Qed.

(** Nothing more of the number follows. *)
Definition ends_group (r : string) : Prop :=
  match r with EmptyString => True | String c _ => hex_val c = None end.
Lemma hex_group_app w : ∀ n acc k v r, hex_group n acc w = Some (k, v, EmptyString) → ends_group r →
  hex_group n acc (w +:+ r) = Some (k, v, r).
Proof.
  induction w as [|c w IH]; intros n acc k v r G E.
  - cbn in G. injection G as <- <-. change (EmptyString +:+ r) with r. destruct r as [|c r]; [done|]. cbn in E |- *. by rewrite E.
  - change (String c w +:+ r) with (String c (w +:+ r)). cbn [hex_group] in G |- *.
    destruct (hex_val c); [|done]. destruct (3 <? n); [done|]. by apply IH.
Qed.
Lemma read_group n r :
  0 ≤ n < 65536 → ends_group r → ∃ k, 0 < k ∧ hex_group 0 0 (hex_text 4 n EmptyString +:+ r) = Some (k, n, r).
Proof. intros L E. destruct (group n L) as (_ & _ & k & K & G). exists k. split; [done|]. by apply hex_group_app. Qed.

Definition colon : ascii := ":"%char.
Lemma ends_colon r : ends_group (String colon r).
Proof. reflexivity. Qed.

(** ** IPv6 *)

Section V6.
Variables (gs : list Z) (run : nat * nat).
Hypothesis groups : length gs = 8%nat.
Hypothesis range : ∀ i, (i < 8)%nat → 0 ≤ gs !!! i < 65536.

Abbreviation text i := (hex_text 4 (gs !!! i) EmptyString).
(** What [v6_from] prints from a group on, when the run is not met again. *)
Fixpoint plain_from (n i : nat) : string :=
  match n with O => EmptyString | S n' => String colon (text i +:+ plain_from n' (S i)) end.

Lemma from_plain fuel n i :
  (i + n = 8)%nat → (n < fuel)%nat → (0 < i)%nat → (∀ j, (i ≤ j)%nat → (j < 8)%nat → (0 < snd run)%nat → j ≠ fst run) →
  v6_from fuel i run gs = plain_from n i.
Proof.
  revert fuel i. induction n as [|n IH]; intros fuel i E F P N; (destruct fuel as [|fuel]; [lia|]); cbn [v6_from plain_from].
  - by rewrite bool_decide_eq_true_2 by lia.
  - rewrite bool_decide_eq_false_2 by lia.
    assert (bool_decide (0 < snd run)%nat && bool_decide (i = fst run) = false) as ->.
    { apply andb_false_iff. destruct (decide (0 < snd run)%nat) as [R|R]; [|left; by apply bool_decide_eq_false_2].
      right. apply bool_decide_eq_false_2. apply N; lia. }
    rewrite (bool_decide_eq_false_2 (i = 0%nat)) by lia. rewrite IH by (try lia; intros; apply N; lia). done.
Qed.

(** Reading the groups that follow one another. *)
Lemma drop_group i : (i < 8)%nat → drop i gs = gs !!! i :: drop (S i) gs.
Proof.
  intros L. apply drop_S. apply list_lookup_lookup_total_lt. lia.
Qed.
(** A colon and the next group, which starts with no colon. *)
Lemma loop_step i fuel acc e (r : string) :
  (0 < i)%nat → (i < 8)%nat →
  v6_loop (S fuel) acc e (text (i - 1)%nat +:+ String colon (text i +:+ r))
  = v6_loop fuel (gs !!! (i - 1)%nat :: acc) e (text i +:+ r).
Proof.
  intros P L. cbn [v6_loop].
  destruct (read_group (gs !!! (i - 1)%nat) (String colon (text i +:+ r))) as (k & K & ->); [apply range; lia | done|].
  cbn [mbind option_bind]. rewrite (proj2 (Z.eqb_neq k 0)) by lia.
  destruct (group (gs !!! i)) as (H & NE & _); [apply range; lia|].
  destruct (text i) as [|c2 w] eqn:T; [done|].
  change (String c2 w +:+ r) with (String c2 (w +:+ r)).
  cbn [all_bytes] in H. apply andb_true_iff in H as [H _].
  change (Ascii.eqb colon dot) with false. change (negb (Ascii.eqb colon ":")) with false. cbn iota.
  assert (Ascii.eqb c2 ":" = false) as ->; [|done]. apply Ascii.eqb_neq. by intros ->.
Qed.

Lemma loop_plain n : ∀ i fuel acc e,
  (i + n = 8)%nat → (n < fuel)%nat → (0 < i)%nat →
  v6_loop fuel acc e (text (i - 1)%nat +:+ plain_from n i) = Some (rev (drop (i - 1)%nat gs) ++ acc, e).
Proof.
  induction n as [|n IH]; intros i fuel acc e E F P; (destruct fuel as [|fuel]; [lia|]); cbn [plain_from].
  - cbn [v6_loop]. destruct (read_group (gs !!! (i - 1)%nat) EmptyString) as (k & K & ->); [apply range; lia | done|].
    cbn [mbind option_bind]. rewrite (proj2 (Z.eqb_neq k 0)) by lia.
    assert (i = 8%nat) as -> by lia. rewrite drop_group by lia. rewrite (drop_ge gs) by lia. done.
  - rewrite loop_step by lia.
    specialize (IH (S i) fuel (gs !!! (i - 1)%nat :: acc) e ltac:(lia) ltac:(lia) ltac:(lia)).
    replace (S i - 1)%nat with i in IH by lia. rewrite IH.
    rewrite (drop_group (i - 1)) by lia. replace (S (i - 1)) with i by lia.
    cbn [rev]. by rewrite <- app_assoc.
Qed.

Hypothesis in_groups : (fst run + snd run ≤ 8)%nat.
Hypothesis some_run : (0 < snd run)%nat.
Abbreviation start := (fst run).
Abbreviation stop := (fst run + snd run)%nat.

(** What follows the double colon. *)
Definition after_run : string := if bool_decide (8 ≤ stop)%nat then EmptyString else text stop +:+ plain_from (7 - stop) (S stop).
Lemma from_run fuel :
  (9 ≤ fuel + start)%nat → v6_from fuel start run gs = String colon (String colon after_run).
Proof.
  intros F. destruct fuel as [|fuel]; [lia|]. cbn [v6_from]. unfold after_run.
  rewrite bool_decide_eq_false_2 by lia. rewrite !bool_decide_eq_true_2 by lia. cbn [andb].
  destruct (decide (8 ≤ stop)%nat) as [E|E]; [by rewrite !bool_decide_eq_true_2|]. rewrite !bool_decide_eq_false_2 by lia.
  rewrite (from_plain fuel (7 - stop) (S stop)) by lia. done.
Qed.
Lemma loop_after fuel acc e :
  (8 < fuel + stop)%nat →
  (if bool_decide (after_run = EmptyString) then Some (acc, e) else v6_loop fuel acc e after_run)
  = Some (rev (drop stop gs) ++ acc, e).
Proof.
  intros F. unfold after_run. destruct (decide (8 ≤ stop)%nat) as [E|E].
  - rewrite (bool_decide_eq_true_2 (8 ≤ stop)%nat E). rewrite bool_decide_eq_true_2 by done. by rewrite drop_ge by lia.
  - rewrite (bool_decide_eq_false_2 (8 ≤ stop)%nat E).
    destruct (group (gs !!! stop)) as (_ & NE & _); [apply range; lia|].
    rewrite bool_decide_eq_false_2 by (by destruct (text stop)).
    pose proof (loop_plain (7 - stop) (S stop) fuel acc e ltac:(lia) ltac:(lia) ltac:(lia)) as P.
    by replace (S stop - 1)%nat with stop in P by lia.
Qed.

Lemma loop_run m : ∀ i fuel fu acc,
  (i + m = start)%nat → (0 < i)%nat → (9 ≤ fuel + i)%nat → (9 ≤ fu + i)%nat →
  v6_loop fuel acc None (text (i - 1)%nat +:+ v6_from fu i run gs)
  = Some (rev (drop stop gs) ++ rev (take (S m) (drop (i - 1)%nat gs)) ++ acc, Some (S m + length acc)%nat).
Proof.
  induction m as [|m IH]; intros i fuel fu acc E P F F'.
  - assert (i = start) as -> by lia. rewrite from_run by lia.
    destruct fuel as [|fuel]; [lia|]. cbn [v6_loop].
    destruct (read_group (gs !!! (start - 1)%nat) (String colon (String colon after_run))) as (k & K & ->);
      [apply range; lia | done|].
    cbn [mbind option_bind]. rewrite (proj2 (Z.eqb_neq k 0)) by lia.
    change (Ascii.eqb colon dot) with false. change (negb (Ascii.eqb colon ":")) with false.
    change (Ascii.eqb colon ":") with true. cbn iota. rewrite loop_after by lia.
    rewrite (drop_group (start - 1)) by lia. cbn [take rev app length]. by rewrite <- app_assoc.
  - destruct fuel as [|fuel]; [lia|]. destruct fu as [|fu]; [lia|].
    assert (v6_from (S fu) i run gs = String colon (text i +:+ v6_from fu (S i) run gs)) as ->.
    { cbn [v6_from]. rewrite bool_decide_eq_false_2 by lia.
      rewrite (bool_decide_eq_false_2 (i = start)) by lia. rewrite andb_false_r.
      by rewrite (bool_decide_eq_false_2 (i = 0%nat)) by lia. }
    rewrite loop_step by lia.
    specialize (IH (S i) fuel fu (gs !!! (i - 1)%nat :: acc) ltac:(lia) ltac:(lia) ltac:(lia) ltac:(lia)).
    replace (S i - 1)%nat with i in IH by lia. rewrite IH.
    rewrite (drop_group (i - 1)) by lia. replace (S (i - 1)) with i by lia.
    cbn [take rev length]. rewrite <- !app_assoc. cbn [app]. f_equal. f_equal. f_equal. lia.
Qed.
End V6.

(** The run found is one of zero groups inside the address. *)
Definition zero_from (gs : list Z) (s n : nat) : Prop :=
  (s + n ≤ length gs)%nat ∧ ∀ i, (s ≤ i)%nat → (i < s + n)%nat → gs !!! i = 0.
Lemma zeros_spec l : (zeros l ≤ length l)%nat ∧ ∀ i, (i < zeros l)%nat → l !!! i = 0.
Proof.
  induction l as [|z l [L Z]]; [split; [done | cbn; lia]|].
  destruct z; cbn [zeros length]; (split; [lia | intros i I]); try lia.
  destruct i as [|i]; [done|]. cbn. apply Z. lia.
Qed.
Lemma zero_run_spec gs l : ∀ i best, drop i gs = l → zero_from gs (fst best) (snd best) →
  let r := zero_run i l best in zero_from gs (fst r) (snd r).
Proof.
  induction l as [|z l IH]; intros i best D B; [done|]. cbn [zero_run]. apply IH.
  - rewrite <- skipn_skipn with (x := 1%nat), D. done.
  - case_match; [|done]. cbn [fst snd]. rewrite <- D. destruct (zeros_spec (drop i gs)) as [ZL ZZ].
    rewrite length_drop in ZL. split.
    + destruct (decide (i ≤ length gs)%nat); [lia|]. assert (length (drop i gs) = 0)%nat by (rewrite length_drop; lia).
      rewrite D in *. done.
    + intros k K1 K2. specialize (ZZ (k - i)%nat ltac:(lia)). rewrite lookup_total_drop in ZZ.
      by replace (i + (k - i))%nat with k in ZZ by lia.
Qed.

Lemma split_run gs s n : zero_from gs s n → gs = take s gs ++ replicate n 0 ++ drop (s + n) gs.
Proof.
  intros [L Z]. rewrite <- (take_drop s gs) at 1. f_equal.
  rewrite <- (take_drop n (drop s gs)), drop_drop. f_equal.
  apply list_eq. intros i. destruct (decide (i < n)%nat) as [I|I].
  - rewrite lookup_take_lt, lookup_drop, lookup_replicate_2 by done.
    rewrite (list_lookup_lookup_total_lt gs (s + i)) by lia. f_equal. apply Z; lia.
  - rewrite !lookup_ge_None_2; [done | rewrite length_replicate; lia | rewrite length_take; lia].
Qed.

Lemma v6_groups_range n i : 0 ≤ v6_groups n !!! i < 65536.
Proof.
  destruct (decide (i < 8)%nat) as [I|I].
  - unfold v6_groups. rewrite list_lookup_total_alt, list_lookup_fmap, lookup_seq_lt by done. cbn.
    apply Z.mod_pos_bound. lia.
  - rewrite list_lookup_total_alt, lookup_ge_None_2 by (unfold v6_groups; cbn; lia). done.
Qed.
Lemma v6_value_groups n : 0 ≤ n < 2 ^ 128 → v6_value (v6_groups n) = n.
Proof.
  intros R. unfold v6_value, v6_groups. cbn [seq map foldl].
  assert (S : ∀ k k', 0 ≤ k → k' = k + 1 → n / 2 ^ (16 * k') * 65536 + n / 2 ^ (16 * k) mod 65536 = n / 2 ^ (16 * k)).
  { intros k k' K ->. rewrite Z.mul_add_distr_l, Z.pow_add_r, <- Z.div_div by lia.
    pose proof (Z.div_mod (n / 2 ^ (16 * k)) 65536 ltac:(lia)). change (2 ^ (16 * 1)) with 65536. lia. }
  assert (Z0 : n / 2 ^ (16 * 8) = 0) by (apply Z.div_small; exact R).
  pose proof (S 7 8 ltac:(lia) eq_refl) as S7. rewrite Z0 in S7.
  change (7 - Z.of_nat 0) with 7. change (7 - Z.of_nat 1) with 6. change (7 - Z.of_nat 2) with 5.
  change (7 - Z.of_nat 3) with 4. change (7 - Z.of_nat 4) with 3. change (7 - Z.of_nat 5) with 2.
  change (7 - Z.of_nat 6) with 1. change (7 - Z.of_nat 7) with 0.
  rewrite S7.
  rewrite (S 6 7), (S 5 6), (S 4 5), (S 3 4), (S 2 3), (S 1 2), (S 0 1) by lia. apply Z.div_1_r.
Qed.

Lemma hex_no_colon c : hex_byte c = true → Ascii.eqb c ":" = false ∧ Ascii.eqb c dot = false ∧ Ascii.eqb c "%" = false.
Proof. intros H. repeat split; apply Ascii.eqb_neq; by intros ->. Qed.
Lemma family_hex w r : all_bytes hex_byte w = true → family (w +:+ r) = family r.
Proof.
  induction w as [|c w IH]; [done|]. change (String c w +:+ r) with (String c (w +:+ r)). cbn [all_bytes family].
  intros [C W]%andb_true_iff. destruct (hex_no_colon c C) as (-> & -> & ->). by apply IH.
Qed.
Definition v6_byte (c : ascii) : bool := hex_byte c || Ascii.eqb c colon.
Lemma v6_from_bytes n fuel i run : all_bytes v6_byte (v6_from fuel i run (v6_groups n)) = true.
Proof.
  revert i. induction fuel as [|fuel IH]; intros i; [done|]. cbn [v6_from].
  assert (T : ∀ j, all_bytes v6_byte (hex_text 4 (v6_groups n !!! j) EmptyString) = true).
  { intros j. destruct (group _ (v6_groups_range n j)) as (H & _). eapply all_bytes_impl; [|exact H].
    intros c C. unfold v6_byte. by rewrite C. }
  repeat case_match; try done; rewrite !all_bytes_app, ?T, ?IH; done.
Qed.
Lemma no_zone s : all_bytes v6_byte s = true → contains_byte "%" s = false.
Proof.
  induction s as [|c s IH]; [done|]. cbn [all_bytes contains_byte]. intros [C S]%andb_true_iff. rewrite (IH S), orb_false_r.
  apply Ascii.eqb_neq. by intros ->.
Qed.

(** The end of [parse_v6]: the groups read, and where the double colon stood. *)
Definition finish (r : list Z * option nat) : option Z :=
  let groups := rev (fst r) in
  match snd r with
  | None => if bool_decide (length groups = 8%nat) then Some (v6_value groups) else None
  | Some k => if bool_decide (length groups < 8)%nat
              then Some (v6_value (take k groups ++ replicate (8 - length groups) 0 ++ drop k groups)) else None
  end.
Lemma parse_after_group w r :
  all_bytes hex_byte w = true → w ≠ EmptyString →
  parse_v6 (w +:+ r) = v6_loop 8 [] None (w +:+ r) ≫= finish.
Proof.
  intros H N. unfold parse_v6. destruct w as [|c w]; [done|].
  change (String c w +:+ r) with (String c (w +:+ r)).
  cbn [all_bytes] in H. apply andb_true_iff in H as [C _]. destruct (hex_no_colon c C) as (-> & _).
  cbn [andb]. destruct (w +:+ r); destruct (v6_loop _ _ _ _) as [[]|]; done.
Qed.

Section Printed.
Variables (gs : list Z) (run : nat * nat).
Hypothesis printed_length : length gs = 8%nat.
Hypothesis printed_range : ∀ i, (i < 8)%nat → 0 ≤ gs !!! i < 65536.
Hypothesis printed_run : zero_from gs (fst run) (snd run).

Lemma printed_bound : (fst run + snd run ≤ 8)%nat.
Proof. rewrite <- printed_length. apply printed_run. Qed.
Lemma printed_first : all_bytes hex_byte (hex_text 4 (gs !!! 0%nat) EmptyString) = true
                      ∧ hex_text 4 (gs !!! 0%nat) EmptyString ≠ EmptyString.
Proof. destruct (group (gs !!! 0%nat)) as (H & N & _); [apply printed_range; lia | done]. Qed.

Lemma from_zero fuel :
  bool_decide (0 < snd run)%nat && bool_decide (0%nat = fst run) = false →
  v6_from (S fuel) 0 run gs = hex_text 4 (gs !!! 0%nat) EmptyString +:+ v6_from fuel 1 run gs.
Proof. intros E. cbn [v6_from]. by rewrite E. Qed.

(** The groups around the run, with zeros between them. *)
Lemma finish_run :
  (0 < snd run)%nat →
  finish (rev (drop (fst run + snd run) gs) ++ rev (take (fst run) gs), Some (fst run)) = Some (v6_value gs).
Proof.
  intros P. pose proof printed_bound as B. unfold finish. cbn [fst snd].
  rewrite rev_app_distr, !rev_involutive.
  assert (length (take (fst run) gs) = fst run) as LT by (rewrite length_take; rewrite printed_length; lia).
  rewrite length_app, length_drop, LT. rewrite printed_length. rewrite bool_decide_eq_true_2 by lia.
  rewrite take_app_length', drop_app_length' by done. f_equal.
  f_equal.
  replace (8 - (fst run + (8 - (fst run + snd run))))%nat with (snd run) by lia.
  symmetry. apply (split_run _ _ _ printed_run).
Qed.

Lemma parse_leading : (0 < snd run)%nat → fst run = 0%nat → parse_v6 (v6_from 9 0 run gs) = Some (v6_value gs).
Proof.
  intros P F. pose proof printed_bound as B.
  assert (FR : v6_from 9 (fst run) run gs = String colon (String colon (after_run gs run)))
    by (apply from_run; (done || lia || apply printed_range)).
  rewrite F in FR at 1. rewrite FR. unfold parse_v6.
  change (Ascii.eqb colon ":" && Ascii.eqb colon ":") with true. cbn iota.
  change (bool_decide (Some 0%nat = Some 0%nat)) with true. cbn [andb].
  assert (LA := loop_after gs run printed_length printed_range printed_bound P 8 [] (Some 0%nat) ltac:(lia)).
  pose proof (finish_run P) as FI. rewrite F in *. cbn [take rev] in FI.
  destruct (bool_decide (after_run gs run = EmptyString)).
  - assert (finish ([], Some 0%nat) = Some (v6_value gs)) as E.
    { injection LA as LA. cbn [Nat.add] in FI. change (rev (take 0 gs)) with (@nil Z) in FI.
      rewrite <- LA in FI. exact FI. }
    rewrite <- E. reflexivity.
  - rewrite LA. exact FI.
Qed.
Lemma parse_inner : (0 < snd run)%nat → fst run ≠ 0%nat → parse_v6 (v6_from 9 0 run gs) = Some (v6_value gs).
Proof.
  intros P F. pose proof printed_bound as B. destruct printed_first as [H0 N0].
  assert (v6_from 9 0 run gs = hex_text 4 (gs !!! 0%nat) EmptyString +:+ v6_from 8 1 run gs) as ->.
  { apply from_zero. by rewrite (bool_decide_eq_false_2 (0%nat = fst run)), andb_false_r by lia. }
  rewrite parse_after_group by done.
  assert (LR := loop_run gs run printed_length printed_range printed_bound P (fst run - 1) 1 8 8 [] ltac:(lia) ltac:(lia) ltac:(lia) ltac:(lia)).
  cbn [Nat.sub] in LR. rewrite LR. replace (S (fst run - 1)) with (fst run) by lia.
  cbn [mbind option_bind length drop]. rewrite Nat.add_0_r, app_nil_r. by apply finish_run.
Qed.
Lemma parse_full : ¬ (0 < snd run)%nat → parse_v6 (v6_from 9 0 run gs) = Some (v6_value gs).
Proof.
  intros P. destruct printed_first as [H0 N0].
  assert (v6_from 9 0 run gs = hex_text 4 (gs !!! 0%nat) EmptyString +:+ plain_from gs 7 1) as ->.
  { rewrite from_zero by (by rewrite (bool_decide_eq_false_2 (0 < snd run)%nat)). f_equal.
    apply from_plain; (lia || done). }
  rewrite parse_after_group by done.
  assert (LP := loop_plain gs printed_length printed_range 7 1 8 [] None ltac:(lia) ltac:(lia) ltac:(lia)).
  cbn [Nat.sub] in LP. rewrite LP. cbn [mbind option_bind drop]. rewrite app_nil_r.
  unfold finish. cbn [fst snd]. by rewrite rev_involutive, bool_decide_eq_true_2 by done.
Qed.
Lemma from_colon fuel i :
  (i < 8)%nat → bool_decide (0 < snd run)%nat && bool_decide (i = fst run) = true ∨ (0 < i)%nat →
  ∃ r, v6_from (S fuel) i run gs = String colon r.
Proof.
  intros L H. cbn [v6_from]. rewrite bool_decide_eq_false_2 by lia.
  destruct (_ && _); [case_match; by eexists|]. destruct H as [?|P]; [done|].
  rewrite bool_decide_eq_false_2 by lia. by eexists.
Qed.
Lemma family_printed : family (v6_from 9 0 run gs) = Some colon.
Proof.
  destruct printed_first as [H0 N0].
  destruct (bool_decide (0 < snd run)%nat && bool_decide (0%nat = fst run)) eqn:E.
  - by destruct (from_colon 8 0 ltac:(lia) ltac:(by left)) as [r ->].
  - rewrite from_zero, family_hex by done. by destruct (from_colon 7 1 ltac:(lia) ltac:(right; lia)) as [r ->].
Qed.
End Printed.

Lemma parse_printed n :
  0 ≤ n < 2 ^ 128 → parse_v6 (addr_String (V6 n)) = Some n ∧ family (addr_String (V6 n)) = Some colon.
Proof.
  intros R. cbn [addr_String].
  pose proof (zero_run_spec (v6_groups n) (v6_groups n) 0 (0, 0)%nat eq_refl ltac:(split; cbn; lia)) as Z. cbn zeta in Z.
  rewrite <- (v6_value_groups n R) at 3. assert (L : length (v6_groups n) = 8%nat) by done.
  assert (RG : ∀ i, (i < 8)%nat → 0 ≤ v6_groups n !!! i < 65536) by (intros; apply v6_groups_range).
  generalize dependent (zero_run 0 (v6_groups n) (0, 0)%nat). generalize dependent (v6_groups n). intros gs L RG run Z.
  split; [|by apply family_printed].
  destruct (decide (0 < snd run)%nat) as [P|P]; [|by apply parse_full].
  destruct (decide (fst run = 0%nat)); [by apply parse_leading | by apply parse_inner].
Qed.

(** ** Both families *)

Lemma v4_range n : 0 ≤ n < 2 ^ 32 →
  0 ≤ n / 2 ^ 24 < 256 ∧ n = ((n / 2 ^ 24 * 256 + n / 2 ^ 16 mod 256) * 256 + n / 2 ^ 8 mod 256) * 256 + n mod 256.
Proof.
  intros R. split.
  - split; [apply Z.div_pos; lia | apply Z.div_lt_upper_bound; lia].
  - pose proof (Z.div_mod n 256 ltac:(lia)). pose proof (Z.div_mod (n / 2 ^ 8) 256 ltac:(lia)).
    pose proof (Z.div_mod (n / 2 ^ 16) 256 ltac:(lia)).
    change (2 ^ 24) with (2 ^ 16 * 256). change (2 ^ 16) with (2 ^ 8 * 256) in *. change (2 ^ 8) with 256 in *.
    rewrite <- !Z.div_div in * by lia. lia.
Qed.
Lemma family_digits w r :
  all_bytes (λ c, bool_decide (is_Some (digit_of c))) w = true → family (w +:+ r) = family r.
Proof.
  intros W. apply family_hex. eapply all_bytes_impl; [|exact W]. intros c D%digit_range.
  unfold hex_byte, hex_val. by rewrite (proj2 (Z.leb_le 48 (byteZ c))), (proj2 (Z.leb_le (byteZ c) 57)) by lia.
Qed.
Lemma parse_v4_text n : 0 ≤ n < 2 ^ 32 →
  parse_v4 (v4_text n) = Some n ∧ family (v4_text n) = Some dot ∧ contains_byte "%" (v4_text n) = false.
Proof.
  intros R. destruct (v4_range n R) as [R0 E]. unfold v4_text.
  pose proof (Z.mod_pos_bound (n / 2 ^ 16) 256 ltac:(lia)) as R1.
  pose proof (Z.mod_pos_bound (n / 2 ^ 8) 256 ltac:(lia)) as R2.
  pose proof (Z.mod_pos_bound n 256 ltac:(lia)) as R3.
  destruct (octet _ R0) as (P0 & D0 & _). destruct (octet _ R1) as (P1 & D1 & _).
  destruct (octet _ R2) as (P2 & D2 & _). destruct (octet _ R3) as (P3 & D3 & _).
  set (a := FormatInt (n / 2 ^ 24)) in *. set (b := FormatInt (n / 2 ^ 16 mod 256)) in *.
  set (c := FormatInt (n / 2 ^ 8 mod 256)) in *. set (d := FormatInt (n mod 256)) in *.
  clearbody a b c d. change (Join dot [a; b; c; d]) with (a +:+ String dot (b +:+ String dot (c +:+ String dot d))).
  assert (ND : ∀ w, all_bytes (λ c, bool_decide (is_Some (digit_of c))) w = true → all_bytes (not_byte dot) w = true)
    by (intros w; apply digits_not; left; done).
  split; [|split].
  - unfold parse_v4. rewrite (split_cons dot a), (split_cons dot b), (split_cons dot c), (split_word dot d) by (by apply ND). rewrite P0, P1, P2, P3. cbn [mbind option_bind].
    f_equal. lia.
  - by rewrite family_digits.
  - assert (NZ : ∀ s, all_bytes (not_byte "%") s = true → contains_byte "%" s = false).
    { induction s as [|x s IH]; [done|]. cbn [all_bytes contains_byte]. intros [X S]%andb_true_iff.
      unfold not_byte in X. rewrite (IH S). by destruct (Ascii.eqb x "%"). }
    apply NZ. rewrite all_bytes_app, (digits_not _ a) by (done || left; done). cbn [all_bytes andb].
    rewrite all_bytes_app, (digits_not _ b) by (done || left; done). cbn [all_bytes andb].
    rewrite all_bytes_app, (digits_not _ c) by (done || left; done). cbn [all_bytes andb].
    by rewrite (digits_not _ d) by (done || left; done).
Qed.

Lemma no_zone_v6 n : contains_byte "%" (addr_String (V6 n)) = false.
Proof. apply no_zone. cbn [addr_String]. exact (v6_from_bytes n 9 0 (zero_run 0 (v6_groups n) (0, 0)%nat)). Qed.

Lemma parseIP_v4 s n :
  contains_byte "%" s = false → family s = Some dot → parse_v4 s = Some n → parseIP s = Some (V4 n).
Proof. intros Z F P. unfold parseIP. rewrite Z, F. cbn [mbind option_bind]. by rewrite P. Qed.
Lemma parseIP_v6 s n :
  contains_byte "%" s = false → family s = Some colon → parse_v6 s = Some n → is4in6 n = false → parseIP s = Some (V6 n).
Proof.
  intros Z F P N. unfold parseIP. rewrite Z, F. cbn [mbind option_bind]. rewrite P. cbn [mbind option_bind]. by rewrite N.
Qed.
Lemma parse_String a : valid_addr a → parseIP (addr_String a) = Some a.
Proof.
  destruct a as [n|n]; cbn [valid_addr].
  - intros R. destruct (parse_v4_text n R) as (P & F & Z). exact (parseIP_v4 (v4_text n) n Z F P).
  - intros [R N]. destruct (parse_printed n R) as [P F]. exact (parseIP_v6 _ n (no_zone_v6 n) F P N).
Qed.
Lemma addr_String_inj a b : valid_addr a → valid_addr b → addr_String a = addr_String b → a = b.
Proof. intros A B E. apply parse_String in A, B. rewrite E in A. congruence. Qed.

(** ** What [parseIP] yields is valid *)

Lemma octet_digits_range s : ∀ acc n, 0 ≤ acc ≤ 255 → octet_digits acc s = Some n → 0 ≤ n ≤ 255.
Proof.
  induction s as [|c s IH]; intros acc n A; cbn [octet_digits]; [by intros [= <-]|].
  destruct (digit_of c) as [d|] eqn:D; [|done]. cbn [mbind option_bind].
  destruct (Z.ltb_spec 255 (acc * 10 + d)); [done|]. apply IH.
  unfold digit_of in D. case_match eqn:E; [|done]. injection D as <-. apply andb_true_iff in E. lia.
Qed.
Lemma parse_octet_range s n : parse_octet s = Some n → 0 ≤ n ≤ 255.
Proof. unfold parse_octet. destruct s; [done|]. case_match; [done|]. by apply octet_digits_range. Qed.
Lemma parse_v4_range s n : parse_v4 s = Some n → 0 ≤ n < 2 ^ 32.
Proof.
  unfold parse_v4. destruct (Split dot s) as [|a [|b [|c [|d []]]]]; try done.
  destruct (parse_octet a) eqn:A; [|done]. destruct (parse_octet b) eqn:B; [|done].
  destruct (parse_octet c) eqn:C; [|done]. destruct (parse_octet d) eqn:D; [|done]. cbn [mbind option_bind].
  intros [= <-]. apply parse_octet_range in A, B, C, D. lia.
Qed.
Lemma hex_group_range s : ∀ n acc k v r,
  0 ≤ n ≤ 4 → 0 ≤ acc < 16 ^ n → hex_group n acc s = Some (k, v, r) → 0 ≤ v < 65536.
Proof.
  induction s as [|c s IH]; intros n acc k v r N A; cbn [hex_group].
  - intros [= <- <- <-]. assert (16 ^ n ≤ 16 ^ 4) by (apply Z.pow_le_mono_r; lia). lia.
  - destruct (hex_val c) as [d|] eqn:D.
    2:{ intros [= <- <- <-]. assert (16 ^ n ≤ 16 ^ 4) by (apply Z.pow_le_mono_r; lia). lia. }
    destruct (Z.ltb_spec 3 n); [done|]. apply IH; [lia|].
    assert (0 ≤ d < 16) by (unfold hex_val in D; repeat case_match; simplify_eq; lia).
    rewrite Z.pow_add_r by lia. lia.
Qed.
Definition in_group (g : Z) : Prop := 0 ≤ g < 65536.
Lemma v6_loop_range fuel : ∀ acc e s gs e',
  Forall in_group acc → v6_loop fuel acc e s = Some (gs, e') → Forall in_group gs.
Proof.
  induction fuel as [|fuel IH]; intros acc e s gs e' A; cbn [v6_loop].
  { case_bool_decide; [|done]. by intros [= <- <-]. }
  destruct (hex_group 0 0 s) as [[[n v] r]|] eqn:G; [|done]. cbn [mbind option_bind].
  assert (V : Forall in_group (v :: acc)).
  { apply list.Forall_cons. split; [|done]. eapply hex_group_range; [| |exact G]; lia. }
  destruct (n =? 0); [done|]. destruct r as [|c r]; [by intros [= <- <-]|].
  destruct (Ascii.eqb c dot).
  - destruct (_ && _); [done|]. destruct (bool_decide (6 < _)%nat); [done|]. destruct (parse_v4 s) as [v4|] eqn:P4; [|done].
    cbn [mbind option_bind]. intros [= <- <-]. apply parse_v4_range in P4.
    apply list.Forall_cons. split; [apply Z.mod_pos_bound; lia|].
    apply list.Forall_cons. split; [|done].
    unfold in_group. split; [apply Z.div_pos; lia | apply Z.div_lt_upper_bound; lia].
  - destruct (negb _); [done|]. destruct r as [|c2 r]; [done|].
    destruct (Ascii.eqb c2 ":"); [|by apply IH].
    destruct e; [done|]. case_bool_decide; [by intros [= <- <-] | by apply IH].
Qed.
Lemma v6_value_range gs : Forall in_group gs → 0 ≤ v6_value gs < 65536 ^ zlen gs.
Proof.
  unfold v6_value. intros F. induction gs as [|g gs IH] using rev_ind; [done|].
  apply Forall_app in F as [F G]. apply list.Forall_cons in G as [G _]. specialize (IH F). rewrite foldl_app. cbn [foldl].
  unfold zlen in *. rewrite length_app, Nat2Z.inj_add. cbn [length]. rewrite Z.pow_add_r by lia. change (65536 ^ Z.of_nat 1) with 65536.
  unfold in_group in G. lia.
Qed.
Lemma parse_v6_range s n : parse_v6 s = Some n → 0 ≤ n < 2 ^ 128.
Proof.
  unfold parse_v6. destruct (match s with String _ _ => _ | _ => _ end) as [start body].
  case_match; [by intros [= <-]|]. destruct (v6_loop 8 [] start body) as [[rg e]|] eqn:L; [|done].
  cbn [mbind option_bind]. apply v6_loop_range in L; [|done].
  assert (G : Forall in_group (rev rg)) by (by apply Forall_rev). change (2 ^ 128) with (65536 ^ 8).
  destruct e as [k|]; intros E; (case_bool_decide as N; [|discriminate E]);
    apply (inj Some) in E; rewrite <- E.
  - match goal with |- context [v6_value ?l] => assert (X : zlen l = 8) end.
    { unfold zlen. rewrite !length_app, length_replicate, length_take, length_drop. lia. }
    rewrite <- X. apply v6_value_range. repeat apply Forall_app_2; [by apply Forall_take | | by apply Forall_drop].
    by apply Forall_replicate.
  - assert (X : zlen (rev rg) = 8) by (unfold zlen; lia). rewrite <- X. by apply v6_value_range.
Qed.
Lemma parseIP_valid s a : parseIP s = Some a → valid_addr a.
Proof.
  unfold parseIP. case_match; [done|]. destruct (family s) as [c|]; [|done]. cbn [mbind option_bind].
  destruct (Ascii.eqb c dot).
  - destruct (parse_v4 s) eqn:P; [|done]. intros [= <-]. by apply parse_v4_range in P.
  - destruct (parse_v6 s) eqn:P; [|done]. cbn [mbind option_bind]. case_match; [done|]. intros [= <-].
    split; [by apply parse_v6_range in P | done].
Qed.

(** An address survives its text: what Wings prints for an address that [parseIP]
    accepted, compressed the way netip prints it, is read back as that address, so that
    allocations compared by their printed address are compared by their address. *)
Theorem parseIP_String s a : parseIP s = Some a → parseIP (addr_String a) = Some a.
Proof. intros P. by eapply parse_String, parseIP_valid. Qed.

Lemma parseIP_String_witness :
  parseIP "2001:0DB8:0:0:1:0:0:1" = Some (V6 42540766411282592856904266426630537217)
  ∧ addr_String (V6 42540766411282592856904266426630537217) = "2001:db8::1:0:0:1"%string
  ∧ parseIP (addr_String (V6 42540766411282592856904266426630537217)) = Some (V6 42540766411282592856904266426630537217).
Proof.
  split; [reflexivity|]. split; [reflexivity|].
  apply (parseIP_String "2001:0DB8:0:0:1:0:0:1"). reflexivity.
Defined.
