(* ===== verification/Route.v ===== *)
(** * Route netlink (internal/networkpolicy/route.go)

    Requests and replies as bytes in native order, the decoding of a reply datagram, the
    loop that collects the replies of a request, and the lookup of an interface.

    The kernel is an oracle: what it answers may depend on every request made so far.  The
    netlink package (attributes, message validation) is a parameter. *)

From stdpp Require Import base list strings numbers.
From Stdlib Require Import Ascii.
From S2P Require Import Prelude GoStrings.
Open Scope Z_scope.

(** ** Bytes in native order *)

Abbreviation bytes := (list Z).

Fixpoint le_bytes (n : nat) (v : Z) : bytes :=
  match n with O => [] | S n' => v mod 256 :: le_bytes n' (v / 256) end.
Fixpoint le_value (b : bytes) : Z :=
  match b with [] => 0 | x :: b' => x + 256 * le_value b' end.

(** [binary.NativeEndian]: the machine's byte order. *)
Class Machine := { big_endian : bool }.
Definition put `{Machine} (n : nat) (v : Z) : bytes :=
  if big_endian then rev (le_bytes n v) else le_bytes n v.
Definition get `{Machine} (b : bytes) : Z := le_value (if big_endian then rev b else b).

(** The bytes of [data] from [i] to [j]. *)
Definition sub (i j : nat) (data : bytes) : bytes := take (j - i) (drop i data).
(** Writing bytes into a buffer at a position. *)
Definition put_at (i : nat) (b data : bytes) : bytes := take i data ++ b ++ drop (i + length b) data.
Definition text_bytes (s : string) : bytes := map (λ c, Z.of_N (N_of_ascii c)) (String.list_ascii_of_string s).

(** A 32-bit word read as a signed integer. *)
Definition int32 (v : Z) : Z := if v <? 2 ^ 31 then v else v - 2 ^ 32.

Definition routeU32 `{Machine} (v : Z) : bytes := put 4 v.
Definition routeU64 `{Machine} (v : Z) : bytes := put 8 v.

(** ** Messages *)

Record message := mkMessage { ms_type : Z; ms_flags : Z; ms_seq : Z; ms_pid : Z; ms_data : bytes }.

Definition NLM_F_REQUEST : Z := 1.
Definition NLM_F_MULTI : Z := 2.
Definition NLM_F_ACK : Z := 4.
Definition NLM_F_DUMP_INTR : Z := 16.
Definition NLM_F_EXCL : Z := 512.
Definition NLM_F_DUMP : Z := 768.
Definition NLM_F_CREATE : Z := 1024.
Definition nl_error : Z := 2.
Definition nl_done : Z := 3.
Definition nl_overrun : Z := 4.
Definition RTM_NEWLINK : Z := 16.
Definition RTM_GETLINK : Z := 18.
Definition RTM_NEWQDISC : Z := 36.
Definition RTM_DELQDISC : Z := 37.
Definition RTM_GETQDISC : Z := 38.

(** The netlink package: [MarshalAttributes], the attributes an [AttributeDecoder] yields,
    the bytes of an attribute read as a string, [Message.UnmarshalBinary] and [Validate]. *)
Class Netlink := {
  marshal_attributes : list (Z * bytes) → option bytes;
  attributes : bytes → option (list (Z * bytes));
  attr_string : bytes → string;
  unmarshal_message : bytes → option message;
  validate_message : message → message → bool;
}.
(** The room an attribute takes: a header, its bytes, and padding to four. *)
Definition attributes_room (l : list (Z * bytes)) : Z := foldr (λ a acc, 7 + zlen (snd a) + acc) 0 l.
(** What is marshalled is decoded, short attributes are marshalled, and a string attribute
    loses its terminator. *)
Class NetlinkLaws `{Netlink} := {
  attributes_marshal l b : marshal_attributes l = Some b → attributes b = Some l;
  marshal_short l :
    Forall (λ a, 0 ≤ fst a < 2 ^ 14 ∧ zlen (snd a) < 65000) l →
    ∃ b, marshal_attributes l = Some b ∧ zlen b ≤ attributes_room l;
  attr_string_zero s : attr_string (text_bytes s ++ [0]) = s;
}.

(** [decoder.Uint32] and [decoder.Uint64] fail on another length. *)
Definition attr_uint `{Machine} (n : nat) (b : bytes) : option Z :=
  if bool_decide (length b = n) then Some (get b) else None.

Inductive rerr :=
| RCtx | ROpen | RDatagram | RBounds | RHeader | RLength | RUnmarshal | RValidate | RInterrupted | ROverrun
| RCompletion | RKernel (errno : Z) | RNotAcked | RMultipart | RAfterDone | RAlignment | RTooMany
| RName | RAttributes | RLookup | RLink
| RQdisc | RProfile | RForeign | RDrift | RFuel.

Definition has_flag (flags bits : Z) : bool := negb (Z.land flags bits =? 0).
Definition has_flags (flags bits : Z) : bool := Z.land flags bits =? bits.

Definition of_option {A} (e : rerr) (o : option A) : result rerr A :=
  match o with Some a => Ok a | None => Err e end.

Section Replies.
Context `{Machine} `{Netlink}.
Variable request : message.

(** One message of a datagram: whether it is kept, and whether it ends the reply. *)
Definition reply_message (m : message) : result rerr (list message * bool) :=
  let dump := has_flags (ms_flags request) NLM_F_DUMP in
  _ ← require (validate_message request m) RValidate;
  _ ← require (negb (has_flag (ms_flags m) NLM_F_DUMP_INTR)) RInterrupted;
  if ms_type m =? nl_overrun then Err ROverrun
  else if (ms_type m =? nl_error) || (ms_type m =? nl_done) then
    _ ← require (negb ((ms_type m =? nl_done) && negb dump)) RCompletion;
    _ ← require (4 <=? zlen (ms_data m)) RCompletion;
    let code := int32 (get (sub 0 4 (ms_data m))) in
    if code <? 0 then Err (RKernel (- code))
    else if 0 <? code then Err RCompletion
    else Ok ([], (ms_type m =? nl_done) || negb dump)
  else
    _ ← require (negb (has_flag (ms_flags request) NLM_F_ACK && negb dump)) RNotAcked;
    _ ← require (negb (dump && negb (has_flag (ms_flags m) NLM_F_MULTI))) RMultipart;
    Ok ([m], negb (has_flag (ms_flags m) NLM_F_MULTI)).

(** [(length + 3) &^ 3], or the end of the datagram. *)
Definition aligned (len total : Z) : result rerr Z :=
  let a := Z.land (len + 3) (Z.lnot 3) in
  if total <? a then (if len =? total then Ok len else Err RAlignment) else Ok a.

(** Each round consumes a header: the length of the datagram is fuel enough. *)
Fixpoint reply_loop (fuel : nat) (data : bytes) (done : bool) : result rerr (list message * bool) :=
  match data with
  | [] => Ok ([], done)
  | _ :: _ =>
      match fuel with
      | O => Err RFuel
      | S fuel' =>
          if done then Err RAfterDone
          else if zlen data <? 16 then Err RHeader
          else
            let len := get (sub 0 4 data) in
            if (len <? 16) || (zlen data <? len) then Err RLength
            else
              m ← of_option RUnmarshal (unmarshal_message (take (Z.to_nat len) data));
              '(kept, fin) ← reply_message m;
              a ← aligned len (zlen data);
              '(rest, fin') ← reply_loop fuel' (drop (Z.to_nat a) data) fin;
              Ok (kept ++ rest, fin')
      end
  end.
Definition decodeRouteReply (data : bytes) : result rerr (list message * bool) :=
  reply_loop (length data) data false.

(** ** Collecting the replies *)

Definition routeReadLimit : Z := 2 ^ 20.

(** A received datagram: the sender's port, whether it was cut, its bytes. *)
Record datagram := mkDatagram { dg_pid : Z; dg_cut : bool; dg_data : bytes }.

(** The messages of other devices are not kept. *)
Definition other_device (m : message) : bool :=
  (ms_type request =? RTM_GETQDISC) && (8 <=? zlen (ms_data request)) && (8 <=? zlen (ms_data m))
  && negb (get (sub 4 8 (ms_data m)) =? get (sub 4 8 (ms_data request))).
Fixpoint keep_messages (ms : list message) (total : Z) : result rerr (list message * Z) :=
  match ms with
  | [] => Ok ([], total)
  | m :: ms' =>
      if other_device m then keep_messages ms' total
      else
        let total' := total + zlen (ms_data m) + 16 in
        if routeReadLimit <? total' then Err RBounds
        else '(rest, t) ← keep_messages ms' total'; Ok (m :: rest, t)
  end.

(** The receiving loop of [request] over the datagrams that arrive before the deadline. *)
Fixpoint receive (ds : list datagram) (replies : list message) (total : Z) : result rerr (list message) :=
  match ds with
  | [] => Err RCtx
  | d :: ds' =>
      if negb (dg_pid d =? 0) then Err RDatagram
      else if (zlen (dg_data d) <? 16) || (routeReadLimit <? zlen (dg_data d)) then Err RBounds
      else if dg_cut d then Err RDatagram
      else
        reply ← decodeRouteReply (dg_data d);
        kept ← keep_messages (fst reply) total;
        let replies' := replies ++ fst kept in
        if 4096 <? zlen replies' then Err RTooMany
        else if (snd reply : bool) then Ok replies' else receive ds' replies' (snd kept)
  end.
End Replies.

(** ** Interfaces *)

Record Link := mkLink {
  ln_Index : Z; ln_Peer : Z; ln_Name : string; ln_Address : bytes; ln_MTU : Z; ln_master : Z }.

Definition IFLA_ADDRESS : Z := 1.
Definition IFLA_IFNAME : Z := 3.
Definition IFLA_MTU : Z := 4.
Definition IFLA_LINK : Z := 5.
Definition IFLA_MASTER : Z := 10.

Section Links.
Context `{Machine} `{Netlink}.

Fixpoint link_attributes (l : list (Z * bytes)) (k : Link) : option Link :=
  match l with
  | [] => Some k
  | (t, b) :: l' =>
      k' ← (if t =? IFLA_IFNAME then
              Some (mkLink (ln_Index k) (ln_Peer k) (attr_string b) (ln_Address k) (ln_MTU k) (ln_master k))
            else if t =? IFLA_MTU then
              v ← attr_uint 4 b; Some (mkLink (ln_Index k) (ln_Peer k) (ln_Name k) (ln_Address k) v (ln_master k))
            else if t =? IFLA_LINK then
              v ← attr_uint 4 b; Some (mkLink (ln_Index k) v (ln_Name k) (ln_Address k) (ln_MTU k) (ln_master k))
            else if t =? IFLA_MASTER then
              v ← attr_uint 4 b; Some (mkLink (ln_Index k) (ln_Peer k) (ln_Name k) (ln_Address k) (ln_MTU k) v)
            else if t =? IFLA_ADDRESS then
              Some (mkLink (ln_Index k) (ln_Peer k) (ln_Name k) b (ln_MTU k) (ln_master k))
            else Some k);
      link_attributes l' k'
  end.

Definition decodeRouteLink (m : message) : result rerr Link :=
  if negb (ms_type m =? RTM_NEWLINK) || (zlen (ms_data m) <? 16) then Err RLink
  else
    attrs ← of_option RAttributes (attributes (drop 16 (ms_data m)));
    k ← of_option RAttributes
          (link_attributes attrs (mkLink (int32 (get (sub 4 8 (ms_data m)))) 0 EmptyString [] 0 0));
    if (ln_Index k <=? 0) || bool_decide (ln_Name k = EmptyString) || (ln_MTU k <=? 0) then Err RLink else Ok k.
End Links.

(** ** A client: requests in order, and what the kernel answers *)

Record request := mkRequest { rq_kind : Z; rq_flags : Z; rq_data : bytes }.

Class Kernel := {
  (** The answer to the last request of the history. *)
  answer : list request → result rerr (list message);
  (** Whether the context is done after these requests. *)
  cancelled : list request → bool;
  (** Whether the socket opens. *)
  route_opens : bool;
}.

(** Computations that make requests. *)
Definition M (A : Type) : Type := list request → list request * result rerr A.
#[global] Instance M_ret : MRet M := λ A a h, (h, Ok a).
#[global] Instance M_bind : MBind M := λ A B f m h,
  let '(h', r) := m h in match r with Ok a => f a h' | Err e => (h', Err e) end.
Definition lift {A} (r : result rerr A) : M A := λ h, (h, r).

Definition send `{Kernel} (r : request) : M (list message) :=
  λ h, if cancelled h then (h, Err RCtx) else (h ++ [r], answer (h ++ [r])).
Definition check_ctx `{Kernel} : M unit := λ h, (h, if cancelled h then Err RCtx else Ok tt).
Definition route `{Kernel} : M unit := λ h,
  (h, if cancelled h then Err RCtx else if route_opens then Ok tt else Err ROpen).

Definition bad_name_byte (c : ascii) : bool :=
  let n := N_of_ascii c in
  (n =? 0)%N || (n =? 47)%N || (n =? 58)%N || (n =? 32)%N || (n =? 9)%N || (n =? 13)%N || (n =? 10)%N.
Definition valid_link_name (name : string) : bool :=
  negb (bool_decide (name = EmptyString)) && (strlen name <=? 15)
  && negb (existsb bad_name_byte (String.list_ascii_of_string name)).

Definition routeLink `{Machine} `{Netlink} `{Kernel} (name : string) : M Link :=
  _ ← lift (require (valid_link_name name) RName);
  attrs ← lift (of_option RAttributes (marshal_attributes [(IFLA_IFNAME, text_bytes name ++ [0])]));
  replies ← send (mkRequest RTM_GETLINK 0 (repeat 0 16 ++ attrs));
  link ← lift (match replies with [m] => decodeRouteLink m | _ => Err RLookup end);
  _ ← lift (require (bool_decide (ln_Name link = name)) RLookup);
  mret link.
