(* ===== verification/Shaping.v ===== *)
(** * Traffic shaping (internal/networkpolicy/shaping.go)

    A rate becomes a token bucket with a fair queue below it.  [Shape] reads the queues of
    the device, refuses those of an administrator, leaves matching queues alone and
    otherwise replaces what differs; [VerifyShape] reads them back. *)

From stdpp Require Import base list strings numbers.
From S2P Require Import Prelude GoStrings Policy Route Nft.
Open Scope Z_scope.

(** ** Handles *)

Definition rootHandle : Z := 1314062336.
Definition leafHandle : Z := 1314127872.
Definition rootParent : Z := 4294967295.
Definition leafParent : Z := 1314062337.

(** [fmt.Sprintf] of a handle in hexadecimal. *)
Definition handleString (handle : Z) : string :=
  let major := hex_text 8 (Z.shiftr handle 16) EmptyString in
  if Z.land handle 65535 =? 0 then (major +:+ ":")%string
  else (major +:+ ":" +:+ hex_text 8 (Z.land handle 65535) EmptyString)%string.

Definition shapingHandle : string := "4e53:".
Definition fairQueueHandle : string := "4e54:".
Definition shapingParent : string := "4e53:1".

(** ** The profile of a rate *)

Record shapingProfile := mkProfile {
  sp_rate : Z; sp_burst : Z; sp_limit : Z; sp_packets : Z; sp_memory : Z; sp_quantum : Z }.
Definition no_profile : shapingProfile := mkProfile 0 0 0 0 0 0.

Definition newShapingProfile (device : string) (rate mtu : Z) : result rerr shapingProfile :=
  if negb (idPattern device) || (15 <? strlen device) || negb (validRate rate) then Err RProfile
  else if rate =? 0 then Ok no_profile
  else if negb (rate mod 8 =? 0) then Err RProfile
  else if (mtu <? 576) || (65536 <? mtu) then Err RProfile
  else
    let frame := mtu in
    let burst := Z.min (Z.max (rate / 800) (2 * frame)) (2 ^ 20) in
    if rate / 8 * 60 <? burst then Err RProfile
    else
      let queue := Z.min (Z.max (rate / 160) (2 * frame)) (2 * 2 ^ 20) in
      Ok (mkProfile rate burst (burst + queue)
            (Z.min (Z.max ((queue + frame - 1) / frame) 32) 2048)
            (Z.min (Z.max (queue * 2) (64 * 2 ^ 10)) (4 * 2 ^ 20))
            (frame + 14)).

(** ** Queues *)

Record tbfState := mkTbf { tb_Rate : Z; tb_Buffer : Z; tb_Limit : Z; tb_Unsupported : bool }.
Record fairQueueState := mkFair {
  fq_Limit : Z; fq_Flows : Z; fq_Quantum : Z; fq_Target : Z; fq_Interval : Z; fq_Memory : Z; fq_ECN : Z }.
Record qdisc := mkQdisc {
  qd_Kind : string; qd_Handle : string; qd_Parent : string; qd_Root : bool;
  qd_TBF : option tbfState; qd_Fair : option fairQueueState }.

(** The loops of [ownedShapers]: first the root, then its descendants. *)
Fixpoint owned_root (active : bool) (l : list qdisc) (root : option qdisc) : result rerr (option qdisc) :=
  match l with
  | [] => Ok root
  | q :: l' =>
      if qd_Root q then
        if bool_decide (qd_Handle q = shapingHandle) then
          if negb (bool_decide (qd_Kind q = "tbf"%string)) || bool_decide (is_Some root) then Err RForeign
          else owned_root active l' (Some q)
        else if active && (negb (bool_decide (qd_Kind q = "noqueue"%string))
                           || negb (bool_decide (qd_Handle q = "0:"%string))) then Err RForeign
        else owned_root active l' root
      else owned_root active l' root
  end.
Fixpoint owned_leaf (l : list qdisc) (leaf : option qdisc) : result rerr (option qdisc) :=
  match l with
  | [] => Ok leaf
  | q :: l' =>
      if qd_Root q || bool_decide (qd_Kind q = "clsact"%string) || bool_decide (qd_Kind q = "ingress"%string)
      then owned_leaf l' leaf
      else if bool_decide (qd_Parent q = shapingParent) && bool_decide (qd_Handle q = fairQueueHandle)
              && bool_decide (qd_Kind q = "fq_codel"%string) && negb (bool_decide (is_Some leaf))
      then owned_leaf l' (Some q) else Err RForeign
  end.
Definition ownedShapers (qdiscs : list qdisc) (active : bool)
    : result rerr (option qdisc * option qdisc) :=
  root ← owned_root active qdiscs None;
  match root with
  | None => Ok (None, None)
  | Some _ => leaf ← owned_leaf qdiscs None; Ok (root, leaf)
  end.

Definition uint32 (v : Z) : Z := v mod 2 ^ 32.
Definition uint64 (v : Z) : Z := v mod 2 ^ 64.

Definition burstTicks (rate burst : Z) : Z :=
  if rate =? 0 then 0 else uint32 (Z.shiftr (uint64 (burst * 1000000000) / rate) 6).

Definition matchesRoot (p : shapingProfile) (q : option qdisc) : bool :=
  match q ≫= qd_TBF with
  | None => false
  | Some t =>
      if tb_Unsupported t then false
      else
        let want := burstTicks (uint64 (sp_rate p / 8)) (uint64 (sp_burst p)) in
        (tb_Rate t =? uint64 (sp_rate p / 8)) && (tb_Limit t =? uint32 (sp_limit p))
        && (0 <? tb_Buffer t) && (tb_Buffer t <=? want) && (uint32 (want - tb_Buffer t) <=? 16)
  end.

Definition matchesLeaf (p : shapingProfile) (q : option qdisc) : bool :=
  match q ≫= qd_Fair with
  | None => false
  | Some f =>
      (fq_Limit f =? uint32 (sp_packets p)) && (fq_Flows f =? 1024) && (fq_Quantum f =? uint32 (sp_quantum p))
      && (4999 <=? fq_Target f) && (fq_Target f <=? 5000)
      && (99999 <=? fq_Interval f) && (fq_Interval f <=? 100000)
      && (fq_Memory f =? uint32 (sp_memory p)) && (fq_ECN f =? 1)
  end.

Definition verify (p : shapingProfile) (qdiscs : list qdisc) : result rerr unit :=
  '(root, leaf) ← ownedShapers qdiscs (negb (sp_rate p =? 0));
  if sp_rate p =? 0 then require (negb (bool_decide (is_Some root))) RDrift
  else
    _ ← require (bool_decide (is_Some root)) RDrift;
    _ ← require (matchesRoot p root) RDrift;
    require (matchesLeaf p leaf) RDrift.

(** ** Bytes *)

Definition tcaKind : Z := 1.
Definition tcaOptions : Z := 2.
Definition tbfParameters : Z := 1.
Definition tbfRate64 : Z := 4.
Definition tbfPeakRate64 : Z := 5.
Definition tbfBurst : Z := 6.
Definition fqTarget : Z := 1.
Definition fqLimit : Z := 2.
Definition fqInterval : Z := 3.
Definition fqECN : Z := 4.
Definition fqFlows : Z := 5.
Definition fqQuantum : Z := 6.
Definition fqMemory : Z := 9.

Section Codec.
Context `{Machine} `{Netlink}.

Definition tbfOptions (p : shapingProfile) : list (Z * bytes) :=
  let rate := uint64 (sp_rate p / 8) in
  let parameters :=
    put_at 28 (put 4 (burstTicks rate (uint64 (sp_burst p))))
      (put_at 24 (put 4 (uint32 (sp_limit p)))
         (put_at 8 (put 4 (uint32 (Z.min rate 4294967295)))
            (put_at 1 [1] (repeat 0 36)))) in
  [(tbfParameters, parameters); (tbfRate64, routeU64 rate); (tbfBurst, routeU32 (uint32 (sp_burst p)))].

Definition fairOptions (p : shapingProfile) (create : bool) : list (Z * bytes) :=
  [(fqTarget, routeU32 5000); (fqLimit, routeU32 (uint32 (sp_packets p))); (fqInterval, routeU32 100000);
   (fqECN, routeU32 1); (fqQuantum, routeU32 (uint32 (sp_quantum p))); (fqMemory, routeU32 (uint32 (sp_memory p)))]
  ++ (if create then [(fqFlows, routeU32 1024)] else []).

Definition shaperMessage (index handle parent : Z) : bytes :=
  put_at 12 (put 4 parent) (put_at 8 (put 4 handle) (put_at 4 (put 4 (uint32 index)) (repeat 0 20))).

(** The loop over the options of a token bucket. *)
Fixpoint tbf_attributes (l : list (Z * bytes)) (st : tbfState) (rate64 : option Z) (found : bool)
    : result rerr (tbfState * option Z * bool) :=
  match l with
  | [] => Ok (st, rate64, found)
  | (t, b) :: l' =>
      if t =? tbfParameters then
        if negb (zlen b =? 36) then Err RQdisc
        else
          let unsupported :=
            tb_Unsupported st || (1 <? default 0 (b !! 1%nat)) || negb (get (sub 2 4 b) =? 0)
            || negb (get (sub 6 8 b) =? 0) || negb (get (sub 20 24 b) =? 0) || negb (get (sub 32 36 b) =? 0) in
          tbf_attributes l'
            (mkTbf (get (sub 8 12 b)) (get (sub 28 32 b)) (get (sub 24 28 b)) unsupported) rate64 true
      else if t =? tbfRate64 then
        v ← of_option RAttributes (attr_uint 8 b); tbf_attributes l' st (Some v) found
      else if t =? tbfPeakRate64 then
        v ← of_option RAttributes (attr_uint 8 b);
        tbf_attributes l'
          (if v =? 0 then st else mkTbf (tb_Rate st) (tb_Buffer st) (tb_Limit st) true) rate64 found
      else tbf_attributes l' st rate64 found
  end.

Definition set_fair (f : fairQueueState) (t v : Z) : fairQueueState :=
  let 'mkFair limit flows quantum target interval memory ecn := f in
  if t =? fqTarget then mkFair limit flows quantum v interval memory ecn
  else if t =? fqLimit then mkFair v flows quantum target interval memory ecn
  else if t =? fqInterval then mkFair limit flows quantum target v memory ecn
  else if t =? fqECN then mkFair limit flows quantum target interval memory v
  else if t =? fqFlows then mkFair limit v quantum target interval memory ecn
  else if t =? fqQuantum then mkFair limit flows v target interval memory ecn
  else mkFair limit flows quantum target interval v ecn.
Fixpoint fair_attributes (l : list (Z * bytes)) (f : fairQueueState) : result rerr fairQueueState :=
  match l with
  | [] => Ok f
  | (t, b) :: l' =>
      if ((fqTarget <=? t) && (t <=? fqQuantum)) || (t =? fqMemory) then
        v ← of_option RAttributes (attr_uint 4 b); fair_attributes l' (set_fair f t v)
      else fair_attributes l' f
  end.

(** The outer attributes: the last kind and the last options. *)
Fixpoint outer_attributes (l : list (Z * bytes)) (kind : string) (options : bytes) : string * bytes :=
  match l with
  | [] => (kind, options)
  | (t, b) :: l' =>
      if t =? tcaKind then outer_attributes l' (attr_string b) options
      else if t =? tcaOptions then outer_attributes l' kind b
      else outer_attributes l' kind options
  end.

Definition decodeRouteShaper (data : bytes) : result rerr qdisc :=
  if zlen data <? 20 then Err RQdisc
  else
    let parent := get (sub 12 16 data) in
    let handle := get (sub 8 12 data) in
    attrs ← of_option RAttributes (attributes (drop 20 data));
    let '(kind, options) := outer_attributes attrs EmptyString [] in
    let q := mkQdisc kind (handleString handle) (handleString parent) (parent =? rootParent) in
    if bool_decide (kind = EmptyString) then Err RQdisc
    else if bool_decide (kind = "tbf"%string) then
      opts ← of_option RAttributes (attributes options);
      '(st, rate64, found) ← tbf_attributes opts (mkTbf 0 0 0 false) None false;
      _ ← require found RQdisc;
      let rate := default (tb_Rate st) rate64 in
      Ok (q (Some (mkTbf rate (tb_Buffer st) (tb_Limit st) (tb_Unsupported st))) None)
    else if bool_decide (kind = "fq_codel"%string) then
      opts ← of_option RAttributes (attributes options);
      f ← fair_attributes opts (mkFair 0 0 0 0 0 0 0);
      Ok (q None (Some f))
    else Ok (q None None).

(** The queues of the device among the replies. *)
Fixpoint decode_shapers (index : Z) (replies : list message) : result rerr (list qdisc) :=
  match replies with
  | [] => Ok []
  | m :: replies' =>
      if negb (ms_type m =? RTM_NEWQDISC) || (zlen (ms_data m) <? 20) then Err RQdisc
      else if negb (int32 (get (sub 4 8 (ms_data m))) =? index) then decode_shapers index replies'
      else q ← decodeRouteShaper (ms_data m); qs ← decode_shapers index replies'; Ok (q :: qs)
  end.
End Codec.

(** ** Operations *)

Section Operations.
Context `{Machine} `{Netlink} `{Kernel}.

Definition readRouteShapers (index : Z) : M (list qdisc) :=
  replies ← send (mkRequest RTM_GETQDISC NLM_F_DUMP (shaperMessage index 0 0));
  lift (decode_shapers index replies).

Definition readShapers (device : string) : M (list qdisc) :=
  _ ← route; link ← routeLink device; readRouteShapers (ln_Index link).

(** The message of a change: [RTM_DELQDISC] carries no attributes. *)
Definition shaper_data (index command handle parent : Z) (kind : string) (options : list (Z * bytes))
    : result rerr bytes :=
  let data := shaperMessage index handle parent in
  if command =? RTM_DELQDISC then Ok data
  else
    nested ← of_option RAttributes (marshal_attributes options);
    attrs ← of_option RAttributes
              (marshal_attributes [(tcaKind, text_bytes kind ++ [0]); (tcaOptions, nested)]);
    Ok (data ++ attrs).
Definition changeRouteShaper (index command flags handle parent : Z) (kind : string)
    (options : list (Z * bytes)) : M unit :=
  _ ← check_ctx;
  data ← lift (shaper_data index command handle parent kind options);
  _ ← send (mkRequest command (Z.lor flags NLM_F_ACK) data);
  mret tt.

Definition create_flags {A} (existing : option A) : Z :=
  match existing with None => Z.lor NLM_F_CREATE NLM_F_EXCL | Some _ => 0 end.

(** What [Shape] does with the queues it read. *)
Definition reshape (profile : shapingProfile) (index : Z) (root leaf : option qdisc) : M unit :=
  if sp_rate profile =? 0 then
    match root with
    | None => mret tt
    | Some _ => changeRouteShaper index RTM_DELQDISC 0 rootHandle rootParent EmptyString []
    end
  else
    let changed := negb (matchesRoot profile root) in
    let flows_ok := match leaf ≫= qd_Fair with None => false | Some f => fq_Flows f =? 1024 end in
    leaf' ←
      (match leaf with
       | Some _ =>
           if changed || negb flows_ok then
             _ ← changeRouteShaper index RTM_DELQDISC 0 leafHandle leafParent EmptyString []; mret None
           else mret leaf
       | None => mret None
       end);
    _ ← (if changed then
           changeRouteShaper index RTM_NEWQDISC (create_flags root) rootHandle rootParent "tbf" (tbfOptions profile)
         else mret tt);
    if matchesLeaf profile leaf' then mret tt
    else changeRouteShaper index RTM_NEWQDISC (create_flags leaf') leafHandle leafParent "fq_codel"
           (fairOptions profile (negb (bool_decide (is_Some leaf')))).

Definition Shape (device : string) (rate mtu : Z) : M unit :=
  profile ← lift (newShapingProfile device rate mtu);
  _ ← route;
  link ← routeLink device;
  qdiscs ← readRouteShapers (ln_Index link);
  '(root, leaf) ← lift (ownedShapers qdiscs (negb (rate =? 0)));
  reshape profile (ln_Index link) root leaf.

Definition VerifyShape (device : string) (rate mtu : Z) : M unit :=
  profile ← lift (newShapingProfile device rate mtu);
  qdiscs ← readShapers device;
  lift (verify profile qdiscs).
End Operations.
