(* ===== verification/ShapingFacts.v ===== *)
(** * Properties of route netlink and shaping

    Byte order and message decoding, the bounds of a profile, the agreement of what
    [Shape] writes with what [verify] accepts, and which requests [Shape] makes. *)

From stdpp Require Import base list strings numbers.
From S2P Require Import Prelude GoStrings Policy Route Nft Shaping.
Open Scope Z_scope.

(** ** Bytes *)

Lemma le_bytes_length n v : length (le_bytes n v) = n.
Proof. revert v. induction n as [|n IH]; intros v; cbn; [done|]. by rewrite IH. Qed.
Lemma le_value_bytes n v : le_value (le_bytes n v) = v mod 2 ^ (8 * Z.of_nat n).
Proof.
  revert v. induction n as [|n IH]; intros v; cbn [le_bytes le_value].
  - by rewrite Z.mod_1_r.
  - rewrite IH. replace (8 * Z.of_nat (S n)) with (8 + 8 * Z.of_nat n) by lia.
    rewrite Z.pow_add_r by lia. change (2 ^ 8) with 256.
    rewrite Z.rem_mul_r by lia. lia.
Qed.

Section Bytes.
Context `{Machine}.

Lemma put_length n v : length (put n v) = n.
Proof. unfold put. destruct big_endian; by rewrite ?length_rev, le_bytes_length. Qed.
Lemma get_put n v : get (put n v) = v mod 2 ^ (8 * Z.of_nat n).
Proof. unfold get, put. destruct big_endian; by rewrite ?rev_involutive, le_value_bytes. Qed.

Lemma put_at_length i b data : (i + length b ≤ length data)%nat → length (put_at i b data) = length data.
Proof. intros L. unfold put_at. rewrite !length_app, length_take, length_drop. lia. Qed.
Lemma sub_put_at_same i b data :
  (i + length b ≤ length data)%nat → sub i (i + length b) (put_at i b data) = b.
Proof.
  intros L. unfold sub, put_at. rewrite drop_app_ge by (rewrite length_take; lia).
  rewrite length_take_le by lia. replace (i - i)%nat with 0%nat by lia. rewrite drop_0.
  replace (i + length b - i)%nat with (length b) by lia. by rewrite take_app_length.
Qed.
Lemma get_put_at i j n v data :
  (i + n = j)%nat → (j ≤ length data)%nat → get (sub i j (put_at i (put n v) data)) = v mod 2 ^ (8 * Z.of_nat n).
Proof.
  intros <- L. pose proof (sub_put_at_same i (put n v) data) as E. rewrite put_length in E. rewrite E by lia.
  apply get_put.
Qed.
Lemma sub_put_at_other i j k b data :
  (i + length b ≤ length data)%nat → (k ≤ i ∨ i + length b ≤ j)%nat → (j ≤ k)%nat →
  sub j k (put_at i b data) = sub j k data.
Proof.
  intros L O JK. unfold sub, put_at. apply list_eq. intros n.
  destruct (decide (n < k - j)%nat) as [N|N].
  2:{ rewrite !lookup_take_ge by lia. done. }
  rewrite !lookup_take_lt, !lookup_drop by lia. destruct O as [O|O].
  - rewrite lookup_app_l by (rewrite length_take; lia). by rewrite lookup_take_lt by lia.
  - rewrite lookup_app_r by (rewrite length_take; lia). rewrite length_take_le by lia.
    rewrite lookup_app_r by lia. rewrite lookup_drop. f_equal. lia.
Qed.
End Bytes.

(** ** The decoding of a reply *)

Section Replies.
Context `{Machine} `{Netlink} (request : message).

Lemma aligned_bounds len total a :
  16 ≤ len ≤ total → aligned len total = Ok a → 16 ≤ a ≤ total.
Proof.
  intros L. unfold aligned.
  assert (A : Z.land (len + 3) (Z.lnot 3) = (len + 3) / 4 * 4).
  { change (Z.lnot 3) with (Z.lnot (Z.ones 2)).
    rewrite <- Z.ldiff_land, Z.ldiff_ones_r by lia. rewrite Z.shiftl_mul_pow2, Z.shiftr_div_pow2 by lia. done. }
  rewrite A. pose proof (Z.div_mod (len + 3) 4 ltac:(lia)). pose proof (Z.mod_pos_bound (len + 3) 4 ltac:(lia)).
  destruct (total <? _) eqn:T; [destruct (len =? total); intros [= <-]; lia|].
  apply Z.ltb_ge in T. intros [= <-]. lia.
Qed.

Lemma reply_message_no_fuel m : reply_message request m ≠ Err RFuel.
Proof.
  unfold reply_message, require.
  repeat match goal with |- context [if ?b then _ else _] => destruct b; cbn [mbind result_bind]; try done end.
Qed.

(** A round of the loop leaves fewer bytes. *)
Lemma reply_round fuel fuel' x data done :
  (∀ rest fin, (length rest ≤ length data)%nat → reply_loop request fuel rest fin = reply_loop request fuel' rest fin) →
  (∀ rest fin, (length rest ≤ length data)%nat → reply_loop request fuel rest fin ≠ Err RFuel) →
  reply_loop request (S fuel) (x :: data) done = reply_loop request (S fuel') (x :: data) done
  ∧ reply_loop request (S fuel) (x :: data) done ≠ Err RFuel.
Proof.
  intros E N. cbn [reply_loop]. destruct done; [done|].
  destruct (zlen (x :: data) <? 16); [done|].
  destruct (_ || _) eqn:L; [done|]. apply orb_false_iff in L as [L1%Z.ltb_ge L2%Z.ltb_ge].
  destruct (unmarshal_message _) as [m|]; cbn [of_option mbind result_bind]; [|done].
  pose proof (reply_message_no_fuel m) as NM.
  destruct (reply_message request m) as [[kept fin]|e]; cbn [mbind result_bind]; [|split; [done | congruence]].
  destruct (aligned _ _) as [a|e] eqn:A; cbn [mbind result_bind].
  2:{ split; [done|]. unfold aligned in A. repeat case_match; congruence. }
  apply aligned_bounds in A; [|done].
  assert (LD : (length (drop (Z.to_nat a) (x :: data)) ≤ length data)%nat).
  { rewrite length_drop. unfold zlen in A. cbn [length] in *. lia. }
  rewrite E by done. specialize (N _ fin LD). rewrite E in N by done.
  destruct (reply_loop request fuel' _ fin) as [[rest fin']|e]; cbn [mbind result_bind]; [done|].
  split; [done | congruence].
Qed.
Lemma reply_loop_fuel fuel fuel' data done :
  (length data ≤ fuel)%nat → (length data ≤ fuel')%nat →
  reply_loop request fuel data done = reply_loop request fuel' data done
  ∧ reply_loop request fuel data done ≠ Err RFuel.
Proof.
  revert fuel' data done. induction fuel as [|fuel IH]; intros fuel' data done L L'.
  { destruct data; [by destruct fuel' | cbn in L; lia]. }
  destruct data as [|x data]; [by destruct fuel'|]. cbn [length] in *.
  destruct fuel' as [|fuel']; [lia|]. apply reply_round; intros rest fin LR; apply (IH fuel' rest fin); lia.
Qed.

(** The decoding of a netlink datagram terminates: every round consumes at least a
    header, so the length of the datagram is fuel enough, and more fuel changes nothing. *)
Theorem decodeRouteReply_terminates data fuel :
  (length data ≤ fuel)%nat →
  decodeRouteReply request data ≠ Err RFuel
  ∧ reply_loop request fuel data false = decodeRouteReply request data.
Proof.
  intros L. destruct (reply_loop_fuel (length data) fuel data false) as [E N]; [done..|].
  by unfold decodeRouteReply.
Qed.

(** A completion of the kernel: an acknowledgement, or the end of a dump. *)
Definition completes (m : message) : Prop :=
  validate_message request m = true ∧ has_flag (ms_flags m) NLM_F_DUMP_INTR = false
  ∧ ms_type m = (if has_flags (ms_flags request) NLM_F_DUMP then nl_done else nl_error)
  ∧ (4 ≤ length (ms_data m))%nat ∧ int32 (get (sub 0 4 (ms_data m))) = 0.
(** What is kept of a reply: only parts of a dump, none of an acknowledged change. *)
Definition kept_ok (ms : list message) : Prop :=
  if has_flags (ms_flags request) NLM_F_DUMP
  then Forall (λ m, validate_message request m = true ∧ has_flag (ms_flags m) NLM_F_DUMP_INTR = false) ms
  else ms = [].
Definition acked_or_dump : Prop :=
  has_flag (ms_flags request) NLM_F_ACK = true ∨ has_flags (ms_flags request) NLM_F_DUMP = true.

Lemma reply_message_sound m kept fin :
  acked_or_dump → reply_message request m = Ok (kept, fin) → kept_ok kept ∧ (fin = true → completes m).
Proof.
  intros AD. unfold reply_message, kept_ok, completes.
  destruct (validate_message request m) eqn:V; cbn [require mbind result_bind]; [|done].
  destruct (has_flag (ms_flags m) NLM_F_DUMP_INTR) eqn:I; cbn [negb require mbind result_bind]; [done|].
  destruct (ms_type m =? nl_overrun); [done|].
  destruct ((ms_type m =? nl_error) || (ms_type m =? nl_done)) eqn:T.
  - destruct (has_flags (ms_flags request) NLM_F_DUMP) eqn:D; cbn [negb];
      rewrite ?andb_false_r, ?andb_true_r, ?orb_false_r, ?orb_true_r;
      cbn [negb require mbind result_bind];
      [|destruct (ms_type m =? nl_done) eqn:TD; cbn [negb require mbind result_bind]; [done|]];
      destruct (4 <=? zlen (ms_data m)) eqn:L; cbn [require mbind result_bind]; try done;
      apply Z.leb_le in L; unfold zlen in L;
      destruct (_ <? 0) eqn:C1; try done; destruct (0 <? _) eqn:C2; try done; intros [= <- <-];
      apply Z.ltb_ge in C1, C2; (split; [done|]); intros F.
    + apply Z.eqb_eq in F. repeat split; done || lia.
    + rewrite orb_false_r in T. apply Z.eqb_eq in T. repeat split; done || lia.
  - destruct AD as [A|D].
    + rewrite A. destruct (has_flags (ms_flags request) NLM_F_DUMP); cbn [negb andb require mbind result_bind]; [|done].
      destruct (has_flag (ms_flags m) NLM_F_MULTI); cbn [negb require mbind result_bind]; [|done].
      intros [= <- <-]. split; [by constructor | done].
    + rewrite D. cbn [negb]. rewrite andb_false_r. cbn [negb andb require mbind result_bind].
      destruct (has_flag (ms_flags m) NLM_F_MULTI); cbn [negb require mbind result_bind]; [|done].
      intros [= <- <-]. split; [by constructor | done].
Qed.

Lemma kept_ok_app l1 l2 : kept_ok l1 → kept_ok l2 → kept_ok (l1 ++ l2).
Proof. unfold kept_ok. case_match; [by apply Forall_app_2 | by intros -> ->]. Qed.

Lemma reply_loop_sound fuel data ms fin :
  acked_or_dump → reply_loop request fuel data false = Ok (ms, fin) →
  kept_ok ms ∧ (fin = true → ∃ b m, unmarshal_message b = Some m ∧ completes m).
Proof.
  intros AD. revert data ms fin. induction fuel as [|fuel IH]; intros data ms fin.
  { destruct data; cbn; [|done]. intros [= <- <-]. split; [|done]. unfold kept_ok. by case_match. }
  destruct data as [|x data]; cbn [reply_loop].
  { intros [= <- <-]. split; [|done]. unfold kept_ok. by case_match. }
  destruct (zlen (x :: data) <? 16); [done|]. destruct (_ || _); [done|].
  destruct (unmarshal_message _) as [m|] eqn:U; cbn [of_option mbind result_bind]; [|done].
  destruct (reply_message request m) as [[kept f1]|] eqn:R; cbn [mbind result_bind]; [|done].
  destruct (aligned _ _) as [a|]; cbn [mbind result_bind]; [|done].
  apply reply_message_sound in R as [K F]; [|done]. set (rest := drop _ _).
  destruct f1.
  - destruct fuel; destruct rest; cbn [reply_loop mbind result_bind]; try done; intros [= <- <-];
      rewrite app_nil_r; (split; [done|]); intros _; eauto.
  - destruct (reply_loop request fuel rest false) as [[ms' f2]|] eqn:L; cbn [mbind result_bind]; [|done].
    intros [= <- <-]. apply IH in L as [K' F']. split; [by apply kept_ok_app | done].
Qed.

Lemma keep_messages_spec ms total kept total' :
  keep_messages request ms total = Ok (kept, total') →
  sublist kept ms ∧ total' = total + foldr (λ m acc, zlen (ms_data m) + 16 + acc) 0 kept
  ∧ (kept ≠ [] → total' ≤ routeReadLimit).
Proof.
  revert total kept. induction ms as [|m ms IH]; intros total kept; cbn [keep_messages].
  - intros [= <- <-]. cbn. split; [done|]. split; [lia | done].
  - destruct (other_device request m).
    + intros K. apply IH in K as (S & T & B). split; [by constructor | done].
    + destruct (_ <? _) eqn:L; [done|]. apply Z.ltb_ge in L.
      destruct (keep_messages request ms _) as [[rest t]|] eqn:K; cbn [mbind result_bind]; [|done].
      intros [= <- <-]. apply IH in K as (S & T & B). split; [by constructor|]. cbn [foldr]. split; [lia|].
      intros _. destruct rest; [cbn in T; lia | by apply B].
Qed.

Lemma receive_sound ds replies total ms :
  acked_or_dump → kept_ok replies → receive request ds replies total = Ok ms →
  kept_ok ms ∧ zlen ms ≤ 4096 ∧ ∃ b m, unmarshal_message b = Some m ∧ completes m.
Proof.
  intros AD. revert replies total. induction ds as [|d ds IH]; intros replies total K; cbn [receive]; [done|].
  destruct (negb _); [done|]. destruct (_ || _); [done|]. destruct (dg_cut d); [done|].
  destruct (decodeRouteReply request (dg_data d)) as [[dm fin]|] eqn:D; cbn [mbind result_bind fst snd]; [|done].
  destruct (keep_messages request dm total) as [[kept t]|] eqn:KM; cbn [mbind result_bind fst snd]; [|done].
  apply reply_loop_sound in D as [KD FD]; [|done]. apply keep_messages_spec in KM as (S & _ & _).
  assert (K' : kept_ok (replies ++ kept)).
  { apply kept_ok_app; [done|]. revert KD. unfold kept_ok. case_match.
    - rewrite !list.Forall_forall. intros F m M. apply F. by eapply elem_of_sublist.
    - intros ->. by apply sublist_nil_r in S. }
  destruct (4096 <? _) eqn:L; [done|]. apply Z.ltb_ge in L. destruct fin; [|by apply IH].
  intros [= <-]. auto.
Qed.

(** A request that succeeds was completed by the kernel.  A change (acknowledgement
    requested, no dump) succeeds only on an error message with code 0 and returns no
    messages; a dump succeeds only on its end marker with code 0, returns at most 4096
    messages, and none of them is marked as interrupted. *)
Theorem receive_completed ds ms :
  has_flag (ms_flags request) NLM_F_ACK = true ∨ has_flags (ms_flags request) NLM_F_DUMP = true →
  receive request ds [] 0 = Ok ms →
  (∃ b m, unmarshal_message b = Some m ∧ completes m)
  ∧ (has_flags (ms_flags request) NLM_F_DUMP = false → ms = [])
  ∧ zlen ms ≤ 4096 ∧ Forall (λ m, has_flag (ms_flags m) NLM_F_DUMP_INTR = false) ms.
Proof.
  intros AD R. apply receive_sound in R as (K & L & C); [|done|].
  2:{ unfold kept_ok. by case_match. }
  split; [done|]. unfold kept_ok in K. destruct (has_flags (ms_flags request) NLM_F_DUMP).
  - split; [done|]. split; [done|]. eapply Forall_impl; [|exact K]. by intros m [_ I].
  - subst ms. by repeat split.
Qed.
End Replies.

(** ** The bounds of a profile *)

(** The numbers of an active profile, in the ranges of the machine. *)
Record profile_ok (rate mtu : Z) (p : shapingProfile) : Prop := {
  po_rate : sp_rate p = rate ∧ 8 ≤ rate ≤ maxRate ∧ rate mod 8 = 0;
  po_burst : 1152 ≤ 2 * mtu ∧ Z.min (2 * mtu) (2 ^ 20) ≤ sp_burst p ≤ 2 ^ 20 ∧ sp_burst p ≤ rate / 8 * 60;
  po_bucket : Z.min (rate / 800) (2 ^ 20) ≤ sp_burst p;
  po_limit : sp_burst p < sp_limit p ≤ 3 * 2 ^ 20;
  po_packets : 32 ≤ sp_packets p ≤ 2048;
  po_memory : 2 ^ 16 ≤ sp_memory p ≤ 2 ^ 22;
  po_quantum : 590 ≤ sp_quantum p ≤ 65550;
}.

Lemma newShapingProfile_ok device rate mtu p :
  newShapingProfile device rate mtu = Ok p → rate ≠ 0 → profile_ok rate mtu p.
Proof.
  unfold newShapingProfile, validRate. intros E N.
  destruct (_ || negb (_ && _)) eqn:V; [done|]. apply orb_false_iff in V as [_ V].
  apply negb_false_iff, andb_true_iff in V as [V1%Z.leb_le V2%Z.leb_le].
  destruct (rate =? 0) eqn:Z0; [by apply Z.eqb_eq in Z0|].
  destruct (rate mod 8 =? 0) eqn:Z8; cbn [negb] in E; [|done]. apply Z.eqb_eq in Z8.
  destruct (_ || _) eqn:MT; [done|]. apply orb_false_iff in MT as [M1%Z.ltb_ge M2%Z.ltb_ge].
  destruct (_ <? _) eqn:B; [done|]. apply Z.ltb_ge in B.
  set (burst := Z.min _ _) in *. set (queue := Z.min (Z.max (rate / 160) _) _) in *.
  injection E as <-. change (2 ^ 20) with 1048576 in *. change (2 ^ 10) with 1024 in *.
  assert (R8 : 8 ≤ rate).
  { pose proof (Z.div_mod rate 8 ltac:(lia)). assert (0 < rate / 8); [|lia]. apply Z.div_str_pos.
    destruct (decide (rate < 8)); [rewrite Z.mod_small in Z8 by lia; lia | lia]. }
  pose proof (Z.div_pos rate 800 ltac:(lia) ltac:(lia)). pose proof (Z.div_pos rate 160 ltac:(lia) ltac:(lia)).
  split; cbn [sp_rate sp_burst sp_limit sp_packets sp_memory sp_quantum]; change (2 ^ 20) with 1048576;
    change (2 ^ 16) with 65536; change (2 ^ 22) with 4194304; unfold burst, queue in *; try lia.
Qed.

Lemma burst_ticks rate mtu p :
  profile_ok rate mtu p →
  burstTicks (uint64 (sp_rate p / 8)) (uint64 (sp_burst p)) = sp_burst p * 1000000000 / (rate / 8) / 64
  ∧ 0 < sp_burst p * 1000000000 / (rate / 8) / 64 ≤ 937500000.
Proof.
  intros [[-> [R R8]] [M [B1 B2]] BB L _ _ _]. unfold maxRate in R.
  set (r := rate / 8) in *. change (2 ^ 20) with 1048576 in *.
  assert (RR : rate = 8 * r) by (unfold r; pose proof (Z.div_mod rate 8 ltac:(lia)); lia).
  assert (RP : 1 ≤ r ≤ 125000000000) by lia.
  assert (U : uint64 r = r ∧ uint64 (sp_burst p) = sp_burst p ∧ uint64 (sp_burst p * 1000000000) = sp_burst p * 1000000000).
  { unfold uint64. rewrite !Z.mod_small; [done|..]; change (2 ^ 64) with 18446744073709551616; lia. }
  destruct U as (-> & -> & U). unfold burstTicks. rewrite U, (proj2 (Z.eqb_neq r 0)) by lia.
  rewrite Z.shiftr_div_pow2 by lia. change (2 ^ 6) with 64.
  set (t := sp_burst p * 1000000000 / r).
  assert (T1 : t ≤ 60000000000).
  { unfold t. apply Z.div_le_upper_bound; lia. }
  assert (T2 : 64 ≤ t).
  { unfold t. apply Z.div_le_lower_bound; [lia|].
    destruct (decide (rate / 800 ≤ 1048576)) as [S|S].
    - rewrite Z.min_l in BB by lia. pose proof (Z.div_mod rate 800 ltac:(lia)). pose proof (Z.mod_pos_bound rate 800 ltac:(lia)).
      lia.
    - rewrite Z.min_r in BB by lia. lia. }
  assert (0 < t / 64 ≤ 937500000).
  { split; [apply Z.div_str_pos; lia | apply Z.div_le_upper_bound; lia]. }
  unfold uint32. rewrite Z.mod_small by (change (2 ^ 32) with 4294967296; lia). done.
Qed.

(** The profile of an accepted rate fits the machine: none of the 32-bit fields of the
    two queues is cut, the burst in 64-nanosecond ticks is computed without overflow, is
    positive, and stays within a minute. *)
Theorem newShapingProfile_fits device rate mtu p :
  newShapingProfile device rate mtu = Ok p → rate ≠ 0 →
  let want := burstTicks (uint64 (sp_rate p / 8)) (uint64 (sp_burst p)) in
  want = sp_burst p * 1000000000 / (rate / 8) / 64 ∧ 0 < want ∧ want * 64 ≤ 60 * 1000000000
  ∧ uint32 (sp_burst p) = sp_burst p ∧ uint32 (sp_limit p) = sp_limit p
  ∧ uint32 (sp_packets p) = sp_packets p ∧ uint32 (sp_memory p) = sp_memory p
  ∧ uint32 (sp_quantum p) = sp_quantum p ∧ uint64 (sp_rate p / 8) * 8 = rate.
Proof.
  intros E N. pose proof (newShapingProfile_ok _ _ _ _ E N) as P. cbv zeta.
  destruct (burst_ticks _ _ _ P) as [-> T]. destruct P as [[-> [R R8]] [M [B1 B2]] BB L PK PM PQ].
  change (2 ^ 20) with 1048576 in *. change (2 ^ 16) with 65536 in *. change (2 ^ 22) with 4194304 in *.
  unfold maxRate in R. unfold uint32, uint64. change (2 ^ 32) with 4294967296.
  change (2 ^ 64) with 18446744073709551616.
  pose proof (Z.div_mod rate 8 ltac:(lia)).
  rewrite !Z.mod_small by lia. repeat split; lia.
Qed.

(** ** What is written is what is accepted *)

Section Roundtrip.
Context `{Machine} `{NetlinkLaws}.

Lemma message_fields index handle parent attrs :
  0 < index < 2 ^ 31 → 0 ≤ handle < 2 ^ 32 → 0 ≤ parent < 2 ^ 32 →
  let data := shaperMessage index handle parent ++ attrs in
  (20 ≤ length data)%nat ∧ drop 20 data = attrs ∧ int32 (get (sub 4 8 data)) = index
  ∧ get (sub 8 12 data) = handle ∧ get (sub 12 16 data) = parent.
Proof.
  intros I HH HP. cbv zeta. unfold shaperMessage.
  set (a := put_at 4 _ _). set (b := put_at 8 _ a). set (c := put_at 12 _ b).
  assert (LA : length a = 20%nat).
  { unfold a. rewrite put_at_length; rewrite ?put_length, ?repeat_length; lia. }
  assert (LB : length b = 20%nat).
  { unfold b. rewrite put_at_length; rewrite ?put_length; lia. }
  assert (L : length c = 20%nat).
  { unfold c. rewrite put_at_length; rewrite ?put_length; lia. }
  assert (S : ∀ i j, (j ≤ 20)%nat → (i ≤ j)%nat → sub i j (c ++ attrs) = sub i j c).
  { intros i j J IJ. unfold sub. rewrite drop_app_le by lia. by rewrite take_app_le by (rewrite length_drop; lia). }
  split; [rewrite length_app; lia|]. split; [by rewrite drop_app_length' by done|].
  rewrite !S by lia.
  unfold c. rewrite !(sub_put_at_other 12), get_put_at by (rewrite ?put_length; lia).
  unfold b. rewrite !(sub_put_at_other 8), get_put_at by (rewrite ?put_length; lia).
  unfold a. rewrite get_put_at by (rewrite ?repeat_length; lia). change (2 ^ (8 * Z.of_nat 4)) with (2 ^ 32).
  rewrite (Z.mod_small handle), (Z.mod_small parent) by done. unfold uint32. rewrite Z.mod_mod by done.
  rewrite Z.mod_small by (change (2 ^ 32) with 4294967296; change (2 ^ 31) with 2147483648 in I; lia).
  unfold int32. rewrite (proj2 (Z.ltb_lt _ _)) by lia. done.
Qed.

Lemma tbf_parameters p :
  let rate := uint64 (sp_rate p / 8) in
  let b := put_at 28 (put 4 (burstTicks rate (uint64 (sp_burst p))))
      (put_at 24 (put 4 (uint32 (sp_limit p)))
         (put_at 8 (put 4 (uint32 (Z.min rate 4294967295))) (put_at 1 [1] (repeat 0 36)))) in
  length b = 36%nat ∧ b !! 1%nat = Some 1 ∧ get (sub 2 4 b) = 0 ∧ get (sub 6 8 b) = 0 ∧ get (sub 20 24 b) = 0
  ∧ get (sub 32 36 b) = 0 ∧ get (sub 24 28 b) = uint32 (sp_limit p)
  ∧ get (sub 28 32 b) = burstTicks rate (uint64 (sp_burst p)).
Proof.
  cbv zeta. set (w1 := burstTicks _ _). set (w2 := uint32 (sp_limit p)). set (w3 := uint32 _).
  assert (W : w1 mod 2 ^ 32 = w1 ∧ w2 mod 2 ^ 32 = w2).
  { unfold w1, w2, burstTicks, uint32. split; [case_match; [done|]|]; by rewrite Z.mod_mod. }
  set (a0 := put_at 1 [1] (repeat 0 36)).
  set (a := put_at 8 _ a0). set (b := put_at 24 _ a). set (c := put_at 28 _ b).
  assert (LA : length a = 36%nat) by (unfold a; by rewrite put_at_length; rewrite ?put_length; cbn; lia || done).
  assert (LB : length b = 36%nat) by (unfold b; rewrite put_at_length; rewrite ?put_length; lia).
  assert (LC : length c = 36%nat) by (unfold c; rewrite put_at_length; rewrite ?put_length; lia).
  assert (O : ∀ i j, (i ≤ j)%nat → (j ≤ 8 ∨ 12 ≤ i ∧ j ≤ 24 ∨ 32 ≤ i)%nat → sub i j c = sub i j a0).
  { intros i j IJ R. unfold c. rewrite sub_put_at_other by (rewrite ?put_length; lia).
    unfold b. rewrite sub_put_at_other by (rewrite ?put_length; lia).
    unfold a. rewrite sub_put_at_other by (rewrite ?put_length; cbn; lia). done. }
  split; [done|]. split.
  { pose proof (f_equal (λ l : bytes, l !! 0%nat) (O 1 2 ltac:(lia) ltac:(lia))%nat) as E. unfold sub in E.
    rewrite !lookup_take_lt, !lookup_drop in E by lia. cbn [Nat.add] in E. rewrite E. reflexivity. }
  rewrite !O by lia.
  assert (G : ∀ l, get l = le_value (if big_endian then rev l else l)) by done.
  repeat split; try (rewrite G; destruct big_endian; reflexivity).
  - unfold c. rewrite sub_put_at_other by (rewrite ?put_length; lia).
    unfold b. rewrite get_put_at by lia. apply W.
  - unfold c. rewrite get_put_at by lia. apply W.
Qed.

Lemma attr_uint_put n v : attr_uint n (put n v) = Some (v mod 2 ^ (8 * Z.of_nat n)).
Proof. unfold attr_uint. rewrite bool_decide_eq_true_2 by apply put_length. by rewrite get_put. Qed.

(** The attributes of a change, as they are decoded. *)
Lemma shaper_data_decoded index handle parent kind options data :
  0 < index < 2 ^ 31 → 0 ≤ handle < 2 ^ 32 → 0 ≤ parent < 2 ^ 32 →
  shaper_data index RTM_NEWQDISC handle parent kind options = Ok data →
  ∃ nested, attributes (drop 20 data) = Some [(tcaKind, text_bytes kind ++ [0]); (tcaOptions, nested)]
    ∧ attributes nested = Some options ∧ (20 ≤ length data)%nat ∧ int32 (get (sub 4 8 data)) = index
    ∧ get (sub 8 12 data) = handle ∧ get (sub 12 16 data) = parent.
Proof.
  intros I HH HP. unfold shaper_data. cbn [Z.eqb]. change (RTM_NEWQDISC =? RTM_DELQDISC) with false. cbv iota.
  destruct (marshal_attributes options) as [nested|] eqn:MO; cbn [of_option mbind result_bind]; [|done].
  destruct (marshal_attributes [_; _]) as [attrs|] eqn:MA; cbn [of_option mbind result_bind]; [|done].
  intros E. assert (data = shaperMessage index handle parent ++ attrs) as -> by congruence. clear E.
  destruct (message_fields index handle parent attrs I HH HP) as (L & D & F4 & F8 & F12).
  exists nested. rewrite D. split; [by apply attributes_marshal|]. split; [by apply attributes_marshal|]. done.
Qed.

Lemma tbf_roundtrip p index data :
  0 < index < 2 ^ 31 → 0 ≤ sp_rate p →
  shaper_data index RTM_NEWQDISC rootHandle rootParent "tbf" (tbfOptions p) = Ok data →
  decodeRouteShaper data
  = Ok (mkQdisc "tbf" shapingHandle (handleString rootParent) true
          (Some (mkTbf (uint64 (sp_rate p / 8)) (burstTicks (uint64 (sp_rate p / 8)) (uint64 (sp_burst p)))
                   (uint32 (sp_limit p)) false)) None).
Proof.
  intros I R D. apply shaper_data_decoded in D as (nested & A & AN & L & F4 & F8 & F12); [|done..].
  unfold decodeRouteShaper. unfold zlen. rewrite (proj2 (Z.ltb_ge _ 20)) by lia.
  rewrite A, F8, F12. cbn [of_option mbind result_bind outer_attributes tcaKind tcaOptions Z.eqb Pos.eqb].
  rewrite attr_string_zero. cbn [bool_decide].
  change (bool_decide ("tbf"%string = EmptyString)) with false. change (bool_decide ("tbf"%string = "tbf"%string)) with true.
  cbv iota. rewrite AN. cbn [of_option mbind result_bind].
  destruct (tbf_parameters p) as (PL & P1 & P2 & P6 & P20 & P32 & P24 & P28).
  unfold tbfOptions. cbn [tbf_attributes tbfParameters tbfRate64 tbfBurst tbfPeakRate64 Z.eqb Pos.eqb].
  unfold zlen. rewrite PL. change (Z.of_nat 36 =? 36) with true. cbn [negb]. cbv iota.
  rewrite P1, P2, P6, P20, P32, P24, P28.
  change (false || (1 <? default 0 (Some 1)) || negb (0 =? 0) || negb (0 =? 0) || negb (0 =? 0) || negb (0 =? 0)) with false.
  unfold routeU64. rewrite attr_uint_put. cbn [of_option mbind result_bind require tb_Buffer tb_Limit tb_Unsupported default].
  change (2 ^ (8 * Z.of_nat 8)) with (2 ^ 64). unfold uint64. rewrite Z.mod_mod by done. reflexivity.
Qed.

Lemma fair_roundtrip p index (create : bool) data :
  0 < index < 2 ^ 31 →
  shaper_data index RTM_NEWQDISC leafHandle leafParent "fq_codel" (fairOptions p create) = Ok data →
  decodeRouteShaper data
  = Ok (mkQdisc "fq_codel" fairQueueHandle shapingParent false None
          (Some (mkFair (uint32 (sp_packets p)) (if create then 1024 else 0) (uint32 (sp_quantum p)) 5000 100000 (uint32 (sp_memory p)) 1))).
Proof.
  intros I D. apply shaper_data_decoded in D as (nested & A & AN & L & F4 & F8 & F12); [|done..].
  unfold decodeRouteShaper. unfold zlen. rewrite (proj2 (Z.ltb_ge _ 20)) by lia.
  rewrite A, F8, F12. cbn [of_option mbind result_bind outer_attributes tcaKind tcaOptions Z.eqb Pos.eqb].
  rewrite attr_string_zero.
  change (bool_decide ("fq_codel"%string = EmptyString)) with false.
  change (bool_decide ("fq_codel"%string = "tbf"%string)) with false.
  change (bool_decide ("fq_codel"%string = "fq_codel"%string)) with true.
  cbv iota. rewrite AN. cbn [of_option mbind result_bind]. unfold fairOptions, routeU32. destruct create;
  (repeat (cbn [app fair_attributes fqTarget fqLimit fqInterval fqECN fqFlows fqQuantum fqMemory Z.leb Z.compare Pos.compare
          Pos.compare_cont Z.eqb Pos.eqb andb orb set_fair];
    rewrite ?attr_uint_put; cbn [of_option mbind result_bind]));
  change (2 ^ (8 * Z.of_nat 4)) with (2 ^ 32); unfold uint32; rewrite !Z.mod_mod by done; reflexivity.
Qed.
End Roundtrip.

(** ** The queues of a device *)

Definition nsm_root (q : qdisc) : Prop := qd_Root q = true ∧ qd_Handle q = shapingHandle ∧ qd_Kind q = "tbf"%string.
Definition other_root (q : qdisc) : Prop := qd_Root q = true ∧ qd_Kind q = "noqueue"%string ∧ qd_Handle q = "0:"%string.
Definition nsm_leaf (q : qdisc) : Prop :=
  qd_Root q = false ∧ qd_Parent q = shapingParent ∧ qd_Handle q = fairQueueHandle ∧ qd_Kind q = "fq_codel"%string.
Definition ingress (q : qdisc) : Prop :=
  qd_Root q = false ∧ (qd_Kind q = "clsact"%string ∨ qd_Kind q = "ingress"%string).

(** What an accepted listing looks like, as a relation. *)
Inductive roots : list qdisc → option qdisc → Prop :=
| roots_nil : roots [] None
| roots_skip q l r : qd_Root q = false ∨ other_root q → roots l r → roots (q :: l) r
| roots_own q l : nsm_root q → roots l None → roots (q :: l) (Some q).
Inductive leaves : list qdisc → option qdisc → Prop :=
| leaves_nil : leaves [] None
| leaves_skip q l r : qd_Root q = true ∨ ingress q → leaves l r → leaves (q :: l) r
| leaves_own q l : nsm_leaf q → leaves l None → leaves (q :: l) (Some q).

Lemma roots_some l q : roots l (Some q) → nsm_root q.
Proof. intros R. remember (Some q) as o eqn:E. induction R; naive_solver. Qed.
Lemma leaves_some l q : leaves l (Some q) → nsm_leaf q.
Proof. intros R. remember (Some q) as o eqn:E. induction R; naive_solver. Qed.

Lemma other_root_not_own q : other_root q → qd_Handle q ≠ shapingHandle.
Proof. intros (_ & _ & ->). done. Qed.

Lemma owned_root_skip q l active acc :
  qd_Root q = false ∨ other_root q → owned_root active (q :: l) acc = owned_root active l acc.
Proof.
  intros [R|O]; cbn; [by rewrite R|]. pose proof (other_root_not_own q O) as N. destruct O as (R & K & HD).
  rewrite R, (bool_decide_eq_false_2 _ N), (bool_decide_eq_true_2 _ K), (bool_decide_eq_true_2 _ HD). cbn.
  by rewrite andb_false_r.
Qed.
Lemma owned_root_own q l active :
  nsm_root q → owned_root active (q :: l) None = owned_root active l (Some q).
Proof.
  intros (R & HD & K). cbn. rewrite R, (bool_decide_eq_true_2 _ HD), (bool_decide_eq_true_2 _ K). done.
Qed.
Lemma roots_complete l r acc active :
  roots l r → (acc = None ∨ r = None) → owned_root active l acc = Ok (if decide (r = None) then acc else r).
Proof.
  intros R. revert acc. induction R as [|q l r S R IH|q l O R IH]; intros acc A.
  - done.
  - rewrite owned_root_skip by done. by apply IH.
  - destruct A as [->|?]; [|done]. rewrite owned_root_own by done. rewrite IH by auto. done.
Qed.
Lemma roots_sound l r acc :
  owned_root true l acc = Ok r → ∃ r', roots l r' ∧ (acc = None ∨ r' = None)
                                   ∧ r = (if decide (r' = None) then acc else r').
Proof.
  revert acc. induction l as [|q l IH]; intros acc E.
  - injection E as <-. exists None. split; [constructor | auto].
  - destruct (qd_Root q) eqn:R.
    2:{ rewrite owned_root_skip in E by auto. apply IH in E as (r' & RR & A & ->). exists r'.
        split; [by constructor; [left|] | done]. }
    cbn in E. rewrite R in E. case_bool_decide as HD.
    + destruct (negb _ || _) eqn:B; [done|]. apply orb_false_iff in B as [B1 B2].
      apply negb_false_iff, bool_decide_eq_true in B1. apply bool_decide_eq_false in B2.
      destruct acc; [by destruct B2|]. apply IH in E as (r' & RR & A & ->). destruct A as [?| ->]; [done|].
      exists (Some q). split; [by constructor | auto].
    + cbn [andb] in E. destruct (negb _ || negb _) eqn:B; [done|]. apply orb_false_iff in B as [B1 B2].
      apply negb_false_iff, bool_decide_eq_true in B1, B2.
      apply IH in E as (r' & RR & A & ->). exists r'. split; [by constructor; [right|] | done].
Qed.

Lemma owned_leaf_skip q l acc : qd_Root q = true ∨ ingress q → owned_leaf (q :: l) acc = owned_leaf l acc.
Proof.
  intros [R|[R [K|K]]]; cbn; rewrite R; [done|..]; rewrite (bool_decide_eq_true_2 _ K); cbn; by rewrite ?orb_true_r.
Qed.
Lemma leaves_complete l r acc :
  leaves l r → (acc = None ∨ r = None) → owned_leaf l acc = Ok (if decide (r = None) then acc else r).
Proof.
  intros R. revert acc. induction R as [|q l r S R IH|q l O R IH]; intros acc A.
  - done.
  - rewrite owned_leaf_skip by done. by apply IH.
  - destruct A as [->|?]; [|done]. destruct O as (Rt & P & HD & K). cbn.
    rewrite Rt, (bool_decide_eq_true_2 _ P), (bool_decide_eq_true_2 _ HD), (bool_decide_eq_true_2 _ K), K. cbn.
    rewrite !bool_decide_eq_false_2 by done. cbn. rewrite IH by auto. done.
Qed.
Lemma leaves_sound l r acc :
  owned_leaf l acc = Ok r → ∃ r', leaves l r' ∧ (acc = None ∨ r' = None)
                              ∧ r = (if decide (r' = None) then acc else r').
Proof.
  revert acc. induction l as [|q l IH]; intros acc E.
  - injection E as <-. exists None. split; [constructor | auto].
  - cbn in E. destruct (_ || _ || _) eqn:B.
    + apply IH in E as (r' & RR & A & ->). exists r'. split; [|done]. constructor; [|done].
      rewrite !orb_true_iff, !bool_decide_eq_true in B. unfold ingress. destruct (qd_Root q); naive_solver.
    + apply orb_false_iff in B as [B _]. apply orb_false_iff in B as [B _].
      destruct (_ && _) eqn:C; [|done]. rewrite !andb_true_iff, !bool_decide_eq_true, negb_true_iff in C.
      destruct C as [[[P HD] K] N]. apply bool_decide_eq_false in N.
      destruct acc; [by destruct N|]. apply IH in E as (r' & RR & A & ->). destruct A as [?| ->]; [done|].
      exists (Some q). split; [by constructor | auto].
Qed.

(** [ownedShapers] accepts exactly the listings of these shapes. *)
Lemma owned_some l r leaf :
  ownedShapers l true = Ok (Some r, leaf) ↔ roots l (Some r) ∧ leaves l leaf.
Proof.
  unfold ownedShapers. split.
  - destruct (owned_root true l None) as [o|] eqn:E; cbn [mbind result_bind]; [|done].
    apply roots_sound in E as (r' & R & _ & ->).
    assert (X : (if decide (r' = None) then None else r') = r') by (destruct r'; done). rewrite X.
    destruct r' as [q|]; [|done].
    destruct (owned_leaf l None) as [o|] eqn:E; cbn [mbind result_bind]; [|done].
    apply leaves_sound in E as (lf & LV & _ & ->). intros [= -> <-]. split; [done|]. by destruct lf.
  - intros [R LV]. rewrite (roots_complete _ _ None true R) by auto. cbn.
    rewrite (leaves_complete _ _ None LV) by auto. cbn. by destruct leaf.
Qed.
Lemma owned_none l leaf : ownedShapers l true = Ok (None, leaf) → roots l None ∧ leaf = None.
Proof.
  unfold ownedShapers. destruct (owned_root true l None) as [o|] eqn:E; cbn [mbind result_bind]; [|done].
  apply roots_sound in E as (r' & R & _ & ->). destruct r' as [q|]; cbn.
  - destruct (owned_leaf l None); done.
  - by intros [= <-].
Qed.

(** ** A kernel that does what it is asked *)

Definition is_leaf (q : qdisc) : bool :=
  negb (qd_Root q) && bool_decide (qd_Parent q = shapingParent) && bool_decide (qd_Handle q = fairQueueHandle).
Definition noqueue : qdisc := mkQdisc "noqueue" "0:" (handleString rootParent) true None None.
Definition same_queue (a b : qdisc) : Prop :=
  qd_Root a = qd_Root b ∧ qd_Handle a = qd_Handle b ∧ qd_Kind a = qd_Kind b.
#[global] Instance same_queue_dec a b : Decision (same_queue a b).
Proof. unfold same_queue. apply _. Defined.
(** A change keeps the number of flows when it does not name one. *)
Definition merge_fair (old new : option fairQueueState) : option fairQueueState :=
  match old, new with
  | Some o, Some n =>
      Some (mkFair (fq_Limit n) (if fq_Flows n =? 0 then fq_Flows o else fq_Flows n) (fq_Quantum n) (fq_Target n)
              (fq_Interval n) (fq_Memory n) (fq_ECN n))
  | _, _ => new
  end.
Definition changed_queue (q x : qdisc) : qdisc :=
  if decide (same_queue x q)
  then mkQdisc (qd_Kind x) (qd_Handle x) (qd_Parent x) (qd_Root x) (qd_TBF q) (merge_fair (qd_Fair x) (qd_Fair q))
  else x.

(** The effect of an accepted change on the queues of the device. *)
Definition kernel_step `{Machine} `{Netlink} (s : list qdisc) (r : request) : list qdisc :=
  let d := rq_data r in
  if rq_kind r =? RTM_DELQDISC then
    if get (sub 12 16 d) =? rootParent
    then noqueue :: filter (λ q, negb (qd_Root q) && negb (is_leaf q) = true) s
    else filter (λ q, ¬ (qd_Root q = false ∧ qd_Handle q = handleString (get (sub 8 12 d))
                         ∧ qd_Parent q = handleString (get (sub 12 16 d)))) s
  else match decodeRouteShaper d with
  | Err _ => s
  | Ok q =>
      if has_flag (rq_flags r) NLM_F_CREATE
      then if qd_Root q then q :: filter (λ x, qd_Root x = false) s else s ++ [q]
      else map (changed_queue q) s
  end.

Lemma changed_queue_fields q x :
  qd_Root (changed_queue q x) = qd_Root x ∧ qd_Handle (changed_queue q x) = qd_Handle x
  ∧ qd_Parent (changed_queue q x) = qd_Parent x ∧ qd_Kind (changed_queue q x) = qd_Kind x.
Proof. unfold changed_queue. by case_decide. Qed.
Lemma changed_queue_other q x : ¬ same_queue x q → changed_queue q x = x.
Proof. unfold changed_queue. by case_decide. Qed.

Lemma changed_class q x :
  (other_root x ↔ other_root (changed_queue q x)) ∧ (nsm_root x ↔ nsm_root (changed_queue q x))
  ∧ (nsm_leaf x ↔ nsm_leaf (changed_queue q x)) ∧ (ingress x ↔ ingress (changed_queue q x)).
Proof.
  destruct (changed_queue_fields q x) as (R & HD & P & K).
  unfold other_root, nsm_root, nsm_leaf, ingress. by rewrite R, HD, P, K.
Qed.

Lemma roots_changed q l r : roots l r → roots (map (changed_queue q) l) (changed_queue q <$> r).
Proof.
  induction 1 as [|x l r S R IH|x l O R IH]; cbn; [constructor| |];
    destruct (changed_queue_fields q x) as (FR & _), (changed_class q x) as (C1 & C2 & _).
  - apply roots_skip; [|done]. rewrite FR. tauto.
  - apply roots_own; [tauto | done].
Qed.
Lemma leaves_changed q l r : leaves l r → leaves (map (changed_queue q) l) (changed_queue q <$> r).
Proof.
  induction 1 as [|x l r S R IH|x l O R IH]; cbn; [constructor| |];
    destruct (changed_queue_fields q x) as (FR & _), (changed_class q x) as (C1 & C2 & C3 & C4).
  - apply leaves_skip; [|done]. rewrite FR. tauto.
  - apply leaves_own; [tauto | done].
Qed.

Lemma roots_filter (P : qdisc → Prop) `{∀ x, Decision (P x)} l r :
  (∀ x, qd_Root x = true → P x) → roots l r → roots (filter P l) r.
Proof.
  intros PR. induction 1 as [|x l r S R IH|x l O R IH]; [constructor| |].
  - destruct (decide (P x)) as [Y|N]; [rewrite filter_cons_True by done; by constructor|].
    by rewrite filter_cons_False.
  - rewrite filter_cons_True by (apply PR, O). by constructor.
Qed.
Lemma leaves_removed (P : qdisc → Prop) `{∀ x, Decision (P x)} l r :
  (∀ x, nsm_leaf x → ¬ P x) → leaves l r → leaves (filter P l) None.
Proof.
  intros PN. induction 1 as [|x l r S R IH|x l O R IH]; [constructor| |].
  - destruct (decide (P x)) as [Y|N]; [rewrite filter_cons_True by done; by constructor|].
    by rewrite filter_cons_False.
  - rewrite filter_cons_False by (by apply PN). done.
Qed.
Lemma roots_snoc l r q : qd_Root q = false → roots l r → roots (l ++ [q]) r.
Proof.
  intros Q. induction 1 as [|x l r S R IH|x l O R IH]; cbn; [|by constructor..].
  apply roots_skip; [by left | constructor].
Qed.
Lemma leaves_snoc l q : nsm_leaf q → leaves l None → leaves (l ++ [q]) (Some q).
Proof.
  intros Q. remember None as r eqn:E. induction 1 as [|x l r S R IH|x l O R IH]; cbn; [|subst..].
  - apply leaves_own; [done | constructor].
  - apply leaves_skip; [done | by apply IH].
  - done.
Qed.
Lemma roots_no_root l : roots (filter (λ x, qd_Root x = false) l) None.
Proof.
  induction l as [|x l IH]; [constructor|]. rewrite filter_cons. case_decide; [|done]. apply roots_skip; auto.
Qed.
Lemma leaves_no_root l r : leaves l r → leaves (filter (λ x, qd_Root x = false) l) r.
Proof.
  induction 1 as [|x l r S R IH|x l O R IH]; [constructor| |]; rewrite filter_cons; case_decide as D.
  - by constructor.
  - done.
  - by constructor.
  - by destruct O as [O _].
Qed.

Definition mutation (r : request) : bool := (rq_kind r =? RTM_NEWQDISC) || (rq_kind r =? RTM_DELQDISC).
Definition kernel_state `{Machine} `{Netlink} (s0 : list qdisc) (h : list request) : list qdisc :=
  foldl (λ s r, if mutation r then kernel_step s r else s) s0 h.

(** A kernel that knows the device, accepts every change, applies it, and lists the
    device's queues. *)
Class FaithfulKernel `{Machine} `{Netlink} `{Kernel} (link : Link) (s0 : list qdisc) := {
  fk_live h : cancelled h = false;
  fk_open : route_opens = true;
  fk_link h r : rq_kind r = RTM_GETLINK → ∃ m, answer (h ++ [r]) = Ok [m] ∧ decodeRouteLink m = Ok link;
  fk_list h r : rq_kind r = RTM_GETQDISC →
    ∃ ms, answer (h ++ [r]) = Ok ms ∧ decode_shapers (ln_Index link) ms = Ok (kernel_state s0 h);
  fk_change h r : mutation r = true → answer (h ++ [r]) = Ok [];
}.

Section Faithful.
Context `{Machine} `{NetlinkLaws} `{Kernel} (link : Link) (s0 : list qdisc) `{!FaithfulKernel link s0}.
Context (index_ok : 0 < ln_Index link < 2 ^ 31).

Lemma kernel_state_snoc h r :
  kernel_state s0 (h ++ [r]) = if mutation r then kernel_step (kernel_state s0 h) r else kernel_state s0 h.
Proof. unfold kernel_state. by rewrite foldl_app. Qed.

Lemma send_live r h : send r h = (h ++ [r], answer (h ++ [r])).
Proof. unfold send. by rewrite (fk_live (link:=link) (s0:=s0)). Qed.

Lemma id_char_name c : id_char c = true → bad_name_byte c = false.
Proof. destruct c as [[] [] [] [] [] [] [] []]; by vm_compute. Qed.
Lemma id_name device : idPattern device = true → strlen device ≤ 15 → valid_link_name device = true.
Proof.
  unfold idPattern, valid_link_name. rewrite !andb_true_iff. intros [[A L%Z.leb_le] _] M.
  rewrite (proj2 (Z.leb_le _ _) M), !negb_true_iff. split; [split; [|done]|].
  - apply bool_decide_eq_false_2. intros ->. done.
  - clear L M. induction device as [|c s IH]; [done|]. cbn in A |- *. apply andb_true_iff in A as [A1 A2].
    rewrite id_char_name by done. by apply IH.
Qed.
Lemma profile_device device rate mtu p :
  newShapingProfile device rate mtu = Ok p → valid_link_name device = true ∧ strlen device ≤ 15 ∧ (sp_rate p =? 0) = (rate =? 0).
Proof.
  unfold newShapingProfile. destruct (_ || _ || _) eqn:B; [done|].
  apply orb_false_iff in B as [B _]. apply orb_false_iff in B as [B1%negb_false_iff B2%Z.ltb_ge].
  intros E. split; [by apply id_name|]. split; [done|].
  destruct (rate =? 0) eqn:R; [by injection E as <-|]. repeat case_match; try done. by injection E as <-.
Qed.

Lemma text_bytes_length t : zlen (text_bytes t) = strlen t.
Proof.
  unfold zlen, text_bytes. rewrite length_map. induction t as [|c t IH]; [done|]. cbn [String.list_ascii_of_string length].
  unfold strlen in *. cbn [String.length]. lia.
Qed.

Lemma routeLink_live device h :
  valid_link_name device = true → strlen device ≤ 15 → ln_Name link = device →
  ∃ r, routeLink device h = (h ++ [r], Ok link) ∧ mutation r = false.
Proof.
  intros V L N. unfold routeLink. rewrite V. cbn.
  destruct (marshal_short [(IFLA_IFNAME, text_bytes device ++ [0])]) as (b & -> & _).
  { repeat constructor; cbn; try done. unfold zlen. rewrite length_app. pose proof (text_bytes_length device) as T.
    unfold zlen in T. cbn. lia. }
  cbn [of_option lift mbind M_bind]. unfold mbind, M_bind, lift. rewrite send_live.
  edestruct (fk_link (link:=link) (s0:=s0) h) as (m & -> & D); [|rewrite D]; [done|].
  rewrite (bool_decide_eq_true_2 _ N). eexists. split; [reflexivity | done].
Qed.

Lemma readRouteShapers_live h :
  ∃ r, readRouteShapers (ln_Index link) h = (h ++ [r], Ok (kernel_state s0 h)) ∧ mutation r = false.
Proof.
  unfold readRouteShapers, mbind, M_bind, lift. rewrite send_live.
  edestruct (fk_list (link:=link) (s0:=s0) h) as (ms & -> & D); [|rewrite D]; [done|].
  eexists. split; [reflexivity | done].
Qed.

Lemma route_live h : route h = (h, Ok tt).
Proof. unfold route. by rewrite (fk_live (link:=link) (s0:=s0)), (fk_open (link:=link) (s0:=s0)). Qed.

(** Reading does not change the queues. *)
Lemma reads_state h r1 r2 :
  mutation r1 = false → mutation r2 = false → kernel_state s0 ((h ++ [r1]) ++ [r2]) = kernel_state s0 h.
Proof. intros M1 M2. by rewrite !kernel_state_snoc, M1, M2. Qed.

Lemma Shape_live device rate mtu p h :
  newShapingProfile device rate mtu = Ok p → ln_Name link = device →
  ∃ h', kernel_state s0 h' = kernel_state s0 h ∧
    Shape device rate mtu h
    = match ownedShapers (kernel_state s0 h) (negb (rate =? 0)) with
      | Ok (root, leaf) => reshape p (ln_Index link) root leaf h'
      | Err e => (h', Err e)
      end.
Proof.
  intros P N. destruct (profile_device _ _ _ _ P) as (V & L & R).
  destruct (routeLink_live device h V L N) as (r1 & E1 & M1).
  destruct (readRouteShapers_live (h ++ [r1])) as (r2 & E2 & M2).
  exists ((h ++ [r1]) ++ [r2]). split; [by apply reads_state|].
  unfold Shape, mbind, M_bind. unfold lift at 1. rewrite P, route_live, E1, E2.
  rewrite kernel_state_snoc, M1. unfold lift. by destruct (ownedShapers _ _) as [[root leaf]|].
Qed.
Lemma VerifyShape_live device rate mtu p h :
  newShapingProfile device rate mtu = Ok p → ln_Name link = device →
  snd (VerifyShape device rate mtu h) = verify p (kernel_state s0 h).
Proof.
  intros P N. destruct (profile_device _ _ _ _ P) as (V & L & R).
  destruct (routeLink_live device h V L N) as (r1 & E1 & M1).
  destruct (readRouteShapers_live (h ++ [r1])) as (r2 & E2 & M2).
  unfold VerifyShape, readShapers, mbind, M_bind. unfold lift at 1. rewrite P, route_live, E1, E2.
  rewrite kernel_state_snoc, M1. done.
Qed.

Lemma change_live command flags handle parent kind options data h :
  (command =? RTM_NEWQDISC) || (command =? RTM_DELQDISC) = true →
  shaper_data (ln_Index link) command handle parent kind options = Ok data →
  let r := mkRequest command (Z.lor flags NLM_F_ACK) data in
  changeRouteShaper (ln_Index link) command flags handle parent kind options h = (h ++ [r], Ok tt)
  ∧ kernel_state s0 (h ++ [r]) = kernel_step (kernel_state s0 h) r.
Proof.
  intros C D r. unfold changeRouteShaper, mbind, M_bind, check_ctx.
  rewrite (fk_live (link:=link) (s0:=s0)). unfold lift. rewrite D, send_live. fold r.
  rewrite (fk_change (link:=link) (s0:=s0)) by done. split; [done|]. rewrite kernel_state_snoc. unfold mutation, r. cbn [rq_kind]. by rewrite C.
Qed.

(** The messages of [Shape] can be built. *)
Lemma new_data handle parent kind options :
  Forall (λ a, 0 ≤ fst a < 2 ^ 14 ∧ zlen (snd a) ≤ 36) options → (length options ≤ 7)%nat → strlen kind ≤ 8 →
  ∃ data, shaper_data (ln_Index link) RTM_NEWQDISC handle parent kind options = Ok data.
Proof.
  intros F L K. unfold shaper_data. change (RTM_NEWQDISC =? RTM_DELQDISC) with false. cbv iota.
  destruct (marshal_short options) as (nested & -> & B).
  { eapply Forall_impl; [|exact F]. cbn. lia. }
  assert (R : attributes_room options ≤ 43 * zlen options).
  { clear L B. induction F as [|[t b] l A F IH]; [done|]. cbn [snd fst] in A.
    change (attributes_room ((t, b) :: l)) with (7 + zlen b + attributes_room l).
    unfold zlen in *. cbn [length]. lia. }
  cbn [of_option mbind result_bind].
  destruct (marshal_short [(tcaKind, text_bytes kind ++ [0]); (tcaOptions, nested)]) as (b & -> & _).
  { pose proof (text_bytes_length kind) as T. unfold zlen in *. 
    apply list.Forall_cons; split; [|apply list.Forall_cons; split; [|done]]; cbn [fst snd];
      rewrite ?length_app; (split; [done | cbn [length]; lia]). }
  by eexists.
Qed.
Lemma tbf_data p : ∃ data, shaper_data (ln_Index link) RTM_NEWQDISC rootHandle rootParent "tbf" (tbfOptions p) = Ok data.
Proof.
  apply new_data; [|cbn; lia|done]. destruct (tbf_parameters p) as (L & _). unfold tbfOptions.
  repeat (apply list.Forall_cons; split); [..|done]; cbn [fst snd]; split; try done;
    unfold zlen, routeU32, routeU64; rewrite ?L, ?put_length; done.
Qed.
Lemma fair_data p create :
  ∃ data, shaper_data (ln_Index link) RTM_NEWQDISC leafHandle leafParent "fq_codel" (fairOptions p create) = Ok data.
Proof.
  assert (P : ∀ t v, 0 ≤ t < 2 ^ 14 → (λ a : Z * bytes, 0 ≤ fst a < 2 ^ 14 ∧ zlen (snd a) ≤ 36) (t, routeU32 v)).
  { intros t v T. cbn. unfold zlen, routeU32. rewrite put_length. split; [done | lia]. }
  apply new_data; [|unfold fairOptions; rewrite length_app; destruct create; cbn; lia|done].
  unfold fairOptions. apply Forall_app. split; [|destruct create];
    repeat (apply list.Forall_cons; split; [by apply P|]); done.
Qed.

(** The effect of each command of [Shape]. *)
Lemma step_del_leaf s flags :
  kernel_step s (mkRequest RTM_DELQDISC flags (shaperMessage (ln_Index link) leafHandle leafParent))
  = filter (λ q, ¬ (qd_Root q = false ∧ qd_Handle q = fairQueueHandle ∧ qd_Parent q = shapingParent)) s.
Proof.
  destruct (message_fields (ln_Index link) leafHandle leafParent [] index_ok) as (_ & _ & _ & F8 & F12); [done..|].
  rewrite app_nil_r in F8, F12. unfold kernel_step. cbn [rq_kind rq_data]. by rewrite F8, F12.
Qed.
Lemma step_del_root s flags :
  kernel_step s (mkRequest RTM_DELQDISC flags (shaperMessage (ln_Index link) rootHandle rootParent))
  = noqueue :: filter (λ q, negb (qd_Root q) && negb (is_leaf q) = true) s.
Proof.
  destruct (message_fields (ln_Index link) rootHandle rootParent [] index_ok) as (_ & _ & _ & F8 & F12); [done..|].
  rewrite app_nil_r in F8, F12. unfold kernel_step. cbn [rq_kind rq_data]. by rewrite F12.
Qed.
Definition root_queue (p : shapingProfile) : qdisc :=
  mkQdisc "tbf" shapingHandle (handleString rootParent) true
    (Some (mkTbf (uint64 (sp_rate p / 8)) (burstTicks (uint64 (sp_rate p / 8)) (uint64 (sp_burst p)))
             (uint32 (sp_limit p)) false)) None.
Definition leaf_queue (p : shapingProfile) (flows : Z) : qdisc :=
  mkQdisc "fq_codel" fairQueueHandle shapingParent false None
    (Some (mkFair (uint32 (sp_packets p)) flows (uint32 (sp_quantum p)) 5000 100000 (uint32 (sp_memory p)) 1)).

Lemma step_root s p data (root : option qdisc) :
  0 ≤ sp_rate p →
  shaper_data (ln_Index link) RTM_NEWQDISC rootHandle rootParent "tbf" (tbfOptions p) = Ok data →
  kernel_step s (mkRequest RTM_NEWQDISC (Z.lor (create_flags root) NLM_F_ACK) data)
  = match root with
    | Some _ => map (changed_queue (root_queue p)) s
    | None => root_queue p :: filter (λ x, qd_Root x = false) s
    end.
Proof.
  intros R D. apply tbf_roundtrip in D; [|done..]. unfold kernel_step. cbn [rq_kind rq_data rq_flags].
  rewrite D. by destruct root.
Qed.
Lemma step_leaf s p data (leaf : option qdisc) :
  shaper_data (ln_Index link) RTM_NEWQDISC leafHandle leafParent "fq_codel"
    (fairOptions p (negb (bool_decide (is_Some leaf)))) = Ok data →
  kernel_step s (mkRequest RTM_NEWQDISC (Z.lor (create_flags leaf) NLM_F_ACK) data)
  = match leaf with
    | Some _ => map (changed_queue (leaf_queue p 0)) s
    | None => s ++ [leaf_queue p 1024]
    end.
Proof.
  intros D. apply fair_roundtrip in D; [|done..]. unfold kernel_step. cbn [rq_kind rq_data rq_flags]. rewrite D.
  by destruct leaf.
Qed.

(** ** The three phases of [reshape] *)

Lemma matches_root_queue rate mtu p q :
  profile_ok rate mtu p → qd_TBF q = qd_TBF (root_queue p) → matchesRoot p (Some q) = true.
Proof.
  intros P E. destruct (burst_ticks _ _ _ P) as [T1 T2]. unfold matchesRoot. cbn. rewrite E. cbn.
  rewrite T1, !Z.eqb_refl, Z.sub_diag. cbn. by rewrite (proj2 (Z.ltb_lt _ _)), Z.leb_refl by lia.
Qed.
Lemma matches_leaf_queue p q :
  qd_Fair q = qd_Fair (leaf_queue p 1024) → matchesLeaf p (Some q) = true.
Proof. intros E. unfold matchesLeaf. cbn. rewrite E. cbn. by rewrite !Z.eqb_refl. Qed.

(** Purging the fair queue. *)
Lemma phase_purge r leaf (purge : bool) h :
  roots (kernel_state s0 h) r → leaves (kernel_state s0 h) leaf →
  ∃ h' leaf',
    (match leaf with
     | Some _ =>
         if purge then
           _ ← changeRouteShaper (ln_Index link) RTM_DELQDISC 0 leafHandle leafParent EmptyString []; mret None
         else mret leaf
     | None => mret None
     end) h = (h', Ok leaf')
    ∧ leaf' = (if purge then None else leaf)
    ∧ roots (kernel_state s0 h') r ∧ leaves (kernel_state s0 h') leaf'.
Proof.
  intros R L. destruct leaf as [l|]; [destruct purge|].
  - edestruct (change_live RTM_DELQDISC 0 leafHandle leafParent EmptyString []) as [E S]; [done..|].
    unfold mbind, M_bind. rewrite E. eexists _, None. split; [reflexivity|]. split; [done|].
    rewrite S, step_del_leaf. split; [apply roots_filter; [|done] | eapply leaves_removed; [|done]].
    + intros x X [? _]. congruence.
    + intros x (X1 & X2 & X3 & _) N. by apply N.
  - eexists _, (Some l). by repeat split.
  - eexists _, None. split; [reflexivity|]. by destruct purge.
Qed.

(** Configuring the bucket. *)
Lemma phase_root rate mtu p root leaf h :
  profile_ok rate mtu p → roots (kernel_state s0 h) root → leaves (kernel_state s0 h) leaf →
  matchesRoot p root = true ∨ leaf = None →
  ∃ h' root',
    (if negb (matchesRoot p root) then
       changeRouteShaper (ln_Index link) RTM_NEWQDISC (create_flags root) rootHandle rootParent "tbf" (tbfOptions p)
     else mret tt) h = (h', Ok tt)
    ∧ matchesRoot p (Some root') = true
    ∧ roots (kernel_state s0 h') (Some root') ∧ leaves (kernel_state s0 h') leaf.
Proof.
  intros P R L C. destruct (matchesRoot p root) eqn:E; cbn [negb].
  - destruct root as [r|]; [|done]. exists h, r. by repeat split.
  - destruct C as [?| ->]; [done|]. destruct (tbf_data p) as [data D].
    edestruct (change_live RTM_NEWQDISC (create_flags root) rootHandle rootParent "tbf" (tbfOptions p)) as [X S];
      [done|exact D|].
    assert (RP : 0 ≤ sp_rate p) by (destruct P as [[-> ?] _]; lia).
    rewrite X. destruct root as [r|].
    + eexists _, (changed_queue (root_queue p) r). split; [reflexivity|]. rewrite S, (step_root _ p data (Some r)) by done.
      pose proof (roots_some _ _ R) as NR.
      split.
      * eapply matches_root_queue; [done|]. unfold changed_queue. rewrite decide_True; [done|].
        destruct NR as (? & ? & ?). done.
      * split; [by apply (roots_changed _ _ (Some r)) | by apply (leaves_changed _ _ None)].
    + eexists _, (root_queue p). split; [reflexivity|]. rewrite S, (step_root _ p data None) by done.
      split; [by eapply matches_root_queue|]. split.
      * apply roots_own; [done | apply roots_no_root].
      * apply leaves_skip; [by left | by apply leaves_no_root].
Qed.

(** Configuring the fair queue. *)
Lemma phase_leaf p root leaf h :
  roots (kernel_state s0 h) (Some root) → leaves (kernel_state s0 h) leaf → matchesRoot p (Some root) = true →
  (∀ l, leaf = Some l → ∃ f, qd_Fair l = Some f ∧ fq_Flows f = 1024) →
  ∃ h',
    (if matchesLeaf p leaf then mret tt
     else changeRouteShaper (ln_Index link) RTM_NEWQDISC (create_flags leaf) leafHandle leafParent "fq_codel"
            (fairOptions p (negb (bool_decide (is_Some leaf))))) h = (h', Ok tt)
    ∧ ∃ root' leaf', ownedShapers (kernel_state s0 h') true = Ok (Some root', leaf')
        ∧ matchesRoot p (Some root') = true ∧ matchesLeaf p leaf' = true.
Proof.
  intros R L MR FL. destruct (matchesLeaf p leaf) eqn:E.
  { exists h. split; [done|]. exists root, leaf. by rewrite owned_some. }
  destruct (fair_data p (negb (bool_decide (is_Some leaf)))) as [data D].
  edestruct (change_live RTM_NEWQDISC (create_flags leaf) leafHandle leafParent "fq_codel") as [X S]; [done|exact D|].
  rewrite X. eexists. split; [reflexivity|]. rewrite S, (step_leaf _ p data leaf) by done.
  destruct leaf as [l|].
  - destruct (FL l eq_refl) as (f & F & FW).
    pose proof (leaves_some _ _ L) as NL. pose proof (roots_some _ _ R) as [NR _].
    exists root, (Some (changed_queue (leaf_queue p 0) l)). rewrite owned_some. split; [split|split; [done|]].
    + rewrite <- (changed_queue_other (leaf_queue p 0) root) at 1; [by apply (roots_changed _ _ (Some root))|].
      intros [Q _]. cbn in Q. congruence.
    + by apply (leaves_changed _ _ (Some l)).
    + apply matches_leaf_queue. unfold changed_queue. destruct NL as (N1 & N2 & N3 & N4).
      rewrite decide_True by done. cbn. rewrite F. cbn. by rewrite FW.
  - exists root, (Some (leaf_queue p 1024)). rewrite owned_some. split; [split|split; [done|]].
    + by apply roots_snoc.
    + by apply leaves_snoc.
    + by apply matches_leaf_queue.
Qed.

Lemma reshape_live rate mtu p root leaf h :
  profile_ok rate mtu p → ownedShapers (kernel_state s0 h) true = Ok (root, leaf) →
  (roots (kernel_state s0 h) None → leaves (kernel_state s0 h) None) →
  ∃ h', reshape p (ln_Index link) root leaf h = (h', Ok tt) ∧ verify p (kernel_state s0 h') = Ok tt.
Proof.
  intros P O NO. assert (R0 : (sp_rate p =? 0) = false) by (destruct P as [[-> ?] _]; apply Z.eqb_neq; lia).
  assert (RL : roots (kernel_state s0 h) root ∧ leaves (kernel_state s0 h) leaf).
  { destruct root as [r|]; [by apply owned_some|]. apply owned_none in O as [R ->]. auto. }
  destruct RL as [R L]. unfold reshape. rewrite R0.
  set (purge := negb (matchesRoot p root) || negb _).
  destruct (phase_purge root leaf purge h R L) as (h1 & leaf1 & E1 & LF & R1 & L1).
  unfold mbind at 1, M_bind at 1. rewrite E1.
  destruct (phase_root rate mtu p root leaf1 h1 P R1 L1) as (h2 & root' & E2 & M2 & R2 & L2).
  { rewrite LF. unfold purge. destruct (matchesRoot p root); [by left | by right]. }
  unfold mbind at 1, M_bind at 1. rewrite E2.
  destruct (phase_leaf p root' leaf1 h2 R2 L2 M2) as (h3 & E3 & rf & lf & OW & MR & ML).
  { intros l ->. unfold purge in LF. destruct (matchesRoot p root); [|done]. cbn [negb orb] in LF.
    destruct (leaf ≫= qd_Fair) as [f|] eqn:LE; [|done]. destruct (fq_Flows f =? 1024) eqn:FW; [|done].
    cbn in LF. subst leaf. cbn in LE. exists f. split; [done | by apply Z.eqb_eq]. }
  exists h3. split; [done|]. unfold verify. rewrite R0. cbn [negb]. rewrite OW. cbn. by rewrite MR, ML.
Qed.

Lemma clear_live p root leaf h :
  sp_rate p = 0 → ownedShapers (kernel_state s0 h) false = Ok (root, leaf) →
  ∃ h', reshape p (ln_Index link) root leaf h = (h', Ok tt) ∧ verify p (kernel_state s0 h') = Ok tt.
Proof.
  intros R0 O. unfold reshape, verify. rewrite R0. cbn. destruct root as [r|].
  - edestruct (change_live RTM_DELQDISC 0 rootHandle rootParent EmptyString []) as [E S]; [done..|].
    rewrite E. eexists. split; [reflexivity|]. rewrite S, step_del_root. unfold ownedShapers.
    assert (N : ∀ l, owned_root false (filter (λ q, negb (qd_Root q) && negb (is_leaf q) = true) l) None = Ok None).
    { induction l as [|x l IH]; [done|]. rewrite filter_cons. case_decide as D; [|done].
      apply andb_true_iff in D as [D%negb_true_iff _]. rewrite owned_root_skip by auto. done. }
    rewrite owned_root_skip by (right; done). rewrite N. done.
  - exists h. split; [done|]. by rewrite O.
Qed.

(** On a kernel that applies what it acknowledges, [Shape] succeeds whenever it does not
    refuse the queues it finds, and [VerifyShape] then accepts the device: the limits that
    are read back are those that were asked for, whatever NSM queues were there before. *)
Theorem Shape_then_VerifyShape device rate mtu p root leaf h :
  newShapingProfile device rate mtu = Ok p → ln_Name link = device →
  ownedShapers (kernel_state s0 h) (negb (rate =? 0)) = Ok (root, leaf) →
  (roots (kernel_state s0 h) None → leaves (kernel_state s0 h) None) →
  ∃ h', Shape device rate mtu h = (h', Ok tt) ∧ snd (VerifyShape device rate mtu h') = Ok tt.
Proof.
  intros P N O NO. destruct (Shape_live device rate mtu p h P N) as (h0 & S0 & ->). rewrite O.
  destruct (profile_device _ _ _ _ P) as (_ & _ & PR). rewrite <- S0 in O, NO.
  assert (X : ∃ h', reshape p (ln_Index link) root leaf h0 = (h', Ok tt) ∧ verify p (kernel_state s0 h') = Ok tt).
  { destruct (decide (rate = 0)) as [->|NZ].
    - apply clear_live; [by apply Z.eqb_eq | done].
    - apply (reshape_live rate mtu); [by eapply newShapingProfile_ok | | done].
      by rewrite (proj2 (Z.eqb_neq rate 0) NZ) in O. }
  destruct X as (h' & E & V). exists h'. split; [done|].
  by rewrite (VerifyShape_live device rate mtu p h' P N).
Qed.
End Faithful.

(** ** The requests of [Shape], on any kernel *)

(** [m] makes only requests in [P]. *)
Definition makes {A} (P : request → Prop) (m : M A) : Prop := ∀ h, ∃ l, fst (m h) = h ++ l ∧ Forall P l.
Lemma makes_bind {A B} P (m : M A) (f : A → M B) : makes P m → (∀ a, makes P (f a)) → makes P (m ≫= f).
Proof.
  intros HM HF h. destruct (HM h) as (l1 & E1 & F1). unfold mbind, M_bind.
  destruct (m h) as [h1 [a|e]]; cbn in E1; subst h1; [|by exists l1].
  destruct (HF a (h ++ l1)) as (l2 & E2 & F2). exists (l1 ++ l2). rewrite E2, app_assoc. split; [done|].
  by apply Forall_app_2.
Qed.
Lemma makes_none {A} P (m : M A) : (∀ h, fst (m h) = h) → makes P m.
Proof. intros E h. exists []. by rewrite E, app_nil_r. Qed.
Lemma makes_lift {A} P (r : result rerr A) : makes P (lift r).
Proof. by apply makes_none. Qed.
Lemma makes_ret {A} P (a : A) : makes P (mret a : M A).
Proof. by apply makes_none. Qed.

Section Requests.
Context `{Machine} `{Netlink} `{Kernel}.

Lemma makes_send (P : request → Prop) r : P r → makes P (send r).
Proof.
  intros PR h. unfold send. destruct (cancelled h); [exists []; by rewrite app_nil_r|]. exists [r]. split; [done|].
  by constructor.
Qed.
Lemma makes_route P : makes P route.
Proof. apply makes_none. intros h. done. Qed.
Lemma makes_check P : makes P check_ctx.
Proof. by apply makes_none. Qed.

(** A change of one of the two queues Wings owns. *)
Definition own_change (r : request) : Prop :=
  ∃ index handle parent kind options,
    (handle = rootHandle ∧ parent = rootParent ∨ handle = leafHandle ∧ parent = leafParent)
    ∧ (rq_kind r = RTM_NEWQDISC ∨ rq_kind r = RTM_DELQDISC)
    ∧ shaper_data index (rq_kind r) handle parent kind options = Ok (rq_data r).

Lemma makes_change index command flags handle parent kind options :
  handle = rootHandle ∧ parent = rootParent ∨ handle = leafHandle ∧ parent = leafParent →
  command = RTM_NEWQDISC ∨ command = RTM_DELQDISC →
  makes own_change (changeRouteShaper index command flags handle parent kind options).
Proof.
  intros O C. unfold changeRouteShaper. apply makes_bind; [apply makes_check|]. intros _ h.
  unfold mbind, M_bind, lift. destruct (shaper_data _ _ _ _ _ _) as [data|e] eqn:D.
  2:{ exists []. by rewrite app_nil_r. }
  destruct (makes_send own_change (mkRequest command (Z.lor flags NLM_F_ACK) data)
              ltac:(by exists index, handle, parent, kind, options) h) as (l & E & F).
  exists l. destruct (send _ h) as [h' [a|e]]; cbn in E |- *; done.
Qed.
Lemma makes_reshape p index root leaf : makes own_change (reshape p index root leaf).
Proof.
  unfold reshape. case_match.
  { destruct root; [apply makes_change; auto | apply makes_ret]. }
  apply makes_bind.
  - destruct leaf; [|apply makes_ret]. case_match; [|apply makes_ret].
    apply makes_bind; [apply makes_change; auto | intros; apply makes_ret].
  - intros leaf'. apply makes_bind; [case_match; [apply makes_change; auto | apply makes_ret]|].
    intros _. case_match; [apply makes_ret | apply makes_change; auto].
Qed.

(** Queues that already verify are left alone. *)
Lemma reshape_verified p index qdiscs root leaf h :
  verify p qdiscs = Ok tt → ownedShapers qdiscs (negb (sp_rate p =? 0)) = Ok (root, leaf) →
  reshape p index root leaf h = (h, Ok tt).
Proof.
  unfold verify, reshape. intros V O. rewrite O in V. cbn in V. destruct (sp_rate p =? 0).
  - destruct root; [|done]. by rewrite bool_decide_eq_true_2 in V.
  - destruct (bool_decide (is_Some root)); cbn in V; [|done].
    destruct (matchesRoot p root); cbn in V |- *; [|done].
    destruct (matchesLeaf p leaf) eqn:ML; [|done].
    assert (FW : ∃ l f, leaf = Some l ∧ qd_Fair l = Some f ∧ (fq_Flows f =? 1024) = true).
    { unfold matchesLeaf in ML. destruct leaf as [l|]; [|done]. cbn in ML. destruct (qd_Fair l) as [f|] eqn:F; [|done].
      exists l, f. rewrite !andb_true_iff in ML. naive_solver. }
    destruct FW as (l & f & -> & F & FW). cbn. rewrite F, FW. cbn. unfold mbind, M_bind, mret, M_ret. by rewrite ML.
Qed.

(** [Shape] never touches a queue it does not own.  Against any kernel its requests are
    two reads followed by changes, every change is of the rate limiter or of the fair queue
    under it, and there is a change only after the queues that the kernel listed were
    accepted as owned and found not to match the requested limits already. *)
Theorem Shape_changes_only_own device rate mtu h :
  ∃ reads changes, fst (Shape device rate mtu h) = h ++ reads ++ changes
    ∧ Forall (λ r, rq_kind r = RTM_GETLINK ∨ rq_kind r = RTM_GETQDISC) reads ∧ Forall own_change changes
    ∧ (changes ≠ [] → ∃ p index ms qdiscs owned,
         newShapingProfile device rate mtu = Ok p ∧ answer (h ++ reads) = Ok ms
         ∧ decode_shapers index ms = Ok qdiscs ∧ ownedShapers qdiscs (negb (rate =? 0)) = Ok owned
         ∧ verify p qdiscs ≠ Ok tt).
Proof.
  unfold Shape. unfold mbind at 1, M_bind at 1, lift at 1.
  destruct (newShapingProfile device rate mtu) as [p|e] eqn:P; [|exists [], []; by rewrite !app_nil_r].
  unfold mbind at 1, M_bind at 1. unfold route at 1.
  destruct (if cancelled h then _ else _) as [[]|e]; [|exists [], []; by rewrite !app_nil_r].
  set (read := λ r, rq_kind r = RTM_GETLINK ∨ rq_kind r = RTM_GETQDISC).
  assert (RL : makes read (routeLink device)).
  { unfold routeLink. repeat (apply makes_bind; [apply makes_lift || (apply makes_send; by left)|intros ?]). apply makes_ret. }
  destruct (RL h) as (l1 & E1 & F1). unfold mbind at 1, M_bind at 1.
  destruct (routeLink device h) as [h1 [link|e]]; cbn [fst] in E1; subst h1; [|by exists l1, []; rewrite !app_nil_r].
  unfold mbind at 1, M_bind at 1, readRouteShapers. unfold mbind at 1, M_bind at 1. unfold send at 1.
  destruct (cancelled (h ++ l1)); [by exists l1, []; rewrite !app_nil_r|].
  set (get := mkRequest RTM_GETQDISC _ _).
  assert (FR : Forall read (l1 ++ [get])) by (apply Forall_app_2; [done|]; constructor; [by right | done]).
  destruct (answer ((h ++ l1) ++ [get])) as [ms|e] eqn:A; rewrite <- app_assoc in A |- *.
  2:{ exists (l1 ++ [get]), []. by rewrite !app_nil_r. }
  unfold lift. destruct (decode_shapers (ln_Index link) ms) as [qdiscs|e] eqn:D.
  2:{ exists (l1 ++ [get]), []. by rewrite !app_nil_r. }
  unfold mbind, M_bind. destruct (ownedShapers qdiscs _) as [[root leaf]|e] eqn:O.
  2:{ exists (l1 ++ [get]), []. by rewrite !app_nil_r. }
  destruct (makes_reshape p (ln_Index link) root leaf (h ++ l1 ++ [get])) as (l2 & E2 & F2).
  exists (l1 ++ [get]), l2. rewrite E2, !app_assoc. split; [done|]. split; [done|]. split; [done|].
  intros NE. exists p, (ln_Index link), ms, qdiscs, (root, leaf). rewrite <- app_assoc. repeat split; try done.
  intros V. pose proof (profile_device _ _ _ _ P) as (_ & _ & PR).
  rewrite (reshape_verified _ _ qdiscs) in E2; [|done|by rewrite PR].
  apply NE. cbn [fst] in E2. apply (f_equal length) in E2. rewrite !length_app in E2. apply length_zero_iff_nil. lia.
Qed.
End Requests.

(** ** An example: a kernel and an attribute encoding *)

Module ShapingExample.

(** Attributes as length, type, bytes. *)
Fixpoint ex_attributes (fuel : nat) (b : bytes) : option (list (Z * bytes)) :=
  match fuel, b with
  | _, [] => Some []
  | S fuel', n :: t :: rest =>
      if zlen rest <? n then None
      else (λ l, (t, take (Z.to_nat n) rest) :: l) <$> ex_attributes fuel' (drop (Z.to_nat n) rest)
  | _, _ => None
  end.
Definition ex_marshal (l : list (Z * bytes)) : bytes := flat_map (λ a, zlen (snd a) :: fst a :: snd a) l.
Definition ex_string (b : bytes) : string :=
  String.string_of_list_ascii (map (λ n, Ascii.ascii_of_N (Z.to_N n)) (removelast b)).

#[local] Instance ex_machine : Machine := {| big_endian := false |}.
#[local] Instance ex_netlink : Netlink := {|
  marshal_attributes l := Some (ex_marshal l);
  attributes b := ex_attributes (length b) b;
  attr_string := ex_string;
  unmarshal_message b := Some (mkMessage (get (sub 4 6 b)) (get (sub 6 8 b)) 0 0 (drop 16 b));
  validate_message _ _ := true |}.

Lemma ex_attributes_marshal l fuel : (length (ex_marshal l) ≤ fuel)%nat → ex_attributes fuel (ex_marshal l) = Some l.
Proof.
  revert fuel. induction l as [|[t b] l IH]; intros fuel L; [by destruct fuel|].
  cbn [ex_marshal flat_map fst snd app] in *. rewrite !length_cons, length_app in L.
  change (flat_map _ l) with (ex_marshal l) in *. destruct fuel as [|fuel]; [lia|]. cbn [ex_attributes].
  unfold zlen. rewrite Nat2Z.id, length_app, (proj2 (Z.ltb_ge _ _)) by lia.
  rewrite take_app_length, drop_app_length, IH by lia. done.
Qed.
#[local] Instance ex_netlink_laws : NetlinkLaws.
Proof.
  split.
  - intros l b [= <-]. by apply ex_attributes_marshal.
  - intros l _. exists (ex_marshal l). split; [done|]. unfold ex_marshal, attributes_room, zlen.
    induction l as [|[t b] l IH]; [done|]. cbn [flat_map foldr fst snd]. rewrite length_app. cbn [length]. lia.
  - intros s. cbn [attr_string ex_netlink]. unfold ex_string, text_bytes. rewrite removelast_last, map_map.
    rewrite (map_ext _ id); [|intros c; rewrite N2Z.id; apply Ascii.ascii_N_embedding].
    rewrite map_id. apply String.string_of_list_ascii_of_string.
Qed.

(** A queue with its numbers, and its message. *)
Record raw := mkRaw { rw_handle : Z; rw_parent : Z; rw_kind : string; rw_tbf : option tbfState; rw_fair : option fairQueueState }.
Definition q_of (r : raw) : qdisc :=
  mkQdisc (rw_kind r) (handleString (rw_handle r)) (handleString (rw_parent r)) (rw_parent r =? rootParent)
    (rw_tbf r) (rw_fair r).
Definition word (v : Z) : bytes := [v; 0; 0; 0].
Definition options_of (r : raw) : list (Z * bytes) :=
  match rw_tbf r, rw_fair r with
  | Some t, _ =>
      [(tbfParameters, [0; if tb_Unsupported t then 2 else 0; 0; 0; 0; 0; 0; 0] ++ word (tb_Rate t) ++ repeat 0 12
                       ++ word (tb_Limit t) ++ word (tb_Buffer t) ++ repeat 0 4)]
  | _, Some f =>
      [(fqTarget, word (fq_Target f)); (fqLimit, word (fq_Limit f)); (fqInterval, word (fq_Interval f));
       (fqECN, word (fq_ECN f)); (fqFlows, word (fq_Flows f)); (fqQuantum, word (fq_Quantum f));
       (fqMemory, word (fq_Memory f))]
  | _, _ => []
  end.
Definition message_of (index : Z) (r : raw) : message :=
  mkMessage RTM_NEWQDISC 0 0 0
    (repeat 0 4 ++ word index ++ word (rw_handle r) ++ word (rw_parent r) ++ repeat 0 4
     ++ ex_marshal [(tcaKind, text_bytes (rw_kind r) ++ [0]); (tcaOptions, ex_marshal (options_of r))]).

(** The fields agree with the kind. *)
Definition raw_ok (r : raw) : Prop :=
  if decide (rw_kind r = "tbf"%string) then is_Some (rw_tbf r) ∧ rw_fair r = None
  else if decide (rw_kind r = "fq_codel"%string) then rw_tbf r = None ∧ is_Some (rw_fair r)
  else rw_kind r ≠ EmptyString ∧ rw_tbf r = None ∧ rw_fair r = None.

Lemma decode_message index r :
  raw_ok r → decodeRouteShaper (ms_data (message_of index r)) = Ok (q_of r).
Proof.
  intros OK. unfold decodeRouteShaper, message_of. cbn [ms_data].
  set (tail := ex_marshal [_; _]).
  change (zlen (repeat 0 4 ++ word index ++ word (rw_handle r) ++ word (rw_parent r) ++ repeat 0 4 ++ tail))
    with (Z.of_nat (20 + length tail)).
  rewrite (proj2 (Z.ltb_ge _ _)) by lia.
  change (drop 20 _) with tail.
  assert (G : ∀ v, get (word v) = v) by (intros v; unfold get, word; cbn; lia).
  change (sub 12 16 _) with (word (rw_parent r)). change (sub 8 12 _) with (word (rw_handle r)). rewrite !G.
  change (attributes tail) with (ex_attributes (length tail) tail). unfold tail at 2.
  rewrite ex_attributes_marshal by done.
  cbn [of_option mbind result_bind outer_attributes tcaKind tcaOptions Z.eqb Pos.eqb].
  rewrite attr_string_zero. unfold raw_ok in OK. unfold q_of.
  change (attributes (ex_marshal (options_of r))) with (ex_attributes (length (ex_marshal (options_of r))) (ex_marshal (options_of r))).
  rewrite ex_attributes_marshal by done.
  destruct (decide (rw_kind r = "tbf"%string)) as [K|K].
  { destruct OK as [[t T] F]. rewrite K, T, F. unfold options_of. rewrite T.
    cbn -[word Z.add]. unfold get, word. cbn [big_endian ex_machine le_value sub take drop Nat.sub].
    rewrite (bool_decide_eq_false_2 ("tbf"%string = EmptyString)), (bool_decide_eq_true_2 ("tbf"%string = "tbf"%string)) by done.
    destruct t as [rate buffer limit u]. cbn -[Z.add Z.mul].
    change (256 * (0 + 256 * (0 + 256 * (0 + 256 * 0)))) with 0. rewrite !Z.add_0_r. by destruct u. }
  destruct (decide (rw_kind r = "fq_codel"%string)) as [K2|K2].
  { destruct OK as [T [f F]]. rewrite K2, T, F. unfold options_of. rewrite T, F.
    rewrite (bool_decide_eq_false_2 ("fq_codel"%string = EmptyString)), (bool_decide_eq_false_2 ("fq_codel"%string = "tbf"%string)),
      (bool_decide_eq_true_2 ("fq_codel"%string = "fq_codel"%string)) by done.
    assert (A : ∀ v, attr_uint 4 (word v) = Some v).
    { intros v. unfold attr_uint. by rewrite G, bool_decide_eq_true_2. }
    destruct f as [a b c d e g h].
    repeat (cbn [of_option mbind result_bind app fair_attributes fqTarget fqLimit fqInterval fqECN fqFlows fqQuantum fqMemory
      Z.leb Z.compare Pos.compare Pos.compare_cont Z.eqb Pos.eqb andb orb set_fair fq_Limit fq_Flows fq_Quantum fq_Target fq_Interval fq_Memory fq_ECN]; rewrite ?A).
    reflexivity. }
  destruct OK as (N & T & F). rewrite T, F.
  by rewrite (bool_decide_eq_false_2 _ N), (bool_decide_eq_false_2 _ K), (bool_decide_eq_false_2 _ K2).
Qed.

Lemma decode_messages index l :
  0 < index < 2 ^ 31 → Forall raw_ok l → decode_shapers index (map (message_of index) l) = Ok (map q_of l).
Proof.
  intros I. induction 1 as [|r l OK F IH]; [done|]. cbn [map decode_shapers].
  change (zlen (ms_data (message_of index r))) with
    (Z.of_nat (20 + length (ex_marshal [(tcaKind, text_bytes (rw_kind r) ++ [0]); (tcaOptions, ex_marshal (options_of r))]))).
  rewrite (proj2 (Z.ltb_ge _ _)) by lia.
  change (sub 4 8 _) with (word index). replace (get (word index)) with index by (unfold get, word; cbn; lia).
  unfold int32. rewrite (proj2 (Z.ltb_lt _ _)), Z.eqb_refl by lia. cbn [negb orb ms_type message_of Z.eqb].
  change (RTM_NEWQDISC =? RTM_NEWQDISC) with true. cbn [negb orb]. rewrite decode_message by done. cbn.
  by rewrite Z.eqb_refl, IH.
Qed.

(** What the kernel does with the numbers, as [kernel_step] does with the queues. *)
Definition raw_decoded (d : bytes) : option raw :=
  match decodeRouteShaper d with
  | Ok q => Some (mkRaw (get (sub 8 12 d)) (get (sub 12 16 d)) (qd_Kind q) (qd_TBF q) (qd_Fair q))
  | Err _ => None
  end.
Definition raw_changed (q x : raw) : raw :=
  if decide (same_queue (q_of x) (q_of q))
  then mkRaw (rw_handle x) (rw_parent x) (rw_kind x) (rw_tbf q) (merge_fair (rw_fair x) (rw_fair q)) else x.
Definition raw_step (s : list raw) (r : request) : list raw :=
  let d := rq_data r in
  if rq_kind r =? RTM_DELQDISC then
    if get (sub 12 16 d) =? rootParent
    then mkRaw 0 rootParent "noqueue" None None
         :: filter (λ x, negb (qd_Root (q_of x)) && negb (is_leaf (q_of x)) = true) s
    else filter (λ x, ¬ (qd_Root (q_of x) = false ∧ qd_Handle (q_of x) = handleString (get (sub 8 12 d))
                         ∧ qd_Parent (q_of x) = handleString (get (sub 12 16 d)))) s
  else match raw_decoded d with
  | None => s
  | Some q => if has_flag (rq_flags r) NLM_F_CREATE
              then if qd_Root (q_of q) then q :: filter (λ x, qd_Root (q_of x) = false) s else s ++ [q]
              else map (raw_changed q) s
  end.
Definition raw_state (s : list raw) (h : list request) : list raw :=
  foldl (λ s r, if mutation r then raw_step s r else s) s h.

Lemma raw_decoded_spec d q :
  decodeRouteShaper d = Ok q → ∃ w, raw_decoded d = Some w ∧ q_of w = q ∧ raw_ok w.
Proof.
  unfold raw_decoded. intros D. rewrite D. eexists. split; [reflexivity|]. revert D. unfold decodeRouteShaper.
  destruct (zlen d <? 20); [done|]. destruct (attributes (drop 20 d)) as [attrs|]; cbn [of_option mbind result_bind]; [|done].
  destruct (outer_attributes attrs EmptyString []) as [kind options]. case_bool_decide as E; [done|].
  case_bool_decide as E1.
  { destruct (attributes options) as [opts|]; cbn [of_option mbind result_bind]; [|done].
    destruct (tbf_attributes _ _ _ _) as [[[st rate64] found]|]; cbn [mbind result_bind]; [|done].
    destruct found; cbn [require mbind result_bind]; [|done]. intros [= <-]. split; [done|]. unfold raw_ok. cbn.
    rewrite decide_True by done. by eauto. }
  case_bool_decide as E2.
  { destruct (attributes options) as [opts|]; cbn [of_option mbind result_bind]; [|done].
    destruct (fair_attributes _ _) as [f|]; cbn [mbind result_bind]; [|done]. intros [= <-]. split; [done|].
    unfold raw_ok. cbn. rewrite decide_False, decide_True by done. by eauto. }
  intros [= <-]. split; [done|]. unfold raw_ok. cbn. by rewrite !decide_False.
Qed.
Lemma raw_changed_spec q x : raw_ok q → raw_ok x → q_of (raw_changed q x) = changed_queue (q_of q) (q_of x) ∧ raw_ok (raw_changed q x).
Proof.
  intros OQ OX. unfold raw_changed, changed_queue. case_decide as S; [|done]. split; [done|].
  destruct S as (_ & _ & K). cbn in K. unfold raw_ok in *. cbn. rewrite <- K in OQ.
  destruct (decide (rw_kind x = "tbf"%string)); [destruct OQ as [? ->], OX as [? ->]; done|].
  destruct (decide (rw_kind x = "fq_codel"%string)).
  - destruct OQ as [-> [fq ->]], OX as [_ [fx ->]]. cbn. eauto.
  - destruct OQ as (? & -> & ->), OX as (? & _ & ->). done.
Qed.

Lemma filter_q_of (P : qdisc → Prop) (D1 : ∀ x : raw, Decision (P (q_of x))) (D2 : ∀ q, Decision (P q)) l :
  map q_of (@filter _ _ _ (λ x, P (q_of x)) D1 l) = @filter _ _ _ P D2 (map q_of l).
Proof.
  induction l as [|x l IH]; [done|]. cbn [map]. rewrite !filter_cons.
  destruct (decide (P (q_of x))) as [Y|N]; repeat case_decide; try done; cbn [map]; by rewrite IH.
Qed.

Lemma raw_step_spec s r :
  Forall raw_ok s → map q_of (raw_step s r) = kernel_step (map q_of s) r ∧ Forall raw_ok (raw_step s r).
Proof.
  intros F. unfold raw_step, kernel_step.
  assert (FF : ∀ P `{∀ x : raw, Decision (P x)}, Forall raw_ok (filter P s)).
  { intros P DP. apply list.Forall_forall. intros x [_ X]%list_elem_of_filter. by eapply list.Forall_forall. }
  destruct (rq_kind r =? RTM_DELQDISC).
  { destruct (_ =? rootParent); cbn [map].
    - split; [f_equal; apply (filter_q_of (λ q, negb (qd_Root q) && negb (is_leaf q) = true))|].
      constructor; [unfold raw_ok; cbn; by rewrite !decide_False | apply FF].
    - split; [|apply FF]. 
      apply (filter_q_of (λ q, ¬ (qd_Root q = false ∧ qd_Handle q = handleString (get (sub 8 12 (rq_data r)))
                                  ∧ qd_Parent q = handleString (get (sub 12 16 (rq_data r)))))). }
  destruct (decodeRouteShaper (rq_data r)) as [q|e] eqn:D.
  2:{ unfold raw_decoded. rewrite D. done. }
  apply raw_decoded_spec in D as (w & -> & <- & OW).
  destruct (has_flag _ _).
  - destruct (qd_Root (q_of w)); cbn [map].
    + split; [f_equal; apply (filter_q_of (λ q, qd_Root q = false)) | by constructor].
    + rewrite map_app. split; [done|]. apply Forall_app_2; [done | by constructor].
  - rewrite !map_map. split.
    + apply map_ext_in. intros x X. apply list_elem_of_In in X. apply raw_changed_spec; [done|]. by eapply list.Forall_forall.
    + apply list.Forall_forall. intros x (y & -> & Y)%list_elem_of_fmap. apply raw_changed_spec; [done|].
      by eapply list.Forall_forall.
Qed.

Definition ex_start : list raw := [mkRaw 0 rootParent "noqueue" None None].
Definition ex_link : Link := mkLink 2 7 "eth0" [] 1500 0.
Definition ex_link_message : message :=
  mkMessage RTM_NEWLINK 0 0 0
    (repeat 0 4 ++ word 2 ++ repeat 0 8
     ++ ex_marshal [(IFLA_IFNAME, text_bytes "eth0" ++ [0]); (IFLA_MTU, word 1500); (IFLA_LINK, word 7)]).
#[local] Instance ex_kernel : Kernel := {|
  answer h :=
    match list.last h with
    | None => Ok []
    | Some r => if rq_kind r =? RTM_GETLINK then Ok [ex_link_message]
                else if rq_kind r =? RTM_GETQDISC then Ok (map (message_of 2) (raw_state ex_start (removelast h)))
                else Ok []
    end;
  cancelled _ := false;
  route_opens := true |}.

Lemma raw_state_spec h :
  map q_of (raw_state ex_start h) = kernel_state (map q_of ex_start) h ∧ Forall raw_ok (raw_state ex_start h).
Proof.
  induction h as [|r h IH] using rev_ind.
  - split; [done|]. repeat constructor. by vm_compute.
  - unfold raw_state, kernel_state in *. rewrite !foldl_app. cbn [foldl]. destruct IH as [E F]. rewrite <- E.
    destruct (mutation r); [by apply raw_step_spec | done].
Qed.
#[local] Instance ex_faithful : FaithfulKernel ex_link (map q_of ex_start).
Proof.
  split; try done.
  - intros h r K. exists ex_link_message. cbn. rewrite list.last_snoc, K. done.
  - intros h r K. exists (map (message_of 2) (raw_state ex_start h)). cbn [answer ex_kernel]. rewrite list.last_snoc, removelast_last, K.
    split; [done|]. destruct (raw_state_spec h) as [<- F]. by apply decode_messages.
  - intros h r K. cbn [answer ex_kernel]. rewrite list.last_snoc. unfold mutation in K.
    destruct (Z.eqb_spec (rq_kind r) RTM_GETLINK) as [E|_]; [by rewrite E in K|].
    destruct (Z.eqb_spec (rq_kind r) RTM_GETQDISC) as [E|_]; [by rewrite E in K | done].
Qed.

Definition ex_profile : shapingProfile := mkProfile 8000000 10000 60000 34 100000 1514.

(** Limiting a fresh interface to 8 Mbit/s. *)
Lemma Shape_then_VerifyShape_witness :
  ∃ h', Shape "eth0" 8000000 1500 [] = (h', Ok tt) ∧ snd (VerifyShape "eth0" 8000000 1500 h') = Ok tt.
Proof.
  apply (Shape_then_VerifyShape ex_link (map q_of ex_start) ltac:(done) "eth0" 8000000 1500 ex_profile None None []).
  - reflexivity.
  - reflexivity.
  - reflexivity.
  - intros _. apply leaves_skip; [by left | constructor].
Defined.

(** An acknowledgement: a header of 16 bytes and the code 0. *)
Definition ex_ack : bytes := [20; 0; 0; 0; 2; 0; 0; 0; 1; 0; 0; 0; 9; 0; 0; 0; 0; 0; 0; 0].
Definition ex_change : message := mkMessage RTM_NEWQDISC (Z.lor NLM_F_REQUEST NLM_F_ACK) 1 9 [].

Lemma decodeRouteReply_terminates_witness :
  decodeRouteReply ex_change ex_ack ≠ Err RFuel
  ∧ reply_loop ex_change 100 ex_ack false = decodeRouteReply ex_change ex_ack.
Proof. apply (decodeRouteReply_terminates ex_change ex_ack 100). cbn. lia. Defined.

Lemma receive_completed_witness :
  (∃ b m, unmarshal_message b = Some m ∧ completes ex_change m) ∧ receive ex_change [mkDatagram 0 false ex_ack] [] 0 = Ok [].
Proof.
  split; [|reflexivity].
  exact (proj1 (receive_completed ex_change [mkDatagram 0 false ex_ack] [] (or_introl eq_refl) eq_refl)).
Defined.

(** The slowest rate that carries two frames of 1500 bytes in a minute. *)
Lemma newShapingProfile_fits_witness :
  0 < burstTicks (uint64 (sp_rate (mkProfile 400 3000 6000 32 65536 1514) / 8)) (uint64 3000)
  ∧ uint32 6000 = 6000.
Proof.
  destruct (newShapingProfile_fits "eth0" 400 1500 (mkProfile 400 3000 6000 32 65536 1514)) as (_ & P & _ & _ & L & _);
    [reflexivity | done |]. split; [exact P | exact L].
Defined.
End ShapingExample.
