(* ===== verification/Store.v ===== *)
(** * The stored policy (internal/networkpolicy/store.go, the decoding in policy.go)

    A policy file holds one JSON object: exactly the known fields, no duplicates, no null
    where a value is required.  [Save] writes a temporary file and renames it over the old
    one; [Load] reads it back through the strict decoder.

    The text of JSON is encoding/json's: a parameter, with the documented laws.  A number
    that is not an integer is refused by every field of a policy, and here by the parser. *)

From stdpp Require Import base gmap sets list strings numbers.
From Stdlib Require Import Ascii.
From S2P Require Import Prelude GoStrings Policy Nft.
Open Scope Z_scope.

(** ** JSON text *)

Class JSON := {
  (** The value of a text, with object members in order and duplicates kept. *)
  parse_json : string → option json;
  (** [json.Marshal]. *)
  marshal_json : json → string;
  (** Whether a member name matches a field name without regard to case. *)
  json_fold : string → string → bool;
  json_policy_hash : string → string;
}.

(** Every string of a value is valid UTF-8. *)
Fixpoint json_utf8 (v : json) : bool :=
  match v with
  | JStr s => ValidUTF8 s
  | JArr l => forallb json_utf8 l
  | JObj l => forallb (λ m, ValidUTF8 (fst m) && json_utf8 (snd m)) l
  | _ => true
  end.
Class JSONLaws `{JSON} := {
  parse_marshal v : json_utf8 v = true → parse_json (marshal_json v) = Some v;
  marshal_utf8 v : ValidUTF8 (marshal_json v) = true;
  (** Only an object is written with a brace first. *)
  marshal_object l : ∃ s, marshal_json (JObj l) = String "{"%char s;
}.

Inductive sterr :=
| SIdentity | SJSON | SDuplicate | SDepth | SShape | SNull | SType | SSize
| SPolicy (e : polerr) | SDirectory | SFile | SIO | SMissing.

Definition st_require (b : bool) (e : sterr) : result sterr unit := require b e.

(** [consumeJSON]: no duplicate fields, at most a hundred levels. *)
Fixpoint consumeJSON (depth : nat) (v : json) : result sterr unit :=
  if (100 <? Z.of_nat depth) then Err SDepth
  else match v with
  | JObj l =>
      (fix members (l : list (string * json)) (seen : list string) : result sterr unit :=
         match l with
         | [] => Ok tt
         | (k, x) :: l' =>
             if bool_decide (k ∈ seen) then Err SDuplicate
             else _ ← consumeJSON (S depth) x; members l' (k :: seen)
         end) l []
  | JArr l =>
      (fix elements (l : list json) : result sterr unit :=
         match l with
         | [] => Ok tt
         | x :: l' => _ ← consumeJSON (S depth) x; elements l'
         end) l
  | _ => Ok tt
  end.
Definition validateUniqueJSON `{JSON} (data : string) : result sterr json :=
  if negb (ValidUTF8 data) then Err SJSON
  else match parse_json data with
  | None => Err SJSON
  | Some v => _ ← consumeJSON 0 v; Ok v
  end.

(** ** Exact objects *)

Fixpoint field (k : string) (l : list (string * json)) : option json :=
  match l with [] => None | (k', v) :: l' => if (k' =? k)%string then Some v else field k l' end.
Definition exactObject (v : json) (fields : list string) : result sterr (list (string * json)) :=
  match v with
  | JObj l =>
      _ ← st_require (forallb (λ f, bool_decide (is_Some (field f l))) fields) SShape;
      _ ← st_require (forallb (λ m, bool_decide (fst m ∈ fields)) l) SShape;
      Ok l
  | _ => Err SShape
  end.
Definition is_null (v : option json) : bool := match v with Some JNull => true | _ => false end.
Definition requireNonNull (l : list (string * json)) (fields : list string) : result sterr unit :=
  st_require (forallb (λ f, negb (is_null (field f l))) fields) SNull.
Definition arrayItems (v : option json) : result sterr (list json) :=
  match v with Some (JArr l) => Ok l | _ => Err SShape end.

(** An object with exactly [fields], of which [required] are not null. *)
Definition strict_object (v : option json) (fields required : list string)
    : result sterr (list (string * json)) :=
  l ← exactObject (default JNull v) fields; _ ← requireNonNull l required; Ok l.

Fixpoint each (f : json → result sterr unit) (l : list json) : result sterr unit :=
  match l with [] => Ok tt | x :: l' => _ ← f x; each f l' end.

Definition allocation_fields : list string := ["id"; "ip"; "port"]%string.
Definition validateAllocationJSON (v : json) : result sterr unit :=
  _ ← strict_object (Some v) allocation_fields allocation_fields; Ok tt.
Definition resolved_fields : list string := ["id"; "protocol"; "allocations"]%string.
Definition validate_resolved (v : json) : result sterr unit :=
  l ← strict_object (Some v) resolved_fields resolved_fields;
  items ← arrayItems (field "allocations" l);
  each validateAllocationJSON items.
Definition group_required : list string :=
  ["id"; "name"; "mode"; "protocol"; "allocation_ids"; "port_start"; "port_end"]%string.
Definition validate_group (v : json) : result sterr unit :=
  l ← strict_object (Some v) (group_required ++ ["ip"%string]) group_required;
  _ ← arrayItems (field "allocation_ids" l); Ok tt.
Definition chain_fields : list string := ["id"; "name"; "enabled"]%string.
Definition validate_chain (v : json) : result sterr unit :=
  _ ← strict_object (Some v) chain_fields chain_fields; Ok tt.
Definition rule_fields : list string :=
  ["id"; "name"; "enabled"; "chain_id"; "direction"; "action"; "protocol"; "group_id"; "cidr"]%string.
Definition rule_required : list string := ["id"; "name"; "enabled"; "direction"; "action"; "protocol"]%string.
Definition validate_rule (v : json) : result sterr unit :=
  _ ← strict_object (Some v) rule_fields rule_required; Ok tt.
Definition firewall_fields : list string :=
  ["enabled"; "default_inbound"; "default_outbound"; "chains"; "rules"]%string.
Definition bandwidth_fields : list string := ["download_bps"; "upload_bps"]%string.
Definition rules_fields : list string := ["groups"; "firewall"; "bandwidth"]%string.

Definition validateRulesJSON (v : option json) : result sterr unit :=
  body ← strict_object v rules_fields rules_fields;
  groups ← arrayItems (field "groups" body);
  _ ← each validate_group groups;
  firewall ← strict_object (field "firewall" body) firewall_fields firewall_fields;
  chains ← arrayItems (field "chains" firewall);
  _ ← each validate_chain chains;
  rules ← arrayItems (field "rules" firewall);
  _ ← each validate_rule rules;
  _ ← strict_object (field "bandwidth" body) bandwidth_fields bandwidth_fields; Ok tt.

Definition policy_fields : list string :=
  ["api_version"; "revision"; "policy_hash"; "allocations"; "resolved_groups"; "policy"]%string.
Definition validatePolicyJSON `{JSON} (data : string) : result sterr json :=
  v ← validateUniqueJSON data;
  top ← strict_object (Some v) policy_fields policy_fields;
  allocations ← arrayItems (field "allocations" top);
  _ ← each validateAllocationJSON allocations;
  resolved ← arrayItems (field "resolved_groups" top);
  _ ← each validate_resolved resolved;
  _ ← validateRulesJSON (field "policy" top);
  Ok v.

(** ** Decoding into the structs *)

(** A null leaves the zero value. *)
Definition d_str (v : option json) : result sterr string :=
  match v with Some (JStr s) => Ok s | Some JNull | None => Ok EmptyString | _ => Err SType end.
Definition d_bool (v : option json) : result sterr bool :=
  match v with Some (JBool b) => Ok b | Some JNull | None => Ok false | _ => Err SType end.
Definition d_num (lo hi : Z) (v : option json) : result sterr Z :=
  match v with
  | Some (JNum n) => if (lo <=? n) && (n <=? hi) then Ok n else Err SType
  | Some JNull | None => Ok 0
  | _ => Err SType
  end.
Definition minInt64 : Z := - 2 ^ 63.
Definition maxInt64 : Z := 2 ^ 63 - 1.
Definition maxUint64' : Z := 2 ^ 64 - 1.
Definition d_int : option json → result sterr Z := d_num minInt64 maxInt64.
Definition d_ptr (v : option json) : result sterr (option string) :=
  match v with Some (JStr s) => Ok (Some s) | Some JNull | None => Ok None | _ => Err SType end.
Fixpoint d_each {A} (f : json → result sterr A) (l : list json) : result sterr (list A) :=
  match l with [] => Ok [] | x :: l' => a ← f x; r ← d_each f l'; Ok (a :: r) end.
Definition d_slice {A} (f : json → result sterr A) (v : option json) : result sterr (option (list A)) :=
  match v with Some (JArr l) => r ← d_each f l; Ok (Some r) | Some JNull | None => Ok None | _ => Err SType end.
Definition d_obj (v : option json) : result sterr (list (string * json)) :=
  match v with Some (JObj l) => Ok l | Some JNull | None => Ok [] | _ => Err SType end.

Definition d_allocation (v : json) : result sterr Allocation :=
  l ← d_obj (Some v);
  id ← d_int (field "id" l); ip ← d_str (field "ip" l); port ← d_int (field "port" l);
  Ok (mkAllocation id ip port).
Definition d_resolved (v : json) : result sterr ResolvedGroup :=
  l ← d_obj (Some v);
  id ← d_str (field "id" l); protocol ← d_str (field "protocol" l);
  allocations ← d_slice d_allocation (field "allocations" l);
  Ok (mkResolved id protocol allocations).
Definition d_group (v : json) : result sterr Group :=
  l ← d_obj (Some v);
  id ← d_str (field "id" l); name ← d_str (field "name" l); mode ← d_str (field "mode" l);
  protocol ← d_str (field "protocol" l);
  ids ← d_slice (λ x, d_int (Some x)) (field "allocation_ids" l);
  port_start ← d_int (field "port_start" l); port_end ← d_int (field "port_end" l);
  ip ← d_ptr (field "ip" l);
  Ok (mkGroup id name mode protocol ids port_start port_end ip).
Definition d_chain (v : json) : result sterr Chain :=
  l ← d_obj (Some v);
  id ← d_str (field "id" l); name ← d_str (field "name" l); enabled ← d_bool (field "enabled" l);
  Ok (mkChain id name enabled).
Definition d_rule (v : json) : result sterr Rule :=
  l ← d_obj (Some v);
  id ← d_str (field "id" l); name ← d_str (field "name" l); enabled ← d_bool (field "enabled" l);
  chain ← d_ptr (field "chain_id" l); direction ← d_str (field "direction" l);
  action ← d_str (field "action" l); protocol ← d_str (field "protocol" l);
  group ← d_ptr (field "group_id" l); cidr ← d_ptr (field "cidr" l);
  Ok (mkRule id name enabled chain direction action protocol group cidr).
Definition d_firewall (v : option json) : result sterr Firewall :=
  l ← d_obj v;
  enabled ← d_bool (field "enabled" l); din ← d_str (field "default_inbound" l);
  dout ← d_str (field "default_outbound" l); chains ← d_slice d_chain (field "chains" l);
  rules ← d_slice d_rule (field "rules" l);
  Ok (mkFirewall enabled din dout chains rules).
Definition d_bandwidth (v : option json) : result sterr Bandwidth :=
  l ← d_obj v;
  upload ← d_int (field "upload_bps" l); download ← d_int (field "download_bps" l);
  Ok (mkBandwidth upload download).
Definition d_rules (v : option json) : result sterr Rules :=
  l ← d_obj v;
  groups ← d_slice d_group (field "groups" l);
  firewall ← d_firewall (field "firewall" l); bandwidth ← d_bandwidth (field "bandwidth" l);
  Ok (mkRules groups firewall bandwidth).
Definition d_policy (v : json) : result sterr Policy :=
  l ← d_obj (Some v);
  version ← d_int (field "api_version" l); revision ← d_num 0 maxUint64' (field "revision" l);
  hash ← d_str (field "policy_hash" l); allocations ← d_slice d_allocation (field "allocations" l);
  resolved ← d_slice d_resolved (field "resolved_groups" l); body ← d_rules (field "policy" l);
  Ok (mkPolicy version revision hash allocations resolved body).

(** The value [json.Marshal] writes for a policy: the fields in the order of the struct. *)
Definition policy_json (p : Policy) : json :=
  JObj [("api_version", JNum (po_APIVersion p)); ("revision", JNum (po_Revision p));
        ("policy_hash", JStr (po_PolicyHash p));
        ("allocations", j_list allocation_json (po_Allocations p));
        ("resolved_groups", j_list resolved_json (po_ResolvedGroups p));
        ("policy", rules_json (po_Body p))]%string.

Section Codec.
Context `{JSON}.
Definition marshal_len (p : Policy) : Z := strlen (marshal_json (policy_json p)).
Definition validate_static (p : Policy) : result sterr unit :=
  match validateStatic json_policy_hash marshal_len p with Ok u => Ok u | Err e => Err (SPolicy e) end.

(** [Policy.UnmarshalJSON] *)
Definition UnmarshalJSON (data : string) : result sterr Policy :=
  if MaxBody <? strlen data then Err SSize
  else
    v ← validatePolicyJSON data;
    p ← d_policy v;
    _ ← validate_static p;
    Ok p.

Definition json_space (c : ascii) : bool :=
  let n := byteZ c in (n =? 32) || (n =? 9) || (n =? 10) || (n =? 11) || (n =? 12) || (n =? 13).
Fixpoint first_byte (s : string) : option ascii :=
  match s with EmptyString => None | String c s' => if json_space c then first_byte s' else Some c end.

(** [Decode] into a policy. *)
Definition Decode (data : string) : result sterr Policy :=
  if (MaxBody <? strlen data) || negb (bool_decide (first_byte data = Some "{"%char)) then Err SSize
  else UnmarshalJSON data.
End Codec.

(** ** Files *)

Inductive fkind := Regular (data : string) | Directory | Symlink (target : string) | Special.
(** The permissions hold the sticky bit too. *)
Record fnode := mkNode { nd_kind : fkind; nd_perm : Z; nd_uid : Z; nd_nlink : Z }.
Abbreviation files := (gmap string fnode).

Section Files.
Context `{UUIDs} `{JSON}.
(** The effective user. *)
Variable euid : Z.

Definition policyPath (root id : string) : result sterr string :=
  if uuid_canonical id
  then Ok (path_Join root (path_Join "network-policy" (id +:+ ".json"))%string) else Err SIdentity.

Definition privatePolicyDirectory (fs : files) (path : string) : result sterr unit :=
  match fs !! path with
  | None => Err SMissing
  | Some n => st_require (match nd_kind n with Directory => true | _ => false end
                          && (Z.land (nd_perm n) 63 =? 0) && (nd_uid n =? euid)) SDirectory
  end.

Definition Load (fs : files) (root id : string) : result sterr Policy :=
  path ← policyPath root id;
  match privatePolicyDirectory fs (path_Dir path) with
  | Err SMissing => Ok Empty
  | Err e => Err e
  | Ok _ =>
      match fs !! path with
      | None => Ok Empty
      | Some n =>
          match nd_kind n with
          | Regular data => Decode data
          | _ => Err SFile
          end
      end
  end.

(** [os.MkdirAll] of the policy directory, whose parent exists. *)
Definition mkdir (fs : files) (path : string) : result sterr files :=
  match fs !! path with
  | None => Ok (<[path := mkNode Directory 448 euid 2]> fs)
  | Some n => match nd_kind n with Directory => Ok fs | Symlink _ => Ok fs | _ => Err SIO end
  end.

(** What the system calls of a write do: [None] when it succeeds; a failed write leaves
    the first bytes. *)
Record faults := mkFaults {
  fl_create : bool; fl_write : option nat; fl_sync : bool; fl_close : bool;
  fl_rename : bool; fl_opendir : bool; fl_syncdir : bool }.

Fixpoint take_bytes (n : nat) (s : string) : string :=
  match n, s with S n', String c s' => String c (take_bytes n' s') | _, _ => EmptyString end.

(** [writeState], with every state of the files on the way; [tmp] is the name
    [os.CreateTemp] chose. *)
Definition writeState (fl : faults) (tmp path data : string) (fs : files) : list files * result sterr unit :=
  if fl_create fl then ([fs], Err SIO)
  else
    let file d := <[tmp := mkNode (Regular d) 384 euid 1]> in
    let created := file EmptyString fs in
    let cleanup l r := (l ++ [delete tmp (default fs (list.last l))], r) in
    match fl_write fl with
    | Some n => cleanup [fs; created; file (take_bytes n data) fs] (Err SIO)
    | None =>
        let written := file data fs in
        if fl_sync fl || fl_close fl then cleanup [fs; created; written] (Err SIO)
        else if fl_rename fl then cleanup [fs; created; written] (Err SIO)
        else
          let renamed := <[path := mkNode (Regular data) 384 euid 1]> (delete tmp written) in
          cleanup [fs; created; written; renamed]
            (if fl_opendir fl || fl_syncdir fl then Err SIO else Ok tt)
    end.

Definition Save (fl : faults) (tmp root id : string) (p : Policy) (fs : files) : list files * result sterr unit :=
  match validate_static p with
  | Err e => ([fs], Err e)
  | Ok _ =>
  match policyPath root id with
  | Err e => ([fs], Err e)
  | Ok path =>
  match mkdir fs (path_Dir path) with
  | Err e => ([fs], Err e)
  | Ok fs' =>
  match privatePolicyDirectory fs' (path_Dir path) with
  | Err e => ([fs; fs'], Err e)
  | Ok _ =>
      let data := marshal_json (policy_json p) in
      if MaxBody <? strlen data then ([fs; fs'], Err SSize)
      else let '(l, r) := writeState fl (path_Join (path_Dir path) tmp) path data fs' in (fs :: l, r)
  end end end end.

(** [os.Remove]: a missing file is no error, a directory must be empty. *)
Definition has_children (fs : files) (path : string) : bool :=
  existsb (λ kv, HasPrefix (fst kv) (path +:+ "/")) (map_to_list fs).
Definition Remove (root id : string) (fs : files) : result sterr files :=
  path ← policyPath root id;
  match fs !! path with
  | Some (mkNode Directory _ _ _) => if has_children fs path then Err SIO else Ok (delete path fs)
  | _ => Ok (delete path fs)
  end.
End Files.
