(* ===== verification/StoreFacts.v ===== *)
(** * Properties of the stored policy

    The strict decoder inverts the encoder; a saved policy is what is loaded; a save that
    stops anywhere leaves the old file or the new one. *)

From stdpp Require Import base gmap sets list strings numbers.
From Stdlib Require Import Ascii.
From S2P Require Import Prelude GoStrings Policy PolicyFacts CanonicalFacts Nft Store.
Open Scope Z_scope.

(** ** The types of the Go structs *)

Definition int64_ok (n : Z) : Prop := minInt64 ≤ n ≤ maxInt64.
Definition allocation_typed (a : Allocation) : Prop := int64_ok (al_ID a) ∧ int64_ok (al_Port a).
Definition resolved_typed (g : ResolvedGroup) : Prop := Forall allocation_typed (elems (rg_Allocations g)).
Definition group_typed (g : Group) : Prop :=
  Forall int64_ok (elems (gr_AllocationIDs g)) ∧ int64_ok (gr_PortStart g) ∧ int64_ok (gr_PortEnd g).
Record policy_typed (p : Policy) : Prop := {
  pt_version : int64_ok (po_APIVersion p);
  pt_revision : 0 ≤ po_Revision p ≤ maxUint64';
  pt_allocations : Forall allocation_typed (elems (po_Allocations p));
  pt_resolved : Forall resolved_typed (elems (po_ResolvedGroups p));
  pt_groups : Forall group_typed (elems (rs_Groups (po_Body p)));
  pt_bandwidth : int64_ok (bw_Upload (rs_Bandwidth (po_Body p))) ∧ int64_ok (bw_Download (rs_Bandwidth (po_Body p)));
}.

(** ** Decoding what was encoded *)

Lemma d_num_ok lo hi n : lo ≤ n ≤ hi → d_num lo hi (Some (JNum n)) = Ok n.
Proof. intros [L U]. cbn. by rewrite (proj2 (Z.leb_le _ _) L), (proj2 (Z.leb_le _ _) U). Qed.
Lemma d_int_ok n : int64_ok n → d_int (Some (JNum n)) = Ok n.
Proof. apply d_num_ok. Qed.
Lemma d_ptr_ok o : d_ptr (Some (j_opt JStr o)) = Ok o.
Proof. by destruct o. Qed.
Lemma d_each_ok {A} (f : json → result sterr A) (g : A → json) l :
  Forall (λ a, f (g a) = Ok a) l → d_each f (map g l) = Ok l.
Proof. induction 1 as [|a l E F IH]; cbn; [done|]. by rewrite E, IH. Qed.
Lemma d_slice_ok {A} (f : json → result sterr A) (g : A → json) o :
  Forall (λ a, f (g a) = Ok a) (elems o) → d_slice f (Some (j_list g o)) = Ok o.
Proof. destruct o as [l|]; cbn; [|done]. intros F. by rewrite d_each_ok. Qed.

#[local] Opaque d_num d_int d_ptr d_slice.
#[local] Arguments j_list : simpl never.
#[local] Arguments j_opt : simpl never.
#[local] Arguments firewall_json : simpl never.
#[local] Arguments d_firewall : simpl never.
Ltac decode_fields :=
  cbn; repeat first [rewrite d_ptr_ok | rewrite d_int_ok by done | rewrite d_num_ok by done |
                     rewrite d_slice_ok by done | progress cbn].

Lemma d_allocation_ok a : allocation_typed a → d_allocation (allocation_json a) = Ok a.
Proof. intros [I P]. unfold d_allocation. decode_fields. by destruct a. Qed.
Lemma d_resolved_ok g : resolved_typed g → d_resolved (resolved_json g) = Ok g.
Proof.
  intros T. unfold d_resolved. cbn. rewrite d_slice_ok; [by destruct g|].
  eapply Forall_impl; [|exact T]. apply d_allocation_ok.
Qed.
Lemma d_group_ok g : group_typed g → d_group (group_json g) = Ok g.
Proof.
  intros (I & S & E). unfold d_group. cbn. rewrite d_slice_ok.
  2:{ eapply Forall_impl; [|exact I]. apply d_int_ok. }
  decode_fields. by destruct g.
Qed.
Lemma d_chain_ok c : d_chain (chain_json c) = Ok c.
Proof. by destruct c. Qed.
Lemma d_rule_ok r : d_rule (rule_json r) = Ok r.
Proof. unfold d_rule. decode_fields. by destruct r. Qed.
Lemma d_firewall_ok f : d_firewall (Some (firewall_json f)) = Ok f.
Proof.
  unfold d_firewall, firewall_json. cbn. rewrite !d_slice_ok; [by destruct f|..]; apply list.Forall_true.
  - apply d_chain_ok.
  - apply d_rule_ok.
Qed.
Lemma d_policy_ok p : policy_typed p → d_policy (policy_json p) = Ok p.
Proof.
  intros [V R A RG G [BU BD]]. unfold d_policy. cbn.
  rewrite !d_slice_ok by (eapply Forall_impl; [|eassumption];
    first [apply d_allocation_ok | apply d_resolved_ok | apply d_group_ok]).
  rewrite !d_int_ok, d_num_ok by done. cbn. rewrite d_firewall_ok. cbn.
  destruct p as [? ? ? ? ? [? ? []]]. done.
Qed.

(** ** What is decoded is typed *)

#[local] Transparent d_num d_int d_ptr d_slice.
Lemma d_num_typed lo hi v n : lo ≤ 0 ≤ hi → d_num lo hi v = Ok n → lo ≤ n ≤ hi.
Proof.
  intros B. unfold d_num. repeat case_match; intros [= <-]; lia.
Qed.
Lemma d_int_typed v n : d_int v = Ok n → int64_ok n.
Proof. apply d_num_typed. unfold minInt64, maxInt64. lia. Qed.
Lemma d_each_typed {A} (f : json → result sterr A) (P : A → Prop) l r :
  (∀ v a, f v = Ok a → P a) → d_each f l = Ok r → Forall P r.
Proof.
  intros F. revert r. induction l as [|x l IH]; intros r E; cbn in E; [by injection E as <-|].
  apply result_bind_Ok in E as (a & A1 & E). apply result_bind_Ok in E as (r' & R & E). injection E as <-.
  constructor; [by eapply F | by apply IH].
Qed.
Lemma d_slice_typed {A} (f : json → result sterr A) (P : A → Prop) v r :
  (∀ v a, f v = Ok a → P a) → d_slice f v = Ok r → Forall P (elems r).
Proof.
  intros F. unfold d_slice. repeat case_match; try (by intros [= <-]; constructor).
  intros (l' & L & E)%result_bind_Ok. injection E as <-. by eapply d_each_typed.
Qed.
Ltac decoded :=
  repeat match goal with
  | E : _ ≫= _ = Ok _ |- _ => let a := fresh "a" in let D := fresh "D" in apply result_bind_Ok in E as (a & D & E)
  end;
  match goal with E : Ok _ = Ok _ |- _ => injection E as <- end.
Lemma d_allocation_typed v a : d_allocation v = Ok a → allocation_typed a.
Proof. unfold d_allocation. intros E. decoded. split; by eapply d_int_typed. Qed.
Lemma d_resolved_typed v g : d_resolved v = Ok g → resolved_typed g.
Proof. unfold d_resolved. intros E. decoded. eapply d_slice_typed; [apply d_allocation_typed | eassumption]. Qed.
Lemma d_group_typed v g : d_group v = Ok g → group_typed g.
Proof.
  unfold d_group. intros E. decoded. split; [|split; by eapply d_int_typed].
  eapply d_slice_typed; [|eassumption]. intros x z. apply d_int_typed.
Qed.
Lemma d_policy_typed v p : d_policy v = Ok p → policy_typed p.
Proof.
  unfold d_policy. intros E. decoded.
  match goal with E : d_rules _ = Ok _ |- _ => unfold d_rules in E; decoded end.
  match goal with E : d_bandwidth _ = Ok _ |- _ => unfold d_bandwidth in E; decoded end.
  split; cbn; try (by eapply d_int_typed).
  - by eapply d_num_typed; [|eassumption]; unfold maxUint64'; lia.
  - eapply d_slice_typed; [apply d_allocation_typed | eassumption].
  - eapply d_slice_typed; [apply d_resolved_typed | eassumption].
  - eapply d_slice_typed; [apply d_group_typed | eassumption].
  - split; by eapply d_int_typed.
Qed.

(** ** The shape of what was encoded *)

Lemma consume_arr depth l :
  Z.of_nat depth ≤ 100 → Forall (λ x, consumeJSON (S depth) x = Ok tt) l → consumeJSON depth (JArr l) = Ok tt.
Proof.
  intros D F. cbn [consumeJSON]. rewrite (proj2 (Z.ltb_ge _ _) D). induction F as [|x l E F IH]; [done|].
  cbn. rewrite E. exact IH.
Qed.
Lemma consume_obj depth l :
  Z.of_nat depth ≤ 100 → NoDup (map fst l) → Forall (λ m, consumeJSON (S depth) (snd m) = Ok tt) l →
  consumeJSON depth (JObj l) = Ok tt.
Proof.
  intros D N F. cbn [consumeJSON]. rewrite (proj2 (Z.ltb_ge _ _) D).
  assert (G : ∀ seen, (∀ k, k ∈ map fst l → k ∉ seen) →
    (fix members (l : list (string * json)) (seen : list string) : result sterr unit :=
       match l with
       | [] => Ok tt
       | (k, x) :: l' => if bool_decide (k ∈ seen) then Err SDuplicate
                         else _ ← consumeJSON (S depth) x; members l' (k :: seen)
       end) l seen = Ok tt).
  2:{ apply G. set_solver. }
  induction F as [|[k x] l E F IH]; intros seen S; [done|]. cbn [map fst] in *. apply list.NoDup_cons in N as [N1 N2].
  rewrite bool_decide_eq_false_2 by (apply S; set_solver). cbn in E. rewrite E. cbn. apply IH; [done|].
  intros k' K [-> | I]%elem_of_cons; [done|]. apply (S k'); set_solver.
Qed.
Lemma consume_scalar depth v :
  Z.of_nat depth ≤ 100 → match v with JArr _ | JObj _ => False | _ => True end → consumeJSON depth v = Ok tt.
Proof. intros D S. destruct v; try done; cbn; by rewrite (proj2 (Z.ltb_ge _ _) D). Qed.
Lemma consume_opt depth o : Z.of_nat depth ≤ 100 → consumeJSON depth (j_opt JStr o) = Ok tt.
Proof. intros D. apply consume_scalar; [done|]. by destruct o. Qed.
Lemma consume_list {A} depth (f : A → json) o :
  Z.of_nat depth ≤ 100 → (∀ a, consumeJSON (S depth) (f a) = Ok tt) → consumeJSON depth (j_list f o) = Ok tt.
Proof.
  intros D F. destruct o as [l|]; [|by apply consume_scalar]. apply consume_arr; [done|].
  apply list.Forall_forall. intros x (a & -> & _)%list_elem_of_fmap. apply F.
Qed.

Ltac consume :=
  repeat match goal with
  | |- ∀ a, _ => intros ?
  | |- consumeJSON _ (j_opt JStr _) = _ => apply consume_opt; [lia]
  | |- consumeJSON _ (j_list _ _) = _ => apply consume_list; [lia|]
  | |- consumeJSON _ (JObj _) = _ =>
      apply consume_obj; [lia | by repeat (constructor; [set_solver|]); constructor | repeat (apply list.Forall_cons; split; [cbn [snd]|]); [..|done]]
  | |- consumeJSON _ (JNum _) = _ => apply consume_scalar; [lia | done]
  | |- consumeJSON _ (JStr _) = _ => apply consume_scalar; [lia | done]
  | |- consumeJSON _ (JBool _) = _ => apply consume_scalar; [lia | done]
  | |- consumeJSON _ (?f _) = _ => unfold f
  end.
Lemma consume_policy p : consumeJSON 0 (policy_json p) = Ok tt.
Proof. unfold policy_json. consume. Qed.

(** The slices a valid policy must have. *)
Record nonnull (p : Policy) : Prop := {
  nn_allocations : is_Some (po_Allocations p);
  nn_resolved : is_Some (po_ResolvedGroups p);
  nn_groups : is_Some (rs_Groups (po_Body p));
  nn_chains : is_Some (fw_Chains (rs_Firewall (po_Body p)));
  nn_rules : is_Some (fw_Rules (rs_Firewall (po_Body p)));
  nn_each_resolved : Forall (λ g, is_Some (rg_Allocations g)) (elems (po_ResolvedGroups p));
  nn_each_group : Forall (λ g, is_Some (gr_AllocationIDs g)) (elems (rs_Groups (po_Body p)));
}.

Lemma check_groups_slices l groups groups' :
  check_groups l groups = Ok groups' → Forall (λ g, is_Some (gr_AllocationIDs g)) l.
Proof.
  revert groups. induction l as [|g l IH]; intros groups C; cbn [check_groups] in C; [done|].
  destruct (negb (idPattern _)); [done|]. destruct (bool_decide _); [done|].
  destruct (group_ok g) eqn:G; cbn [negb] in C; [|done]. constructor; [|by eapply IH].
  unfold group_ok in G. rewrite !andb_true_iff in G. destruct (gr_AllocationIDs g); [by eauto | naive_solver].
Qed.
Lemma resolved_loop_slices groups byID allocations l seen :
  resolved_loop groups byID allocations l seen = Ok tt → Forall (λ g, is_Some (rg_Allocations g)) l.
Proof.
  revert seen. induction l as [|r l IH]; intros seen C; cbn [resolved_loop] in C; [done|].
  destruct (groups !! rg_ID r) as [g|]; [|done]. destruct (decide (rg_ID r ∈ seen)); [done|].
  destruct (negb _); [done|]. destruct (rg_Allocations r) as [l2|] eqn:E; [|done].
  apply result_bind_Ok in C as (sel & _ & C). destruct (negb _); [done|].
  apply result_bind_Ok in C as (rest & _ & C). destruct (negb _); [done|].
  constructor; [by rewrite E | by eapply IH].
Qed.
Lemma static_nonnull sha len p : validateStatic sha len p = Ok tt → nonnull p.
Proof.
  intros V. destruct (validateStatic_inv _ _ _ V) as (byID & groups & _ & CG & CR & _).
  unfold validateStatic in V. do 3 (apply result_bind_Ok in V as (_ & _ & V)).
  apply result_bind_Ok in V as (u & N & _). apply require_Ok in N.
  rewrite !andb_true_iff, !bool_decide_eq_true in N. destruct N as [[[[N1 N2] N3] N4] N5].
  unfold validateResolvedGroups in CR. destruct (negb _); [done|].
  split; try done; [by eapply resolved_loop_slices | by eapply check_groups_slices].
Qed.

Lemma each_ok {A} (f : json → result sterr unit) (g : A → json) l :
  Forall (λ a, f (g a) = Ok tt) l → each f (map g l) = Ok tt.
Proof. induction 1 as [|a l E F IH]; cbn; [done|]. rewrite E. exact IH. Qed.

Lemma shape_allocation a : validateAllocationJSON (allocation_json a) = Ok tt.
Proof. done. Qed.
Lemma shape_allocations l : each validateAllocationJSON (map allocation_json l) = Ok tt.
Proof. apply each_ok, list.Forall_true, shape_allocation. Qed.
Lemma shape_resolved g : is_Some (rg_Allocations g) → validate_resolved (resolved_json g) = Ok tt.
Proof.
  intros [l E]. unfold resolved_json. rewrite E. change (j_list allocation_json (Some l)) with (JArr (map allocation_json l)).
  exact (shape_allocations l).
Qed.
Lemma shape_group g : is_Some (gr_AllocationIDs g) → validate_group (group_json g) = Ok tt.
Proof. intros [l E]. unfold group_json. rewrite E. by destruct (gr_IP g). Qed.
Lemma shape_chain c : validate_chain (chain_json c) = Ok tt.
Proof. done. Qed.
Lemma shape_rule r : validate_rule (rule_json r) = Ok tt.
Proof. unfold rule_json. by destruct (ru_ChainID r), (ru_GroupID r), (ru_CIDR r). Qed.

Lemma shape_rules p : nonnull p → validateRulesJSON (Some (rules_json (po_Body p))) = Ok tt.
Proof.
  intros [_ _ [gs G] [cs C] [rs R] _ EG]. unfold rules_json, firewall_json. rewrite G, C, R in *.
  change (j_list group_json (Some gs)) with (JArr (map group_json gs)).
  change (j_list chain_json (Some cs)) with (JArr (map chain_json cs)).
  change (j_list rule_json (Some rs)) with (JArr (map rule_json rs)).
  set (f := JObj [("enabled"%string, _); _; _; _; _]). set (b := bandwidth_json _).
  unfold validateRulesJSON.
  set (l0 := [("groups"%string, _); _; _]).
  assert (S1 : strict_object (Some (JObj l0)) rules_fields rules_fields = Ok l0) by reflexivity.
  rewrite S1. cbn [mbind result_bind].
  change (arrayItems (field "groups" l0)) with (@Ok sterr _ (map group_json gs)). cbn [mbind result_bind].
  rewrite (each_ok validate_group group_json gs) by (eapply Forall_impl; [|exact EG]; apply shape_group).
  cbn [mbind result_bind]. change (field "firewall" l0) with (Some f).
  assert (S2 : ∃ lf, strict_object (Some f) firewall_fields firewall_fields = Ok lf
                ∧ arrayItems (field "chains" lf) = Ok (map chain_json cs)
                ∧ arrayItems (field "rules" lf) = Ok (map rule_json rs)).
  { eexists. split; [reflexivity|]. by split. }
  destruct S2 as (lf & -> & SC & SR). cbn [mbind result_bind]. rewrite SC. cbn [mbind result_bind].
  rewrite (each_ok validate_chain chain_json cs) by (apply list.Forall_true, shape_chain). cbn [mbind result_bind].
  rewrite SR. cbn [mbind result_bind].
  rewrite (each_ok validate_rule rule_json rs) by (apply list.Forall_true, shape_rule). reflexivity.
Qed.

Section Codec.
Context `{JSONLaws}.

Lemma shape_policy p :
  nonnull p → json_utf8 (policy_json p) = true →
  validatePolicyJSON (marshal_json (policy_json p)) = Ok (policy_json p).
Proof.
  intros NN U. unfold validatePolicyJSON, validateUniqueJSON.
  rewrite marshal_utf8, parse_marshal by done. cbn [negb]. rewrite consume_policy. cbn [mbind result_bind].
  pose proof (shape_rules p NN) as SR. destruct NN as [[al A] [rl R] _ _ _ ER _]. unfold policy_json. rewrite A, R in *.
  change (j_list allocation_json (Some al)) with (JArr (map allocation_json al)).
  change (j_list resolved_json (Some rl)) with (JArr (map resolved_json rl)).
  set (l0 := [("api_version"%string, _); _; _; _; _; _]).
  assert (S1 : strict_object (Some (JObj l0)) policy_fields policy_fields = Ok l0) by reflexivity.
  rewrite S1. cbn [mbind result_bind].
  change (arrayItems (field "allocations" l0)) with (@Ok sterr _ (map allocation_json al)). cbn [mbind result_bind].
  rewrite shape_allocations. cbn [mbind result_bind].
  change (arrayItems (field "resolved_groups" l0)) with (@Ok sterr _ (map resolved_json rl)). cbn [mbind result_bind].
  rewrite (each_ok validate_resolved resolved_json rl) by (eapply Forall_impl; [|exact ER]; apply shape_resolved).
  cbn [mbind result_bind]. change (field "policy" l0) with (Some (rules_json (po_Body p))). by rewrite SR.
Qed.

Lemma decode_marshal p :
  policy_typed p → json_utf8 (policy_json p) = true → validate_static p = Ok tt →
  strlen (marshal_json (policy_json p)) ≤ MaxBody → Decode (marshal_json (policy_json p)) = Ok p.
Proof.
  intros T U V L. unfold Decode. rewrite (proj2 (Z.ltb_ge _ _) L).
  destruct (marshal_object [("api_version", JNum (po_APIVersion p)); ("revision", JNum (po_Revision p));
        ("policy_hash", JStr (po_PolicyHash p));
        ("allocations", j_list allocation_json (po_Allocations p));
        ("resolved_groups", j_list resolved_json (po_ResolvedGroups p));
        ("policy", rules_json (po_Body p))]%string) as [s E].
  assert (FB : first_byte (marshal_json (policy_json p)) = Some "{"%char) by (unfold policy_json; rewrite E; done).
  rewrite FB, bool_decide_eq_true_2 by done. cbn [negb orb]. unfold UnmarshalJSON. rewrite (proj2 (Z.ltb_ge _ _) L).
  assert (NN : nonnull p).
  { unfold validate_static in V. destruct (validateStatic _ _ p) as [[]|] eqn:VS; [|done]. by eapply static_nonnull. }
  rewrite shape_policy by done.
  cbn [mbind result_bind]. rewrite d_policy_ok by done. cbn [mbind result_bind]. by rewrite V.
Qed.

(** ** Strictness *)

Lemma consume_nodup l seen depth :
  (fix members (l : list (string * json)) (seen : list string) : result sterr unit :=
     match l with
     | [] => Ok tt
     | (k, x) :: l' => if bool_decide (k ∈ seen) then Err SDuplicate
                       else _ ← consumeJSON (S depth) x; members l' (k :: seen)
     end) l seen = Ok tt → NoDup (map fst l) ∧ ∀ k, k ∈ map fst l → k ∉ seen.
Proof.
  revert seen. induction l as [|[k x] l IH]; intros seen E; [split; [constructor | set_solver]|].
  cbn [map fst]. case_bool_decide as B; [done|]. apply result_bind_Ok in E as (u & _ & E).
  apply IH in E as [N S]. split; [constructor; [|done] | set_solver]. intros I. apply (S k I). set_solver.
Qed.

(** C34: the decoder of a policy is strict.  What it accepts is one JSON object with exactly
    the six fields of a policy, each once; the policy it yields has every number in the
    range of its Go type and passes the static validation. *)
Theorem UnmarshalJSON_strict data p :
  UnmarshalJSON data = Ok p →
  policy_typed p ∧ validate_static p = Ok tt ∧ strlen data ≤ MaxBody
  ∧ ∃ l, parse_json data = Some (JObj l) ∧ NoDup (map fst l) ∧ ∀ k, k ∈ map fst l ↔ k ∈ policy_fields.
Proof.
  unfold UnmarshalJSON. destruct (MaxBody <? strlen data) eqn:L; [done|]. apply Z.ltb_ge in L.
  intros (v & VP & E)%result_bind_Ok. apply result_bind_Ok in E as (p' & D & E).
  apply result_bind_Ok in E as ([] & VS & E). injection E as <-.
  split; [by eapply d_policy_typed|]. split; [done|]. split; [done|].
  unfold validatePolicyJSON in VP. apply result_bind_Ok in VP as (v' & VU & VP).
  apply result_bind_Ok in VP as (top & SO & VP).
  do 5 (apply result_bind_Ok in VP as (? & _ & VP)). injection VP as <-.
  unfold validateUniqueJSON in VU. destruct (negb _); [done|]. destruct (parse_json data) as [w|]; [|done].
  apply result_bind_Ok in VU as ([] & C & VU). injection VU as ->.
  unfold strict_object in SO. apply result_bind_Ok in SO as (l & X & _). unfold exactObject in X.
  destruct v' as [| | | | |l']; try done. cbn [default] in X.
  apply result_bind_Ok in X as (u1 & F1 & X). apply result_bind_Ok in X as (u2 & F2 & _).
  apply require_Ok in F1, F2. exists l'. split; [done|]. cbn [consumeJSON] in C. destruct (100 <? _); [done|].
  apply consume_nodup in C as [N _]. split; [done|]. rewrite forallb_forall in F1, F2. intros k. split.
  - intros (m & -> & I)%list_elem_of_fmap. apply list_elem_of_In, F2, bool_decide_eq_true in I. done.
  - intros I. apply list_elem_of_In, F1, bool_decide_eq_true in I as [fv FX]. clear -FX.
    induction l' as [|[k' y] l' IH]; [done|]. cbn in FX |- *. destruct (String.eqb_spec k' k) as [->|]; set_solver.
Qed.

(** ** Saving and loading *)

Context `{UUIDs} (euid : Z).

(** Where a write can be seen: the file is the old one or the new one. *)
Definition old_or_new (old : option fnode) (data : string) (path : string) (fs : files) : Prop :=
  fs !! path = old ∨ fs !! path = Some (mkNode (Regular data) 384 euid 1).

(** A write that stopped before the rename. *)
Ltac stopped_write :=
  intros [= <- <-]; split; [|split; [|done]];
    [repeat (apply list.Forall_cons; split); [..|done]; cbn; rewrite ?lookup_delete_ne, ?lookup_insert_ne by done; auto
    |intros _ fs' [= <-]; by rewrite lookup_delete_eq].

Lemma writeState_spec fl tmp path data fs l r :
  tmp ≠ path → writeState euid fl tmp path data fs = (l, r) →
  Forall (old_or_new (fs !! path) data path) l
  ∧ (fl_create fl = false → ∀ fs', list.last l = Some fs' → fs' !! tmp = None)
  ∧ (r = Ok tt → ∃ fs', list.last l = Some fs' ∧ fs' !! path = Some (mkNode (Regular data) 384 euid 1)
                        ∧ ∀ q, q ≠ tmp → q ≠ path → fs' !! q = fs !! q).
Proof.
  intros N. unfold writeState, old_or_new.
  destruct (fl_create fl) eqn:C; [intros [= <- <-]; split; [apply list.Forall_singleton; by left | done]|].
  destruct (fl_write fl) as [n|]; cbn [app list.last]; [by stopped_write|].
  destruct (fl_sync fl || fl_close fl); cbn [app list.last]; [by stopped_write|].
  destruct (fl_rename fl); cbn [app list.last]; [by stopped_write|].
  intros [= <- <-]. split; [|split].
  - repeat (apply list.Forall_cons; split); [..|done]; cbn;
      rewrite ?lookup_delete_ne, ?lookup_insert_eq, ?lookup_insert_ne by done; auto.
  - intros _ fs' [= <-]. by rewrite lookup_delete_eq.
  - intros _. eexists. split; [reflexivity|]. split.
    + by rewrite lookup_delete_ne, lookup_insert_eq by done.
    + intros q Q1 Q2. by rewrite lookup_delete_ne, lookup_insert_ne, lookup_delete_ne, lookup_insert_ne by done.
Qed.

(** The names involved in a save are distinct, and a file needs its directory. *)
Definition save_names (tmp path : string) (fs : files) : Prop :=
  path_Join (path_Dir path) tmp ≠ path ∧ path_Join (path_Dir path) tmp ≠ path_Dir path ∧ path_Dir path ≠ path
  ∧ (fs !! path_Dir path = None → fs !! path = None).

(** [Load] looks at the directory and the file only. *)
Lemma Load_ext fs1 fs2 root id path :
  policyPath root id = Ok path → fs1 !! path_Dir path = fs2 !! path_Dir path → fs1 !! path = fs2 !! path →
  Load euid fs1 root id = Load euid fs2 root id.
Proof. intros P D F. unfold Load, privatePolicyDirectory. rewrite P. cbn [mbind result_bind]. by rewrite D, F. Qed.

Lemma mkdir_spec fs path fs' :
  mkdir euid fs path = Ok fs' →
  (fs' = fs ∧ is_Some (fs !! path)) ∨ (fs' = <[path := mkNode Directory 448 euid 2]> fs ∧ fs !! path = None).
Proof.
  unfold mkdir. destruct (fs !! path) as [n|]; [|intros [= <-]; by right].
  intros M. left. split; [|by eauto]. destruct (nd_kind n); congruence.
Qed.
Lemma Load_mkdir fs root id path fs' :
  policyPath root id = Ok path → path_Dir path ≠ path → (fs !! path_Dir path = None → fs !! path = None) →
  mkdir euid fs (path_Dir path) = Ok fs' → Load euid fs' root id = Load euid fs root id.
Proof.
  intros P N W M. apply mkdir_spec in M as [[-> _] | [-> D]]; [done|].
  unfold Load, privatePolicyDirectory. rewrite P. cbn [mbind result_bind].
  rewrite D, lookup_insert_eq, lookup_insert_ne, (W D) by done. cbn [nd_kind nd_perm nd_uid].
  by rewrite (Z.eqb_refl euid).
Qed.

(** The states of a write, as [Load] sees them. *)
Lemma write_states fl tmp root id path p fs l r :
  policyPath root id = Ok path → policy_typed p → json_utf8 (policy_json p) = true → validate_static p = Ok tt →
  strlen (marshal_json (policy_json p)) ≤ MaxBody → privatePolicyDirectory euid fs (path_Dir path) = Ok tt →
  path_Join (path_Dir path) tmp ≠ path → path_Join (path_Dir path) tmp ≠ path_Dir path → path_Dir path ≠ path →
  writeState euid fl (path_Join (path_Dir path) tmp) path (marshal_json (policy_json p)) fs = (l, r) →
  Forall (λ fs', Load euid fs' root id = Load euid fs root id ∨ Load euid fs' root id = Ok p) l
  ∧ (r = Ok tt → ∃ fs', list.last l = Some fs' ∧ Load euid fs' root id = Ok p).
Proof.
  intros P T U V L PD N1 N2 N3 W. pose proof (decode_marshal p T U V L) as DM.
  assert (D : Forall (λ fs', fs' !! path_Dir path = fs !! path_Dir path) l).
  { revert W. unfold writeState.
    repeat match goal with |- context [if ?b then _ else _] => destruct b | |- context [match ?o with Some _ => _ | None => _ end] => destruct o end;
      cbn; intros [= <- <-]; repeat (apply list.Forall_cons; split); try done;
      by rewrite ?lookup_delete_ne, ?lookup_insert_ne, ?lookup_delete_ne, ?lookup_insert_ne by done. }
  assert (NEW : ∀ fs', fs' !! path_Dir path = fs !! path_Dir path →
    fs' !! path = Some (mkNode (Regular (marshal_json (policy_json p))) 384 euid 1) → Load euid fs' root id = Ok p).
  { intros fs' D' F. unfold Load, privatePolicyDirectory in *. rewrite P. cbn [mbind result_bind].
    rewrite D'. destruct (fs !! path_Dir path); [|done]. rewrite PD, F. done. }
  destruct (writeState_spec _ _ _ _ _ _ _ N1 W) as (F & _ & O). split.
  - apply list.Forall_forall. intros fs' I. rewrite list.Forall_forall in F, D. specialize (F _ I). specialize (D _ I).
    destruct F as [F|F]; [left; by eapply Load_ext | right; by apply NEW].
  - intros R. destruct (O R) as (fs' & LL & FF & _). exists fs'. split; [done|]. apply NEW; [|done].
    rewrite list.Forall_forall in D. apply D. apply last_Some_elem_of in LL. done.
Qed.

(** C19: saving a policy is atomic and loses nothing.  In every state of the file system on
    the way, whatever system call fails and wherever the process stops, loading gives the
    policy that was there or the one being saved, never a part; and after a save that
    succeeded loading gives exactly the saved policy. *)
Theorem Save_atomic fl tmp root id path p fs l r :
  policyPath root id = Ok path → save_names tmp path fs → policy_typed p → json_utf8 (policy_json p) = true →
  Save euid fl tmp root id p fs = (l, r) →
  Forall (λ fs', Load euid fs' root id = Load euid fs root id ∨ Load euid fs' root id = Ok p) l
  ∧ (r = Ok tt → ∃ fs', list.last l = Some fs' ∧ Load euid fs' root id = Ok p).
Proof.
  intros P (N1 & N2 & N3 & W) T U. unfold Save.
  destruct (validate_static p) as [[]|] eqn:V; [|intros [= <- <-]; split; [apply list.Forall_singleton; by left | done]].
  rewrite P. destruct (mkdir euid fs (path_Dir path)) as [fs'|] eqn:M.
  2:{ intros [= <- <-]; split; [apply list.Forall_singleton; by left | done]. }
  pose proof (Load_mkdir _ _ _ _ _ P N3 W M) as LM.
  assert (TWO : Forall (λ f, Load euid f root id = Load euid fs root id ∨ Load euid f root id = Ok p) [fs; fs']).
  { apply list.Forall_cons. split; [by left | apply list.Forall_singleton; by left]. }
  destruct (privatePolicyDirectory euid fs' (path_Dir path)) as [[]|] eqn:PD; [|by intros [= <- <-]].
  destruct (MaxBody <? _) eqn:L; [by intros [= <- <-]|]. apply Z.ltb_ge in L.
  destruct (writeState _ _ _ _ _ _) as [ws r'] eqn:WS. intros [= <- <-].
  destruct (write_states _ _ _ _ _ _ _ _ _ P T U V L PD N1 N2 N3 WS) as [F O]. rewrite LM in F. split.
  - constructor; [by left | done].
  - intros R. destruct (O R) as (f & LL & E). exists f. split; [|done]. destruct ws; [done|]. exact LL.
Qed.
End Codec.

(** ** An example: a codec *)

Module StoreExample.

Definition nib (n : N) : ascii := ascii_of_N (97 + n).
Fixpoint enc_str (s k : string) : string :=
  match s with
  | EmptyString => String "z" k
  | String c s' => let n := N_of_ascii c in String (nib (n / 16)) (String (nib (n mod 16)) (enc_str s' k))
  end.
Fixpoint enc_pos (p : positive) (k : string) : string :=
  match p with xH => String "e" k | xO p' => String "0" (enc_pos p' k) | xI p' => String "1" (enc_pos p' k) end.
Definition enc_num (n : Z) (k : string) : string :=
  match n with Z0 => String "0" k | Zpos p => String "p" (enc_pos p k) | Zneg p => String "m" (enc_pos p k) end.
Fixpoint enc (v : json) (k : string) : string :=
  match v with
  | JNull => String "N" k
  | JBool b => String (if b then "T" else "F")%char k
  | JNum n => String "#" (enc_num n k)
  | JStr s => String "s" (enc_str s k)
  | JArr l => String "[" (foldr enc (String "]" k) l)
  | JObj l => String "{" (foldr (λ m acc, enc_str (fst m) (enc (snd m) acc)) (String "}" k) l)
  end.

Fixpoint dec_str (s : string) : option (string * string) :=
  match s with
  | String "z" k => Some (EmptyString, k)
  | String a (String b s') =>
      '(t, k) ← dec_str s';
      Some (String (ascii_of_N ((N_of_ascii a - 97) * 16 + (N_of_ascii b - 97))) t, k)
  | _ => None
  end.
Fixpoint dec_pos (s : string) : option (positive * string) :=
  match s with
  | String "e" k => Some (xH, k)
  | String "0" s' => '(p, k) ← dec_pos s'; Some (xO p, k)
  | String "1" s' => '(p, k) ← dec_pos s'; Some (xI p, k)
  | _ => None
  end.
Definition dec_num (s : string) : option (Z * string) :=
  match s with
  | String "0" k => Some (Z0, k)
  | String "p" s' => '(p, k) ← dec_pos s'; Some (Zpos p, k)
  | String "m" s' => '(p, k) ← dec_pos s'; Some (Zneg p, k)
  | _ => None
  end.
Fixpoint dec (fuel : nat) (s : string) : option (json * string) :=
  match fuel with
  | O => None
  | S f =>
      match s with
      | String "N" k => Some (JNull, k)
      | String "T" k => Some (JBool true, k)
      | String "F" k => Some (JBool false, k)
      | String "#" s' => '(n, k) ← dec_num s'; Some (JNum n, k)
      | String "s" s' => '(t, k) ← dec_str s'; Some (JStr t, k)
      | String "[" s' => '(l, k) ← dec_list f s'; Some (JArr l, k)
      | String "{" s' => '(l, k) ← dec_members f s'; Some (JObj l, k)
      | _ => None
      end
  end
with dec_list (fuel : nat) (s : string) : option (list json * string) :=
  match fuel with
  | O => None
  | S f =>
      match s with
      | String "]" k => Some ([], k)
      | _ => '(v, s') ← dec f s; '(l, k) ← dec_list f s'; Some (v :: l, k)
      end
  end
with dec_members (fuel : nat) (s : string) : option (list (string * json) * string) :=
  match fuel with
  | O => None
  | S f =>
      match s with
      | String "}" k => Some ([], k)
      | _ => '(key, s1) ← dec_str s; '(v, s2) ← dec f s1; '(l, k) ← dec_members f s2; Some ((key, v) :: l, k)
      end
  end.

Lemma dec_enc_str s k : dec_str (enc_str s k) = Some (s, k).
Proof.
  induction s as [|c s IH]; [done|]. cbn [enc_str]. set (n := N_of_ascii c).
  assert (B : (n < 256)%N) by apply N_ascii_bounded.
  assert (D : (n / 16 < 16)%N) by (apply N.Div0.div_lt_upper_bound; lia).
  assert (M : (n mod 16 < 16)%N) by (by apply N.mod_lt).
  assert (NZ : ∀ m, (m < 16)%N → nib m ≠ "z"%char ∧ N_of_ascii (nib m) = (97 + m)%N).
  { intros m L. unfold nib. rewrite N_ascii_embedding by lia. split; [|done]. intros E.
    apply (f_equal N_of_ascii) in E. rewrite N_ascii_embedding in E by lia. cbn in E. lia. }
  destruct (NZ _ D) as [N1 E1], (NZ _ M) as [_ E2].
  assert (S : dec_str (String (nib (n / 16)) (String (nib (n mod 16)) (enc_str s k)))
            = ('(t, k) ← dec_str (enc_str s k);
               Some (String (ascii_of_N ((N_of_ascii (nib (n / 16)) - 97) * 16 + (N_of_ascii (nib (n mod 16)) - 97))) t, k))).
  { destruct (nib (n / 16)) as [[] [] [] [] [] [] [] []]; done. }
  rewrite S, IH, E1, E2. cbn. do 2 f_equal. f_equal.
  replace ((97 + n / 16 - 97) * 16 + (97 + n mod 16 - 97))%N with n; [apply ascii_N_embedding|].
  pose proof (N.div_mod n 16 ltac:(done)) as DM. revert DM. generalize (n / 16)%N (n mod 16)%N. clear. intros q r ->. lia.
Qed.
Lemma dec_enc_pos p k : dec_pos (enc_pos p k) = Some (p, k).
Proof. induction p as [p IH|p IH|]; cbn; rewrite ?IH; done. Qed.
Lemma dec_enc_num n k : dec_num (enc_num n k) = Some (n, k).
Proof. destruct n; cbn; rewrite ?dec_enc_pos; done. Qed.

Fixpoint size (v : json) : nat :=
  match v with
  | JArr l => S (foldr (λ x acc, S (size x + acc)) 1 l)
  | JObj l => S (foldr (λ m acc, S (size (snd m) + acc)) 1 l)
  | _ => 1
  end%nat.

Lemma enc_not_close v k : ∃ c s, enc v k = String c s ∧ c ≠ "]"%char ∧ c ≠ "}"%char.
Proof. destruct v as [|[]| | | |]; cbn; eexists _, _; (split; [reflexivity | done]). Qed.
Lemma enc_str_not_close t k : ∃ c s, enc_str t k = String c s ∧ c ≠ "}"%char.
Proof.
  destruct t as [|a t]; cbn [enc_str]; eexists _, _; (split; [reflexivity|]); [done|].
  pose proof (N_ascii_bounded a). assert (D : (N_of_ascii a / 16 < 16)%N) by (apply N.Div0.div_lt_upper_bound; lia).
  unfold nib. intros E. apply (f_equal N_of_ascii) in E. rewrite N_ascii_embedding in E by lia.
  change (N_of_ascii "}"%char) with 125%N in E.
  lia.
Qed.

Lemma dec_list_cons f s : (∀ k, s ≠ String "]" k) →
  dec_list (S f) s = ('(v, s') ← dec f s; '(l, k) ← dec_list f s'; Some (v :: l, k)).
Proof.
  intros N. destruct s as [|c k]; [done|]. specialize (N k).
  destruct c as [[] [] [] [] [] [] [] []]; try done.
Qed.
Lemma dec_members_cons f s : (∀ k, s ≠ String "}" k) →
  dec_members (S f) s = ('(key, s1) ← dec_str s; '(v, s2) ← dec f s1; '(l, k) ← dec_members f s2; Some ((key, v) :: l, k)).
Proof.
  intros N. destruct s as [|c k]; [done|]. specialize (N k).
  destruct c as [[] [] [] [] [] [] [] []]; try done.
Qed.

Lemma dec_enc v : ∀ fuel k, (size v ≤ fuel)%nat → dec fuel (enc v k) = Some (v, k).
Proof.
  induction v as [| | | |l IH|l IH] using json_rect_nested; intros fuel k L;
    (destruct fuel as [|fuel]; [cbn in L; lia|]).
  - done.
  - by destruct b.
  - cbn. by rewrite dec_enc_num.
  - cbn. by rewrite dec_enc_str.
  - cbn [enc dec]. assert (D : dec_list fuel (foldr enc (String "]" k) l) = Some (l, k)); [|by rewrite D].
    cbn [size] in L. apply le_S_n in L. revert fuel L.
    induction IH as [|x l EX F IHl]; intros fuel L; (destruct fuel as [|fuel]; [cbn in L; lia|]); [done|].
    cbn [foldr] in L |- *. rewrite dec_list_cons.
    2:{ intros k' E. destruct (enc_not_close x (foldr enc (String "]" k) l)) as (c & s & E2 & N & _). congruence. }
    rewrite EX by lia. cbn. rewrite IHl by lia. done.
  - cbn [enc dec].
    set (g := λ m acc, enc_str (fst m) (enc (snd m) acc)).
    assert (D : dec_members fuel (foldr g (String "}" k) l) = Some (l, k)); [|by rewrite D].
    cbn [size] in L. apply le_S_n in L. revert fuel L.
    induction IH as [|[key x] l EX F IHl]; intros fuel L; (destruct fuel as [|fuel]; [cbn in L; lia|]); [done|].
    cbn [foldr snd] in L |- *. cbn [snd] in EX. unfold g at 1. cbn [fst snd]. rewrite dec_members_cons.
    2:{ intros k' E. edestruct (enc_str_not_close key) as (c & s & E2 & N). rewrite E2 in E. congruence. }
    rewrite dec_enc_str. cbn. rewrite EX by lia. cbn. rewrite IHl by lia. done.
Qed.

(** The text is long enough to serve as fuel. *)
Lemma enc_str_length t k : (String.length k < String.length (enc_str t k))%nat.
Proof. induction t as [|c t IH]; cbn [enc_str String.length]; lia. Qed.
Lemma enc_num_length n k : (String.length k < String.length (enc_num n k))%nat.
Proof.
  assert (P : ∀ p, (String.length k < String.length (enc_pos p k))%nat).
  { intros p. induction p; cbn [enc_pos String.length]; lia. }
  destruct n as [|p|p]; cbn [enc_num String.length]; [lia|..]; specialize (P p); lia.
Qed.
Lemma size_length v : ∀ k, (size v + 1 + 2 * String.length k ≤ 2 * String.length (enc v k))%nat.
Proof.
  induction v as [| | | |l IH|l IH] using json_rect_nested; intros k; cbn [size enc String.length].
  - lia.
  - lia.
  - pose proof (enc_num_length n k). lia.
  - pose proof (enc_str_length s k). lia.
  - enough (foldr (λ x acc, S (size x + acc)) 1 l + 1 + 2 * String.length k
            ≤ 2 * String.length (foldr enc (String "]" k) l))%nat by lia.
    induction IH as [|x l EX F IHl]; cbn [foldr String.length]; [lia|].
    specialize (EX (foldr enc (String "]" k) l)). lia.
  - set (g := λ m acc, enc_str (fst m) (enc (snd m) acc)).
    enough (foldr (λ m acc, S (size (snd m) + acc)) 1 l + 1 + 2 * String.length k
            ≤ 2 * String.length (foldr g (String "}" k) l))%nat by lia.
    induction IH as [|[key x] l EX F IHl]; cbn [foldr String.length snd]; [lia|].
    unfold g at 1. cbn [fst snd] in EX |- *. specialize (EX (foldr g (String "}" k) l)).
    pose proof (enc_str_length key (enc x (foldr g (String "}" k) l))). lia.
Qed.

Definition ex_parse (s : string) : option json :=
  match dec (2 * String.length s) s with Some (v, EmptyString) => Some v | _ => None end.
#[local] Instance ex_json : JSON := {|
  parse_json := ex_parse; marshal_json v := enc v EmptyString; json_fold a b := false; json_policy_hash := w_sha |}.

(** The text is ASCII. *)
Definition plain (s : string) : bool := all_chars (λ c, byteZ c <? 128) s.
Lemma plain_utf8 s : plain s = true → ValidUTF8 s = true.
Proof.
  induction s as [|c s IH]; [done|]. unfold plain in *. cbn [all_chars]. intros [C P]%andb_true_iff.
  cbn [ValidUTF8]. rewrite C. by apply IH.
Qed.
Lemma plain_cons c s : byteZ c < 128 → plain s = true → plain (String c s) = true.
Proof. intros C P. unfold plain in *. cbn [all_chars]. by rewrite (proj2 (Z.ltb_lt _ _) C). Qed.
Lemma plain_str t k : plain k = true → plain (enc_str t k) = true.
Proof.
  intros K. induction t as [|c t IH]; cbn [enc_str]; [by apply plain_cons|].
  assert (NB : ∀ m, (m < 16)%N → byteZ (nib m) < 128).
  { intros m L. unfold byteZ, nib. rewrite N_ascii_embedding by lia. lia. }
  pose proof (N_ascii_bounded c). apply plain_cons; [apply NB, N.Div0.div_lt_upper_bound; lia|].
  apply plain_cons; [apply NB, N.mod_lt; lia | done].
Qed.
Lemma plain_num n k : plain k = true → plain (enc_num n k) = true.
Proof.
  intros K. assert (P : ∀ p, plain (enc_pos p k) = true) by (induction p; cbn [enc_pos]; by apply plain_cons).
  destruct n; cbn [enc_num]; by apply plain_cons.
Qed.
Lemma plain_enc v : ∀ k, plain k = true → plain (enc v k) = true.
Proof.
  induction v as [|b| | |l IH|l IH] using json_rect_nested; intros k K; cbn [enc]; (apply plain_cons; [try done; by destruct b|]).
  - done.
  - done.
  - by apply plain_num.
  - by apply plain_str.
  - induction IH as [|x l EX F IHl]; cbn [foldr]; [by apply plain_cons | by apply EX].
  - induction IH as [|[key x] l EX F IHl]; cbn [foldr fst snd]; [by apply plain_cons|]. by apply plain_str, EX.
Qed.

#[local] Instance ex_json_laws : JSONLaws.
Proof.
  split.
  - intros v _. cbn [parse_json marshal_json ex_json]. unfold ex_parse. rewrite dec_enc; [done|].
    pose proof (size_length v EmptyString). cbn in *. lia.
  - intros v. by apply plain_utf8, plain_enc.
  - intros l. by eexists.
Qed.
#[local] Instance ex_ids : UUIDs := {| uuid_canonical id := strlen id =? 36 |}.

Definition ex_id : string := "3c0b5a4e-8f5d-4c1b-9a55-0f6f4f1f2a11".
Definition ex_dir : string := "/var/lib/wings/network-policy".
Definition ex_files : files := {[ ex_dir := mkNode Directory 448 0 2 ]}.
Definition ex_path : string := "/var/lib/wings/network-policy/3c0b5a4e-8f5d-4c1b-9a55-0f6f4f1f2a11.json".
Definition no_faults : faults := mkFaults false None false false false false false.
Lemma ex_typed : policy_typed w_policy.
Proof.
  split; unfold int64_ok, maxUint64', minInt64, maxInt64; cbn; try lia; repeat constructor; unfold int64_ok, minInt64, maxInt64; cbn; try lia.
Qed.

Lemma Save_atomic_witness : ∃ fs', Load 0 fs' "/var/lib/wings" ex_id = Ok w_policy.
Proof.
  assert (R : snd (Save 0 no_faults ".policy-1" "/var/lib/wings" ex_id w_policy ex_files) = Ok tt)
    by (vm_compute; reflexivity).
  destruct (Save_atomic 0 no_faults ".policy-1" "/var/lib/wings" ex_id ex_path w_policy ex_files
              (fst (Save 0 no_faults ".policy-1" "/var/lib/wings" ex_id w_policy ex_files)) (Ok tt)) as [_ S].
  - reflexivity.
  - unfold save_names. split_and!; [by vm_compute..|]. by vm_compute.
  - exact ex_typed.
  - vm_compute. reflexivity.
  - rewrite <- R. apply surjective_pairing.
  - destruct (S eq_refl) as (fs' & _ & L). exists fs'. exact L.
Defined.

Lemma UnmarshalJSON_strict_witness :
  UnmarshalJSON (marshal_json (policy_json w_policy)) = Ok w_policy ∧ policy_typed w_policy.
Proof.
  assert (E : UnmarshalJSON (marshal_json (policy_json w_policy)) = Ok w_policy) by (vm_compute; reflexivity).
  split; [exact E|]. exact (proj1 (UnmarshalJSON_strict (marshal_json (policy_json w_policy)) w_policy E)).
Defined.
End StoreExample.
