(* ===== verification/NftState.v ===== *)
(** * Loading and verifying a firewall (internal/networkpolicy/linux.go)

    The document of [compileRuleset] as the JSON given to nft, the transaction that
    replaces the server's own table, and the comparison of a live listing with what was
    requested: handles are dropped, sets sorted, matches that nft implies removed, chains
    sorted and each chain's rules kept in order.

    nft is run by the backend: a parameter, with the commands made so far as its history.
    A Go map is an object whose members are sorted and unique. *)

From stdpp Require Import base gmap sets list strings numbers sorting.
From Stdlib Require Import Ascii.
From S2P Require Import Prelude GoStrings Policy Nft Store.
Open Scope Z_scope.

(** ** Go maps *)

(** [m[k] = v] *)
Fixpoint map_set (k : string) (v : json) (l : list (string * json)) : list (string * json) :=
  match l with
  | [] => [(k, v)]
  | (k', v') :: l' =>
      if (k =? k')%string then (k, v) :: l'
      else if str_leb k k' then (k, v) :: l else (k', v') :: map_set k v l'
  end.
Definition go_map (l : list (string * json)) : json :=
  JObj (foldl (λ acc m, map_set (fst m) (snd m) acc) [] l).
Definition delete_key (k : string) (l : list (string * json)) : list (string * json) :=
  List.filter (λ m, negb (fst m =? k)%string) l.
Definition mget (k : string) (v : json) : option json :=
  match v with JObj l => field k l | _ => None end.
Definition is_object (v : json) : bool := match v with JObj _ => true | _ => false end.
Definition mobj (k : string) (v : json) : option json :=
  match mget k v with Some (JObj l) => Some (JObj l) | _ => None end.
Definition mstr (k : string) (v : json) : option string :=
  match mget k v with Some (JStr s) => Some s | _ => None end.

(** A value decoded into [any]: the last of several equal names wins. *)
Fixpoint decode_any (v : json) : json :=
  match v with
  | JArr l => JArr (map decode_any l)
  | JObj l => go_map (map (λ m, (fst m, decode_any (snd m))) l)
  | _ => v
  end.

(** ** The document as JSON *)

Definition obj1 (k : string) (v : json) : json := JObj [(k, v)].
Definition scalar_json (s : scalar) : json :=
  match s with SInt n => JNum n | SStr t => JStr t | SBool b => JBool b | SAddr a => JStr (addr_String a) end.
Fixpoint left_json (e : left_expr) : json :=
  match e with
  | Payload protocol field => obj1 "payload" (go_map [("protocol", JStr protocol); ("field", JStr field)])
  | Meta key => obj1 "meta" (obj1 "key" (JStr key))
  | CtKey key => obj1 "ct" (obj1 "key" (JStr key))
  | CtDir key dir => obj1 "ct" (go_map [("key", JStr key); ("dir", JStr dir)])
  | BitAnd e' mask => obj1 "&" (JArr [left_json e'; scalar_json mask])
  | Exthdr name => obj1 "exthdr" (obj1 "name" (JStr name))
  | Concat a b => obj1 "concat" (JArr [left_json a; left_json b])
  end%string.
Definition concat_json (t : addr * Z) : json :=
  obj1 "concat" (JArr [JStr (addr_String (fst t)); JNum (snd t)]).
Definition right_json (r : right_expr) : json :=
  match r with
  | RScalar s => scalar_json s
  | RSet l => obj1 "set" (JArr (map scalar_json l))
  | RTuples l => obj1 "set" (JArr (map concat_json l))
  | RPrefix a len => obj1 "prefix" (go_map [("addr", JStr (addr_String a)); ("len", JNum len)])
  end%string.
Definition stmt_json (s : stmt) : json :=
  match s with
  | Match op l r => obj1 "match" (go_map [("op", JStr op); ("left", left_json l); ("right", right_json r)])
  | Jump t => obj1 "jump" (obj1 "target" (JStr t))
  | Goto t => obj1 "goto" (obj1 "target" (JStr t))
  | Verdict a => obj1 a JNull
  end%string.
Definition object_json (o : nft_object) : json :=
  match o with
  | NTable name comment =>
      obj1 "table" (go_map [("family", JStr "bridge"); ("name", JStr name); ("comment", JStr comment)])
  | NChain table name None =>
      obj1 "chain" (go_map [("family", JStr "bridge"); ("table", JStr table); ("name", JStr name)])
  | NChain table name (Some h) =>
      obj1 "chain" (go_map [("family", JStr "bridge"); ("table", JStr table); ("name", JStr name);
                            ("type", JStr "filter"); ("hook", JStr (hk_hook h)); ("prio", JNum (hk_prio h));
                            ("policy", JStr "accept")])
  | NRule table chain expr =>
      obj1 "rule" (go_map [("family", JStr "bridge"); ("table", JStr table); ("chain", JStr chain);
                           ("expr", JArr (map stmt_json expr))])
  end%string.
Definition document (commands : list json) : json := obj1 "nftables" (JArr commands).
Definition add_commands (d : nftDocument) : list json := map (λ o, obj1 "add" (object_json o)) d.
Definition delete_table (table : string) : json :=
  obj1 "delete" (obj1 "table" (go_map [("family", JStr "bridge"); ("name", JStr table)]))%string.

(** ** Normal forms of rules *)

Definition nftMatch (e : json) : option json := mobj "match" e.
Definition nftMatchRight (e : json) : option json := m ← nftMatch e; mget "right" m.
Definition match_op (m : json) : option string := mstr "op" m.

Definition nftMetaProtocolMatch (e : json) : option string :=
  m ← nftMatch e;
  if bool_decide (match_op m = Some "=="%string) then
    lhs ← mobj "left" m;
    meta ← mobj "meta" lhs;
    if bool_decide (mstr "key" meta = Some "l4proto"%string) then mstr "right" m else None
  else None.

(** The expression under a mask. *)
Definition unmasked (lhs : json) : option json :=
  match mget "&" lhs with
  | Some (JArr [e; _]) => if is_object e then Some e else None
  | _ => Some lhs
  end.
Definition nftPayloadMatch (e : json) : option (string * string) :=
  m ← nftMatch e;
  if bool_decide (match_op m = Some "=="%string ∨ match_op m = Some "!="%string) then
    lhs ← mobj "left" m;
    inner ← unmasked lhs;
    payload ← mobj "payload" inner;
    protocol ← mstr "protocol" payload;
    field ← mstr "field" payload;
    Some (protocol, field)
  else None.

Definition key_family (key : string) : option string :=
  if HasPrefix key "ip " then Some "ip"%string
  else if HasPrefix key "ip6 " then Some "ip6"%string else None.
Fixpoint ctFamilies (v : json) : list string :=
  match v with
  | JObj l =>
      match connection ← mobj "ct" v; key ← mstr "key" connection; key_family key with
      | Some family => [family]
      | None =>
          (fix parts (l : list (string * json)) : list string :=
             match l with
             | [] => []
             | (k, x) :: l' =>
                 if (k =? "concat")%string then match x with JArr ps => flat_map ctFamilies ps | _ => [] end
                 else parts l'
             end) l
      end
  | _ => []
  end.

(** The protocols a match of the rule already implies. *)
Definition transport_of (protocol : string) : list string :=
  if bool_decide (protocol = "tcp" ∨ protocol = "udp")%string then [protocol]
  else if (protocol =? "icmp")%string then ["icmp"]
  else if (protocol =? "icmpv6")%string then ["ipv6-icmp"] else [].
Definition network_of (protocol : string) : list string :=
  if (protocol =? "icmp")%string then ["ip"]
  else if (protocol =? "icmpv6")%string then ["ip6"]
  else if bool_decide (protocol = "ip" ∨ protocol = "ip6")%string then [protocol] else [].
Definition is_frag_match (e : json) : bool :=
  match nftMatch e with
  | Some m =>
      bool_decide (match_op m = Some "=="%string) && (if mget "right" m is Some (JBool true) then true else false)
      && match lhs ← mobj "left" m; header ← mobj "exthdr" lhs; Some header with
         | Some (JObj [(k, JStr name)]) => (k =? "name")%string && (name =? "frag")%string
         | _ => false
         end
  | None => false
  end.
Definition transportPayload (es : list json) : list string :=
  flat_map (λ e, match nftPayloadMatch e with Some (protocol, _) => transport_of protocol | None => [] end) es.
Definition networkPayload (es : list json) : list string :=
  flat_map (λ e,
    match nftMatch e with
    | Some m => match mget "left" m with Some lhs => ctFamilies lhs | None => [] end
    | None => []
    end
    ++ (if is_frag_match e then ["ip6"%string] else [])
    ++ match nftPayloadMatch e with Some (protocol, _) => network_of protocol | None => [] end) es.

Definition implied (transport network : list string) (e : json) : bool :=
  match nftMetaProtocolMatch e with
  | Some protocol => bool_decide (protocol ∈ transport)
  | None => false
  end
  || match nftPayloadMatch e with
     | Some (protocol, field) =>
         (protocol =? "ether")%string && (field =? "type")%string
         && bool_decide ((m ← nftMatch e; match_op m) = Some "=="%string)
         && match nftMatchRight e with Some (JStr family) => bool_decide (family ∈ network) | _ => false end
     | None => false
     end.
Definition normalize_expressions (es : list json) : list json :=
  List.filter (λ e, negb (implied (transportPayload es) (networkPayload es) e)) es.
Definition normalizeNftRule (rule : json) : json :=
  match rule, mget "expr" rule with
  | JObj l, Some (JArr es) => JObj (map_set "expr" (JArr (normalize_expressions es)) l)
  | _, _ => rule
  end.

Section Canonical.
Context `{JSON}.

Definition marshal_le (a b : json) : Prop := str_leb (marshal_json a) (marshal_json b) = true.
#[global] Instance marshal_le_dec : RelDecision marshal_le.
Proof. intros a b. unfold marshal_le. apply _. Defined.

(** A set with several members, alone in its object, is sorted. *)
Definition sort_set (l : list (string * json)) : json :=
  match l with
  | [(k, JArr items)] =>
      if (k =? "set")%string && (1 <? zlen items) then JObj [(k, JArr (merge_sort marshal_le items))] else JObj l
  | _ => JObj l
  end.
Fixpoint normalizeNft (v : json) : json :=
  match v with
  | JArr l => JArr (map normalizeNft l)
  | JObj l => sort_set (delete_key "handle" (map (λ m, (fst m, normalizeNft (snd m))) l))
  | _ => v
  end.

Definition nul : string := String "000"%char EmptyString.
Definition nftObjectKey (object : json) : option string :=
  let name := match mstr "name" object with Some n => Some n | None => mstr "chain" object end in
  family ← mstr "family" object; table ← mstr "table" object; n ← name;
  Some (family +:+ nul +:+ table +:+ nul +:+ n).

Record nftChainState := mkChainState { cs_key : string; cs_Chain : json; cs_Rules : list json }.
Record nftTableState := mkTableState { ts_Tables : list json; ts_Chains : list nftChainState }.

Definition add_chain_rule (rule : json) (c : nftChainState) : nftChainState :=
  mkChainState (cs_key c) (cs_Chain c) (cs_Rules c ++ [rule]).
Fixpoint append_rule (key : string) (rule : json) (cs : list nftChainState) : option (list nftChainState) :=
  match cs with
  | [] => None
  | c :: cs' =>
      if (cs_key c =? key)%string then Some (add_chain_rule rule c :: cs')
      else cs'' ← append_rule key rule cs'; Some (c :: cs'')
  end.

(** One object of the listing. *)
Definition group_object (object : json) (g : nftTableState) : option nftTableState :=
  match object with
  | JObj [(kind, JObj l)] =>
      if (kind =? "table")%string then Some (mkTableState (ts_Tables g ++ [JObj l]) (ts_Chains g))
      else if (kind =? "chain")%string then
        key ← nftObjectKey (JObj l);
        if bool_decide (key ∈ cs_key <$> ts_Chains g) then None
        else Some (mkTableState (ts_Tables g) (ts_Chains g ++ [mkChainState key (JObj l) []]))
      else if (kind =? "rule")%string then
        let rule := normalizeNftRule (JObj l) in
        key ← nftObjectKey rule;
        cs ← append_rule key rule (ts_Chains g);
        Some (mkTableState (ts_Tables g) cs)
      else None
  | _ => None
  end.
Fixpoint group_objects (state : list json) (g : nftTableState) : option nftTableState :=
  match state with
  | [] => Some g
  | o :: state' => g' ← group_object o g; group_objects state' g'
  end.

Definition chain_le (a b : nftChainState) : Prop := str_leb (cs_key a) (cs_key b) = true.
#[global] Instance chain_le_dec : RelDecision chain_le.
Proof. intros a b. unfold chain_le. apply _. Defined.
Definition chain_state_json (c : nftChainState) : json :=
  JObj [("chain", cs_Chain c); ("rules", JArr (cs_Rules c))]%string.
Definition table_state_json (g : nftTableState) : json :=
  JObj [("tables", JArr (ts_Tables g));
        ("chains", JArr (map chain_state_json (merge_sort chain_le (ts_Chains g))))]%string.
Definition canonicalNftState (state : list json) : option string :=
  g ← group_objects (map normalizeNft state) (mkTableState [] []);
  Some (marshal_json (table_state_json g)).

Definition requestedNftState (d : nftDocument) : option string := canonicalNftState (map object_json d).

(** A struct's field: the names are matched without regard to case.  nft prints each
    member once. *)
Definition member (k : string) (l : list (string * json)) : option json :=
  snd <$> list.last (List.filter (λ m, (fst m =? k)%string || json_fold k (fst m)) l).
(** The first value of the text, decoded into [nftDocument]. *)
Definition live_objects (v : json) : option (list json) :=
  match v with
  | JNull => Some []
  | JObj l =>
      match member "nftables" l with
      | None | Some JNull => Some []
      | Some (JArr os) =>
          if forallb (λ o, match o with JObj _ | JNull => true | _ => false end) os
          then Some (map (λ o, match decode_any o with JNull => JObj [] | o' => o' end) os) else None
      | Some _ => None
      end
  | _ => None
  end.
Definition has_metainfo (o : json) : bool := bool_decide (is_Some (mget "metainfo" o)).
Definition liveNftState (first_json : string → option json) (data : string) : option string :=
  v ← first_json data;
  os ← live_objects v;
  canonicalNftState (List.filter (λ o, negb (has_metainfo o)) os).
End Canonical.

(** ** Running nft *)

(** A command: its standard input and arguments.  An outcome: the output, and for a
    failure the exit code when the program ran. *)
Record command := mkCommand { cm_input : string; cm_args : list string }.
Inductive outcome := RunOk (output : string) | RunErr (output : string) (code : option Z).
Inductive ferr := FName | FRun | FJSON | FOwner | FMissing | FSize | FDrift | FPolicy (e : polerr).

Class Nft := {
  (** What the last command of the history does. *)
  nft_run : list command → outcome;
  (** The first JSON value of a text. *)
  first_json : string → option json;
}.

Definition F (A : Type) : Type := list command → list command * result ferr A.
#[global] Instance F_ret : MRet F := λ A a h, (h, Ok a).
#[global] Instance F_bind : MBind F := λ A B f m h,
  let '(h', r) := m h in match r with Ok a => f a h' | Err e => (h', Err e) end.
Lemma F_bind_ok {A B} (m : F A) (f : A → F B) h h2 b :
  (m ≫= f) h = (h2, Ok b) → ∃ a h1, m h = (h1, Ok a) ∧ f a h1 = (h2, Ok b).
Proof. unfold mbind, F_bind. destruct (m h) as [h1 [a|e]]; [eauto | done]. Qed.
Definition f_lift {A} (r : result ferr A) : F A := λ h, (h, r).
Definition of_policy {A} (r : result polerr A) : F A :=
  f_lift (match r with Ok a => Ok a | Err e => Err (FPolicy e) end).
Definition of_json {A} (o : option A) : F A := f_lift (match o with Some a => Ok a | None => Err FJSON end).

Section Backend.
Context `{JSON} `{UUIDs} `{UnicodeTables} `{Nft}.

Definition Run (input : string) (args : list string) : F outcome :=
  λ h, let h' := h ++ [mkCommand input args] in (h', Ok (nft_run h')).
Definition run_ok (o : outcome) : F string :=
  f_lift (match o with RunOk out => Ok out | RunErr _ _ => Err FRun end).

(** [missingNftTable]: nft's own report that this table does not exist. *)
Definition newline : ascii := "010"%char.
Definition caret_byte (c : ascii) : bool :=
  Ascii.eqb c " " || Ascii.eqb c "009" || Ascii.eqb c "^" || Ascii.eqb c "~".
Definition missingNftTable (output : string) (code : option Z) (table : string) : bool :=
  bool_decide (code = Some 1)
  && match Split newline (TrimSpace output) with
     | [l0; l1; l2] =>
         (l1 =? "list table bridge " +:+ table)%string
         && ((l0 =? "Error: No such file or directory")%string
             || HasPrefix l0 "Error: No such file or directory; did you mean ")
         && contains_byte "^" l2 && forallb caret_byte (String.list_ascii_of_string l2)
     | _ => false
     end.

(** The [table] member of an entry: its family, name and comment. *)
Definition decode_table (v : json) : result ferr (option (string * string * string)) :=
  let str o := match d_str o with Ok s => Ok s | Err _ => Err FJSON end in
  match v with
  | JNull => Ok None
  | JObj l =>
      match member "table" l with
      | None | Some JNull => Ok None
      | Some (JObj t) =>
          family ← str (member "family" t); name ← str (member "name" t); comment ← str (member "comment" t);
          Ok (Some (family, name, comment))
      | Some _ => Err FJSON
      end
  | _ => Err FJSON
  end.
Fixpoint decode_each (l : list json) : result ferr (list (option (string * string * string))) :=
  match l with [] => Ok [] | x :: l' => t ← decode_table x; ts ← decode_each l'; Ok (t :: ts) end.
Definition decode_tables (v : json) : result ferr (list (option (string * string * string))) :=
  match v with
  | JNull => Ok []
  | JObj l => match member "nftables" l with
              | None | Some JNull => Ok []
              | Some (JArr os) => decode_each os
              | Some _ => Err FJSON
              end
  | _ => Err FJSON
  end.
Fixpoint owned_table (id table : string) (l : list (option (string * string * string))) : result ferr bool :=
  match l with
  | [] => Err FMissing
  | Some (family, name, comment) :: l' =>
      if negb (family =? "bridge")%string || negb (name =? table)%string then owned_table id table l'
      else if (comment =? ownerPrefix +:+ id)%string then Ok true else Err FOwner
  | None :: l' => owned_table id table l'
  end.

Definition tableExists (id table : string) : F bool :=
  o ← Run EmptyString ["-j"; "list"; "table"; "bridge"; table]%string;
  f_lift (match o with
          | RunErr out code => if missingNftTable out code table then Ok false else Err FRun
          | RunOk out =>
              match parse_json out with
              | None => Err FJSON
              | Some v => ts ← decode_tables v; owned_table id table ts
              end
          end).

Definition table_of (id : string) : F string :=
  f_lift (match Names id with Some (_, _, table) => Ok table | None => Err FName end).

Definition nft_limit : Z := 1024 * 1024.
Definition limited (data : string) : F string :=
  f_lift (if nft_limit <? strlen data then Err FSize else Ok data).

Definition Ruleset (id : string) (p : Policy) (assigned : assignment) (gate : bool) : F string :=
  d ← of_policy (compileRuleset id p assigned gate);
  limited (marshal_json (document (add_commands d))).

Definition firewallTransaction (id : string) (p : Policy) (assigned : assignment) (gate : bool) : F string :=
  table ← table_of id;
  d ← of_policy (compileRuleset id p assigned gate);
  exists_ ← tableExists id table;
  limited (marshal_json (document ((if (exists_ : bool) then [delete_table table] else []) ++ add_commands d))).

Definition RemoveFirewall (id : string) : F unit :=
  table ← table_of id;
  exists_ ← tableExists id table;
  if (exists_ : bool) then
    o ← Run ("delete table bridge " +:+ table +:+ String newline EmptyString) ["-f"; "-"]%string;
    _ ← run_ok o; mret tt
  else mret tt.

Definition firewall_enabled (p : Policy) : bool := fw_Enabled (rs_Firewall (po_Body p)).
Definition check_args : list string := ["-j"; "--check"; "-f"; "-"]%string.
Definition load_args : list string := ["-j"; "-f"; "-"]%string.

Definition Firewall (id : string) (p : Policy) (assigned : assignment) (gate : bool) : F unit :=
  if negb gate && negb (firewall_enabled p) then RemoveFirewall id
  else
    script ← firewallTransaction id p assigned gate;
    o ← Run script check_args;
    _ ← run_ok o;
    o' ← Run script load_args;
    _ ← run_ok o';
    mret tt.

Definition CheckPolicy (id : string) (p : Policy) (assigned : assignment) (ceiling : Bandwidth) : F unit :=
  _ ← of_policy (ValidateEnforcement json_policy_hash marshal_len p assigned ceiling);
  if negb (firewall_enabled p) then
    table ← table_of id;
    _ ← tableExists id table; mret tt
  else
    script ← firewallTransaction id p assigned false;
    o ← Run script check_args;
    _ ← run_ok o; mret tt.

Definition list_args (table : string) : list string :=
  ["-j"; "--stateless"; "list"; "table"; "bridge"; table]%string.

Definition VerifyFirewall (id : string) (p : Policy) (assigned : assignment) (gate : bool) : F unit :=
  table ← table_of id;
  if negb gate && negb (firewall_enabled p) then
    exists_ ← tableExists id table;
    f_lift (if (exists_ : bool) then Err FDrift else Ok tt)
  else
    d ← of_policy (compileRuleset id p assigned gate);
    expected ← of_json (requestedNftState d);
    o ← Run EmptyString (list_args table);
    out ← run_ok o;
    actual ← of_json (liveNftState first_json out);
    f_lift (if (expected =? actual)%string then Ok tt else Err FDrift).
End Backend.
