(* ===== verification/NftEval.v ===== *)
(** * What a live listing does to a packet

    The objects nft lists are evaluated directly as JSON, the way [NftFacts] evaluates
    the typed document: a field the packet does not have makes a match fail.  The normal
    form the verification compares keeps that meaning: dropping handles, sorting sets, and
    removing a match on the protocol that another match of the rule already implies. *)

From stdpp Require Import base gmap sets list strings numbers sorting.
From Stdlib Require Import Ascii.
From S2P Require Import Prelude GoStrings Policy Nft NftFacts Store NftState.
Open Scope Z_scope.

(** ** Evaluation *)

(** The only member of an object, apart from its handle. *)
Definition single (v : json) : option (string * json) :=
  match v with
  | JObj l => match delete_key "handle" l with [m] => Some m | _ => None end
  | _ => None
  end.

Definition scalar_is (s : scalar) (v : json) : bool :=
  match s, v with
  | SInt n, JNum m => n =? m
  | SStr t, JStr u => (t =? u)%string
  | SBool b, JBool c => Bool.eqb b c
  | SAddr a, JStr u => (addr_String a =? u)%string
  | _, _ => false
  end.

Section Evaluation.
Variable k : packet.

(** The value of an expression that is one field. *)
Definition field_value (name : string) (x : json) : option scalar :=
  if (name =? "payload")%string then
    protocol ← mstr "protocol" x; f ← mstr "field" x; payload_value k protocol f
  else if (name =? "meta")%string then key ← mstr "key" x; meta_value k key
  else if (name =? "ct")%string then
    key ← mstr "key" x; c ← pk_ct k;
    match mget "dir" x with None => ct_value c key | Some _ => ct_dir_value c key end
  else if (name =? "exthdr")%string then
    n ← mstr "name" x;
    if (n =? "frag")%string then when (bool_decide (pk_ether k = "ip6"%string)) (SBool (pk_frag k)) else None
  else None.
Definition expr_value (e : json) : option scalar := '(name, x) ← single e; field_value name x.
(** A field under a mask: a status flag of the connection, or bits of a header. *)
Definition masked_value (e mask : json) : option scalar :=
  '(name, x) ← single e;
  match mask with
  | JStr flag =>
      if (name =? "ct")%string && bool_decide (mstr "key" x = Some "status"%string) then
        c ← pk_ct k; Some (if bool_decide (flag ∈ cn_status c) then SStr flag else SInt 0)
      else None
  | JNum m =>
      if (name =? "payload")%string then
        match field_value name x with Some (SInt v) => Some (SInt (Z.land v m)) | _ => None end
      else None
  | _ => None
  end.
Definition lhs_value (e : json) : option value :=
  '(name, x) ← single e;
  if (name =? "&")%string then
    match x with JArr [e'; mask] => VScalar <$> masked_value e' mask | _ => None end
  else if (name =? "concat")%string then
    match x with JArr [a; b] => u ← expr_value a; v ← expr_value b; Some (VPair u v) | _ => None end
  else VScalar <$> field_value name x.

Definition item_is (v : value) (item : json) : bool :=
  match v with
  | VScalar s => scalar_is s item
  | VPair a b => match single item with
                 | Some (name, JArr [x; y]) => (name =? "concat")%string && scalar_is a x && scalar_is b y
                 | _ => false
                 end
  end.
Definition in_prefix (v : value) (p : json) : bool :=
  match v, mstr "addr" p, mget "len" p with
  | VScalar (SAddr a), Some net, Some (JNum len) => (addr_String (masked a len) =? net)%string
  | _, _, _ => false
  end.
Definition rhs_has (r : json) (v : value) : bool :=
  match single r with
  | Some (name, x) =>
      if (name =? "set")%string then match x with JArr items => existsb (item_is v) items | _ => false end
      else if (name =? "prefix")%string then in_prefix v x else false
  | None => item_is v r
  end.

(** Whether a match holds. *)
Definition j_match (m : json) : bool :=
  match mget "left" m, mget "right" m with
  | Some l, Some r =>
      match lhs_value l with
      | None => false
      | Some v => if bool_decide (match_op m = Some "!="%string) then negb (rhs_has r v) else rhs_has r v
      end
  | _, _ => false
  end.

Section Chains.
Variable sub : string → verdict.
Fixpoint j_stmts (l : list json) : effect :=
  match l with
  | [] => Next
  | s :: l' =>
      match single s with
      | Some (name, x) =>
          if (name =? "match")%string then if j_match x then j_stmts l' else Next
          else if (name =? "jump")%string then
            match mstr "target" x with
            | Some t => match sub t with Return => j_stmts l' | Drop => Stop Drop end
            | None => Stop Drop
            end
          else if (name =? "goto")%string then
            match mstr "target" x with Some t => Stop (sub t) | None => Stop Drop end
          else if (name =? "return")%string then Stop Return else Stop Drop
      | None => Stop Drop
      end
  end.
Fixpoint j_rules (l : list (list json)) : verdict :=
  match l with
  | [] => Return
  | r :: l' => match j_stmts r with Next => j_rules l' | Stop v => v end
  end.
End Chains.

(** The expressions of a rule, the rules of a chain, and the base chains of a hook. *)
Definition rule_exprs (r : json) : list json :=
  match mget "expr" r with Some (JArr es) => es | _ => [] end.
Definition object_of (kind : string) (o : json) : option json :=
  match o with
  | JObj l => match delete_key "handle" l with
              | [(name, JObj x)] => if (name =? kind)%string then Some (JObj x) else None
              | _ => None
              end
  | _ => None
  end.
Definition rules_in (os : list json) (key : string) : list json :=
  omap (λ o, r ← object_of "rule" o; if bool_decide (nftObjectKey r = Some key) then Some r else None) os.
Definition chain_key (table chain : string) : string := "bridge" +:+ nul +:+ table +:+ nul +:+ chain.
Definition hooks_at (os : list json) (hook : string) : list json :=
  omap (λ o, c ← object_of "chain" o; if bool_decide (mstr "hook" c = Some hook) then Some c else None) os.

Fixpoint j_chain (fuel : nat) (os : list json) (table chain : string) : verdict :=
  match fuel with
  | O => Drop
  | S fuel' => j_rules (j_chain fuel' os table) (rule_exprs <$> rules_in os (chain_key table chain))
  end.
(** A base chain lets a packet pass when its rules return and its policy is to accept. *)
Definition base_accepts (os : list json) (table : string) (c : json) : bool :=
  match mstr "name" c with
  | Some name => bool_decide (j_chain 3 os table name = Return) && bool_decide (mstr "policy" c = Some "accept"%string)
  | None => false
  end.
Definition listing_accepts (os : list json) (table hook : string) : bool :=
  forallb (base_accepts os table) (hooks_at os hook).
End Evaluation.

(** ** Lookups in normal forms *)

Lemma field_delete k l : (k ≠ "handle")%string → field k (delete_key "handle" l) = field k l.
Proof.
  intros N. induction l as [|[k' v] l IH]; [done|]. cbn [delete_key List.filter field fst].
  destruct (String.eqb_spec k' "handle") as [->|]; cbn [negb].
  - destruct (String.eqb_spec "handle" k); [congruence | exact IH].
  - cbn [field]. by rewrite <- IH.
Qed.
Lemma field_map (f : json → json) k l : field k (map (λ m, (fst m, f (snd m))) l) = f <$> field k l.
Proof. induction l as [|[k' v] l IH]; [done|]. cbn. by case_match. Qed.
Lemma delete_map (f : json → json) k l :
  delete_key k (map (λ m, (fst m, f (snd m))) l) = map (λ m, (fst m, f (snd m))) (delete_key k l).
Proof.
  induction l as [|[k' v] l IH]; [done|]. cbn [delete_key map List.filter fst snd].
  destruct (negb _); cbn [map fst snd]; [f_equal|]; exact IH.
Qed.
Lemma delete_twice k l : delete_key k (delete_key k l) = delete_key k l.
Proof.
  induction l as [|[k' v] l IH]; [done|]. cbn [delete_key List.filter fst].
  destruct (k' =? k)%string eqn:E; cbn [negb]; [done|]. cbn [List.filter fst]. rewrite E. cbn [negb]. f_equal. exact IH.
Qed.

Section Normal.
Context `{JSON}.

Lemma mget_sort_set k l : (k ≠ "set")%string → mget k (sort_set l) = field k l.
Proof.
  intros N. unfold sort_set. destruct l as [|[k' []] [|]]; try done.
  case_match; [|done]. apply andb_true_iff in H0 as [E _]. apply String.eqb_eq in E as ->. cbn [mget field].
  by destruct (String.eqb_spec "set" k).
Qed.
Lemma mget_normal k v :
  (k ≠ "handle")%string → (k ≠ "set")%string → mget k (normalizeNft v) = normalizeNft <$> mget k v.
Proof.
  intros N1 N2. destruct v; try done. cbn [normalizeNft]. rewrite mget_sort_set by done.
  rewrite delete_map, field_map. cbn [mget]. by rewrite field_delete.
Qed.
Lemma mstr_normal k v : (k ≠ "handle")%string → (k ≠ "set")%string → mstr k (normalizeNft v) = mstr k v.
Proof.
  intros N1 N2. unfold mstr. rewrite mget_normal by done. destruct (mget k v) as [[]|]; try done. cbn.
  unfold sort_set. by repeat case_match.
Qed.
Lemma is_obj_normal v : is_object (normalizeNft v) = is_object v.
Proof. destruct v; try done. cbn. unfold sort_set. by repeat case_match. Qed.
Lemma mobj_normal k v : (k ≠ "handle")%string → (k ≠ "set")%string → mobj k (normalizeNft v) = normalizeNft <$> mobj k v.
Proof.
  intros N1 N2. unfold mobj. rewrite mget_normal by done. destruct (mget k v) as [x|]; [|done]. cbn.
  pose proof (is_obj_normal x). destruct x, (normalizeNft _) eqn:E; try done; cbn in *; by rewrite ?E.
Qed.
(** An object is normalized member by member, a set also sorted. *)
Definition normal_member (m : string * json) : string * json :=
  (fst m, match normalizeNft (snd m) with
          | JArr items => if (fst m =? "set")%string && (1 <? zlen items) then JArr (merge_sort marshal_le items)
                          else JArr items
          | x => x
          end).
Lemma single_normal v : single (normalizeNft v) = normal_member <$> single v.
Proof.
  destruct v as [| | | | |l]; try done. cbn [normalizeNft single]. rewrite delete_map.
  pose proof (delete_twice "handle" l) as HF. revert HF. generalize (delete_key "handle" l) as l0. intros l0 HF.
  assert (HM : ∀ f : json → json, delete_key "handle" (map (λ m, (fst m, f (snd m))) l0) = map (λ m, (fst m, f (snd m))) l0)
    by (intros f; by rewrite delete_map, HF).
  destruct l0 as [|[k x] [|m2 l2]]; [done| |].
  - unfold sort_set, normal_member. cbn [map fst snd fmap option_fmap option_map]. specialize (HM (λ _, JNull)) as HK.
    cbn [map fst snd delete_key List.filter] in HK. destruct (k =? "handle")%string eqn:K; [done|].
    assert (S : ∀ y, single (JObj [(k, y)]) = Some (k, y)) by (intros y; cbn; by rewrite K).
    destruct (normalizeNft x); try apply S. destruct (_ && _); apply S.
  - specialize (HM normalizeNft). cbn [map fst snd] in HM |- *.
    assert (E : ∀ a b c, sort_set ((k, a) :: b :: c) = JObj ((k, a) :: b :: c)) by (intros a b c; by destruct a).
    rewrite E. cbn [single]. by rewrite HM.
Qed.

(** ** Evaluation of normal forms *)

Lemma normal_other (name : string) x : name ≠ "set"%string → normal_member (name, x) = (name, normalizeNft x).
Proof.
  intros N. unfold normal_member. cbn [fst snd]. f_equal.
  destruct (String.eqb_spec name "set"); [done|]. by destruct (normalizeNft x).
Qed.
Lemma not_array v : (∀ l, v ≠ JArr l) → ∀ l, normalizeNft v ≠ JArr l.
Proof.
  intros N l. destruct v; try done; [by destruct (N l0)|]. cbn. unfold sort_set. by repeat case_match.
Qed.
Lemma scalar_normal s v : scalar_is s (normalizeNft v) = scalar_is s v.
Proof. destruct v; try (by destruct s). cbn. unfold sort_set. destruct s; by repeat case_match. Qed.

Section Packet.
Variable k : packet.
Lemma field_normal name x : field_value k name (normalizeNft x) = field_value k name x.
Proof.
  unfold field_value. rewrite !mstr_normal by done.
  destruct (name =? "payload")%string; [done|]. destruct (name =? "meta")%string; [done|].
  destruct (name =? "ct")%string; [|done]. rewrite mget_normal by done. by destruct (mget "dir" x).
Qed.
Lemma expr_normal e : expr_value k (normalizeNft e) = expr_value k e.
Proof.
  unfold expr_value. rewrite single_normal. destruct (single e) as [[name x]|]; [|done]. cbn [fmap option_fmap option_map].
  destruct (decide (name = "set"%string)) as [->|N]; [done|]. rewrite normal_other by done. apply field_normal.
Qed.
Lemma masked_normal e mask : masked_value k (normalizeNft e) (normalizeNft mask) = masked_value k e mask.
Proof.
  unfold masked_value. rewrite single_normal. destruct (single e) as [[name x]|]; [|done]. cbn [fmap option_fmap option_map].
  cbn [mbind option_bind]. destruct (decide (name = "set"%string)) as [->|N].
  - destruct mask; try done. cbn. unfold sort_set. by repeat case_match.
  - rewrite normal_other by done. cbn iota beta. rewrite field_normal, mstr_normal by done.
    destruct mask; try done. cbn [normalizeNft]. unfold sort_set. by repeat case_match.
Qed.
Lemma array_normal {A} (f : list json → A) (d : A) x :
  match normalizeNft x with JArr l => f l | _ => d end
  = match x with JArr l => f (map normalizeNft l) | _ => d end.
Proof. destruct x; try done. cbn. unfold sort_set. by repeat case_match. Qed.
Lemma lhs_normal e : lhs_value k (normalizeNft e) = lhs_value k e.
Proof.
  unfold lhs_value. rewrite single_normal. destruct (single e) as [[name x]|]; [|done]. cbn [fmap option_fmap option_map].
  cbn [mbind option_bind]. destruct (decide (name = "set"%string)) as [->|N]; [reflexivity|].
  rewrite normal_other by done. cbn iota beta. destruct (name =? "&")%string; [|destruct (name =? "concat")%string].
  - rewrite (array_normal (λ l, match l with [e'; mask] => VScalar <$> masked_value k e' mask | _ => None end) None).
    destruct x as [| | | |[|e1 [|e2 []]]|]; try done. cbn [map]. by rewrite masked_normal.
  - rewrite (array_normal (λ l, match l with [a; b] => u ← expr_value k a; v ← expr_value k b; Some (VPair u v) | _ => None end) None).
    destruct x as [| | | |[|e1 [|e2 []]]|]; try done. cbn [map]. by rewrite !expr_normal.
  - by rewrite field_normal.
Qed.
Lemma item_normal v item : item_is v (normalizeNft item) = item_is v item.
Proof.
  destruct v as [s|a b]; cbn [item_is]; [apply scalar_normal|].
  rewrite single_normal. destruct (single item) as [[name x]|]; [|done]. cbn [fmap option_fmap option_map].
  destruct (decide (name = "set"%string)) as [->|N].
  - unfold normal_member. by repeat case_match.
  - rewrite normal_other by done.
    rewrite (array_normal (λ l, match l with [x; y] => (name =? "concat")%string && scalar_is a x && scalar_is b y | _ => false end) false).
    destruct x as [| | | |[|e1 [|e2 []]]|]; try done. cbn [map]. by rewrite !scalar_normal.
Qed.
Lemma existsb_perm {A} (f : A → bool) l1 l2 : l1 ≡ₚ l2 → existsb f l1 = existsb f l2.
Proof.
  induction 1 as [|x l1 l2 P IH|x y l|l1 l2 l3 P1 IH1 P2 IH2]; cbn; [done|by rewrite IH| |congruence].
  by rewrite !orb_assoc, (orb_comm (f y)).
Qed.
Lemma existsb_items v items : existsb (item_is v) (map normalizeNft items) = existsb (item_is v) items.
Proof. induction items as [|i items IH]; [done|]. cbn. by rewrite item_normal, IH. Qed.
Lemma prefix_normal v p : in_prefix v (normalizeNft p) = in_prefix v p.
Proof.
  unfold in_prefix. rewrite mstr_normal, mget_normal by done. destruct v as [[]|]; try done.
  destruct (mstr "addr" p); [|done]. destruct (mget "len" p) as [[]|]; try done. cbn. unfold sort_set. by repeat case_match.
Qed.
Lemma rhs_normal r v : rhs_has (normalizeNft r) v = rhs_has r v.
Proof.
  unfold rhs_has. rewrite single_normal, item_normal. destruct (single r) as [[name x]|]; [|done].
  cbn [fmap option_fmap option_map]. destruct (decide (name = "set"%string)) as [->|N].
  - unfold normal_member. cbn [fst snd]. change ("set" =? "set")%string with true. cbn iota. cbn [andb].
    destruct x; try (cbn; unfold sort_set; by repeat case_match). cbn [normalizeNft]. rewrite <- existsb_items.
    destruct (1 <? _); [|done]. apply existsb_perm, merge_sort_Permutation.
  - rewrite normal_other by done. rewrite (proj2 (String.eqb_neq name "set")) by done. by rewrite prefix_normal.
Qed.
Lemma match_normal m : j_match k (normalizeNft m) = j_match k m.
Proof.
  unfold j_match, match_op. rewrite !mget_normal, mstr_normal by done.
  destruct (mget "left" m) as [l|]; [|done]. destruct (mget "right" m) as [r|]; [|done]. cbn [fmap option_fmap option_map].
  rewrite lhs_normal. destruct (lhs_value k l); [|done]. by rewrite rhs_normal.
Qed.
Lemma stmts_normal sub l : j_stmts k sub (map normalizeNft l) = j_stmts k sub l.
Proof.
  induction l as [|s l IH]; [done|]. cbn [map j_stmts]. rewrite single_normal.
  destruct (single s) as [[name x]|]; [|done]. cbn [fmap option_fmap option_map].
  destruct (decide (name = "set"%string)) as [->|N]; [reflexivity|].
  rewrite normal_other by done. by rewrite match_normal, IH, mstr_normal by done.
Qed.
End Packet.
End Normal.
