(* ===== verification/NftImplied.v ===== *)
(** * Matches that other matches imply

    nft does not list a match on the protocol that another match of the rule depends on,
    so the verification removes such matches before it compares.  A rule whose conditions
    come before its one action decides the same without them. *)

From stdpp Require Import base gmap sets list strings numbers sorting.
From Stdlib Require Import Ascii.
From S2P Require Import Prelude GoStrings Policy Nft NftFacts Store NftState NftEval.
Open Scope Z_scope.

(** Packets as they exist: ICMP belongs to its own family, and a connection is tracked in
    the family of its packets. *)
Record sane (k : packet) : Prop := {
  sane_icmp : pk_l4 k = "icmp"%string → pk_ether k = "ip"%string;
  sane_icmp6 : pk_l4 k = "ipv6-icmp"%string → pk_ether k = "ip6"%string;
  sane_conn c : pk_ct k = Some c → family_of (cn_saddr c) = pk_ether k ∧ family_of (cn_daddr c) = pk_ether k;
}.

(** A statement as nft prints it: one member in the statement and in the left side of a
    match, and no mask over the type of the frame. *)
Definition masks_type (lhs : json) : bool :=
  match mget "&" lhs with
  | Some (JArr [e; _]) => bool_decide ((p ← mobj "payload" e; mstr "protocol" p) = Some "ether"%string)
  | _ => false
  end.
Definition listed (e : json) : bool :=
  match nftMatch e with
  | None => true
  | Some m =>
      bool_decide (is_Some (single e))
      && match mobj "left" m with
         | Some lhs => bool_decide (is_Some (single lhs)) && negb (masks_type lhs)
         | None => true
         end
  end.

Lemma field_single name x l k : delete_key "handle" l = [(name, x)] → (k ≠ "handle")%string →
  field k l = if (name =? k)%string then Some x else None.
Proof. intros D K. rewrite <- (field_delete k l K), D. done. Qed.
Lemma mget_single v name x k : single v = Some (name, x) → (k ≠ "handle")%string →
  mget k v = if (name =? k)%string then Some x else None.
Proof.
  intros S K. destruct v as [| | | | |l]; try done. cbn [single mget] in *.
  destruct (delete_key "handle" l) as [|[name' x'] []] eqn:D; try done. injection S as -> ->. by apply field_single.
Qed.
Lemma mobj_single v name x k o : single v = Some (name, x) → (k ≠ "handle")%string → mobj k v = Some o →
  name = k ∧ x = o ∧ is_object o = true.
Proof.
  intros S K O. unfold mobj in O. rewrite (mget_single _ _ _ _ S K) in O.
  destruct (String.eqb_spec name k); [|done]. destruct x; try done. by injection O as <-.
Qed.
Lemma mobj_none v name x k : single v = Some (name, x) → (k ≠ "handle")%string → name ≠ k → mobj k v = None.
Proof.
  intros S K N. unfold mobj. rewrite (mget_single _ _ _ _ S K). by rewrite (proj2 (String.eqb_neq name k)).
Qed.
Lemma mobj_object k v o : mobj k v = Some o → mget k v = Some o ∧ is_object o = true.
Proof. unfold mobj. destruct (mget k v) as [[]|]; try done. by intros [= <-]. Qed.

(** A statement that is a match, and what it says. *)
Definition jmatch_of (e : json) : option json :=
  match single e with Some (name, m) => if (name =? "match")%string then Some m else None | None => None end.
Definition holds_in (k : packet) (e : json) : Prop := ∀ m, jmatch_of e = Some m → j_match k m = true.

Record left_of (e m lhs : json) (name : string) (x : json) : Prop := {
  lo_single : single e = Some ("match"%string, m);
  lo_left : mget "left" m = Some lhs;
  lo_name : single lhs = Some (name, x);
  lo_type : masks_type lhs = false;
}.
Lemma listed_left e m lhs :
  listed e = true → nftMatch e = Some m → mobj "left" m = Some lhs → ∃ name x, left_of e m lhs name x.
Proof.
  unfold listed. intros L M O. rewrite M, O in L. apply andb_true_iff in L as [S L]. apply andb_true_iff in L as [T L].
  apply bool_decide_eq_true in S as [[name x] S]. apply bool_decide_eq_true in T as [[n' x'] T].
  destruct (mobj_single _ _ _ "match" _ S ltac:(done) M) as (-> & -> & _).
  exists n', x'. split; [done | by apply mobj_object | done | by apply negb_true_iff].
Qed.
Lemma match_value k e m lhs name x :
  left_of e m lhs name x → holds_in k e → ∃ v, lhs_value k lhs = Some v.
Proof.
  intros [S L N _] H. unfold holds_in, jmatch_of in H. rewrite S in H. specialize (H m eq_refl). unfold j_match in H.
  rewrite L in H. destruct (mget "right" m); [|done]. destruct (lhs_value k lhs); [by eexists | done].
Qed.

(** ** What a match implies *)

Lemma payload_left e protocol f :
  listed e = true → nftPayloadMatch e = Some (protocol, f) →
  ∃ m lhs name x, left_of e m lhs name x ∧
    ((name = "payload"%string ∧ mstr "protocol" x = Some protocol ∧ mstr "field" x = Some f)
     ∨ (name = "&"%string ∧ protocol ≠ "ether"%string
        ∧ ∃ e' mask p, x = JArr [e'; mask] ∧ mobj "payload" e' = Some p ∧ mstr "protocol" p = Some protocol
                       ∧ mstr "field" p = Some f)).
Proof.
  intros L P. unfold nftPayloadMatch in P. destruct (nftMatch e) as [m|] eqn:M; [|done]. cbn [mbind option_bind] in P.
  destruct (bool_decide _); [|done]. destruct (mobj "left" m) as [lhs|] eqn:O; [|done]. cbn [mbind option_bind] in P.
  destruct (listed_left _ _ _ L M O) as (name & x & LO). exists m, lhs, name, x. split; [done|].
  destruct LO as [S LL LN LT]. unfold unmasked, masks_type in *. rewrite (mget_single _ _ _ "&" LN) in * by done.
  destruct (String.eqb_spec name "&") as [->|NA].
  - destruct x as [| | | |[|e' [|mask []]]|]; cbn [mbind option_bind] in P;
      try (by rewrite (mobj_none _ _ _ "payload" LN) in P).
    destruct (is_object e'); [|done]. cbn [mbind option_bind] in P, LT.
    destruct (mobj "payload" e') as [p|] eqn:PE; [|done]. cbn [mbind option_bind] in P, LT.
    destruct (mstr "protocol" p) as [pr|] eqn:PP; [|done]. destruct (mstr "field" p) as [fl|] eqn:PF; [|done].
    cbn [mbind option_bind] in P. injection P as <- <-. right. split; [done|].
    apply bool_decide_eq_false in LT. split; [congruence|]. exists e', mask, p. done.
  - cbn [mbind option_bind] in P. destruct (mobj "payload" lhs) as [p|] eqn:PE; [|done].
    destruct (mobj_single _ _ _ "payload" _ LN ltac:(done) PE) as (-> & -> & _). cbn [mbind option_bind] in P.
    destruct (mstr "protocol" p) as [pr|] eqn:PP; [|done]. destruct (mstr "field" p) as [fl|] eqn:PF; [|done].
    cbn [mbind option_bind] in P. injection P as <- <-. by left.
Qed.
Lemma payload_present k e protocol f :
  listed e = true → nftPayloadMatch e = Some (protocol, f) → holds_in k e → is_Some (payload_value k protocol f).
Proof.
  intros L P H. destruct (payload_left _ _ _ L P) as (m & lhs & name & x & LO & C).
  destruct (match_value _ _ _ _ _ _ LO H) as [v V]. destruct LO as [_ _ LN _]. unfold lhs_value in V. rewrite LN in V.
  cbn [mbind option_bind] in V. destruct C as [(-> & PP & PF)|(-> & _ & e' & mask & p & -> & PE & PP & PF)]; cbn in V.
  - unfold field_value in V. cbn in V. rewrite PP, PF in V. cbn in V. destruct (payload_value k protocol f); [done|done].
  - unfold masked_value in V. destruct (single e') as [[n' x']|] eqn:S'; [|done].
    destruct (mobj_single _ _ _ "payload" _ S' ltac:(done) PE) as (-> & -> & _). cbn in V.
    destruct mask; try done. unfold field_value in V. cbn in V. rewrite PP, PF in V. cbn in V.
    by destruct (payload_value k protocol f).
Qed.

Lemma payload_transport k protocol f t :
  is_Some (payload_value k protocol f) → t ∈ transport_of protocol → pk_l4 k = t.
Proof.
  intros [v V] T. unfold transport_of in T. unfold payload_value in V. case_bool_decide as C.
  - apply list_elem_of_singleton in T as ->. destruct C as [-> | ->]; cbn in V;
      (case_bool_decide; [done | by destruct (String.eqb f "saddr")]).
  - destruct (String.eqb_spec protocol "icmp") as [->|].
    { apply list_elem_of_singleton in T as ->. cbn in V. by case_bool_decide. }
    destruct (String.eqb_spec protocol "icmpv6") as [->|]; [|by apply not_elem_of_nil in T].
    apply list_elem_of_singleton in T as ->. cbn in V. by case_bool_decide.
Qed.
Lemma payload_network k protocol f t :
  sane k → is_Some (payload_value k protocol f) → t ∈ network_of protocol → pk_ether k = t.
Proof.
  intros S [v V] T. unfold network_of in T. unfold payload_value in V.
  destruct (String.eqb_spec protocol "icmp") as [->|].
  { apply list_elem_of_singleton in T as ->. apply (sane_icmp _ S). cbn in V. by case_bool_decide. }
  destruct (String.eqb_spec protocol "icmpv6") as [->|].
  { apply list_elem_of_singleton in T as ->. apply (sane_icmp6 _ S). cbn in V. by case_bool_decide. }
  case_bool_decide as C; [|by apply not_elem_of_nil in T].
  apply list_elem_of_singleton in T as ->. destruct C as [-> | ->]; cbn in V; by case_bool_decide.
Qed.

Lemma key_family_cases key t : key_family key = Some t →
  (t = "ip"%string ∧ HasPrefix key "ip " = true) ∨ (t = "ip6"%string ∧ HasPrefix key "ip6 " = true).
Proof. unfold key_family. repeat case_match; intros [= <-]; auto. Qed.
(** A tracked address exists only in its connection's family. *)
Lemma ct_field k x t v :
  sane k → (key ← mstr "key" x; key_family key) = Some t → field_value k "ct" x = Some v → pk_ether k = t.
Proof.
  intros S F V. unfold field_value in V. cbn in V. destruct (mstr "key" x) as [key|]; [|done].
  cbn [mbind option_bind] in F, V. apply key_family_cases in F. destruct (pk_ct k) as [c|] eqn:C; [|done].
  cbn [mbind option_bind] in V. destruct (sane_conn _ S c C) as [FS FD].
  assert (NK : ∀ w, HasPrefix w "ip " = false → HasPrefix w "ip6 " = false → key ≠ w).
  { intros w N1 N2 ->. destruct F as [[_ P]|[_ P]]; congruence. }
  destruct (mget "dir" x) as [d|].
  - unfold ct_dir_value in V. rewrite (proj2 (String.eqb_neq key "proto-src")) in V by (by apply NK).
    rewrite (proj2 (String.eqb_neq key "proto-dst")) in V by (by apply NK).
    rewrite FS, FD in V. rewrite <- FS. destruct (cn_saddr c), (cn_daddr c); cbn [family_of] in *; try congruence;
      repeat (match type of V with context [String.eqb ?a key] => destruct (String.eqb_spec a key) as [<-|] end);
      try done; destruct F as [[-> P]|[-> P]]; try done; by rewrite <- FS in P.
  - unfold ct_value in V. rewrite (proj2 (String.eqb_neq key "state")) in V by (by apply NK).
    rewrite (proj2 (String.eqb_neq key "direction")) in V by (by apply NK).
    by rewrite (proj2 (String.eqb_neq key "protocol")) in V by (by apply NK).
Qed.

(** The families of an expression with one member. *)
Definition concat_parts (x : json) : list string := match x with JArr ps => flat_map ctFamilies ps | _ => [] end.
Lemma parts_field l :
  (fix parts (l : list (string * json)) : list string :=
     match l with
     | [] => []
     | (k, x) :: l' => if (k =? "concat")%string then concat_parts x else parts l'
     end) l = default [] (concat_parts <$> field "concat" l).
Proof. induction l as [|[k x] l IH]; [done|]. cbn. by destruct (k =? "concat")%string. Qed.
Lemma families_single v name x : single v = Some (name, x) →
  ctFamilies v = if (name =? "ct")%string && is_object x then
                   match key ← mstr "key" x; key_family key with Some t => [t] | None => [] end
                 else if (name =? "concat")%string then concat_parts x else [].
Proof.
  intros S. destruct v as [| | | | |l]; try done. cbn [ctFamilies]. fold concat_parts. rewrite parts_field.
  change (field "concat" l) with (mget "concat" (JObj l)). rewrite (mget_single _ _ _ "concat" S) by done.
  destruct (String.eqb_spec name "ct") as [->|N].
  - unfold mobj. rewrite (mget_single _ _ _ "ct" S) by done. cbn [String.eqb Ascii.eqb Bool.eqb].
    destruct x; cbn [is_object andb mbind option_bind]; done.
  - rewrite (mobj_none _ _ _ "ct" S) by done. cbn [mbind option_bind andb].
    by destruct (name =? "concat")%string.
Qed.
Lemma ct_expr k e t v : sane k → t ∈ ctFamilies e → expr_value k e = Some v → pk_ether k = t.
Proof.
  intros S T V. unfold expr_value in V. destruct (single e) as [[name x]|] eqn:E; [|done]. cbn [mbind option_bind] in V.
  rewrite (families_single _ _ _ E) in T. destruct (String.eqb_spec name "ct") as [->|N].
  - destruct (is_object x); [|by apply not_elem_of_nil in T]. cbn [andb] in T.
    destruct (key ← mstr "key" x; key_family key) as [t'|] eqn:F; [|by apply not_elem_of_nil in T].
    apply list_elem_of_singleton in T as ->. by eapply ct_field.
  - cbn [andb] in T. destruct (String.eqb_spec name "concat") as [->|]; [done|]. by apply not_elem_of_nil in T.
Qed.
Lemma ct_lhs k e t v : sane k → t ∈ ctFamilies e → lhs_value k e = Some v → pk_ether k = t.
Proof.
  intros S T V. destruct (single e) as [[name x]|] eqn:E; [|unfold lhs_value in V; by rewrite E in V].
  rewrite (families_single _ _ _ E) in T. unfold lhs_value in V. rewrite E in V. cbn [mbind option_bind] in V.
  destruct (String.eqb_spec name "ct") as [->|N].
  - destruct (is_object x); [|by apply not_elem_of_nil in T]. cbn [andb] in T.
    change (VScalar <$> field_value k "ct" x = Some v) in V.
    destruct (key ← mstr "key" x; key_family key) as [t'|] eqn:F; [|by apply not_elem_of_nil in T].
    apply list_elem_of_singleton in T as ->. destruct (field_value k "ct" x) eqn:FV; [|done]. by eapply ct_field.
  - cbn [andb] in T. destruct (String.eqb_spec name "concat") as [->|]; [|by apply not_elem_of_nil in T].
    cbn in V. destruct x as [| | | |[|a [|b []]]|]; try done. cbn [concat_parts flat_map] in T.
    destruct (expr_value k a) eqn:VA; [|done]. destruct (expr_value k b) eqn:VB; [|done].
    apply elem_of_app in T as [T|T]; [by eapply ct_expr|].
    rewrite app_nil_r in T. by eapply ct_expr.
Qed.
Lemma frag_implies k e : listed e = true → is_frag_match e = true → holds_in k e → pk_ether k = "ip6"%string.
Proof.
  intros L F H. unfold is_frag_match in F. destruct (nftMatch e) as [m|] eqn:M; [|done].
  apply andb_true_iff in F as [_ F]. destruct (mobj "left" m) as [lhs|] eqn:O; [|done]. cbn [mbind option_bind] in F.
  destruct (listed_left _ _ _ L M O) as (name & x & LO). destruct (match_value _ _ _ _ _ _ LO H) as [v V].
  destruct LO as [_ _ LN _]. destruct (mobj "exthdr" lhs) as [h|] eqn:X; [|done]. cbn [mbind option_bind] in F.
  destruct (mobj_single _ _ _ "exthdr" _ LN ltac:(done) X) as (-> & -> & _).
  unfold lhs_value in V. rewrite LN in V. cbn in V. unfold field_value in V. cbn in V.
  destruct (mstr "name" h); [|done]. cbn in V. destruct (_ =? "frag")%string; [|done]. by case_bool_decide.
Qed.

(** ** Removing them *)

(** The two kinds of match that are removed. *)
Lemma meta_left e protocol :
  listed e = true → nftMetaProtocolMatch e = Some protocol →
  ∃ m lhs x, left_of e m lhs "meta" x ∧ mstr "key" x = Some "l4proto"%string
             ∧ match_op m = Some "=="%string ∧ mget "right" m = Some (JStr protocol).
Proof.
  intros L P. unfold nftMetaProtocolMatch in P. destruct (nftMatch e) as [m|] eqn:M; [|done].
  cbn [mbind option_bind] in P. case_bool_decide as OP; [|done].
  destruct (mobj "left" m) as [lhs|] eqn:O; [|done]. cbn [mbind option_bind] in P.
  destruct (listed_left _ _ _ L M O) as (name & x & LO). destruct (mobj "meta" lhs) as [h|] eqn:X; [|done].
  cbn [mbind option_bind] in P. case_bool_decide as K; [|done].
  destruct (mobj_single _ _ _ "meta" _ (lo_name _ _ _ _ _ LO) ltac:(done) X) as (-> & -> & _).
  exists m, lhs, h. repeat split; try done; try apply LO. unfold mstr in P. by repeat case_match; simplify_eq.
Qed.
(** The protocols and families of a removed match imply nothing. *)
Lemma implied_silent ts ns e :
  listed e = true → implied ts ns e = true → transportPayload [e] = [] ∧ networkPayload [e] = [].
Proof.
  intros L I. unfold implied in I. unfold transportPayload, networkPayload. cbn [flat_map]. rewrite !app_nil_r.
  assert (C : ∃ m lhs name x, left_of e m lhs name x ∧ (name = "meta"%string ∨ name = "payload"%string)
              ∧ (nftPayloadMatch e = None ∨ ∃ f, nftPayloadMatch e = Some ("ether"%string, f))).
  { destruct (nftMetaProtocolMatch e) as [p|] eqn:MP.
    - destruct (meta_left _ _ L MP) as (m & lhs & x & LO & _). exists m, lhs, "meta"%string, x.
      split; [done|]. split; [by left|]. left. destruct (nftPayloadMatch e) as [[p' f]|] eqn:PM; [|done].
      destruct (payload_left _ _ _ L PM) as (m' & lhs' & name & x' & LO' & C).
      destruct LO as [S1 L1 N1 _], LO' as [S2 L2 N2 _]. simplify_eq. naive_solver.
    - cbn [orb] in I. destruct (nftPayloadMatch e) as [[p f]|] eqn:PM; [|done].
      rewrite !andb_true_iff in I. destruct I as [[[E _] _] _]. apply String.eqb_eq in E as ->.
      destruct (payload_left _ _ _ L PM) as (m & lhs & name & x & LO & C).
      destruct C as [(-> & _)|(_ & N & _)]; [|done]. exists m, lhs, "payload"%string, x. eauto 6. }
  destruct C as (m & lhs & name & x & LO & N & PM). destruct LO as [S LL LN _].
  assert (M : nftMatch e = None ∨ nftMatch e = Some m).
  { unfold nftMatch, mobj. rewrite (mget_single _ _ _ "match" S) by done. destruct m; auto. }
  assert (FR : is_frag_match e = false).
  { unfold is_frag_match. destruct M as [-> | ->]; [done|]. destruct (mobj "left" m) as [l|] eqn:O; [|by rewrite andb_false_r].
    apply mobj_object in O as [O _]. simplify_eq. cbn [mbind option_bind].
    rewrite (mobj_none _ _ _ "exthdr" LN) by (done || naive_solver). by rewrite andb_false_r. }
  assert (CT : ctFamilies lhs = []).
  { rewrite (families_single _ _ _ LN). destruct N as [-> | ->]; done. }
  rewrite FR. split.
  - destruct PM as [-> | [f ->]]; done.
  - destruct M as [-> | ->]; rewrite ?LL, ?CT; destruct PM as [-> | [f ->]]; done.
Qed.
Lemma implied_match ts ns e : listed e = true → implied ts ns e = true → is_Some (jmatch_of e).
Proof.
  intros L I. unfold implied in I. unfold jmatch_of. destruct (nftMetaProtocolMatch e) as [p|] eqn:MP.
  - destruct (meta_left _ _ L MP) as (m & lhs & x & [S _ _ _] & _). rewrite S. by eexists.
  - cbn [orb] in I. destruct (nftPayloadMatch e) as [[p f]|] eqn:PM; [|done].
    destruct (payload_left _ _ _ L PM) as (m & lhs & name & x & [S _ _ _] & _). rewrite S. by eexists.
Qed.
Lemma text_equal k m lhs s t :
  mget "left" m = Some lhs → lhs_value k lhs = Some (VScalar (SStr s)) → match_op m = Some "=="%string →
  mget "right" m = Some (JStr t) → s = t → j_match k m = true.
Proof.
  intros L V O R ->. unfold j_match. rewrite L, R, V, O. case_bool_decide; [done|]. cbn. apply String.eqb_refl.
Qed.
(** A removed match holds when the protocols it asks for are the packet's. *)
Lemma implied_true k ts ns e :
  listed e = true → implied ts ns e = true → (∀ t, t ∈ ts → pk_l4 k = t) → (∀ t, t ∈ ns → pk_ether k = t) →
  holds_in k e.
Proof.
  intros L I T N. unfold implied in I. destruct (nftMetaProtocolMatch e) as [p|] eqn:MP.
  - destruct (meta_left _ _ L MP) as (m & lhs & x & [S LL LN _] & K & O & R).
    assert (V : lhs_value k lhs = Some (VScalar (SStr (pk_l4 k)))).
    { unfold lhs_value. rewrite LN. cbn. by rewrite K. }
    destruct (bool_decide (p ∈ ts)) eqn:P.
    + apply bool_decide_eq_true in P. intros m' M'. unfold jmatch_of in M'. rewrite S in M'. injection M' as <-.
      eapply text_equal; eauto.
    + cbn [orb] in I. destruct (nftPayloadMatch e) as [[p' f]|] eqn:PM; [|done].
      destruct (payload_left _ _ _ L PM) as (m' & lhs' & name & x' & [S' L' N' _] & C). simplify_eq. naive_solver.
  - cbn [orb] in I. destruct (nftPayloadMatch e) as [[p f]|] eqn:PM; [|done].
    rewrite !andb_true_iff in I. destruct I as [[[E F] O] R]. apply String.eqb_eq in E as ->, F as ->.
    destruct (payload_left _ _ _ L PM) as (m & lhs & name & x & [S LL LN _] & C).
    destruct C as [(-> & PP & PF)|(_ & NE & _)]; [|done].
    assert (V : lhs_value k lhs = Some (VScalar (SStr (pk_ether k)))).
    { unfold lhs_value. rewrite LN. cbn. unfold field_value. cbn. by rewrite PP, PF. }
    intros m' M'. unfold jmatch_of in M'. rewrite S in M'. injection M' as <-.
    apply bool_decide_eq_true in O. unfold nftMatchRight, nftMatch, mobj in O, R.
    rewrite (mget_single _ _ _ "match" S) in O, R by done. destruct m; try done. cbn [mbind option_bind String.eqb Ascii.eqb Bool.eqb] in O, R.
    destruct (mget "right" (JObj l)) as [[]|] eqn:RR; try done. apply bool_decide_eq_true in R.
    eapply text_equal; eauto.
Qed.

Section Removal.
Variables (k : packet) (sub : string → verdict).

Lemma stmts_match e m es :
  jmatch_of e = Some m → j_stmts k sub (e :: es) = if j_match k m then j_stmts k sub es else Next.
Proof.
  unfold jmatch_of. intros M. cbn [j_stmts]. destruct (single e) as [[name x]|]; [|done].
  destruct (name =? "match")%string; [|done]. by injection M as ->.
Qed.
Lemma stmts_cons e es es' : j_stmts k sub es = j_stmts k sub es' → j_stmts k sub (e :: es) = j_stmts k sub (e :: es').
Proof. intros E. cbn [j_stmts]. by rewrite E. Qed.
(** Matches that hold can be left out. *)
Lemma drop_holding f es :
  Forall (λ e, f e = false → is_Some (jmatch_of e) ∧ holds_in k e) es →
  j_stmts k sub es = j_stmts k sub (List.filter f es).
Proof.
  induction 1 as [|e es D F IH]; [done|]. cbn [List.filter]. destruct (f e); [by apply stmts_cons|].
  destruct (D eq_refl) as [[m M] H]. rewrite (stmts_match e m) by done. by rewrite (H m M).
Qed.
(** A match that fails before the action ends the rule. *)
Lemma prefix_fails f es ms t :
  Forall (λ e, f e = false → is_Some (jmatch_of e)) es → List.filter f es = ms ++ [t] →
  Forall (λ e, is_Some (jmatch_of e)) ms → Exists (λ e, ¬ holds_in k e) ms → j_stmts k sub es = Next.
Proof.
  intros D. revert ms. induction D as [|e es DE D IH]; intros ms E M X; cbn [List.filter] in E; [by destruct ms|].
  destruct (f e).
  - destruct ms as [|m0 ms]; [by apply Exists_nil in X|]. injection E as -> E.
    apply list.Forall_cons in M as [[m M0] M]. rewrite (stmts_match _ _ _ M0).
    apply Exists_cons in X as [X|X].
    + destruct (j_match k m) eqn:J; [|done]. exfalso. apply X. intros m' M'. congruence.
    + case_match; [|done]. by apply (IH ms).
  - destruct (DE eq_refl) as [m M0]. rewrite (stmts_match _ _ _ M0). case_match; [|done]. by apply (IH ms).
Qed.

Lemma all_or_fails es : Forall (holds_in k) es ∨ Exists (λ e, ¬ holds_in k e) es.
Proof.
  induction es as [|e es [IH|IH]]; [by left| |right; by right].
  assert (D : holds_in k e ∨ ¬ holds_in k e).
  { unfold holds_in. destruct (jmatch_of e) as [m|]; [|by left].
    destruct (j_match k m) eqn:J; [left; congruence | right; intros N]. by rewrite N in J. }
  destruct D as [D|D]; [left; by constructor | right; by left].
Qed.

Hypothesis packet_sane : sane k.
Lemma matches_imply es :
  Forall (λ e, listed e = true) es → Forall (holds_in k) es →
  (∀ t, t ∈ transportPayload es → pk_l4 k = t) ∧ (∀ t, t ∈ networkPayload es → pk_ether k = t).
Proof.
  intros L H. assert (A : ∀ e, e ∈ es → listed e = true ∧ holds_in k e).
  { intros e E. rewrite list.Forall_forall in L, H. auto. }
  unfold transportPayload, networkPayload. split; intros t T.
  - apply list_elem_of_In, in_flat_map in T as (e & E & T). apply list_elem_of_In in E, T. destruct (A e E) as [LE HE].
    destruct (nftPayloadMatch e) as [[p f]|] eqn:P; [|by apply not_elem_of_nil in T].
    eapply payload_transport; [|exact T]. by eapply payload_present.
  - apply list_elem_of_In, in_flat_map in T as (e & E & T). apply list_elem_of_In in E, T. destruct (A e E) as [LE HE].
    rewrite !elem_of_app in T. destruct T as [T|[T|T]].
    + destruct (nftMatch e) as [m|] eqn:M; [|by apply not_elem_of_nil in T].
      destruct (mget "left" m) as [lhs|] eqn:LL; [|by apply not_elem_of_nil in T].
      assert (O : mobj "left" m = Some lhs) by (unfold mobj; rewrite LL; destruct lhs; try (by apply not_elem_of_nil in T); done).
      destruct (listed_left _ _ _ LE M O) as (name & x & LO). destruct (match_value _ _ _ _ _ _ LO HE) as [v V].
      by eapply ct_lhs.
    + destruct (is_frag_match e) eqn:FR; [|by apply not_elem_of_nil in T]. apply list_elem_of_singleton in T as ->.
      by apply (frag_implies k e).
    + destruct (nftPayloadMatch e) as [[p f]|] eqn:P; [|by apply not_elem_of_nil in T].
      eapply payload_network; [done| |exact T]. by eapply payload_present.
Qed.
(** What a rule implies does not come from the matches that are removed. *)
Lemma payload_kept (g : list json → list string) ts ns es :
  (∀ l1 l2, g (l1 ++ l2) = g l1 ++ g l2) → (∀ e, listed e = true → implied ts ns e = true → g [e] = []) →
  Forall (λ e, listed e = true) es → g (List.filter (λ e, negb (implied ts ns e)) es) = g es.
Proof.
  intros GA GI. induction 1 as [|e es L F IH]; [done|]. cbn [List.filter].
  rewrite (GA [e] es : g (e :: es) = _). destruct (implied ts ns e) eqn:I; cbn [negb].
  - by rewrite (GI e L I).
  - rewrite (GA [e] (List.filter _ es) : g (e :: _) = _). by rewrite IH.
Qed.
(** An action implies nothing. *)
Lemma silent_action t : nftMatch t = None → transportPayload [t] = [] ∧ networkPayload [t] = [].
Proof.
  intros N. unfold transportPayload, networkPayload, nftPayloadMatch, is_frag_match. cbn [flat_map]. by rewrite N.
Qed.

Lemma normalize_keeps_meaning es ms t :
  Forall (λ e, listed e = true) es → normalize_expressions es = ms ++ [t] →
  Forall (λ e, is_Some (jmatch_of e)) ms → nftMatch t = None →
  j_stmts k sub es = j_stmts k sub (normalize_expressions es).
Proof.
  intros L E M T. set (ts := transportPayload es). set (ns := networkPayload es).
  assert (D : Forall (λ e, negb (implied ts ns e) = false → is_Some (jmatch_of e)) es).
  { eapply list.Forall_impl; [exact L|]. intros e LE I. apply negb_false_iff in I. by eapply implied_match. }
  assert (TS : transportPayload (ms ++ [t]) = ts).
  { rewrite <- E. apply payload_kept; [apply flat_map_app | intros; by eapply implied_silent | done]. }
  assert (NS : networkPayload (ms ++ [t]) = ns).
  { rewrite <- E. apply payload_kept; [apply flat_map_app | intros; by eapply implied_silent | done]. }
  destruct (silent_action t T) as [T1 T2].
  assert (TA : transportPayload (ms ++ [t]) = transportPayload ms).
  { unfold transportPayload in *. by rewrite flat_map_app, T1, app_nil_r. }
  assert (NA : networkPayload (ms ++ [t]) = networkPayload ms).
  { unfold networkPayload in *. by rewrite flat_map_app, T2, app_nil_r. }
  destruct (all_or_fails ms) as [HM|X].
  - apply drop_holding.
    assert (LM : Forall (λ e, listed e = true) ms).
    { apply list.Forall_forall. intros e IN. rewrite list.Forall_forall in L. apply L.
      assert (I : e ∈ normalize_expressions es) by (rewrite E; set_solver).
      apply list_elem_of_In in I. apply list_elem_of_In. unfold normalize_expressions in I.
      apply filter_In in I. exact (proj1 I). }
    destruct (matches_imply ms LM HM) as [IT IN]. rewrite <- TA, TS in IT. rewrite <- NA, NS in IN.
    apply list.Forall_forall. intros e EI I. apply negb_false_iff in I. rewrite list.Forall_forall in L.
    split; [by eapply implied_match; [apply L|] | by eapply implied_true; [apply L| | |]].
  - etransitivity; [exact (prefix_fails _ es ms t D E M X)|]. symmetry. unfold normalize_expressions in E |- *.
    eapply (prefix_fails (λ _, true)); [| |exact M|exact X].
    + by apply list.Forall_true.
    + rewrite <- E. clear. induction (List.filter _ es) as [|e l IH]; [done|]. cbn. by f_equal.
Qed.
End Removal.
