(* ===== verification/NftLink.v ===== *)
(** * The JSON of a document means what the document means

    For documents of the kinds of matches the compiler emits, with values of the right
    kind on both sides, evaluating the rendered objects gives the decision of the typed
    document. *)

From stdpp Require Import base gmap sets list strings numbers sorting.
From Stdlib Require Import Ascii.
From S2P Require Import Prelude GoStrings Policy Nft NftFacts NftWf AddrText Store NftState NftEval NftImplied.
Open Scope Z_scope.

(** ** Kinds *)

Definition is_addr (s : scalar) : bool := match s with SAddr _ => true | _ => false end.
Definition valid_scalar (s : scalar) : Prop := match s with SAddr a => valid_addr a | _ => True end.
Definition addr_left (l : left_expr) : bool :=
  match l with
  | Payload p f => ((p =? "ip")%string || (p =? "ip6")%string) && ((f =? "saddr")%string || (f =? "daddr")%string)
  | CtDir key _ => negb (key =? "proto-src")%string && negb (key =? "proto-dst")%string
  | _ => false
  end.
Definition simple (l : left_expr) : bool :=
  match l with Payload _ _ | Meta _ | CtKey _ | CtDir _ _ => true | _ => false end.

(** The left sides the compiler emits. *)
Inductive good_left : left_expr → Prop :=
| gl_simple l : simple l = true → good_left l
| gl_status flag : good_left (BitAnd (CtKey "status") (SStr flag))
| gl_bits p f mask : p ≠ "ether"%string → good_left (BitAnd (Payload p f) (SInt mask))
| gl_frag : good_left (Exthdr "frag")
| gl_pair a b : simple a = true → simple b = true → good_left (Concat a b).
Definition good_scalar (l : left_expr) (s : scalar) : Prop := is_addr s = addr_left l ∧ valid_scalar s.
(** The right sides that fit a left side. *)
Inductive good_right : left_expr → right_expr → Prop :=
| gr_scalar l s : good_scalar l s → (∀ a b, l ≠ Concat a b) → good_right l (RScalar s)
| gr_set l ss : Forall (good_scalar l) ss → (∀ a b, l ≠ Concat a b) → good_right l (RSet ss)
| gr_tuples a b ts : addr_left a = true → addr_left b = false → Forall (λ t, valid_addr (fst t)) ts →
    good_right (Concat a b) (RTuples ts)
| gr_prefix l a len : valid_addr a → (∀ a b, l ≠ Concat a b) → good_right l (RPrefix a len).
Inductive good_match : stmt → Prop :=
| gm_match op l r : op = "=="%string ∨ op = "!="%string → good_left l → good_right l r → good_match (Match op l r).
Definition action (s : stmt) : Prop :=
  match s with
  | Match _ _ _ => False
  | Verdict a => a = "return"%string ∨ a = "drop"%string
  | _ => True
  end.
Definition good_rule (e : list stmt) : Prop := ∃ ms t, e = ms ++ [t] ∧ Forall good_match ms ∧ action t.

(** ** Packets with valid addresses *)

Record valid_packet (k : packet) : Prop := {
  vp_src : valid_addr (pk_saddr k);
  vp_dst : valid_addr (pk_daddr k);
  vp_conn c : pk_ct k = Some c → valid_addr (cn_saddr c) ∧ valid_addr (cn_daddr c);
}.

Section Link.
Variable k : packet.
Hypothesis packet_valid : valid_packet k.

Lemma left_kind l v : left_scalar k l = Some v → simple l = true → is_addr v = addr_left l ∧ valid_scalar v.
Proof.
  destruct packet_valid as [VS VD VC]. destruct l as [p f|key|key|key dir| | |]; cbn [simple left_scalar addr_left]; try done; intros V _.
  - unfold payload_value in V. destruct (String.eqb_spec p "ether") as [->|].
    { destruct (f =? "type")%string; [by injection V as <-|]. done. }
    cbn [andb] in V. destruct ((p =? "ip")%string || (p =? "ip6")%string) eqn:IP; cbn [andb].
    + case_bool_decide; [|done]. repeat (case_match; [injection V as <-; done|]). done.
    + repeat case_match; simplify_eq; try done. unfold when in V. case_match; [by injection V as <- | done].
  - unfold meta_value in V. by repeat case_match; simplify_eq.
  - destruct (pk_ct k); [|done]. cbn in V. unfold ct_value in V. by repeat case_match; simplify_eq.
  - destruct (pk_ct k) as [c|]; [|done]. cbn in V. unfold ct_dir_value in V. destruct (VC c eq_refl).
    repeat case_match; simplify_eq; done.
Qed.

(** ** Sides *)

Lemma scalar_link l v s :
  is_addr v = addr_left l → valid_scalar v → good_scalar l s → scalar_is v (scalar_json s) = bool_decide (v = s).
Proof.
  intros KV VV [KS VS]. destruct v as [n|t|b|a], s as [n'|t'|b'|a']; cbn in *; try congruence;
    try (symmetry; by apply bool_decide_eq_false_2).
  - destruct (Z.eqb_spec n n') as [->|]; [by rewrite bool_decide_eq_true_2 | rewrite bool_decide_eq_false_2; congruence].
  - destruct (String.eqb_spec t t') as [->|]; [by rewrite bool_decide_eq_true_2 | rewrite bool_decide_eq_false_2; congruence].
  - destruct b, b'; done.
  - destruct (String.eqb_spec (addr_String a) (addr_String a')) as [E|].
    + apply addr_String_inj in E as ->; [|done..]. by rewrite bool_decide_eq_true_2.
    + rewrite bool_decide_eq_false_2; congruence.
Qed.
Lemma field_link l : simple l = true → ∃ name x, single (left_json l) = Some (name, x) ∧ left_json l = JObj [(name, x)]
  ∧ field_value k name x = left_scalar k l ∧ name ≠ "&"%string ∧ name ≠ "concat"%string.
Proof. destruct l as [p f|key|key|key dir| | |]; try done; intros _; by eexists _, _. Qed.
Lemma expr_link l : simple l = true → expr_value k (left_json l) = left_scalar k l.
Proof. intros S. destruct (field_link l S) as (name & x & E & _ & V & _). unfold expr_value. by rewrite E. Qed.
Lemma lhs_link l : good_left l → lhs_value k (left_json l) = left_value k l.
Proof.
  destruct 1 as [l S|flag|p f mask N| |a b A B].
  - destruct (field_link l S) as (name & x & E & _ & V & N1 & N2). unfold lhs_value. rewrite E. cbn [mbind option_bind].
    rewrite (proj2 (String.eqb_neq name "&")), (proj2 (String.eqb_neq name "concat")) by done. rewrite V. by destruct l.
  - cbn. by destruct (pk_ct k).
  - reflexivity.
  - cbn. by destruct (bool_decide _).
  - unfold left_value. unfold lhs_value. cbn [left_json single mbind option_bind].
    change (delete_key "handle" [("concat"%string, ?x)]) with [("concat"%string, x)]. cbn [mbind option_bind].
    by rewrite <- !expr_link.
Qed.
Lemma left_value_kind l v : good_left l → left_value k l = Some v →
  match v with
  | VScalar s => is_addr s = addr_left l ∧ valid_scalar s ∧ ∀ a b, l ≠ Concat a b
  | VPair x y => ∃ a b, l = Concat a b ∧ (is_addr x = addr_left a ∧ valid_scalar x) ∧ (is_addr y = addr_left b ∧ valid_scalar y)
  end.
Proof.
  destruct 1 as [l S|flag|p f mask N| |a b A B]; intros V.
  - assert (V' : ∃ s, left_scalar k l = Some s ∧ v = VScalar s).
    { destruct l; try done; unfold left_value in V; destruct (left_scalar k _) eqn:L; try done; injection V as <-; by eexists. }
    destruct V' as (s & L & ->). destruct (left_kind l s L S). split; [done|]. split; [done|]. by destruct l.
  - cbn in V. destruct (pk_ct k); [|done]. cbn in V. injection V as <-. by destruct (bool_decide _).
  - unfold left_value in V. cbn in V. destruct (payload_value k p f) as [[]|]; try done. by injection V as <-.
  - cbn in V. destruct (bool_decide _); [|done]. by injection V as <-.
  - unfold left_value in V. destruct (left_scalar k a) as [x|] eqn:LA; [|done]. destruct (left_scalar k b) as [y|] eqn:LB; [|done].
    cbn in V. injection V as <-. exists a, b. split; [done|]. split; by apply left_kind.
Qed.

Lemma masked_valid a len : valid_addr a → valid_addr (masked a len).
Proof.
  unfold masked, valid_addr. destruct a as [n|n]; cbn [bit_len].
  - intros R. set (h := 2 ^ (32 - len)). assert (H : 0 ≤ h) by (apply Z.pow_nonneg; lia).
    destruct (Z.eq_dec h 0) as [->|Z0]; [rewrite Z.mul_0_r; lia|].
    pose proof (Z.mul_div_le n h ltac:(lia)). pose proof (Z.div_pos n h ltac:(lia) ltac:(lia)). nia.
  - intros [R N]. set (h := 2 ^ (128 - len)). assert (H : 0 ≤ h) by (apply Z.pow_nonneg; lia).
    destruct (Z.eq_dec h 0) as [->|Z0]; [rewrite Z.mul_0_r; done|].
    pose proof (Z.mul_div_le n h ltac:(lia)) as LE. pose proof (Z.div_pos n h ltac:(lia) ltac:(lia)). split; [nia|].
    unfold is4in6 in *. apply Z.eqb_neq. intros E. apply Z.eqb_neq in N. apply N. clear N.
    destruct (Z.le_gt_cases (128 - len) 32) as [L|L].
    + assert (0 ≤ 128 - len) by (destruct (Z.neg_nonneg_cases (128 - len)) as [NG|]; [|done]; unfold h in Z0; by rewrite Z.pow_neg_r in Z0).
      rewrite <- E. assert (2 ^ 32 = h * 2 ^ (32 - (128 - len))) as ->.
      { unfold h. rewrite <- Z.pow_add_r by lia. f_equal. lia. }
      pose proof (Z.pow_pos_nonneg 2 (32 - (128 - len)) ltac:(lia) ltac:(lia)).
      rewrite <- !Z.div_div by lia. by rewrite Z.div_mul by lia.
    + exfalso. assert (h = 2 ^ 32 * (2 * 2 ^ (128 - len - 33))) as HE.
      { unfold h. rewrite <- Z.pow_succ_r, <- Z.pow_add_r by lia. f_equal. lia. }
      rewrite HE in E. set (q := n / _) in E. replace (q * (2 ^ 32 * (2 * 2 ^ (128 - len - 33)))) with (q * 2 ^ (128 - len - 33) * 2 * 2 ^ 32) in E by ring.
      rewrite Z.div_mul in E by lia. lia.
Qed.
Lemma rhs_link l r v : good_left l → good_right l r → left_value k l = Some v → rhs_has (right_json r) v = right_has r v.
Proof.
  intros GL GR V. pose proof (left_value_kind l v GL V) as K.
  destruct GR as [l s GS NC|l ss GS NC|a b ts A B GT|l a len VA NC].
  - destruct v as [x|x y]; [|destruct K as (a1 & b1 & -> & _); by destruct (NC a1 b1)].
    destruct K as (K & VX & _). unfold rhs_has. assert (single (right_json (RScalar s)) = None) as -> by (by destruct s).
    cbn [item_is right_json right_has]. rewrite (scalar_link l) by done. apply bool_decide_ext. split; congruence.
  - destruct v as [x|x y]; [|destruct K as (a1 & b1 & -> & _); by destruct (NC a1 b1)].
    destruct K as (K & VX & _). cbn [right_has].
    change (rhs_has (right_json (RSet ss)) (VScalar x)) with (existsb (scalar_is x) (map scalar_json ss)).
    assert (E : existsb (scalar_is x) (map scalar_json ss) = bool_decide (x ∈ ss)).
    { induction GS as [|s ss G F IH]; [done|]. cbn [map existsb]. rewrite (scalar_link l) by done. rewrite IH.
      rewrite <- bool_decide_or. apply bool_decide_ext. set_solver. }
    rewrite E. apply bool_decide_ext. rewrite list_elem_of_fmap. split; [eauto | by intros (? & [= ->] & ?)].
  - destruct v as [x|x y]; [destruct K as (_ & _ & NC); by destruct (NC a b)|].
    destruct K as (a' & b' & [= <- <-] & [KX VX] & [KY VY]). cbn [right_has].
    change (rhs_has (right_json (RTuples ts)) (VPair x y)) with (existsb (item_is (VPair x y)) (map concat_json ts)).
    assert (E : existsb (item_is (VPair x y)) (map concat_json ts) = bool_decide ((x, y) ∈ (λ t, (SAddr (fst t), SInt (snd t))) <$> ts)).
    { induction GT as [|t ts G F IH]; [done|]. cbn [map existsb fmap list_fmap]. rewrite IH. destruct t as [ip q]. cbn [fst snd] in *.
      cbn [item_is concat_json single obj1]. change (delete_key "handle" [("concat"%string, ?x)]) with [("concat"%string, x)].
      cbn iota. change (("concat" =? "concat")%string) with true. cbn [andb].
      cbn [fst snd]. change (JStr (addr_String ip)) with (scalar_json (SAddr ip)). change (JNum q) with (scalar_json (SInt q)).
      rewrite (scalar_link a x), (scalar_link b y) by done.
      rewrite <- bool_decide_and, <- bool_decide_or. apply bool_decide_ext. rewrite elem_of_cons. naive_solver. }
    rewrite E. apply bool_decide_ext. rewrite !list_elem_of_fmap. split; intros (t & T & I); exists t; split; try done; congruence.
  - destruct v as [x|x y]; [|destruct K as (a1 & b1 & -> & _); by destruct (NC a1 b1)].
    destruct K as (K & VX & _). destruct x as [| | |ip]; try done.
    change (rhs_has (right_json (RPrefix a len)) (VScalar (SAddr ip))) with (addr_String (masked ip len) =? addr_String a)%string.
    cbn [right_has].
    destruct (String.eqb_spec (addr_String (masked ip len)) (addr_String a)) as [E|E].
    + apply addr_String_inj in E as E'; [|by apply masked_valid|done]. by rewrite bool_decide_eq_true_2.
    + rewrite bool_decide_eq_false_2; congruence.
Qed.

(** ** Statements and chains *)

Lemma match_link s : good_match s → ∃ op l r, s = Match op l r ∧ ∀ m, jmatch_of (stmt_json s) = Some m → j_match k m = match_holds k op l r.
Proof.
  destruct 1 as [op l r O GL GR]. exists op, l, r. split; [done|]. intros m M. apply (inj Some) in M.
  assert (ML : mget "left" m = Some (left_json l)) by (rewrite <- M; reflexivity).
  assert (MR : mget "right" m = Some (right_json r)) by (rewrite <- M; reflexivity).
  assert (MO : match_op m = Some op) by (rewrite <- M; reflexivity).
  unfold j_match, match_holds. rewrite ML, MR, MO, lhs_link by done. destruct (left_value k l) as [v|] eqn:V; [|done].
  rewrite (rhs_link l r v) by done. destruct O as [-> | ->]; done.
Qed.
Lemma jmatch_json op l r : jmatch_of (stmt_json (Match op l r)) = Some (go_map [("op", JStr op); ("left", left_json l); ("right", right_json r)])%string.
Proof. reflexivity. Qed.
Lemma stmts_link (sub : string → packet → verdict) ms t :
  Forall good_match ms → action t →
  j_stmts k (λ c, sub c k) (map stmt_json (ms ++ [t])) = run_stmts sub k (ms ++ [t]).
Proof.
  intros M A. induction M as [|s ms G F IH].
  - destruct t as [op l r|tg|tg|a]; [done|..].
    + cbn. by destruct (sub tg k).
    + done.
    + destruct A as [-> | ->]; done.
  - change ((s :: ms) ++ [t]) with (s :: (ms ++ [t])). cbn [map].
    destruct (match_link s G) as (op & l & r & -> & E). rewrite (stmts_match k _ _ _ _ (jmatch_json op l r)).
    rewrite (E _ (jmatch_json op l r)). cbn [run_stmts]. by rewrite IH.
Qed.

Definition good_object (table : string) (o : nft_object) : Prop :=
  match o with
  | NTable _ _ => True
  | NChain t _ _ => t = table
  | NRule t _ e => t = table ∧ good_rule e
  end.
Lemma append_inj a b c : a +:+ b = a +:+ c → b = c.
Proof. induction a as [|x a IH]; [done|]. intros E. apply IH. by injection E. Qed.
Lemma rules_in_link table chain d :
  Forall (good_object table) d →
  rule_exprs <$> rules_in (map object_json d) (chain_key table chain) = map stmt_json <$> chain_rules d chain.
Proof.
  induction 1 as [|o d G F IH]; [done|]. unfold rules_in, chain_rules in *. cbn [map omap list_omap].
  destruct o as [name comment|t c [h|]|t c e]; try exact IH. cbn [good_object] in G. destruct G as [-> G].
  assert (O : object_of "rule" (object_json (NRule table c e))
              = Some (go_map [("family", JStr "bridge"); ("table", JStr table); ("chain", JStr c); ("expr", JArr (map stmt_json e))])%string)
    by reflexivity.
  rewrite O. cbn [mbind option_bind].
  assert (K : nftObjectKey (go_map [("family", JStr "bridge"); ("table", JStr table); ("chain", JStr c); ("expr", JArr (map stmt_json e))])%string
              = Some (chain_key table c)) by reflexivity.
  rewrite K. destruct (decide (c = chain)) as [->|N].
  - rewrite !bool_decide_eq_true_2 by done. cbn [fmap list_fmap]. f_equal. exact IH.
  - rewrite (bool_decide_eq_false_2 (c = chain)) by done. rewrite bool_decide_eq_false_2; [exact IH|].
    intros E. apply N. apply (inj Some) in E. unfold chain_key in E. by do 4 apply append_inj in E.
Qed.
Lemma chain_link table d fuel chain :
  Forall (good_object table) d → j_chain k fuel (map object_json d) table chain = run_chain fuel d chain k.
Proof.
  intros G. revert chain. induction fuel as [|fuel IH]; intros chain; [done|]. cbn [j_chain run_chain].
  rewrite rules_in_link by done.
  assert (GR : Forall good_rule (chain_rules d chain)).
  { clear IH. induction G as [|o d GO F IHd]; [constructor|]. unfold chain_rules in *. cbn [omap list_omap].
    destruct o as [| |t c e]; try exact IHd. case_bool_decide; [|exact IHd]. constructor; [apply GO | exact IHd]. }
  induction GR as [|e l (ms & t & -> & M & A) F IHl]; [done|]. cbn [fmap list_fmap j_rules run_rules].
  assert (E : j_stmts k (j_chain k fuel (map object_json d) table) (map stmt_json (ms ++ [t]))
              = j_stmts k (λ c, run_chain fuel d c k) (map stmt_json (ms ++ [t]))).
  { generalize (map stmt_json (ms ++ [t])) as es. induction es as [|e es IHe]; [done|]. cbn [j_stmts]. rewrite IHe.
    destruct (single e) as [[name x]|]; [|done]. destruct (mstr "target" x); [|done]. by rewrite IH. }
  rewrite E, (stmts_link (run_chain fuel d)) by done. destruct (run_stmts _ _ _); [exact IHl | done].
Qed.
Lemma accepts_link table d hook :
  Forall (good_object table) d → listing_accepts k (map object_json d) table hook = table_accepts d hook k.
Proof.
  intros G. unfold listing_accepts, table_accepts.
  assert (B : ∀ d', forallb (base_accepts k (map object_json d) table) (hooks_at (map object_json d') hook)
              = forallb (λ c, bool_decide (run_chain 3 d c k = Return)) (base_chains d' hook)); [|apply B].
  induction d' as [|o d' IH]; [done|]. unfold hooks_at, base_chains in *. cbn [map omap list_omap].
  destruct o as [name comment|t c [h|]|t c e]; try exact IH.
  assert (O : object_of "chain" (object_json (NChain t c (Some h)))
              = Some (go_map [("family", JStr "bridge"); ("table", JStr t); ("name", JStr c); ("type", JStr "filter");
                              ("hook", JStr (hk_hook h)); ("prio", JNum (hk_prio h)); ("policy", JStr "accept")])%string) by reflexivity.
  rewrite O. cbn [mbind option_bind].
  assert (HK : mstr "hook" (go_map [("family", JStr "bridge"); ("table", JStr t); ("name", JStr c); ("type", JStr "filter");
                              ("hook", JStr (hk_hook h)); ("prio", JNum (hk_prio h)); ("policy", JStr "accept")])%string
               = Some (hk_hook h)) by reflexivity.
  rewrite HK. destruct (decide (hk_hook h = hook)) as [->|N].
  - rewrite !bool_decide_eq_true_2 by done. cbn [forallb]. rewrite IH. f_equal.
    unfold base_accepts. cbn [mstr]. assert (mstr "name" (go_map [("family", JStr "bridge"); ("table", JStr t); ("name", JStr c); ("type", JStr "filter");
                              ("hook", JStr hook); ("prio", JNum (hk_prio h)); ("policy", JStr "accept")])%string = Some c) as -> by reflexivity.
    rewrite chain_link by done. by rewrite andb_true_r.
  - rewrite (bool_decide_eq_false_2 (hk_hook h = hook)) by done. rewrite bool_decide_eq_false_2 by congruence. exact IH.
Qed.
End Link.

