(* ===== verification/NftGood.v ===== *)
(** * Every compiled document is of the verified kind

    The rules of a compiled document are conditions followed by one action, their values
    fit the fields they are compared with, and all their text is valid UTF-8: what the
    comparison of listings relies on. *)

From stdpp Require Import base gmap sets list strings numbers sorting.
From Stdlib Require Import Ascii.
From S2P Require Import Prelude GoStrings Policy Nft NftFacts NftWf AddrText Store NftState NftEval NftImplied NftLink.
Open Scope Z_scope.

(** ** Text *)

Definition plain_byte (c : ascii) : bool := byteZ c <? 128.
Lemma plain_bytes_utf8 s : all_bytes plain_byte s = true → ValidUTF8 s = true.
Proof.
  induction s as [|c s IH]; [done|]. cbn [all_bytes ValidUTF8]. unfold plain_byte at 1.
  intros [C S]%andb_true_iff. rewrite C. by apply IH.
Qed.
Lemma addr_plain a : valid_addr a → all_bytes plain_byte (addr_String a) = true.
Proof.
  destruct a as [n|n]; intros V.
  - assert (D : ∀ m, 0 ≤ m < 256 → all_bytes plain_byte (FormatInt m) = true).
    { intros m M. destruct (octet m M) as (_ & D & _). eapply all_bytes_impl; [|exact D]. intros c C%digit_range.
      unfold plain_byte. lia. }
    destruct (v4_range n V) as [R _]. pose proof (Z.mod_pos_bound (n / 2 ^ 16) 256 ltac:(lia)).
    pose proof (Z.mod_pos_bound (n / 2 ^ 8) 256 ltac:(lia)). pose proof (Z.mod_pos_bound n 256 ltac:(lia)).
    change (addr_String (V4 n)) with (FormatInt (n / 2 ^ 24) +:+ String dot (FormatInt (n / 2 ^ 16 mod 256)
      +:+ String dot (FormatInt (n / 2 ^ 8 mod 256) +:+ String dot (FormatInt (n mod 256))))).
    rewrite !all_bytes_app. cbn [all_bytes]. rewrite !all_bytes_app. cbn [all_bytes]. rewrite !all_bytes_app. cbn [all_bytes].
    by rewrite !D.
  - cbn [addr_String]. eapply all_bytes_impl; [|apply v6_from_bytes]. intros c C. unfold v6_byte, hex_byte in C. unfold plain_byte.
    apply orb_true_iff in C as [C|C].
    + apply bool_decide_eq_true in C as [v C]. unfold hex_val in C. repeat case_match; simplify_eq; lia.
    + apply Ascii.eqb_eq in C as ->. done.
Qed.
Lemma addr_utf8 a : valid_addr a → ValidUTF8 (addr_String a) = true.
Proof. intros V. by apply plain_bytes_utf8, addr_plain. Qed.

(** ** Matches *)

Definition right_utf8 (r : right_expr) : Prop := json_utf8 (right_json r) = true.
Definition fine (s : stmt) : Prop := good_match s ∧ json_utf8 (stmt_json s) = true.
Definition fine_rule (e : list stmt) : Prop :=
  ∃ ms t, e = ms ++ [t] ∧ Forall fine ms ∧ action t ∧ json_utf8 (stmt_json t) = true.

Lemma set_json_utf8 items : forallb json_utf8 items = true → json_utf8 (obj1 "set" (JArr items)) = true.
Proof. intros U. unfold obj1. cbn [json_utf8 forallb fst snd]. by rewrite U. Qed.
Lemma fine_match op l r :
  op = "=="%string ∨ op = "!="%string → good_left l → good_right l r →
  json_utf8 (left_json l) = true → right_utf8 r → fine (Match op l r).
Proof.
  intros O GL GR UL UR. split; [by constructor|]. unfold right_utf8 in UR.
  change (stmt_json (Match op l r))
    with (JObj [("match", JObj [("left", left_json l); ("op", JStr op); ("right", right_json r)])]%string).
  cbn [json_utf8 forallb fst snd]. rewrite UL, UR. by destruct O as [-> | ->].
Qed.
(** A text compared with a field that is no address. *)
Lemma fine_text op l t :
  op = "=="%string ∨ op = "!="%string → good_left l → addr_left l = false → (∀ a b, l ≠ Concat a b) →
  json_utf8 (left_json l) = true → ValidUTF8 t = true → fine (Match op l (RScalar (SStr t))).
Proof. intros O GL AL NC UL UT. apply fine_match; try done. by constructor. Qed.
Lemma fine_texts l ts :
  good_left l → addr_left l = false → (∀ a b, l ≠ Concat a b) → json_utf8 (left_json l) = true →
  Forall (λ t, ValidUTF8 t = true) ts → fine (match_ l (strings ts)).
Proof.
  intros GL AL NC UL UT. apply fine_match; try done; [by left| |].
  - constructor; [|done]. apply list.Forall_forall. intros s I. apply list_elem_of_fmap in I as (t & -> & _). done.
  - apply set_json_utf8, forallb_forall. intros x I. apply in_map_iff in I as (s & <- & I).
    apply in_map_iff in I as (t & <- & I). rewrite list.Forall_forall in UT. by apply UT, list_elem_of_In.
Qed.
Lemma fine_ports l ports :
  good_left l → addr_left l = false → (∀ a b, l ≠ Concat a b) → json_utf8 (left_json l) = true →
  fine (match_ l (intSet ports)).
Proof.
  intros GL AL NC UL. apply fine_match; try done; [by left| |].
  - unfold intSet. assert (F : Forall (good_scalar l) (map SInt ports)).
    { apply list.Forall_forall. intros s I. apply list_elem_of_fmap in I as (t & -> & _). done. }
    destruct ports as [|p []]; [by constructor| |by constructor]. by constructor.
  - unfold right_utf8, intSet. assert (F : forallb json_utf8 (map scalar_json (map SInt ports)) = true).
    { apply forallb_forall. intros x I. apply in_map_iff in I as (s & <- & I). by apply in_map_iff in I as (t & <- & _). }
    destruct ports as [|p []]; try done. by apply set_json_utf8.
Qed.
Lemma fine_tuples a b ts :
  simple a = true → simple b = true → addr_left a = true → addr_left b = false →
  json_utf8 (left_json a) = true → json_utf8 (left_json b) = true → Forall (λ t, valid_addr (fst t)) ts →
  fine (match_ (Concat a b) (tupleSet ts)).
Proof.
  intros SA SB AA AB UA UB V. apply fine_match; [by left|by constructor|by constructor| |].
  - cbn [left_json]. unfold obj1. cbn [json_utf8 forallb fst snd]. by rewrite UA, UB.
  - apply set_json_utf8, forallb_forall. intros x I.
    apply in_map_iff in I as (t & <- & I). rewrite list.Forall_forall in V. apply list_elem_of_In, V in I.
    unfold concat_json, obj1. cbn [json_utf8 forallb fst snd]. by rewrite addr_utf8.
Qed.
Lemma fine_prefix l a len :
  good_left l → addr_left l = true → (∀ a b, l ≠ Concat a b) → json_utf8 (left_json l) = true → valid_addr a →
  fine (match_ l (prefix (a, len))).
Proof.
  intros GL AL NC UL V. pose proof (addr_utf8 a V) as U. unfold prefix. cbn [fst snd]. destruct (len =? bit_len a).
  - apply fine_match; try done; [by left | by constructor].
  - apply fine_match; try done; [by left | by constructor|]. unfold right_utf8.
    change (right_json (RPrefix a len)) with (JObj [("prefix", JObj [("addr", JStr (addr_String a)); ("len", JNum len)])]%string).
    cbn [json_utf8 forallb fst snd]. by rewrite U.
Qed.
Lemma fine_action ms t : Forall fine ms → action t → json_utf8 (stmt_json t) = true → fine_rule (ms ++ [t]).
Proof. intros. by exists ms, t. Qed.

(** ** The rules of a policy *)

Definition fine_variant (v : allocationMatch) : Prop :=
  is_family v ∧ Forall (λ t, valid_addr (fst t)) (am_allocations v).

Lemma family_utf8 v : is_family v → ValidUTF8 (am_family v) = true.
Proof. by intros [-> | [-> | ->]]. Qed.
Lemma fine_path path original : Forall fine (path_stmts path original).
Proof.
  assert (S : ∀ op, op = "=="%string ∨ op = "!="%string → fine (Match op (ct_status "dnat") (RScalar (SStr "dnat"))))
    by (intros op O; apply fine_text; try done; constructor).
  unfold path_stmts. case_bool_decide; [constructor|]. case_bool_decide.
  - apply list.Forall_singleton. apply S. by right.
  - apply list.Forall_cons. split; [apply S; by left|]. destruct original; [constructor|]. apply list.Forall_singleton.
    apply fine_text; try done; [by left | by constructor | by case_bool_decide].
Qed.
Lemma fine_ether t : ValidUTF8 t = true → fine (is_ether t).
Proof. intros U. apply fine_text; try done; [by left | by constructor]. Qed.
Lemma fine_port rule proto m original :
  is_l4 proto → fine_variant (pm_match m) → Forall fine (port_stmts rule proto m original).
Proof.
  intros L [F V]. unfold port_stmts. case_bool_decide as E; [constructor|]. apply Forall_app. split.
  - apply list.Forall_cons. split; [apply fine_ether, family_utf8, F|]. apply list.Forall_singleton.
    destruct original; [destruct (bool_decide (ru_Direction rule = _)); apply fine_ports; done || by constructor|].
    destruct L as [-> | ->]; destruct (bool_decide (ru_Direction rule = _)); apply fine_ports; done || by constructor.
  - destruct (_ && _); [|constructor]. apply list.Forall_singleton.
    destruct F as [F|[F|F]]; [done|..]; rewrite F; apply fine_tuples; done.
Qed.
Lemma peer_valid c a len : Peer c = Some (a, len) → valid_addr a.
Proof.
  unfold Peer. destruct (parseIP c) as [ip|] eqn:P.
  - intros [= <- <-]. by eapply parseIP_valid.
  - destruct (rev _) as [|bits [|f1 front]]; try done. destruct (parseIP (Join _ _)) as [ip|] eqn:PI; [|done].
    cbn [mbind option_bind]. destruct (prefix_bits bits) as [b|]; [|done]. cbn [mbind option_bind].
    destruct (_ <? _); [done|]. intros [= <- <-]. by eapply masked_valid, parseIP_valid.
Qed.
Lemma family_fine a : family_of a = "ip"%string ∨ family_of a = "ip6"%string.
Proof. destruct a; auto. Qed.
Lemma fine_cidr rule m original l : cidr_stmts rule m original = Ok (Some l) → Forall fine l.
Proof.
  unfold cidr_stmts. destruct (ru_CIDR rule) as [c|]; [|intros [= <-]; constructor].
  destruct (Peer c) as [[a len]|] eqn:P; [|done]. apply peer_valid in P. cbn [fst].
  destruct (negb _ && negb _); [done|]. intros E. assert (X : ∀ x, @Ok polerr _ (Some x) = Ok (Some l) → x = l) by congruence. apply X in E as <-.
  apply Forall_app. split.
  - case_bool_decide; [|constructor]. apply list.Forall_singleton, fine_ether. by destruct (family_fine a) as [-> | ->].
  - apply list.Forall_singleton.
    destruct (family_fine a) as [-> | ->], (_ || _), (bool_decide (ru_Direction rule = _)); apply fine_prefix; done || by constructor.
Qed.
Lemma fine_policy_rule rule proto original m peer :
  is_l4 proto → fine_variant (pm_match m) → cidr_stmts rule m original = Ok (Some peer) →
  fine_rule (match_ (if (original : bool) then ct "protocol" EmptyString "original" else Meta "l4proto") (RScalar (SStr proto))
             :: path_stmts (pm_path m) original ++ port_stmts rule proto m original ++ peer ++ [Verdict (rule_verdict rule m)]).
Proof.
  intros L V C. rewrite !app_assoc. rewrite app_comm_cons. apply fine_action.
  - apply list.Forall_cons. split.
    { destruct original; destruct L as [-> | ->]; apply fine_text; try done; (by left) || by constructor. }
    rewrite !Forall_app. split; [split; [apply fine_path | by apply fine_port] | by eapply fine_cidr].
  - cbn. unfold rule_verdict. case_match; auto.
  - unfold rule_verdict. by case_match.
Qed.
Lemma fine_variants p g proto assigned vs :
  resolvedMatches p g proto assigned = Ok vs → Forall fine_variant vs.
Proof.
  unfold resolvedMatches. destruct (find_group _ _ _) as [gr|]; [|intros [= <-]; constructor].
  destruct (group_tuples _ _) as [ts|] eqn:T; cbn [mbind result_bind]; [|done]. intros E. assert (X : ∀ x, @Ok polerr _ x = Ok vs → x = vs) by congruence. apply X in E as <-.
  assert (V : Forall (λ t, valid_addr (fst t)) ts).
  { rewrite (group_tuples_spec _ _ _ T). apply list.Forall_forall. intros t I. apply list_elem_of_omap in I as (a & _ & I).
    destruct (hasAllocation _ _); [|done]. destruct (parseIP (al_IP a)) eqn:P; [|done]. injection I as <-. by eapply parseIP_valid. }
  assert (F : ∀ family, family = "ip"%string ∨ family = "ip6"%string → Forall fine_variant (family_match ts family)).
  { intros family FA. pose proof (family_match_family ts family FA) as FF.
    destruct (family_match_spec ts family) as [[E _]|(v & E & VO)]; rewrite E in *; [constructor|].
    apply list.Forall_singleton. apply list.Forall_cons in FF as [FF _]. split; [done|]. apply list.Forall_forall. intros t I.
    apply (vo_tuples _ _ _ VO) in I as [I _]. rewrite list.Forall_forall in V. by apply V. }
  apply Forall_app. split; apply F; auto.
Qed.
Lemma fine_matches rule vs assigned original ms :
  Forall fine_variant vs → policyAllocationMatches rule vs assigned original = Ok ms →
  Forall (λ m, fine_variant (pm_match m)) ms.
Proof.
  intros F. revert ms. induction F as [|v vs FV F IH]; intros ms M; [injection M as <-; constructor|].
  apply matches_cons in M as (a & b & A & B & ->). apply Forall_app. split; [|by apply IH]. clear IH B F.
  assert (D : ∀ ports ambiguous path, Forall (λ m, fine_variant (pm_match m)) (direct_matches v ports ambiguous path)).
  { intros ports ambiguous path. unfold direct_matches. apply Forall_app.
    split; case_bool_decide; try constructor; done || constructor. }
  cbn in A. destruct (_ || _); [injection A as <-; repeat (constructor; [done|]); constructor|].
  destruct (bool_decide _); [injection A as <-; repeat (constructor; [done|]); constructor|].
  destruct (directAllocationPorts v assigned) as [[ports ambiguous]|]; cbn in A; [|done]. injection A as <-.
  rewrite app_nil_r. constructor; [done|]. apply Forall_app. split; [done|]. case_match; [constructor | done].
Qed.

(** ** The whole document *)

Definition fine_object (table : string) (o : nft_object) : Prop :=
  match o with
  | NTable n c => ValidUTF8 n = true ∧ ValidUTF8 c = true
  | NChain t c h => t = table ∧ ValidUTF8 c = true ∧ from_option (λ h, ValidUTF8 (hk_hook h) = true) True h
  | NRule t c e => t = table ∧ ValidUTF8 c = true ∧ fine_rule e
  end.
Abbreviation fine_doc table d := (Forall (fine_object table) d).

Section Documents.
Variable table : string.

Lemma fine_add chain e d : ValidUTF8 chain = true → fine_rule e → fine_doc table d → fine_doc table (addRule table chain e d).
Proof. intros C E D. apply Forall_app. split; [done|]. by apply list.Forall_singleton. Qed.
Lemma fine_map chain rs d :
  ValidUTF8 chain = true → Forall fine_rule rs → fine_doc table d → fine_doc table (d ++ map (NRule table chain) rs).
Proof.
  intros C R D. apply Forall_app. split; [done|]. apply list.Forall_forall. intros o I.
  apply list_elem_of_fmap in I as (e & -> & I). rewrite list.Forall_forall in R. cbn. auto.
Qed.
Lemma fine_match_rules chain rule proto original l d d' :
  ValidUTF8 chain = true → is_l4 proto → Forall (λ m, fine_variant (pm_match m)) l → fine_doc table d →
  match_rules table chain rule proto original l d = Ok d' → fine_doc table d'.
Proof.
  intros C L V. revert d. induction V as [|m l VM V IH]; intros d D M; cbn [match_rules] in M; [by injection M as <-|].
  destruct (cidr_stmts rule m original) as [[peer|]|] eqn:P; cbn [mbind result_bind] in M; [| |done]; eapply IH; [|exact M| |exact M]; [|done].
  apply fine_add; [done| |done]. by apply fine_policy_rule.
Qed.
Lemma fine_proto p rule assigned (original : bool) proto d b d' b' :
  ru_Direction rule = "outbound"%string ∨ ru_Direction rule = "inbound"%string → is_l4 proto → fine_doc table d →
  add_proto_rules table p rule assigned original proto (d, b) = Ok (d', b') → fine_doc table d'.
Proof.
  intros DR L D. unfold add_proto_rules. destruct (_ && _); [by intros [= <- <-]|].
  set (chain := if original then _ else _).
  assert (C : ValidUTF8 chain = true) by (unfold chain; destruct original, DR as [-> | ->]; done).
  destruct (ru_GroupID rule) as [g|].
  - destruct (resolvedMatches p g proto assigned) as [vs|] eqn:R; cbn [mbind result_bind]; [|done].
    destruct (bool_decide (vs = [])); [by intros [= <- <-]|].
    destruct (spend vs b); cbn [mbind result_bind]; [|done].
    destruct (if bool_decide _ then _ else _) as [[]|]; cbn [mbind result_bind]; [|done].
    destruct (policyAllocationMatches _ _ _ _) as [ms|] eqn:PA; cbn [mbind result_bind]; [|done].
    destruct (match_rules _ _ _ _ _ _ _) as [d1|] eqn:M; cbn [mbind result_bind]; [|done].
    intros [= <- <-]. eapply fine_match_rules; [done|done| |done|exact M]. eapply fine_matches; [|done]. by eapply fine_variants.
  - destruct (policyAllocationMatches _ _ _ _) as [ms|] eqn:PA; cbn [mbind result_bind]; [|done].
    destruct (match_rules _ _ _ _ _ _ _) as [d1|] eqn:M; cbn [mbind result_bind]; [|done].
    intros [= <- <-]. eapply fine_match_rules; [done|done| |done|exact M]. eapply fine_matches; [|done].
    apply list.Forall_singleton. split; [by left | constructor].
Qed.
Lemma fine_rules direction p assigned rules d b d' b' :
  direction = "outbound"%string ∨ direction = "inbound"%string → fine_doc table d →
  add_rules table direction p assigned rules (d, b) = Ok (d', b') → fine_doc table d'.
Proof.
  intros DI. revert d b. induction rules as [|rule rules IH]; intros d b D A; cbn [add_rules] in A; [by injection A as <- <-|].
  case_bool_decide as E; [|by eapply IH]. rewrite <- E in DI.
  assert (P : ∀ original d b d' b', fine_doc table d → addPolicyRule table p rule assigned original (d, b) = Ok (d', b') → fine_doc table d').
  { clear - DI. intros original d b d' b' D. unfold addPolicyRule.
    destruct (add_proto_rules _ _ _ _ _ "tcp" _) as [[d1 b1]|] eqn:T; cbn [mbind result_bind]; [|done]. intros U.
    eapply fine_proto; [done|by right| |exact U]. eapply fine_proto; [done|by left| |exact T]. done. }
  destruct (addPolicyRule _ _ _ _ false _) as [[d1 b1]|] eqn:T1; cbn [mbind result_bind] in A; [|done].
  destruct (addPolicyRule _ _ _ _ true _) as [[d2 b2]|] eqn:T2; cbn [mbind result_bind] in A; [|done].
  rewrite E in *. eapply IH; [|exact A]. eapply P; [|exact T2]. by eapply P; [|exact T1].
Qed.

Variable bridge : string.
Hypothesis bridge_utf8 : ValidUTF8 bridge = true.

Lemma fine_verdict ms a : Forall fine ms → a = "return"%string ∨ a = "drop"%string → fine_rule (ms ++ [Verdict a]).
Proof. intros M A. apply fine_action; [done|done|]. by destruct A as [-> | ->]. Qed.
Lemma fine_l4 t : ValidUTF8 t = true → fine (l4proto t).
Proof. intros U. apply fine_text; try done; [by left | by constructor]. Qed.
Lemma fine_fragments : Forall (λ e, ∃ ms, e = ms ++ [Verdict "drop"%string] ∧ Forall fine ms) fragment_rules.
Proof.
  assert (B : fine (match_ne (BitAnd (Payload "ip" "frag-off") (SInt 16383)) (RScalar (SInt 0)))).
  { apply fine_match; try done; [by right | by constructor | by constructor]. }
  assert (X : fine (match_ (Exthdr "frag") (RScalar (SBool true)))).
  { apply fine_match; try done; [by left | by constructor | by constructor]. }
  apply list.Forall_cons. split; [|apply list.Forall_singleton]; (eexists [_; _]; split; [done|]);
    (apply list.Forall_cons; split; [by apply fine_ether | by apply list.Forall_singleton]).
Qed.
Lemma fine_enabled d : fine_doc table d → fine_doc table (enabled_chains table bridge d).
Proof.
  intros D. unfold enabled_chains. rewrite !Forall_app. split; [done|]. split; [|split].
  - by apply list.Forall_singleton.
  - apply list.Forall_forall. intros o I. apply list_elem_of_fmap in I as (e & -> & I).
    pose proof fine_fragments as F. rewrite list.Forall_forall in F. destruct (F e I) as (ms & -> & M).
    cbn [fine_object]. split; [done|]. split; [done|]. rewrite app_comm_cons. apply fine_verdict; [|by right].
    apply list.Forall_cons. split; [|done]. apply fine_text; try done; [by left | by constructor].
  - by repeat (apply list.Forall_cons; split; [done|]).
Qed.
Lemma fine_chains direction d :
  direction = "outbound"%string ∨ direction = "inbound"%string → fine_doc table d →
  fine_doc table (direction_chains table bridge direction d).
Proof.
  intros DI D. unfold direction_chains. apply Forall_app. split; [done|].
  assert (R : ∀ key, ValidUTF8 key = true → fine_rule [match_ (Meta key) (RScalar (SStr bridge)); Jump direction]).
  { intros key K. apply (fine_action [_] (Jump direction)); [|done|by destruct DI as [-> | ->]]. apply list.Forall_singleton.
    apply fine_text; try done; [by left | by constructor|]. cbn [left_json]. unfold obj1. cbn [json_utf8 forallb fst snd]. by rewrite K. }
  destruct DI as [-> | ->]; repeat (apply list.Forall_cons; split); try done; cbn; (split; [done|]; split; [done|]; by apply R).
Qed.
Lemma fine_control : Forall fine_rule control_rules.
Proof.
  unfold control_rules. apply list.Forall_cons. split; [|apply Forall_app; split].
  - apply (fine_verdict [_]); [|by left]. by apply list.Forall_singleton, fine_ether.
  - pose proof fine_fragments as F. eapply list.Forall_impl; [exact F|]. intros e (ms & -> & M). apply fine_verdict; auto.
  - apply list.Forall_singleton. apply (fine_verdict [_; _; _; _]); [|by left].
    apply list.Forall_cons. split; [by apply fine_ether|]. apply list.Forall_cons. split; [by apply fine_l4|].
    apply list.Forall_cons. split; [|apply list.Forall_singleton].
    + apply fine_match; try done; [by left | by constructor | by constructor].
    + apply fine_texts; try done; [by constructor|]. by repeat (apply list.Forall_cons; split; [done|]).
Qed.
Lemma fine_families ms t :
  Forall fine ms → action t → json_utf8 (stmt_json t) = true → fine_rule (match_ ether_type (strings ["ip"; "ip6"]%string) :: ms ++ [t]).
Proof.
  intros M A U. rewrite app_comm_cons. apply fine_action; [|done|done]. apply list.Forall_cons. split; [|done].
  apply fine_texts; try done; [by constructor|]. by repeat (apply list.Forall_cons; split; [done|]).
Qed.
Lemma fine_ct key t : json_utf8 (left_json (CtKey key)) = true → ValidUTF8 t = true → fine (match_ (CtKey key) (RScalar (SStr t))).
Proof. intros U T. apply fine_text; try done; [by left | by constructor]. Qed.
Lemma fine_replies direction d :
  direction = "outbound"%string ∨ direction = "inbound"%string → fine_doc table d →
  fine_doc table (addRelatedICMPRules table direction (addEstablishedReplies table direction d)).
Proof.
  intros DI D. unfold addRelatedICMPRules.
  assert (UD : ValidUTF8 direction = true) by (destruct DI as [-> | ->]; done).
  assert (UG : ∀ c, c = direction ∨ c = opposite direction → json_utf8 (stmt_json (Goto (origin_chain c))) = true).
  { intros c [-> | ->]; destruct DI as [-> | ->]; done. }
  assert (R : ∀ way d, (way = "reply"%string ∨ way = "original"%string) → fine_doc table d → fine_doc table (related_rules table direction way d)).
  { clear D d. intros way d W D. unfold related_rules.
    set (origin := if bool_decide (way = "reply"%string) then opposite direction else direction).
    assert (UO : json_utf8 (stmt_json (Goto (origin_chain origin))) = true) by (apply UG; unfold origin; case_bool_decide; auto).
    assert (UW : ValidUTF8 way = true) by (by destruct W as [-> | ->]).
    assert (IC : ∀ ether l4 proto ts, ValidUTF8 ether = true → ValidUTF8 l4 = true → proto = "icmp"%string ∨ proto = "icmpv6"%string →
              Forall (λ t, ValidUTF8 t = true) ts →
              fine_rule ([is_ether ether; l4proto l4; match_ (Payload proto "type") (strings ts)]
                ++ [match_ (CtKey "state") (RScalar (SStr "related")); match_ (CtKey "direction") (RScalar (SStr way)); Goto (origin_chain origin)])).
    { intros ether l4 proto ts UE UL P UT. apply (fine_action [_; _; _; _; _]); [|done|done].
      apply list.Forall_cons. split; [by apply fine_ether|]. apply list.Forall_cons. split; [by apply fine_l4|].
      apply list.Forall_cons. split; [destruct P as [-> | ->]; apply fine_texts; done || by constructor|].
      apply list.Forall_cons. split; [by apply fine_ct|]. apply list.Forall_singleton. by apply fine_ct. }
    apply fine_add; [done| |apply fine_add; [done| |done]]; apply IC; try done; auto; by repeat (apply list.Forall_cons; split; [done|]). }
  apply R; [by left|]. apply R; [by right|]. apply fine_add; [done| |done].
  apply (fine_families [_; _; _; _]); [|done|apply UG; by right].
  apply list.Forall_cons. split.
  { apply fine_texts; try done; [by constructor|]. by repeat (apply list.Forall_cons; split; [done|]). }
  apply list.Forall_cons. split; [by apply fine_ct|]. apply list.Forall_cons. split; [by apply fine_ct|].
  apply list.Forall_singleton. apply fine_text; try done; [by left | apply gl_status].
Qed.
Lemma fine_fallback chain action d :
  ValidUTF8 chain = true → fine_doc table d → fine_doc table (add_fallback table chain action d).
Proof.
  intros C D. unfold add_fallback. apply fine_add; [done|apply (fine_verdict []); [constructor|by right]|].
  case_bool_decide; [|done]. apply fine_add; [done| |done].
  apply (fine_families []); [constructor | by left | done].
Qed.
Lemma fine_direction p assigned gate rules direction d b d' b' :
  direction = "outbound"%string ∨ direction = "inbound"%string → fine_doc table d →
  compile_direction table bridge p assigned gate rules direction (d, b) = Ok (d', b') → fine_doc table d'.
Proof.
  intros DI D. unfold compile_direction. cbn [fst snd].
  assert (UD : ValidUTF8 direction = true ∧ ValidUTF8 (origin_chain direction) = true) by (destruct DI as [-> | ->]; done).
  destruct UD as [UD UO]. pose proof (fine_chains direction d DI D) as D1.
  assert (S : ∀ v, v = "return"%string ∨ v = "drop"%string → fine_doc table (addRule table direction [Verdict v] (direction_chains table bridge direction d))).
  { intros v V. apply fine_add; [done| |done]. apply (fine_verdict []); [constructor | done]. }
  destruct gate; [intros [= <- <-]; apply S; by right|].
  destruct (negb _); [intros [= <- <-]; apply S; by left|].
  destruct (add_rules _ _ _ _ _ _) as [[d2 b2]|] eqn:A; cbn [mbind result_bind]; [|done]. intros [= <- <-].
  apply fine_fallback; [done|]. apply fine_fallback; [done|]. apply fine_replies; [done|].
  eapply fine_rules; [done| |exact A]. apply fine_map; [done|apply fine_control|done].
Qed.
End Documents.

Lemma compiled_fine `{UUIDs} id p assigned gate d net bridge table :
  Names id = Some (net, bridge, table) → ValidUTF8 bridge = true → ValidUTF8 table = true →
  ValidUTF8 (ownerPrefix +:+ id) = true → compileRuleset id p assigned gate = Ok d → fine_doc table d.
Proof.
  intros NM UB UT UC. unfold compileRuleset. rewrite NM.
  assert (D0 : fine_doc table [NTable table (ownerPrefix +:+ id)]) by (by apply list.Forall_singleton).
  set (enabled := negb gate && _). set (d0 := if enabled then enabled_chains _ _ _ else _).
  assert (D1 : fine_doc table d0) by (unfold d0; destruct enabled; [by apply fine_enabled | done]).
  destruct (compile_direction _ _ _ _ _ _ "outbound" _) as [[d1 b1]|] eqn:C1; cbn [mbind result_bind]; [|done].
  destruct (compile_direction _ _ _ _ _ _ "inbound" _) as [[d2 b2]|] eqn:C2; cbn [mbind result_bind]; [|done].
  intros [= <-]. cbn [fst]. eapply fine_direction; [exact UB|by right| |exact C2]. eapply fine_direction; [exact UB|by left| |exact C1]. done.
Qed.
