(* ===== verification/NftVerify.v ===== *)
(** * A verified firewall decides as the policy does

    [VerifyFirewall] compares the normal forms of the live listing and of the compiled
    document.  Equal normal forms mean the same chains with the same rules in the same
    order, so a listing that passes decides every packet the way the policy says. *)

From stdpp Require Import base gmap sets list strings numbers sorting.
From Stdlib Require Import Ascii.
From S2P Require Import Prelude GoStrings Policy CanonicalFacts Nft NftFacts NftWf AddrText Store StoreFacts NftState NftEval NftImplied NftLink NftGood.
Open Scope Z_scope.

Section Grouping.
Context `{JSON}.

(** ** Normal forms of objects *)

Lemma listed_normal e : listed (normalizeNft e) = listed e.
Proof.
  unfold listed, nftMatch. rewrite mobj_normal by done. destruct (mobj "match" e) as [m|]; [|done].
  cbn [fmap option_fmap option_map]. rewrite single_normal, mobj_normal by done.
  assert (S : ∀ v, bool_decide (is_Some (normal_member <$> single v)) = bool_decide (is_Some (single v))).
  { intros v. apply bool_decide_ext. by rewrite fmap_is_Some. }
  rewrite S. destruct (mobj "left" m) as [lhs|]; [|done]. cbn [fmap option_fmap option_map].
  rewrite single_normal, S. do 2 f_equal. f_equal. unfold masks_type. rewrite mget_normal by done.
  destruct (mget "&" lhs) as [x|]; [|done]. cbn [fmap option_fmap option_map].
  rewrite (array_normal (λ l, match l with [e; _] => bool_decide ((p ← mobj "payload" e; mstr "protocol" p) = Some "ether"%string) | _ => false end) false).
  destruct x as [| | | |[|a [|b []]]|]; try done. cbn [map]. apply bool_decide_ext. rewrite mobj_normal by done.
  destruct (mobj "payload" a); [|done]. cbn [fmap option_fmap option_map mbind option_bind]. by rewrite mstr_normal.
Qed.

(** The rule as it is compared. *)
Definition normal_rule (r : json) : json := normalizeNftRule (normalizeNft r).
Definition normal_exprs (es : list json) : list json := normalize_expressions (map normalizeNft es).

Lemma field_map_set k k' v l : k ≠ k' → field k (map_set k' v l) = field k l.
Proof.
  intros N. induction l as [|[k1 v1] l IH]; cbn [map_set field].
  - by rewrite (proj2 (String.eqb_neq k' k)).
  - destruct (String.eqb_spec k' k1) as [<-|N1].
    + cbn [field]. by rewrite (proj2 (String.eqb_neq k' k)).
    + destruct (str_leb k' k1); cbn [field]; [by rewrite (proj2 (String.eqb_neq k' k))|]. by rewrite IH.
Qed.
Lemma field_set_same k v l : field k (map_set k v l) = Some v.
Proof.
  induction l as [|[k1 v1] l IH]; cbn [map_set field]; [by rewrite String.eqb_refl|].
  destruct (String.eqb_spec k k1) as [<-|N]; cbn [field]; [by rewrite String.eqb_refl|].
  destruct (str_leb k k1); cbn [field]; [by rewrite String.eqb_refl|].
  by rewrite (proj2 (String.eqb_neq k1 k)).
Qed.
Lemma mget_rule k r : k ≠ "expr"%string → mget k (normalizeNftRule r) = mget k r.
Proof.
  intros N. unfold normalizeNftRule. destruct r; try done. destruct (mget "expr" _) as [[]|]; try done.
  cbn [mget]. by apply field_map_set.
Qed.
Lemma key_rule r : nftObjectKey (normalizeNftRule r) = nftObjectKey r.
Proof. unfold nftObjectKey, mstr. by rewrite !mget_rule. Qed.
Lemma key_normal v : nftObjectKey (normalizeNft v) = nftObjectKey v.
Proof. unfold nftObjectKey. by rewrite !mstr_normal. Qed.
Lemma exprs_normal r : rule_exprs (normal_rule r) = normal_exprs (rule_exprs r).
Proof.
  unfold normal_rule, normal_exprs, rule_exprs.
  assert (E : ∀ v, match mget "expr" (normalizeNftRule v) with Some (JArr es) => es | _ => [] end
              = normalize_expressions (match mget "expr" v with Some (JArr es) => es | _ => [] end)).
  { intros v. unfold normalizeNftRule. destruct v as [| | | | |l]; try done.
    destruct (mget "expr" (JObj l)) as [[]|] eqn:G; rewrite ?G; try done. cbn [mget]. by rewrite field_set_same. }
  rewrite E. f_equal. rewrite mget_normal by done. destruct (mget "expr" r) as [x|]; [|done].
  cbn [fmap option_fmap option_map]. rewrite (array_normal (λ l, l) []). by destruct x.
Qed.

(** An object of the listing, by kind. *)
Definition kind_of (o : json) : option (string * json) :=
  match o with JObj [(kind, JObj l)] => Some (kind, JObj l) | _ => None end.
Definition kind_raw (o : json) : option (string * json) :=
  match o with
  | JObj l => match delete_key "handle" l with [(name, JObj x)] => Some (name, JObj x) | _ => None end
  | _ => None
  end.
Lemma object_raw kind o : object_of kind o = '(name, x) ← kind_raw o; if (name =? kind)%string then Some x else None.
Proof.
  unfold object_of, kind_raw. destruct o; try done. destruct (delete_key "handle" l) as [|[name []] []]; done.
Qed.
Lemma kind_normal o : kind_of (normalizeNft o) = (λ m, (fst m, normalizeNft (snd m))) <$> kind_raw o.
Proof.
  destruct o as [| | | | |l]; try done. cbn [normalizeNft kind_raw]. rewrite delete_map.
  destruct (delete_key "handle" l) as [|[name x] [|m2 l2]]; [done| |].
  - cbn [map fst snd]. unfold sort_set. pose proof (is_obj_normal x) as O.
    destruct x as [| | | |items|lx]; try done.
    + cbn [normalizeNft]. by destruct (_ && _).
    + cbn [fmap option_fmap option_map fst snd] in *. by destruct (normalizeNft (JObj lx)).
  - cbn [map fst snd]. unfold sort_set. destruct (normalizeNft x); by destruct x.
Qed.

(** ** Grouping *)

Definition rule_of (key : string) (o : json) : option json :=
  '(kind, x) ← kind_of o;
  if (kind =? "rule")%string then
    let r := normalizeNftRule x in if bool_decide (nftObjectKey r = Some key) then Some r else None
  else None.
Definition chain_of (o : json) : option json :=
  '(kind, x) ← kind_of o; if (kind =? "chain")%string then Some x else None.
(** The rules grouped under a key. *)
Fixpoint rules_for (key : string) (cs : list nftChainState) : list json :=
  match cs with [] => [] | c :: cs' => if (cs_key c =? key)%string then cs_Rules c else rules_for key cs' end.

Record grouped (g : nftTableState) : Prop := {
  gr_keys : NoDup (cs_key <$> ts_Chains g);
  gr_chain c : c ∈ ts_Chains g → nftObjectKey (cs_Chain c) = Some (cs_key c);
}.

Lemma rules_for_absent key cs : key ∉ cs_key <$> cs → rules_for key cs = [].
Proof.
  induction cs as [|c cs IH]; [done|]. cbn. intros N. destruct (String.eqb_spec (cs_key c) key); [set_solver|]. set_solver.
Qed.
Lemma append_rule_spec key rule cs cs' :
  append_rule key rule cs = Some cs' →
  cs_key <$> cs' = cs_key <$> cs ∧ cs_Chain <$> cs' = cs_Chain <$> cs
  ∧ (∀ c', c' ∈ cs' → ∃ c, c ∈ cs ∧ cs_key c' = cs_key c ∧ cs_Chain c' = cs_Chain c)
  ∧ ∀ k, rules_for k cs' = rules_for k cs ++ (if (key =? k)%string then [rule] else []).
Proof.
  revert cs'. induction cs as [|c cs IH]; intros cs' A; cbn [append_rule] in A; [done|].
  destruct (String.eqb_spec (cs_key c) key) as [E|N].
  - injection A as <-. cbn. repeat split; try done.
    + intros c' [->|I]%elem_of_cons; [exists c; set_solver | exists c'; set_solver].
    + intros k. rewrite E. destruct (key =? k)%string; [done|]. by rewrite app_nil_r.
  - destruct (append_rule key rule cs) as [cs1|]; [|done]. injection A as <-.
    destruct (IH cs1 eq_refl) as (K & C & M & R). cbn. rewrite K, C. repeat split; try done.
    + intros c' [->|I]%elem_of_cons; [exists c; set_solver|]. destruct (M c' I) as (c0 & I0 & ?). exists c0. set_solver.
    + intros k. destruct (String.eqb_spec (cs_key c) k) as [E|]; [|apply R].
      destruct (String.eqb_spec key k); [congruence | by rewrite app_nil_r].
Qed.
Lemma group_object_spec o g g' :
  grouped g → group_object o g = Some g' →
  grouped g' ∧ cs_Chain <$> ts_Chains g' = (cs_Chain <$> ts_Chains g) ++ option_list (chain_of o)
  ∧ ∀ k, rules_for k (ts_Chains g') = rules_for k (ts_Chains g) ++ option_list (rule_of k o).
Proof.
  intros G A. unfold group_object, chain_of, rule_of, kind_of in *.
  destruct o as [| | | | |[|[kind [| | | | |l]] []]]; try done. cbn [mbind option_bind].
  destruct (String.eqb_spec kind "table") as [->|NT].
  { injection A as <-. cbn. rewrite !app_nil_r. split; [split; apply G|]. split; [done|]. intros k. by rewrite app_nil_r. }
  destruct (String.eqb_spec kind "chain") as [->|NC].
  - destruct (nftObjectKey (JObj l)) as [key|] eqn:K; [|done]. cbn [mbind option_bind] in A.
    case_bool_decide as D; [done|]. injection A as <-. cbn [ts_Chains]. rewrite fmap_app. cbn. split; [|split].
    + split; cbn [ts_Chains].
      * rewrite fmap_app. cbn. apply NoDup_app. split; [apply G|]. split; [set_solver|]. apply NoDup_singleton.
      * intros c [I|I]%elem_of_app; [by apply (gr_chain _ G)|]. by apply list_elem_of_singleton in I as ->.
    + done.
    + intros k. rewrite app_nil_r. revert D. induction (ts_Chains g) as [|c cs IH]; intros D; cbn.
      * by destruct (key =? k)%string.
      * destruct (cs_key c =? k)%string; [done|]. apply IH. set_solver.
  - destruct (String.eqb_spec kind "rule") as [->|NR]; [|done].
    destruct (nftObjectKey (normalizeNftRule (JObj l))) as [key|] eqn:K; [|done]. cbn [mbind option_bind] in A.
    destruct (append_rule key _ (ts_Chains g)) as [cs|] eqn:AR; [|done]. cbn [mbind option_bind] in A. injection A as <-.
    destruct (append_rule_spec _ _ _ _ AR) as (EK & EC & M & R). cbn [ts_Chains]. rewrite EC, app_nil_r. split; [|split].
    + split; cbn [ts_Chains]; [rewrite EK; apply G|]. intros c' I. destruct (M c' I) as (c & I0 & -> & ->).
      by apply (gr_chain _ G).
    + done.
    + intros k. rewrite R. f_equal. change ("rule" =? "rule")%string with true. cbn iota.
      destruct (String.eqb_spec key k) as [->|N]; [by rewrite bool_decide_eq_true_2|].
      rewrite bool_decide_eq_false_2; [done | congruence].
Qed.
Lemma group_objects_spec os : ∀ g g', grouped g → group_objects os g = Some g' →
  grouped g' ∧ cs_Chain <$> ts_Chains g' = (cs_Chain <$> ts_Chains g) ++ omap chain_of os
  ∧ ∀ k, rules_for k (ts_Chains g') = rules_for k (ts_Chains g) ++ omap (rule_of k) os.
Proof.
  induction os as [|o os IH]; intros g g' G A; cbn [group_objects] in A.
  - injection A as <-. cbn. rewrite app_nil_r. split; [done|]. split; [done|]. intros k. by rewrite app_nil_r.
  - destruct (group_object o g) as [g1|] eqn:O; [|done]. cbn [mbind option_bind] in A.
    destruct (group_object_spec _ _ _ G O) as (G1 & C1 & R1). destruct (IH _ _ G1 A) as (G2 & C2 & R2).
    split; [done|]. split.
    + rewrite C2, C1, <- app_assoc. f_equal. cbn. by destruct (chain_of o).
    + intros k. rewrite R2, R1, <- app_assoc. f_equal. cbn. by destruct (rule_of k o).
Qed.

(** ** Equal normal forms *)

Definition all_utf8 (os : list json) : Prop := Forall (λ o, json_utf8 o = true) os.
Lemma all_utf8_spec os : all_utf8 os ↔ forallb json_utf8 os = true.
Proof. unfold all_utf8. rewrite list.Forall_forall, forallb_forall. by setoid_rewrite list_elem_of_In. Qed.
Lemma members_utf8 l :
  json_utf8 (JObj l) = true ↔ Forall (λ m, ValidUTF8 (fst m) = true ∧ json_utf8 (snd m) = true) l.
Proof.
  cbn [json_utf8]. rewrite forallb_forall, list.Forall_forall. setoid_rewrite list_elem_of_In.
  by setoid_rewrite andb_true_iff.
Qed.
Lemma utf8_normal v : json_utf8 v = true → json_utf8 (normalizeNft v) = true.
Proof.
  induction v as [| | | |l IH|l IH] using json_rect_nested; try done.
  - cbn [json_utf8 normalizeNft]. rewrite !forallb_forall. intros U x I. apply in_map_iff in I as (y & <- & I).
    rewrite list.Forall_forall in IH. apply IH; [by apply list_elem_of_In | by apply U].
  - rewrite members_utf8. intros U. cbn [normalizeNft].
    set (l' := delete_key "handle" (map (λ m, (fst m, normalizeNft (snd m))) l)).
    assert (U' : json_utf8 (JObj l') = true).
    { apply members_utf8, list.Forall_forall. intros m I. apply list_elem_of_In in I. unfold l', delete_key in I.
      apply filter_In in I as [I _]. apply in_map_iff in I as (m0 & <- & I). apply list_elem_of_In in I.
      rewrite list.Forall_forall in IH, U. cbn [fst snd]. destruct (U m0 I). split; [done|]. by apply IH. }
    unfold sort_set. destruct l' as [|[k []] []]; try done. destruct (_ && _); [|done].
    apply members_utf8. apply members_utf8 in U'. apply list.Forall_cons in U' as [[K I] _].
    apply list.Forall_singleton. split; [done|]. cbn [snd json_utf8] in *. rewrite <- all_utf8_spec in *.
    unfold all_utf8 in *. by rewrite merge_sort_Permutation.
Qed.
Lemma map_set_utf8 k v l :
  ValidUTF8 k = true → json_utf8 v = true → json_utf8 (JObj l) = true → json_utf8 (JObj (map_set k v l)) = true.
Proof.
  rewrite !members_utf8. intros K V. induction 1 as [|[k1 v1] l M F IH]; cbn [map_set].
  - by apply list.Forall_singleton.
  - repeat case_match; repeat (apply list.Forall_cons; split); done.
Qed.
Lemma utf8_rule r : json_utf8 r = true → json_utf8 (normalizeNftRule r) = true.
Proof.
  intros U. unfold normalizeNftRule. destruct r as [| | | | |l]; try done. destruct (mget "expr" (JObj l)) as [[]|] eqn:E; try done.
  apply map_set_utf8; [done| |done]. cbn [json_utf8].
  assert (U' : json_utf8 (JArr l0) = true).
  { apply members_utf8 in U. cbn [mget] in E. clear - U E. induction l as [|[k x] l IH]; [done|].
    apply list.Forall_cons in U as [[_ U] F]. cbn [field] in E. case_match; [by injection E as ->|by apply IH]. }
  cbn [json_utf8] in U'. rewrite forallb_forall in U' |- *. intros x I. unfold normalize_expressions in I.
  apply filter_In in I as [I _]. by apply U'.
Qed.

Definition state_utf8 (g : nftTableState) : Prop :=
  all_utf8 (ts_Tables g) ∧ Forall (λ c, json_utf8 (cs_Chain c) = true ∧ all_utf8 (cs_Rules c)) (ts_Chains g).
Lemma append_utf8 key rule cs cs' :
  json_utf8 rule = true → append_rule key rule cs = Some cs' →
  Forall (λ c, json_utf8 (cs_Chain c) = true ∧ all_utf8 (cs_Rules c)) cs →
  Forall (λ c, json_utf8 (cs_Chain c) = true ∧ all_utf8 (cs_Rules c)) cs'.
Proof.
  intros R. revert cs'. induction cs as [|c cs IH]; intros cs' A F; cbn [append_rule] in A; [done|].
  apply list.Forall_cons in F as [[C RS] F]. destruct (cs_key c =? key)%string.
  - injection A as <-. apply list.Forall_cons. split; [|done]. split; [done|]. cbn. apply Forall_app. split; [done|].
    by apply list.Forall_singleton.
  - destruct (append_rule key rule cs) as [cs1|]; [|done]. injection A as <-. apply list.Forall_cons. split; [done|]. by apply IH.
Qed.
Lemma group_utf8 os : ∀ g g', all_utf8 os → state_utf8 g → group_objects os g = Some g' → state_utf8 g'.
Proof.
  induction os as [|o os IH]; intros g g' U S A; cbn [group_objects] in A; [by injection A as <-|].
  apply list.Forall_cons in U as [UO U]. destruct (group_object o g) as [g1|] eqn:O; [|done]. cbn [mbind option_bind] in A.
  apply (IH g1); [done| |done]. clear IH A. unfold group_object in O.
  destruct o as [| | | | |[|[kind [| | | | |l]] []]]; try done.
  assert (UL : json_utf8 (JObj l) = true).
  { apply members_utf8 in UO. apply list.Forall_cons in UO as [[_ UO] _]. done. }
  destruct S as [ST SC]. destruct (kind =? "table")%string.
  { injection O as <-. split; [|done]. cbn. apply Forall_app. split; [done|]. by apply list.Forall_singleton. }
  destruct (kind =? "chain")%string.
  { destruct (nftObjectKey _); [|done]. cbn [mbind option_bind] in O. case_match; [done|]. injection O as <-.
    split; [done|]. cbn. apply Forall_app. split; [done|]. apply list.Forall_singleton. split; [done|]. by constructor. }
  destruct (kind =? "rule")%string; [|done]. destruct (nftObjectKey _); [|done]. cbn [mbind option_bind] in O.
  destruct (append_rule _ _ _) eqn:AR; [|done]. injection O as <-. split; [done|]. cbn.
  eapply append_utf8; [|exact AR|done]. by apply utf8_rule.
Qed.
Lemma state_json_utf8 g : state_utf8 g → json_utf8 (table_state_json g) = true.
Proof.
  intros [T C]. unfold table_state_json. apply members_utf8. repeat (apply list.Forall_cons; split); [..|done].
  - split; [done|]. cbn [snd json_utf8]. by apply all_utf8_spec.
  - split; [done|]. cbn [snd json_utf8]. apply forallb_forall. intros x I. apply in_map_iff in I as (c & <- & I).
    apply list_elem_of_In in I. rewrite merge_sort_Permutation in I. rewrite list.Forall_forall in C. destruct (C c I) as [CC CR].
    apply members_utf8. repeat (apply list.Forall_cons; split); [done| |done]. split; [done|].
    cbn [snd json_utf8]. by apply all_utf8_spec.
Qed.

Lemma rules_for_perm k cs cs' : cs ≡ₚ cs' → NoDup (cs_key <$> cs) → rules_for k cs = rules_for k cs'.
Proof.
  induction 1 as [|c l1 l2 P IH|c1 c2 l|l1 l2 l3 P1 IH1 P2 IH2]; intros N; cbn [rules_for].
  - done.
  - cbn in N. apply list.NoDup_cons in N as [_ N]. by rewrite IH.
  - cbn in N. apply list.NoDup_cons in N as [N _].
    destruct (String.eqb_spec (cs_key c1) k), (String.eqb_spec (cs_key c2) k); try done. set_solver.
  - rewrite IH1 by done. apply IH2. by rewrite <- P1.
Qed.
Lemma empty_grouped : grouped (mkTableState [] []).
Proof. split; [apply NoDup_nil_2 | intros c I; by apply not_elem_of_nil in I]. Qed.

(** The chains and rules that are compared. *)
Definition chains_in (os : list json) : list json := omap (object_of "chain") os.
Lemma rules_normal k os : omap (rule_of k) (map normalizeNft os) = normal_rule <$> rules_in os k.
Proof.
  induction os as [|o os IH]; [done|]. unfold rules_in in *. cbn [map omap list_omap]. rewrite IH. unfold rule_of.
  rewrite kind_normal, object_raw. destruct (kind_raw o) as [[kind x]|]; [|done]. cbn [fmap option_fmap option_map mbind option_bind].
  cbn [fst snd]. destruct (kind =? "rule")%string; [|done]. rewrite key_rule, key_normal. cbn [mbind option_bind].
  by destruct (bool_decide _).
Qed.
Lemma chains_normal os : omap chain_of (map normalizeNft os) = normalizeNft <$> chains_in os.
Proof.
  induction os as [|o os IH]; [done|]. unfold chains_in in *. cbn [map omap list_omap]. rewrite IH. unfold chain_of.
  rewrite kind_normal, object_raw. destruct (kind_raw o) as [[kind x]|]; [|done]. cbn [fmap option_fmap option_map mbind option_bind].
  cbn [fst snd]. by destruct (kind =? "chain")%string.
Qed.
Lemma chain_states_inj l1 l2 :
  (∀ c, c ∈ l1 → nftObjectKey (cs_Chain c) = Some (cs_key c)) → (∀ c, c ∈ l2 → nftObjectKey (cs_Chain c) = Some (cs_key c)) →
  map chain_state_json l1 = map chain_state_json l2 → l1 = l2.
Proof.
  revert l2. induction l1 as [|c1 l1 IH]; intros [|c2 l2] K1 K2 E; try done. cbn [map] in E.
  injection E as EC ER E. f_equal.
  - pose proof (K1 c1 ltac:(set_solver)) as A. pose proof (K2 c2 ltac:(set_solver)) as B.
    destruct c1, c2; cbn in *. congruence.
  - apply IH; [set_solver..|done].
Qed.

Lemma canonical_same `{!JSONLaws} os rs state :
  all_utf8 os → all_utf8 rs → canonicalNftState os = Some state → canonicalNftState rs = Some state →
  (∀ k, normal_rule <$> rules_in os k = normal_rule <$> rules_in rs k)
  ∧ normalizeNft <$> chains_in os ≡ₚ normalizeNft <$> chains_in rs.
Proof.
  intros U1 U2 C1 C2. unfold canonicalNftState in *.
  destruct (group_objects (map normalizeNft os) _) as [g1|] eqn:G1; [|done].
  destruct (group_objects (map normalizeNft rs) _) as [g2|] eqn:G2; [|done]. cbn [mbind option_bind] in C1, C2.
  assert (N : ∀ l, all_utf8 l → all_utf8 (map normalizeNft l)).
  { intros l. unfold all_utf8. rewrite !list.Forall_forall. intros F x I. apply list_elem_of_fmap in I as (y & -> & I).
    by apply utf8_normal, F. }
  assert (E : state_utf8 (mkTableState [] [])) by (split; constructor).
  assert (J1 : json_utf8 (table_state_json g1) = true) by exact (state_json_utf8 _ (group_utf8 _ _ _ (N _ U1) E G1)).
  assert (J2 : json_utf8 (table_state_json g2) = true) by exact (state_json_utf8 _ (group_utf8 _ _ _ (N _ U2) E G2)).
  assert (T : table_state_json g1 = table_state_json g2).
  { apply parse_marshal in J1, J2. congruence. }
  destruct (group_objects_spec _ _ _ empty_grouped G1) as (S1 & CH1 & R1).
  destruct (group_objects_spec _ _ _ empty_grouped G2) as (S2 & CH2 & R2).
  unfold table_state_json in T. injection T as _ T.
  assert (P : ts_Chains g1 ≡ₚ ts_Chains g2).
  { assert (EQ : merge_sort chain_le (ts_Chains g1) = merge_sort chain_le (ts_Chains g2)).
    { apply chain_states_inj; [..|done]; intros c; rewrite merge_sort_Permutation; apply gr_chain; done. }
    rewrite <- (merge_sort_Permutation chain_le (ts_Chains g1)), EQ. apply merge_sort_Permutation. }
  split.
  - intros k. rewrite <- !rules_normal. cbn [ts_Chains rules_for app] in R1, R2. rewrite <- R1, <- R2.
    apply rules_for_perm; [done | apply S1].
  - rewrite <- !chains_normal. cbn in CH1, CH2. rewrite <- CH1, <- CH2. by rewrite P.
Qed.

(** ** Equal decisions *)

(** Conditions first, then one action. *)
Definition rule_shaped (es : list json) : Prop :=
  Forall (λ e, listed e = true) es
  ∧ ∃ ms t, es = ms ++ [t] ∧ Forall (λ e, is_Some (jmatch_of e)) ms ∧ nftMatch t = None.

Lemma jmatch_normal e : is_Some (jmatch_of (normalizeNft e)) ↔ is_Some (jmatch_of e).
Proof.
  unfold jmatch_of. rewrite single_normal. destruct (single e) as [[name x]|]; [|done].
  cbn [fmap option_fmap option_map]. unfold normal_member. cbn [fst]. destruct (name =? "match")%string; [|done].
  split; intros _; by eexists.
Qed.
Lemma listed_all es : Forall (λ e, listed e = true) es → Forall (λ e, listed e = true) (map normalizeNft es).
Proof.
  rewrite !list.Forall_forall. intros L x I. apply list_elem_of_fmap in I as (y & -> & I). rewrite listed_normal. by apply L.
Qed.
Lemma not_implied ts ns t : nftMatch t = None → implied ts ns t = false.
Proof. intros N. unfold implied, nftMetaProtocolMatch, nftPayloadMatch. by rewrite N. Qed.
Lemma shaped_normal es : rule_shaped es →
  ∃ ms t, normal_exprs es = ms ++ [t] ∧ Forall (λ e, is_Some (jmatch_of e)) ms ∧ nftMatch t = None.
Proof.
  intros (L & ms & t & -> & M & T). unfold normal_exprs, normalize_expressions.
  set (ts := transportPayload _). set (ns := networkPayload _). rewrite map_app. cbn [map].
  assert (T' : nftMatch (normalizeNft t) = None) by (unfold nftMatch in *; rewrite mobj_normal by done; by rewrite T).
  exists (List.filter (λ e, negb (implied ts ns e)) (map normalizeNft ms)), (normalizeNft t).
  rewrite List.filter_app. cbn [List.filter]. rewrite (not_implied ts ns _ T'). split; [done|]. split; [|done].
  apply list.Forall_forall. intros e I. apply list_elem_of_In, filter_In in I as [I _].
  apply list_elem_of_In, list_elem_of_fmap in I as (y & -> & I). apply jmatch_normal.
  rewrite list.Forall_forall in M. by apply M.
Qed.
Lemma exprs_meaning k sub es ms t :
  sane k → Forall (λ e, listed e = true) es → normal_exprs es = ms ++ [t] →
  Forall (λ e, is_Some (jmatch_of e)) ms → nftMatch t = None → j_stmts k sub es = j_stmts k sub (ms ++ [t]).
Proof.
  intros S L E M T. rewrite <- (stmts_normal k sub es). rewrite <- E.
  apply (normalize_keeps_meaning k sub S _ ms t); [by apply listed_all | done..].
Qed.

Section Same.
Variables (k : packet) (os rs : list json) (table : string).
Hypothesis packet_sane : sane k.
Hypothesis live_listed : ∀ key r, r ∈ rules_in os key → Forall (λ e, listed e = true) (rule_exprs r).
Hypothesis requested_shaped : ∀ key r, r ∈ rules_in rs key → rule_shaped (rule_exprs r).
Hypothesis same_rules : ∀ key, normal_rule <$> rules_in os key = normal_rule <$> rules_in rs key.
Hypothesis same_chains : normalizeNft <$> chains_in os ≡ₚ normalizeNft <$> chains_in rs.

Lemma rules_same sub l1 l2 :
  (∀ r, r ∈ l1 → Forall (λ e, listed e = true) (rule_exprs r)) → (∀ r, r ∈ l2 → rule_shaped (rule_exprs r)) →
  normal_rule <$> l1 = normal_rule <$> l2 → j_rules k sub (rule_exprs <$> l1) = j_rules k sub (rule_exprs <$> l2).
Proof.
  revert l2. induction l1 as [|r1 l1 IH]; intros [|r2 l2] L R E; try done. cbn [fmap list_fmap] in E. injection E as E1 E.
  cbn [fmap list_fmap j_rules]. apply (f_equal rule_exprs) in E1. rewrite !exprs_normal in E1.
  specialize (R r2 ltac:(set_solver)) as R2. destruct (shaped_normal _ R2) as (ms & t & N & M & T).
  rewrite (exprs_meaning k sub (rule_exprs r1) ms t), (exprs_meaning k sub (rule_exprs r2) ms t); try done.
  - destruct (j_stmts _ _ _); [|done]. apply IH; [set_solver.. | done].
  - apply R2.
  - apply L. set_solver.
  - congruence.
Qed.
Lemma chain_same fuel chain : j_chain k fuel os table chain = j_chain k fuel rs table chain.
Proof.
  revert chain. induction fuel as [|fuel IH]; intros chain; [done|]. cbn [j_chain].
  assert (E : ∀ l, j_rules k (j_chain k fuel os table) l = j_rules k (j_chain k fuel rs table) l).
  { assert (ES : ∀ es, j_stmts k (j_chain k fuel os table) es = j_stmts k (j_chain k fuel rs table) es).
    { induction es as [|e es IHe]; [done|]. cbn [j_stmts]. rewrite IHe. destruct (single e) as [[name x]|]; [|done].
      destruct (mstr "target" x); [|done]. by rewrite IH. }
    induction l as [|r l IHl]; [done|]. cbn [j_rules]. by rewrite ES, IHl. }
  rewrite E. apply rules_same; [apply live_listed | apply requested_shaped | apply same_rules].
Qed.

(** A chain that is not at the hook lets every packet pass. *)
Lemma hooks_forallb (b : json → bool) hook l :
  forallb b (hooks_at l hook) = forallb (λ c, negb (bool_decide (mstr "hook" c = Some hook)) || b c) (chains_in l).
Proof.
  induction l as [|o l IH]; [done|]. unfold hooks_at, chains_in in *. cbn [omap list_omap].
  destruct (object_of "chain" o) as [c|]; [|done]. cbn [mbind option_bind].
  destruct (bool_decide _) eqn:E; cbn [forallb]; rewrite E; cbn [negb orb]; by rewrite IH.
Qed.
Lemma forallb_perm {A} (f : A → bool) l1 l2 : l1 ≡ₚ l2 → forallb f l1 = forallb f l2.
Proof.
  induction 1 as [|x l1 l2 P IH|x y l|l1 l2 l3 P1 IH1 P2 IH2]; cbn; [done|by rewrite IH| |congruence].
  by rewrite !andb_assoc, (andb_comm (f y)).
Qed.
Lemma forallb_normal (f : json → bool) l :
  (∀ c, f (normalizeNft c) = f c) → forallb f (normalizeNft <$> l) = forallb f l.
Proof. intros F. induction l as [|c l IH]; [done|]. cbn. by rewrite F, IH. Qed.
Lemma accepts_same hook : listing_accepts k os table hook = listing_accepts k rs table hook.
Proof.
  unfold listing_accepts. rewrite !hooks_forallb.
  assert (B : ∀ c, base_accepts k os table c = base_accepts k rs table c).
  { intros c. unfold base_accepts. destruct (mstr "name" c); [|done]. by rewrite chain_same. }
  set (f := λ c, _ || base_accepts k rs table c).
  assert (F : ∀ c, f (normalizeNft c) = f c).
  { intros c. unfold f, base_accepts. by rewrite !mstr_normal. }
  transitivity (forallb f (chains_in os)).
  { unfold f. generalize (chains_in os) as l. induction l as [|c l IH]; [done|]. cbn [forallb]. by rewrite IH, B. }
  rewrite <- (forallb_normal f (chains_in os) F), <- (forallb_normal f (chains_in rs) F). by apply forallb_perm.
Qed.
End Same.
End Grouping.

(** ** The compiled document *)

Lemma go_map_utf8 l :
  Forall (λ m, ValidUTF8 (fst m) = true ∧ json_utf8 (snd m) = true) l → json_utf8 (go_map l) = true.
Proof.
  unfold go_map. assert (G : ∀ acc, json_utf8 (JObj acc) = true → Forall (λ m, ValidUTF8 (fst m) = true ∧ json_utf8 (snd m) = true) l →
    json_utf8 (JObj (foldl (λ acc m, map_set (fst m) (snd m) acc) acc l)) = true); [|by apply G].
  induction l as [|[k v] l IH]; intros acc A F; [done|]. apply list.Forall_cons in F as [[K V] F]. cbn [foldl]. apply IH; [|done].
  by apply map_set_utf8.
Qed.
Lemma decode_utf8 v : json_utf8 v = true → json_utf8 (decode_any v) = true.
Proof.
  induction v as [| | | |l IH|l IH] using json_rect_nested; try done.
  - cbn [json_utf8 decode_any]. rewrite !forallb_forall. intros U x I. apply in_map_iff in I as (y & <- & I).
    rewrite list.Forall_forall in IH. apply IH; [by apply list_elem_of_In | by apply U].
  - rewrite members_utf8. intros U. cbn [decode_any]. apply go_map_utf8. apply list.Forall_forall. intros m I.
    apply list_elem_of_fmap in I as (m0 & -> & I). rewrite list.Forall_forall in U, IH. destruct (U m0 I) as [K V].
    split; [done|]. by apply IH.
Qed.
Lemma fine_utf8 table o : ValidUTF8 table = true → fine_object table o → json_utf8 (object_json o) = true.
Proof.
  intros T. assert (O : ∀ kind l, ValidUTF8 kind = true → Forall (λ m, ValidUTF8 (fst m) = true ∧ json_utf8 (snd m) = true) l →
                        json_utf8 (obj1 kind (go_map l)) = true).
  { intros kind l K F. apply members_utf8, list.Forall_singleton. split; [done|]. by apply go_map_utf8. }
  destruct o as [n c|t c [h|]|t c e]; cbn [fine_object object_json].
  - intros [N C]. apply O; [done|]. by repeat (apply list.Forall_cons; split; [done|]).
  - intros (-> & C & HK). cbn in HK. apply O; [done|]. by repeat (apply list.Forall_cons; split; [done|]).
  - intros (-> & C & _). apply O; [done|]. by repeat (apply list.Forall_cons; split; [done|]).
  - intros (-> & C & ms & a & -> & M & _ & U). apply O; [done|]. repeat (apply list.Forall_cons; split; [done|]).
    apply list.Forall_singleton. split; [done|]. cbn [snd json_utf8]. rewrite map_app, forallb_app. apply andb_true_iff. split.
    + apply forallb_forall. intros x I. apply in_map_iff in I as (s & <- & I). rewrite list.Forall_forall in M.
      apply list_elem_of_In in I. by apply M.
    + cbn [map forallb]. by rewrite U.
Qed.
Lemma fine_good table d : fine_doc table d → Forall (good_object table) d.
Proof.
  intros F. eapply list.Forall_impl; [exact F|]. intros [n c|t c h|t c e]; cbn; [done|by intros (-> & _)|].
  intros (-> & _ & ms & a & -> & M & A & _). split; [done|]. exists ms, a. split; [done|]. split; [|done].
  eapply list.Forall_impl; [exact M|]. by intros s [G _].
Qed.
Lemma good_listed s : good_match s → listed (stmt_json s) = true ∧ is_Some (jmatch_of (stmt_json s)).
Proof.
  destruct 1 as [op l r _ GL _]. split; [|by eexists]. unfold listed.
  assert (M : nftMatch (stmt_json (Match op l r)) = Some (go_map [("op", JStr op); ("left", left_json l); ("right", right_json r)])%string) by done.
  rewrite M. assert (L : mget "left" (go_map [("op", JStr op); ("left", left_json l); ("right", right_json r)])%string = Some (left_json l)) by reflexivity.
  assert (S : ∃ name x, left_json l = JObj [(name, x)] ∧ single (left_json l) = Some (name, x)) by (by destruct l; eexists _, _).
  destruct S as (name & x & E & S).
  assert (MO : mobj "left" (go_map [("op", JStr op); ("left", left_json l); ("right", right_json r)])%string = Some (left_json l))
    by (unfold mobj; rewrite L, E; done).
  rewrite MO, S. rewrite !bool_decide_eq_true_2 by (by eexists). cbn [andb].
  apply negb_true_iff. unfold masks_type. destruct GL as [l SL|flag|p f mask N| |a b A B]; try reflexivity.
  - by destruct l.
  - cbn. rewrite bool_decide_eq_false_2; [done|]. intros [= ->]. done.
Qed.
Lemma action_plain t : action t → nftMatch (stmt_json t) = None.
Proof. destruct t; [done|done|done|]. intros [-> | ->]; done. Qed.
Lemma rule_in_shaped table d key r :
  Forall (good_object table) d → r ∈ rules_in (map object_json d) key → rule_shaped (rule_exprs r).
Proof.
  intros G I. unfold rules_in in I. apply list_elem_of_omap in I as (o & I & O). apply list_elem_of_fmap in I as (o' & -> & I).
  rewrite list.Forall_forall in G. specialize (G o' I). destruct o' as [n c|t c [h|]|t c e]; try done.
  assert (OE : object_of "rule" (object_json (NRule t c e))
     = Some (go_map [("family", JStr "bridge"); ("table", JStr t); ("chain", JStr c); ("expr", JArr (map stmt_json e))])%string) by reflexivity.
  rewrite OE in O. cbn [mbind option_bind] in O. case_bool_decide; [|done]. apply (inj Some) in O as <-.
  change (rule_exprs (go_map [("family", JStr "bridge"); ("table", JStr t); ("chain", JStr c); ("expr", JArr (map stmt_json e))])%string)
    with (map stmt_json e). destruct G as (_ & ms & a & -> & M & A). rewrite map_app.
  assert (L : Forall (λ s, listed s = true ∧ is_Some (jmatch_of s)) (map stmt_json ms)).
  { apply list.Forall_forall. intros s IS. apply list_elem_of_fmap in IS as (s' & -> & IS). rewrite list.Forall_forall in M.
    by apply good_listed, M. }
  pose proof (action_plain a A) as AP. split.
  - apply Forall_app. split; [eapply list.Forall_impl; [exact L|]; by intros x []|]. apply list.Forall_singleton.
    unfold listed. by rewrite AP.
  - exists (map stmt_json ms), (stmt_json a). split; [done|]. split; [|done]. eapply list.Forall_impl; [exact L|]. by intros x [].
Qed.

(** ** The names *)

Lemma ascii_utf8 s : is_ascii s = true → ValidUTF8 s = true.
Proof.
  intros A. apply plain_bytes_utf8. induction s as [|c s IH]; [done|]. cbn [is_ascii all_bytes] in *.
  apply andb_true_iff in A as [C A]. rewrite (IH A), andb_true_r. unfold plain_byte, byteZ. apply N.ltb_lt in C. lia.
Qed.
Lemma ascii_app a b : is_ascii (a +:+ b) = is_ascii a && is_ascii b.
Proof.
  induction a as [|c a IH]; [done|]. change (String c a +:+ b) with (String c (a +:+ b)). cbn [is_ascii]. by rewrite IH, andb_assoc.
Qed.
Lemma names_utf8 `{UUIDLaws} id net bridge table :
  Names id = Some (net, bridge, table) →
  ValidUTF8 bridge = true ∧ ValidUTF8 table = true ∧ ValidUTF8 (ownerPrefix +:+ id) = true.
Proof.
  unfold Names. destruct (uuid_canonical id) eqn:U; [|done]. intros [= <- <- <-]. apply uuid_ascii in U.
  assert (R : is_ascii (remove_byte "-" id) = true).
  { clear - U. induction id as [|c s IH]; [done|]. cbn [is_ascii remove_byte] in *. apply andb_true_iff in U as [C U].
    destruct (Ascii.eqb c "-"); [by apply IH|]. cbn [is_ascii]. by rewrite C, IH. }
  assert (T : ∀ n s, is_ascii s = true → is_ascii (take_string n s) = true).
  { clear. induction n as [|n IH]; intros [|c s]; try done. cbn [is_ascii take_string]. intros [C S]%andb_true_iff. by rewrite C, IH. }
  pose proof (T 12%nat _ R) as TR.
  split; [|split]; apply ascii_utf8; rewrite ascii_app; apply andb_true_iff; split; done.
Qed.

(** ** Verification *)

(** encoding/json yields valid UTF-8. *)
Class NftLaws `{Nft} := { first_utf8 text v : first_json text = Some v → json_utf8 v = true }.
(** nft prints statements of its grammar. *)
Definition listing_ok (os : list json) : Prop :=
  ∀ key r, r ∈ rules_in os key → Forall (λ e, listed e = true) (rule_exprs r).
Lemma listing_check os :
  forallb (λ o, match object_of "rule" o with Some r => forallb listed (rule_exprs r) | None => true end) os = true →
  listing_ok os.
Proof.
  intros A key r I. unfold rules_in in I. apply list_elem_of_omap in I as (o & I & O).
  rewrite forallb_forall in A. apply list_elem_of_In in I. specialize (A o I). destruct (object_of "rule" o) as [r'|]; [|done].
  cbn [mbind option_bind] in O. case_bool_decide; [|done]. injection O as <-.
  apply list.Forall_forall. intros e E. rewrite forallb_forall in A. by apply A, list_elem_of_In.
Qed.
(** The objects of a listing, without its header. *)
Definition live_state `{JSON} (v : json) : option (list json) :=
  os ← live_objects v; Some (List.filter (λ o, negb (has_metainfo o)) os).

Section Verified.
Context `{JSONLaws} `{UUIDLaws} `{UnicodeTables} `{NftLaws}.

Lemma member_utf8 k l v : json_utf8 (JObj l) = true → member k l = Some v → json_utf8 v = true.
Proof.
  rewrite members_utf8. intros U M. unfold member in M. destruct (list.last _) as [[k' v']|] eqn:L; [|done].
  injection M as <-. apply last_Some in L as [l' E].
  assert (I : In (k', v') (List.filter (λ m, (fst m =? k)%string || json_fold k (fst m)) l)) by (rewrite E; apply in_or_app; right; by left).
  apply filter_In in I as [I _]. rewrite list.Forall_forall in U. by apply (U (k', v')), list_elem_of_In.
Qed.
Lemma live_utf8 v os : json_utf8 v = true → live_objects v = Some os → all_utf8 os.
Proof.
  intros U L. unfold live_objects in L. destruct v as [| | | | |l]; try done; [injection L as <-; constructor|].
  destruct (member "nftables" l) as [[| | | |items|]|] eqn:M; try done; try (injection L as <-; constructor).
  destruct (forallb _ items); [|done]. assert (E : ∀ x, Some x = Some os → x = os) by congruence. apply E in L as <-.
  apply (member_utf8 _ _ _ U) in M. cbn [json_utf8] in M. rewrite forallb_forall in M.
  apply list.Forall_forall. intros o I. apply list_elem_of_fmap in I as (x & -> & I). apply list_elem_of_In, M, decode_utf8 in I.
  by destruct (decode_any x).
Qed.

Lemma verified_listing id p assigned gate net bridge table h h' :
  Names id = Some (net, bridge, table) → gate = true ∨ firewall_enabled p = true →
  VerifyFirewall id p assigned gate h = (h', Ok tt) →
  ∃ d out v os state,
    compileRuleset id p assigned gate = Ok d
    ∧ h' = h ++ [mkCommand EmptyString (list_args table)] ∧ nft_run h' = RunOk out ∧ first_json out = Some v
    ∧ live_state v = Some os ∧ canonicalNftState os = Some state ∧ canonicalNftState (map object_json d) = Some state.
Proof.
  intros NM E V. unfold VerifyFirewall in V.
  apply F_bind_ok in V as (t & h1 & T & V). unfold table_of, f_lift in T. rewrite NM in T. injection T as <- <-.
  assert (C : negb gate && negb (firewall_enabled p) = false) by (destruct gate, (firewall_enabled p); naive_solver).
  rewrite C in V. apply F_bind_ok in V as (d & h1 & D & V). unfold of_policy, f_lift in D.
  destruct (compileRuleset id p assigned gate) as [d'|] eqn:CR; [|done]. injection D as <- ->.
  apply F_bind_ok in V as (expected & h2 & X & V). unfold of_json, f_lift in X.
  destruct (requestedNftState d) as [ex|] eqn:RQ; [|done]. injection X as <- ->.
  apply F_bind_ok in V as (o & h3 & R & V). unfold Run in R. injection R as <- <-.
  apply F_bind_ok in V as (out & h4 & O & V). unfold run_ok, f_lift in O. destruct (nft_run _) as [out'|] eqn:NR; [|done].
  injection O as <- ->. apply F_bind_ok in V as (actual & h5 & A & V). unfold of_json, f_lift in A.
  destruct (liveNftState first_json out) as [ac|] eqn:LV; [|done]. injection A as <- ->. unfold f_lift in V.
  destruct (String.eqb_spec expected actual) as [->|]; [|done]. injection V as <-.
  unfold liveNftState in LV. destruct (first_json out) as [v|] eqn:FJ; [|done]. cbn [mbind option_bind] in LV.
  destruct (live_objects v) as [os|] eqn:LO; [|done]. cbn [mbind option_bind] in LV.
  exists d, out, v, (List.filter (λ o, negb (has_metainfo o)) os), actual. unfold live_state. rewrite LO. done.
Qed.
Lemma live_state_utf8 v os : json_utf8 v = true → live_state v = Some os → all_utf8 os.
Proof.
  intros U L. unfold live_state in L. destruct (live_objects v) as [os'|] eqn:LO; [|done]. injection L as <-.
  apply live_utf8 in LO; [|done]. apply list.Forall_forall. intros o I. apply list_elem_of_In, filter_In in I as [I _].
  unfold all_utf8 in LO. rewrite list.Forall_forall in LO. by apply LO, list_elem_of_In.
Qed.

(** What a verified listing decides. *)
Lemma verified_decides id p assigned gate net bridge table h h' :
  Names id = Some (net, bridge, table) → gate = true ∨ firewall_enabled p = true →
  VerifyFirewall id p assigned gate h = (h', Ok tt) →
  ∃ out v os, nft_run h' = RunOk out ∧ first_json out = Some v ∧ live_state v = Some os
  ∧ (listing_ok os → ∀ direction k,
       direction = "outbound"%string ∨ direction = "inbound"%string → sane k → valid_packet k →
       listing_accepts k os table (hook_of direction)
       = if bool_decide (on_bridge direction k = bridge) then bridge_allowed p assigned gate direction k else true).
Proof.
  intros NM E V. destruct (verified_listing _ _ _ _ _ _ _ _ _ NM E V) as (d & out & v & os & state & CR & HH & NR & FJ & LS & C1 & C2).
  exists out, v, os. repeat (split; [done|]). intros LOK direction k D S VP.
  destruct (names_utf8 _ _ _ _ NM) as (UB & UT & UC). pose proof (compiled_fine _ _ _ _ _ _ _ _ NM UB UT UC CR) as FD.
  pose proof (fine_good _ _ FD) as G.
  assert (U2 : all_utf8 (map object_json d)).
  { apply list.Forall_forall. intros o I. apply list_elem_of_fmap in I as (x & -> & I). rewrite list.Forall_forall in FD.
    by apply (fine_utf8 table), FD. }
  pose proof (live_state_utf8 _ _ (first_utf8 _ _ FJ) LS) as U1.
  destruct (canonical_same os (map object_json d) state U1 U2 C1 C2) as [SR SC].
  rewrite (accepts_same k os (map object_json d) table S LOK (λ key r, rule_in_shaped table d key r G) SR SC).
  rewrite (accepts_link k VP table d _ G). by eapply compiled_decides.
Qed.

(** C7: a firewall that passes verification enforces the policy.  If [VerifyFirewall]
    accepts what nft lists for the server's table (of a policy that filters, or of the
    closed gate), then the rules listed last decide every packet on the server's bridge
    exactly as the policy does, and do not touch other bridges: the normal form that is
    compared, without handles, implied matches and the order of sets and chains, still
    determines the decisions.  The listing must be of nft's grammar (each statement and the
    left side of each match have one member) and must not match the type of a frame under a
    mask, the one kind of match that verification overlooks ([masked_type_passes]); the
    packets are those that exist: valid addresses, ICMP in its own family and a connection
    tracked in the family of its packets. *)
Theorem VerifyFirewall_sound id p assigned gate net bridge table h h' :
  Names id = Some (net, bridge, table) → gate = true ∨ firewall_enabled p = true →
  VerifyFirewall id p assigned gate h = (h', Ok tt) →
  ∃ out v os, nft_run h' = RunOk out ∧ first_json out = Some v ∧ live_state v = Some os
  ∧ (listing_ok os → ∀ direction k,
       direction = "outbound"%string ∨ direction = "inbound"%string → sane k → valid_packet k →
       listing_accepts k os table (hook_of direction)
       = if bool_decide (on_bridge direction k = bridge) then bridge_allowed p assigned gate direction k else true).
Proof. apply verified_decides. Qed.
End Verified.

(** ** An example *)

Module NftExample.
Import StoreExample.
#[local] Instance nft_json : JSON := StoreExample.ex_json.
#[local] Instance nft_json_laws : JSONLaws := StoreExample.ex_json_laws.
#[local] Instance nft_ids : UUIDs := {| uuid_canonical id := (strlen id =? 36) && is_ascii id |}.
#[local] Instance nft_ids_laws : UUIDLaws.
Proof. split; intros id [L A]%andb_true_iff; [lia | done]. Qed.
#[local] Instance nft_unicode : UnicodeTables := {| unicode_lower s := s; unicode_upper s := s; unicode_trim s := s |}.

(** What nft lists for the document: a header, a handle in every object, the matches it
    implies left out, the sets in another order. *)
Definition reorder (v : json) : json :=
  match v with
  | JObj [("match"%string, JObj [l; o; ("right"%string, JObj [("set"%string, JArr items)])])] =>
      JObj [("match"%string, JObj [l; o; ("right"%string, JObj [("set"%string, JArr (rev items))])])]
  | _ => v
  end.
Definition print_rule (r : json) : json :=
  match r with
  | JObj l => JObj (map_set "expr" (JArr (map reorder (rule_exprs (normalizeNftRule r)))) l)
  | _ => r
  end.
Definition print_object (n : Z) (o : json) : json :=
  match o with
  | JObj [(kind, JObj l)] =>
      let x := if (kind =? "rule")%string then print_rule (JObj l) else JObj l in
      match x with JObj l' => JObj [(kind, JObj (("handle"%string, JNum n) :: l'))] | _ => o end
  | _ => o
  end.
(** The same rule with one more condition: the frame's type, masked, must be "ip". *)
Definition masked_type : json :=
  obj1 "match" (go_map [("op", JStr "=="); ("left", obj1 "&" (JArr [left_json ether_type; JNum 255])); ("right", JStr "ip")])%string.
Definition tamper_rule (r : json) : json :=
  match r with
  | JObj l => if bool_decide ("ip"%string ∈ networkPayload (rule_exprs r))
              then JObj (map_set "expr" (JArr (masked_type :: rule_exprs r)) l) else r
  | _ => r
  end.
Definition header : json := JObj [("metainfo", JObj [("version", JStr "1.0.9")])]%string.
Definition nft_listing (d : nftDocument) : json :=
  obj1 "nftables" (JArr (header :: imap (λ i o, print_object (Z.of_nat i) (object_json o)) d)).
Definition ex_live : json := nft_listing ex_doc.
#[local] Instance nft_tool : Nft := {| nft_run h := RunOk EmptyString; first_json text := Some ex_live |}.
#[local] Instance nft_tool_laws : NftLaws.
Proof. split. intros text v E. injection E as <-. vm_compute. reflexivity. Qed.

Definition ex_objects : list json := default [] (live_state ex_live).
Lemma ex_sane status port : sane (ex_packet (Some (ex_conn status)) port).
Proof. split; try done. intros c E. by injection E as <-. Qed.
Lemma ex_valid status port : valid_packet (ex_packet (Some (ex_conn status)) port).
Proof. split; try done. intros c E. by injection E as <-. Qed.
Lemma ex_listing_ok : listing_ok ex_objects.
Proof. apply listing_check. vm_compute. reflexivity. Qed.
Definition ex_history : list command := [mkCommand EmptyString (list_args "wings_nsm_3c0b5a4e8f5d4c1b9a550f6f4f1f2a11")].

(** The listing passes, and lets the translated connection in but not the ambiguous one. *)
Lemma VerifyFirewall_sound_witness :
  VerifyFirewall ex_id ex_policy ex_assigned false [] = (ex_history, Ok tt)
  ∧ listing_accepts (ex_packet (Some (ex_conn ["dnat"; "confirmed"]%string)) 25565) ex_objects
      "wings_nsm_3c0b5a4e8f5d4c1b9a550f6f4f1f2a11" (hook_of "inbound") = true
  ∧ listing_accepts (ex_packet (Some (ex_conn [])) 25565) ex_objects
      "wings_nsm_3c0b5a4e8f5d4c1b9a550f6f4f1f2a11" (hook_of "inbound") = false.
Proof.
  assert (NM : Names ex_id = Some ex_names) by reflexivity.
  assert (V : VerifyFirewall ex_id ex_policy ex_assigned false [] = (ex_history, Ok tt)) by (vm_compute; reflexivity).
  split; [exact V|].
  destruct (VerifyFirewall_sound ex_id ex_policy ex_assigned false _ _ _ _ _ NM ltac:(by right) V) as (out & v & os & NR & FJ & LS & D).
  assert (OS : os = ex_objects) by (unfold ex_objects; injection FJ as ->; by rewrite LS). subst os.
  specialize (D ex_listing_ok "inbound"%string).
  split; rewrite D by (by right || apply ex_sane || apply ex_valid); vm_compute; reflexivity.
Defined.

(** The comparison looks through the mask and removes the extra condition as implied, so
    a listing whose allow rule can never apply passes verification: the policy lets the
    connection in, the verified rules do not. *)
Definition tampered : json :=
  obj1 "nftables" (JArr (map (λ o, match object_json o with
                                   | JObj [(kind, x)] => if (kind =? "rule")%string then JObj [(kind, tamper_rule x)] else JObj [(kind, x)]
                                   | v => v
                                   end) ex_doc)).
Definition masked_tool : Nft := {| nft_run h := RunOk EmptyString; first_json text := Some tampered |}.
Lemma masked_type_passes :
  snd (VerifyFirewall (H2 := masked_tool) ex_id ex_policy ex_assigned false []) = Ok tt
  ∧ listing_accepts (ex_packet (Some (ex_conn ["dnat"; "confirmed"]%string)) 25565) (default [] (live_state tampered))
      "wings_nsm_3c0b5a4e8f5d4c1b9a550f6f4f1f2a11" (hook_of "inbound") = false
  ∧ bridge_allowed ex_policy ex_assigned false "inbound" (ex_packet (Some (ex_conn ["dnat"; "confirmed"]%string)) 25565) = true.
Proof. split; [|split]; vm_compute; reflexivity. Qed.
End NftExample.
