(* ===== verification/RuntimePath.v ===== *)
(** * Trusted paths of the runtime (internal/networkpolicy/runtime.go)

    The wrapper that starts containers reads its state through paths that only the daemon's
    user or root control: [TrustedRuntimePath] resolves links one at a time and checks every
    entry, [ReadRuntimeFile] reads a file below such a path and
    [ValidateRuntimeExecutable] accepts a program.

    The files are a map from physical paths, whose ancestors are directories, to nodes, as
    in the policy store.  [namei] is the reference: how the operating system resolves a
    path.  The daemon runs as root, so that permissions never stop a lookup. *)

From stdpp Require Import base gmap sets list strings numbers.
From Stdlib Require Import Ascii.
From S2P Require Import Prelude GoStrings Policy Nft Paths PathsFacts Route Store.
Open Scope Z_scope.

Inductive rterr :=
| EPath | EMissing | EOwner | ELinks | ENotDir | EExecutable | ELink | EFile | ETooLarge
| EIO | EName | EBinding | EIdentity | ECtx | EState | ENamespace | EOption | EOperation
| ERegistration | EPairing | EDrifted | EStore (e : sterr) | EPol (e : polerr) | ENft | ERoute (e : rerr) | EStart.

(** ** How the operating system resolves a path *)

Section Namei.
Variable fs : files.

Definition is_dir (n : fnode) : bool := match nd_kind n with Directory => true | _ => false end.

(** The entry at a physical place. *)
Definition lookup_node (place : list string) : result rterr fnode :=
  match fs !! abs place with Some n => Ok n | None => Err EMissing end.

(** The names [names] from the directory [dir], following at most [budget] links: every
    entry that was looked up, and the place reached.  A link in last place is followed
    only when [follow] says so, and an entry with names left must be a directory. *)
Fixpoint namei (budget : nat) (follow : bool) : list string → list string → result rterr (list (list string) * list string) :=
  fix walk (dir names : list string) : result rterr (list (list string) * list string) :=
    match names with
    | [] => Ok ([], dir)
    | n :: rest =>
        if decide (n = EmptyString ∨ n = "."%string) then walk dir rest
        else if decide (n = ".."%string) then walk (removelast dir) rest
        else
          let place := dir ++ [n] in
          node ← lookup_node place;
          '(seen, found) ←
            (match nd_kind node with
             | Symlink target =>
                 if negb follow && bool_decide (rest = []) then Ok ([], place)
                 else match budget with
                      | O => Err ELinks
                      | S budget' => namei budget' follow (if IsAbs target then [] else dir) (Split slash target ++ rest)
                      end
             | Directory => walk place rest
             | _ => if decide (rest = []) then Ok ([], place) else Err ENotDir
             end);
          Ok (place :: seen, found)
    end.

(** The directory relative paths start from. *)
Variable cwd : list string.
Definition start_dir (path : string) : list string := if IsAbs path then [] else cwd.
Definition max_links : nat := 40.
Definition stat_at (follow : bool) (path : string) : result rterr fnode :=
  found ← namei max_links follow (start_dir path) (Split slash path);
  lookup_node (snd found).
Definition Stat : string → result rterr fnode := stat_at true.
Definition Lstat : string → result rterr fnode := stat_at false.
End Namei.

(** ** Trusted paths *)

Section Trusted.
(** The effective user. *)
Variable euid : Z.
Variable fs : files.

(** Modes: 0022, the sticky bit and 0111. *)
Definition others_write : Z := 18.
Definition sticky : Z := 512.
Definition any_execute : Z := 73.

Definition runtimePathInfo (path : string) : result rterr fnode :=
  match fs !! path with
  | None => Err EMissing
  | Some n =>
      if (negb (nd_uid n =? 0) && negb (nd_uid n =? euid))
         || (is_dir n && negb (Z.land (nd_perm n) others_write =? 0) && (Z.land (nd_perm n) sticky =? 0))
      then Err EOwner else Ok n
  end.

(** The loop of [TrustedRuntimePath]; [budget] is the number of links it may still follow. *)
Fixpoint trusted_walk (budget : nat) : string → list string → result rterr string :=
  fix walk (resolved : string) (pending : list string) : result rterr string :=
    match pending with
    | [] => Ok resolved
    | part :: pending' =>
        if bool_decide (part = EmptyString) || bool_decide (part = "."%string) then walk resolved pending'
        else if bool_decide (part = ".."%string) then walk (path_Dir resolved) pending'
        else
          let candidate := path_Join resolved part in
          match runtimePathInfo candidate with
          | Err e => Err e
          | Ok info =>
              match nd_kind info with
              | Symlink target =>
                  match budget with
                  | O => Err ELinks
                  | S budget' =>
                      trusted_walk budget' (if IsAbs target then "/"%string else resolved) (Split slash target ++ pending')
                  end
              | _ =>
                  if negb (bool_decide (pending' = [])) && negb (is_dir info) then Err ENotDir
                  else walk candidate pending'
              end
          end
    end.

Definition TrustedRuntimePath (path : string) : result rterr string :=
  if negb (IsAbs path) || negb (bool_decide (Clean path = path)) then Err EPath
  else
    _ ← runtimePathInfo "/"%string;
    trusted_walk max_links "/"%string (Split slash (TrimPrefix slash path)).

(** Where relative paths start. *)
Variable cwd : list string.

Definition is_regular (n : fnode) : bool := match nd_kind n with Regular _ => true | _ => false end.
Definition is_symlink (n : fnode) : bool := match nd_kind n with Symlink _ => true | _ => false end.

Definition ValidateRuntimeExecutable (path : string) : result rterr unit :=
  _ ← TrustedRuntimePath path;
  match Stat fs cwd path with
  | Err e => Err e
  | Ok info =>
      if negb (is_regular info) || negb (Z.land (nd_perm info) others_write =? 0)
         || (Z.land (nd_perm info) any_execute =? 0) || negb (nd_uid info =? euid)
      then Err EExecutable else Ok tt
  end.

(** [file.Stat] after [os.OpenFile] without following links. *)
Definition owned_file (mask : Z) (info : fnode) : bool :=
  is_regular info && (Z.land (nd_perm info) mask =? 0) && (nd_uid info =? euid) && (nd_nlink info =? 1).

Definition ReadRuntimeFile (path : string) : result rterr string :=
  resolved ← TrustedRuntimePath path;
  match Lstat fs cwd path with
  | Err e => Err e
  | Ok info =>
      if is_symlink info then Err ELink
      else
        match fs !! resolved with
        | None => Err EMissing
        | Some node =>
            if is_symlink node then Err EIO
            else if negb (owned_file others_write node) then Err EFile
            else match nd_kind node with
                 | Regular data => if MaxBody <? strlen data then Err ETooLarge else Ok data
                 | _ => Err EFile
                 end
        end
  end.
End Trusted.

(** ** Correctness *)

Lemma path_Dir_abs ws : Forall plain ws → path_Dir (abs ws) = abs (removelast ws).
Proof.
  intros P. destruct (decide (ws = [])) as [->|N]; [reflexivity|].
  destruct (exists_last N) as (vs & w & ->). apply Forall_app in P as [PV PW].
  assert (NW : no_sep w) by (apply list.Forall_cons in PW as [(_ & _ & _ & ?) _]; done).
  rewrite removelast_last. unfold path_Dir.
  assert (U : upto_slash (abs (vs ++ [w])) = if decide (vs = []) then "/"%string else abs vs +:+ String slash EmptyString).
  { case_decide as D; unfold abs.
    - subst vs. apply (upto_slash_app EmptyString); done.
    - rewrite Join_app by done. change (String slash (Join slash vs +:+ String slash (Join slash [w])))
        with (String slash (Join slash vs) +:+ String slash w). by apply upto_slash_app. }
  rewrite U. case_decide as D; [by subst|].
  assert (E : Split slash (abs vs +:+ String slash EmptyString) = Split slash (abs vs) ++ [EmptyString]) by (by rewrite (Split_app (abs vs) EmptyString)).
  rewrite Clean_no_parent; rewrite E.
  - change (is_rooted (abs vs +:+ String slash EmptyString)) with (is_rooted (String slash (Join slash vs +:+ String slash EmptyString))).
    by rewrite is_rooted_cons, list.filter_app, Split_abs, app_nil_r.
  - rewrite elem_of_app. intros [I|I]; [by apply Split_abs_no_parent in I | set_solver].
Qed.

Section Facts.
Variables (euid : Z) (fs : files) (cwd : list string).

(** Only root and the daemon control the entry: it exists and belongs to one of them, and
    if it is a directory, neither its group (bit 4 of the mode) nor others (bit 1) may
    write to it, unless it is sticky (bit 9), so that in it users only replace what is
    theirs. *)
Definition trusted (place : list string) : Prop :=
  ∃ n, fs !! abs place = Some n ∧ (nd_uid n = 0 ∨ nd_uid n = euid)
    ∧ (nd_kind n = Directory →
        (Z.testbit (nd_perm n) 4 = false ∧ Z.testbit (nd_perm n) 1 = false) ∨ Z.testbit (nd_perm n) 9 = true).

(** The masks of the code, bit by bit. *)
Lemma land_zero p m : Z.land p m = 0 ↔ ∀ i, 0 ≤ i → Z.testbit m i = true → Z.testbit p i = false.
Proof.
  split.
  - intros E i I M. apply (f_equal (λ z, Z.testbit z i)) in E.
    rewrite Z.land_spec, M, andb_true_r, Z.bits_0 in E. done.
  - intros A. apply Z.bits_inj'. intros i I. rewrite Z.land_spec, Z.bits_0.
    destruct (Z.testbit m i) eqn:M; [|by rewrite andb_false_r]. by rewrite (A i I M).
Qed.
Lemma others_write_bits p : Z.land p others_write = 0 ↔ Z.testbit p 4 = false ∧ Z.testbit p 1 = false.
Proof.
  rewrite land_zero. split; [intros A; split; apply A; (done || reflexivity)|].
  intros [B4 B1] i I M. assert (i < 5) as L.
  { destruct (Z.lt_ge_cases i 5); [done|]. rewrite Z.bits_above_log2 in M; [done..|].
    apply Z.lt_le_trans with 5; [reflexivity | done]. }
  assert (i = 0 ∨ i = 1 ∨ i = 2 ∨ i = 3 ∨ i = 4) as C by lia.
  by destruct C as [->|[->|[->|[->| ->]]]].
Qed.
Lemma sticky_bit p : Z.land p sticky = 0 ↔ Z.testbit p 9 = false.
Proof.
  rewrite land_zero. split; [intros A; by apply A|]. intros B i I M.
  change sticky with (2 ^ 9) in M. destruct (decide (i = 9)) as [->|N]; [done|].
  by rewrite Z.pow2_bits_false in M.
Qed.
Lemma trusted_info place : trusted place ↔ ∃ n, runtimePathInfo euid fs (abs place) = Ok n.
Proof.
  unfold trusted, runtimePathInfo. destruct (fs !! abs place) as [n|]; [|naive_solver].
  assert (is_dir n = true ↔ nd_kind n = Directory) as D by (unfold is_dir; by destruct (nd_kind n)).
  set (refused := (_ || _)%bool).
  assert (refused = false ↔ (nd_uid n = 0 ∨ nd_uid n = euid) ∧ (nd_kind n = Directory →
    (Z.testbit (nd_perm n) 4 = false ∧ Z.testbit (nd_perm n) 1 = false) ∨ Z.testbit (nd_perm n) 9 = true)) as C.
  { unfold refused. rewrite orb_false_iff, !andb_false_iff, !negb_false_iff, !Z.eqb_eq, Z.eqb_neq,
      others_write_bits, sticky_bit, not_false_iff_true, <-D. destruct (is_dir n); intuition done. }
  destruct refused; split.
  - intros (m & [= <-] & A). by apply C in A.
  - by intros [m ?].
  - intros _. by exists n.
  - intros _. exists n. split; [done|]. by apply C.
Qed.

Lemma info_node path n : runtimePathInfo euid fs path = Ok n → fs !! path = Some n.
Proof. unfold runtimePathInfo. destruct (fs !! path); [|done]. case_match; [done|]. by intros [= ->]. Qed.
Lemma plain_snoc dir n : Forall plain dir → n ≠ EmptyString → n ≠ "."%string → n ≠ ".."%string → no_sep n →
  Forall plain (dir ++ [n]) ∧ path_Join (abs dir) n = abs (dir ++ [n]).
Proof.
  intros PD N1 N2 N3 NS. assert (P : plain n) by done.
  split; [apply Forall_app; split; [done | by apply Forall_singleton]|].
  change n with (Join slash [n]) at 1. apply path_Join_abs; [done | by apply Forall_singleton | done].
Qed.
Lemma plain_removelast dir : Forall plain dir → Forall plain (removelast dir).
Proof.
  intros P. destruct (decide (dir = [])) as [->|N]; [done|]. destruct (exists_last N) as (vs & w & ->).
  rewrite removelast_last. by apply Forall_app in P as [? _].
Qed.

(** One round of each loop. *)
Lemma trusted_walk_cons budget resolved n rest :
  trusted_walk euid fs budget resolved (n :: rest) =
    if decide (n = EmptyString ∨ n = "."%string) then trusted_walk euid fs budget resolved rest
    else if decide (n = ".."%string) then trusted_walk euid fs budget (path_Dir resolved) rest
    else match runtimePathInfo euid fs (path_Join resolved n) with
         | Err e => Err e
         | Ok info =>
             match nd_kind info with
             | Symlink target =>
                 match budget with
                 | O => Err ELinks
                 | S b => trusted_walk euid fs b (if IsAbs target then "/"%string else resolved) (Split slash target ++ rest)
                 end
             | Directory => trusted_walk euid fs budget (path_Join resolved n) rest
             | _ => if decide (rest = []) then Ok (path_Join resolved n) else Err ENotDir
             end
         end.
Proof.
  assert (B : bool_decide (n = EmptyString) || bool_decide (n = "."%string)
              = bool_decide (n = EmptyString ∨ n = "."%string)) by (symmetry; apply bool_decide_or).
  assert (R : ∀ (b : bool) {A} (x y : A), (if negb b && negb false then x else y) = if b then y else x) by (by intros []).
  destruct budget; cbn [trusted_walk]; rewrite B; destruct (decide (n = EmptyString ∨ n = "."%string)) as [D|D];
    rewrite ?(bool_decide_true _ D), ?(bool_decide_false _ D); try reflexivity;
    destruct (decide (n = ".."%string)) as [D2|D2]; rewrite ?(bool_decide_true _ D2), ?(bool_decide_false _ D2); try reflexivity;
    destruct (runtimePathInfo _ _ _) as [i|]; try reflexivity; unfold is_dir; destruct (nd_kind i); try reflexivity;
    rewrite ?andb_false_r; try reflexivity; rewrite R; destruct rest; reflexivity.
Qed.
Lemma namei_cons budget dir n rest :
  namei fs budget true dir (n :: rest) =
    if decide (n = EmptyString ∨ n = "."%string) then namei fs budget true dir rest
    else if decide (n = ".."%string) then namei fs budget true (removelast dir) rest
    else node ← lookup_node fs (dir ++ [n]);
         '(seen, found) ←
            (match nd_kind node with
             | Symlink target =>
                 match budget with
                 | O => Err ELinks
                 | S b => namei fs b true (if IsAbs target then [] else dir) (Split slash target ++ rest)
                 end
             | Directory => namei fs budget true (dir ++ [n]) rest
             | _ => if decide (rest = []) then Ok ([], dir ++ [n]) else Err ENotDir
             end);
          Ok ((dir ++ [n]) :: seen, found).
Proof. by destruct budget. Qed.

(** A result of the loop agrees with one of the operating system whose entries are
    trusted. *)
Definition agrees (x : result rterr string) (o : result rterr (list (list string) * list string)) : Prop :=
  ∀ r, x = Ok r ↔ ∃ seen ws, o = Ok (seen, ws) ∧ Forall trusted seen ∧ r = abs ws.
Lemma agrees_fail e e' : agrees (Err e) (Err e').
Proof. intros r. split; [done|]. by intros (? & ? & ? & _). Qed.
Lemma agrees_end ws : agrees (Ok (abs ws)) (Ok ([], ws)).
Proof. intros r. split; [intros [= <-]; by exists [], ws | by intros (? & ? & [= <- <-] & _ & ->)]. Qed.
Lemma agrees_entry place x o :
  trusted place → agrees x o → agrees x ('(seen, found) ← o; Ok (place :: seen, found)).
Proof.
  intros T E r. rewrite (E r). split.
  - intros (seen & ws & -> & F & ->). exists (place :: seen), ws. cbn. auto.
  - intros (seen & ws & H & F & ->). destruct o as [[s f]|]; [|done]. injection H as <- <-.
    apply list.Forall_cons in F as [_ F]. by exists s, f.
Qed.
Lemma agrees_refused place e o : ¬ trusted place → agrees (Err e) ('(seen, found) ← o; Ok (place :: seen, found)).
Proof.
  intros T r. split; [done|]. intros (seen & ws & E & F & _). destruct o as [[s f]|]; [|done].
  injection E as <- <-. by apply list.Forall_cons in F as [? _].
Qed.

(** The loop goes where the operating system goes, and checks every entry it looks up. *)
Lemma trusted_walk_namei budget dir names :
  Forall plain dir → Forall no_sep names →
  agrees (trusted_walk euid fs budget (abs dir) names) (namei fs budget true dir names).
Proof.
  revert dir names. induction budget as [budget IHb] using lt_wf_ind.
  intros dir names. revert dir. induction names as [|n rest IH]; intros dir PD NS.
  { destruct budget; apply agrees_end. }
  apply list.Forall_cons in NS as [NN NR]. rewrite trusted_walk_cons, namei_cons.
  case_decide as D1; [by apply IH|].
  case_decide as D2; [rewrite path_Dir_abs by done; apply IH; auto using plain_removelast|].
  destruct (plain_snoc dir n PD) as [PN ->]; [naive_solver..|].
  destruct (fs !! abs (dir ++ [n])) as [node|] eqn:L; cycle 1.
  { unfold runtimePathInfo, lookup_node. rewrite L. apply agrees_fail. }
  unfold lookup_node. rewrite L. cbn [mbind result_bind].
  destruct (runtimePathInfo euid fs (abs (dir ++ [n]))) as [info|e] eqn:I; cycle 1.
  { apply agrees_refused. intros [m M]%trusted_info. congruence. }
  pose proof (info_node _ _ I) as L'. rewrite L in L'. injection L' as <-.
  apply agrees_entry; [apply trusted_info; by exists node|].
  destruct (nd_kind node) as [data| |target|].
  - case_decide; [apply agrees_end | apply agrees_fail].
  - by apply IH.
  - destruct budget as [|b]; [apply agrees_fail|].
    assert (F : Forall no_sep (Split slash target ++ rest)) by (apply Forall_app; split; [apply Split_no_sep | done]).
    destruct (IsAbs target); [apply (IHb b ltac:(lia) []) | apply (IHb b ltac:(lia) dir)]; done.
  - case_decide; [apply agrees_end | apply agrees_fail].
Qed.

Lemma Split_rooted path : IsAbs path = true → Split slash path = EmptyString :: Split slash (TrimPrefix slash path).
Proof. intros A. apply is_rooted_inv in A as [s ->]. apply (Split_app EmptyString). Qed.

(** A directory on the way, which others cannot change. *)
Definition real_dir (dir : list string) : Prop :=
  trusted dir ∧ ∃ n, fs !! abs dir = Some n ∧ is_dir n = true.
Definition real_place (ws : list string) : Prop :=
  trusted ws ∧ (∃ n, fs !! abs ws = Some n ∧ is_symlink n = false) ∧ ∀ k, (k < length ws)%nat → real_dir (take k ws).

Lemma real_dirs_snoc dir n :
  (∀ k, real_dir (take k dir)) → real_dir (dir ++ [n]) → ∀ k, real_dir (take k (dir ++ [n])).
Proof.
  intros D N k. rewrite take_app. destruct (decide (k ≤ length dir)%nat) as [L|L].
  - replace (k - length dir)%nat with 0%nat by lia. rewrite take_0, app_nil_r. apply D.
  - rewrite (take_ge [n]) by (cbn; lia). by rewrite take_ge by lia.
Qed.
Lemma real_dirs_place dir : (∀ k, real_dir (take k dir)) → real_place dir.
Proof.
  intros D. pose proof (D (length dir)) as F. rewrite firstn_all in F. destruct F as (T & n & N & I).
  split; [done|]. split; [|auto]. exists n. split; [done|]. revert I. unfold is_dir, is_symlink. by destruct (nd_kind n).
Qed.
Lemma real_place_snoc dir n node :
  (∀ k, real_dir (take k dir)) → trusted (dir ++ [n]) → fs !! abs (dir ++ [n]) = Some node → is_symlink node = false →
  real_place (dir ++ [n]).
Proof.
  intros D T L S. split; [done|]. split; [by exists node|]. intros k K. rewrite length_app in K. cbn in K.
  rewrite take_app_le by lia. apply D.
Qed.
Lemma namei_real budget dir names seen ws :
  (∀ k, real_dir (take k dir)) → namei fs budget true dir names = Ok (seen, ws) → Forall trusted seen → real_place ws.
Proof.
  revert dir names seen. induction budget as [budget IHb] using lt_wf_ind.
  intros dir names. revert dir. induction names as [|n rest IH]; intros dir seen D E F.
  { destruct budget; injection E as <- <-; by apply real_dirs_place. }
  assert (D0 : ∀ k, real_dir (take k [])) by (intros k; rewrite take_nil; apply (D 0%nat)).
  rewrite namei_cons in E. case_decide; [exact (IH _ _ D E F)|].
  case_decide; [refine (IH _ _ _ E F); intros k; rewrite removelast_firstn_len, take_take; apply D|].
  unfold lookup_node in E. destruct (fs !! abs (dir ++ [n])) as [node|] eqn:L; [|done]. cbn [mbind result_bind] in E.
  destruct (nd_kind node) as [data| |target|] eqn:K.
  - case_decide; [|done]. injection E as <- <-. apply list.Forall_cons in F as [T _].
    refine (real_place_snoc _ _ node D T L _). unfold is_symlink. by rewrite K.
  - destruct (namei _ _ _ _ _) as [[s f]|] eqn:E'; [|done]. injection E as <- <-.
    apply list.Forall_cons in F as [T F]. refine (IH _ _ _ E' F). apply real_dirs_snoc; [done|].
    split; [done|]. exists node. unfold is_dir. by rewrite K.
  - destruct budget as [|b]; [done|]. destruct (namei _ _ _ _ _) as [[s f]|] eqn:E'; [|done].
    injection E as <- <-. apply list.Forall_cons in F as [T F].
    refine (IHb b ltac:(lia) _ _ _ _ E' F). by destruct (IsAbs target).
  - case_decide; [|done]. injection E as <- <-. apply list.Forall_cons in F as [T _].
    refine (real_place_snoc _ _ node D T L _). unfold is_symlink. by rewrite K.
Qed.

Lemma TrustedRuntimePath_namei path r :
  TrustedRuntimePath euid fs path = Ok r ↔
  IsAbs path = true ∧ Clean path = path ∧ trusted []
  ∧ ∃ seen ws, namei fs max_links true [] (Split slash path) = Ok (seen, ws) ∧ Forall trusted seen ∧ r = abs ws.
Proof.
  unfold TrustedRuntimePath. destruct (IsAbs path) eqn:A; cbn [negb orb]; [|split; [done | by intros [? _]]].
  destruct (decide (Clean path = path)) as [C|C];
    [rewrite bool_decide_true by done | rewrite bool_decide_false by done; split; [done | by intros (_ & ? & _)]]. cbn [negb].
  rewrite (Split_rooted path A), namei_cons, decide_True by auto.
  pose proof (trusted_walk_namei max_links [] (Split slash (TrimPrefix slash path)) ltac:(done) (Split_no_sep _)) as W.
  change "/"%string with (abs []). rewrite (trusted_info []).
  destruct (runtimePathInfo euid fs (abs [])) as [n|e]; cbn [mbind result_bind].
  - rewrite (W r). split; [|by intros (_ & _ & _ & ?)]. intros H. repeat (split; [done|]). split; [by exists n | done].
  - split; [done|]. by intros (_ & _ & [? ?] & _).
Qed.
Lemma TrustedRuntimePath_real path r n :
  fs !! "/"%string = Some n → is_dir n = true → TrustedRuntimePath euid fs path = Ok r →
  ∃ ws, r = abs ws ∧ real_place ws ∧ ∃ seen, namei fs max_links true [] (Split slash path) = Ok (seen, ws).
Proof.
  intros N D E. apply TrustedRuntimePath_namei in E as (_ & _ & T & seen & ws & W & F & ->).
  exists ws. split; [done|]. split; [|by exists seen]. refine (namei_real _ _ _ _ _ _ W F).
  intros k. rewrite take_nil. split; [done|]. by exists n.
Qed.

Lemma lookup_Ok place n : lookup_node fs place = Ok n → fs !! abs place = Some n.
Proof. unfold lookup_node. destruct (fs !! abs place); [|done]. by intros [= ->]. Qed.
(** Without a link in last place, looking it up without following it is the same. *)
Lemma namei_nofollow budget dir names seen ws node :
  namei fs budget false dir names = Ok (seen, ws) → fs !! abs ws = Some node → is_symlink node = false →
  namei fs budget true dir names = Ok (seen, ws).
Proof.
  intros E N S. revert dir names seen E. induction budget as [budget IHb] using lt_wf_ind.
  intros dir names. revert dir. induction names as [|n rest IH]; intros dir seen E; [by destruct budget|].
  assert (G : ∀ o o' : result rterr (list (list string) * list string), (∀ s, o = Ok (s, ws) → o' = Ok (s, ws)) →
    ('(s, f) ← o; Ok ((dir ++ [n]) :: s, f)) = Ok (seen, ws) →
    ('(s, f) ← o'; Ok ((dir ++ [n]) :: s, f)) = Ok (seen, ws)).
  { intros [[s f]|] o' H; [|done]. cbn [mbind result_bind]. intros [= <- ->]. by rewrite (H s eq_refl). }
  rewrite namei_cons.
  destruct budget as [|b]; cbn [namei] in E;
    (destruct (decide (n = EmptyString ∨ n = "."%string)); [by apply IH|];
     destruct (decide (n = ".."%string)); [by apply IH|];
     unfold lookup_node in E |- *; destruct (fs !! abs (dir ++ [n])) as [nd|] eqn:L; [|done]; cbn [mbind result_bind] in E |- *;
     revert E; apply G; intros s; destruct (nd_kind nd) as [data| |target|] eqn:K; try done; [by apply IH|];
     destruct (negb false && bool_decide (rest = [])) eqn:R; [|try done; intros E; by apply (IHb b ltac:(lia))];
     intros [= <- <-]; rewrite L in N; injection N as ->; unfold is_symlink in S; by rewrite K in S).
Qed.

(** C37: a path is trusted exactly when it is clean and absolute, the operating system
    resolves it through at most forty links, and the root and every entry looked up on the
    way, links included, belongs to root or the daemon and is no directory that its group
    or others may write to, a sticky one excepted; the result is the physical path of the
    object the operating system reaches. *)
Theorem TrustedRuntimePath_exact path r :
  TrustedRuntimePath euid fs path = Ok r ↔
  IsAbs path = true ∧ Clean path = path ∧ trusted []
  ∧ ∃ seen ws, namei fs max_links true [] (Split slash path) = Ok (seen, ws) ∧ Forall trusted seen ∧ r = abs ws.
Proof. apply TrustedRuntimePath_namei. Qed.

(** A file the runtime reads is the one its path names, a regular file of at most 1 MiB
    that only the daemon can write and that has no other name; each of its directories is
    a real directory that only root or the daemon control. *)
Theorem ReadRuntimeFile_trusted path data n :
  fs !! "/"%string = Some n → is_dir n = true →
  ReadRuntimeFile euid fs cwd path = Ok data →
  ∃ ws node, Stat fs cwd path = Ok node ∧ Lstat fs cwd path = Ok node ∧ fs !! abs ws = Some node
    ∧ nd_kind node = Regular data ∧ Z.land (nd_perm node) others_write = 0 ∧ nd_uid node = euid ∧ nd_nlink node = 1
    ∧ strlen data ≤ MaxBody ∧ ∀ k, (k < length ws)%nat → real_dir (take k ws).
Proof.
  intros N D E. unfold ReadRuntimeFile in E. apply result_bind_Ok in E as (r & T & E).
  destruct (TrustedRuntimePath_real _ _ _ N D T) as (ws & -> & (TW & _ & RD) & seen & W).
  apply TrustedRuntimePath_namei in T as (A & _).
  assert (ST : Stat fs cwd path = lookup_node fs ws).
  { unfold Stat, stat_at, start_dir. by rewrite A, W. }
  destruct (Lstat fs cwd path) as [info|] eqn:LS; [|done]. destruct (is_symlink info) eqn:SL; [done|].
  assert (LS' : Lstat fs cwd path = Stat fs cwd path).
  { unfold Lstat, Stat, stat_at, start_dir in LS |- *. rewrite A in LS |- *.
    destruct (namei fs max_links false [] (Split slash path)) as [[s f]|] eqn:NF; [|done]. cbn [mbind result_bind snd] in LS.
    by rewrite (namei_nofollow _ _ _ _ _ _ NF (lookup_Ok _ _ LS) SL). }
  rewrite LS, ST in LS'. apply eq_sym, lookup_Ok in LS'. rewrite LS', SL in E.
  destruct (owned_file euid others_write info) eqn:O; [|done]. cbn [negb] in E.
  apply andb_true_iff in O as [[[_ P%Z.eqb_eq]%andb_true_iff U%Z.eqb_eq]%andb_true_iff K%Z.eqb_eq].
  destruct (nd_kind info) as [d| | |] eqn:KD; [|done..].
  destruct (Z.ltb_spec MaxBody (strlen d)); [done|]. injection E as <-.
  exists ws, info. rewrite ST. unfold lookup_node. by rewrite LS'.
Qed.
End Facts.

(** ** An example *)

Module PathExample.
Definition dir_node : fnode := mkNode Directory 493 0 2.
Definition ex_files : files :=
  list_to_map [("/", dir_node); ("/etc", dir_node); ("/srv", dir_node);
               ("/etc/wings", mkNode (Symlink "../srv/wings") 511 0 1);
               ("/srv/wings", mkNode Directory 448 7 2);
               ("/srv/wings/binding.json", mkNode (Regular "{}") 384 7 1);
               ("/tmp", mkNode Directory 511 0 2); ("/tmp/x", mkNode (Regular "{}") 384 7 1)]%string.
Example trusted_link : TrustedRuntimePath 7 ex_files "/etc/wings/binding.json" = Ok "/srv/wings/binding.json"%string.
Proof. vm_compute. reflexivity. Qed.
Example refused_shared : TrustedRuntimePath 7 ex_files "/tmp/x" = Err EOwner.
Proof. vm_compute. reflexivity. Qed.
Lemma ReadRuntimeFile_trusted_witness :
  ReadRuntimeFile 7 ex_files [] "/etc/wings/binding.json" = Ok "{}"%string
  ∧ ∃ ws node, Stat ex_files [] "/etc/wings/binding.json" = Ok node ∧ ex_files !! abs ws = Some node
      ∧ nd_kind node = Regular "{}" ∧ ∀ k, (k < length ws)%nat → real_dir 7 ex_files (take k ws).
Proof.
  assert (R : ReadRuntimeFile 7 ex_files [] "/etc/wings/binding.json" = Ok "{}"%string) by (vm_compute; reflexivity).
  split; [exact R|].
  destruct (ReadRuntimeFile_trusted 7 ex_files [] "/etc/wings/binding.json" "{}" dir_node
              ltac:(vm_compute; reflexivity) ltac:(reflexivity) R) as (ws & node & S & _ & N & K & _ & _ & _ & _ & D).
  exists ws, node. exact (conj S (conj N (conj K D))).
Defined.
End PathExample.
