(* ===== verification/Runtime.v ===== *)
(** * The runtime wrapper (internal/networkpolicy/runtime.go, cmd/nsm_runtime.go)

    Docker runs the daemon in the place of runc.  Its arguments are parsed, a [start] is
    held back until the saved policy is enforced, and everything else is handed on.
    A binding, saved beside the policy, ties the policy to one container.

    The world of the wrapper: the files, what nft and the two network namespaces were
    asked, the lease on the server's lock and the calls of runc. *)

From stdpp Require Import base gmap sets list strings numbers sorting.
From Stdlib Require Import Ascii.
From S2P Require Import Prelude GoStrings Policy Nft Paths PathsFacts Route Shaping Store NftState RuntimePath.
Open Scope Z_scope.

(** ** Arguments *)

Definition RuntimeServerKey : string := "io.pterodactyl.networkstats.server".
Definition RuntimeGenerationKey : string := "io.pterodactyl.networkstats.generation".
Definition runtimeID (s : string) : bool := hashPattern s.

Record RuntimeInvocation := mkCall { ri_Global : list string; ri_Command : string; ri_Args : list string }.

(** [strings.Cut] at the first equals sign: what is before it, and whether there is one. *)
Fixpoint cut_equals (s : string) : string * bool :=
  match s with
  | EmptyString => (EmptyString, false)
  | String c s' =>
      if Ascii.eqb c "=" then (EmptyString, true)
      else let '(name, inline) := cut_equals s' in (String c name, inline)
  end.

Definition valued_options : list string := ["--root"; "--log"; "--log-format"; "--criu"; "--rootless"]%string.
Definition plain_options : list string := ["--debug"; "--systemd-cgroup"]%string.
Definition info_options : list string := ["--version"; "-v"; "--help"; "-h"]%string.

(** The loop over the global options; [only] says that there is one argument.  The flag of
    the result says that the call only asks for information. *)
Fixpoint global_options (only : bool) (before args : list string) : result rterr (RuntimeInvocation * bool) :=
  match args with
  | [] => Ok (mkCall [] EmptyString [], false)
  | arg :: rest =>
      if negb (HasPrefix arg "-") then Ok (mkCall before arg rest, false)
      else
        let '(name, inline) := cut_equals arg in
        if bool_decide (name ∈ valued_options) then
          if (inline : bool) then global_options only (before ++ [arg]) rest
          else match rest with
               | [] => Err EOption
               | value :: rest' => global_options only (before ++ [arg; value]) rest'
               end
        else if bool_decide (name ∈ plain_options) then global_options only (before ++ [arg]) rest
        else if bool_decide (name ∈ info_options) then
          if (only : bool) then Ok (mkCall [] "info" [], true) else Err EOption
        else Err EOption
  end.

Definition exec_valued : list string :=
  ["--console-socket"; "--cwd"; "--env"; "-e"; "--user"; "-u"; "--additional-gids"; "--process"; "-p"; "--pid-file";
   "--process-label"; "--apparmor"; "--cap"; "--cgroup"]%string.
Definition exec_plain : list string := ["--tty"; "-t"; "--detach"; "-d"; "--no-new-privs"]%string.

(** [RuntimeInvocation.ExecID] *)
Fixpoint ExecID (args : list string) : result rterr string :=
  match args with
  | [] => Err EOption
  | arg :: rest =>
      if negb (HasPrefix arg "-") then if runtimeID arg then Ok arg else Err EOption
      else
        let '(name, inline) := cut_equals arg in
        if bool_decide (name ∈ exec_valued) then
          if (inline : bool) then ExecID rest
          else match rest with [] => Err EOption | _ :: rest' => ExecID rest' end
        else if bool_decide (name ∈ exec_plain) then ExecID rest
        else Err EOption
  end.

Definition forwarded_commands : list string :=
  ["create"; "delete"; "kill"; "state"; "list"; "ps"; "events"; "pause"; "resume"; "update"; "features"; "checkpoint";
   "spec"]%string.

Definition ParseRuntimeInvocation (args : list string) : result rterr RuntimeInvocation :=
  '(call, info) ← global_options (bool_decide (length args = 1%nat)) [] args;
  if (info : bool) then Ok call
  else if (ri_Command call =? "start")%string then
    match ri_Args call with [id] => if runtimeID id then Ok call else Err EOperation | _ => Err EOperation end
  else if (ri_Command call =? "exec")%string then _ ← ExecID (ri_Args call); Ok call
  else if bool_decide (ri_Command call ∈ forwarded_commands) then Ok call
  else Err EOperation.

(** ** Bindings *)

Record RuntimeBinding := mkBinding {
  rb_Version : Z; rb_Server : string; rb_Container : string; rb_Generation : string; rb_Runtime : string;
  rb_Allocations : option assignment; rb_Revision : Z; rb_PolicyHash : string }.

Record RuntimeState := mkState {
  ru_ID : string; ru_PID : Z; ru_Status : string; ru_Bundle : string; ru_Annotations : gmap string string }.
(** A missing key of a Go map reads as the empty string. *)
Definition annotation (k : string) (m : gmap string string) : string := default EmptyString (m !! k).

Definition nil_uuid : string := "00000000-0000-0000-0000-000000000000".

Section Bindings.
Context `{UUIDs} `{JSON}.
Variables (euid : Z) (cwd : list string).

Definition of_store {A} (r : result sterr A) : result rterr A :=
  match r with Ok a => Ok a | Err SMissing => Err EMissing | Err e => Err (EStore e) end.
Definition of_pol {A} (r : result polerr A) : result rterr A :=
  match r with Ok a => Ok a | Err e => Err (EPol e) end.

Definition validate_binding (b : RuntimeBinding) : result rterr unit :=
  match Names (rb_Server b) with
  | None => Err EName
  | Some _ =>
      if negb (uuid_canonical (rb_Generation b)) || (rb_Generation b =? nil_uuid)%string then Err EBinding
      else if negb (rb_Version b =? 1) || negb (runtimeID (rb_Container b)) || (rb_Runtime b =? EmptyString)%string then Err EBinding
      else match rb_Allocations b with
           | None => Err EBinding
           | Some assigned =>
               if ((rb_Revision b =? 0) && negb (rb_PolicyHash b =? EmptyString)%string)
                  || ((0 <? rb_Revision b) && negb (hashPattern (rb_PolicyHash b)))
               then Err EIdentity
               else _ ← of_pol (assignedAllocations assigned); Ok tt
           end
  end.

Definition runtimePath (root id : string) : result rterr string :=
  path ← of_store (policyPath root id);
  Ok (path_Join (path_Dir path) (path_Join "runtime" (id +:+ ".json"))%string).

(** What [json.Marshal] writes: the members of a map are sorted. *)
Definition key_le (a b : string * list Z) : Prop := str_leb (fst a) (fst b) = true.
#[global] Instance key_le_dec : RelDecision key_le.
Proof. intros a b. unfold key_le. apply _. Defined.
Definition assignment_json (m : assignment) : json :=
  JObj (map (λ kv : string * list Z, (fst kv, JArr (map JNum (snd kv)))) (merge_sort key_le (map_to_list m))).
Definition binding_json (b : RuntimeBinding) : json :=
  JObj [("version", JNum (rb_Version b)); ("server", JStr (rb_Server b)); ("container", JStr (rb_Container b));
        ("generation", JStr (rb_Generation b)); ("runtime", JStr (rb_Runtime b));
        ("allocations", match rb_Allocations b with None => JNull | Some m => assignment_json m end);
        ("revision", JNum (rb_Revision b)); ("policy_hash", JStr (rb_PolicyHash b))]%string.

(** Decoding a map of lists of numbers, and a binding, whose unknown members are refused.
    The daemon writes each member once. *)
Definition d_ports (v : json) : result sterr (list Z) :=
  match v with JNull => Ok [] | JArr l => d_each (λ x, d_int (Some x)) l | _ => Err SType end.
Fixpoint d_hosts (l : list (string * json)) : result sterr assignment :=
  match l with
  | [] => Ok ∅
  | (host, v) :: l' => ports ← d_ports v; m ← d_hosts l'; Ok (<[host := ports]> m)
  end.
Definition d_assignment (v : option json) : result sterr (option assignment) :=
  match v with Some (JObj l) => m ← d_hosts l; Ok (Some m) | Some JNull | None => Ok None | _ => Err SType end.
Definition binding_fields : list string :=
  ["version"; "server"; "container"; "generation"; "runtime"; "allocations"; "revision"; "policy_hash"]%string.
Definition known_member (m : string * json) : bool :=
  existsb (λ f, (fst m =? f)%string || json_fold f (fst m)) binding_fields.
Definition d_binding (l : list (string * json)) : result sterr RuntimeBinding :=
  _ ← st_require (forallb known_member l) SShape;
  version ← d_int (member "version" l); server ← d_str (member "server" l);
  container ← d_str (member "container" l); generation ← d_str (member "generation" l);
  runtime ← d_str (member "runtime" l); allocations ← d_assignment (member "allocations" l);
  revision ← d_num 0 maxUint64' (member "revision" l); hash ← d_str (member "policy_hash" l);
  Ok (mkBinding version server container generation runtime allocations revision hash).
(** [Decode] into a binding. *)
Definition decode_binding (data : string) : result sterr RuntimeBinding :=
  if (MaxBody <? strlen data) || negb (bool_decide (first_byte data = Some "{"%char)) then Err SSize
  else
    v ← validateUniqueJSON data;
    match v with JObj l => d_binding l | _ => Err SType end.

(** ** The directory of the policies *)

(** [os.MkdirAll], the names from the last to the first. *)
Definition components (path : string) : list string := filter kept (Split slash path).
Fixpoint mkdir_all (fs : files) (rnames : list string) : result rterr files :=
  let place := found ← namei fs max_links true [] (rev rnames); lookup_node fs (snd found) in
  match place with
  | Ok n => if is_dir n then Ok fs else Err ENotDir
  | Err _ =>
      match rnames with
      | [] => Err EMissing
      | name :: rest =>
          fs' ← mkdir_all fs rest;
          match namei fs' max_links true [] (rev rest) with
          | Err e => Err e
          | Ok (_, dir) =>
              let p := abs (dir ++ [name]) in
              match fs' !! p with
              | None => Ok (<[p := mkNode Directory 448 euid 2]> fs')
              | Some _ => Err EIO
              end
          end
      end
  end.
Definition MkdirAll (fs : files) (path : string) : result rterr files := mkdir_all fs (rev (components path)).

Definition private_directories (fs : files) (path : string) : result rterr unit :=
  _ ← of_store (privatePolicyDirectory euid fs (path_Dir (path_Dir path)));
  of_store (privatePolicyDirectory euid fs (path_Dir path)).

(** [SaveRuntimeBinding], with every state of the files on the way. *)
Definition SaveRuntimeBinding (fl : faults) (tmp root : string) (b : RuntimeBinding) (fs : files)
    : list files * result rterr unit :=
  let prepared :=
    root' ← TrustedRuntimePath euid fs root;
    _ ← validate_binding b;
    path ← runtimePath root' (rb_Server b);
    fs' ← MkdirAll fs (path_Dir path);
    Ok (path, fs') in
  match prepared with
  | Err e => ([fs], Err e)
  | Ok (path, fs') =>
      match private_directories fs' path with
      | Err e => ([fs; fs'], Err e)
      | Ok _ =>
          let data := marshal_json (binding_json b) in
          if MaxBody <? strlen data then ([fs; fs'], Err ETooLarge)
          else let '(l, r) := writeState euid fl (path_Join (path_Dir path) tmp) path data fs' in (fs :: l, of_store r)
      end
  end.

Definition LoadRuntimeBinding (fs : files) (root id : string) : result rterr RuntimeBinding :=
  root' ← TrustedRuntimePath euid fs root;
  path ← runtimePath root' id;
  _ ← private_directories fs path;
  data ← ReadRuntimeFile euid fs cwd path;
  b ← of_store (decode_binding data);
  if negb (rb_Server b =? id)%string then Err EBinding
  else _ ← validate_binding b; Ok b.

Definition SyncRuntimeBinding (fl : faults) (tmp root id : string) (p : Policy) (fs : files)
    : list files * result rterr unit :=
  match LoadRuntimeBinding fs root id with
  | Err EMissing => ([fs], Ok tt)
  | Err e => ([fs], Err e)
  | Ok b =>
      SaveRuntimeBinding fl tmp root
        (mkBinding (rb_Version b) (rb_Server b) (rb_Container b) (rb_Generation b) (rb_Runtime b) (rb_Allocations b)
           (po_Revision p) (po_PolicyHash p)) fs
  end.

Definition RemoveRuntimeBinding (root id : string) (fs : files) : result rterr files :=
  path ← runtimePath root id;
  match Lstat fs cwd path with
  | Err EMissing => Ok fs
  | Err e => Err e
  | Ok _ =>
      root' ← TrustedRuntimePath euid fs root;
      path' ← runtimePath root' id;
      _ ← private_directories fs path';
      match fs !! path' with
      | Some (mkNode Directory _ _ _) => if has_children fs path' then Err EIO else Ok (delete path' fs)
      | _ => Ok (delete path' fs)
      end
  end.
End Bindings.

(** ** Interfaces and namespaces (internal/networkpolicy/linux.go) *)

Section Interfaces.
Context `{Machine} `{Netlink} `{Kernel}.

(** [Backend.Link] *)
Definition backend_Link (device : string) : M Link :=
  _ ← lift (require (valid_link_name device) RName); _ ← route; routeLink device.

Fixpoint decode_links (master : Z) (replies : list message) : result rerr (list Link) :=
  match replies with
  | [] => Ok []
  | m :: replies' =>
      link ← decodeRouteLink m; links ← decode_links master replies';
      Ok (if (master =? 0) || (ln_master link =? master) then link :: links else links)
  end.
(** [Backend.Links] *)
Definition Links (bridge : string) : M (list Link) :=
  _ ← route;
  master ← (if (bridge =? EmptyString)%string then mret 0 else link ← routeLink bridge; mret (ln_Index link));
  attrs ← (if (bridge =? EmptyString)%string then mret []
           else lift (of_option RAttributes (marshal_attributes [(IFLA_MASTER, routeU32 (master mod 2 ^ 32))])));
  replies ← send (mkRequest RTM_GETLINK NLM_F_DUMP (repeat 0 16 ++ attrs));
  lift (decode_links master replies).
End Interfaces.

(** The inode of a process's network namespace, of the daemon's own, and of a path. *)
Class Namespaces := {
  pid_namespace : Z → option Z;
  own_namespace : option Z;
  path_namespace : string → option Z;
}.
Definition docker_namespace (path : string) : bool :=
  HasPrefix path "/var/run/docker/netns/" && negb (Contains path "..").
Definition OpenNamespace `{Namespaces} (pid : Z) (sandbox : string) : result rterr Z :=
  if (pid <=? 1) || negb (docker_namespace sandbox) then Err ENamespace
  else
    match pid_namespace pid with
    | None => Err EIO
    | Some ns =>
        if bool_decide (own_namespace = None) || bool_decide (own_namespace = Some ns) then Err ENamespace
        else if bool_decide (path_namespace sandbox = Some ns) then Ok ns else Err ENamespace
    end.

(** ** The world of the wrapper *)

(** Calls of runc: reading the state, starting the container and whether the lease was
    held then, handing the arguments on. *)
Inductive rcall := CallState | CallStart (lease : bool) | CallForward.

Record world := mkWorld {
  w_files : files; w_nft : list command; w_host : list request; w_inside : list request;
  w_lease : bool; w_calls : list rcall }.

(** One attempt to take the lock.  While it is busy its holder may change the files. *)
Inductive lock_outcome := LockTaken | LockBusy (expired : bool) (others : files → files) | LockFailed.
Record attempt := mkAttempt { at_expired : bool; at_outcome : lock_outcome }.

Record runtime_config := mkConfig {
  rc_Enabled : bool; rc_Runtime : string; rc_Rootless : bool; rc_UsernsMode : string;
  rc_RootDirectory : string; rc_ceiling : Bandwidth }.

Class Host `{Machine} `{Netlink} := {
  host_kernel : Kernel;
  inside_kernel : Z → Kernel;
  (** Whether the last nft command was stopped by its context. *)
  nft_interrupted : list command → bool;
  lock_attempts : world → list attempt;
  (** What runc answers to the last of its calls. *)
  runc_state : list rcall → result rterr RuntimeState;
  runc_start : list rcall → bool;
  (** Whether the context is done. *)
  expired : world → bool;
  (** [os.Executable], and whether two paths name the same file. *)
  own_executable : string;
  same_file : string → string → bool;
  (** The parts of the daemon's configuration that the wrapper reads. *)
  wrapper_config : string → option runtime_config;
}.

Abbreviation W := (st world rterr).

Definition set_files (fs : files) (w : world) : world :=
  mkWorld fs (w_nft w) (w_host w) (w_inside w) (w_lease w) (w_calls w).
Definition set_nft (h : list command) (w : world) : world :=
  mkWorld (w_files w) h (w_host w) (w_inside w) (w_lease w) (w_calls w).
Definition set_host (h : list request) (w : world) : world :=
  mkWorld (w_files w) (w_nft w) h (w_inside w) (w_lease w) (w_calls w).
Definition set_inside (h : list request) (w : world) : world :=
  mkWorld (w_files w) (w_nft w) (w_host w) h (w_lease w) (w_calls w).
Definition set_lease (b : bool) (w : world) : world :=
  mkWorld (w_files w) (w_nft w) (w_host w) (w_inside w) b (w_calls w).
Definition add_call (c : rcall) (w : world) : world :=
  mkWorld (w_files w) (w_nft w) (w_host w) (w_inside w) (w_lease w) (w_calls w ++ [c]).

Section World.
Context `{UUIDs} `{JSON} `{UnicodeTables} `{Nft} `{Machine} `{Netlink} `{!Host} `{Namespaces}.
Variables (euid : Z) (cwd : list string).

Definition route_error (e : rerr) : rterr := match e with RCtx => ECtx | _ => ERoute e end.
Definition nft_op {A} (m : F A) : W A := λ w,
  let '(h, r) := m (w_nft w) in
  (match r with Ok a => Ok a | Err FRun => Err (if nft_interrupted h then ECtx else ENft) | Err _ => Err ENft end, set_nft h w).
Definition host_op {A} (m : M A) : W A := λ w,
  let '(h, r) := m (w_host w) in (match r with Ok a => Ok a | Err e => Err (route_error e) end, set_host h w).
Definition inside_op {A} (m : M A) : W A := λ w,
  let '(h, r) := m (w_inside w) in (match r with Ok a => Ok a | Err e => Err (route_error e) end, set_inside h w).
(** A computation that only reads the files. *)
Definition read {A} (f : files → result rterr A) : W A := λ w, (f (w_files w), w).
Definition check_context : W unit := λ w, (if expired w then Err ECtx else Ok tt, w).

(** The deferred closing of the lease. *)
Definition with_lease {A} (m : W A) : W A := λ w, let '(r, w') := m w in (r, set_lease false w').

(** *** The lock *)

(** [strings.TrimSuffix] *)
Definition TrimSuffix (s suffix : string) : string :=
  if HasSuffix s suffix then take_string (String.length s - String.length suffix) s else s.
Definition lock_file (path : string) : string := TrimSuffix path ".json" +:+ ".lock".

(** Opening the lock's file, which is created when it is missing. *)
Definition open_lock (fs : files) (path : string) : result rterr files :=
  match fs !! path with
  | None => Ok (<[path := mkNode (Regular EmptyString) 384 euid 1]> fs)
  | Some n => match nd_kind n with
              | Symlink _ | Directory => Err EIO
              | _ => if owned_file euid 63 n then Ok fs else Err EFile
              end
  end.
Fixpoint flock (l : list attempt) (fs : files) : result rterr unit * files :=
  match l with
  | [] => (Err ECtx, fs)
  | a :: l' =>
      if at_expired a then (Err ECtx, fs)
      else match at_outcome a with
           | LockTaken => (Ok tt, fs)
           | LockFailed => (Err EIO, fs)
           | LockBusy true others => (Err ECtx, others fs)
           | LockBusy false others => flock l' (others fs)
           end
  end.

Definition LockRuntime (root id : string) : W unit := λ w,
  let fs := w_files w in
  let prepared :=
    root' ← TrustedRuntimePath euid fs root;
    path ← of_store (policyPath root' id);
    fs' ← MkdirAll euid fs (path_Dir path);
    Ok (path, fs') in
  match prepared with
  | Err e => (Err e, w)
  | Ok (path, fs') =>
      match of_store (privatePolicyDirectory euid fs' (path_Dir path)) with
      | Err e => (Err e, set_files fs' w)
      | Ok _ =>
          match open_lock fs' (lock_file path) with
          | Err e => (Err e, set_files fs' w)
          | Ok fs'' =>
              let '(r, fs3) := flock (lock_attempts (set_files fs'' w)) fs'' in
              (r, set_lease (is_ok r) (set_files fs3 w))
          end
      end
  end.

(** *** The container's namespace *)

(** The OCI configuration, of which containerd writes each field once: the annotations,
    and the type and path of each namespace. *)
Definition d_string_map (v : option json) : result sterr (gmap string string) :=
  match v with
  | Some (JObj l) =>
      (fix go (l : list (string * json)) : result sterr (gmap string string) :=
         match l with
         | [] => Ok ∅
         | (k, x) :: l' => s ← d_str (Some x); m ← go l'; Ok (<[k := s]> m)
         end) l
  | Some JNull | None => Ok ∅
  | _ => Err SType
  end.
Definition d_namespace (v : json) : result sterr (string * string) :=
  l ← d_obj (Some v);
  kind ← d_str (member "type" l); path ← d_str (member "path" l); Ok (kind, path).
Definition d_spec (v : json) : result sterr (gmap string string * list (string * string)) :=
  l ← d_obj (Some v);
  annotations ← d_string_map (member "annotations" l);
  linux ← d_obj (member "linux" l);
  namespaces ← d_slice d_namespace (member "namespaces" linux);
  Ok (annotations, default [] namespaces).

Fixpoint find_namespace (l : list (string * string)) (found : string) : result rterr string :=
  match l with
  | [] => if (found =? EmptyString)%string then Err ENamespace else Ok found
  | (kind, path) :: l' =>
      if (kind =? "user")%string then Err ENamespace
      else if (kind =? "network")%string then
        if negb (found =? EmptyString)%string || negb (docker_namespace path) then Err ENamespace
        else find_namespace l' path
      else find_namespace l' found
  end.

Definition names_binding (annotations : gmap string string) (b : RuntimeBinding) : bool :=
  (annotation RuntimeServerKey annotations =? rb_Server b)%string
  && (annotation RuntimeGenerationKey annotations =? rb_Generation b)%string.

Definition runtimeNamespace (state : RuntimeState) (b : RuntimeBinding) (fs : files) : result rterr string :=
  if negb (ru_Status state =? "created")%string || (ru_PID state <=? 1) || negb (ru_ID state =? rb_Container b)%string
     || negb (names_binding (ru_Annotations state) b)
  then Err EState
  else
    data ← ReadRuntimeFile euid fs cwd (path_Join (ru_Bundle state) "config.json");
    v ← of_store (validateUniqueJSON data);
    '(annotations, namespaces) ← of_store (d_spec v);
    if negb (names_binding annotations b) then Err EState
    else find_namespace namespaces EmptyString.

(** *** Starting *)

(** The interface of the container besides its loopback: there is exactly one. *)
Fixpoint container_device (links : list Link) (found : option Link) : result rterr (option Link) :=
  match links with
  | [] => Ok found
  | link :: links' =>
      if (ln_Name link =? "lo")%string then container_device links' found
      else match found with Some _ => Err EPairing | None => container_device links' (Some link) end
  end.
(** The two ends of the pair that connects the container to its bridge. *)
Definition paired (host : list Link) (device : option Link) : result rterr (Link * Link) :=
  match host, device with
  | [h], Some d => if (ln_Peer d =? ln_Index h) && (ln_Peer h =? ln_Index d) then Ok (h, d) else Err EPairing
  | _, _ => Err EPairing
  end.

Definition gate (id : string) (p : Policy) : W unit :=
  _ ← nft_op (Firewall id p ∅ true);
  nft_op (VerifyFirewall id p ∅ true).

(** Shaping both directions: upload inside the namespace, download at the host's end. *)
Definition shape_both (ns : Z) (host device : Link) (rate : Bandwidth) : W unit :=
  _ ← inside_op (Shape (H1 := inside_kernel ns) (ln_Name device) (bw_Upload rate) (ln_MTU device));
  _ ← inside_op (VerifyShape (H1 := inside_kernel ns) (ln_Name device) (bw_Upload rate) (ln_MTU device));
  _ ← host_op (Shape (H1 := host_kernel) (ln_Name host) (bw_Download rate) (ln_MTU host));
  host_op (VerifyShape (H1 := host_kernel) (ln_Name host) (bw_Download rate) (ln_MTU host)).

(** The [loadState] of the wrapper: runc's state of this container. *)
Definition load_state (container : string) : W RuntimeState := λ w,
  let w' := add_call CallState w in
  (match runc_state (w_calls w') with
   | Ok state => if (ru_ID state =? container)%string then Ok state else Err EState
   | Err e => Err e
   end, w').
Definition start : W unit := λ w,
  let w' := add_call (CallStart (w_lease w)) w in (if runc_start (w_calls w') then Ok tt else Err EStart, w').

(** What is done under the lease. *)
Definition start_leased (container root runtime id : string) (ceiling : Bandwidth) : W unit :=
  state ← load_state container;
  binding ← read (λ fs, LoadRuntimeBinding euid cwd fs root id);
  _ ← st_lift (require (negb (runtime =? EmptyString)%string && (rb_Runtime binding =? runtime)%string) EBinding);
  policy ← read (λ fs, of_store (Load euid fs root id));
  _ ← st_lift (require ((po_Revision policy =? rb_Revision binding)
                        && (po_PolicyHash policy =? rb_PolicyHash binding)%string) EIdentity);
  let assigned := default ∅ (rb_Allocations binding) in
  _ ← st_lift (of_pol (ValidateEnforcement json_policy_hash marshal_len policy assigned ceiling));
  namespace ← read (runtimeNamespace state binding);
  ns ← st_lift (OpenNamespace (ru_PID state) namespace);
  bridge ← st_lift (match Names id with Some (_, bridge, _) => Ok bridge | None => Ok EmptyString end);
  host ← host_op (Links (H1 := host_kernel) bridge);
  inside ← inside_op (Links (H1 := inside_kernel ns) EmptyString);
  device ← st_lift (container_device inside None);
  '(h, d) ← st_lift (paired host device);
  _ ← (if firewall_enabled policy then gate id policy else mret tt);
  _ ← shape_both ns h d (Effective policy ceiling);
  _ ← nft_op (Firewall id policy assigned false);
  _ ← nft_op (VerifyFirewall id policy assigned false);
  _ ← check_context;
  start.

Definition RuntimeStart (container root runtime : string) (ceiling : Bandwidth) : W unit :=
  root' ← read (λ fs, TrustedRuntimePath euid fs root);
  state ← load_state container;
  let id := annotation RuntimeServerKey (ru_Annotations state) in
  _ ← LockRuntime root' id;
  with_lease (start_leased container root' runtime id ceiling).

(** *** Registration and the wrapper's command *)

Definition stat_file (fs : files) (path : string) : result rterr unit := _ ← Stat fs cwd path; Ok tt.

Definition ValidateRuntimeRegistration (path : string) (args : list string) (configPath : string) (fs : files)
    : result rterr unit :=
  _ ← ValidateRuntimeExecutable euid fs cwd path;
  _ ← stat_file fs own_executable;
  _ ← stat_file fs path;
  _ ← require (same_file own_executable path) ERegistration;
  match args with
  | [a0; a1; a2; a3; a4; a5] =>
      _ ← require ((a0 =? "nsm-runtime") && (a1 =? "--config") && (a2 =? configPath) && (a3 =? "--runc") && (a5 =? "--"))%string
            ERegistration;
      _ ← ValidateRuntimeExecutable euid fs cwd a4;
      _ ← stat_file fs a4;
      _ ← require (negb (same_file a4 own_executable)) ERegistration;
      _ ← ReadRuntimeFile euid fs cwd configPath;
      Ok tt
  | _ => Err ERegistration
  end.

(** [syscall.Exec] of runc with the same arguments. *)
Definition forward : W unit := λ w, (Ok tt, add_call CallForward w).

(** [runNetworkRuntime], after its own options were parsed. *)
Definition runNetworkRuntime (configFile runc : string) (args : list string) : W unit :=
  _ ← st_lift (require (euid =? 0) EOwner);
  call ← st_lift (ParseRuntimeInvocation args);
  _ ← read (λ fs, ValidateRuntimeExecutable euid fs cwd runc);
  native ← read (λ fs, TrustedRuntimePath euid fs runc);
  _ ← read (λ fs, stat_file fs own_executable);
  _ ← read (λ fs, stat_file fs native);
  _ ← st_lift (require (negb (same_file own_executable native)) ERegistration);
  if (ri_Command call =? "start")%string then
    match ri_Args call with
    | [id] =>
        _ ← read (λ fs, ReadRuntimeFile euid fs cwd configFile);
        cfg ← st_lift (match wrapper_config configFile with Some c => Ok c | None => Err EIO end);
        _ ← st_lift (require (rc_Enabled cfg && negb (rc_Runtime cfg =? EmptyString)%string) EState);
        _ ← st_lift (require (negb (rc_Rootless cfg) && (rc_UsernsMode cfg =? EmptyString)%string) EState);
        RuntimeStart id (rc_RootDirectory cfg) (rc_Runtime cfg) (rc_ceiling cfg)
    | _ => st_err EOperation
    end
  else if (ri_Command call =? "exec")%string then
    id ← st_lift (ExecID (ri_Args call));
    state ← load_state id;
    _ ← st_lift (require (ru_Status state =? "running")%string EState);
    _ ← check_context;
    forward
  else forward.
End World.
