(* ===== verification/RuntimeFacts.v ===== *)
(** * Correctness of the runtime wrapper

    The arguments that are accepted, saving and loading a binding, and that a container is
    started only behind the verified enforcement of its policy. *)

From stdpp Require Import base gmap sets list strings numbers sorting.
From Stdlib Require Import Ascii.
From S2P Require Import Prelude GoStrings Policy Nft NftFacts Paths PathsFacts Route Shaping Store StoreFacts NftState.
From S2P Require Import NftEval NftImplied NftLink NftGood NftVerify RuntimePath Runtime.
Open Scope Z_scope.

(** ** Arguments *)

Lemma global_options_spec only before args call info :
  global_options only before args = Ok (call, info) →
  (info = true ∧ call = mkCall [] "info" []) ∨ (info = false ∧ call = mkCall [] EmptyString [])
  ∨ info = false ∧ before ++ args = ri_Global call ++ ri_Command call :: ri_Args call
    ∧ HasPrefix (ri_Command call) "-" = false.
Proof.
  revert before. induction args as [args IH] using (induction_ltof1 _ (@length string)); unfold ltof in IH.
  intros before. destruct args as [|arg rest]; cbn [global_options]; [intros [= <- <-]; auto|].
  destruct (HasPrefix arg "-") eqn:P; cbn [negb]; [|intros [= <- <-]; auto].
  destruct (cut_equals arg) as [name inline].
  assert (R : before ++ arg :: rest = (before ++ [arg]) ++ rest) by (by rewrite <-app_assoc).
  case_bool_decide as V.
  - destruct inline.
    + intros E. apply IH in E; [|cbn; lia]. by rewrite R.
    + destruct rest as [|value rest]; [done|]. intros E. apply IH in E; [|cbn; lia].
      by rewrite <-app_assoc in E.
  - case_bool_decide; [intros E; apply IH in E; [by rewrite R | cbn; lia]|].
    case_bool_decide; [|done]. destruct only; [|done]. intros [= <- <-]. auto.
Qed.

Lemma ExecID_spec args id : ExecID args = Ok id → runtimeID id = true ∧ id ∈ args.
Proof.
  induction args as [args IH] using (induction_ltof1 _ (@length string)); unfold ltof in IH.
  destruct args as [|arg rest]; [done|]. cbn [ExecID].
  assert (K : ∀ l, (length l < length (arg :: rest))%nat → (∀ x, x ∈ l → x ∈ arg :: rest) →
              ExecID l = Ok id → runtimeID id = true ∧ id ∈ arg :: rest).
  { intros l L S E. destruct (IH l L E). auto. }
  destruct (HasPrefix arg "-"); cbn [negb].
  - destruct (cut_equals arg) as [name inline]. case_bool_decide; [destruct inline|].
    + apply K; [cbn; lia | set_solver].
    + destruct rest as [|v rest]; [done|]. apply K; [cbn; lia | set_solver].
    + case_bool_decide; [|done]. apply K; [cbn; lia | set_solver].
  - destruct (runtimeID arg) eqn:R; [|done]. intros [= <-]. split; [done | set_solver].
Qed.

(** An invocation that is accepted and is not a request for information is the
    arguments themselves, split at the first one that is no option; the operation is one
    of those that are handed on, or [exec] of one full container ID, or [start] with a
    full container ID as its only argument.  Operations that would start a container in
    another way are refused. *)
Theorem ParseRuntimeInvocation_exact args call :
  ParseRuntimeInvocation args = Ok call → ri_Command call ≠ "info"%string →
  args = ri_Global call ++ ri_Command call :: ri_Args call
  ∧ ((ri_Command call = "start"%string ∧ ∃ id, ri_Args call = [id] ∧ runtimeID id = true)
     ∨ (ri_Command call = "exec"%string ∧ ∃ id, ExecID (ri_Args call) = Ok id ∧ runtimeID id = true ∧ id ∈ ri_Args call)
     ∨ ri_Command call ∈ forwarded_commands)
  ∧ ri_Command call ≠ "run"%string ∧ ri_Command call ≠ "restore"%string.
Proof.
  unfold ParseRuntimeInvocation. intros E N. apply result_bind_Ok in E as ([c info] & G & E).
  apply global_options_spec in G as [[-> ->]|[[-> ->]|(-> & S & _)]]; [by injection E as <-|by vm_compute in E|]. cbn [app] in S.
  destruct (String.eqb_spec (ri_Command c) "start") as [C|C].
  { destruct (ri_Args c) as [|id []] eqn:A; [done| |done]. destruct (runtimeID id) eqn:R; [|done]. injection E as <-.
    rewrite <-A in S. split; [done|]. rewrite C. split; [left; split; [done|]; by exists id | done]. }
  destruct (String.eqb_spec (ri_Command c) "exec") as [C'|C'].
  { apply result_bind_Ok in E as (id & X & E). injection E as <-. destruct (ExecID_spec _ _ X).
    split; [done|]. rewrite C'. split; [right; left; split; [done|]; by exists id | done]. }
  case_bool_decide as F; [|done]. injection E as <-. split; [done|]. split; [auto|].
  split; intros R; rewrite R in F; revert F; apply (bool_decide_eq_false_1 (_ ∈ forwarded_commands)); reflexivity.
Qed.

(** ** What verification shows *)

Lemma M_bind_Ok {A B} (m : M A) (f : A → M B) h h2 b :
  (m ≫= f) h = (h2, Ok b) → ∃ a h1, m h = (h1, Ok a) ∧ f a h1 = (h2, Ok b).
Proof. unfold mbind, M_bind. destruct (m h) as [h1 [a|e]]; [eauto | done]. Qed.

Section Verified.
Context `{JSONLaws} `{UUIDLaws} `{UnicodeTables} `{NftLaws}.

(** The last answer of nft: rules that decide every packet of the bridge as the policy
    does, or the report that there is no table when the firewall is off.  As in
    [VerifyFirewall_sound] the listing is one of nft's grammar without a match of the
    frame's type under a mask ([listing_ok]), and the packets are those that exist ([sane],
    [valid_packet]). *)
Definition filtered (id : string) (p : Policy) (assigned : assignment) (closed : bool) (h : list command) : Prop :=
  ∃ net bridge table, Names id = Some (net, bridge, table) ∧
  if closed || firewall_enabled p then
    ∃ out v os, nft_run h = RunOk out ∧ first_json out = Some v ∧ live_state v = Some os
    ∧ (listing_ok os → ∀ direction k,
         direction = "outbound"%string ∨ direction = "inbound"%string → sane k → valid_packet k →
         listing_accepts k os table (hook_of direction)
         = if bool_decide (on_bridge direction k = bridge) then bridge_allowed p assigned closed direction k else true)
  else ∃ out code, nft_run h = RunErr out code ∧ missingNftTable out code table = true.

Lemma VerifyFirewall_filtered id p assigned closed h h' :
  VerifyFirewall id p assigned closed h = (h', Ok tt) → filtered id p assigned closed h'.
Proof.
  intros V. destruct (Names id) as [[[net bridge] table]|] eqn:NM; cycle 1.
  { unfold VerifyFirewall, table_of, f_lift, mbind, F_bind in V. by rewrite NM in V. }
  exists net, bridge, table. split; [done|]. destruct (closed || firewall_enabled p) eqn:C.
  { apply (verified_decides id p assigned closed net bridge table h h' NM); [|done]. apply orb_true_iff in C. tauto. }
  apply orb_false_iff in C as [-> EN]. unfold VerifyFirewall in V.
  apply F_bind_ok in V as (t & h1 & T & V). unfold table_of, f_lift in T. rewrite NM in T. injection T as <- <-.
  rewrite EN in V. cbn [negb andb] in V. apply F_bind_ok in V as (ex & h2 & X & V).
  destruct ex; [done|]. injection V as <-. unfold tableExists in X.
  apply F_bind_ok in X as (o & h3 & R & X). injection R as <- <-. unfold f_lift in X. apply pair_equal_spec in X as [<- X].
  set (hh := h ++ _) in *. destruct (nft_run hh) as [out|out code] eqn:N.
  - destruct (parse_json out); [|done]. cbn [mbind result_bind] in X. destruct (decode_tables _) as [ts|]; [|done].
    cbn [mbind result_bind] in X. exfalso. clear - X. induction ts as [|[[[f n] c]|] ts IH]; [done| |by apply IH].
    cbn [owned_table] in X. destruct (_ || _); [by apply IH|]. by destruct (_ =? _)%string.
  - exists out, code. by destruct (missingNftTable out code table).
Qed.
End Verified.

Section Queues.
Context `{Machine} `{Netlink}.

(** The last answer of the kernel shows the queues of the profile on the device. *)
Definition shaped (K : Kernel) (device : string) (rate mtu : Z) (h : list request) : Prop :=
  ∃ p index replies qdiscs, newShapingProfile device rate mtu = Ok p
    ∧ list.last h = Some (mkRequest RTM_GETQDISC NLM_F_DUMP (shaperMessage index 0 0))
    ∧ answer h = Ok replies ∧ decode_shapers index replies = Ok qdiscs ∧ verify p qdiscs = Ok tt.

Lemma VerifyShape_shaped (K : Kernel) device rate mtu h h' :
  VerifyShape (H1 := K) device rate mtu h = (h', Ok tt) → shaped K device rate mtu h'.
Proof.
  unfold VerifyShape. intros V. apply M_bind_Ok in V as (p & h1 & P & V). injection P as -> P.
  apply M_bind_Ok in V as (qs & h2 & R & V). injection V as -> V. unfold readShapers in R.
  apply M_bind_Ok in R as ([] & h3 & _ & R). apply M_bind_Ok in R as (link & h4 & _ & R).
  unfold readRouteShapers in R. apply M_bind_Ok in R as (replies & h5 & S & R). injection R as -> R.
  unfold send in S. destruct (cancelled h4); [done|]. injection S as <- S.
  exists p, (ln_Index link), replies, qs. by rewrite last_snoc.
Qed.
End Queues.

(** ** Starting a container *)

Definition is_start (c : rcall) : bool := match c with CallStart _ => true | _ => false end.
Definition starts (w : world) : list rcall := List.filter is_start (w_calls w).
Lemma starts_add c w : starts (add_call c w) = starts w ++ (if is_start c then [c] else []).
Proof. unfold starts. cbn [w_calls add_call]. rewrite List.filter_app. cbn [List.filter]. by destruct (is_start c). Qed.

(** A computation that starts nothing. *)
Definition quiet {A} (m : W A) : Prop := ∀ w, starts (snd (m w)) = starts w.

Section Starting.
Context `{UUIDs} `{JSON} `{UnicodeTables} `{Nft} `{Machine} `{Netlink} `{!Host} `{Namespaces}.
Variables (euid : Z) (cwd : list string).

Lemma quiet_ret {A} (a : A) : quiet (mret a).
Proof. done. Qed.
Lemma quiet_bind {A B} (m : W A) (f : A → W B) : quiet m → (∀ a, quiet (f a)) → quiet (m ≫= f).
Proof.
  intros M F w. unfold mbind, st_bind. specialize (M w). destruct (m w) as [[a|e] w1]; [|done]. cbn in M. by rewrite F.
Qed.
Lemma quiet_lift {A} (r : result rterr A) : quiet (st_lift r).
Proof. done. Qed.
Lemma quiet_read {A} (f : files → result rterr A) : quiet (read f).
Proof. done. Qed.
Lemma quiet_nft {A} (m : F A) : quiet (nft_op m).
Proof. intros w. unfold nft_op. by destruct (m (w_nft w)). Qed.
Lemma quiet_host {A} (m : M A) : quiet (host_op m).
Proof. intros w. unfold host_op. by destruct (m (w_host w)). Qed.
Lemma quiet_inside {A} (m : M A) : quiet (inside_op m).
Proof. intros w. unfold inside_op. by destruct (m (w_inside w)). Qed.
Lemma quiet_load container : quiet (load_state container).
Proof. intros w. unfold load_state. cbn [snd]. by rewrite starts_add, app_nil_r. Qed.
Lemma quiet_context : quiet check_context.
Proof. done. Qed.
Lemma quiet_lock root id : quiet (LockRuntime euid root id).
Proof.
  intros w. unfold LockRuntime. destruct (_ : result rterr (string * files)) as [[path fs']|]; [|done].
  destruct (of_store _); [|done]. destruct (open_lock _ _ _); [|done]. by destruct (flock _ _).
Qed.
#[local] Hint Resolve quiet_ret quiet_bind quiet_lift quiet_read quiet_nft quiet_host quiet_inside quiet_load
  quiet_context quiet_lock : wings.

Lemma quiet_if {A} (b : bool) (m n : W A) : quiet m → quiet n → quiet (if b then m else n).
Proof. by destruct b. Qed.
#[local] Hint Resolve quiet_if : wings.
Lemma quiet_gate id p : quiet (gate id p).
Proof. unfold gate. auto with wings. Qed.
Lemma quiet_shape ns h d rate : quiet (shape_both ns h d rate).
Proof. unfold shape_both. auto 10 with wings. Qed.
#[local] Hint Resolve quiet_gate quiet_shape : wings.

(** A start after a quiet step comes from what follows it. *)
Lemma start_bind {A B} (m : W A) (f : A → W B) w w' :
  quiet m → snd ((m ≫= f) w) = w' → starts w' ≠ starts w →
  ∃ a w1, m w = (Ok a, w1) ∧ snd (f a w1) = w' ∧ starts w1 = starts w ∧ starts w' ≠ starts w1.
Proof.
  intros Q E N. specialize (Q w). unfold mbind, st_bind in E. destruct (m w) as [[a|e] w1]; cbn in Q, E; subst w'.
  - exists a, w1. rewrite Q. done.
  - by destruct N.
Qed.
Lemma nft_op_Ok {A} (m : F A) w a w1 : nft_op m w = (Ok a, w1) → ∃ h, m (w_nft w) = (h, Ok a) ∧ w1 = set_nft h w.
Proof. unfold nft_op. destruct (m (w_nft w)) as [h [b|e]]; [intros [= -> <-]; eauto | by destruct e]. Qed.
Lemma host_op_Ok {A} (m : M A) w a w1 : host_op m w = (Ok a, w1) → ∃ h, m (w_host w) = (h, Ok a) ∧ w1 = set_host h w.
Proof. unfold host_op. destruct (m (w_host w)) as [h [b|e]]; [intros [= -> <-]; eauto | done]. Qed.
Lemma inside_op_Ok {A} (m : M A) w a w1 : inside_op m w = (Ok a, w1) → ∃ h, m (w_inside w) = (h, Ok a) ∧ w1 = set_inside h w.
Proof. unfold inside_op. destruct (m (w_inside w)) as [h [b|e]]; [intros [= -> <-]; eauto | done]. Qed.
Lemma read_Ok {A} (f : files → result rterr A) w a w1 : read f w = (Ok a, w1) → f (w_files w) = Ok a ∧ w1 = w.
Proof. unfold read. by intros [= <- <-]. Qed.
Lemma lift_Ok {A} (r : result rterr A) (w : world) a w1 : st_lift r w = (Ok a, w1) → r = Ok a ∧ w1 = w.
Proof. unfold st_lift. by intros [= <- <-]. Qed.

(** Where the enforcement of a policy stands in a world: the binding and the policy the
    files hold name each other and this container, the policy is valid for the bound
    allocations, and what was last read from the kernel and from nft shows it enforced. *)
Definition bound (fs : files) (container root runtime id : string) (ceiling : Bandwidth) (b : RuntimeBinding) (p : Policy)
    (assigned : assignment) : Prop :=
  LoadRuntimeBinding euid cwd fs root id = Ok b ∧ rb_Container b = container ∧ rb_Runtime b = runtime
  ∧ rb_Allocations b = Some assigned ∧ Load euid fs root id = Ok p
  ∧ po_Revision p = rb_Revision b ∧ po_PolicyHash p = rb_PolicyHash b
  ∧ ValidateEnforcement json_policy_hash marshal_len p assigned ceiling = Ok tt.
Definition enforced (id : string) (p : Policy) (assigned : assignment) (ceiling : Bandwidth) (w : world) : Prop :=
  ∃ ns h d, let rate := Effective p ceiling in
    shaped (inside_kernel ns) (ln_Name d) (bw_Upload rate) (ln_MTU d) (w_inside w)
    ∧ shaped host_kernel (ln_Name h) (bw_Download rate) (ln_MTU h) (w_host w)
    ∧ ln_Peer d = ln_Index h ∧ ln_Peer h = ln_Index d
    ∧ ∃ hf, VerifyFirewall id p assigned false hf = (w_nft w, Ok tt).

Lemma shape_both_Ok ns h d rate w w1 :
  shape_both ns h d rate w = (Ok tt, w1) →
  shaped (inside_kernel ns) (ln_Name d) (bw_Upload rate) (ln_MTU d) (w_inside w1)
  ∧ shaped host_kernel (ln_Name h) (bw_Download rate) (ln_MTU h) (w_host w1)
  ∧ w_nft w1 = w_nft w ∧ w_files w1 = w_files w ∧ w_lease w1 = w_lease w.
Proof.
  unfold shape_both. intros E. apply st_bind_Ok in E as ([] & w2 & E1 & E). apply inside_op_Ok in E1 as (h1 & _ & ->).
  apply st_bind_Ok in E as ([] & w3 & E2 & E). apply inside_op_Ok in E2 as (h2 & V2 & ->).
  apply st_bind_Ok in E as ([] & w4 & E3 & E). apply host_op_Ok in E3 as (h3 & _ & ->).
  apply host_op_Ok in E as (h4 & V4 & ->). cbn [w_inside w_host w_nft w_files w_lease set_inside set_host] in *.
  split; [by eapply VerifyShape_shaped|]. split; [by eapply VerifyShape_shaped | done].
Qed.
Lemma gate_Ok id p w w1 : gate id p w = (Ok tt, w1) → w1 = set_nft (w_nft w1) w.
Proof.
  unfold gate. intros E. apply st_bind_Ok in E as ([] & w2 & E1 & E). apply nft_op_Ok in E1 as (h1 & _ & ->).
  by apply nft_op_Ok in E as (h2 & _ & ->).
Qed.
Lemma load_state_Ok container w st w1 :
  load_state container w = (Ok st, w1) → ru_ID st = container ∧ w1 = add_call CallState w.
Proof.
  unfold load_state. destruct (runc_state _) as [s|]; [|done]. destruct (String.eqb_spec (ru_ID s) container); [|done].
  by intros [= <- <-].
Qed.
Lemma paired_Ok host device h d :
  paired host device = Ok (h, d) → host = [h] ∧ device = Some d ∧ ln_Peer d = ln_Index h ∧ ln_Peer h = ln_Index d.
Proof.
  unfold paired. destruct host as [|x []], device as [y|]; try done.
  destruct (_ && _) eqn:E; [|done]. apply andb_true_iff in E as [E1%Z.eqb_eq E2%Z.eqb_eq]. by intros [= <- <-].
Qed.
Lemma binding_allocations fs root id b :
  LoadRuntimeBinding euid cwd fs root id = Ok b → ∃ assigned, rb_Allocations b = Some assigned.
Proof.
  unfold LoadRuntimeBinding. intros E. apply result_bind_Ok in E as (r & _ & E). apply result_bind_Ok in E as (path & _ & E).
  apply result_bind_Ok in E as (u & _ & E). apply result_bind_Ok in E as (data & _ & E). apply result_bind_Ok in E as (b' & _ & E).
  destruct (negb _); [done|]. apply result_bind_Ok in E as (v & V & E). injection E as <-.
  unfold validate_binding in V. destruct (Names _); [|done]. destruct (_ || _); [done|]. destruct (_ || _); [done|].
  destruct (rb_Allocations b') as [a|]; [by exists a | done].
Qed.
Lemma namespace_container state b fs ns : runtimeNamespace euid cwd state b fs = Ok ns → ru_ID state = rb_Container b.
Proof.
  unfold runtimeNamespace. destruct (String.eqb_spec (ru_ID state) (rb_Container b)); [done|].
  cbn [negb]. by rewrite orb_true_r.
Qed.

Ltac step E N a w1 S :=
  let X := fresh in let E' := fresh in let N' := fresh in
  pose proof (λ Q, start_bind _ _ _ _ Q E N) as X; clear E N;
  destruct X as (a & w1 & S & E & ? & N); [by auto with wings|].

Lemma start_leased_enforced container root runtime id ceiling w w' :
  snd (start_leased euid cwd container root runtime id ceiling w) = w' → starts w' ≠ starts w →
  starts w' = starts w ++ [CallStart (w_lease w)] ∧ w_files w' = w_files w
  ∧ ∃ b p assigned, bound (w_files w) container root runtime id ceiling b p assigned ∧ enforced id p assigned ceiling w'.
Proof.
  unfold start_leased. intros E N.
  step E N state w1 S1. apply load_state_Ok in S1 as [ID ->].
  step E N b w2 S2. apply read_Ok in S2 as [LB ->].
  step E N u3 w3 S3. apply lift_Ok in S3 as [RT ->]. apply require_Ok, andb_true_iff in RT as [_ RT%String.eqb_eq].
  step E N p w4 S4. apply read_Ok in S4 as [LP ->].
  step E N u5 w5 S5. apply lift_Ok in S5 as [IDN ->]. apply require_Ok, andb_true_iff in IDN as [RV%Z.eqb_eq PH%String.eqb_eq].
  step E N u6 w6 S6. apply lift_Ok in S6 as [VE ->].
  step E N namespace w7 S7. apply read_Ok in S7 as [RN ->].
  step E N ns w8 S8. apply lift_Ok in S8 as [ON ->].
  step E N bridge w9 S9. apply lift_Ok in S9 as [_ ->].
  step E N host w10 S10. apply host_op_Ok in S10 as (hh & _ & ->).
  step E N inside w11 S11. apply inside_op_Ok in S11 as (hi & _ & ->).
  step E N device w12 S12. apply lift_Ok in S12 as [_ ->].
  step E N ends w13 S13. apply lift_Ok in S13 as [PR ->]. destruct ends as [h d]. apply paired_Ok in PR as (_ & _ & P1 & P2).
  step E N u14 w14 S14.
  assert (G : w14 = set_nft (w_nft w14) (set_inside hi (set_host hh (add_call CallState w)))).
  { destruct (firewall_enabled p); [destruct u14; by apply gate_Ok in S14 | by injection S14 as _ <-]. }
  clear S14. step E N u15 w15 S15. destruct u15. apply shape_both_Ok in S15 as (SI & SH & _ & F15 & L15).
  step E N u16 w16 S16. apply nft_op_Ok in S16 as (h16 & _ & ->).
  step E N u17 w17 S17. destruct u17. apply nft_op_Ok in S17 as (h17 & V17 & ->).
  step E N u18 w18 S18. unfold check_context in S18. destruct (expired _); [done|]. injection S18 as _ <-.
  assert (FS : w_files w15 = w_files w) by (by rewrite F15, G).
  assert (LS : w_lease w15 = w_lease w) by (by rewrite L15, G).
  unfold start in E. cbn [snd] in E. subst w'.
  split; [rewrite starts_add; cbn [is_start w_lease set_nft]; congruence|]. split; [done|].
  destruct (binding_allocations _ _ _ _ LB) as [assigned AS].
  pose proof (namespace_container _ _ _ _ RN) as NC. rewrite AS in *. cbn [default from_option] in *.
  exists b, p, assigned. split.
  - unfold bound. cbn [w_files add_call] in *. destruct (ValidateEnforcement _ _ _ _ _) as [[]|]; [|done].
    destruct (Load euid (w_files w) root id) as [p'|] eqn:LD; [|by destruct e]. injection LP as ->.
    by rewrite <-NC.
  - exists ns, h, d. repeat (split; [done|]). by exists h16.
Qed.

Lemma LockRuntime_Ok root id w w1 : LockRuntime euid root id w = (Ok tt, w1) → w_lease w1 = true.
Proof.
  unfold LockRuntime. destruct (_ : result rterr (string * files)) as [[path fs']|]; [|done].
  destruct (of_store _); [|done]. destruct (open_lock _ _ _); [|done]. destruct (flock _ _) as [r fs3]. by intros [= -> <-].
Qed.
Lemma quiet_forward : quiet forward.
Proof. intros w. unfold forward. cbn [snd]. by rewrite starts_add, app_nil_r. Qed.
#[local] Hint Resolve quiet_forward : wings.

Lemma RuntimeStart_enforced container root runtime ceiling w w' :
  snd (RuntimeStart euid cwd container root runtime ceiling w) = w' → starts w' ≠ starts w →
  starts w' = starts w ++ [CallStart true] ∧ w_lease w' = false
  ∧ ∃ root' id b p assigned, TrustedRuntimePath euid (w_files w) root = Ok root'
    ∧ bound (w_files w') container root' runtime id ceiling b p assigned ∧ enforced id p assigned ceiling w'.
Proof.
  unfold RuntimeStart. intros E N.
  step E N root' w1 S1. apply read_Ok in S1 as [TP ->].
  step E N state w2 S2. apply load_state_Ok in S2 as [_ ->].
  step E N u3 w3 S3. destruct u3. apply LockRuntime_Ok in S3.
  unfold with_lease in E.
  destruct (start_leased _ _ _ _ _ _ _ _) as [r w4] eqn:SL. cbn [snd] in E. subst w'.
  change (starts (set_lease false w4)) with (starts w4) in *.
  destruct (start_leased_enforced _ _ _ _ _ _ _ (f_equal snd SL) N) as (ST & FS & b & p & assigned & B & EN).
  split; [cbn in ST; rewrite ST, S3; congruence|]. split; [done|].
  exists root', (annotation RuntimeServerKey (ru_Annotations state)), b, p, assigned.
  split; [done|]. split; [|done]. cbn [w_files set_lease]. cbn in FS. by rewrite FS.
Qed.

(** The wrapper starts a container only through [RuntimeStart]. *)
Lemma wrapper_start configFile runc args w w' :
  snd (runNetworkRuntime euid cwd configFile runc args w) = w' → starts w' ≠ starts w →
  ∃ container call cfg, euid = 0 ∧ ParseRuntimeInvocation args = Ok call ∧ ri_Command call = "start"%string
    ∧ ri_Args call = [container] ∧ wrapper_config configFile = Some cfg ∧ rc_Enabled cfg = true ∧ rc_Rootless cfg = false
    ∧ snd (RuntimeStart euid cwd container (rc_RootDirectory cfg) (rc_Runtime cfg) (rc_ceiling cfg) w) = w'.
Proof.
  unfold runNetworkRuntime. intros E N.
  step E N u1 w1 S1. apply lift_Ok in S1 as [R1 ->]. apply require_Ok, Z.eqb_eq in R1.
  step E N call w2 S2. apply lift_Ok in S2 as [PC ->].
  step E N u3 w3 S3. apply read_Ok in S3 as [_ ->].
  step E N native w4 S4. apply read_Ok in S4 as [_ ->].
  step E N u5 w5 S5. apply read_Ok in S5 as [_ ->].
  step E N u6 w6 S6. apply read_Ok in S6 as [_ ->].
  step E N u7 w7 S7. apply lift_Ok in S7 as [_ ->].
  destruct (String.eqb_spec (ri_Command call) "start") as [C|C].
  - destruct (ri_Args call) as [|container []] eqn:A; [by subst w'| |by subst w'].
    step E N u8 w8 S8. apply read_Ok in S8 as [_ ->].
    step E N cfg w9 S9. apply lift_Ok in S9 as [CF ->]. destruct (wrapper_config configFile) as [c|] eqn:WC; [|done]. injection CF as ->.
    step E N u10 w10 S10. apply lift_Ok in S10 as [R10 ->]. apply require_Ok, andb_true_iff in R10 as [EN _].
    step E N u11 w11 S11. apply lift_Ok in S11 as [R11 ->]. apply require_Ok, andb_true_iff in R11 as [RL%negb_true_iff _].
    by exists container, call, cfg.
  - destruct N. rewrite <-E. revert E.
    assert (Q : quiet (if (ri_Command call =? "exec")%string
                       then id ← st_lift (ExecID (ri_Args call)); state ← load_state id;
                            _ ← st_lift (require (ru_Status state =? "running")%string EState); _ ← check_context; forward
                       else forward)) by (auto 10 with wings).
    intros _. apply Q.
Qed.
End Starting.

Section Wrapper.
Context `{UUIDLaws} `{JSONLaws} `{UnicodeTables} `{NftLaws} `{Machine} `{Netlink} `{!Host} `{Namespaces}.
Variables (euid : Z) (cwd : list string).

(** C8: a container is started only behind its policy.  Whatever runc, nft, the kernel and
    the other holders of the lock do, when the wrapper starts a container it does so once,
    as root and under the server's lease, which it gives back; it was asked to start this
    container; the saved binding names the container and the runtime, the saved policy is
    the bound one and valid for the bound allocations; the queues last read inside the
    container and on the host are those of the policy's limits; and nft's last listing
    filters as the policy does: if it is of nft's grammar and has no match of the frame's
    type under a mask (which verification overlooks, [masked_type_passes]), its rules decide
    every packet that exists (valid addresses, ICMP and connections in their own family) on
    the server's bridge as the policy does, or there is no table and the policy filters
    nothing. *)
Theorem runtime_start_enforced configFile runc args w w' :
  snd (runNetworkRuntime euid cwd configFile runc args w) = w' → starts w' ≠ starts w →
  ∃ container cfg root id b p assigned, euid = 0
    ∧ (∃ call, ParseRuntimeInvocation args = Ok call ∧ ri_Command call = "start"%string ∧ ri_Args call = [container])
    ∧ wrapper_config configFile = Some cfg ∧ rc_Enabled cfg = true ∧ rc_Rootless cfg = false
    ∧ starts w' = starts w ++ [CallStart true] ∧ w_lease w' = false
    ∧ TrustedRuntimePath euid (w_files w) (rc_RootDirectory cfg) = Ok root
    ∧ bound euid cwd (w_files w') container root (rc_Runtime cfg) id (rc_ceiling cfg) b p assigned
    ∧ (∃ ns h d, let rate := Effective p (rc_ceiling cfg) in
         shaped (inside_kernel ns) (ln_Name d) (bw_Upload rate) (ln_MTU d) (w_inside w')
         ∧ shaped host_kernel (ln_Name h) (bw_Download rate) (ln_MTU h) (w_host w')
         ∧ ln_Peer d = ln_Index h ∧ ln_Peer h = ln_Index d)
    ∧ filtered id p assigned false (w_nft w').
Proof.
  intros E N. destruct (wrapper_start _ _ _ _ _ _ _ E N) as (container & call & cfg & R & PC & CM & AR & WC & EN & RL & RS).
  destruct (RuntimeStart_enforced _ _ _ _ _ _ _ _ RS N) as (ST & LE & root & id & b & p & assigned & TP & B & D).
  destruct D as (ns & h & d & S1 & S2 & P1 & P2 & hf & V).
  exists container, cfg, root, id, b, p, assigned. split; [done|]. split; [by exists call|].
  repeat (split; [done|]). split; [by exists ns, h, d|]. by eapply VerifyFirewall_filtered.
Qed.
End Wrapper.
