(* ===== verification/NetPolicy.v ===== *)
(** * The network policy of a container (environment/docker/network_policy.go)

    Desired policies are saved, enforced on the running container and verified again and
    again; when enforcement fails the container's network is closed or the container is
    killed.  The operations of one environment are serialised by its mutex.

    The environment's fields and the world they act on are one state.  Docker is a
    parameter: what it answers may depend on every call made so far.  A status keeps the
    causes of its error instead of their text. *)

From stdpp Require Import base gmap sets list strings numbers sorting.
From Stdlib Require Import Ascii.
From S2P Require Import Prelude GoStrings Policy Nft Paths PathsFacts Route Shaping Store NftState RuntimePath Runtime.
Open Scope Z_scope.

(** ** Allocations (environment/allocations.go) *)

Record Allocations := mkAllocations { as_ForceOutgoingIP : bool; as_Mappings : assignment }.

(** The configuration. *)
Record nconfig := mkNConfig {
  nc_Enabled : bool; nc_Rootless : bool; nc_UsernsMode : string; nc_Driver : string; nc_ISPN : bool; nc_Mode : string;
  nc_Dns : list string; nc_Interface : string; nc_Runtime : string; nc_IPv6 : bool; nc_Ceiling : Bandwidth;
  nc_Root : string; nc_Path : string; nc_DaemonHost : string }.

(** A binding of a port: the host's address and port.  The ports are Docker's texts. *)
Abbreviation port_map := (gmap string (list (string * string))).
Definition valid_port (port : Z) : bool := (1 <=? port) && (port <=? 65535).
Definition add_binding (m : port_map) (port : string) (b : string * string) : port_map :=
  <[port := default [] (m !! port) ++ [b]]> m.
Definition bind_port (ip : string) (m : port_map) (port : Z) : port_map :=
  if negb (valid_port port) then m
  else
    let b := (ip, FormatInt port) in
    add_binding (add_binding m (FormatInt port +:+ "/tcp") b) (FormatInt port +:+ "/udp") b.
Definition Bindings (a : Allocations) : port_map :=
  foldl (λ (m : port_map) (hp : string * list Z), foldl (bind_port (fst hp)) m (snd hp)) ∅ (map_to_list (as_Mappings a)).
Definition docker_binding (cfg : nconfig) (b : string * string) : list (string * string) :=
  if (fst b =? "127.0.0.1")%string then if nc_ISPN cfg then [] else [(nc_Interface cfg, snd b)] else [b].
Definition DockerBindings (cfg : nconfig) (a : Allocations) : port_map :=
  flat_map (docker_binding cfg) <$> Bindings a.

(** [samePortBindings]: the same ports, with the same bindings in any order. *)
Definition str_le (a b : string) : Prop := str_leb a b = true.
#[global] Instance str_le_dec : RelDecision str_le.
Proof. intros a b. unfold str_le. apply _. Defined.
Definition binding_text (b : string * string) : string := fst b +:+ "/" +:+ snd b.
Definition same_bindings (x y : list (string * string)) : bool :=
  bool_decide (length x = length y)
  && bool_decide (merge_sort str_le (map binding_text x) = merge_sort str_le (map binding_text y)).
Definition samePortBindings (a b : port_map) : bool :=
  bool_decide (size a = size b)
  && forallb (λ kv : string * list (string * string),
       match b !! fst kv with Some other => same_bindings (snd kv) other | None => false end) (map_to_list a).

(** ** What Docker reports *)

Record HostConfig := mkHostConfig {
  hc_NetworkMode : string; hc_Privileged : bool; hc_CapAdd : list string; hc_CapDrop : list string;
  hc_RestartPolicy : string; hc_PortBindings : port_map; hc_Runtime : string; hc_Annotations : gmap string string }.
(** [ci_State]: whether it runs, and its process.  [ci_Networks]: the endpoints' addresses. *)
Record NetworkSettings := mkNetworkSettings { nt_SandboxKey : string; nt_Networks : gmap string (option string) }.
Record Inspect := mkInspect {
  ci_ID : string; ci_Name : string; ci_State : option (bool * Z); ci_Labels : option (gmap string string);
  ci_HostConfig : option HostConfig; ci_NetworkSettings : option NetworkSettings }.
Record Network := mkNetwork {
  nw_ID : string; nw_Name : string; nw_Driver : string; nw_Scope : string; nw_Internal : bool; nw_Ingress : bool;
  nw_IPv6 : bool; nw_Labels : gmap string string; nw_Options : gmap string string; nw_Containers : list string }.
Record Info := mkInfo {
  in_SecurityOptions : list string; in_OSType : string; in_Runtimes : gmap string (string * list string) }.

Inductive dcall :=
| DInspect | DKill | DInfo | DProbe | DNetworkInspect (name : string) | DNetworkRemove (id : string)
| DNetworkCreate (name bridge owner : string) (ipv6 : bool).
Inductive derr := DNotFound | DCtx | DOther.

Inductive nerr :=
| NConflict | NInvalid (e : polerr) | NUnsupported | NIdentity | NMismatch | NRt (e : rterr) | NDocker (d : derr) | NCtx.

(** [interruptedNetworkCheck] *)
Definition interruptedNetworkCheck (e : nerr) : bool :=
  match e with NCtx | NRt ECtx | NDocker DCtx => true | _ => false end.

(** ** The environment *)

Record Status := mkStatus {
  su_State : string; su_AppliedRevision : Z; su_AppliedHash : option string; su_Desired : Policy;
  su_Effective : Bandwidth; su_Error : list nerr }.

Record env := mkEnv {
  e_world : world; e_docker : list dcall; e_verified : bool; e_status : option Status; e_containerID : string;
  e_applied : option Policy; e_deleted : bool; e_reconcile : bool; e_allocations : Allocations; e_stopping : bool }.

Definition set_world (w : world) (e : env) : env :=
  mkEnv w (e_docker e) (e_verified e) (e_status e) (e_containerID e) (e_applied e) (e_deleted e) (e_reconcile e)
    (e_allocations e) (e_stopping e).
Definition set_docker (h : list dcall) (e : env) : env :=
  mkEnv (e_world e) h (e_verified e) (e_status e) (e_containerID e) (e_applied e) (e_deleted e) (e_reconcile e)
    (e_allocations e) (e_stopping e).
Definition set_verified (b : bool) (e : env) : env :=
  mkEnv (e_world e) (e_docker e) b (e_status e) (e_containerID e) (e_applied e) (e_deleted e) (e_reconcile e)
    (e_allocations e) (e_stopping e).
Definition set_status (s : Status) (e : env) : env :=
  mkEnv (e_world e) (e_docker e) (e_verified e) (Some s) (e_containerID e) (e_applied e) (e_deleted e) (e_reconcile e)
    (e_allocations e) (e_stopping e).
Definition set_applied (id : string) (p : option Policy) (e : env) : env :=
  mkEnv (e_world e) (e_docker e) (e_verified e) (e_status e) id p (e_deleted e) (e_reconcile e) (e_allocations e)
    (e_stopping e).
Definition set_deleted (b : bool) (e : env) : env :=
  mkEnv (e_world e) (e_docker e) (e_verified e) (e_status e) (e_containerID e) (e_applied e) b (e_reconcile e)
    (e_allocations e) (e_stopping e).
Definition set_reconcile (b : bool) (e : env) : env :=
  mkEnv (e_world e) (e_docker e) (e_verified e) (e_status e) (e_containerID e) (e_applied e) (e_deleted e) b
    (e_allocations e) (e_stopping e).
Definition set_allocations (a : Allocations) (e : env) : env :=
  mkEnv (e_world e) (e_docker e) (e_verified e) (e_status e) (e_containerID e) (e_applied e) (e_deleted e) (e_reconcile e)
    a (e_stopping e).
Definition set_stopping (e : env) : env :=
  mkEnv (e_world e) (e_docker e) (e_verified e) (e_status e) (e_containerID e) (e_applied e) (e_deleted e) (e_reconcile e)
    (e_allocations e) true.

(** What Docker and the host answer to the last call. *)
Class Docker := {
  inspect : list dcall → result derr Inspect;
  network_inspect : list dcall → result derr Network;
  network_create : list dcall → result derr unit;
  network_remove : list dcall → result derr unit;
  container_kill : list dcall → result derr unit;
  docker_info : list dcall → result derr Info;
  platform_probe : list dcall → result derr unit;
  (** The modes that share another network, and the network a mode names. *)
  mode_shared : string → bool;
  mode_network : string → string;
  (** Whether the caller's context is done, and whether it obtained the mutex before. *)
  request_done : env → bool;
  locked_in_time : env → bool;
  (** The failures of a write, the temporary name it picks, a fresh identifier. *)
  write_faults : files → faults;
  temp_name : files → string;
  new_uuid : list dcall → string;
}.

Abbreviation N := (st env nerr).

Section Environment.
Context `{UUIDs} `{JSON} `{UnicodeTables} `{Nft} `{Machine} `{Netlink} `{!Host} `{Namespaces} `{Docker}.
Variables (cfg : nconfig) (id : string) (euid : Z) (cwd : list string).

Definition networkOwner : string := "io.pterodactyl.networkstats.server".
Definition networkCeiling : Bandwidth := nc_Ceiling cfg.
Definition has_runtime : bool := negb (nc_Runtime cfg =? EmptyString)%string.

(** *** Computations *)

Definition on_world {A} (m : W A) : N A := λ e,
  let '(r, w) := m (e_world e) in (match r with Ok a => Ok a | Err x => Err (NRt x) end, set_world w e).
Definition call {A} (c : dcall) (f : list dcall → result derr A) : N A := λ e,
  let h := e_docker e ++ [c] in (match f h with Ok a => Ok a | Err d => Err (NDocker d) end, set_docker h e).
Definition of_rt {A} (r : result rterr A) : N A := st_lift (match r with Ok a => Ok a | Err x => Err (NRt x) end).
Definition of_policy {A} (r : result polerr A) : N A := st_lift (match r with Ok a => Ok a | Err x => Err (NInvalid x) end).
Definition check (b : bool) (x : nerr) : N unit := st_lift (require b x).
Definition gets {A} (f : env → A) : N A := λ e, (Ok (f e), e).
Definition update (f : env → env) : N unit := λ e, (Ok tt, f e).
(** The result of a computation, failed or not. *)
Definition attempted {A} (m : N A) : N (result nerr A) := λ e, let '(r, e') := m e in (Ok r, e').
Definition failed {A} (r : result nerr A) : bool := negb (is_ok r).
(** [ctx.Err()] of the caller. *)
Definition check_request : N unit := λ e, (if request_done e then Err NCtx else Ok tt, e).

Definition ContainerInspect : N Inspect := call DInspect inspect.
Definition NetworkInspect (name : string) : N Network := call (DNetworkInspect name) network_inspect.
Definition not_found {A} (r : result nerr A) : bool := match r with Err (NDocker DNotFound) => true | _ => false end.

Definition load_policy : N Policy := on_world (read (λ fs, of_store (Load euid fs (nc_Root cfg) id))).
Definition allocations : N Allocations := gets e_allocations.

(** The lease of the runtime, when there is one, closed at the end. *)
Definition close_lease {A} (m : N A) : N A := λ e,
  let '(r, e') := m e in (r, set_world (set_lease false (e_world e')) e').
Definition leased {A} (m : N A) : N A :=
  if has_runtime then _ ← on_world (LockRuntime euid (nc_Root cfg) id); close_lease m else m.

(** *** Status *)

Definition networkStatusSnapshot (e : env) : Status :=
  default (mkStatus "pending" 0 None Empty (mkBandwidth 0 0) []) (e_status e).
Definition storeNetworkStatus (s : Status) : N unit := update (set_status s).
Definition pendingNetworkStatus (p : Policy) (e : env) : Status :=
  let s := networkStatusSnapshot e in
  mkStatus "pending" (su_AppliedRevision s) (su_AppliedHash s) p (Effective p networkCeiling) [].
Definition add_error (x : nerr) (s : Status) : Status :=
  mkStatus (su_State s) (su_AppliedRevision s) (su_AppliedHash s) (su_Desired s) (su_Effective s) (su_Error s ++ [x]).
Definition with_state (state : string) (s : Status) : Status :=
  mkStatus state (su_AppliedRevision s) (su_AppliedHash s) (su_Desired s) (su_Effective s) (su_Error s).
Definition with_error (x : nerr) (s : Status) : Status :=
  mkStatus (su_State s) (su_AppliedRevision s) (su_AppliedHash s) (su_Desired s) (su_Effective s) [x].

Definition failNetworkStatus (p : Policy) (x : nerr) : N Status :=
  _ ← update (set_verified false);
  s ← gets (pendingNetworkStatus p);
  let s' := with_error x (with_state "failed" s) in
  _ ← storeNetworkStatus s'; mret s'.

Definition appliedNetworkStatus (p : Policy) (containerID : string) : N Status :=
  _ ← update (set_applied containerID (Some p));
  _ ← update (set_verified true);
  if (po_Revision p =? 0) || (po_PolicyHash p =? EmptyString)%string then gets (pendingNetworkStatus p)
  else mret (mkStatus "applied" (po_Revision p) (Some (po_PolicyHash p)) p (Effective p networkCeiling) []).
Definition store_applied (p : Policy) (containerID : string) : N unit :=
  s ← appliedNetworkStatus p containerID; storeNetworkStatus s.

(** The work itself is another operation, [reconcilePendingNetwork]. *)
Definition scheduleNetworkReconcile : N unit := update (set_reconcile true).

(** *** Closing the network *)

Definition label (k : string) (labels : option (gmap string string)) : string :=
  match labels with Some m => annotation k m | None => EmptyString end.
Definition trustedServerContainer (c : Inspect) : bool :=
  bool_decide (is_Some (ci_Labels c)) && (label "Service" (ci_Labels c) =? "Pterodactyl")%string
  && (label "ContainerType" (ci_Labels c) =? "server_process")%string && (TrimPrefix slash (ci_Name c) =? id)%string.
Definition networkManaged (c : Inspect) : bool :=
  bool_decide (is_Some (ci_Labels c)) && (label networkOwner (ci_Labels c) =? id)%string.
Definition running (c : Inspect) : bool := match ci_State c with Some (b, _) => b | None => false end.

Definition gateNetwork (p : Policy) : N unit := leased (on_world (gate id p)).

Definition closeNetwork (p : Policy) (c : Inspect) : N unit :=
  if negb (trustedServerContainer c) then st_err NIdentity
  else
    gated ← (if networkManaged c then r ← attempted (gateNetwork p); mret (is_ok r) else mret false);
    if (gated : bool) then mret tt
    else
      killed ← attempted (call DKill container_kill);
      if failed killed && negb (not_found killed) then st_lift killed
      else update set_stopping.
(** Closing, whose failure is added to the status. *)
Definition close_or_note (p : Policy) (c : Inspect) (s : Status) : N Status :=
  r ← attempted (closeNetwork p c);
  mret (match r with Ok _ => s | Err x => add_error x s end).

(** *** Support *)

Definition v4_loopback (n : Z) : bool := n / 2 ^ 24 =? 127.
(** A DNS server: an address that is no loopback, not unspecified and without a zone. *)
Definition dns_ok (value : string) : bool :=
  negb (contains_byte "%"%char value)
  && match family value with
     | None => false
     | Some c =>
         if Ascii.eqb c dot then
           match parse_v4 value with Some n => negb (v4_loopback n) && negb (n =? 0) | None => false end
         else
           match parse_v6 value with
           | Some n => negb (n =? 0) && negb (n =? 1) && negb (is4in6 n && v4_loopback (n mod 2 ^ 32))
           | None => false
           end
     end.

Definition networkSupported (a : Allocations) : N unit :=
  _ ← check (nc_Enabled cfg) NUnsupported;
  _ ← check (negb (nc_Rootless cfg || negb (nc_UsernsMode cfg =? EmptyString)%string)) NUnsupported;
  _ ← check (negb (negb (nc_Driver cfg =? "bridge")%string || nc_ISPN cfg || as_ForceOutgoingIP a)) NUnsupported;
  _ ← check (negb (mode_shared (nc_Mode cfg))) NUnsupported;
  _ ← check (HasPrefix (nc_DaemonHost cfg) "unix://") NUnsupported;
  _ ← check (negb (bool_decide (nc_Dns cfg = []))) NUnsupported;
  _ ← check (forallb dns_ok (nc_Dns cfg)) NUnsupported;
  n ← NetworkInspect (mode_network (nc_Mode cfg));
  _ ← check ((nw_Driver n =? "bridge") && (nw_Scope n =? "local"))%string NUnsupported;
  info ← call DInfo docker_info;
  _ ← check (negb (existsb (λ o, Contains o "rootless") (in_SecurityOptions info))) NUnsupported;
  _ ← check (in_OSType info =? "linux")%string NUnsupported;
  _ ← (if has_runtime then
         match in_Runtimes info !! nc_Runtime cfg with
         | None => st_err NUnsupported
         | Some (path, args) =>
             on_world (read (ValidateRuntimeRegistration euid cwd path args (nc_Path cfg)))
         end
       else mret tt);
  _ ← call DProbe platform_probe;
  let option := annotation "com.docker.network.bridge.name" (nw_Options n) in
  let bridge := if (option =? EmptyString)%string && (nw_Name n =? "bridge")%string then "docker0"%string else option in
  _ ← check (negb (bridge =? EmptyString)%string) NUnsupported;
  _ ← on_world (host_op (backend_Link (H1 := host_kernel) bridge));
  mret tt.

Definition NetworkCapabilities : N unit :=
  a ← allocations;
  r ← attempted (networkSupported a);
  match r with Ok _ => mret tt | Err _ => st_err NUnsupported end.

(** *** Verifying *)

Definition checkNetwork (n : Network) (containerID : string) : N unit :=
  match Names id with
  | None => st_err (NRt EName)
  | Some (name, bridge, _) =>
      _ ← check ((nw_Name n =? name)%string && (nw_Driver n =? "bridge")%string && (nw_Scope n =? "local")%string
                 && negb (nw_Internal n) && negb (nw_Ingress n) && (annotation networkOwner (nw_Labels n) =? id)%string
                 && (annotation "com.docker.network.bridge.name" (nw_Options n) =? bridge)%string) NMismatch;
      _ ← check (Bool.eqb (nw_IPv6 n) (nc_IPv6 cfg)) NMismatch;
      check (forallb (λ x, negb (containerID =? EmptyString)%string && (x =? containerID)%string) (nw_Containers n)) NMismatch
  end.

Definition verifyRuntimeContainer (p : Policy) (c : Inspect) : N unit :=
  if negb has_runtime then mret tt
  else
    match ci_HostConfig c with
    | None => st_err NMismatch
    | Some hc =>
        _ ← check ((hc_Runtime hc =? nc_Runtime cfg)%string
                   && (annotation RuntimeServerKey (hc_Annotations hc) =? id)%string) NMismatch;
        b ← on_world (read (λ fs, LoadRuntimeBinding euid cwd fs (nc_Root cfg) id));
        _ ← check ((rb_Container b =? ci_ID c)%string
                   && (rb_Generation b =? annotation RuntimeGenerationKey (hc_Annotations hc))%string
                   && (rb_Runtime b =? hc_Runtime hc)%string && (rb_Revision b =? po_Revision p)
                   && (rb_PolicyHash b =? po_PolicyHash p)%string) NMismatch;
        of_policy (Validate json_policy_hash marshal_len p (default ∅ (rb_Allocations b)) networkCeiling)
    end.

(** The container's attachments: its own network only, no privileges, no restarts. *)
Definition attached (name : string) (c : Inspect) : bool :=
  match ci_HostConfig c, ci_NetworkSettings c with
  | Some hc, Some nt =>
      (hc_NetworkMode hc =? name)%string && negb (hc_Privileged hc) && bool_decide (hc_CapAdd hc = [])
      && bool_decide (size (nt_Networks nt) = 1%nat)
      && ((hc_RestartPolicy hc =? EmptyString)%string || (hc_RestartPolicy hc =? "no")%string)
  | _, _ => false
  end.
Definition ports_current (c : Inspect) (a : Allocations) : bool :=
  match ci_HostConfig c with
  | Some hc => samePortBindings (hc_PortBindings hc) (DockerBindings cfg a)
  | None => false
  end.
(** The hardware address of the container's endpoint. *)
Definition endpoint (name : string) (c : Inspect) : option string :=
  nt ← ci_NetworkSettings c; mac ← nt_Networks nt !! name; mac.
Definition sandbox (c : Inspect) : string := match ci_NetworkSettings c with Some nt => nt_SandboxKey nt | None => EmptyString end.
Definition pid (c : Inspect) : Z := match ci_State c with Some (_, n) => n | None => 0 end.

(** [net.HardwareAddr.String], compared without regard to case. *)
Definition hex_digit (n : Z) : ascii := ascii_of_N (Z.to_N (if n <? 10 then 48 + n else 87 + n)).
Definition hex_byte (n : Z) : string := String (hex_digit (n / 16)) (String (hex_digit (n mod 16)) EmptyString).
Definition mac_String (b : bytes) : string := Join ":"%char (map hex_byte b).
Definition EqualFold (a b : string) : bool := bool_decide (map_string ascii_lower a = map_string ascii_lower b).

(** The ends of the pair: one interface on the bridge, one besides the loopback inside. *)
Definition container_pair (c : Inspect) (bridge mac : string) : N (Z * Link * Link) :=
  ns ← of_rt (OpenNamespace (pid c) (sandbox c));
  host ← on_world (host_op (Links (H1 := host_kernel) bridge));
  inside ← on_world (inside_op (Links (H1 := inside_kernel ns) EmptyString));
  _ ← check (bool_decide (length host = 1%nat)) NMismatch;
  device ← of_rt (container_device inside None);
  '(h, d) ← of_rt (paired host device);
  _ ← check (EqualFold (mac_String (ln_Address d)) mac) NMismatch;
  mret (ns, h, d).

(** The caller holds the lease.  [runtimePolicy] is the policy the binding names. *)
Definition verifyNetworkPolicy (p runtimePolicy : Policy) (c : Inspect) : N unit :=
  a ← allocations;
  _ ← of_policy (Validate json_policy_hash marshal_len p (if 0 <? po_Revision p then as_Mappings a else ∅) networkCeiling);
  if negb (Required p networkCeiling) && negb (networkManaged c) then mret tt
  else
    _ ← check (networkManaged c) NMismatch;
    match Names id with
    | None => st_err (NRt EName)
    | Some (name, bridge, _) =>
        n ← NetworkInspect name;
        _ ← checkNetwork n (ci_ID c);
        _ ← check (running c && attached name c && ports_current c a) NMismatch;
        match endpoint name c with
        | None => st_err NMismatch
        | Some mac =>
            _ ← verifyRuntimeContainer runtimePolicy c;
            '(ns, h, d) ← container_pair c bridge mac;
            let rate := Effective p networkCeiling in
            _ ← on_world (inside_op (VerifyShape (H1 := inside_kernel ns) (ln_Name d) (bw_Upload rate) (ln_MTU d)));
            _ ← on_world (host_op (VerifyShape (H1 := host_kernel) (ln_Name h) (bw_Download rate) (ln_MTU h)));
            on_world (nft_op (VerifyFirewall id p (as_Mappings a) false))
        end
    end.

Definition verifyNetwork (p : Policy) (c : Inspect) : N unit :=
  if negb (networkManaged c) then verifyNetworkPolicy p p c else leased (verifyNetworkPolicy p p c).

Definition verifyRecordedNetwork : N unit :=
  p ← load_policy;
  c ← ContainerInspect;
  recorded ← gets e_containerID;
  _ ← check (running c && (ci_ID c =? recorded)%string) NMismatch;
  _ ← verifyNetwork p c;
  store_applied p (ci_ID c).

(** *** Applying *)

(** The rules are replaced in one batch; when it fails the previous ones must still hold. *)
Definition replaceLiveFirewall (p : Policy) (verifyPrevious : N bool) : N (bool * result nerr unit) :=
  a ← allocations;
  r ← attempted (on_world (nft_op (Firewall id p (as_Mappings a) false)));
  match r with
  | Err x => kept ← verifyPrevious; mret (kept, Err x)
  | Ok _ => v ← attempted (on_world (nft_op (VerifyFirewall id p (as_Mappings a) false))); mret (false, v)
  end.

(** A failure of [reconcileNetwork]: its cause, whether the container must be closed, and
    whether the rules verified before are still in place. *)
Record stop := mkStop { st_cause : nerr; st_protect : bool; st_retain : bool }.
Abbreviation P := (st env stop).
Definition guarded {A} (protect : bool) (m : N A) : P A := λ e,
  let '(r, e') := m e in (match r with Ok a => Ok a | Err x => Err (mkStop x protect false) end, e').

(** Everything anew: behind the gate, the limits first and the rules last. *)
Definition apply_anew (p : Policy) (c : Inspect) (a : Allocations) (name bridge : string) : N unit :=
  _ ← on_world (gate id p);
  _ ← check (attached name c) NMismatch;
  _ ← check (ports_current c a) NMismatch;
  match endpoint name c with
  | None => st_err NMismatch
  | Some mac =>
      '(ns, h, d) ← container_pair c bridge mac;
      _ ← on_world (shape_both ns h d (Effective p networkCeiling));
      _ ← on_world (nft_op (Firewall id p (as_Mappings a) false));
      on_world (nft_op (VerifyFirewall id p (as_Mappings a) false))
  end.

(** Whether the previous policy, with the same limits, is verified to be in place. *)
Definition previous_holds (p : Policy) (c : Inspect) : N (option Policy) :=
  previous ← gets e_applied;
  recorded ← gets e_containerID;
  match previous with
  | None => mret None
  | Some q =>
      if (ci_ID c =? recorded)%string && bool_decide (Effective q networkCeiling = Effective p networkCeiling) then
        r ← attempted (verifyNetworkPolicy q p c); mret (if is_ok r then Some q else None)
      else mret None
  end.

(** Under the lease. *)
Definition apply_leased (protect : bool) (p : Policy) (c : Inspect) (name bridge : string) : P unit :=
  _ ← guarded protect (verifyRuntimeContainer p c);
  a ← guarded protect allocations;
  _ ← guarded protect (if 0 <? po_Revision p
                       then of_policy (ValidateEnforcement json_policy_hash marshal_len p (as_Mappings a) networkCeiling)
                       else mret tt);
  previous ← guarded protect (previous_holds p c);
  match previous with
  | Some q =>
      '(retain, r) ← guarded protect (replaceLiveFirewall p
        (r ← attempted (current ← ContainerInspect;
                        _ ← check (ci_ID current =? ci_ID c)%string NMismatch;
                        verifyNetworkPolicy q p current); mret (is_ok r)));
      match r with
      | Err x => st_err (mkStop x protect retain)
      | Ok _ => guarded protect (store_applied p (ci_ID c))
      end
  | None =>
      _ ← guarded protect (apply_anew p c a name bridge);
      guarded protect (store_applied p (ci_ID c))
  end.

(** The lease of a computation that may stop. *)
Definition leased_stop {A} (protect : bool) (m : P A) : P A :=
  if has_runtime then
    _ ← guarded protect (on_world (LockRuntime euid (nc_Root cfg) id));
    (λ e, let '(r, e') := m e in (r, set_world (set_lease false (e_world e')) e')) : P A
  else m.

Definition reconcile_body (p : Policy) (loaded : result nerr unit) : P unit :=
  let protect := Required p networkCeiling || failed loaded in
  _ ← guarded protect (st_lift loaded);
  _ ← guarded protect (of_policy (ValidateEnforcement json_policy_hash marshal_len Empty ∅ networkCeiling));
  r ← guarded protect (attempted ContainerInspect);
  match r with
  | Err x => if not_found r then mret tt else st_err (mkStop x protect false)
  | Ok c =>
      if negb (running c) then mret tt
      else
        let protect := protect || networkManaged c in
        if negb (Required p networkCeiling) && negb (networkManaged c) then
          if 0 <? po_Revision p then guarded protect (store_applied p (ci_ID c)) else mret tt
        else
          a ← guarded protect allocations;
          _ ← guarded protect (networkSupported a);
          _ ← guarded protect (check (networkManaged c) NMismatch);
          match Names id with
          | None => st_err (mkStop (NRt EName) protect false)
          | Some (name, bridge, _) =>
              n ← guarded protect (NetworkInspect name);
              _ ← guarded protect (checkNetwork n (ci_ID c));
              leased_stop protect (apply_leased protect p c name bridge)
          end
  end.

(** The deferred handler of a failure. *)
Definition quarantine (p : Policy) (x : stop) : N unit :=
  s ← failNetworkStatus p (st_cause x);
  if negb (st_protect x) || st_retain x then mret tt
  else
    r ← attempted ContainerInspect;
    match r with
    | Err x => if not_found r then mret tt else storeNetworkStatus (add_error x s)
    | Ok c =>
        if negb (running c) then mret tt
        else
          closed ← attempted (closeNetwork p c);
          match closed with Ok _ => mret tt | Err x => storeNetworkStatus (add_error x s) end
    end.

Definition reconcileNetwork : N unit :=
  _ ← check_request;
  deleted ← gets e_deleted;
  _ ← check (negb deleted) NConflict;
  loaded ← attempted load_policy;
  let p := match loaded with Ok p => p | Err _ => Empty end in
  _ ← update (set_verified false);
  s ← gets (pendingNetworkStatus p);
  _ ← storeNetworkStatus s;
  (λ e, match reconcile_body p (match loaded with Ok _ => Ok tt | Err x => Err x end) e with
        | (Ok u, e') => (Ok u, e')
        | (Err x, e') => let '(_, e'') := quarantine p x e' in (Err (st_cause x), e'')
        end) : N unit.

(** *** Saving *)

(** A write: the files it leaves, and its result. *)
Definition write_op (f : faults → string → files → list files * result rterr unit) : W unit := λ w,
  let '(l, r) := f (write_faults (w_files w)) (temp_name (w_files w)) (w_files w) in
  (r, set_files (default (w_files w) (list.last l)) w).
Definition save_policy (p : Policy) : W unit :=
  write_op (λ fl tmp fs, let '(l, r) := Save euid fl tmp (nc_Root cfg) id p fs in (l, of_store r)).
Definition sync_binding (p : Policy) : W unit :=
  write_op (λ fl tmp fs, SyncRuntimeBinding euid cwd fl tmp (nc_Root cfg) id p fs).

Definition saveNetworkPolicy (p : Policy) (changed : bool) : N unit :=
  leased
    (_ ← (if changed then on_world (save_policy p) else mret tt);
     if has_runtime then on_world (sync_binding p) else mret tt).

Definition validatePolicyUpdate (old next : Policy) (owned : assignment) : N unit :=
  _ ← of_policy (ValidateEnforcement json_policy_hash marshal_len next owned networkCeiling);
  _ ← check (negb (po_Revision next <? po_Revision old)) NConflict;
  check (negb ((po_Revision next =? po_Revision old) && negb (po_PolicyHash next =? po_PolicyHash old)%string
               && negb (SameRules next old))) NConflict.

Definition checkPolicySupport (old next : Policy) (a : Allocations) : N unit :=
  _ ← check (nc_Enabled cfg) NUnsupported;
  r ← attempted ContainerInspect;
  _ ← (match r with Err x => if not_found r then mret tt else st_err x | Ok _ => mret tt end);
  let managed := match r with Ok c => networkManaged c | Err _ => false end in
  let live := match r with Ok c => running c | Err _ => false end in
  _ ← check (negb (live && Required next networkCeiling && negb managed)) NConflict;
  if Required next networkCeiling || Required old networkCeiling || managed then
    _ ← networkSupported a;
    on_world (nft_op (CheckPolicy id next (as_Mappings a) networkCeiling))
  else mret tt.

(** *** Operations, under the mutex *)

Definition lockNetwork : N unit := λ e, (if locked_in_time e then Ok tt else Err NCtx, e).

Definition beginNetworkChange : N unit :=
  r ← attempted load_policy;
  match r with
  | Err x => _ ← failNetworkStatus Empty x; st_err x
  | Ok p => _ ← update (set_verified false); s ← gets (pendingNetworkStatus p); storeNetworkStatus s
  end.

(** Whether the recorded container runs with the policy. *)
Definition still_verified (p : Policy) : N bool :=
  r ← attempted ContainerInspect;
  recorded ← gets e_containerID;
  match r with
  | Ok c =>
      if running c && (ci_ID c =? recorded)%string then v ← attempted (verifyNetwork p c); mret (is_ok v) else mret false
  | Err _ => mret false
  end.
Definition same_policy (p q : Policy) : bool :=
  (po_Revision p =? po_Revision q) && (po_PolicyHash p =? po_PolicyHash q)%string.

Definition UpdateNetworkPolicy (p : Policy) : N Status :=
  _ ← lockNetwork;
  _ ← check_request;
  deleted ← gets e_deleted;
  _ ← check (negb deleted) NConflict;
  loaded ← attempted load_policy;
  match loaded with
  | Err x => _ ← failNetworkStatus Empty x; st_err x
  | Ok old =>
      a ← allocations;
      _ ← validatePolicyUpdate old p (as_Mappings a);
      _ ← checkPolicySupport old p a;
      _ ← check_request;
      verified ← gets e_verified;
      unchanged ← (if same_policy old p && verified then still_verified p else mret false);
      if (unchanged : bool) then gets networkStatusSnapshot
      else
        _ ← update (set_verified false);
        s ← gets (pendingNetworkStatus p);
        _ ← storeNetworkStatus s;
        r ← attempted (saveNetworkPolicy p (negb (same_policy old p)));
        match r with
        | Err x =>
            (* a rename may have succeeded before the write failed *)
            _ ← attempted reconcileNetwork;
            _ ← failNetworkStatus p x; st_err x
        | Ok _ => _ ← scheduleNetworkReconcile; gets networkStatusSnapshot
        end
  end.

Definition failSyncedPolicy (p : Policy) (x : nerr) : N unit :=
  s ← failNetworkStatus p x;
  r ← attempted ContainerInspect;
  match r with
  | Err y => if not_found r then st_err x else _ ← storeNetworkStatus (add_error y s); st_err x
  | Ok c =>
      if negb (running c) then st_err x
      else
        closed ← attempted (closeNetwork p c);
        _ ← (match closed with Ok _ => mret tt | Err y => storeNetworkStatus (add_error y s) end);
        st_err x
  end.

Definition SetNetworkSettings (settings : Allocations) (incoming : option Policy) : N unit :=
  deleted ← gets e_deleted;
  _ ← check (negb deleted) NConflict;
  loaded ← attempted load_policy;
  match loaded with
  | Err x => failSyncedPolicy Empty x
  | Ok old =>
      if bool_decide (incoming = None) && (po_Revision old =? 0) && negb (Required old networkCeiling) then
        _ ← update (set_allocations settings); s ← gets (pendingNetworkStatus old); storeNetworkStatus s
      else
        _ ← check (match incoming with Some q => negb (po_Revision q <? po_Revision old) | None => true end) NConflict;
        valid ← attempted (match incoming with Some q => validatePolicyUpdate old q (as_Mappings settings) | None => mret tt end);
        let next := default old incoming in
        match valid with
        | Err x => failSyncedPolicy old x
        | Ok _ =>
            supported ← attempted (checkPolicySupport old next settings);
            match supported with
            | Err x => failSyncedPolicy old x
            | Ok _ =>
                _ ← check_request;
                verified ← gets e_verified;
                saved ← attempted (saveNetworkPolicy next (negb (same_policy next old)));
                match saved with
                | Err x =>
                    visible ← attempted load_policy;
                    failSyncedPolicy (match visible with Ok v => v | Err _ => old end) x
                | Ok _ =>
                    _ ← update (set_allocations settings);
                    unchanged ← (if same_policy old next && verified then still_verified next else mret false);
                    if (unchanged : bool) then mret tt
                    else
                      _ ← update (set_verified false);
                      s ← gets (pendingNetworkStatus next);
                      _ ← storeNetworkStatus s;
                      reconcileNetwork
                end
            end
        end
  end.

(** What a failed inspection leaves. *)
Definition no_container : Inspect := mkInspect EmptyString EmptyString None None None None.

Definition RejectNetworkPolicy (cause : nerr) : N unit :=
  _ ← lockNetwork;
  deleted ← gets e_deleted;
  _ ← check (negb deleted) cause;
  loaded ← attempted load_policy;
  let p := match loaded with Ok p => p | Err _ => Empty end in
  s ← failNetworkStatus p cause;
  r ← attempted ContainerInspect;
  if not_found r || match r with Ok c => negb (running c) | Err _ => false end then st_err cause
  else
    let s' := match r with Err x => add_error x s | Ok _ => s end in
    _ ← (match r with Err _ => storeNetworkStatus s' | Ok _ => mret tt end);
    closed ← attempted (closeNetwork p (match r with Ok c => c | Err _ => no_container end));
    _ ← (match closed with Ok _ => mret tt | Err y => storeNetworkStatus (add_error y s') end);
    st_err cause.

Definition deferNetworkCheck (p : Policy) (x : nerr) : N Status :=
  _ ← update (set_verified false);
  s ← gets (pendingNetworkStatus p);
  let s' := with_error x s in
  _ ← storeNetworkStatus s';
  _ ← scheduleNetworkReconcile;
  mret s'.

(** The status after closing the network of a container whose policy does not hold. *)
Definition fail_closed (p : Policy) (c : Inspect) (x : nerr) (s : Status) : N Status :=
  s' ← close_or_note p c (with_error x (with_state "failed" s));
  _ ← storeNetworkStatus s';
  _ ← scheduleNetworkReconcile;
  mret s'.

Definition NetworkPolicy : N Status :=
  _ ← check_request;
  free ← gets locked_in_time;
  if negb free then gets networkStatusSnapshot
  else
    status ← gets networkStatusSnapshot;
    loaded ← attempted load_policy;
    match loaded with
    | Err x =>
        _ ← update (set_verified false);
        let s := with_error x (with_state "failed" status) in
        s' ← (if (su_State status =? "applied")%string then
                r ← attempted ContainerInspect;
                close_or_note (su_Desired status) (match r with Ok c => c | Err _ => no_container end) s
              else mret s);
        _ ← storeNetworkStatus s';
        mret s'
    | Ok p =>
        current ← (if (po_Revision (su_Desired status) =? po_Revision p)
                      && (po_PolicyHash (su_Desired status) =? po_PolicyHash p)%string then mret status
                   else
                     _ ← update (set_verified false); s ← gets (pendingNetworkStatus p); _ ← storeNetworkStatus s; mret s);
        if negb (su_State current =? "applied")%string then mret current
        else
          r ← attempted ContainerInspect;
          recorded ← gets e_containerID;
          match r with
          | Ok c =>
              if running c && (ci_ID c =? recorded)%string then
                v ← attempted (verifyNetwork p c);
                match v with
                | Ok _ => mret current
                | Err x =>
                    if interruptedNetworkCheck x then deferNetworkCheck p x
                    else _ ← update (set_verified false); fail_closed p c x current
                end
              else
                _ ← update (set_verified false);
                if running c then fail_closed p c NIdentity current
                else let s := with_state "pending" current in _ ← storeNetworkStatus s; mret s
          | Err x =>
              _ ← update (set_verified false);
              if not_found r then let s := with_state "pending" current in _ ← storeNetworkStatus s; mret s
              else if interruptedNetworkCheck x then deferNetworkCheck p x
              else fail_closed p no_container x current
          end
    end.

Definition ReconcileNetwork : N unit := _ ← lockNetwork; reconcileNetwork.

(** The work that [scheduleNetworkReconcile] starts. *)
Definition reconcilePendingNetwork : N unit :=
  locked ← attempted lockNetwork;
  match locked with
  | Err _ => update (set_reconcile false)
  | Ok _ =>
      deleted ← gets e_deleted;
      _ ← (if (deleted : bool) then mret tt
           else
             r ← attempted verifyRecordedNetwork;
             if is_ok r then mret tt else _ ← attempted reconcileNetwork; mret tt);
      update (set_reconcile false)
  end.

(** One round of the monitor. *)
Definition monitor_tick : N unit :=
  s ← gets networkStatusSnapshot;
  if (po_Revision (su_Desired s) =? 0) && negb (Required (su_Desired s) networkCeiling) then mret tt
  else if (su_State s =? "applied")%string then _ ← attempted NetworkPolicy; mret tt
  else
    locked ← attempted lockNetwork;
    match locked with
    | Err _ => mret tt
    | Ok _ => deleted ← gets e_deleted; if (deleted : bool) then mret tt else scheduleNetworkReconcile
    end.

(** *** Creating, starting and deleting the container *)

(** No such device, or no such entry. *)
Definition missing_link (x : nerr) : bool :=
  match x with NRt (ERoute (RKernel errno)) => (errno =? 19) || (errno =? 2) | _ => false end.
(** [prepareNetwork] on the labels and the host configuration of the new container. *)
Definition create_network (name bridge : string) : N Network :=
  link ← attempted (on_world (host_op (backend_Link (H1 := host_kernel) bridge)));
  _ ← (match link with
       | Ok _ => st_err NMismatch
       | Err x => if missing_link x then mret tt else st_err x
       end);
  _ ← call (DNetworkCreate name bridge id (nc_IPv6 cfg)) network_create;
  NetworkInspect name.
Definition prepareNetwork (labels : gmap string string) (host : HostConfig) : N (gmap string string * HostConfig) :=
  deleted ← gets e_deleted;
  _ ← check (negb deleted) NConflict;
  p ← load_policy;
  let labels := delete networkOwner labels in
  _ ← of_policy (ValidateEnforcement json_policy_hash marshal_len Empty ∅ networkCeiling);
  if negb (Required p networkCeiling) then mret (labels, host)
  else
    a ← allocations;
    _ ← (if 0 <? po_Revision p
         then of_policy (ValidateEnforcement json_policy_hash marshal_len p (as_Mappings a) networkCeiling) else mret tt);
    _ ← networkSupported a;
    match Names id with
    | None => st_err (NRt EName)
    | Some (name, bridge, _) =>
        r ← attempted (NetworkInspect name);
        n ← (if not_found r then create_network name bridge else st_lift r);
        _ ← checkNetwork n EmptyString;
        _ ← gateNetwork p;
        generation ← gets (λ e, new_uuid (e_docker e));
        let annotations :=
          if has_runtime then <[RuntimeGenerationKey := generation]> (<[RuntimeServerKey := id]> (hc_Annotations host))
          else hc_Annotations host in
        mret (<[networkOwner := id]> labels,
              mkHostConfig name (hc_Privileged host) (hc_CapAdd host)
                (hc_CapDrop host ++ ["NET_ADMIN"; "SYS_ADMIN"; "NET_RAW"]%string) (hc_RestartPolicy host)
                (hc_PortBindings host) (if has_runtime then nc_Runtime cfg else hc_Runtime host) annotations)
    end.

Definition remove_binding : W unit := λ w,
  match RemoveRuntimeBinding euid cwd (nc_Root cfg) id (w_files w) with
  | Ok fs => (Ok tt, set_files fs w)
  | Err x => (Err x, w)
  end.

Definition bindNetworkRuntime (containerID : string) (host : HostConfig) : N unit :=
  if negb has_runtime then on_world remove_binding
  else
    leased
      (if negb (annotation RuntimeServerKey (hc_Annotations host) =? id)%string then on_world remove_binding
       else
         p ← load_policy;
         a ← allocations;
         let b := mkBinding 1 id containerID (annotation RuntimeGenerationKey (hc_Annotations host)) (hc_Runtime host)
                    (Some (as_Mappings a)) (po_Revision p) (po_PolicyHash p) in
         on_world (write_op (λ fl tmp fs, SaveRuntimeBinding euid fl tmp (nc_Root cfg) b fs))).

Definition finishNetworkStart : N unit :=
  if negb has_runtime then reconcileNetwork
  else
    loaded ← attempted load_policy;
    match loaded with
    | Err x => failSyncedPolicy Empty x
    | Ok p =>
        r ← attempted ContainerInspect;
        match r with
        | Err x => failSyncedPolicy p x
        | Ok c =>
            if negb (Required p networkCeiling) && negb (networkManaged c) then mret tt
            else
              v ← attempted (verifyNetwork p c);
              match v with Err x => failSyncedPolicy p x | Ok _ => store_applied p (ci_ID c) end
        end
    end.

Definition remove_policy : W unit := λ w,
  match Remove (nc_Root cfg) id (w_files w) with Ok fs => (Ok tt, set_files fs w) | Err x => (Err (EStore x), w) end.
Definition removeNetworkState : N unit := leased (_ ← on_world remove_binding; on_world remove_policy).

Definition remove_body : N unit :=
  match Names id with
  | None => st_err (NRt EName)
  | Some (name, _, _) =>
      r ← attempted (NetworkInspect name);
      if not_found r then
        p ← load_policy;
        _ ← (if 0 <? po_Revision p then on_world (nft_op (RemoveFirewall id)) else mret tt);
        removeNetworkState
      else
        n ← st_lift r;
        _ ← checkNetwork n EmptyString;
        _ ← on_world (nft_op (RemoveFirewall id));
        _ ← call (DNetworkRemove (nw_ID n)) network_remove;
        removeNetworkState
  end.
Definition removeNetworkPolicy : N unit :=
  _ ← remove_body;
  recorded ← gets e_containerID;
  _ ← update (set_deleted true);
  update (set_applied recorded None).
End Environment.

(** ** The monitor's first delay *)

Fixpoint fnv64a (h : Z) (s : string) : Z :=
  match s with
  | EmptyString => h
  | String c s' => fnv64a ((Z.lxor h (byteZ c) * 1099511628211) mod 2 ^ 64) s'
  end.
Definition networkCheckDelay (id : string) (interval : Z) : Z :=
  if interval <? 2 then interval
  else
    let half := interval / 2 in
    wrap64 (half + fnv64a 14695981039346656037 id mod (interval - half)).
