(* ===== verification/NetPolicyFacts.v ===== *)
(** * Correctness of the network policy of a container

    A policy that is reported as applied was verified, a failure closes the network, and a
    container is created only behind a closed gate. *)

From stdpp Require Import base gmap sets list strings numbers sorting.
From Stdlib Require Import Ascii.
From S2P Require Import Prelude GoStrings Policy Nft NftFacts Paths PathsFacts Route Shaping Store StoreFacts NftState.
From S2P Require Import NftEval NftImplied NftLink NftGood NftVerify RuntimePath Runtime RuntimeFacts NetPolicy.
Open Scope Z_scope.

(** ** Computations that leave the environment's own fields alone *)

Definition env_frame (e e' : env) : Prop := e' = set_docker (e_docker e') (set_world (e_world e') e).
Definition framed {E A} (m : st env E A) : Prop := ∀ e, env_frame e (snd (m e)).

#[global] Instance env_frame_preorder : PreOrder env_frame.
Proof. split; [by intros [] | by intros [] e2 e3 -> ->]. Qed.
Lemma framed_bind {E A B} (m : st env E A) (f : A → st env E B) : framed m → (∀ a, framed (f a)) → framed (m ≫= f).
Proof.
  intros M K e. unfold mbind, st_bind. specialize (M e). destruct (m e) as [[a|x] e1]; [|done]. cbn [snd] in M.
  etrans; [exact M | apply K].
Qed.
Lemma framed_ret {E A} (a : A) : framed (mret a : st env E A).
Proof. by intros []. Qed.
Lemma framed_lift {E A} (r : result E A) : framed (st_lift r : st env E A).
Proof. by intros []. Qed.
Lemma framed_err {E A} (x : E) : framed (st_err x : st env E A).
Proof. by intros []. Qed.
Lemma framed_if {E A} (b : bool) (m n : st env E A) : framed m → framed n → framed (if b then m else n).
Proof. by destruct b. Qed.
Lemma framed_gets {A} (f : env → A) : framed (gets f).
Proof. by intros []. Qed.
Lemma framed_world {A} (m : W A) : framed (on_world m).
Proof. intros e. unfold on_world. destruct (m (e_world e)) as [r w]. by destruct e. Qed.
Lemma framed_attempted {A} (m : N A) : framed m → framed (attempted m).
Proof. intros M e. unfold attempted. specialize (M e). by destruct (m e). Qed.
Create HintDb netpolicy.
#[export] Hint Resolve framed_bind framed_ret framed_lift framed_err framed_if framed_gets framed_world framed_attempted : netpolicy.

(** Through binds, conditions and matches. *)
Ltac solve_framed :=
  repeat first [solve [auto with netpolicy] | apply framed_bind; [|intros ?] | apply framed_if | case_match].

Section Facts.
Context `{UUIDs} `{JSON} `{UnicodeTables} `{Nft} `{Machine} `{Netlink} `{!Host} `{Namespaces} `{Docker}.
Variables (cfg : nconfig) (id : string) (euid : Z) (cwd : list string).

Lemma framed_call {A} c (f : list dcall → result derr A) : framed (call c f).
Proof. by intros []. Qed.
Lemma framed_check b x : framed (check b x).
Proof. by intros []. Qed.
Lemma framed_rt {A} (r : result rterr A) : framed (of_rt r).
Proof. by intros []. Qed.
Lemma framed_policy {A} (r : result polerr A) : framed (of_policy r).
Proof. by intros []. Qed.
Lemma framed_request : framed check_request.
Proof. by intros []. Qed.
Hint Resolve framed_call framed_check framed_rt framed_policy framed_request : netpolicy.
Lemma framed_close {A} (m : N A) : framed m → framed (close_lease m).
Proof. intros M e. unfold close_lease. specialize (M e). destruct (m e) as [r e']. cbn [snd] in *. rewrite M. by destruct e. Qed.
Hint Resolve framed_close : netpolicy.
Lemma framed_leased {A} (m : N A) : framed m → framed (leased cfg id euid m).
Proof. intros M. unfold leased. auto with netpolicy. Qed.
Hint Resolve framed_leased : netpolicy.
Lemma framed_inspect : framed ContainerInspect.
Proof. unfold ContainerInspect. auto with netpolicy. Qed.
Lemma framed_network name : framed (NetworkInspect name).
Proof. unfold NetworkInspect. auto with netpolicy. Qed.
Lemma framed_load : framed (load_policy cfg id euid).
Proof. unfold load_policy. auto with netpolicy. Qed.
Lemma framed_allocations : framed allocations.
Proof. unfold allocations. auto with netpolicy. Qed.
Hint Resolve framed_inspect framed_network framed_load framed_allocations : netpolicy.
Lemma framed_supported a : framed (networkSupported cfg euid cwd a).
Proof. unfold networkSupported. solve_framed. Qed.
Lemma framed_gate p : framed (gateNetwork cfg id euid p).
Proof. unfold gateNetwork. auto with netpolicy. Qed.
Lemma framed_checkNetwork n c : framed (checkNetwork cfg id n c).
Proof. unfold checkNetwork. solve_framed. Qed.
Hint Resolve framed_supported framed_gate framed_checkNetwork : netpolicy.
Lemma framed_runtime p c : framed (verifyRuntimeContainer cfg id euid cwd p c).
Proof. unfold verifyRuntimeContainer. solve_framed. Qed.
Lemma framed_pair c bridge mac : framed (container_pair c bridge mac).
Proof. unfold container_pair. solve_framed. Qed.
Hint Resolve framed_runtime framed_pair : netpolicy.
Lemma framed_verifyPolicy p rp c : framed (verifyNetworkPolicy cfg id euid cwd p rp c).
Proof. unfold verifyNetworkPolicy. solve_framed. Qed.
Hint Resolve framed_verifyPolicy : netpolicy.
Lemma framed_verify p c : framed (verifyNetwork cfg id euid cwd p c).
Proof. unfold verifyNetwork. solve_framed. Qed.
Lemma framed_anew p c a name bridge : framed (apply_anew cfg id p c a name bridge).
Proof. unfold apply_anew. solve_framed. Qed.
Lemma framed_replace p v : framed v → framed (replaceLiveFirewall id p v).
Proof. intros V. unfold replaceLiveFirewall. solve_framed. Qed.
Lemma framed_previous p c : framed (previous_holds cfg id euid cwd p c).
Proof. unfold previous_holds. solve_framed. Qed.
Lemma framed_guarded {A} b (m : N A) : framed m → framed (guarded b m).
Proof. intros M e. unfold guarded. specialize (M e). by destruct (m e). Qed.
Lemma framed_support old next a : framed (checkPolicySupport cfg id euid cwd old next a).
Proof. unfold checkPolicySupport. solve_framed. Qed.
Lemma framed_update old next owned : framed (validatePolicyUpdate cfg old next owned).
Proof. unfold validatePolicyUpdate. solve_framed. Qed.
Lemma framed_save p changed : framed (saveNetworkPolicy cfg id euid cwd p changed).
Proof. unfold saveNetworkPolicy. solve_framed. Qed.
Lemma framed_still p : framed (still_verified cfg id euid cwd p).
Proof. unfold still_verified. pose proof (framed_verify p). solve_framed. Qed.
End Facts.
#[export] Hint Resolve framed_call framed_check framed_rt framed_policy framed_request framed_close framed_leased
  framed_inspect framed_network framed_load framed_allocations framed_supported framed_gate framed_checkNetwork
  framed_runtime framed_pair framed_verifyPolicy framed_verify framed_anew framed_replace framed_previous framed_guarded
  framed_support framed_update framed_save framed_still : netpolicy.

(** ** What success means *)

Lemma on_world_Ok {A} (m : W A) e a e' : on_world m e = (Ok a, e') → ∃ w, m (e_world e) = (Ok a, w) ∧ e' = set_world w e.
Proof. unfold on_world. destruct (m (e_world e)) as [[b|x] w]; [intros [= -> <-]; eauto | done]. Qed.
Lemma on_nft_Ok `{Nft} `{Machine} `{Netlink} `{!Host} (m : F unit) e e' :
  on_world (nft_op m) e = (Ok tt, e') → ∃ h, m (w_nft (e_world e)) = (h, Ok tt) ∧ e' = set_world (set_nft h (e_world e)) e.
Proof. intros E. apply on_world_Ok in E as (w & E & ->). apply nft_op_Ok in E as (h & E & ->). eauto. Qed.
Lemma on_host_Ok {A} (m : M A) e a e' :
  on_world (host_op m) e = (Ok a, e') → ∃ h, m (w_host (e_world e)) = (h, Ok a) ∧ e' = set_world (set_host h (e_world e)) e.
Proof. intros E. apply on_world_Ok in E as (w & E & ->). apply host_op_Ok in E as (h & E & ->). eauto. Qed.
Lemma on_inside_Ok {A} (m : M A) e a e' :
  on_world (inside_op m) e = (Ok a, e') → ∃ h, m (w_inside (e_world e)) = (h, Ok a) ∧ e' = set_world (set_inside h (e_world e)) e.
Proof. intros E. apply on_world_Ok in E as (w & E & ->). apply inside_op_Ok in E as (h & E & ->). eauto. Qed.
Lemma check_Ok b x e u e' : check b x e = (Ok u, e') → b = true ∧ e' = e.
Proof. unfold check, st_lift. by destruct b; intros [= <- <-]. Qed.
Lemma of_rt_Ok {A} (r : result rterr A) e a e' : of_rt r e = (Ok a, e') → r = Ok a ∧ e' = e.
Proof. unfold of_rt, st_lift. destruct r; [|done]. by intros [= <- <-]. Qed.
Lemma of_policy_Ok {A} (r : result polerr A) e a e' : of_policy r e = (Ok a, e') → r = Ok a ∧ e' = e.
Proof. unfold of_policy, st_lift. destruct r; [|done]. by intros [= <- <-]. Qed.
Lemma gets_Ok {A} (f : env → A) e a e' : gets f e = (Ok a, e') → a = f e ∧ e' = e.
Proof. unfold gets. by intros [= <- <-]. Qed.
Lemma call_Ok {A} c (f : list dcall → result derr A) e a e' :
  call c f e = (Ok a, e') → f (e_docker e ++ [c]) = Ok a ∧ e' = set_docker (e_docker e ++ [c]) e.
Proof. unfold call. destruct (f _); [|done]. by intros [= <- <-]. Qed.
Lemma lift_env_Ok {A} (r : result nerr A) (e : env) a e' : st_lift r e = (Ok a, e') → r = Ok a ∧ e' = e.
Proof. unfold st_lift. by intros [= -> ->]. Qed.
Lemma attempted_Ok {A} (m : N A) e r e' : attempted m e = (Ok r, e') → m e = (r, e').
Proof. unfold attempted. destruct (m e). by intros [= <- <-]. Qed.

(** The next step of a computation that succeeded. *)
Ltac bind E a e1 E1 := apply st_bind_Ok in E as (a & e1 & E1 & E).

Section Success.
Context `{UUIDs} `{JSON} `{UnicodeTables} `{Nft} `{Machine} `{Netlink} `{!Host} `{Namespaces} `{Docker}.
Variables (cfg : nconfig) (id : string) (euid : Z) (cwd : list string).

Lemma container_pair_Ok c bridge mac e ns h d e' :
  container_pair c bridge mac e = (Ok (ns, h, d), e') → ln_Peer d = ln_Index h ∧ ln_Peer h = ln_Index d.
Proof.
  unfold container_pair. intros E. bind E ns1 e1 E1. bind E host e2 E2. bind E inside e3 E3. bind E u4 e4 E4.
  bind E device e5 E5. bind E ends e6 E6. destruct ends as [h1 d1]. bind E u7 e7 E7. injection E as -> -> -> _.
  apply of_rt_Ok in E6 as [P _]. by apply paired_Ok in P as (_ & _ & ? & ?).
Qed.

Abbreviation ceiling := (networkCeiling cfg).

Lemma verifyNetworkPolicy_Ok p rp c e e' :
  verifyNetworkPolicy cfg id euid cwd p rp c e = (Ok tt, e') →
  (Required p ceiling = false ∧ networkManaged id c = false)
  ∨ (networkManaged id c = true ∧ running c = true ∧ enforced id p (as_Mappings (e_allocations e)) ceiling (e_world e')).
Proof.
  unfold verifyNetworkPolicy. intros E. bind E a e1 E1. apply gets_Ok in E1 as [-> ->].
  bind E u2 e2 E2. apply of_policy_Ok in E2 as [_ ->].
  destruct (negb (Required p ceiling) && negb (networkManaged id c)) eqn:R.
  { left. by apply andb_true_iff in R as [?%negb_true_iff ?%negb_true_iff]. }
  right. bind E u3 e3 E3. apply check_Ok in E3 as [MG ->]. split; [done|].
  destruct (Names id) as [[[name bridge] table]|]; [|done].
  bind E n e4 E4. bind E u5 e5 E5. bind E u6 e6 E6. apply check_Ok in E6 as [RN ->].
  split; [by destruct (running c)|]. destruct (endpoint name c) as [mac|]; [|done].
  bind E u7 e7 E7. bind E ends e8 E8. destruct ends as [[ns h] d]. apply container_pair_Ok in E8 as [P1 P2].
  bind E u9 e9 E9. destruct u9. apply on_inside_Ok in E9 as (hi & V9 & ->).
  bind E u10 e10 E10. destruct u10. apply on_host_Ok in E10 as (hh & V10 & ->).
  apply on_nft_Ok in E as (hf & V & ->).
  exists ns, h, d. cbn. split; [by eapply VerifyShape_shaped|]. split; [by eapply VerifyShape_shaped|].
  split; [done|]. split; [done|]. by eexists.
Qed.

Lemma apply_anew_Ok p c a name bridge e e' :
  apply_anew cfg id p c a name bridge e = (Ok tt, e') → enforced id p (as_Mappings a) ceiling (e_world e').
Proof.
  unfold apply_anew. intros E. bind E u1 e1 E1. bind E u2 e2 E2. bind E u3 e3 E3.
  destruct (endpoint name c) as [mac|]; [|done]. bind E ends e4 E4. destruct ends as [[ns h] d].
  apply container_pair_Ok in E4 as [P1 P2]. bind E u5 e5 E5. destruct u5. apply on_world_Ok in E5 as (w5 & S & ->).
  apply shape_both_Ok in S as (S1 & S2 & _). bind E u6 e6 E6. destruct u6. apply on_nft_Ok in E6 as (h6 & _ & ->).
  apply on_nft_Ok in E as (h7 & V & ->). exists ns, h, d. cbn. repeat (split; [done|]). by eexists.
Qed.

(** The status stored for an applied policy. *)
Definition applied_status (p : Policy) (e : env) : Status :=
  if (po_Revision p =? 0) || (po_PolicyHash p =? EmptyString)%string then pendingNetworkStatus cfg p e
  else mkStatus "applied" (po_Revision p) (Some (po_PolicyHash p)) p (Effective p ceiling) [].
Lemma store_applied_run p containerID e :
  store_applied cfg p containerID e
  = (Ok tt, set_status (applied_status p e) (set_verified true (set_applied containerID (Some p) e))).
Proof. unfold store_applied, appliedNetworkStatus, applied_status. cbn. by destruct (_ || _). Qed.

Lemma enforced_nft q p assigned h w hf :
  Effective q ceiling = Effective p ceiling → enforced id q assigned ceiling w →
  VerifyFirewall id p assigned false hf = (h, Ok tt) → enforced id p assigned ceiling (set_nft h w).
Proof.
  intros EF (ns & hl & d & S1 & S2 & P1 & P2 & _) V. rewrite EF in S1, S2. exists ns, hl, d. cbn.
  repeat (split; [done|]). by exists hf.
Qed.

Lemma previous_holds_Ok p c e q e' :
  previous_holds cfg id euid cwd p c e = (Ok (Some q), e') →
  Effective q ceiling = Effective p ceiling ∧ verifyNetworkPolicy cfg id euid cwd q p c e = (Ok tt, e').
Proof.
  unfold previous_holds. intros E. bind E previous e1 E1. apply gets_Ok in E1 as [-> ->].
  bind E recorded e2 E2. apply gets_Ok in E2 as [-> ->]. destruct (e_applied e) as [q'|]; [|done].
  destruct (_ && _) eqn:C; [|done]. apply andb_true_iff in C as [_ EF%bool_decide_eq_true].
  bind E r e3 E3. apply attempted_Ok in E3. destruct r as [[]|]; [|done]. by injection E as -> <-.
Qed.

Lemma guarded_Ok {A} b (m : N A) e a e' : guarded b m e = (Ok a, e') → m e = (Ok a, e').
Proof. unfold guarded. destruct (m e) as [[]]; [|done]. by intros [= -> ->]. Qed.

(** A step that leaves the environment's fields alone. *)
Lemma framed_step {E A} (m : st env E A) e r e' : framed m → m e = (r, e') → env_frame e e'.
Proof. intros F R. specialize (F e). by rewrite R in F. Qed.

(** What an application leaves behind. *)
Definition applied_now (p : Policy) (c : Inspect) (e e' : env) : Prop :=
  e_verified e' = true ∧ e_applied e' = Some p ∧ e_containerID e' = ci_ID c
  ∧ (∃ e1, e_status e' = Some (applied_status p e1)) ∧ e_allocations e' = e_allocations e
  ∧ (Required p ceiling || networkManaged id c = true → enforced id p (as_Mappings (e_allocations e)) ceiling (e_world e')).

Lemma apply_leased_Ok protect p c name bridge e e' :
  networkManaged id c = true → apply_leased cfg id euid cwd protect p c name bridge e = (Ok tt, e') →
  applied_now p c e e'.
Proof.
  intros MG E. unfold apply_leased in E. bind E u1 e1 E1. apply guarded_Ok in E1.
  pose proof (framed_runtime cfg id euid cwd p c e) as F1. rewrite E1 in F1. cbn [snd] in F1.
  bind E a e2 E2. apply guarded_Ok, gets_Ok in E2 as [-> ->].
  assert (A1 : e_allocations e1 = e_allocations e) by (by rewrite F1).
  bind E u3 e3 E3. assert (e3 = e1) as ->.
  { apply guarded_Ok in E3. destruct (_ <? _); [by apply of_policy_Ok in E3 as [_ ->] | by injection E3]. }
  bind E previous e4 E4. apply guarded_Ok in E4.
  pose proof (framed_previous cfg id euid cwd p c e1) as F4. rewrite E4 in F4. cbn [snd] in F4.
  destruct previous as [q|].
  - apply previous_holds_Ok in E4 as [EF V]. apply verifyNetworkPolicy_Ok in V as [[_ N]|(_ & _ & EN)]; [congruence|].
    bind E rr e5 E5. destruct rr as [retain r]. apply guarded_Ok in E5. destruct r as [[]|]; [|done].
    apply guarded_Ok in E. rewrite store_applied_run in E. injection E as <-.
    unfold replaceLiveFirewall in E5. bind E5 a5 e6 E6. apply gets_Ok in E6 as [-> ->].
    bind E5 r6 e7 E7. apply attempted_Ok in E7. destruct r6 as [[]|x]; [|bind E5 k e8 E8; done].
    apply on_nft_Ok in E7 as (h7 & _ & ->). bind E5 v e8 E8. apply attempted_Ok in E8. injection E5 as _ -> <-.
    apply on_nft_Ok in E8 as (h8 & V & ->).
    assert (A4 : e_allocations e4 = e_allocations e1) by (by rewrite F4).
    split; [done|]. split; [done|]. split; [done|]. split; [by eexists|]. split; [cbn; congruence|]. intros _.
    cbn in V |- *. rewrite A4 in V.
    rewrite <-A1. exact (enforced_nft q p _ h8 (e_world e4) _ EF EN V).
  - bind E u5 e5 E5. apply guarded_Ok in E5, E. rewrite store_applied_run in E. injection E as <-. destruct u5.
    assert (A5 : e_allocations e5 = e_allocations e4).
    { apply framed_step in E5; [by rewrite E5 | auto with netpolicy]. }
    assert (A4 : e_allocations e4 = e_allocations e1) by (by rewrite F4).
    apply apply_anew_Ok in E5. rewrite A1 in E5.
    split; [done|]. split; [done|]. split; [done|]. split; [by eexists|]. split; [cbn; congruence | by intros _].
Qed.

Lemma applied_now_frame p c e e1 e' : env_frame e e1 → applied_now p c e1 e' → applied_now p c e e'.
Proof. intros F. unfold applied_now. by replace (e_allocations e1) with (e_allocations e) by (by rewrite F). Qed.
Lemma applied_now_lease p c e e' : applied_now p c e e' → applied_now p c e (set_world (set_lease false (e_world e')) e').
Proof. done. Qed.

Lemma leased_stop_applied protect p c m e e' :
  (∀ e1 e2, m e1 = (Ok tt, e2) → applied_now p c e1 e2) →
  leased_stop cfg id euid protect m e = (Ok tt, e') → applied_now p c e e'.
Proof.
  intros M. unfold leased_stop. destruct (has_runtime cfg); [|auto]. intros E. bind E u1 e1 E1. apply guarded_Ok in E1.
  pose proof (framed_world (LockRuntime euid (nc_Root cfg) id) e) as F. rewrite E1 in F. cbn [snd] in F.
  destruct (m e1) as [r e2] eqn:R. injection E as -> <-. apply (applied_now_frame _ _ _ _ _ F), applied_now_lease, M, R.
Qed.

(** A container as Docker described it at some moment. *)
Definition reported (c : Inspect) : Prop := ∃ h, inspect h = Ok c.
Lemma inspect_reported e c e' : ContainerInspect e = (Ok c, e') → reported c.
Proof. intros E. apply call_Ok in E as [E _]. by eexists. Qed.

Lemma reconcile_body_Ok p loaded e e' :
  reconcile_body cfg id euid cwd p loaded e = (Ok tt, e') →
  loaded = Ok tt ∧ (env_frame e e' ∨ ∃ c, reported c ∧ running c = true ∧ applied_now p c e e').
Proof.
  unfold reconcile_body. intros E. bind E u1 e1 E1. apply guarded_Ok, lift_env_Ok in E1 as [-> ->].
  destruct u1. split; [done|]. bind E u2 e2 E2. apply guarded_Ok, of_policy_Ok in E2 as [_ ->].
  bind E r e3 E3. apply guarded_Ok in E3. pose proof E3 as I3. apply framed_step in E3; [|auto with netpolicy].
  assert (RP : ∀ c, r = Ok c → reported c) by (intros c ->; apply attempted_Ok, inspect_reported in I3; done). clear I3.
  destruct r as [c|x]; [|left; destruct (not_found _); [by injection E as <- | done]].
  destruct (running c) eqn:RN; [|left; by injection E as <-]. cbn [negb] in E.
  destruct (negb (Required p ceiling) && negb (networkManaged id c)) eqn:RQ.
  { destruct (0 <? po_Revision p); [|left; by injection E as <-]. right. exists c. split; [by apply RP|]. split; [done|].
    apply guarded_Ok in E. rewrite store_applied_run in E. injection E as <-.
    apply andb_true_iff in RQ as [R1%negb_true_iff R2%negb_true_iff].
    unfold applied_now. rewrite R1, R2. repeat (split; [done|]). split; [by eexists|]. split; [cbn; by rewrite E3 | done]. }
  bind E a e4 E4. apply guarded_Ok, gets_Ok in E4 as [-> ->].
  bind E u5 e5 E5. apply guarded_Ok in E5. apply framed_step in E5; [|auto with netpolicy].
  bind E u6 e6 E6. apply guarded_Ok, check_Ok in E6 as [MG ->].
  destruct (Names id) as [[[name bridge] table]|]; [|done].
  bind E n e7 E7. apply guarded_Ok in E7. apply framed_step in E7; [|auto with netpolicy].
  bind E u8 e8 E8. apply guarded_Ok in E8. apply framed_step in E8; [|auto with netpolicy].
  right. exists c. split; [by apply RP|]. split; [done|]. apply (applied_now_frame _ _ _ e8); [by etrans; [|etrans; [|etrans]]|].
  revert E. apply leased_stop_applied. intros e9 e10. by apply apply_leased_Ok.
Qed.
End Success.

(** ** Failing closed *)

(** The fields of the environment besides whether it is stopping. *)
Definition own (e : env) := (e_verified e, e_status e, e_containerID e, e_applied e, e_deleted e, e_allocations e).
Lemma frame_own e e' : env_frame e e' → own e' = own e.
Proof. intros F. by rewrite F. Qed.

Section Closing.
Context `{UUIDs} `{JSON} `{UnicodeTables} `{Nft} `{Machine} `{Netlink} `{!Host} `{Namespaces} `{Docker}.
Variables (cfg : nconfig) (id : string) (euid : Z) (cwd : list string).

(** The last answer of nft shows the gate: nothing passes. *)
Definition gate_shut (p : Policy) (e : env) : Prop :=
  ∃ h, VerifyFirewall id p ∅ true h = (w_nft (e_world e), Ok tt).
(** The last call of Docker killed the container, or found it gone. *)
Definition killed (e : env) : Prop :=
  e_stopping e = true ∧ ∃ h, e_docker e = h ++ [DKill]
  ∧ (container_kill (e_docker e) = Ok tt ∨ container_kill (e_docker e) = Err DNotFound).
(** The last call of Docker found no running container. *)
Definition absent (e : env) : Prop :=
  ∃ h, e_docker e = h ++ [DInspect]
  ∧ (inspect (e_docker e) = Err DNotFound ∨ ∃ c, inspect (e_docker e) = Ok c ∧ running c = false).

Lemma gateNetwork_Ok p e e' : gateNetwork cfg id euid p e = (Ok tt, e') → gate_shut p e'.
Proof.
  assert (G : ∀ e1 e2, on_world (gate id p) e1 = (Ok tt, e2) → gate_shut p e2).
  { intros e1 e2 E. apply on_world_Ok in E as (w & E & ->). unfold gate in E. apply st_bind_Ok in E as (u & w1 & E1 & E).
    apply nft_op_Ok in E as (h & V & ->). by exists (w_nft w1). }
  unfold gateNetwork, leased. destruct (has_runtime cfg); [|apply G]. intros E. bind E u e1 E1. unfold close_lease in E.
  destruct (on_world (gate id p) e1) as [r e2] eqn:R. injection E as -> <-. by apply G in R.
Qed.

Lemma closeNetwork_own p c e : own (snd (closeNetwork cfg id euid p c e)) = own e.
Proof.
  unfold closeNetwork. destruct (negb _); [done|].
  set (m := if networkManaged id c then _ else _).
  assert (F : framed m) by (unfold m; solve_framed).
  unfold mbind at 1, st_bind at 1. specialize (F e). destruct (m e) as [[g|x] e1]; cbn [snd] in F; apply frame_own in F; [|exact F].
  destruct g; [exact F|]. unfold mbind, st_bind, attempted, call.
  destruct (container_kill _) as [[]|[]]; exact F.
Qed.
Lemma closeNetwork_Ok p c e e' : closeNetwork cfg id euid p c e = (Ok tt, e') → gate_shut p e' ∨ killed e'.
Proof.
  unfold closeNetwork. destruct (negb _); [done|]. intros E. bind E g e1 E1. destruct g.
  - injection E as <-. left. destruct (networkManaged id c); [|done]. bind E1 r e2 E2. apply attempted_Ok in E2.
    destruct r as [[]|]; [|done]. injection E1 as <-. by apply gateNetwork_Ok in E2.
  - right. bind E r e2 E2. apply attempted_Ok in E2. unfold call in E2.
    destruct (container_kill (e_docker e1 ++ [DKill])) as [[]|d] eqn:K; injection E2 as <- <-.
    + cbn in E. injection E as <-. split; [done|]. exists (e_docker e1). cbn. auto.
    + destruct d; [|done..]. cbn in E. injection E as <-. split; [done|]. exists (e_docker e1). cbn. auto.
Qed.

(** The end of a failed operation: the status says so, and the container is shut off,
    killed or gone, or the status also tells why it could not be closed. *)
Definition failed_closed (p : Policy) (x : nerr) (e : env) : Prop :=
  e_verified e = false ∧ ∃ s more, e_status e = Some s ∧ su_State s = "failed"%string ∧ su_Desired s = p
  ∧ su_Error s = x :: more ∧ (more = [] → gate_shut p e ∨ killed e ∨ absent e).
Definition failed_open (p : Policy) (x : nerr) (e : env) : Prop :=
  e_verified e = false ∧ ∃ s, e_status e = Some s ∧ su_State s = "failed"%string ∧ su_Desired s = p ∧ su_Error s = [x].

Lemma failNetworkStatus_run p x e :
  ∃ s, failNetworkStatus cfg p x e = (Ok s, set_status s (set_verified false e))
    ∧ su_State s = "failed"%string ∧ su_Desired s = p ∧ su_Error s = [x].
Proof. exists (with_error x (with_state "failed" (pendingNetworkStatus cfg p (set_verified false e)))). split; [reflexivity | done]. Qed.

(** Closing after the status was set. *)
Lemma close_after p x s e c r e' :
  e_verified e = false → e_status e = Some s → su_State s = "failed"%string → su_Desired s = p → su_Error s = [x] →
  closeNetwork cfg id euid p c e = (r, e') →
  failed_closed p x (snd ((match r with Ok _ => mret tt | Err y => storeNetworkStatus (add_error y s) end : N unit) e')).
Proof.
  intros V S ST D ER C. pose proof (closeNetwork_own p c e) as O. rewrite C in O. cbn [snd] in O. injection O as O1 O2 _ _ _ _.
  destruct r as [[]|y].
  - apply closeNetwork_Ok in C. cbn. split; [congruence|]. exists s, []. rewrite ER, O2. repeat (split; [done|]). tauto.
  - cbn. split; [cbn; congruence|]. exists (add_error y s), [y]. cbn. rewrite ER. repeat (split; [done|]). done.
Qed.

Lemma inspect_absent e r e' :
  ContainerInspect e = (r, e') →
  (not_found r = true ∨ ∃ c, r = Ok c ∧ running c = false) → absent e'.
Proof.
  unfold ContainerInspect, call. intros E C. exists (e_docker e). destruct (inspect (e_docker e ++ [DInspect])) as [c|d] eqn:I;
    injection E as <- <-; (split; [done|]); cbn [e_docker set_docker]; rewrite I.
  - right. destruct C as [C|(c' & [= <-] & R)]; [done|]. eauto.
  - left. destruct C as [C|(c' & [=] & R)]. by destruct d.
Qed.

Abbreviation ceiling := (networkCeiling cfg).

Lemma quarantine_spec p x e r e' :
  quarantine cfg id euid p x e = (r, e') →
  if st_protect x && negb (st_retain x) then failed_closed p (st_cause x) e'
  else failed_open p (st_cause x) e' ∧ e_world e' = e_world e ∧ e_applied e' = e_applied e ∧ e_allocations e' = e_allocations e.
Proof.
  unfold quarantine. destruct (failNetworkStatus_run p (st_cause x) e) as (s & R & S1 & S2 & S3). intros Q.
  unfold mbind at 1, st_bind at 1 in Q. rewrite R in Q. replace (negb (st_protect x) || st_retain x)
    with (negb (st_protect x && negb (st_retain x))) in Q by (by destruct (st_protect x), (st_retain x)).
  destruct (st_protect x && negb (st_retain x)); cbn [negb] in Q;
    [|injection Q as _ <-; split; [split; [done|]; by exists s | done]].
  set (e0 := set_status s (set_verified false e)) in Q. unfold mbind at 1, st_bind at 1, attempted at 1 in Q.
  destruct (ContainerInspect e0) as [i e1] eqn:I.
  pose proof (framed_step _ _ _ _ framed_inspect I) as F. apply frame_own in F. injection F as F1 F2 _ _ _ _.
  destruct i as [c|y].
  - destruct (running c) eqn:RN; cbn [negb] in Q.
    + unfold mbind, st_bind, attempted in Q. destruct (closeNetwork cfg id euid p c e1) as [r2 e2] eqn:C.
      eapply close_after in C; [|done..]. by rewrite Q in C.
    + injection Q as _ <-. split; [done|]. exists s, []. rewrite S3. repeat (split; [done|]). intros _. right. right.
      eapply inspect_absent; [exact I|]. right. eauto.
  - destruct (not_found (Err y)) eqn:NF; injection Q as _ <-.
    + split; [done|]. exists s, []. rewrite S3. repeat (split; [done|]). intros _. right. right.
      eapply inspect_absent; [exact I|]. by left.
    + split; [done|]. exists (add_error y s), [y]. cbn. rewrite S3. repeat (split; [done|]). done.
Qed.

Abbreviation P := (st env stop).
(** The failures of the body of [reconcileNetwork]. *)
Definition kept (e : env) : Prop :=
  ∃ q, e_applied e = Some q ∧ (Required q ceiling = true → enforced id q (as_Mappings (e_allocations e)) ceiling (e_world e)).
Definition stopped (protect : bool) (x : stop) (e : env) : Prop :=
  (protect = true → st_protect x = true) ∧ (st_retain x = true → kept e).
Definition stops {A} (Q : stop → env → Prop) (m : P A) : Prop := ∀ e x e', m e = (Err x, e') → Q x e'.
Lemma stops_bind {A B} Q (m : P A) (f : A → P B) : stops Q m → (∀ a, stops Q (f a)) → stops Q (m ≫= f).
Proof.
  intros M K e x e' E. unfold mbind, st_bind in E. destruct (m e) as [[a|y] e1] eqn:R; [by eapply K|].
  injection E as -> ->. by eapply M.
Qed.
Lemma stops_guarded {A} b protect (m : N A) : (protect = true → b = true) → stops (stopped protect) (guarded b m).
Proof. intros I e x e' E. unfold guarded in E. destruct (m e) as [[a|y] e1]; [done|]. by injection E as <- <-. Qed.
Lemma stops_ret {A} Q (a : A) : stops Q (mret a).
Proof. done. Qed.
Lemma stops_err {A} b protect y : (protect = true → b = true) → stops (stopped protect) (st_err (mkStop y b false) : P A).
Proof. intros I e x e' E. by injection E as <- <-. Qed.
Hint Resolve stops_bind stops_guarded stops_ret stops_err : netpolicy.

Lemma stops_apply b protect p c name bridge :
  (protect = true → b = true) → stops (stopped protect) (apply_leased cfg id euid cwd b p c name bridge).
Proof.
  intros I. unfold apply_leased. do 3 (apply stops_bind; [by apply stops_guarded | intros ?]).
  intros e x e' E. unfold mbind at 1, st_bind at 1 in E.
  destruct (guarded b (previous_holds cfg id euid cwd p c) e) as [[previous|y] e1] eqn:PV.
  2:{ injection E as <- <-. eapply stops_guarded; [exact I | exact PV]. }
  destruct previous as [q|]; [|revert E; apply stops_bind; [|intros ?]; by apply stops_guarded].
  apply guarded_Ok in PV.
  assert (AP : e_applied e1 = Some q).
  { pose proof (framed_previous cfg id euid cwd p c e) as F. rewrite PV in F. cbn [snd] in F. rewrite F. cbn.
    unfold previous_holds in PV. bind PV pr e2 E2. apply gets_Ok in E2 as [-> ->]. bind PV rc e3 E3. apply gets_Ok in E3 as [-> ->].
    destruct (e_applied e) as [q'|]; [|done]. destruct (_ && _); [|done]. bind PV r e4 E4. destruct (is_ok r); [|done]. by injection PV as ->. }
  set (v := attempted _ ≫= _) in E.
  unfold mbind at 1, st_bind at 1 in E.
  destruct (guarded b (replaceLiveFirewall id p v) e1) as [[[retain r]|y] e2] eqn:RL.
  2:{ injection E as <- <-. eapply stops_guarded; [exact I | exact RL]. }
  apply guarded_Ok in RL. destruct r as [u|y]; [revert E; by apply stops_guarded|].
  injection E as <- <-. split; [done|]. cbn [st_retain]. intros ->.
  unfold replaceLiveFirewall in RL. bind RL al e3 E3. apply gets_Ok in E3 as [-> ->]. bind RL r4 e4 E4.
  apply attempted_Ok in E4. apply framed_step in E4; [|auto with netpolicy].
  destruct r4 as [u|y']; [bind RL w e5 E5; by injection RL|]. bind RL kp e5 E5. injection RL as -> <- ->.
  unfold v in E5. bind E5 r6 e6 E6. apply attempted_Ok in E6. injection E5 as KP <-. destruct r6 as [[]|]; [|done].
  bind E6 current e7 E7. apply framed_step in E7; [|auto with netpolicy]. bind E6 u8 e8 E8. apply check_Ok in E8 as [_ ->].
  pose proof (framed_step _ _ _ _ (framed_verifyPolicy cfg id euid cwd q p current) E6) as F6.
  apply verifyNetworkPolicy_Ok in E6. exists q. split; [by rewrite F6, E7, E4|].
  intros RQ. destruct E6 as [[N _]|(_ & _ & EN)]; [congruence|]. by replace (e_allocations e6) with (e_allocations e7) by (by rewrite F6).
Qed.

Lemma kept_lease e : kept e → kept (set_world (set_lease false (e_world e)) e).
Proof. done. Qed.
Lemma stops_leased b protect (m : P unit) :
  (protect = true → b = true) → stops (stopped protect) m → stops (stopped protect) (leased_stop cfg id euid b m).
Proof.
  intros I M. unfold leased_stop. destruct (has_runtime cfg); [|done]. apply stops_bind; [by apply stops_guarded|].
  intros _ e x e' E. destruct (m e) as [r e1] eqn:R. injection E as -> <-. by apply M in R.
Qed.

Lemma stops_body p loaded :
  stops (stopped (Required p ceiling || failed loaded)) (reconcile_body cfg id euid cwd p loaded).
Proof.
  unfold reconcile_body. set (b := Required p ceiling || failed loaded).
  assert (I : b = true → b = true) by done.
  do 2 (apply stops_bind; [by apply stops_guarded | intros _]). apply stops_bind; [by apply stops_guarded | intros [c|y]]; [|destruct (not_found _); auto with netpolicy].
  destruct (negb (running c)); [auto with netpolicy|].
  assert (I2 : b = true → b || networkManaged id c = true) by (by intros ->).
  destruct (negb (Required p ceiling) && negb (networkManaged id c)); [destruct (0 <? po_Revision p); auto with netpolicy|].
  do 3 (apply stops_bind; [by apply stops_guarded | intros ?]).
  destruct (Names id) as [[[name bridge] table]|]; [|by apply stops_err].
  do 2 (apply stops_bind; [by apply stops_guarded | intros ?]). by apply stops_leased; [|apply stops_apply].
Qed.

Lemma failSyncedPolicy_spec p x e :
  fst (failSyncedPolicy cfg id euid p x e) = Err x ∧ failed_closed p x (snd (failSyncedPolicy cfg id euid p x e)).
Proof.
  destruct (failSyncedPolicy cfg id euid p x e) as [r e'] eqn:Q. cbn [fst snd]. unfold failSyncedPolicy in Q.
  destruct (failNetworkStatus_run p x e) as (s & R & S1 & S2 & S3).
  unfold mbind at 1, st_bind at 1 in Q. rewrite R in Q.
  set (e0 := set_status s (set_verified false e)) in Q. unfold mbind at 1, st_bind at 1, attempted at 1 in Q.
  destruct (ContainerInspect e0) as [i e1] eqn:I.
  pose proof (framed_step _ _ _ _ framed_inspect I) as F. apply frame_own in F. injection F as F1 F2 _ _ _ _.
  destruct i as [c|y].
  - destruct (running c) eqn:RN; cbn [negb] in Q.
    + unfold mbind at 1, st_bind at 1, attempted in Q. destruct (closeNetwork cfg id euid p c e1) as [r2 e2] eqn:C.
      eapply close_after in C; [|done..]. unfold mbind, st_bind in Q. destruct r2; injection Q as <- <-; done.
    + injection Q as <- <-. split; [done|]. split; [done|]. exists s, []. rewrite S3. repeat (split; [done|]). intros _.
      right. right. eapply inspect_absent; [exact I|]. right. eauto.
  - destruct (not_found (Err y)) eqn:NF; injection Q as <- <-; (split; [done|]; split; [done|]).
    + exists s, []. rewrite S3. repeat (split; [done|]). intros _. right. right. eapply inspect_absent; [exact I|]. by left.
    + exists (add_error y s), [y]. cbn. rewrite S3. repeat (split; [done|]). done.
Qed.

Lemma load_policy_run e :
  load_policy cfg id euid e
  = (match Load euid (w_files (e_world e)) (nc_Root cfg) id with
     | Ok p => Ok p | Err SMissing => Err (NRt EMissing) | Err y => Err (NRt (EStore y)) end, e).
Proof.
  unfold load_policy, on_world, read, of_store. destruct e. cbn. destruct (Load _ _ _ _) as [p|[]]; try done.
Qed.

(** The policy [reconcileNetwork] works with. *)
Definition loaded_as (e : env) (p : Policy) : Prop :=
  Load euid (w_files (e_world e)) (nc_Root cfg) id = Ok p
  ∨ is_ok (Load euid (w_files (e_world e)) (nc_Root cfg) id) = false ∧ p = Empty.

Lemma reconcile_run e :
  request_done e = false → e_deleted e = false →
  ∃ p loaded e0, loaded_as e p ∧ is_ok loaded = is_ok (Load euid (w_files (e_world e)) (nc_Root cfg) id)
    ∧ e_verified e0 = false ∧ e_allocations e0 = e_allocations e
    ∧ (∃ s, e_status e0 = Some s ∧ su_State s = "pending"%string)
    ∧ reconcileNetwork cfg id euid cwd e
      = match reconcile_body cfg id euid cwd p loaded e0 with
        | (Ok u, e') => (Ok u, e')
        | (Err x, e') => (Err (st_cause x), snd (quarantine cfg id euid p x e'))
        end.
Proof.
  intros RD DL. unfold reconcileNetwork.
  unfold mbind at 1, st_bind at 1, check_request. rewrite RD.
  unfold mbind at 1, st_bind at 1, gets at 1. rewrite DL. cbn [negb].
  unfold mbind at 1, st_bind at 1, check, st_lift, require.
  unfold mbind at 1, st_bind at 1, attempted at 1. rewrite load_policy_run.
  set (l := match Load euid (w_files (e_world e)) (nc_Root cfg) id with Ok p => Ok p | Err SMissing => _ | Err _ => _ end).
  set (p := match l with Ok p => p | Err _ => Empty end).
  exists p, (match l with Ok _ => Ok tt | Err x => Err x end),
    (set_status (pendingNetworkStatus cfg p (set_verified false e)) (set_verified false e)).
  split; [|split; [|split; [done|split; [done|split; [by eexists|]]]]].
  - unfold loaded_as, p, l. destruct (Load _ _ _ _) as [p'|[]]; auto.
  - unfold l. by destruct (Load _ _ _ _) as [p'|[]].
  - unfold mbind, st_bind, update, gets, storeNetworkStatus, update. cbv beta iota zeta. fold p.
    destruct (reconcile_body _ _ _ _ _ _ _) as [[u|x] e']; [done|]. by destruct (quarantine _ _ _ _ _ _).
Qed.
End Closing.

Section Reconciling.
Context `{JSONLaws} `{UUIDLaws} `{UnicodeTables} `{NftLaws} `{Machine} `{Netlink} `{!Host} `{Namespaces} `{Docker}.
Variables (cfg : nconfig) (id : string) (euid : Z) (cwd : list string).
Abbreviation ceiling := (networkCeiling cfg).

(** What was last read shows that the policy is in force: the rules nft listed filter as
    the policy does, and the queues inside the container and on the host are those of its
    limits. *)
Definition in_force (p : Policy) (assigned : assignment) (w : world) : Prop :=
  filtered id p assigned false (w_nft w)
  ∧ ∃ ns h d, let rate := Effective p ceiling in
      shaped (inside_kernel ns) (ln_Name d) (bw_Upload rate) (ln_MTU d) (w_inside w)
      ∧ shaped host_kernel (ln_Name h) (bw_Download rate) (ln_MTU h) (w_host w)
      ∧ ln_Peer d = ln_Index h ∧ ln_Peer h = ln_Index d.
Lemma enforced_in_force p assigned w : enforced id p assigned ceiling w → in_force p assigned w.
Proof.
  intros (ns & h & d & S1 & S2 & P1 & P2 & hf & VF). split; [by eapply VerifyFirewall_filtered|]. by exists ns, h, d.
Qed.


(** C36: reconciliation that counts a policy as verified has enforced it.  Without an error
    the saved policy was loaded, and either nothing is verified, or the policy and the
    running container that Docker described are recorded, the status shows the policy and,
    when its revision is not zero and its hash not empty, says that this revision and hash
    are applied; and, if the policy requires anything or the network is managed, the queues
    last read inside the container and on the host are those of the policy's limits and the
    rules last listed decide the packets of the bridge as the policy does, for listings of
    nft's grammar without a match of the frame's type under a mask and packets that exist,
    as in [VerifyFirewall_sound]. *)
Theorem reconcile_applies e e' :
  reconcileNetwork cfg id euid cwd e = (Ok tt, e') →
  ∃ p, Load euid (w_files (e_world e)) (nc_Root cfg) id = Ok p
    ∧ (e_verified e' = false
       ∨ ∃ c s, reported c ∧ running c = true ∧ e_applied e' = Some p ∧ e_containerID e' = ci_ID c
           ∧ e_status e' = Some s ∧ su_Desired s = p
           ∧ (po_Revision p ≠ 0 → po_PolicyHash p ≠ EmptyString →
              su_State s = "applied"%string ∧ su_AppliedRevision s = po_Revision p ∧ su_AppliedHash s = Some (po_PolicyHash p))
           ∧ (Required p ceiling || networkManaged id c = true → in_force p (as_Mappings (e_allocations e)) (e_world e'))).
Proof.
  intros R. destruct (request_done e) eqn:RD.
  { unfold reconcileNetwork, mbind, st_bind, check_request in R. by rewrite RD in R. }
  destruct (e_deleted e) eqn:DL.
  { unfold reconcileNetwork, mbind, st_bind, check_request, gets, check in R. by rewrite RD, DL in R. }
  destruct (reconcile_run cfg id euid cwd e RD DL) as (p & loaded & e0 & L & LI & V0 & A0 & _ & E).
  rewrite R in E. destruct (reconcile_body _ _ _ _ _ _ _) as [[u|y] e1] eqn:B; [|done]. injection E as <- <-.
  apply reconcile_body_Ok in B as [-> B]. exists p. split.
  { destruct L as [L|[L _]]; [done|]. by rewrite L in LI. }
  destruct B as [F|(c & RP & RN & V & AP & CI & [e2 ST] & _ & EN)]; [left; by rewrite F|]. right.
  exists c, (applied_status cfg p e2). do 5 (split; [done|]). rewrite A0 in EN.
  unfold applied_status. split; [destruct ((po_Revision p =? 0) || _); reflexivity|]. split.
  - intros N1 N2. destruct (Z.eqb_spec (po_Revision p) 0); [done|]. by destruct (String.eqb_spec (po_PolicyHash p) EmptyString).
  - intros RQ. by apply enforced_in_force, EN.
Qed.
End Reconciling.

(** ** What the status claims *)

(** A status that says "applied" speaks of the policy that was last verified, and of which
    [K] holds for the recorded container. *)
Definition honest (K : Policy → string → Prop) (e : env) : Prop :=
  ∀ s, e_deleted e = false → e_status e = Some s → su_State s = "applied"%string →
  e_verified e = true ∧ e_applied e = Some (su_Desired s) ∧ su_AppliedRevision s = po_Revision (su_Desired s)
  ∧ su_AppliedHash s = Some (po_PolicyHash (su_Desired s)) ∧ K (su_Desired s) (e_containerID e).

Definition keeps {A} (m : N A) : Prop := ∀ K e, honest K e → honest K (snd (m e)).
Definition makes {A} (m : N A) : Prop := ∀ K e, honest K (snd (m e)).

Lemma honest_own K e e' : own e' = own e → honest K e → honest K e'.
Proof. unfold own, honest. intros [= -> -> -> -> -> _]. done. Qed.
Lemma honest_weaken (K K' : Policy → string → Prop) e : (∀ p c, K p c → K' p c) → honest K e → honest K' e.
Proof. intros KK I s D S A. destruct (I s D S A) as (? & ? & ? & ? & ?). split_and!; auto. Qed.
Lemma honest_failed K id p x e `{UUIDs, JSON, UnicodeTables, Nft, Docker} : failed_closed id p x e → honest K e.
Proof. intros (_ & s & more & S & ST & _) s' _ S'. rewrite S in S'. injection S' as <-. by rewrite ST. Qed.
Lemma honest_state K e s : e_status e = Some s → su_State s ≠ "applied"%string → honest K e.
Proof. intros S N s' _ S'. rewrite S in S'. by injection S' as <-. Qed.

Lemma keeps_framed {A} (m : N A) : framed m → keeps m.
Proof. intros F K e. apply honest_own, frame_own, F. Qed.
Lemma keeps_makes {A} (m : N A) : makes m → keeps m.
Proof. by intros M K e _. Qed.
Lemma holds_bind {A B} (m : N A) (f : A → N B) : keeps m → (∀ a, keeps (f a)) → keeps (m ≫= f).
Proof.
  intros M F K e I. unfold mbind, st_bind. specialize (M K e I). destruct (m e) as [[a|x] e1]; [by apply F | done].
Qed.
Lemma makes_step {A B} (m : N A) (f : A → N B) : makes m → (∀ a, keeps (f a)) → makes (m ≫= f).
Proof. intros M F K e. unfold mbind, st_bind. specialize (M K e). destruct (m e) as [[a|x] e1]; [by apply F | done]. Qed.
(** Whatever a computation whose failure is caught did. *)
Lemma makes_last {A B} (m : N A) (f : result nerr A → N B) : (∀ r, makes (f r)) → makes (attempted m ≫= f).
Proof. intros F K e. unfold mbind, st_bind, attempted. destruct (m e) as [r e1]. apply F. Qed.
Lemma holds_ret {A} (a : A) : keeps (mret a).
Proof. by intros K e. Qed.
Lemma holds_err {A} x : keeps (st_err x : N A).
Proof. by intros K e. Qed.
Lemma keeps_if {A} (b : bool) (m n : N A) : keeps m → keeps n → keeps (if b then m else n).
Proof. by destruct b. Qed.
Lemma keeps_attempted {A} (m : N A) : keeps m → keeps (attempted m).
Proof. intros M K e I. unfold attempted. specialize (M K e I). by destruct (m e). Qed.
Lemma makes_store s : su_State s ≠ "applied"%string → makes (storeNetworkStatus s).
Proof. intros S K e. by apply (honest_state _ _ s). Qed.
(** The status becomes pending before anything else happens. *)
Lemma makes_pending {A} cfg p (f : Status → N A) :
  (∀ s, keeps (f s)) →
  makes (_ ← update (set_verified false); s ← gets (pendingNetworkStatus cfg p); _ ← storeNetworkStatus s; f s).
Proof. intros F K e. apply F. by eapply honest_state. Qed.
Lemma makes_pending_end cfg p :
  makes (_ ← update (set_verified false); s ← gets (pendingNetworkStatus cfg p); storeNetworkStatus s).
Proof. intros K e. by eapply honest_state. Qed.
Lemma honest_applied (K : Policy → string → Prop) cfg p containerID e :
  K p containerID → honest K (snd (store_applied cfg p containerID e)).
Proof.
  intros KP. rewrite store_applied_run. cbn [snd]. unfold applied_status. destruct (_ || _); [by eapply honest_state|].
  intros s _ [= <-] _. done.
Qed.
Lemma keeps_reconcile : keeps scheduleNetworkReconcile.
Proof. intros K e. by apply honest_own. Qed.
#[export] Hint Resolve keeps_framed holds_ret holds_err keeps_if keeps_attempted keeps_reconcile : netpolicy.

Ltac solve_keeps :=
  repeat first [solve [auto with netpolicy] | apply holds_bind; [|intros ?] | apply keeps_if | case_match].

Section Honest.
Context `{UUIDs} `{JSON} `{UnicodeTables} `{Nft} `{Machine} `{Netlink} `{!Host} `{Namespaces} `{Docker}.
Variables (cfg : nconfig) (id : string) (euid : Z) (cwd : list string).

Lemma makes_fail p x : makes (failNetworkStatus cfg p x).
Proof. intros K e. destruct (failNetworkStatus_run cfg p x e) as (s & -> & S & _). apply (honest_state _ _ s); [done|]. by rewrite S. Qed.
Lemma keeps_close p c : keeps (closeNetwork cfg id euid p c).
Proof. intros K e. apply honest_own, closeNetwork_own. Qed.
Lemma makes_synced p x : makes (failSyncedPolicy cfg id euid p x).
Proof. intros K e. eapply honest_failed, failSyncedPolicy_spec. Qed.
Hint Resolve keeps_close : netpolicy.

Abbreviation ceiling := (networkCeiling cfg).

(** The state shows that the policy is in force for a running container that Docker
    described, as far as the policy or the container's network call for it. *)
Definition shown (e : env) (p : Policy) (container : string) : Prop :=
  ∃ c, reported c ∧ running c = true ∧ ci_ID c = container
  ∧ (Required p ceiling || networkManaged id c = true → enforced id p (as_Mappings (e_allocations e)) ceiling (e_world e)).

(** A computation after which an applied status was so before, or is shown to be. *)
Definition shows {A} (m : N A) : Prop := ∀ (K : Policy → string → Prop) e,
  honest K e → (∀ p container, shown (snd (m e)) p container → K p container) → honest K (snd (m e)).

Lemma shows_keeps {A} (m : N A) : keeps m → shows m.
Proof. intros M K e I _. by apply M. Qed.
Lemma shows_bind {A B} (m : N A) (f : A → N B) : keeps m → (∀ a, shows (f a)) → shows (m ≫= f).
Proof.
  intros M F K e I. unfold mbind, st_bind. specialize (M K e I). destruct (m e) as [[a|x] e1]; [by apply F | done].
Qed.
Lemma shows_if {A} (b : bool) (m n : N A) : shows m → shows n → shows (if b then m else n).
Proof. by destruct b. Qed.
(** What follows leaves the world and the environment's fields alone. *)
Lemma shows_then {A B} (m : N A) (f : A → N B) :
  shows m → (∀ a e, own (snd (f a e)) = own e ∧ e_world (snd (f a e)) = e_world e) → shows (m ≫= f).
Proof.
  intros M F K e I. unfold mbind, st_bind. specialize (M K e I). destruct (m e) as [[a|x] e1]; [|exact M].
  cbn [snd] in M. destruct (F a e1) as [O W]. intros S. apply (honest_own _ e1 _ O), M. intros p c (i & R & RN & CI & EN).
  apply S. exists i. rewrite W. by replace (e_allocations (snd (f a e1))) with (e_allocations e1) by (by injection O).
Qed.
Lemma shows_attempted {A} (m : N A) : shows m → shows (attempted m).
Proof. intros M K e I. unfold attempted. specialize (M K e I). by destruct (m e). Qed.

Lemma shows_reconcileNetwork : shows (reconcileNetwork cfg id euid cwd).
Proof.
  intros K e I KS. destruct (request_done e) eqn:RD.
  { unfold reconcileNetwork, mbind, st_bind, check_request. by rewrite RD. }
  destruct (e_deleted e) eqn:DL.
  { unfold reconcileNetwork, mbind, st_bind, check_request, gets, check. by rewrite RD, DL. }
  destruct (reconcile_run cfg id euid cwd e RD DL) as (p & loaded & e0 & _ & _ & V0 & A0 & (s & S0 & P0) & E).
  rewrite E in KS |- *. clear E.
  destruct (reconcile_body _ _ _ _ _ _ _) as [[[]|y] e1] eqn:B; cbn [snd] in *.
  - apply reconcile_body_Ok in B as [_ [F|(c & RP & RN & V & AP & CI & [e2 ST] & AL & EN)]].
    + apply (honest_state _ _ s); [by rewrite F | by rewrite P0].
    + intros s' _ S' AS. rewrite ST in S'. injection S' as <-. unfold applied_status in *. destruct (_ || _); [done|].
      cbn. do 4 (split; [done|]). apply KS. exists c. by rewrite AL.
  - destruct (quarantine cfg id euid p y e1) as [r e2] eqn:Q. apply quarantine_spec in Q. cbn [snd].
    destruct (st_protect y && negb (st_retain y)); [by eapply honest_failed|].
    destruct Q as [(_ & s' & S' & ST & _) _]. apply (honest_state _ _ s'); [done | by rewrite ST].
Qed.

(** A verification that passed, and what it leaves. *)
Lemma verifyNetwork_Ok p c e e' :
  verifyNetwork cfg id euid cwd p c e = (Ok tt, e') →
  Required p ceiling || networkManaged id c = true →
  running c = true ∧ enforced id p (as_Mappings (e_allocations e')) ceiling (e_world e').
Proof.
  intros E RQ. pose proof (framed_step _ _ _ _ (framed_verify cfg id euid cwd p c) E) as F.
  replace (e_allocations e') with (e_allocations e) by (by rewrite F). clear F.
  assert (V : ∀ e1 e2, verifyNetworkPolicy cfg id euid cwd p p c e1 = (Ok tt, e2) →
    running c = true ∧ enforced id p (as_Mappings (e_allocations e1)) ceiling (e_world e2)).
  { intros e1 e2 V%verifyNetworkPolicy_Ok. destruct V as [[N1 N2]|(_ & RN & EN)]; [by rewrite N1, N2 in RQ | done]. }
  unfold verifyNetwork, leased in E. destruct (negb _); [by apply V|]. destruct (has_runtime cfg); [|by apply V].
  bind E u e1 E1. pose proof (framed_step _ _ _ _ (framed_world _) E1) as F.
  unfold close_lease in E. destruct (verifyNetworkPolicy _ _ _ _ _ _ _ _) as [r e2] eqn:VE. injection E as -> <-.
  apply V in VE. by replace (e_allocations e) with (e_allocations e1) by (by rewrite F).
Qed.
Lemma shown_applied p c e1 e2 :
  reported c → running c = true → verifyNetwork cfg id euid cwd p c e1 = (Ok tt, e2) →
  shown (snd (store_applied cfg p (ci_ID c) e2)) p (ci_ID c).
Proof. intros RP RN V. rewrite store_applied_run. exists c. repeat (split; [done|]). intros RQ. exact (proj2 (verifyNetwork_Ok _ _ _ _ V RQ)). Qed.

(** Verifying the recorded container: a failure changes nothing, a success is shown. *)
Lemma recorded_cases e r e' :
  verifyRecordedNetwork cfg id euid cwd e = (r, e') →
  (∃ x, r = Err x ∧ env_frame e e')
  ∨ ∃ u p c e2, r = Ok u ∧ e' = snd (store_applied cfg p (ci_ID c) e2) ∧ shown e' p (ci_ID c).
Proof.
  intros E. destruct r as [u|x].
  - right. unfold verifyRecordedNetwork in E. bind E p e1 E1. bind E c e2 E2. bind E rec e3 E3. bind E u4 e4 E4.
    bind E u5 e5 E5. destruct u5. apply check_Ok in E4 as [RN _]. apply andb_true_iff in RN as [RN _].
    assert (e' = snd (store_applied cfg p (ci_ID c) e5)) as -> by (by rewrite E).
    exists u, p, c, e5. split; [done|]. split; [done|]. by eapply shown_applied; [eapply inspect_reported|..].
  - left. exists x. split; [done|]. unfold verifyRecordedNetwork in E.
    assert (G : ∀ {A} (m : N A) (f : A → N unit) e, framed m → (∀ a e1, f a e1 = (Err x, e') → env_frame e1 e') →
      (m ≫= f) e = (Err x, e') → env_frame e e').
    { intros A m f e0 M F. unfold mbind, st_bind. specialize (M e0). destruct (m e0) as [[a|y] e1].
      - intros Ef. etrans; [exact M | by eapply F].
      - by intros [= -> ->]. }
    revert E. do 5 (apply G; [auto with netpolicy|intros ? ?]). rewrite store_applied_run. done.
Qed.
Lemma shows_recorded {B} (f : result nerr unit → N B) :
  (∀ u e, snd (f (Ok u) e) = e) → (∀ x, shows (f (Err x))) →
  shows (attempted (verifyRecordedNetwork cfg id euid cwd) ≫= f).
Proof.
  intros FO FE K e I. unfold mbind, st_bind, attempted.
  destruct (verifyRecordedNetwork cfg id euid cwd e) as [r e1] eqn:V.
  apply recorded_cases in V as [(x & -> & F)|(u & p & c & e2 & -> & E1 & SH)].
  - apply FE. by apply (honest_own _ e), I; apply frame_own.
  - rewrite FO. intros KS. rewrite E1. apply honest_applied. by apply KS.
Qed.

Lemma keeps_begin : keeps (beginNetworkChange cfg id euid).
Proof.
  unfold beginNetworkChange. apply holds_bind; [auto with netpolicy|]. intros [p|x].
  - apply keeps_makes, makes_pending_end.
  - apply keeps_makes, makes_step; [apply makes_fail | auto with netpolicy].
Qed.
Lemma keeps_lock : framed lockNetwork.
Proof. by intros []. Qed.
Hint Resolve keeps_begin keeps_lock : netpolicy.
Lemma keeps_Update p : keeps (UpdateNetworkPolicy cfg id euid cwd p).
Proof.
  unfold UpdateNetworkPolicy. do 4 (apply holds_bind; [auto with netpolicy|intros ?]).
  apply holds_bind; [auto with netpolicy|]. intros [old|x]; [|apply keeps_makes, makes_step; [apply makes_fail | auto with netpolicy]].
  do 5 (apply holds_bind; [auto with netpolicy|intros ?]). apply holds_bind; [auto with netpolicy|]. intros []; [auto with netpolicy|].
  apply keeps_makes, makes_pending. intros ?. apply holds_bind; [auto with netpolicy|]. intros [u|x]; [solve_keeps|].
  apply keeps_makes, makes_last. intros _. apply makes_step; [apply makes_fail | auto with netpolicy].
Qed.

Lemma keeps_store s : su_State s ≠ "applied"%string → keeps (storeNetworkStatus s).
Proof. intros S. by apply keeps_makes, makes_store. Qed.
Lemma keeps_allocations a : keeps (update (set_allocations a)).
Proof. intros K e I. exact I. Qed.
Lemma keeps_flag b : keeps (update (set_reconcile b)).
Proof. intros K e I. exact I. Qed.
Lemma keeps_synced p x : keeps (failSyncedPolicy cfg id euid p x).
Proof. apply keeps_makes, makes_synced. Qed.
Hint Resolve keeps_allocations keeps_flag keeps_synced : netpolicy.

Lemma shows_Settings a incoming : shows (SetNetworkSettings cfg id euid cwd a incoming).
Proof.
  unfold SetNetworkSettings. do 3 (apply shows_bind; [auto with netpolicy|intros ?]).
  destruct a2 as [old|x]; [|apply shows_keeps; auto with netpolicy].
  apply shows_if; [apply shows_keeps, keeps_makes; intros K e; by eapply honest_state|].
  apply shows_bind; [auto with netpolicy|intros _].
  apply shows_bind; [destruct incoming; auto with netpolicy|]. intros [u|x]; [|apply shows_keeps; auto with netpolicy].
  apply shows_bind; [auto with netpolicy|]. intros [v|x]; [|apply shows_keeps; auto with netpolicy].
  do 2 (apply shows_bind; [auto with netpolicy|intros ?]).
  apply shows_bind; [auto with netpolicy|]. intros [w|x]; [|apply shows_keeps; solve_keeps].
  do 2 (apply shows_bind; [auto with netpolicy|intros ?]). apply shows_if; [apply shows_keeps; auto with netpolicy|].
  intros K e _. apply shows_reconcileNetwork. by eapply honest_state.
Qed.

Lemma keeps_Reject cause : keeps (RejectNetworkPolicy cfg id euid cause).
Proof.
  unfold RejectNetworkPolicy. do 4 (apply holds_bind; [auto with netpolicy|intros ?]).
  intros K e _. unfold mbind at 1, st_bind at 1. destruct (failNetworkStatus_run cfg (match a2 with Ok p => p | Err _ => Empty end) cause e)
    as (s & R & S & _). rewrite R. set (rest := attempted ContainerInspect ≫= _).
  assert (KR : keeps rest); [|apply KR, (honest_state _ _ s); [done | by rewrite S]].
  assert (NS : ∀ t, su_State t = su_State s → keeps (storeNetworkStatus t)).
  { intros t ST. apply keeps_store. by rewrite ST, S. }
  unfold rest. apply holds_bind; [auto with netpolicy|]. intros r. apply keeps_if; [auto with netpolicy|].
  apply holds_bind; [destruct r; [auto with netpolicy | by apply NS]|]. intros _.
  apply holds_bind; [auto with netpolicy|]. intros closed.
  apply holds_bind; [|auto with netpolicy]. destruct closed; [auto with netpolicy|]. apply NS. by destruct r.
Qed.

Lemma makes_defer p x : makes (deferNetworkCheck cfg p x).
Proof. intros K e. by eapply honest_state. Qed.
Lemma close_or_note_state p c s e :
  ∃ s' e', close_or_note cfg id euid p c s e = (Ok s', e') ∧ su_State s' = su_State s ∧ own e' = own e.
Proof.
  unfold close_or_note, mbind, st_bind, attempted. pose proof (closeNetwork_own cfg id euid p c e) as O.
  destruct (closeNetwork cfg id euid p c e) as [[u|y] e1]; eexists _, _; (split; [reflexivity | done]).
Qed.
Lemma makes_fail_closed p c x s : makes (fail_closed cfg id euid p c x s).
Proof.
  intros K e. unfold fail_closed, mbind at 1, st_bind at 1.
  destruct (close_or_note_state p c (with_error x (with_state "failed" s)) e) as (s' & e' & -> & S & _).
  eapply honest_state; [reflexivity|]. cbn in S. by rewrite S.
Qed.
Lemma makes_unverified {A} (f : N A) : makes f → makes (_ ← update (set_verified false); f).
Proof. intros M K e. apply M. Qed.

Lemma keeps_NetworkPolicy : keeps (NetworkPolicy cfg id euid cwd).
Proof.
  unfold NetworkPolicy. do 2 (apply holds_bind; [auto with netpolicy|intros ?]). apply keeps_if; [auto with netpolicy|].
  apply holds_bind; [auto with netpolicy|intros status]. apply holds_bind; [auto with netpolicy|]. intros [p|x].
  - apply holds_bind; [apply keeps_if; [auto with netpolicy | apply keeps_makes, makes_pending; auto with netpolicy]|].
    intros current. apply keeps_if; [auto with netpolicy|].
    assert (PD : makes (_ ← storeNetworkStatus (with_state "pending" current); mret (with_state "pending" current))).
    { apply makes_step; [by apply makes_store | auto with netpolicy]. }
    apply holds_bind; [auto with netpolicy|]. intros r. apply holds_bind; [auto with netpolicy|]. intros recorded.
    destruct r as [c|x].
    + apply keeps_if.
      * apply holds_bind; [auto with netpolicy|]. intros [u|x]; [auto with netpolicy|]. apply keeps_makes.
        destruct (interruptedNetworkCheck x); [apply makes_defer | apply makes_unverified, makes_fail_closed].
      * apply keeps_makes, makes_unverified. destruct (running c); [apply makes_fail_closed | apply PD].
    + apply keeps_makes, makes_unverified. destruct (not_found _); [apply PD|].
      destruct (interruptedNetworkCheck x); [apply makes_defer | apply makes_fail_closed].
  - apply keeps_makes, makes_unverified. intros K e. set (s := with_error x (with_state "failed" status)).
    assert (C : ∃ s' e1, ((if (su_State status =? "applied")%string
                           then r ← attempted ContainerInspect;
                                close_or_note cfg id euid (su_Desired status) (match r with Ok c => c | Err _ => no_container end) s
                           else mret s) : N Status) e = (Ok s', e1) ∧ su_State s' = "failed"%string).
    { destruct (su_State status =? "applied")%string; [|by exists s, e]. unfold mbind, st_bind, attempted.
      destruct (ContainerInspect e) as [r e1].
      destruct (close_or_note_state (su_Desired status) (match r with Ok c => c | Err _ => no_container end) s e1) as (s' & e2 & E & S & _).
      by exists s', e2. }
    destruct C as (s' & e1 & C & S). unfold mbind at 1, st_bind at 1. rewrite C.
    eapply honest_state; [reflexivity | by rewrite S].
Qed.
Hint Resolve keeps_NetworkPolicy : netpolicy.

Lemma shows_pendingwork : shows (reconcilePendingNetwork cfg id euid cwd).
Proof.
  unfold reconcilePendingNetwork. apply shows_bind; [auto with netpolicy|]. intros [u|x]; [|apply shows_keeps; auto with netpolicy].
  apply shows_bind; [auto with netpolicy|]. intros dl. apply shows_then; [|done].
  apply shows_if; [apply shows_keeps; auto with netpolicy|]. apply shows_recorded; [done|]. intros y.
  apply shows_then; [apply shows_attempted, shows_reconcileNetwork | done].
Qed.
Lemma keeps_tick : keeps (monitor_tick cfg id euid cwd).
Proof. unfold monitor_tick. solve_keeps. Qed.
Lemma shows_finish : shows (finishNetworkStart cfg id euid cwd).
Proof.
  unfold finishNetworkStart. apply shows_if; [apply shows_reconcileNetwork|].
  apply shows_bind; [auto with netpolicy|]. intros [p|x]; [|apply shows_keeps; auto with netpolicy].
  intros K e I. unfold mbind at 1 3, st_bind at 1 3, attempted at 1 3.
  destruct (ContainerInspect e) as [[c|x] e1] eqn:E1; [|intros _; apply makes_synced].
  assert (I1 : honest K e1) by (by apply (honest_own _ e), I; apply frame_own; eapply framed_step, E1; auto with netpolicy).
  destruct (negb (Required p ceiling) && negb (networkManaged id c)) eqn:RQ; [done|].
  unfold mbind, st_bind, attempted.
  destruct (verifyNetwork cfg id euid cwd p c e1) as [[[]|x] e2] eqn:V; [|intros _; apply makes_synced].
  intros KS. apply honest_applied, KS, shown_applied with e1; [by eapply inspect_reported| |done].
  eapply verifyNetwork_Ok; [exact V|]. by destruct (Required p ceiling), (networkManaged id c).
Qed.
Lemma framed_prepare labels host : framed (prepareNetwork cfg id euid cwd labels host).
Proof. unfold prepareNetwork, create_network. solve_framed. Qed.
Lemma framed_bindRuntime c host : framed (bindNetworkRuntime cfg id euid cwd c host).
Proof. unfold bindNetworkRuntime. solve_framed. Qed.
Lemma framed_remove : framed (remove_body cfg id euid cwd).
Proof. unfold remove_body, removeNetworkState. solve_framed. Qed.
Lemma keeps_remove : keeps (removeNetworkPolicy cfg id euid cwd).
Proof.
  intros K e I. unfold removeNetworkPolicy, mbind at 1, st_bind at 1.
  pose proof (keeps_framed _ framed_remove K e I) as KR. destruct (remove_body cfg id euid cwd e) as [[u|x] e1]; [|done].
  by intros s [=].
Qed.
End Honest.

(** ** The life of an environment *)

Section Life.
Context `{JSONLaws} `{UUIDLaws} `{UnicodeTables} `{NftLaws} `{Machine} `{Netlink} `{!Host} `{Namespaces} `{Docker}.
Variables (cfg : nconfig) (id : string) (euid : Z) (cwd : list string).

(** The operations that hold the mutex. *)
Inductive operation :=
| OpUpdate (p : Policy) | OpSettings (a : Allocations) (incoming : option Policy) | OpReject (cause : nerr) | OpStatus
| OpReconcile | OpPending | OpTick | OpBegin | OpPrepare (labels : gmap string string) (host : HostConfig)
| OpBind (container : string) (host : HostConfig) | OpFinish | OpRemove.
Definition perform (o : operation) (e : env) : env :=
  match o with
  | OpUpdate p => snd (UpdateNetworkPolicy cfg id euid cwd p e)
  | OpSettings a incoming => snd (SetNetworkSettings cfg id euid cwd a incoming e)
  | OpReject cause => snd (RejectNetworkPolicy cfg id euid cause e)
  | OpStatus => snd (NetworkPolicy cfg id euid cwd e)
  | OpReconcile => snd (ReconcileNetwork cfg id euid cwd e)
  | OpPending => snd (reconcilePendingNetwork cfg id euid cwd e)
  | OpTick => snd (monitor_tick cfg id euid cwd e)
  | OpBegin => snd (beginNetworkChange cfg id euid e)
  | OpPrepare labels host => snd (prepareNetwork cfg id euid cwd labels host e)
  | OpBind container host => snd (bindNetworkRuntime cfg id euid cwd container host e)
  | OpFinish => snd (finishNetworkStart cfg id euid cwd e)
  | OpRemove => snd (removeNetworkPolicy cfg id euid cwd e)
  end.
(** An operation, or a change of the world from outside. *)
Inductive life : env → env → Prop :=
| life_op o e : life e (perform o e)
| life_outside e e' : env_frame e e' → life e e'.

Lemma life_honest K e e' :
  life e e' → honest K e → (∀ p container, shown cfg id e' p container → K p container) → honest K e'.
Proof.
  intros [o e1|e1 e2 F] I KS; [|by apply (honest_own _ e1), I; apply frame_own].
  destruct o; cbn [perform] in *; [apply keeps_Update | apply shows_Settings | apply keeps_Reject | apply keeps_NetworkPolicy
    | | apply shows_pendingwork | apply keeps_tick | apply keeps_begin | | | apply shows_finish | apply keeps_remove]; try done.
  - revert K e1 I KS. apply shows_bind; [apply keeps_framed, keeps_lock | intros _; apply shows_reconcileNetwork].
  - revert K e1 I KS. apply shows_keeps, keeps_framed, framed_prepare.
  - revert K e1 I KS. apply shows_keeps, keeps_framed, framed_bindRuntime.
Qed.

(** A state of the run, before [e] or [e] itself, that shows the policy in force. *)
Definition witnessed (e0 e : env) (p : Policy) (container : string) : Prop :=
  ∃ e1, rtc life e0 e1 ∧ rtc life e1 e ∧ shown cfg id e1 p container.

Lemma reached_honest e0 e : e_status e0 = None → rtc life e0 e → honest (witnessed e0 e) e.
Proof.
  intros S0. revert e. apply (rtc_ind_r (λ e, honest (witnessed e0 e) e)); [intros s _ S; congruence|].
  intros e e' R L I. apply (life_honest _ e); [done| |].
  - revert I. apply honest_weaken. intros p c (e1 & R1 & R2 & SH). exists e1. split; [done|]. split; [by eapply rtc_r | done].
  - intros p c SH. exists e'. split; [by eapply rtc_r|]. split; [apply rtc_refl | done].
Qed.


(** A container is created on the server's own network only behind a closed gate.  When
    the saved policy requires nothing the container is left as it is, without the label of
    a managed network; otherwise the network checked is the server's own bridge, the last
    listing of nft shows that nothing passes on it, and the container gets that network,
    the label, the runtime and its annotations, and loses the capabilities to change them. *)
Theorem prepareNetwork_gated labels host e labels' host' e' :
  prepareNetwork cfg id euid cwd labels host e = (Ok (labels', host'), e') →
  ∃ p, Load euid (w_files (e_world e)) (nc_Root cfg) id = Ok p
    ∧ ((Required p (networkCeiling cfg) = false ∧ labels' !! networkOwner = None ∧ host' = host)
       ∨ (Required p (networkCeiling cfg) = true ∧ labels' !! networkOwner = Some id
          ∧ filtered id p ∅ true (w_nft (e_world e'))
          ∧ (∃ bridge table, Names id = Some (hc_NetworkMode host', bridge, table))
          ∧ "NET_ADMIN"%string ∈ hc_CapDrop host' ∧ "NET_RAW"%string ∈ hc_CapDrop host'
          ∧ (has_runtime cfg = true → hc_Runtime host' = nc_Runtime cfg
             ∧ hc_Annotations host' !! RuntimeServerKey = Some id))).
Proof.
  unfold prepareNetwork. intros E. bind E dl e1 E1. apply gets_Ok in E1 as [-> ->].
  bind E u2 e2 E2. apply check_Ok in E2 as [_ ->]. bind E p e3 E3. rewrite load_policy_run in E3.
  destruct (Load _ _ _ _) as [p'|y] eqn:L; [|by destruct y]. injection E3 as -> ->. exists p. split; [done|].
  bind E u4 e4 E4. apply of_policy_Ok in E4 as [_ ->]. destruct (Required p (networkCeiling cfg)) eqn:RQ.
  2:{ injection E as <- <- _. left. by rewrite lookup_delete_eq. }
  right. split; [done|]. bind E a e5 E5. bind E u6 e6 E6. bind E u7 e7 E7.
  destruct (Names id) as [[[name bridge] table]|]; [|done]. bind E r e8 E8. bind E n e9 E9. bind E u10 e10 E10.
  bind E u11 e11 E11. destruct u11. apply gateNetwork_Ok in E11 as [h G]. bind E g e12 E12. apply gets_Ok in E12 as [-> ->].
  injection E as <- <- <-. rewrite lookup_insert_eq. cbn. split; [done|]. split; [by eapply VerifyFirewall_filtered|].
  split; [by eexists _, _|]. split; [set_solver|]. split; [set_solver|]. intros ->.
  split; [done|]. rewrite lookup_insert_ne by done. apply lookup_insert_eq.
Qed.
End Life.

(** The monitors of servers started together spread over the second half of the
    interval. *)
Theorem networkCheckDelay_spread id interval :
  2 ≤ interval < 2 ^ 63 → interval / 2 ≤ networkCheckDelay id interval < interval.
Proof.
  intros B. unfold networkCheckDelay. rewrite (proj2 (Z.ltb_ge _ _)) by lia.
  assert (D : 0 < interval - interval / 2 ∧ 0 ≤ interval / 2) by (Z.to_euclidean_division_equations; lia).
  pose proof (Z.mod_pos_bound (fnv64a 14695981039346656037 id) (interval - interval / 2)) as M.
  rewrite wrap64_id; [lia|]. unfold in_int64, int64_min, int64_max. lia.
Qed.
