(* ===== verification/NetExample.v ===== *)
(** * An example of enforcement

    A host with a bridge and a pair of interfaces, a kernel that keeps queues, an nft that
    keeps the last table it loaded, Docker and runc, and the files of one server: the
    hypotheses of the theorems on the runtime wrapper and on reconciliation can hold. *)

From stdpp Require Import base gmap sets list strings numbers sorting.
From Stdlib Require Import Ascii.
From S2P Require Import Prelude GoStrings Policy PolicyFacts Nft NftFacts Paths PathsFacts Route Shaping ShapingFacts Store.
From S2P Require Import StoreFacts NftState NftEval NftImplied NftLink NftGood NftVerify RuntimePath Runtime RuntimeFacts NetPolicy NetPolicyFacts.
Open Scope Z_scope.

#[local] Existing Instance StoreExample.ex_json.
#[local] Existing Instance StoreExample.ex_json_laws.
#[local] Existing Instance ShapingExample.ex_machine.
#[local] Existing Instance ShapingExample.ex_netlink.
#[local] Instance sim_ids : UUIDs := {| uuid_canonical id := (strlen id =? 36) && is_ascii id |}.
#[local] Instance sim_ids_laws : UUIDLaws.
Proof. split; intros id [L A]%andb_true_iff; [lia | done]. Qed.
#[local] Instance sim_unicode : UnicodeTables := {| unicode_lower s := s; unicode_upper s := s; unicode_trim s := s |}.

(** ** nft: the objects of the last script that was loaded *)

Definition added (c : json) : option json := mget "add" c.
Definition script_objects (text : string) : option json :=
  v ← parse_json text;
  match mget "nftables" v with Some (JArr l) => Some (obj1 "nftables" (JArr (omap added l))) | _ => None end.
Definition loaded_table (h : list command) : option json :=
  c ← list.last (filter (λ c, cm_args c = load_args) h); script_objects (cm_input c).
Definition missing_text (table : string) : string :=
  "Error: No such file or directory" +:+ String newline ("list table bridge " +:+ table +:+ String newline "                  ^^^^").
Definition sim_run (h : list command) : outcome :=
  match list.last h with
  | None => RunOk EmptyString
  | Some c =>
      if bool_decide (cm_args c = load_args) || bool_decide (cm_args c = check_args) then RunOk EmptyString
      else match loaded_table h, list.last (cm_args c) with
           | Some v, _ => RunOk (marshal_json v)
           | None, Some table => RunErr (missing_text table) (Some 1)
           | None, None => RunErr EmptyString (Some 1)
           end
  end.
#[local] Instance sim_nft : Nft := {|
  nft_run := sim_run;
  first_json text := match parse_json text with Some v => if json_utf8 v then Some v else None | None => None end |}.
#[local] Instance sim_nft_laws : NftLaws.
Proof.
  split. intros text v E. cbn [first_json sim_nft] in E. destruct (parse_json text) as [v'|]; [|done].
  destruct (json_utf8 v') eqn:U; [|done]. congruence.
Qed.

(** ** The kernel: links by name, and the queues of one device *)

Definition link_message (l : Link) : message :=
  mkMessage RTM_NEWLINK 0 0 0
    (repeat 0 4 ++ ShapingExample.word (ln_Index l) ++ repeat 0 8
     ++ ShapingExample.ex_marshal
          [(IFLA_IFNAME, text_bytes (ln_Name l) ++ [0]); (IFLA_MTU, ShapingExample.word (ln_MTU l));
           (IFLA_LINK, ShapingExample.word (ln_Peer l)); (IFLA_MASTER, ShapingExample.word (ln_master l));
           (IFLA_ADDRESS, ln_Address l)]).
Definition wanted (r : request) : string :=
  match attributes (drop 16 (rq_data r)) with
  | Some [(_, b)] => attr_string b
  | _ => EmptyString
  end.
Definition sim_kernel (links : list Link) (shaped : Z) : Kernel := {|
  answer h :=
    match list.last h with
    | None => Ok []
    | Some r =>
        if rq_kind r =? RTM_GETLINK then
          if rq_flags r =? NLM_F_DUMP then Ok (map link_message links)
          else match filter (λ l, ln_Name l = wanted r) links with
               | l :: _ => Ok [link_message l]
               | [] => Err (RKernel 19)
               end
        else if rq_kind r =? RTM_GETQDISC then
          Ok (map (ShapingExample.message_of shaped) (ShapingExample.raw_state ShapingExample.ex_start (removelast h)))
        else Ok []
    end;
  cancelled _ := false;
  route_opens := true |}.

Definition sim_id : string := "3c0b5a4e-8f5d-4c1b-9a55-0f6f4f1f2a11".
Definition mac : bytes := [2; 66; 172; 18; 0; 2].
Definition host_links : list Link :=
  [mkLink 1 0 "lo" [] 65536 0; mkLink 9 0 "nsm3c0b5a4e8f5d" [] 1500 0; mkLink 3 0 "docker0" [] 1500 0; mkLink 7 2 "veth1" [] 1500 9].
Definition inside_links : list Link := [mkLink 1 0 "lo" [] 65536 0; mkLink 2 7 "eth0" mac 1500 0].

(** ** The files *)

Definition container : string := "0123456789abcdef0123456789abcdef0123456789abcdef0123456789abcdef".
Definition generation : string := "7d444840-9dc0-11d1-b245-5ffdce74fad2".
Definition sim_binding : RuntimeBinding := mkBinding 1 sim_id container generation "nsm" (Some w_assigned) 3 w_hash.
Definition annotations : gmap string string := {[RuntimeServerKey := sim_id; RuntimeGenerationKey := generation]}.
Definition netns : string := "/var/run/docker/netns/4f2a".
Definition bundle : json :=
  JObj [("annotations", JObj [(RuntimeServerKey, JStr sim_id); (RuntimeGenerationKey, JStr generation)]);
        ("linux", JObj [("namespaces", JArr [JObj [("type", JStr "pid")];
                                             JObj [("type", JStr "network"); ("path", JStr netns)]])])]%string.
Definition sim_dir : fnode := mkNode Directory 448 0 2.
Definition open_dir : fnode := mkNode Directory 493 0 2.
Definition state_file (v : json) : fnode := mkNode (Regular (marshal_json v)) 384 0 1.
Definition program : fnode := mkNode (Regular "program") 493 0 1.
Definition base_files : files :=
  list_to_map [("/", open_dir); ("/etc", open_dir); ("/etc/config.yml", mkNode (Regular "yaml") 384 0 1); ("/run", open_dir);
    ("/run/config.json", state_file bundle); ("/usr", open_dir); ("/usr/runc", program); ("/usr/wings", program);
    ("/var", open_dir); ("/var/wings", sim_dir); ("/var/wings/network-policy", sim_dir);
    ("/var/wings/network-policy/runtime", sim_dir);
    ("/var/wings/network-policy/3c0b5a4e-8f5d-4c1b-9a55-0f6f4f1f2a11.json", state_file (policy_json w_policy))]%string.
Definition sim_files : files :=
  <["/var/wings/network-policy/runtime/3c0b5a4e-8f5d-4c1b-9a55-0f6f4f1f2a11.json"%string := state_file (binding_json sim_binding)]>
    base_files.
Definition sim_world : world := mkWorld sim_files [] [] [] false [].

(** ** runc and the host *)

Definition created : RuntimeState := mkState container 4711 "created" "/run" annotations.
Definition limit : Bandwidth := mkBandwidth 80000 0.
Definition sim_config : runtime_config := mkConfig true "nsm" false EmptyString "/var/wings" limit.
#[local] Instance sim_host : Host := {|
  host_kernel := sim_kernel host_links 7;
  inside_kernel _ := sim_kernel inside_links 2;
  nft_interrupted _ := false;
  lock_attempts _ := [mkAttempt false (LockBusy false id); mkAttempt false LockTaken];
  runc_state _ := Ok created;
  runc_start _ := true;
  expired _ := false;
  own_executable := "/usr/wings"%string;
  same_file a b := (a =? b)%string;
  wrapper_config _ := Some sim_config |}.
#[local] Instance sim_namespaces : Namespaces := {|
  pid_namespace _ := Some 8; own_namespace := Some 1; path_namespace _ := Some 8 |}.

Definition start_args : list string := ["--root"; "/run/docker"; "--systemd-cgroup"; "start"; container]%string.

Lemma ParseRuntimeInvocation_exact_witness :
  ParseRuntimeInvocation start_args = Ok (mkCall ["--root"; "/run/docker"; "--systemd-cgroup"] "start" [container])%string
  ∧ start_args = ["--root"; "/run/docker"; "--systemd-cgroup"]%string ++ "start"%string :: [container].
Proof.
  assert (P : ParseRuntimeInvocation start_args = Ok (mkCall ["--root"; "/run/docker"; "--systemd-cgroup"] "start" [container])%string)
    by (vm_compute; reflexivity).
  split; [exact P|]. exact (proj1 (ParseRuntimeInvocation_exact _ _ P ltac:(discriminate))).
Defined.

(** ** A start *)

Definition started : world := snd (runNetworkRuntime 0 [] "/etc/config.yml" "/usr/runc" start_args sim_world).
Lemma started_once : starts started = [CallStart true].
Proof. vm_compute. reflexivity. Qed.

Lemma runtime_start_enforced_witness :
  starts started = [CallStart true] ∧ ∃ id p assigned, filtered id p assigned false (w_nft started).
Proof.
  split; [exact started_once|].
  assert (N : starts started ≠ starts sim_world) by (rewrite started_once; discriminate).
  destruct (runtime_start_enforced 0 [] "/etc/config.yml" "/usr/runc" start_args sim_world started eq_refl N)
    as (c & cfg & root & id & b & p & assigned & R).
  exists id, p, assigned. apply R.
Defined.

(** ** Docker *)

Definition labels : gmap string string :=
  {["Service" := "Pterodactyl"; "ContainerType" := "server_process"; networkOwner := sim_id]}%string.
Definition network_name : string := "wings-nsm-3c0b5a4e-8f5d-4c1b-9a55-0f6f4f1f2a11".
Definition sim_nconfig (runtime : string) : nconfig :=
  mkNConfig true false EmptyString "bridge" false "pterodactyl" ["9.9.9.9"]%string "172.18.0.1" runtime false limit "/var/wings"
    "/etc/config.yml" "unix:///var/run/docker.sock".
Definition sim_allocations : Allocations := mkAllocations false w_assigned.
Definition sim_host_config : HostConfig :=
  mkHostConfig network_name false [] [] EmptyString (DockerBindings (sim_nconfig "nsm") sim_allocations) "nsm" annotations.
Definition sim_container : Inspect :=
  mkInspect container ("/" +:+ sim_id) (Some (true, 4711)) (Some labels) (Some sim_host_config)
    (Some (mkNetworkSettings netns {[network_name := Some "02:42:AC:12:00:02"%string]})).
Definition sim_network (name : string) : Network :=
  mkNetwork "n1" name "bridge" "local" false false false {[networkOwner := sim_id]}
    {["com.docker.network.bridge.name"%string := if (name =? network_name)%string then "nsm3c0b5a4e8f5d" else "docker0"]}%string [].
(** Docker with this container; [ok] says whether a kill succeeds. *)
Definition sim_docker (ok : bool) (c : Inspect) : Docker := {|
  inspect _ := Ok c;
  network_inspect h := match list.last h with Some (DNetworkInspect name) => Ok (sim_network name) | _ => Err DOther end;
  network_create _ := Ok tt;
  network_remove _ := Ok tt;
  container_kill _ := if ok then Ok tt else Err DOther;
  docker_info _ := Ok (mkInfo [] "linux" {["nsm"%string := ("/usr/wings", ["nsm-runtime"; "--config"; "/etc/config.yml"; "--runc"; "/usr/runc"; "--"])%string]});
  platform_probe _ := Ok tt;
  mode_shared mode := false;
  mode_network mode := mode;
  request_done _ := false;
  locked_in_time _ := true;
  write_faults _ := StoreExample.no_faults;
  temp_name _ := ".policy-1"%string;
  new_uuid _ := generation |}.

Definition sim_env : env := mkEnv sim_world [] false None EmptyString None false false sim_allocations false.
Abbreviation sim_cfg := (sim_nconfig "nsm").
#[local] Instance sim_running : Docker := sim_docker true sim_container.

(** ** Applying a policy *)

Definition applied_end : env := snd (reconcileNetwork sim_cfg sim_id 0 [] sim_env).
Lemma applied_run : reconcileNetwork sim_cfg sim_id 0 [] sim_env = (Ok tt, applied_end) ∧ e_verified applied_end = true.
Proof.
  assert (E : ∀ {A B} (x : A * B) a, fst x = a → x = (a, snd x)) by (by intros A B [] ? <-).
  split; [apply E|]; vm_compute; reflexivity.
Qed.
Lemma reconcile_applies_witness :
  ∃ p, Load 0 sim_files "/var/wings" sim_id = Ok p ∧ e_applied applied_end = Some p.
Proof.
  destruct (reconcile_applies sim_cfg sim_id 0 [] sim_env applied_end (proj1 applied_run)) as (p & L & [V|(c & s & _ & _ & A & _)]).
  - exfalso. rewrite (proj2 applied_run) in V. discriminate V.
  - exists p. exact (conj L A).
Defined.


(** ** A failure *)

(** Docker reports a container without its configuration. *)
Definition bare_container : Inspect :=
  mkInspect container ("/" +:+ sim_id) (Some (true, 4711)) (Some labels) None None.
Definition sim_bare : Docker := sim_docker true bare_container.
Definition failed_end : env := snd (reconcileNetwork (H7 := sim_bare) sim_cfg sim_id 0 [] sim_env).
Lemma failed_run : reconcileNetwork (H7 := sim_bare) sim_cfg sim_id 0 [] sim_env = (Err NMismatch, failed_end).
Proof.
  assert (E : ∀ {A B} (x : A * B) a, fst x = a → x = (a, snd x)) by (by intros A B [] ? <-).
  apply E. vm_compute. reflexivity.
Qed.

(** ** Creating the container *)

Definition plain_host : HostConfig :=
  mkHostConfig "pterodactyl" false [] ["setpcap"]%string EmptyString ∅ EmptyString ∅.
Definition prepared := prepareNetwork sim_cfg sim_id 0 [] ∅ plain_host sim_env.
Lemma prepared_run : ∃ labels' host' e', prepared = (Ok (labels', host'), e').
Proof.
  assert (E : ∀ x : result nerr (gmap string string * HostConfig) * env, is_ok (fst x) = true → ∃ l h e', x = (Ok (l, h), e')).
  { intros [[[l h]|y] e'] I; [by exists l, h, e' | done]. }
  apply E. vm_compute. reflexivity.
Qed.
Lemma prepareNetwork_gated_witness :
  ∃ labels' host', fst prepared = Ok (labels', host') ∧ labels' !! networkOwner = Some sim_id
    ∧ "NET_ADMIN"%string ∈ hc_CapDrop host'.
Proof.
  destruct prepared_run as (labels' & host' & e' & E). exists labels', host'. split; [exact (f_equal fst E)|].
  destruct (prepareNetwork_gated sim_cfg sim_id 0 [] ∅ plain_host sim_env labels' host' e' E)
    as (p & L & [(R & _)|(_ & O & _ & _ & C & _)]); [|exact (conj O C)].
  exfalso. assert (Q : Load 0 sim_files "/var/wings" sim_id = Ok w_policy) by (vm_compute; reflexivity).
  change (Load 0 sim_files "/var/wings" sim_id = Ok p) in L. rewrite Q in L. injection L as <-. discriminate R.
Defined.

Lemma networkCheckDelay_spread_witness :
  networkCheckDelay sim_id 30000000000 = 17115510983 ∧ 15000000000 ≤ networkCheckDelay sim_id 30000000000 < 30000000000.
Proof. split; [vm_compute; reflexivity | exact (networkCheckDelay_spread sim_id 30000000000 ltac:(lia))]. Defined.
