(* ===== verification/Inodes.v ===== *)
(** * Inodes and system calls

    What the sandboxed file system (internal/ufs) uses of Linux: a store of inodes,
    directories with their entries and parent, the resolution of paths with and without
    [RESOLVE_BENEATH], and the system calls the daemon makes.

    Every system call is one step.  Before each of them other processes may change the
    store, and each may fail: the world carries the list of these events, so that a theorem
    that quantifies over worlds covers every interleaving.  When the list is used up nothing
    interferes any more.  Inodes are never reused, as long as descriptors refer to them. *)

From stdpp Require Import base gmap sets list strings numbers.
From Stdlib Require Import Ascii.
From S2P Require Import Prelude GoStrings.
Open Scope Z_scope.

Inductive errno :=
| ENOENT | EEXIST | ENOTDIR | EISDIR | EXDEV | ELOOP | EINVAL | ENOTEMPTY | EPERM | EACCES
| EBUSY | EAGAIN | EINTR | EOPNOTSUPP | EBADF | EIO.
#[global] Instance errno_eq_dec : EqDecision errno.
Proof. solve_decision. Defined.

(** A removed directory that is still open is [IGone]. *)
Inductive ikind :=
| IReg (content : string)
| IDir (entries : gmap string Z) (parent : Z)
| IGone
| ILink (target : string)
| IOther.
#[global] Instance ikind_eq_dec : EqDecision ikind.
Proof. solve_decision. Defined.

Record inode := mkInode {
  i_kind : ikind; i_mode : Z; i_uid : Z; i_gid : Z; i_nlink : Z; i_times : Z * Z }.
Abbreviation fsys := (gmap Z inode).

Definition set_kind (k : ikind) (n : inode) : inode :=
  mkInode k (i_mode n) (i_uid n) (i_gid n) (i_nlink n) (i_times n).
Definition set_mode (m : Z) (n : inode) : inode :=
  mkInode (i_kind n) m (i_uid n) (i_gid n) (i_nlink n) (i_times n).
(** [-1] keeps the owner or the group. *)
Definition set_owner (uid gid : Z) (n : inode) : inode :=
  mkInode (i_kind n) (i_mode n) (if uid =? -1 then i_uid n else uid) (if gid =? -1 then i_gid n else gid)
    (i_nlink n) (i_times n).
(** [None] is [UTIME_OMIT]. *)
Definition set_times (atime mtime : option Z) (n : inode) : inode :=
  mkInode (i_kind n) (i_mode n) (i_uid n) (i_gid n) (i_nlink n)
    (default (fst (i_times n)) atime, default (snd (i_times n)) mtime).
Definition add_nlink (by_ : Z) (n : inode) : inode :=
  mkInode (i_kind n) (i_mode n) (i_uid n) (i_gid n) (i_nlink n + by_) (i_times n).

Definition is_directory (n : inode) : bool := match i_kind n with IDir _ _ => true | _ => false end.
Definition is_link (n : inode) : bool := match i_kind n with ILink _ => true | _ => false end.
Definition is_regular_file (n : inode) : bool := match i_kind n with IReg _ => true | _ => false end.

(** ** Flags *)

Definition O_RDONLY : Z := 0.
Definition O_WRONLY : Z := 1.
Definition O_RDWR : Z := 2.
Definition O_CREATE : Z := 64.
Definition O_EXCL : Z := 128.
Definition O_TRUNC : Z := 512.
Definition O_NONBLOCK : Z := 2048.
Definition O_DIRECTORY : Z := 65536.
Definition O_NOFOLLOW : Z := 131072.
Definition O_CLOEXEC : Z := 524288.
Definition O_PATH : Z := 2097152.
Definition has (flags bit : Z) : bool := negb (Z.land flags bit =? 0).

(** ** Resolution of paths *)

Definition root_ino : Z := 2.

Section Resolution.
Variable fs : fsys.

Definition dir_of (i : Z) : result errno (gmap string Z * Z) :=
  match i_kind <$> fs !! i with
  | Some (IDir entries parent) => Ok (entries, parent)
  | Some IGone => Err ENOENT
  | Some _ => Err ENOTDIR
  | None => Err EBADF
  end.
Definition link_target (i : Z) : option string :=
  match i_kind <$> fs !! i with Some (ILink t) => Some t | _ => None end.

(** The names [names] from [dir], following at most [budget] links; a link in last place
    is followed only when [follow] says so.  With [top] nothing above that directory is
    passed, and no absolute link is followed: [RESOLVE_BENEATH]. *)
Fixpoint namei (top : option Z) (budget : nat) (follow : bool) : Z → list string → result errno Z :=
  fix walk (dir : Z) (names : list string) : result errno Z :=
    match names with
    | [] => Ok dir
    | n :: rest =>
        '(entries, parent) ← dir_of dir;
        if decide (n = EmptyString ∨ n = "."%string) then walk dir rest
        else if decide (n = ".."%string) then
          if decide (top = Some dir) then Err EXDEV
          else walk (if decide (dir = root_ino) then root_ino else parent) rest
        else
          match (entries : gmap string Z) !! n with
          | None => Err ENOENT
          | Some i =>
              match link_target i with
              | Some target =>
                  if negb follow && bool_decide (rest = []) then Ok i
                  else match budget with
                       | O => Err ELOOP
                       | S budget' =>
                           if IsAbs target then
                             if decide (top = None) then namei top budget' follow root_ino (Split slash target ++ rest)
                             else Err EXDEV
                           else namei top budget' follow dir (Split slash target ++ rest)
                       end
              | None => walk i rest
              end
          end
    end.

Definition max_follow : nat := 40.
Definition resolve (beneath follow : bool) (start : Z) (path : string) : result errno Z :=
  if decide (path = EmptyString) then Err ENOENT
  else if IsAbs path then
    if beneath then Err EXDEV else namei None max_follow follow root_ino (Split slash path)
  else namei (if beneath then Some start else None) max_follow follow start (Split slash path).

(** The directory a path's last name is looked up in, and that name. *)
Definition names_of (path : string) : list string := filter (λ n, n ≠ EmptyString) (Split slash path).
Definition resolve_parent (beneath : bool) (start : Z) (path : string) : result errno (Z * string) :=
  if decide (path = EmptyString) then Err ENOENT
  else
    let names := names_of path in
    dir ← (if IsAbs path then
             if beneath then Err EXDEV else namei None max_follow true root_ino (removelast names)
           else namei (if beneath then Some start else None) max_follow true start (removelast names));
    _ ← dir_of dir;
    Ok (dir, List.last names "."%string).
End Resolution.

Definition normal (name : string) : bool :=
  negb (bool_decide (name = "."%string)) && negb (bool_decide (name = ".."%string)).

(** ** Changes *)

(** Entries of a directory. *)
Definition set_entry (dir : Z) (name : string) (i : Z) (fs : fsys) : fsys :=
  alter (λ n, match i_kind n with IDir es p => set_kind (IDir (<[name := i]> es) p) n | _ => n end) dir fs.
Definition del_entry (dir : Z) (name : string) (fs : fsys) : fsys :=
  alter (λ n, match i_kind n with IDir es p => set_kind (IDir (delete name es) p) n | _ => n end) dir fs.
Definition fresh_ino (fs : fsys) : Z := fresh (dom fs : gset Z).
Definition add_node (dir : Z) (name : string) (n : inode) (fs : fsys) : Z * fsys :=
  let i := fresh_ino fs in (i, set_entry dir name i (<[i := n]> fs)).

(** ** The process and its world *)

Inductive evaluated := Evaluated (path : string) | MissingAt (path : string) | EvalFailed (e : errno).
Class Process := {
  umask : Z;
  process_uid : Z;
  process_gid : Z;
  (** The kernel has fchmodat2. *)
  fchmodat2 : bool;
  (** [filepath.EvalSymlinks] of a descriptor's entry in /proc. *)
  descriptor_path : fsys → Z → evaluated;
  (** The order in which a directory is read. *)
  dir_order : gmap string Z → list string;
}.

Record event := mkEvent { ev_change : fsys → fsys; ev_fault : option errno }.
(** [s_open] counts the open descriptors. *)
Record sys := mkSys { s_fs : fsys; s_events : list event; s_open : Z }.

Abbreviation K := (st sys errno).

Definition before_call (s : sys) : option errno * sys :=
  match s_events s with
  | [] => (None, s)
  | e :: l => (ev_fault e, mkSys (ev_change e (s_fs s)) l (s_open s))
  end.
Definition system_call {A} (f : fsys → result errno (A * fsys)) : K A := λ s,
  let '(fault, s1) := before_call s in
  match fault with
  | Some e => (Err e, s1)
  | None => match f (s_fs s1) with
            | Ok (a, fs') => (Ok a, mkSys fs' (s_events s1) (s_open s1))
            | Err e => (Err e, s1)
            end
  end.
Definition system_read {A} (f : fsys → result errno A) : K A :=
  system_call (λ fs, a ← f fs; Ok (a, fs)).

(** Opening and closing count the descriptor. *)
Definition opening (m : K Z) : K Z := λ s,
  match m s with
  | (Ok fd, s') => (Ok fd, mkSys (s_fs s') (s_events s') (s_open s' + 1))
  | (Err e, s') => (Err e, s')
  end.
Definition closed (n : Z) (s : sys) : sys := mkSys (s_fs s) (s_events s) (s_open s - n).

(** ** The system calls *)

Section Calls.
Context `{Process}.

Definition created_mode (mode : Z) : Z := Z.land mode (Z.lnot umask).
Definition new_node (k : ikind) (mode nlink : Z) : inode :=
  mkInode k (created_mode mode) process_uid process_gid nlink (0, 0).

Definition open_existing (i flags : Z) (fs : fsys) : result errno (Z * fsys) :=
  match fs !! i with
  | None => Err EBADF
  | Some n =>
      if has flags O_CREATE && has flags O_EXCL then Err EEXIST
      else if has flags O_DIRECTORY && negb (is_directory n) then Err ENOTDIR
      else match i_kind n with
           | ILink _ => if has flags O_PATH then Ok (i, fs) else Err ELOOP
           | IDir _ _ =>
               if negb (has flags O_PATH) && (has flags O_WRONLY || has flags O_RDWR || has flags O_CREATE)
               then Err EISDIR else Ok (i, fs)
           | IReg _ =>
               if negb (has flags O_PATH) && has flags O_TRUNC
               then Ok (i, <[i := set_kind (IReg EmptyString) n]> fs) else Ok (i, fs)
           | IGone => Err ENOENT
           | IOther => Ok (i, fs)
           end
  end.
(** A link in last place is not followed when the file must not exist. *)
Definition follows (flags : Z) : bool :=
  negb (has flags O_NOFOLLOW) && negb (has flags O_CREATE && has flags O_EXCL).
Definition create_file (beneath : bool) (start : Z) (path : string) (flags mode : Z) (fs : fsys)
    : result errno (Z * fsys) :=
  '(dir, name) ← resolve_parent fs beneath start path;
  '(entries, _) ← dir_of fs dir;
  if negb (normal name) then Err EISDIR
  else match (entries : gmap string Z) !! name with
       | Some _ => Err ENOENT
       | None =>
           if has flags O_DIRECTORY then Err EINVAL
           else Ok (add_node dir name (new_node (IReg EmptyString) mode 1) fs)
       end.
Definition open_path (beneath : bool) (start : Z) (path : string) (flags mode : Z) (fs : fsys)
    : result errno (Z * fsys) :=
  match resolve fs beneath (follows flags) start path with
  | Ok i => open_existing i flags fs
  | Err e => if decide (e = ENOENT) then
               if has flags O_CREATE then create_file beneath start path flags mode fs else Err e
             else Err e
  end.

Definition sys_openat (beneath : bool) (start : Z) (path : string) (flags mode : Z) : K Z :=
  opening (system_call (open_path beneath start path flags mode)).

Definition sys_fstat (fd : Z) : K inode :=
  system_read (λ fs, match fs !! fd with Some n => Ok n | None => Err EBADF end).
Definition sys_fcntl : K unit := system_read (λ _, Ok tt).
Definition sys_evaluate (fd : Z) : K evaluated := system_read (λ fs, Ok (descriptor_path fs fd)).

Definition stat_path (follow : bool) (start : Z) (path : string) (fs : fsys) : result errno (Z * inode) :=
  i ← resolve fs false follow start path;
  match fs !! i with Some n => Ok (i, n) | None => Err EBADF end.
Definition sys_fstatat (follow : bool) (start : Z) (path : string) : K (Z * inode) :=
  system_read (stat_path follow start path).

(** Attributes of a file. *)
Definition change_node (follow : bool) (start : Z) (path : string) (f : inode → inode) (fs : fsys)
    : result errno (unit * fsys) :=
  '(i, n) ← stat_path follow start path fs; Ok (tt, <[i := f n]> fs).
Definition permissions (mode : Z) : Z := Z.land mode 4095.
Definition sys_fchmodat2 (start : Z) (path : string) (mode : Z) : K unit :=
  system_call (λ fs,
    if negb fchmodat2 then Err EOPNOTSUPP
    else '(_, n) ← stat_path false start path fs;
         if is_link n then Err EOPNOTSUPP
         else change_node false start path (set_mode (permissions mode)) fs).
(** [chmod] of a descriptor's entry in /proc. *)
Definition sys_chmod_fd (fd mode : Z) : K unit :=
  system_call (λ fs, match fs !! fd with
                     | Some n => Ok (tt, <[fd := set_mode (permissions mode) n]> fs)
                     | None => Err EBADF end).
Definition sys_fchownat (follow : bool) (start : Z) (path : string) (uid gid : Z) : K unit :=
  system_call (change_node follow start path (set_owner uid gid)).
Definition sys_utimensat (start : Z) (path : string) (atime mtime : option Z) : K unit :=
  system_call (change_node false start path (set_times atime mtime)).

Definition sys_mkdirat (start : Z) (path : string) (mode : Z) : K unit :=
  system_call (λ fs,
    '(dir, name) ← resolve_parent fs false start path;
    '(entries, _) ← dir_of fs dir;
    if negb (normal name) || bool_decide (is_Some ((entries : gmap string Z) !! name)) then Err EEXIST
    else let '(_, fs') := add_node dir name (new_node (IDir ∅ dir) mode 2) fs in Ok (tt, fs')).
Definition sys_symlinkat (target : string) (start : Z) (path : string) : K unit :=
  system_call (λ fs,
    if decide (target = EmptyString) then Err ENOENT
    else
      '(dir, name) ← resolve_parent fs false start path;
      '(entries, _) ← dir_of fs dir;
      if negb (normal name) || bool_decide (is_Some ((entries : gmap string Z) !! name)) then Err EEXIST
      else let '(_, fs') := add_node dir name (mkInode (ILink target) 511 process_uid process_gid 1 (0, 0)) fs in
           Ok (tt, fs')).

(** [unlink], and [rmdir] with [AT_REMOVEDIR]. *)
Definition unlink_entry (dir : Z) (name : string) (fs : fsys) : result errno (unit * fsys) :=
  '(entries, _) ← dir_of fs dir;
  if negb (normal name) then Err EISDIR
  else match (entries : gmap string Z) !! name with
       | None => Err ENOENT
       | Some i =>
           match fs !! i with
           | None => Err EIO
           | Some n => if is_directory n then Err EISDIR
                       else Ok (tt, del_entry dir name (<[i := add_nlink (-1) n]> fs))
           end
       end.
Definition rmdir_entry (dir : Z) (name : string) (fs : fsys) : result errno (unit * fsys) :=
  '(entries, _) ← dir_of fs dir;
  if decide (name = "."%string) then Err EINVAL
  else if decide (name = ".."%string) then Err ENOTEMPTY
  else match (entries : gmap string Z) !! name with
       | None => Err ENOENT
       | Some i =>
           match fs !! i with
           | None => Err EIO
           | Some n =>
               match i_kind n with
               | IDir es _ => if decide (es = ∅) then Ok (tt, del_entry dir name (<[i := set_kind IGone n]> fs))
                              else Err ENOTEMPTY
               | _ => Err ENOTDIR
               end
           end
       end.
Definition sys_unlinkat (removedir : bool) (start : Z) (path : string) : K unit :=
  system_call (λ fs,
    '(dir, name) ← resolve_parent fs false start path;
    if removedir then rmdir_entry dir name fs else unlink_entry dir name fs).

(** Whether [i] is [dir] or one of its ancestors, at most [fuel] of them: the number of
    inodes is enough. *)
Fixpoint ancestor (fs : fsys) (fuel : nat) (i dir : Z) : bool :=
  bool_decide (i = dir)
  || match fuel with
     | O => true
     | S fuel' => match dir_of fs dir with
                  | Ok (_, parent) => if decide (dir = root_ino) then false else ancestor fs fuel' i parent
                  | Err _ => false
                  end
     end.
(** What the new name may replace, and the store without it. *)
Definition replaceable (i j : Z) (fs : fsys) : result errno fsys :=
  match fs !! i, fs !! j with
  | Some n, Some m =>
      match is_directory n, i_kind m with
      | true, IDir es _ => if decide (es = ∅) then Ok (<[j := set_kind IGone m]> fs) else Err ENOTEMPTY
      | true, _ => Err ENOTDIR
      | false, IDir _ _ => Err EISDIR
      | false, _ => Ok (<[j := add_nlink (-1) m]> fs)
      end
  | _, _ => Err EIO
  end.
Definition reparent (i dir : Z) (fs : fsys) : fsys :=
  alter (λ n, match i_kind n with IDir es _ => set_kind (IDir es dir) n | _ => n end) i fs.
Definition rename_entry (olddir : Z) (oldname : string) (newdir : Z) (newname : string) (fs : fsys)
    : result errno (unit * fsys) :=
  '(olds, _) ← dir_of fs olddir;
  '(news, _) ← dir_of fs newdir;
  if negb (normal oldname) || negb (normal newname) then Err EBUSY
  else match (olds : gmap string Z) !! oldname with
       | None => Err ENOENT
       | Some i =>
           if match fs !! i with Some n => is_directory n | None => false end && ancestor fs (size fs) i newdir
           then Err EINVAL
           else match (news : gmap string Z) !! newname with
                | Some j =>
                    if decide (i = j) then Ok (tt, fs)
                    else fs' ← replaceable i j fs;
                         Ok (tt, reparent i newdir (set_entry newdir newname i (del_entry olddir oldname fs')))
                | None => Ok (tt, reparent i newdir (set_entry newdir newname i (del_entry olddir oldname fs)))
                end
       end.
Definition sys_renameat (oldstart : Z) (oldpath : string) (newstart : Z) (newpath : string) : K unit :=
  system_call (λ fs,
    '(olddir, oldname) ← resolve_parent fs false oldstart oldpath;
    '(newdir, newname) ← resolve_parent fs false newstart newpath;
    rename_entry olddir oldname newdir newname fs).

Definition sys_readlinkat (start : Z) (path : string) : K string :=
  system_read (λ fs,
    i ← resolve fs false false start path;
    match link_target fs i with Some t => Ok t | None => Err EINVAL end).

(** The next [n] entries that have not been read yet, with their inodes. *)
Definition sys_getdents (fd : Z) (seen : list string) (n : option nat) : K (list (string * Z)) :=
  system_read (λ fs,
    '(entries, _) ← dir_of fs fd;
    let names := filter (λ x, x ∉ seen) (dir_order entries) in
    Ok (omap (λ x, (λ i, (x, i)) <$> (entries : gmap string Z) !! x)
          (match n with Some n => take n names | None => names end))).

(** Content of an open regular file. *)
Definition sys_ftruncate (fd : Z) : K unit :=
  system_call (λ fs, match fs !! fd with
                     | Some n => if is_regular_file n then Ok (tt, <[fd := set_kind (IReg EmptyString) n]> fs)
                                 else Err EINVAL
                     | None => Err EBADF end).
(** Bytes written at an offset: a gap is filled with zero bytes. *)
Fixpoint zero_bytes (n : nat) : string :=
  match n with O => EmptyString | S n' => String Ascii.zero (zero_bytes n') end.
Definition overwrite (off : nat) (data content : string) : string :=
  String.substring 0 off content +:+ zero_bytes (off - String.length content) +:+ data
  +:+ String.substring (off + String.length data) (String.length content) content.
Definition sys_pwrite (fd : Z) (off : nat) (data : string) : K unit :=
  system_call (λ fs, match fs !! fd with
                     | Some n => match i_kind n with
                                 | IReg content => Ok (tt, <[fd := set_kind (IReg (overwrite off data content)) n]> fs)
                                 | _ => Err EINVAL end
                     | None => Err EBADF end).
Definition sys_pread (fd : Z) (off n : nat) : K string :=
  system_read (λ fs, match fs !! fd with
                     | Some m => match i_kind m with
                                 | IReg content => Ok (String.substring off n content)
                                 | IDir _ _ => Err EISDIR
                                 | _ => Err EINVAL end
                     | None => Err EBADF end).
Definition sys_lseek : K unit := system_read (λ _, Ok tt).
End Calls.
