(* ===== verification/Ufs.v ===== *)
(** * The sandboxed file system (internal/ufs: fs_unix.go, mkdir_unix.go, path_unix.go,
    removeall_unix.go, walk_unix.go, error.go, and the removals of fs_quota.go)

    [UnixFS] works below a base directory that a server's processes control: it opens the
    parent of a path beneath the base and then makes system calls relative to that
    descriptor.  Without openat2 it checks afterwards where a descriptor leads.

    The state is the operating system's ([sys], with the interference of other processes)
    and the disk accounting.  A descriptor is the inode it refers to.  Errors keep the path
    of Go's [*PathError], which two operations use, and its kind; the name of the operation
    in it only shows in messages and is left out. *)

From stdpp Require Import base gmap sets list strings numbers.
From Stdlib Require Import Ascii.
From S2P Require Import Prelude GoStrings Disk Inodes.
Open Scope Z_scope.

(** ** Errors (error.go) *)

Inductive ukind :=
| ErrExist | ErrIsDirectory | ErrNotDirectory | ErrNotExist | ErrPermission
| ErrBadPathResolution | ErrNotRegular | Errno (e : errno)
| SkipDir | SkipAll | OutOfFuel.
#[global] Instance ukind_eq_dec : EqDecision ukind.
Proof. solve_decision. Defined.

(** The path of a [*PathError], and the kind; a bare errno or a link error has no path. *)
Record uerr := mkUErr { ue_path : option string; ue_kind : ukind }.
#[global] Instance uerr_eq_dec : EqDecision uerr.
Proof. solve_decision. Defined.
Definition PathError (path : string) (k : ukind) : uerr := mkUErr (Some path) k.
Definition bare (e : errno) : uerr := mkUErr None (Errno e).

Definition errnoToPathError (e : errno) (path : string) : uerr :=
  PathError path (match e with
                  | EEXIST => ErrExist
                  | EISDIR => ErrIsDirectory
                  | ENOTDIR => ErrNotDirectory
                  | ENOENT => ErrNotExist
                  | EPERM => ErrPermission
                  | EXDEV | ELOOP => ErrBadPathResolution
                  | e => Errno e
                  end).
Definition convertErrorType (e : uerr) : uerr :=
  match ue_path e, ue_kind e with
  | Some path, Errno n => errnoToPathError n path
  | Some _, _ => e
  | None, Errno _ => PathError "!(UNKNOWN)" (ue_kind e)
  | None, _ => e
  end.
Definition ensurePathError (e : uerr) (path : string) : uerr :=
  match ue_path e, ue_kind e with
  | Some path', Errno n => errnoToPathError n path'
  | Some _, _ => e
  | None, Errno n => errnoToPathError n path
  | None, k => PathError path k
  end.
(** [errors.Is], which asks an errno too. *)
Definition is_not_exist (e : uerr) : bool :=
  match ue_kind e with ErrNotExist | Errno ENOENT => true | _ => false end.
Definition is_exist (e : uerr) : bool :=
  match ue_kind e with ErrExist | Errno EEXIST | Errno ENOTEMPTY => true | _ => false end.
Definition is_kind (k : ukind) (e : uerr) : bool := bool_decide (ue_kind e = k).

(** ** The state *)

Record ufs := mkUfs { u_sys : sys; u_disk : Filesystem }.
Definition set_sys (s : sys) (u : ufs) : ufs := mkUfs s (u_disk u).
Definition set_disk (d : Filesystem) (u : ufs) : ufs := mkUfs (u_sys u) d.

Abbreviation U := (st ufs uerr).

Definition calls {A} (m : K A) : st ufs errno A := λ u,
  let '(r, s) := m (u_sys u) in (r, set_sys s u).
(** A system call whose errno is turned into an error by [f]. *)
Definition on {A} (m : st ufs errno A) (f : errno → uerr) : U A := λ u,
  match m u with (Ok a, u') => (Ok a, u') | (Err e, u') => (Err (f e), u') end.
Definition close (n : Z) : U unit := λ u, (Ok tt, set_sys (closed n (u_sys u)) u).
Definition attempt {A} (m : U A) : U (result uerr A) := λ u, let '(r, u') := m u in (Ok r, u').
Definition gets_fs : U fsys := λ u, (Ok (s_fs (u_sys u)), u).
(** What is deferred runs whatever the outcome. *)
Definition deferred {E A} (m : st ufs E A) (n : Z) : st ufs E A := λ u,
  let '(r, u') := m u in (r, set_sys (closed n (u_sys u')) u').

(** [ignoringEINTR]: a call that was interrupted is repeated.  Every interruption is an
    event, so that one turn more than there are events is enough. *)
Fixpoint retry {A} (turns : nat) (m : st ufs errno A) : st ufs errno A := λ u,
  match m u with
  | (Err EINTR, u') => match turns with O => (Err EINTR, u') | S turns' => retry turns' m u' end
  | r => r
  end.
Definition ignoringEINTR {A} (m : st ufs errno A) : st ufs errno A := λ u,
  retry (length (s_events (u_sys u))) m u.

(** ** Paths (fs_unix.go, path_unix.go) *)

(** [strings.TrimPrefix] and [strings.TrimSuffix]. *)
Fixpoint cut_prefix (pre s : string) : option string :=
  match pre, s with
  | EmptyString, _ => Some s
  | String a pre', String b s' => if decide (a = b) then cut_prefix pre' s' else None
  | _, _ => None
  end.
Definition trim_prefix (s pre : string) : string := default s (cut_prefix pre s).
Definition trim_slash (s : string) : string := str_rev (TrimPrefix slash (str_rev s)).

(** [filepath.Split]. *)
Definition path_Split (name : string) : string * string := (upto_slash name, after_slash name).

Definition endsWithDot (path : string) : bool :=
  bool_decide (path = "."%string) || HasSuffix path "/.".

(** [basename]: what is after the last slash, trailing slashes apart. *)
Definition strip_slashes (s : string) : string :=
  let t := TrimRight slash s in
  if bool_decide (t = EmptyString) && negb (bool_decide (s = EmptyString)) then "/" else t.
Definition basename (name : string) : string :=
  let t := strip_slashes name in if bool_decide (t = "/"%string) then t else after_slash t.
(** [splitPath]: the parent and the base. *)
Fixpoint one_slash (s : string) : string :=
  match s with
  | String a (String b _ as s') => if Ascii.eqb a slash && Ascii.eqb b slash then one_slash s' else s
  | _ => s
  end.
Definition splitPath (path : string) : string * string :=
  let p := strip_slashes (one_slash path) in
  if contains_byte slash p && negb (bool_decide (p = "/"%string)) then
    let dir := upto_slash p in
    ((if bool_decide (dir = "/"%string) then "/" else trim_slash dir)%string, after_slash p)
  else (".", p)%string.

Record UnixFS := mkUnixFS { basePath : string; useOpenat2 : bool }.
Definition NewUnixFS (path : string) (openat2 : bool) : UnixFS := mkUnixFS (trim_slash path) openat2.

(** What [Stat] and [Lstat] describe. *)
Record fileStat := mkStat { fst_name : string; fst_ino : Z; fst_node : inode }.
Definition IsDir (s : fileStat) : bool := is_directory (fst_node s).
Definition isSymlink (s : fileStat) : bool := is_link (fst_node s).
Definition stat_size (n : inode) : Z := match i_kind n with IReg c => strlen c | ILink t => strlen t | _ => 0 end.
Definition file_info (s : fileStat) : FileInfo :=
  mkInfo (is_regular_file (fst_node s)) (stat_size (fst_node s)) (i_nlink (fst_node s)) (fst_ino s).

(** Go's mode bits for system calls. *)
Definition ModeSetuid : Z := 2 ^ 23.
Definition ModeSetgid : Z := 2 ^ 22.
Definition ModeSticky : Z := 2 ^ 20.
Definition syscallMode (i : Z) : Z :=
  Z.lor (Z.land i 511)
    (Z.lor (if has i ModeSetuid then 2048 else 0)
       (Z.lor (if has i ModeSetgid then 1024 else 0) (if has i ModeSticky then 512 else 0))).

Section UnixFS.
Context `{Process}.
Variable fs : UnixFS.

Definition unsafeIsPathInsideOfBase (path : string) : bool :=
  HasPrefix (trim_slash path +:+ "/") (basePath fs +:+ "/").
Definition unsafePath (path : string) : result uerr string :=
  let r := Clean (path_Join (basePath fs) (trim_prefix path (basePath fs))) in
  if unsafeIsPathInsideOfBase r then
    let r' := TrimPrefix slash (trim_prefix r (basePath fs)) in
    Ok (if bool_decide (r' = EmptyString) then "."%string else r')
  else Err (PathError path ErrBadPathResolution).

(** *** Opening *)

(** The errors of an open that are not wrapped are those the caller may repeat on. *)
Definition open_error (name : string) (e : errno) : uerr :=
  match e with EINTR | EAGAIN => bare e | _ => ensurePathError (bare e) name end.
Definition set_flag (flag bit : Z) : Z := if has flag bit then flag else Z.lor flag bit.
Definition _openat (start : Z) (name : string) (flag mode : Z) : st ufs errno Z :=
  calls (sys_openat false start name (set_flag flag O_CLOEXEC) mode).
Definition _openat2 (dirfd : Z) (name : string) (flag mode : Z) : st ufs errno Z :=
  calls (sys_openat true dirfd name (set_flag flag O_CLOEXEC) mode).
(** The base directory.  Its path is absolute, so that the descriptor given is not used. *)
Definition open_base : U Z :=
  on (_openat root_ino (basePath fs) (Z.lor O_DIRECTORY O_RDONLY) 0) (open_error (basePath fs)).

Definition checkOpenedType (fd : Z) (name : string) : U unit :=
  n ← on (calls (sys_fstat fd)) (λ e, convertErrorType (PathError name (Errno e)));
  if is_regular_file n || is_directory n
  then on (calls sys_fcntl) (λ e, convertErrorType (PathError name (Errno e)))
  else st_err (PathError name ErrNotRegular).

Definition checkOpenedPath (fd : Z) (name : string) : U unit :=
  r ← on (calls (sys_evaluate fd)) bare;
  match r with
  | EvalFailed e => st_err (bare e)
  | Evaluated p => if unsafeIsPathInsideOfBase p then mret tt else st_err (PathError name ErrBadPathResolution)
  | MissingAt p => if unsafeIsPathInsideOfBase p then st_err (convertErrorType (PathError p (Errno ENOENT)))
                   else st_err (PathError name ErrBadPathResolution)
  end.

(** A descriptor that fails a check is closed. *)
Definition closing_on_error (fd : Z) (m : U unit) : U unit := λ u,
  match m u with
  | (Ok x, u') => (Ok x, u')
  | (Err e, u') => (Err e, set_sys (closed 1 (u_sys u')) u')
  end.
Definition openatResolved (dirfd : Z) (name : string) (flag mode : Z) : U Z :=
  let checkType := negb (has flag O_PATH) in
  let flag' := if checkType then Z.lor flag O_NONBLOCK else flag in
  fd ← on (ignoringEINTR ((if useOpenat2 fs then _openat2 else _openat) dirfd name flag' (syscallMode mode)))
          (open_error name);
  _ ← (if checkType then closing_on_error fd (checkOpenedType fd name) else mret tt);
  _ ← (if useOpenat2 fs then mret tt else closing_on_error fd (checkOpenedPath fd name));
  mret fd.
Definition openat (dirfd : Z) (name : string) (flag mode : Z) : U Z :=
  if flag <? 0 then st_err (PathError name (Errno EINVAL))
  else openatResolved dirfd name (set_flag flag O_NOFOLLOW) mode.

(** The descriptor of the parent, the name in it, and how many descriptors [closeFd]
    closes, on errors too. *)
Definition safePath (path : string) : ufs → (Z * result uerr (Z * string)) * ufs := λ u,
  match unsafePath path with
  | Err e => ((0, Err e), u)
  | Ok name =>
      match open_base u with
      | (Err e, u1) => ((0, Err e), u1)
      | (Ok fsDirfd, u1) =>
          let '(dir, file) := path_Split name in
          if decide (dir = EmptyString) then ((1, Ok (fsDirfd, file)), u1)
          else match openat fsDirfd (trim_slash dir) (Z.lor O_DIRECTORY O_RDONLY) 0 u1 with
               | (Err e, u2) => ((1, Err e), u2)
               | (Ok dirfd, u2) => ((2, Ok (dirfd, file)), u2)
               end
      end
  end.
(** The idiom of every operation: the path is opened, [closeFd] is deferred, and an error
    is returned. *)
Definition with_path {A} (path : string) (body : Z → string → U A) : U A := λ u,
  let '((n, r), u1) := safePath path u in
  match r with
  | Err e => (Err e, set_sys (closed n (u_sys u1)) u1)
  | Ok (dirfd, name) => deferred (body dirfd name) n u1
  end.

(** *** Attributes *)

Definition fchmodNoFollow (dirfd : Z) (name : string) (mode : Z) : st ufs errno unit :=
  fd ← _openat dirfd name (Z.lor O_PATH (Z.lor O_NOFOLLOW O_CLOEXEC)) 0;
  deferred
    (n ← calls (sys_fstat fd);
     if is_link n then st_err EOPNOTSUPP else calls (sys_chmod_fd fd mode)) 1.
Definition fchmodat (dirfd : Z) (name : string) (mode : Z) : U unit :=
  on (λ u, match calls (sys_fchmodat2 dirfd name mode) u with
           | (Err EOPNOTSUPP, u') => fchmodNoFollow dirfd name mode u'
           | r => r
           end) (λ e, ensurePathError (bare e) name).
Definition Chmod (path : string) (mode : Z) : U unit := with_path path (λ dirfd name, fchmodat dirfd name mode).
Definition Chmodat : Z → string → Z → U unit := fchmodat.

Definition rename_error {A} (path : string) (m : U A) : U A := λ u,
  match m u with (Ok a, u') => (Ok a, u') | (Err e, u') => (Err (ensurePathError e path), u') end.
Definition fchown (follow : bool) (path : string) (uid gid : Z) : U unit :=
  with_path path (λ dirfd name, on (calls (sys_fchownat follow dirfd name uid gid)) bare).
Definition Chown (path : string) (uid gid : Z) : U unit := rename_error path (fchown true path uid gid).
Definition Lchown (path : string) (uid gid : Z) : U unit := rename_error path (fchown false path uid gid).
Definition Chownat (dirfd : Z) (name : string) (uid gid : Z) : U unit :=
  on (calls (sys_fchownat true dirfd name uid gid)) (λ e, ensurePathError (bare e) name).
Definition Lchownat (dirfd : Z) (name : string) (uid gid : Z) : U unit :=
  on (calls (sys_fchownat false dirfd name uid gid)) (λ e, ensurePathError (bare e) name).

(** A zero time is left as it is. *)
Definition Chtimesat (dirfd : Z) (name : string) (atime mtime : option Z) : U unit :=
  on (calls (sys_utimensat dirfd name atime mtime)) (λ e, ensurePathError (bare e) name).
Definition Chtimes (path : string) (atime mtime : option Z) : U unit :=
  with_path path (λ dirfd name, Chtimesat dirfd name atime mtime).

(** *** Opening files and reading attributes *)

Definition OpenFileat : Z → string → Z → Z → U Z := openat.
Definition OpenFile (path : string) (flag mode : Z) : U Z :=
  with_path path (λ dirfd name, openat dirfd name flag mode).
Definition Open (path : string) : U Z := OpenFile path O_RDONLY 0.
Definition Create (path : string) : U Z := OpenFile path (Z.lor O_CREATE (Z.lor O_WRONLY O_TRUNC)) 420.

Definition _fstatat (follow : bool) (dirfd : Z) (name : string) : U fileStat :=
  '(i, n) ← on (ignoringEINTR (calls (sys_fstatat follow dirfd name))) (λ e, ensurePathError (bare e) name);
  mret (mkStat (basename name) i n).
Definition Lstatat : Z → string → U fileStat := _fstatat false.
Definition Lstat (path : string) : U fileStat := with_path path (_fstatat false).
Definition statFollow (path : string) : U fileStat :=
  rel ← st_lift (unsafePath path);
  rootfd ← open_base;
  deferred
    (fd ← openatResolved rootfd rel O_PATH 0;
     deferred
       (n ← on (ignoringEINTR (calls (sys_fstat fd))) (λ e, ensurePathError (bare e) path);
        mret (mkStat (basename (path_Base rel)) fd n)) 1) 1.
Definition Stat (path : string) : U fileStat :=
  info ← Lstat path;
  if isSymlink info then statFollow path else mret info.

(** The buffer is doubled until the target fits.  The kernel's targets are shorter than
    4096 bytes, so that the sizes from 256 to 4096 are enough. *)
Fixpoint readlink_loop (turns : nat) (size dirfd : Z) (name : string) : U string :=
  match turns with
  | O => st_err (mkUErr None OutOfFuel)
  | S turns' =>
      t ← on (ignoringEINTR (calls (sys_readlinkat dirfd name))) (λ e, ensurePathError (bare e) name);
      if strlen t <? size then mret t else readlink_loop turns' (2 * size) dirfd name
  end.
Definition Readlinkat (dirfd : Z) (name : string) : U string := readlink_loop 5 256 dirfd name.

(** *** Creating *)

Definition mkdirat (dirfd : Z) (name : string) (mode : Z) : U unit :=
  on (calls (sys_mkdirat dirfd name mode)) (λ e, ensurePathError (bare e) name).
Definition Mkdir (path : string) (mode : Z) : U unit := with_path path (λ dirfd name, mkdirat dirfd name mode).
Definition Mkdirat : Z → string → Z → U unit := mkdirat.

(** [mkdirAll] of mkdir_unix.go: [turns] bounds the depth, and the length of the name is
    enough for it. *)
Fixpoint mkdirAll (turns : nat) (name : string) (mode : Z) : U (list string) :=
  dir ← attempt (Lstat name);
  match dir with
  | Ok dir =>
      dir' ← (if isSymlink dir then
                r ← attempt (Stat name);
                match r with
                | Ok d => mret d
                | Err e => if is_kind ErrBadPathResolution e then st_err (PathError name ErrNotDirectory) else st_err e
                end
              else mret dir);
      if IsDir dir' then mret [] else st_err (PathError name ErrNotDirectory)
  | Err _ =>
      let up := upto_slash (TrimRight slash name) in
      created ← (if 1 <? strlen up then
                   match turns with
                   | O => st_err (mkUErr None OutOfFuel)
                   | S turns' => mkdirAll turns' (trim_slash up) mode
                   end
                 else mret []);
      made ← attempt (Mkdir name mode);
      match made with
      | Ok _ => mret (created ++ [name])
      | Err e =>
          again ← attempt (Lstat name);
          match again with
          | Ok d => if IsDir d then mret created else st_err e
          | Err _ => st_err e
          end
      end
  end.
Definition MkdirAll (path : string) (mode : Z) : U (list string) :=
  name ← st_lift (unsafePath path);
  mkdirAll (String.length name) name mode.

Definition Symlink (oldpath newpath : string) : U unit :=
  with_path newpath (λ dirfd name,
    on (ignoringEINTR (calls (sys_symlinkat oldpath dirfd name))) bare).

(** [TouchPath], with the same idiom: the missing directories are created. *)
Definition with_touched {A} (path : string) (body : Z → string → U A) : U A := λ u,
  let '((n, r), u1) := safePath path u in
  match r with
  | Ok (dirfd, name) => deferred (body dirfd name) n u1
  | Err e =>
      match is_not_exist e, ue_path e with
      | true, Some missing =>
          match MkdirAll missing 493 u1 with
          | (Err e', u2) => (Err e', set_sys (closed n (u_sys u2)) u2)
          | (Ok _, u2) => with_path path body (set_sys (closed n (u_sys u2)) u2)
          end
      | _, _ => (Err e, set_sys (closed n (u_sys u1)) u1)
      end
  end.
Definition Touch (path : string) (flag mode : Z) : U Z :=
  with_touched path (λ dirfd name, OpenFileat dirfd name (set_flag flag O_CREATE) mode).

(** *** Renaming *)

Definition rename_into (oldpath newpath : string) (olddirfd : Z) (oldname : string) (newdirfd : Z) (newname : string)
    : U unit :=
  if decide (newname = "."%string) then st_err (PathError newname ErrBadPathResolution)
  else
    r ← attempt (Lstatat newdirfd newname);
    match r with
    | Ok _ => st_err (PathError newname ErrExist)
    | Err e =>
        if is_not_exist e then on (calls (sys_renameat olddirfd oldname newdirfd newname)) bare
        else st_err e
    end.
Definition Rename (oldpath newpath : string) : U unit :=
  if decide (oldpath = newpath) then mret tt
  else with_path oldpath (λ olddirfd oldname,
    if decide (oldname = "."%string) then st_err (PathError oldname ErrBadPathResolution)
    else
      _ ← Lstatat olddirfd oldname;
      with_touched newpath (rename_into oldpath newpath olddirfd oldname)).

(** *** Removing one name *)

Definition unlinkat (dirfd : Z) (name : string) (removedir : bool) : st ufs errno unit :=
  ignoringEINTR (calls (sys_unlinkat removedir dirfd name)).
Definition RemoveStat (path : string) : U fileStat :=
  with_path path (λ dirfd name,
    s ← Lstatat dirfd name;
    _ ← on (unlinkat dirfd name (IsDir s)) (λ e, ensurePathError (bare e) name);
    mret s).
Definition Remove (path : string) : U unit :=
  with_path path (λ dirfd name,
    if decide (name = "."%string) then st_err (PathError name ErrBadPathResolution)
    else λ u,
      match unlinkat dirfd name false u with
      | (Ok _, u1) => (Ok tt, u1)
      | (Err e, u1) =>
          match unlinkat dirfd name true u1 with
          | (Ok _, u2) => (Ok tt, u2)
          | (Err e1, u2) => (Err (ensurePathError (bare (if decide (e1 = ENOTDIR) then e else e1)) name), u2)
          end
      end).

(** *** Reading directories (walk_unix.go) *)

Record dirent := mkDirent { de_dirfd : Z; de_name : string; de_node : option inode }.
(** The type of an entry is part of what the kernel returns. *)
Definition de_IsDir (d : dirent) : bool := match de_node d with Some n => is_directory n | None => false end.
Definition de_isRegular (d : dirent) : bool := match de_node d with Some n => is_regular_file n | None => false end.
Definition de_Info (d : dirent) : U fileStat := Lstatat (de_dirfd d) (de_name d).
Definition de_Open (d : dirent) : U Z := OpenFileat (de_dirfd d) (de_name d) O_RDONLY 0.

Definition readDir (fd : Z) (name : string) : U (list dirent) :=
  entries ← on (ignoringEINTR (calls (sys_getdents fd [] None))) (λ e, ensurePathError (bare e) name);
  store ← gets_fs;
  mret (map (λ xi : string * Z, mkDirent fd (fst xi) ((store : fsys) !! snd xi)) entries).
Definition ReadDirMap {A} (path : string) (fn : dirent → U A) : U (list A) :=
  with_path path (λ dirfd name,
    fd ← openat dirfd name (Z.lor O_DIRECTORY O_RDONLY) 0;
    deferred
      (entries ← readDir fd "."%string;
       (fix each (l : list dirent) : U (list A) :=
          match l with [] => mret [] | d :: l' => v ← fn d; vs ← each l'; mret (v :: vs) end) entries) 1).
Definition ReadDir (path : string) : U (list dirent) :=
  with_path path (λ dirfd name,
    fd ← openat dirfd name (Z.lor O_DIRECTORY O_RDONLY) 0;
    deferred (readDir fd name) 1).

(** *** Walking *)

(** The callback: the descriptor of the parent, the name in it, the path from the start,
    the entry, and the error of opening or reading it. *)
Definition walk_fn : Type := Z → string → string → dirent → option uerr → U unit.
Definition skipped (m : U unit) : U unit := λ u,
  match m u with
  | (Err e, u') => (if is_kind SkipDir e then Ok tt else Err e, u')
  | r => r
  end.
(** The end of a loop over entries: [SkipDir] leaves the loop. *)
Fixpoint walk_entries (walk : string → string → dirent → U unit) (relative : string) (l : list dirent) : U unit :=
  match l with
  | [] => mret tt
  | d :: l' => λ u,
      let rel := if decide (relative = "."%string) then de_name d else path_Join relative (de_name d) in
      match walk (de_name d) rel d u with
      | (Ok _, u') => walk_entries walk relative l' u'
      | (Err e, u') => (if is_kind SkipDir e then Ok tt else Err e, u')
      end
  end.
(** [depth] bounds the nesting of directories. *)
Fixpoint walkDir (depth : nat) (parentfd : Z) (name relative : string) (d : dirent) (fn : walk_fn) : U unit :=
  match depth with
  | O => st_err (mkUErr None OutOfFuel)
  | S depth' =>
      if negb (de_IsDir d) then fn parentfd name relative d None
      else λ u,
        match fn parentfd name relative d None u with
        | (Err e, u1) => (if is_kind SkipDir e then Ok tt else Err e, u1)
        | (Ok _, u1) =>
            match openat parentfd name (Z.lor O_DIRECTORY O_RDONLY) 0 u1 with
            | (Err e, u2) => skipped (fn parentfd name relative d (Some e)) u2
            | (Ok dirfd, u2) =>
                deferred
                  (dirs ← attempt (readDir dirfd name);
                   match dirs with
                   | Err e => skipped (fn dirfd name relative d (Some e))
                   | Ok dirs => walk_entries (λ n rel d1, walkDir depth' dirfd n rel d1 fn) relative dirs
                   end) 1 u2
            end
        end
  end.
Definition WalkDirat (depth : nat) (dirfd : Z) (name : string) (fn : walk_fn) : U unit :=
  (λ u, let '(r, u') :=
          (info ← attempt (Lstatat dirfd name);
           match info with
           | Err e => fn dirfd name "."%string (mkDirent dirfd name None) (Some e)
           | Ok s => walkDir depth dirfd name "."%string (mkDirent dirfd name (Some (fst_node s))) fn
           end) u in
        (match r with
         | Err e => if is_kind SkipDir e || is_kind SkipAll e then Ok tt else Err e
         | Ok _ => r
         end, u')).
End UnixFS.

(** ** Removing trees (removeall_unix.go) *)

(** What a file system provides to [removeAll]: [UnixFS], or [Quota] that accounts. *)
Record remover := mkRemover {
  rm_Open : string → U Z;
  rm_Remove : string → U unit;
  rm_unlinkat : Z → string → bool → st ufs errno unit }.

Section RemoveAll.
Context `{Process}.
Variable fs : remover.

Definition openFdAt (dirfd : Z) (name : string) : st ufs errno Z :=
  ignoringEINTR (calls (sys_openat false dirfd name
    (Z.lor O_RDONLY (Z.lor O_CLOEXEC (Z.lor O_NOFOLLOW O_DIRECTORY))) 0)).
Definition reqSize : nat := 1024.
Definition errno_missing (e : errno) : bool := bool_decide (e = ENOENT).

(** One batch of names: how many could not be removed, and the first error. *)
Fixpoint remove_names (remove : string → U unit) (base : string) (names : list string) (errs : nat) (first : option uerr)
    : U (nat * option uerr) :=
  match names with
  | [] => mret (errs, first)
  | n :: names' =>
      r ← attempt (remove n);
      match r with
      | Ok _ => remove_names remove base names' errs first
      | Err e =>
          let e' := match ue_path e with Some p => PathError (base +:+ "/" +:+ p) (ue_kind e) | None => e end in
          remove_names remove base names' (S errs) (match first with None => Some e' | _ => first end)
      end
  end.
(** The inner loop reads on while every name of a full batch failed; the result is the
    size of the last batch. *)
Inductive batch_end := BatchDone (size : nat) | BatchReturn (r : result uerr unit).
Fixpoint remove_batches (turns : nat) (remove : Z → string → U unit) (fd : Z) (base : string) (seen : list string)
    (first : option uerr) : U (batch_end * option uerr) :=
  match turns with
  | O => st_err (mkUErr None OutOfFuel)
  | S turns' => λ u,
      match calls (sys_getdents fd seen (Some reqSize)) u with
      | (Err e, u1) => (Ok (BatchReturn (if errno_missing e then Ok tt else Err (PathError base (Errno e))), first), u1)
      | (Ok entries, u1) =>
          let names := map fst entries in
          match remove_names (remove fd) base names O first u1 with
          | (Err e, u2) => (Err e, u2)
          | (Ok (errs, first'), u2) =>
              if decide (errs = reqSize) then remove_batches turns' remove fd base (seen ++ names) first' u2
              else (Ok (BatchDone (length names), first'), u2)
          end
      end
  end.
(** The outer loop opens the directory anew until a batch was not full. *)
Fixpoint remove_contents (turns : nat) (remove : Z → string → U unit) (parentFd : Z) (base : string) (first : option uerr)
    : U unit :=
  match turns with
  | O => st_err (mkUErr None OutOfFuel)
  | S turns' => λ u,
      match openFdAt parentFd base u with
      | (Err e, u1) => (if errno_missing e then Ok tt else Err (PathError base (Errno e)), u1)
      | (Ok fd, u1) =>
          match deferred (remove_batches turns remove fd base [] first) 1 u1 with
          | (Err e, u2) => (Err e, u2)
          | (Ok (BatchReturn r, _), u2) => (r, u2)
          | (Ok (BatchDone n, first'), u2) =>
              if decide (n < reqSize)%nat then (match first' with None => Ok tt | Some e => Err e end, u2)
              else remove_contents turns' remove parentFd base first' u2
          end
      end
  end.

(** [removeAllFrom]; [depth] bounds the nesting of directories, [turns] the loops. *)
Fixpoint removeAllFrom (depth turns : nat) (parentFd : Z) (base : string) : U unit := λ u,
  match rm_unlinkat fs parentFd base false u with
  | (Ok _, u1) => (Ok tt, u1)
  | (Err e, u1) =>
      if errno_missing e then (Ok tt, u1)
      else if negb (bool_decide (e = EISDIR ∨ e = EPERM ∨ e = EACCES)) then (Err (PathError base (Errno e)), u1)
      else
        match ignoringEINTR (calls (sys_fstatat false parentFd base)) u1 with
        | (Err e', u2) => (if errno_missing e' then Ok tt else Err (PathError base (Errno e')), u2)
        | (Ok (_, n), u2) =>
            if negb (is_directory n) then (Err (PathError base (Errno e)), u2)
            else match depth with
                 | O => (Err (mkUErr None OutOfFuel), u2)
                 | S depth' =>
                     let '(r, u3) := remove_contents turns (removeAllFrom depth' turns) parentFd base None u2 in
                     match rm_unlinkat fs parentFd base true u3 with
                     | (Ok _, u4) => (Ok tt, u4)
                     | (Err e', u4) =>
                         (if errno_missing e' then Ok tt
                          else match r with Err x => Err x | Ok _ => Err (ensurePathError (bare e') base) end, u4)
                     end
                 end
        end
  end.
Definition removeContentsFrom (depth turns : nat) (parentFd : Z) (base : string) : U unit :=
  remove_contents turns (removeAllFrom depth turns) parentFd base None.

Definition below (parentDir : string) (base : string) (e : uerr) : uerr :=
  match ue_path e with
  | Some p => convertErrorType (PathError (parentDir +:+ "/" +:+ p) (ue_kind e))
  | None => ensurePathError e base
  end.
(** The parent of the path is opened, and closed at the end. *)
Definition from_parent (path : string) (body : Z → string → U unit) : U unit := λ u,
  let '(parentDir, base) := splitPath path in
  match rm_Open fs parentDir u with
  | (Err e, u1) => (if is_not_exist e then Ok tt else Err e, u1)
  | (Ok parent, u1) =>
      match deferred (body parent base) 1 u1 with
      | (Ok x, u2) => (Ok x, u2)
      | (Err e, u2) => (Err (below parentDir base e), u2)
      end
  end.
Definition removeAll (depth turns : nat) (path : string) : U unit :=
  if decide (path = EmptyString) then mret tt
  else if endsWithDot path then st_err (PathError path (Errno EINVAL))
  else λ u,
    match rm_Remove fs path u with
    | (Ok _, u1) => (Ok tt, u1)
    | (Err e, u1) => if is_not_exist e then (Ok tt, u1) else from_parent path (removeAllFrom depth turns) u1
    end.
Definition removeContents (depth turns : nat) (path : string) : U unit :=
  if decide (path = EmptyString) then mret tt else from_parent path (removeContentsFrom depth turns).
End RemoveAll.

Section Removers.
Context `{Process}.
Variable fs : UnixFS.

Definition unix_remover : remover := mkRemover (Open fs) (Remove fs) unlinkat.
Definition RemoveAll (depth turns : nat) (path : string) : U unit :=
  name ← st_lift (unsafePath fs path);
  if decide (name = "."%string) then st_err (PathError name ErrBadPathResolution)
  else removeAll unix_remover depth turns name.
Definition RemoveContents (depth turns : nat) (path : string) : U unit :=
  name ← st_lift (unsafePath fs path);
  removeContents unix_remover depth turns name.

(** *** The accounting file system (fs_quota.go) *)

Definition quota_add (i : Z) : ufs → ufs := λ u,
  set_disk (Disk.set_quota (snd (Disk.Add i (fs_quota (u_disk u)))) (u_disk u)) u.
Definition freed (s : fileStat) : U unit := λ u, (Ok tt, quota_add (- freedBy (file_info s)) u).
Definition quota_Remove (path : string) : U unit :=
  s ← RemoveStat fs path;
  freed s.
Definition quota_unlinkat (dirfd : Z) (name : string) (removedir : bool) : st ufs errno unit := λ u,
  let u' := if removedir then u
            else match Lstatat dirfd name u with
                 | (Ok s, u1) => quota_add (- freedBy (file_info s)) u1
                 | (Err _, u1) => u1
                 end in
  unlinkat dirfd name removedir u'.
Definition quota_remover : remover := mkRemover (Open fs) quota_Remove quota_unlinkat.
Definition quota_RemoveAll (depth turns : nat) (path : string) : U unit :=
  name ← st_lift (unsafePath fs path);
  if decide (name = "."%string) then st_err (PathError name ErrBadPathResolution)
  else removeAll quota_remover depth turns name.
End Removers.
