(* ===== verification/UfsFacts.v ===== *)
(** * The sandbox holds

    The files of a server are below its base directory and nothing else is [outside].  A
    process of the server may change what is inside between any two system calls, and every
    system call may fail; the operations of [UnixFS] leave everything outside as it was and
    only ever return what is inside. *)

From stdpp Require Import base gmap sets list strings numbers.
From Stdlib Require Import Ascii.
From S2P Require Import Prelude GoStrings Paths PathsFacts Disk Inodes Ufs.
Open Scope Z_scope.

(** ** Paths below the base *)

Lemma HasPrefix_inv s pre : HasPrefix s pre = true → ∃ t, s = pre +:+ t.
Proof.
  unfold HasPrefix. revert s. induction pre as [|a pre IH]; intros s P; [by exists s|].
  destruct s as [|b s]; [done|]. cbn in P. case_match; [|done]. subst.
  destruct (IH s P) as [t ->]. by exists t.
Qed.
Lemma cut_prefix_app pre t : cut_prefix pre (pre +:+ t) = Some t.
Proof.
  induction pre as [|a pre IH]; [by destruct t|].
  change (String a pre +:+ t) with (String a (pre +:+ t)). cbn [cut_prefix]. by rewrite decide_True.
Qed.
Lemma trim_slash_word a w : plain w → trim_slash (a +:+ String slash w) = a +:+ String slash w.
Proof.
  intros (N & _ & _ & W). unfold trim_slash.
  assert (∃ c r, str_rev (a +:+ String slash w) = String c r ∧ Ascii.eqb c slash = false) as (c & r & E & C).
  { rewrite str_rev_app, str_rev_cons.
    assert (R : str_rev w ≠ EmptyString) by (intros R; apply (f_equal str_rev) in R; by rewrite str_rev_involutive in R).
    destruct (str_rev w) as [|c r] eqn:E; [done|]. exists c. eexists. split; [reflexivity|].
    apply (f_equal str_rev) in E. rewrite str_rev_involutive, str_rev_cons in E. subst w.
    clear N R. unfold no_sep in W. induction (str_rev r) as [|x s IH].
    - change (Ascii.eqb c slash || false = false) in W. by rewrite orb_false_r in W.
    - change (Ascii.eqb x slash || contains_byte slash (s +:+ String c EmptyString) = false) in W.
      apply orb_false_iff in W as [_ W]. by apply IH. }
  rewrite E. unfold TrimPrefix. rewrite C, <-E. apply str_rev_involutive.
Qed.
Lemma abs_snoc ws w : abs (ws ++ [w]) = (if decide (ws = []) then EmptyString else abs ws) +:+ String slash w.
Proof.
  case_decide as D; [by subst|]. unfold abs. rewrite Join_app by done. done.
Qed.
Lemma trim_slash_abs ws : ws ≠ [] → Forall plain ws → trim_slash (abs ws) = abs ws.
Proof.
  intros N P. destruct (exists_last N) as (vs & w & ->). apply Forall_app in P as [_ W].
  rewrite abs_snoc. apply trim_slash_word. by apply list.Forall_cons in W as [? _].
Qed.

(** A path of plain names that is inside the base starts with its names. *)
Lemma inside_prefix fs ws vs :
  basePath fs = abs ws → ws ≠ [] → Forall plain ws → Forall plain vs →
  unsafeIsPathInsideOfBase fs (abs vs) = true → ∃ rest, vs = ws ++ rest.
Proof.
  intros B N W V I. unfold unsafeIsPathInsideOfBase in I. rewrite B in I.
  destruct (decide (vs = [])) as [->|NV].
  - exfalso. destruct ws as [|w ws]; [done|]. apply list.Forall_cons in W as [(X & _) _].
    destruct w as [|c w]; [done|]. by destruct ws.
  - rewrite trim_slash_abs in I by done. apply HasPrefix_inv in I as [t E].
    apply (f_equal (Split slash)) in E. rewrite app_str_assoc in E.
    change ("/" +:+ t)%string with (String slash t) in E. change "/"%string with (String slash EmptyString) in E.
    rewrite !Split_app in E. unfold abs in E.
    rewrite !(Split_app EmptyString : ∀ b, Split slash (String slash b) = _) in E.
    rewrite !Split_Join in E by (done || by apply plain_no_sep). cbn in E. injection E as E.
    assert (L : (length ws ≤ length vs)%nat).
    { apply (f_equal length) in E. rewrite !length_app in E. pose proof (Split_not_nil t).
      destruct (Split slash t); [done|]. cbn in E. lia. }
    exists (drop (length ws) vs). rewrite <-(take_drop (length ws) vs) at 1. f_equal.
    apply (f_equal (take (length ws))) in E. by rewrite take_app_le, take_app_le, (firstn_all ws) in E by lia.
Qed.

Definition simple (name : string) : Prop := name = "."%string ∨ plain name.
Definition relative (rest : list string) : string := if decide (rest = []) then "."%string else Join slash rest.

Lemma unsafePath_spec fs ws path name :
  basePath fs = abs ws → ws ≠ [] → Forall plain ws →
  unsafePath fs path = Ok name → ∃ rest, Forall plain rest ∧ name = relative rest.
Proof.
  intros B N W. unfold unsafePath.
  assert (J : ∃ ps, Forall plain ps ∧ path_Join (basePath fs) (trim_prefix path (basePath fs)) = abs ps).
  { rewrite B. unfold path_Join. rewrite bool_decide_false by done. case_bool_decide as E.
    - exists ws. split; [done|]. by apply Clean_abs.
    - destruct (Clean_shape (abs ws +:+ String slash (trim_prefix path (abs ws)))) as (n & ps & P & R & ->).
      exists ps. split; [done|]. change (abs ws +:+ ?t) with (String slash (Join slash ws +:+ t)).
      by rewrite is_rooted_cons. }
  destruct J as (ps & P & ->). rewrite Clean_abs by done.
  destruct (unsafeIsPathInsideOfBase fs (abs ps)) eqn:I; [|done]. intros X. injection X as <-.
  destruct (inside_prefix fs ws ps B N W P I) as [rest ->]. apply Forall_app in P as [_ P].
  exists rest. split; [done|]. rewrite B. unfold relative. case_decide as D.
  - subst rest. rewrite app_nil_r. unfold trim_prefix.
    assert (C : cut_prefix (abs ws) (abs ws) = Some EmptyString) by (rewrite <-(app_str_nil (abs ws)) at 2; apply cut_prefix_app).
    by rewrite C.
  - unfold abs. rewrite Join_app by done.
    change (String slash (Join slash ws +:+ ?t)) with (String slash (Join slash ws) +:+ t).
    unfold trim_prefix. rewrite cut_prefix_app. cbn. rewrite bool_decide_false; [done|].
    destruct rest as [|w rest]; [done|]. apply list.Forall_cons in P as [(X & _) _].
    destruct w as [|c w]; [done|]. by destruct rest.
Qed.

(** The last name of such a path. *)
Lemma relative_file rest : Forall plain rest → simple (snd (path_Split (relative rest))).
Proof.
  intros P. unfold relative, path_Split. case_decide as D; [by left|]. cbn. right.
  destruct (exists_last D) as (vs & w & ->). apply Forall_app in P as [_ W].
  apply list.Forall_cons in W as [W _]. assert (S : no_sep w) by apply W.
  destruct (decide (vs = [])) as [->|V].
  - cbn. by rewrite (proj2 (slash_word w S)).
  - rewrite Join_app by done. cbn. by rewrite after_slash_app.
Qed.
Lemma strip_relative rest : Forall plain rest → strip_slashes (one_slash (relative rest)) = relative rest.
Proof.
  intros P. unfold relative. case_decide as D; [done|].
  assert (T : TrimRight slash (Join slash rest) = Join slash rest).
  { apply TrimRight_id. intros s' E. pose proof (Join_no_suffix rest P) as S. rewrite E in S. unfold HasSuffix in S.
    rewrite str_rev_app in S. change (HasPrefix (String slash (str_rev s')) "/" = false) in S. by destruct (str_rev s'). }
  assert (O : one_slash (Join slash rest) = Join slash rest).
  { pose proof (TrimLeft_Join rest P) as L. destruct (Join slash rest) as [|a [|b s]]; [done..|]. cbn [one_slash].
    destruct (Ascii.eqb a slash) eqn:A; [|done]. cbn [TrimLeft] in L. rewrite A in L. exfalso.
    assert (X : ∀ s, (String.length (TrimLeft slash s) ≤ String.length s)%nat).
    { clear. induction s as [|c s IH]; cbn; [lia|]. destruct (Ascii.eqb c slash); cbn in *; lia. }
    pose proof (X (String b s)) as Y. apply (f_equal String.length) in L.
    change (TrimLeft slash (String b s)) with (if Ascii.eqb b slash then TrimLeft slash s else String b s) in Y.
    rewrite L in Y. cbn in Y. lia. }
  rewrite O. unfold strip_slashes. rewrite T. case_bool_decide as B; [|done].
  by rewrite B.
Qed.
Lemma relative_split rest : Forall plain rest → simple (snd (splitPath (relative rest))).
Proof.
  intros P. pose proof (relative_file rest P) as F. unfold splitPath. rewrite strip_relative by done. unfold path_Split in F. cbn in F.
  destruct (contains_byte slash (relative rest)) eqn:C; cbn.
  - case_bool_decide as B; [|exact F]. rewrite B in F. by destruct F as [?|(? & _)].
  - by rewrite (proj2 (slash_word _ C)) in F.
Qed.
Lemma simple_word name : simple name → IsAbs name = false ∧ Split slash name = [name] ∧ name ≠ EmptyString.
Proof.
  intros [->|(N & _ & _ & S)]; [done|]. rewrite Split_word by done. split; [|done].
  destruct name as [|c name]; [done|]. unfold no_sep in S. cbn in S. apply orb_false_iff in S as [C _].
  unfold IsAbs, is_rooted, HasPrefix. cbn. case_match; [|done]. subst. done.
Qed.

(** ** Flags *)

Lemma has_lor a b c : has (Z.lor a b) c = has a c || has b c.
Proof.
  unfold has. rewrite Z.land_lor_distr_l.
  destruct (Z.eqb_spec (Z.lor (Z.land a c) (Z.land b c)) 0) as [E|E].
  - apply Z.lor_eq_0_iff in E as [-> ->]. done.
  - destruct (Z.eqb_spec (Z.land a c) 0) as [E1|E1], (Z.eqb_spec (Z.land b c) 0) as [E2|E2]; try done.
    by rewrite E1, E2 in E.
Qed.
Lemma has_set_flag f bit : bit ≠ 0 → has (set_flag f bit) bit = true.
Proof.
  intros N. unfold set_flag. destruct (has f bit) eqn:E; [done|]. rewrite has_lor, E. unfold has. rewrite Z.land_diag.
  by destruct (Z.eqb_spec bit 0).
Qed.
Lemma has_keep_flag f bit c : has f c = true → has (set_flag f bit) c = true.
Proof. intros C. unfold set_flag. destruct (has f bit); [done|]. by rewrite has_lor, C. Qed.

(** ** Confinement *)

Section Confined.
Context `{Process}.
Variables (fs : UnixFS) (outside : Z → Prop) (base : Z) (ws : list string).
Hypothesis base_path : basePath fs = abs ws.
Hypothesis base_names : ws ≠ [] ∧ Forall plain ws.

Implicit Types store : fsys.

(** The names [names] lead from [d] to the base, through directories outside of it. *)
Fixpoint leads store (d : Z) (names : list string) : Prop :=
  match names with
  | [] => d = base
  | w :: names' => outside d ∧ ∃ es p c, i_kind <$> store !! d = Some (IDir es p) ∧ es !! w = Some c ∧ leads store c names'
  end.

(** Entries of a directory inside are inside, and so is its parent unless it is the base. *)
Definition dir_inside (d : Z) (k : ikind) : Prop :=
  ∀ es p, k = IDir es p →
    (∀ x i, es !! x = Some i → plain x ∧ ¬ outside i ∧ i ≠ base) ∧ (d ≠ base → ¬ outside p).

Record sandbox store : Prop := {
  sb_base : ¬ outside base;
  sb_dir : ∃ es p, i_kind <$> store !! base = Some (IDir es p);
  sb_inside d k : ¬ outside d → i_kind <$> store !! d = Some k → dir_inside d k;
  sb_exists i : outside i → is_Some (store !! i);
  sb_leads : leads store root_ino ws;
}.
(** A change inside. *)
Definition inner store store' : Prop := sandbox store' ∧ ∀ i, outside i → store' !! i = store !! i.

Lemma inner_refl store : sandbox store → inner store store.
Proof. by split. Qed.
Lemma inner_trans store1 store2 store3 : inner store1 store2 → inner store2 store3 → inner store1 store3.
Proof. intros [S1 E1] [S2 E2]. split; [done|]. intros i O. by rewrite E2, E1. Qed.
Lemma leads_same store store' d names :
  (∀ i, outside i → store' !! i = store !! i) → leads store d names → leads store' d names.
Proof.
  intros E. revert d. induction names as [|w names IH]; intros d; [done|].
  intros (O & es & p & c & K & W & L). split; [done|]. exists es, p, c. rewrite E by done. eauto.
Qed.

Lemma inner_insert store i n :
  sandbox store → ¬ outside i → dir_inside i (i_kind n) → (i = base → is_directory n = true) →
  inner store (<[i := n]> store).
Proof.
  intros S O D B.
  assert (E : ∀ j, outside j → <[i := n]> store !! j = store !! j) by (intros j J; apply lookup_insert_ne; by intros <-).
  split; [|done]. split.
  - apply S.
  - destruct (decide (i = base)) as [->|N].
    + rewrite lookup_insert_eq. cbn. specialize (B eq_refl). unfold is_directory in B.
      destruct (i_kind n); [done| |done..]. eauto.
    + rewrite lookup_insert_ne by done. apply S.
  - intros d k OD. destruct (decide (i = d)) as [->|N].
    + rewrite lookup_insert_eq. intros K. by injection K as <-.
    + rewrite lookup_insert_ne by done. by apply S.
  - intros j J. rewrite E by done. by apply S.
  - apply (leads_same store); [done|]. apply S.
Qed.
Lemma inner_alter store i f :
  sandbox store → ¬ outside i →
  (∀ n, store !! i = Some n → dir_inside i (i_kind n) → dir_inside i (i_kind (f n)) ∧ (is_directory n = true → is_directory (f n) = true)) →
  inner store (alter f i store).
Proof.
  intros S O F. destruct (store !! i) as [n|] eqn:E.
  - replace (alter f i store) with (<[i := f n]> store).
    + destruct (F n eq_refl) as [D I]; [apply (sb_inside store S); [done|]; by rewrite E|].
      apply inner_insert; [done..|]. intros ->. apply I. destruct (sb_dir store S) as (es & p & K).
      rewrite E in K. cbn in K. unfold is_directory. by injection K as ->.
    + apply map_eq. intros j. destruct (decide (i = j)) as [->|N].
      * by rewrite lookup_insert_eq, lookup_alter_eq, E.
      * by rewrite lookup_insert_ne, lookup_alter_ne.
  - replace (alter f i store) with store; [by apply inner_refl|].
    apply map_eq. intros j. destruct (decide (i = j)) as [->|N].
    + by rewrite lookup_alter_eq, E.
    + by rewrite lookup_alter_ne.
Qed.

Lemma inner_set_entry store d name i :
  sandbox store → ¬ outside d → plain name → ¬ outside i → i ≠ base → inner store (set_entry d name i store).
Proof.
  intros S O P I B. apply inner_alter; [done..|]. intros n _ D. destruct (i_kind n) eqn:K; cbn; rewrite ?K; try done.
  split; [|by unfold is_directory]. intros es p E. injection E as <- <-. destruct (D _ _ eq_refl) as [X Y].
  split; [|done]. intros x j. rewrite lookup_insert_Some. intros [[<- <-]|[_ J]]; eauto.
Qed.
Lemma inner_del_entry store d name : sandbox store → ¬ outside d → inner store (del_entry d name store).
Proof.
  intros S O. apply inner_alter; [done..|]. intros n _ D. destruct (i_kind n) eqn:K; cbn; rewrite ?K; try done.
  split; [|by unfold is_directory]. intros es p E. injection E as <- <-. destruct (D _ _ eq_refl) as [X Y].
  split; [|done]. intros x j. rewrite lookup_delete_Some. intros [_ J]; eauto.
Qed.
Lemma inner_reparent store i d : sandbox store → ¬ outside i → ¬ outside d → inner store (reparent i d store).
Proof.
  intros S O P. apply inner_alter; [done..|]. intros n _ D. destruct (i_kind n) eqn:K; cbn; rewrite ?K; try done.
  split; [|by unfold is_directory]. intros es p E. injection E as <- <-. destruct (D _ _ eq_refl) as [X Y]. by split.
Qed.
(** Attributes of a file inside. *)
Lemma inner_attribute store i n n' :
  sandbox store → ¬ outside i → store !! i = Some n → i_kind n' = i_kind n → inner store (<[i := n']> store).
Proof.
  intros S O E K. apply inner_insert; [done..| |].
  - rewrite K. apply (sb_inside store S); [done|]. by rewrite E.
  - intros ->. destruct (sb_dir store S) as (es & p & D). rewrite E in D. cbn in D.
    unfold is_directory. rewrite K. by injection D as ->.
Qed.
(** A file that is not a directory, or one that is removed. *)
Lemma inner_leaf store i n :
  sandbox store → ¬ outside i → i ≠ base → (∀ es p, i_kind n ≠ IDir es p) → inner store (<[i := n]> store).
Proof. intros S O B L. apply inner_insert; [done..| |done]. by intros es p E%L. Qed.

Lemma entry_inside store d es p x i :
  sandbox store → ¬ outside d → i_kind <$> store !! d = Some (IDir es p) → es !! x = Some i →
  plain x ∧ ¬ outside i ∧ i ≠ base.
Proof. intros S O K E. destruct (sb_inside store S d _ O K es p eq_refl) as [X _]. eauto. Qed.
Lemma dir_of_Ok store d es p : dir_of store d = Ok (es, p) → i_kind <$> store !! d = Some (IDir es p).
Proof.
  unfold dir_of. destruct (i_kind <$> store !! d) as [[]|]; try done. intros E. by injection E as <- <-.
Qed.

(** *** Resolution *)

Lemma namei_step store top budget follow d n names :
  namei store top budget follow d (n :: names)
  = ('(entries, parent) ← dir_of store d;
     if decide (n = EmptyString ∨ n = "."%string) then namei store top budget follow d names
     else if decide (n = ".."%string) then
       if decide (top = Some d) then Err EXDEV
       else namei store top budget follow (if decide (d = root_ino) then root_ino else parent) names
     else
       match (entries : gmap string Z) !! n with
       | None => Err ENOENT
       | Some i =>
           match link_target store i with
           | Some target =>
               if negb follow && bool_decide (names = []) then Ok i
               else match budget with
                    | O => Err ELOOP
                    | S budget' =>
                        if IsAbs target then
                          if decide (top = None) then namei store top budget' follow root_ino (Split slash target ++ names)
                          else Err EXDEV
                        else namei store top budget' follow d (Split slash target ++ names)
                    end
           | None => namei store top budget follow i names
           end
       end).
Proof. by destruct budget. Qed.

(** Beneath the base nothing outside is reached; and neither by the name of an entry. *)
Lemma root_not_inside store : sandbox store → outside root_ino.
Proof.
  intros S. pose proof (sb_leads store S) as L. destruct ws as [|w ws']; [by destruct base_names|]. apply L.
Qed.
Lemma namei_beneath store budget follow d names i :
  sandbox store → ¬ outside d → namei store (Some base) budget follow d names = Ok i → ¬ outside i.
Proof.
  intros S. pose proof (root_not_inside store S) as R. revert d names. induction budget as [|budget IHb]; intros d names; revert d.
  all: induction names as [|n names IH]; intros d O; [intros E; by injection E as <-|]; rewrite namei_step.
  all: destruct (dir_of store d) as [[es p]|] eqn:D; [|done]; apply dir_of_Ok in D; cbn [mbind result_bind].
  all: case_decide as C1; [by apply IH|]; case_decide as C2.
  1, 3: case_decide as C3; [done|]; rewrite decide_False by (by intros ->); apply IH;
    apply (sb_inside store S d _ O D es p eq_refl); by intros ->.
  all: destruct (es !! n) as [j|] eqn:J; [|done]; pose proof (entry_inside store d es p n j S O D J) as (_ & OJ & _).
  all: destruct (link_target store j); [|by apply IH]; destruct (negb follow && _); [intros E; by injection E as <-|].
  - done.
  - destruct (IsAbs _); [by rewrite decide_False|]. by apply IHb.
Qed.
Lemma resolve_simple store beneath follow start name :
  simple name → ¬ outside start → sandbox store → follow = false ∨ beneath = true ∧ start = base →
  ∀ i, resolve store beneath follow start name = Ok i → ¬ outside i.
Proof.
  intros N O S F i. destruct (simple_word name N) as (A & W & NE). unfold resolve. rewrite decide_False, A, W by done.
  destruct F as [-> | [-> ->]]; [|by apply namei_beneath].
  rewrite namei_step. destruct (dir_of store start) as [[es p]|] eqn:D; [|done]. apply dir_of_Ok in D. cbn [mbind result_bind].
  case_decide as C1; [destruct max_follow; intros E; by injection E as <-|].
  rewrite decide_False by (destruct N as [->|(_ & _ & ? & _)]; [naive_solver | done]).
  destruct (es !! name) as [j|] eqn:J; [|done]. destruct (entry_inside store start es p name j S O D J) as (_ & OJ & _).
  destruct (link_target store j); [cbn; intros E; by injection E as <-|].
  destruct max_follow; intros E; by injection E as <-.
Qed.
Lemma resolve_parent_simple store beneath start name d x :
  simple name → resolve_parent store beneath start name = Ok (d, x) → d = start ∧ x = name.
Proof.
  intros N. destruct (simple_word name N) as (A & W & NE). unfold resolve_parent, names_of.
  rewrite decide_False, A, W, filter_cons_True, filter_nil by done. cbn [removelast List.last].
  replace (namei store (if beneath then Some start else None) max_follow true start []) with (Ok start : result errno Z)
    by (by destruct max_follow).
  cbn [mbind result_bind]. destruct (dir_of store start); cbn; intros E; by simplify_eq.
Qed.

(** *** System calls *)

Definition legal (e : event) : Prop := ∀ store, sandbox store → inner store (ev_change e store).
Definition store_of (u : ufs) : fsys := s_fs (u_sys u).
Definition good (u : ufs) : Prop := sandbox (store_of u) ∧ Forall legal (s_events (u_sys u)).

(** Whatever other processes do meanwhile, [m] only changes what is inside, and what it
    returns satisfies [Q]. *)
Definition confined {E A} (m : st ufs E A) (Q : A → Prop) : Prop := ∀ u, good u →
  inner (store_of u) (store_of (snd (m u))) ∧ good (snd (m u)) ∧ ∀ a, fst (m u) = Ok a → Q a.

Definition call_ok {A} (f : fsys → result errno (A * fsys)) (Q : A → Prop) : Prop :=
  ∀ store a store', sandbox store → f store = Ok (a, store') → inner store store' ∧ Q a.

Lemma confined_call {A} (f : fsys → result errno (A * fsys)) Q : call_ok f Q → confined (calls (system_call f)) Q.
Proof.
  intros F u [S L]. unfold calls, system_call, before_call.
  assert (E : ∃ fault s1, match s_events (u_sys u) with
      | [] => (None, u_sys u)
      | e :: l => (ev_fault e, mkSys (ev_change e (s_fs (u_sys u))) l (s_open (u_sys u)))
      end = (fault, s1) ∧ inner (store_of u) (s_fs s1) ∧ Forall legal (s_events s1)).
  { destruct (s_events (u_sys u)) as [|e l] eqn:EV.
    - exists None, (u_sys u). split; [done|]. rewrite EV. split; [by apply inner_refl | done].
    - apply list.Forall_cons in L as [LE L]. eexists _, _. split; [reflexivity|]. split; [by apply LE | done]. }
  destruct E as (fault & s1 & -> & I & L1). destruct fault as [e|]; cbn; [split_and!; [done|by split; [apply I|]|done]|].
  destruct (f (s_fs s1)) as [[a store']|e] eqn:R; cbn; [|split_and!; [done|by split; [apply I|]|done]].
  destruct (F _ _ _ (proj1 I) R) as [J Q']. split_and!.
  - by eapply inner_trans.
  - split; [apply J | done].
  - intros b X. by injection X as <-.
Qed.
Lemma confined_read {A} (f : fsys → result errno A) (Q : A → Prop) :
  (∀ store a, sandbox store → f store = Ok a → Q a) → confined (calls (system_read f)) Q.
Proof.
  intros F. apply confined_call. intros store a store' S R. destruct (f store) as [b|] eqn:E; [|done].
  cbn in R. injection R as <- <-. split; [by apply inner_refl | eauto].
Qed.
Lemma confined_open (m : K Z) Q : confined (calls m) Q → confined (calls (opening m)) Q.
Proof.
  intros C u G. specialize (C u G). unfold calls, opening in *. by destruct (m (u_sys u)) as [[fd|e] s].
Qed.

(** *** Composition *)

Lemma confined_mono {E A} (m : st ufs E A) (P Q : A → Prop) : confined m P → (∀ a, P a → Q a) → confined m Q.
Proof. intros C I u G. destruct (C u G) as (X & Y & Z). eauto. Qed.
Lemma confined_ret {E A} (a : A) (Q : A → Prop) : Q a → confined (mret a : st ufs E A) Q.
Proof. intros P u G. split_and!; [apply inner_refl, G|done|]. cbn. intros b X. by injection X as <-. Qed.
Lemma confined_err {E A} (e : E) (Q : A → Prop) : confined (st_err e) Q.
Proof. intros u G. split_and!; [apply inner_refl, G|done|done]. Qed.
Lemma confined_lift {E A} (r : result E A) (Q : A → Prop) : (∀ a, r = Ok a → Q a) → confined (st_lift r) Q.
Proof. intros P u G. split_and!; [apply inner_refl, G|done|done]. Qed.
Lemma confined_bind {E A B} (m : st ufs E A) (f : A → st ufs E B) P Q :
  confined m P → (∀ a, P a → confined (f a) Q) → confined (m ≫= f) Q.
Proof.
  intros M F u G. destruct (M u G) as (I & G1 & X). unfold mbind, st_bind. destruct (m u) as [[a|e] u1]; [|done].
  destruct (F a (X a eq_refl) u1 G1) as (I2 & G2 & Y). split_and!; [by eapply inner_trans | done | done].
Qed.
Lemma confined_on {A} (m : st ufs errno A) f Q : confined m Q → confined (on m f) Q.
Proof.
  intros M u G. destruct (M u G) as (I & G1 & X). unfold on. destruct (m u) as [[a|e] u1]; cbn in *; (split; [done|split; [done|]]); [|done].
  intros b Y. injection Y as <-. by apply X.
Qed.
Lemma confined_retry {A} turns (m : st ufs errno A) Q : confined m Q → confined (retry turns m) Q.
Proof.
  intros M. induction turns as [|turns IH]; intros u G; cbn [retry]; destruct (M u G) as (I & G1 & X).
  all: destruct (m u) as [[a|[]] u1]; cbn in *; try by split_and!.
  destruct (IH u1 G1) as (I2 & G2 & Y). split_and!; [by eapply inner_trans | done | done].
Qed.
Lemma confined_ignoring {A} (m : st ufs errno A) Q : confined m Q → confined (ignoringEINTR m) Q.
Proof. intros M u. apply (confined_retry _ _ _ M). Qed.
Lemma confined_deferred {E A} (m : st ufs E A) n Q : confined m Q → confined (deferred m n) Q.
Proof. intros M u G. destruct (M u G) as (I & G1 & X). unfold deferred. by destruct (m u) as [[a|e] u1]. Qed.
Lemma confined_attempt {A} (m : U A) Q : confined m Q → confined (attempt m) (λ r, ∀ a, r = Ok a → Q a).
Proof.
  intros M u G. destruct (M u G) as (I & G1 & X). unfold attempt. destruct (m u) as [r u1]. split_and!; [done..|].
  cbn. intros b Y. by injection Y as <-.
Qed.
Lemma confined_rename_error {A} path (m : U A) Q : confined m Q → confined (rename_error path m) Q.
Proof. intros M u G. destruct (M u G) as (I & G1 & X). unfold rename_error. destruct (m u) as [[a|e] u1]; cbn in *; by split_and!. Qed.
Lemma confined_closing fd (m : U unit) Q : confined m Q → confined (closing_on_error fd m) Q.
Proof. intros M u G. destruct (M u G) as (I & G1 & X). unfold closing_on_error. destruct (m u) as [[a|e] u1]; cbn in *; by split_and!. Qed.
Lemma confined_if {E A} (b : bool) (m n : st ufs E A) Q : confined m Q → confined n Q → confined (if b then m else n) Q.
Proof. by destruct b. Qed.
Lemma confined_gets : confined gets_fs (λ _, True).
Proof. intros u G. split_and!; [apply inner_refl, G|done|done]. Qed.
(** A second computation handles the first one's outcome. *)
Lemma confined_then {E E' A B} (m : st ufs E A) (k : result E A → st ufs E' B) P Q :
  confined m P → (∀ r, (∀ a, r = Ok a → P a) → confined (k r) Q) →
  confined (λ u, let '(r, u') := m u in k r u') Q.
Proof.
  intros M F u G. destruct (M u G) as (I & G1 & X). destruct (m u) as [r u1].
  destruct (F r X u1 G1) as (I2 & G2 & Y). split_and!; [by eapply inner_trans | done | done].
Qed.

(** *** Opening *)

(** Without creating or truncating, opening only resolves. *)
Lemma open_reads beneath start path flags mode store i store' :
  has flags O_CREATE = false → has flags O_TRUNC = false →
  open_path beneath start path flags mode store = Ok (i, store') →
  store' = store ∧ resolve store beneath (follows flags) start path = Ok i.
Proof.
  intros C T. unfold open_path, open_existing. destruct (resolve _ _ _ _ _) as [j|e].
  - rewrite C, T. cbn [andb]. intros E. destruct (store !! j) as [n|]; [|done]. rewrite andb_false_r in E.
    repeat case_match; by simplify_eq.
  - rewrite C. by case_decide.
Qed.

Lemma base_not_leaf store n : sandbox store → store !! base = Some n → is_directory n = true.
Proof. intros S E. destruct (sb_dir store S) as (es & p & K). rewrite E in K. cbn in K. unfold is_directory. by injection K as ->. Qed.
Lemma inner_add store d name n :
  sandbox store → ¬ outside d → plain name → dir_inside (fresh_ino store) (i_kind n) →
  inner store (snd (add_node d name n store)) ∧ ¬ outside (fst (add_node d name n store)).
Proof.
  intros S O P D. unfold add_node. cbn.
  assert (F : store !! fresh_ino store = None) by (apply not_elem_of_dom; exact (is_fresh (dom store : gset Z))).
  assert (OF : ¬ outside (fresh_ino store)) by (intros X; apply (sb_exists store S) in X as [? X]; by rewrite F in X).
  assert (BF : fresh_ino store ≠ base) by (intros X; destruct (sb_dir store S) as (es & p & K); rewrite <-X, F in K; done).
  split; [|done]. assert (I : inner store (<[fresh_ino store := n]> store)) by (by apply inner_insert).
  eapply inner_trans; [exact I|]. apply inner_set_entry; [apply I|done..].
Qed.

Lemma normal_plain name : simple name → normal name = true → plain name.
Proof. intros [->|P]; done. Qed.

Lemma open_entry_ok beneath start name flags mode :
  simple name → ¬ outside start → has flags O_NOFOLLOW = true →
  call_ok (open_path beneath start name flags mode) (λ i, ¬ outside i).
Proof.
  intros N O F store i store' S. unfold open_path.
  assert (W : follows flags = false) by (unfold follows; by rewrite F).
  destruct (resolve store beneath (follows flags) start name) as [j|e] eqn:R.
  - apply resolve_simple in R; [|rewrite ?W; auto..]. unfold open_existing. intros E.
    destruct (store !! j) as [n|] eqn:J; [|done].
    destruct (has flags O_CREATE && _); [done|]. destruct (has flags O_DIRECTORY && _); [done|].
    destruct (i_kind n) eqn:K; repeat case_match; simplify_eq; (split; [|done]); try by apply inner_refl.
    apply inner_leaf; [done..| |done]. intros ->. apply base_not_leaf in J; [|done]. unfold is_directory in J. by rewrite K in J.
  - case_decide; [|done]. destruct (has flags O_CREATE); [|done]. unfold create_file. intros E.
    destruct (resolve_parent store beneath start name) as [[d x]|] eqn:RP; [|done].
    apply resolve_parent_simple in RP as [-> ->]; [|done]. cbn [mbind result_bind] in E.
    destruct (dir_of store start) as [[es p]|] eqn:D; [|done]. cbn [mbind result_bind] in E.
    destruct (normal name) eqn:NM; [|done]. cbn [negb] in E. destruct (es !! name); [done|].
    destruct (has flags O_DIRECTORY); [done|].
    destruct (inner_add store start name (new_node (IReg EmptyString) mode 1)) as [I X]; [done|done|by apply normal_plain|done|].
    destruct (add_node _ _ _ _) as [i' s']. cbn in *. by simplify_eq.
Qed.
Lemma open_beneath_ok path flags mode :
  has flags O_CREATE = false → has flags O_TRUNC = false → call_ok (open_path true base path flags mode) (λ i, ¬ outside i).
Proof.
  intros C T store i store' S E. apply open_reads in E as [-> R]; [|done..]. split; [by apply inner_refl|].
  unfold resolve in R. case_decide; [done|]. destruct (IsAbs path); [done|].
  apply namei_beneath in R; [done|done|]. apply S.
Qed.
Lemma open_any_ok beneath start path flags mode :
  has flags O_CREATE = false → has flags O_TRUNC = false → call_ok (open_path beneath start path flags mode) (λ _, True).
Proof. intros C T store i store' S E. apply open_reads in E as [-> R]; [|done..]. split; [by apply inner_refl|done]. Qed.

(** The names of the base lead to it. *)
Lemma leads_base store budget d names :
  sandbox store → Forall plain names → leads store d names → namei store None budget true d names = Ok base.
Proof.
  intros S P. revert d. induction P as [|w names (N1 & N2 & N3 & _) P IH]; intros d L.
  - cbn in L. subst d. by destruct budget.
  - destruct L as (O & es & p & c & K & E & L). rewrite namei_step. unfold dir_of. rewrite K. cbn [mbind result_bind].
    rewrite decide_False by naive_solver. rewrite decide_False, E by done.
    replace (link_target store c) with (@None string); [by apply IH|]. unfold link_target.
    destruct names as [|w' names].
    + cbn in L. subst c. destruct (sb_dir store S) as (es' & p' & ->). done.
    + destruct L as (_ & es' & p' & c' & -> & _). done.
Qed.
Lemma leads_dir store d names : names ≠ [] → leads store d names → ∃ es p, dir_of store d = Ok (es, p).
Proof. destruct names as [|w names]; [done|]. intros _ (_ & es & p & _ & K & _). unfold dir_of. rewrite K. eauto. Qed.
Lemma open_base_ok flags mode :
  has flags O_CREATE = false → has flags O_TRUNC = false → has flags O_NOFOLLOW = false →
  call_ok (open_path false root_ino (basePath fs) flags mode) (λ i, i = base).
Proof.
  intros C T F store i store' S E. apply open_reads in E as [-> R]; [|done..]. split; [by apply inner_refl|].
  pose proof base_names as [N P]. unfold resolve in R. revert R. generalize max_follow. intros budget R. rewrite base_path in R. rewrite decide_False in R by done.
  change (IsAbs (abs ws)) with (IsAbs (String slash (Join slash ws))) in R. unfold IsAbs in R. rewrite is_rooted_cons in R.
  unfold abs in R. rewrite (Split_app EmptyString : ∀ b, Split slash (String slash b) = _), Split_Join in R
    by (done || by apply plain_no_sep).
  cbn [Split app] in R. rewrite namei_step in R.
  pose proof (sb_leads store S) as L. destruct (leads_dir _ _ _ N L) as (es & p & K). rewrite K in R.
  cbn [mbind result_bind] in R.
  rewrite decide_True in R by auto. unfold follows in R. rewrite F, C in R. cbn [negb andb] in R.
  rewrite leads_base in R by done. by injection R as <-.
Qed.

(** The path the system gives for a descriptor names the file. *)
Fixpoint descends store (d : Z) (names : list string) : option Z :=
  match names with
  | [] => Some d
  | w :: names' => match i_kind <$> store !! d with
                   | Some (IDir es _) => c ← es !! w; descends store c names'
                   | _ => None
                   end
  end.
Hypothesis descriptor_named : ∀ store fd p,
  descriptor_path store fd = Evaluated p → ∃ vs, p = abs vs ∧ Forall plain vs ∧ descends store root_ino vs = Some fd.

Lemma descends_app store d vs rest : descends store d (vs ++ rest) = (c ← descends store d vs; descends store c rest).
Proof.
  revert d. induction vs as [|w vs IH]; intros d; [done|]. cbn. repeat case_match; try done.
  destruct (entries !! w); [apply IH|done].
Qed.
Lemma leads_descends store d names : leads store d names → descends store d names = Some base.
Proof.
  revert d. induction names as [|w names IH]; intros d; cbn; [by intros ->|].
  intros (_ & es & p & c & -> & E & L). rewrite E. by apply IH.
Qed.
Lemma descends_inside store d names i : sandbox store → ¬ outside d → descends store d names = Some i → ¬ outside i.
Proof.
  intros S. revert d. induction names as [|w names IH]; intros d O; cbn; [intros E; by injection E as <-|].
  destruct (i_kind <$> store !! d) as [[| es p | | |]|] eqn:K; try done. destruct (es !! w) as [c|] eqn:C; [|done].
  apply IH. by destruct (entry_inside store d es p w c S O K C) as (_ & ? & _).
Qed.
Lemma named_inside store fd p :
  sandbox store → descriptor_path store fd = Evaluated p → unsafeIsPathInsideOfBase fs p = true → ¬ outside fd.
Proof.
  intros S E I. destruct (descriptor_named _ _ _ E) as (vs & -> & V & D).
  destruct (inside_prefix fs ws vs base_path (proj1 base_names) (proj2 base_names) V I) as [rest ->].
  rewrite descends_app, (leads_descends _ _ _ (sb_leads store S)) in D. cbn in D. eapply descends_inside; [done| |done]. apply S.
Qed.

Ltac confine :=
  repeat first
    [ apply confined_err | apply confined_if | apply confined_on | apply confined_ignoring
    | apply confined_deferred | apply confined_closing ].

Lemma confined_fstat fd : confined (calls (sys_fstat fd)) (λ _, True).
Proof. by apply confined_read. Qed.
Lemma confined_fcntl : confined (calls sys_fcntl) (λ _, True).
Proof. by apply confined_read. Qed.
Lemma confined_type fd name : confined (checkOpenedType fd name) (λ _, True).
Proof.
  eapply confined_bind; [apply confined_on, confined_fstat|]. intros n _. confine. apply confined_fcntl.
Qed.
Lemma confined_path fd name : confined (checkOpenedPath fs fd name) (λ _, ¬ outside fd).
Proof.
  eapply (confined_bind _ _ (λ r, ∀ p, r = Evaluated p → unsafeIsPathInsideOfBase fs p = true → ¬ outside fd)).
  - apply confined_on, confined_read. intros store a S E p -> I. injection E as E. by eapply named_inside.
  - intros [p|p|e] X; [|confine..]. destruct (unsafeIsPathInsideOfBase fs p) eqn:I; [|apply confined_err].
    apply confined_ret. by eapply X.
Qed.

(** Opening an entry, and opening beneath the base. *)
Lemma confined_resolved dirfd name flag mode :
  (∀ beneath flags, beneath = useOpenat2 fs →
     flags = set_flag (if negb (has flag O_PATH) then Z.lor flag O_NONBLOCK else flag) O_CLOEXEC →
     call_ok (open_path beneath dirfd name flags (syscallMode mode)) (λ i, beneath = true → ¬ outside i)) →
  confined (openatResolved fs dirfd name flag mode) (λ i, ¬ outside i).
Proof.
  intros C. unfold openatResolved. eapply (confined_bind _ _ (λ i, useOpenat2 fs = true → ¬ outside i)).
  - apply confined_on, confined_ignoring. destruct (useOpenat2 fs) eqn:U; unfold _openat, _openat2, sys_openat; apply confined_open, confined_call.
    + by apply C.
    + eapply C; done.
  - intros fd F. eapply (confined_bind _ _ (λ _, True)); [confine; [apply confined_type | by apply confined_ret]|].
    intros _ _. eapply (confined_bind _ _ (λ _, ¬ outside fd)); [|intros _ O; by apply confined_ret].
    destruct (useOpenat2 fs); [by apply confined_ret, F | apply confined_closing, confined_path].
Qed.
Lemma confined_openat dirfd name flag mode :
  ¬ outside dirfd → simple name → confined (openat fs dirfd name flag mode) (λ i, ¬ outside i).
Proof.
  intros O N. unfold openat. confine. apply confined_resolved. intros b flags _ ->.
  intros store i store' S E. eapply open_entry_ok in E as [I X]; [done|done|done| |done].
  apply has_keep_flag. case_match; rewrite ?has_lor, has_set_flag by done; done.
Qed.
Lemma confined_beneath path flag mode :
  (flag = Z.lor O_DIRECTORY O_RDONLY ∨ flag = Z.lor (Z.lor O_DIRECTORY O_RDONLY) O_NOFOLLOW ∨ flag = O_PATH) →
  confined (openatResolved fs base path flag mode) (λ i, ¬ outside i).
Proof.
  intros F. apply confined_resolved. intros [] flags _ E store i store' S R.
  - eapply open_beneath_ok in R as [I X]; [done| | |done]; subst flags; by destruct F as [->|[->| ->]].
  - eapply open_any_ok in R as [I X]; [done| | |done]; subst flags; by destruct F as [->|[->| ->]].
Qed.
Lemma confined_open_base : confined (open_base fs) (λ i, i = base).
Proof. apply confined_on, confined_open, confined_call, open_base_ok; done. Qed.

(** A computation that returns its outcome as a value. *)
Lemma confined_safePath path u :
  good u →
  let '((n, r), u') := safePath fs path u in
  inner (store_of u) (store_of u') ∧ good u' ∧ ∀ d x, r = Ok (d, x) → ¬ outside d ∧ simple x.
Proof.
  intros G. unfold safePath. destruct (unsafePath fs path) as [name|e] eqn:N; [|split; [apply inner_refl, G|done]].
  destruct (unsafePath_spec fs ws path name base_path (proj1 base_names) (proj2 base_names) N) as (rest & P & ->).
  pose proof (relative_file rest P) as F. destruct (confined_open_base u G) as (I & G1 & B).
  destruct (open_base fs u) as [[fd|e] u1]; cbn [fst snd] in *; [|done]. specialize (B fd eq_refl). subst fd.
  unfold path_Split in *. cbn [snd] in F. case_decide as D.
  - split; [done|]. split; [done|]. intros d x E. injection E as <- <-. split; [apply (proj1 G1) | done].
  - assert (C : confined (openat fs base (trim_slash (upto_slash (relative rest))) (Z.lor O_DIRECTORY O_RDONLY) 0) (λ i, ¬ outside i)).
    { unfold openat. cbn [Z.lor Z.ltb]. apply confined_if; [apply confined_err|]. apply confined_beneath. auto. }
    destruct (C u1 G1) as (I2 & G2 & X). destruct (openat _ _ _ _ _ u1) as [[d|e] u2]; cbn [fst snd] in *.
    + split; [by eapply inner_trans|]. split; [done|]. intros d' x E. injection E as <- <-. split; [by apply X | done].
    + split; [by eapply inner_trans|]. done.
Qed.
Lemma confined_with {A} path (body : Z → string → U A) Q :
  (∀ d x, ¬ outside d → simple x → confined (body d x) Q) → confined (with_path fs path body) Q.
Proof.
  intros B u G. unfold with_path. pose proof (confined_safePath path u G) as S.
  destruct (safePath fs path u) as [[n r] u1]. destruct S as (I & G1 & X). destruct r as [[d x]|e]; [|done].
  destruct (X d x eq_refl) as [O N]. destruct (confined_deferred _ n _ (B d x O N) u1 G1) as (I2 & G2 & Y).
  split; [by eapply inner_trans|]. done.
Qed.

(** Both outcomes are handled. *)
Lemma confined_match {E E' A B} (m : st ufs E A) (f : A → st ufs E' B) (g : E → st ufs E' B) P Q :
  confined m P → (∀ a, P a → confined (f a) Q) → (∀ e, confined (g e) Q) →
  confined (λ u, match m u with (Ok a, u1) => f a u1 | (Err e, u1) => g e u1 end) Q.
Proof.
  intros M F X u G. destruct (M u G) as (I & G1 & Y). destruct (m u) as [[a|e] u1].
  - destruct (F a (Y a eq_refl) u1 G1) as (I2 & G2 & Z). split; [by eapply inner_trans | done].
  - destruct (X e u1 G1) as (I2 & G2 & Z). split; [by eapply inner_trans | done].
Qed.
(** A pure end. *)
Lemma confined_end {E A} (r : result E A) (Q : A → Prop) : (∀ a, r = Ok a → Q a) → confined (λ u, (r, u)) Q.
Proof. apply confined_lift. Qed.

(** *** Attributes *)

Lemma stat_ok d x : ¬ outside d → simple x →
  ∀ store i n, sandbox store → stat_path false d x store = Ok (i, n) → ¬ outside i ∧ store !! i = Some n.
Proof.
  intros O N store i n S. unfold stat_path. destruct (resolve store false false d x) as [j|] eqn:R; [|done].
  apply resolve_simple in R; [|auto..]. cbn. destruct (store !! j) eqn:J; [|done]. intros E. by injection E as <- <-.
Qed.
Lemma change_ok d x f : ¬ outside d → simple x → (∀ n, i_kind (f n) = i_kind n) →
  call_ok (change_node false d x f) (λ _, True).
Proof.
  intros O N F store a store' S. unfold change_node. destruct (stat_path false d x store) as [[i n]|] eqn:E; [|done].
  destruct (stat_ok d x O N store i n S E) as [OI K]. cbn. intros X. injection X as <- <-. split; [|done].
  by eapply inner_attribute.
Qed.
Lemma confined_fchmodat d x mode : ¬ outside d → simple x → confined (fchmodat d x mode) (λ _, True).
Proof.
  intros O N. unfold fchmodat. apply confined_on.
  assert (C : confined (calls (sys_fchmodat2 d x mode)) (λ _, True)).
  { apply confined_call. intros store a store' S. destruct (negb fchmodat2); [done|].
    destruct (stat_path false d x store) as [[i n]|]; [|done]. cbn. destruct (is_link n); [done|]. by apply change_ok. }
  assert (X : confined (fchmodNoFollow d x mode) (λ _, True)).
  { unfold fchmodNoFollow. eapply confined_bind.
    - apply confined_open, confined_call, (open_entry_ok _ _ _ _ _ N O). done.
    - intros fd F. apply confined_deferred. eapply confined_bind; [apply confined_fstat|]. intros n _.
      apply confined_if; [apply confined_err|]. apply confined_call. intros store a store' S.
      destruct (store !! fd) as [n'|] eqn:E; [|done]. intros Y. injection Y as <- <-. split; [|done]. by eapply inner_attribute. }
  intros u G. destruct (C u G) as (I & G1 & _). destruct (calls _ u) as [[a|e] u1]; [done|].
  destruct e; try done. destruct (X u1 G1) as (I2 & G2 & _). split; [by eapply inner_trans|done].
Qed.
Lemma confined_lchownat d x uid gid : ¬ outside d → simple x → confined (Lchownat d x uid gid) (λ _, True).
Proof. intros O N. by apply confined_on, confined_call, change_ok. Qed.
Lemma confined_chtimesat d x at_ mt : ¬ outside d → simple x → confined (Chtimesat d x at_ mt) (λ _, True).
Proof. intros O N. by apply confined_on, confined_call, change_ok. Qed.
Definition stat_inside (s : fileStat) : Prop := ¬ outside (fst_ino s).
Lemma confined_lstatat d x : ¬ outside d → simple x → confined (Lstatat d x) stat_inside.
Proof.
  intros O N. eapply (confined_bind _ _ (λ r, ¬ outside (fst r))).
  - apply confined_on, confined_ignoring, confined_read. intros store [i n] S E. by apply (stat_ok d x O N store i n S E).
  - intros [i n] OI. by apply confined_ret.
Qed.
Lemma confined_lstat path : confined (Lstat fs path) stat_inside.
Proof. apply confined_with. intros. by apply confined_lstatat. Qed.
Lemma confined_stat path : confined (Stat fs path) stat_inside.
Proof.
  eapply confined_bind; [apply confined_lstat|]. intros s S. apply confined_if; [|by apply confined_ret].
  eapply confined_bind; [apply (confined_lift _ (λ _, True)); done|]. intros rel _.
  eapply confined_bind; [apply confined_open_base|]. intros ? ->. apply confined_deferred.
  eapply confined_bind; [apply confined_beneath; auto|]. intros fd F. apply confined_deferred.
  eapply confined_bind; [apply confined_on, confined_ignoring, confined_fstat|]. intros n _. by apply confined_ret.
Qed.

(** *** Entries *)

Lemma parent_ok {A} (k : Z → string → fsys → result errno (A * fsys)) d x Q : simple x →
  call_ok (k d x) Q → call_ok (λ store, '(dir, name) ← resolve_parent store false d x; k dir name store) Q.
Proof.
  intros N C store a store' S. destruct (resolve_parent store false d x) as [[dir name]|] eqn:R; [|done].
  apply resolve_parent_simple in R as [-> ->]; [|done]. cbn. by apply C.
Qed.
Lemma create_ok d x n : ¬ outside d → simple x → (∀ i, dir_inside i (i_kind n)) →
  call_ok (λ store, '(entries, _) ← dir_of store d;
    if negb (normal x) || bool_decide (is_Some ((entries : gmap string Z) !! x)) then Err EEXIST
    else let '(_, store') := add_node d x n store in Ok (tt, store')) (λ _, True).
Proof.
  intros O N D store a store' S. destruct (dir_of store d) as [[es p]|]; [|done]. cbn [mbind result_bind].
  destruct (normal x) eqn:NM; [|done]. cbn [negb orb]. case_bool_decide; [done|].
  destruct (inner_add store d x n S O (normal_plain x N NM) (D _)) as [I _].
  destruct (add_node d x n store). intros E. injection E as <- <-. by split.
Qed.
Lemma confined_mkdirat d x mode : ¬ outside d → simple x → confined (mkdirat d x mode) (λ _, True).
Proof.
  intros O N. apply confined_on, confined_call.
  apply (parent_ok (λ d x store, '(entries, _) ← dir_of store d;
    if negb (normal x) || bool_decide (is_Some ((entries : gmap string Z) !! x)) then Err EEXIST
    else let '(_, store') := add_node d x (new_node (IDir ∅ d) mode 2) store in Ok (tt, store'))); [done|].
  apply create_ok; [done..|]. intros i es p E. injection E as <- <-. by split.
Qed.
Lemma confined_symlinkat target d x : ¬ outside d → simple x → confined (calls (sys_symlinkat target d x)) (λ _, True).
Proof.
  intros O N. apply confined_call. intros store a store' S. case_decide; [done|]. revert store a store' S.
  apply (parent_ok (λ d x store, '(entries, _) ← dir_of store d;
    if negb (normal x) || bool_decide (is_Some ((entries : gmap string Z) !! x)) then Err EEXIST
    else let '(_, store') := add_node d x (mkInode (ILink target) 511 process_uid process_gid 1 (0, 0)) store in Ok (tt, store'))); [done|].
  by apply create_ok.
Qed.
(** An entry is dropped, with its file's count or the directory it was. *)
Lemma inner_drop store d es p x i n n' :
  sandbox store → ¬ outside d → i_kind <$> store !! d = Some (IDir es p) → es !! x = Some i →
  store !! i = Some n → i_kind n' = i_kind n ∨ i_kind n' = IGone → inner store (del_entry d x (<[i := n']> store)).
Proof.
  intros S O K E J C. destruct (entry_inside store d es p x i S O K E) as (_ & OI & B).
  assert (I : inner store (<[i := n']> store)).
  { destruct C as [C|C]; [by eapply inner_attribute|]. apply inner_leaf; [done..|]. by rewrite C. }
  eapply inner_trans; [exact I|]. apply inner_del_entry; [apply I | done].
Qed.
Lemma unlink_ok d x : ¬ outside d → call_ok (unlink_entry d x) (λ _, True).
Proof.
  intros O store a store' S. unfold unlink_entry. destruct (dir_of store d) as [[es p]|] eqn:D; [|done].
  apply dir_of_Ok in D. cbn [mbind result_bind]. destruct (normal x); [|done]. cbn [negb].
  destruct (es !! x) as [i|] eqn:E; [|done]. destruct (store !! i) as [n|] eqn:J; [|done]. destruct (is_directory n); [done|].
  intros X. injection X as <- <-. split; [|done]. eapply inner_drop; eauto.
Qed.
Lemma rmdir_ok d x : ¬ outside d → call_ok (rmdir_entry d x) (λ _, True).
Proof.
  intros O store a store' S. unfold rmdir_entry. destruct (dir_of store d) as [[es p]|] eqn:D; [|done].
  apply dir_of_Ok in D. cbn [mbind result_bind]. case_decide; [done|]. case_decide; [done|].
  destruct (es !! x) as [i|] eqn:E; [|done]. destruct (store !! i) as [n|] eqn:J; [|done].
  destruct (i_kind n) as [|es' p'| | |] eqn:K; try done. case_decide; [|done].
  intros X. injection X as <- <-. split; [|done]. eapply inner_drop; eauto.
Qed.
Lemma confined_unlinkat d x removedir : ¬ outside d → simple x → confined (unlinkat d x removedir) (λ _, True).
Proof.
  intros O N. apply confined_ignoring, confined_call.
  apply (parent_ok (λ d x store, if removedir then rmdir_entry d x store else unlink_entry d x store)); [done|].
  destruct removedir; [by apply rmdir_ok | by apply unlink_ok].
Qed.
Lemma rename_ok d x d' x' : ¬ outside d → ¬ outside d' → simple x' → call_ok (rename_entry d x d' x') (λ _, True).
Proof.
  intros O O' N store a store' S. unfold rename_entry. destruct (dir_of store d) as [[es p]|] eqn:D; [|done].
  apply dir_of_Ok in D. cbn [mbind result_bind]. destruct (dir_of store d') as [[es' p']|] eqn:D'; [|done].
  apply dir_of_Ok in D'. cbn [mbind result_bind]. destruct (normal x); [|done]. destruct (normal x') eqn:NM; [|done]. cbn [negb orb].
  destruct (es !! x) as [i|] eqn:E; [|done]. destruct (entry_inside store d es p x i S O D E) as (_ & OI & B).
  assert (M : ∀ s1, inner store s1 → inner store (reparent i d' (set_entry d' x' i (del_entry d x s1)))).
  { intros s1 I1. assert (I2 : inner store (del_entry d x s1)) by (eapply inner_trans; [exact I1|apply inner_del_entry; [apply I1|done]]).
    assert (I3 : inner store (set_entry d' x' i (del_entry d x s1))).
    { eapply inner_trans; [exact I2|]. apply inner_set_entry; [apply I2|done|by apply normal_plain|done..]. }
    eapply inner_trans; [exact I3|]. apply inner_reparent; [apply I3|done..]. }
  destruct (_ && ancestor _ _ _ _); [done|]. destruct (es' !! x') as [j|] eqn:E'.
  - case_decide; [intros X; injection X as <- <-; by split; [apply inner_refl|]|].
    destruct (entry_inside store d' es' p' x' j S O' D' E') as (_ & OJ & BJ).
    unfold replaceable. destruct (store !! i) as [n|]; [|done]. destruct (store !! j) as [m|] eqn:J; [|done].
    destruct (is_directory n), (i_kind m) eqn:K; try done; try case_decide; try done; cbn [mbind result_bind];
      intros X; injection X as <- <-; (split; [|done]); apply M.
    2-5: by eapply inner_attribute.
    by apply inner_leaf.
  - intros X. injection X as <- <-. split; [|done]. apply M. by apply inner_refl.
Qed.
Lemma confined_renameat d x d' x' : ¬ outside d → simple x → ¬ outside d' → simple x' →
  confined (calls (sys_renameat d x d' x')) (λ _, True).
Proof.
  intros O N O' N'. apply confined_call. intros store a store' S. unfold mbind.
  destruct (resolve_parent store false d x) as [[e y]|] eqn:R; [|done]. apply resolve_parent_simple in R as [-> ->]; [|done]. cbn.
  destruct (resolve_parent store false d' x') as [[e' y']|] eqn:R'; [|done]. apply resolve_parent_simple in R' as [-> ->]; [|done]. cbn.
  by apply rename_ok.
Qed.

(** *** Operations on paths *)

Lemma confined_mkdir path mode : confined (Mkdir fs path mode) (λ _, True).
Proof. apply confined_with. intros. by apply confined_mkdirat. Qed.
Lemma confined_mkdirAll turns name mode : confined (mkdirAll fs turns name mode) (λ _, True).
Proof.
  revert name. induction turns as [|turns IH]; intros name; cbn [mkdirAll].
  all: eapply confined_bind; [apply confined_attempt, confined_lstat|]; intros [s|?] _.
  1, 3: eapply (confined_bind _ _ (λ _, True)); [|intros d _; confine; by apply confined_ret].
  1, 2: apply confined_if; [|by apply confined_ret]; (eapply confined_bind; [apply confined_attempt, confined_stat|]);
    intros [d|e] _; confine; by apply confined_ret.
  all: eapply (confined_bind _ _ (λ _, True)); [apply confined_if; [apply confined_err || apply IH|by apply confined_ret]|].
  all: intros l _; (eapply confined_bind; [apply confined_attempt, confined_mkdir|]); intros [?|e1] _; [by apply confined_ret|].
  all: eapply confined_bind; [apply confined_attempt, confined_lstat|]; intros [s|?] _; confine; by apply confined_ret.
Qed.
Lemma confined_MkdirAll path mode : confined (MkdirAll fs path mode) (λ _, True).
Proof. eapply confined_bind; [by apply (confined_lift _ (λ _, True))|]. intros name _. apply confined_mkdirAll. Qed.

Lemma confined_touched {A} path (body : Z → string → U A) Q :
  (∀ d x, ¬ outside d → simple x → confined (body d x) Q) → confined (with_touched fs path body) Q.
Proof.
  intros B u G. unfold with_touched. pose proof (confined_safePath path u G) as S.
  destruct (safePath fs path u) as [[n r] u1]. destruct S as (I & G1 & X). destruct r as [[d x]|e].
  - destruct (X d x eq_refl) as [O N]. destruct (confined_deferred _ n _ (B d x O N) u1 G1) as (I2 & G2 & Y).
    split; [by eapply inner_trans|]. done.
  - destruct (is_not_exist e), (ue_path e) as [missing|]; try done.
    destruct (confined_MkdirAll missing 493 u1 G1) as (I2 & G2 & _).
    destruct (MkdirAll fs missing 493 u1) as [[l|e'] u2]; cbn [fst snd] in *; [|split; [by eapply inner_trans|done]].
    destruct (confined_with path body Q B (set_sys (closed n (u_sys u2)) u2) G2) as (I3 & G3 & Y).
    split; [|done]. eapply inner_trans; [exact I|]. eapply inner_trans; [exact I2|exact I3].
Qed.
Lemma confined_touch path flag mode : confined (Touch fs path flag mode) (λ i, ¬ outside i).
Proof. apply confined_touched. intros. by apply confined_openat. Qed.
Lemma confined_rename oldpath newpath : confined (Rename fs oldpath newpath) (λ _, True).
Proof.
  unfold Rename. case_decide; [by apply confined_ret|]. apply confined_with. intros d x O N. case_decide; [apply confined_err|].
  eapply confined_bind; [by apply confined_lstatat|]. intros s _. apply confined_touched. intros d' x' O' N'.
  unfold rename_into. case_decide; [apply confined_err|].
  eapply confined_bind; [by apply confined_attempt, confined_lstatat|]. intros [?|e] _; confine. by apply confined_renameat.
Qed.
Lemma confined_symlink oldpath newpath : confined (Symlink fs oldpath newpath) (λ _, True).
Proof. apply confined_with. intros. by apply confined_on, confined_ignoring, confined_symlinkat. Qed.
Lemma confined_RemoveStat path : confined (RemoveStat fs path) stat_inside.
Proof.
  apply confined_with. intros d x O N. eapply confined_bind; [by apply confined_lstatat|]. intros s S.
  eapply confined_bind; [by apply confined_on, confined_unlinkat|]. intros _ _. by apply confined_ret.
Qed.
Lemma confined_Remove path : confined (Remove fs path) (λ _, True).
Proof.
  apply confined_with. intros d x O N. case_decide; [apply confined_err|].
  apply (confined_match (unlinkat d x false) (λ _, λ u, (Ok tt, u))
    (λ e u1, match unlinkat d x true u1 with
             | (Ok _, u2) => (Ok tt, u2)
             | (Err e1, u2) => (Err (ensurePathError (bare (if decide (e1 = ENOTDIR) then e else e1)) x), u2)
             end) (λ _, True)); [by apply confined_unlinkat|intros; by apply confined_end|].
  intros e. apply (confined_match (unlinkat d x true) (λ _, λ u, (Ok tt, u))
    (λ e1 u2, (Err (ensurePathError (bare (if decide (e1 = ENOTDIR) then e else e1)) x), u2)) (λ _, True));
    [by apply confined_unlinkat | intros; by apply confined_end..].
Qed.

(** *** Directories *)

Lemma confined_getdents fd seen n : ¬ outside fd → confined (calls (sys_getdents fd seen n)) (Forall (λ xi, plain xi.1 ∧ ¬ outside xi.2)).
Proof.
  intros O. apply confined_read. intros store l S. destruct (dir_of store fd) as [[es p]|] eqn:D; [|done].
  apply dir_of_Ok in D. cbn [mbind result_bind]. intros E. injection E as <-. apply list.Forall_forall. intros [x i] X.
  apply list_elem_of_omap in X as (y & _ & Y). destruct (es !! y) as [j|] eqn:J; [|done]. cbn in Y. injection Y as <- <-.
  by destruct (entry_inside store fd es p y j S O D J) as (? & ? & _).
Qed.
Definition dirent_inside (d : dirent) : Prop := ¬ outside (de_dirfd d) ∧ simple (de_name d).
Lemma confined_readDir fd name : ¬ outside fd → confined (readDir fd name) (Forall dirent_inside).
Proof.
  intros O. eapply confined_bind; [by apply confined_on, confined_ignoring, confined_getdents|]. intros l L.
  eapply confined_bind; [apply confined_gets|]. intros store _. apply confined_ret. apply Forall_map.
  eapply list.Forall_impl; [exact L|]. intros [x i] [P _]. split; [done | by right].
Qed.
Lemma confined_ReadDirMap {A} path (fn : dirent → U A) Q :
  (∀ d, dirent_inside d → confined (fn d) Q) → confined (ReadDirMap fs path fn) (Forall Q).
Proof.
  intros F. apply confined_with. intros d x O N. eapply confined_bind; [by apply confined_openat|]. intros fd OF.
  apply confined_deferred. eapply confined_bind; [by apply confined_readDir|]. intros l L.
  induction L as [|e l E L IH]; [by apply confined_ret|].
  eapply confined_bind; [by apply F|]. intros v V. eapply confined_bind; [apply IH|]. intros vs VS. apply confined_ret. by constructor.
Qed.
Lemma confined_ReadDir path : confined (ReadDir fs path) (Forall dirent_inside).
Proof.
  apply confined_with. intros d x O N. eapply confined_bind; [by apply confined_openat|]. intros fd OF.
  by apply confined_deferred, confined_readDir.
Qed.

(** Walking calls its function inside only. *)
Definition fn_confined (fn : walk_fn) : Prop :=
  ∀ d x rel e err, ¬ outside d → simple x → confined (fn d x rel e err) (λ _, True).
Lemma confined_skipped (m : U unit) : confined m (λ _, True) → confined (skipped m) (λ _, True).
Proof. intros M u G. destruct (M u G) as (I & G1 & _). unfold skipped. by destruct (m u) as [[]]. Qed.
Lemma confined_entries walk rel l :
  (∀ x rel d, dirent_inside d → x = de_name d → confined (walk x rel d) (λ _, True)) → Forall dirent_inside l →
  confined (walk_entries walk rel l) (λ _, True).
Proof.
  intros W L. induction L as [|e l E L IH]; [by apply confined_ret|]. cbn [walk_entries].
  eapply (confined_match (walk _ _ e) (λ _, walk_entries walk rel l) (λ e' u', (if is_kind SkipDir e' then Ok tt else Err e', u')) (λ _, True));
    [by apply W | done | intros; by apply confined_end].
Qed.
Lemma confined_walkDir depth d x rel e fn :
  fn_confined fn → ¬ outside d → simple x → confined (walkDir fs depth d x rel e fn) (λ _, True).
Proof.
  intros F. revert d x rel e. induction depth as [|depth IH]; intros d x rel e O N; cbn [walkDir]; [apply confined_err|].
  apply confined_if; [by apply F|].
  eapply (confined_match (fn d x rel e None) (λ _ u1, match openat fs d x (Z.lor O_DIRECTORY O_RDONLY) 0 u1 with
      | (Ok dirfd, u2) => deferred (dirs ← attempt (readDir dirfd x);
          match dirs with
          | Err e' => skipped (fn dirfd x rel e (Some e'))
          | Ok dirs => walk_entries (λ n rel d1, walkDir fs depth dirfd n rel d1 fn) rel dirs
          end) 1 u2
      | (Err e', u2) => skipped (fn d x rel e (Some e')) u2 end)
      (λ e' u1, (if is_kind SkipDir e' then Ok tt else Err e', u1)) (λ _, True));
    [by apply F | intros _ _ | intros; by apply confined_end].
  eapply (confined_match (openat fs d x _ 0) _ (λ e', skipped (fn d x rel e (Some e'))));
    [by apply confined_openat | | intros; by apply confined_skipped, F].
  intros dirfd OD. apply confined_deferred. eapply confined_bind; [by apply confined_attempt, confined_readDir|].
  intros [l|e'] L; [|by apply confined_skipped, F]. apply confined_entries; [|by apply L]. intros y rel' e' [OE NE] ->. by apply IH.
Qed.
Lemma confined_WalkDirat depth d x fn :
  fn_confined fn → ¬ outside d → simple x → confined (WalkDirat fs depth d x fn) (λ _, True).
Proof.
  intros F O N. unfold WalkDirat. apply (confined_then _ (λ r u', (match r with
     | Err e => if is_kind SkipDir e || is_kind SkipAll e then Ok tt else Err e
     | Ok _ => r end, u')) (λ _, True)); [|intros; by apply confined_end].
  eapply confined_bind; [by apply confined_attempt, confined_lstatat|]. intros [s|e] _; [by apply confined_walkDir | by apply F].
Qed.

(** *** Trees *)

Definition remover_confined (r : remover) : Prop :=
  (∀ path, confined (rm_Open r path) (λ i, ¬ outside i)) ∧ (∀ path, confined (rm_Remove r path) (λ _, True))
  ∧ ∀ d x removedir, ¬ outside d → simple x → confined (rm_unlinkat r d x removedir) (λ _, True).
Definition remove_confined (remove : Z → string → U unit) : Prop :=
  ∀ d x, ¬ outside d → simple x → confined (remove d x) (λ _, True).

Lemma confined_names remove base_ names errs first :
  (∀ x, x ∈ names → confined (remove x) (λ _, True)) → confined (remove_names remove base_ names errs first) (λ _, True).
Proof.
  revert errs first. induction names as [|x names IH]; intros errs first R; cbn [remove_names]; [by apply confined_ret|].
  eapply confined_bind; [apply confined_attempt, R; set_solver|]. intros [?|e] _; apply IH; set_solver.
Qed.
Lemma confined_batches turns remove fd base_ seen first :
  remove_confined remove → ¬ outside fd → confined (remove_batches turns remove fd base_ seen first) (λ _, True).
Proof.
  intros R O. revert seen first. induction turns as [|turns IH]; intros seen first; cbn [remove_batches]; [apply confined_err|].
  eapply (confined_match (calls (sys_getdents fd seen (Some reqSize))) (λ entries u1,
      match remove_names (remove fd) base_ (map fst entries) 0%nat first u1 with
      | (Ok (errs, first'), u2) => if decide (errs = reqSize)
          then remove_batches turns remove fd base_ (seen ++ map fst entries) first' u2
          else (Ok (BatchDone (length (map fst entries)), first'), u2)
      | (Err e, u2) => (Err e, u2)
      end) (λ e u1, (Ok (BatchReturn (if errno_missing e then Ok tt else Err (PathError base_ (Errno e))), first), u1)));
    [by apply confined_getdents | | intros; by apply confined_end].
  intros l L. eapply (confined_match (remove_names (remove fd) base_ (map fst l) 0%nat first) (λ x u2,
      let '(errs, first') := x in
      if decide (errs = reqSize) then remove_batches turns remove fd base_ (seen ++ map fst l) first' u2
      else (Ok (BatchDone (length (map fst l)), first'), u2)) (λ e u2, (Err e, u2)));
    [| intros [errs first'] _; case_decide; [apply IH | by apply confined_end] | intros; by apply confined_end].
  apply confined_names. intros x X. apply R; [done|]. right. apply list_elem_of_fmap in X as ([y i] & -> & Y).
  rewrite list.Forall_forall in L. by destruct (L _ Y) as [Z _].
Qed.
Lemma confined_contents turns remove d x first :
  remove_confined remove → ¬ outside d → simple x → confined (remove_contents turns remove d x first) (λ _, True).
Proof.
  intros R O N. revert first. induction turns as [|turns IH]; intros first; cbn [remove_contents]; [apply confined_err|].
  eapply (confined_match (openFdAt d x) (λ fd u1,
      match deferred (remove_batches (S turns) remove fd x [] first) 1 u1 with
      | (Ok (BatchReturn r, _), u2) => (r, u2)
      | (Ok (BatchDone n, first'), u2) =>
          if decide (n < reqSize)%nat then (match first' with None => Ok tt | Some e => Err e end, u2)
          else remove_contents turns remove d x first' u2
      | (Err e, u2) => (Err e, u2)
      end) (λ e u1, (if errno_missing e then Ok tt else Err (PathError x (Errno e)), u1)) (λ fd, ¬ outside fd));
    [| | intros; by apply confined_end].
  - apply confined_ignoring, confined_open, confined_call, open_entry_ok; done.
  - intros fd F. eapply (confined_match (deferred (remove_batches (S turns) remove fd x [] first) 1) (λ b u2,
      match b with
      | (BatchReturn r, _) => (r, u2)
      | (BatchDone n, first') =>
          if decide (n < reqSize)%nat then (match first' with None => Ok tt | Some e => Err e end, u2)
          else remove_contents turns remove d x first' u2
      end) (λ e u2, (Err e, u2)));
      [by apply confined_deferred, confined_batches | | intros; by apply confined_end].
    intros [[n|r] first'] _; [|by apply confined_end]. case_decide; [by apply confined_end | apply IH].
Qed.
Lemma confined_removeAllFrom r depth turns : remover_confined r → remove_confined (removeAllFrom r depth turns).
Proof.
  intros (RO & RR & RU). assert (E : ∀ (x : result uerr unit), confined (λ u, (x, u)) (λ _, True)) by (intros; by apply confined_end).
  induction depth as [|depth IH]; intros d x O N u G; cbn [removeAllFrom].
  all: destruct (RU d x false O N u G) as (I & G1 & _); destruct (rm_unlinkat r d x false u) as [[a|e] u1];
    cbn [fst snd] in *; [by split|].
  all: destruct (errno_missing e); [by split|]; destruct (negb _); [by split|].
  all: assert (C : confined (ignoringEINTR (calls (sys_fstatat false d x))) (λ _, True)) by (by apply confined_ignoring, confined_read).
  all: destruct (C u1 G1) as (I2 & G2 & _); destruct (ignoringEINTR _ u1) as [[[i n]|e'] u2]; cbn [fst snd] in *;
    [|by split; [eapply inner_trans|]].
  all: destruct (is_directory n); cbn [negb]; [|by split; [eapply inner_trans|]].
  - by split; [eapply inner_trans|].
  - destruct (confined_contents turns (removeAllFrom r depth turns) d x None IH O N u2 G2) as (I3 & G3 & _).
    destruct (remove_contents _ _ _ _ _ u2) as [r' u3]; cbn [fst snd] in *.
    destruct (RU d x true O N u3 G3) as (I4 & G4 & _). destruct (rm_unlinkat r d x true u3) as [[a|e'] u4]; cbn [fst snd] in *.
    all: split; [eapply inner_trans; [exact I|]; eapply inner_trans; [exact I2|]; by eapply inner_trans|done].
Qed.
Lemma confined_removeContentsFrom r depth turns : remover_confined r → remove_confined (removeContentsFrom r depth turns).
Proof. intros R d x O N. apply confined_contents; [by apply confined_removeAllFrom|done..]. Qed.
Lemma confined_from r path body :
  remover_confined r → simple (snd (splitPath path)) → remove_confined body → confined (from_parent r path body) (λ _, True).
Proof.
  intros (RO & _) N B u G. unfold from_parent. destruct (splitPath path) as [dir x]. cbn in N.
  destruct (RO dir u G) as (I & G1 & F). destruct (rm_Open r dir u) as [[fd|e] u1]; cbn [fst snd] in *; [|by split].
  destruct (confined_deferred _ 1 _ (B fd x (F fd eq_refl) N) u1 G1) as (I2 & G2 & _).
  destruct (deferred _ 1 u1) as [[a|e] u2]; cbn [fst snd] in *; (split; [by eapply inner_trans|done]).
Qed.
Lemma confined_removeAll r depth turns rest :
  remover_confined r → Forall plain rest → confined (removeAll r depth turns (relative rest)) (λ _, True).
Proof.
  intros R P. unfold removeAll. case_decide; [by apply confined_ret|]. apply confined_if; [apply confined_err|].
  pose proof R as (_ & RR & _).
  apply (confined_match (rm_Remove r (relative rest)) (λ _ u1, (Ok tt, u1))
    (λ e u1, if is_not_exist e then (Ok tt, u1) else from_parent r (relative rest) (removeAllFrom r depth turns) u1) (λ _, True));
    [apply RR | intros a _; by apply confined_end |].
  intros e. destruct (is_not_exist e); [by apply confined_end|]. apply confined_from; [done|by apply relative_split|].
  by apply confined_removeAllFrom.
Qed.
Lemma confined_unix : remover_confined (unix_remover fs).
Proof.
  split_and!; intros.
  - apply confined_with. intros. by apply confined_openat.
  - apply confined_Remove.
  - by apply confined_unlinkat.
Qed.
Lemma confined_freed s : confined (freed s) (λ _, True).
Proof. intros u G. split; [apply inner_refl, G | by split]. Qed.
Lemma confined_quota : remover_confined (quota_remover fs).
Proof.
  split_and!; intros.
  - apply confined_with. intros. by apply confined_openat.
  - eapply confined_bind; [apply confined_RemoveStat|]. intros s _. apply confined_freed.
  - unfold quota_remover, rm_unlinkat, quota_unlinkat. intros u G. destruct removedir; [by apply confined_unlinkat|].
    destruct (confined_lstatat d x H0 H1 u G) as (I & G1 & _). destruct (Lstatat d x u) as [[s|e] u1]; cbn [fst snd] in *.
    + destruct (confined_unlinkat d x false H0 H1 (quota_add (- freedBy (file_info s)) u1) G1) as (I2 & G2 & _).
      split; [|done]. eapply inner_trans; [exact I|exact I2].
    + destruct (confined_unlinkat d x false H0 H1 u1 G1) as (I2 & G2 & _). split; [by eapply inner_trans|done].
Qed.
Lemma confined_named {A} path (k : string → U A) Q :
  (∀ rest, Forall plain rest → confined (k (relative rest)) Q) → confined (st_lift (unsafePath fs path) ≫= k) Q.
Proof.
  intros F. eapply (confined_bind _ _ (λ name, ∃ rest, Forall plain rest ∧ name = relative rest)).
  - apply confined_lift. intros name N. by eapply unsafePath_spec; [exact base_path|apply base_names..|].
  - intros name (rest & P & ->). by apply F.
Qed.
Lemma confined_RemoveAll depth turns path : confined (RemoveAll fs depth turns path) (λ _, True).
Proof. apply confined_named. intros rest P. case_decide; [apply confined_err|]. by apply confined_removeAll, P; apply confined_unix. Qed.
Lemma confined_RemoveContents depth turns path : confined (RemoveContents fs depth turns path) (λ _, True).
Proof.
  apply confined_named. intros rest P. unfold removeContents. case_decide; [by apply confined_ret|].
  apply confined_from; [apply confined_unix|by apply relative_split|]. apply confined_removeContentsFrom, confined_unix.
Qed.
Lemma confined_quota_RemoveAll depth turns path : confined (quota_RemoveAll fs depth turns path) (λ _, True).
Proof. apply confined_named. intros rest P. case_decide; [apply confined_err|]. by apply confined_removeAll, P; apply confined_quota. Qed.

(** *** Every operation *)

(** What the daemon asks of the file system: every operation of [UnixFS] and [Quota] on
    paths except [Chown], which follows links. *)
Inductive request :=
| AskChmod (path : string) (mode : Z) | AskLchown (path : string) (uid gid : Z)
| AskChtimes (path : string) (atime mtime : option Z)
| AskOpenFile (path : string) (flag mode : Z) | AskTouch (path : string) (flag mode : Z)
| AskStat (path : string) | AskLstat (path : string) | AskReadDir (path : string)
| AskMkdir (path : string) (mode : Z) | AskMkdirAll (path : string) (mode : Z)
| AskSymlink (oldpath newpath : string) | AskRename (oldpath newpath : string)
| AskRemove (path : string) | AskRemoveStat (path : string)
| AskRemoveAll (depth turns : nat) (path : string) | AskRemoveContents (depth turns : nat) (path : string)
| AskQuotaRemove (path : string) | AskQuotaRemoveAll (depth turns : nat) (path : string).

Definition no_inode {A} (m : U A) : U (list Z) := _ ← m; mret [].
Definition one_stat (m : U fileStat) : U (list Z) := s ← m; mret [fst_ino s].
Definition one_inode (m : U Z) : U (list Z) := i ← m; mret [i].
(** The inodes that an operation hands out. *)
Definition serve (r : request) : U (list Z) :=
  match r with
  | AskChmod path mode => no_inode (Chmod fs path mode)
  | AskLchown path uid gid => no_inode (Lchown fs path uid gid)
  | AskChtimes path atime mtime => no_inode (Chtimes fs path atime mtime)
  | AskOpenFile path flag mode => one_inode (OpenFile fs path flag mode)
  | AskTouch path flag mode => one_inode (Touch fs path flag mode)
  | AskStat path => one_stat (Stat fs path)
  | AskLstat path => one_stat (Lstat fs path)
  | AskReadDir path => l ← ReadDir fs path; mret (map de_dirfd l)
  | AskMkdir path mode => no_inode (Mkdir fs path mode)
  | AskMkdirAll path mode => no_inode (MkdirAll fs path mode)
  | AskSymlink oldpath newpath => no_inode (Symlink fs oldpath newpath)
  | AskRename oldpath newpath => no_inode (Rename fs oldpath newpath)
  | AskRemove path => no_inode (Remove fs path)
  | AskRemoveStat path => one_stat (RemoveStat fs path)
  | AskRemoveAll depth turns path => no_inode (RemoveAll fs depth turns path)
  | AskRemoveContents depth turns path => no_inode (RemoveContents fs depth turns path)
  | AskQuotaRemove path => no_inode (quota_Remove fs path)
  | AskQuotaRemoveAll depth turns path => no_inode (quota_RemoveAll fs depth turns path)
  end.
Lemma confined_no_inode {A} (m : U A) Q : confined m Q → confined (no_inode m) (Forall (λ i, ¬ outside i)).
Proof. intros M. eapply confined_bind; [exact M|]. intros a _. by apply confined_ret. Qed.
Lemma confined_one_stat m : confined m stat_inside → confined (one_stat m) (Forall (λ i, ¬ outside i)).
Proof. intros M. eapply confined_bind; [exact M|]. intros s S. apply confined_ret. by constructor. Qed.
Lemma confined_one_inode m : confined m (λ i, ¬ outside i) → confined (one_inode m) (Forall (λ i, ¬ outside i)).
Proof. intros M. eapply confined_bind; [exact M|]. intros s S. apply confined_ret. by constructor. Qed.

Lemma confined_serve r : confined (serve r) (Forall (λ i, ¬ outside i)).
Proof.
  destruct r; cbn [serve]; first [eapply confined_no_inode | apply confined_one_stat | apply confined_one_inode | idtac].
  - apply confined_with. intros. by apply confined_fchmodat.
  - apply confined_rename_error, confined_with. intros. by apply confined_on, confined_call, change_ok.
  - apply confined_with. intros. by apply confined_chtimesat.
  - apply confined_with. intros. by apply confined_openat.
  - apply confined_touch.
  - apply confined_stat.
  - apply confined_lstat.
  - eapply confined_bind; [apply confined_ReadDir|]. intros l L. apply confined_ret, Forall_map.
    eapply list.Forall_impl; [exact L|]. by intros d [? _].
  - apply confined_mkdir.
  - apply confined_MkdirAll.
  - apply confined_symlink.
  - apply confined_rename.
  - apply confined_Remove.
  - apply confined_RemoveStat.
  - apply confined_RemoveAll.
  - apply confined_RemoveContents.
  - apply confined_quota.
  - apply confined_quota_RemoveAll.
Qed.
End Confined.
