(* ===== verification/UfsRemove.v ===== *)
(** * Removing a tree removes it

    When nothing interferes and no system call fails, [removeAll] ends, whatever the shape
    of the tree, and removes the name with everything below it and nothing else. *)

From stdpp Require Import base gmap sets list strings numbers relations.
From Stdlib Require Import Ascii.
From S2P Require Import Prelude GoStrings Paths PathsFacts Disk Inodes Ufs UfsFacts.
Open Scope Z_scope.

(** ** Runs without interference *)

Definition quiet (u : ufs) : Prop := s_events (u_sys u) = [].
Definition set_store (store : fsys) (u : ufs) : ufs := set_sys (mkSys store (s_events (u_sys u)) (s_open (u_sys u))) u.

Lemma quiet_call {A} (f : fsys → result errno (A * fsys)) u : quiet u →
  calls (system_call f) u
  = match f (store_of u) with Ok (a, store') => (Ok a, set_store store' u) | Err e => (Err e, u) end.
Proof.
  destruct u as [[store ev n] disk]. unfold quiet. cbn. intros ->.
  unfold calls, system_call, before_call, store_of, set_store. cbn. by destruct (f store) as [[a store']|e].
Qed.
Lemma set_store_same u : set_store (store_of u) u = u.
Proof. by destruct u as [[]]. Qed.
Lemma rest_read {A} (f : fsys → result errno A) u : quiet u → calls (system_read f) u = (f (store_of u), u).
Proof.
  intros Q. unfold system_read. rewrite (quiet_call _ u Q). destruct (f (store_of u)) as [a|e]; cbn; [|done].
  by rewrite set_store_same.
Qed.
Lemma quiet_ignoring {A} (m : st ufs errno A) u : quiet u → ignoringEINTR m u = m u.
Proof.
  intros Q. unfold ignoringEINTR. unfold quiet in Q. rewrite Q. cbn. by destruct (m u) as [[a|[]] u'].
Qed.

(** ** Trees *)

Definition entry (store : fsys) (d : Z) (x : string) (i : Z) : Prop :=
  ∃ es p, i_kind <$> store !! d = Some (IDir es p) ∧ es !! x = Some i.
Definition child (store : fsys) (d i : Z) : Prop := ∃ x, entry store d x i.
(** What is at or below an inode. *)
Definition reach (store : fsys) : Z → Z → Prop := rtc (child store).
Definition directory (store : fsys) (i : Z) : Prop := ∃ es p, i_kind <$> store !! i = Some (IDir es p).

(** Directories form a tree: entries exist, a directory has one entry, and [rank] falls
    from a directory to those in it. *)
Record tree (rank : Z → nat) (store : fsys) : Prop := {
  tr_exists d x i : entry store d x i → is_Some (store !! i);
  tr_plain d x i : entry store d x i → plain x;
  tr_unique d1 x1 d2 x2 i : directory store i → entry store d1 x1 i → entry store d2 x2 i → d1 = d2 ∧ x1 = x2;
  tr_rank d i : child store d i → directory store i → (rank i < rank d)%nat;
}.

(** Entries have gone and directories are removed; nothing else. *)
Definition shrinks (store store' : fsys) : Prop :=
  (∀ i, is_Some (store !! i) → is_Some (store' !! i))
  ∧ (∀ d x i, entry store' d x i → entry store d x i)
  ∧ ∀ i, directory store' i → directory store i.
Definition only (T : Z → Prop) (store store' : fsys) : Prop := ∀ j, ¬ T j → store' !! j = store !! j.

Lemma shrinks_refl store : shrinks store store.
Proof. by split_and!. Qed.
Lemma shrinks_trans s1 s2 s3 : shrinks s1 s2 → shrinks s2 s3 → shrinks s1 s3.
Proof. unfold shrinks. naive_solver. Qed.
Lemma shrinks_tree rank store store' : tree rank store → shrinks store store' → tree rank store'.
Proof.
  intros T (E & N & D). split.
  - intros d x i X. apply E. by eapply tr_exists; [|apply N].
  - intros d x i X. by eapply tr_plain; [|apply N].
  - intros d1 x1 d2 x2 i DI X1 X2. eapply tr_unique; [done|by apply D|by apply N..].
  - intros d i [x X] DI. eapply tr_rank; [done| |by apply D]. exists x. by apply N.
Qed.
Lemma shrinks_reach store store' i j : shrinks store store' → reach store' i j → reach store i j.
Proof. intros (_ & N & _). induction 1 as [|a b c [x X] _ IH]; [done|]. eapply rtc_l; [exists x; by apply N | done]. Qed.
Lemma reach_rank rank store i j :
  tree rank store → reach store i j → directory store j → j = i ∨ (rank j < rank i)%nat.
Proof.
  intros T. induction 1 as [i|i c j C R IH]; intros D; [by left|]. right.
  destruct (IH D) as [->|L]; [by eapply tr_rank|].
  assert (DC : directory store c).
  { inversion R as [|? b ? [x (es & p & K & _)]]; subst; [done|]. by exists es, p. }
  pose proof (tr_rank rank store T i c C DC). lia.
Qed.
Lemma entry_dir store d x i : entry store d x i → directory store d.
Proof. intros (es & p & K & _). by exists es, p. Qed.
(** The parent is not below what it contains. *)
Lemma parent_apart rank store d x i : tree rank store → entry store d x i → directory store i → ¬ reach store i d.
Proof.
  intros T E D R. pose proof (tr_rank rank store T d i (ex_intro _ x E) D) as L.
  destruct (reach_rank rank store i d T R (entry_dir _ _ _ _ E)) as [->|L']; lia.
Qed.

(** ** One name *)

Lemma lookup_del_entry store d x j :
  del_entry d x store !! j
  = (if decide (d = j) then (λ n, match i_kind n with IDir es p => set_kind (IDir (delete x es) p) n | _ => n end) <$> store !! j
     else store !! j).
Proof. unfold del_entry. case_decide; [subst; apply lookup_alter_eq | by apply lookup_alter_ne]. Qed.
(** After [x] was dropped from [d] and its inode became [n']. *)
Definition dropped (d : Z) (x : string) (i : Z) (n' : inode) (store : fsys) : fsys := del_entry d x (<[i := n']> store).
Lemma dropped_shrinks store d x i n n' :
  store !! i = Some n → (i_kind n' = i_kind n ∨ i_kind n' = IGone) → shrinks store (dropped d x i n' store).
Proof.
  intros I K. unfold dropped, shrinks.
  assert (L : ∀ j m', del_entry d x (<[i := n']> store) !! j = Some m' →
    ∃ m, store !! j = Some m ∧ ∀ es' p', i_kind m' = IDir es' p' → ∃ es, i_kind m = IDir es p' ∧ ∀ y c, es' !! y = Some c → es !! y = Some c).
  { intros j m'. rewrite lookup_del_entry.
    assert (J : ∀ m, <[i := n']> store !! j = Some m → ∃ m0, store !! j = Some m0 ∧ ∀ es p, i_kind m = IDir es p → i_kind m0 = IDir es p).
    { intros m. destruct (decide (i = j)) as [->|NE]; [|rewrite lookup_insert_ne by done; eauto].
      rewrite lookup_insert_eq. intros X. injection X as <-. exists n. split; [done|]. intros es p E.
      destruct K as [K|K]; congruence. }
    case_decide.
    - destruct (<[i := n']> store !! j) as [m|] eqn:M; [|done]. cbn. intros X. injection X as <-.
      destruct (J m eq_refl) as (m0 & M0 & E). exists m0. split; [done|]. intros es' p'.
      destruct (i_kind m) eqn:KM; try (rewrite KM; intros; congruence). cbn. intros X. injection X as <- <-.
      exists entries. split; [by apply E|]. intros y c. rewrite lookup_delete_Some. naive_solver.
    - intros M. destruct (J m' M) as (m0 & M0 & E). exists m0. split; [done|]. eauto. }
  split_and!.
  - intros j [m M]. rewrite lookup_del_entry. case_decide; [rewrite fmap_is_Some|];
      (destruct (decide (i = j)) as [->|NE]; [rewrite lookup_insert_eq; eauto | rewrite lookup_insert_ne by done; eauto]).
  - intros j y c (es & p & E & Y). destruct (del_entry d x (<[i := n']> store) !! j) as [m'|] eqn:M; [|done]. cbn in E.
    injection E as E. destruct (L j m' M) as (m & M0 & X). destruct (X es p E) as (es0 & K0 & S). exists es0, p.
    rewrite M0. cbn. rewrite K0. eauto.
  - intros j (es & p & E). destruct (del_entry d x (<[i := n']> store) !! j) as [m'|] eqn:M; [|done]. cbn in E.
    injection E as E. destruct (L j m' M) as (m & M0 & X). destruct (X es p E) as (es0 & K0 & S). exists es0, p.
    rewrite M0. cbn. by rewrite K0.
Qed.
Lemma dropped_only store d x i n' : only (λ j, j = d ∨ j = i) store (dropped d x i n' store).
Proof.
  intros j N. unfold dropped. rewrite lookup_del_entry, decide_False by naive_solver. apply lookup_insert_ne. naive_solver.
Qed.
Lemma dropped_dir store d x i n' n es p :
  d ≠ i → store !! d = Some n → i_kind n = IDir es p →
  dropped d x i n' store !! d = Some (set_kind (IDir (delete x es) p) n).
Proof.
  intros N D K. unfold dropped. rewrite lookup_del_entry, decide_True, lookup_insert_ne, D by done. cbn. by rewrite K.
Qed.

Lemma resolve_parent_word store beneath d x :
  simple x → resolve_parent store beneath d x = (_ ← dir_of store d; Ok (d, x)).
Proof.
  intros N. destruct (simple_word x N) as (A & W & NE). unfold resolve_parent, names_of.
  rewrite decide_False, A, W, filter_cons_True, filter_nil by done. cbn [removelast List.last].
  replace (namei store (if beneath then Some d else None) max_follow true d []) with (Ok d : result errno Z)
    by (by destruct max_follow).
  done.
Qed.
Lemma entry_dir_of store d x i : entry store d x i → ∃ es p, dir_of store d = Ok (es, p) ∧ es !! x = Some i ∧ i_kind <$> store !! d = Some (IDir es p).
Proof. intros (es & p & K & E). exists es, p. unfold dir_of. by rewrite K. Qed.
Lemma plain_normal x : plain x → normal x = true.
Proof. intros (_ & A & B & _). unfold normal. by rewrite !bool_decide_false. Qed.

(** ** The loops *)

Lemma resolve_entry store beneath d x i : entry store d x i → plain x → resolve store beneath false d x = Ok i.
Proof.
  intros E P. destruct (entry_dir_of _ _ _ _ E) as (es & p & D & X & _).
  destruct (simple_word x (or_intror P)) as (A & W & NE). unfold resolve. rewrite decide_False, A, W by done.
  rewrite namei_step, D. cbn [mbind result_bind]. destruct P as (P1 & P2 & P3 & _).
  rewrite decide_False by naive_solver. rewrite decide_False, X by done. case_match; [done|]. by destruct max_follow.
Qed.

Section Removal.
Context `{Process}.
Variables (r : remover) (rank : Z → nat) (turns : nat).
Hypothesis all_entries : ∀ es : gmap string Z, dir_order es ≡ₚ (map_to_list es).*1.
(** Unlinking does what the system call does, whatever is accounted besides. *)
Hypothesis unlinks : ∀ u d x b, quiet u → plain x → ∃ disk,
  rm_unlinkat r d x b u
  = match (if b then rmdir_entry else unlink_entry) d x (store_of u) with
    | Ok (_, store') => (Ok tt, set_disk disk (set_store store' u))
    | Err e => (Err e, set_disk disk u)
    end.

Definition opened (u : ufs) : Z := s_open (u_sys u).
Definition small (store : fsys) : Prop :=
  ∀ d es p, i_kind <$> store !! d = Some (IDir es p) → (size es < turns)%nat.

(** [u'] is [u] with the entry [x] of [d], which was [i], removed. *)
Record removed (d : Z) (x : string) (i : Z) (u u' : ufs) : Prop := {
  rv_quiet : quiet u';
  rv_open : opened u' = opened u;
  rv_shrinks : shrinks (store_of u) (store_of u');
  rv_only : only (λ j, j = d ∨ reach (store_of u) i j) (store_of u) (store_of u');
  rv_entry n es p : store_of u !! d = Some n → i_kind n = IDir es p →
    store_of u' !! d = Some (set_kind (IDir (delete x es) p) n);
}.

Lemma entries_sub store store' d es p es' p' :
  shrinks store store' → i_kind <$> store !! d = Some (IDir es p) → i_kind <$> store' !! d = Some (IDir es' p') → es' ⊆ es.
Proof.
  intros (_ & N & _) K K'. apply map_subseteq_spec. intros x i X.
  destruct (N d x i) as (es0 & p0 & K0 & X0); [by exists es', p'|]. rewrite K in K0. by injection K0 as <- <-.
Qed.
Lemma small_shrinks store store' : small store → shrinks store store' → small store'.
Proof.
  intros S H' d es p K. destruct H' as (E & N & D). destruct (D d) as (es0 & p0 & K0); [by exists es, p|].
  pose proof (entries_sub store store' d es0 p0 es p ltac:(by split_and!) K0 K) as I.
  pose proof (S d es0 p0 K0). pose proof (map_subseteq_size es es0 I). lia.
Qed.

(** A list of names of [i], with a [remove] that removes each of them. *)
Definition removes (remove : Z → string → U unit) (i : Z) : Prop := ∀ u y c,
  quiet u → tree rank (store_of u) → small (store_of u) → entry (store_of u) i y c →
  ∃ u', remove i y u = (Ok tt, u') ∧ removed i y c u u'.

(** The names of [i] that are left. *)
Record emptied (i : Z) (left : gmap string Z → gmap string Z) (u u' : ufs) : Prop := {
  em_quiet : quiet u';
  em_open : opened u' = opened u;
  em_shrinks : shrinks (store_of u) (store_of u');
  em_only : only (reach (store_of u) i) (store_of u) (store_of u');
  em_entries n es p : store_of u !! i = Some n → i_kind n = IDir es p →
    store_of u' !! i = Some (set_kind (IDir (left es) p) n);
}.
Definition without (names : list string) (es : gmap string Z) : gmap string Z := foldr delete es names.

Lemma without_delete names x (es : gmap string Z) : without names (delete x es) = delete x (without names es).
Proof.
  induction names as [|y names IH]; [done|].
  change (delete y (without names (delete x es)) = delete x (delete y (without names es))). rewrite IH. apply delete_delete.
Qed.

Lemma remove_names_all remove i base names errs u :
  removes remove i → quiet u → tree rank (store_of u) → small (store_of u) → directory (store_of u) i → NoDup names →
  (∀ y, y ∈ names → ∃ c, entry (store_of u) i y c) →
  ∃ u', remove_names (remove i) base names errs None u = (Ok (errs, None), u') ∧ emptied i (without names) u u'.
Proof.
  intros R. revert u. induction names as [|y names IH]; intros u Q T S D ND E.
  - exists u. split; [done|]. split; [done..|apply shrinks_refl|done|]. intros n es p I K. rewrite I. f_equal.
    unfold without. cbn. rewrite <-K. by destruct n.
  - apply NoDup_cons in ND as [NI ND]. destruct (E y) as [c C]; [set_solver|].
    destruct (R u y c Q T S C) as (u1 & R1 & V). pose proof (rv_shrinks _ _ _ _ _ V) as SH.
    destruct C as (es & p & K & Y). destruct (store_of u !! i) as [n|] eqn:I; [|done]. cbn in K. injection K as K.
    pose proof (rv_entry _ _ _ _ _ V n es p I K) as I1.
    destruct (IH u1) as (u2 & R2 & M).
    + apply V.
    + by eapply shrinks_tree.
    + by eapply small_shrinks.
    + eexists _, _. rewrite I1. done.
    + done.
    + intros z Z'. destruct (E z) as [cz (es0 & p0 & K0 & EZ)]; [set_solver|]. rewrite I in K0. cbn in K0. injection K0 as K0.
      rewrite K in K0. injection K0 as <- <-. exists cz. eexists _, _. rewrite I1. split; [done|].
      apply lookup_delete_Some. split; [by intros ->|done].
    + exists u2. split.
      * cbn [remove_names]. unfold mbind at 1, st_bind at 1. unfold attempt. rewrite R1. exact R2.
      * split.
        -- apply M.
        -- rewrite (em_open _ _ _ _ M). apply V.
        -- eapply shrinks_trans; [done|apply M].
        -- intros j NJ. rewrite (em_only _ _ _ _ M) by (intros X; apply NJ; by eapply shrinks_reach).
           apply (rv_only _ _ _ _ _ V). intros [->|X]; apply NJ; [apply rtc_refl|].
           eapply rtc_l; [|exact X]. exists y, es, p. rewrite I. cbn. by rewrite K.
        -- intros n' es' p' I' K'. assert (n' = n) as -> by congruence. rewrite K in K'. injection K' as <- <-.
           pose proof (em_entries _ _ _ _ M _ _ _ I1 eq_refl) as I2. rewrite I2. cbn. rewrite without_delete. by destruct n.
Qed.

(** *** Reading a directory *)

Definition counted (k : Z) (u : ufs) : ufs := set_sys (mkSys (s_fs (u_sys u)) (s_events (u_sys u)) (s_open (u_sys u) + k)) u.
Lemma open_directory d x i u :
  quiet u → entry (store_of u) d x i → plain x → directory (store_of u) i → openFdAt d x u = (Ok i, counted 1 u).
Proof.
  intros Q E P (es & p & K). unfold openFdAt. rewrite quiet_ignoring by done. unfold sys_openat, calls, opening.
  assert (C : system_call (open_path false d x (Z.lor O_RDONLY (Z.lor O_CLOEXEC (Z.lor O_NOFOLLOW O_DIRECTORY))) 0) (u_sys u)
              = (Ok i, u_sys u)); [|by rewrite C].
  unfold system_call, before_call. unfold quiet in Q. rewrite Q. fold (store_of u). unfold open_path.
  change (follows _) with false. rewrite (resolve_entry _ _ _ _ _ E P). unfold open_existing.
  destruct (store_of u !! i) as [n|] eqn:I; [|done]. cbn in K. injection K as K. unfold is_directory. rewrite K. cbn.
  by destruct u as [[]].
Qed.

Lemma keys_entries (es : gmap string Z) l :
  (∀ x, x ∈ l → is_Some (es !! x)) → map fst (omap (λ x, (λ i, (x, i)) <$> es !! x) l) = l.
Proof.
  induction l as [|x l IH]; intros A; [done|]. cbn. destruct (A x) as [i E]; [set_solver|]. rewrite E. cbn.
  f_equal. apply IH. set_solver.
Qed.
Lemma order_spec (es : gmap string Z) : NoDup (dir_order es) ∧ ∀ x, x ∈ dir_order es ↔ is_Some (es !! x).
Proof.
  split.
  - rewrite all_entries. apply NoDup_fst_map_to_list.
  - intros x. rewrite all_entries, list_elem_of_fmap. split.
    + intros ([y i] & -> & Y). apply elem_of_map_to_list in Y. eauto.
    + intros [i E]. exists (x, i). split; [done|]. by apply elem_of_map_to_list.
Qed.
Lemma read_batch i n u es p :
  quiet u → i_kind <$> store_of u !! i = Some (IDir es p) →
  ∃ l, calls (sys_getdents i [] (Some n)) u = (Ok l, u) ∧ map fst l = take n (dir_order es).
Proof.
  intros Q K. unfold sys_getdents. rewrite rest_read by done. unfold dir_of. rewrite K. cbn [mbind result_bind].
  eexists. split; [reflexivity|]. rewrite keys_entries.
  - f_equal. induction (dir_order es) as [|x l IH]; [done|]. rewrite filter_cons_True by set_solver. by rewrite IH.
  - intros x X. apply list.elem_of_take in X as (k & X & _). apply list_elem_of_lookup_2, list_elem_of_filter in X as [_ X].
    by apply order_spec.
Qed.

Lemma without_lookup names (es : gmap string Z) x : without names es !! x = if decide (x ∈ names) then None else es !! x.
Proof.
  induction names as [|y names IH]; [done|]. change (without (y :: names) es) with (delete y (without names es)).
  destruct (decide (y = x)) as [->|N].
  - by rewrite lookup_delete_eq, decide_True by set_solver.
  - rewrite lookup_delete_ne, IH by done. apply decide_ext. set_solver.
Qed.
Lemma without_all (es : gmap string Z) : without (dir_order es) es = ∅.
Proof.
  apply map_empty. intros x. rewrite without_lookup. case_decide as D; [done|]. rewrite (proj2 (order_spec es)) in D.
  by apply eq_None_not_Some.
Qed.
Lemma without_less names (es : gmap string Z) y : y ∈ names → is_Some (es !! y) → (size (without names es) < size es)%nat.
Proof.
  intros N I. apply map_subset_size, strict_spec_alt. split.
  - apply map_subseteq_spec. intros x i. rewrite without_lookup. by case_decide.
  - intros E. destruct I as [i I]. rewrite <-E, without_lookup, decide_True in I by done. done.
Qed.

Lemma counted_quiet k u : quiet (counted k u) ↔ quiet u.
Proof. done. Qed.
Lemma emptied_trans i f g u1 u2 u3 :
  emptied i f u1 u2 → emptied i g u2 u3 → emptied i (λ es, g (f es)) u1 u3.
Proof.
  intros E1 E2. split.
  - apply E2.
  - rewrite (em_open _ _ _ _ E2). apply E1.
  - eapply shrinks_trans; [apply E1|apply E2].
  - intros j N. rewrite (em_only _ _ _ _ E2) by (intros X; apply N; eapply shrinks_reach; [apply E1|done]). by apply E1.
  - intros n es p I K. pose proof (em_entries _ _ _ _ E1 n es p I K) as I2.
    rewrite (em_entries _ _ _ _ E2 _ _ _ I2 eq_refl). cbn. by destruct n.
Qed.

(** One turn of the outer loop removes a batch. *)
Lemma contents_turn t remove d x i u es p :
  removes remove i → quiet u → tree rank (store_of u) → small (store_of u) → entry (store_of u) d x i → plain x →
  i_kind <$> store_of u !! i = Some (IDir es p) →
  ∃ u', emptied i (without (take reqSize (dir_order es))) u u'
    ∧ remove_contents (S t) remove d x None u
      = if decide (length (dir_order es) < reqSize)%nat then (Ok tt, u') else remove_contents t remove d x None u'.
Proof.
  intros R Q T S E P K. assert (D : directory (store_of u) i) by (by exists es, p).
  cbn [remove_contents]. rewrite (open_directory d x i u Q E P D). unfold deferred at 1.
  destruct (read_batch i reqSize (counted 1 u) es p Q K) as (l & G & L).
  destruct (remove_names_all remove i x (take reqSize (dir_order es)) 0 (counted 1 u)) as (u1 & RN & M); [done|done|done|done|done| | |].
  { apply (sublist_NoDup _ (dir_order es)); [apply order_spec|apply sublist_take]. }
  { intros y Y. destruct (proj1 (proj2 (order_spec es) y)) as [c C].
    - apply list.elem_of_take in Y as (k & Y & _). by apply list_elem_of_lookup_2 in Y.
    - exists c, es, p. by split. }
  cbn [remove_batches]. rewrite G, L, RN. rewrite decide_False by done. rewrite length_take.
  exists (set_sys (closed 1 (u_sys u1)) u1). split.
  - split; [apply M| |apply M..]. pose proof (em_open _ _ _ _ M) as O. unfold opened in *. cbn in *. lia.
  - destruct (decide (length (dir_order es) < reqSize)%nat) as [L'|L'].
    + rewrite decide_True by lia. done.
    + rewrite decide_False by lia. done.
Qed.
Lemma contents_removed remove d x i : ∀ t u es p,
  removes remove i → quiet u → tree rank (store_of u) → small (store_of u) → entry (store_of u) d x i → plain x →
  i_kind <$> store_of u !! i = Some (IDir es p) → (size es < t)%nat →
  ∃ u', remove_contents t remove d x None u = (Ok tt, u') ∧ emptied i (λ _, ∅) u u'.
Proof.
  induction t as [|t IH]; intros u es p R Q T S E P K L; [lia|].
  destruct (contents_turn t remove d x i u es p R Q T S E P K) as (u1 & M & ->).
  destruct (store_of u !! i) as [n|] eqn:I; [|done]. cbn in K. injection K as K.
  pose proof (em_entries _ _ _ _ M n es p I K) as I1.
  case_decide as C.
  - exists u1. split; [done|]. rewrite firstn_all2 in M by lia. split; [apply M..|]. intros n' es' p' I' K'.
    assert (n' = n) as -> by congruence. rewrite K in K'. injection K' as <- <-.
    rewrite (em_entries _ _ _ _ M n es p I K). by rewrite without_all.
  - assert (NR : ¬ reach (store_of u) i d).
    { eapply parent_apart; [done|done|]. exists es, p. rewrite I. cbn. by rewrite K. }
    destruct (IH u1 (without (take reqSize (dir_order es)) es) p) as (u2 & -> & M2); [done|apply M| | | |done| | |].
    + eapply shrinks_tree; [done|apply M].
    + eapply small_shrinks; [done|apply M].
    + destruct E as (eo & po & KO & EO). exists eo, po. by rewrite (em_only _ _ _ _ M).
    + by rewrite I1.
    + destruct (take reqSize (dir_order es)) as [|y l] eqn:TK.
      { apply (f_equal length) in TK. rewrite length_take in TK. change (length []) with 0%nat in TK. assert (0 < reqSize)%nat by (unfold reqSize; lia). lia. }
      assert (Y : y ∈ dir_order es).
      { assert (y ∈ take reqSize (dir_order es)) as Y by (rewrite TK; set_solver).
        apply list.elem_of_take in Y as (k & Y & _). by apply list_elem_of_lookup_2 in Y. }
      pose proof (without_less (y :: l) es y ltac:(set_solver) (proj1 (proj2 (order_spec es) y) Y)). lia.
    + exists u2. split; [done|]. exact (emptied_trans i _ _ u u1 u2 M M2).
Qed.

(** *** One name *)

Lemma is_directory_spec store i n : store !! i = Some n → is_directory n = true ↔ directory store i.
Proof.
  intros I. unfold is_directory, directory. rewrite I. cbn. split.
  - destruct (i_kind n); [done| |done..]. eauto.
  - intros (es & p & K). by injection K as ->.
Qed.
Lemma drop_removed u d x i n n' disk :
  quiet u → entry (store_of u) d x i → d ≠ i → store_of u !! i = Some n → i_kind n' = i_kind n ∨ i_kind n' = IGone →
  removed d x i u (set_disk disk (set_store (dropped d x i n' (store_of u)) u)).
Proof.
  intros Q E N I K. split; [done|done|by eapply dropped_shrinks| |].
  - intros j NJ. apply dropped_only. intros [->| ->]; apply NJ; [by left|right; apply rtc_refl].
  - intros m es p D KM. by apply dropped_dir.
Qed.
Lemma unlink_file u d x i n :
  entry (store_of u) d x i → plain x → store_of u !! i = Some n →
  unlink_entry d x (store_of u)
  = if is_directory n then Err EISDIR else Ok (tt, dropped d x i (add_nlink (-1) n) (store_of u)).
Proof.
  intros E P I. destruct (entry_dir_of _ _ _ _ E) as (es & p & D & X & _). unfold unlink_entry. rewrite D.
  cbn [mbind result_bind]. by rewrite plain_normal, X, I by done.
Qed.
Lemma rmdir_empty u d x i n p :
  entry (store_of u) d x i → plain x → store_of u !! i = Some n → i_kind n = IDir ∅ p →
  rmdir_entry d x (store_of u) = Ok (tt, dropped d x i (set_kind IGone n) (store_of u)).
Proof.
  intros E P I K. destruct (entry_dir_of _ _ _ _ E) as (es & q & D & X & _). unfold rmdir_entry. rewrite D.
  cbn [mbind result_bind]. pose proof P as (_ & P1 & P2 & _). by rewrite !decide_False, X, I, K, decide_True by done.
Qed.

Lemma removed_after d x i u u1 u2 :
  ¬ reach (store_of u) i d → emptied i (λ _, ∅) u u1 → removed d x i u1 u2 → removed d x i u u2.
Proof.
  intros NR M V. split.
  - apply V.
  - rewrite (rv_open _ _ _ _ _ V). apply M.
  - eapply shrinks_trans; [apply M|apply V].
  - intros j NJ. rewrite (rv_only _ _ _ _ _ V).
    + apply M. intros X. apply NJ. by right.
    + intros [->|X]; apply NJ; [by left|]. right. eapply shrinks_reach; [apply M|done].
  - intros n es p D K. apply V; [|done]. by rewrite (em_only _ _ _ _ M).
Qed.
Lemma set_disk_removed d x i u u' disk : removed d x i (set_disk disk u) u' → removed d x i u u'.
Proof. by intros []. Qed.

Lemma removeAllFrom_removes depth u d x i :
  quiet u → tree rank (store_of u) → small (store_of u) → entry (store_of u) d x i →
  (directory (store_of u) i → (rank i < depth)%nat) →
  ∃ u', removeAllFrom r depth turns d x u = (Ok tt, u') ∧ removed d x i u u'.
Proof.
  revert u d x i. induction depth as [|depth IH]; intros u d x i Q T S E L.
  all: pose proof (tr_plain rank _ T d x i E) as P; destruct (tr_exists rank _ T d x i E) as [n I].
  all: destruct (unlinks u d x false Q P) as [disk U]; rewrite (unlink_file u d x i n E P I) in U.
  all: pose proof (is_directory_spec _ _ _ I) as DI; destruct (is_directory n) eqn:B; cbn [removeAllFrom]; rewrite U.
  1: { apply proj1 in DI. specialize (L (DI eq_refl)). lia. }
  1, 3: eexists; split; [reflexivity|]; apply (drop_removed u d x i n); [done|done| |done|by left];
    intros ->; apply entry_dir, DI in E; done.
  assert (D : directory (store_of u) i) by (by apply DI).
  assert (NR : ¬ reach (store_of u) i d) by (by eapply parent_apart).
  change (errno_missing EISDIR) with false. rewrite bool_decide_true by auto. cbn [negb].
  rewrite quiet_ignoring by done. unfold sys_fstatat. rewrite rest_read by done.
  change (store_of (set_disk disk u)) with (store_of u). unfold stat_path. rewrite (resolve_entry _ _ _ _ _ E P).
  cbn [mbind result_bind]. rewrite I, B. cbn [negb].
  assert (R : removes (removeAllFrom r depth turns) i).
  { intros u1 y c Q1 T1 S1 E1. apply IH; [done..|]. intros DC.
    pose proof (tr_rank rank _ T1 i c (ex_intro _ y E1) DC). specialize (L D). lia. }
  destruct D as (es & p & K).
  destruct (contents_removed (removeAllFrom r depth turns) d x i turns (set_disk disk u) es p) as (u3 & -> & M);
    [done|done|done|done|done|done|done|by eapply S|].
  destruct (unlinks u3 d x true (em_quiet _ _ _ _ M) P) as [disk' U3].
  assert (KN : i_kind n = IDir es p) by (rewrite I in K; by injection K as ->).
  pose proof (em_entries _ _ _ _ M n es p I KN) as I3.
  assert (E3 : entry (store_of u3) d x i).
  { destruct E as (eo & po & KO & EO). exists eo, po. by rewrite (em_only _ _ _ _ M). }
  rewrite (rmdir_empty u3 d x i _ p E3 P I3 eq_refl) in U3. cbn in U3. rewrite U3.
  eexists. split; [reflexivity|]. apply (set_disk_removed d x i u _ disk). apply (removed_after d x i (set_disk disk u) u3 _ NR M).
  eapply (drop_removed u3 d x i); [apply M|done| |exact I3|by right].
  intros ->. apply NR, rtc_refl.
Qed.
End Removal.

(** ** From the path to the entry *)

Section Paths.
Context `{Process}.
Variables (fs : UnixFS) (outside : Z → Prop) (base : Z) (ws : list string).
Hypothesis base_path : basePath fs = abs ws.
Hypothesis base_names : ws ≠ [] ∧ Forall plain ws.
Hypothesis openat2 : useOpenat2 fs = true.

Lemma counted_counted j k u : counted j (counted k u) = counted (k + j) u.
Proof. unfold counted, set_sys. cbn. by rewrite Z.add_assoc. Qed.
Lemma counted_closed j k u : set_sys (closed j (u_sys (counted k u))) (counted k u) = counted (k - j) u.
Proof. unfold counted, closed, set_sys. cbn. by rewrite Z.add_sub_assoc. Qed.
Lemma counted_0 u : counted 0 u = u.
Proof. destruct u as [[]]. unfold counted, set_sys. cbn. by rewrite Z.add_0_r. Qed.

(** Opening an inode that is resolved and neither created nor truncated. *)
Lemma quiet_open beneath start path flags mode i n u :
  quiet u → has flags O_CREATE = false → has flags O_TRUNC = false → has flags O_WRONLY = false → has flags O_RDWR = false →
  resolve (store_of u) beneath (follows flags) start path = Ok i → store_of u !! i = Some n → is_directory n = true →
  calls (sys_openat beneath start path flags mode) u = (Ok i, counted 1 u).
Proof.
  intros Q C T W RW R I D. unfold sys_openat, calls, opening.
  assert (E : system_call (open_path beneath start path flags mode) (u_sys u) = (Ok i, u_sys u)); [|by rewrite E].
  unfold system_call, before_call. unfold quiet in Q. rewrite Q. fold (store_of u). unfold open_path, open_existing.
  rewrite R, I, C, D, T, W, RW. cbn. rewrite andb_false_r. unfold is_directory in D. destruct (i_kind n) eqn:K; try done.
  rewrite andb_false_r. by destruct u as [[]].
Qed.
Lemma quiet_base u : quiet u → sandbox outside base ws (store_of u) → open_base fs u = (Ok base, counted 1 u).
Proof.
  intros Q S. unfold open_base, on, _openat.
  destruct (sb_dir _ _ _ _ S) as (es & p & K). destruct (store_of u !! base) as [n|] eqn:B; [|done]. cbn in K. injection K as K.
  rewrite (quiet_open false root_ino (basePath fs) _ 0 base n u Q); try done; [|unfold is_directory; by rewrite K].
  destruct base_names as [N P]. unfold resolve. rewrite base_path, decide_False by done.
  change (IsAbs (abs ws)) with (is_rooted (String slash (Join slash ws))). rewrite is_rooted_cons.
  unfold abs. rewrite (Split_app EmptyString : ∀ b, Split slash (String slash b) = _), Split_Join by (done || by apply plain_no_sep).
  generalize max_follow. intros budget. cbn [Split app]. rewrite namei_step.
  destruct (leads_dir outside base _ _ _ N (sb_leads _ _ _ _ S)) as (es' & p' & ->). cbn [mbind result_bind].
  rewrite decide_True by auto. change (follows _) with true. apply (leads_base outside base ws); try done; apply S.
Qed.

(** Names that lead to a directory without links. *)
Lemma namei_descends store top budget follow d names i :
  Forall plain names → descends store d names = Some i → directory store i → namei store top budget follow d names = Ok i.
Proof.
  intros P. revert d. induction P as [|w names (N1 & N2 & N3 & _) P IH]; intros d E D; cbn in E.
  - injection E as ->. by destruct budget.
  - destruct (i_kind <$> store !! d) as [[| es p | | |]|] eqn:K; try done. destruct (es !! w) as [c|] eqn:C; [|done].
    rewrite namei_step. unfold dir_of. rewrite K. cbn [mbind result_bind].
    rewrite decide_False by naive_solver. rewrite decide_False, C by done.
    replace (link_target store c) with (@None string); [by apply IH|]. unfold link_target. cbn in E.
    destruct names as [|w' names]; cbn in E.
    + injection E as ->. destruct D as (es' & p' & ->). done.
    + by destruct (i_kind <$> store !! c) as [[]|].
Qed.
Lemma quiet_type fd name u n :
  quiet u → store_of u !! fd = Some n → is_directory n = true → checkOpenedType fd name u = (Ok tt, u).
Proof.
  intros Q I D. unfold checkOpenedType, mbind, st_bind, on, sys_fstat, sys_fcntl. rewrite !rest_read by done. rewrite I.
  rewrite D, orb_true_r. by rewrite rest_read.
Qed.
Lemma quiet_openat dirfd name flag i u :
  quiet u → flag = Z.lor O_DIRECTORY O_RDONLY ∨ flag = O_RDONLY →
  resolve (store_of u) true false dirfd name = Ok i → directory (store_of u) i →
  openat fs dirfd name flag 0 u = (Ok i, counted 1 u).
Proof.
  intros Q F R (es & p & K). destruct (store_of u !! i) as [n|] eqn:I; [|done]. cbn in K. injection K as K.
  assert (D : is_directory n = true) by (unfold is_directory; by rewrite K).
  unfold openat. replace (flag <? 0) with false by (by destruct F as [-> | ->]). unfold openatResolved.
  replace (negb (has (set_flag flag O_NOFOLLOW) O_PATH)) with true by (by destruct F as [-> | ->]).
  unfold mbind, st_bind, on. rewrite openat2, quiet_ignoring by done. unfold _openat2.
  rewrite (quiet_open true dirfd name _ _ i n u Q); [|by destruct F as [-> | ->]..| |done|done].
  - unfold closing_on_error. by rewrite (quiet_type i name (counted 1 u) n).
  - replace (follows _) with false by (by destruct F as [-> | ->]). done.
Qed.

Lemma relative_Split rest : rest ≠ [] → Forall plain rest →
  relative rest ≠ EmptyString ∧ IsAbs (relative rest) = false ∧ Split slash (relative rest) = rest.
Proof.
  intros N P. unfold relative. rewrite decide_False by done. rewrite Split_Join by (done || by apply plain_no_sep).
  destruct rest as [|[|c w] rest]; [done| |].
  - by apply list.Forall_cons in P as [(? & _) _].
  - apply list.Forall_cons in P as [(_ & _ & _ & S) _]. unfold no_sep in S. cbn in S. apply orb_false_iff in S as [C _].
    assert (X : ∃ r, Join slash (String c w :: rest) = String c r) by (destruct rest; cbn; eauto). destruct X as [s ->].
    split; [done|]. split; [|done]. unfold IsAbs, is_rooted, HasPrefix. cbn. case_match; [|done]. subst c. done.
Qed.
Lemma relative_parts vs x : Forall plain vs → plain x →
  path_Split (relative (vs ++ [x])) = ((if decide (vs = []) then EmptyString else Join slash vs +:+ String slash EmptyString), x).
Proof.
  intros V (X1 & X2 & X3 & X). unfold relative. rewrite decide_False by (by destruct vs). unfold path_Split. case_decide as D.
  - subst vs. cbn. by rewrite (proj1 (slash_word x X)), (proj2 (slash_word x X)).
  - rewrite Join_app by done. cbn. by rewrite upto_slash_app, after_slash_app.
Qed.
Lemma trim_slash_dir s : trim_slash (s +:+ String slash EmptyString) = s.
Proof. unfold trim_slash. rewrite str_rev_app. change (str_rev (String slash EmptyString) +:+ str_rev s) with (String slash (str_rev s)). cbn. apply str_rev_involutive. Qed.

(** The name a path is resolved to is resolved to itself. *)
Lemma abs_relative rest : rest ≠ [] → abs (ws ++ rest) = abs ws +:+ String slash (relative rest).
Proof. intros N. unfold abs, relative. rewrite decide_False by done. rewrite Join_app by apply base_names || done. done. Qed.
Lemma Clean_relative rest : Forall plain rest → Clean (abs ws +:+ String slash (relative rest)) = abs (ws ++ rest).
Proof.
  intros P. destruct base_names as [N W]. destruct (decide (rest = [])) as [->|NR].
  - rewrite app_nil_r. assert (SP : Split slash (abs ws +:+ String slash (relative [])) = EmptyString :: ws ++ ["."%string]).
    { rewrite Split_app. unfold abs. rewrite (Split_app EmptyString : ∀ b, Split slash (String slash b) = _).
      by rewrite Split_Join by (done || by apply plain_no_sep). }
    rewrite Clean_no_parent.
    + unfold abs at 1. change (String slash (Join slash ws) +:+ ?t) with (String slash (Join slash ws +:+ t)).
      rewrite is_rooted_cons, SP. cbn [filter]. f_equal. rewrite filter_cons_False by (by intros []).
      rewrite filter_app, (filter_plain ws) by done. cbn. apply app_nil_r.
    + rewrite SP. intros [?|[I|[?|I]%elem_of_cons]%elem_of_app]%elem_of_cons; try done; [|by apply elem_of_nil in I].
      rewrite list.Forall_forall in W. apply W in I. by destruct I as (_ & _ & ? & _).
  - rewrite <-abs_relative by done. apply Clean_abs. by apply Forall_app.
Qed.
Lemma unsafePath_relative rest : Forall plain rest → unsafePath fs (relative rest) = Ok (relative rest).
Proof.
  intros P. destruct base_names as [N W]. unfold unsafePath. rewrite base_path.
  assert (T : trim_prefix (relative rest) (abs ws) = relative rest).
  { unfold trim_prefix, abs. destruct (decide (rest = [])) as [->|NR]; [done|]. destruct (relative_Split rest NR P) as (NE & A & _).
    destruct (relative rest) as [|c s]; [done|]. cbn. rewrite decide_False; [done|]. intros <-. by rewrite is_rooted_cons in A. }
  assert (NE : relative rest ≠ EmptyString).
  { destruct (decide (rest = [])) as [->|NR]; [done|]. by apply relative_Split. }
  rewrite T. unfold path_Join. rewrite !bool_decide_false by done. rewrite Clean_relative by done.
  rewrite Clean_abs by (by apply Forall_app).
  assert (I : unsafeIsPathInsideOfBase fs (abs (ws ++ rest)) = true).
  { unfold unsafeIsPathInsideOfBase. rewrite trim_slash_abs, base_path by (by apply Forall_app || by destruct ws).
    destruct (decide (rest = [])) as [->|NR]; [rewrite app_nil_r, <-(app_str_nil (abs ws +:+ "/")) at 1; apply HasPrefix_app|].
    rewrite abs_relative by done. change (String slash (relative rest)) with ("/" +:+ relative rest)%string.
    rewrite <-app_str_assoc, app_str_assoc. apply HasPrefix_app. }
  rewrite I. destruct (decide (rest = [])) as [->|NR].
  - rewrite app_nil_r. unfold trim_prefix. pose proof (cut_prefix_app (abs ws) EmptyString) as C. rewrite app_str_nil in C. by rewrite C.
  - rewrite abs_relative by done. unfold trim_prefix. rewrite cut_prefix_app. cbn. by rewrite bool_decide_false.
Qed.

(** The parent is opened. *)
Lemma quiet_safePath path vs x d u :
  quiet u → sandbox outside base ws (store_of u) → Forall plain vs → plain x →
  unsafePath fs path = Ok (relative (vs ++ [x])) → descends (store_of u) base vs = Some d → directory (store_of u) d →
  ∃ k, safePath fs path u = ((k, Ok (d, x)), counted k u).
Proof.
  intros Q S V X N E D. unfold safePath. rewrite N, quiet_base, relative_parts by done. case_decide as Z1; case_decide as Z2.
  - subst vs. cbn in E. injection E as <-. by exists 1.
  - exfalso. by destruct (Join slash vs).
  - by destruct Z1.
  - rewrite trim_slash_dir. destruct (relative_Split vs Z2 V) as (NE & A & SP).
    replace (Join slash vs) with (relative vs) by (unfold relative; by rewrite decide_False).
    rewrite (quiet_openat base (relative vs) _ d (counted 1 u)); [|done|by left| |done].
    + rewrite counted_counted. by exists 2.
    + unfold resolve. rewrite decide_False, A, SP by done. by apply namei_descends.
Qed.
(** So is the directory itself. *)
Lemma quiet_Open vs d u :
  quiet u → sandbox outside base ws (store_of u) → Forall plain vs → descends (store_of u) base vs = Some d → directory (store_of u) d →
  Open fs (relative vs) u = (Ok d, counted 1 u).
Proof.
  intros Q S V E D. pose proof (unsafePath_relative vs V) as UP. unfold Open, OpenFile, with_path. destruct (decide (vs = [])) as [->|NV].
  - cbn in E. injection E as <-. unfold safePath. change (relative []) with "."%string in *. rewrite UP, quiet_base by done.
    change (path_Split ".") with (EmptyString, "."%string).
    cbn [decide]. rewrite (decide_True (P := EmptyString = EmptyString)) by done. unfold deferred.
    rewrite (quiet_openat base "." O_RDONLY base (counted 1 u)); [|done|by right| |done].
    + rewrite counted_counted, counted_closed. done.
    + destruct D as (es & p & K). unfold resolve. rewrite decide_False by done.
      change (Split slash ".") with ["."%string]. change (IsAbs ".") with false. cbn [andb].
      rewrite namei_step. unfold dir_of. change (store_of (counted 1 u)) with (store_of u). rewrite K. cbn [mbind result_bind].
      rewrite decide_True by auto. generalize max_follow. by intros [].
  - destruct (exists_last NV) as (us & w & ->). apply Forall_app in V as [VU W].
    apply list.Forall_cons in W as [W _]. rewrite descends_app in E. destruct (descends (store_of u) base us) as [e|] eqn:EU; [|done].
    cbn in E. destruct (i_kind <$> store_of u !! e) as [[| es p | | |]|] eqn:K; try done.
    destruct (es !! w) as [c|] eqn:C; [|done]. cbn in E. injection E as ->.
    destruct (quiet_safePath (relative (us ++ [w])) us w e u) as [k ->]; [done..| |]; [by exists es, p|].
    unfold deferred. rewrite (quiet_openat e w O_RDONLY d (counted k u)); [|done|by right| |done].
    + rewrite counted_counted, counted_closed. do 2 f_equal. lia.
    + apply resolve_entry; [|done]. by exists es, p.
Qed.

(** ** Deleting a path *)

Lemma plain_names_snoc vs x : Forall plain vs → plain x → Forall plain (vs ++ [x]).
Proof. intros V X. apply Forall_app. split; [done|]. by apply list.Forall_singleton. Qed.
Lemma HasSuffix_inv s suf : HasSuffix s suf = true → ∃ t, s = t +:+ suf.
Proof.
  intros E. apply HasPrefix_inv in E as [t E]. exists (str_rev t). apply (f_equal str_rev) in E.
  by rewrite str_rev_involutive, str_rev_app, str_rev_involutive in E.
Qed.
Lemma contains_slash a b : contains_byte slash (a +:+ String slash b) = true.
Proof.
  induction a as [|c a IH]; [done|]. change (Ascii.eqb c slash || contains_byte slash (a +:+ String slash b) = true).
  by rewrite IH, orb_true_r.
Qed.
Lemma relative_splitPath vs x : Forall plain vs → plain x → splitPath (relative (vs ++ [x])) = (relative vs, x).
Proof.
  intros V X. pose proof X as (_ & _ & _ & W). unfold splitPath. rewrite strip_relative by by apply plain_names_snoc.
  unfold relative. rewrite (decide_False (P := vs ++ [x] = [])) by (by destruct vs). case_decide as D.
  - subst vs. cbn. unfold no_sep in W. by rewrite W.
  - rewrite Join_app by done. cbn [Join].
    assert (C : contains_byte slash (Join slash vs +:+ String slash x) = true)
      by apply contains_slash.
    rewrite C, upto_slash_app, after_slash_app by done.
    destruct (relative_Split vs D V) as (NE & A & _). unfold relative in *. rewrite decide_False in NE, A by done.
    rewrite !bool_decide_false, trim_slash_dir; [done| |].
    + destruct (Join slash vs) as [|c s]; [done|]. intros E. injection E as -> E. by destruct s.
    + destruct (Join slash vs) as [|c s]; [done|]. intros E. injection E as -> E. by destruct s.
Qed.
Lemma relative_no_dot vs x : Forall plain vs → plain x → endsWithDot (relative (vs ++ [x])) = false ∧ relative (vs ++ [x]) ≠ "."%string.
Proof.
  intros V X. assert (N : relative (vs ++ [x]) ≠ "."%string).
  { pose proof (relative_parts vs x V X) as E. intros R. rewrite R in E. injection E as _ E. subst x. by destruct X as (_ & ? & _). }
  split; [|done]. unfold endsWithDot. rewrite bool_decide_false by done. cbn.
  apply not_true_is_false. intros HS. apply HasSuffix_inv in HS as [t E].
  pose proof (relative_parts vs x V X) as PE. rewrite E in PE. unfold path_Split in PE.
  change "/."%string with (String slash ".") in PE. rewrite after_slash_app in PE by done. injection PE as _ <-.
  by destruct X as (_ & ? & _).
Qed.

Lemma quiet_unlinkat u d x b : quiet u → plain x →
  unlinkat d x b u
  = match (if b then rmdir_entry else unlink_entry) d x (store_of u) with
    | Ok (_, store') => (Ok tt, set_store store' u)
    | Err e => (Err e, u)
    end.
Proof.
  intros Q P. unfold unlinkat, sys_unlinkat. rewrite quiet_ignoring, quiet_call by done.
  rewrite resolve_parent_word by (by right).
  destruct (dir_of (store_of u) d) as [[es p]|e] eqn:D; cbn [mbind result_bind].
  - by destruct b; match goal with |- context [match ?m with Ok _ => _ | Err _ => _ end] => destruct m as [[[] ?]|] end.
  - destruct b; unfold rmdir_entry, unlink_entry; by rewrite D.
Qed.
Lemma quota_unlinks u d x b : quiet u → plain x → ∃ disk,
  rm_unlinkat (quota_remover fs) d x b u
  = match (if b then rmdir_entry else unlink_entry) d x (store_of u) with
    | Ok (_, store') => (Ok tt, set_disk disk (set_store store' u))
    | Err e => (Err e, set_disk disk u)
    end.
Proof.
  intros Q P. cbn [rm_unlinkat quota_remover]. unfold quota_unlinkat.
  assert (L : ∃ disk, (if b then u else match Lstatat d x u with
      | (Ok s, u1) => quota_add (- freedBy (file_info s)) u1 | (Err _, u1) => u1 end) = set_disk disk u).
  { destruct b; [exists (u_disk u); by destruct u|]. unfold Lstatat, _fstatat, mbind, st_bind, on, sys_fstatat.
    rewrite quiet_ignoring, rest_read by done. destruct (stat_path false d x (store_of u)) as [[i n]|e]; [eexists; reflexivity|].
    exists (u_disk u). by destruct u. }
  destruct L as [disk ->]. exists disk. rewrite quiet_unlinkat by done. change (store_of (set_disk disk u)) with (store_of u).
  by destruct ((if b then rmdir_entry else unlink_entry) d x (store_of u)) as [[[] store']|e].
Qed.

(** The attempt to remove the entry at once: a file and an empty directory are gone, a
    directory that has entries is refused and nothing changes. *)
Lemma quiet_Remove vs x d i n u :
  quiet u → sandbox outside base ws (store_of u) → Forall plain vs → plain x →
  descends (store_of u) base vs = Some d → entry (store_of u) d x i → store_of u !! i = Some n → d ≠ i →
  ∃ u', (quota_Remove fs (relative (vs ++ [x])) u = (Ok tt, u') ∧ removed d x i u u')
        ∨ (quota_Remove fs (relative (vs ++ [x])) u = (Err (PathError x (Errno ENOTEMPTY)), u) ∧ directory (store_of u) i).
Proof.
  intros Q S V X D E I N. pose proof (entry_dir _ _ _ _ E) as DD.
  destruct (quiet_safePath (relative (vs ++ [x])) vs x d u) as [k SP]; try done; [by apply unsafePath_relative, plain_names_snoc|].
  assert (L : Lstatat d x (counted k u) = (Ok (mkStat (basename x) i n), counted k u)).
  { unfold Lstatat, _fstatat, mbind, st_bind, on, sys_fstatat. rewrite quiet_ignoring, rest_read by done. unfold stat_path.
    change (store_of (counted k u)) with (store_of u). rewrite (resolve_entry _ _ _ _ _ E X). cbn [mbind result_bind]. by rewrite I. }
  assert (C : ∀ v, set_sys (closed k (u_sys (counted k v))) (counted k v) = v) by (intros v; by rewrite counted_closed, Z.sub_diag, counted_0).
  assert (R : ∀ r, unlinkat d x (is_directory n) (counted k u) = r →
    quota_Remove fs (relative (vs ++ [x])) u
    = match r with
      | (Ok _, u1) => freed (mkStat (basename x) i n) (set_sys (closed k (u_sys u1)) u1)
      | (Err e, u1) => (Err (ensurePathError (bare e) x), set_sys (closed k (u_sys u1)) u1)
      end).
  { intros r UE. unfold quota_Remove, RemoveStat, with_path, mbind, st_bind. rewrite SP. unfold deferred. rewrite L. unfold on, IsDir.
    cbn [fst_node]. rewrite UE. by destruct r as [[[]|e] u1]. }
  rewrite quiet_unlinkat in R by done. change (store_of (counted k u)) with (store_of u) in R.
  rewrite (R _ eq_refl). clear R. destruct (is_directory n) eqn:B.
  - destruct (i_kind n) as [c|es p| | |] eqn:K; try (unfold is_directory in B; by rewrite K in B).
    destruct (decide (es = ∅)) as [->|NE].
    + rewrite (rmdir_empty u d x i n p E X I K). eexists. left. split; [reflexivity|].
      change (set_store ?s (counted k u)) with (counted k (set_store s u)). rewrite C. cbn.
      apply drop_removed with (n := n); try done. by right.
    + exists u. right. destruct (entry_dir_of _ _ _ _ E) as (es0 & p0 & D0 & X0 & _). unfold rmdir_entry. rewrite D0.
      cbn [mbind result_bind]. pose proof X as (_ & X1 & X2 & _). rewrite !decide_False, X0, I, K, decide_False by done.
      rewrite C. split; [done|]. exists es, p. by rewrite I, <-K.
  - rewrite (unlink_file u d x i n E X I), B. eexists. left. split; [reflexivity|].
    change (set_store ?s (counted k u)) with (counted k (set_store s u)). rewrite C. cbn.
    apply drop_removed with (n := n); try done. by left.
Qed.

Lemma quiet_missing vs x d u es p :
  quiet u → sandbox outside base ws (store_of u) → Forall plain vs → plain x →
  descends (store_of u) base vs = Some d → i_kind <$> store_of u !! d = Some (IDir es p) → es !! x = None →
  quota_Remove fs (relative (vs ++ [x])) u = (Err (PathError x ErrNotExist), u).
Proof.
  intros Q S V X D K N.
  destruct (quiet_safePath (relative (vs ++ [x])) vs x d u) as [k SP]; try done; [by apply unsafePath_relative, plain_names_snoc|by exists es, p|].
  assert (L : Lstatat d x (counted k u) = (Err (PathError x ErrNotExist), counted k u)).
  { unfold Lstatat, _fstatat, mbind, st_bind, on, sys_fstatat. rewrite quiet_ignoring, rest_read by done. unfold stat_path, resolve.
    change (store_of (counted k u)) with (store_of u). destruct (simple_word x (or_intror X)) as (A & W & NE).
    rewrite decide_False, A, W by done. rewrite namei_step. unfold dir_of. rewrite K. cbn [mbind result_bind].
    destruct X as (X1 & X2 & X3 & _). rewrite decide_False by naive_solver. by rewrite decide_False, N by done. }
  unfold quota_Remove, RemoveStat, with_path, mbind, st_bind. rewrite SP. unfold deferred. rewrite L.
  by rewrite counted_closed, Z.sub_diag, counted_0.
Qed.

Variables (rank : Z → nat) (turns : nat).
Hypothesis all_entries : ∀ es : gmap string Z, dir_order es ≡ₚ (map_to_list es).*1.

(** Deleting a path that names nothing in a directory that exists is no error and
    changes nothing. *)
Theorem RemoveAll_missing path vs x d es p depth u :
  quiet u → sandbox outside base ws (store_of u) → Forall plain (vs ++ [x]) →
  unsafePath fs path = Ok (relative (vs ++ [x])) →
  descends (store_of u) base vs = Some d → i_kind <$> store_of u !! d = Some (IDir es p) → es !! x = None →
  quota_RemoveAll fs depth turns path u = (Ok tt, u).
Proof.
  intros Q S [V X]%Forall_app N D K M. apply list.Forall_cons in X as [X _]. destruct (relative_no_dot vs x V X) as [ND1 ND2].
  unfold quota_RemoveAll. unfold mbind at 1, st_bind at 1. rewrite N. cbn [st_lift]. rewrite decide_False by done.
  unfold removeAll. rewrite decide_False, ND1 by (apply relative_Split; [by destruct vs|by apply plain_names_snoc]).
  cbn [rm_Remove quota_remover]. by rewrite (quiet_missing vs x d u es p).
Qed.
End Paths.
