(* ===== verification/UfsExample.v ===== *)
(** * A server's directory, concretely

    A small file system with a server's base directory at /srv, a file outside, and links
    out of the base: the hypotheses of the theorems on [UnixFS] hold there.  What its
    operations do with a link as the last name, with the special mode bits and with the
    usage of a file that cannot be unlinked is evaluated here too. *)

From stdpp Require Import base gmap sets list strings numbers.
From Stdlib Require Import Ascii.
From S2P Require Import Prelude GoStrings Paths PathsFacts Disk Inodes Ufs UfsFacts UfsRemove.
Open Scope Z_scope.

(** ** Deciding the hypotheses *)

#[export] Instance plain_dec w : Decision (plain w).
Proof. unfold plain, no_sep. apply _. Defined.

Definition node_inside (outs : list Z) (base i : Z) (n : inode) : bool :=
  match i_kind n with
  | IDir es p =>
      forallb (λ e, bool_decide (plain (fst e)) && bool_decide (snd e ∉ outs) && bool_decide (snd e ≠ base)) (map_to_list es)
      && (bool_decide (i = base) || bool_decide (p ∉ outs))
  | _ => true
  end.
Lemma decide_inside outs base store :
  forallb (λ e, bool_decide (fst e ∈ outs) || node_inside outs base (fst e) (snd e)) (map_to_list store) = true →
  ∀ d k, d ∉ outs → i_kind <$> store !! d = Some k → dir_inside (λ i, i ∈ outs) base d k.
Proof.
  rewrite forallb_forall. intros F d k O K. destruct (store !! d) as [n|] eqn:D; [|done]. cbn in K. injection K as <-.
  specialize (F (d, n)). cbn in F. rewrite bool_decide_false in F by done. cbn in F.
  specialize (F ltac:(by apply list_elem_of_In, elem_of_map_to_list)). intros es p E. unfold node_inside in F. rewrite E in F.
  apply andb_prop in F as [F P]. rewrite forallb_forall in F. split.
  - intros x i X. specialize (F (x, i) ltac:(by apply list_elem_of_In, elem_of_map_to_list)). cbn in F.
    apply andb_prop in F as [[F1 F2]%andb_prop F3]. by apply bool_decide_eq_true in F1, F2, F3.
  - intros N. rewrite bool_decide_false in P by done. by apply bool_decide_eq_true in P.
Qed.

(** Every entry of a store, and when they form a tree. *)
Definition entries (store : fsys) : list (Z * string * Z) :=
  flat_map (λ e, match i_kind (snd e) with
                 | IDir es _ => map (λ x, (fst e, fst x, snd x)) (map_to_list es)
                 | _ => []
                 end) (map_to_list store).
Lemma entry_entries store d x i : entry store d x i → (d, x, i) ∈ entries store.
Proof.
  intros (es & p & K & X). destruct (store !! d) as [n|] eqn:D; [|done]. cbn in K. injection K as K.
  apply list_elem_of_In, in_flat_map. exists (d, n). split; [by apply list_elem_of_In, elem_of_map_to_list|]. cbn. rewrite K.
  apply in_map_iff. exists (x, i). split; [done|]. by apply list_elem_of_In, elem_of_map_to_list.
Qed.
Definition is_dir_at (store : fsys) (i : Z) : bool := match store !! i with Some n => is_directory n | None => false end.
Lemma directory_at store i : directory store i → is_dir_at store i = true.
Proof.
  intros (es & p & K). unfold is_dir_at. destruct (store !! i) as [n|]; [|done]. cbn in K. injection K as K.
  unfold is_directory. by rewrite K.
Qed.
Definition tree_at (rank : Z → nat) (store : fsys) : bool :=
  forallb (λ '(d, x, i), bool_decide (is_Some (store !! i)) && bool_decide (plain x)
             && (negb (is_dir_at store i)
                 || bool_decide (rank i < rank d)%nat
                    && forallb (λ '(d', x', i'), negb (bool_decide (i = i')) || bool_decide (d = d' ∧ x = x')) (entries store)))
    (entries store).
Lemma decide_tree rank store : tree_at rank store = true → tree rank store.
Proof.
  unfold tree_at. rewrite forallb_forall. intros F.
  assert (G : ∀ d x i, entry store d x i → is_Some (store !! i) ∧ plain x
    ∧ (directory store i → (rank i < rank d)%nat ∧ ∀ d' x', entry store d' x' i → d = d' ∧ x = x')).
  { intros d x i E. specialize (F (d, x, i) ltac:(by apply list_elem_of_In, entry_entries)). cbn in F.
    apply andb_prop in F as [[F1 F2]%andb_prop F3]. apply bool_decide_eq_true in F1, F2. split; [done|]. split; [done|].
    intros D. rewrite (directory_at _ _ D) in F3. cbn in F3. apply andb_prop in F3 as [F3 F4]. apply bool_decide_eq_true in F3.
    split; [done|]. intros d' x' E'. rewrite forallb_forall in F4.
    specialize (F4 (d', x', i) ltac:(by apply list_elem_of_In, entry_entries)). cbn in F4. rewrite bool_decide_true in F4 by done.
    by apply bool_decide_eq_true in F4. }
  split.
  - intros d x i E. by apply (G d x i).
  - intros d x i E. by apply (G d x i).
  - intros d1 x1 d2 x2 i D E1 E2. by apply (G d1 x1 i E1).
  - intros d i [x E] D. by apply (G d x i E).
Qed.
Definition small_at (turns : nat) (store : fsys) : bool :=
  forallb (λ e, match i_kind (snd e) with IDir es _ => bool_decide (size es < turns)%nat | _ => true end) (map_to_list store).
Lemma decide_small turns store : small_at turns store = true → small turns store.
Proof.
  unfold small_at. rewrite forallb_forall. intros F d es p K. destruct (store !! d) as [n|] eqn:D; [|done].
  cbn in K. injection K as K. specialize (F (d, n) ltac:(by apply list_elem_of_In, elem_of_map_to_list)). cbn in F. rewrite K in F.
  by apply bool_decide_eq_true in F.
Qed.

(** ** The store *)

Definition w_candidates : list (list string) :=
  [["srv"]; ["srv"; "a"]; ["srv"; "a"; "x"]; ["srv"; "a"; "y"]; ["srv"; "a"; "y copy"]; ["etc"]; ["etc"; "passwd"]; ["srv"; "f"]]%string.
Definition w_descriptor (store : fsys) (fd : Z) : evaluated :=
  match list_find (λ vs, descends store root_ino vs = Some fd) w_candidates with
  | Some (_, vs) => Evaluated (abs vs)
  | None => EvalFailed EIO
  end.
#[local] Instance w_process : Process := {|
  umask := 18; process_uid := 988; process_gid := 988; fchmodat2 := true;
  descriptor_path := w_descriptor; dir_order es := map fst (map_to_list es) |}.
Definition w_dir (es : list (string * Z)) (p : Z) : inode := mkInode (IDir (list_to_map es) p) 493 0 0 2 (0, 0).
Definition w_file (c : string) : inode := mkInode (IReg c) 420 0 0 1 (0, 0).
Definition w_link (t : string) : inode := mkInode (ILink t) 511 0 0 1 (0, 0).
(** /etc/passwd is 8; the base, 3, has a tree below a, a file f, and the links esc and up. *)
Definition w_store : fsys := list_to_map
  [(2, w_dir [("srv", 3); ("etc", 4)]%string 2); (4, w_dir [("passwd", 8)]%string 2); (8, w_file "root");
   (3, w_dir [("a", 5); ("esc", 6); ("f", 7); ("up", 9)]%string 2); (6, w_link "/etc"); (7, w_file "hello");
   (9, w_link "../etc/passwd"); (5, w_dir [("x", 10); ("y", 11)]%string 3); (10, w_dir [("z", 12)]%string 5);
   (11, w_file "y"); (12, w_file "z")].
Definition w_outside (i : Z) : Prop := i ∈ [2; 4; 8].
Definition w_ws : list string := ["srv"%string].
Definition w_ufs (events : list event) : ufs := mkUfs (mkSys w_store events 0) (mkFs (mkQuota 0 100) 50 false 0 0 false 0).
Definition w_unix (openat2 : bool) : UnixFS := NewUnixFS "/srv/" openat2.
(** While the daemon works, the server puts a link to /etc where the directory a was, and
    a system call is interrupted. *)
Definition w_events : list event :=
  [mkEvent (λ s, s) None; mkEvent (set_entry 3 "a" 6) None; mkEvent (λ s, s) (Some EINTR); mkEvent (set_entry 3 "a" 5) None].

Lemma w_names : w_ws ≠ [] ∧ Forall plain w_ws.
Proof. split; [done|]. constructor; [|constructor]. by apply (bool_decide_unpack _). Qed.
Lemma w_descriptor_named store fd p :
  w_descriptor store fd = Evaluated p → ∃ vs, p = abs vs ∧ Forall plain vs ∧ descends store root_ino vs = Some fd.
Proof.
  unfold w_descriptor. destruct (list_find _ w_candidates) as [[k vs]|] eqn:F; [|done]. intros E. injection E as <-.
  apply list_find_Some in F as (I & D & _). exists vs. split; [done|]. split; [|done].
  apply list_elem_of_lookup_2 in I. assert (A : Forall (Forall plain) w_candidates) by (apply (bool_decide_unpack _); by vm_compute).
  rewrite list.Forall_forall in A. by apply A.
Qed.
Lemma w_sandbox : sandbox w_outside 3 w_ws w_store.
Proof.
  split.
  - unfold w_outside. by apply (bool_decide_unpack _).
  - by do 2 eexists.
  - apply decide_inside. by vm_compute.
  - intros i O. unfold w_outside in O. rewrite !elem_of_cons, elem_of_nil in O. destruct O as [->|[->|[->|[]]]]; by eexists.
  - split; [unfold w_outside; by apply (bool_decide_unpack _)|]. do 3 eexists. split; [reflexivity|]. split; [reflexivity|done].
Qed.
Lemma w_good : good w_outside 3 w_ws (w_ufs w_events).
Proof.
  split; [exact w_sandbox|]. cbn.
  assert (L : ∀ i, ¬ w_outside i → i ≠ 3 → legal w_outside 3 w_ws (mkEvent (set_entry 3 "a" i) None)).
  { intros i O N s S. cbn. apply inner_set_entry; [done|apply S|by apply (bool_decide_unpack _)|done..]. }
  assert (I : ∀ f, legal w_outside 3 w_ws (mkEvent (λ s, s) f)) by (intros f s S; by apply inner_refl).
  constructor; [apply I|]. constructor; [|constructor; [apply I|]; constructor; [|constructor]].
  all: apply L; [unfold w_outside; by apply (bool_decide_unpack _)|done].
Qed.

(** ** Deletion *)

Definition w_rank (i : Z) : nat :=
  if i =? 2 then 4 else if i =? 3 then 3 else if i =? 5 then 2 else if (i =? 10) || (i =? 4) then 1 else 0.
Lemma w_tree : tree w_rank w_store.
Proof. apply decide_tree. by vm_compute. Qed.
Lemma w_small : small 9 w_store.
Proof. apply decide_small. by vm_compute. Qed.
Lemma w_order (es : gmap string Z) : dir_order es ≡ₚ (map_to_list es).*1.
Proof. done. Qed.

Lemma RemoveAll_missing_witness : quota_RemoveAll (w_unix true) 3 9 "a/../a/gone" (w_ufs []) = (Ok tt, w_ufs []).
Proof.
  eapply (RemoveAll_missing (w_unix true) w_outside 3 w_ws eq_refl w_names eq_refl 9 "a/../a/gone" ["a"%string] "gone" 5).
  - reflexivity.
  - exact w_sandbox.
  - apply (bool_decide_unpack _). vm_compute. done.
  - vm_compute. reflexivity.
  - reflexivity.
  - reflexivity.
  - vm_compute. reflexivity.
Defined.

(** ** What the operations do besides *)

Definition node_after {A} (i : Z) (r : result uerr A * ufs) : bool * option inode :=
  (match fst r with Ok _ => true | Err _ => false end, store_of (snd r) !! i).
(** [Chown] follows a link that is the last name of the path: the owner of /etc/passwd is
    changed from inside. *)
Lemma Chown_escapes : node_after 8 (Chown (w_unix true) "up" 7 7 (w_ufs [])) = (true, Some (set_owner 7 7 (w_file "root"))).
Proof. vm_compute. reflexivity. Qed.
(** [Chmod] does not change the mode of what a link names. *)
Lemma Chmod_refuses_links : node_after 8 (Chmod (w_unix true) "up" 511 (w_ufs [])) = (false, Some (w_file "root"))
  ∧ node_after 9 (Chmod (w_unix true) "up" 511 (w_ufs [])) = (false, Some (w_link "../etc/passwd")).
Proof. vm_compute. split; reflexivity. Qed.
(** The set-user-id bit of a mode is dropped. *)
Lemma Chmod_drops_setuid :
  node_after 7 (Chmod (w_unix true) "f" (Z.lor ModeSetuid 493) (w_ufs [])) = (true, Some (set_mode 493 (w_file "hello"))).
Proof. vm_compute. reflexivity. Qed.
(** The usage of a file is given back although the system refuses to unlink it. *)
Lemma unlinkat_frees_before :
  let '(r, u) := quota_unlinkat 3 "f" false (w_ufs [mkEvent (λ s, s) None; mkEvent (λ s, s) (Some EPERM)]) in
  r = Err EPERM ∧ store_of u = w_store ∧ q_usage (fs_quota (u_disk (w_ufs []))) = 100 ∧ q_usage (fs_quota (u_disk u)) = 95.
Proof. vm_compute. auto. Qed.
