(* ===== verification/Files.v ===== *)
(** * A server's files (server/filesystem: filesystem.go, stat.go)

    [Filesystem] is what the daemon's handlers use: it works on paths below the server's
    base directory through [UnixFS] and accounts for what it writes.  Every operation is
    composed here of the operations of [UnixFS] and [Quota] and of the system calls on the
    descriptors they return.

    An open file is its inode; an error of a call on an open file has no path.  A reader is
    the pieces it returns, each of which is written by one call, and the error it ends
    with, if any. *)

From stdpp Require Import base gmap sets list strings numbers sorting.
From Stdlib Require Import Ascii.
From S2P Require Import Prelude GoStrings Paths Disk Inodes Ufs.
Open Scope Z_scope.

Inductive ferr := FileErr (e : uerr) | DiskErr (e : fserr).
Abbreviation F := (st ufs ferr).

(** ** Effects *)

Definition file {A} (m : U A) : F A := λ u,
  match m u with (Ok a, u') => (Ok a, u') | (Err e, u') => (Err (FileErr e), u') end.
Definition tried {A} (m : F A) : F (result ferr A) := λ u, let '(r, u') := m u in (Ok r, u').
Definition disk (f : Filesystem → Filesystem) : F unit := λ u, (Ok tt, set_disk (f (u_disk u)) u).
Definition is_missing (e : ferr) : bool := match e with FileErr e => is_not_exist e | DiskErr _ => false end.
Definition is_present (e : ferr) : bool := match e with FileErr e => is_exist e | DiskErr _ => false end.

(** [fs.reserveDisk]. *)
Definition reserve (size : Z) : F unit := λ u,
  match reserveDisk size (u_disk u) with
  | (Ok _, d) => (Ok tt, set_disk d u)
  | (Err e, d) => (Err (DiskErr e), set_disk d u)
  end.
(** A reservation that is released when the body ends: the body returns how much of it was
    used, with its outcome. *)
Definition releasing {A} (reserved : Z) (body : ufs → (Z * result ferr A) * ufs) : F A := λ u,
  let '((used, r), u') := body u in (r, set_disk (releaseDisk reserved used (u_disk u')) u').

(** ** Open files *)

Section OpenFiles.
Context `{Process}.

Definition file_Stat (fd : Z) : U inode := on (ignoringEINTR (calls (sys_fstat fd))) bare.
Definition file_Truncate (fd : Z) : U unit := on (ignoringEINTR (calls (sys_ftruncate fd))) bare.
Definition file_Write (fd : Z) (off : nat) (data : string) : U unit :=
  on (ignoringEINTR (calls (sys_pwrite fd off data))) bare.
Definition file_Read (fd : Z) (off n : nat) : U string := on (ignoringEINTR (calls (sys_pread fd off n))) bare.
(** A file that is closed when [m] fails. *)
Definition or_close {A} (m : U A) : U A := λ u,
  match m u with
  | (Ok a, u') => (Ok a, u')
  | (Err e, u') => (Err e, set_sys (closed 1 (u_sys u')) u')
  end.

(** The mode bits of Go for those of an inode. *)
Definition file_mode (n : inode) : Z :=
  Z.lor (Z.land (i_mode n) 511)
    (Z.lor (if has (i_mode n) 2048 then ModeSetuid else 0)
       (Z.lor (if has (i_mode n) 1024 then ModeSetgid else 0) (if has (i_mode n) 512 then ModeSticky else 0))).

(** *** [io.Copy], [io.LimitReader] *)

Record reader := mkReader { rd_pieces : list string; rd_error : option uerr }.
Fixpoint limit_pieces (n : Z) (pieces : list string) (e : option uerr) : reader :=
  if n <=? 0 then mkReader [] None
  else match pieces with
       | [] => mkReader [] e
       | p :: l =>
           if strlen p <? n then let r := limit_pieces (n - strlen p) l e in mkReader (p :: rd_pieces r) (rd_error r)
           else mkReader [String.substring 0 (Z.to_nat n) p] None
       end.
Definition LimitReader (r : reader) (n : Z) : reader := limit_pieces n (rd_pieces r) (rd_error r).

(** The number of bytes written from [off] on, and the first error. *)
Fixpoint copy_pieces (write : nat → string → U unit) (off : nat) (pieces : list string) (e : option uerr) (n : Z)
    : ufs → (Z * result uerr unit) * ufs := λ u,
  match pieces with
  | [] => ((n, match e with None => Ok tt | Some e => Err e end), u)
  | p :: l =>
      match write off p u with
      | (Ok _, u') => copy_pieces write (off + String.length p) l e (n + strlen p) u'
      | (Err e', u') => ((n, Err e'), u')
      end
  end.
Definition Copy_reader (fd : Z) (r : reader) : ufs → (Z * result uerr unit) * ufs :=
  copy_pieces (file_Write fd) 0 (rd_pieces r) (rd_error r) 0.

(** [io.Copy] from one open file to another, at most [limit] bytes: every turn copies at
    least one byte, so that one turn more than [limit] is enough. *)
Definition copy_buffer : Z := 32768.
Fixpoint copy_file (turns : nat) (src dst off limit : Z) : ufs → (Z * result uerr unit) * ufs := λ u,
  match turns with
  | O => ((off, Err (mkUErr None OutOfFuel)), u)
  | S turns' =>
      if limit <=? off then ((off, Ok tt), u)
      else match file_Read src (Z.to_nat off) (Z.to_nat (Z.min copy_buffer (limit - off))) u with
           | (Err e, u1) => ((off, Err e), u1)
           | (Ok data, u1) =>
               if decide (data = EmptyString) then ((off, Ok tt), u1)
               else match file_Write dst (Z.to_nat off) data u1 with
                    | (Err e, u2) => ((off, Err e), u2)
                    | (Ok _, u2) => copy_file turns' src dst (off + strlen data) limit u2
                    end
           end
  end.

(** *** [quotaFile] *)

(** [Write] at the offset [off]: the offset is read, the growth is reserved, the bytes are
    written, and what was not used is released. *)
Definition quota_write (fd : Z) (data : string) (off : nat) (f : quotaFile) : ufs → (result ferr unit * quotaFile) * ufs :=
  λ u,
  if decide (data = EmptyString) then
    match file (file_Write fd off data) u with (r, u') => ((r, f), u') end
  else match file (on (calls sys_lseek) bare) u with
  | (Err e, u1) => ((Err e, f), u1)
  | (Ok _, u1) =>
      match writeAtLocked (strlen data) (Z.of_nat off) (0, Ok tt) f (u_disk u1) with
      | (_, Err e, f', d) => ((Err (DiskErr e), f'), set_disk d u1)
      | (_, Ok _, _, _) =>
          let '(r, u2) := file (file_Write fd off data) u1 in
          let n := match r with Ok _ => strlen data | Err _ => 0 end in
          let '(_, _, f', d) := writeAtLocked (strlen data) (Z.of_nat off) (n, Ok tt) f (u_disk u1) in
          ((r, f'), set_disk d u2)
      end
  end.
Fixpoint quota_copy (fd : Z) (off : nat) (pieces : list string) (e : option uerr) (f : quotaFile) (n : Z)
    : ufs → (Z * result ferr unit * quotaFile) * ufs := λ u,
  match pieces with
  | [] => ((n, match e with None => Ok tt | Some e => Err (FileErr e) end, f), u)
  | p :: l =>
      match quota_write fd p off f u with
      | ((Ok _, f'), u') => quota_copy fd (off + String.length p) l e f' (n + strlen p) u'
      | ((Err e', f'), u') => ((n, Err e', f'), u')
      end
  end.
Definition quota_Close (fd : Z) (f : quotaFile) : F unit := λ u,
  match file (file_Stat fd) u with
  | (Ok n, u1) =>
      let u2 := set_sys (closed 1 (u_sys u1)) u1 in
      (Ok tt, set_disk (snd (adjustDisk (wrap64 (stat_size n - qf_size f)) (u_disk u2))) u2)
  | (Err e, u1) => (Err e, set_sys (closed 1 (u_sys u1)) u1)
  end.
End OpenFiles.

(** The library that finds the type of a file's content: what it says of the first bytes,
    and what it returns besides an error. *)
Class Mimetype := { mime_detect : string → string; mime_failed : option string }.
Definition mime_limit : nat := 3072.

(** [strings.TrimSuffix]. *)
Definition trim_suffix (s suffix : string) : string :=
  if HasSuffix s suffix then String.substring 0 (String.length s - String.length suffix) s else s.

(** [New]: creating the root directory may fail; nothing is counted yet. *)
Definition New (created : result ferr unit) (root : string) (openat2 : bool) (size diskCheckInterval : Z)
    : result ferr (UnixFS * Filesystem) :=
  _ ← created;
  Ok (NewUnixFS root openat2, mkFs (NewQuota size) 0 false 0 0 false diskCheckInterval).

(** ** The operations *)

Section Files.
Context `{Process}.
Variables (fs : UnixFS) (isTest : bool) (uid gid : Z).

(** *** Opening *)

Definition openForWrite (p : string) (flag mode : Z) : F (Z * Z) :=
  fd ← file (Ufs.Touch fs p (Z.land flag (Z.lnot O_TRUNC)) mode);
  file (or_close
    (st ← file_Stat fd;
     _ ← (if has flag O_TRUNC then file_Truncate fd else mret tt);
     mret (fd, if is_regular_file st then stat_size st else 0))).
Definition Touch (p : string) (flag : Z) : F (Z * quotaFile) :=
  '(fd, currentSize) ← openForWrite p flag 420;
  mret (fd, mkQuotaFile currentSize).

Definition checkNotDirectory (p : string) : F unit := λ u,
  match Ufs.Lstat fs p u with
  | (Ok st, u') => (if IsDir st then Err (DiskErr Disk.ErrIsDirectory) else Ok tt, u')
  | (Err _, u') => (Ok tt, u')
  end.

(** *** Owners and directories *)

Definition chownFile (name : string) : F unit :=
  if isTest then mret tt else file (Ufs.Lchown fs name uid gid).
Fixpoint chown_all (dirs : list string) : F unit :=
  match dirs with [] => mret tt | d :: l => _ ← chownFile d; chown_all l end.
Definition mkdirAll (p : string) (mode : Z) : F unit :=
  created ← file (Ufs.MkdirAll fs p mode);
  chown_all created.
Definition CreateDirectory (name p : string) : F unit := mkdirAll (path_Join p name) 493.

(** [depth] bounds the nesting of directories. *)
Definition Chown (depth : nat) (p : string) : F unit :=
  if isTest then mret tt
  else file (with_path fs p (λ dirfd name,
    _ ← Lchownat dirfd name uid gid;
    st ← attempt (Lstatat dirfd name);
    match st with
    | Err _ => mret tt
    | Ok st =>
        if negb (IsDir st) then mret tt
        else WalkDirat fs depth dirfd name (λ d x _ _ err,
          match err with Some e => st_err e | None => Lchownat d x uid gid end)
    end)).

(** *** Writing *)

Definition Writefile (p : string) (r : reader) : F unit :=
  _ ← checkNotDirectory p;
  '(fd, currentSize) ← openForWrite p (Z.lor O_RDWR O_TRUNC) 420;
  deferred (λ u,
    let '((n, err), u1) := Copy_reader fd r u in
    let u2 := quota_add (wrap64 (n - currentSize)) u1 in
    match chownFile p u2 with
    | (Err e, u3) => (Err e, u3)
    | (Ok _, u3) => (match err with Ok _ => Ok tt | Err e => Err (FileErr e) end, u3)
    end) 1.

Definition write_body (p : string) (r : reader) (newSize fd currentSize : Z) : ufs → (Z * result ferr unit) * ufs := λ u,
  match file (file_Truncate fd) u with
  | (Err e, u1) => ((0, Err e), u1)
  | (Ok _, u1) =>
      let '((n, err), u2) := if 0 <? newSize then Copy_reader fd (LimitReader r newSize) u1 else ((0, Ok tt), u1) in
      let used := wrap64 (n - currentSize) in
      match chownFile p u2 with
      | (Err e, u3) => ((used, Err e), u3)
      | (Ok _, u3) => ((used, match err with Ok _ => Ok tt | Err e => Err (FileErr e) end), u3)
      end
  end.
Definition Write (p : string) (r : reader) (newSize mode : Z) : F unit :=
  _ ← checkNotDirectory p;
  _ ← mkdirAll (path_Dir p) 493;
  st ← tried (file (Ufs.Lstat fs p));
  let existed := match st with Ok _ => true | Err _ => false end in
  '(fd, currentSize) ← openForWrite p O_RDWR mode;
  deferred (λ u,
    match reserve (wrap64 (newSize - currentSize)) u with
    | (Err e, u1) => (Err e, if existed then u1 else snd (quota_Remove fs p u1))
    | (Ok _, u1) => releasing (Z.max (wrap64 (newSize - currentSize)) 0) (write_body p r newSize fd currentSize) u1
    end) 1.

Definition write_from_body (p : string) (r : reader) (fd : Z) (f : quotaFile) : F Z := λ u,
  let '((n, copied, f'), u1) := quota_copy fd 0 (rd_pieces r) (rd_error r) f 0 u in
  let '(closed_, u2) := quota_Close fd f' u1 in
  match (match copied with Ok _ => closed_ | Err e => Err e end) with
  | Err e => (Err e, snd (quota_Remove fs p u2))
  | Ok _ =>
      match chownFile p u2 with
      | (Err e, u3) => (Err e, snd (quota_Remove fs p u3))
      | (Ok _, u3) => (Ok n, u3)
      end
  end.
Definition WriteFrom (p : string) (r : reader) : F Z :=
  _ ← checkNotDirectory p;
  _ ← mkdirAll (path_Dir p) 493;
  '(fd, f) ← Touch p (Z.lor O_RDWR O_TRUNC);
  write_from_body p r fd f.

(** *** Copying *)

(** [now] is the time, printed.  Attempts [i] to 50 are left. *)
Fixpoint find_suffix (left : nat) (i : Z) (dirfd : Z) (name extension now : string) : F string :=
  let suffix := if 0 <? i then " copy " +:+ FormatInt i else " copy"%string in
  st ← tried (file (Lstatat dirfd (name +:+ suffix +:+ extension)));
  match st with
  | Err e => if is_missing e then mret (name +:+ suffix +:+ extension) else st_err e
  | Ok _ =>
      match left with
      | O => mret (name +:+ ("copy." +:+ now) +:+ extension)
      | S left' => find_suffix left' (i + 1) dirfd name extension now
      end
  end.
Definition findCopySuffix (dirfd : Z) (name extension now : string) : F string :=
  find_suffix 50 0 dirfd name extension now.

Definition split_name (base : string) : string * string :=
  let extension := Ext base in
  let baseName := trim_suffix base extension in
  if HasSuffix baseName ".tar" then (trim_suffix baseName ".tar", ".tar" +:+ extension) else (baseName, extension).

(** A name that is taken meanwhile is given up for another, ten times. *)
Fixpoint create_copy (left : nat) (dirfd : Z) (name extension now : string) (mode : Z) : F (string * Z) :=
  r ← tried (newName ← findCopySuffix dirfd name extension now;
             dst ← file (OpenFileat fs dirfd newName (Z.lor O_WRONLY (Z.lor O_CREATE O_EXCL)) mode);
             mret (newName, dst));
  match r with
  | Ok x => mret x
  | Err e =>
      if negb (is_present e) then st_err e
      else match left with O => st_err e | S left' => create_copy left' dirfd name extension now mode end
  end.
Definition copy_body (dirfd : Z) (name : string) (now : string) (source : Z) (info : inode)
    : ufs → (Z * result ferr unit) * ufs := λ u,
  let '(baseName, extension) := split_name (path_Base name) in
  match create_copy 10 dirfd baseName extension now (file_mode info) u with
  | (Err e, u1) => ((0, Err e), u1)
  | (Ok (newName, dst), u1) =>
      let '((n, err), u2) := copy_file (S (Z.to_nat (stat_size info))) source dst 0 (stat_size info) u1 in
      let '(owned, u3) := (if isTest then mret tt else file (Lchownat dirfd newName uid gid)) u2 in
      let u4 := set_sys (closed 1 (u_sys u3)) u3 in
      match owned with
      | Err e => ((n, Err e), u4)
      | Ok _ => ((n, match err with Ok _ => Ok tt | Err e => Err (FileErr e) end), u4)
      end
  end.
Definition with_file_path {A} (path : string) (body : Z → string → F A) : F A := λ u,
  let '((n, r), u1) := safePath fs path u in
  match r with
  | Err e => (Err (FileErr e), set_sys (closed n (u_sys u1)) u1)
  | Ok (dirfd, name) => deferred (body dirfd name) n u1
  end.
Definition Copy (p now : string) : F unit :=
  with_file_path p (λ dirfd name,
    source ← file (OpenFileat fs dirfd name O_RDONLY 0);
    deferred
      (info ← file (file_Stat source);
       if negb (is_regular_file info) then st_err (FileErr (mkUErr None ErrNotExist))
       else
         _ ← reserve (stat_size info);
         releasing (stat_size info) (copy_body dirfd name now source info)) 1).

(** *** Deleting *)

Definition TruncateRootDirectory (depth turns : nat) : F unit :=
  _ ← file (RemoveContents fs depth turns ".");
  _ ← disk (λ d, set_quota (snd (SetUsage (fs_reserved d) (fs_quota d))) d);
  if isTest then disk (λ d, set_quota (snd (SetLimit 0 (fs_quota d))) d) else mret tt.
Definition Delete (depth turns : nat) (p : string) : F unit := file (quota_RemoveAll fs depth turns p).

(** *** The operations that are [UnixFS]'s *)

Definition Rename (oldpath newpath : string) : F unit := file (Ufs.Rename fs oldpath newpath).
Definition Symlink (oldpath newpath : string) : F unit := file (Ufs.Symlink fs oldpath newpath).
Definition Chmod (path : string) (mode : Z) : F unit := file (Ufs.Chmod fs path mode).
Definition Chtimes (path : string) (atime mtime : option Z) : F unit :=
  if isTest then mret tt else file (Ufs.Chtimes fs path atime mtime).
Definition ReadDir (path : string) : F (list dirent) := file (Ufs.ReadDir fs path).

(** *** Reading *)

Context `{Mimetype}.

Record Stat := mkFileStat { sta_info : fileStat; sta_mimetype : string }.
Definition sta_name (s : Stat) : string := fst_name (sta_info s).
Definition sta_IsDir (s : Stat) : bool := IsDir (sta_info s).

Definition statFromFile (name : string) (fd : Z) : F Stat :=
  n ← file (file_Stat fd);
  if is_directory n then mret (mkFileStat (mkStat name fd n) "inode/directory")
  else
    data ← file (file_Read fd 0 mime_limit);
    _ ← file (on (calls sys_lseek) bare);
    mret (mkFileStat (mkStat name fd n) (mime_detect data)).
Definition stat_or_close (p : string) (fd : Z) : F (Z * Stat) := λ u,
  match statFromFile (path_Base p) fd u with
  | (Ok st, u') => (Ok (fd, st), u')
  | (Err e, u') => (Err e, set_sys (closed 1 (u_sys u')) u')
  end.
Definition File (p : string) : F (Z * Stat) :=
  fd ← file (Ufs.Open fs p);
  stat_or_close p fd.
Definition file_stat (p : string) : F Stat :=
  fd ← file (Ufs.Open fs p);
  deferred (statFromFile (path_Base p) fd) 1.
Definition ReadDirStat (path : string) : F (list fileStat) := file (ReadDirMap fs path de_Info).

(** The type of one entry; a content that cannot be read is no error. *)
Definition entry_stat (e : dirent) : U Stat :=
  info ← de_Info e;
  let d := if de_IsDir e then "inode/directory"%string else "application/octet-stream"%string in
  if de_isRegular e then
    fd ← de_Open fs e;
    data ← deferred (attempt (file_Read fd 0 mime_limit)) 1;
    mret (mkFileStat info (default d (match data with Ok c => Some (mime_detect c) | Err _ => mime_failed end)))
  else mret (mkFileStat info d).

(** [slices.SortStableFunc]: only whether the comparison is negative counts. *)
Fixpoint insert_stable {A} (cmp : A → A → Z) (x : A) (l : list A) : list A :=
  match l with
  | [] => [x]
  | y :: l' => if cmp y x <? 0 then y :: insert_stable cmp x l' else x :: y :: l'
  end.
Definition SortStableFunc {A} (cmp : A → A → Z) (l : list A) : list A := foldr (insert_stable cmp) [] l.
Definition by_name (a b : Stat) : Z :=
  if decide (sta_name a = sta_name b) then 0 else if str_leb (sta_name b) (sta_name a) then 1 else -1.
Definition folders_first (a b : Stat) : Z :=
  if sta_IsDir a && sta_IsDir b then 0 else if sta_IsDir a then -1 else 1.
Definition ListDirectory (p : string) : F (list Stat) :=
  out ← file (ReadDirMap fs p entry_stat);
  mret (SortStableFunc folders_first (SortStableFunc by_name out)).
End Files.
