(* ===== verification/FilesFacts.v ===== *)
(** * What a server's files promise

    The operations of [Filesystem] stay inside the server's base directory, like those of
    [UnixFS] that they are composed of; a write leaves the file with the content given and
    accounts for exactly that; a listing has the directories first, each part by name. *)

From stdpp Require Import base gmap sets list strings numbers sorting.
From Stdlib Require Import Ascii.
From S2P Require Import Prelude GoStrings Paths PathsFacts Disk Inodes Ufs UfsFacts UfsRemove Files.
Open Scope Z_scope.

(** ** Names of copies *)

Lemma no_sep_app a b : no_sep (a +:+ b) ↔ no_sep a ∧ no_sep b.
Proof.
  unfold no_sep. induction a as [|c a IH]; [naive_solver|].
  change (Ascii.eqb c slash || contains_byte slash (a +:+ b) = false ↔ Ascii.eqb c slash || contains_byte slash a = false ∧ contains_byte slash b = false).
  rewrite !orb_false_iff. naive_solver.
Qed.
Lemma no_sep_substring n m s : no_sep s → no_sep (String.substring n m s).
Proof.
  unfold no_sep. revert n m. induction s as [|c s IH]; intros [|n] [|m]; cbn [String.substring]; try done.
  all: cbn; rewrite !orb_false_iff; intros [C S]; try split; auto. all: by apply IH.
Qed.
Lemma no_sep_rev s : no_sep s → no_sep (str_rev s).
Proof.
  induction s as [|c s IH]; [done|]. intros N. rewrite str_rev_cons. apply no_sep_app.
  apply (no_sep_app (String c EmptyString)) in N as [N1 N2]. auto.
Qed.
Lemma no_sep_ext r acc : no_sep acc → no_sep r → no_sep (ext_rev r acc).
Proof.
  revert acc. induction r as [|c r IH]; intros acc A R; [done|]. cbn. apply (no_sep_app (String c EmptyString)) in R as [C R].
  assert (X : no_sep (String c acc)) by (by apply (no_sep_app (String c EmptyString))).
  destruct (Ascii.eqb c slash); [done|]. destruct (Ascii.eqb c dot); [done|]. by apply IH.
Qed.
Lemma no_sep_format n : no_sep (FormatInt n).
Proof.
  assert (D : ∀ fuel m acc, 0 ≤ m → no_sep acc → no_sep (format_digits fuel m acc)).
  { induction fuel as [|fuel IH]; intros m acc M A; [done|]. cbn.
    assert (C : no_sep (String (ascii_of_N (Z.to_N (48 + m mod 10))) acc)).
    { apply (no_sep_app (String _ EmptyString)). split; [|done]. pose proof (Z.mod_pos_bound m 10 ltac:(lia)) as B.
      assert (E : m mod 10 ∈ [0; 1; 2; 3; 4; 5; 6; 7; 8; 9]) by (rewrite !elem_of_cons, elem_of_nil; lia).
      rewrite !elem_of_cons, elem_of_nil in E. repeat destruct E as [E|E]; try rewrite E; done. }
    destruct (m <? 10); [done|]. apply IH; [|done]. apply Z.div_pos; lia. }
  unfold FormatInt. destruct (n <? 0) eqn:N; [|apply D; [lia|done]].
  apply (no_sep_app (String _ EmptyString)). split; [done|]. apply D; [lia|done].
Qed.
Lemma trim_suffix_sep s suf : no_sep s → no_sep (trim_suffix s suf).
Proof. intros N. unfold trim_suffix. case_match; [by apply no_sep_substring|done]. Qed.
Lemma split_name_sep base : no_sep base → no_sep (fst (split_name base)) ∧ no_sep (snd (split_name base)).
Proof.
  intros N. assert (E : no_sep (Ext base)) by (apply no_sep_ext; [done|by apply no_sep_rev]).
  unfold split_name. case_match; cbn; split; try apply no_sep_app; auto using trim_suffix_sep. by split.
Qed.
Lemma length_app_str a b : String.length (a +:+ b) = (String.length a + String.length b)%nat.
Proof. induction a as [|c a IH]; [done|]. exact (f_equal S IH). Qed.
(** A name with something of three bytes or more in it, and no slash, is plain. *)
Lemma plain_long a m b : no_sep a → no_sep m → no_sep b → (2 < String.length m)%nat → plain (a +:+ m +:+ b).
Proof.
  intros A M B L. assert (N : (2 < String.length (a +:+ m +:+ b))%nat) by (rewrite !length_app_str; lia).
  split_and!; [intros E; rewrite E in N; cbn in N; lia..|]. apply no_sep_app. split; [done|]. by apply no_sep_app.
Qed.
Lemma simple_base x : simple x → no_sep (path_Base x).
Proof.
  intros X. assert (S : no_sep x) by (destruct X as [->|(_ & _ & _ & S)]; done).
  assert (NE : x ≠ EmptyString) by (destruct X as [->|(? & _)]; done).
  unfold path_Base. rewrite bool_decide_false by done.
  assert (T : TrimRight slash x = x).
  { apply TrimRight_id. intros s' ->. by apply no_sep_app in S as [_ ?]. }
  rewrite T, (proj2 (slash_word x S)). by rewrite bool_decide_false.
Qed.

(** ** Listings *)

Lemma str_leb_total a b : str_leb a b = true ∨ str_leb b a = true.
Proof.
  revert b. induction a as [|x a IH]; intros [|y b]; cbn; [auto..|].
  destruct (Z.ltb_spec (byteZ x) (byteZ y)); [auto|]. destruct (Z.ltb_spec (byteZ y) (byteZ x)); [auto|].
  rewrite !(proj2 (Z.eqb_eq _ _)) by lia. apply IH.
Qed.
Lemma str_leb_trans a b c : str_leb a b = true → str_leb b c = true → str_leb a c = true.
Proof.
  revert b c. induction a as [|x a IH]; intros [|y b] [|z c]; cbn; try done.
  destruct (Z.ltb_spec (byteZ x) (byteZ y)); cbn.
  - intros _. destruct (Z.ltb_spec (byteZ y) (byteZ z)); cbn.
    + by rewrite (proj2 (Z.ltb_lt (byteZ x) (byteZ z))) by lia.
    + rewrite andb_true_iff. intros [E%Z.eqb_eq _]. by rewrite (proj2 (Z.ltb_lt (byteZ x) (byteZ z))) by lia.
  - rewrite andb_true_iff. intros [E%Z.eqb_eq A]. rewrite E. destruct (Z.ltb_spec (byteZ y) (byteZ z)); cbn; [done|].
    rewrite !andb_true_iff. intros [? B]. split; [done|]. by eapply IH.
Qed.

Section Sorting.
Context {A : Type}.
Lemma insert_stable_perm (cmp : A → A → Z) x l : insert_stable cmp x l ≡ₚ x :: l.
Proof.
  induction l as [|y l IH]; cbn; [done|]. destruct (cmp y x <? 0); [|done]. rewrite IH. apply Permutation_swap.
Qed.
Lemma SortStable_perm (cmp : A → A → Z) l : SortStableFunc cmp l ≡ₚ l.
Proof. induction l as [|x l IH]; cbn; [done|]. rewrite insert_stable_perm. by apply Permutation_cons. Qed.
(** A comparison that answers for a total order sorts by it. *)
Lemma SortStable_sorted (cmp : A → A → Z) (R : A → A → Prop) l :
  (∀ a b, cmp a b < 0 → R a b) → (∀ a b, 0 ≤ cmp a b → R b a) → (∀ a b c, R a b → R b c → R a c) →
  StronglySorted R (SortStableFunc cmp l).
Proof.
  intros L G T. induction l as [|x l IH]; [constructor|]. change (SortStableFunc cmp (x :: l)) with (insert_stable cmp x (SortStableFunc cmp l)).
  induction IH as [|y k K IK F]; cbn; [by repeat constructor|]. destruct (Z.ltb_spec (cmp y x) 0) as [C|C].
  - constructor; [done|]. rewrite insert_stable_perm. constructor; [by apply L|done].
  - apply G in C. constructor; [by constructor|]. constructor; [done|].
    eapply list.Forall_impl; [exact F|]. intros z Z'. by eapply T.
Qed.
(** A comparison by a flag keeps the order of each part. *)
Lemma SortStable_flag (cmp : A → A → Z) (f : A → bool) l :
  (∀ a b, cmp a b < 0 ↔ f a = true ∧ f b = false) →
  SortStableFunc cmp l = filter (λ a, f a = true) l ++ filter (λ a, f a = false) l.
Proof.
  intros C. induction l as [|x l IH]; [done|]. change (SortStableFunc cmp (x :: l)) with (insert_stable cmp x (SortStableFunc cmp l)).
  rewrite IH. rewrite !filter_cons. destruct (f x) eqn:X.
  - rewrite decide_True, decide_False by done. cbn [app].
    assert (H : ∀ k, insert_stable cmp x k = x :: k).
    { intros [|y k]; [done|]. cbn. destruct (Z.ltb_spec (cmp y x) 0) as [L|]; [|done]. apply C in L as [_ L]. congruence. }
    apply H.
  - rewrite decide_False, decide_True by done.
    assert (D : Forall (λ a, f a = true) (filter (λ a, f a = true) l)) by (apply list.Forall_forall; intros a; by rewrite list_elem_of_filter; intros [? _]).
    clear IH. induction D as [|y k Y D ID]; cbn.
    + destruct (filter (λ a, f a = false) l) as [|y k] eqn:E; [done|]. cbn. destruct (Z.ltb_spec (cmp y x) 0) as [L|]; [|done].
      apply C in L as [L _]. assert (Y : y ∈ filter (λ a, f a = false) l) by (rewrite E; set_solver).
      apply list_elem_of_filter in Y as [Y _]. congruence.
    + rewrite (proj2 (Z.ltb_lt (cmp y x) 0)) by (by apply C). by rewrite ID.
Qed.
End Sorting.

(** The order of a listing: directories first, then by name. *)
Definition listed_before (a b : Stat) : Prop :=
  (sta_IsDir a = true ∧ sta_IsDir b = false)
  ∨ (sta_IsDir a = sta_IsDir b ∧ str_leb (sta_name a) (sta_name b) = true).

Lemma sorted_filter {A} (R : A → A → Prop) (P : A → Prop) `{!∀ a, Decision (P a)} l : StronglySorted R l → StronglySorted R (filter P l).
Proof.
  induction 1 as [|x l L IH F]; [constructor|]. rewrite filter_cons. case_decide; [|done]. constructor; [done|].
  apply list.Forall_forall. intros y [_ Y]%list_elem_of_filter. rewrite list.Forall_forall in F. by apply F.
Qed.
Lemma sorted_mono {A} (R R' : A → A → Prop) l : StronglySorted R l → (∀ a b, a ∈ l → b ∈ l → R a b → R' a b) → StronglySorted R' l.
Proof.
  induction 1 as [|x l L IH F]; intros M; [constructor|]. constructor; [apply IH; set_solver|].
  apply list.Forall_forall. intros y Y. rewrite list.Forall_forall in F. apply M; [set_solver|set_solver|by apply F].
Qed.
Lemma listing_sorted out : StronglySorted listed_before (SortStableFunc folders_first (SortStableFunc by_name out)).
Proof.
  rewrite (SortStable_flag _ sta_IsDir).
  2: { intros a b. unfold folders_first. destruct (sta_IsDir a), (sta_IsDir b); cbn; split; intros; try lia; naive_solver. }
  assert (N : StronglySorted (λ a b, str_leb (sta_name a) (sta_name b) = true) (SortStableFunc by_name out)).
  { apply SortStable_sorted.
    - intros a b. unfold by_name. case_decide; [lia|]. destruct (str_leb (sta_name b) (sta_name a)) eqn:E; [lia|].
      intros _. destruct (str_leb_total (sta_name a) (sta_name b)); congruence.
    - intros a b. unfold by_name. case_decide as D; [rewrite D; intros _; by destruct (str_leb_total (sta_name b) (sta_name b))|].
      destruct (str_leb (sta_name b) (sta_name a)); [done|lia].
    - intros a b c. apply str_leb_trans. }
  apply StronglySorted_app. split; [|split].
  - intros a b [A _]%list_elem_of_filter [B _]%list_elem_of_filter. by left.
  - eapply sorted_mono; [by apply sorted_filter|]. intros a b [A _]%list_elem_of_filter [B _]%list_elem_of_filter L. right. by rewrite A, B.
  - eapply sorted_mono; [by apply sorted_filter|]. intros a b [A _]%list_elem_of_filter [B _]%list_elem_of_filter L. right. by rewrite A, B.
Qed.
(** A listing is what was read of the directory, with the directories before everything
    else and each of the two parts in the order of the names: the second sort, by a
    comparison that never calls two other files equal, keeps the order of the first. *)
Theorem ListDirectory_sorted `{Process} `{Mimetype} fs p u l u' :
  ListDirectory fs p u = (Ok l, u') →
  StronglySorted listed_before l ∧ ∃ out, ReadDirMap fs p (entry_stat fs) u = (Ok out, u') ∧ l ≡ₚ out.
Proof.
  unfold ListDirectory. rewrite st_bind_Ok. intros (out & u1 & R & E). unfold mret, st_ret in E. injection E as <- <-.
  split; [apply listing_sorted|]. exists out. unfold file in R. destruct (ReadDirMap fs p (entry_stat fs) u) as [[o|e] u2]; [|done].
  injection R as -> ->. split; [done|]. by rewrite !SortStable_perm.
Qed.

(** ** The sandbox *)

Section Files.
Context `{Process} `{Mimetype}.
Variables (fs : UnixFS) (outside : Z → Prop) (base : Z) (ws : list string).
Hypothesis base_path : basePath fs = abs ws.
Hypothesis base_names : ws ≠ [] ∧ Forall plain ws.
Hypothesis descriptor_named : ∀ store fd p,
  descriptor_path store fd = Evaluated p → ∃ vs, p = abs vs ∧ Forall plain vs ∧ descends store root_ino vs = Some fd.
Variables (isTest : bool) (uid gid : Z).

Local Abbreviation good := (UfsFacts.good outside base ws).
Local Abbreviation inner := (UfsFacts.inner outside base ws).
Local Abbreviation confined := (UfsFacts.confined outside base ws).

(** Computations that return something else than a result. *)
Definition keeps {X} (m : ufs → X * ufs) : Prop := ∀ u, good u →
  inner (store_of u) (store_of (snd (m u))) ∧ good (snd (m u)).

Lemma confined_keeps {E A} (m : st ufs E A) Q : confined m Q → keeps m.
Proof. intros C u G. destruct (C u G) as (I & G1 & _). done. Qed.
Lemma keeps_value {X} (x : X) : keeps (λ u, (x, u)).
Proof. intros u G. split; [apply inner_refl, G|done]. Qed.
Lemma keeps_confined {E A} (m : st ufs E A) : keeps m → confined m (λ _, True).
Proof. intros C u G. destruct (C u G) as (I & G1). done. Qed.
Lemma keeps_match {E A X} (m : st ufs E A) (f : A → ufs → X * ufs) (g : E → ufs → X * ufs) P :
  confined m P → (∀ a, P a → keeps (f a)) → (∀ e, keeps (g e)) →
  keeps (λ u, match m u with (Ok a, u1) => f a u1 | (Err e, u1) => g e u1 end).
Proof.
  intros M F X' u G. destruct (M u G) as (I & G1 & Y). destruct (m u) as [[a|e] u1].
  - destruct (F a (Y a eq_refl) u1 G1) as (I2 & G2). split; [by eapply inner_trans | done].
  - destruct (X' e u1 G1) as (I2 & G2). split; [by eapply inner_trans | done].
Qed.
Lemma keeps_then {X Y} (m : ufs → X * ufs) (k : X → ufs → Y * ufs) :
  keeps m → (∀ x, keeps (k x)) → keeps (λ u, let '(x, u') := m u in k x u').
Proof.
  intros M F u G. destruct (M u G) as (I & G1). destruct (m u) as [x u1]. cbn in *.
  destruct (F x u1 G1) as (I2 & G2). split; [by eapply inner_trans | done].
Qed.
(** What changes nothing but the accounting and the count of descriptors. *)
Lemma keeps_update {X} (f : ufs → ufs) (m : ufs → X * ufs) :
  (∀ u, store_of (f u) = store_of u ∧ s_events (u_sys (f u)) = s_events (u_sys u)) → keeps m → keeps (λ u, m (f u)).
Proof.
  intros F M u G. destruct (F u) as [S E]. rewrite <-S. apply M. destruct G as [G1 G2]. split; [by rewrite S|by rewrite E].
Qed.
Lemma keeps_after {X Y} (g : X → ufs → Y * ufs) (m : ufs → X * ufs) :
  keeps m → (∀ x u, store_of (snd (g x u)) = store_of u ∧ s_events (u_sys (snd (g x u))) = s_events (u_sys u)) →
  keeps (λ u, let '(x, u') := m u in g x u').
Proof.
  intros M E u G. destruct (M u G) as (I & G1). destruct (m u) as [x u1]. cbn in *. destruct (E x u1) as [E1 E2].
  destruct G1 as [S L]. split; [by rewrite E1|]. split; [by rewrite E1|by rewrite E2].
Qed.

Lemma confined_file {A} (m : U A) Q : confined m Q → confined (file m) Q.
Proof. intros M u G. destruct (M u G) as (I & G1 & X). unfold file. destruct (m u) as [[a|e] u1]; cbn in *; (split; [done|split; [done|naive_solver]]). Qed.
Lemma confined_tried {A} (m : F A) Q : confined m Q → confined (tried m) (λ r, ∀ a, r = Ok a → Q a).
Proof.
  intros M u G. destruct (M u G) as (I & G1 & X). unfold tried. destruct (m u) as [r u1]. split; [done|]. split; [done|].
  cbn. intros b Y. by injection Y as <-.
Qed.
Lemma confined_or_close {A} (m : U A) Q : confined m Q → confined (or_close m) Q.
Proof. intros M u G. destruct (M u G) as (I & G1 & X). unfold or_close. destruct (m u) as [[a|e] u1]; cbn in *; (split; [done|split; [done|naive_solver]]). Qed.
Lemma keeps_disk f : keeps (disk f).
Proof. intros u G. split; [apply inner_refl, G|done]. Qed.
Lemma keeps_reserve size : keeps (reserve size).
Proof. intros u G. unfold reserve. destruct (reserveDisk size (u_disk u)) as [[]]; (split; [apply inner_refl, G|done]). Qed.
Lemma keeps_releasing {A} reserved (body : ufs → (Z * result ferr A) * ufs) : keeps body → keeps (releasing reserved body).
Proof. intros B u G. destruct (B u G) as (I & G1). unfold releasing. by destruct (body u) as [[used r] u1]. Qed.

(** *** Open files *)

Lemma confined_file_Stat fd : confined (file_Stat fd) (λ _, True).
Proof. apply confined_on, confined_ignoring, confined_read. done. Qed.
Lemma confined_file_Read fd off n : confined (file_Read fd off n) (λ _, True).
Proof. apply confined_on, confined_ignoring, confined_read. done. Qed.
Lemma content_ok fd (f : string → string) : ¬ outside fd →
  call_ok outside base ws (λ store, match store !! fd with
     | Some n => match i_kind n with IReg c => Ok (tt, <[fd := set_kind (IReg (f c)) n]> store) | _ => Err EINVAL end
     | None => Err EBADF end) (λ _, True).
Proof.
  intros O store a store' S E. destruct (store !! fd) as [n|] eqn:I; [|done]. destruct (i_kind n) eqn:K; try done.
  injection E as <- <-. split; [|done]. apply inner_leaf; [done|done| |done].
  intros ->. pose proof (base_not_leaf outside base ws store n S I) as D. unfold is_directory in D. by rewrite K in D.
Qed.
Lemma confined_file_Write fd off data : ¬ outside fd → confined (file_Write fd off data) (λ _, True).
Proof. intros O. apply confined_on, confined_ignoring, confined_call. by apply (content_ok fd (overwrite off data)). Qed.
Lemma confined_file_Truncate fd : ¬ outside fd → confined (file_Truncate fd) (λ _, True).
Proof.
  intros O. apply confined_on, confined_ignoring, confined_call. intros store a store' S E.
  apply (content_ok fd (λ _, EmptyString) O store a store' S). destruct (store !! fd) as [n|]; [|done].
  unfold is_regular_file in E. by destruct (i_kind n).
Qed.
Lemma keeps_pieces (write : nat → string → U unit) pieces : (∀ off p, confined (write off p) (λ _, True)) →
  ∀ off e n, keeps (copy_pieces write off pieces e n).
Proof.
  intros W. induction pieces as [|p l IH]; intros off e n; [apply keeps_value|].
  apply (keeps_match _ _ _ (λ _, True)); [apply W|intros; apply IH|intros; apply keeps_value].
Qed.
Lemma keeps_Copy_reader fd r : ¬ outside fd → keeps (Copy_reader fd r).
Proof. intros O. apply keeps_pieces. intros. by apply confined_file_Write. Qed.
Lemma keeps_copy_file turns src dst off limit : ¬ outside dst → keeps (copy_file turns src dst off limit).
Proof.
  intros O. revert off. induction turns as [|turns IH]; intros off; [apply keeps_value|]. cbn [copy_file].
  destruct (limit <=? off); [apply keeps_value|].
  apply (keeps_match _ _ _ (λ _, True)); [apply confined_file_Read| |intros; apply keeps_value].
  intros data _. case_decide; [apply keeps_value|].
  apply (keeps_match _ _ _ (λ _, True)); [by apply confined_file_Write|intros; apply IH|intros; apply keeps_value].
Qed.
Lemma keeps_quota_write fd data off f : ¬ outside fd → keeps (quota_write fd data off f).
Proof.
  intros O. unfold quota_write. case_decide.
  - apply (keeps_then _ (λ r u', ((r, f), u'))); [|intros; apply keeps_value]. by eapply confined_keeps, confined_file, confined_file_Write.
  - apply (keeps_match _ _ _ (λ _, True)); [by apply confined_file, confined_on, confined_read| |intros; apply keeps_value].
    intros _ _ u G. destruct (writeAtLocked (strlen data) (Z.of_nat off) (0, Ok tt) f (u_disk u)) as [[[k [[]|e]] f'] d].
    + destruct (confined_file _ _ (confined_file_Write fd off data O) u G) as (I & G1 & _). destruct (file _ u) as [r u2].
      destruct (writeAtLocked _ _ _ f (u_disk u)) as [[[k' e'] f''] d']. done.
    + split; [apply inner_refl, G|done].
Qed.
Lemma keeps_quota_copy fd pieces : ¬ outside fd → ∀ off e f n, keeps (quota_copy fd off pieces e f n).
Proof.
  intros O. induction pieces as [|p l IH]; intros off e f n; [apply keeps_value|].
  intros u G. cbn [quota_copy]. destruct (keeps_quota_write fd p off f O u G) as (I & G1).
  destruct (quota_write fd p off f u) as [[[[]|e'] f'] u1]; cbn in *; [|done].
  destruct (IH (off + String.length p)%nat e f' (n + strlen p) u1 G1) as (I2 & G2). split; [by eapply inner_trans|done].
Qed.
Lemma keeps_quota_Close fd f : keeps (quota_Close fd f).
Proof.
  intros u G. unfold quota_Close. destruct (confined_file _ _ (confined_file_Stat fd) u G) as (I & G1 & _).
  by destruct (file (file_Stat fd) u) as [[n|e] u1].
Qed.

(** *** The operations *)

Ltac ufs_lemma := first [eassumption | done].
Lemma confined_openForWrite p flag mode : confined (openForWrite fs p flag mode) (λ x, ¬ outside (fst x)).
Proof.
  eapply confined_bind; [eapply confined_file, confined_touch; ufs_lemma|]. intros fd O.
  apply confined_file, confined_or_close. eapply confined_bind; [apply confined_file_Stat|]. intros st _.
  eapply (confined_bind _ _ _ _ _ (λ _, True)); [|intros; by apply confined_ret].
  apply confined_if; [by apply confined_file_Truncate|by apply confined_ret].
Qed.
Lemma confined_Touch p flag : confined (Files.Touch fs p flag) (λ x, ¬ outside (fst x)).
Proof. eapply confined_bind; [apply confined_openForWrite|]. intros [fd size] O. by apply confined_ret. Qed.
Lemma keeps_checkNotDirectory p : keeps (checkNotDirectory fs p).
Proof.
  apply (keeps_match _ _ _ (λ _, True)); [|intros; apply keeps_value..].
  eapply confined_mono; [eapply confined_lstat; ufs_lemma|done].
Qed.
Lemma confined_chownFile p : confined (chownFile fs isTest uid gid p) (λ _, True).
Proof.
  apply confined_if; [by apply confined_ret|]. apply confined_file, confined_rename_error. eapply confined_with; [ufs_lemma..|].
  intros. by eapply confined_on, confined_call, change_ok.
Qed.
Lemma confined_mkdirs p mode : confined (Files.mkdirAll fs isTest uid gid p mode) (λ _, True).
Proof.
  eapply confined_bind; [eapply confined_file, confined_MkdirAll; ufs_lemma|]. intros l _.
  induction l as [|d l IH]; [by apply confined_ret|]. eapply confined_bind; [apply confined_chownFile|]. intros _ _. exact IH.
Qed.
Lemma confined_Chown depth p : confined (Files.Chown fs isTest uid gid depth p) (λ _, True).
Proof.
  apply confined_if; [by apply confined_ret|]. apply confined_file. eapply confined_with; [ufs_lemma..|]. intros d x O N.
  eapply confined_bind; [by eapply confined_lchownat|]. intros _ _.
  eapply confined_bind; [eapply confined_attempt; by eapply confined_lstatat|]. intros [st|e] _; [|by apply confined_ret].
  apply confined_if; [by apply confined_ret|]. eapply confined_WalkDirat; [ufs_lemma..| |done|done].
  intros d' x' rel e [err|] O' N'; [apply confined_err|]. by eapply confined_lchownat.
Qed.
Lemma confined_Writefile p r : confined (Writefile fs isTest uid gid p r) (λ _, True).
Proof.
  eapply confined_bind; [by apply keeps_confined, keeps_checkNotDirectory|]. intros _ _.
  eapply confined_bind; [apply confined_openForWrite|]. intros [fd size] O. apply confined_deferred, keeps_confined. cbn in O.
  intros u G. destruct (keeps_Copy_reader fd r O u G) as (I & G1). destruct (Copy_reader fd r u) as [[n err] u1]; cbn [fst snd] in *.
  destruct (confined_chownFile p (quota_add (wrap64 (n - size)) u1) G1) as (I2 & G2 & _).
  destruct (chownFile _ _ _ _ _ _) as [[[]|e] u3]; (split; [by eapply inner_trans|done]).
Qed.
Lemma keeps_write_body p r newSize fd size : ¬ outside fd → keeps (write_body fs isTest uid gid p r newSize fd size).
Proof.
  intros O. apply (keeps_match _ _ _ (λ _, True)); [by apply confined_file, confined_file_Truncate| |intros; apply keeps_value].
  intros _ _ u G. assert (K : keeps (λ u, if 0 <? newSize then Copy_reader fd (LimitReader r newSize) u else ((0, Ok tt), u))).
  { destruct (0 <? newSize); [by apply keeps_Copy_reader|apply keeps_value]. }
  destruct (K u G) as (I & G1). destruct (if 0 <? newSize then _ else _) as [[n err] u2]; cbn [fst snd] in *.
  destruct (confined_chownFile p u2 G1) as (I2 & G2 & _).
  destruct (chownFile _ _ _ _ _ _) as [[[]|e] u3]; (split; [by eapply inner_trans|done]).
Qed.
Lemma keeps_removed {X} p (x : X) : keeps (λ u, (x, snd (quota_Remove fs p u))).
Proof. intros u G. destruct (confined_quota fs outside base ws base_path base_names descriptor_named) as (_ & R & _). destruct (R p u G) as (I & G1 & _). done. Qed.
Lemma confined_Write p r newSize mode : confined (Files.Write fs isTest uid gid p r newSize mode) (λ _, True).
Proof.
  eapply confined_bind; [by apply keeps_confined, keeps_checkNotDirectory|]. intros _ _.
  eapply confined_bind; [apply confined_mkdirs|]. intros _ _.
  eapply confined_bind; [eapply confined_tried, confined_file, confined_lstat; ufs_lemma|]. intros st _.
  eapply confined_bind; [apply confined_openForWrite|]. intros [fd size] O. apply confined_deferred, keeps_confined. cbn in O.
  apply (keeps_match _ _ _ (λ _, True)); [by apply keeps_confined, keeps_reserve|intros; by apply keeps_releasing, keeps_write_body|].
  intros e. destruct st; [apply keeps_value|apply keeps_removed].
Qed.
Lemma confined_WriteFrom p r : confined (WriteFrom fs isTest uid gid p r) (λ _, True).
Proof.
  eapply confined_bind; [by apply keeps_confined, keeps_checkNotDirectory|]. intros _ _.
  eapply confined_bind; [apply confined_mkdirs|]. intros _ _.
  eapply confined_bind; [apply confined_Touch|]. intros [fd f] O. apply keeps_confined. cbn in O. intros u G. unfold write_from_body.
  destruct (keeps_quota_copy fd (rd_pieces r) O 0 (rd_error r) f 0 u G) as (I & G1).
  destruct (quota_copy _ _ _ _ _ _ u) as [[[n copied] f'] u1]; cbn [fst snd] in *.
  destruct (keeps_quota_Close fd f' u1 G1) as (I2 & G2). destruct (quota_Close fd f' u1) as [c u2]; cbn [fst snd] in *.
  assert (I3 : inner (store_of u) (store_of u2)) by (by eapply inner_trans).
  destruct (match copied with Ok _ => c | Err e => Err e end) as [[]|e].
  - destruct (confined_chownFile p u2 G2) as (I4 & G4 & _).
    destruct (chownFile _ _ _ _ _ _) as [[[]|e] u3]; cbn [fst snd] in *; [split; [by eapply inner_trans|done]|].
    destruct (keeps_removed p e u3 G4) as (I5 & G5). split; [|done]. eapply inner_trans; [exact I3|]. by eapply inner_trans.
  - destruct (keeps_removed p e u2 G2) as (I5 & G5). split; [|done]. by eapply inner_trans.
Qed.

(** *** Copies *)

Lemma confined_suffix d name ext now : ¬ outside d → no_sep name → no_sep ext → no_sep now →
  ∀ left i, confined (find_suffix left i d name ext now) plain.
Proof.
  intros O N X T left. induction left as [|left IH]; intros i; cbn [find_suffix].
  all: set (suffix := if 0 <? i then " copy " +:+ FormatInt i else " copy"%string).
  all: assert (SS : no_sep suffix ∧ (2 < String.length suffix)%nat) by
    (subst suffix; destruct (0 <? i); [|split; [done|cbn; lia]]; rewrite no_sep_app, length_app_str;
     split; [split; [done|apply no_sep_format]|cbn; lia]).
  all: destruct SS as [SS SL]; pose proof (plain_long name suffix ext N SS X SL) as P.
  all: eapply confined_bind; [eapply confined_tried, confined_file, confined_lstatat; first [eassumption|by right]|].
  all: intros [st|e] _; [|destruct (is_missing e); [by apply confined_ret|apply confined_err]].
  - apply confined_ret, plain_long; [done|by apply no_sep_app|done|]. rewrite length_app_str. cbn. lia.
  - apply IH.
Qed.
Lemma confined_create d name ext now mode : ¬ outside d → no_sep name → no_sep ext → no_sep now →
  ∀ left, confined (create_copy fs left d name ext now mode) (λ x, plain (fst x) ∧ ¬ outside (snd x)).
Proof.
  intros O N X T left. induction left as [|left IH]; cbn [create_copy].
  all: eapply confined_bind; [eapply confined_tried, confined_bind; [by apply confined_suffix|]|].
  1, 3: intros x P; eapply confined_bind; [eapply confined_file, confined_openat; first [eassumption|by right]|];
    intros dst D; by apply (confined_ret _ _ _ _ (λ x, plain (fst x) ∧ ¬ outside (snd x))).
  all: intros [x|e] R; [apply confined_ret; by apply R|]; destruct (is_present e); cbn [negb]; [|apply confined_err].
  - apply confined_err.
  - apply IH.
Qed.
Lemma keeps_copy_body d x now source info : ¬ outside d → simple x → no_sep now →
  keeps (copy_body fs isTest uid gid d x now source info).
Proof.
  intros O N T u G. unfold copy_body. destruct (split_name_sep (path_Base x) (simple_base x N)) as [S1 S2].
  destruct (split_name (path_Base x)) as [name ext]; cbn [fst snd] in *.
  destruct (confined_create d name ext now (file_mode info) O S1 S2 T 10 u G) as (I & G1 & Q).
  destruct (create_copy _ _ _ _ _ _ _ u) as [[[nn dst]|e] u1]; cbn [fst snd] in *; [|done].
  destruct (Q _ eq_refl) as [P D]. cbn in P, D.
  destruct (keeps_copy_file (S (Z.to_nat (stat_size info))) source dst 0 (stat_size info) D u1 G1) as (I2 & G2).
  destruct (copy_file _ _ _ _ _ u1) as [[n err] u2]; cbn [fst snd] in *.
  assert (C : confined (if isTest then mret tt else file (Lchownat d nn uid gid)) (λ _, True)).
  { apply confined_if; [by apply confined_ret|]. eapply confined_file, confined_lchownat; first [eassumption|by right]. }
  destruct (C u2 G2) as (I3 & G3 & _). destruct ((if isTest then mret tt else file (Lchownat d nn uid gid)) u2) as [owned u3]; cbn [fst snd] in *.
  assert (I4 : inner (store_of u) (store_of u3)) by (eapply inner_trans; [exact I|]; by eapply inner_trans).
  by destruct owned.
Qed.
Lemma confined_Copy p now : no_sep now → confined (Copy fs isTest uid gid p now) (λ _, True).
Proof.
  intros T u G. unfold Copy, with_file_path.
  pose proof (confined_safePath fs outside base ws base_path base_names descriptor_named p u G) as S.
  destruct (safePath fs p u) as [[n r] u1]. destruct S as (I & G1 & X). destruct r as [[d x]|e]; [|done]. destruct (X d x eq_refl) as [O N]. cbn [fst snd] in *.
  match goal with |- context [deferred ?m n u1] => assert (C : confined m (λ _, True)) end.
  { eapply confined_bind; [eapply confined_file, confined_openat; ufs_lemma|]. intros source OS. apply confined_deferred.
    eapply confined_bind; [apply confined_file, confined_file_Stat|]. intros info _.
    apply confined_if; [apply confined_err|]. eapply confined_bind; [apply keeps_confined, keeps_reserve|]. intros _ _.
    by apply keeps_confined, keeps_releasing, keeps_copy_body. }
  destruct (confined_deferred _ _ _ _ n _ C u1 G1) as (I2 & G2 & Y). split; [by eapply inner_trans|done].
Qed.

(** *** Reading and deleting *)

Lemma confined_Truncate depth turns : confined (TruncateRootDirectory fs isTest depth turns) (λ _, True).
Proof.
  eapply confined_bind; [eapply confined_file, confined_RemoveContents; ufs_lemma|]. intros _ _.
  eapply confined_bind; [apply keeps_confined, keeps_disk|]. intros _ _.
  apply confined_if; [apply keeps_confined, keeps_disk|by apply confined_ret].
Qed.
Definition sta_inside (s : Stat) : Prop := ¬ outside (fst_ino (sta_info s)).
Lemma confined_statFromFile name fd : ¬ outside fd → confined (statFromFile name fd) sta_inside.
Proof.
  intros O. eapply confined_bind; [apply confined_file, confined_file_Stat|]. intros n _.
  apply confined_if; [by apply confined_ret|]. eapply confined_bind; [apply confined_file, confined_file_Read|]. intros data _.
  eapply confined_bind; [by apply confined_file, confined_on, (confined_read _ _ _ _ (λ _, True))|]. intros _ _. by apply confined_ret.
Qed.
Lemma confined_Open p : confined (Ufs.Open fs p) (λ i, ¬ outside i).
Proof. eapply confined_with; [ufs_lemma..|]. intros. eapply confined_openat; ufs_lemma. Qed.
Lemma confined_File p : confined (File fs p) (λ x, ¬ outside (fst x) ∧ sta_inside (snd x)).
Proof.
  eapply confined_bind; [apply confined_file, confined_Open|]. intros fd O u G. unfold stat_or_close.
  destruct (confined_statFromFile (path_Base p) fd O u G) as (I & G1 & X). destruct (statFromFile _ fd u) as [[st|e] u1]; [|done].
  split; [done|]. split; [done|]. intros a Y. injection Y as <-. split; [done|]. by apply X.
Qed.
Lemma confined_file_stat p : confined (file_stat fs p) sta_inside.
Proof.
  eapply confined_bind; [apply confined_file, confined_Open|]. intros fd O. by apply confined_deferred, confined_statFromFile.
Qed.
Lemma confined_ListDirectory p : confined (ListDirectory fs p) (Forall sta_inside).
Proof.
  eapply confined_bind; [eapply confined_file, confined_ReadDirMap; [ufs_lemma..|]|].
  - intros e [OE NE]. eapply confined_bind; [by eapply confined_lstatat|]. intros info II.
    destruct (de_isRegular e); [|by apply (confined_ret _ _ _ _ sta_inside)].
    eapply confined_bind; [eapply confined_openat; ufs_lemma|]. intros fd OF.
    eapply confined_bind; [apply confined_deferred; eapply confined_attempt, confined_file_Read|]. intros data _.
    by apply (confined_ret _ _ _ _ sta_inside).
  - intros l L. apply confined_ret.
    assert (P : ∀ cmp (x : Stat) l, sta_inside x → Forall sta_inside l → Forall sta_inside (insert_stable cmp x l)).
    { intros cmp x k X K. induction K as [|y k Y K IH]; cbn; [by constructor|]. case_match; by repeat constructor. }
    assert (Q : ∀ cmp l, Forall sta_inside l → Forall sta_inside (SortStableFunc cmp l)).
    { intros cmp k K. induction K as [|y k Y K IH]; cbn; [constructor|]. by apply P. }
    auto.
Qed.

(** *** Every operation *)

(** What the daemon asks: the operations of [Filesystem], and those of [UnixFS]. *)
Inductive file_request :=
| AskUnix (r : request)
| AskFile (p : string) | AskFileStat (p : string) | AskReadDirStat (p : string) | AskListDirectory (p : string)
| AskFileTouch (p : string) (flag : Z) | AskWritefile (p : string) (r : reader)
| AskWrite (p : string) (r : reader) (newSize mode : Z) | AskWriteFrom (p : string) (r : reader)
| AskCreateDirectory (name p : string) | AskChown (depth : nat) (p : string) | AskCopy (p now : string)
| AskTruncate (depth turns : nat) | AskFileChtimes (p : string) (atime mtime : option Z).

Definition nothing {E A} (m : st ufs E A) : st ufs E (list Z) := _ ← m; mret [].
Definition serve_file (r : file_request) : F (list Z) :=
  match r with
  | AskUnix r => file (serve fs r)
  | AskFile p => '(fd, st) ← File fs p; mret [fd; fst_ino (sta_info st)]
  | AskFileStat p => st ← file_stat fs p; mret [fst_ino (sta_info st)]
  | AskReadDirStat p => l ← ReadDirStat fs p; mret (map fst_ino l)
  | AskListDirectory p => l ← ListDirectory fs p; mret (map (λ s, fst_ino (sta_info s)) l)
  | AskFileTouch p flag => '(fd, _) ← Files.Touch fs p flag; mret [fd]
  | AskWritefile p r => nothing (Writefile fs isTest uid gid p r)
  | AskWrite p r newSize mode => nothing (Files.Write fs isTest uid gid p r newSize mode)
  | AskWriteFrom p r => nothing (WriteFrom fs isTest uid gid p r)
  | AskCreateDirectory name p => nothing (CreateDirectory fs isTest uid gid name p)
  | AskChown depth p => nothing (Files.Chown fs isTest uid gid depth p)
  | AskCopy p now => nothing (Copy fs isTest uid gid p now)
  | AskTruncate depth turns => nothing (TruncateRootDirectory fs isTest depth turns)
  | AskFileChtimes p atime mtime => nothing (Files.Chtimes fs isTest p atime mtime)
  end.
Fixpoint serve_files (l : list file_request) (u : ufs) : list (result ferr (list Z)) * ufs :=
  match l with
  | [] => ([], u)
  | r :: l' => let '(a, u1) := serve_file r u in let '(rs, u2) := serve_files l' u1 in (a :: rs, u2)
  end.
(** A printed time has no slash. *)
Definition timely (r : file_request) : Prop := match r with AskCopy _ now => no_sep now | _ => True end.

Lemma confined_nothing {E A} (m : st ufs E A) Q : confined m Q → confined (nothing m) (Forall (λ i, ¬ outside i)).
Proof. intros M. eapply confined_bind; [exact M|]. intros a _. by apply confined_ret. Qed.
Lemma confined_serve_file r : timely r → confined (serve_file r) (Forall (λ i, ¬ outside i)).
Proof.
  intros T. destruct r; cbn [serve_file] in *.
  - eapply confined_file, confined_serve; ufs_lemma.
  - eapply confined_bind; [apply confined_File|]. intros [fd st] [O S]. apply confined_ret. repeat constructor; done.
  - eapply confined_bind; [apply confined_file_stat|]. intros st S. apply confined_ret. by constructor.
  - eapply confined_bind.
    + apply confined_file.
      apply (confined_ReadDirMap fs outside base ws base_path base_names descriptor_named _ _ (λ s, ¬ outside (fst_ino s))). intros e [OE NE].
      by eapply confined_lstatat.
    + intros l L. by apply confined_ret, Forall_map.
  - eapply confined_bind; [apply confined_ListDirectory|]. intros l L. by apply confined_ret, Forall_map.
  - eapply confined_bind; [apply confined_Touch|]. intros [fd f] O. apply confined_ret. by constructor.
  - eapply confined_nothing, confined_Writefile.
  - eapply confined_nothing, confined_Write.
  - eapply confined_nothing, confined_WriteFrom.
  - eapply confined_nothing, confined_mkdirs.
  - eapply confined_nothing, confined_Chown.
  - by eapply confined_nothing, confined_Copy.
  - eapply confined_nothing, confined_Truncate.
  - eapply confined_nothing. apply confined_if; [by apply (confined_ret _ _ _ _ (λ _, True))|]. apply confined_file.
    eapply confined_with; [ufs_lemma..|]. intros. by eapply confined_chtimesat.
Qed.
Lemma serve_files_confined l u : Forall timely l →
  good u → inner (store_of u) (store_of (snd (serve_files l u)))
  ∧ ∀ is_, Ok is_ ∈ fst (serve_files l u) → Forall (λ i, ¬ outside i) is_.
Proof.
  intros T. revert u. induction T as [|r l T _ IH]; intros u G; cbn [serve_files]; [split; [apply inner_refl, G|set_solver]|].
  destruct (confined_serve_file r T u G) as (I & G1 & Q). destruct (serve_file r u) as [a u1]. cbn [fst snd] in *.
  destruct (IH u1 G1) as [I2 Q2]. destruct (serve_files l u1) as [rs u2]. cbn [fst snd] in *.
  split; [by eapply inner_trans|]. intros is_ [X|X]%elem_of_cons; [by apply Q | by apply Q2].
Qed.

(** C3: whatever the daemon asks of a server's files, in any sequence, with any paths, and
    whatever the processes of the server do to their files between two system calls, and
    whichever system calls fail: every file outside of the base directory keeps its
    content, owner, mode and entries, and no descriptor or description that an operation
    returns is of a file outside. *)
Theorem files_confined l u :
  good u → Forall timely l →
  (∀ i, outside i → store_of (snd (serve_files l u)) !! i = store_of u !! i)
  ∧ ∀ is_ i, Ok is_ ∈ fst (serve_files l u) → i ∈ is_ → ¬ outside i.
Proof.
  intros G T. destruct (serve_files_confined l u T G) as [[_ I] Q]. split; [exact I|].
  intros is_ i X Y. apply Q in X. rewrite list.Forall_forall in X. by apply X.
Qed.
End Files.
