(* ===== verification/FilesWrite.v ===== *)
(** * What a write leaves

    On a file system at rest, [Filesystem.Write] leaves the file with the content it was
    given, owned by the server's user, gives back the part of the reservation that was not
    used, and changes no other file. *)

From stdpp Require Import base gmap sets list strings numbers.
From Stdlib Require Import Ascii.
From S2P Require Import Prelude GoStrings Paths PathsFacts Disk DiskFacts Inodes Ufs UfsFacts UfsRemove Files FilesFacts.
Open Scope Z_scope.

(** ** Content *)

Lemma substring_all s : String.substring 0 (String.length s) s = s.
Proof. induction s as [|c s IH]; [done|]. cbn. by rewrite IH. Qed.
Lemma substring_past n m s : (String.length s ≤ n)%nat → String.substring n m s = EmptyString.
Proof. revert n. induction s as [|c s IH]; intros n L; [by destruct n, m|]. destruct n as [|n]; cbn in *; [lia|]. apply IH. lia. Qed.
Lemma overwrite_end data content : overwrite (String.length content) data content = content +:+ data.
Proof.
  unfold overwrite. rewrite substring_all, Nat.sub_diag, substring_past by lia. cbn [zero_bytes].
  change (EmptyString +:+ ?s) with s. by rewrite app_str_nil.
Qed.
Definition content_of (pieces : list string) : string := foldr (λ p s, p +:+ s) EmptyString pieces.
Lemma set_kind_twice k k' n : set_kind k' (set_kind k n) = set_kind k' n.
Proof. done. Qed.

Lemma st_bind_step {S E A B} (m : st S E A) (f : A → st S E B) s a s' : m s = (Ok a, s') → (m ≫= f) s = f a s'.
Proof. unfold mbind, st_bind. by intros ->. Qed.

(** ** Calls at rest *)

Section Writes.
Context `{Process}.
Variables (fs : UnixFS) (outside : Z → Prop) (base : Z) (ws : list string).
Hypothesis base_path : basePath fs = abs ws.
Hypothesis base_names : ws ≠ [] ∧ Forall plain ws.
Hypothesis openat2 : useOpenat2 fs = true.
Variables (isTest : bool) (uid gid : Z).

Local Abbreviation safe := (quiet_safePath fs outside base ws base_path base_names openat2).

Lemma quiet_on {A} (m : st ufs errno A) f u : quiet u → on (ignoringEINTR m) f u = on m f u.
Proof. intros Q. unfold on. by rewrite quiet_ignoring. Qed.

Lemma quiet_file_Stat fd n u : quiet u → store_of u !! fd = Some n → file_Stat fd u = (Ok n, u).
Proof. intros Q I. unfold file_Stat. rewrite quiet_on by done. unfold on, sys_fstat. by rewrite rest_read, I. Qed.
Lemma quiet_file_Truncate fd n u : quiet u → store_of u !! fd = Some n → is_regular_file n = true →
  file_Truncate fd u = (Ok tt, set_store (<[fd := set_kind (IReg EmptyString) n]> (store_of u)) u).
Proof. intros Q I R. unfold file_Truncate. rewrite quiet_on by done. unfold on, sys_ftruncate. by rewrite quiet_call, I, R. Qed.
Lemma quiet_file_Write fd n c data u : quiet u → store_of u !! fd = Some n → i_kind n = IReg c →
  file_Write fd (String.length c) data u = (Ok tt, set_store (<[fd := set_kind (IReg (c +:+ data)) n]> (store_of u)) u).
Proof.
  intros Q I K. unfold file_Write. rewrite quiet_on by done. unfold on, sys_pwrite. by rewrite quiet_call, I, K, overwrite_end.
Qed.
Lemma set_store_twice s s' u : set_store s' (set_store s u) = set_store s' u.
Proof. done. Qed.
Lemma store_set s u : store_of (set_store s u) = s.
Proof. done. Qed.

(** The pieces are appended one after the other. *)
Lemma quiet_pieces fd pieces e : ∀ u n c k, quiet u → store_of u !! fd = Some n → i_kind n = IReg c →
  copy_pieces (file_Write fd) (String.length c) pieces e k u
  = ((k + strlen (content_of pieces), match e with None => Ok tt | Some e => Err e end),
     set_store (<[fd := set_kind (IReg (c +:+ content_of pieces)) n]> (store_of u)) u).
Proof.
  induction pieces as [|p l IH]; intros u n c k Q I K; cbn [copy_pieces content_of foldr].
  - rewrite app_str_nil. change (strlen EmptyString) with 0. rewrite Z.add_0_r. do 2 f_equal.
    rewrite insert_id; [by rewrite set_store_same|]. rewrite I. f_equal. destruct n. cbn in *. by subst.
  - rewrite (quiet_file_Write fd n c p u Q I K).
    replace (String.length c + String.length p)%nat with (String.length (c +:+ p)) by apply length_app_str.
    rewrite (IH _ (set_kind (IReg (c +:+ p)) n) (c +:+ p)); [|done|rewrite store_set; apply lookup_insert_eq|done].
    rewrite store_set, set_store_twice, insert_insert_eq, app_str_assoc, set_kind_twice. do 2 f_equal.
    fold (content_of l). unfold strlen. rewrite length_app_str. lia.
Qed.

(** *** Descriptions and the parent directories *)

Lemma quiet_stat d x i n u : quiet u → entry (store_of u) d x i → plain x → store_of u !! i = Some n →
  Lstatat d x u = (Ok (mkStat (basename x) i n), u).
Proof.
  intros Q E X I. unfold Lstatat, _fstatat, mbind, st_bind, on, sys_fstatat. rewrite quiet_ignoring, rest_read by done. unfold stat_path.
  rewrite (resolve_entry _ _ _ _ _ E X). cbn [mbind result_bind]. by rewrite I.
Qed.
Lemma resolve_absent store beneath d x es p : i_kind <$> store !! d = Some (IDir es p) → es !! x = None → plain x →
  resolve store beneath false d x = Err ENOENT.
Proof.
  intros K N X. destruct (simple_word x (or_intror X)) as (A & W & NE). unfold resolve.
  rewrite decide_False, A, W by done. rewrite namei_step. unfold dir_of. rewrite K. cbn [mbind result_bind].
  destruct X as (X1 & X2 & X3 & _). rewrite decide_False by naive_solver. by rewrite decide_False, N by done.
Qed.
Lemma quiet_absent d x u es p : quiet u → i_kind <$> store_of u !! d = Some (IDir es p) → es !! x = None → plain x →
  Lstatat d x u = (Err (PathError x ErrNotExist), u).
Proof.
  intros Q K N X. unfold Lstatat, _fstatat, mbind, st_bind, on, sys_fstatat. rewrite quiet_ignoring, rest_read by done. unfold stat_path.
  by rewrite (resolve_absent _ _ _ _ _ _ K N X).
Qed.
(** Whatever is done with the parent leaves the number of open descriptors. *)
Lemma quiet_with {A} path vs x d u (body : Z → string → U A) r u' :
  quiet u → sandbox outside base ws (store_of u) → Forall plain vs → plain x →
  unsafePath fs path = Ok (relative (vs ++ [x])) → descends (store_of u) base vs = Some d → directory (store_of u) d →
  (∀ k, body d x (counted k u) = (r, counted k u')) →
  with_path fs path body u = (r, u').
Proof.
  intros Q S V X N E D B. unfold with_path. destruct (safe path vs x d u Q S V X N E D) as [k SP]. rewrite SP. unfold deferred.
  by rewrite B, counted_closed, Z.sub_diag, counted_0.
Qed.
Lemma quiet_Lstat path vs x d u st :
  quiet u → sandbox outside base ws (store_of u) → Forall plain vs → plain x →
  unsafePath fs path = Ok (relative (vs ++ [x])) → descends (store_of u) base vs = Some d → directory (store_of u) d →
  (∀ k, Lstatat d x (counted k u) = (st, counted k u)) → Ufs.Lstat fs path u = (st, u).
Proof. intros. by eapply quiet_with. Qed.
(** A directory that exists is not created. *)
Lemma quiet_MkdirAll path vs d mode u :
  quiet u → sandbox outside base ws (store_of u) → Forall plain vs → unsafePath fs path = Ok (relative vs) →
  descends (store_of u) base vs = Some d → directory (store_of u) d → Ufs.MkdirAll fs path mode u = (Ok [], u).
Proof.
  intros Q S V N E D.
  assert (L : ∃ n y, Ufs.Lstat fs (relative vs) u = (Ok (mkStat y d n), u) ∧ is_directory n = true).
  { destruct (store_of u !! d) as [n|] eqn:I; [|by destruct D as (? & ? & D); rewrite I in D].
    assert (DN : is_directory n = true) by (by apply (is_directory_spec _ _ _ I)). exists n.
    destruct (decide (vs = [])) as [->|NV].
    - cbn in E. injection E as <-. exists (basename "."). split; [|done]. pose proof (unsafePath_relative fs ws base_path base_names [] V) as UP.
      unfold Ufs.Lstat, with_path, safePath. change (relative []) with "."%string in *.
      rewrite UP, (quiet_base fs outside base ws base_path base_names u Q S).
      change (path_Split ".") with (EmptyString, "."%string). cbn [decide]. rewrite (decide_True (P := EmptyString = EmptyString)) by done.
      unfold deferred, _fstatat, mbind, st_bind, on, sys_fstatat. rewrite quiet_ignoring, rest_read by done. unfold stat_path.
      replace (resolve (store_of (counted 1 u)) false false base ".") with (Ok base : result errno Z).
      + cbn [mbind result_bind]. change (store_of (counted 1 u)) with (store_of u). rewrite I.
        cbn [mret]. unfold st_ret, mret. by rewrite counted_closed, Z.sub_diag, counted_0.
      + unfold resolve. rewrite decide_False by done. change (Split slash ".") with ["."%string]. change (IsAbs ".") with false. cbn [andb].
        rewrite namei_step. unfold dir_of. change (store_of (counted 1 u)) with (store_of u). destruct D as (es & p & K). rewrite K.
        cbn [mbind result_bind]. rewrite decide_True by auto. generalize max_follow. by intros [].
    - destruct (exists_last NV) as (us & w & ->). apply Forall_app in V as [VU W]. apply list.Forall_cons in W as [W _].
      rewrite descends_app in E. destruct (descends (store_of u) base us) as [e|] eqn:EU; [|done].
      cbn in E. destruct (i_kind <$> store_of u !! e) as [[| es p | | |]|] eqn:K; try done.
      destruct (es !! w) as [c|] eqn:C; [|done]. cbn in E. injection E as ->. exists (basename w). split; [|done].
      eapply (quiet_Lstat _ us w e u); try done; [by apply (unsafePath_relative fs ws base_path base_names), plain_names_snoc|by exists es, p|].
      intros k. apply quiet_stat; try done. by exists es, p. }
  destruct L as (n & y & L & DN). unfold Ufs.MkdirAll. unfold mbind at 1, st_bind at 1. rewrite N. cbn [st_lift].
  destruct (String.length (relative vs)) as [|t]; cbn [Ufs.mkdirAll]; unfold mbind at 1, st_bind at 1, attempt at 1; rewrite L.
  all: unfold isSymlink, IsDir; cbn [fst_node]; replace (is_link n) with false by (unfold is_link, is_directory in *; by destruct (i_kind n)).
  all: unfold mbind, st_bind; cbn; by rewrite DN.
Qed.

(** *** Opening to write *)

Definition rw_flags : Z := set_flag O_RDWR O_CREATE.
Definition rw_opened : Z := set_flag (Z.lor (set_flag rw_flags O_NOFOLLOW) O_NONBLOCK) O_CLOEXEC.
Lemma quiet_open_rw d x mode i n store' u :
  quiet u → open_path true d x rw_opened (syscallMode mode) (store_of u) = Ok (i, store') →
  store' !! i = Some n → is_regular_file n = true →
  openat fs d x rw_flags mode u = (Ok i, counted 1 (set_store store' u)).
Proof.
  intros Q E I R. unfold openat. change (rw_flags <? 0) with false. unfold openatResolved.
  change (negb (has (set_flag rw_flags O_NOFOLLOW) O_PATH)) with true. unfold mbind, st_bind, on at 1.
  rewrite openat2, quiet_ignoring by done. unfold _openat2.
  change (set_flag (Z.lor (set_flag rw_flags O_NOFOLLOW) O_NONBLOCK) O_CLOEXEC) with rw_opened.
  unfold sys_openat, calls at 1, opening.
  assert (C : system_call (open_path true d x rw_opened (syscallMode mode)) (u_sys u) = (Ok i, u_sys (set_store store' u))).
  { unfold system_call, before_call. unfold quiet in Q. rewrite Q. fold (store_of u). rewrite E. cbn. by rewrite Q. }
  rewrite C. cbn. unfold closing_on_error, checkOpenedType, mbind, st_bind, on, sys_fstat, sys_fcntl.
  rewrite !rest_read by done. cbn. rewrite I, R. cbn. by rewrite rest_read.
Qed.
Lemma open_rw_existing d x i n mode store :
  entry store d x i → plain x → store !! i = Some n → is_regular_file n = true →
  open_path true d x rw_opened mode store = Ok (i, store).
Proof.
  intros E X I R. unfold open_path. change (follows rw_opened) with false. rewrite (resolve_entry _ _ _ _ _ E X).
  unfold open_existing. rewrite I. unfold is_regular_file in R. by destruct (i_kind n).
Qed.
Lemma open_rw_new d x mode store es p :
  i_kind <$> store !! d = Some (IDir es p) → es !! x = None → plain x →
  open_path true d x rw_opened mode store = Ok (add_node d x (new_node (IReg EmptyString) mode 1) store).
Proof.
  intros K N X. unfold open_path. change (follows rw_opened) with false. rewrite (resolve_absent _ _ _ _ _ _ K N X).
  rewrite decide_True by done. change (has rw_opened O_CREATE) with true. unfold create_file.
  assert (DO : dir_of store d = Ok (es, p)) by (unfold dir_of; by rewrite K).
  rewrite resolve_parent_word, DO by (by right). cbn [mbind result_bind]. rewrite DO. cbn [mbind result_bind]. by rewrite plain_normal, N by done.
Qed.

Lemma quiet_openForWrite p vs x d i n store' mode u :
  quiet u → sandbox outside base ws (store_of u) → Forall plain vs → plain x →
  unsafePath fs p = Ok (relative (vs ++ [x])) → descends (store_of u) base vs = Some d → directory (store_of u) d →
  open_path true d x rw_opened (syscallMode mode) (store_of u) = Ok (i, store') →
  store' !! i = Some n → is_regular_file n = true →
  openForWrite fs p O_RDWR mode u = (Ok (i, stat_size n), counted 1 (set_store store' u)).
Proof.
  intros Q S V X N E D O I R. unfold openForWrite. unfold mbind at 1, st_bind at 1, file at 1.
  unfold Ufs.Touch, with_touched. change (set_flag (Z.land O_RDWR (Z.lnot O_TRUNC)) O_CREATE) with rw_flags.
  destruct (safe p vs x d u Q S V X N E D) as [k SP]. rewrite SP. unfold deferred, OpenFileat.
  rewrite (quiet_open_rw d x mode i n store' (counted k u) Q O I R).
  change (counted 1 (set_store store' (counted k u))) with (counted 1 (counted k (set_store store' u))).
  rewrite counted_counted, counted_closed. replace (k + 1 - k) with 1 by lia.
  change (has O_RDWR O_TRUNC) with false. unfold file, or_close, mbind, st_bind.
  rewrite (quiet_file_Stat i n) by done. cbn. by rewrite R.
Qed.
Lemma quiet_chownFile p vs x d i n u :
  quiet u → sandbox outside base ws (store_of u) → Forall plain vs → plain x →
  unsafePath fs p = Ok (relative (vs ++ [x])) → descends (store_of u) base vs = Some d →
  entry (store_of u) d x i → store_of u !! i = Some n →
  chownFile fs isTest uid gid p u
  = (Ok tt, if isTest then u else set_store (<[i := set_owner uid gid n]> (store_of u)) u).
Proof.
  intros Q S V X N E EN I. unfold chownFile. destruct isTest; [done|]. unfold file, Ufs.Lchown, rename_error, fchown.
  rewrite (quiet_with p vs x d u _ (Ok tt) (set_store (<[i := set_owner uid gid n]> (store_of u)) u)); try done; [by eapply entry_dir|].
  intros k. unfold on, sys_fchownat. rewrite quiet_call by done. unfold change_node, stat_path.
  change (store_of (counted k u)) with (store_of u). rewrite (resolve_entry _ _ _ _ _ EN X). cbn [mbind result_bind]. by rewrite I.
Qed.

(** *** Directories keep what they have *)

Definition grows (store store' : fsys) : Prop := ∀ j es p, i_kind <$> store !! j = Some (IDir es p) →
  ∃ es', i_kind <$> store' !! j = Some (IDir es' p) ∧ es ⊆ es'.
Lemma grows_descends store store' j vs d : grows store store' → descends store j vs = Some d → descends store' j vs = Some d.
Proof.
  intros G. revert j. induction vs as [|w vs IH]; intros j; [done|]. cbn.
  destruct (i_kind <$> store !! j) as [[| es p | | |]|] eqn:K; try done. destruct (G j es p K) as (es' & -> & I).
  destruct (es !! w) as [c|] eqn:C; [|done]. cbn. rewrite (lookup_weaken _ _ _ _ C I). cbn. apply IH.
Qed.
Lemma grows_file store i n n' : store !! i = Some n → is_regular_file n = true → grows store (<[i := n']> store).
Proof.
  intros I R j es p K. destruct (decide (i = j)) as [->|N].
  - rewrite I in K. cbn in K. injection K as K. unfold is_regular_file in R. by rewrite K in R.
  - rewrite lookup_insert_ne by done. by exists es.
Qed.
Lemma grows_trans s1 s2 s3 : grows s1 s2 → grows s2 s3 → grows s1 s3.
Proof.
  intros A B j es p K. destruct (A j es p K) as (es' & K' & I). destruct (B j es' p K') as (es'' & K'' & I').
  exists es''. split; [done|]. by etrans.
Qed.
Lemma grows_entry store store' d x i : grows store store' → entry store d x i → entry store' d x i.
Proof.
  intros G (es & p & K & E). destruct (G d es p K) as (es' & K' & I). exists es', p. split; [done|]. by eapply lookup_weaken.
Qed.

(** What is at a name: the size of a regular file, nothing, or something else. *)
Definition replaced (store : fsys) (d : Z) (x : string) : option Z :=
  match i_kind <$> store !! d with
  | Some (IDir es _) =>
      match es !! x with
      | None => Some 0
      | Some i => match i_kind <$> store !! i with Some (IReg c) => Some (strlen c) | _ => None end
      end
  | _ => None
  end.
(** The file is opened, whether or not it was there. *)
Lemma opened_file d x old mode store :
  replaced store d x = Some old → plain x →
  ∃ i n store1, open_path true d x rw_opened mode store = Ok (i, store1) ∧ entry store1 d x i ∧ store1 !! i = Some n
    ∧ is_regular_file n = true ∧ stat_size n = old ∧ grows store store1
    ∧ (∀ j, j ≠ i → j ≠ d → store1 !! j = store !! j)
    ∧ ∀ y c, y ≠ x → entry store1 d y c ↔ entry store d y c.
Proof.
  unfold replaced. intros R X. destruct (i_kind <$> store !! d) as [[| es p | | |]|] eqn:K; try done.
  destruct (es !! x) as [i|] eqn:E.
  - destruct (store !! i) as [n|] eqn:I; [|done]. cbn in R. destruct (i_kind n) as [c| | | |] eqn:KN; try done. injection R as <-.
    assert (EN : entry store d x i) by (by exists es, p). assert (RN : is_regular_file n = true) by (unfold is_regular_file; by rewrite KN).
    exists i, n, store. rewrite (open_rw_existing d x i n) by done. unfold stat_size. rewrite KN.
    split_and!; try done. intros j es' p' K'. by exists es'.
  - injection R as <-. rewrite (open_rw_new d x mode store es p K E X). unfold add_node.
    set (i := fresh_ino store). set (n := new_node (IReg EmptyString) mode 1).
    assert (NI : store !! i = None) by (apply (not_elem_of_dom (D := gset Z)); apply (is_fresh (dom store : gset Z))).
    assert (ND : i ≠ d) by (intros ->; by rewrite NI in K).
    destruct (store !! d) as [nd|] eqn:D; [|done]. cbn in K. injection K as K.
    assert (SD : set_entry d x i (<[i := n]> store) !! d = Some (set_kind (IDir (<[x := i]> es) p) nd)).
    { unfold set_entry. rewrite lookup_alter_eq, lookup_insert_ne, D by done. cbn. by rewrite K. }
    assert (SO : ∀ j, j ≠ d → set_entry d x i (<[i := n]> store) !! j = <[i := n]> store !! j)
      by (intros j J; unfold set_entry; by rewrite lookup_alter_ne).
    exists i, n, (set_entry d x i (<[i := n]> store)). split; [done|]. split.
    { exists (<[x := i]> es), p. rewrite SD. cbn. by rewrite lookup_insert_eq. }
    split; [by rewrite SO, lookup_insert_eq by done|]. split; [done|]. split; [done|]. split; [|split].
    + intros j es' p' K'. destruct (decide (j = d)) as [->|J].
      * rewrite D in K'. cbn in K'. injection K' as K'. rewrite K in K'. injection K' as <- <-.
        rewrite SD. eexists. split; [done|]. by apply insert_subseteq.
      * rewrite SO by done. destruct (decide (j = i)) as [->|JI]; [by rewrite NI in K'|]. rewrite lookup_insert_ne by done. by exists es'.
    + intros j JI JD. by rewrite SO, lookup_insert_ne by done.
    + intros y c Y. unfold entry. rewrite SD, D. cbn. split; intros (es' & p' & K' & C); injection K' as K'.
      * subst es' p'. exists es, p. rewrite K. split; [done|]. by rewrite lookup_insert_ne in C.
      * rewrite K in K'. injection K' as <- <-. eexists _, _. split; [reflexivity|]. by rewrite lookup_insert_ne.
Qed.

(** *** Writing *)

Lemma limit_nothing r n : n ≤ 0 → LimitReader r n = mkReader [] None.
Proof. intros L. unfold LimitReader. destruct (rd_pieces r); cbn; by rewrite (proj2 (Z.leb_le _ _) L). Qed.
Lemma limit_length r n : strlen (content_of (rd_pieces (LimitReader r n))) ≤ Z.max n 0.
Proof.
  unfold LimitReader. generalize (rd_pieces r) as l. intros l. revert n. induction l as [|q l IH]; intros n; cbn [limit_pieces].
  - destruct (n <=? 0); unfold strlen; cbn; lia.
  - destruct (Z.leb_spec n 0); [unfold strlen; cbn; lia|]. destruct (Z.ltb_spec (strlen q) n); cbn [rd_pieces content_of foldr].
    + unfold strlen at 1. rewrite length_app_str. specialize (IH (n - strlen q)). unfold strlen, content_of in *. lia.
    + rewrite app_str_nil. unfold strlen. assert (L : ∀ m t, (String.length (String.substring 0 m t) ≤ m)%nat).
      { intros m t. revert m. induction t as [|c t IT]; intros [|m]; cbn; try lia. specialize (IT m). lia. }
      specialize (L (Z.to_nat n) q). lia.
Qed.

(** The body of [Write] with the file open. *)
Lemma quiet_write_body p vs x d i n r newSize size u :
  quiet u → sandbox outside base ws (store_of u) → Forall plain vs → plain x →
  unsafePath fs p = Ok (relative (vs ++ [x])) → descends (store_of u) base vs = Some d →
  entry (store_of u) d x i → store_of u !! i = Some n → is_regular_file n = true → ¬ outside i →
  rd_error (LimitReader r newSize) = None →
  let data := content_of (rd_pieces (LimitReader r newSize)) in
  let n' := set_kind (IReg data) n in
  write_body fs isTest uid gid p r newSize i size u
  = ((wrap64 (strlen data - size), Ok tt),
     set_store (<[i := if isTest then n' else set_owner uid gid n']> (store_of u)) u).
Proof.
  intros Q S V X N E EN I R O ER data n'. unfold write_body, file. rewrite (quiet_file_Truncate i n) by done.
  set (u1 := set_store (<[i := set_kind (IReg EmptyString) n]> (store_of u)) u).
  assert (C : (if 0 <? newSize then Copy_reader i (LimitReader r newSize) u1 else ((0, Ok tt), u1))
    = ((strlen data, Ok tt), set_store (<[i := n']> (store_of u)) u)).
  { destruct (Z.ltb_spec 0 newSize) as [L|L].
    - unfold Copy_reader. change 0%nat with (String.length EmptyString).
      rewrite (quiet_pieces i _ _ u1 (set_kind (IReg EmptyString) n)); [|done|subst u1; rewrite store_set; apply lookup_insert_eq|done].
      rewrite ER. subst u1. rewrite store_set, set_store_twice, insert_insert_eq, set_kind_twice. done.
    - subst data n'. rewrite limit_nothing by lia. done. }
  rewrite C. set (store2 := <[i := n']> (store_of u)).
  assert (B : i ≠ base).
  { intros ->. pose proof (base_not_leaf outside base ws _ n S I) as DI. unfold is_directory, is_regular_file in *. by destruct (i_kind n). }
  assert (G : grows (store_of u) store2) by (by eapply grows_file).
  assert (S2 : sandbox outside base ws store2) by (by apply (inner_leaf outside base ws)).
  rewrite (quiet_chownFile p vs x d i n' (set_store store2 u)); rewrite ?store_set; try done.
  - rewrite set_store_twice. subst store2. rewrite insert_insert_eq. by destruct isTest.
  - by eapply grows_descends.
  - by eapply grows_entry.
  - apply lookup_insert_eq.
Qed.

(** Reserving and releasing count what was used. *)
Lemma reserve_release_exact size used d d1 :
  0 ≤ fs_limit d ≤ int64_max → (fs_limit d = 0 → fs_usage d + size ≤ int64_max) → 0 ≤ fs_usage d ≤ int64_max →
  in_int64 size → int64_min ≤ used - Z.max size 0 → used ≤ Z.max size 0 →
  reserveDisk size d = (Ok tt, d1) → fs_usage (releaseDisk (Z.max size 0) used d1) = Z.max 0 (fs_usage d + used).
Proof.
  intros L UN U IS IU UL R. destruct (Z.le_gt_cases size 0) as [N|P].
  - unfold reserveDisk in R. rewrite (proj2 (Z.leb_le _ _) N) in R. injection R as <-. rewrite Z.max_r in * by lia.
    unfold releaseDisk, fs_usage in *. change (0 <? 0) with false. cbn [set_quota set_reserved fs_quota].
    rewrite Z.sub_0_r, (wrap64_id used), Add_snd by (done || (int64; lia)). cbn. int64. lia.
  - rewrite Z.max_l in * by lia. pose proof R as R'. apply reserve_inv in R as [F ->]; [|done].
    assert (fs_usage d + size ≤ int64_max) as FI.
    { destruct (Z.eq_dec (fs_limit d) 0) as [Z0|NZ]; [by apply UN|]. unfold fs_limit, fs_usage in *.
      apply CanFit_spec in F; [|lia|done]. int64. lia. }
    clear F UN. unfold fs_limit, fs_usage, DiskFacts.counted in *.
    rewrite Add_snd by (try done; int64; lia). unfold releaseDisk. rewrite (proj2 (Z.ltb_ge size 0)) by lia. cbn [set_quota set_reserved fs_quota].
    rewrite (wrap64_id (used - size)) by (int64; lia).
    rewrite Add_snd by (unfold DiskFacts.counted; cbn; int64; lia). cbn. int64. lia.
Qed.

(** What a description of the name is. *)
Lemma looked_at d x old u : quiet u → replaced (store_of u) d x = Some old → plain x →
  ∃ st, (∀ k, Lstatat d x (counted k u) = (st, counted k u)) ∧ ∀ s, st = Ok s → IsDir s = false.
Proof.
  intros Q R X. unfold replaced in R. destruct (i_kind <$> store_of u !! d) as [[| es p | | |]|] eqn:K; try done.
  destruct (es !! x) as [i|] eqn:E.
  - destruct (store_of u !! i) as [n|] eqn:I; [|done]. cbn in R. destruct (i_kind n) as [c| | | |] eqn:KN; try done.
    eexists. split; [intros k; apply quiet_stat; [done|by exists es, p|done|exact I]|].
    intros s Y. injection Y as <-. unfold IsDir, is_directory. cbn. by rewrite KN.
  - eexists. split; [intros k; by eapply quiet_absent|done].
Qed.

(** C4: a write stores what it was given.  The filesystem resolves paths with openat2 and is
    at rest while the write runs; the path's directory exists and is reached through real
    directories only, without a link; the path names a regular file or nothing in it; what
    the reader gives, up to the size announced, ends without an error; sizes are within 64
    bits; and the quota allows the difference (a server without a limit, 0, takes anything,
    as long as its usage stays within 64 bits).  Then the write returns without an error,
    the path names a file with exactly those bytes, owned by the server's user (outside of
    tests, in which the code leaves owners alone); the usage has changed by the difference
    to what was there; every other file, and every other entry of the directory, is as it
    was, and no descriptor is left open. *)
Theorem Write_writes p vs x d old r newSize mode disk1 u :
  quiet u → sandbox outside base ws (store_of u) → Forall plain (vs ++ [x]) →
  unsafePath fs p = Ok (relative (vs ++ [x])) → unsafePath fs (path_Dir p) = Ok (relative vs) →
  descends (store_of u) base vs = Some d → replaced (store_of u) d x = Some old →
  0 ≤ newSize ≤ int64_max → old ≤ int64_max → rd_error (LimitReader r newSize) = None →
  0 ≤ fs_limit (u_disk u) ≤ int64_max → (fs_limit (u_disk u) = 0 → fs_usage (u_disk u) + newSize ≤ int64_max) →
  0 ≤ fs_usage (u_disk u) ≤ int64_max → reserveDisk (newSize - old) (u_disk u) = (Ok tt, disk1) →
  let data := content_of (rd_pieces (LimitReader r newSize)) in
  ∃ u' i n, Files.Write fs isTest uid gid p r newSize mode u = (Ok tt, u')
    ∧ entry (store_of u') d x i
    ∧ store_of u' !! i = Some (if isTest then set_kind (IReg data) n else set_owner uid gid (set_kind (IReg data) n))
    ∧ fs_usage (u_disk u') = Z.max 0 (fs_usage (u_disk u) + (strlen data - old))
    ∧ (∀ j, j ≠ i → j ≠ d → store_of u' !! j = store_of u !! j)
    ∧ (∀ y c, y ≠ x → entry (store_of u') d y c ↔ entry (store_of u) d y c)
    ∧ quiet u' ∧ opened u' = opened u.
Proof.
  intros Q S [V X]%Forall_app N ND E RP NS OS ER L UN U RS data. apply list.Forall_cons in X as [X _].
  assert (D : directory (store_of u) d).
  { unfold replaced in RP. destruct (i_kind <$> store_of u !! d) as [[| es p' | | |]|] eqn:K; try done. by exists es, p'. }
  assert (O0 : 0 ≤ old).
  { unfold replaced in RP. repeat case_match; simplify_eq; unfold strlen; lia. }
  destruct (opened_file d x old (syscallMode mode) (store_of u) RP X) as (i & n & store1 & OP & EN & I & R & SZ & G & OJ & OY).
  assert (OD : ¬ outside d) by (eapply (descends_inside outside base ws); [done|apply S|done]).
  assert (IN : inner outside base ws (store_of u) store1 ∧ ¬ outside i).
  { eapply open_entry_ok; [eassumption..|by right|done| |done|exact OP]. done. }
  destruct IN as [[S1 _] OI].
  destruct (looked_at d x old u Q RP X) as (st & ST & NDI).
  assert (LS : Ufs.Lstat fs p u = (st, u)) by (by eapply (quiet_Lstat p vs x d u)).
  assert (C : checkNotDirectory fs p u = (Ok tt, u))
    by (unfold checkNotDirectory; rewrite LS; destruct st as [s|]; [by rewrite (NDI s eq_refl)|done]).
  assert (MK : Files.mkdirAll fs isTest uid gid (path_Dir p) 493 u = (Ok tt, u)).
  { unfold Files.mkdirAll. erewrite st_bind_step; [|unfold file; by rewrite (quiet_MkdirAll (path_Dir p) vs d 493 u)]. done. }
  assert (T : ∃ t, tried (file (Ufs.Lstat fs p)) u = (Ok t, u)).
  { unfold tried, file. rewrite LS. destruct st; eexists; reflexivity. }
  destruct T as [t T]. unfold Files.Write. rewrite (st_bind_step _ _ _ _ _ C), (st_bind_step _ _ _ _ _ MK), (st_bind_step _ _ _ _ _ T).
  rewrite (st_bind_step _ _ _ _ _ (quiet_openForWrite p vs x d i n store1 mode u Q S V X N E D OP I R)).
  rewrite SZ. unfold deferred, reserve. cbn [u_disk counted set_sys set_store].
  rewrite (wrap64_id (newSize - old)) by (int64; lia). rewrite RS. unfold releasing.
  set (v := set_disk disk1 (counted 1 (set_store store1 u))).
  rewrite (quiet_write_body p vs x d i n r newSize old v); try done.
  - set (n' := if isTest then set_kind (IReg data) n else set_owner uid gid (set_kind (IReg data) n)).
    eexists _, i, n. split; [reflexivity|]. fold data n'.
    match goal with |- entry (store_of ?w) _ _ _ ∧ _ => change (store_of w) with (<[i := n']> store1) end.
    split; [|split; [|split; [|split; [|split; [|split]]]]].
    + eapply grows_entry; [by eapply grows_file|done].
    + apply lookup_insert_eq.
    + match goal with |- fs_usage ?w = _ => change w with (releaseDisk (Z.max (newSize - old) 0) (wrap64 (strlen data - old)) disk1) end.
      rewrite wrap64_id. 1: apply reserve_release_exact; try done.
      all: pose proof (limit_length r newSize) as LL; fold data in LL; assert (0 ≤ strlen data) by (unfold strlen; lia); clearbody data; int64; lia.
    + intros j JI JD. rewrite lookup_insert_ne by done. by apply OJ.
    + intros y c Y. rewrite <-OY by done. unfold entry. rewrite lookup_insert_ne; [done|].
      intros <-. destruct EN as (es & p' & K & _). rewrite I in K. cbn in K. injection K as K. unfold is_regular_file in R. by rewrite K in R.
    + done.
    + unfold opened. cbn. lia.
  - by eapply grows_descends.
Qed.
End Writes.
