(* ===== verification/FilesExample.v ===== *)
(** * A server's files, concretely

    The hypotheses of the theorems on [Filesystem] hold on the file system of [UfsExample],
    and what its operations do there is evaluated. *)

From stdpp Require Import base gmap sets list strings numbers sorting.
From Stdlib Require Import Ascii.
From S2P Require Import Prelude GoStrings Paths PathsFacts Disk DiskFacts Inodes Ufs UfsFacts UfsRemove UfsExample Files FilesFacts FilesWrite.
Open Scope Z_scope.

#[local] Existing Instance w_process.
#[local] Instance w_mimetype : Mimetype := {| mime_detect _ := "text/plain"%string; mime_failed := None |}.

Definition w_reader : reader := mkReader ["level"; "-name=world"]%string None.
Definition w_requests : list file_request :=
  [AskUnix (AskOpenFile "/a/y" O_RDONLY 0); AskWrite "a/new/f.txt" w_reader 16 420; AskUnix (AskRename "f" "a/f");
   AskUnix (AskChmod "up" 511); AskChown 9 "up"; AskWriteFrom "up" w_reader; AskFile "esc/passwd"; AskCopy "a/y" "2024-01-01T00:00:00Z";
   AskListDirectory "esc"; AskUnix (AskQuotaRemoveAll 9 9 "esc"); AskTruncate 9 9].
Lemma files_confined_witness :
  good w_outside 3 w_ws (w_ufs w_events)
  ∧ (∀ i, w_outside i → store_of (snd (serve_files (w_unix false) false 988 988 w_requests (w_ufs w_events))) !! i = w_store !! i)
  ∧ ∀ is_ i, Ok is_ ∈ fst (serve_files (w_unix false) false 988 988 w_requests (w_ufs w_events)) → i ∈ is_ → ¬ w_outside i.
Proof.
  split; [exact w_good|].
  apply (files_confined (H := w_process) (w_unix false) w_outside 3 w_ws eq_refl w_names w_descriptor_named false 988 988 w_requests (w_ufs w_events)).
  - exact w_good.
  - repeat (apply list.Forall_cons; split; [done|]). constructor.
Defined.
(** Which of them are served: the file that the link was put in front of is refused. *)
Lemma w_served : map (λ r, match r with Ok _ => true | Err _ => false end)
    (fst (serve_files (w_unix false) false 988 988 w_requests (w_ufs w_events)))
  = [false; false; true; false; true; false; false; true; false; true; true].
Proof. vm_compute. reflexivity. Qed.

Definition w_disk : Filesystem := mkFs (mkQuota 100 20) 0 false 0 0 false 0.
Definition w_quiet : ufs := mkUfs (mkSys w_store [] 0) w_disk.
Lemma Write_writes_witness :
  let data := content_of (rd_pieces (LimitReader w_reader 8)) in
  ∃ u' i n, Files.Write (w_unix true) false 988 988 "/a/y" w_reader 8 420 w_quiet = (Ok tt, u')
    ∧ entry (store_of u') 5 "y" i
    ∧ store_of u' !! i = Some (set_owner 988 988 (set_kind (IReg data) n))
    ∧ fs_usage (u_disk u') = Z.max 0 (fs_usage (u_disk w_quiet) + (strlen data - 1))
    ∧ (∀ j, j ≠ i → j ≠ 5 → store_of u' !! j = store_of w_quiet !! j)
    ∧ (∀ y c, y ≠ "y"%string → entry (store_of u') 5 y c ↔ entry (store_of w_quiet) 5 y c)
    ∧ quiet u' ∧ opened u' = opened w_quiet.
Proof.
  eapply (Write_writes (w_unix true) w_outside 3 w_ws eq_refl w_names eq_refl false 988 988 "/a/y" ["a"%string] "y" 5 1 w_reader 8 420).
  - reflexivity.
  - exact w_sandbox.
  - apply (bool_decide_unpack _). vm_compute. done.
  - vm_compute. reflexivity.
  - vm_compute. reflexivity.
  - reflexivity.
  - vm_compute. reflexivity.
  - unfold int64_max. lia.
  - unfold int64_max. lia.
  - reflexivity.
  - vm_compute. split; congruence.
  - vm_compute. discriminate.
  - vm_compute. split; congruence.
  - vm_compute. reflexivity.
Defined.

Definition w_listed : list Stat := match fst (ListDirectory (w_unix true) "" w_quiet) with Ok l => l | Err _ => [] end.
Lemma w_lists : ListDirectory (w_unix true) "" w_quiet = (Ok w_listed, w_quiet).
Proof. vm_compute. reflexivity. Qed.
Lemma ListDirectory_sorted_witness :
  StronglySorted listed_before w_listed
  ∧ ∃ out, ReadDirMap (w_unix true) "" (entry_stat (w_unix true)) w_quiet = (Ok out, w_quiet) ∧ w_listed ≡ₚ out.
Proof. exact (ListDirectory_sorted (w_unix true) "" w_quiet w_listed w_quiet w_lists). Defined.
Lemma w_listed_names : map sta_name w_listed = ["a"; "esc"; "f"; "up"]%string.
Proof. vm_compute. reflexivity. Qed.

(** The name of a second copy has the number 1. *)
Definition after_copies (n : nat) : ufs := Nat.iter n (λ u, snd (Copy (w_unix true) false 988 988 "f" "now" u)) w_quiet.
Lemma second_copy_numbered_one :
  fst (findCopySuffix 3 "f" "" "now" (after_copies 0)) = Ok "f copy"%string
  ∧ fst (findCopySuffix 3 "f" "" "now" (after_copies 1)) = Ok "f copy 1"%string.
Proof. vm_compute. split; reflexivity. Qed.
