(* ===== verification/Collab.v ===== *)
(** * Collaborative editing (router/websocket/betterfiles_collaboration_ot.go)

    A document shared by several editors.  A client sends the edits of its Monaco
    editor, in UTF-16 offsets, against the content it last saw; the document finds that
    content in its history, turns the edits into an operation, transforms the operation
    past everything applied since, applies it, and answers with edits for the others.
    The operational transformation library is a parameter ([OT]) with the documented
    laws of its functions ([OTLaws]). *)

From stdpp Require Import base list strings numbers sorting.
From Stdlib Require Import Ascii.
From S2P Require Import Prelude GoStrings.
Open Scope Z_scope.

(** ** Text *)

(** A Go string as the sequence of its runes; a byte of no valid sequence is kept as the
    surrogate DC00 + byte, which is the rune of no valid string. *)
Abbreviation text := (list Z).

Definition surrogate (r : Z) : bool := (55296 <=? r) && (r <=? 57343).
(** [utf8.ValidString] *)
Definition valid_text (s : text) : bool :=
  forallb (λ r, (0 <=? r) && (r <=? 1114111) && negb (surrogate r)) s.
(** [[]rune(s)]: U+FFFD for an invalid byte. *)
Definition runes (s : text) : list Z := map (λ r, if surrogate r then 65533 else r) s.
(** The bytes of a string. *)
Definition rune_bytes (r : Z) : Z :=
  if r <? 128 then 1 else if r <? 2048 then 2 else if surrogate r then 1
  else if r <? 65536 then 3 else 4.
Definition byte_len (s : text) : Z := zsum rune_bytes s.

(** [utf16.Encode] *)
Definition utf16_rune (r : Z) : list Z :=
  if r <? 65536 then [r]
  else [55296 + (r - 65536) / 1024; 56320 + (r - 65536) mod 1024].
Definition utf16_Encode (rs : list Z) : list Z := flat_map utf16_rune rs.

Definition betterFilesCollabUTF16Len (content : text) : Z := zlen (utf16_Encode (runes content)).

(** ["%08x"] *)
Definition hex_char (n : Z) : ascii := ascii_of_N (Z.to_N (if n <? 10 then 48 + n else 87 + n)).
Fixpoint hex_digits (k : nat) (n : Z) : string :=
  match k with
  | O => EmptyString
  | S k' => hex_digits k' (n / 16) +:+ String (hex_char (n mod 16)) EmptyString
  end.
Definition betterFilesCollabContentHash (content : text) : string :=
  hex_digits 8 (foldl (λ hash unit, (hash * 31 + unit) mod 2 ^ 32) 0 (utf16_Encode (runes content))).

(** ** The operational transformation library *)

Inductive component := Retain (n : nat) | Delete (n : nat) | Insert (t : text).

(** What a sequence of components does to a text: it must consume it exactly. *)
Fixpoint run_ops (l : list component) (s : text) : option text :=
  match l with
  | [] => if decide (s = []) then Some [] else None
  | Retain n :: l' =>
      if decide (n ≤ length s)%nat then app (take n s) <$> run_ops l' (drop n s) else None
  | Delete n :: l' => if decide (n ≤ length s)%nat then run_ops l' (drop n s) else None
  | Insert t :: l' => app t <$> run_ops l' s
  end.
Fixpoint base_len (l : list component) : nat :=
  match l with
  | [] => 0
  | Retain n :: l' | Delete n :: l' => n + base_len l'
  | Insert _ :: l' => base_len l'
  end.

Class OT (op : Type) := {
  ot_WithCapacity : op;
  ot_Retain : nat → op → op;
  ot_Delete : nat → op → op;
  ot_Insert : text → op → op;
  ot_Ops : op → list component;
  ot_BaseLen : op → nat;
  ot_Apply : op → text → option text;
  ot_Transform : op → op → option (op * op);
  ot_Invert : op → text → op;
}.

(** The documented behaviour: the builders append a component (in whatever normal
    form), [Apply] performs the components, two operations on the same text are
    transformed so that either order gives the same text, and the inverse undoes. *)
Class OTLaws (op : Type) `{OT op} := {
  ot_new_law s : run_ops (ot_Ops ot_WithCapacity) s = run_ops [] s;
  ot_retain_law n o s : run_ops (ot_Ops (ot_Retain n o)) s = run_ops (ot_Ops o ++ [Retain n]) s;
  ot_delete_law n o s : run_ops (ot_Ops (ot_Delete n o)) s = run_ops (ot_Ops o ++ [Delete n]) s;
  ot_insert_law t o s : run_ops (ot_Ops (ot_Insert t o)) s = run_ops (ot_Ops o ++ [Insert t]) s;
  ot_baselen_law o : ot_BaseLen o = base_len (ot_Ops o);
  ot_apply_law o s : ot_Apply o s = run_ops (ot_Ops o) s;
  ot_transform_law a b : ot_BaseLen a = ot_BaseLen b →
    ∃ a' b', ot_Transform a b = Some (a', b')
      ∧ ∀ s sa sb, ot_Apply a s = Some sa → ot_Apply b s = Some sb →
          ∃ t, ot_Apply b' sa = Some t ∧ ot_Apply a' sb = Some t;
  ot_invert_law o s t : ot_Apply o s = Some t → ot_Apply (ot_Invert o s) t = Some s;
}.

(** ** Data *)

Definition betterFilesCollabHistoryLimit : nat := 128.

Inductive collaberr :=
| errBetterFilesCollabBaseNotFound | errBetterFilesCollabInvalidEdit | errBetterFilesCollabTooLarge
| errTransform | errApply | errReconstruct | errIndex.

Record TextEdit := mkEdit {
  te_RangeOffset : Z; te_RangeLength : Z; te_Text : text; te_BaseHash : string; te_BaseLength : Z }.

Section Document.
Context {op : Type} `{OT op}.

Record Operation := mkOperation {
  op_Revision : Z; op_BaseHash : string; op_BaseLength : Z; op_TargetHash : string; op_TargetLen : Z;
  op_Forward : op; op_Inverse : op }.

Record Document := mkDocument {
  doc_Content : text; doc_Revision : Z; doc_History : list Operation }.

Record ApplyResult := mkApplyResult {
  ar_Changes : list TextEdit; ar_Revision : Z; ar_Transformed : bool }.

Definition newBetterFilesCollabDocument (content : text) : Document := mkDocument content 0 [].

Definition replace (content : text) (d : Document) : Document :=
  mkDocument content (doc_Revision d + 1) [].

Definition snapshot (d : Document) : text * Z := (doc_Content d, doc_Revision d).

(** ** Offsets *)

Fixpoint utf16_prefix (at_ : Z) (rs : list Z) : list Z :=
  at_ :: match rs with
         | [] => []
         | r :: rs' => utf16_prefix (if 65535 <? r then at_ + 1 + 1 else at_ + 1) rs'
         end.
Definition betterFilesCollabUTF16Prefix (rs : list Z) : list Z := utf16_prefix 0 rs.

(** [sort.SearchInts] on an ascending list: the first index that is not below. *)
Fixpoint SearchInts (l : list Z) (x : Z) : nat :=
  match l with
  | [] => 0
  | y :: l' => if x <=? y then 0 else S (SearchInts l' x)
  end.
Definition betterFilesCollabRuneOffset (prefix : list Z) (utf16Offset : Z) : option nat :=
  let index := SearchInts prefix utf16Offset in
  if bool_decide (prefix !! index = Some utf16Offset) then Some index else None.

(** ** Edits to an operation *)

Definition offset_le (a b : TextEdit) : Prop := te_RangeOffset a ≤ te_RangeOffset b.
#[global] Instance offset_le_dec : RelDecision offset_le.
Proof. intros a b. unfold offset_le. apply _. Defined.

(** The loop over the sorted edits: the operation so far and the cursor. *)
Fixpoint edits_loop (prefix : list Z) (changes : list TextEdit) (o : op) (cursor : nat)
    : result collaberr (op * nat) :=
  match changes with
  | [] => Ok (o, cursor)
  | change :: changes' =>
      if (te_RangeOffset change <? 0) || (te_RangeLength change <? 0) || negb (valid_text (te_Text change))
      then Err errBetterFilesCollabInvalidEdit
      else match betterFilesCollabRuneOffset prefix (te_RangeOffset change) with
      | None => Err errBetterFilesCollabInvalidEdit
      | Some start =>
          match betterFilesCollabRuneOffset prefix (wrap64 (te_RangeOffset change + te_RangeLength change)) with
          | None => Err errBetterFilesCollabInvalidEdit
          | Some end_ =>
              if bool_decide (start < cursor)%nat || bool_decide (end_ < start)%nat
              then Err errBetterFilesCollabInvalidEdit
              else edits_loop prefix changes'
                     (ot_Insert (te_Text change)
                        (ot_Delete (end_ - start) (ot_Retain (start - cursor) o))) end_
          end
      end
  end.

Definition betterFilesCollabChangesToOperation (content : text) (changes : list TextEdit)
    : result collaberr op :=
  if negb (valid_text content) || bool_decide (changes = []) then Err errBetterFilesCollabInvalidEdit
  else
    let rs := runes content in
    '(o, cursor) ← edits_loop (betterFilesCollabUTF16Prefix rs) (merge_sort offset_le changes)
                     ot_WithCapacity 0;
    Ok (ot_Retain (length rs - cursor) o).

(** ** An operation to edits *)

(** [flush]: a pending edit that changes something is kept. *)
Definition flush (pending : option TextEdit) (changes : list TextEdit) : list TextEdit :=
  match pending with
  | Some p => if bool_decide (te_RangeLength p ≠ 0) || bool_decide (te_Text p ≠ []) then changes ++ [p]
              else changes
  | None => changes
  end.

(** The loop over the components; an index outside [prefix] would panic. *)
Fixpoint changes_loop (prefix : list Z) (nrunes : nat) (baseHash : string) (baseLength : Z)
    (ops : list component) (sourceRune : nat) (pending : option TextEdit) (changes : list TextEdit)
    : result collaberr (nat * list TextEdit) :=
  let opened : result collaberr TextEdit :=
    match pending with
    | Some p => Ok p
    | None => match prefix !! sourceRune with
              | Some off => Ok (mkEdit off 0 [] baseHash baseLength)
              | None => Err errIndex
              end
    end in
  match ops with
  | [] => Ok (sourceRune, flush pending changes)
  | Retain n :: ops' =>
      changes_loop prefix nrunes baseHash baseLength ops' (sourceRune + n) None (flush pending changes)
  | Insert t :: ops' =>
      p ← opened;
      changes_loop prefix nrunes baseHash baseLength ops' sourceRune
        (Some (mkEdit (te_RangeOffset p) (te_RangeLength p) (te_Text p ++ t) (te_BaseHash p) (te_BaseLength p)))
        changes
  | Delete n :: ops' =>
      let end_ := (sourceRune + n)%nat in
      if bool_decide (nrunes < end_)%nat then Err errBetterFilesCollabInvalidEdit
      else
        p ← opened;
        match prefix !! end_, prefix !! sourceRune with
        | Some e, Some b =>
            changes_loop prefix nrunes baseHash baseLength ops' end_
              (Some (mkEdit (te_RangeOffset p) (te_RangeLength p + (e - b)) (te_Text p)
                       (te_BaseHash p) (te_BaseLength p)))
              changes
        | _, _ => Err errIndex
        end
  end.

Definition betterFilesCollabOperationToChanges (content : text) (operation : op)
    : result collaberr (list TextEdit) :=
  if negb (bool_decide (ot_BaseLen operation = length content)) then Err errBetterFilesCollabInvalidEdit
  else
    let rs := runes content in
    let prefix := betterFilesCollabUTF16Prefix rs in
    '(sourceRune, changes) ←
      changes_loop prefix (length rs) (betterFilesCollabContentHash content)
        (default 0 (last prefix)) (ot_Ops operation) 0 None [];
    if negb (bool_decide (sourceRune = length rs)) then Err errBetterFilesCollabInvalidEdit
    else Ok changes.

(** ** The base of an edit *)

Definition same_base (hash : string) (len : Z) (change : TextEdit) : bool :=
  bool_decide (te_BaseHash change = hash) && bool_decide (te_BaseLength change = len).

(** The revision the first matching entry of the history names. *)
Fixpoint find_base (history : list Operation) (hash : string) (len : Z) : option Z :=
  match history with
  | [] => None
  | h :: history' =>
      if bool_decide (op_BaseHash h = hash) && bool_decide (op_BaseLength h = len)
      then Some (op_Revision h - 1)
      else if bool_decide (op_TargetHash h = hash) && bool_decide (op_TargetLen h = len)
      then Some (op_Revision h)
      else find_base history' hash len
  end.

(** Undoing from the newest entry, down to the base revision. *)
Fixpoint undo (newest_first : list Operation) (baseRevision : Z) (content : text) : option text :=
  match newest_first with
  | [] => Some content
  | h :: l => if op_Revision h <=? baseRevision then Some content
              else content' ← ot_Apply (op_Inverse h) content; undo l baseRevision content'
  end.

Definition resolveBase (d : Document) (changes : list TextEdit) : result collaberr (Z * text) :=
  match changes with
  | [] => Err errBetterFilesCollabInvalidEdit
  | first :: rest =>
      let baseHash := te_BaseHash first in
      let baseLength := te_BaseLength first in
      if negb (forallb (same_base baseHash baseLength) rest) then Err errBetterFilesCollabInvalidEdit
      else if bool_decide (baseHash = EmptyString) then Ok (doc_Revision d, doc_Content d)
      else if baseLength <? 0 then Err errBetterFilesCollabInvalidEdit
      else if bool_decide (betterFilesCollabContentHash (doc_Content d) = baseHash)
              && bool_decide (betterFilesCollabUTF16Len (doc_Content d) = baseLength)
      then Ok (doc_Revision d, doc_Content d)
      else
        match find_base (doc_History d) baseHash baseLength with
        | None => Err errBetterFilesCollabBaseNotFound
        | Some baseRevision =>
            if baseRevision <? 0 then Err errBetterFilesCollabBaseNotFound
            else match undo (reverse (doc_History d)) baseRevision (doc_Content d) with
            | None => Err errReconstruct
            | Some baseContent =>
                if negb (bool_decide (betterFilesCollabContentHash baseContent = baseHash)
                         && bool_decide (betterFilesCollabUTF16Len baseContent = baseLength))
                then Err errBetterFilesCollabBaseNotFound
                else Ok (baseRevision, baseContent)
            end
        end
  end.

(** ** Applying *)

(** The loop that transforms the operation past the history after its base. *)
Fixpoint transform_past (history : list Operation) (baseRevision : Z) (incoming : op)
    : result collaberr op :=
  match history with
  | [] => Ok incoming
  | h :: history' =>
      if op_Revision h <=? baseRevision then transform_past history' baseRevision incoming
      else match ot_Transform incoming (op_Forward h) with
           | None => Err errTransform
           | Some (transformed, _) => transform_past history' baseRevision transformed
           end
  end.

Definition applyMonacoChanges (changes : list TextEdit) (maxBytes : Z) (d : Document)
    : result collaberr ApplyResult * Document :=
  let attempt : result collaberr (ApplyResult * Document) :=
    '(baseRevision, baseContent) ← resolveBase d changes;
    incoming0 ← betterFilesCollabChangesToOperation baseContent changes;
    incoming ← transform_past (doc_History d) baseRevision incoming0;
    let current := doc_Content d in
    normalized ← betterFilesCollabOperationToChanges current incoming;
    match ot_Apply incoming current with
    | None => Err errApply
    | Some next =>
        if (0 <? maxBytes) && (maxBytes <? byte_len next) then Err errBetterFilesCollabTooLarge
        else
          let revision := doc_Revision d + 1 in
          let history := doc_History d ++
            [mkOperation revision (betterFilesCollabContentHash current) (betterFilesCollabUTF16Len current)
               (betterFilesCollabContentHash next) (betterFilesCollabUTF16Len next)
               incoming (ot_Invert incoming current)] in
          let history := if bool_decide (betterFilesCollabHistoryLimit < length history)%nat
                         then drop (length history - betterFilesCollabHistoryLimit) history
                         else history in
          Ok (mkApplyResult normalized revision (negb (baseRevision =? revision - 1)),
              mkDocument next revision history)
    end in
  match attempt with
  | Ok (r, d') => (Ok r, d')
  | Err e => (Err e, d)
  end.
End Document.
Arguments Operation : clear implicits.
Arguments Document : clear implicits.
