(* ===== verification/CollabFacts.v ===== *)
(** * Correctness of collaborative editing

    Components as functions on texts, edits in UTF-16 offsets against operations in
    runes, the history and its inverses, and convergence.  The last section shows that
    the laws asked of the library can hold. *)

From stdpp Require Import base sets list strings numbers sorting.
From S2P Require Import Prelude GoStrings Collab.
Open Scope Z_scope.

(** ** Components *)

Lemma run_ops_is_Some l s : is_Some (run_ops l s) ↔ length s = base_len l.
Proof.
  revert s. induction l as [|[n|n|t] l IH]; intros s; cbn [run_ops base_len].
  - case_decide as E; [subst; naive_solver|]. split; [by intros []|]. by intros ?%nil_length_inv.
  - case_decide; [|split; [by intros []|lia]]. rewrite fmap_is_Some, IH, length_drop. lia.
  - case_decide; [|split; [by intros []|lia]]. rewrite IH, length_drop. lia.
  - by rewrite fmap_is_Some.
Qed.

Lemma run_ops_app l1 l2 a b ra rb :
  run_ops l1 a = Some ra → run_ops l2 b = Some rb → run_ops (l1 ++ l2) (a ++ b) = Some (ra ++ rb).
Proof.
  revert a ra. induction l1 as [|[n|n|t] l1 IH]; intros a ra Ha Hb; cbn [run_ops app] in *.
  - case_decide; [|done]. by simplify_eq.
  - case_decide; [|done]. apply fmap_Some in Ha as (x & Hx & ->).
    rewrite decide_True by (rewrite length_app; lia).
    rewrite take_app_le, drop_app_le, (IH _ _ Hx Hb) by lia. simpl. by rewrite <-app_assoc.
  - case_decide; [|done]. rewrite decide_True by (rewrite length_app; lia).
    rewrite drop_app_le by lia. by apply IH.
  - apply fmap_Some in Ha as (x & Hx & ->). rewrite (IH _ _ Hx Hb). simpl. by rewrite <-app_assoc.
Qed.

(** Sequences with the same effect. *)
Definition same_effect (l1 l2 : list component) : Prop := ∀ s, run_ops l1 s = run_ops l2 s.
Infix "≃" := same_effect (at level 70).

#[global] Instance same_effect_equiv : Equivalence same_effect.
Proof. split; [by intros ? ?|by intros ? ? H s|by intros ? ? ? H1 H2 s; rewrite H1]. Qed.

Lemma base_len_app l1 l2 : base_len (l1 ++ l2) = (base_len l1 + base_len l2)%nat.
Proof. induction l1 as [|[] l1 IH]; simpl; lia. Qed.

#[global] Instance base_len_Proper : Proper (same_effect ==> eq) base_len.
Proof.
  intros l1 l2 H. assert (is_Some (run_ops l1 (replicate (base_len l1) 0))) as Hs.
  { apply run_ops_is_Some. apply length_replicate. }
  rewrite H in Hs. apply run_ops_is_Some in Hs. by rewrite length_replicate in Hs.
Qed.

Lemma run_ops_split l1 l2 s r :
  run_ops (l1 ++ l2) s = Some r →
  ∃ a b ra rb, s = a ++ b ∧ run_ops l1 a = Some ra ∧ run_ops l2 b = Some rb ∧ r = ra ++ rb.
Proof.
  intros Hr. assert (length s = base_len l1 + base_len l2)%nat as Hl.
  { rewrite <-base_len_app. apply run_ops_is_Some. eauto. }
  assert (is_Some (run_ops l1 (take (base_len l1) s))) as [ra Ha].
  { apply run_ops_is_Some. rewrite length_take. lia. }
  assert (is_Some (run_ops l2 (drop (base_len l1) s))) as [rb Hb].
  { apply run_ops_is_Some. rewrite length_drop. lia. }
  exists (take (base_len l1) s), (drop (base_len l1) s), ra, rb.
  pose proof (run_ops_app _ _ _ _ _ _ Ha Hb) as E. rewrite take_drop in E.
  split_and!; [by rewrite take_drop|done|done|congruence].
Qed.

#[global] Instance app_same_effect : Proper (same_effect ==> same_effect ==> same_effect) app.
Proof.
  assert (∀ l1 l1' l2 l2' s r, l1 ≃ l1' → l2 ≃ l2' → run_ops (l1 ++ l2) s = Some r → run_ops (l1' ++ l2') s = Some r) as Hdir.
  { intros l1 l1' l2 l2' s r H1 H2 (a & b & ra & rb & -> & Ha & Hb & ->)%run_ops_split.
    apply run_ops_app; [by rewrite <-H1|by rewrite <-H2]. }
  intros l1 l1' H1 l2 l2' H2 s. apply option_eq. intros r. split; apply Hdir; done || by symmetry.
Qed.

(** ** UTF-16 *)

(** The UTF-16 text of an editor. *)
Definition enc (s : text) : list Z := utf16_Encode (runes s).

Lemma enc_app a b : enc (a ++ b) = enc a ++ enc b.
Proof. unfold enc, utf16_Encode, runes. by rewrite map_app, flat_map_app. Qed.

Lemma runes_length s : length (runes s) = length s.
Proof. apply length_map. Qed.

Lemma utf16_rune_len r : zlen (utf16_rune r) = if 65535 <? r then 2 else 1.
Proof. unfold utf16_rune. destruct (Z.ltb_spec r 65536), (Z.ltb_spec 65535 r); done || lia. Qed.

(** The prefix table holds the offset of every rune. *)
Lemma prefix_lookup at_ rs i :
  utf16_prefix at_ rs !! i
  = if decide (i ≤ length rs)%nat then Some (at_ + zlen (utf16_Encode (take i rs))) else None.
Proof.
  revert at_ i. induction rs as [|r rs IH]; intros at_ [|i]; cbn [utf16_prefix].
  - rewrite decide_True by lia. simpl. f_equal. unfold zlen. simpl. lia.
  - by rewrite decide_False by (simpl; lia).
  - rewrite decide_True by lia. simpl. f_equal. unfold zlen. simpl. lia.
  - rewrite lookup_cons, IH. simpl length. do 2 case_decide; try done; try lia. f_equal.
    cbn [take utf16_Encode flat_map]. unfold zlen. rewrite length_app, Nat2Z.inj_add.
    fold (zlen (utf16_rune r)). rewrite utf16_rune_len. fold (utf16_Encode (take i rs)).
    destruct (65535 <? r); lia.
Qed.

Lemma prefix_at s i e :
  betterFilesCollabUTF16Prefix (runes s) !! i = Some e ↔ (i ≤ length s)%nat ∧ e = zlen (enc (take i s)).
Proof.
  unfold betterFilesCollabUTF16Prefix. rewrite prefix_lookup, runes_length. unfold enc.
  unfold runes at 1. rewrite firstn_map. fold (runes (take i s)).
  case_decide; split; intros Hx; [injection Hx as <-; lia|destruct Hx as [_ ->]; f_equal; lia|done|lia].
Qed.

Lemma rune_offset_Some s off i :
  betterFilesCollabRuneOffset (betterFilesCollabUTF16Prefix (runes s)) off = Some i →
  (i ≤ length s)%nat ∧ off = zlen (enc (take i s)).
Proof. unfold betterFilesCollabRuneOffset. case_bool_decide as Hb; [|done]. intros [= <-]. by apply prefix_at. Qed.

(** ** What an editor does with edits *)

(** Replacing a range of UTF-16 units. *)
Definition splice (e : TextEdit) (u : list Z) : list Z :=
  take (Z.to_nat (te_RangeOffset e)) u ++ enc (te_Text e)
  ++ drop (Z.to_nat (te_RangeOffset e + te_RangeLength e)) u.

(** Edits in ascending order, all relative to the same text: the last first. *)
Definition splice_all (u : list Z) (es : list TextEdit) : list Z := foldr splice u es.
(** Edits in any order. *)
Definition monaco (u : list Z) (es : list TextEdit) : list Z := splice_all u (merge_sort offset_le es).

Lemma take_enc i s rest : (i ≤ length s)%nat → take (Z.to_nat (zlen (enc (take i s)))) (enc s ++ rest) = enc (take i s).
Proof.
  intros Hi. rewrite <-(take_drop i s) at 2. rewrite enc_app, <-app_assoc. unfold zlen.
  by rewrite Nat2Z.id, take_app_length.
Qed.

(** Replacing runes [i] to [j] of [s]. *)
Lemma splice_enc e s i j out :
  te_RangeOffset e = zlen (enc (take i s)) → te_RangeOffset e + te_RangeLength e = zlen (enc (take j s)) →
  (i ≤ j)%nat → (j ≤ length s)%nat →
  splice e (enc (take j s) ++ out) = enc (take i s) ++ enc (te_Text e) ++ out.
Proof.
  intros H1 H2 Hij Hj. unfold splice. rewrite H2, H1. f_equal; [|f_equal].
  - replace (take i s) with (take i (take j s)) by (rewrite take_take; f_equal; lia).
    apply take_enc. rewrite length_take. lia.
  - unfold zlen. by rewrite Nat2Z.id, drop_app_length.
Qed.

Section Facts.
Context {op : Type} `{OTLaws op}.

Lemma new_effect : ot_Ops ot_WithCapacity ≃ [].
Proof. intros s. apply ot_new_law. Qed.
Lemma retain_effect n o : ot_Ops (ot_Retain n o) ≃ ot_Ops o ++ [Retain n].
Proof. intros s. apply ot_retain_law. Qed.
Lemma delete_effect n o : ot_Ops (ot_Delete n o) ≃ ot_Ops o ++ [Delete n].
Proof. intros s. apply ot_delete_law. Qed.
Lemma insert_effect t o : ot_Ops (ot_Insert t o) ≃ ot_Ops o ++ [Insert t].
Proof. intros s. apply ot_insert_law. Qed.

(** ** Edits to an operation *)

(** The components of located edits: runes [start] to [end_] replaced by a text. *)
Fixpoint components (cursor : nat) (locs : list (nat * nat * text)) : list component :=
  match locs with
  | [] => []
  | (start, end_, t) :: locs' =>
      Retain (start - cursor) :: Delete (end_ - start) :: Insert t :: components end_ locs'
  end.
Fixpoint last_end (cursor : nat) (locs : list (nat * nat * text)) : nat :=
  match locs with [] => cursor | (_, end_, _) :: locs' => last_end end_ locs' end.

(** An edit located in a text; its fields are Go ints. *)
Definition located (s : text) (e : TextEdit) (l : nat * nat * text) : Prop :=
  let '(start, end_, t) := l in
  te_RangeOffset e = zlen (enc (take start s))
  ∧ te_RangeOffset e + te_RangeLength e = zlen (enc (take end_ s))
  ∧ t = te_Text e ∧ (start ≤ end_ ≤ length s)%nat.

Fixpoint ascending (cursor : nat) (locs : list (nat * nat * text)) : Prop :=
  match locs with
  | [] => True
  | (start, end_, _) :: locs' => (cursor ≤ start ≤ end_)%nat ∧ ascending end_ locs'
  end.

Definition int_edit (e : TextEdit) : Prop := in_int64 (te_RangeOffset e) ∧ in_int64 (te_RangeLength e).

Lemma no_wrap a b v : in_int64 a → in_int64 b → 0 ≤ a → 0 ≤ b → 0 ≤ v → wrap64 (a + b) = v → a + b = v.
Proof.
  intros Ha Hb ? ? ? E. unfold in_int64, int64_min, int64_max in *.
  destruct (decide (a + b < 2 ^ 63)).
  - rewrite wrap64_id in E; [done|]. unfold in_int64, int64_min, int64_max. lia.
  - unfold wrap64 in E. replace (a + b + 2 ^ 63) with (a + b - 2 ^ 63 + 1 * 2 ^ 64) in E by lia.
    rewrite Z.mod_add, Z.mod_small in E by lia. lia.
Qed.

Lemma edits_loop_spec s changes o cursor o' cursor' :
  Forall int_edit changes →
  edits_loop (betterFilesCollabUTF16Prefix (runes s)) changes o cursor = Ok (o', cursor') →
  ∃ locs, Forall2 (located s) changes locs ∧ ascending cursor locs ∧ cursor' = last_end cursor locs
          ∧ ot_Ops o' ≃ ot_Ops o ++ components cursor locs.
Proof.
  intros Hint. revert o cursor. induction Hint as [|e changes [Hi1 Hi2] _ IH]; intros o cursor Hl;
    cbn [edits_loop] in Hl.
  { simplify_eq. exists []. split_and!; [constructor|done|done|]. by rewrite app_nil_r. }
  destruct (Z.ltb_spec (te_RangeOffset e) 0); [done|].
  destruct (Z.ltb_spec (te_RangeLength e) 0); [done|]. cbn [orb] in Hl.
  destruct (negb (valid_text (te_Text e))); [done|].
  destruct (betterFilesCollabRuneOffset _ (te_RangeOffset e)) as [start|] eqn:E1; [|done].
  destruct (betterFilesCollabRuneOffset _ (wrap64 _)) as [end_|] eqn:E2; [|done].
  apply rune_offset_Some in E1 as [Hs1 E1]. apply rune_offset_Some in E2 as [Hs2 E2].
  apply no_wrap in E2; [|done|done|lia|lia|unfold zlen; lia].
  destruct (bool_decide_reflect (start < cursor)%nat); [done|].
  destruct (bool_decide_reflect (end_ < start)%nat); [done|]. cbn [orb] in Hl.
  apply IH in Hl as (locs & Hf & Ha & -> & Hops). exists ((start, end_, te_Text e) :: locs).
  split_and!.
  - constructor; [|done]. unfold located. split_and!; done || lia.
  - simpl. split; [lia|done].
  - done.
  - rewrite Hops. cbn [components].
    assert (ot_Ops (ot_Insert (te_Text e) (ot_Delete (end_ - start) (ot_Retain (start - cursor) o)))
            ≃ ot_Ops o ++ [Retain (start - cursor); Delete (end_ - start); Insert (te_Text e)]) as ->.
    { rewrite insert_effect, delete_effect, retain_effect. by rewrite <-!app_assoc. }
    by rewrite <-app_assoc.
Qed.

(** Running the components of located edits: the editor's text. *)
Lemma components_run s edits locs cursor :
  Forall2 (located s) edits locs → ascending cursor locs → (cursor ≤ length s)%nat →
  ∃ out, run_ops (components cursor locs ++ [Retain (length s - last_end cursor locs)]) (drop cursor s) = Some out
    ∧ splice_all (enc s) edits = enc (take cursor s) ++ enc out.
Proof.
  intros Hf. revert cursor. induction Hf as [|e [[start end_] t] edits locs Hl _ IH]; intros cursor Ha Hc.
  { exists (drop cursor s). cbn [components app last_end run_ops splice_all foldr].
    rewrite decide_True by (rewrite length_drop; lia).
    rewrite decide_True by (apply nil_length_inv; rewrite !length_drop; lia). simpl.
    rewrite app_nil_r, take_ge by (rewrite length_drop; lia). by rewrite <-enc_app, take_drop. }
  destruct Hl as (E1 & E2 & -> & Hse), Ha as [Hcs Ha]. destruct (IH end_ Ha ltac:(lia)) as (out & Hr & Hs).
  exists (take (start - cursor) (drop cursor s) ++ te_Text e ++ out).
  cbn [components app last_end run_ops]. rewrite decide_True by (rewrite length_drop; lia).
  rewrite drop_drop. replace (cursor + (start - cursor))%nat with start by lia.
  rewrite decide_True by (rewrite length_drop; lia). rewrite drop_drop.
  replace (start + (end_ - start))%nat with end_ by lia. rewrite Hr. split; [done|].
  cbn [splice_all foldr]. fold (splice_all (enc s) edits). rewrite Hs.
  rewrite (splice_enc _ s start end_) by (done || lia). rewrite !enc_app, !app_assoc. f_equal. f_equal.
  rewrite <-enc_app. f_equal. rewrite take_drop_commute. replace (cursor + (start - cursor))%nat with start by lia.
  rewrite <-(take_drop cursor (take start s)) at 1. rewrite take_take. f_equal. f_equal. lia.
Qed.

(** The operation does what the editor did. *)
Lemma ChangesToOperation_spec s changes o :
  Forall int_edit changes → betterFilesCollabChangesToOperation s changes = Ok o →
  ∃ out, ot_Apply o s = Some out ∧ enc out = monaco (enc s) changes.
Proof.
  intros Hint Ho. unfold betterFilesCollabChangesToOperation in Ho. case_match; [done|].
  apply result_bind_Ok in Ho as ([o' cursor] & Hl & Ho). injection Ho as <-.
  apply edits_loop_spec in Hl as (locs & Hf & Ha & -> & Hops).
  2:{ by rewrite merge_sort_Permutation. }
  destruct (components_run s _ locs 0 Hf Ha ltac:(lia)) as (out & Hr & Hs).
  exists out. split; [|by unfold monaco].
  rewrite drop_0 in Hr. rewrite ot_apply_law, <-Hr, runes_length.
  assert (ot_Ops (ot_Retain (length s - last_end 0 locs) o')
          ≃ components 0 locs ++ [Retain (length s - last_end 0 locs)]) as He; [|apply He].
  by rewrite retain_effect, Hops, new_effect.
Qed.

(** ** An operation to edits *)

(** The edit being gathered replaces runes [q] to [src]. *)
Definition pending_at (s : text) (src : nat) (pending : option TextEdit) (q : nat) (t : text) : Prop :=
  match pending with
  | None => q = src ∧ t = []
  | Some p => te_RangeOffset p = zlen (enc (take q s))
              ∧ te_RangeOffset p + te_RangeLength p = zlen (enc (take src s)) ∧ t = te_Text p ∧ (q ≤ src)%nat
  end.

Lemma enc_take_eq s q src :
  (q ≤ src)%nat → zlen (enc (take q s)) = zlen (enc (take src s)) → enc (take q s) = enc (take src s).
Proof.
  intros Hq Hl. assert (take src s = take q s ++ take (src - q) (drop q s)) as E.
  { rewrite <-(take_drop q (take src s)), take_take. f_equal; [f_equal; lia|].
    by rewrite skipn_firstn_comm. }
  rewrite E, enc_app in *. unfold zlen in Hl. rewrite length_app in Hl.
  rewrite (nil_length_inv (enc (take (src - q) (drop q s)))) by lia. by rewrite app_nil_r.
Qed.

(** Flushing the pending edit. *)
Lemma flush_spec s src pending q t acc more out :
  pending_at s src pending q t → (src ≤ length s)%nat →
  splice_all (enc s) more = enc (take src s) ++ out →
  ∃ kept, flush pending acc ++ more = acc ++ kept
          ∧ splice_all (enc s) kept = enc (take q s) ++ enc t ++ out.
Proof.
  intros Hp Hsrc Hm. destruct pending as [p|]; cbn [flush pending_at] in *.
  - destruct Hp as (H1 & H2 & -> & Hq).
    destruct (bool_decide (te_RangeLength p ≠ 0) || bool_decide (te_Text p ≠ [])) eqn:Eb.
    + exists (p :: more). rewrite <-app_assoc. split; [done|]. cbn [splice_all foldr].
      fold (splice_all (enc s) more). rewrite Hm. by apply splice_enc.
    + exists more. split; [done|]. rewrite Hm.
      apply orb_false_iff in Eb as [E1%bool_decide_eq_false E2%bool_decide_eq_false].
      assert (te_RangeLength p = 0) by lia. assert (te_Text p = []) as -> by (by apply dec_stable).
      rewrite (enc_take_eq s q src); [done|done|lia].
  - destruct Hp as [-> ->]. by exists more.
Qed.

Lemma changes_loop_spec s hash len ops src pending acc q t out :
  pending_at s src pending q t → (src ≤ length s)%nat → run_ops ops (drop src s) = Some out →
  ∃ more, changes_loop (betterFilesCollabUTF16Prefix (runes s)) (length (runes s)) hash len ops src pending acc
            = Ok (length s, acc ++ more)
          ∧ splice_all (enc s) more = enc (take q s) ++ enc t ++ enc out.
Proof.
  rewrite runes_length. revert src pending acc q t out.
  induction ops as [|[n|n|u] ops IH]; intros src pending acc q t out Hp Hsrc Hr; cbn [run_ops] in Hr.
  - case_decide as Hd; [|done]. injection Hr as <-.
    assert (src = length s) as ->. { apply (f_equal length) in Hd. rewrite length_drop in Hd. simpl in Hd. lia. }
    destruct (flush_spec s (length s) pending q t acc [] [] Hp ltac:(lia)) as (kept & Hk & Hs).
    { cbn [splice_all foldr]. by rewrite firstn_all, app_nil_r. }
    exists kept. cbn [changes_loop]. rewrite app_nil_r in Hk. by rewrite Hk, Hs.
  - case_decide as Hn; [|done]. rewrite length_drop in Hn. apply fmap_Some in Hr as (o & Ho & ->).
    rewrite drop_drop in Ho. cbn [changes_loop].
    destruct (IH (src + n)%nat None (flush pending acc) (src + n)%nat [] o) as (more & -> & Hm); [done|lia|done|].
    destruct (flush_spec s src pending q t acc more (enc (take n (drop src s)) ++ enc o) Hp Hsrc) as (kept & Hk & Hs).
    { rewrite Hm. change (enc []) with (@nil Z). by rewrite app_nil_l, <-(take_take_drop s src n), enc_app, <-app_assoc. }
    exists kept. rewrite Hk, enc_app. done.
  - case_decide as Hn; [|done]. rewrite length_drop in Hn. rewrite drop_drop in Hr. cbn [changes_loop].
    rewrite bool_decide_eq_false_2 by lia.
    assert (betterFilesCollabUTF16Prefix (runes s) !! src = Some (zlen (enc (take src s)))) as Hsp by (by apply prefix_at).
    assert (betterFilesCollabUTF16Prefix (runes s) !! (src + n)%nat = Some (zlen (enc (take (src + n) s)))) as ->
      by (apply prefix_at; lia).
    rewrite Hsp. destruct pending as [p|]; cbn [pending_at mbind result_bind] in *.
    + destruct Hp as (H1 & H2 & -> & Hq). eapply IH; [|lia|done]. simpl. split_and!; done || lia.
    + destruct Hp as [-> ->]. eapply IH; [|lia|done]. simpl. split_and!; done || lia.
  - apply fmap_Some in Hr as (o & Ho & ->). cbn [changes_loop].
    assert (betterFilesCollabUTF16Prefix (runes s) !! src = Some (zlen (enc (take src s)))) as -> by (by apply prefix_at).
    assert (∀ p', pending_at s src (Some p') q (t ++ u) →
      ∃ more, changes_loop (betterFilesCollabUTF16Prefix (runes s)) (length s) hash len ops src (Some p') acc
              = Ok (length s, acc ++ more) ∧ splice_all (enc s) more = enc (take q s) ++ enc t ++ enc (u ++ o)) as Hgo.
    { intros p' Hp'. destruct (IH src (Some p') acc q (t ++ u) o Hp' Hsrc Ho) as (more & ? & Hm).
      exists more. split; [done|]. by rewrite Hm, !enc_app, <-app_assoc. }
    destruct pending as [p|]; cbn [pending_at mbind result_bind] in *; apply Hgo.
    + destruct Hp as (H1 & H2 & -> & Hq). by split_and!.
    + destruct Hp as [-> ->]. simpl. split_and!; done || lia.
Qed.

(** The edits for the other editors do what the operation does. *)
Lemma OperationToChanges_spec s o out :
  ot_Apply o s = Some out →
  ∃ changes, betterFilesCollabOperationToChanges s o = Ok changes ∧ splice_all (enc s) changes = enc out.
Proof.
  rewrite ot_apply_law. intros Hr. unfold betterFilesCollabOperationToChanges.
  assert (ot_BaseLen o = length s) as ->.
  { rewrite ot_baselen_law. symmetry. apply run_ops_is_Some. eauto. }
  rewrite bool_decide_eq_true_2 by done. cbn [negb].
  destruct (changes_loop_spec s (betterFilesCollabContentHash s)
    (default 0 (last (betterFilesCollabUTF16Prefix (runes s)))) (ot_Ops o) 0 None [] 0 [] out)
    as (more & -> & Hm); [done|lia|done|].
  exists more. cbn [mbind result_bind]. rewrite runes_length, bool_decide_eq_true_2 by done. split; [done|]. by rewrite Hm.
Qed.

(** ** The history *)

Abbreviation hash := betterFilesCollabContentHash.
Abbreviation len16 := betterFilesCollabUTF16Len.

(** An entry takes [s] at revision [r] to [m], and its inverse takes it back. *)
Definition entry_ok (r : Z) (s m : text) (o : Operation op) : Prop :=
  op_Revision o = r + 1 ∧ op_BaseHash o = hash s ∧ op_BaseLength o = len16 s
  ∧ op_TargetHash o = hash m ∧ op_TargetLen o = len16 m
  ∧ ot_Apply (op_Forward o) s = Some m ∧ ot_Apply (op_Inverse o) m = Some s.

(** The entries [h] lead from [s] at revision [r] to [t], through contents [K] knows. *)
Inductive hist (K : Z → text → Prop) : Z → text → list (Operation op) → text → Prop :=
| hist_nil r s : K r s → hist K r s [] s
| hist_cons r s o m h t : K r s → entry_ok r s m o → hist K (r + 1) m h t → hist K r s (o :: h) t.

Lemma hist_mono (K K' : Z → text → Prop) r s h t :
  (∀ r c, K r c → K' r c) → hist K r s h t → hist K' r s h t.
Proof. intros HK. induction 1; econstructor; eauto. Qed.

Lemma hist_end K r s h t : hist K r s h t → K (r + zlen h) t.
Proof.
  induction 1 as [r s Hk|r s o m h t _ _ _ IH]; [by replace (r + zlen []) with r by (unfold zlen; simpl; lia)|].
  replace (r + zlen (o :: h)) with (r + 1 + zlen h); [done|]. unfold zlen. simpl. lia.
Qed.

Lemma hist_snoc K r s h m o t :
  hist K r s h m → K (r + zlen h + 1) t → entry_ok (r + zlen h) m t o → hist K r s (h ++ [o]) t.
Proof.
  induction 1 as [r s Hk|r s o' m' h m Hk Ho _ IH]; intros Ht He.
  - replace (r + zlen []) with r in * by (unfold zlen; simpl; lia). simpl.
    econstructor; [done|done|]. by constructor.
  - replace (r + zlen (o' :: h)) with (r + 1 + zlen h) in * by (unfold zlen; simpl; lia).
    simpl. econstructor; [done|done|]. by apply IH.
Qed.

Lemma hist_split K r s h1 h2 t :
  hist K r s (h1 ++ h2) t → ∃ m, hist K r s h1 m ∧ hist K (r + zlen h1) m h2 t.
Proof.
  revert r s. induction h1 as [|o h1 IH]; intros r s Hh; cbn [app] in Hh.
  - exists s. replace (r + zlen []) with r by (unfold zlen; simpl; lia). split; [|done].
    constructor. by inversion Hh.
  - inversion Hh as [|? ? ? m' ? ? Hk He Hh']; subst. apply IH in Hh' as (m & H1 & H2). exists m.
    replace (r + zlen (o :: h1)) with (r + 1 + zlen h1) by (unfold zlen; simpl; lia).
    split; [by econstructor|done].
Qed.

Lemma hist_revisions K r s h t o : hist K r s h t → o ∈ h → r < op_Revision o ≤ r + zlen h.
Proof.
  induction 1 as [|r s o' m h t _ (Hr & _) _ IH]; [set_solver|]. unfold zlen in *. cbn [length].
  intros [->|Hin]%elem_of_cons; [lia|]. specialize (IH Hin). lia.
Qed.

(** Undoing the entries after a revision recovers its content. *)
Lemma undo_spec K b c h t rest :
  hist K b c h t → (∀ o, o ∈ rest → op_Revision o ≤ b) → undo (reverse h ++ rest) b t = Some c.
Proof.
  revert t. induction h as [|o h IH] using rev_ind; intros t Hh Hrest.
  - inversion Hh; subst. destruct rest as [|o rest]; [done|].
    rewrite reverse_nil. cbn [app undo].
    rewrite (proj2 (Z.leb_le _ _)); [done|]. apply Hrest. set_solver.
  - apply hist_split in Hh as (m & H1 & H2). inversion H2 as [|? ? ? m' ? ? _ He H3]; subst.
    inversion H3; subst. destruct He as (Hr & _ & _ & _ & _ & _ & Hinv).
    rewrite reverse_snoc. cbn [app undo]. rewrite (proj2 (Z.leb_gt _ _)) by (unfold zlen in Hr; lia).
    rewrite Hinv. cbn [mbind option_bind]. by apply IH.
Qed.

Lemma find_base_spec K r s h t bh bl b :
  hist K r s h t → find_base h bh bl = Some b →
  ∃ h1 c h2, h = h1 ++ h2 ∧ hist K r s h1 c ∧ hist K b c h2 t ∧ b = r + zlen h1
             ∧ hash c = bh ∧ len16 c = bl.
Proof.
  induction 1 as [|r s o m h t Hk He Hh IH]; intros Hf; cbn [find_base] in Hf; [done|].
  pose proof He as (Hr & H1 & H2 & H3 & H4 & _).
  destruct (_ && _) eqn:E1 in Hf.
  { apply andb_true_iff in E1 as [E1%bool_decide_eq_true E2%bool_decide_eq_true]. injection Hf as <-.
    exists [], s, (o :: h). rewrite Hr. replace (r + 1 - 1) with r by lia.
    split_and!; [done|by constructor|by econstructor|unfold zlen; simpl; lia|congruence|congruence]. }
  destruct (_ && _) eqn:E2 in Hf.
  { apply andb_true_iff in E2 as [E2%bool_decide_eq_true E3%bool_decide_eq_true]. injection Hf as <-.
    exists [o], m, h. rewrite Hr. split_and!; [done| |done|by unfold zlen|congruence|congruence].
    econstructor; [done|done|]. constructor. by inversion Hh. }
  destruct (IH Hf) as (h1 & c & h2 & -> & Ha & Hb & -> & ? & ?). exists (o :: h1), c, h2.
  split_and!; try done; [by econstructor|]. unfold zlen. simpl. lia.
Qed.

(** ** Transforming past the history *)

Fixpoint run_all (os : list op) (s : text) : option text :=
  match os with [] => Some s | o :: os' => m ← ot_Apply o s; run_all os' m end.

Lemma transform_skip (h1 h2 : list (Operation op)) b o :
  (∀ x, x ∈ h1 → op_Revision x ≤ b) → transform_past (h1 ++ h2) b o = transform_past h2 b o.
Proof.
  induction h1 as [|x h1 IH]; intros Hb; [done|]. cbn [app transform_past].
  rewrite (proj2 (Z.leb_le _ _)) by (apply Hb; set_solver). apply IH. set_solver.
Qed.

Lemma transform_spec K r c h t b o mine :
  hist K r c h t → b ≤ r → ot_Apply o c = Some mine →
  ∃ o' next os, transform_past h b o = Ok o' ∧ ot_Apply o' t = Some next
                ∧ run_all os mine = Some next ∧ length os = length h.
Proof.
  intros Hh. revert o mine. induction Hh as [r s|r s x m h t Hk He Hh IH]; intros o mine Hb Ho.
  { exists o, mine, []. done. }
  destruct He as (Hr & _ & _ & _ & _ & Hf & _). cbn [transform_past].
  rewrite (proj2 (Z.leb_gt _ _)) by lia.
  destruct (ot_transform_law o (op_Forward x)) as (a' & b' & -> & Hconv).
  { rewrite !ot_baselen_law. rewrite ot_apply_law in Ho, Hf.
    transitivity (length s); [symmetry|]; apply run_ops_is_Some; eauto. }
  destruct (Hconv s mine m Ho Hf) as (n & Hb' & Ha').
  destruct (IH a' n ltac:(lia) Ha') as (o' & next & os & ? & ? & Hos & ?).
  exists o', next, (b' :: os). split_and!; [done|done| |simpl; congruence].
  cbn [run_all]. rewrite Hb'. done.
Qed.

(** ** Documents in use *)

(** The documents that are created, replaced and edited, with a log of the content at
    every revision. *)
Inductive reachable : Document op → list (Z * text) → Prop :=
| reach_new content : reachable (newBetterFilesCollabDocument content) [(0, content)]
| reach_replace content d log :
    reachable d log → reachable (replace content d) ((doc_Revision d + 1, content) :: log)
| reach_edit changes maxBytes d log r d' :
    reachable d log → Forall int_edit changes → applyMonacoChanges changes maxBytes d = (Ok r, d') →
    reachable d' ((doc_Revision d', doc_Content d') :: log)
| reach_refused changes maxBytes d log e d' :
    reachable d log → applyMonacoChanges changes maxBytes d = (Err e, d') → reachable d' log.

Definition logged (log : list (Z * text)) (r : Z) (c : text) : Prop := (r, c) ∈ log.

(** The history leads to the current content through logged contents. *)
Definition doc_inv (d : Document op) (log : list (Z * text)) : Prop :=
  (∃ s0, hist (logged log) (doc_Revision d - zlen (doc_History d)) s0 (doc_History d) (doc_Content d))
  ∧ 0 ≤ doc_Revision d - zlen (doc_History d)
  ∧ (length (doc_History d) ≤ betterFilesCollabHistoryLimit)%nat
  ∧ NoDup (fst <$> log) ∧ ∀ r c, (r, c) ∈ log → r ≤ doc_Revision d.

Lemma resolveBase_spec d log changes b c :
  doc_inv d log → resolveBase d changes = Ok (b, c) →
  (∃ h1 h2 s0, doc_History d = h1 ++ h2 ∧ hist (logged log) (doc_Revision d - zlen (doc_History d)) s0 h1 c
               ∧ hist (logged log) b c h2 (doc_Content d) ∧ b = doc_Revision d - zlen h2)
  ∧ ∀ e, e ∈ changes → te_BaseHash e ≠ EmptyString → hash c = te_BaseHash e ∧ len16 c = te_BaseLength e.
Proof.
  intros ([s0 Hh] & Hpos & _) Hr. destruct changes as [|first rest]; [done|]. cbn [resolveBase] in Hr.
  destruct (forallb _ rest) eqn:Esame; [|done]. cbn [negb] in Hr.
  assert (∀ e, e ∈ first :: rest → te_BaseHash e = te_BaseHash first ∧ te_BaseLength e = te_BaseLength first) as Hs.
  { intros e [->|He]%elem_of_cons; [done|]. rewrite forallb_forall in Esame.
    apply list_elem_of_In, Esame, andb_true_iff in He as [He1%bool_decide_eq_true He2%bool_decide_eq_true]. done. }
  assert (doc_Revision d = b ∧ doc_Content d = c →
    ∃ h1 h2 s0, doc_History d = h1 ++ h2 ∧ hist (logged log) (doc_Revision d - zlen (doc_History d)) s0 h1 c
               ∧ hist (logged log) b c h2 (doc_Content d) ∧ b = doc_Revision d - zlen h2) as Hcur.
  { intros [<- <-]. exists (doc_History d), [], s0. rewrite app_nil_r. split_and!; [done|done| |unfold zlen; simpl; lia].
    constructor. apply hist_end in Hh. by replace (_ - _ + _) with (doc_Revision d) in Hh by lia. }
  case_bool_decide as E0.
  { injection Hr as Hb Hc. split; [by apply Hcur|]. intros e He. destruct (Hs _ He) as [-> _]. done. }
  case_match; [done|]. destruct (_ && _) eqn:E1 in Hr.
  { injection Hr as Hb Hc. split; [by apply Hcur|]. intros e He _. destruct (Hs _ He) as [-> ->].
    apply andb_true_iff in E1 as [E1%bool_decide_eq_true E2%bool_decide_eq_true]. by subst. }
  destruct (find_base _ _ _) as [b'|] eqn:Ef; [|done]. case_match; [done|].
  destruct (undo _ _ _) as [c'|] eqn:Eu; [|done]. destruct (_ && _) eqn:E2 in Hr; [|done].
  injection Hr as -> ->. apply (find_base_spec _ _ _ _ _ _ _ _ Hh) in Ef as (h1 & c' & h2 & E & Hp1 & Hp2 & Hb & Hc1 & Hc2).
  rewrite E, reverse_app, (undo_spec _ b c' h2 _ (reverse h1) Hp2) in Eu.
  2:{ intros o Ho. rewrite elem_of_reverse in Ho. pose proof (hist_revisions _ _ _ _ _ _ Hp1 Ho). lia. }
  injection Eu as ->. split; [|intros e He _; by destruct (Hs _ He) as [-> ->]].
  exists h1, h2, s0. split_and!; [done|done|done|]. rewrite Hb, E. unfold zlen. rewrite length_app. lia.
Qed.

(** The edit, rebased: everything after the base is found succeeds. *)
Lemma apply_core d log changes b c o :
  doc_inv d log → Forall int_edit changes → resolveBase d changes = Ok (b, c) →
  betterFilesCollabChangesToOperation c changes = Ok o →
  ∃ mine o' next os normalized,
    enc mine = monaco (enc c) changes ∧ transform_past (doc_History d) b o = Ok o'
    ∧ ot_Apply o' (doc_Content d) = Some next
    ∧ betterFilesCollabOperationToChanges (doc_Content d) o' = Ok normalized
    ∧ splice_all (enc (doc_Content d)) normalized = enc next
    ∧ run_all os mine = Some next ∧ zlen os = doc_Revision d - b.
Proof.
  intros Hinv Hint Hr Ho. destruct (resolveBase_spec _ _ _ _ _ Hinv Hr) as [(h1 & h2 & s0 & E & Hp1 & Hp2 & Hb) _].
  destruct (ChangesToOperation_spec _ _ _ Hint Ho) as (mine & Hm & Hmine).
  destruct (transform_spec _ _ _ _ _ b _ _ Hp2 ltac:(lia) Hm) as (o' & next & os & Ht & Hn & Hos & Hlen).
  destruct (OperationToChanges_spec _ _ _ Hn) as (normalized & Hc & Hs).
  exists mine, o', next, os, normalized. split_and!; try done.
  - rewrite E, transform_skip; [done|]. intros x Hx.
    pose proof (hist_revisions _ _ _ _ _ _ Hp1 Hx) as Hrev. rewrite E in Hrev. unfold zlen in *.
    rewrite length_app in Hrev. lia.
  - unfold zlen in *. lia.
Qed.

Lemma apply_Ok changes maxBytes d r d' :
  applyMonacoChanges changes maxBytes d = (Ok r, d') →
  ∃ b c o o' next normalized, resolveBase d changes = Ok (b, c)
    ∧ betterFilesCollabChangesToOperation c changes = Ok o ∧ transform_past (doc_History d) b o = Ok o'
    ∧ betterFilesCollabOperationToChanges (doc_Content d) o' = Ok normalized
    ∧ ot_Apply o' (doc_Content d) = Some next ∧ (0 < maxBytes → byte_len next ≤ maxBytes)
    ∧ ar_Changes r = normalized ∧ ar_Revision r = doc_Revision d'
    ∧ doc_Content d' = next ∧ doc_Revision d' = doc_Revision d + 1
    ∧ ∃ entry, entry = mkOperation (doc_Revision d + 1) (hash (doc_Content d)) (len16 (doc_Content d)) (hash next) (len16 next) o' (ot_Invert o' (doc_Content d))
      ∧ doc_History d' = drop (length (doc_History d ++ [entry]) - betterFilesCollabHistoryLimit) (doc_History d ++ [entry]).
Proof.
  unfold applyMonacoChanges. intros Ha.
  destruct (resolveBase d changes) as [[b c]|] eqn:E1; [|done]. cbn [mbind result_bind] in Ha.
  destruct (betterFilesCollabChangesToOperation c changes) as [o|] eqn:E2; [|done]. cbn [mbind result_bind] in Ha.
  destruct (transform_past _ b o) as [o'|] eqn:E3; [|done]. cbn [mbind result_bind] in Ha.
  destruct (betterFilesCollabOperationToChanges _ o') as [normalized|] eqn:E4; [|done]. cbn [mbind result_bind] in Ha.
  destruct (ot_Apply o' _) as [next|] eqn:E5; [|done].
  destruct ((0 <? maxBytes) && (maxBytes <? byte_len next)) eqn:E6; [done|]. injection Ha as <- <-.
  exists b, c, o, o', next, normalized. split_and!; try done.
  - intros Hm. apply andb_false_iff in E6 as [?%Z.ltb_ge|?%Z.ltb_ge]; lia.
  - eexists. split; [done|]. simpl doc_History. case_bool_decide as Hlim; [done|].
    replace (_ - _)%nat with 0%nat by lia. by rewrite drop_0.
Qed.

Lemma apply_Err changes maxBytes d e d' : applyMonacoChanges changes maxBytes d = (Err e, d') → d' = d.
Proof.
  unfold applyMonacoChanges. match goal with |- (match ?a with Ok _ => _ | Err _ => _ end) = _ → _ => destruct a as [[]|] end;
    [done|by intros [= _ <-]].
Qed.

Lemma hist_drop K r s h t n :
  hist K r s h t → (n ≤ length h)%nat → ∃ s', hist K (r + Z.of_nat n) s' (drop n h) t.
Proof.
  intros Hh Hn. rewrite <-(take_drop n h) in Hh. apply hist_split in Hh as (m & _ & Hm). exists m.
  unfold zlen in Hm. by rewrite length_take, Nat.min_l in Hm.
Qed.

(** A new revision in the log. *)
Lemma log_cons (d : Document op) (log : list (Z * text)) r c :
  NoDup (fst <$> log) → (∀ r c, (r, c) ∈ log → r ≤ doc_Revision d) → r = doc_Revision d + 1 →
  NoDup (fst <$> (r, c) :: log) ∧ ∀ r' c', (r', c') ∈ (r, c) :: log → r' ≤ r.
Proof.
  intros Hnd Hle ->. split.
  - simpl. constructor; [|done]. intros ([r' c'] & E & Hin)%list_elem_of_fmap. apply Hle in Hin. simpl in E. lia.
  - intros r' c' [[= -> ->]|Hin]%elem_of_cons; [lia|]. apply Hle in Hin. lia.
Qed.

Lemma reachable_inv d log : reachable d log → doc_inv d log.
Proof.
  induction 1 as [content|content d log _ IH|changes maxBytes d log r d' _ IH Hint Ha|changes maxBytes d log e d' _ IH Ha].
  - split_and!; [exists content; constructor; unfold logged; set_solver|done|simpl; lia| |].
    + repeat constructor. set_solver.
    + intros r c [[= -> ->]|?%not_elem_of_nil]%elem_of_cons; done.
  - destruct IH as (_ & Hpos & _ & Hnd & Hle).
    destruct (log_cons d log (doc_Revision d + 1) content Hnd Hle eq_refl) as [? ?].
    split_and!; try done; [|unfold zlen in *; simpl; lia|simpl; lia].
    exists content. constructor. unfold logged. rewrite elem_of_cons. left. f_equal. unfold zlen. simpl. lia.
  - destruct IH as ([s0 Hh] & Hpos & Hlim & Hnd & Hle).
    apply apply_Ok in Ha as (b & c & o & o' & next & nz & _ & _ & _ & _ & Hn & _ & _ & _ & Hc & Hrev & entry & He & Hhist).
    destruct (log_cons d log (doc_Revision d') next Hnd Hle Hrev) as [? ?]. rewrite Hc.
    set (log' := (doc_Revision d', next) :: log) in *.
    assert (hist (logged log') (doc_Revision d - zlen (doc_History d)) s0 (doc_History d ++ [entry]) next) as Hh'.
    { eapply hist_snoc; [eapply hist_mono; [|exact Hh]| |].
      - unfold logged, log'. set_solver.
      - unfold logged, log'. rewrite elem_of_cons. left. f_equal. lia.
      - replace (_ - _ + _) with (doc_Revision d) by lia. rewrite He. unfold entry_ok. simpl.
        split_and!; try done. by apply ot_invert_law. }
    pose proof (hist_drop _ _ _ _ _ (length (doc_History d ++ [entry]) - betterFilesCollabHistoryLimit) Hh' ltac:(lia))
      as [s' Hs'].
    rewrite <-Hhist in Hs'. apply (f_equal length) in Hhist. rewrite length_drop in Hhist.
    rewrite length_app in Hhist, Hs'. cbn [length] in Hhist, Hs'.
    split_and!; try done; [exists s'| |lia]; unfold zlen in *.
    + rewrite Hc. by replace (doc_Revision d' - Z.of_nat (length (doc_History d')))
        with (doc_Revision d - Z.of_nat (length (doc_History d)) + Z.of_nat (length (doc_History d) + 1 - betterFilesCollabHistoryLimit)) by lia.
    + lia.
  - by apply apply_Err in Ha as ->.
Qed.

(** C24: concurrent edits converge.  Let a document be created, replaced and edited in any
    way, and let a client's edits be accepted.  Then the client's base is a content the
    document really had (with the fingerprint the edits carry, if they carry one); the
    other editors, applying the edits the document answers with to its previous content,
    arrive at its new content; and so does the client itself, applying to its own text
    (the base with its edits) one operation for every revision since its base.  All
    edits are in UTF-16 offsets, as the editors apply them. *)
Theorem edits_converge d log changes maxBytes r d' :
  reachable d log → Forall int_edit changes → applyMonacoChanges changes maxBytes d = (Ok r, d') →
  ∃ b base mine os,
    (b, base) ∈ log
    ∧ (∀ e, e ∈ changes → te_BaseHash e ≠ EmptyString →
         betterFilesCollabContentHash base = te_BaseHash e ∧ betterFilesCollabUTF16Len base = te_BaseLength e)
    ∧ enc mine = monaco (enc base) changes
    ∧ splice_all (enc (doc_Content d)) (ar_Changes r) = enc (doc_Content d')
    ∧ run_all os mine = Some (doc_Content d') ∧ zlen os = doc_Revision d - b
    ∧ doc_Revision d' = doc_Revision d + 1 ∧ (0 < maxBytes → byte_len (doc_Content d') ≤ maxBytes).
Proof.
  intros Hinv%reachable_inv Hint Ha.
  apply apply_Ok in Ha as (b & c & o & o' & next & nz & Hr & Ho & Ht & Hz & Hn & Hmax & Hcz & _ & Hc & Hrev & _).
  destruct (apply_core _ _ _ _ _ _ Hinv Hint Hr Ho) as (mine & o2 & next2 & os & nz2 & Hm & Ht2 & Hn2 & Hz2 & Hs & Hos & Hlen).
  rewrite Ht in Ht2. injection Ht2 as <-. rewrite Hn in Hn2. injection Hn2 as <-. rewrite Hz in Hz2. injection Hz2 as <-.
  destruct (resolveBase_spec _ _ _ _ _ Hinv Hr) as [(h1 & h2 & s0 & _ & _ & Hp2 & _) Hbase].
  exists b, c, mine, os. rewrite Hc, Hcz. split_and!; try done. by inversion Hp2.
Qed.

(** The content of a revision in the history's window. *)
Lemma window_split d log b c :
  doc_inv d log → (b, c) ∈ log → doc_Revision d - zlen (doc_History d) ≤ b →
  ∃ h1 h2 s0, doc_History d = h1 ++ h2 ∧ hist (logged log) b c h2 (doc_Content d)
              ∧ hist (logged log) (doc_Revision d - zlen (doc_History d)) s0 h1 c.
Proof.
  intros ([s0 Hh] & Hpos & _ & Hnd & Hle) Hin Hb. pose proof (Hle _ _ Hin) as Hb2.
  set (n := Z.to_nat (b - (doc_Revision d - zlen (doc_History d)))).
  assert (n ≤ length (doc_History d))%nat as Hn by (unfold n, zlen in *; lia).
  pose proof Hh as Hh'. rewrite <-(take_drop n (doc_History d)) in Hh' at 2.
  apply hist_split in Hh' as (m & H1 & H2).
  assert (doc_Revision d - zlen (doc_History d) + zlen (take n (doc_History d)) = b) as Eb.
  { unfold zlen at 2. rewrite length_take, Nat.min_l by done. unfold n. lia. }
  rewrite Eb in H2. assert (logged log b m) as Hm by (by inversion H2).
  assert ((b, m) = (b, c)) as [= ->] by (by eapply NoDup_fmap_inj_on).
  exists (take n (doc_History d)), (drop n (doc_History d)), s0. by rewrite take_drop.
Qed.

(** The edit carries the fingerprint of [base]. *)
Definition carries (base : text) (e : TextEdit) : Prop :=
  te_BaseHash e = betterFilesCollabContentHash base ∧ te_BaseLength e = betterFilesCollabUTF16Len base.

Lemma hash_nonempty c : hash c ≠ EmptyString.
Proof.
  unfold betterFilesCollabContentHash. set (n := foldl _ _ _). intros E. cbn [hex_digits] in E.
  destruct (hex_digits 7 (n / 16)) eqn:E7 in E; discriminate E.
Qed.

(** A fingerprint the history holds is found. *)
Lemma find_base_Some K h1 h2 c b t :
  hist K b c h2 t → h2 ≠ [] → is_Some (find_base (h1 ++ h2) (hash c) (len16 c)).
Proof.
  intros Hh2 Hne. induction h1 as [|o h1 IH]; cbn [app find_base].
  - destruct Hh2 as [|? ? o m h t Hk (Hr & Hb1 & Hb2 & _) _]; [done|]. cbn [find_base].
    rewrite Hb1, Hb2, !bool_decide_eq_true_2 by done. by eexists.
  - do 2 (case_match; [by eexists|]). done.
Qed.

Lemma resolveBase_window d log b c changes :
  doc_inv d log → (b, c) ∈ log → doc_Revision d - zlen (doc_History d) ≤ b →
  changes ≠ [] → Forall (carries c) changes → is_ok (resolveBase d changes) = true.
Proof.
  intros Hinv Hin Hb Hne Hcar. destruct (window_split _ _ _ _ Hinv Hin Hb) as (h1 & h2 & s0 & E & Hp2 & Hp1).
  destruct Hinv as ([s1 Hh] & Hpos & _).
  destruct changes as [|first rest]; [done|]. apply list.Forall_cons in Hcar as [[C1 C2] Hrest]. cbn [resolveBase].
  assert (forallb (same_base (te_BaseHash first) (te_BaseLength first)) rest = true) as ->.
  { apply forallb_forall. intros e He%list_elem_of_In. rewrite Forall_forall in Hrest.
    destruct (Hrest _ He) as [D1 D2]. unfold same_base. by rewrite C1, C2, D1, D2, !bool_decide_eq_true_2. }
  rewrite C1, C2. cbn [negb]. rewrite bool_decide_eq_false_2 by apply hash_nonempty.
  rewrite (proj2 (Z.ltb_ge (len16 c) 0)) by (unfold betterFilesCollabUTF16Len, zlen; lia).
  destruct (_ && _) eqn:Ecur; [done|].
  assert (h2 ≠ []) as Hh2.
  { intros ->. inversion Hp2; subst. by rewrite !bool_decide_eq_true_2 in Ecur. }
  destruct (find_base_Some _ h1 h2 c b _ Hp2 Hh2) as [b' Hf].
  rewrite <-E in Hf. rewrite Hf.
  apply (find_base_spec _ _ _ _ _ _ _ _ Hh) in Hf as (g1 & c' & g2 & Eg & Hg1 & Hg2 & Hb' & Hc1 & Hc2).
  rewrite (proj2 (Z.ltb_ge b' 0)) by (unfold zlen in *; lia).
  rewrite Eg, reverse_app, (undo_spec _ b' c' g2 _ (reverse g1) Hg2).
  - by rewrite Hc1, Hc2, !bool_decide_eq_true_2.
  - intros o Ho. rewrite elem_of_reverse in Ho. pose proof (hist_revisions _ _ _ _ _ _ Hg1 Ho). lia.
Qed.

(** C38: a late edit is never lost to concurrency.  Edits that carry the fingerprint of a
    content still in the history's window are resolved to a logged content with that
    fingerprint; if they are well formed for it, the outcome is acceptance, or refusal
    for size and nothing else; if not, it is the error of their conversion.  Rebuilding
    the base, transforming and applying never fail. *)
Theorem late_edits_resolved d log b base changes maxBytes :
  reachable d log → (b, base) ∈ log → doc_Revision d - zlen (doc_History d) ≤ b →
  changes ≠ [] → Forall (carries base) changes → Forall int_edit changes →
  ∃ b' base', (b', base') ∈ log ∧ betterFilesCollabContentHash base' = betterFilesCollabContentHash base
    ∧ betterFilesCollabUTF16Len base' = betterFilesCollabUTF16Len base
    ∧ match betterFilesCollabChangesToOperation base' changes with
      | Ok _ => (∃ r, fst (applyMonacoChanges changes maxBytes d) = Ok r)
                ∨ (fst (applyMonacoChanges changes maxBytes d) = Err errBetterFilesCollabTooLarge ∧ 0 < maxBytes)
      | Err e => applyMonacoChanges changes maxBytes d = (Err e, d)
      end.
Proof.
  intros Hinv%reachable_inv Hin Hb Hne Hcar Hint.
  pose proof (resolveBase_window _ _ _ _ _ Hinv Hin Hb Hne Hcar) as Hok.
  destruct (resolveBase d changes) as [[b' base']|] eqn:Hr; [|done]. exists b', base'.
  destruct (resolveBase_spec _ _ _ _ _ Hinv Hr) as [(h1 & h2 & s0 & _ & _ & Hp2 & _) Hbase].
  destruct changes as [|e es]; [done|]. apply list.Forall_cons in Hcar as [[C1 C2] _].
  destruct (Hbase e) as [F1 F2]; [set_solver|rewrite C1; apply hash_nonempty|].
  split_and!; [by inversion Hp2|congruence|congruence|]. unfold applyMonacoChanges. rewrite Hr. cbn [mbind result_bind].
  destruct (betterFilesCollabChangesToOperation base' (e :: es)) as [o|er] eqn:Ho; [|done].
  destruct (apply_core _ _ _ _ _ _ Hinv Hint Hr Ho) as (mine & o2 & next & os & nz & _ & Ht & Hn & Hz & _).
  cbn [mbind result_bind]. rewrite Ht. cbn [mbind result_bind]. rewrite Hz. cbn [mbind result_bind]. rewrite Hn.
  destruct (Z.ltb_spec 0 maxBytes); cbn [andb]; [|left; by eexists].
  destruct (maxBytes <? byte_len next); [right; done|left; by eexists].
Qed.
End Facts.

(** ** The laws can hold: operations of single runes *)

Module RuneOps.
Inductive unit_op := Keep | Drop | Put (r : Z).

Definition component_of (u : unit_op) : component :=
  match u with Keep => Retain 1 | Drop => Delete 1 | Put r => Insert [r] end.

Fixpoint invert (o : list unit_op) (s : text) : list unit_op :=
  match o with
  | [] => []
  | Keep :: o' => Keep :: invert o' (tail s)
  | Drop :: o' => match s with r :: s' => Put r :: invert o' s' | [] => [] end
  | Put _ :: o' => Drop :: invert o' s
  end.

(** Insertions first, those of the left operation before those of the right. *)
Fixpoint transform (a : list unit_op) : list unit_op → option (list unit_op * list unit_op) :=
  fix inner (b : list unit_op) :=
    match a, b with
    | Put r :: a', _ => '(x, y) ← transform a' b; Some (Put r :: x, Keep :: y)
    | _, Put r :: b' => '(x, y) ← inner b'; Some (Keep :: x, Put r :: y)
    | [], [] => Some ([], [])
    | Keep :: a', Keep :: b' => '(x, y) ← transform a' b'; Some (Keep :: x, Keep :: y)
    | Keep :: a', Drop :: b' => '(x, y) ← transform a' b'; Some (x, Drop :: y)
    | Drop :: a', Keep :: b' => '(x, y) ← transform a' b'; Some (Drop :: x, y)
    | Drop :: a', Drop :: b' => transform a' b'
    | _, _ => None
    end.

#[global] Instance rune_ops : OT (list unit_op) := {
  ot_WithCapacity := [];
  ot_Retain n o := o ++ replicate n Keep;
  ot_Delete n o := o ++ replicate n Drop;
  ot_Insert t o := o ++ map Put t;
  ot_Ops o := map component_of o;
  ot_BaseLen o := base_len (map component_of o);
  ot_Apply o s := run_ops (map component_of o) s;
  ot_Transform a b := transform a b;
  ot_Invert o s := invert o s;
}.

(** Running an operation rune by rune. *)
Definition run (o : list unit_op) (s : text) : option text := run_ops (map component_of o) s.

Lemma run_Keep o s : run (Keep :: o) s = match s with c :: s' => cons c <$> run o s' | [] => None end.
Proof. destruct s as [|c s]; [done|]. unfold run. simpl. rewrite ?take_0, ?drop_0. by destruct (run_ops _ s). Qed.
Lemma run_Drop o s : run (Drop :: o) s = match s with c :: s' => run o s' | [] => None end.
Proof. destruct s as [|c s]; [done|]. unfold run. simpl. by rewrite ?drop_0. Qed.
Lemma run_Put r o s : run (Put r :: o) s = cons r <$> run o s.
Proof. done. Qed.

Lemma keeps n : map component_of (replicate n Keep) ≃ [Retain n].
Proof.
  induction n as [|n IH]; intros s.
  - simpl. rewrite ?take_0, ?drop_0. by case_decide; subst.
  - change (run (Keep :: replicate n Keep) s = run_ops [Retain (S n)] s). rewrite run_Keep.
    destruct s as [|c s]; [done|]. unfold run. rewrite IH. cbn [run_ops length take drop].
    repeat case_decide; try lia; done.
Qed.
Lemma drops n : map component_of (replicate n Drop) ≃ [Delete n].
Proof.
  induction n as [|n IH]; intros s.
  - simpl. rewrite ?drop_0. by case_decide.
  - change (run (Drop :: replicate n Drop) s = run_ops [Delete (S n)] s). rewrite run_Drop.
    destruct s as [|c s]; [done|]. unfold run. rewrite IH. cbn [run_ops length drop].
    repeat case_decide; try lia; done.
Qed.
Lemma puts t : map component_of (map Put t) ≃ [Insert t].
Proof.
  induction t as [|r t IH]; intros s.
  - simpl. by case_decide.
  - change (run (Put r :: map Put t) s = run_ops [Insert (r :: t)] s). rewrite run_Put. unfold run. rewrite IH.
    cbn [run_ops]. by case_decide.
Qed.

Lemma invert_law o s t : run o s = Some t → run (invert o s) t = Some s.
Proof.
  revert s t. induction o as [|[| |r] o IH]; intros s t Ho; cbn [invert].
  - unfold run in *. simpl in Ho. case_decide; [|done]. by simplify_eq.
  - rewrite run_Keep in Ho. destruct s as [|c s]; [done|]. apply fmap_Some in Ho as (x & Hx & ->).
    rewrite run_Keep. simpl. by rewrite (IH _ _ Hx).
  - rewrite run_Drop in Ho. destruct s as [|c s]; [done|]. rewrite run_Put. by rewrite (IH _ _ Ho).
  - rewrite run_Put in Ho. apply fmap_Some in Ho as (x & Hx & ->). rewrite run_Drop. by apply IH.
Qed.

(** Either order gives the same text. *)
Definition converges (a b x y : list unit_op) : Prop :=
  ∀ s sa sb, run a s = Some sa → run b s = Some sb → ∃ t, run y sa = Some t ∧ run x sb = Some t.

Ltac run_step :=
  intros C s sa sb A B;
  first [rewrite run_Keep in A | rewrite run_Drop in A | rewrite run_Put in A | idtac];
  first [rewrite run_Keep in B | rewrite run_Drop in B | rewrite run_Put in B | idtac];
  repeat match goal with
  | E : match ?s with _ => _ end = Some _ |- _ => destruct s; [discriminate E|]
  | E : _ <$> _ = Some _ |- _ => apply fmap_Some in E as (? & E & ->)
  end;
  destruct (C _ _ _ A B) as (t & Ey & Ex);
  eexists; rewrite ?run_Keep, ?run_Drop, ?run_Put, ?Ex, ?Ey; done.

Section Converge.
Context (a b x y : list unit_op).
Lemma put_left r : converges a b x y → converges (Put r :: a) b (Put r :: x) (Keep :: y).
Proof. run_step. Qed.
Lemma put_right r : converges a b x y → converges a (Put r :: b) (Keep :: x) (Put r :: y).
Proof. run_step. Qed.
Lemma keep_keep : converges a b x y → converges (Keep :: a) (Keep :: b) (Keep :: x) (Keep :: y).
Proof. run_step. Qed.
Lemma keep_drop : converges a b x y → converges (Keep :: a) (Drop :: b) x (Drop :: y).
Proof. run_step. Qed.
Lemma drop_keep : converges a b x y → converges (Drop :: a) (Keep :: b) (Drop :: x) y.
Proof. run_step. Qed.
Lemma drop_drop_ : converges a b x y → converges (Drop :: a) (Drop :: b) x y.
Proof. run_step. Qed.
End Converge.

Lemma transform_put_r a r b :
  (match a with Put _ :: _ => false | _ => true end = true) →
  transform a (Put r :: b) = ('(x, y) ← transform a b; Some (Keep :: x, Put r :: y)).
Proof. by destruct a as [|[| |q] a]. Qed.

Lemma transform_law a b :
  base_len (map component_of a) = base_len (map component_of b) →
  ∃ x y, transform a b = Some (x, y) ∧ converges a b x y.
Proof.
  revert b. induction a as [|u a IHa]; intros b; [|destruct u as [| |r]].
  4:{ intros Hl. destruct (IHa b Hl) as (x & y & Ht & Hc). exists (Put r :: x), (Keep :: y).
      destruct b; cbn [transform]; rewrite Ht; split; done || by apply put_left. }
  all: induction b as [|[| |q] b IHb]; intros Hl; try (simpl in Hl; discriminate Hl).
  all: try (destruct (IHb Hl) as (x & y & Ht & Hc); exists (Keep :: x), (Put q :: y);
            rewrite transform_put_r, Ht by done; split; [done|by apply put_right]).
  all: try (destruct (IHa b ltac:(simpl in Hl; lia)) as (x & y & Ht & Hc); cbn [transform]; rewrite Ht;
            eexists _, _; split; [reflexivity|]; auto using keep_keep, keep_drop, drop_keep, drop_drop_).
  exists [], []. split; [done|]. intros s sa sb A B. exists sa. unfold run in *. simpl in *.
  case_decide; [|done]. by simplify_eq.
Qed.

#[global] Instance rune_ops_laws : OTLaws (list unit_op).
Proof.
  split; cbn [ot_Ops ot_WithCapacity ot_Retain ot_Delete ot_Insert ot_BaseLen ot_Apply ot_Transform ot_Invert rune_ops].
  - done.
  - intros n o. rewrite map_app. apply app_same_effect; [done|apply keeps].
  - intros n o. rewrite map_app. apply app_same_effect; [done|apply drops].
  - intros t o. rewrite map_app. apply app_same_effect; [done|apply puts].
  - done.
  - done.
  - apply transform_law.
  - apply invert_law.
Qed.
End RuneOps.

(** ** Two editors on one text

    Both start from a text whose third rune takes two UTF-16 units; one has put "!" in
    front, the other, still on the first text, replaces the third rune and appends. *)
Definition w_base : text := [97; 233; 128512; 98].
Definition w_edit off len t : TextEdit :=
  mkEdit off len t (betterFilesCollabContentHash w_base) (betterFilesCollabUTF16Len w_base).
Definition w_first := [w_edit 0 0 [33]].
Definition w_second := [w_edit 5 0 [89]; w_edit 2 2 [88]].
Definition w_doc0 : Document (list RuneOps.unit_op) := newBetterFilesCollabDocument w_base.
Definition w_doc1 : Document (list RuneOps.unit_op) := snd (applyMonacoChanges w_first 0 w_doc0).
Definition w_doc2 : Document (list RuneOps.unit_op) := snd (applyMonacoChanges w_second 100 w_doc1).

Lemma w_doc1_reachable : reachable w_doc1 [(1, [33; 97; 233; 128512; 98]); (0, w_base)].
Proof.
  assert (∃ r, applyMonacoChanges w_first 0 w_doc0 = (Ok r, w_doc1)) as [r Hr] by (eexists; vm_compute; reflexivity).
  eapply (reach_edit w_first 0 w_doc0 [(0, w_base)] r w_doc1); [apply reach_new| |exact Hr].
  repeat constructor; vm_compute; discriminate.
Qed.

Lemma edits_converge_witness :
  doc_Content w_doc2 = [33; 97; 233; 88; 98; 89]
  ∧ ∃ r, applyMonacoChanges w_second 100 w_doc1 = (Ok r, w_doc2) ∧
  ∃ b base mine os,
    (b, base) ∈ [(1, [33; 97; 233; 128512; 98]); (0, w_base)]
    ∧ (∀ e, e ∈ w_second → te_BaseHash e ≠ EmptyString →
         betterFilesCollabContentHash base = te_BaseHash e ∧ betterFilesCollabUTF16Len base = te_BaseLength e)
    ∧ enc mine = monaco (enc base) w_second
    ∧ splice_all (enc (doc_Content w_doc1)) (ar_Changes r) = enc (doc_Content w_doc2)
    ∧ run_all os mine = Some (doc_Content w_doc2) ∧ zlen os = doc_Revision w_doc1 - b
    ∧ doc_Revision w_doc2 = doc_Revision w_doc1 + 1 ∧ (0 < 100 → byte_len (doc_Content w_doc2) ≤ 100).
Proof.
  split; [vm_compute; reflexivity|]. eexists. split; [vm_compute; reflexivity|].
  apply (edits_converge w_doc1 _ w_second 100); [apply w_doc1_reachable| |vm_compute; reflexivity].
  repeat constructor; vm_compute; discriminate.
Defined.

Lemma late_edits_resolved_witness :
  ∃ b' base', (b', base') ∈ [(1, [33; 97; 233; 128512; 98]); (0, w_base)]
    ∧ betterFilesCollabContentHash base' = betterFilesCollabContentHash w_base
    ∧ betterFilesCollabUTF16Len base' = betterFilesCollabUTF16Len w_base
    ∧ match betterFilesCollabChangesToOperation (op := list RuneOps.unit_op) base' w_second with
      | Ok _ => (∃ r, fst (applyMonacoChanges w_second 100 w_doc1) = Ok r)
                ∨ (fst (applyMonacoChanges w_second 100 w_doc1) = Err errBetterFilesCollabTooLarge ∧ 0 < 100)
      | Err e => applyMonacoChanges w_second 100 w_doc1 = (Err e, w_doc1)
      end.
Proof.
  apply (late_edits_resolved w_doc1 _ 0 w_base w_second 100);
    [apply w_doc1_reachable|set_solver|vm_compute; discriminate|discriminate| |].
  - repeat constructor.
  - repeat constructor; vm_compute; discriminate.
Defined.
