(* ===== verification/Threads.v ===== *)
(** * Threads that share a state

    A goroutine is a tree of atomic actions on a shared state: each action is one
    critical section of the code (a lock taken and released), one read of a field that
    is never written, or one write to a socket; between two actions any other goroutine
    may run.  [exec] runs a thread alone, [steps] is every interleaving of a pool of
    threads that may grow at any time, and [safe] is the rely-guarantee judgement with
    which the components prove an invariant of all interleavings: every action keeps the
    invariant and the guarantee, whatever the others did before it within the same
    guarantee. *)

From stdpp Require Import base list relations.
From S2P Require Import Prelude.

Section Threads.
Context {W : Type}.

Inductive prog (A : Type) : Type :=
| Ret (a : A)
| Act (B : Type) (f : W → B * W) (k : B → prog A).
Arguments Ret {A}.
Arguments Act {A}.

Fixpoint prog_bind {A B} (f : A → prog B) (p : prog A) : prog B :=
  match p with
  | Ret a => f a
  | Act _ g k => Act _ g (λ b, prog_bind f (k b))
  end.
#[export] Instance prog_mret : MRet prog := @Ret.
#[export] Instance prog_mbind : MBind prog := @prog_bind.

Definition atomic {B} (f : W → B * W) : prog B := Act B f Ret.
Definition gets {B} (f : W → B) : prog B := atomic (λ w, (f w, w)).
Definition modify (f : W → W) : prog unit := atomic (λ w, ((), f w)).

(** A loop over a slice. *)
Fixpoint for_each {A} (body : A → prog unit) (l : list A) : prog unit :=
  match l with
  | [] => mret ()
  | x :: l' => _ ← body x; for_each body l'
  end.

(** ** Alone *)

Fixpoint exec {A} (p : prog A) (w : W) : A * W :=
  match p with
  | Ret a => (a, w)
  | Act _ f k => let '(b, w') := f w in exec (k b) w'
  end.

Lemma exec_bind {A B} (f : A → prog B) p w :
  exec (prog_bind f p) w = let '(a, w') := exec p w in exec (f a) w'.
Proof. revert w. induction p as [a|C g k IH]; intros w; [done|]. simpl. by destruct (g w). Qed.

(** A thread none of whose actions changes a part of the state. *)
Fixpoint keeps {A X} (part : W → X) (p : prog A) : Prop :=
  match p with
  | Ret _ => True
  | Act _ f k => (∀ w, part (snd (f w)) = part w) ∧ ∀ b, keeps part (k b)
  end.
Lemma keeps_seq {A B X} (part : W → X) (f : A → prog B) p :
  keeps part p → (∀ a, keeps part (f a)) → keeps part (p ≫= f).
Proof. intros Hp Hf. induction p as [a|C g k IH]; [apply Hf|]. destruct Hp as [Hg Hk]. split; [done|]. intros b. by apply IH. Qed.
Lemma keeps_for_each {A X} (part : W → X) (body : A → prog unit) l :
  (∀ x, keeps part (body x)) → keeps part (for_each body l).
Proof. intros Hb. induction l as [|x l IH]; [done|]. cbn [for_each]. by apply keeps_seq. Qed.
Lemma keeps_exec {A X} (part : W → X) (p : prog A) w : keeps part p → part (snd (exec p w)) = part w.
Proof.
  revert w. induction p as [a|B f k IH]; intros w; [done|]. intros [Hf Hk]. simpl.
  rewrite <-(Hf w). destruct (f w) as [b w']. by apply IH.
Qed.

(** What a thread returns, whatever the others do between its actions. *)
Fixpoint yields {A} (p : prog A) (Q : A → Prop) : Prop :=
  match p with
  | Ret a => Q a
  | Act _ f k => ∀ w, yields (k (fst (f w))) Q
  end.
Lemma yields_mono {A} (p : prog A) (P Q : A → Prop) : (∀ a, P a → Q a) → yields p P → yields p Q.
Proof. intros HPQ. induction p as [a|B f k IH]; simpl; [apply HPQ|]. intros Hp w. by apply IH. Qed.
Lemma yields_seq {A B} (f : A → prog B) p (P : A → Prop) Q :
  yields p P → (∀ a, P a → yields (f a) Q) → yields (p ≫= f) Q.
Proof. intros Hp Hf. induction p as [a|C g k IH]; [by apply Hf|]. intros w. apply IH, Hp. Qed.
Lemma yields_True {A} (p : prog A) : yields p (λ _, True).
Proof. induction p as [a|B f k IH]; simpl; [done|]. intros w. apply IH. Qed.
Lemma yields_exec {A} (p : prog A) Q w : yields p Q → Q (fst (exec p w)).
Proof. revert w. induction p as [a|B f k IH]; intros w; simpl; [done|]. intros Hp. specialize (Hp w). destruct (f w) as [b w']. by apply IH. Qed.

(** Several threads started by one that waits for all of them: [turns] says which moves
    next, and the threads that are not done when the turns are used up finish one after
    the other.  The results are in the order in which the threads ended. *)
Fixpoint finish {A} (ps : list (prog A)) (done : list A) : prog (list A) :=
  match ps with
  | [] => mret done
  | p :: ps' => a ← p; finish ps' (done ++ [a])
  end.
Fixpoint par {A} (turns : list nat) (ps : list (prog A)) (done : list A) : prog (list A) :=
  match turns with
  | [] => finish ps done
  | i :: turns' =>
      match ps !! i with
      | Some (Ret a) => par turns' (delete i ps) (done ++ [a])
      | Some (Act _ f k) => Act _ f (λ b, par turns' (<[i := k b]> ps) done)
      | None => par turns' ps done
      end
  end.

(** Every thread ends once: with what each may return known, the results are one of each,
    in some order. *)
Lemma finish_yields {A X} (Q : X → A → Prop) xs ps ds done :
  Forall2 (λ x p, yields p (Q x)) xs ps → Forall2 Q ds done →
  yields (finish ps done) (λ l, ∃ l', ds ++ xs ≡ₚ l' ∧ Forall2 Q l' l).
Proof.
  intros Hps. revert ds done. induction Hps as [|x p xs ps Hp Hps IH]; intros ds done Hd; cbn [finish].
  { exists ds. by rewrite app_nil_r. }
  eapply yields_seq; [exact Hp|]. intros a Ha. eapply yields_mono; [|eapply (IH (ds ++ [x]))].
  - intros l (l' & Hl & H2). exists l'. split; [|done]. rewrite <-Hl. by rewrite <-app_assoc.
  - apply Forall2_app; [done|]. by constructor.
Qed.
Lemma par_yields {A X} (Q : X → A → Prop) turns xs ps ds done :
  Forall2 (λ x p, yields p (Q x)) xs ps → Forall2 Q ds done →
  yields (par turns ps done) (λ l, ∃ l', ds ++ xs ≡ₚ l' ∧ Forall2 Q l' l).
Proof.
  revert xs ps ds done. induction turns as [|i turns IH]; intros xs ps ds done Hps Hd; cbn [par].
  { by apply finish_yields. }
  destruct (ps !! i) as [[a|B f k]|] eqn:Hi; [| |by apply IH].
  - destruct (Forall2_lookup_r _ _ _ _ _ Hps Hi) as (x & Hx & Ha).
    eapply yields_mono; [|eapply (IH (delete i xs) _ (ds ++ [x]))].
    + intros l (l' & Hl & H2). exists l'. split; [|done]. rewrite <-Hl, <-app_assoc.
      apply Permutation_app_head. by apply delete_Permutation.
    + by apply Forall2_delete.
    + apply Forall2_app; [done|]. by constructor.
  - intros w. apply IH; [|done].
    destruct (Forall2_lookup_r _ _ _ _ _ Hps Hi) as (x & Hx & Ha).
    rewrite <-(list_insert_id xs i x) by done. apply Forall2_insert; [done|]. apply Ha.
Qed.

(** ** Interleaved *)

Abbreviation pool := (list (prog unit)).

(** One step: a new thread of the given kind starts, or a thread does its next action. *)
Inductive step (entry : prog unit → Prop) : pool * W → pool * W → Prop :=
| step_spawn p ts w : entry p → step entry (ts, w) (ts ++ [p], w)
| step_act i B f k ts w :
    ts !! i = Some (Act B f k) →
    step entry (ts, w) (<[i := k (fst (f w))]> ts, snd (f w)).

Definition steps (entry : prog unit → Prop) : pool * W → pool * W → Prop := rtc (step entry).

(** A schedule: which thread moves, turn by turn; a turn of a finished thread does
    nothing. *)
Definition turn (i : nat) (s : pool * W) : pool * W :=
  match fst s !! i with
  | Some (Act _ f k) => (<[i := k (fst (f (snd s)))]> (fst s), snd (f (snd s)))
  | _ => s
  end.
Definition schedule (turns : list nat) (s : pool * W) : pool * W := foldl (λ s i, turn i s) s turns.

Lemma turn_steps entry i s : steps entry s (turn i s).
Proof.
  destruct s as [ts w]. unfold turn. simpl. destruct (ts !! i) as [[a|B f k]|] eqn:E; try by apply rtc_refl.
  apply rtc_once. by constructor.
Qed.
Lemma schedule_steps entry turns s : steps entry s (schedule turns s).
Proof.
  revert s. induction turns as [|i turns IH]; intros s; [apply rtc_refl|].
  etransitivity; [apply turn_steps|apply IH].
Qed.
Lemma spawn_steps entry ps ts w : Forall entry ps → steps entry (ts, w) (ts ++ ps, w).
Proof.
  revert ts. induction ps as [|p ps IH]; intros ts Hps; [rewrite app_nil_r; apply rtc_refl|].
  inversion Hps; subst. eapply rtc_l; [by constructor|].
  replace (ts ++ p :: ps) with ((ts ++ [p]) ++ ps) by by rewrite <-app_assoc. by apply IH.
Qed.

(** A thread that runs alone is one of the interleavings. *)
Lemma exec_steps entry p ts w :
  steps entry (ts ++ [p], w) (ts ++ [Ret (fst (exec p w))], snd (exec p w)).
Proof.
  revert w. induction p as [a|B f k IH]; intros w; [apply rtc_refl|]. simpl.
  assert ((ts ++ [Act B f k]) !! length ts = Some (Act B f k)) as Hi.
  { rewrite lookup_app_r by lia. by rewrite Nat.sub_diag. }
  eapply rtc_l; [exact (step_act entry _ B f k _ w Hi)|].
  rewrite insert_app_r_alt by lia. rewrite Nat.sub_diag. simpl. destruct (f w) as [b w']. simpl. apply IH.
Qed.

(** ** Rely and guarantee *)

Section Safe.
Context (Inv : W → Prop) (R : relation W) `{!PreOrder R}.

Fixpoint safe {A} (p : prog A) (Q : A → W → Prop) (w : W) : Prop :=
  match p with
  | Ret a => Q a w
  | Act _ f k =>
      ∀ w', R w w' → Inv w' →
        Inv (snd (f w')) ∧ R w' (snd (f w')) ∧ safe (k (fst (f w'))) Q (snd (f w'))
  end.

Definition stable (P : W → Prop) : Prop := ∀ w w', R w w' → P w → P w'.

Lemma safe_later {A} (p : prog A) (Q : A → W → Prop) w w' :
  (∀ a, stable (Q a)) → R w w' → safe p Q w → safe p Q w'.
Proof.
  intros HQ HR. destruct p as [a|B f k]; simpl; [by apply HQ|].
  intros Hs w'' HR'. apply Hs. by transitivity w'.
Qed.

Lemma safe_mono {A} (p : prog A) (P Q : A → W → Prop) w :
  (∀ a w', R w w' → P a w' → Q a w') → safe p P w → safe p Q w.
Proof.
  revert w. induction p as [a|B f k IH]; intros w HPQ; simpl; [by apply HPQ|].
  intros Hs w' HR HI. destruct (Hs w' HR HI) as (? & ? & ?). split; [done|]. split; [done|].
  eapply IH; [|done]. intros a w'' ?. apply HPQ. transitivity w'; [done|]. by transitivity (snd (f w')).
Qed.

Lemma safe_bind {A B} (f : A → prog B) p Q w :
  safe p (λ a w', safe (f a) Q w') w → safe (prog_bind f p) Q w.
Proof.
  revert w. induction p as [a|C g k IH]; intros w; simpl; [done|].
  intros Hs w' HR HI. destruct (Hs w' HR HI) as (? & ? & ?). split_and!; [done|done|by apply IH].
Qed.

(** The rule for a sequence, with what the rest may rely on at its start. *)
Lemma safe_seq {A B} (f : A → prog B) p (P : A → W → Prop) Q w :
  safe p P w → (∀ a w', R w w' → P a w' → safe (f a) Q w') → safe (p ≫= f) Q w.
Proof. intros Hp Hf. apply safe_bind. eapply safe_mono; [|done]. auto. Qed.

Lemma safe_atomic {B} (f : W → B * W) (Q : B → W → Prop) w :
  (∀ w', R w w' → Inv w' → Inv (snd (f w')) ∧ R w' (snd (f w')) ∧ Q (fst (f w')) (snd (f w'))) →
  safe (atomic f) Q w.
Proof. done. Qed.

Lemma safe_gets {B} (f : W → B) (Q : B → W → Prop) w :
  (∀ w', R w w' → Inv w' → Q (f w') w') → safe (gets f) Q w.
Proof. intros HQ w' HR HI. simpl. split_and!; [done|done|by apply HQ]. Qed.

Lemma safe_for_each {A} (body : A → prog unit) l w :
  (∀ x w', x ∈ l → R w w' → safe (body x) (λ _ _, True) w') →
  safe (for_each body l) (λ _ _, True) w.
Proof.
  revert w. induction l as [|x l IH]; intros w Hb; [done|]. cbn [for_each].
  eapply safe_seq; [apply Hb; [set_solver|done]|].
  intros _ w' HR _. apply IH. intros y w'' Hy HR'. apply Hb; [set_solver|by transitivity w'].
Qed.

(** The invariant holds in every state of every interleaving. *)
Theorem safe_steps entry w0 ts w :
  Inv w0 → (∀ p w, entry p → Inv w → safe p (λ _ _, True) w) →
  steps entry ([], w0) (ts, w) → Inv w ∧ R w0 w.
Proof.
  intros H0 He Hs.
  cut (Inv w ∧ R w0 w ∧ Forall (λ p, safe p (λ _ _, True) w) ts); [naive_solver|].
  change (Inv (snd (ts, w)) ∧ R w0 (snd (ts, w)) ∧ Forall (λ p, safe p (λ _ _, True) (snd (ts, w))) (fst (ts, w))).
  revert Hs. generalize (ts, w). clear ts w. apply rtc_ind_r; [done|].
  intros s1 s2 _ Hstep (HI & HR & Hts). destruct Hstep as [p ts w Hp|i B f k ts w Hi]; simpl in *.
  - split_and!; [done|done|]. apply Forall_app_2; [done|]. constructor; [by apply He|done].
  - pose proof (list.Forall_lookup_1 _ _ _ _ Hts Hi) as Hp. simpl in Hp.
    destruct (Hp w ltac:(done) HI) as (HI' & HR' & Hk). split_and!; [done|by transitivity w|].
    apply Forall_insert; [|done].
    eapply list.Forall_impl; [exact Hts|]. intros q Hq. simpl in Hq. eapply safe_later; [done|exact HR'|exact Hq].
Qed.
End Safe.
End Threads.
Arguments prog W A : clear implicits.
Arguments Ret {W A}.
Arguments Act {W A}.
Abbreviation pool W := (list (prog W unit)).
