(* ===== verification/Socket.v ===== *)
(** * The websocket of a server (router/websocket/websocket.go, limiter.go, message.go,
    server_importer.go)

    One connection is one handler, known by its random identifier and bound to one
    server for its life.  A handler stores the token its client last authenticated
    with; every message it receives and every message it sends is checked against that
    token.  The operations are threads over a shared state ([world]), because the token
    of a handler is read by whatever goroutine sends to it; the clock, the outcome of a
    write, the order of a range over a map and the other parts of the server are read
    from an environment at a moment ([w_ticks]) that no two readings share. *)

From stdpp Require Import base gmap sets list strings numbers.
From Stdlib Require Import Ascii.
From S2P Require Import Prelude GoStrings Tokens Threads.
Open Scope Z_scope.

(** ** Messages *)

Record Message (P : Type) := mkMessage { msg_Event : string; msg_Args : P }.
Arguments mkMessage {P}.
Arguments msg_Event {P}.
Arguments msg_Args {P}.

(** The arguments of an outgoing message: strings, or one value that is marshalled. *)
Inductive content (P : Type) := Strings (l : list string) | Body (b : P).
Arguments Strings {P}.
Arguments Body {P}.

Definition AuthenticationSuccessEvent : string := "auth success".
Definition AuthenticationEvent : string := "auth".
Definition SetStateEvent : string := "set state".
Definition SendServerLogsEvent : string := "send logs".
Definition SendCommandEvent : string := "send command".
Definition SendStatsEvent : string := "send stats".
Definition ErrorEvent : string := "daemon error".
Definition JwtErrorEvent : string := "jwt error".
Definition ThrottledEvent : string := "throttled".

Definition PermissionConnect : string := "websocket.connect".
Definition PermissionSendCommand : string := "control.console".
Definition PermissionSendPowerStart : string := "control.start".
Definition PermissionSendPowerStop : string := "control.stop".
Definition PermissionSendPowerRestart : string := "control.restart".
Definition PermissionReceiveErrors : string := "admin.websocket.errors".
Definition PermissionReceiveInstall : string := "admin.websocket.install".
Definition PermissionReceiveTransfer : string := "admin.websocket.transfer".
Definition PermissionReceiveBackups : string := "backup.read".
Definition PermissionReceiveImporter : string := "file.sftp".

(** Events of the server that are gated (server/events.go, betterconsole_events.go). *)
Definition InstallOutputEvent : string := "install output".
Definition ImagePullEvents : list string :=
  ["image pull started"; "image pull progress"; "image pull completed"]%string.
Definition BackupCompletedEvent : string := "backup completed".
Definition TransferLogsEvent : string := "transfer logs".
Definition isBetterConsoleInstallOutputEvent (event : string) : bool :=
  bool_decide (event = InstallOutputEvent) || bool_decide (event ∈ ImagePullEvents).
Definition isServerImporterEvent (e : string) : bool := HasPrefix e "serverimporter:".
Definition IsBetterFilesCollaborationEvent (e : string) : bool := HasPrefix e "betterfiles:collab:".

Inductive goerr :=
| ErrJwtNotPresent | ErrJwtNoConnectPerm | ErrJwtUuidMismatch | ErrJwtOnDenylist | ErrExpValidation
| ErrParse | ErrSuspended | ErrLockerLocked | ErrCloseSent | ErrWrite | ErrOther (reason : string).
#[export] Instance goerr_eq_dec : EqDecision goerr.
Proof. solve_decision. Defined.

Definition IsJwtError (e : goerr) : bool :=
  match e with
  | ErrJwtNotPresent | ErrJwtNoConnectPerm | ErrJwtUuidMismatch | ErrJwtOnDenylist | ErrExpValidation => true
  | _ => false
  end.

(** ** The environment *)

Inductive write_result := Written | CloseSent | Broken.

(** What a handler reads of the rest of the system, each at a moment: the clock
    (nanoseconds), the connection, the order of a range over a map, the JWT library, the
    server and its environment. *)
Class World := {
  clock : nat → Z;
  connection : nat → string → write_result;
  range : ∀ {A}, nat → list A → list A;
  range_perm : ∀ {A} n (l : list A), range n l ≡ₚ l;
  server_of : string → string;
  ExpirationTimeValidator : Z → payload → bool;
  verify_websocket : Z → string → option WebsocketPayload;
}.

Class ServerOps := {
  IsSuspended : nat → string → bool;
  environment_State : nat → string → string;
  IsAttached : nat → string → option bool;    (* None: not a docker environment *)
  IsRunning : nat → string → bool;
  Readlog : nat → string → result goerr (list string);
  SendCommand_result : nat → string → option goerr;
  HandlePowerAction_result : nat → string → option goerr;
  onAuthenticated : nat → string → option goerr;
  IsInstalling : nat → string → bool;
  IsTransferring : nat → string → bool;
  Proc : nat → string → string;
  import_status : nat → string → string;
  error_id : nat → string;
  context_err : nat → string → option goerr;
}.

(** What a handler does to the server. *)
Inductive effect :=
| EPower (server action : string)
| ECommand (server command : string)
| EActivity (server user event : string)
| EListen (handler : string)
| EDiskUsage (server : string)
| EWrite (server path content : string)
| ERevision (server path before after user : string).

(** golang.org/x/time/rate *)
Class RateLimiter (L : Type) := {
  rate_New : Z → nat → L;                    (* every so many nanoseconds, burst *)
  rate_Allow : Z → L → bool * L;
}.

(** ** State *)

Record sent (P : Type) := mkSent {
  sn_to : string;                            (* the handler *)
  sn_sessions : list nat;                    (* the collaboration sessions it is about *)
  sn_message : Message (content P);
}.
Arguments mkSent {P}.
Arguments sn_to {P}.
Arguments sn_sessions {P}.
Arguments sn_message {P}.

Section Socket.
Context {L R P : Type}.

Record world := mkWorld {
  w_jwt : gmap string WebsocketPayload;      (* Handler.jwt, by handler *)
  w_limiters : list L;                       (* the limiters, by address *)
  w_limits : gmap string (gmap string nat);  (* LimiterBucket.limits *)
  w_throttles : gmap string (gmap string bool);
  w_denials : denials;
  w_ticks : nat;
  w_sent : list (sent P);                    (* what went over the wire, oldest first *)
  w_effects : list effect;
  w_rooms : R;                               (* the collaboration sessions *)
}.

Definition set_jwts (f : gmap string WebsocketPayload → gmap string WebsocketPayload) (w : world) : world :=
  mkWorld (f (w_jwt w)) (w_limiters w) (w_limits w) (w_throttles w) (w_denials w) (w_ticks w) (w_sent w) (w_effects w) (w_rooms w).
Definition set_limiters (l : list L) (w : world) : world :=
  mkWorld (w_jwt w) l (w_limits w) (w_throttles w) (w_denials w) (w_ticks w) (w_sent w) (w_effects w) (w_rooms w).
Definition set_limits (l : gmap string (gmap string nat)) (w : world) : world :=
  mkWorld (w_jwt w) (w_limiters w) l (w_throttles w) (w_denials w) (w_ticks w) (w_sent w) (w_effects w) (w_rooms w).
Definition set_throttles (t : gmap string (gmap string bool)) (w : world) : world :=
  mkWorld (w_jwt w) (w_limiters w) (w_limits w) t (w_denials w) (w_ticks w) (w_sent w) (w_effects w) (w_rooms w).
Definition set_denials (f : denials → denials) (w : world) : world :=
  mkWorld (w_jwt w) (w_limiters w) (w_limits w) (w_throttles w) (f (w_denials w)) (w_ticks w) (w_sent w) (w_effects w) (w_rooms w).
Definition tick (w : world) : world :=
  mkWorld (w_jwt w) (w_limiters w) (w_limits w) (w_throttles w) (w_denials w) (S (w_ticks w)) (w_sent w) (w_effects w) (w_rooms w).
Definition add_sent (s : sent P) (w : world) : world :=
  mkWorld (w_jwt w) (w_limiters w) (w_limits w) (w_throttles w) (w_denials w) (w_ticks w) (w_sent w ++ [s]) (w_effects w) (w_rooms w).
Definition add_effect (e : effect) (w : world) : world :=
  mkWorld (w_jwt w) (w_limiters w) (w_limits w) (w_throttles w) (w_denials w) (w_ticks w) (w_sent w) (w_effects w ++ [e]) (w_rooms w).
Definition set_rooms (f : R → R) (w : world) : world :=
  mkWorld (w_jwt w) (w_limiters w) (w_limits w) (w_throttles w) (w_denials w) (w_ticks w) (w_sent w) (w_effects w) (f (w_rooms w)).

Abbreviation thread := (prog world).
Abbreviation error := (option goerr).
Abbreviation out := (Message (content P)).

Context `{World}.

(** Reading the environment takes a moment of its own. *)
Definition at_moment {A} (f : nat → A) : thread A := atomic (λ w, (f (w_ticks w), tick w)).
Definition Now : thread Z := at_moment clock.

(** ** Sending *)

Definition GetJwt (h : string) : thread (option WebsocketPayload) := gets (λ w, w_jwt w !! h).
Definition can (j : WebsocketPayload) (permission : string) : thread bool :=
  gets (λ w, HasPermission (w_denials w) j permission).

Definition validJwt (h : string) : thread (result goerr WebsocketPayload) :=
  j ← GetJwt h;
  match j with
  | None => mret (Err ErrJwtNotPresent)
  | Some j =>
      now ← Now;
      if negb (ExpirationTimeValidator now (ws_payload j)) then mret (Err ErrExpValidation) else
      denied ← gets (λ w, ws_Denylisted (w_denials w) j);
      if denied : bool then mret (Err ErrJwtOnDenylist) else
      connect ← can j PermissionConnect;
      if negb connect || negb (HasScope (ws_scope j) Websocket) then mret (Err ErrJwtNoConnectPerm) else
      if negb (bool_decide (server_of h = ws_ServerUUID j)) then mret (Err ErrJwtUuidMismatch) else
      mret (Ok j)
  end.
Definition TokenValid (h : string) : thread error :=
  r ← validJwt h; mret (match r with Ok _ => None | Err e => Some e end).

Definition unsafeSendJson (h : string) (about : list nat) (v : out) : thread error :=
  atomic (λ w,
    match connection (w_ticks w) h with
    | Written => (None, add_sent (mkSent h about v) (tick w))
    | CloseSent => (Some ErrCloseSent, tick w)
    | Broken => (Some ErrWrite, tick w)
    end).

(** err.Error() *)
Definition error_text (e : goerr) : string :=
  match e with
  | ErrJwtNotPresent => "jwt: no jwt present"
  | ErrJwtNoConnectPerm => "jwt: missing connect permission"
  | ErrJwtUuidMismatch => "jwt: server uuid mismatch"
  | ErrJwtOnDenylist => "jwt: created too far in past (denylist)"
  | ErrExpValidation => "jwt: exp claim is invalid"
  | ErrParse => "jwt: malformed token"
  | ErrSuspended => "server is currently in a suspended state"
  | ErrLockerLocked => "locker: cannot acquire lock, already locked"
  | ErrCloseSent => "websocket: close sent"
  | ErrWrite => "write"
  | ErrOther r => r
  end.
Definition jwt_error (e : goerr) : out := mkMessage JwtErrorEvent (Strings [error_text e]).

(** The importer's check stands inside the block for transfer logs. *)
Definition gated (v : string) (install backups transfer importer : bool) : bool :=
  if isBetterConsoleInstallOutputEvent v && negb install then true
  else if HasPrefix v BackupCompletedEvent && negb backups then true
  else if bool_decide (v = TransferLogsEvent)
       then negb transfer || (isServerImporterEvent v && negb importer)
       else false.

Definition SendJson (h : string) (about : list nat) (v : out) : thread error :=
  r ← validJwt h;
  match r with
  | Err e => _ ← unsafeSendJson h [] (jwt_error e); mret None
  | Ok j =>
      install ← can j PermissionReceiveInstall;
      backups ← can j PermissionReceiveBackups;
      transfer ← can j PermissionReceiveTransfer;
      importer ← can j PermissionReceiveImporter;
      if gated (msg_Event v) install backups transfer importer then mret None else
      e ← unsafeSendJson h about v;
      mret (if bool_decide (e = Some ErrCloseSent) then None else e)
  end.

Definition SendThrottled (h scope : string) : thread error :=
  unsafeSendJson h [] (mkMessage ThrottledEvent (Strings [scope])).

(** ** Rate limits *)

Context `{RateLimiter L}.

Definition second : Z := 1000000000.
Definition limitValuesFor (e : string) : Z * nat :=
  if bool_decide (e = AuthenticationEvent) || bool_decide (e = SendServerLogsEvent) then (5 * second, 2%nat)
  else if bool_decide (e = SendCommandEvent) then (second, 10%nat)
  else (second, 4%nat).
Definition limiterName (e : string) : string :=
  if bool_decide (e ∈ [AuthenticationEvent; SendServerLogsEvent; SendCommandEvent]) then e else "_default".

Definition bucket (h : string) (w : world) : gmap string nat := default ∅ (w_limits w !! h).
Definition flags (h : string) (w : world) : gmap string bool := default ∅ (w_throttles w !! h).
Definition set_flag (h e : string) (b : bool) (w : world) : world :=
  set_throttles (<[h := <[e := b]> (flags h w)]> (w_throttles w)) w.

(** The limiter is looked up under the read lock and created under the write lock, which
    does not look again: of two goroutines that both find none, the second one's limiter
    is kept and the first goes on with its own. *)
Definition For (h e : string) : thread nat :=
  found ← gets (λ w, bucket h w !! limiterName e);
  match found with
  | Some l => mret l
  | None =>
      atomic (λ w,
        let l := length (w_limiters w) in
        let '(limit, burst) := limitValuesFor e in
        (l, set_limits (<[h := <[limiterName e := l]> (bucket h w)]> (w_limits w))
              (set_limiters (w_limiters w ++ [rate_New limit burst]) w)))
  end.

Definition allow (h e : string) (l : nat) (w : world) : (bool * bool) * world :=
  match w_limiters w !! l with
  | None => ((false, false), w)                 (* not an address *)
  | Some limiter =>
      let '(ok, limiter') := rate_Allow (clock (w_ticks w)) limiter in
      let w' := tick (set_limiters (<[l := limiter']> (w_limiters w)) w) in
      if ok : bool then ((false, false), set_flag h e false w')
      else ((true, negb (default false (flags h w !! e))), set_flag h e true w')
  end.
Definition IsThrottled (h e : string) : thread bool :=
  l ← For h e;
  r ← atomic (allow h e l);
  let '(throttled, notify) := r : bool * bool in
  if throttled then
    _ ← (if notify : bool then SendThrottled h e else mret None);
    mret true
  else mret false.

(** ** Errors to the client *)

Context `{ServerOps}.

Definition GetErrorMessage (msg : string) : thread string :=
  u ← at_moment error_id;
  mret ("Error Event [" +:+ u +:+ "]: " +:+ msg)%string.

Definition SendErrorJson (h : string) (err : goerr) : thread error :=
  r ← validJwt h;
  receives ← (match r with Ok j => can j PermissionReceiveErrors | Err _ => mret false end);
  let event := if IsJwtError err then JwtErrorEvent else ErrorEvent in
  let text := if IsJwtError err || receives then error_text err
              else "an unexpected error was encountered while handling this request"%string in
  m ← GetErrorMessage text;
  unsafeSendJson h [] (mkMessage event (Strings [m])).

(** ** Authentication *)

Definition NewTokenPayload (token : string) : thread (result goerr WebsocketPayload) :=
  now ← Now;
  match verify_websocket now token with
  | None => mret (Err ErrParse)
  | Some payload =>
      denied ← gets (λ w, ws_Denylisted (w_denials w) payload);
      if denied : bool then mret (Err ErrJwtOnDenylist) else
      connect ← can payload PermissionConnect;
      if negb connect || negb (HasScope (ws_scope payload) Websocket) then mret (Err ErrJwtNoConnectPerm) else
      mret (Ok payload)
  end.

Definition setJwt (h : string) (token : WebsocketPayload) : thread unit := modify (set_jwts (<[h := token]>)).
Definition effectful (e : effect) : thread unit := modify (add_effect e).
Definition send_strings (h event : string) (args : list string) : thread error :=
  SendJson h [] (mkMessage event (Strings args)).

(** [strings.Join(m.Args, "")] *)
Definition concat_args (args : list string) : string := String.concat "" args.

Definition ProcessOfflineState : string := "offline".
Definition ProcessStartingState : string := "starting".

(** The case for "auth". *)
Definition authenticate (h : string) (args : list string) : thread error :=
  r ← NewTokenPayload (concat_args args);
  match r with
  | Err e => mret (Some e)
  | Ok token =>
      if negb (bool_decide (ws_ServerUUID token = server_of h)) then mret (Some ErrJwtUuidMismatch) else
      old ← GetJwt h;
      let newConnection := bool_decide (old = None) in
      refused ← (if newConnection then at_moment (λ n, onAuthenticated n h) else mret None);
      match refused with
      | Some e => mret (Some e)
      | None =>
          _ ← setJwt h token;
          _ ← unsafeSendJson h [] (mkMessage AuthenticationSuccessEvent (Strings []));
          if negb newConnection then mret None else
          _ ← effectful (EListen h);
          state ← at_moment (λ n, environment_State n (server_of h));
          _ ← send_strings h "status" [state];
          if bool_decide (state = ProcessOfflineState) then
            installing ← at_moment (λ n, IsInstalling n (server_of h));
            transferring ← (if installing : bool then mret false else at_moment (λ n, IsTransferring n (server_of h)));
            if installing || transferring then mret None else
            _ ← effectful (EDiskUsage (server_of h));
            b ← at_moment (λ n, Proc n (server_of h));
            _ ← send_strings h "stats" [b];
            mret None
          else mret None
      end
  end.

(** ** The other messages *)

Definition power_permission (action : string) : option string :=
  if bool_decide (action = "start"%string) then Some PermissionSendPowerStart
  else if bool_decide (action = "stop"%string) then Some PermissionSendPowerStop
  else if bool_decide (action = "restart"%string) then Some PermissionSendPowerRestart
  else if bool_decide (action = "kill"%string) then Some PermissionSendPowerStop
  else None.
Definition set_state (h : string) (j : WebsocketPayload) (args : list string) : thread error :=
  let action := concat_args args in
  allowed ← (match power_permission action with Some p => can j p | None => mret true end);
  if negb allowed then mret None else
  _ ← effectful (EPower (server_of h) action);
  err ← at_moment (λ n, HandlePowerAction_result n (server_of h));
  if bool_decide (err = Some ErrLockerLocked) then
    m ← GetErrorMessage "another power action is currently being processed for this server, please try again later";
    _ ← send_strings h ErrorEvent [m];
    mret None
  else match err with
  | None => _ ← effectful (EActivity (server_of h) (ws_UserUUID j) ("server:power." +:+ action)); mret None
  | Some e => mret (Some e)
  end.

Definition send_logs (h : string) : thread error :=
  running ← at_moment (λ n, IsRunning n (server_of h));
  if negb running then mret None else
  logs ← at_moment (λ n, Readlog n (server_of h));
  match logs with
  | Err e => mret (Some e)
  | Ok lines =>
      _ ← for_each (λ line, _ ← send_strings h "console output" [line]; mret ()) lines;
      mret None
  end.

Definition send_stats (h : string) : thread error :=
  b ← at_moment (λ n, Proc n (server_of h));
  _ ← send_strings h "stats" [b];
  mret None.

Definition send_command (h : string) (j : WebsocketPayload) (args : list string) : thread error :=
  allowed ← can j PermissionSendCommand;
  if negb allowed then mret None else
  state ← at_moment (λ n, environment_State n (server_of h));
  if bool_decide (state = ProcessOfflineState) then mret None else
  state2 ← at_moment (λ n, environment_State n (server_of h));
  booting ← (if bool_decide (state2 = ProcessStartingState)
             then at_moment (λ n, bool_decide (IsAttached n (server_of h) = Some false)) else mret false);
  if booting : bool then mret None else
  _ ← effectful (ECommand (server_of h) (concat_args args));
  err ← at_moment (λ n, SendCommand_result n (server_of h));
  match err with
  | Some e => mret (Some e)
  | None => _ ← effectful (EActivity (server_of h) (ws_UserUUID j) "server:console.command"); mret None
  end.

(** HandleServerImporter: [None] for an event that is not its own. *)
Definition HandleServerImporter (h : string) (m : Message (list string)) : option (thread error) :=
  if bool_decide (msg_Event m = "serverimporter:progress:get"%string) then Some (
    j ← GetJwt h;
    allowed ← (match j with Some j => can j PermissionReceiveImporter | None => mret false end);
    if negb allowed then SendErrorJson h (ErrOther "missing importer status permission") else
    cancelled ← at_moment (λ n, context_err n h);
    match cancelled with
    | Some e => mret (Some e)
    | None => body ← at_moment (λ n, import_status n (server_of h)); send_strings h "serverimporter:progress" [body]
    end)
  else None.

(** ** Inbound messages *)

Section Inbound.
Variables (HandleBetterFilesCollaboration HandleNativeFileCollaboration :
             string → Message (list string) → option (thread error)).
Variable IsNativeFileCollaborationEvent : string → bool.

Definition IsFileCollaborationEvent (e : string) : bool :=
  IsBetterFilesCollaborationEvent e || IsNativeFileCollaborationEvent e.

Definition dispatch (h : string) (j : option WebsocketPayload) (m : Message (list string)) : thread error :=
  match HandleBetterFilesCollaboration h m with Some p => p | None =>
  match HandleNativeFileCollaboration h m with Some p => p | None =>
  match HandleServerImporter h m with Some p => p | None =>
    if bool_decide (msg_Event m = AuthenticationEvent) then authenticate h (msg_Args m) else
    match j with
    | None => mret None                          (* only "auth" has no token *)
    | Some j =>
        if bool_decide (msg_Event m = SetStateEvent) then set_state h j (msg_Args m)
        else if bool_decide (msg_Event m = SendServerLogsEvent) then send_logs h
        else if bool_decide (msg_Event m = SendStatsEvent) then send_stats h
        else if bool_decide (msg_Event m = SendCommandEvent) then send_command h j (msg_Args m)
        else mret None
    end
  end end end.

Definition HandleInbound (h : string) (m : Message (list string)) : thread error :=
  suspended ← at_moment (λ n, IsSuspended n (server_of h));
  if suspended : bool then mret (Some ErrSuspended) else
  throttled ← (if IsFileCollaborationEvent (msg_Event m) then mret false else IsThrottled h (msg_Event m));
  if throttled : bool then mret None else
  if bool_decide (msg_Event m = AuthenticationEvent) then dispatch h None m else
  r ← validJwt h;
  match r with
  | Err e => _ ← unsafeSendJson h [] (jwt_error e); mret None
  | Ok j => dispatch h (Some j) m
  end.

(** What the router does with a message (router_server_ws.go): an error is answered,
    except that a suspended server ends the connection. *)
Definition handleMessage (h : string) (m : Message (list string)) : thread unit :=
  err ← HandleInbound h m;
  match err with
  | None | Some ErrSuspended => mret ()
  | Some e => _ ← SendErrorJson h e; mret ()
  end.
End Inbound.
End Socket.
Arguments world : clear implicits.
