(* ===== verification/SocketSafe.v ===== *)
(** * The socket under any interleaving

    What holds of the sockets whatever protocol runs over them.  A protocol keeps state
    that its threads share; it says what of that state is always true and what every
    action respects ([Shared]), and what may be sent to whom.  Against that
    interface this file proves that sending, authenticating and the messages of the
    socket itself keep the invariant: the protocol's own, that a stored token is for the
    handler's server, and that whatever was sent is what the protocol lets that connection
    be told ([Tells]). *)

From stdpp Require Import base gmap sets list strings numbers.
From Stdlib Require Import Ascii.
From S2P Require Import Prelude GoStrings Tokens Threads Socket.
Open Scope Z_scope.

Create HintDb sockets.
#[export] Hint Constants Opaque : sockets.

Class Shared (R : Type) := {
  sh_ok : R → Prop;
  sh_le : relation R;
  sh_preorder : PreOrder sh_le;
}.
#[export] Existing Instance sh_preorder.
(** What may be sent: a connection, the sessions a message is about and what it says.  Plain
    text about no session always may. *)
Class Tells (R P : Type) `{Shared R} := {
  sh_sent : string → list nat → content P → R → Prop;
  sh_sent_le h about c r r' : sh_le r r' → sh_sent h about c r → sh_sent h about c r';
  sh_sent_plain h l r : sh_sent h [] (Strings l) r;
}.

(** A fact that every action respects. *)
Class Stable {R} `{Shared R} (P : R → Prop) := stable_le : ∀ r r', sh_le r r' → P r → P r'.
#[export] Instance sent_Stable {R P} `{Tells R P} h about (c : content P) : Stable (sh_sent h about c).
Proof. intros r r'. apply sh_sent_le. Qed.

(** A change of the shared state that keeps its invariant and respects what others know. *)
Definition good {R} `{Shared R} (r r' : R) : Prop := sh_ok r' ∧ sh_le r r'.

Section Invariant.
Context {L R P : Type} `{HSh : Shared R} `{HT : !Tells R P} `{HRL : RateLimiter L} `{HW : World} `{HS : ServerOps}.
Abbreviation wd := (world L R P).
Abbreviation thread := (prog wd).
Implicit Types (w : wd) (r : R) (h : string) (sid : nat).

Lemma good_refl r : sh_ok r → good r r.
Proof. by split. Qed.
Lemma good_trans r1 r2 r3 : good r1 r2 → good r2 r3 → good r1 r3.
Proof. intros [_ ?] [? ?]. split; [done|by transitivity r2]. Qed.

(** ** The invariant *)

(** What was sent is what may be sent. *)
Definition sent_ok (r : R) (x : sent P) : Prop :=
  sh_sent (sn_to x) (sn_sessions x) (msg_Args (sn_message x)) r.

Record Inv (w : wd) : Prop := {
  inv_rooms : sh_ok (w_rooms w);
  inv_jwt : ∀ h j, w_jwt w !! h = Some j → ws_ServerUUID j = server_of h;
  inv_sent : Forall (sent_ok (w_rooms w)) (w_sent w);
}.
Definition Rely : relation wd := λ w w', sh_le (w_rooms w) (w_rooms w').
#[export] Instance Rely_preorder : PreOrder Rely.
Proof. split; [intros w; unfold Rely; reflexivity|intros w1 w2 w3; unfold Rely; apply transitivity]. Qed.

(** An action that leaves the shared state, tokens and messages alone. *)
Lemma Inv_frame w w' : w_rooms w' = w_rooms w → w_jwt w' = w_jwt w → w_sent w' = w_sent w → Inv w → Inv w'.
Proof. intros Er Ej Es [? ? ?]. split; [by rewrite Er|by rewrite Ej|by rewrite Er, Es]. Qed.
Lemma Rely_frame w w' : w_rooms w' = w_rooms w → Rely w w'.
Proof. intros Er. unfold Rely. by rewrite Er. Qed.
(** An action on the shared state. *)
Lemma Inv_rooms w r' : good (w_rooms w) r' → Inv w → Inv (set_rooms (λ _, r') w).
Proof.
  intros [Hok Hle] [_ HJ Hsent]. split; [done|done|]. simpl. eapply list.Forall_impl; [exact Hsent|].
  intros x Hx. by eapply sh_sent_le.
Qed.

(** ** Rules *)

Definition safely {A} (p : thread A) (Q : A → wd → Prop) (w : wd) : Prop := safe Inv Rely p Q w.
End Invariant.
#[export] Existing Instance Rely_preorder.
Abbreviation fine p w := (safely p (λ _ _, True) w).

Section Rules.
Context {L R P : Type} `{HSh : Shared R} `{HT : !Tells R P} `{HRL : RateLimiter L} `{HW : World} `{HS : ServerOps}.
Abbreviation wd := (world L R P).
Abbreviation thread := (prog wd).
Implicit Types (w : wd) (r : R) (h : string) (sid : nat).
Lemma fine_of {A} (p : thread A) Q w : safely p Q w → fine p w.
Proof. intros Hp. by refine (safe_mono _ _ _ _ _ _ _ Hp). Qed.
Lemma seq {A B} (f : A → thread B) p (P' : A → wd → Prop) Q w :
  safely p P' w → (∀ a w', Rely w w' → P' a w' → safely (f a) Q w') → safely (p ≫= f) Q w.
Proof. apply (safe_seq _ _). Qed.
Lemma fine_seq {A B} (f : A → thread B) p Q w :
  fine p w → (∀ a w', Rely w w' → safely (f a) Q w') → safely (p ≫= f) Q w.
Proof. intros Hp Hf. eapply seq; [exact Hp|]. eauto. Qed.
Lemma ret {A} (a : A) (Q : A → wd → Prop) w : Q a w → safely (mret a) Q w.
Proof. done. Qed.
Lemma gets_safe {B} (f : wd → B) (Q : B → wd → Prop) w :
  (∀ w', Rely w w' → Inv w' → Q (f w') w') → safely (gets f) Q w.
Proof. apply (safe_gets _ _). Qed.
Lemma for_each_fine {A} (body : A → thread unit) l w :
  (∀ x w', x ∈ l → Rely w w' → fine (body x) w') → fine (for_each body l) w.
Proof. apply (safe_for_each _ _). Qed.

Lemma frame_safe {B} (f : wd → B * wd) w :
  (∀ w, w_rooms (snd (f w)) = w_rooms w ∧ w_jwt (snd (f w)) = w_jwt w ∧ w_sent (snd (f w)) = w_sent w) →
  fine (atomic f) w.
Proof.
  intros Hf. apply safe_atomic. intros w' _ HI. destruct (Hf w') as (? & ? & ?).
  split_and!; [by apply (Inv_frame w')|by apply Rely_frame|done].
Qed.
Lemma gets_fine {B} (f : wd → B) w : fine (gets f) w.
Proof. by apply gets_safe. Qed.
Lemma at_moment_fine {B} (f : nat → B) w : fine (at_moment f) w.
Proof. by apply frame_safe. Qed.

(** An action on the shared state, with what it lets its thread know. *)
Lemma rooms_safe {B} (f : wd → B * wd) (Q : B → wd → Prop) w :
  (∀ w', Rely w w' → Inv w' → ∃ b r' w2, f w' = (b, set_rooms (λ _, r') w2)
     ∧ w_rooms w2 = w_rooms w' ∧ w_jwt w2 = w_jwt w' ∧ w_sent w2 = w_sent w'
     ∧ good (w_rooms w') r' ∧ ∀ w3, w_rooms w3 = r' → Q b w3) →
  safely (atomic f) Q w.
Proof.
  intros Hf. apply safe_atomic. intros w' HRel HI.
  destruct (Hf w' HRel HI) as (b & r' & w2 & -> & Er & Ej & Es & Hg & HQ). simpl.
  split_and!; [|exact (proj2 Hg)|by apply HQ]. apply Inv_rooms; [by rewrite Er|by apply (Inv_frame w')].
Qed.
Lemma update_safe (f : R → R) (Q : wd → Prop) w :
  (∀ r, sh_le (w_rooms w) r → sh_ok r → good r (f r) ∧ ∀ w', w_rooms w' = f r → Q w') →
  safely (modify (set_rooms f)) (λ _, Q) w.
Proof.
  intros Hf. apply rooms_safe. intros w' HRel HI. destruct (Hf (w_rooms w') HRel (inv_rooms _ HI)) as [Hg HQ].
  eexists _, (f (w_rooms w')), w'. split_and!; done.
Qed.

End Rules.

(** Facts at an earlier moment hold at the next. *)
Ltac advance :=
  match goal with
  | HR : Rely ?w ?w' |- _ =>
      repeat match goal with
      | H : ?P (w_rooms w) |- _ => apply (stable_le (P := P) _ _ HR) in H
      end; clear HR
  end.
(** One more piece of a thread: return, branch, or an operation whose lemma is known. *)
Ltac piece :=
  lazymatch goal with
  | |- safely (mret _) _ _ => exact I
  | |- safely (_ ≫= _) _ _ =>
      eapply seq; [solve [eauto with sockets]|cbv beta; intros ? ? ? ?; advance]
  | |- safely (if ?b then _ else _) _ _ => destruct b eqn:?
  | |- safely (match ?x with _ => _ end) _ _ => destruct x eqn:?
  | |- safely _ _ _ => first [solve [eauto with sockets] | solve [eapply fine_of; eauto with sockets]]
  end.
Ltac pieces := repeat piece.
(** A sequence whose first part is itself made of pieces. *)
Ltac through := apply fine_seq; [pieces|intros ? ? ?; advance].
#[export] Hint Resolve gets_fine at_moment_fine : sockets.

Ltac keeping :=
  repeat first
    [ lazymatch goal with
      | |- keeps _ (mret _) => exact I
      | |- keeps _ (_ ≫= _) => apply keeps_seq; [|intros ?]
      | |- keeps _ (gets _) => by split
      | |- keeps _ (if ?b then _ else _) => destruct b
      | |- keeps _ (match ?x with _ => _ end) => destruct x
      end
    | solve [auto with sockets] ].

(** ** The operations of the socket *)

Section Operations.
Context {L R P : Type} `{HSh : Shared R} `{HT : !Tells R P} `{HRL : RateLimiter L} `{HW : World} `{HS : ServerOps}.
Abbreviation wd := (world L R P).
Abbreviation thread := (prog wd).
Implicit Types (w : wd) (r : R) (h : string) (sid : nat).

Lemma Now_fine w : fine (Now : thread Z) w.
Proof. apply at_moment_fine. Qed.
#[local] Hint Resolve Now_fine : sockets.
Lemma can_fine j p w : fine (can j p : thread bool) w.
Proof. apply gets_fine. Qed.
#[local] Hint Resolve can_fine : sockets.
Lemma GetJwt_safe h w :
  safely (GetJwt h) (λ j _, ∀ j', j = Some j' → ws_ServerUUID j' = server_of h) w.
Proof. apply gets_safe. intros w' _ HI j'. apply HI. Qed.
#[local] Hint Resolve GetJwt_safe : sockets.
Lemma validJwt_fine h w : fine (validJwt h : thread _) w.
Proof. unfold validJwt. pieces. Qed.
#[local] Hint Resolve validJwt_fine : sockets.

Lemma unsafeSendJson_fine h about v w :
  sh_sent h about (msg_Args v) (w_rooms w) → fine (unsafeSendJson h about v : thread _) w.
Proof.
  intros Ha. apply safe_atomic. intros w' HR HI. advance.
  destruct (connection (w_ticks w') h); simpl; (split; [|by split; [apply Rely_frame|]]);
    [|by apply (Inv_frame w')..].
  destruct HI as [H1 H2 H3]. split; [done|done|]. simpl. apply Forall_app_2; [done|]. constructor; [|done].
  exact Ha.
Qed.
Lemma unsafeSendJson_plain h e l w : fine (unsafeSendJson h [] (mkMessage e (Strings l)) : thread _) w.
Proof. apply unsafeSendJson_fine, sh_sent_plain. Qed.
Lemma unsafeSendJson_error h e w : fine (unsafeSendJson h [] (jwt_error e) : thread _) w.
Proof. apply unsafeSendJson_plain. Qed.
#[local] Hint Resolve unsafeSendJson_fine unsafeSendJson_plain unsafeSendJson_error : sockets.
Lemma SendJson_fine h about v w : sh_sent h about (msg_Args v) (w_rooms w) → fine (SendJson h about v : thread _) w.
Proof. intros Ha. unfold SendJson. pieces. Qed.
Lemma SendJson_plain h e l w : fine (SendJson h [] (mkMessage e (Strings l)) : thread _) w.
Proof. apply SendJson_fine, sh_sent_plain. Qed.
#[local] Hint Resolve SendJson_fine SendJson_plain : sockets.
Lemma SendThrottled_fine h scope w : fine (SendThrottled h scope : thread _) w.
Proof. unfold SendThrottled. pieces. Qed.
#[local] Hint Resolve SendThrottled_fine : sockets.
Lemma For_fine h e w : fine (For h e : thread _) w.
Proof.
  unfold For. piece. piece; [piece|]. apply frame_safe. intros w2. by destruct (limitValuesFor e).
Qed.
Lemma allow_fine h e l w : fine (atomic (allow h e l) : thread _) w.
Proof. apply frame_safe. intros w2. unfold allow. by repeat case_match. Qed.
#[local] Hint Resolve For_fine allow_fine : sockets.
Lemma IsThrottled_fine h e w : fine (IsThrottled h e : thread _) w.
Proof.
  unfold IsThrottled. piece. piece. piece. piece; [|piece]. eapply seq with (P' := λ _ _, True); [pieces|done].
Qed.
Lemma GetErrorMessage_fine m w : fine (GetErrorMessage m : thread _) w.
Proof. unfold GetErrorMessage. pieces. Qed.
#[local] Hint Resolve IsThrottled_fine GetErrorMessage_fine : sockets.
Lemma SendErrorJson_fine h e w : fine (SendErrorJson h e : thread _) w.
Proof.
  unfold SendErrorJson. piece. through. pieces.
Qed.
Lemma effectful_fine e w : fine (effectful e : thread _) w.
Proof. by apply frame_safe. Qed.
Lemma send_strings_fine h e args w : fine (send_strings h e args : thread _) w.
Proof. apply SendJson_plain. Qed.
#[local] Hint Resolve SendErrorJson_fine effectful_fine send_strings_fine : sockets.

Lemma NewTokenPayload_fine token w : fine (NewTokenPayload token : thread _) w.
Proof. unfold NewTokenPayload. pieces. Qed.
#[local] Hint Resolve NewTokenPayload_fine : sockets.
(** Only a token for the handler's own server is stored. *)
Lemma setJwt_fine h token w : ws_ServerUUID token = server_of h → fine (setJwt h token : thread _) w.
Proof.
  intros Ht. apply safe_atomic. intros w' _ [H1 H2 H3]. simpl. split_and!; [|by apply Rely_frame|done].
  split; [done| |done]. intros h' j. simpl. intros [[<- <-]|[_ Hj]]%lookup_insert_Some; [done|by apply H2].
Qed.
Lemma authenticate_fine h args w : fine (authenticate h args : thread _) w.
Proof.
  unfold authenticate. cbv zeta. piece. piece; [|piece]. piece; [piece|].
  assert (ws_ServerUUID a0 = server_of h) as Hu by by apply negb_false_iff, bool_decide_eq_true in Heqb.
  piece. eapply seq with (P' := λ _ _, True); [pieces|]. intros refused w3 _ _. piece; [piece|].
  eapply seq; [by apply setJwt_fine|]. intros _ w4 _ _. piece. piece; [piece|]. piece. piece. piece.
  piece; [|piece]. piece. through. pieces.
Qed.
#[local] Hint Resolve authenticate_fine : sockets.
Lemma set_state_fine h j args w : fine (set_state h j args : thread _) w.
Proof. unfold set_state. cbv zeta. through. pieces. Qed.
Lemma send_logs_fine h w : fine (send_logs h : thread _) w.
Proof.
  unfold send_logs. piece. piece; [piece|]. piece. piece; [|piece]. eapply seq; [|done].
  apply for_each_fine. intros. pieces.
Qed.
Lemma send_stats_fine h w : fine (send_stats h : thread _) w.
Proof. unfold send_stats. pieces. Qed.
Lemma send_command_fine h j args w : fine (send_command h j args : thread _) w.
Proof.
  unfold send_command. piece. piece; [piece|]. piece. piece; [piece|]. piece.
  through. pieces.
Qed.
#[local] Hint Resolve set_state_fine send_logs_fine send_stats_fine send_command_fine : sockets.
Lemma HandleServerImporter_fine h m p w : HandleServerImporter h m = Some p → fine (p : thread _) w.
Proof.
  unfold HandleServerImporter. case_bool_decide; [|done]. intros Hp. apply (inj Some) in Hp as <-.
  piece. through. pieces.
Qed.


(** Every message, when the protocols over the socket keep the invariant. *)
Section Inbound.
Variables (HB HN : string → Message (list string) → option (thread (option goerr))) (native : string → bool).
Hypothesis HB_fine : ∀ h m p w, HB h m = Some p → fine p w.
Hypothesis HN_fine : ∀ h m p w, HN h m = Some p → fine p w.

Lemma handleMessage_fine h m w : fine (handleMessage HB HN native h m) w.
Proof.
  assert (∀ j w', fine (dispatch HB HN h j m) w') as Hd.
  { intros j w'. unfold dispatch. destruct (HB h m) eqn:E1; [by eapply HB_fine|].
    destruct (HN h m) eqn:E3; [by eapply HN_fine|].
    destruct (HandleServerImporter h m) eqn:E2; [by eapply HandleServerImporter_fine|]. pieces. }
  unfold handleMessage, HandleInbound. eapply seq with (P' := λ _ _, True).
  - piece. piece; [piece|]. eapply seq with (P' := λ _ _, True); [pieces|]. intros throttled w2 _ _.
    piece; [piece|]. piece; [apply Hd|]. piece. piece; [apply Hd|]. pieces.
  - intros err w2 _ _. pieces.
Qed.
End Inbound.

(** ** What sending leaves alone *)

Lemma at_moment_keeps {A} (f : nat → A) : keeps w_rooms (at_moment f : thread A).
Proof. by split. Qed.
Lemma Now_keeps : keeps w_rooms (Now : thread Z).
Proof. by split. Qed.
Lemma GetJwt_keeps h : keeps w_rooms (GetJwt h : thread _).
Proof. by split. Qed.
Lemma can_keeps j p : keeps w_rooms (can j p : thread _).
Proof. by split. Qed.
Lemma unsafeSendJson_keeps h about v : keeps w_rooms (unsafeSendJson h about v : thread _).
Proof. split; [|done]. intros w. simpl. by destruct (connection (w_ticks w) h). Qed.
#[local] Hint Resolve Now_keeps GetJwt_keeps can_keeps unsafeSendJson_keeps : sockets.
Lemma SendJson_keeps h about v : keeps w_rooms (SendJson h about v : thread _).
Proof. unfold SendJson, validJwt. keeping. Qed.
#[local] Hint Resolve SendJson_keeps : sockets.
End Operations.
#[export] Hint Resolve Now_fine can_fine GetJwt_safe validJwt_fine unsafeSendJson_fine unsafeSendJson_plain unsafeSendJson_error SendJson_fine SendJson_plain SendThrottled_fine For_fine allow_fine IsThrottled_fine GetErrorMessage_fine SendErrorJson_fine effectful_fine send_strings_fine NewTokenPayload_fine authenticate_fine set_state_fine send_logs_fine send_stats_fine send_command_fine at_moment_keeps Now_keeps GetJwt_keeps can_keeps unsafeSendJson_keeps SendJson_keeps : sockets.
