(* ===== verification/Rooms.v ===== *)
(** * Collaboration sessions (router/websocket/betterfiles_collaboration.go)

    Clients of a server edit its files together in sessions.  A session is an object
    known by its code in a registry, with its members (one per connection) and its
    documents (one per file, [Collab]).  The code passes pointers to sessions, members
    and documents around and takes a lock for each access, so here they live in heaps
    that only grow, and every handler is a thread ([Threads]) whose actions are the
    critical sections of the code, in the code's order.

    The JSON decoder, the JWT library and the reading of a file are parameters; maps are
    ranged over in an order the environment chooses. *)

From stdpp Require Import base gmap sets list strings numbers.
From Stdlib Require Import Ascii.
From S2P Require Import Prelude GoStrings Paths Tokens Collab Threads Socket.
Open Scope Z_scope.

(** ** Constants *)

Definition betterFilesCollabReadPermission : string := "file.read-content".
Definition betterFilesCollabWritePermission : string := "file.update".
Definition betterFilesCollabMaxPayloadBytes : Z := 10 * 1024 * 1024.
Definition betterFilesCollabMaxMessageBytes : Z := betterFilesCollabMaxPayloadBytes * 2 + 8192.
Definition betterFilesCollabMaxUsers : Z := 20.
Definition betterFilesCollabMaxPatchChanges : Z := 64.
Definition betterFilesCollabMaxPathBytes : Z := 4096.
Definition betterFilesCollabMaxCursorValue : Z := 1000000.
Definition betterFilesCollabMaxDocuments : nat := 32.
Definition betterFilesCollabMaxSessionBytes : Z := 32 * 1024 * 1024.

(** ** Text *)

(** The runes of a valid UTF-8 string, as the documents hold them. *)
Definition low (c : ascii) (bits : Z) : Z := byteZ c mod 2 ^ bits.
Definition push (r : Z) (rest : option text) : option text := cons r <$> rest.
Fixpoint utf8_decode (s : string) : option text :=
  match s with
  | EmptyString => Some []
  | String c0 s1 =>
      let b0 := byteZ c0 in
      if b0 <? 128 then push b0 (utf8_decode s1)
      else match s1 with
      | EmptyString => None
      | String c1 s2 =>
          if (194 <=? b0) && (b0 <=? 223)
          then if cont 128 191 c1 then push (low c0 5 * 64 + low c1 6) (utf8_decode s2) else None
          else match s2 with
          | EmptyString => None
          | String c2 s3 =>
              let lo3 := if b0 =? 224 then 160 else 128 in
              let hi3 := if b0 =? 237 then 159 else 191 in
              if (224 <=? b0) && (b0 <=? 239)
              then if cont lo3 hi3 c1 && cont 128 191 c2
                   then push (low c0 4 * 4096 + low c1 6 * 64 + low c2 6) (utf8_decode s3) else None
              else match s3 with
              | EmptyString => None
              | String c3 s4 =>
                  let lo4 := if b0 =? 240 then 144 else 128 in
                  let hi4 := if b0 =? 244 then 143 else 191 in
                  if (240 <=? b0) && (b0 <=? 244) && cont lo4 hi4 c1 && cont 128 191 c2 && cont 128 191 c3
                  then push (low c0 3 * 262144 + low c1 6 * 4096 + low c2 6 * 64 + low c3 6) (utf8_decode s4)
                  else None
              end
          end
      end
  end.

(** [string(runes[:n])] of a valid string: a byte that continues a rune goes with it. *)
Fixpoint take_runes (n : nat) (s : string) : string :=
  match s with
  | EmptyString => EmptyString
  | String c s' =>
      if cont 128 191 c then String c (take_runes n s')
      else match n with O => EmptyString | S n' => String c (take_runes n' s') end
  end.

Fixpoint without_byte (x : ascii) (s : string) : string :=
  match s with
  | EmptyString => EmptyString
  | String c s' => if Ascii.eqb c x then without_byte x s' else String c (without_byte x s')
  end.

(** What a reader limited to [n] bytes gives. *)
Fixpoint limited_bytes (n : Z) (s : string) : string :=
  match s with
  | EmptyString => EmptyString
  | String c s' => if 0 <? n then String c (limited_bytes (n - 1) s') else EmptyString
  end.

Section Sanitising.
Context `{UnicodeTables}.

Definition betterFilesCollabSafeText (value : string) (max : nat) : string :=
  let value := TrimSpace value in
  if negb (ValidUTF8 value) then EmptyString
  else if Z.of_nat max <? strlen value then
    if Z.of_nat max <? RuneCount value then take_runes max value else value
  else value.

Definition betterFilesCollabSafeImage (value : string) : string :=
  let value := betterFilesCollabSafeText value 240 in
  if bool_decide (value = EmptyString) then EmptyString
  else if HasPrefix value "https://" then value
  else EmptyString.

Definition betterFilesCollabClampCursor (value : Z) : Z :=
  if value <? 1 then 1
  else if betterFilesCollabMaxCursorValue <? value then betterFilesCollabMaxCursorValue
  else value.

(** A session code: eight capitals or digits, in two groups.  A byte outside ASCII
    belongs to a rune that is neither. *)
Definition code_char (c : ascii) : bool := cont 65 90 c || cont 48 57 c.
Fixpoint code_chars (i : nat) (s : string) : bool :=
  match s with
  | EmptyString => true
  | String c s' => ((i =? 4)%nat || code_char c) && code_chars (S i) s'
  end.
Definition betterFilesCollabCode (code : string) : string :=
  let code := ToUpper (TrimSpace code) in
  let code := without_byte " "%char code in
  let code := if strlen code =? 8
              then (String.substring 0 4 code +:+ "-" +:+ String.substring 4 (String.length code - 4) code)%string
              else code in
  if negb (strlen code =? 9) || negb (bool_decide (String.get 4 code = Some "-"%char)) then EmptyString
  else if code_chars 0 code then code else EmptyString.

Definition sensitive_part (part : string) : bool :=
  if bool_decide (part = EmptyString) then false
  else if bool_decide (part = ".env"%string) || HasPrefix part ".env." || bool_decide (part = ".npmrc"%string)
          || bool_decide (part = "composer.auth.json"%string) then true
  else if bool_decide (part = "id_rsa"%string) || bool_decide (part = "id_ed25519"%string)
          || bool_decide (part = "id_ecdsa"%string) then true
  else if HasSuffix part ".pem" || HasSuffix part ".key" || HasSuffix part ".p12" || HasSuffix part ".pfx" then true
  else HasPrefix part "secret" || HasPrefix part "credential".
Definition betterFilesCollabSensitivePath (path : string) : bool :=
  existsb sensitive_part (Split slash (ToLower (Trim slash path))).

(** In a valid string the control characters are the bytes below 0x20 and 0x7f. *)
Definition control_byte (c : ascii) : bool := (byteZ c <? 32) || (byteZ c =? 127).
Fixpoint has_control (s : string) : bool :=
  match s with
  | EmptyString => false
  | String c s' => control_byte c || has_control s'
  end.
Definition betterFilesCollabPath (path : string) : option string :=
  let path := TrimSpace (replace_byte backslash slash path) in
  if bool_decide (path = EmptyString) || (betterFilesCollabMaxPathBytes <? strlen path)
     || contains_byte nul_byte path || negb (ValidUTF8 path) then None
  else if has_control path then None
  else
    let path := if negb (HasPrefix path "/") then ("/" +:+ path)%string else path in
    if existsb (λ segment, bool_decide (segment = ".."%string)) (Split slash path) then None
    else
      let path := Clean path in
      let path := if negb (HasPrefix path "/") then ("/" +:+ path)%string else path in
      if bool_decide (path = "."%string) || bool_decide (path = "/"%string)
         || (betterFilesCollabMaxPathBytes <? strlen path) || betterFilesCollabSensitivePath path then None
      else Some path.
End Sanitising.

(** ** Data *)

Record User := mkUser { us_UUID : string; us_Username : string; us_Image : string; us_ConnectionID : string }.
#[export] Instance User_eq_dec : EqDecision User.
Proof. solve_decision. Defined.

Record SessionInfo := mkInfo {
  si_Code : string; si_ServerUUID : string; si_OwnerUUID : string; si_Mode : string;
  si_MaxUsers : Z; si_MaxFileBytes : Z; si_Token : string; si_ExpiresAt : Z }.

Record CollabToken := mkCollabToken {
  ct_ServerUUID : string; ct_UserUUID : string; ct_Enabled : bool; ct_Code : string; ct_OwnerUUID : string;
  ct_Mode : string; ct_MaxUsers : Z; ct_MaxFileBytes : Z; ct_ExpiresAt : Z }.

Record JoinPayload := mkJoin { jp_Session : SessionInfo; jp_User : User }.
Record FilePayload := mkFile { fp_Code : string; fp_Path : string }.
Record PresencePayload := mkPresence {
  pp_Code : string; pp_Path : string; pp_Line : Z; pp_Column : Z; pp_Selection : string }.
Record SnapshotPayload := mkSnapshot {
  sp_Code : string; sp_Path : string; sp_Content : text; sp_Version : Z; sp_Line : Z; sp_Column : Z }.
Record PatchPayload := mkPatch {
  ap_Code : string; ap_Path : string; ap_Changes : list TextEdit; ap_Version : Z; ap_Line : Z; ap_Column : Z }.
Record SavedPayload := mkSaved { vp_Code : string; vp_Path : string; vp_Content : text; vp_Version : Z }.
Record CheckPayload := mkCheck { cp_Path : string; cp_RequestID : string }.
Record ExternalPayload := mkExternal { ep_Path : string; ep_User : User }.
Record Conflict := mkConflict { cf_Code : string; cf_Mode : string; cf_Users : list User }.

Record Member := mkMember {
  mb_HandlerID : string; mb_User : User; mb_FilePath : string; mb_JoinedAt : Z; mb_LastVersion : Z }.
Definition set_FilePath (p : string) (m : Member) : Member :=
  mkMember (mb_HandlerID m) (mb_User m) p (mb_JoinedAt m) (mb_LastVersion m).
Definition set_LastVersion (v : Z) (m : Member) : Member :=
  mkMember (mb_HandlerID m) (mb_User m) (mb_FilePath m) (mb_JoinedAt m) v.
Definition no_user : User := mkUser "" "" "" "".
Definition no_member : Member := mkMember "" no_user "" 0 0.

(** Members and documents are pointers. *)
Record Session := mkSession {
  ss_Code : string; ss_ServerUUID : string; ss_OwnerUUID : string; ss_Mode : string;
  ss_MaxUsers : Z; ss_MaxFileBytes : Z; ss_ExpiresAt : Z;
  ss_Members : gmap string nat; ss_Documents : gmap string nat }.
Definition set_ExpiresAt (t : Z) (s : Session) : Session :=
  mkSession (ss_Code s) (ss_ServerUUID s) (ss_OwnerUUID s) (ss_Mode s) (ss_MaxUsers s) (ss_MaxFileBytes s)
    t (ss_Members s) (ss_Documents s).
Definition set_Members (f : gmap string nat → gmap string nat) (s : Session) : Session :=
  mkSession (ss_Code s) (ss_ServerUUID s) (ss_OwnerUUID s) (ss_Mode s) (ss_MaxUsers s) (ss_MaxFileBytes s)
    (ss_ExpiresAt s) (f (ss_Members s)) (ss_Documents s).
Definition set_Documents (f : gmap string nat → gmap string nat) (s : Session) : Session :=
  mkSession (ss_Code s) (ss_ServerUUID s) (ss_OwnerUUID s) (ss_Mode s) (ss_MaxUsers s) (ss_MaxFileBytes s)
    (ss_ExpiresAt s) (ss_Members s) (f (ss_Documents s)).
Definition no_session : Session := mkSession "" "" "" "" 0 0 0 ∅ ∅.

(** The values that are marshalled into outgoing messages. *)
Inductive body :=
| BError (message : string)
| BJoined (code : string) (user : User) (mode : string)
| BClosed (code : string) (reason : option string)
| BMembers (code : string) (members : list User) (mode : string)
| BFileUsers (code : string) (files : gmap string (list User))
| BPresence (code path : string) (line column : Z) (selection : string) (user : User)
| BPatch (code path : string) (changes : list TextEdit) (version revision line column : Z) (user : User)
| BSnapshot (code path : string) (content : text) (version revision line column : Z) (user : User)
| BDocument (code path : string) (content : text) (version revision : Z)
| BSaved (code path : string) (content : text) (version revision : Z) (user : User)
| BCheck (path request_id : string) (conflicts : list Conflict) (users : list User)
| BExternal (code path : string) (user : User) (editing_users : list User).

Class Json := {
  unmarshal_join : string → option JoinPayload;
  unmarshal_file : string → option FilePayload;
  unmarshal_code : string → option string;
  unmarshal_presence : string → option PresencePayload;
  unmarshal_patch : string → option PatchPayload;
  unmarshal_snapshot : string → option SnapshotPayload;
  unmarshal_saved : string → option SavedPayload;
  unmarshal_check : string → option CheckPayload;
  unmarshal_external : string → option ExternalPayload;
}.
Definition betterFilesCollabDecode {A} (unmarshal : string → option A) (m : Message (list string)) : option A :=
  match msg_Args m with
  | [] => None
  | arg :: _ => if betterFilesCollabMaxMessageBytes <? strlen arg then None else unmarshal arg
  end.

(** What opening a file of the server's file system and reading it gives: nothing if it
    cannot be opened_file, no content if it cannot be read. *)
Record opened_file := mkOpened { of_IsDir : bool; of_Size : Z; of_Content : option string }.
Class Panel := {
  verify_collab : Z → string → option CollabToken;
  file_of : nat → string → string → option opened_file;
}.

Definition JoinedEvent : string := "betterfiles:collab:joined".
Definition ClosedEvent : string := "betterfiles:collab:closed".
Definition MembersEvent : string := "betterfiles:collab:members".
Definition FileUsersEvent : string := "betterfiles:collab:file:users".
Definition PresenceOut : string := "betterfiles:collab:presence".
Definition PatchOut : string := "betterfiles:collab:patch".
Definition SnapshotOut : string := "betterfiles:collab:snapshot".
Definition FileSavedOut : string := "betterfiles:collab:file:saved".
Definition FileCheckResultEvent : string := "betterfiles:collab:file:check:result".
Definition ExternalEditOut : string := "betterfiles:collab:file:external-modified".
Definition CollabErrorEvent : string := "betterfiles:collab:error".

(** ** State *)

Section Rooms.
Context {op : Type} `{OT op} {L : Type} `{World} `{UnicodeTables} `{Json} `{Panel}.

Record rooms := mkRooms {
  r_registry : gmap string nat;              (* betterFilesCollabSessions *)
  r_sessions : list Session;
  r_members : list Member;
  r_documents : list (Document op);
}.
Definition set_registry (f : gmap string nat → gmap string nat) (r : rooms) : rooms :=
  mkRooms (f (r_registry r)) (r_sessions r) (r_members r) (r_documents r).
Definition set_session (sid : nat) (f : Session → Session) (r : rooms) : rooms :=
  mkRooms (r_registry r) (alter f sid (r_sessions r)) (r_members r) (r_documents r).
Definition set_member (mid : nat) (f : Member → Member) (r : rooms) : rooms :=
  mkRooms (r_registry r) (r_sessions r) (alter f mid (r_members r)) (r_documents r).
Definition set_document (did : nat) (d : Document op) (r : rooms) : rooms :=
  mkRooms (r_registry r) (r_sessions r) (r_members r) (<[did := d]> (r_documents r)).
Definition new_session (s : Session) (r : rooms) : rooms :=
  mkRooms (r_registry r) (r_sessions r ++ [s]) (r_members r) (r_documents r).
Definition new_member (m : Member) (r : rooms) : rooms :=
  mkRooms (r_registry r) (r_sessions r) (r_members r ++ [m]) (r_documents r).
Definition new_document (d : Document op) (r : rooms) : rooms :=
  mkRooms (r_registry r) (r_sessions r) (r_members r) (r_documents r ++ [d]).

Abbreviation wd := (world L rooms body).
Abbreviation thread := (prog wd).
Abbreviation error := (option goerr).

Definition session_at (r : rooms) (sid : nat) : Session := default no_session (r_sessions r !! sid).
Definition member_at (r : rooms) (mid : nat) : Member := default no_member (r_members r !! mid).
Definition document_at (r : rooms) (did : nat) : Document op :=
  default (newBetterFilesCollabDocument []) (r_documents r !! did).

(** Reading the fields of a session that are never written, and one of its other fields
    under its lock. *)
Definition load (sid : nat) : thread Session := gets (λ w, session_at (w_rooms w) sid).
Definition update (f : rooms → rooms) : thread unit := modify (set_rooms f).
(** A range over a map. *)
Definition ranged {A} (f : rooms → list A) : thread (list A) :=
  atomic (λ w, (range (w_ticks w) (f (w_rooms w)), tick w)).

(** ** Messages to clients *)

Definition betterFilesCollabSend (h : string) (about : list nat) (event : string) (b : body) : thread error :=
  SendJson h about (mkMessage event (Body b)).
Definition betterFilesCollabError (h message : string) : thread error :=
  betterFilesCollabSend h [] CollabErrorEvent (BError message).

Definition member_ids (except : string) (sid : nat) (r : rooms) : list string :=
  omap (λ '(_, mid), let id := mb_HandlerID (member_at r mid) in
          if negb (bool_decide (except = EmptyString)) && bool_decide (id = except) then None else Some id)
    (map_to_list (ss_Members (session_at r sid))).
Definition betterFilesCollabBroadcast (sid : nat) (except event : string) (b : body) : thread unit :=
  members ← ranged (member_ids except sid);
  for_each (λ id, _ ← betterFilesCollabSend id [sid] event b; mret ()) members.

Definition member_list (sid : nat) (r : rooms) : list Member :=
  (λ '(_, mid), member_at r mid) <$> map_to_list (ss_Members (session_at r sid)).
Definition betterFilesCollabMembers (sid : nat) : thread (list User) :=
  members ← ranged (member_list sid); mret (fmap (M:=list) mb_User members).
Definition betterFilesCollabBroadcastMembers (sid : nat) : thread unit :=
  members ← betterFilesCollabMembers sid;
  session ← load sid;
  betterFilesCollabBroadcast sid EmptyString MembersEvent (BMembers (ss_Code session) members (ss_Mode session)).

Definition add_file_user (files : gmap string (list User)) (m : Member) : gmap string (list User) :=
  if bool_decide (mb_FilePath m = EmptyString) then files
  else <[mb_FilePath m := default [] (files !! mb_FilePath m) ++ [mb_User m]]> files.
Definition betterFilesCollabBroadcastFileUsers (sid : nat) : thread unit :=
  members ← ranged (member_list sid);
  session ← load sid;
  betterFilesCollabBroadcast sid EmptyString FileUsersEvent
    (BFileUsers (ss_Code session) (foldl add_file_user ∅ members)).

Definition betterFilesCollabUsersForPath (sid : nat) (path except : string) : thread (list User) :=
  members ← ranged (member_list sid);
  mret (omap (M:=list) (λ m, if negb (bool_decide (except = EmptyString)) && bool_decide (mb_HandlerID m = except) then None
                   else if bool_decide (mb_FilePath m = path) then Some (mb_User m) else None) members).

(** ** The registry *)

(** A Time of whole seconds, as Go stores it: seconds since year 1 in an int64. *)
Definition time_Unix (sec : Z) : Z := wrap64 (sec + 62135596800).
Definition seconds (now : Z) : Z := now / second.
Definition betterFilesCollabSessionExpired (now : Z) (s : Session) : bool :=
  (ss_ExpiresAt s =? 0) || negb (seconds now + 62135596800 <? ss_ExpiresAt s).

Definition create_session (info : SessionInfo) (code : string) : Session :=
  let mode := if bool_decide (si_Mode info = "edit"%string) then "edit"%string else "view"%string in
  let maxUsers := if (si_MaxUsers info <? 2) || (betterFilesCollabMaxUsers <? si_MaxUsers info)
                  then 10 else si_MaxUsers info in
  let maxFileBytes := if (si_MaxFileBytes info <? 1) || (betterFilesCollabMaxPayloadBytes <? si_MaxFileBytes info)
                      then betterFilesCollabMaxPayloadBytes else si_MaxFileBytes info in
  mkSession code (si_ServerUUID info) (si_OwnerUUID info) mode maxUsers maxFileBytes
    (time_Unix (si_ExpiresAt info)) ∅ ∅.
Definition registered (info : SessionInfo) (code : string) (r : rooms) : nat * rooms :=
  let sid := length (r_sessions r) in
  (sid, set_registry (<[code := sid]>) (new_session (create_session info code) r)).
Definition extend (info : SessionInfo) (s : Session) : Session :=
  if (0 <? si_ExpiresAt info) && (ss_ExpiresAt s <? time_Unix (si_ExpiresAt info))
  then set_ExpiresAt (time_Unix (si_ExpiresAt info)) s else s.
Definition get_or_create (now : Z) (info : SessionInfo) (r : rooms) : nat * rooms :=
  let code := betterFilesCollabCode (si_Code info) in
  match r_registry r !! code with
  | Some sid =>
      if betterFilesCollabSessionExpired now (session_at r sid)
      then registered info code (set_registry (delete code) r)
      else (sid, set_session sid (extend info) r)
  | None => registered info code r
  end.
Definition betterFilesCollabGetOrCreateSession (info : SessionInfo) : thread nat :=
  atomic (λ w, let '(sid, r) := get_or_create (clock (w_ticks w)) info (w_rooms w) in
               (sid, set_rooms (λ _, r) (tick w))).

(** The session of a code and the caller's membership in it; an expired session is
    removed from the registry, if it is still there. *)
Definition betterFilesCollabMemberFor (h code : string) : thread (option (nat * nat)) :=
  let code := betterFilesCollabCode code in
  found ← gets (λ w, r_registry (w_rooms w) !! code);
  match found with
  | None => mret None
  | Some sid =>
      session ← load sid;
      now ← Now;
      if betterFilesCollabSessionExpired now session then
        _ ← update (λ r, if bool_decide (r_registry r !! code = Some sid) then set_registry (delete code) r else r);
        mret None
      else
        member ← gets (λ w, ss_Members (session_at (w_rooms w) sid) !! h);
        mret (match member with Some mid => Some (sid, mid) | None => None end)
  end.

(** The two critical sections of leaving: out of the members, and out of the registry
    when nobody was left. *)
Definition drop_member (sid : nat) (h : string) (r : rooms) : option bool * rooms :=
  let members := ss_Members (session_at r sid) in
  match members !! h with
  | None => (None, r)
  | Some _ => (Some (bool_decide (delete h members = ∅)), set_session sid (set_Members (delete h)) r)
  end.
Definition betterFilesCollabRemoveMember (code h : string) : thread unit :=
  let code := betterFilesCollabCode code in
  found ← gets (λ w, r_registry (w_rooms w) !! code);
  match found with
  | None => mret ()
  | Some sid =>
      left_ ← atomic (λ w, let '(b, r) := drop_member sid h (w_rooms w) in (b, set_rooms (λ _, r) w));
      match left_ with
      | None => mret ()
      | Some true => update (set_registry (delete code))
      | Some false =>
          _ ← betterFilesCollabBroadcastMembers sid;
          betterFilesCollabBroadcastFileUsers sid
      end
  end.
Definition betterFilesCollabLeaveAll (h : string) : thread unit :=
  sessions ← ranged (λ r, snd <$> map_to_list (r_registry r));
  for_each (λ sid, session ← load sid; betterFilesCollabRemoveMember (ss_Code session) h) sessions.

(** The sessions of a server, removing the expired ones from the registry: the range is
    taken over the map as it was, each entry's removal concerns that entry only. *)
Fixpoint sessions_for (now : Z) (serverUUID : string) (l : list nat) (r : rooms) : list nat * rooms :=
  match l with
  | [] => ([], r)
  | sid :: l' =>
      let s := session_at r sid in
      if betterFilesCollabSessionExpired now s
      then sessions_for now serverUUID l' (set_registry (delete (ss_Code s)) r)
      else let '(found, r') := sessions_for now serverUUID l' r in
           ((if bool_decide (ss_ServerUUID s = serverUUID) then sid :: found else found), r')
  end.
Definition betterFilesCollabSessionsForServer (serverUUID : string) : thread (list nat) :=
  atomic (λ w,
    let l := range (w_ticks w) (snd <$> map_to_list (r_registry (w_rooms w))) in
    let '(found, r) := sessions_for (clock (w_ticks w)) serverUUID l (w_rooms w) in
    (found, set_rooms (λ _, r) (tick w))).

(** Revocation by the Panel. *)
Fixpoint revoked (now : Z) (serverUUID mode : string) (l : list (string * nat)) (r : rooms) : list nat * rooms :=
  match l with
  | [] => ([], r)
  | (code, sid) :: l' =>
      let s := session_at r sid in
      if betterFilesCollabSessionExpired now s then revoked now serverUUID mode l' (set_registry (delete code) r)
      else if negb (bool_decide (ss_ServerUUID s = serverUUID)) then revoked now serverUUID mode l' r
      else if negb (bool_decide (mode = EmptyString)) && negb (bool_decide (ss_Mode s = mode))
           then revoked now serverUUID mode l' r
      else let '(found, r') := revoked now serverUUID mode l' (set_registry (delete code) r) in (sid :: found, r')
  end.
Definition CloseBetterFilesCollaborationSessions (serverUUID mode reason : string) : thread Z :=
  let mode := TrimSpace mode in
  let mode := if bool_decide (mode = "edit"%string) || bool_decide (mode = "view"%string) then mode else EmptyString in
  let reason := betterFilesCollabSafeText reason 160 in
  let reason := if bool_decide (reason = EmptyString)
                then "Live collaboration was revoked by an administrator."%string else reason in
  sessions ← atomic (λ w,
    let l := range (w_ticks w) (map_to_list (r_registry (w_rooms w))) in
    let '(found, r) := revoked (clock (w_ticks w)) serverUUID mode l (w_rooms w) in
    (found, set_rooms (λ _, r) (tick w)));
  _ ← for_each (λ sid,
        session ← load sid;
        _ ← betterFilesCollabBroadcast sid EmptyString ClosedEvent (BClosed (ss_Code session) (Some reason));
        update (set_session sid (set_Members (λ _, ∅)))) sessions;
  mret (zlen sessions).

(** ** Permissions and tokens *)

Definition holds_permission (h permission : string) : thread bool :=
  j ← GetJwt h;
  match j with Some j => can j permission | None => mret false end.
Definition betterFilesCollabCanRead (h : string) : thread bool := holds_permission h betterFilesCollabReadPermission.
Definition betterFilesCollabCanWrite (h : string) : thread bool := holds_permission h betterFilesCollabWritePermission.

Definition verified (token : CollabToken) (code : string) (info : SessionInfo) (expiresAt : Z) : SessionInfo :=
  mkInfo code (ct_ServerUUID token) (ct_OwnerUUID token)
    (if bool_decide (ct_Mode token = "edit"%string) then ct_Mode token else "view"%string)
    (if (ct_MaxUsers token <? 2) || (betterFilesCollabMaxUsers <? ct_MaxUsers token) then 10 else ct_MaxUsers token)
    (if (ct_MaxFileBytes token <? 1) || (betterFilesCollabMaxPayloadBytes <? ct_MaxFileBytes token)
     then betterFilesCollabMaxPayloadBytes else ct_MaxFileBytes token)
    (si_Token info) expiresAt.
Definition betterFilesCollabVerifiedSession (info : SessionInfo) : thread (option (SessionInfo * string)) :=
  if bool_decide (TrimSpace (si_Token info) = EmptyString) then mret None else
  now ← Now;
  match verify_collab now (si_Token info) with
  | None => mret None
  | Some token =>
      if negb (ct_Enabled token) then mret None else
      let code := betterFilesCollabCode (ct_Code token) in
      if bool_decide (code = EmptyString) || negb (bool_decide (code = betterFilesCollabCode (si_Code info)))
      then mret None else
      expiresAt ← (if ct_ExpiresAt token <=? 0
                   then now ← Now; mret (seconds (now + 15 * 60 * second)) else mret (ct_ExpiresAt token));
      now ← Now;
      if expiresAt <=? seconds now then mret None
      else mret (Some (verified token code info expiresAt, ct_UserUUID token))
  end.

(** A user as others see it: its identity from the token, the rest cleaned. *)
Definition clean_user (h : string) (jwt : WebsocketPayload) (u : User) : User :=
  let name := betterFilesCollabSafeText (us_Username u) 48 in
  let connection := betterFilesCollabSafeText (us_ConnectionID u) 80 in
  mkUser (ws_UserUUID jwt)
    (if bool_decide (name = EmptyString) then "User"%string else name)
    (betterFilesCollabSafeImage (us_Image u))
    (if bool_decide (connection = EmptyString) then h else connection).

(** ** Documents *)

Definition max_bytes (s : Session) : Z :=
  if (ss_MaxFileBytes s <=? 0) || (betterFilesCollabMaxPayloadBytes <? ss_MaxFileBytes s)
  then betterFilesCollabMaxPayloadBytes else ss_MaxFileBytes s.
Definition document_bytes (r : rooms) (did : nat) : Z := byte_len (doc_Content (document_at r did)).
Definition documents_bytes (sid : nat) (r : rooms) : Z :=
  zsum (λ '(_, did), document_bytes r did) (map_to_list (ss_Documents (session_at r sid))).
(** Each document is read under its own lock, after the session's lock is released. *)
Fixpoint sum_bytes (dids : list nat) : thread Z :=
  match dids with
  | [] => mret 0
  | did :: dids' => n ← gets (λ w, document_bytes (w_rooms w) did); rest ← sum_bytes dids'; mret (n + rest)
  end.
Definition betterFilesCollabSessionDocumentBytes (sid : nat) : thread Z :=
  documents ← ranged (λ r, snd <$> map_to_list (ss_Documents (session_at r sid)));
  sum_bytes documents.

Definition add_document (sid : nat) (path : string) (content : text) (r : rooms) : result string nat * rooms :=
  let session := session_at r sid in
  match ss_Documents session !! path with
  | Some did => (Ok did, r)
  | None =>
      if (betterFilesCollabMaxDocuments <=? size (ss_Documents session))%nat
      then (Err "collaboration session has too many open documents"%string, r)
      else if betterFilesCollabMaxSessionBytes <? documents_bytes sid r + byte_len content
      then (Err "collaboration session document memory limit reached"%string, r)
      else let did := length (r_documents r) in
           (Ok did, set_session sid (set_Documents (<[path := did]>))
                      (new_document (newBetterFilesCollabDocument content) r))
  end.
Definition betterFilesCollabDocumentFor (h : string) (sid : nat) (path : string) : thread (result string nat) :=
  existing ← gets (λ w, ss_Documents (session_at (w_rooms w) sid) !! path);
  match existing with
  | Some did => mret (Ok did)
  | None =>
      file ← at_moment (λ n, file_of n (server_of h) path);
      match file with
      | None => mret (Err "could not open collaboration file"%string)
      | Some file =>
          if of_IsDir file then mret (Err "collaboration path is not a file"%string) else
          session ← load sid;
          let maxBytes := max_bytes session in
          if maxBytes <? of_Size file then mret (Err "collaboration file is too large"%string) else
          match of_Content file with
          | None => mret (Err "could not read collaboration file"%string)
          | Some bytes =>
              let content := limited_bytes (maxBytes + 1) bytes in
              match utf8_decode content with
              | Some decoded =>
                  if maxBytes <? strlen content
                  then mret (Err "collaboration file is too large or is not UTF-8 text"%string)
                  else atomic (λ w, let '(res, r) := add_document sid path decoded (w_rooms w) in
                                    (res, set_rooms (λ _, r) w))
              | None => mret (Err "collaboration file is too large or is not UTF-8 text"%string)
              end
          end
      end
  end.

Definition read_document (did : nat) : thread (text * Z) := gets (λ w, snapshot (document_at (w_rooms w) did)).
Definition betterFilesCollabSendDocument (h : string) (sid did : nat) (path : string) : thread error :=
  current ← read_document did;
  let '(content, revision) := current : text * Z in
  session ← load sid;
  betterFilesCollabSend h [sid] SnapshotOut (BDocument (ss_Code session) path content (revision + 1) revision).

Definition replace_document (did : nat) (content : text) : thread unit :=
  update (λ r, set_document did (replace content (document_at r did)) r).
Definition apply_document (did : nat) (changes : list TextEdit) (maxBytes : Z)
    : thread (result collaberr ApplyResult) :=
  atomic (λ w, let '(res, d) := applyMonacoChanges changes maxBytes (document_at (w_rooms w) did) in
               (res, set_rooms (set_document did d) w)).

(** ** Members *)

Definition accept_version (mid : nat) (version : Z) (r : rooms) : bool * rooms :=
  if version <=? mb_LastVersion (member_at r mid) then (false, r)
  else (true, set_member mid (set_LastVersion version) r).
Definition betterFilesCollabAcceptVersion (mid : nat) (version : Z) : thread bool :=
  if version <? 1 then mret false
  else atomic (λ w, let '(b, r) := accept_version mid version (w_rooms w) in (b, set_rooms (λ _, r) w)).

Definition set_path (mid : nat) (path : string) (r : rooms) : bool * rooms :=
  if bool_decide (mb_FilePath (member_at r mid) = path) then (false, r)
  else (true, set_member mid (set_FilePath path) r).
Definition betterFilesCollabSetMemberPath (mid : nat) (path : string) : thread bool :=
  atomic (λ w, let '(b, r) := set_path mid path (w_rooms w) in (b, set_rooms (λ _, r) w)).
Definition follow (sid mid : nat) (path : string) : thread unit :=
  changed ← betterFilesCollabSetMemberPath mid path;
  if changed : bool then betterFilesCollabBroadcastFileUsers sid else mret ().

(** ** Requests *)

Definition not_joined : string := "not joined to this collaboration session".
Definition not_allowed : string := "file is not allowed in live collaboration".

Definition add_member (sid : nat) (m : Member) (r : rooms) : bool * rooms :=
  let session := session_at r sid in
  if ss_MaxUsers session <=? Z.of_nat (size (ss_Members session)) then (false, r)
  else (true, set_session sid (set_Members (<[mb_HandlerID m := length (r_members r)]>)) (new_member m r)).

(** Joining; the goroutine that waits for the connection to end is [disconnected]. *)
Definition join_session (h : string) (info : SessionInfo) (code : string) (user : User) : thread error :=
  _ ← betterFilesCollabLeaveAll h;
  sid ← betterFilesCollabGetOrCreateSession info;
  session ← load sid;
  if negb (bool_decide (ss_ServerUUID session = si_ServerUUID info)) || negb (bool_decide (ss_Mode session = si_Mode info))
  then betterFilesCollabError h "collaboration session metadata changed" else
  joined ← atomic (λ w, let '(b, r) := add_member sid (mkMember h user EmptyString (clock (w_ticks w)) 0) (w_rooms w) in
                        (b, set_rooms (λ _, r) (tick w)));
  if negb joined then betterFilesCollabError h "collaboration session is full" else
  _ ← betterFilesCollabSend h [sid] JoinedEvent (BJoined code user (ss_Mode session));
  _ ← betterFilesCollabBroadcastMembers sid;
  _ ← betterFilesCollabBroadcastFileUsers sid;
  mret None.
Definition betterFilesCollabJoin (h : string) (m : Message (list string)) : thread error :=
  reads ← betterFilesCollabCanRead h;
  if negb reads then betterFilesCollabError h "missing file read permission" else
  match betterFilesCollabDecode unmarshal_join m with
  | None => betterFilesCollabError h "invalid collaboration join payload"
  | Some payload =>
      jwt ← GetJwt h;
      session ← betterFilesCollabVerifiedSession (jp_Session payload);
      match session with
      | None => betterFilesCollabError h "invalid or expired collaboration session token"
      | Some (info, tokenUserUUID) =>
          match jwt with
          | None => betterFilesCollabError h "collaboration session does not match this server"
          | Some jwt =>
              if negb (bool_decide (si_ServerUUID info = ws_ServerUUID jwt))
                 || negb (bool_decide (tokenUserUUID = ws_UserUUID jwt))
              then betterFilesCollabError h "collaboration session does not match this server" else
              writes ← (if bool_decide (si_Mode info = "edit"%string) then betterFilesCollabCanWrite h else mret true);
              if negb writes then betterFilesCollabError h "missing file write permission" else
              let code := betterFilesCollabCode (si_Code info) in
              if bool_decide (code = EmptyString) then betterFilesCollabError h "invalid collaboration session code" else
              join_session h info code (clean_user h jwt (jp_User payload))
          end
      end
  end.
(** After the connection has ended. *)
Definition disconnected (code h : string) : thread unit := betterFilesCollabRemoveMember code h.

Definition betterFilesCollabSetFile (h : string) (m : Message (list string)) (open : bool) : thread error :=
  match betterFilesCollabDecode unmarshal_file m with
  | None => betterFilesCollabError h "invalid collaboration file payload"
  | Some payload =>
      found ← betterFilesCollabMemberFor h (fp_Code payload);
      match found with
      | None => betterFilesCollabError h not_joined
      | Some (sid, mid) =>
          match betterFilesCollabPath (fp_Path payload) with
          | None => betterFilesCollabError h not_allowed
          | Some path =>
              _ ← update (λ r, if open then set_member mid (set_FilePath path) r
                               else if bool_decide (mb_FilePath (member_at r mid) = path)
                               then set_member mid (set_FilePath EmptyString) r else r);
              _ ← betterFilesCollabBroadcastFileUsers sid;
              if open then
                d ← betterFilesCollabDocumentFor h sid path;
                match d with
                | Err e => betterFilesCollabError h e
                | Ok did => betterFilesCollabSendDocument h sid did path
                end
              else mret None
          end
      end
  end.

Definition betterFilesCollabClose (h : string) (m : Message (list string)) : thread error :=
  match betterFilesCollabDecode unmarshal_code m with
  | None => betterFilesCollabError h "invalid collaboration close payload"
  | Some code =>
      found ← betterFilesCollabMemberFor h code;
      match found with
      | None => betterFilesCollabError h not_joined
      | Some (sid, mid) =>
          session ← load sid;
          member ← gets (λ w, member_at (w_rooms w) mid);
          if negb (bool_decide (ss_OwnerUUID session = EmptyString))
             && negb (bool_decide (us_UUID (mb_User member) = ss_OwnerUUID session))
          then betterFilesCollabError h "only the live session owner can close it" else
          _ ← betterFilesCollabBroadcast sid h ClosedEvent (BClosed (ss_Code session) None);
          _ ← update (set_registry (delete (ss_Code session)));
          mret None
      end
  end.

Definition betterFilesCollabPresence (h : string) (m : Message (list string)) : thread error :=
  match betterFilesCollabDecode unmarshal_presence m with
  | None => betterFilesCollabError h "invalid collaboration presence payload"
  | Some payload =>
      found ← betterFilesCollabMemberFor h (pp_Code payload);
      match found with
      | None => betterFilesCollabError h not_joined
      | Some (sid, mid) =>
          match betterFilesCollabPath (pp_Path payload) with
          | None => betterFilesCollabError h not_allowed
          | Some path =>
              _ ← follow sid mid path;
              member ← gets (λ w, member_at (w_rooms w) mid);
              _ ← betterFilesCollabBroadcast sid h PresenceOut
                    (BPresence (pp_Code payload) path (betterFilesCollabClampCursor (pp_Line payload))
                       (betterFilesCollabClampCursor (pp_Column payload))
                       (betterFilesCollabSafeText (pp_Selection payload) 120) (mb_User member));
              mret None
          end
      end
  end.

Definition bad_change (c : TextEdit) : bool :=
  (te_RangeOffset c <? 0) || (te_RangeLength c <? 0) || (te_BaseLength c <? 0) || negb (valid_text (te_Text c))
  || (betterFilesCollabMaxPayloadBytes <? te_RangeOffset c) || (betterFilesCollabMaxPayloadBytes <? te_RangeLength c)
  || (betterFilesCollabMaxPayloadBytes <? te_BaseLength c).

(** From the document to the answer of a patch. *)
Definition patch_document (h : string) (sid mid did : nat) (payload : PatchPayload) (path : string) (maxPayloadBytes : Z)
    : thread error :=
  current ← read_document did;
  total ← betterFilesCollabSessionDocumentBytes sid;
  let available := betterFilesCollabMaxSessionBytes - (total - byte_len (fst current)) in
  let maxPayloadBytes := if available <? maxPayloadBytes then available else maxPayloadBytes in
  if maxPayloadBytes <=? 0 then betterFilesCollabError h "collaboration session document memory limit reached" else
  res ← apply_document did (ap_Changes payload) maxPayloadBytes;
  match res with
  | Err errBetterFilesCollabBaseNotFound => betterFilesCollabSendDocument h sid did path
  | Err errBetterFilesCollabTooLarge => betterFilesCollabError h "collaboration document is too large"
  | Err _ => betterFilesCollabError h "invalid collaboration patch"
  | Ok applied =>
      if bool_decide (ar_Changes applied = []) then betterFilesCollabSendDocument h sid did path else
      member ← gets (λ w, member_at (w_rooms w) mid);
      _ ← betterFilesCollabBroadcast sid h PatchOut
            (BPatch (ap_Code payload) path (ar_Changes applied) (ap_Version payload) (ar_Revision applied)
               (betterFilesCollabClampCursor (ap_Line payload)) (betterFilesCollabClampCursor (ap_Column payload))
               (mb_User member));
      if ar_Transformed applied then betterFilesCollabSendDocument h sid did path else mret None
  end.
Definition betterFilesCollabPatch (h : string) (m : Message (list string)) : thread error :=
  writes ← betterFilesCollabCanWrite h;
  if negb writes then betterFilesCollabError h "missing file write permission" else
  match betterFilesCollabDecode unmarshal_patch m with
  | None => betterFilesCollabError h "invalid collaboration patch payload"
  | Some payload =>
      found ← betterFilesCollabMemberFor h (ap_Code payload);
      match found with
      | None => betterFilesCollabError h not_joined
      | Some (sid, mid) =>
          session ← load sid;
          if negb (bool_decide (ss_Mode session = "edit"%string))
          then betterFilesCollabError h "collaboration session is view-only" else
          if (zlen (ap_Changes payload) =? 0) || (betterFilesCollabMaxPatchChanges <? zlen (ap_Changes payload))
          then betterFilesCollabError h "invalid collaboration patch size" else
          if existsb bad_change (ap_Changes payload)
          then betterFilesCollabError h "invalid collaboration patch change" else
          let maxPayloadBytes := max_bytes session in
          if maxPayloadBytes <? zsum (λ c, byte_len (te_Text c)) (ap_Changes payload)
          then betterFilesCollabError h "collaboration patch is too large" else
          match betterFilesCollabPath (ap_Path payload) with
          | None => betterFilesCollabError h not_allowed
          | Some path =>
              accepted ← betterFilesCollabAcceptVersion mid (ap_Version payload);
              if negb accepted then mret None else
              _ ← follow sid mid path;
              d ← betterFilesCollabDocumentFor h sid path;
              match d with
              | Err e => betterFilesCollabError h e
              | Ok did => patch_document h sid mid did payload path maxPayloadBytes
              end
          end
      end
  end.

(** What a snapshot and a save share: the checks, the version, the member's file, the
    document. *)
Definition with_document (h code given : string) (content : text) (version : Z) (too_large : string)
    (body : nat → nat → nat → string → thread error) : thread error :=
  found ← betterFilesCollabMemberFor h code;
  match found with
  | None => betterFilesCollabError h not_joined
  | Some (sid, mid) =>
      session ← load sid;
      if negb (bool_decide (ss_Mode session = "edit"%string))
      then betterFilesCollabError h "collaboration session is view-only" else
      if (max_bytes session <? byte_len content) || negb (valid_text content)
      then betterFilesCollabError h too_large else
      match betterFilesCollabPath given with
      | None => betterFilesCollabError h not_allowed
      | Some path =>
          accepted ← betterFilesCollabAcceptVersion mid version;
          if negb accepted then mret None else
          _ ← follow sid mid path;
          d ← betterFilesCollabDocumentFor h sid path;
          match d with
          | Err e => betterFilesCollabError h e
          | Ok did => body sid mid did path
          end
      end
  end.

(** A snapshot is taken over only if it says what the document says, or if the document
    is new and nobody else has the file open. *)
Definition take_snapshot (h : string) (payload : SnapshotPayload) (sid mid did : nat) (path : string) : thread error :=
  let announce (now : text * Z) : thread error :=
    member ← gets (λ w, member_at (w_rooms w) mid);
    _ ← betterFilesCollabBroadcast sid h SnapshotOut
          (BSnapshot (sp_Code payload) path (fst now) (sp_Version payload) (snd now)
             (betterFilesCollabClampCursor (sp_Line payload)) (betterFilesCollabClampCursor (sp_Column payload))
             (mb_User member));
    mret None in
  current ← read_document did;
  if bool_decide (fst current = sp_Content payload) then announce current
  else
    users ← (if snd current =? 0 then betterFilesCollabUsersForPath sid path h else mret []);
    if (snd current =? 0) && bool_decide (users = []) then
      _ ← replace_document did (sp_Content payload);
      now ← read_document did;
      announce now
    else betterFilesCollabSendDocument h sid did path.
Definition betterFilesCollabSnapshot (h : string) (m : Message (list string)) : thread error :=
  writes ← betterFilesCollabCanWrite h;
  if negb writes then betterFilesCollabError h "missing file write permission" else
  match betterFilesCollabDecode unmarshal_snapshot m with
  | None => betterFilesCollabError h "invalid collaboration snapshot payload"
  | Some payload =>
      with_document h (sp_Code payload) (sp_Path payload) (sp_Content payload) (sp_Version payload)
        "collaboration snapshot is too large or invalid" (take_snapshot h payload)
  end.

Definition take_saved (h : string) (payload : SavedPayload) (sid mid did : nat) (path : string) : thread error :=
  _ ← replace_document did (vp_Content payload);
  now ← read_document did;
  member ← gets (λ w, member_at (w_rooms w) mid);
  _ ← betterFilesCollabBroadcast sid h FileSavedOut
        (BSaved (vp_Code payload) path (vp_Content payload) (vp_Version payload) (snd now) (mb_User member));
  mret None.
Definition betterFilesCollabFileSaved (h : string) (m : Message (list string)) : thread error :=
  writes ← betterFilesCollabCanWrite h;
  if negb writes then betterFilesCollabError h "missing file write permission" else
  match betterFilesCollabDecode unmarshal_saved m with
  | None => betterFilesCollabError h "invalid collaboration save payload"
  | Some payload =>
      with_document h (vp_Code payload) (vp_Path payload) (vp_Content payload) (vp_Version payload)
        "collaboration save payload is too large or invalid" (take_saved h payload)
  end.

(** For each editing session of the server in which others have the file open. *)
Fixpoint for_editors (h path : string) (sids : list nat) (body : nat → Session → list User → thread unit) : thread unit :=
  match sids with
  | [] => mret ()
  | sid :: sids' =>
      session ← load sid;
      if negb (bool_decide (ss_Mode session = "edit"%string)) then for_editors h path sids' body else
      users ← betterFilesCollabUsersForPath sid path h;
      if bool_decide (users = []) then for_editors h path sids' body else
      _ ← body sid session users;
      for_editors h path sids' body
  end.
(** Each conflict with the session it is in, which the answer is about. *)
Fixpoint conflicts_in (h path : string) (sids : list nat) : thread (list (nat * Conflict)) :=
  match sids with
  | [] => mret []
  | sid :: sids' =>
      session ← load sid;
      if negb (bool_decide (ss_Mode session = "edit"%string)) then conflicts_in h path sids' else
      users ← betterFilesCollabUsersForPath sid path h;
      if bool_decide (users = []) then conflicts_in h path sids' else
      rest ← conflicts_in h path sids';
      mret ((sid, mkConflict (ss_Code session) (ss_Mode session) users) :: rest)
  end.
Definition betterFilesCollabConflictsForPath (h path : string) : thread (list (nat * Conflict)) :=
  jwt ← GetJwt h;
  match jwt with
  | None => mret []
  | Some jwt =>
      sessions ← betterFilesCollabSessionsForServer (ws_ServerUUID jwt);
      conflicts_in h path sessions
  end.
Definition betterFilesCollabFileCheck (h : string) (m : Message (list string)) : thread error :=
  reads ← betterFilesCollabCanRead h;
  if negb reads then betterFilesCollabError h "missing file read permission" else
  match betterFilesCollabDecode unmarshal_check m with
  | None => betterFilesCollabError h "invalid collaboration file check payload"
  | Some payload =>
      match betterFilesCollabPath (cp_Path payload) with
      | None => betterFilesCollabError h not_allowed
      | Some path =>
          found ← betterFilesCollabConflictsForPath h path;
          let conflicts := snd <$> found in
          betterFilesCollabSend h (fst <$> found) FileCheckResultEvent
            (BCheck path (betterFilesCollabSafeText (cp_RequestID payload) 80) conflicts (conflicts ≫= cf_Users))
      end
  end.

Definition betterFilesCollabExternalEdit (h : string) (m : Message (list string)) : thread error :=
  writes ← betterFilesCollabCanWrite h;
  if negb writes then betterFilesCollabError h "missing file write permission" else
  match betterFilesCollabDecode unmarshal_external m with
  | None => betterFilesCollabError h "invalid external edit payload"
  | Some payload =>
      jwt ← GetJwt h;
      match jwt with
      | None => betterFilesCollabError h "missing websocket identity"
      | Some jwt =>
          match betterFilesCollabPath (ep_Path payload) with
          | None => betterFilesCollabError h not_allowed
          | Some path =>
              let user := clean_user h jwt (ep_User payload) in
              sessions ← betterFilesCollabSessionsForServer (ws_ServerUUID jwt);
              _ ← for_editors h path sessions (λ sid session users,
                    betterFilesCollabBroadcast sid EmptyString ExternalEditOut
                      (BExternal (ss_Code session) path user users));
              mret None
          end
      end
  end.

(** The protocol: [None] for an event that is not its own. *)
Definition HandleBetterFilesCollaboration (h : string) (m : Message (list string)) : option (thread error) :=
  let e := msg_Event m in
  if bool_decide (e = "betterfiles:collab:join"%string) then Some (betterFilesCollabJoin h m)
  else if bool_decide (e = "betterfiles:collab:leave"%string)
       then Some (_ ← betterFilesCollabLeaveAll h; mret None)
  else if bool_decide (e = "betterfiles:collab:close"%string) then Some (betterFilesCollabClose h m)
  else if bool_decide (e = "betterfiles:collab:file:open"%string) then Some (betterFilesCollabSetFile h m true)
  else if bool_decide (e = "betterfiles:collab:file:close"%string) then Some (betterFilesCollabSetFile h m false)
  else if bool_decide (e = "betterfiles:collab:presence"%string) then Some (betterFilesCollabPresence h m)
  else if bool_decide (e = "betterfiles:collab:patch"%string) then Some (betterFilesCollabPatch h m)
  else if bool_decide (e = "betterfiles:collab:snapshot"%string) then Some (betterFilesCollabSnapshot h m)
  else if bool_decide (e = "betterfiles:collab:file:saved"%string) then Some (betterFilesCollabFileSaved h m)
  else if bool_decide (e = "betterfiles:collab:file:check"%string) then Some (betterFilesCollabFileCheck h m)
  else if bool_decide (e = "betterfiles:collab:file:external-modified"%string)
       then Some (betterFilesCollabExternalEdit h m)
  else None.
End Rooms.
Arguments rooms : clear implicits.
