(* ===== verification/RoomsFacts.v ===== *)
(** * Correctness of the collaboration sessions

    The invariant of the sessions and the rely-guarantee proofs that every request keeps
    it, whatever other requests run in between: the limits of a session, the paths of
    its documents, who is a member, who is sent what, and which documents may change. *)

From stdpp Require Import base gmap sets list strings numbers.
From Stdlib Require Import Ascii.
From S2P Require Import Prelude GoStrings Paths PathsFacts Tokens Collab CollabFacts Threads Socket SocketSafe Rooms.
Open Scope Z_scope.

(** ** Text and paths *)

Lemma cont_range lo hi c : cont lo hi c = true ↔ lo ≤ byteZ c ≤ hi.
Proof. unfold cont. rewrite andb_true_iff, !Z.leb_le. lia. Qed.

Lemma push_Some r rest t : push r rest = Some t ↔ ∃ t', rest = Some t' ∧ t = r :: t'.
Proof. unfold push. destruct rest; simpl; naive_solver. Qed.

Lemma low_eq c bits k : k * 2 ^ bits ≤ byteZ c < (k + 1) * 2 ^ bits → 0 < bits → low c bits = byteZ c - k * 2 ^ bits.
Proof.
  intros Hr Hb. unfold low. symmetry. apply (Z.mod_unique_pos _ _ k); lia.
Qed.

Lemma rune_bytes_1 r : r < 128 → rune_bytes r = 1.
Proof. intros. unfold rune_bytes. by rewrite (proj2 (Z.ltb_lt r 128)). Qed.
Lemma rune_bytes_2 r : 128 ≤ r < 2048 → rune_bytes r = 2.
Proof.
  intros. unfold rune_bytes. by rewrite (proj2 (Z.ltb_ge r 128)), (proj2 (Z.ltb_lt r 2048)) by lia.
Qed.
Lemma rune_bytes_3 r : 2048 ≤ r < 55296 ∨ 57344 ≤ r < 65536 → rune_bytes r = 3.
Proof.
  intros. unfold rune_bytes, surrogate.
  rewrite (proj2 (Z.ltb_ge r 128)), (proj2 (Z.ltb_ge r 2048)), (proj2 (Z.ltb_lt r 65536)) by lia.
  destruct (55296 <=? r) eqn:E1, (r <=? 57343) eqn:E2; try done. apply Z.leb_le in E1, E2. lia.
Qed.
Lemma rune_bytes_4 r : 65536 ≤ r → rune_bytes r = 4.
Proof.
  intros. unfold rune_bytes, surrogate.
  rewrite (proj2 (Z.ltb_ge r 128)), (proj2 (Z.ltb_ge r 2048)), (proj2 (Z.ltb_ge r 65536)),
    (proj2 (Z.leb_gt r 57343)), andb_false_r by lia. done.
Qed.

Lemma byte_len_cons r t : byte_len (r :: t) = rune_bytes r + byte_len t.
Proof. done. Qed.
Lemma strlen_String c s : strlen (String c s) = 1 + strlen s.
Proof. unfold strlen. simpl. lia. Qed.

Lemma low_cont c : cont 128 191 c = true → low c 6 = byteZ c - 128.
Proof. intros ?%cont_range. by rewrite (low_eq c 6 2) by (simpl; lia). Qed.
Lemma byteZ_range c : 0 ≤ byteZ c < 256.
Proof. unfold byteZ. pose proof (N_ascii_bounded c). lia. Qed.

(** The rune of a sequence takes as many bytes as the sequence. *)
Lemma decode_2 c0 c1 : 194 ≤ byteZ c0 ≤ 223 → cont 128 191 c1 = true →
  rune_bytes (low c0 5 * 64 + low c1 6) = 2.
Proof.
  intros H0 H1. rewrite (low_cont c1 H1), (low_eq c0 5 6) by (simpl; lia). apply cont_range in H1.
  apply rune_bytes_2. simpl. lia.
Qed.
Lemma decode_3 c0 c1 c2 : 224 ≤ byteZ c0 ≤ 239 →
  cont (if byteZ c0 =? 224 then 160 else 128) (if byteZ c0 =? 237 then 159 else 191) c1 = true →
  cont 128 191 c2 = true → rune_bytes (low c0 4 * 4096 + low c1 6 * 64 + low c2 6) = 3.
Proof.
  intros H0 H1%cont_range H2.
  assert (cont 128 191 c1 = true) as H1'. { apply cont_range. repeat case_match; lia. }
  rewrite (low_cont c1 H1'), (low_cont c2 H2), (low_eq c0 4 14) by (simpl; lia).
  apply cont_range in H2. apply rune_bytes_3. simpl.
  destruct (Z.eqb_spec (byteZ c0) 224), (Z.eqb_spec (byteZ c0) 237); lia.
Qed.
Lemma decode_4 c0 c1 c2 c3 : 240 ≤ byteZ c0 ≤ 244 →
  cont (if byteZ c0 =? 240 then 144 else 128) (if byteZ c0 =? 244 then 143 else 191) c1 = true →
  cont 128 191 c2 = true → cont 128 191 c3 = true →
  rune_bytes (low c0 3 * 262144 + low c1 6 * 4096 + low c2 6 * 64 + low c3 6) = 4.
Proof.
  intros H0 H1%cont_range H2 H3.
  assert (cont 128 191 c1 = true) as H1'. { apply cont_range. repeat case_match; lia. }
  rewrite (low_cont c1 H1'), (low_cont c2 H2), (low_cont c3 H3), (low_eq c0 3 30) by (simpl; lia).
  apply cont_range in H2, H3. apply rune_bytes_4. simpl.
  destruct (Z.eqb_spec (byteZ c0) 240); lia.
Qed.

(** Decoding keeps the number of bytes. *)
Lemma utf8_decode_len s t : utf8_decode s = Some t → byte_len t = strlen s.
Proof.
  remember (String.length s) as n eqn:En. revert s t En.
  induction n as [n IH] using lt_wf_ind. intros s t ->.
  assert (∀ s', (String.length s' < String.length s)%nat → ∀ t', utf8_decode s' = Some t' → byte_len t' = strlen s') as IH'.
  { intros s' Hs' t'. by eapply IH. }
  clear IH. destruct s as [|c0 s]; [by intros [= <-]|]. cbn [utf8_decode].
  destruct (byteZ c0 <? 128) eqn:E0.
  { intros (t' & Ht & ->)%push_Some. apply IH' in Ht; [|simpl; lia].
    rewrite byte_len_cons, strlen_String, Ht, rune_bytes_1; [done|by apply Z.ltb_lt]. }
  destruct s as [|c1 s]; [done|].
  destruct ((194 <=? byteZ c0) && (byteZ c0 <=? 223)) eqn:E1.
  { apply andb_true_iff in E1 as [?%Z.leb_le ?%Z.leb_le]. case_match eqn:E2; [|done].
    intros (t' & Ht & ->)%push_Some. apply IH' in Ht; [|simpl; lia].
    rewrite byte_len_cons, !strlen_String, Ht, decode_2 by done. lia. }
  destruct s as [|c2 s]; [done|]. cbv zeta.
  destruct ((224 <=? byteZ c0) && (byteZ c0 <=? 239)) eqn:E2.
  { apply andb_true_iff in E2 as [?%Z.leb_le ?%Z.leb_le].
    destruct (cont _ _ c1 && cont 128 191 c2) eqn:E3; [|done].
    apply andb_true_iff in E3 as [? ?]. intros (t' & Ht & ->)%push_Some. apply IH' in Ht; [|simpl; lia].
    rewrite byte_len_cons, !strlen_String, Ht, decode_3 by done. lia. }
  destruct s as [|c3 s]; [done|].
  destruct ((240 <=? byteZ c0) && (byteZ c0 <=? 244) && _ && _ && _) eqn:E3; [|done].
  rewrite !andb_true_iff in E3. destruct E3 as [[[[?%Z.leb_le ?%Z.leb_le] ?] ?] ?].
  intros (t' & Ht & ->)%push_Some. apply IH' in Ht; [|simpl; lia].
  rewrite byte_len_cons, !strlen_String, Ht, decode_4 by done. lia.
Qed.

Section Paths.
Context `{UnicodeTables}.

(** The canonical paths of files that may be shared. *)
Definition allowed (p : string) : Prop :=
  ∃ ws, p = abs ws ∧ ws ≠ [] ∧ Forall plain ws ∧ strlen p ≤ betterFilesCollabMaxPathBytes
    ∧ betterFilesCollabSensitivePath p = false.

Lemma no_parent l : existsb (λ segment, bool_decide (segment = ".."%string)) l = false → ".."%string ∉ l.
Proof.
  intros He Hin. apply not_true_iff_false in He. apply He. apply existsb_exists. exists ".."%string.
  split; [by apply list_elem_of_In|by rewrite bool_decide_true].
Qed.

Lemma Path_allowed given p : betterFilesCollabPath given = Some p → allowed p.
Proof.
  unfold betterFilesCollabPath. set (path := TrimSpace _).
  case_match; [done|]. case_match; [done|]. clear H0. set (rooted := if negb _ then _ else path) in *.
  destruct (existsb _ (Split slash rooted)) eqn:Edots; [done|]. apply no_parent in Edots.
  assert (is_rooted rooted = true) as Hr.
  { unfold rooted. destruct (HasPrefix path "/") eqn:E; [done|]. apply is_rooted_cons. }
  assert (Clean rooted = abs (filter kept (Split slash rooted))) as HC by by rewrite Clean_no_parent, Hr.
  assert (HasPrefix (Clean rooted) "/" = true) as HP by (rewrite HC; apply is_rooted_cons).
  rewrite HP. cbn [negb]. case_match eqn:E; [done|]. intros [= <-].
  rewrite !orb_false_iff in E. destruct E as [[[_ E1%bool_decide_eq_false] E2%Z.ltb_ge] E3].
  eexists. split; [exact HC|]. split_and!; [|apply plain_filter; [done|apply Split_no_sep]|done|done].
  intros E. by rewrite HC, E in E1.
Qed.
End Paths.

(** ** The invariant *)

Section RoomsFacts.
Context {op : Type} `{HOT : OT op} `{HW : World} `{HU : UnicodeTables} `{HJson : Json} `{HPanel : Panel}.
Implicit Types (r : rooms op) (s : Session).

(** The limits of a session. *)
Definition within_limits (s : Session) : Prop :=
  2 ≤ ss_MaxUsers s ≤ betterFilesCollabMaxUsers ∧ Z.of_nat (size (ss_Members s)) ≤ ss_MaxUsers s
  ∧ 1 ≤ ss_MaxFileBytes s ≤ betterFilesCollabMaxPayloadBytes
  ∧ (size (ss_Documents s) ≤ betterFilesCollabMaxDocuments)%nat
  ∧ (ss_Mode s = "edit"%string ∨ ss_Mode s = "view"%string).
(** A member's pointer leads to a member under its handler, of the session's server. *)
Definition members_ok (r : rooms op) (s : Session) : Prop :=
  ∀ h mid, ss_Members s !! h = Some mid →
    server_of h = ss_ServerUUID s ∧ ∃ m, r_members r !! mid = Some m ∧ mb_HandlerID m = h.
(** A document has an allowed path and fits; in a session for viewing it is the file as
    it was read. *)
Definition document_ok (s : Session) (d : Document op) : Prop :=
  byte_len (doc_Content d) ≤ ss_MaxFileBytes s
  ∧ (ss_Mode s ≠ "edit"%string → doc_Revision d = 0 ∧ doc_History d = []).
Definition documents_ok (r : rooms op) (s : Session) : Prop :=
  ∀ p did, ss_Documents s !! p = Some did →
    allowed p ∧ ∃ d, r_documents r !! did = Some d ∧ document_ok s d.

Record rooms_ok (r : rooms op) : Prop := {
  ok_registry : ∀ code sid, r_registry r !! code = Some sid → ∃ s, r_sessions r !! sid = Some s ∧ ss_Code s = code;
  ok_session : ∀ sid s, r_sessions r !! sid = Some s → within_limits s ∧ members_ok r s ∧ documents_ok r s;
  ok_owner : ∀ sid1 s1 p1 sid2 s2 p2 did,
    r_sessions r !! sid1 = Some s1 → ss_Documents s1 !! p1 = Some did →
    r_sessions r !! sid2 = Some s2 → ss_Documents s2 !! p2 = Some did → sid1 = sid2 ∧ p1 = p2;
  ok_member : ∀ mid m, r_members r !! mid = Some m → mb_FilePath m = EmptyString ∨ allowed (mb_FilePath m);
  ok_document : ∀ did d, r_documents r !! did = Some d → ∃ log, reachable d log;
}.

(** ** What every action respects *)

Definition fixed (s : Session) : string * string * string * string * Z * Z :=
  (ss_Code s, ss_ServerUUID s, ss_OwnerUUID s, ss_Mode s, ss_MaxUsers s, ss_MaxFileBytes s).
Record rooms_le (r r' : rooms op) : Prop := {
  le_session : ∀ sid s, r_sessions r !! sid = Some s → ∃ s', r_sessions r' !! sid = Some s' ∧ fixed s' = fixed s
    ∧ ∀ p did, ss_Documents s !! p = Some did → ss_Documents s' !! p = Some did;
  le_member : ∀ mid m, r_members r !! mid = Some m →
    ∃ m', r_members r' !! mid = Some m' ∧ mb_HandlerID m' = mb_HandlerID m ∧ mb_User m' = mb_User m;
  le_document : ∀ did, is_Some (r_documents r !! did) → is_Some (r_documents r' !! did);
}.
#[export] Instance rooms_le_preorder : PreOrder rooms_le.
Proof.
  split.
  - intros r. split; naive_solver.
  - intros r1 r2 r3 [S1 M1 D1] [S2 M2 D2]. split.
    + intros sid s Hs. destruct (S1 _ _ Hs) as (s2 & Hs2 & E2 & Hd2).
      destruct (S2 _ _ Hs2) as (s3 & Hs3 & E3 & Hd3). exists s3. split_and!; [done|congruence|auto].
    + intros mid m Hm. destruct (M1 _ _ Hm) as (m2 & Hm2 & ? & ?).
      destruct (M2 _ _ Hm2) as (m3 & ? & ? & ?). exists m3. split_and!; [done|congruence..].
    + auto.
Qed.
Definition of_server (sid : nat) (u : string) (r : rooms op) : Prop :=
  ∃ s, r_sessions r !! sid = Some s ∧ ss_ServerUUID s = u.
Lemma of_server_le sid u r r' : rooms_le r r' → of_server sid u r → of_server sid u r'.
Proof.
  intros [HS _ _] (s1 & Hs1 & E1). destruct (HS _ _ Hs1) as (s2 & ? & Ef & _). exists s2. split; [done|].
  unfold fixed in Ef. congruence.
Qed.
Definition has_code (sid : nat) (code : string) (r : rooms op) : Prop :=
  ∃ s, r_sessions r !! sid = Some s ∧ ss_Code s = code.
Lemma has_code_le sid code r r' : rooms_le r r' → has_code sid code r → has_code sid code r'.
Proof.
  intros [HS _ _] (s1 & Hs1 & E1). destruct (HS _ _ Hs1) as (s2 & ? & Ef & _). exists s2. split; [done|].
  unfold fixed in Ef. congruence.
Qed.

(** The codes of the sessions a message tells something of: their documents, edits, cursors,
    members and who has which file open.  A code that a client sent is cleaned as in the
    lookup. *)
Definition named (b : body) : list string :=
  match b with
  | BError _ => []
  | BJoined code _ _ | BClosed code _ | BMembers code _ _ | BFileUsers code _ | BDocument code _ _ _ _
  | BExternal code _ _ _ => [code]
  | BPresence code _ _ _ _ _ | BPatch code _ _ _ _ _ _ _ | BSnapshot code _ _ _ _ _ _ _ | BSaved code _ _ _ _ _ =>
      [betterFilesCollabCode code]
  | BCheck _ _ conflicts _ => cf_Code <$> conflicts
  end.
Definition content_names (c : content body) : list string := match c with Body b => named b | Strings _ => [] end.
(** A connection may be told of sessions of its own server only. *)
Definition may_tell (h : string) (about : list nat) (c : content body) (r : rooms op) : Prop :=
  (∀ sid, sid ∈ about → of_server sid (server_of h) r)
  ∧ ∀ code, code ∈ content_names c → ∃ sid, sid ∈ about ∧ has_code sid code r.

(** What the sessions promise the socket. *)
#[export] Instance rooms_shared : Shared (rooms op) := {|
  sh_ok := rooms_ok; sh_le := rooms_le; sh_preorder := rooms_le_preorder |}.
#[export, refine] Instance rooms_tells : Tells (rooms op) body := {| sh_sent := may_tell |}.
Proof.
  - intros h about c r r' Hle [H1 H2]. split; [eauto using of_server_le|].
    intros code Hc. destruct (H2 _ Hc) as (sid & ? & ?). eauto using has_code_le.
  - intros h l r. split; intros ? ?%not_elem_of_nil; done.
Defined.

(** ** Facts that stay *)

(** [sid] is the session with the fixed fields of [s]. *)
Definition is_session (sid : nat) (s : Session) (r : rooms op) : Prop :=
  ∃ s', r_sessions r !! sid = Some s' ∧ fixed s' = fixed s.
Definition has_document (sid : nat) (p : string) (did : nat) (r : rooms op) : Prop :=
  ∃ s, r_sessions r !! sid = Some s ∧ ss_Documents s !! p = Some did.
Definition has_member (mid : nat) (h : string) (r : rooms op) : Prop :=
  ∃ m, r_members r !! mid = Some m ∧ mb_HandlerID m = h.

#[export] Instance is_session_Stable sid s : Stable (is_session sid s).
Proof.
  intros r r' [HS _ _] (s1 & Hs1 & E1). destruct (HS _ _ Hs1) as (s2 & ? & ? & _). exists s2. split; [done|congruence].
Qed.
#[export] Instance of_server_Stable sid u : Stable (of_server sid u).
Proof. intros r r'. apply of_server_le. Qed.
#[export] Instance has_code_Stable sid code : Stable (has_code sid code).
Proof. intros r r'. apply has_code_le. Qed.
#[export] Instance has_document_Stable sid p did : Stable (has_document sid p did).
Proof.
  intros r r' [HS _ _] (s1 & Hs1 & E1). destruct (HS _ _ Hs1) as (s2 & ? & _ & Hd). exists s2. split; [done|auto].
Qed.
#[export] Instance has_member_Stable mid h : Stable (has_member mid h).
Proof.
  intros r r' [_ HM _] (m1 & Hm1 & E1). destruct (HM _ _ Hm1) as (m2 & ? & ? & _). exists m2. split; [done|congruence].
Qed.
Lemma session_at_Some r sid s : r_sessions r !! sid = Some s → session_at r sid = s.
Proof. unfold session_at. by intros ->. Qed.
Lemma is_session_code sid s r : is_session sid s r → has_code sid (ss_Code s) r.
Proof. intros (s' & Hs & Ef). exists s'. split; [done|]. unfold fixed in Ef. congruence. Qed.
Lemma is_session_of_server sid s r : is_session sid s r → of_server sid (ss_ServerUUID s) r.
Proof. intros (s' & Hs & Ef). exists s'. split; [done|]. unfold fixed in Ef. congruence. Qed.

(** ** Changes to the sessions *)

Lemma alter_Some {A} (f : A → A) (l : list A) i j y :
  alter f i l !! j = Some y →
  (j = i ∧ ∃ x, l !! i = Some x ∧ y = f x) ∨ (j ≠ i ∧ l !! j = Some y).
Proof.
  destruct (decide (j = i)) as [->|Hne].
  - rewrite list_lookup_alter_eq. destruct (l !! i) eqn:E; simpl; naive_solver.
  - rewrite list_lookup_alter_ne by done. auto.
Qed.
Lemma alter_lookup {A} (f : A → A) (l : list A) i j x :
  l !! j = Some x → alter f i l !! j = Some (if decide (j = i) then f x else x).
Proof.
  intros Hx. case_decide as E; [subst; rewrite list_lookup_alter_eq, Hx; done|by rewrite list_lookup_alter_ne].
Qed.
Lemma snoc_Some {A} (l : list A) x i y :
  (l ++ [x]) !! i = Some y → l !! i = Some y ∨ (i = length l ∧ y = x).
Proof.
  intros [Hl|[Hge Hl]]%lookup_app_Some; [by left|right].
  destruct (i - length l)%nat eqn:E; [|done]. simpl in Hl. split; [lia|congruence].
Qed.

Lemma document_ok_fixed s s' d : fixed s' = fixed s → document_ok s d → document_ok s' d.
Proof. unfold fixed, document_ok. intros E [? ?]. injection E as _ _ _ E1 _ E2. rewrite E1, E2. done. Qed.

Lemma set_registry_good r f :
  rooms_ok r →
  (∀ code sid, f (r_registry r) !! code = Some sid → ∃ s, r_sessions r !! sid = Some s ∧ ss_Code s = code) →
  good r (set_registry f r).
Proof. intros [H1 H2 H3 H4 H5] Hf. split; [by split|]. split; naive_solver. Qed.
Lemma unregister_good r code : rooms_ok r → good r (set_registry (delete code) r).
Proof.
  intros Hr. apply set_registry_good; [done|]. intros c sid [_ Hc]%lookup_delete_Some. by apply Hr.
Qed.

Lemma set_session_good r sid f :
  rooms_ok r →
  (∀ s, r_sessions r !! sid = Some s →
     fixed (f s) = fixed s ∧ ss_Documents (f s) = ss_Documents s
     ∧ Z.of_nat (size (ss_Members (f s))) ≤ ss_MaxUsers s ∧ members_ok r (f s)) →
  good r (set_session sid f r).
Proof.
  intros Hr Hf. pose proof Hr as [H1 H2 H3 H4 H5]. split; [split|split].
  - simpl. intros code sid' (s & Hs & Hc)%H1. rewrite (alter_lookup _ _ _ _ _ Hs).
    eexists. split; [done|]. case_decide; [subst|done].
    destruct (Hf _ Hs) as (Ef & _). unfold fixed in Ef. congruence.
  - simpl. intros sid' s' [(-> & s & Hs & ->)|[_ Hs]]%alter_Some; [|by apply (H2 sid')].
    destruct (H2 _ _ Hs) as (Hl & _ & Hd), (Hf _ Hs) as (Ef & Ed & Hsz & Hm). split_and!; [|done|].
    + unfold within_limits in *. rewrite Ed. unfold fixed in Ef. injection Ef as _ _ _ E1 E2 E3.
      rewrite E1, E2, E3. naive_solver.
    + intros p did. rewrite Ed. intros (Hp & d & Hdd & Hok)%Hd. split; [done|]. exists d.
      split; [done|]. by eapply document_ok_fixed.
  - simpl. assert (∀ sid' s' p did, alter f sid (r_sessions r) !! sid' = Some s' → ss_Documents s' !! p = Some did →
      ∃ s, r_sessions r !! sid' = Some s ∧ ss_Documents s !! p = Some did) as Hback.
    { intros sid' s' p did [(-> & s & Hs & ->)|[_ Hs]]%alter_Some Hp; [|eauto].
      destruct (Hf _ Hs) as (_ & Ed & _). rewrite Ed in Hp. eauto. }
    intros sid1 s1 p1 sid2 s2 p2 did Hs1 Hp1 Hs2 Hp2.
    destruct (Hback _ _ _ _ Hs1 Hp1) as (? & ? & ?), (Hback _ _ _ _ Hs2 Hp2) as (? & ? & ?). by eapply H3.
  - done.
  - done.
  - simpl. intros sid' s Hs. rewrite (alter_lookup _ _ _ _ _ Hs). eexists. split; [done|].
    case_decide; [subst|done]. destruct (Hf _ Hs) as (Ef & Ed & _). by rewrite Ed.
  - naive_solver.
  - done.
Qed.

Lemma new_session_good r info code :
  rooms_ok r → good r (new_session (create_session info code) r).
Proof.
  intros [H1 H2 H3 H4 H5]. set (new := create_session info code).
  assert (∀ sid s p did, (r_sessions r ++ [new]) !! sid = Some s → ss_Documents s !! p = Some did →
    r_sessions r !! sid = Some s) as Hold.
  { intros sid s p did [?|[_ ->]]%snoc_Some Hp; [done|]. change ((∅ : gmap string nat) !! p = Some did) in Hp. by rewrite lookup_empty in Hp. }
  split; [split|split]; simpl; try done.
  - intros c sid (s & Hs & Hc)%H1. exists s. split; [|done]. by apply lookup_app_l_Some.
  - intros sid s [Hs|[_ ->]]%snoc_Some; [by apply (H2 sid)|]. split_and!.
    + unfold within_limits, new, create_session, betterFilesCollabMaxUsers, betterFilesCollabMaxPayloadBytes. simpl.
      assert (∀ a b c, a < b ∨ c < a ∨ b ≤ a ≤ c) as Hcmp by lia. rewrite map_size_empty.
      split_and!; repeat case_match; rewrite ?orb_true_iff, ?orb_false_iff, ?Z.ltb_lt, ?Z.ltb_ge in *;
        try lia; try case_bool_decide; auto.
    + intros h mid Hh. change ((∅ : gmap string nat) !! h = Some mid) in Hh. by rewrite lookup_empty in Hh.
    + intros p did Hp. change ((∅ : gmap string nat) !! p = Some did) in Hp. by rewrite lookup_empty in Hp.
  - intros sid1 s1 p1 sid2 s2 p2 did Hs1 Hp1 Hs2 Hp2. eapply H3; [..|exact Hp2]; [|exact Hp1|]; by eapply Hold.
  - intros sid s Hs. exists s. split; [by apply lookup_app_l_Some|done].
  - naive_solver.
Qed.

Lemma new_member_good r m : rooms_ok r → mb_FilePath m = EmptyString → good r (new_member m r).
Proof.
  intros [H1 H2 H3 H4 H5] Hm. split; [split|split]; simpl; try done.
  - intros sid s Hs. destruct (H2 _ _ Hs) as (? & HM & ?). split_and!; [done| |done].
    intros h mid (? & m' & ? & ?)%HM. split; [done|]. exists m'. split; [by apply lookup_app_l_Some|done].
  - intros mid m' [?|[_ ->]]%snoc_Some; [by eapply H4|by left].
  - naive_solver.
  - intros mid m' Hm'. exists m'. split; [by apply lookup_app_l_Some|done].
Qed.

Lemma new_document_good r d log : rooms_ok r → reachable d log → good r (new_document d r).
Proof.
  intros [H1 H2 H3 H4 H5] Hd. split; [split|split]; simpl; try done.
  - intros sid s Hs. destruct (H2 _ _ Hs) as (? & ? & HD). split_and!; [done|done|].
    intros p did (? & d' & ? & ?)%HD. split; [done|]. exists d'. split; [by apply lookup_app_l_Some|done].
  - intros did d' [?|[_ ->]]%snoc_Some; [by eapply H5|eauto].
  - naive_solver.
  - naive_solver.
  - intros did [d' ?]. exists d'. by apply lookup_app_l_Some.
Qed.

(** A member keeps its identity; its path is an allowed one or none. *)
Lemma set_member_good r mid f :
  rooms_ok r →
  (∀ m, r_members r !! mid = Some m → mb_HandlerID (f m) = mb_HandlerID m ∧ mb_User (f m) = mb_User m
     ∧ (mb_FilePath (f m) = EmptyString ∨ allowed (mb_FilePath (f m)))) →
  good r (set_member mid f r).
Proof.
  intros [H1 H2 H3 H4 H5] Hf. split; [split|split]; simpl; try done.
  - intros sid s Hs. destruct (H2 _ _ Hs) as (? & HM & ?). split_and!; [done| |done].
    intros h mid' (? & m & Hm & Hh)%HM. split; [done|]. cbn [set_member r_members]. rewrite (alter_lookup _ _ _ _ _ Hm).
    eexists. split; [done|]. case_decide; [subst|done]. by destruct (Hf _ Hm) as (-> & _).
  - intros mid' m' [(-> & m & Hm & ->)|[_ Hm]]%alter_Some; [|by eapply H4]. by apply Hf.
  - naive_solver.
  - intros mid' m Hm. rewrite (alter_lookup _ _ _ _ _ Hm). eexists. split; [done|].
    case_decide; [subst|done]. by destruct (Hf _ Hm) as (-> & -> & _).
Qed.

(** A document of an editing session, within its size. *)
Lemma set_document_good r sid s p did d log :
  rooms_ok r → is_session sid s r → has_document sid p did r →
  reachable d log → byte_len (doc_Content d) ≤ ss_MaxFileBytes s → ss_Mode s = "edit"%string →
  good r (set_document did d r).
Proof.
  intros [H1 H2 H3 H4 H5] (s0 & Hs0 & Ef) (s0' & Hs0' & Hp) Hd Hlen Hmode.
  rewrite Hs0 in Hs0'. injection Hs0' as <-. unfold fixed in Ef. injection Ef as _ _ _ Em _ Eb.
  assert (is_Some (r_documents r !! did)) as [d0 Hd0].
  { destruct (H2 _ _ Hs0) as (_ & _ & HD). destruct (HD _ _ Hp) as (_ & d0 & ? & _). eauto. }
  pose proof (lookup_lt_Some _ _ _ Hd0) as Hlt.
  split; [split|split]; simpl; try done.
  - intros sid' s' Hs'. destruct (H2 _ _ Hs') as (? & ? & HD). split_and!; [done|done|].
    intros p' did' Hp'. destruct (HD _ _ Hp') as (Hall & d' & Hd' & Hok). split; [done|].
    destruct (decide (did' = did)) as [->|Hne].
    + destruct (H3 _ _ _ _ _ _ _ Hs0 Hp Hs' Hp') as [<- <-]. rewrite Hs0 in Hs'. injection Hs' as <-.
      exists d. split; [by apply list_lookup_insert_eq|]. split; [lia|]. rewrite Em. congruence.
    + exists d'. split; [cbn [set_document r_documents]; by rewrite list_lookup_insert_ne|done].
  - intros did' d'. destruct (decide (did' = did)) as [->|Hne].
    + rewrite list_lookup_insert_eq by done. intros [= <-]. eauto.
    + rewrite list_lookup_insert_ne by done. by apply H5.
  - naive_solver.
  - naive_solver.
  - intros did' Hd'. destruct (decide (did' = did)) as [->|Hne].
    + by rewrite list_lookup_insert_eq.
    + by rewrite list_lookup_insert_ne.
Qed.

Lemma rooms_new_member_session r m sid : r_sessions (new_member m r) !! sid = r_sessions r !! sid.
Proof. done. Qed.

Lemma add_member_good r sid m b r' :
  add_member sid m r = (b, r') → rooms_ok r → mb_FilePath m = EmptyString →
  of_server sid (server_of (mb_HandlerID m)) r → good r r'.
Proof.
  unfold add_member. intros E Hr Hpath (s & Hs & Hu). rewrite (session_at_Some _ _ _ Hs) in E.
  destruct (_ <=? _) eqn:Efull; injection E as <- <-; [by apply good_refl|]. apply Z.leb_gt in Efull.
  pose proof (new_member_good r m Hr Hpath) as Hn.
  eapply good_trans; [exact Hn|]. destruct Hn as [Hr1 Hle]. apply set_session_good; [done|].
  rewrite rooms_new_member_session. intros s' Hs'. rewrite Hs in Hs'. injection Hs' as <-. split_and!; try done.
  - simpl. rewrite map_size_insert. case_match; simpl; lia.
  - destruct (ok_session _ Hr1 sid s Hs) as (_ & HM & _).
    intros h mid. simpl. intros [[<- <-]|[_ Hin]]%lookup_insert_Some; [|by apply (HM h mid)].
    split; [done|]. exists m. split; [|done]. by apply list_lookup_middle.
Qed.

(** A new document under a new path. *)
Lemma register_document_good r sid s path content :
  rooms_ok r → r_sessions r !! sid = Some s → ss_Documents s !! path = None →
  (size (ss_Documents s) < betterFilesCollabMaxDocuments)%nat → allowed path →
  byte_len content ≤ ss_MaxFileBytes s →
  good r (set_session sid (set_Documents (<[path := length (r_documents r)]>))
            (new_document (newBetterFilesCollabDocument content) r)).
Proof.
  intros Hr Hs Hpath Hsz Hall Hlen. set (did := length (r_documents r)).
  set (d := newBetterFilesCollabDocument content : Document op).
  pose proof (new_document_good r d _ Hr (reach_new content)) as [Hr1 Hle1].
  set (r1 := new_document d r) in *. set (f := set_Documents (<[path := did]>)).
  assert (r_sessions r1 = r_sessions r) as Es by done.
  assert (∀ sid' s' p, r_sessions r !! sid' = Some s' → ss_Documents s' !! p = Some did → False) as Hfresh.
  { intros sid' s' p Hs' Hp. destruct (ok_session _ Hr _ _ Hs') as (_ & _ & HD).
    destruct (HD _ _ Hp) as (_ & d' & Hd' & _). apply lookup_lt_Some in Hd'. unfold did in Hd'. lia. }
  assert (∀ sid' s' p, alter f sid (r_sessions r) !! sid' = Some s' → ss_Documents s' !! p = Some did →
    sid' = sid ∧ p = path) as Hnew.
  { intros sid' s' p [(-> & s0 & Hs0 & ->)|[_ Hs0]]%alter_Some Hp; [|by destruct (Hfresh _ _ _ Hs0 Hp)].
    simpl in Hp. apply lookup_insert_Some in Hp as [[<- _]|[_ Hp]]; [done|by destruct (Hfresh _ _ _ Hs0 Hp)]. }
  assert (∀ sid' s' p did', alter f sid (r_sessions r) !! sid' = Some s' → ss_Documents s' !! p = Some did' →
    did' ≠ did → ∃ s0, r_sessions r !! sid' = Some s0 ∧ ss_Documents s0 !! p = Some did') as Hold.
  { intros sid' s' p did' [(-> & s0 & Hs0 & ->)|[_ Hs0]]%alter_Some Hp Hne; [|eauto].
    simpl in Hp. apply lookup_insert_Some in Hp as [[_ <-]|[_ Hp]]; [done|eauto]. }
  destruct Hr1 as [H1 H2 H3 H4 H5]. split; [split|]; try done; cbn [set_session r_sessions r_registry]; rewrite ?Es.
  - intros code sid' (s' & Hs' & Hc)%H1. rewrite Es in Hs'. rewrite (alter_lookup _ _ _ _ _ Hs').
    eexists. split; [done|]. by case_decide.
  - intros sid' s' [(-> & s0 & Hs0 & ->)|[_ Hs0]]%alter_Some; [|by apply (H2 sid')].
    rewrite Hs in Hs0. injection Hs0 as <-. destruct (H2 sid s Hs) as (Hl & HM & HD). split_and!.
    + unfold within_limits in *. simpl. rewrite map_size_insert_None by done. split_and!; naive_solver lia.
    + exact HM.
    + intros p did'. simpl. intros [[<- <-]|[_ Hp]]%lookup_insert_Some.
      * split; [done|]. exists d. split; [by apply list_lookup_middle|]. by split.
      * destruct (HD _ _ Hp) as (? & d' & ? & ?). split; [done|]. by exists d'.
  - intros sid1 s1 p1 sid2 s2 p2 did' Hs1 Hp1 Hs2 Hp2. destruct (decide (did' = did)) as [->|Hne].
    + destruct (Hnew _ _ _ Hs1 Hp1) as [-> ->], (Hnew _ _ _ Hs2 Hp2) as [-> ->]. done.
    + destruct (Hold _ _ _ _ Hs1 Hp1 Hne) as (? & ? & ?), (Hold _ _ _ _ Hs2 Hp2 Hne) as (? & ? & ?). by eapply H3.
  - transitivity r1; [done|]. split; [|naive_solver|done].
    intros sid' s' Hs'. cbn [set_session r_sessions]. rewrite (alter_lookup _ _ _ _ _ Hs').
    eexists. split; [done|]. case_decide; [subst|done]. split; [done|]. intros p did' Hp. simpl.
    rewrite lookup_insert_ne; [done|]. intros ->. rewrite Es, Hs in Hs'. injection Hs' as <-. congruence.
Qed.

Lemma add_document_good r sid s path content res r' :
  add_document sid path content r = (res, r') → rooms_ok r → is_session sid s r → allowed path →
  byte_len content ≤ ss_MaxFileBytes s →
  good r r' ∧ ∀ did, res = Ok did → has_document sid path did r'.
Proof.
  unfold add_document. intros E Hr (s0 & Hs0 & Ef) Hall Hlen. rewrite (session_at_Some _ _ _ Hs0) in E.
  assert (ss_MaxFileBytes s0 = ss_MaxFileBytes s) as Eb by (unfold fixed in Ef; congruence).
  destruct (ss_Documents s0 !! path) as [did|] eqn:Ed.
  { injection E as <- <-. split; [by apply good_refl|]. intros did' [= <-]. by exists s0. }
  destruct (_ <=? _)%nat eqn:Ec; [injection E as <- <-; split; [by apply good_refl|done]|].
  apply Nat.leb_gt in Ec.
  destruct (_ <? _); injection E as <- <-; [split; [by apply good_refl|done]|]. split.
  - eapply register_document_good; [done..|by rewrite Eb].
  - intros did [= <-]. unfold has_document. cbn [set_session r_sessions new_document].
    rewrite (alter_lookup _ _ _ _ _ Hs0). eexists. split; [done|]. rewrite decide_True by done.
    simpl. by rewrite lookup_insert_eq.
Qed.

Lemma extend_fields info s :
  fixed (extend info s) = fixed s ∧ ss_Members (extend info s) = ss_Members s
  ∧ ss_Documents (extend info s) = ss_Documents s.
Proof. unfold extend. by case_match. Qed.

Lemma registered_good r info code sid r' :
  registered info code r = (sid, r') → rooms_ok r → good r r' ∧ has_code sid code r'.
Proof.
  unfold registered. intros [= <- <-] Hr. pose proof (new_session_good r info code Hr) as Hn.
  assert (r_sessions (new_session (create_session info code) r) !! length (r_sessions r) = Some (create_session info code))
    as Hnew by by apply list_lookup_middle.
  split; [|by eexists]. eapply good_trans; [exact Hn|]. destruct Hn as [Hr1 _].
  apply set_registry_good; [done|]. intros c sid. cbn [new_session r_registry].
  intros [[<- <-]|[_ Hc]]%lookup_insert_Some; [by eexists|by apply Hr1].
Qed.
Lemma get_or_create_good r now info sid r' :
  get_or_create now info r = (sid, r') → rooms_ok r →
  good r r' ∧ has_code sid (betterFilesCollabCode (si_Code info)) r'.
Proof.
  unfold get_or_create. intros E Hr. set (code := betterFilesCollabCode _) in E.
  destruct (r_registry r !! code) as [sid0|] eqn:Ereg; [|by eapply registered_good].
  destruct (betterFilesCollabSessionExpired _ _).
  - pose proof (unregister_good r code Hr) as Hg. destruct (registered_good _ _ _ _ _ E (proj1 Hg)) as [? ?].
    split; [by eapply good_trans|done].
  - injection E as <- <-. destruct (ok_registry _ Hr _ _ Ereg) as (s & Hs & Hc). split.
    + apply set_session_good; [done|]. intros s' Hs'. rewrite Hs in Hs'. injection Hs' as <-.
      destruct (extend_fields info s) as (Ef & Em & Ed). destruct (ok_session _ Hr _ _ Hs) as (Hl & HM & _).
      split_and!; [done|done|rewrite Em; apply Hl|]. intros h mid. rewrite Em. intros Hh.
      destruct (HM _ _ Hh) as [? ?]. split; [|done]. unfold fixed in Ef. congruence.
    + exists (extend info s). cbn [set_session r_sessions]. rewrite (alter_lookup _ _ _ _ _ Hs), decide_True by done.
      split; [done|]. destruct (extend_fields info s) as (Ef & _). by injection Ef as -> _.
Qed.

(** Fewer members. *)
Lemma fewer_members_good r sid f :
  rooms_ok r → (∀ M, f M ⊆ M) → good r (set_session sid (set_Members f) r).
Proof.
  intros Hr Hf. apply set_session_good; [done|]. intros s Hs.
  destruct (ok_session _ Hr _ _ Hs) as (Hl & HM & _). split_and!; [done|done| |].
  - pose proof (map_subseteq_size _ _ (Hf (ss_Members s))). unfold within_limits in Hl. simpl. lia.
  - intros h mid Hh. simpl in Hh. apply (HM h mid). by eapply lookup_weaken.
Qed.

Lemma drop_member_good r sid h b r' : drop_member sid h r = (b, r') → rooms_ok r → good r r'.
Proof.
  unfold drop_member. intros E Hr. case_match; injection E as <- <-; [|by apply good_refl].
  apply fewer_members_good; [done|]. intros M. apply delete_subseteq.
Qed.

Lemma sessions_for_good now u l r found r' :
  sessions_for now u l r = (found, r') → rooms_ok r →
  good r r' ∧ ∀ sid, sid ∈ found → sid ∈ l ∧ ss_ServerUUID (session_at r sid) = u.
Proof.
  revert r found r'. induction l as [|sid l IH]; intros r found r' E Hr.
  { injection E as <- <-. split; [by apply good_refl|]. by intros ? ?%not_elem_of_nil. }
  cbn [sessions_for] in E. destruct (betterFilesCollabSessionExpired _ _).
  - pose proof (unregister_good r (ss_Code (session_at r sid)) Hr) as Hg.
    destruct (IH _ _ _ E (proj1 Hg)) as [? Hin]. split; [by eapply good_trans|].
    intros x [? ?]%Hin. split; [by right|done].
  - destruct (sessions_for now u l r) as [found' r1] eqn:E1. injection E as <- <-.
    destruct (IH _ _ _ E1 Hr) as [? Hin]. split; [done|]. case_bool_decide as Hu.
    + intros x [->|[? ?]%Hin]%elem_of_cons; split; [by left|done|by right|done].
    + intros x [? ?]%Hin. split; [by right|done].
Qed.
Lemma revoked_good now u mode l r found r' :
  revoked now u mode l r = (found, r') → rooms_ok r → good r r' ∧ ∀ sid, sid ∈ found → ∃ code, (code, sid) ∈ l.
Proof.
  revert r found r'. induction l as [|[code sid] l IH]; intros r found r' E Hr.
  { injection E as <- <-. split; [by apply good_refl|]. by intros sid ?%not_elem_of_nil. }
  assert (∀ r1 found' r2, good r r1 → revoked now u mode l r1 = (found', r2) →
    good r r2 ∧ ∀ sid', sid' ∈ found' → ∃ code', (code', sid') ∈ (code, sid) :: l) as Hrec.
  { intros r1 found' r2 Hg E1. destruct (IH _ _ _ E1 (proj1 Hg)) as [? Hin]. split; [by eapply good_trans|].
    intros sid' (code' & ?)%Hin. exists code'. set_solver. }
  pose proof (unregister_good r code Hr) as Hg. pose proof (good_refl r Hr) as Hg'.
  cbn [revoked] in E. repeat case_match; try exact (Hrec _ _ _ Hg E); try exact (Hrec _ _ _ Hg' E).
  injection E as <- <-. edestruct Hrec as [? Hin]; [exact Hg|done|]. split; [done|].
  intros sid' [->|?]%elem_of_cons; [|by apply Hin]. exists code. set_solver.
Qed.
End RoomsFacts.
