(* ===== verification/RoomsSafe.v ===== *)
(** * The collaboration protocol under any interleaving

    Every request, the end of a connection, a revocation by the Panel and an
    authentication keep the invariant of [RoomsFacts] at each of their critical sections
    and respect what the others know, so the invariant holds in every state of every
    interleaving of any number of them. *)

From stdpp Require Import base gmap sets list strings numbers.
From Stdlib Require Import Ascii.
From S2P Require Import Prelude GoStrings Paths PathsFacts Tokens Collab CollabFacts Threads Socket SocketSafe Rooms RoomsFacts.
Open Scope Z_scope.

Section RoomsSafe.
Context {op : Type} `{HOT : OT op} {L : Type} `{HRL : RateLimiter L} `{HW : World} `{HS : ServerOps}
  `{HU : UnicodeTables} `{HJson : Json} `{HPanel : Panel}.
Abbreviation wd := (world L (rooms op) body).
Abbreviation thread := (prog wd).
Implicit Types (w : wd) (r : rooms op) (s : Session) (h : string) (sid mid did : nat).

(** ** Sending *)

(** A message that tells something of one session. *)
Definition says (sid : nat) (b : body) (r : rooms op) : Prop := ∀ code, code ∈ named b → has_code sid code r.
#[local] Instance says_Stable sid b : Stable (says sid b).
Proof. intros r r' Hle Hs code Hc. by eapply has_code_le, Hs. Qed.

Lemma Send_fine h about e b w :
  may_tell h about (Body b) (w_rooms w) → fine (betterFilesCollabSend h about e b : thread _) w.
Proof. intros Ha. apply SendJson_fine. exact Ha. Qed.
Lemma Send_one_fine h sid e b w :
  of_server sid (server_of h) (w_rooms w) → says sid b (w_rooms w) →
  fine (betterFilesCollabSend h [sid] e b : thread _) w.
Proof.
  intros Hs Hb. apply Send_fine. split.
  - by intros ? ->%list_elem_of_singleton.
  - intros code Hc. exists sid. split; [by left|by apply Hb].
Qed.
Lemma Error_fine h m w : fine (betterFilesCollabError h m : thread _) w.
Proof. apply Send_fine. by split; intros ? ?%not_elem_of_nil. Qed.
#[local] Hint Resolve Send_one_fine Error_fine is_session_code : sockets.
#[local] Hint Extern 1 (says _ _ _) =>
  (intros ? Hcode; cbn [named] in Hcode; apply list_elem_of_singleton in Hcode as ->; solve [eauto with sockets]) : sockets.

(** What the lemmas above say of the values just bound. *)
Ltac known :=
  repeat match goal with
  | H : ∀ sid mid, Some (?a, ?b) = Some (sid, mid) → _ |- _ => specialize (H a b eq_refl)
  | H : ∀ did, Ok ?a = Ok did → _ |- _ => specialize (H a eq_refl)
  | H : ∀ j, Some ?a = Some j → _ |- _ => specialize (H a eq_refl)
  | H : ∃ _, _ |- _ => destruct H
  | H : _ ∧ _ |- _ => destruct H
  | H : betterFilesCollabPath _ = Some _ |- _ => apply Path_allowed in H
  end.
Ltac request := repeat (piece; known).

(** ** Sessions and members *)

Lemma ranged_safe {A} (f : rooms op → list A) w :
  safely (ranged f) (λ l w', rooms_ok (w_rooms w') ∧ l ≡ₚ f (w_rooms w')) w.
Proof.
  apply safe_atomic. intros w' _ HI. split_and!; [by apply (Inv_frame w')|by apply Rely_frame|apply HI|].
  apply range_perm.
Qed.
#[local] Hint Resolve ranged_safe : sockets.

Lemma load_safe sid u w :
  of_server sid u (w_rooms w) →
  safely (load sid) (λ s w', is_session sid s (w_rooms w') ∧ ss_ServerUUID s = u ∧ within_limits s) w.
Proof.
  intros Hs. apply gets_safe. intros w' HR HI. advance. destruct Hs as (s & Hs & Hu).
  rewrite (session_at_Some _ _ _ Hs). split_and!; [by exists s|done|]. by eapply ok_session; [apply HI|].
Qed.
#[local] Hint Resolve load_safe : sockets.

Lemma member_ids_server except sid u r x :
  rooms_ok r → of_server sid u r → x ∈ member_ids except sid r → server_of x = u.
Proof.
  intros Hr (s & Hs & <-). unfold member_ids. rewrite (session_at_Some _ _ _ Hs).
  intros ([h mid] & Hin & Hx)%list_elem_of_omap. apply elem_of_map_to_list in Hin.
  destruct (ok_session _ Hr _ _ Hs) as (_ & HM & _). destruct (HM _ _ Hin) as (Hu & m & Hm & Hh).
  unfold member_at in Hx. rewrite Hm in Hx. simpl in Hx. case_match; [done|]. congruence.
Qed.

Lemma Broadcast_fine sid u except e b w :
  of_server sid u (w_rooms w) → says sid b (w_rooms w) → fine (betterFilesCollabBroadcast sid except e b : thread _) w.
Proof.
  intros Hs Hb. unfold betterFilesCollabBroadcast. eapply seq; [apply ranged_safe|].
  intros members w' HR [Hr Hp]. advance. apply for_each_fine. intros x w'' Hx HR.
  rewrite Hp in Hx. apply (member_ids_server _ _ u) in Hx; [|done|done]. subst u. advance. pieces.
Qed.
#[local] Hint Resolve Broadcast_fine : sockets.
Lemma Members_fine sid w : fine (betterFilesCollabMembers sid : thread _) w.
Proof. unfold betterFilesCollabMembers. pieces. Qed.
Lemma UsersForPath_fine sid p e w : fine (betterFilesCollabUsersForPath sid p e : thread _) w.
Proof. unfold betterFilesCollabUsersForPath. pieces. Qed.
#[local] Hint Resolve Members_fine UsersForPath_fine : sockets.
Lemma BroadcastMembers_fine sid u w :
  of_server sid u (w_rooms w) → fine (betterFilesCollabBroadcastMembers sid : thread _) w.
Proof. intros Hs. unfold betterFilesCollabBroadcastMembers. request. Qed.
Lemma BroadcastFileUsers_fine sid u w :
  of_server sid u (w_rooms w) → fine (betterFilesCollabBroadcastFileUsers sid : thread _) w.
Proof. intros Hs. unfold betterFilesCollabBroadcastFileUsers. request. Qed.
#[local] Hint Resolve BroadcastMembers_fine BroadcastFileUsers_fine : sockets.

Lemma GetOrCreateSession_safe info w :
  safely (betterFilesCollabGetOrCreateSession info)
    (λ sid w', (∃ u, of_server sid u (w_rooms w')) ∧ has_code sid (betterFilesCollabCode (si_Code info)) (w_rooms w')) w.
Proof.
  apply rooms_safe. intros w' _ HI. destruct (get_or_create _ _ _) as [sid r'] eqn:E.
  destruct (get_or_create_good _ _ _ _ _ E (inv_rooms _ HI)) as [Hg Hc].
  exists sid, r', (tick w'). split_and!; try done. intros w3 ->. split; [|done].
  destruct Hc as (s & Hs & _). by exists (ss_ServerUUID s), s.
Qed.
#[local] Hint Resolve GetOrCreateSession_safe : sockets.

Lemma registered_server (r : rooms op) code sid :
  rooms_ok r → r_registry r !! code = Some sid → ∃ u, of_server sid u r.
Proof. intros Hr (s & Hs & _)%(ok_registry _ Hr). by exists (ss_ServerUUID s), s. Qed.
Lemma registered_code (r : rooms op) code sid :
  rooms_ok r → r_registry r !! code = Some sid → has_code sid code r.
Proof. intros Hr Hc. by apply (ok_registry _ Hr). Qed.

Lemma lookup_registry_safe code w :
  safely (gets (λ w : wd, r_registry (w_rooms w) !! code))
    (λ found w', ∀ sid, found = Some sid → (∃ u, of_server sid u (w_rooms w')) ∧ has_code sid code (w_rooms w')) w.
Proof.
  apply gets_safe. intros w' _ HI sid Hs. split; [eapply registered_server, Hs; apply HI|].
  eapply registered_code, Hs. apply HI.
Qed.
#[local] Hint Resolve lookup_registry_safe : sockets.

Lemma unregister_fine (f : rooms op → rooms op) w :
  (∀ r, f r = r ∨ ∃ code, f r = set_registry (delete code) r) → fine (update f) w.
Proof.
  intros Hf. apply update_safe. intros r _ Hr. split; [|done].
  destruct (Hf r) as [->|[code ->]]; [by apply good_refl|by apply unregister_good].
Qed.

Lemma MemberFor_safe h code w :
  safely (betterFilesCollabMemberFor h code)
    (λ found w', ∀ sid mid, found = Some (sid, mid) →
       of_server sid (server_of h) (w_rooms w') ∧ has_member mid h (w_rooms w')
       ∧ has_code sid (betterFilesCollabCode code) (w_rooms w')) w.
Proof.
  unfold betterFilesCollabMemberFor. eapply seq; [apply lookup_registry_safe|].
  intros [sid|] w1 _ Hsid; [|by intros ? ? [=]]. destruct (Hsid sid eq_refl) as [[u Hs] Hc]. clear Hsid.
  eapply seq; [eauto with sockets|]. intros s w2 HR (_ & _ & _). advance.
  eapply seq; [eauto with sockets|]. intros now w3 HR _. advance. case_match.
  - eapply seq; [apply unregister_fine|by intros ? ? ? ? ? ? [=]].
    intros r. case_bool_decide; eauto.
  - eapply seq with (P' := λ member w', ∀ mid, member = Some mid →
      of_server sid (server_of h) (w_rooms w') ∧ has_member mid h (w_rooms w')
      ∧ has_code sid (betterFilesCollabCode code) (w_rooms w')).
    + apply gets_safe. intros w4 HR HI mid Hmid. advance. destruct Hs as (s4 & Hs4 & _).
      rewrite (session_at_Some _ _ _ Hs4) in Hmid.
      destruct (ok_session _ (inv_rooms _ HI) _ _ Hs4) as (_ & HM & _).
      destruct (HM _ _ Hmid) as [? ?]. split; [by exists s4|]. done.
    + intros [mid|] w4 _ Hm; [|by intros ? ? [=]]. intros ? ? [= <- <-]. by apply Hm.
Qed.
#[local] Hint Resolve MemberFor_safe : sockets.

Lemma RemoveMember_fine code h w : fine (betterFilesCollabRemoveMember code h : thread _) w.
Proof.
  unfold betterFilesCollabRemoveMember. eapply seq; [apply lookup_registry_safe|].
  intros [sid|] w1 _ Hsid; [|done]. destruct (Hsid sid eq_refl) as [[u Hs] _]. clear Hsid.
  eapply seq.
  - apply rooms_safe with (Q := λ _ _, True). intros w' _ HI. destruct (drop_member _ _ _) as [b r'] eqn:E.
    pose proof (drop_member_good _ _ _ _ _ E (inv_rooms _ HI)) as ?. exists b, r', w'. by split_and!.
  - intros [[]|] w2 HR _; [|advance; pieces|done]. apply unregister_fine. eauto.
Qed.
#[local] Hint Resolve RemoveMember_fine : sockets.

Lemma registry_values (r : rooms op) l sid :
  rooms_ok r → l ≡ₚ snd <$> map_to_list (r_registry r) → sid ∈ l → ∃ u, of_server sid u r.
Proof.
  intros Hr -> ([code sid'] & -> & Hin)%list_elem_of_fmap. apply elem_of_map_to_list in Hin.
  by eapply registered_server.
Qed.
Lemma LeaveAll_fine h w : fine (betterFilesCollabLeaveAll h : thread _) w.
Proof.
  unfold betterFilesCollabLeaveAll. eapply seq; [apply ranged_safe|]. intros l w1 _ [Hr Hl].
  apply for_each_fine. intros sid w2 Hin HR. destruct (registry_values _ _ _ Hr Hl Hin) as [u Hs]. advance. pieces.
Qed.
#[local] Hint Resolve LeaveAll_fine : sockets.

Lemma SessionsForServer_safe u w :
  safely (betterFilesCollabSessionsForServer u) (λ l w', ∀ sid, sid ∈ l → of_server sid u (w_rooms w')) w.
Proof.
  apply rooms_safe. intros w' _ HI. cbv beta zeta. set (l := range _ _). destruct (sessions_for (op:=op) _ _ _ _) as [found r'] eqn:E.
  destruct (sessions_for_good _ _ _ _ _ _ E (inv_rooms _ HI)) as [Hg Hin].
  exists found, r', (tick w'). split_and!; try done. intros w3 -> sid Hsid. destruct (Hin _ Hsid) as [Hl Hu].
  destruct (registry_values (w_rooms w') l sid) as (u' & s & Hs & _); [apply HI|apply range_perm|done|].
  eapply of_server_le; [apply Hg|]. exists s. split; [done|]. by rewrite (session_at_Some _ _ _ Hs) in Hu.
Qed.
#[local] Hint Resolve SessionsForServer_safe : sockets.

Lemma CloseSessions_fine u0 mode reason w :
  fine (CloseBetterFilesCollaborationSessions u0 mode reason : thread _) w.
Proof.
  unfold CloseBetterFilesCollaborationSessions. cbv zeta.
  set (mode' := if _ : bool then _ else _). set (reason' := if _ : bool then _ else _). clearbody mode' reason'.
  eapply seq with (P' := λ l w', ∀ sid, sid ∈ l → ∃ u, of_server sid u (w_rooms w')).
  - apply rooms_safe. intros w' _ HI. cbv beta zeta. set (l := range _ _). destruct (revoked (op:=op) _ _ _ _ _) as [found r'] eqn:E.
    destruct (revoked_good _ _ _ _ _ _ _ E (inv_rooms _ HI)) as [Hg Hin].
    exists found, r', (tick w'). split_and!; try done. intros w3 -> sid Hsid.
    destruct (Hin _ Hsid) as [code Hc]. unfold l in Hc. rewrite range_perm in Hc.
    apply elem_of_map_to_list in Hc. destruct (registered_server _ _ _ (inv_rooms _ HI) Hc) as [u Hu].
    exists u. eapply of_server_le; [apply Hg|done].
  - intros l w1 _ Hl. eapply seq; [|done]. apply for_each_fine. intros sid w2 Hin HR.
    destruct (Hl _ Hin) as [u Hu]. advance. request. apply update_safe. intros r _ Hr. split; [|done].
    apply fewer_members_good; [done|]. intros M. apply map_empty_subseteq.
Qed.
#[local] Hint Resolve CloseSessions_fine : sockets.

(** ** Documents *)

Lemma max_bytes_limit s : within_limits s → max_bytes s = ss_MaxFileBytes s.
Proof.
  intros (_ & _ & [? ?] & _). unfold max_bytes.
  by rewrite (proj2 (Z.leb_gt _ _)), (proj2 (Z.ltb_ge _ _)) by lia.
Qed.
Lemma is_session_fixed sid s s' r : is_session sid s r → is_session sid s' r → fixed s = fixed s'.
Proof. intros (? & ? & ?) (? & ? & ?). congruence. Qed.
Lemma is_session_server sid s r : is_session sid s r → of_server sid (ss_ServerUUID s) r.
Proof. apply is_session_of_server. Qed.
#[local] Hint Resolve is_session_server : sockets.

Lemma add_document_safe sid s path content w :
  is_session sid s (w_rooms w) → allowed path → byte_len content ≤ ss_MaxFileBytes s →
  safely (atomic (λ w : wd, let '(res, r) := add_document sid path content (w_rooms w) in (res, set_rooms (λ _, r) w)))
    (λ res w', ∀ did, res = Ok did → has_document sid path did (w_rooms w')) w.
Proof.
  intros Hs Hp Hlen. apply rooms_safe. intros w' HR HI. advance.
  destruct (add_document _ _ _ _) as [res r'] eqn:E.
  destruct (add_document_good _ _ _ _ _ _ _ E (inv_rooms _ HI) Hs Hp Hlen) as [Hg Hd].
  exists res, r', w'. split_and!; try done. by intros w3 ->.
Qed.

Lemma DocumentFor_safe h sid s path w :
  is_session sid s (w_rooms w) → allowed path →
  safely (betterFilesCollabDocumentFor h sid path)
    (λ res w', ∀ did, res = Ok did → has_document sid path did (w_rooms w')) w.
Proof.
  intros Hs Hp. unfold betterFilesCollabDocumentFor.
  eapply seq with (P' := λ found w', ∀ did, found = Some did → has_document sid path did (w_rooms w')).
  { apply gets_safe. intros w' HR _ did Hd. advance. destruct Hs as (s' & Hs' & _).
    rewrite (session_at_Some _ _ _ Hs') in Hd. by exists s'. }
  intros [did|] w1 HR Hd; [intros ? [= <-]; by apply Hd|]. advance. clear Hd.
  eapply seq; [eauto with sockets|]. intros [file|] w2 HR _; [|done]. advance.
  destruct (of_IsDir file); [done|].
  eapply seq; [eauto with sockets|]. intros s' w3 HR (Hs' & _ & Hl). advance. cbv beta in *.
  rewrite (max_bytes_limit s' Hl). case_match; [done|]. destruct (of_Content file) as [bytes|]; [|done].
  set (content := limited_bytes _ _). destruct (utf8_decode content) as [decoded|] eqn:Ed; [|done].
  destruct (_ <? strlen content) eqn:Elen; [done|]. apply Z.ltb_ge in Elen.
  apply add_document_safe with s'; [done|done|]. by rewrite (utf8_decode_len _ _ Ed).
Qed.
#[local] Hint Resolve DocumentFor_safe : sockets.

Lemma sum_bytes_fine dids w : fine (sum_bytes dids : thread _) w.
Proof. revert w. induction dids; intros w; cbn [sum_bytes]; pieces. Qed.
#[local] Hint Resolve sum_bytes_fine : sockets.
Lemma SessionDocumentBytes_fine sid w : fine (betterFilesCollabSessionDocumentBytes sid : thread _) w.
Proof. unfold betterFilesCollabSessionDocumentBytes. pieces. Qed.
Lemma document_fine did w : fine (read_document did : thread _) w.
Proof. apply gets_fine. Qed.
#[local] Hint Resolve SessionDocumentBytes_fine document_fine : sockets.
Lemma SendDocument_fine h sid did path w :
  of_server sid (server_of h) (w_rooms w) → fine (betterFilesCollabSendDocument h sid did path : thread _) w.
Proof. intros Hs. unfold betterFilesCollabSendDocument. request. Qed.
#[local] Hint Resolve SendDocument_fine : sockets.

Lemma document_at_reachable sid path did r :
  rooms_ok r → has_document sid path did r → ∃ log, reachable (document_at r did) log.
Proof.
  intros Hr (s & Hs & Hp). destruct (ok_session _ Hr _ _ Hs) as (_ & _ & HD).
  destruct (HD _ _ Hp) as (_ & d & Hd & _). unfold document_at. rewrite Hd. simpl. by eapply ok_document.
Qed.

Lemma replace_document_fine sid s path did content w :
  is_session sid s (w_rooms w) → has_document sid path did (w_rooms w) →
  byte_len content ≤ ss_MaxFileBytes s → ss_Mode s = "edit"%string → fine (replace_document did content : thread _) w.
Proof.
  intros Hs Hd Hlen Hm. apply update_safe. intros r Hle Hr.
  apply (stable_le (P := is_session sid s) _ _ Hle) in Hs.
  apply (stable_le (P := has_document sid path did) _ _ Hle) in Hd. split; [|done].
  destruct (document_at_reachable _ _ _ _ Hr Hd) as [log Hlog].
  eapply set_document_good; [done|done|done|by apply reach_replace|done|done].
Qed.
Lemma apply_document_fine sid s path did changes max w :
  is_session sid s (w_rooms w) → has_document sid path did (w_rooms w) →
  0 < max ≤ ss_MaxFileBytes s → Forall int_edit changes → ss_Mode s = "edit"%string →
  fine (apply_document did changes max : thread _) w.
Proof.
  intros Hs Hd Hmax Hint Hm. apply rooms_safe with (Q := λ _ _, True). intros w' HR HI. advance.
  destruct (applyMonacoChanges changes max (document_at (w_rooms w') did)) as [res d] eqn:E.
  exists res, (set_document did d (w_rooms w')), w'. split_and!; try done.
  destruct (document_at_reachable _ _ _ _ (inv_rooms _ HI) Hd) as [log Hlog]. destruct res as [applied|e].
  - pose proof E as E'. apply apply_Ok in E' as (b & c & o & o' & next & nz & _ & _ & _ & _ & _ & Hb & _ & _ & Hc & _).
    eapply set_document_good; [apply HI|done|done|by eapply reach_edit| |done].
    rewrite Hc. specialize (Hb ltac:(lia)). lia.
  - apply apply_Err in E as ->. destruct HI as [Hr _ _]. pose proof Hd as (s0 & Hs0 & Hp0).
    destruct (ok_session _ Hr _ _ Hs0) as (_ & _ & HD). destruct (HD _ _ Hp0) as (_ & d & Hd0 & [Hlen _]).
    eapply set_document_good; [done|done|done|done| |done].
    unfold document_at. rewrite Hd0. simpl. destruct Hs as (s1 & Hs1 & Ef). rewrite Hs0 in Hs1. injection Hs1 as <-.
    unfold fixed in Ef. injection Ef as _ _ _ _ _ Eb. lia.
Qed.

(** ** Members *)

Lemma set_LastVersion_good r mid v : rooms_ok r → good r (set_member mid (set_LastVersion v) r).
Proof. intros Hr. apply set_member_good; [done|]. intros m Hm. split_and!; [done|done|exact (ok_member _ Hr _ _ Hm)]. Qed.
Lemma set_FilePath_good r mid p :
  rooms_ok r → p = EmptyString ∨ allowed p → good r (set_member mid (set_FilePath p) r).
Proof. intros Hr Hp. by apply set_member_good. Qed.

Lemma AcceptVersion_fine mid v w : fine (betterFilesCollabAcceptVersion mid v : thread _) w.
Proof.
  unfold betterFilesCollabAcceptVersion. case_match; [done|].
  apply rooms_safe with (Q := λ _ _, True). intros w' _ [Hr _ _]. unfold accept_version. destruct (v <=? _).
  - by exists false, (w_rooms w'), w'.
  - exists true, (set_member mid (set_LastVersion v) (w_rooms w')), w'. split_and!; try done. by apply set_LastVersion_good.
Qed.
Lemma SetMemberPath_fine mid p w : allowed p → fine (betterFilesCollabSetMemberPath mid p : thread _) w.
Proof.
  intros Hp. apply rooms_safe with (Q := λ _ _, True). intros w' _ [Hr _ _]. unfold set_path. case_bool_decide.
  - by exists false, (w_rooms w'), w'.
  - exists true, (set_member mid (set_FilePath p) (w_rooms w')), w'. split_and!; try done.
    apply set_FilePath_good; auto.
Qed.
#[local] Hint Resolve AcceptVersion_fine SetMemberPath_fine : sockets.
Lemma follow_fine sid u mid p w : of_server sid u (w_rooms w) → allowed p → fine (follow sid mid p : thread _) w.
Proof. intros Hs Hp. unfold follow. pieces. Qed.
#[local] Hint Resolve follow_fine Path_allowed : sockets.

(** ** Requests *)

Lemma holds_fine h p w : fine (holds_permission h p : thread _) w.
Proof. unfold holds_permission. pieces. Qed.
Lemma CanRead_fine h w : fine (betterFilesCollabCanRead h : thread _) w.
Proof. apply holds_fine. Qed.
Lemma CanWrite_fine h w : fine (betterFilesCollabCanWrite h : thread _) w.
Proof. apply holds_fine. Qed.
#[local] Hint Resolve CanRead_fine CanWrite_fine : sockets.

Lemma VerifiedSession_fine info w : fine (betterFilesCollabVerifiedSession info : thread _) w.
Proof.
  unfold betterFilesCollabVerifiedSession. cbv zeta. case_match; [done|]. eapply seq; [eauto with sockets|].
  intros now w1 _ _. destruct (verify_collab now (si_Token info)) as [token|]; [|done].
  case_match; [done|]. case_match; [done|]. eapply seq with (P' := λ _ _, True); [pieces|]. intros. pieces.
Qed.
#[local] Hint Resolve VerifiedSession_fine : sockets.

(** Joining a session of one's own server. *)
Lemma join_session_fine h info code user w :
  si_ServerUUID info = server_of h → code = betterFilesCollabCode (si_Code info) →
  fine (join_session h info code user : thread _) w.
Proof.
  intros Hu ->. unfold join_session. eapply seq; [eauto with sockets|]. intros _ w1 _ _.
  eapply seq; [eauto with sockets|]. intros sid w2 _ [[u Hs] Hc].
  eapply seq; [eauto with sockets|]. intros s w3 HR (Hs' & Eu & _). advance.
  destruct (negb _ || negb _) eqn:E; [eauto with sockets|].
  apply orb_false_iff in E as [E%negb_false_iff%bool_decide_eq_true _]. rewrite <-E in Hu. clear E. subst u.
  rewrite Hu in Hs.
  eapply seq with (P' := λ _ _, True).
  { apply rooms_safe. intros w' HR HI. advance. set (m := mkMember _ _ _ _ _).
    destruct (add_member sid m (w_rooms w')) as [b r'] eqn:E.
    exists b, r', (tick w'). split_and!; try done. eapply add_member_good; [exact E|apply HI|done|done]. }
  intros joined w4 HR _. advance. request.
Qed.
#[local] Hint Resolve join_session_fine : sockets.
Lemma Join_fine h m w : fine (betterFilesCollabJoin h m : thread _) w.
Proof.
  unfold betterFilesCollabJoin. cbv zeta. piece. piece; [piece|]. piece; [|piece]. piece. piece. piece; [|piece].
  destruct p as [info user]. piece; [|piece]. known.
  destruct (negb _ || negb _) eqn:E; [piece|].
  apply orb_false_iff in E as [E%negb_false_iff%bool_decide_eq_true _].
  eapply seq with (P' := λ _ _, True); [pieces|]. intros writes w4 _ _. piece; [piece|]. piece; [piece|].
  apply join_session_fine; [congruence|done].
Qed.

Lemma of_server_session sid u r : of_server sid u r → ∃ s, is_session sid s r.
Proof. intros (s & Hs & _). by exists s, s. Qed.
Lemma SetFile_fine h m b w : fine (betterFilesCollabSetFile h m b : thread _) w.
Proof.
  unfold betterFilesCollabSetFile. destruct (betterFilesCollabDecode _ m) as [payload|]; [|piece].
  piece. piece; [|piece]. destruct p as [sid mid]. known. piece; [|piece]. known.
  eapply seq with (P' := λ _ _, True).
  { apply update_safe. intros r _ Hr. split; [|done]. destruct b; [by apply set_FilePath_good; [|right]|].
    case_bool_decide; [by apply set_FilePath_good; [|left]|by apply good_refl]. }
  intros _ w2 HR _. advance. piece. piece; [|piece].
  match goal with Hs : of_server sid _ _ |- _ => destruct (of_server_session _ _ _ Hs) as [session Hi] end. request.
Qed.

Lemma Close_fine h m w : fine (betterFilesCollabClose h m : thread _) w.
Proof.
  unfold betterFilesCollabClose. destruct (betterFilesCollabDecode _ m) as [code|]; [|piece].
  piece. piece; [|piece]. destruct p as [sid mid]. known. piece. known. piece. piece; [piece|]. piece.
  eapply seq; [apply unregister_fine|done]. eauto.
Qed.

Lemma Presence_fine h m w : fine (betterFilesCollabPresence h m : thread _) w.
Proof.
  unfold betterFilesCollabPresence. destruct (betterFilesCollabDecode _ m) as [payload|]; [|piece].
  piece. piece; [|piece]. destruct p as [sid mid]. known. request.
Qed.

Lemma bad_change_int c : bad_change c = false → int_edit c.
Proof.
  unfold bad_change, betterFilesCollabMaxPayloadBytes, int_edit, in_int64, int64_min, int64_max.
  rewrite !orb_false_iff, !Z.ltb_ge. intros [[[[[[? ?] ?] _] ?] ?] ?]. lia.
Qed.
Lemma good_changes l : existsb bad_change l = false → Forall int_edit l.
Proof.
  induction l as [|c l IH]; [constructor|]. cbn [existsb]. intros [Hc Hl]%orb_false_iff.
  constructor; [by apply bad_change_int|by apply IH].
Qed.

Lemma patch_document_fine h sid s mid did payload path max w :
  is_session sid s (w_rooms w) → ss_ServerUUID s = server_of h →
  has_code sid (betterFilesCollabCode (ap_Code payload)) (w_rooms w) → has_document sid path did (w_rooms w) →
  ss_Mode s = "edit"%string → max ≤ ss_MaxFileBytes s → Forall int_edit (ap_Changes payload) →
  fine (patch_document h sid mid did payload path max : thread _) w.
Proof.
  intros Hs Hu Hc Hd Hm Hmax Hint. unfold patch_document. cbv zeta.
  piece. eapply seq with (P' := λ _ _, True); [eauto with sockets|]. intros total w2 HR _. advance.
  set (max' := if _ <? max then _ else max). assert (max' ≤ ss_MaxFileBytes s) as Hmax'.
  { unfold max'. case_match eqn:E; [apply Z.ltb_lt in E|]; lia. }
  destruct (max' <=? 0) eqn:E0; [eauto with sockets|]. apply Z.leb_gt in E0.
  eapply seq; [eapply apply_document_fine; [exact Hs|exact Hd|lia|done|done]|]. intros res w3 HR _. advance.
  pose proof (is_session_server _ _ _ Hs) as Hserver. rewrite Hu in Hserver. request.
Qed.

(** A member of a session for editing. *)
Lemma edit_mode s : negb (bool_decide (ss_Mode s = "edit"%string)) = false → ss_Mode s = "edit"%string.
Proof. by intros ?%negb_false_iff%bool_decide_eq_true. Qed.

Lemma Patch_fine h m w : fine (betterFilesCollabPatch h m : thread _) w.
Proof.
  unfold betterFilesCollabPatch. cbv zeta. piece. piece; [piece|].
  destruct (betterFilesCollabDecode _ m) as [payload|]; [|piece].
  piece. piece; [|piece]. destruct p as [sid mid]. known. piece. known.
  piece; [piece|]. piece; [piece|]. piece; [piece|]. piece; [piece|]. piece; [|piece]. known.
  piece. piece; [piece|]. piece. piece. piece; [|piece]. known.
  eapply patch_document_fine; [done|done|done|done|by apply edit_mode| |by apply good_changes].
  by rewrite max_bytes_limit.
Qed.

Lemma with_document_fine h code given content version too_large (body : nat → nat → nat → string → thread (option goerr)) w :
  (∀ sid s mid did path w', is_session sid s (w_rooms w') → ss_ServerUUID s = server_of h →
     has_code sid (betterFilesCollabCode code) (w_rooms w') → has_document sid path did (w_rooms w') → ss_Mode s = "edit"%string → byte_len content ≤ ss_MaxFileBytes s →
     fine (body sid mid did path) w') →
  fine (with_document h code given content version too_large body : thread _) w.
Proof.
  intros Hb. unfold with_document. piece. piece; [|piece]. destruct p as [sid mid]. known. piece. known.
  piece; [piece|]. destruct (_ || _) eqn:E; [piece|]. apply orb_false_iff in E as [E%Z.ltb_ge _].
  rewrite max_bytes_limit in E by done. piece; [|piece]. known.
  piece. piece; [piece|]. piece. piece. piece; [|piece]. known.
  eapply Hb; [done|done|done|done|by apply edit_mode|done].
Qed.
Lemma Snapshot_fine h m w : fine (betterFilesCollabSnapshot h m : thread _) w.
Proof.
  unfold betterFilesCollabSnapshot. piece. piece; [piece|]. destruct (betterFilesCollabDecode _ m) as [payload|]; [|piece].
  apply with_document_fine. intros sid s mid did path w2 Hs Hu Hc Hd Hm Hlen. unfold take_snapshot. cbv zeta.
  pose proof (is_session_server _ _ _ Hs) as Hserver. rewrite Hu in Hserver.
  piece. piece; [request|]. eapply seq with (P' := λ _ _, True); [pieces|]. intros users w4 HR _. advance.
  piece; [|piece]. eapply seq; [by eapply replace_document_fine|]. intros _ w5 HR _. advance. request.
Qed.
Lemma FileSaved_fine h m w : fine (betterFilesCollabFileSaved h m : thread _) w.
Proof.
  unfold betterFilesCollabFileSaved. piece. piece; [piece|]. destruct (betterFilesCollabDecode _ m) as [payload|]; [|piece].
  apply with_document_fine. intros sid s mid did path w2 Hs Hu Hc Hd Hm Hlen. unfold take_saved.
  pose proof (is_session_server _ _ _ Hs) as Hserver. rewrite Hu in Hserver.
  eapply seq; [by eapply replace_document_fine|]. intros _ w5 HR _. advance. request.
Qed.

(** What is found in the sessions of a server. *)
Definition conflicts_of (u : string) (found : list (nat * Conflict)) (r : rooms op) : Prop :=
  Forall (λ x, of_server (fst x) u r ∧ has_code (fst x) (cf_Code (snd x)) r) found.
#[local] Instance conflicts_of_Stable u found : Stable (conflicts_of u found).
Proof.
  intros r r' Hle Hf. eapply list.Forall_impl; [exact Hf|]. intros x [? ?]. split; [by eapply of_server_le|by eapply has_code_le].
Qed.
Lemma conflicts_in_safe h path sids u w :
  (∀ sid, sid ∈ sids → of_server sid u (w_rooms w)) →
  safely (conflicts_in h path sids) (λ found w', conflicts_of u found (w_rooms w')) w.
Proof.
  revert w. induction sids as [|sid sids IH]; intros w Hs; [apply ret; constructor|]. cbn [conflicts_in].
  assert (of_server sid u (w_rooms w)) as Hu by set_solver.
  assert (∀ w', Rely w w' → safely (conflicts_in h path sids) (λ found w', conflicts_of u found (w_rooms w')) w') as Hrest.
  { intros w' HR. apply IH. intros sid' Hin. eapply of_server_le; [exact HR|]. set_solver. }
  eapply seq; [by apply load_safe|]. intros s w1 HR1 (Hs1 & _ & _).
  destruct (negb _); [by apply Hrest|]. eapply seq; [apply UsersForPath_fine|]. intros users w2 HR2 _.
  assert (Rely w w2) as HR by (unfold Rely in *; by etransitivity).
  apply (stable_le (P := is_session sid s) _ _ HR2) in Hs1. apply (stable_le (P := of_server sid u) _ _ HR) in Hu.
  destruct (bool_decide _); [by apply Hrest|]. eapply seq; [by apply Hrest|]. intros rest w3 HR3 Hr.
  apply ret. constructor; [|done]. simpl. split; [by eapply of_server_le|].
  eapply has_code_le; [exact HR3|]. by apply is_session_code.
Qed.
Lemma conflicts_tell h path request found users r :
  conflicts_of (server_of h) found r → may_tell h (fst <$> found) (Body (BCheck path request (snd <$> found) users)) r.
Proof.
  unfold conflicts_of. rewrite list.Forall_forall. intros Hf. split.
  - intros sid (x & -> & Hx)%list_elem_of_fmap. by apply Hf.
  - intros code Hc. simpl in Hc. rewrite <-list_fmap_compose in Hc. apply list_elem_of_fmap in Hc as (x & -> & Hx).
    exists (fst x). split; [by apply list_elem_of_fmap_2|by apply Hf].
Qed.
Lemma ConflictsForPath_safe h path w :
  safely (betterFilesCollabConflictsForPath h path) (λ found w', conflicts_of (server_of h) found (w_rooms w')) w.
Proof.
  unfold betterFilesCollabConflictsForPath. eapply seq; [apply GetJwt_safe|]. intros [jwt|] w1 _ Hj; [|apply ret; constructor].
  eapply seq; [apply SessionsForServer_safe|]. intros l w2 _ Hl. rewrite (Hj jwt eq_refl) in Hl. by apply conflicts_in_safe.
Qed.
Lemma FileCheck_fine h m w : fine (betterFilesCollabFileCheck h m : thread _) w.
Proof.
  unfold betterFilesCollabFileCheck. piece. piece; [piece|].
  destruct (betterFilesCollabDecode _ m) as [payload|]; [|piece]. piece; [|piece].
  eapply seq; [apply ConflictsForPath_safe|]. intros found w2 _ Hf. by apply Send_fine, conflicts_tell.
Qed.
Lemma for_editors_fine h path sids (body : nat → Session → list User → thread unit) w :
  (∀ sid s users w', is_session sid s (w_rooms w') → fine (body sid s users) w') →
  (∀ sid, sid ∈ sids → ∃ u, of_server sid u (w_rooms w)) → fine (for_editors h path sids body) w.
Proof.
  intros Hb. revert w. induction sids as [|sid sids IH]; intros w Hs; [done|]. cbn [for_editors].
  destruct (Hs sid) as [u Hu]; [set_solver|].
  assert (∀ w', Rely w w' → fine (for_editors h path sids body) w') as Hrest.
  { intros w' HR. apply IH. intros sid' Hin. destruct (Hs sid') as [u' Hu']; [set_solver|].
    exists u'. by eapply of_server_le. }
  eapply seq; [eauto with sockets|]. intros s w1 HR1 (Hs1 & _ & _). piece; [by apply Hrest|].
  eapply seq; [eauto with sockets|]. intros users w2 HR2 _.
  assert (Rely w w2) as HR by (unfold Rely in *; by etransitivity).
  piece; [by apply Hrest|]. eapply seq.
  - apply Hb. by apply (stable_le (P := is_session sid s) _ _ HR2).
  - intros _ w3 HR3 _. apply Hrest. unfold Rely in *; by etransitivity.
Qed.
Lemma ExternalEdit_fine h m w : fine (betterFilesCollabExternalEdit h m : thread _) w.
Proof.
  unfold betterFilesCollabExternalEdit. piece. piece; [piece|].
  destruct (betterFilesCollabDecode _ m) as [payload|]; [|piece]. piece. piece; [|piece]. piece; [|piece].
  cbv zeta. eapply seq; [eauto with sockets|]. intros l w3 _ Hl. eapply seq; [|done].
  apply for_editors_fine; [|by eauto]. intros sid s1 users w4 Hs. pieces.
Qed.

Lemma HandleBetterFilesCollaboration_fine h m p w :
  HandleBetterFilesCollaboration h m = Some p → fine p w.
Proof.
  unfold HandleBetterFilesCollaboration. repeat case_bool_decide; intros Hp; try done; apply (inj Some) in Hp as <-.
  - apply Join_fine.
  - pieces.
  - apply Close_fine.
  - apply SetFile_fine.
  - apply SetFile_fine.
  - apply Presence_fine.
  - apply Patch_fine.
  - apply Snapshot_fine.
  - apply FileSaved_fine.
  - apply FileCheck_fine.
  - apply ExternalEdit_fine.
Qed.

(** A message that is not of the other collaboration protocol, which shares nothing with
    this one but the sockets and the tokens. *)
Abbreviation inbound native h m := (handleMessage HandleBetterFilesCollaboration (λ _ _, None) native h m : thread unit).
Lemma inbound_fine native h m w : fine (inbound native h m) w.
Proof. apply handleMessage_fine; [apply HandleBetterFilesCollaboration_fine|done]. Qed.

(** ** Every interleaving *)

(** What may start at any time: the handling of a message, the end of a connection, a
    revocation of sessions by the Panel, a revocation of tokens. *)
Inductive entry (native : string → bool) : thread unit → Prop :=
| start_message h m : native (msg_Event m) = false → entry native (inbound native h m)
| start_disconnect code h : entry native (disconnected code h)
| start_close serverUUID mode reason :
    entry native (_ ← CloseBetterFilesCollaborationSessions serverUUID mode reason; mret ())
| start_deny now x : entry native (modify (set_denials (deny now x))).

Definition no_rooms : rooms op := mkRooms ∅ [] [] [].
(** When the daemon starts there is no connection and no session. *)
Definition rooms_start (d : denials) : wd := mkWorld ∅ [] ∅ ∅ d 0 [] [] no_rooms.

Lemma rooms_start_Inv d : Inv (rooms_start d).
Proof.
  split; [split|..]; simpl; try done; intros *; try by rewrite lookup_empty.
Qed.
Lemma entry_fine native p w : entry native p → fine p w.
Proof.
  intros [h m _|code h|u mode reason|now x].
  - apply inbound_fine.
  - apply RemoveMember_fine.
  - piece. piece.
  - by apply frame_safe.
Qed.

(** The worlds of a running daemon: any number of those threads, interleaved at their
    critical sections. *)
Definition running (native : string → bool) (d : denials) (w : wd) : Prop :=
  ∃ ts, steps (entry native) ([], rooms_start d) (ts, w).
Lemma running_Inv native d w : running native d w → Inv w.
Proof.
  intros [ts Hs]. refine (proj1 (safe_steps Inv Rely _ _ _ _ (rooms_start_Inv d) _ Hs)).
  intros p w' Hp _. by eapply entry_fine.
Qed.

(** A thread that runs without interruption is one of the possibilities. *)
Lemma running_start native d : running native d (rooms_start d).
Proof. exists []. apply rtc_refl. Qed.
Lemma running_exec native d p w : running native d w → entry native p → running native d (snd (exec p w)).
Proof.
  intros [ts Hs] Hp. eexists. etransitivity; [exact Hs|].
  etransitivity; [apply (spawn_steps _ [p]); by constructor|apply exec_steps].
Qed.
Lemma running_schedule native d ps turns :
  Forall (entry native) ps → running native d (snd (schedule turns (ps, rooms_start d))).
Proof.
  intros Hps. exists (fst (schedule turns (ps, rooms_start d))). rewrite <-surjective_pairing.
  etransitivity; [by apply (spawn_steps _ ps [])|apply schedule_steps].
Qed.

(** The documents of a session are documents in use in the sense of [CollabFacts], so the
    convergence of concurrent edits holds for them. *)
Lemma session_documents_reachable native d w did doc :
  running native d w → r_documents (w_rooms w) !! did = Some doc → ∃ log, reachable doc log.
Proof. intros HI%running_Inv. apply HI. Qed.

(** C26: the limits of collaboration hold at every moment, however the requests of the
    clients, the ends of connections and the revocations interleave.  A session has at
    most as many members as its token allows and never more than 20; it has at most 32
    documents, none larger than its limit and never larger than 10 MiB; every document's
    path is canonical, absolute, without "..", at most 4096 bytes long and not one of the
    sensitive names; a code leads to the session that carries it. *)
Theorem session_limits native d w sid s :
  running native d w → r_sessions (w_rooms w) !! sid = Some s →
  Z.of_nat (size (ss_Members s)) ≤ ss_MaxUsers s ≤ 20
  ∧ (size (ss_Documents s) ≤ 32)%nat
  ∧ (∀ p did, ss_Documents s !! p = Some did → allowed p ∧
       ∃ doc, r_documents (w_rooms w) !! did = Some doc
         ∧ byte_len (doc_Content doc) ≤ ss_MaxFileBytes s ≤ 10485760)
  ∧ ∀ code, r_registry (w_rooms w) !! code = Some sid → ss_Code s = code.
Proof.
  intros HI%running_Inv Hs. destruct (ok_session _ (inv_rooms _ HI) _ _ Hs) as ((Hu & Hm & Hb & Hn & _) & _ & HD).
  unfold betterFilesCollabMaxUsers, betterFilesCollabMaxPayloadBytes, betterFilesCollabMaxDocuments in *.
  split; [lia|]. split; [done|]. split.
  - intros p did Hp. destruct (HD _ _ Hp) as (Hall & doc & Hdoc & Hlen & _). split; [done|]. exists doc. split; [done|lia].
  - intros code Hc. destruct (ok_registry _ (inv_rooms _ HI) _ _ Hc) as (s' & Hs' & <-). congruence.
Qed.

(** C25: a session stays within its server.  At every moment of every interleaving, each
    member of a session is a connection to the server the session belongs to.  Whatever
    ever went over a wire about sessions, the code it names (of a document, an edit, a
    cursor, the members, the open files, and each conflict in the answer to a file check,
    with its members) is that of one of the sessions the message was made from, and all of
    those belong to the server of the connection it went to.  Tokens stored on a connection
    are for the connection's own server. *)
Theorem sessions_confined native d w :
  running native d w →
  (∀ sid s h mid, r_sessions (w_rooms w) !! sid = Some s → ss_Members s !! h = Some mid → server_of h = ss_ServerUUID s)
  ∧ (∀ x, x ∈ w_sent w →
       (∀ sid, sid ∈ sn_sessions x →
          ∃ s, r_sessions (w_rooms w) !! sid = Some s ∧ ss_ServerUUID s = server_of (sn_to x))
       ∧ ∀ code, code ∈ content_names (msg_Args (sn_message x)) →
          ∃ sid s, sid ∈ sn_sessions x ∧ r_sessions (w_rooms w) !! sid = Some s ∧ ss_Code s = code)
  ∧ ∀ h j, w_jwt w !! h = Some j → ws_ServerUUID j = server_of h.
Proof.
  intros HI%running_Inv. split_and!; [| |apply HI].
  - intros sid s h mid Hs Hm. destruct (ok_session _ (inv_rooms _ HI) _ _ Hs) as (_ & HM & _).
    by destruct (HM _ _ Hm) as [? _].
  - intros x Hx. pose proof (inv_sent _ HI) as Hsent. rewrite list.Forall_forall in Hsent.
    destruct (Hsent x Hx) as [H1 H2]. split; [exact H1|]. intros code Hc. destruct (H2 _ Hc) as (sid & Hin & s & Hs).
    by exists sid, s.
Qed.

(** C27: in a session that is not for editing nothing changes a document: at every moment
    of every interleaving each of its documents is still at revision 0 with an empty
    history, the content that was read from the file. *)
Theorem view_sessions_unchanged native d w sid s p did doc :
  running native d w → r_sessions (w_rooms w) !! sid = Some s → ss_Mode s ≠ "edit"%string →
  ss_Documents s !! p = Some did → r_documents (w_rooms w) !! did = Some doc →
  doc_Revision doc = 0 ∧ doc_History doc = [].
Proof.
  intros HI%running_Inv Hs Hm Hp Hd. destruct (ok_session _ (inv_rooms _ HI) _ _ Hs) as (_ & _ & HD).
  destruct (HD _ _ Hp) as (_ & doc' & Hd' & _ & Hview). rewrite Hd in Hd'. injection Hd' as <-. by apply Hview.
Qed.

(** ** What sending leaves alone *)

Lemma Broadcast_keeps sid except e b : keeps w_rooms (betterFilesCollabBroadcast sid except e b : thread _).
Proof.
  unfold betterFilesCollabBroadcast, betterFilesCollabSend. apply keeps_seq; [by split|]. intros members.
  apply keeps_for_each. intros id. keeping.
Qed.

(** A save replaces the document whatever the other documents of the session take: the
    memory limit that opening and editing respect is not consulted. *)
Theorem save_ignores_session_limit h payload sid mid did path w :
  is_Some (r_documents (w_rooms w) !! did) →
  doc_Content (document_at (w_rooms (snd (exec (take_saved h payload sid mid did path) w))) did) = vp_Content payload.
Proof.
  intros [doc Hdoc]. unfold take_saved.
  assert (∀ p : thread (option goerr), keeps w_rooms p → ∀ w', w_rooms (snd (exec p w')) = w_rooms w') as Hk.
  { intros p Hp w'. by apply keeps_exec. }
  change (exec (replace_document did (vp_Content payload) ≫= ?f) w) with
    (exec (f tt) (set_rooms (λ r, set_document did (replace (vp_Content payload) (document_at r did)) r) w)).
  rewrite Hk.
  - simpl. unfold document_at at 1. cbn [set_document r_documents].
    rewrite list_lookup_insert_eq; [done|]. by eapply lookup_lt_Some.
  - apply keeps_seq; [by split|]. intros now. apply keeps_seq; [by split|]. intros member.
    apply keeps_seq; [apply Broadcast_keeps|]. done.
Qed.
End RoomsSafe.
