(* ===== verification/RoomsExample.v ===== *)
(** * Collaboration sessions at work

    One concrete environment in which clients authenticate, join a session, open and edit
    a file; the facts of [RoomsSafe] applied to it; and three behaviours of the code that
    its callers would not expect. *)

From stdpp Require Import base gmap sets list strings numbers.
From Stdlib Require Import Ascii.
From S2P Require Import Prelude GoStrings Paths PathsFacts Tokens Collab CollabFacts Threads Socket SocketSafe Rooms RoomsFacts RoomsSafe.
Open Scope Z_scope.

(** ** An environment *)

#[local] Instance ex_world : World := {|
  clock n := 1700000000 * second + Z.of_nat n;
  connection _ _ := Written;
  range A _ l := l;
  range_perm A _ l := Permutation_refl l;
  server_of _ := "srv"%string;
  ExpirationTimeValidator _ _ := true;
  verify_websocket _ token :=
    Some (mkWebsocket (mkPayload (Some 5) None "jti") "user" "srv"
            (if bool_decide (token = "reader"%string) then ["websocket.connect"; "file.read-content"]
             else ["websocket.connect"; "file.read-content"; "file.update"])%string "websocket" "" None) |}.
#[local] Instance ex_ops : ServerOps := {|
  IsSuspended _ _ := false; environment_State _ _ := "running"%string; IsAttached _ _ := Some true;
  IsRunning _ _ := true; Readlog _ _ := Ok []; SendCommand_result _ _ := None; HandlePowerAction_result _ _ := None;
  onAuthenticated _ _ := None; IsInstalling _ _ := false; IsTransferring _ _ := false; Proc _ _ := EmptyString;
  import_status _ _ := EmptyString; error_id _ := EmptyString; context_err _ _ := None |}.
#[local] Instance ex_rate : RateLimiter unit := {| rate_New _ _ := tt; rate_Allow _ _ := (true, tt) |}.
#[local] Instance ex_unicode : UnicodeTables :=
  {| unicode_lower s := s; unicode_upper s := s; unicode_trim s := s |}.

Definition ex_user : User := mkUser "" "Ann" "" "".
Definition ex_edit : TextEdit := mkEdit 0 0 [33] EmptyString 0.
#[local] Instance ex_json : Json := {|
  unmarshal_join token := Some (mkJoin (mkInfo "ABCDEFGH" "" "" "" 0 0 token 0) ex_user);
  unmarshal_file path := Some (mkFile "abcd-efgh" path);
  unmarshal_code code := Some code;
  unmarshal_presence path := Some (mkPresence "abcdefgh" path 0 5 "");
  unmarshal_patch path := Some (mkPatch "abcdefgh" path [ex_edit] 1 1 1);
  unmarshal_snapshot path := Some (mkSnapshot "abcdefgh" path [33; 34] 1 1 1);
  unmarshal_saved path := Some (mkSaved "abcdefgh" path [33; 34] 1);
  unmarshal_check path := Some (mkCheck path "r");
  unmarshal_external path := Some (mkExternal path ex_user) |}.
(** A token of the Panel: its name says the mode and how long the session lasts. *)
#[local] Instance ex_panel : Panel := {|
  verify_collab _ token :=
    if bool_decide (token = "edit"%string)
    then Some (mkCollabToken "srv" "user" true "ABCD EFGH" "user" "edit" 2 1000 1700000100)
    else if bool_decide (token = "view"%string)
    then Some (mkCollabToken "srv" "user" true "ABCD EFGH" "user" "view" 2 1000 1700009999)
    else None;
  file_of _ _ path :=
    if bool_decide (path = "/dir/a.txt"%string) then Some (mkOpened false 2 (Some "hi"%string)) else None |}.

Definition ops := list RuneOps.unit_op.
Abbreviation ex_wd := (world unit (rooms ops) body).
Definition native (e : string) : bool := HasPrefix e "file collab ".
Definition message (h event arg : string) : prog ex_wd unit :=
  handleMessage HandleBetterFilesCollaboration (λ _ _, None) native h (mkMessage event [arg]).
Definition d0 : denials := mkDenials 0 ∅ ∅.

Definition ex_requests : list (prog ex_wd unit) :=
  [message "a" "auth" "writer"; message "b" "auth" "writer";
   message "a" "betterfiles:collab:join" "edit"; message "b" "betterfiles:collab:join" "edit";
   message "a" "betterfiles:collab:file:open" "dir\a.txt"; message "b" "betterfiles:collab:patch" "/dir//a.txt"].
Definition in_turn (ps : list (prog ex_wd unit)) (w : ex_wd) : ex_wd := foldl (λ w p, snd (exec p w)) w ps.
Definition ex_after : ex_wd := in_turn ex_requests (rooms_start d0).

Lemma message_entry h e arg : native e = false → entry native (message h e arg).
Proof. intros. by apply start_message. Qed.

Lemma in_turn_running ps w :
  Forall (entry native) ps → running native d0 w → running native d0 (in_turn ps w).
Proof.
  revert w. induction ps as [|p ps IH]; intros w Hps Hw; [done|]. inversion Hps; subst.
  apply IH; [done|]. by apply running_exec.
Qed.
Lemma ex_after_running : running native d0 ex_after.
Proof.
  apply in_turn_running; [|apply running_start]. by repeat (constructor; [by apply message_entry|]).
Qed.
Definition ex_session : Session := session_at (w_rooms ex_after) 0.
Lemma ex_session_at : r_sessions (w_rooms ex_after) !! 0%nat = Some ex_session.
Proof. vm_compute. reflexivity. Qed.

(** Two members, one document, as the file with the edit of the second member. *)
Lemma session_limits_witness :
  running native d0 ex_after ∧ size (ss_Members ex_session) = 2%nat ∧ size (ss_Documents ex_session) = 1%nat
  ∧ Z.of_nat (size (ss_Members ex_session)) ≤ ss_MaxUsers ex_session ≤ 20.
Proof.
  split; [exact ex_after_running|]. split; [vm_compute; reflexivity|]. split; [vm_compute; reflexivity|].
  exact (proj1 (session_limits native d0 ex_after 0 ex_session ex_after_running ex_session_at)).
Defined.
Lemma sessions_confined_witness :
  running native d0 ex_after ∧ is_Some (ss_Members ex_session !! "b"%string)
  ∧ ∀ x sid, x ∈ w_sent ex_after → sid ∈ sn_sessions x →
      ∃ s, r_sessions (w_rooms ex_after) !! sid = Some s ∧ ss_ServerUUID s = server_of (sn_to x).
Proof.
  split; [exact ex_after_running|]. split; [eexists; vm_compute; reflexivity|].
  intros x sid Hx. exact (proj1 (proj1 (proj2 (sessions_confined native d0 ex_after ex_after_running)) x Hx) sid).
Defined.

(** A session for viewing: a client that may write opens the file and tries to edit it. *)
Definition ex_view : ex_wd := in_turn
  [message "a" "auth" "writer"; message "a" "betterfiles:collab:join" "view";
   message "a" "betterfiles:collab:file:open" "/dir/a.txt"; message "a" "betterfiles:collab:patch" "/dir/a.txt";
   message "a" "betterfiles:collab:file:saved" "/dir/a.txt"] (rooms_start d0).
Lemma ex_view_running : running native d0 ex_view.
Proof.
  apply in_turn_running; [|apply running_start]. by repeat (constructor; [by apply message_entry|]).
Qed.
Definition ex_view_session : Session := session_at (w_rooms ex_view) 0.
Lemma ex_view_facts :
  r_sessions (w_rooms ex_view) !! 0%nat = Some ex_view_session ∧ ss_Mode ex_view_session = "view"%string
  ∧ ss_Documents ex_view_session !! "/dir/a.txt"%string = Some 0%nat
  ∧ r_documents (w_rooms ex_view) !! 0%nat = Some (newBetterFilesCollabDocument [104; 105]).
Proof. vm_compute. done. Qed.
Lemma view_sessions_unchanged_witness :
  running native d0 ex_view ∧ doc_Revision (newBetterFilesCollabDocument (op:=ops) [104; 105]) = 0
  ∧ doc_History (newBetterFilesCollabDocument (op:=ops) [104; 105]) = [].
Proof.
  destruct ex_view_facts as (Hs & Hm & Hp & Hd). split; [exact ex_view_running|].
  apply (view_sessions_unchanged native d0 ex_view 0 ex_view_session "/dir/a.txt" 0 _ ex_view_running Hs);
    [rewrite Hm; discriminate|exact Hp|exact Hd].
Defined.

(** ** Behaviours *)

(** The last member leaves while another client joins: the joining client finds the
    session before it is removed from the registry, and becomes a member of a session
    that no request can find any more. *)
Definition ex_race : list nat :=
  replicate 60 0%nat ++ replicate 60 1%nat ++ replicate 90 2%nat ++ replicate 2 4%nat
  ++ replicate 90 3%nat ++ replicate 60 4%nat.
Definition ex_racing : list (prog ex_wd unit) :=
  [message "a" "auth" "writer"; message "b" "auth" "writer"; message "a" "betterfiles:collab:join" "edit";
   message "b" "betterfiles:collab:join" "edit"; disconnected "ABCD-EFGH" "a"].
Definition ex_raced : ex_wd := snd (schedule ex_race (ex_racing, rooms_start d0)).
Theorem join_lost_in_race :
  running native d0 ex_raced ∧ r_registry (w_rooms ex_raced) = ∅
  ∧ is_Some (ss_Members (session_at (w_rooms ex_raced) 0) !! "b"%string)
  ∧ fst (exec (betterFilesCollabMemberFor "b" "ABCD-EFGH") ex_raced) = None.
Proof.
  split; [|vm_compute; eauto]. apply running_schedule.
  repeat (constructor; [by apply message_entry|]). constructor; [apply start_disconnect|constructor].
Qed.

(** A join that is refused because the session has another mode has already prolonged
    the session. *)
Definition ex_refused : ex_wd :=
  in_turn [message "b" "auth" "writer"; message "b" "betterfiles:collab:join" "view"] ex_after.
Theorem refused_join_prolongs :
  running native d0 ex_refused
  ∧ ss_Members (session_at (w_rooms ex_refused) 0) !! "b"%string = None
  ∧ ss_ExpiresAt (session_at (w_rooms ex_after) 0) = time_Unix 1700000100
  ∧ ss_ExpiresAt (session_at (w_rooms ex_refused) 0) = time_Unix 1700009999
  ∧ fmap (M:=option) sn_message (list.last (w_sent ex_refused))
    = Some (mkMessage CollabErrorEvent (Body (BError "collaboration session metadata changed"))).
Proof.
  split; [|vm_compute; done].
  apply in_turn_running; [|apply ex_after_running]. by repeat (constructor; [by apply message_entry|]).
Qed.

(** A client without the importer's permission is sent the importer's events. *)
Theorem importer_events_ungated :
  let w := in_turn [message "a" "auth" "reader"] (rooms_start d0) : ex_wd in
  let importer := mkMessage "serverimporter:progress" (Strings []) in
  fst (exec (holds_permission "a" PermissionReceiveImporter) w) = false
  ∧ fmap (M:=option) sn_message (list.last (w_sent (snd (exec (SendJson "a" [] importer) w)))) = Some importer.
Proof. vm_compute. done. Qed.
