(* ===== verification/Native.v ===== *)
(** * Native file collaboration (router/websocket/file_collaboration_yjs.go)

    The second collaboration protocol: one session per file, whose text is a shared
    document of a CRDT library that the clients update directly.  A session lives in a
    registry by server and path, with its subscribers; updates arrive in chunks, are
    applied to the document and relayed; a save writes the text to the file.  The CRDT
    library, SHA-256, the file system and the history are parameters.

    Threads are as in [Rooms].  [saveMu], which only keeps two saves of one session from
    running at once, is left out: more interleavings are possible here than in the
    code. *)

From stdpp Require Import base gmap sets list strings numbers.
From Stdlib Require Import Ascii.
From S2P Require Import Prelude GoStrings Paths Tokens Collab Threads Socket Rooms.
Open Scope Z_scope.

(** ** Limits *)

Definition fileCollabMaxAwarenessBytes : Z := 16 * 1024.
Definition fileCollabMaxSessionsPerServer : nat := 32.
Definition fileCollabMaxSessionsPerSocket : Z := 32.
Definition fileCollabDefaultFileSizeCap : Z := 10 * 1024 * 1024.
Definition fileCollabMinimumFileSizeCap : Z := 1 * 1024 * 1024.
Definition fileCollabMaximumFileSizeCap : Z := 64 * 1024 * 1024.

Definition normalizeNativeFileCollaborationFileSizeCap (configured : Z) : Z :=
  if configured =? 0 then fileCollabDefaultFileSizeCap
  else
    let configured := if configured <=? 64 then wrapu64 (configured * (1024 * 1024)) else configured in
    if configured <? fileCollabMinimumFileSizeCap then fileCollabMinimumFileSizeCap
    else if fileCollabMaximumFileSizeCap <? configured then fileCollabMaximumFileSizeCap
    else wrap64 configured.

(** ** Text *)

(** The first [n] bytes. *)
Definition first_bytes (n : nat) (s : string) : string := String.substring 0 n s.
(** The loop drops a byte at a time until the rest is valid; the empty string is. *)
Fixpoint drop_invalid (n : nat) (s : string) : string :=
  match n with
  | O => EmptyString
  | S n' => if ValidUTF8 (first_bytes n s) then first_bytes n s else drop_invalid n' s
  end.
Definition nativeFileCollabTruncateUTF8 (content : string) (maxBytes : Z) : string :=
  if strlen content <=? maxBytes then content
  else drop_invalid (Z.to_nat maxBytes) content.

(** [encoding/base64.StdEncoding] *)
Definition char64 (n : Z) : ascii :=
  ascii_of_N (Z.to_N (if n <? 26 then 65 + n else if n <? 52 then 71 + n else if n <? 62 then n - 4
                      else if n =? 62 then 43 else 47)).
Definition value64 (c : ascii) : option Z :=
  let b := byteZ c in
  if (65 <=? b) && (b <=? 90) then Some (b - 65)
  else if (97 <=? b) && (b <=? 122) then Some (b - 71)
  else if (48 <=? b) && (b <=? 57) then Some (b + 4)
  else if b =? 43 then Some 62 else if b =? 47 then Some 63 else None.
Definition byte_char (b : Z) : ascii := ascii_of_N (Z.to_N b).
Definition pad64 : ascii := "="%char.
Fixpoint EncodeToString (s : string) : string :=
  match s with
  | EmptyString => EmptyString
  | String a EmptyString =>
      let v := byteZ a * 16 in
      String (char64 (v / 64)) (String (char64 (v mod 64)) (String pad64 (String pad64 EmptyString)))
  | String a (String b EmptyString) =>
      let v := (byteZ a * 256 + byteZ b) * 4 in
      String (char64 (v / 4096)) (String (char64 (v / 64 mod 64)) (String (char64 (v mod 64)) (String pad64 EmptyString)))
  | String a (String b (String c rest)) =>
      let v := byteZ a * 65536 + byteZ b * 256 + byteZ c in
      String (char64 (v / 262144)) (String (char64 (v / 4096 mod 64))
        (String (char64 (v / 64 mod 64)) (String (char64 (v mod 64)) (EncodeToString rest))))
  end.
(** Line breaks are skipped; the last group may be padded, with any spare bits. *)
Fixpoint without_breaks (s : string) : string :=
  match s with
  | EmptyString => EmptyString
  | String c s' =>
      if (byteZ c =? 10) || (byteZ c =? 13) then without_breaks s' else String c (without_breaks s')
  end.
Fixpoint decode64 (s : string) : option string :=
  match s with
  | EmptyString => Some EmptyString
  | String a (String b (String c (String d rest))) =>
      match value64 a, value64 b with
      | Some va, Some vb =>
          match value64 c with
          | Some vc =>
              match value64 d with
              | Some vd =>
                  let v := va * 262144 + vb * 4096 + vc * 64 + vd in
                  match decode64 rest with
                  | Some r => Some (String (byte_char (v / 65536)) (String (byte_char (v / 256 mod 256))
                                      (String (byte_char (v mod 256)) r)))
                  | None => None
                  end
              | None =>
                  if Ascii.eqb d pad64 && bool_decide (rest = EmptyString) then
                    let v := va * 4096 + vb * 64 + vc in
                    Some (String (byte_char (v / 1024)) (String (byte_char (v / 4 mod 256)) EmptyString))
                  else None
              end
          | None =>
              if Ascii.eqb c pad64 && Ascii.eqb d pad64 && bool_decide (rest = EmptyString)
              then Some (String (byte_char ((va * 64 + vb) / 16)) EmptyString) else None
          end
      | _, _ => None
      end
  | _ => None
  end.
Definition DecodeString (s : string) : option string := decode64 (without_breaks s).

(** ** Parameters *)

(** The CRDT library (github.com/reearth/ygo/crdt): a new document, inserting at the start
    of its text "content", that text, its whole state as an update, applying one.  The
    library changes a document in place; [None] is an update it refuses, which is assumed
    to leave the document as it was (the repository's test of malformed updates checks
    that for its text). *)
Class Crdt (D : Type) := {
  crdt_New : D;
  crdt_Insert : string → D → D;
  crdt_ToString : D → string;
  crdt_EncodeStateAsUpdate : D → string;
  crdt_ApplyUpdateV1 : D → string → option D;
}.
Class CrdtLaws (D : Type) `{Crdt D} := {
  crdt_new_text : crdt_ToString crdt_New = EmptyString;
  crdt_insert_text s : crdt_ToString (crdt_Insert s crdt_New) = s;
}.

Class NativeOps := {
  sha256 : string → string;
  (** [System.FileCollaboration.FileSizeCap], read at every call.  It is not among the settings
      the Panel may replace at run time, so that it has one value. *)
  configured_cap : Z;
  configured_enabled : bool;                       (* System.FileCollaboration.Enabled *)
  IsIgnored : nat → string → string → bool;
  file_at : nat → string → string → option opened_file;
  Write_result : nat → string → string → option goerr;
  ShouldRecordFileHistory : string → Z → bool;
  RecordFileRevision_result : nat → string → string → result goerr Z;
}.

(** ** State *)

Record Participant := mkParticipant { pt_User : string; pt_Name : string; pt_Avatar : option string }.
Record NMember := mkNMember { nm_user : Participant; nm_pending : string }.
Definition set_pending (p : string) (m : NMember) : NMember := mkNMember (nm_user m) p.

(** What is marshalled: the participants, and the result of a save. *)
Inductive nbody :=
| NStrings (args : list string)
| NSync (path state : string) (dirty : bool)
| NParticipants (path : string) (l : list Participant)
| NSaved (path user : string) (revision : option Z).

Section Native.
Context {D : Type} `{Crdt D} {L : Type} `{World} `{UnicodeTables} `{NativeOps}.

Record NSession := mkNSession {
  ns_serverUUID : string; ns_path : string; ns_doc : D; ns_dirty : bool; ns_diskHash : string;
  ns_applied : Z; ns_members : gmap string NMember; ns_generation : Z }.
Definition set_doc (d : D) (dirty : bool) (hash : string) (applied : Z) (s : NSession) : NSession :=
  mkNSession (ns_serverUUID s) (ns_path s) d dirty hash applied (ns_members s) (ns_generation s).
Definition set_members (f : gmap string NMember → gmap string NMember) (s : NSession) : NSession :=
  mkNSession (ns_serverUUID s) (ns_path s) (ns_doc s) (ns_dirty s) (ns_diskHash s) (ns_applied s)
    (f (ns_members s)) (ns_generation s).
(** A counter of 64 bits. *)
Definition next_generation (s : NSession) : NSession :=
  mkNSession (ns_serverUUID s) (ns_path s) (ns_doc s) (ns_dirty s) (ns_diskHash s) (ns_applied s)
    (ns_members s) (wrapu64 (ns_generation s + 1)).
Definition ns_text (s : NSession) : string := crdt_ToString (ns_doc s).

Record natives := mkNatives { n_registry : gmap string nat; n_sessions : list NSession }.
Definition set_nregistry (f : gmap string nat → gmap string nat) (n : natives) : natives :=
  mkNatives (f (n_registry n)) (n_sessions n).
Definition set_nsession (sid : nat) (f : NSession → NSession) (n : natives) : natives :=
  mkNatives (n_registry n) (alter f sid (n_sessions n)).
Definition new_nsession (s : NSession) (n : natives) : natives := mkNatives (n_registry n) (n_sessions n ++ [s]).
Definition no_nsession : NSession := mkNSession "" "" crdt_New false "" 0 ∅ 0.
Definition nsession_at (n : natives) (sid : nat) : NSession := default no_nsession (n_sessions n !! sid).

Abbreviation wd := (world L natives nbody).
Abbreviation thread := (prog wd).
Abbreviation error := (option goerr).

(** What a request answers: nothing, or the text of an error. *)
Abbreviation answer := (result string unit).

Definition natives_of {A} (f : natives → A) : thread A := gets (λ w, f (w_rooms w)).
Definition on_session {A} (sid : nat) (f : NSession → A * NSession) : thread A :=
  atomic (λ w, let '(a, s) := f (nsession_at (w_rooms w) sid) in (a, set_rooms (set_nsession sid (λ _, s)) w)).
Definition nranged {A} (f : natives → list A) : thread (list A) :=
  atomic (λ w, (range (w_ticks w) (f (w_rooms w)), tick w)).

Definition NativeFileCollaborationFileSizeCap : Z := normalizeNativeFileCollaborationFileSizeCap configured_cap.
Definition nativeFileCollabKey (serverUUID path : string) : string :=
  (serverUUID +:+ String nul_byte path)%string.

(** ** Messages *)

Definition nsend (h : string) (about : list nat) (event : string) (b : nbody) : thread error :=
  SendJson h about (mkMessage event (Body b)).
Definition nativeFileCollabError (h path message : string) : thread error :=
  nsend h [] "file collab error" (NStrings [path; message]).
Definition nmember_ids (except : string) (sid : nat) (n : natives) : list string :=
  filter (λ id, id ≠ except) (fst <$> map_to_list (ns_members (nsession_at n sid))).
Definition nativeFileCollabBroadcast (sid : nat) (except event : string) (b : nbody) : thread unit :=
  handlers ← nranged (nmember_ids except sid);
  for_each (λ id, _ ← nsend id [sid] event b; mret ()) handlers.

(** One participant for each user, the first that the range meets. *)
Fixpoint distinct_users (seen : list string) (l : list NMember) : list Participant :=
  match l with
  | [] => []
  | m :: l' =>
      if bool_decide (pt_User (nm_user m) ∈ seen) then distinct_users seen l'
      else nm_user m :: distinct_users (pt_User (nm_user m) :: seen) l'
  end.
Definition nativeFileCollabBroadcastParticipants (sid : nat) : thread unit :=
  members ← nranged (λ n, snd <$> map_to_list (ns_members (nsession_at n sid)));
  path ← natives_of (λ n, ns_path (nsession_at n sid));
  nativeFileCollabBroadcast sid EmptyString "file collab participants" (NParticipants path (distinct_users [] members)).

(** ** Files and documents *)

Definition nativeFileCollabReadFile (h path : string) : thread (result string string) :=
  let fileSizeCap := NativeFileCollaborationFileSizeCap in
  ignored ← at_moment (λ n, IsIgnored n (server_of h) path);
  if ignored : bool then mret (Err "file not found"%string) else
  file ← at_moment (λ n, file_at n (server_of h) path);
  match file with
  | None => mret (Err "file not found"%string)
  | Some file =>
      if of_IsDir file then mret (Err "file is not a file"%string)
      else if fileSizeCap <? of_Size file then mret (Err "file is too large for collaborative editing"%string)
      else match of_Content file with
      | None => mret (Err "file not found"%string)
      | Some bytes =>
          let content := limited_bytes (fileSizeCap + 1) bytes in
          if fileSizeCap <? strlen content then mret (Err "file is too large for collaborative editing"%string)
          else if negb (ValidUTF8 content) then mret (Err "file is not editable as text"%string)
          else mret (Ok content)
      end
  end.

Definition new_text (content : string) : D :=
  if bool_decide (content = EmptyString) then crdt_New else crdt_Insert content crdt_New.
Definition resetDocument (content : string) (s : NSession) : NSession :=
  set_doc (new_text content) (ns_dirty s) (sha256 content) 0 s.
Definition nativeFileCollabNewSession (serverUUID path content : string) : NSession :=
  resetDocument content (mkNSession serverUUID path crdt_New false EmptyString 0 ∅ 0).

(** The answer, and whether everybody has to synchronise again.  An update the library
    refuses leaves the session as it was. *)
Definition applyUpdate (update : string) (s : NSession) : result string bool * NSession :=
  match crdt_ApplyUpdateV1 (ns_doc s) update with
  | None => (Err "invalid update"%string, s)
  | Some d =>
      let content := crdt_ToString d in
      let applied := wrap64 (ns_applied s + strlen update) in
      let fileSizeCap := NativeFileCollaborationFileSizeCap in
      let s := set_doc d true (ns_diskHash s) applied s in
      if negb ((fileSizeCap <? strlen content) || (fileSizeCap * 8 <? applied)) then (Ok false, s)
      else
        let content := if fileSizeCap <? strlen content
                       then nativeFileCollabTruncateUTF8 content fileSizeCap else content in
        let s := resetDocument content s in
        (Ok true, set_doc (ns_doc s) true (ns_diskHash s) (ns_applied s) s)
  end.

(** ** Subscribing *)

Definition nativeFileCollabHasMember (h : string) (sid : nat) : thread bool :=
  natives_of (λ n, bool_decide (is_Some (ns_members (nsession_at n sid) !! h))).
Definition server_sessions (u : string) (n : natives) : list nat :=
  filter (λ sid, ns_serverUUID (nsession_at n sid) = u) (snd <$> map_to_list (n_registry n)).
Fixpoint count_members (h : string) (sids : list nat) : thread Z :=
  match sids with
  | [] => mret 0
  | sid :: sids' =>
      has ← nativeFileCollabHasMember h sid;
      rest ← count_members h sids';
      mret (if has : bool then 1 + rest else rest)
  end.
Definition nativeFileCollabSubscriptionCount (h : string) : thread Z :=
  sessions ← nranged (server_sessions (server_of h));
  count_members h sessions.

(** Under the registry's lock: the session of the file, made if there is none. *)
Definition find_or_make (u path content : string) (n : natives) : result string nat * natives :=
  let key := nativeFileCollabKey u path in
  match n_registry n !! key with
  | Some sid => (Ok sid, n)
  | None =>
      if (fileCollabMaxSessionsPerServer <=? length (server_sessions u n))%nat
      then (Err "too many collaborative sessions open on this server"%string, n)
      else let sid := length (n_sessions n) in
           (Ok sid, set_nregistry (<[key := sid]>) (new_nsession (nativeFileCollabNewSession u path content) n))
  end.

Definition nativeFileCollabSafeAvatar (avatar : option string) : option string :=
  match avatar with
  | None => None
  | Some a => let value := betterFilesCollabSafeImage a in
              if bool_decide (value = EmptyString) then None else Some value
  end.
Definition participant (jwt : WebsocketPayload) : Participant :=
  let name := TrimSpace (ws_UserName jwt) in
  let name := if bool_decide (name = EmptyString) then ws_UserUUID jwt else name in
  mkParticipant (ws_UserUUID jwt) (betterFilesCollabSafeText name 80) (nativeFileCollabSafeAvatar (ws_UserAvatar jwt)).

(** Under the session's lock: a clean session whose file has changed starts again. *)
Definition enter (h content : string) (p : Participant) (s : NSession) : (string * bool) * NSession :=
  let s := next_generation s in
  let s := if negb (ns_dirty s) && negb (bool_decide (ns_diskHash s = sha256 content))
           then resetDocument content s else s in
  let s := set_members (<[h := mkNMember p EmptyString]>) s in
  ((crdt_EncodeStateAsUpdate (ns_doc s), ns_dirty s), s).
Definition nativeFileCollabSubscribe (h path : string) : thread (result string error) :=
  let key := nativeFileCollabKey (server_of h) path in
  count ← nativeFileCollabSubscriptionCount h;
  allowed ← (if fileCollabMaxSessionsPerSocket <=? count then
               existing ← natives_of (λ n, n_registry n !! key);
               match existing with
               | None => mret false
               | Some sid => nativeFileCollabHasMember h sid
               end
             else mret true);
  if negb allowed then mret (Err "too many collaborative sessions open on this connection"%string) else
  content ← nativeFileCollabReadFile h path;
  match content with
  | Err e => mret (Err e)
  | Ok content =>
      found ← atomic (λ w, let '(res, n) := find_or_make (server_of h) path content (w_rooms w) in
                           (res, set_rooms (λ _, n) w));
      match found with
      | Err e => mret (Err e)
      | Ok sid =>
          jwt ← GetJwt h;
          match jwt with
          | None => mret (Err "missing permission"%string)    (* a token is never removed *)
          | Some jwt =>
              state ← on_session sid (enter h content (participant jwt));
              err ← nsend h [sid] "file collab sync"
                      (NSync path (EncodeToString (fst state)) (snd state));
              match err with
              | Some e => mret (Ok (Some e))
              | None => _ ← nativeFileCollabBroadcastParticipants sid; mret (Ok None)
              end
          end
      end
  end.

(** ** Leaving *)

(** The generation at which an empty session is left to be removed. *)
Definition leave (h : string) (s : NSession) : option (option Z) * NSession :=
  match ns_members s !! h with
  | None => (None, s)
  | Some _ =>
      let s := next_generation (set_members (delete h) s) in
      (Some (if bool_decide (ns_members s = ∅) then Some (ns_generation s) else None), s)
  end.
Definition nativeFileCollabRemoveMember (sid : nat) (h : string) : thread (option Z) :=
  left_ ← on_session sid (leave h);
  match left_ with
  | None => mret None
  | Some (Some generation) => mret (Some generation)
  | Some None => _ ← nativeFileCollabBroadcastParticipants sid; mret None
  end.
(** The timer of thirty seconds: removes the session if nothing has happened since.  The
    document is destroyed too, which tells the library to let go of its observers; no
    request finds the session afterwards, but a client that is just entering it
    ([subscribe_lost_in_race]) goes on with a document in a state the library does not
    describe, which is left out here. *)
Definition teardown (sid : nat) (generation : Z) : thread unit :=
  modify (set_rooms (λ n,
    let s := nsession_at n sid in
    let key := nativeFileCollabKey (ns_serverUUID s) (ns_path s) in
    if bool_decide (ns_members s = ∅) && (ns_generation s =? generation)
       && bool_decide (n_registry n !! key = Some sid)
    then set_nregistry (delete key) n else n)).
Definition nativeFileCollabUnsubscribe (h path : string) : thread unit :=
  found ← natives_of (λ n, n_registry n !! nativeFileCollabKey (server_of h) path);
  match found with
  | None => mret ()
  | Some sid => _ ← nativeFileCollabRemoveMember sid h; mret ()
  end.
Definition nativeFileCollabDisconnect (h : string) : thread unit :=
  sessions ← nranged (server_sessions (server_of h));
  for_each (λ sid, _ ← nativeFileCollabRemoveMember sid h; mret ()) sessions.

(** ** Updates *)

Definition nativeFileCollabSubscribedSession (h path : string) : thread (option (nat * NMember)) :=
  found ← natives_of (λ n, n_registry n !! nativeFileCollabKey (server_of h) path);
  match found with
  | None => mret None
  | Some sid =>
      member ← natives_of (λ n, ns_members (nsession_at n sid) !! h);
      mret (match member with Some m => Some (sid, m) | None => None end)
  end.

Definition not_subscribed : string := "not subscribed to this file".
(** A chunk is added to what the member has sent; with the last one the whole update is
    taken. *)
Definition take_chunk (h : string) (finished : bool) (chunk : string) (s : NSession)
    : result string (option string) * NSession :=
  match ns_members s !! h with
  | None => (Err not_subscribed, s)
  | Some m =>
      if NativeFileCollaborationFileSizeCap <? strlen (nm_pending m) + strlen chunk
      then (Err "update is too large"%string, set_members (<[h := set_pending EmptyString m]>) s)
      else
        let pending := (nm_pending m +:+ chunk)%string in
        if negb finished then (Ok None, set_members (<[h := set_pending pending m]>) s)
        else
          let s := set_members (<[h := set_pending EmptyString m]>) s in
          if bool_decide (pending = EmptyString) then (Err "invalid collaborative editing request"%string, s)
          else (Ok (Some pending), s)
  end.
Definition nativeFileCollabApplyUpdate (h path : string) (finished : bool) (encoded : string) : thread answer :=
  found ← nativeFileCollabSubscribedSession h path;
  match found with
  | None => mret (Err not_subscribed)
  | Some (sid, _) =>
      match DecodeString encoded with
      | None => mret (Err "invalid update encoding"%string)
      | Some chunk =>
          taken ← on_session sid (take_chunk h finished chunk);
          match taken with
          | Err e => mret (Err e)
          | Ok None => mret (Ok ())
          | Ok (Some update) =>
              applied ← on_session sid (applyUpdate update);
              match applied with
              | Err e => mret (Err e)
              | Ok true =>
                  _ ← nativeFileCollabBroadcast sid EmptyString "file collab error" (NStrings [path; "resync"%string]);
                  mret (Ok ())
              | Ok false =>
                  _ ← nativeFileCollabBroadcast sid h "file collab update" (NStrings [path; EncodeToString update]);
                  mret (Ok ())
              end
          end
      end
  end.

Definition nativeFileCollabRelayAwareness (h path payload : string) : thread answer :=
  found ← nativeFileCollabSubscribedSession h path;
  match found with
  | None => mret (Err not_subscribed)
  | Some (sid, _) =>
      match DecodeString payload with
      | None => mret (Err "invalid awareness update"%string)
      | Some decoded =>
          if fileCollabMaxAwarenessBytes <? strlen decoded then mret (Err "invalid awareness update"%string)
          else _ ← nativeFileCollabBroadcast sid h "file collab awareness" (NStrings [path; payload]); mret (Ok ())
      end
  end.

(** ** Saving *)

(** After the file is written: the session is clean if its text is still the saved one. *)
Definition saved (content : string) (s : NSession) : unit * NSession :=
  (tt, set_doc (ns_doc s) (negb (bool_decide (ns_text s = content))) (sha256 content) (ns_applied s) s).
Definition nativeFileCollabSave (h path : string) : thread answer :=
  found ← nativeFileCollabSubscribedSession h path;
  match found with
  | None => mret (Err not_subscribed)
  | Some (sid, member) =>
      content ← natives_of (λ n, ns_text (nsession_at n sid));
      before ← nativeFileCollabReadFile h path;
      match before with
      | Err e => mret (Err e)
      | Ok before =>
          _ ← effectful (EWrite (server_of h) path content);
          failed ← at_moment (λ n, Write_result n (server_of h) path);
          match failed with
          | Some e => mret (Err ("failed to write file: " +:+ error_text e)%string)
          | None =>
              revision ← (if ShouldRecordFileHistory path (strlen content) then
                            _ ← effectful (ERevision (server_of h) path before content (pt_User (nm_user member)));
                            res ← at_moment (λ n, RecordFileRevision_result n (server_of h) path);
                            mret (match res with Ok id => if 0 <? id then Some id else None | Err _ => None end)
                          else mret None);
              _ ← on_session sid (saved content);
              _ ← nativeFileCollabBroadcast sid EmptyString "file collab saved"
                    (NSaved path (pt_User (nm_user member)) revision);
              mret (Ok ())
          end
      end
  end.

(** ** The protocol *)

Definition FileCollabSubscribeEvent : string := "file collab subscribe".
Definition FileCollabUnsubscribeEvent : string := "file collab unsubscribe".
Definition FileCollabUpdateEvent : string := "file collab update".
Definition FileCollabAwarenessEvent : string := "file collab awareness".
Definition FileCollabSaveEvent : string := "file collab save".
Definition IsNativeFileCollaborationEvent (event : string) : bool :=
  bool_decide (event ∈ [FileCollabSubscribeEvent; FileCollabUnsubscribeEvent; FileCollabUpdateEvent;
                        FileCollabAwarenessEvent; FileCollabSaveEvent]).
Definition nativeFileCollabValidArgs (m : Message (list string)) : bool :=
  let e := msg_Event m in
  if bool_decide (e ∈ [FileCollabSubscribeEvent; FileCollabUnsubscribeEvent; FileCollabSaveEvent])
  then (length (msg_Args m) =? 1)%nat
  else if bool_decide (e = FileCollabUpdateEvent) then
    match msg_Args m with
    | [_; last_; chunk] => (bool_decide (last_ = "0"%string) || bool_decide (last_ = "1"%string))
                           && negb (bool_decide (chunk = EmptyString))
    | _ => false
    end
  else if bool_decide (e = FileCollabAwarenessEvent) then
    match msg_Args m with [_; payload] => negb (bool_decide (payload = EmptyString)) | _ => false end
  else false.

Definition answered (h path : string) (a : answer) : thread error :=
  match a with Ok _ => mret None | Err e => nativeFileCollabError h path e end.
Definition perform_request (h path : string) (m : Message (list string)) : thread error :=
  let e := msg_Event m in
  let arg i := default EmptyString (msg_Args m !! i) in
  if bool_decide (e = FileCollabSubscribeEvent) then
    a ← nativeFileCollabSubscribe h path;
    match a with
    | Ok None => mret None
    | Ok (Some e) => nativeFileCollabError h path (error_text e)
    | Err e => nativeFileCollabError h path e
    end
  else if bool_decide (e = FileCollabUnsubscribeEvent) then _ ← nativeFileCollabUnsubscribe h path; mret None
  else if bool_decide (e = FileCollabUpdateEvent) then
    a ← nativeFileCollabApplyUpdate h path (bool_decide (arg 1%nat = "1"%string)) (arg 2%nat); answered h path a
  else if bool_decide (e = FileCollabAwarenessEvent) then
    a ← nativeFileCollabRelayAwareness h path (arg 1%nat); answered h path a
  else a ← nativeFileCollabSave h path; answered h path a.

(** The goroutine that waits for the end of the connection is
    [nativeFileCollabDisconnect]. *)
Definition HandleNativeFileCollaboration (h : string) (m : Message (list string)) : option (thread error) :=
  if negb (IsNativeFileCollaborationEvent (msg_Event m)) then None else Some (
  if negb configured_enabled then nativeFileCollabError h EmptyString "collaborative editing is disabled" else
  let first := default EmptyString (head (msg_Args m)) in
  if negb (nativeFileCollabValidArgs m) then
    nativeFileCollabError h (default first (betterFilesCollabPath first)) "invalid collaborative editing request"
  else match betterFilesCollabPath first with
  | None => nativeFileCollabError h first "file not found"
  | Some path =>
      let required := if bool_decide (msg_Event m = FileCollabUpdateEvent) || bool_decide (msg_Event m = FileCollabSaveEvent)
                      then betterFilesCollabWritePermission else betterFilesCollabReadPermission in
      j ← GetJwt h;
      permitted ← (match j with Some j => can j required | None => mret false end);
      if negb permitted then nativeFileCollabError h path "missing permission" else perform_request h path m
  end).
End Native.
Arguments natives : clear implicits.
