(* ===== verification/NativeFacts.v ===== *)
(** * Correctness of native file collaboration

    Truncating text, base64, the limits of the sessions, and the invariant under any
    interleaving. *)

From stdpp Require Import base gmap sets list strings numbers.
From Stdlib Require Import Ascii.
From S2P Require Import Prelude GoStrings Paths PathsFacts Tokens Collab Threads Socket SocketSafe Rooms RoomsFacts Native.
Open Scope Z_scope.

(** ** The size limit *)

Lemma cap_range configured :
  0 ≤ configured ≤ uint64_max →
  fileCollabMinimumFileSizeCap ≤ normalizeNativeFileCollaborationFileSizeCap configured ≤ fileCollabMaximumFileSizeCap.
Proof.
  unfold normalizeNativeFileCollaborationFileSizeCap, fileCollabMinimumFileSizeCap, fileCollabMaximumFileSizeCap,
    fileCollabDefaultFileSizeCap, uint64_max. intros Hc.
  destruct (configured =? 0); [lia|].
  set (c := if configured <=? 64 then _ else configured).
  destruct (c <? _) eqn:E1; [lia|]. destruct (_ <? c) eqn:E2; [lia|]. apply Z.ltb_ge in E1, E2.
  rewrite wrap64_id by (unfold in_int64, int64_min, int64_max; lia). lia.
Qed.

(** ** Truncation *)

Lemma first_bytes_length n s : (n ≤ String.length s)%nat → String.length (first_bytes n s) = n.
Proof.
  revert s. induction n as [|n IH]; intros s Hn; unfold first_bytes in *; [by destruct s|].
  destruct s as [|c s]; simpl in *; [lia|]. by rewrite IH by lia.
Qed.
Lemma first_bytes_all s : first_bytes (String.length s) s = s.
Proof. unfold first_bytes. induction s as [|c s IH]; [done|]. simpl. by rewrite IH. Qed.

Lemma drop_invalid_spec n s :
  (n ≤ String.length s)%nat →
  ∃ k, (k ≤ n)%nat ∧ drop_invalid n s = first_bytes k s ∧ ValidUTF8 (first_bytes k s) = true
    ∧ ∀ j, (j ≤ n)%nat → ValidUTF8 (first_bytes j s) = true → (j ≤ k)%nat.
Proof.
  induction n as [|n IH]; intros Hn.
  - exists 0%nat. split_and!; try done; try lia; by destruct s.
  - cbn [drop_invalid]. destruct (ValidUTF8 (first_bytes (S n) s)) eqn:E.
    + exists (S n). split_and!; try done; lia.
    + destruct IH as (k & Hk & Hd & Hv & Hmax); [lia|]. exists k. split_and!; [lia|done|done|].
      intros j Hj Hvj. destruct (decide (j = S n)) as [->|]; [congruence|]. apply Hmax; [lia|done].
Qed.

(** Truncating a valid text to a number of bytes keeps its longest prefix that fits
    and is still valid UTF-8: the result is such a prefix, and no longer one exists. *)
Theorem truncate_longest content max :
  0 ≤ max → ValidUTF8 content = true →
  ∃ k, nativeFileCollabTruncateUTF8 content max = first_bytes k content
    ∧ (k ≤ String.length content)%nat ∧ Z.of_nat k ≤ max
    ∧ ValidUTF8 (first_bytes k content) = true
    ∧ ∀ j, (j ≤ String.length content)%nat → Z.of_nat j ≤ max → ValidUTF8 (first_bytes j content) = true → (j ≤ k)%nat.
Proof.
  intros Hmax Hv. unfold nativeFileCollabTruncateUTF8, strlen. destruct (_ <=? max) eqn:E.
  - apply Z.leb_le in E. exists (String.length content). rewrite first_bytes_all. split_and!; try done; lia.
  - apply Z.leb_gt in E. destruct (drop_invalid_spec (Z.to_nat max) content) as (k & Hk & Hd & Hvk & Hl); [lia|].
    exists k. split_and!; [done|lia|lia|done|]. intros j _ Hj. apply Hl. lia.
Qed.
Lemma truncate_len content max : 0 ≤ max → strlen (nativeFileCollabTruncateUTF8 content max) ≤ max.
Proof.
  intros Hmax. unfold nativeFileCollabTruncateUTF8. destruct (_ <=? max) eqn:E; [by apply Z.leb_le|].
  apply Z.leb_gt in E. unfold strlen in *.
  destruct (drop_invalid_spec (Z.to_nat max) content) as (k & Hk & -> & _); [lia|].
  rewrite first_bytes_length by lia. lia.
Qed.
(** "a" and "é" and "b": two bytes end inside the second letter. *)
Lemma truncate_longest_witness :
  let s := String "a"%char (String (byte_char 195) (String (byte_char 169) "b"%string)) in
  ValidUTF8 s = true ∧ nativeFileCollabTruncateUTF8 s 2 = "a"%string
  ∧ ∃ k, nativeFileCollabTruncateUTF8 s 2 = first_bytes k s ∧ Z.of_nat k ≤ 2.
Proof.
  intros s. split; [reflexivity|]. split; [reflexivity|].
  destruct (truncate_longest s 2 ltac:(lia) eq_refl) as (k & Hk & _ & Hle & _). exists k. split; [exact Hk|exact Hle].
Defined.

(** ** Base64 *)

Lemma byteZ_byte_char n : 0 ≤ n < 256 → byteZ (byte_char n) = n.
Proof. apply byteZ_ascii. Qed.
Lemma byte_char_byteZ c : byte_char (byteZ c) = c.
Proof. unfold byte_char, byteZ. rewrite N2Z.id. apply ascii_N_embedding. Qed.

Lemma byte_char_eq n c : n = byteZ c → byte_char n = c.
Proof. intros ->. apply byte_char_byteZ. Qed.

Lemma value_char64 n : 0 ≤ n < 64 → value64 (char64 n) = Some n.
Proof.
  intros Hn. unfold value64, char64.
  rewrite byteZ_ascii by (repeat case_match; rewrite ?Z.ltb_lt, ?Z.ltb_ge in *; lia).
  destruct (n <? 26) eqn:E1; [|destruct (n <? 52) eqn:E2; [|destruct (n <? 62) eqn:E3; [|destruct (n =? 62) eqn:E4]]].
  all: rewrite ?Z.ltb_lt, ?Z.ltb_ge, ?Z.eqb_eq, ?Z.eqb_neq in *.
  all: repeat (case_match; rewrite ?andb_true_iff, ?andb_false_iff, ?Z.leb_le, ?Z.leb_gt, ?Z.eqb_eq, ?Z.eqb_neq in *);
    try (f_equal; lia); lia.
Qed.
Lemma value_mod v : value64 (char64 (v mod 64)) = Some (v mod 64).
Proof. apply value_char64. by apply Z.mod_pos_bound. Qed.
Lemma value_div v k : 0 < k → 0 ≤ v < k * 64 → value64 (char64 (v / k)) = Some (v / k).
Proof. intros Hk Hv. apply value_char64. split; [apply Z.div_pos|apply Z.div_lt_upper_bound]; lia. Qed.
Lemma value_pad64 : value64 pad64 = None.
Proof. reflexivity. Qed.
Lemma char64_range n : 0 ≤ n < 64 → 43 ≤ byteZ (char64 n).
Proof.
  intros Hn. unfold char64. rewrite byteZ_ascii; repeat case_match; rewrite ?Z.ltb_lt, ?Z.ltb_ge in *; lia.
Qed.
Lemma without_breaks_cons c s : 14 ≤ byteZ c → without_breaks (String c s) = String c (without_breaks s).
Proof.
  intros Hc. cbn [without_breaks]. by rewrite (proj2 (Z.eqb_neq _ _)), (proj2 (Z.eqb_neq (byteZ c) 13)) by lia.
Qed.

(** Strings by groups of three bytes. *)
Lemma string_ind3 (P : string → Prop) :
  P EmptyString → (∀ a, P (String a EmptyString)) → (∀ a b, P (String a (String b EmptyString))) →
  (∀ a b c s, P s → P (String a (String b (String c s)))) → ∀ s, P s.
Proof.
  intros H0 H1 H2 H3. fix IH 1. intros [|a [|b [|c s]]]; [done|apply H1|apply H2|apply H3, IH].
Qed.

Lemma Encode_no_breaks s : without_breaks (EncodeToString s) = EncodeToString s.
Proof.
  assert (∀ n, 0 ≤ n < 64 → 14 ≤ byteZ (char64 n)) as Hc by (intros n Hn; pose proof (char64_range n Hn); lia).
  assert (14 ≤ byteZ pad64) as Hp by (vm_compute; discriminate).
  induction s as [|a|a b|a b c s IH] using string_ind3; [done|..]; cbn [EncodeToString];
    pose proof (byteZ_range a); try pose proof (byteZ_range b); try pose proof (byteZ_range c);
    rewrite !without_breaks_cons; rewrite ?IH; try done; apply Hc;
    try (apply Z.mod_pos_bound; lia); split; try (apply Z.div_pos; lia); apply Z.div_lt_upper_bound; lia.
Qed.

Lemma digits_range v k : 0 ≤ v → 0 ≤ v / k mod 64 < 64.
Proof. intros. apply Z.mod_pos_bound. lia. Qed.

(** Decoding gives back what was encoded. *)
Lemma Decode_Encode s : DecodeString (EncodeToString s) = Some s.
Proof.
  unfold DecodeString. rewrite Encode_no_breaks.
  induction s as [|a|a b|a b c s IH] using string_ind3; [done|..]; cbn [EncodeToString decode64];
    pose proof (byteZ_range a) as Ha; try pose proof (byteZ_range b) as Hb; try pose proof (byteZ_range c) as Hc.
  - rewrite !value_mod, value_div by lia.
    rewrite value_pad64. simpl. do 2 f_equal. apply byte_char_eq.
    rewrite (Z.mul_comm (_ / 64)), <-Z.div_mod by lia. apply Z.div_mul. lia.
  - set (v := (byteZ a * 256 + byteZ b) * 4).
    rewrite !value_mod, value_div by lia.
    rewrite value_pad64. simpl.
    replace (v / 4096 * 4096 + v / 64 mod 64 * 64 + v mod 64) with v.
    2: { pose proof (Z.div_mod v 64 ltac:(lia)). pose proof (Z.div_mod (v / 64) 64 ltac:(lia)).
         rewrite Z.div_div in * by lia. change (64 * 64) with 4096 in *. lia. }
    do 2 f_equal; [|f_equal].
    + apply byte_char_eq. unfold v. symmetry. apply (Z.div_unique_pos _ _ _ (byteZ b * 4)); lia.
    + apply byte_char_eq. unfold v. rewrite Z.div_mul by lia. symmetry.
      apply (Z.mod_unique_pos _ _ (byteZ a)); lia.
  - set (v := byteZ a * 65536 + byteZ b * 256 + byteZ c).
    rewrite !value_mod, value_div by lia.
    rewrite IH.
    replace (v / 262144 * 262144 + v / 4096 mod 64 * 4096 + v / 64 mod 64 * 64 + v mod 64) with v.
    2: { pose proof (Z.div_mod v 64 ltac:(lia)). pose proof (Z.div_mod (v / 64) 64 ltac:(lia)).
         pose proof (Z.div_mod (v / 4096) 64 ltac:(lia)).
         rewrite !Z.div_div in * by lia. change (64 * 64) with 4096 in *. change (4096 * 64) with 262144 in *. lia. }
    do 2 f_equal; [|f_equal; [|f_equal]].
    + apply byte_char_eq. unfold v. symmetry.
      apply (Z.div_unique_pos _ _ _ (byteZ b * 256 + byteZ c)); lia.
    + apply byte_char_eq. unfold v.
      replace ((byteZ a * 65536 + byteZ b * 256 + byteZ c) / 256) with (byteZ a * 256 + byteZ b).
      * symmetry. apply (Z.mod_unique_pos _ _ (byteZ a)); lia.
      * apply (Z.div_unique_pos _ _ _ (byteZ c)); lia.
    + apply byte_char_eq. unfold v. symmetry.
      apply (Z.mod_unique_pos _ _ (byteZ a * 256 + byteZ b)); lia.
Qed.
