(* ===== verification/NativeSafe.v ===== *)
(** * Native file collaboration under any interleaving

    The invariant of the sessions and the proofs that every operation keeps it. *)

From stdpp Require Import base gmap sets list strings numbers.
From Stdlib Require Import Ascii.
From S2P Require Import Prelude GoStrings Paths PathsFacts Tokens Collab Threads Socket SocketSafe Rooms RoomsFacts Native NativeFacts.
Open Scope Z_scope.

Section NativeSafe.
Context {D : Type} `{HC : Crdt D} `{HCL : !CrdtLaws D} {L : Type} `{HRL : RateLimiter L} `{HW : World} `{HS : ServerOps}
  `{HU : UnicodeTables} `{HN : NativeOps}.
Hypothesis configured_uint64 : 0 ≤ configured_cap ≤ uint64_max.
(** The identifier of a server has no NUL byte: it is a UUID. *)
Hypothesis server_no_nul : ∀ h, contains_byte nul_byte (server_of h) = false.
Abbreviation wd := (world L (natives D) nbody).
Abbreviation thread := (prog wd).
Abbreviation cap := NativeFileCollaborationFileSizeCap.
Implicit Types (w : wd) (n : natives D) (s : NSession (D:=D)) (h : string) (sid : nat).

(** ** The invariant *)

(** A session's path is allowed; its text and the updates since the document was made
    are bounded; a clean session has the text whose hash it keeps; its members are
    connections to its server, and what they have sent of an update is bounded. *)
Record nsession_ok s : Prop := {
  nk_path : allowed (ns_path s);
  nk_server : contains_byte nul_byte (ns_serverUUID s) = false;
  nk_text : strlen (ns_text s) ≤ cap;
  nk_applied : 0 ≤ ns_applied s ≤ cap * 8;
  nk_clean : ns_dirty s = false → ns_diskHash s = sha256 (ns_text s);
  nk_members : ∀ h m, ns_members s !! h = Some m → server_of h = ns_serverUUID s ∧ strlen (nm_pending m) ≤ cap;
}.
Record natives_ok n : Prop := {
  nk_registry : ∀ key sid, n_registry n !! key = Some sid →
    ∃ s, n_sessions n !! sid = Some s ∧ key = nativeFileCollabKey (ns_serverUUID s) (ns_path s);
  nk_count : ∀ u, (length (server_sessions u n) ≤ fileCollabMaxSessionsPerServer)%nat;
  nk_session : ∀ sid s, n_sessions n !! sid = Some s → nsession_ok s;
}.
Definition identity s : string * string := (ns_serverUUID s, ns_path s).
Definition natives_le n n' : Prop :=
  ∀ sid s, n_sessions n !! sid = Some s → ∃ s', n_sessions n' !! sid = Some s' ∧ identity s' = identity s.
#[local] Instance natives_le_preorder : PreOrder natives_le.
Proof.
  split; [intros n sid s Hs; by exists s|]. intros n1 n2 n3 H1 H2 sid s Hs.
  destruct (H1 _ _ Hs) as (s2 & Hs2 & E2). destruct (H2 _ _ Hs2) as (s3 & Hs3 & E3). exists s3. split; [done|congruence].
Qed.
Definition nserver sid (u : string) n : Prop := ∃ s, n_sessions n !! sid = Some s ∧ ns_serverUUID s = u.
Lemma nserver_le sid u n n' : natives_le n n' → nserver sid u n → nserver sid u n'.
Proof.
  intros Hle (s & Hs & Hu). destruct (Hle _ _ Hs) as (s' & Hs' & E). exists s'. split; [done|].
  unfold identity in E. congruence.
Qed.
#[local] Instance natives_shared : Shared (natives D) := {|
  sh_ok := natives_ok; sh_le := natives_le; sh_preorder := natives_le_preorder |}.
(** A connection may be told of sessions of its own server only. *)
Definition may_tell_native (h : string) (about : list nat) (c : content nbody) n : Prop :=
  ∀ sid, sid ∈ about → nserver sid (server_of h) n.
#[local, refine] Instance natives_tells : Tells (natives D) nbody := {| sh_sent := may_tell_native |}.
Proof.
  - intros h about c n n' Hle Ht sid Hin. by eapply nserver_le, Ht.
  - by intros h l n sid ?%not_elem_of_nil.
Defined.
#[local] Instance nserver_Stable sid u : Stable (nserver sid u).
Proof. intros n n'. apply nserver_le. Qed.

Lemma cap_pos : 0 < cap ∧ cap * 16 < 2 ^ 63.
Proof.
  pose proof (cap_range configured_cap configured_uint64) as Hc.
  unfold NativeFileCollaborationFileSizeCap, fileCollabMinimumFileSizeCap, fileCollabMaximumFileSizeCap in *. lia.
Qed.

(** ** Changes *)

Lemma nsession_at_Some n sid s : n_sessions n !! sid = Some s → nsession_at n sid = s.
Proof. unfold nsession_at. by intros ->. Qed.

(** The number of a server's sessions depends on the registry and the servers only. *)
Lemma server_sessions_same u n n' :
  natives_ok n → natives_le n n' → n_registry n' = n_registry n → server_sessions u n' = server_sessions u n.
Proof.
  intros Hn Hle Er. unfold server_sessions. rewrite Er.
  assert (∀ sid, sid ∈ snd <$> map_to_list (n_registry n) →
    ns_serverUUID (nsession_at n' sid) = ns_serverUUID (nsession_at n sid)) as Hsame.
  { intros sid ([key sid'] & -> & Hin)%list_elem_of_fmap. apply elem_of_map_to_list in Hin.
    destruct (nk_registry _ Hn _ _ Hin) as (s & Hs & _). destruct (Hle _ _ Hs) as (s' & Hs' & E).
    simpl. rewrite (nsession_at_Some _ _ _ Hs), (nsession_at_Some _ _ _ Hs'). unfold identity in E. congruence. }
  induction (snd <$> map_to_list (n_registry n)) as [|sid l IH]; [done|].
  rewrite !filter_cons, IH by (intros; apply Hsame; set_solver).
  specialize (Hsame sid ltac:(set_solver)). rewrite Hsame. done.
Qed.

Lemma set_nsession_good n sid s s' :
  natives_ok n → n_sessions n !! sid = Some s → identity s' = identity s → nsession_ok s' →
  good n (set_nsession sid (λ _, s') n).
Proof.
  intros Hn Hs Ei Hok. assert (natives_le n (set_nsession sid (λ _, s') n)) as Hle.
  { intros sid' s0 Hs0. simpl. rewrite (alter_lookup _ _ _ _ _ Hs0). eexists. split; [done|].
    case_decide; [subst; congruence|done]. }
  split; [|done]. split.
  - simpl. intros key sid' (s0 & Hs0 & Hk)%(nk_registry _ Hn). rewrite (alter_lookup _ _ _ _ _ Hs0).
    eexists. split; [done|]. case_decide; [subst sid'|done]. rewrite Hs in Hs0. injection Hs0 as <-.
    unfold identity in Ei. by injection Ei as -> ->.
  - intros u. rewrite (server_sessions_same u n) by done. apply Hn.
  - simpl. intros sid' s0 [(-> & _ & _ & ->)|[_ Hs0]]%alter_Some; [done|by eapply nk_session].
Qed.

Lemma unregister_session_good n key : natives_ok n → good n (set_nregistry (delete key) n).
Proof.
  intros Hn. split; [split|intros sid s Hs; by exists s].
  - simpl. intros k sid [_ Hk]%lookup_delete_Some. by apply Hn.
  - intros u. pose proof (nk_count _ Hn u) as Hc. unfold server_sessions in *. simpl.
    destruct (n_registry n !! key) as [sid|] eqn:E; [|by rewrite delete_id].
    rewrite <-(map_to_list_delete _ _ _ E), fmap_cons, filter_cons in Hc. cbn [snd] in Hc.
    case_decide; [cbn [length] in Hc; apply Nat.lt_le_incl in Hc|]; exact Hc.
  - apply Hn.
Qed.

Lemma new_text_ok content : crdt_ToString (new_text content) = content.
Proof.
  unfold new_text. case_bool_decide as E; [subst; apply crdt_new_text|apply crdt_insert_text].
Qed.
Lemma resetDocument_ok content s :
  allowed (ns_path s) → contains_byte nul_byte (ns_serverUUID s) = false → strlen content ≤ cap →
  (∀ h m, ns_members s !! h = Some m → server_of h = ns_serverUUID s ∧ strlen (nm_pending m) ≤ cap) →
  nsession_ok (resetDocument content s).
Proof.
  intros Hp Hnul Hlen Hm. pose proof cap_pos. unfold resetDocument.
  split; simpl; unfold ns_text; simpl; rewrite ?new_text_ok; [done|done|done|lia|done|done].
Qed.

(** The key of a file determines the server and the path. *)
Lemma key_inj u p u' p' :
  contains_byte nul_byte u = false → contains_byte nul_byte u' = false →
  nativeFileCollabKey u p = nativeFileCollabKey u' p' → u = u' ∧ p = p'.
Proof.
  unfold nativeFileCollabKey. revert u'. induction u as [|c u IH]; intros [|c' u'] Hu Hu' E; simpl in *.
  - by injection E as ->.
  - injection E as <- _. by rewrite Ascii.eqb_refl in Hu'.
  - injection E as -> _. by rewrite Ascii.eqb_refl in Hu.
  - injection E as <- E. apply orb_false_iff in Hu as [_ Hu], Hu' as [_ Hu'].
    destruct (IH u' Hu Hu' E) as [-> ->]. done.
Qed.

Lemma find_or_make_good u path content n res n' :
  find_or_make u path content n = (res, n') → natives_ok n → allowed path → strlen content ≤ cap →
  contains_byte nul_byte u = false →
  good n n' ∧ ∀ sid, res = Ok sid → nserver sid u n'.
Proof.
  unfold find_or_make. intros E Hn Hp Hlen Hu. set (key := nativeFileCollabKey u path) in *.
  destruct (n_registry n !! key) as [sid|] eqn:Ek.
  { injection E as <- <-. split; [by apply good_refl|]. intros ? [= <-].
    destruct (nk_registry _ Hn _ _ Ek) as (s & Hs & Hkey). exists s. split; [done|].
    apply key_inj in Hkey as [-> _]; [done|done|]. by eapply nk_server, nk_session. }
  destruct (_ <=? _)%nat eqn:Ec; injection E as <- <-; [split; [by apply good_refl|done]|]. apply Nat.leb_gt in Ec.
  set (s := nativeFileCollabNewSession u path content). set (n1 := new_nsession s n).
  assert (n_sessions n1 !! length (n_sessions n) = Some s) as Hs by by apply list_lookup_middle.
  assert (natives_le n n1) as Hle.
  { intros sid s0 Hs0. exists s0. split; [by apply lookup_app_l_Some|done]. }
  assert (∀ v, server_sessions v n1 = server_sessions v n) as Hsame by (intros; by apply server_sessions_same).
  split; [split; [split|exact Hle]|intros sid [= <-]; by exists s].
  - simpl. intros k sid [[<- <-]|[_ Hk]]%lookup_insert_Some; [by exists s|].
    destruct (nk_registry _ Hn _ _ Hk) as (s0 & Hs0 & ->). exists s0. split; [by apply lookup_app_l_Some|done].
  - intros v. pose proof (nk_count _ Hn v) as Hv. rewrite <-Hsame in Hv. rewrite <-Hsame in Ec.
    unfold server_sessions in *. cbn [set_nregistry n_registry n1 new_nsession] in *.
    rewrite map_to_list_insert by done. rewrite fmap_cons, filter_cons. case_decide as Ed; [|exact Hv].
    change (ns_serverUUID (nsession_at n1 (length (n_sessions n))) = v) in Ed.
    rewrite (nsession_at_Some _ _ _ Hs) in Ed. simpl in Ed. subst v. exact Ec.
  - intros sid s0 [Hs0|[_ ->]]%snoc_Some; [by eapply nk_session|]. apply resetDocument_ok; [done|done|done|].
    intros h m Hm. change ((∅ : gmap string NMember) !! h = Some m) in Hm. by rewrite lookup_empty in Hm.
Qed.

(** ** What the operations do to a session *)

Lemma members_insert_ok s h m :
  nsession_ok s → server_of h = ns_serverUUID s → strlen (nm_pending m) ≤ cap →
  nsession_ok (set_members (<[h := m]>) s).
Proof.
  intros [H1 H2 H3 H4 H5 H6] Hh Hm. split; try done.
  intros h' m'. simpl. intros [[<- <-]|[_ Hin]]%lookup_insert_Some; [done|by apply H6].
Qed.
Lemma next_generation_ok s : nsession_ok s → nsession_ok (next_generation s).
Proof. by intros [H1 H2 H3 H4 H5 H6]. Qed.
Lemma enter_ok h content p s :
  nsession_ok s → ns_serverUUID s = server_of h → strlen content ≤ cap →
  nsession_ok (snd (enter h content p s)) ∧ identity (snd (enter h content p s)) = identity s.
Proof.
  intros Hs Hu Hlen. pose proof cap_pos. unfold enter. cbn [snd]. set (s1 := if _ : bool then _ else _).
  assert (nsession_ok s1 ∧ identity s1 = identity s) as [H1 E1].
  { unfold s1. case_match; [|by split; [apply next_generation_ok|]]. split; [|done].
    destruct Hs. by apply resetDocument_ok. }
  split; [|exact E1]. apply members_insert_ok; [done| |unfold strlen; simpl; lia].
  unfold identity in E1. injection E1 as -> _. done.
Qed.
Lemma leave_ok h s : nsession_ok s → nsession_ok (snd (leave h s)) ∧ identity (snd (leave h s)) = identity s.
Proof.
  intros Hs. unfold leave. case_match; [|done]. cbn [snd]. split; [|done]. apply next_generation_ok.
  destruct Hs as [H1 H2 H3 H4 H5 H6]. split; try done. intros h' m'. simpl. intros [_ Hin]%lookup_delete_Some. by apply H6.
Qed.
Lemma strlen_app a b : strlen (a +:+ b) = strlen a + strlen b.
Proof. induction a as [|c a IH]; [done|]. change (String c a +:+ b) with (String c (a +:+ b)). rewrite !strlen_String. lia. Qed.
(** The update that is taken is bounded too. *)
Lemma take_chunk_ok h finished chunk s :
  nsession_ok s → ns_serverUUID s = server_of h →
  nsession_ok (snd (take_chunk h finished chunk s)) ∧ identity (snd (take_chunk h finished chunk s)) = identity s
  ∧ ∀ update, fst (take_chunk h finished chunk s) = Ok (Some update) → strlen update ≤ cap.
Proof.
  intros Hs Hu. pose proof cap_pos as [Hc _]. unfold take_chunk.
  destruct (ns_members s !! h) as [m|] eqn:Em; [|done].
  assert (∀ p, strlen p ≤ cap → nsession_ok (set_members (<[h := set_pending p m]>) s)) as Hins.
  { intros p Hp. by apply members_insert_ok. }
  assert (strlen EmptyString ≤ cap) as H0 by (unfold strlen; simpl; lia).
  destruct (cap <? _) eqn:E; [split_and!; [by apply Hins|done|done]|]. apply Z.ltb_ge in E. rewrite <-strlen_app in E.
  destruct finished; simpl; [|split_and!; [by apply Hins|done|done]].
  case_bool_decide; simpl; (split_and!; [by apply Hins|done|]); [done|]. by intros ? [= <-].
Qed.
Lemma applyUpdate_ok update s :
  nsession_ok s → strlen update ≤ cap →
  nsession_ok (snd (applyUpdate update s)) ∧ identity (snd (applyUpdate update s)) = identity s.
Proof.
  intros Hs Hlen. pose proof cap_pos as [Hc Hc']. unfold applyUpdate.
  destruct (crdt_ApplyUpdateV1 _ _) as [d|]; [|done]. destruct Hs as [H1 H2 H3 H4 H5 H6].
  rewrite wrap64_id by (unfold in_int64, int64_min, int64_max, strlen in *; lia).
  set (applied := ns_applied s + strlen update). destruct (negb _) eqn:E.
  - apply negb_true_iff, orb_false_iff in E as [E1%Z.ltb_ge E2%Z.ltb_ge]. split; [|done].
    split; try done. simpl. unfold applied, strlen in *. lia.
  - set (content := if _ : bool then _ else _). assert (strlen content ≤ cap) as Hcont.
    { unfold content. destruct (_ <? _) eqn:E1; [apply truncate_len; lia|by apply Z.ltb_ge]. }
    cbn [snd]. split; [|done].
    assert (nsession_ok (resetDocument content (set_doc d true (ns_diskHash s) applied s))) as [? ? ? ? ? ?]
      by by apply resetDocument_ok.
    by split.
Qed.
Lemma saved_ok content s : nsession_ok s → nsession_ok (snd (saved content s)) ∧ identity (snd (saved content s)) = identity s.
Proof.
  intros [H1 H2 H3 H4 H5 H6]. split; [|done]. split; try done. simpl.
  intros E%negb_false_iff%bool_decide_eq_true. unfold ns_text in *. simpl. by rewrite E.
Qed.

(** ** Threads *)

Lemma on_session_safe {A} sid u (f : NSession → A * NSession) (Q : A → Prop) w :
  nserver sid u (w_rooms w) →
  (∀ s, nsession_ok s → ns_serverUUID s = u →
     nsession_ok (snd (f s)) ∧ identity (snd (f s)) = identity s ∧ Q (fst (f s))) →
  safely (on_session sid f : thread A) (λ a _, Q a) w.
Proof.
  intros Hs Hf. apply rooms_safe. intros w' HR HI. advance. destruct Hs as (s & Hs & Hu).
  rewrite (nsession_at_Some _ _ _ Hs). destruct (Hf s (nk_session _ (inv_rooms _ HI) _ _ Hs) Hu) as (Hok & Ei & HQ).
  destruct (f s) as [a s']. simpl in *. exists a, (set_nsession sid (λ _, s') (w_rooms w')), w'. split_and!; try done.
  by eapply set_nsession_good; [apply HI|..].
Qed.
Lemma on_session_fine {A} sid u (f : NSession → A * NSession) w :
  nserver sid u (w_rooms w) →
  (∀ s, nsession_ok s → ns_serverUUID s = u → nsession_ok (snd (f s)) ∧ identity (snd (f s)) = identity s) →
  fine (on_session sid f : thread A) w.
Proof.
  intros Hs Hf. apply (on_session_safe sid u _ (λ _, True)); [done|]. intros s Hok Hu.
  destruct (Hf s Hok Hu). by split_and!.
Qed.
Lemma natives_of_fine {A} (f : natives D → A) w : fine (natives_of f : thread A) w.
Proof. apply gets_fine. Qed.
Lemma nranged_safe {A} (f : natives D → list A) w :
  safely (nranged f : thread _) (λ l w', natives_ok (w_rooms w') ∧ l ≡ₚ f (w_rooms w')) w.
Proof.
  apply safe_atomic. intros w' _ HI. split_and!; [by apply (Inv_frame w')|by apply Rely_frame|apply HI|].
  apply range_perm.
Qed.
#[local] Hint Resolve natives_of_fine nranged_safe : sockets.

Lemma nsend_fine h sid e b w : nserver sid (server_of h) (w_rooms w) → fine (nsend h [sid] e b : thread _) w.
Proof. intros Hs. apply SendJson_fine. by intros ? ->%list_elem_of_singleton. Qed.
Lemma nError_fine h p m w : fine (nativeFileCollabError h p m : thread _) w.
Proof. apply SendJson_fine. by intros ? ?%not_elem_of_nil. Qed.
#[local] Hint Resolve nsend_fine nError_fine : sockets.

Lemma nBroadcast_fine sid u except e b w :
  nserver sid u (w_rooms w) → fine (nativeFileCollabBroadcast sid except e b : thread _) w.
Proof.
  intros Hs. unfold nativeFileCollabBroadcast. eapply seq; [apply nranged_safe|].
  intros ids w' HR [Hn Hp]. advance. apply for_each_fine. intros x w'' Hx HR. rewrite Hp in Hx.
  destruct Hs as (s & Hs & Hu). unfold nmember_ids in Hx. rewrite (nsession_at_Some _ _ _ Hs) in Hx.
  apply list_elem_of_filter in Hx as [_ ([h m] & -> & Hin)%list_elem_of_fmap]. apply elem_of_map_to_list in Hin.
  destruct (nk_members _ (nk_session _ Hn _ _ Hs) _ _ Hin) as [Hh _].
  assert (nserver sid (server_of h) (w_rooms w')) as Ha by (exists s; by split). cbn [fst]. advance. pieces.
Qed.
#[local] Hint Resolve nBroadcast_fine : sockets.
Lemma BroadcastParticipants_fine sid u w :
  nserver sid u (w_rooms w) → fine (nativeFileCollabBroadcastParticipants sid : thread _) w.
Proof. intros Hs. unfold nativeFileCollabBroadcastParticipants. pieces. Qed.
#[local] Hint Resolve BroadcastParticipants_fine : sockets.

Lemma ReadFile_safe h path w :
  safely (nativeFileCollabReadFile h path : thread _) (λ res _, ∀ content, res = Ok content → strlen content ≤ cap) w.
Proof.
  unfold nativeFileCollabReadFile. cbv zeta. eapply seq; [eauto with sockets|]. intros ignored w1 _ _.
  destruct ignored; [done|]. eapply seq; [eauto with sockets|]. intros [file|] w2 _ _; [|done].
  destruct (of_IsDir file); [done|]. destruct (_ <? of_Size file); [done|].
  destruct (of_Content file) as [bytes|]; [|done]. destruct (cap <? _) eqn:E; [done|].
  destruct (negb _); [done|]. intros ? [= <-]. by apply Z.ltb_ge.
Qed.
#[local] Hint Resolve ReadFile_safe : sockets.

Lemma HasMember_fine h sid w : fine (nativeFileCollabHasMember h sid : thread _) w.
Proof. apply gets_fine. Qed.
#[local] Hint Resolve HasMember_fine : sockets.
Lemma count_members_fine h sids w : fine (count_members h sids : thread _) w.
Proof. revert w. induction sids; intros w; cbn [count_members]; pieces. Qed.
#[local] Hint Resolve count_members_fine : sockets.
Lemma SubscriptionCount_fine h w : fine (nativeFileCollabSubscriptionCount h : thread _) w.
Proof. unfold nativeFileCollabSubscriptionCount. pieces. Qed.
#[local] Hint Resolve SubscriptionCount_fine : sockets.

Lemma Subscribe_fine h path w : allowed path → fine (nativeFileCollabSubscribe h path : thread _) w.
Proof.
  intros Hp. unfold nativeFileCollabSubscribe. cbv zeta. piece. through. destruct (negb _); [piece|].
  eapply seq; [apply ReadFile_safe|]. intros [content|e] w1 _ Hlen; [|piece]. specialize (Hlen content eq_refl).
  eapply seq with (P' := λ res w', ∀ sid, res = Ok sid → nserver sid (server_of h) (w_rooms w')).
  { apply rooms_safe. intros w9 _ HI. destruct (find_or_make _ _ _ _) as [res n'] eqn:E.
    destruct (find_or_make_good _ _ _ _ _ _ E (inv_rooms _ HI) Hp Hlen (server_no_nul h)) as [Hg Hs].
    exists res, n', w9. split_and!; try done. by intros w3 ->. }
  intros [sid|e] w2 _ Hs; [|piece]. specialize (Hs sid eq_refl).
  eapply seq; [eauto with sockets|]. intros [jwt|] w3 HR _; [|piece]. advance.
  eapply seq; [apply (on_session_fine sid (server_of h)); [done|]; intros; by apply enter_ok|].
  intros state w4 HR _. advance. eapply seq; [apply nsend_fine; exact Hs|]. intros err w5 HR _. advance. pieces.
Qed.

Lemma found_safe h path w :
  allowed path →
  safely (natives_of (λ n, n_registry n !! nativeFileCollabKey (server_of h) path) : thread _)
    (λ found w', ∀ sid, found = Some sid → nserver sid (server_of h) (w_rooms w')) w.
Proof.
  intros Hp. apply gets_safe. intros w' _ HI sid Hk.
  destruct (nk_registry _ (inv_rooms _ HI) _ _ Hk) as (s & Hs & E). exists s. split; [done|].
  apply key_inj in E as [-> _]; [done|done|]. by eapply nk_server, nk_session, Hs; apply HI.
Qed.
Lemma nRemoveMember_fine sid u h w :
  nserver sid u (w_rooms w) → fine (nativeFileCollabRemoveMember sid h : thread _) w.
Proof.
  intros Hs. unfold nativeFileCollabRemoveMember.
  eapply seq; [apply (on_session_fine sid u); [done|]; intros; by apply leave_ok|]. intros left_ w1 HR _. advance. pieces.
Qed.
#[local] Hint Resolve nRemoveMember_fine : sockets.
Lemma Unsubscribe_fine h path w : allowed path → fine (nativeFileCollabUnsubscribe h path : thread _) w.
Proof.
  intros Hp. unfold nativeFileCollabUnsubscribe. eapply seq; [by apply found_safe|].
  intros [sid|] w1 _ Hs; [|piece]. specialize (Hs sid eq_refl). pieces.
Qed.
Lemma Disconnect_fine h w : fine (nativeFileCollabDisconnect h : thread _) w.
Proof.
  unfold nativeFileCollabDisconnect. eapply seq; [apply nranged_safe|]. intros sids w1 _ [Hn Hp].
  apply for_each_fine. intros sid w2 Hin HR. rewrite Hp in Hin.
  apply list_elem_of_filter in Hin as [_ ([key sid'] & -> & Hin)%list_elem_of_fmap]. apply elem_of_map_to_list in Hin.
  destruct (nk_registry _ Hn _ _ Hin) as (s & Hs & _).
  assert (nserver sid' (ns_serverUUID s) (w_rooms w1)) as Hserver by by exists s. advance. cbn [snd]. pieces.
Qed.
Lemma teardown_fine sid g w : fine (teardown sid g : thread _) w.
Proof.
  apply update_safe. intros n _ Hn. split; [|done]. cbv zeta. case_match; [|by apply good_refl].
  by apply unregister_session_good.
Qed.

Lemma SubscribedSession_safe h path w :
  allowed path →
  safely (nativeFileCollabSubscribedSession h path : thread _)
    (λ found w', ∀ sid m, found = Some (sid, m) → nserver sid (server_of h) (w_rooms w')) w.
Proof.
  intros Hp. unfold nativeFileCollabSubscribedSession. eapply seq; [by apply found_safe|].
  intros [sid|] w1 _ Hs; [|done]. specialize (Hs sid eq_refl). eapply seq; [eauto with sockets|].
  intros [m|] w2 HR _; [|done]. advance. by intros ? ? [= <- <-].
Qed.

Lemma ApplyUpdate_fine h path finished encoded w :
  allowed path → fine (nativeFileCollabApplyUpdate h path finished encoded : thread _) w.
Proof.
  intros Hp. unfold nativeFileCollabApplyUpdate. eapply seq; [by apply SubscribedSession_safe|].
  intros [[sid m]|] w1 _ Hs; [|piece]. specialize (Hs sid m eq_refl). destruct (DecodeString encoded) as [chunk|]; [|piece].
  eapply seq.
  - apply (on_session_safe sid (server_of h) _ (λ res, ∀ update, res = Ok (Some update) → strlen update ≤ cap)); [done|].
    intros s Hok Hu. by apply take_chunk_ok.
  - intros [[update|]|e] w2 HR Hlen; [|piece|piece]. specialize (Hlen update eq_refl). advance.
    eapply seq; [apply (on_session_fine sid (server_of h)); [done|]; intros; by apply applyUpdate_ok|].
    intros res w3 HR _. advance. pieces.
Qed.
Lemma RelayAwareness_fine h path payload w :
  allowed path → fine (nativeFileCollabRelayAwareness h path payload : thread _) w.
Proof.
  intros Hp. unfold nativeFileCollabRelayAwareness. eapply seq; [by apply SubscribedSession_safe|].
  intros [[sid m]|] w1 _ Hs; [|piece]. specialize (Hs sid m eq_refl). pieces.
Qed.
Lemma Save_fine h path w : allowed path → fine (nativeFileCollabSave h path : thread _) w.
Proof.
  intros Hp. unfold nativeFileCollabSave. eapply seq; [by apply SubscribedSession_safe|].
  intros [[sid m]|] w1 _ Hs; [|piece]. specialize (Hs sid m eq_refl). piece. piece. piece; [|piece].
  piece. piece. piece; [piece|]. through.
  eapply seq; [apply (on_session_fine sid (server_of h)); [done|]; intros; by apply saved_ok|].
  intros u w3 HR _. advance. pieces.
Qed.

Lemma answered_fine h path a w : fine (answered h path a : thread _) w.
Proof. unfold answered. pieces. Qed.
#[local] Hint Resolve answered_fine Subscribe_fine Unsubscribe_fine ApplyUpdate_fine RelayAwareness_fine Save_fine : sockets.
Lemma HandleNative_fine h m p w : HandleNativeFileCollaboration h m = Some p → fine (p : thread _) w.
Proof.
  unfold HandleNativeFileCollaboration. destruct (negb _); [done|]. intros E. apply (inj Some) in E as <-.
  cbv zeta. piece; [piece|]. piece; [piece|]. destruct (betterFilesCollabPath _) as [path|] eqn:Ep; [|piece].
  apply Path_allowed in Ep. piece. through. piece; [piece|]. unfold perform_request. cbv zeta. pieces.
Qed.

(** ** Every interleaving *)

(** What may start at any time: the handling of a message that is not of the other
    collaboration protocol, the end of a connection, the timer of an empty session, a
    revocation of tokens. *)
Inductive nentry : thread unit → Prop :=
| nstart_message h m : IsBetterFilesCollaborationEvent (msg_Event m) = false →
    nentry (handleMessage (λ _ _, None) HandleNativeFileCollaboration IsNativeFileCollaborationEvent h m)
| nstart_disconnect h : nentry (nativeFileCollabDisconnect h)
| nstart_teardown sid generation : nentry (teardown sid generation)
| nstart_deny now x : nentry (modify (set_denials (deny now x))).
Definition nstart (d : denials) : wd := mkWorld ∅ [] ∅ ∅ d 0 [] [] (mkNatives ∅ []).
Definition nrunning (d : denials) (w : wd) : Prop := ∃ ts, steps nentry ([], nstart d) (ts, w).

Lemma nrunning_Inv d w : nrunning d w → Inv w.
Proof.
  assert (Inv (nstart d)) as Hstart.
  { split; [split|..]; simpl; try done; intros *; try by rewrite lookup_empty.
    unfold server_sessions. simpl. rewrite map_to_list_empty. simpl. unfold fileCollabMaxSessionsPerServer. lia. }
  intros [ts Hs]. refine (proj1 (safe_steps Inv Rely _ _ _ _ Hstart _ Hs)). intros p w' [h m _|h|sid g|now x] _.
  - apply handleMessage_fine; [done|apply HandleNative_fine].
  - apply Disconnect_fine.
  - apply teardown_fine.
  - by apply frame_safe.
Qed.

(** C28: native collaboration stays within its limits at every moment, however messages,
    ends of connections and timers interleave: a server has at most 32 sessions in the
    registry; a session's path is an allowed one, its text is at most the configured size
    (between 1 and 64 MiB), the updates applied since its document was made at most eight
    times that; a session that is not dirty has exactly the text whose hash it keeps, so
    a change of the file is noticed; its members are connections to its server, with at
    most the configured size of an unfinished update each; and every message about it
    went to a connection to its server. *)
Theorem native_limits d w :
  nrunning d w →
  (∀ u, (length (server_sessions u (w_rooms w)) ≤ 32)%nat)
  ∧ 1048576 ≤ cap ≤ 67108864
  ∧ (∀ sid s, n_sessions (w_rooms w) !! sid = Some s →
       allowed (ns_path s) ∧ strlen (ns_text s) ≤ cap ∧ 0 ≤ ns_applied s ≤ cap * 8
       ∧ (ns_dirty s = false → ns_diskHash s = sha256 (ns_text s))
       ∧ ∀ h m, ns_members s !! h = Some m → server_of h = ns_serverUUID s ∧ strlen (nm_pending m) ≤ cap)
  ∧ ∀ x sid, x ∈ w_sent w → sid ∈ sn_sessions x →
      ∃ s, n_sessions (w_rooms w) !! sid = Some s ∧ ns_serverUUID s = server_of (sn_to x).
Proof.
  intros HI%nrunning_Inv. pose proof (inv_rooms _ HI) as Hn. split; [apply Hn|]. split.
  { exact (cap_range configured_cap configured_uint64). }
  split.
  - intros sid s Hs. by destruct (nk_session _ Hn _ _ Hs) as [? _ ? ? ? ?].
  - intros x sid Hx. pose proof (inv_sent _ HI) as Hsent. rewrite list.Forall_forall in Hsent. by apply Hsent.
Qed.

Lemma nrunning_start d : nrunning d (nstart d).
Proof. exists []. apply rtc_refl. Qed.
Lemma nrunning_schedule d ps turns :
  Forall nentry ps → nrunning d (snd (schedule turns (ps, nstart d))).
Proof.
  intros Hps. exists (fst (schedule turns (ps, nstart d))). rewrite <-surjective_pairing.
  etransitivity; [by apply (spawn_steps _ ps [])|apply schedule_steps].
Qed.
Lemma nrunning_exec d p w : nrunning d w → nentry p → nrunning d (snd (exec p w)).
Proof.
  intros [ts Hs] Hp. eexists. etransitivity; [exact Hs|].
  etransitivity; [apply (spawn_steps _ [p]); by constructor|apply exec_steps].
Qed.
End NativeSafe.

(** ** Updates in chunks *)

Section Chunks.
Context {D : Type} `{HC : Crdt D} {L : Type} `{HW : World} `{HU : UnicodeTables} `{HN : NativeOps}.
Abbreviation wd := (world L (natives D) nbody).
Abbreviation thread := (prog wd).
Abbreviation cap := NativeFileCollaborationFileSizeCap.
Implicit Types (w : wd) (s : NSession (D:=D)).

(** The messages of a client that sends an update in pieces, handled one after the other. *)
Definition update_request (h given : string) (finished : bool) (piece : string) : thread (option goerr) :=
  default (mret None) (HandleNativeFileCollaboration h
    (mkMessage FileCollabUpdateEvent [given; if finished then "1" else "0"; EncodeToString piece]%string)).
Fixpoint send_update (h given : string) (chunks : list string) (last_ : string) : thread unit :=
  match chunks with
  | [] => _ ← update_request h given true last_; mret ()
  | c :: chunks' => _ ← update_request h given false c; send_update h given chunks' last_
  end.

(** [h] may write the file it names [given]. *)
Definition may_update (h given path : string) w : Prop :=
  configured_enabled = true ∧ betterFilesCollabPath given = Some path
  ∧ ∃ j, w_jwt w !! h = Some j ∧ HasPermission (w_denials w) j betterFilesCollabWritePermission = true.
Lemma Encode_nonempty piece : piece ≠ EmptyString → EncodeToString piece ≠ EmptyString.
Proof. destruct piece as [|a [|b [|c rest]]]; done. Qed.
(** Such a request, with a piece that is not empty, passes every check. *)
Lemma exec_request h given path finished piece w :
  may_update h given path w → piece ≠ EmptyString →
  exec (update_request h given finished piece) w
  = exec (a ← nativeFileCollabApplyUpdate h path finished (EncodeToString piece); answered h path a) w.
Proof.
  intros (Hen & Hp & j & Hj & Hw) Hne%Encode_nonempty. unfold update_request, HandleNativeFileCollaboration.
  cbn [msg_Event msg_Args head]. change (IsNativeFileCollaborationEvent FileCollabUpdateEvent) with true.
  rewrite Hen. cbn [negb default from_option]. unfold id.
  assert (nativeFileCollabValidArgs
    (mkMessage FileCollabUpdateEvent [given; if finished then "1" else "0"; EncodeToString piece]%string) = true) as ->.
  { unfold nativeFileCollabValidArgs. cbn [msg_Event msg_Args].
    change (bool_decide (FileCollabUpdateEvent ∈ _)) with false. rewrite (bool_decide_true (FileCollabUpdateEvent = _)) by done.
    rewrite (bool_decide_false (EncodeToString piece = _)) by done. by destruct finished. }
  cbn [negb]. rewrite Hp. unfold mbind at 1 2, prog_mbind at 1 2. rewrite !exec_bind. simpl. rewrite Hj. simpl. rewrite Hw. simpl.
  unfold perform_request. cbn [msg_Event msg_Args]. by destruct finished.
Qed.

(** [h] is subscribed to [path] in session [sid], having sent [pending]. *)
Record subscribed (h path : string) (sid : nat) s (m : NMember) w : Prop := {
  sb_key : n_registry (w_rooms w) !! nativeFileCollabKey (server_of h) path = Some sid;
  sb_session : n_sessions (w_rooms w) !! sid = Some s;
  sb_member : ns_members s !! h = Some m;
}.
Lemma exec_subscribed h path sid s m w :
  subscribed h path sid s m w → exec (nativeFileCollabSubscribedSession h path) w = (Some (sid, m), w).
Proof.
  intros [Hk Hs Hm]. unfold nativeFileCollabSubscribedSession. simpl. rewrite Hk. simpl.
  unfold nsession_at. rewrite Hs. simpl. by rewrite Hm.
Qed.
Lemma exec_on_session {A} sid (f : NSession → A * NSession) s w :
  n_sessions (w_rooms w) !! sid = Some s →
  exec (on_session sid f : thread A) w = (fst (f s), set_rooms (set_nsession sid (λ _, snd (f s))) w).
Proof. intros Hs. unfold on_session. simpl. unfold nsession_at. rewrite Hs. simpl. by destruct (f s). Qed.

Definition with_pending (sid : nat) (h : string) s (m : NMember) (p : string) w : wd :=
  set_rooms (set_nsession sid (λ _, set_members (<[h := set_pending p m]>) s)) w.

(** A piece that is not the last is kept. *)
Lemma exec_unfinished h path sid s m c w :
  subscribed h path sid s m w → strlen (nm_pending m) + strlen c ≤ cap →
  exec (nativeFileCollabApplyUpdate h path false (EncodeToString c)) w
  = (Ok (), with_pending sid h s m (nm_pending m +:+ c) w).
Proof.
  intros Hsub Hlen. unfold nativeFileCollabApplyUpdate. unfold mbind, prog_mbind. rewrite exec_bind.
  rewrite (exec_subscribed _ _ _ _ _ _ Hsub), Decode_Encode, exec_bind, (exec_on_session _ _ s) by apply Hsub.
  unfold take_chunk. rewrite (sb_member _ _ _ _ _ _ Hsub), (proj2 (Z.ltb_ge _ _)) by done. done.
Qed.
Lemma with_pending_subscribed h path sid s m p w :
  subscribed h path sid s m w →
  subscribed h path sid (set_members (<[h := set_pending p m]>) s) (set_pending p m) (with_pending sid h s m p w).
Proof.
  intros [Hk Hs Hm]. split; [done| |simpl; by rewrite lookup_insert_eq].
  simpl. by rewrite list_lookup_alter_eq, Hs.
Qed.

Lemma nBroadcast_keeps sid except e b : keeps w_rooms (nativeFileCollabBroadcast sid except e b : thread _).
Proof.
  unfold nativeFileCollabBroadcast, nsend. apply keeps_seq; [by split|]. intros ids.
  apply keeps_for_each. intros id. keeping.
Qed.

(** The last piece: the whole update is applied. *)
Lemma exec_finished h path sid s m c w update d :
  subscribed h path sid s m w → update = (nm_pending m +:+ c)%string →
  strlen update ≤ cap → update ≠ EmptyString → crdt_ApplyUpdateV1 (ns_doc s) update = Some d →
  strlen (crdt_ToString d) ≤ cap → wrap64 (ns_applied s + strlen update) ≤ cap * 8 →
  fst (exec (nativeFileCollabApplyUpdate h path true (EncodeToString c)) w) = Ok ()
  ∧ w_rooms (snd (exec (nativeFileCollabApplyUpdate h path true (EncodeToString c)) w))
    = set_nsession sid (λ _, set_doc d true (ns_diskHash s) (wrap64 (ns_applied s + strlen update))
                          (set_members (<[h := set_pending EmptyString m]>) s))
        (w_rooms (with_pending sid h s m EmptyString w)).
Proof.
  intros Hsub Hup Hlen Hne Happ Htext Hbytes.
  assert (strlen (nm_pending m) + strlen c ≤ cap) as Hlen' by by rewrite <-strlen_app, <-Hup.
  unfold nativeFileCollabApplyUpdate, mbind, prog_mbind. rewrite exec_bind.
  rewrite (exec_subscribed _ _ _ _ _ _ Hsub), Decode_Encode, exec_bind, (exec_on_session _ _ s) by apply Hsub.
  unfold take_chunk. rewrite (sb_member _ _ _ _ _ _ Hsub), (proj2 (Z.ltb_ge _ _)) by done. cbn [negb].
  rewrite <-Hup, bool_decide_false by done. cbn [fst snd].
  pose proof (with_pending_subscribed h path sid s m EmptyString w Hsub) as Hsub2.
  rewrite exec_bind, (exec_on_session _ _ _ _ (sb_session _ _ _ _ _ _ Hsub2)).
  unfold applyUpdate. cbn [set_members ns_doc]. rewrite Happ. cbv zeta.
  cbn [set_members ns_applied ns_diskHash]. rewrite (proj2 (Z.ltb_ge _ _)), (proj2 (Z.ltb_ge _ _)) by done.
  cbn [orb negb fst snd]. rewrite exec_bind.
  match goal with |- context [exec ?b ?w0] => pose proof (keeps_exec w_rooms b w0 (nBroadcast_keeps _ _ _ _)) as Hk end.
  destruct (exec (nativeFileCollabBroadcast _ _ _ _) _) as [u w3]. cbn [snd] in Hk. cbn [exec mret prog_mret fst snd].
  split; [done|exact Hk].
Qed.

Definition joined (chunks : list string) : string := foldr (λ a b, a +:+ b)%string EmptyString chunks.

Lemma strlen_nonneg (a : string) : 0 ≤ strlen a.
Proof. unfold strlen. lia. Qed.

Lemma joined_nonempty chunks last_ : last_ ≠ EmptyString → (joined chunks +:+ last_)%string ≠ EmptyString.
Proof. intros Hl. destruct (joined chunks); [done|discriminate]. Qed.

(** The session afterwards, from any pending piece. *)
Lemma exec_send_update h given path sid s m w chunks last_ update d :
  may_update h given path w → Forall (λ c, c ≠ EmptyString) (chunks ++ [last_]) →
  subscribed h path sid s m w → update = (nm_pending m +:+ (joined chunks +:+ last_))%string →
  strlen update ≤ cap → update ≠ EmptyString → crdt_ApplyUpdateV1 (ns_doc s) update = Some d →
  strlen (crdt_ToString d) ≤ cap → wrap64 (ns_applied s + strlen update) ≤ cap * 8 →
  ∃ s', n_sessions (w_rooms (snd (exec (send_update h given chunks last_) w))) !! sid = Some s'
      ∧ ns_doc s' = d ∧ ns_dirty s' = true ∧ ns_members s' !! h = Some (set_pending EmptyString m).
Proof.
  intros Hmay Hpieces Hsub Hup Hlen Hne Happ Htext Hbytes. revert s m w Hmay Hsub Hup Happ Hbytes.
  induction chunks as [|c chunks IH]; intros s m w Hmay Hsub Hup Happ Hbytes; cbn [send_update];
    apply list.Forall_cons in Hpieces as [Hc0 Hpieces]; unfold mbind, prog_mbind; rewrite exec_bind, (exec_request _ _ _ _ _ _ Hmay Hc0);
    unfold mbind, prog_mbind; rewrite exec_bind.
  - destruct (exec_finished h path sid s m last_ w update d Hsub Hup Hlen Hne Happ Htext Hbytes) as [Hf Hr].
    destruct (exec (nativeFileCollabApplyUpdate _ _ _ _) w) as [a w1]. cbn [fst snd] in Hf, Hr. subst a. simpl. rewrite Hr.
    pose proof (sb_session _ _ _ _ _ _ (with_pending_subscribed h path sid s m EmptyString w Hsub)) as Hs.
    cbn [set_nsession n_sessions]. rewrite list_lookup_alter_eq, Hs. eexists. split; [done|].
    simpl. by rewrite lookup_insert_eq.
  - cbn [joined foldr] in Hup. fold (joined chunks) in Hup.
    assert (strlen (nm_pending m) + strlen c ≤ cap) as Hc.
    { rewrite Hup, !strlen_app in Hlen. pose proof (strlen_nonneg (joined chunks)). pose proof (strlen_nonneg last_). lia. }
    rewrite (exec_unfinished _ _ _ _ _ _ _ Hsub Hc). cbn [fst snd answered exec mret prog_mret].
    eapply (IH Hpieces _ (set_pending (nm_pending m +:+ c) m)); [exact Hmay|by apply with_pending_subscribed| |done|done].
    rewrite Hup. cbn [set_pending nm_pending]. by rewrite !app_str_assoc.
Qed.

(** C29: an update sent in any number of pieces is applied whole.  Collaborative editing is
    enabled; a client that may write the file names it by an allowed path, is subscribed to
    it and has nothing pending; it sends the pieces of an update, none of them empty, in
    base64, the last one marked, and no other request runs in between.  If the update fits
    the configured size, is accepted by the document and leaves it within its limits, then
    every piece passes the checks of the request, the document afterwards is the result of
    applying the pieces put together, the session is dirty, and nothing is pending. *)
Theorem update_reassembled h given path sid s m w chunks last_ d :
  may_update h given path w → Forall (λ c, c ≠ EmptyString) (chunks ++ [last_]) →
  subscribed h path sid s m w → nm_pending m = EmptyString →
  strlen (joined chunks +:+ last_) ≤ cap →
  crdt_ApplyUpdateV1 (ns_doc s) (joined chunks +:+ last_) = Some d →
  strlen (crdt_ToString d) ≤ cap → wrap64 (ns_applied s + strlen (joined chunks +:+ last_)) ≤ cap * 8 →
  ∃ s', n_sessions (w_rooms (snd (exec (send_update h given chunks last_) w))) !! sid = Some s'
      ∧ ns_doc s' = d ∧ ns_dirty s' = true ∧ ns_members s' !! h = Some m.
Proof.
  intros Hmay Hpieces Hsub Hp Hlen Happ Htext Hbytes.
  assert (last_ ≠ EmptyString) as Hl by (by apply Forall_app in Hpieces as [_ [? _]%list.Forall_cons]).
  destruct (exec_send_update h given path sid s m w chunks last_ _ d Hmay Hpieces Hsub ltac:(by rewrite Hp) Hlen
              (joined_nonempty _ _ Hl) Happ Htext Hbytes) as (s' & Hs' & Hd & Hdirty & Hm).
  exists s'. split_and!; [done|done|done|]. rewrite Hm. destruct m as [u p]. simpl in Hp. by subst p.
Qed.
End Chunks.
