(* ===== verification/NativeExample.v ===== *)
(** * Native file collaboration at work

    A concrete environment, in which the file changes on disk after a while; the facts of
    [NativeSafe] applied to it; and two behaviours of the code its callers would not
    expect. *)

From stdpp Require Import base gmap sets list strings numbers.
From Stdlib Require Import Ascii.
From S2P Require Import Prelude GoStrings Paths PathsFacts Tokens Collab Threads Socket SocketSafe Rooms RoomsFacts Native NativeFacts NativeSafe.
Open Scope Z_scope.

(** ** An environment *)

#[local] Instance nx_world : World := {|
  clock n := 1700000000 * second + Z.of_nat n;
  connection _ _ := Written;
  range A _ l := l;
  range_perm A _ l := Permutation_refl l;
  server_of _ := "srv"%string;
  ExpirationTimeValidator _ _ := true;
  verify_websocket _ token :=
    Some (mkWebsocket (mkPayload (Some 5) None "jti") "user" "srv"
            ["websocket.connect"; "file.read-content"; "file.update"]%string "websocket" "Ann" None) |}.
#[local] Instance nx_ops : ServerOps := {|
  IsSuspended _ _ := false; environment_State _ _ := "running"%string; IsAttached _ _ := Some true;
  IsRunning _ _ := true; Readlog _ _ := Ok []; SendCommand_result _ _ := None; HandlePowerAction_result _ _ := None;
  onAuthenticated _ _ := None; IsInstalling _ _ := false; IsTransferring _ _ := false; Proc _ _ := EmptyString;
  import_status _ _ := EmptyString; error_id _ := EmptyString; context_err _ _ := None |}.
#[local] Instance nx_rate : RateLimiter unit := {| rate_New _ _ := tt; rate_Allow _ _ := (true, tt) |}.
#[local] Instance nx_unicode : UnicodeTables :=
  {| unicode_lower s := s; unicode_upper s := s; unicode_trim s := s |}.
(** A document that is its text, to which an update is appended. *)
#[local] Instance nx_crdt : Crdt string := {|
  crdt_New := EmptyString; crdt_Insert s d := (s +:+ d)%string; crdt_ToString d := d;
  crdt_EncodeStateAsUpdate d := d; crdt_ApplyUpdateV1 d u := Some (d +:+ u)%string |}.
#[local] Instance nx_laws : CrdtLaws string.
Proof. split; [reflexivity|]. intros s. apply app_str_nil. Qed.
(** The hash of a text is the text; the file says "one", and "two" from the moment 20. *)
#[local] Instance nx_native : NativeOps := {|
  sha256 s := s; configured_cap := 1; configured_enabled := true; IsIgnored _ _ _ := false;
  file_at n _ path :=
    if bool_decide (path = "/dir/a.txt"%string)
    then Some (mkOpened false 3 (Some (if (n <? 20)%nat then "one" else "two")%string)) else None;
  Write_result _ _ _ := None; ShouldRecordFileHistory _ _ := true;
  RecordFileRevision_result _ _ _ := Ok 7 |}.

Abbreviation nx_wd := (world unit (natives string) nbody).
Definition nmessage (h event : string) (args : list string) : prog nx_wd unit :=
  handleMessage (λ _ _, None) HandleNativeFileCollaboration IsNativeFileCollaborationEvent h (mkMessage event args).
Definition n0 : denials := mkDenials 0 ∅ ∅.
Lemma nmessage_entry h e args : IsBetterFilesCollaborationEvent e = false → nentry (nmessage h e args).
Proof. intros. by apply nstart_message. Qed.
Lemma nx_cap : 0 ≤ configured_cap ≤ uint64_max.
Proof. vm_compute. split; discriminate. Qed.
Lemma nx_no_nul h : contains_byte nul_byte (server_of h) = false.
Proof. reflexivity. Qed.

Definition nx_in_turn (ps : list (prog nx_wd unit)) (w : nx_wd) : nx_wd := foldl (λ w p, snd (exec p w)) w ps.
Lemma nx_running ps w : Forall nentry ps → nrunning n0 w → nrunning n0 (nx_in_turn ps w).
Proof.
  revert w. induction ps as [|p ps IH]; intros w Hps Hw; [done|]. inversion Hps; subst.
  apply IH; [done|]. by apply nrunning_exec.
Qed.

(** One client subscribes and updates. *)
Definition nx_first : list (prog nx_wd unit) :=
  [nmessage "a" "auth" ["t"%string]; nmessage "a" "file collab subscribe" ["dir\a.txt"%string]].
Definition nx_one : nx_wd := nx_in_turn nx_first (nstart n0).
Lemma nx_one_running : nrunning n0 nx_one.
Proof. apply nx_running; [|apply nrunning_start]. by repeat (constructor; [by apply nmessage_entry|]). Qed.
Definition nx_session : NSession (D:=string) := nsession_at (w_rooms nx_one) 0.
Definition nx_member : NMember := default (mkNMember (mkParticipant "" "" None) "") (ns_members nx_session !! "a"%string).

Lemma native_limits_witness :
  nrunning n0 nx_one ∧ n_sessions (w_rooms nx_one) !! 0%nat = Some nx_session ∧ ns_text nx_session = "one"%string
  ∧ strlen (ns_text nx_session) ≤ NativeFileCollaborationFileSizeCap.
Proof.
  split; [exact nx_one_running|]. split; [vm_compute; reflexivity|]. split; [vm_compute; reflexivity|].
  destruct (native_limits nx_cap nx_no_nul n0 nx_one nx_one_running) as (_ & _ & Hs & _).
  destruct (Hs 0%nat nx_session ltac:(vm_compute; reflexivity)) as (_ & Hlen & _). exact Hlen.
Defined.

Lemma nx_subscribed : subscribed "a" "/dir/a.txt" 0 nx_session nx_member nx_one.
Proof. split; vm_compute; reflexivity. Qed.
(** "+two" in three pieces, of a path the client writes in its own way. *)
Lemma nx_may_update : may_update "a" "dir\a.txt" "/dir/a.txt" nx_one.
Proof.
  split; [reflexivity|]. split; [vm_compute; reflexivity|].
  eexists. split; [vm_compute; reflexivity|vm_compute; reflexivity].
Qed.
Lemma update_reassembled_witness :
  ∃ s', n_sessions (w_rooms (snd (exec (send_update "a" "dir\a.txt" ["+"; "tw"]%string "o") nx_one))) !! 0%nat = Some s'
    ∧ ns_doc s' = "one+two"%string.
Proof.
  destruct (update_reassembled "a" "dir\a.txt" "/dir/a.txt" 0 nx_session nx_member nx_one ["+"; "tw"]%string "o" "one+two"
              nx_may_update ltac:(repeat (constructor; [discriminate|]); constructor) nx_subscribed) as (s' & Hs' & Hd & _);
    [vm_compute; reflexivity|vm_compute; discriminate|vm_compute; reflexivity
    |vm_compute; discriminate|vm_compute; discriminate|].
  exists s'. split; [exact Hs'|exact Hd].
Defined.

(** ** Behaviours *)

(** The file changes while a client is subscribed, and a second client subscribes: the
    session starts again from the new content, and the first client, whose document was
    made from the old one, is told only that there is another participant. *)
Definition nx_second : list (prog nx_wd unit) :=
  [nmessage "b" "auth" ["t"%string]; nmessage "b" "file collab subscribe" ["/dir/a.txt"%string]].
Definition nx_two : nx_wd := nx_in_turn nx_second nx_one.
Theorem subscribe_resets_silently :
  nrunning n0 nx_two
  ∧ ns_text (nsession_at (w_rooms nx_one) 0) = "one"%string
  ∧ ns_text (nsession_at (w_rooms nx_two) 0) = "two"%string
  ∧ ((msg_Event ∘ sn_message) <$> filter (λ x, sn_to x = "a"%string) (drop (length (w_sent nx_one)) (w_sent nx_two)))
    = ["file collab participants"%string].
Proof.
  split; [|vm_compute; done]. apply nx_running; [|apply nx_one_running].
  by repeat (constructor; [by apply nmessage_entry|]).
Qed.

(** A client subscribes while the timer of the emptied session fires: it finds the
    session before the timer removes it, and becomes a member of a session that no
    request can find any more. *)
Definition nx_racing : list (prog nx_wd unit) :=
  [nmessage "a" "auth" ["t"%string]; nmessage "b" "auth" ["t"%string];
   nmessage "a" "file collab subscribe" ["/dir/a.txt"%string]; nativeFileCollabDisconnect "a";
   nmessage "b" "file collab subscribe" ["/dir/a.txt"%string]; teardown 0 2].
Definition nx_turns : list nat :=
  replicate 60 0%nat ++ replicate 60 1%nat ++ replicate 60 2%nat ++ replicate 20 3%nat
  ++ replicate 12 4%nat ++ [5%nat] ++ replicate 60 4%nat.
Definition nx_raced : nx_wd := snd (schedule nx_turns (nx_racing, nstart n0)).
Theorem subscribe_lost_in_race :
  nrunning n0 nx_raced ∧ n_registry (w_rooms nx_raced) = ∅
  ∧ is_Some (ns_members (nsession_at (w_rooms nx_raced) 0) !! "b"%string)
  ∧ fst (exec (nativeFileCollabSubscribedSession "b" "/dir/a.txt") nx_raced) = None.
Proof.
  split; [|vm_compute; eauto]. apply nrunning_schedule.
  repeat first [constructor; [first [by apply nmessage_entry|apply nstart_disconnect|apply nstart_teardown]|]|constructor].
Qed.
