(* ===== verification/Network.v ===== *)
(** * Addresses, allow lists and connections (internal/network, server/websockets.go)

    Which destinations Wings may connect to on behalf of a user, and the counters of open
    connections.  The types [netip.Addr] and [netip.Prefix] of Go's library are modelled with
    the functions the code uses; an address is valid, and the invalid one is [None]. *)

From stdpp Require Import base gmap list strings numbers.
From Stdlib Require Import Ascii.
From S2P Require Import Prelude GoStrings Policy.
Open Scope Z_scope.

(** ** [netip] and [net] *)

(** An IPv6 address has a zone, which is mostly empty. *)
Inductive Addr := Addr4 (n : Z) | Addr6 (n : Z) (zone : string).
#[export] Instance Addr_eq_dec : EqDecision Addr.
Proof. solve_decision. Defined.

(** The string before the last occurrence of a byte, and the rest from it on. *)
Fixpoint last_byte (b : ascii) (s : string) : option (string * string) :=
  match s with
  | EmptyString => None
  | String c s' =>
      match last_byte b s' with
      | Some (before, after) => Some (String c before, after)
      | None => if Ascii.eqb c b then Some (EmptyString, s) else None
      end
  end.
(** The string before the first occurrence of a byte, and the rest after it. *)
Fixpoint upto_byte (b : ascii) (s : string) : option (string * string) :=
  match s with
  | EmptyString => None
  | String c s' =>
      if Ascii.eqb c b then Some (EmptyString, s')
      else '(before, after) ← upto_byte b s'; Some (String c before, after)
  end.
Definition tail_byte (s : string) : string := String.substring 1 (String.length s) s.

(** [net.SplitHostPort] *)
Definition SplitHostPort (hostport : string) : option (string * string) :=
  '(before, colon) ← last_byte ":"%char hostport;
  let port := tail_byte colon in
  match hostport with
  | String "["%char s =>
      (* the first "]" is just before the last colon *)
      '(host, after) ← upto_byte "]"%char s;
      if bool_decide (after = colon) && negb (contains_byte "["%char s) && negb (contains_byte "]"%char after)
      then Some (host, port) else None
  | _ =>
      if contains_byte ":"%char before || contains_byte "["%char hostport || contains_byte "]"%char hostport
      then None else Some (before, port)
  end.

(** [netip.ParseAddr] *)
Definition ParseAddr (s : string) : option Addr :=
  c ← family s;
  if Ascii.eqb c dot then Addr4 <$> parse_v4 s
  else if Ascii.eqb c ":"%char then
    match upto_byte "%"%char s with
    | None => (λ n, Addr6 n EmptyString) <$> parse_v6 s
    | Some (s, zone) => if bool_decide (zone = EmptyString) then None else (λ n, Addr6 n zone) <$> parse_v6 s
    end
  else None.

(** [net.ParseIP(v) != nil] *)
Definition ip_ok (v : string) : bool :=
  match ParseAddr v with
  | Some (Addr4 _) => true
  | Some (Addr6 _ zone) => bool_decide (zone = EmptyString)
  | None => false
  end.

Definition Unmap (a : Addr) : Addr :=
  match a with Addr6 n _ => if is4in6 n then Addr4 (n `mod` 2 ^ 32) else a | _ => a end.
Definition without_zone (a : Addr) : Addr := match a with Addr6 n _ => Addr6 n EmptyString | _ => a end.

(** A prefix: an address without a zone and the number of bits that count. *)
Inductive Prefix := Prefix4 (n bits : Z) | Prefix6 (n bits : Z).
Definition same_bits (width bits a b : Z) : bool := a / 2 ^ (width - bits) =? b / 2 ^ (width - bits).
Definition Contains_addr (p : Prefix) (a : Addr) : bool :=
  match p, a with
  | Prefix4 n bits, Addr4 m => same_bits 32 bits n m
  | Prefix6 n bits, Addr6 m zone => bool_decide (zone = EmptyString) && same_bits 128 bits n m
  | _, _ => false
  end.
(** [netip.ParsePrefix] *)
Definition ParsePrefix (s : string) : option Prefix :=
  '(front, rest) ← last_byte slash s;
  a ← ParseAddr front;
  match a with
  | Addr4 n => bits ← prefix_bits (tail_byte rest); if 32 <? bits then None else Some (Prefix4 n bits)
  | Addr6 n zone =>
      if negb (bool_decide (zone = EmptyString)) then None
      else bits ← prefix_bits (tail_byte rest); if 128 <? bits then None else Some (Prefix6 n bits)
  end.

Definition IsLoopback (a : Addr) : bool :=
  match a with Addr4 n => n / 2 ^ 24 =? 127 | Addr6 n _ => n =? 1 end.
Definition IsMulticast (a : Addr) : bool :=
  match a with Addr4 n => n / 2 ^ 28 =? 14 | Addr6 n _ => n / 2 ^ 120 =? 255 end.
Definition IsLinkLocalUnicast (a : Addr) : bool :=
  match a with Addr4 n => n / 2 ^ 16 =? 43518 | Addr6 n _ => n / 2 ^ 118 =? 1018 end.
Definition IsUnspecified (a : Addr) : bool :=
  match a with Addr4 n => n =? 0 | Addr6 n zone => (n =? 0) && bool_decide (zone = EmptyString) end.
Definition IsBroadcast (a : Addr) : bool := match a with Addr4 n => n =? 2 ^ 32 - 1 | _ => false end.
Definition IsGlobalUnicast (a : Addr) : bool :=
  negb (IsUnspecified a) && negb (IsBroadcast a) && negb (IsLoopback a) && negb (IsMulticast a) && negb (IsLinkLocalUnicast a).
Definition IsPrivate (a : Addr) : bool :=
  match a with
  | Addr4 n => (n / 2 ^ 24 =? 10) || (n / 2 ^ 20 =? 2753) || (n / 2 ^ 16 =? 49320)
  | Addr6 n _ => n / 2 ^ 121 =? 126
  end.

(** ** Internal addresses (address.go) *)

(** An address of IPv4 from its bytes, and the high 32 bits of IPv6 from two groups. *)
Definition quad (a b c d : Z) : Z := ((a * 256 + b) * 256 + c) * 256 + d.
Definition groups (a b c : Z) : Z := ((a * 65536 + b) * 65536 + c) * 2 ^ 80.

Definition nat64Prefix : Prefix := Prefix6 (groups 100 65435 0) 96.
Definition specialPurposePrefixes : list Prefix :=
  [Prefix4 (quad 0 0 0 0) 8; Prefix4 (quad 100 64 0 0) 10; Prefix4 (quad 192 0 0 0) 24; Prefix4 (quad 192 0 2 0) 24;
   Prefix4 (quad 192 88 99 0) 24; Prefix4 (quad 198 18 0 0) 15; Prefix4 (quad 198 51 100 0) 24; Prefix4 (quad 203 0 113 0) 24;
   Prefix4 (quad 240 0 0 0) 4; Prefix6 (groups 0 0 0) 96; Prefix6 (groups 100 65435 1) 48; Prefix6 (groups 256 0 0) 64;
   Prefix6 (groups 8193 0 0) 23; Prefix6 (groups 8193 3512 0) 32; Prefix6 (groups 8194 0 0) 16; Prefix6 (groups 16383 0 0) 20;
   Prefix6 (groups 24320 0 0) 16; Prefix6 (groups 65216 0 0) 10].

(** The call for the embedded address: it is of IPv4, so that the prefix of NAT64 is not asked
    for again. *)
Definition IsInternal4 (n : Z) : bool :=
  let addr := Addr4 n in
  negb (IsGlobalUnicast addr) || IsPrivate addr || existsb (λ p, Contains_addr p addr) specialPurposePrefixes.
Definition IsInternal (a : Addr) : bool :=
  let addr := without_zone (Unmap a) in
  if negb (IsGlobalUnicast addr) || IsPrivate addr then true
  else if Contains_addr nat64Prefix addr then
    match addr with Addr6 n _ => IsInternal4 (n `mod` 2 ^ 32) | Addr4 n => IsInternal4 n end
  else existsb (λ p, Contains_addr p addr) specialPurposePrefixes.

(** ** Allow lists (allowlist.go) *)

Section Allowlist.
Context `{UnicodeTables}.

Definition trim_dot (s : string) : string := if HasSuffix s "." then String.substring 0 (String.length s - 1) s else s.
Definition entry_allows (host : string) (addr : Addr) (entry : string) : bool :=
  let entry := trim_dot (ToLower (TrimSpace entry)) in
  if bool_decide (entry = EmptyString) then false
  else bool_decide (entry = host)
       || match ParseAddr entry with Some a => bool_decide (Unmap a = addr) | None => false end
       || match ParsePrefix entry with Some p => Contains_addr p addr | None => false end.
Definition IsAllowed (allowlist : list string) (host : string) (addr : Addr) : bool :=
  existsb (entry_allows (trim_dot (ToLower host)) (Unmap addr)) allowlist.
End Allowlist.

(** ** Limited listeners (limit_listener.go) *)

Definition limitWarnInterval : Z := 60 * 10 ^ 9.
(** A connection knows whether it gave its place back. *)
Record limitListener := mkLimit { ll_limit : Z; ll_open : Z; ll_lastWarn : Z; ll_conns : list bool; ll_warnings : list Z }.
Definition LimitListener (n : Z) : limitListener := mkLimit n 0 0 [] [].

(** [warn]; between the load and the swap another goroutine may have warned ([other]). *)
Definition warn (now : Z) (other : option Z) (l : limitListener) : limitListener :=
  let last := ll_lastWarn l in
  let current := default last other in
  let l := mkLimit (ll_limit l) (ll_open l) current (ll_conns l) (ll_warnings l) in
  if (negb (last =? 0) && (now - last <? limitWarnInterval)) || negb (current =? last) then l
  else mkLimit (ll_limit l) (ll_open l) now (ll_conns l) (ll_warnings l ++ [now]).
(** [Accept] of a connection that the inner listener has accepted. *)
Definition limit_Accept (now : Z) (l : limitListener) : limitListener :=
  let l := mkLimit (ll_limit l) (ll_open l + 1) (ll_lastWarn l) (ll_conns l ++ [false]) (ll_warnings l) in
  if ll_limit l <=? ll_open l then warn now None l else l.
Definition limit_Close (i : nat) (l : limitListener) : limitListener :=
  match ll_conns l !! i with
  | Some false => mkLimit (ll_limit l) (ll_open l - 1) (ll_lastWarn l) (<[i := true]> (ll_conns l)) (ll_warnings l)
  | _ => l
  end.

(** ** The websockets of a server (server/websockets.go) *)

(** A connection: the cancel function by a number, and who it is authenticated as, when asked
    ([None] without a function to ask). *)
Record websocketConn := mkConn { wc_cancel : nat; wc_user : option string }.
Record WebsocketBag := mkBag { wb_conns : gmap string websocketConn; wb_cancelled : list nat }.
Definition Websockets : WebsocketBag := mkBag ∅ [].

Definition bag_Len (b : WebsocketBag) : nat := size (wb_conns b).
Definition bag_Push (u : string) (cancel : nat) (b : WebsocketBag) : WebsocketBag :=
  mkBag (<[u := mkConn cancel None]> (wb_conns b)) (wb_cancelled b).
Definition TryPush (u : string) (cancel : nat) (user : string) (max : nat) (b : WebsocketBag) : bool * WebsocketBag :=
  if bool_decide (wb_conns b !! u = None) && bool_decide (max ≤ size (wb_conns b))%nat then (false, b)
  else (true, mkBag (<[u := mkConn cancel (Some user)]> (wb_conns b)) (wb_cancelled b)).
Definition bag_Remove (u : string) (b : WebsocketBag) : WebsocketBag := mkBag (delete u (wb_conns b)) (wb_cancelled b).
Definition bag_CancelAll (b : WebsocketBag) : WebsocketBag :=
  mkBag ∅ (wb_cancelled b ++ (wc_cancel <$> (map_to_list (wb_conns b)).*2)).
Definition is_user (user : string) (p : string * websocketConn) : Prop := wc_user (snd p) = Some user.
#[export] Instance is_user_dec user p : Decision (is_user user p).
Proof. unfold is_user. apply _. Defined.
Definition CancelUser (user : string) (b : WebsocketBag) : WebsocketBag :=
  mkBag (filter (λ p, ¬ is_user user p) (wb_conns b))
        (wb_cancelled b ++ (wc_cancel <$> (filter (is_user user) (map_to_list (wb_conns b))).*2)).
