(* ===== verification/NetworkFacts.v ===== *)
(** * Internal addresses, exactly

    [IsInternal] decides membership in the union of the special ranges, with the address that
    NAT64 embeds in place of an address of NAT64; the counters of connections count what is
    open. *)

From stdpp Require Import base gmap list strings numbers.
From S2P Require Import Prelude GoStrings Policy AddrText Network.
Open Scope Z_scope.
#[local] Ltac Zify.zify_post_hook ::= Z.to_euclidean_division_equations.

(** The ranges that are not globally reachable unicast, by registry. *)
Definition ranges4 : list (Z * Z) :=
  [(quad 0 0 0 0, 8); (quad 10 0 0 0, 8); (quad 100 64 0 0, 10); (quad 127 0 0 0, 8); (quad 169 254 0 0, 16); (quad 172 16 0 0, 12);
   (quad 192 0 0 0, 24); (quad 192 0 2 0, 24); (quad 192 88 99 0, 24); (quad 192 168 0 0, 16); (quad 198 18 0 0, 15);
   (quad 198 51 100 0, 24); (quad 203 0 113 0, 24); (quad 224 0 0 0, 4); (quad 240 0 0 0, 4)].
Definition ranges6 : list (Z * Z) :=
  [(groups 0 0 0, 96); (groups 100 65435 1, 48); (groups 256 0 0, 64); (groups 8193 0 0, 23); (groups 8193 3512 0, 32);
   (groups 8194 0 0, 16); (groups 16383 0 0, 20); (groups 24320 0 0, 16); (groups 64512 0 0, 7); (groups 65152 0 0, 10);
   (groups 65216 0 0, 10); (groups 65280 0 0, 8)].
Definition within (width n : Z) (r : Z * Z) : bool := same_bits width (snd r) (fst r) n.

(** Whether an address is in one of the ranges, after the mappings of IPv4 into IPv6. *)
Definition special4 (n : Z) : bool := existsb (within 32 n) ranges4.
Definition special (a : Addr) : bool :=
  match a with
  | Addr4 n => special4 n
  | Addr6 n _ =>
      if is4in6 n then special4 (n `mod` 2 ^ 32)
      else if same_bits 128 96 (groups 100 65435 0) n then special4 (n `mod` 2 ^ 32)
      else existsb (within 128 n) ranges6
  end.
Definition valid_addr (a : Addr) : Prop :=
  match a with Addr4 n => 0 ≤ n < 2 ^ 32 | Addr6 n _ => 0 ≤ n < 2 ^ 128 end.

Lemma same_bits_true width bits a b : same_bits width bits a b = true ↔ b / 2 ^ (width - bits) = a / 2 ^ (width - bits).
Proof. unfold same_bits. rewrite Z.eqb_eq. by split. Qed.
(** The tests as propositions about quotients, with the constants computed. *)
Ltac quotients :=
  apply eq_true_iff_eq; unfold within;
  cbn [existsb specialPurposePrefixes Contains_addr ranges4 ranges6 within fst snd];
  rewrite ?orb_true_iff, ?andb_true_iff, ?negb_true_iff, ?andb_false_iff, ?negb_false_iff, ?Z.eqb_eq, ?same_bits_true;
  repeat match goal with
    | |- context [?q / 2 ^ (?w - ?b)] =>
        lazymatch q with
        | context [quad _ _ _ _] => let x := eval vm_compute in (q / 2 ^ (w - b)) in change (q / 2 ^ (w - b)) with x
        | context [groups _ _ _] => let x := eval vm_compute in (q / 2 ^ (w - b)) in change (q / 2 ^ (w - b)) with x
        end
    end;
  repeat match goal with |- context [?w - ?b] => let x := eval vm_compute in (w - b) in progress change (w - b) with x end.

Ltac by_cases := split; intros Hq; repeat destruct Hq as [Hq|Hq]; tauto.

Lemma IsInternal4_special n : 0 ≤ n < 2 ^ 32 → IsInternal4 n = special4 n.
Proof.
  intros Hn. unfold IsInternal4, special4, IsGlobalUnicast, IsUnspecified, IsBroadcast, IsLoopback, IsMulticast, IsLinkLocalUnicast, IsPrivate.
  quotients.
  assert (n = 0 → n / 2 ^ 24 = 0) by (by intros ->). assert (n = 4294967295 → n / 2 ^ 28 = 15) by (by intros ->). by_cases.
Qed.
Lemma IsInternal_v4 n : IsInternal (Addr4 n) = IsInternal4 n.
Proof. unfold IsInternal, IsInternal4. cbn [Unmap without_zone nat64Prefix Contains_addr]. by destruct (_ || _). Qed.
Lemma IsInternal_v6 n : 0 ≤ n < 2 ^ 128 → is4in6 n = false →
  IsInternal (Addr6 n EmptyString)
  = if same_bits 128 96 (groups 100 65435 0) n then IsInternal4 (n `mod` 2 ^ 32) else existsb (within 128 n) ranges6.
Proof.
  intros Hn H4. unfold IsInternal, Unmap. rewrite H4. cbn [without_zone nat64Prefix Contains_addr]. rewrite bool_decide_true by done.
  cbn [andb]. unfold IsGlobalUnicast, IsUnspecified, IsBroadcast, IsLoopback, IsMulticast, IsLinkLocalUnicast, IsPrivate.
  destruct (same_bits 128 96 _ n) eqn:Hs.
  - apply same_bits_true in Hs. change (groups 100 65435 0 / 2 ^ (128 - 96)) with 122099644659926101980610560 in Hs. change (128 - 96) with 32 in Hs.
    match goal with |- (if ?b then _ else _) = _ => assert (b = false) as ->; [|done] end.
    rewrite ?orb_false_iff, ?negb_false_iff, ?andb_true_iff, ?negb_true_iff, ?andb_false_iff, ?Z.eqb_neq. rewrite bool_decide_true by done. split_and!; [left; lia|done|lia..].
  - rewrite bool_decide_true by done. match goal with |- (if ?b then true else ?c) = _ => transitivity (b || c); [by destruct b|] end.
    rewrite !andb_true_r. quotients.
    assert (n = 0 → n / 2 ^ 32 = 0) by (by intros ->). assert (n = 1 → n / 2 ^ 32 = 0) by (by intros ->).
    assert (bool_decide (EmptyString = EmptyString) = true) by done. by_cases.
Qed.

(** An address counts as internal exactly when it is in one of the special ranges of the
    registries of IPv4 and IPv6: this network, private, shared, loopback, link local, protocol
    assignments, documentation, 6to4, benchmarking, multicast and reserved; and of IPv6 also
    IPv4-compatible, discard, unique local, site local and segment routing.  An address of
    IPv4 that is mapped into IPv6 or embedded by NAT64 counts like itself, and a zone makes no
    difference. *)
Theorem IsInternal_exact a : valid_addr a → IsInternal a = special a.
Proof.
  assert (∀ n, 0 ≤ n `mod` 2 ^ 32 < 2 ^ 32) as Hmod by (intros n; by apply Z.mod_pos_bound).
  destruct a as [n|n zone]; simpl; intros Hn; [rewrite IsInternal_v4; by apply IsInternal4_special|].
  destruct (is4in6 n) eqn:H4.
  - assert (IsInternal (Addr6 n zone) = IsInternal (Addr4 (n `mod` 2 ^ 32))) as -> by (unfold IsInternal, Unmap; by rewrite H4).
    rewrite IsInternal_v4. by apply IsInternal4_special.
  - assert (IsInternal (Addr6 n zone) = IsInternal (Addr6 n EmptyString)) as -> by (unfold IsInternal, Unmap; by rewrite H4).
    rewrite IsInternal_v6 by done. destruct (same_bits _ _ _ _); [by apply IsInternal4_special|done].
Qed.
Lemma IsInternal_exact_witness :
  valid_addr (Addr6 (groups 100 65435 0 + quad 10 0 0 1) "eth0")
  ∧ IsInternal (Addr6 (groups 100 65435 0 + quad 10 0 0 1) "eth0") = special (Addr6 (groups 100 65435 0 + quad 10 0 0 1) "eth0")
  ∧ special (Addr6 (groups 100 65435 0 + quad 10 0 0 1) "eth0") = true ∧ special (Addr4 (quad 9 9 9 9)) = false.
Proof.
  assert (valid_addr (Addr6 (groups 100 65435 0 + quad 10 0 0 1) "eth0")) as Hv by (vm_compute; done).
  split; [exact Hv|]. split; [apply (IsInternal_exact _ Hv)|]. by vm_compute.
Defined.

(** ** Parsed addresses are valid *)

Lemma ParseAddr_valid s a : ParseAddr s = Some a → valid_addr a.
Proof.
  unfold ParseAddr. destruct (family s) as [c|]; [|done]. simpl. destruct (Ascii.eqb c dot).
  { destruct (parse_v4 s) eqn:E; [|done]. intros [= <-]. by eapply parse_v4_range. }
  destruct (Ascii.eqb c _); [|done]. destruct (upto_byte _ s) as [[s' zone]|].
  - case_bool_decide; [done|]. destruct (parse_v6 s') eqn:E; [|done]. intros [= <-]. by eapply parse_v6_range.
  - destruct (parse_v6 s) eqn:E; [|done]. intros [= <-]. by eapply parse_v6_range.
Qed.

(** ** Counters *)

Inductive limit_op := OpAccept (now : Z) | OpClose (i : nat).
Definition limit_run (l : limitListener) (o : limit_op) : limitListener :=
  match o with OpAccept now => limit_Accept now l | OpClose i => limit_Close i l end.
Definition still_open (l : list bool) : Z := zlen (filter (λ b, b = false) l).

Lemma warn_frame now other l : ll_open (warn now other l) = ll_open l ∧ ll_conns (warn now other l) = ll_conns l.
Proof. unfold warn. by destruct (_ || _). Qed.
Lemma still_open_close l i : l !! i = Some false → still_open (<[i := true]> l) = still_open l - 1.
Proof.
  unfold still_open, zlen. revert i. induction l as [|b l IH]; intros [|i] Hi; simpl in *; [done|done| |].
  - injection Hi as ->. rewrite filter_cons_False, filter_cons_True by done. simpl. lia.
  - rewrite !filter_cons. specialize (IH i Hi). destruct (decide (b = false)); simpl; lia.
Qed.
(** The counter is the number of open connections, however often each is closed. *)
Lemma limit_counts n ops : let l := foldl limit_run (LimitListener n) ops in ll_open l = still_open (ll_conns l).
Proof.
  cbv zeta. assert (∀ l, ll_open l = still_open (ll_conns l) → let l' := foldl limit_run l ops in ll_open l' = still_open (ll_conns l')) as H; [|by apply H].
  induction ops as [|o ops IH]; intros l Hl; [done|]. simpl. apply IH. destruct o as [now|i]; simpl.
  - unfold limit_Accept. cbn [ll_limit ll_open]. assert (still_open (ll_conns l ++ [false]) = still_open (ll_conns l) + 1) as Hs.
    { unfold still_open, zlen. rewrite list.filter_app, length_app. simpl. lia. }
    destruct (_ <=? _); [destruct (warn_frame now None (mkLimit (ll_limit l) (ll_open l + 1) (ll_lastWarn l) (ll_conns l ++ [false]) (ll_warnings l))) as [-> ->]|]; simpl; lia.
  - unfold limit_Close. destruct (ll_conns l !! i) as [[]|] eqn:Hi; [done| |done]. simpl. rewrite still_open_close by done. lia.
Qed.

(** A server has at most as many websockets as allowed, and disconnecting a user takes all of
    that user's and no other. *)
Lemma TryPush_bounded u cancel user max b :
  (bag_Len b ≤ max)%nat → (bag_Len (snd (TryPush u cancel user max b)) ≤ max)%nat.
Proof.
  unfold bag_Len, TryPush. intros Hb. destruct (wb_conns b !! u) as [c|] eqn:E.
  - rewrite bool_decide_false by done. simpl. by rewrite map_size_insert, E.
  - rewrite bool_decide_true by done. simpl. case_bool_decide as Hm; simpl; [done|]. rewrite map_size_insert_None by done. lia.
Qed.
Lemma CancelUser_exact user b u c :
  wb_conns b !! u = Some c →
  wb_conns (CancelUser user b) !! u = (if decide (wc_user c = Some user) then None else Some c)
  ∧ (wc_user c = Some user → wc_cancel c ∈ wb_cancelled (CancelUser user b)).
Proof.
  intros Hu. simpl. split.
  - case_decide as Hd.
    + apply map_lookup_filter_None_2. right. intros x Hx Hn. apply Hn. unfold is_user. simpl. congruence.
    + apply map_lookup_filter_Some_2; [done|]. unfold is_user. by simpl.
  - intros Hd. apply elem_of_app. right. apply list_elem_of_fmap. exists c. split; [done|]. apply list_elem_of_fmap. exists (u, c).
    split; [done|]. apply list_elem_of_filter. split; [done|]. by apply elem_of_map_to_list.
Qed.
