(* ===== verification/Activity.v ===== *)
(** * Activity (internal/models/activity.go, models.go, server/activity.go)

    An activity is one entry of a server's log of what its users did: a command, a power
    action, a file changed over SFTP.  Wings stores it in its local database and sends it
    to the Panel later. *)

From stdpp Require Import base gmap list strings numbers.
From Stdlib Require Import Ascii.
From S2P Require Import Prelude GoStrings Network.
Open Scope Z_scope.

(** A value of the metadata as it is read back from the database: a JSON array, or
    anything else; the elements and the other values are kept as JSON text. *)
Inductive mvalue := VSlice (l : list string) | VOther (json : string).
#[export] Instance mvalue_eq_dec : EqDecision mvalue.
Proof. solve_decision. Defined.
Definition ActivityMeta : Type := gmap string mvalue.

(** [JsonNullString]: [None] is the null value, whose [String] is empty. *)
Definition JsonNullString : Type := option string.
Definition String_of (v : JsonNullString) : string := default EmptyString v.

(** Times are in nanoseconds since the epoch; Go's zero time is the start of the year 1. *)
Definition zero_time : Z := -62135596800 * 10 ^ 9.
Record Activity := mkActivity {
  a_ID : Z;
  a_User : JsonNullString;
  a_Server : string;
  a_Event : string;
  a_Metadata : option ActivityMeta;
  a_IP : string;
  a_Timestamp : Z;
}.
#[export] Instance Activity_eq_dec : EqDecision Activity.
Proof. solve_decision. Defined.

Definition set_user (u : JsonNullString) (a : Activity) : Activity :=
  mkActivity (a_ID a) u (a_Server a) (a_Event a) (a_Metadata a) (a_IP a) (a_Timestamp a).
Definition set_id (i : Z) (a : Activity) : Activity :=
  mkActivity i (a_User a) (a_Server a) (a_Event a) (a_Metadata a) (a_IP a) (a_Timestamp a).
Definition set_meta (m : option ActivityMeta) (a : Activity) : Activity :=
  mkActivity (a_ID a) (a_User a) (a_Server a) (a_Event a) m (a_IP a) (a_Timestamp a).
Definition set_time (t : Z) (a : Activity) : Activity :=
  mkActivity (a_ID a) (a_User a) (a_Server a) (a_Event a) (a_Metadata a) (a_IP a) t.

Definition SetUser (u : string) (a : Activity) : Activity :=
  set_user (if bool_decide (u = EmptyString) then None else Some u) a.

Section Activity.
Context `{UnicodeTables}.

(** The hook that runs before an activity is stored; [now] is the clock.  A time that is
    converted to UTC is the same moment. *)
Definition BeforeCreate (now : Z) (a : Activity) : Activity :=
  let ip := match SplitHostPort (TrimSpace (a_IP a)) with Some (ip, _) => ip | None => a_IP a end in
  let timestamp := if a_Timestamp a =? zero_time then now else a_Timestamp a in
  let metadata := match a_Metadata a with None => Some ∅ | m => m end in
  mkActivity (a_ID a) (a_User a) (a_Server a) (a_Event a) metadata ip timestamp.
End Activity.

(** ** Server *)

Definition ActivityPowerPrefix : string := "server:power.".
Definition ActivityConsoleCommand : string := "server:console.command".
Definition ActivitySftpWrite : string := "server:sftp.write".
Definition ActivitySftpCreate : string := "server:sftp.create".
Definition ActivitySftpCreateDirectory : string := "server:sftp.create-directory".
Definition ActivitySftpRename : string := "server:sftp.rename".
Definition ActivitySftpDelete : string := "server:sftp.delete".
Definition ActivityFileUploaded : string := "server:file.uploaded".

Record RequestActivity := mkRequestActivity { ra_server : string; ra_user : string; ra_ip : string }.

Definition ra_SetUser (u : string) (ra : RequestActivity) : RequestActivity :=
  mkRequestActivity (ra_server ra) u (ra_ip ra).
Definition NewRequestActivity (server user ip : string) : RequestActivity := mkRequestActivity server user ip.
(** [RequestActivity.Event]; the identifier is assigned when the activity is stored. *)
Definition ra_Event (ra : RequestActivity) (event : string) (metadata : option ActivityMeta) : Activity :=
  SetUser (ra_user ra) (mkActivity 0 None (ra_server ra) event metadata (ra_ip ra) zero_time).

Example split_plain : SplitHostPort "203.0.113.9:2022" = Some ("203.0.113.9", "2022")%string.
Proof. reflexivity. Qed.
Example split_zone : SplitHostPort "[fe80::1%eth0]:2022" = Some ("fe80::1%eth0", "2022")%string.
Proof. reflexivity. Qed.
Example split_bare : SplitHostPort "fe80::1" = None.
Proof. reflexivity. Qed.
Example split_no_port : SplitHostPort "[fe80::1]" = None.
Proof. reflexivity. Qed.
