(* ===== verification/Remote.v ===== *)
(** * The client of the Panel (remote/http.go, servers.go, errors.go, types.go)

    A request is tried until it succeeds, fails for good or the backoff gives up.  Each
    attempt is one action on the shared state: the request as it was sent and its outcome
    are appended to a log.  The Panel and the network are a function of the log
    ([http_do]); the backoff library is the list of its verdicts between attempts
    ([backoff_waits]), arbitrary and finite; JSON is a parameter.  The number of response
    bodies that are open is counted. *)

From stdpp Require Import base gmap list strings numbers.
From S2P Require Import Prelude GoStrings Network Activity Threads.
Open Scope Z_scope.

(** ** Data *)

Record RequestError := mkRequestError {
  re_Code : string;
  re_Status : string;
  re_Detail : string;
  re_StatusCode : Z;                    (* of the response *)
}.
(** [RequestErrors]: what the body of an answer says. *)
Definition RequestErrors : Type := list (string * string * string).

(** Errors of the client; wrapping keeps what [errors.As] and [errors.Is] find. *)
Inductive rerr :=
| EMarshal | EBuild | ECanceled | ETransport | ERequest (e : RequestError) | EUnmarshal
| SftpInvalidCredentialsError.

Definition AsRequestError (e : rerr) : option RequestError :=
  match e with ERequest r => Some r | _ => None end.
Definition IsRequestError (e : rerr) : bool := match e with ERequest _ => true | _ => false end.
Definition RequestError_Error (re : RequestError) : string :=
  "Error response from Panel: " +:+ re_Code re +:+ ": " +:+ re_Detail re
  +:+ " (HTTP/" +:+ FormatInt (re_StatusCode re) +:+ ")".

Record Pagination := mkPagination {
  pg_CurrentPage : Z; pg_From : Z; pg_LastPage : Z; pg_PerPage : Z; pg_To : Z; pg_Total : Z;
}.
(** The two raw JSON messages are kept as text. *)
Record RawServerData := mkRawServerData {
  rs_Uuid : string; rs_Settings : string; rs_ProcessConfiguration : string;
}.
Record InstallationScript := mkInstallationScript {
  is_ContainerImage : string; is_Entrypoint : string; is_Script : string;
}.
Record SftpAuthRequest := mkSftpAuthRequest {
  sr_Type : string; sr_User : string; sr_Pass : string; sr_IP : string;
  sr_SessionID : string; sr_ClientVersion : string;
}.
Record SftpAuthResponse := mkSftpAuthResponse {
  sa_Server : string; sa_User : string; sa_Permissions : list string;
}.
Record BackupRemoteUploadResponse := mkBackupUpload { bu_Parts : list string; bu_PartSize : Z }.
Record BackupPart := mkBackupPart { bp_ETag : string; bp_PartNumber : Z }.
Record BackupRequest := mkBackupRequest {
  br_Checksum : string; br_ChecksumType : string; br_Size : Z; br_Successful : bool; br_Parts : list BackupPart;
}.
Record InstallStatusRequest := mkInstallStatus { ir_Successful : bool; ir_Reinstall : bool }.

(** What is marshalled into the body of a POST. *)
Inductive payload :=
| PNil
| PSuccessful (successful : bool)
| PActivity (data : list Activity)
| PInstallStatus (data : InstallStatusRequest)
| PSftpAuth (data : SftpAuthRequest)
| PBackup (data : BackupRequest).

Record http_request := mkHttpRequest {
  rq_Method : string;
  rq_URL : string;
  rq_Query : list (string * string);
  rq_UserAgent : string;
  rq_Authorization : string;
  rq_Body : option payload;
}.

(** What [http.Client.Do] returns: an answer, or an error, which may be that of a context
    that is done. *)
Inductive outcome := Answered (status : Z) (body : string) | NoAnswer (canceled : bool).
Abbreviation exchange := (http_request * outcome)%type.

(** Before another attempt the backoff waits, or gives up; the context may be done, before
    or while it waits. *)
Inductive verdict := Again | Stop | CtxDone.

Class Http := {
  http_do : list exchange → http_request → outcome;
  backoff_waits : list exchange → list verdict;
  valid_url : string → bool;                             (* http.NewRequestWithContext *)
  marshals : payload → bool;                             (* json.Marshal succeeds *)
  errors_of : string → RequestErrors;                    (* what unmarshalling leaves, also when it fails *)
  version : string;                                      (* system.Version *)
  interleaving : list exchange → list nat;               (* how goroutines take turns *)
}.
Class Decode (A : Type) := decode : string → option A.

(** ** The client *)

Record panel := mkPanel {
  pn_baseUrl : string;
  pn_tokenId : string;
  pn_token : string;
  pn_maxAttempts : Z;
  pn_log : list exchange;
  pn_open : Z;                          (* response bodies that are not closed *)
}.
Definition log_exchange (e : exchange) (n : Z) (p : panel) : panel :=
  mkPanel (pn_baseUrl p) (pn_tokenId p) (pn_token p) (pn_maxAttempts p) (pn_log p ++ [e]) (pn_open p + n).
Definition close_one (p : panel) : panel :=
  mkPanel (pn_baseUrl p) (pn_tokenId p) (pn_token p) (pn_maxAttempts p) (pn_log p) (pn_open p - 1).

(** [New], with the options applied: credentials and the attempts at most. *)
Definition New (base id token : string) (maxAttempts : Z) : panel :=
  mkPanel ((if HasSuffix base "/" then String.substring 0 (String.length base - 1) base else base) +:+ "/api/remote")
          id token maxAttempts [] 0.

(** The state: the client, and whatever else its callers share. *)
Record world (X : Type) := mkWorld { w_panel : panel; w_rest : X }.
Arguments mkWorld {X}.
Arguments w_panel {X}.
Arguments w_rest {X}.
Definition on_panel {X} (f : panel → panel) (w : world X) : world X := mkWorld (f (w_panel w)) (w_rest w).
Definition on_rest {X} (f : X → X) (w : world X) : world X := mkWorld (w_panel w) (f (w_rest w)).

Definition HasError (status : Z) : bool := (300 <=? status) || (status <? 200).

Section Client.
Context `{HH : Http} {X : Type}.
Abbreviation thread A := (prog (world X) A).

Definition SetCredentials (id token : string) : thread unit :=
  modify (on_panel (λ p, mkPanel (pn_baseUrl p) id token (pn_maxAttempts p) (pn_log p) (pn_open p))).
Definition credentials : thread (string * string) := gets (λ w, (pn_tokenId (w_panel w), pn_token (w_panel w))).
Definition close_body : thread unit := modify (on_panel close_one).

(** One attempt.  The URL is only read from the client; it never changes. *)
Definition requestOnce (method path : string) (body : option payload) (query : list (string * string)) :
    thread (result rerr (Z * string)) :=
  url ← gets (λ w, pn_baseUrl (w_panel w) +:+ path);
  if negb (valid_url url) then mret (Err EBuild) else
  '(tokenId, token) ← credentials;
  let req := mkHttpRequest method url query
               ("Pterodactyl Wings/v" +:+ version +:+ " (id:" +:+ tokenId +:+ ")")
               ("Bearer " +:+ tokenId +:+ "." +:+ token) body in
  o ← atomic (λ w,
    let o := http_do (pn_log (w_panel w)) req in
    (o, on_panel (log_exchange (req, o) (match o with Answered _ _ => 1 | NoAnswer _ => 0 end)) w));
  match o with
  | Answered status body => mret (Ok (status, body))
  | NoAnswer canceled => mret (Err (if canceled then ECanceled else ETransport))
  end.

(** [Response.Error] *)
Definition Response_Error (status : Z) (body : string) : option rerr :=
  if negb (HasError status) then None
  else
    let '(code, st, detail) :=
      default ("_MissingResponseCode", FormatInt status, "No error response returned from API endpoint.")%string
              (head (errors_of body)) in
    Some (ERequest (mkRequestError code st detail status)).

(** What one turn of the retried function says: done, an error to retry, or one for good. *)
Inductive attempt := Done (status : Z) (body : string) | Retriable (e : rerr) | Permanent (e : rerr).

Definition try_once (method path : string) (body : option payload) (query : list (string * string)) : thread attempt :=
  r ← requestOnce method path body query;
  match r with
  | Err ECanceled => mret (Permanent ECanceled)
  | Err e => mret (Retriable e)
  | Ok (status, answer) =>
      match Response_Error status answer with
      | Some e =>
          _ ← close_body;
          if (400 <=? status) && (status <? 500) then mret (Permanent e) else mret (Retriable e)
      | None => mret (Done status answer)
      end
  end.

(** [backoff.Retry] *)
Fixpoint retry (waits : list verdict) (operation : thread attempt) : thread (result rerr (Z * string)) :=
  a ← operation;
  match a with
  | Done status body => mret (Ok (status, body))
  | Permanent e => mret (Err e)
  | Retriable e =>
      match waits with
      | Again :: waits' => retry waits' operation
      | CtxDone :: _ => mret (Err ECanceled)
      | Stop :: _ | [] => mret (Err e)
      end
  end.

(** [client.backoff]: with a maximum, the library is told to stop after that many
    retries. *)
Definition backoff : thread (list verdict) :=
  gets (λ w,
    let p := w_panel w in
    let waits := backoff_waits (pn_log p) in
    if 0 <? pn_maxAttempts p then take (Z.to_nat (pn_maxAttempts p)) waits else waits).

Definition request (method path : string) (body : option payload) (query : list (string * string)) :
    thread (result rerr (Z * string)) :=
  waits ← backoff;
  retry waits (try_once method path body query).

Definition Get (path : string) (query : list (string * string)) : thread (result rerr (Z * string)) :=
  request "GET" path None query.
Definition Post (path : string) (data : payload) : thread (result rerr (Z * string)) :=
  if negb (marshals data) then mret (Err EMarshal) else request "POST" path (Some data) [].

(** [BindJSON]: the body is read, and unmarshalled. *)
Definition BindJSON {A} `{Decode A} (body : string) : result rerr A :=
  match decode body with Some a => Ok a | None => Err EUnmarshal end.

(** A POST of which only the status counts, and a GET whose answer is bound: in both the
    body is closed. *)
Definition send (path : string) (data : payload) : thread (result rerr unit) :=
  r ← Post path data;
  match r with
  | Err e => mret (Err e)
  | Ok _ => _ ← close_body; mret (Ok ())
  end.
Definition bind {A} `{Decode A} (r : result rerr (Z * string)) : thread (result rerr A) :=
  match r with
  | Err e => mret (Err e)
  | Ok (_, body) => _ ← close_body; mret (BindJSON body)
  end.
Definition fetch {A} `{Decode A} (path : string) (query : list (string * string)) : thread (result rerr A) :=
  r ← Get path query; bind r.

(** ** The endpoints *)

Definition ResetServersState : thread (result rerr unit) := send "/servers/reset" PNil.
Definition GetServerConfiguration {C} `{Decode C} (uuid : string) : thread (result rerr C) :=
  fetch ("/servers/" +:+ uuid) [].
Definition GetInstallationScript `{Decode InstallationScript} (uuid : string) : thread (result rerr InstallationScript) :=
  fetch ("/servers/" +:+ uuid +:+ "/install") [].
Definition SetInstallationStatus (uuid : string) (data : InstallStatusRequest) : thread (result rerr unit) :=
  send ("/servers/" +:+ uuid +:+ "/install") (PInstallStatus data).
Definition SetArchiveStatus (uuid : string) (successful : bool) : thread (result rerr unit) :=
  send ("/servers/" +:+ uuid +:+ "/archive") (PSuccessful successful).
Definition SetTransferStatus (uuid : string) (successful : bool) : thread (result rerr unit) :=
  let state := if successful then "success"%string else "failure"%string in
  send ("/servers/" +:+ uuid +:+ "/transfer/" +:+ state) PNil.
Definition ValidateSftpCredentials `{Decode SftpAuthResponse} (req : SftpAuthRequest) :
    thread (result rerr SftpAuthResponse) :=
  r ← Post "/sftp/auth" (PSftpAuth req);
  match r with
  | Err e =>
      match AsRequestError e with
      | Some re => if (400 <=? re_StatusCode re) && (re_StatusCode re <? 500)
                   then mret (Err SftpInvalidCredentialsError) else mret (Err e)
      | None => mret (Err e)
      end
  | Ok _ => bind r
  end.
Definition GetBackupRemoteUploadURLs `{Decode BackupRemoteUploadResponse} (backup : string) (size : Z) :
    thread (result rerr BackupRemoteUploadResponse) :=
  fetch ("/backups/" +:+ backup) [("size"%string, FormatInt size)].
Definition SetBackupStatus (backup : string) (data : BackupRequest) : thread (result rerr unit) :=
  send ("/backups/" +:+ backup) (PBackup data).
Definition SendRestorationStatus (backup : string) (successful : bool) : thread (result rerr unit) :=
  send ("/backups/" +:+ backup +:+ "/restore") (PSuccessful successful).
Definition SendActivityLogs (activity : list Activity) : thread (result rerr unit) :=
  send "/activity" (PActivity activity).

Context `{!Decode (list RawServerData * Pagination)}.
Definition getServersPaged (page limit : Z) : thread (result rerr (list RawServerData * Pagination)) :=
  fetch "/servers" [("page"%string, FormatInt page); ("per_page"%string, FormatInt limit)].

(** The pages after the first answer.  The counter of the loop is unsigned, so that the loop
    would not end for the largest number of pages. *)
Definition further_pages (meta : Pagination) : list Z :=
  if 1 <? pg_LastPage meta then
    let first := wrapu64 (pg_CurrentPage meta + 1) in
    seqZ first (pg_LastPage meta + 1 - first)
  else [].

(** The goroutines of the group run interleaved; each appends its page when it is done,
    and the first error is the group's. *)
Fixpoint join_pages (servers : list RawServerData) (l : list (result rerr (list RawServerData * Pagination))) :
    result rerr (list RawServerData) :=
  match l with
  | [] => Ok servers
  | Err e :: _ => Err e
  | Ok (ps, _) :: l' => join_pages (servers ++ ps) l'
  end.
Definition GetServers (limit : Z) : thread (result rerr (list RawServerData)) :=
  r ← getServersPaged 0 limit;
  match r with
  | Err e => mret (Err e)
  | Ok (servers, meta) =>
      turns ← gets (λ w, interleaving (pn_log (w_panel w)));
      pages ← par turns (map (λ page, getServersPaged (wrap64 page) limit) (further_pages meta)) [];
      mret (join_pages servers pages)
  end.
End Client.
