(* ===== verification/RemoteFacts.v ===== *)
(** * What the client of the Panel guarantees

    Which attempts a request makes and what becomes of them, and the completeness of the
    list of servers that is fetched page by page in parallel. *)

From stdpp Require Import base gmap list strings numbers.
From S2P Require Import Prelude GoStrings Network Activity Threads Remote.
Open Scope Z_scope.

Section Facts.
Context `{HH : Http} {X : Type}.
Implicit Types (w : world X) (q : list (string * string)).

(** ** What a request yields *)

(** An answer is one that the Panel gave to a request with this query. *)
Definition answered (q : list (string * string)) (status : Z) (body : string) : Prop :=
  ∃ log req, rq_Query req = q ∧ http_do log req = Answered status body ∧ HasError status = false.

Lemma requestOnce_yields method path body q :
  yields (requestOnce (X:=X) method path body q) (λ r, ∀ status answer,
    r = Ok (status, answer) → ∃ log req, rq_Query req = q ∧ http_do log req = Answered status answer).
Proof.
  unfold requestOnce. intros w. simpl. destruct (valid_url _); simpl; [|done].
  intros w1 w2. simpl. destruct (http_do _ _) as [status answer|c] eqn:E; simpl; [|done].
  intros ? ? [= <- <-]. eexists _, _. by split; [|exact E].
Qed.
Lemma try_once_yields method path body q :
  yields (try_once (X:=X) method path body q) (λ a, match a with Done status answer => answered q status answer | _ => True end).
Proof.
  unfold try_once. eapply yields_seq; [apply requestOnce_yields|].
  intros [[status answer]|e] Hr; [|by destruct e].
  destruct (Hr _ _ eq_refl) as (log & req & Hq & Ha).
  unfold Response_Error. destruct (HasError status) eqn:E; cbn [negb].
  - destruct (default _ _) as [[??]?]. intros w. simpl. by destruct (_ && _).
  - by exists log, req.
Qed.
Lemma retry_yields waits q (op : prog (world X) attempt) :
  yields op (λ a, match a with Done status answer => answered q status answer | _ => True end) →
  yields (retry waits op) (λ r, ∀ status answer, r = Ok (status, answer) → answered q status answer).
Proof.
  intros Hop. induction waits as [|v waits IH]; cbn [retry]; (eapply yields_seq; [exact Hop|]); intros [s b|e|e] Ha; try done.
  - by intros ?? [= <- <-].
  - by intros ?? [= <- <-].
  - by destruct v.
Qed.
Lemma fetch_yields {A} `{Decode A} path q :
  yields (fetch (X:=X) (A:=A) path q) (λ r, ∀ a, r = Ok a → ∃ status body, answered q status body ∧ decode body = Some a).
Proof.
  unfold fetch, Get, request. eapply yields_seq.
  - instantiate (1 := λ r, ∀ status answer, r = Ok (status, answer) → answered q status answer).
    eapply yields_seq; [apply yields_True|]. intros waits _. apply retry_yields, try_once_yields.
  - intros [[status body]|e] Hr; [|done]. intros w. simpl. unfold BindJSON.
    intros a. destruct (decode body) eqn:E; [|done]. intros [= <-]. exists status, body. split; [by apply Hr|done].
Qed.

(** ** Attempts *)

(** An outcome after which the request is tried again, if the backoff allows it. *)
Definition retried (o : outcome) : Prop :=
  match o with
  | Answered status _ => HasError status = true ∧ ¬ 400 ≤ status < 500
  | NoAnswer canceled => canceled = false
  end.

(** What one attempt leaves: nothing, if the request cannot be built, or one exchange; and
    one open body more exactly when it is done. *)
Definition attempted (method path : string) (body : option payload) q w (a : attempt) w' : Prop :=
  w_rest w' = w_rest w ∧ pn_maxAttempts (w_panel w') = pn_maxAttempts (w_panel w)
  ∧ pn_baseUrl (w_panel w') = pn_baseUrl (w_panel w)
  ∧ pn_tokenId (w_panel w') = pn_tokenId (w_panel w) ∧ pn_token (w_panel w') = pn_token (w_panel w)
  ∧ pn_open (w_panel w') = pn_open (w_panel w) + (match a with Done _ _ => 1 | _ => 0 end)
  ∧ ((a = Retriable EBuild ∧ pn_log (w_panel w') = pn_log (w_panel w))
     ∨ ∃ req o, pn_log (w_panel w') = pn_log (w_panel w) ++ [(req, o)]
         ∧ rq_Method req = method ∧ rq_URL req = pn_baseUrl (w_panel w) +:+ path ∧ rq_Body req = body ∧ rq_Query req = q
         ∧ rq_Authorization req = "Bearer " +:+ pn_tokenId (w_panel w) +:+ "." +:+ pn_token (w_panel w)
         ∧ match a with
           | Done status answer => o = Answered status answer ∧ HasError status = false
           | Retriable e => retried o ∧ ∀ re, e = ERequest re → ∃ b, o = Answered (re_StatusCode re) b
           | Permanent e => (o = NoAnswer true ∧ e = ECanceled)
                            ∨ ∃ re b, e = ERequest re ∧ o = Answered (re_StatusCode re) b ∧ 400 ≤ re_StatusCode re < 500
           end).
Lemma try_once_attempts method path body q w :
  let '(a, w') := exec (try_once (X:=X) method path body q) w in attempted method path body q w a w'.
Proof.
  unfold try_once, requestOnce, attempted. simpl. destruct (valid_url _); simpl.
  2:{ split_and!; [done..|lia|by left]. }
  destruct (http_do _ _) as [status answer|c] eqn:E; simpl.
  - unfold Response_Error. destruct (HasError status) eqn:He; simpl.
    + destruct (default _ _) as [[code st] detail]. simpl.
      destruct (Z.leb_spec 400 status); simpl; [destruct (Z.ltb_spec status 500); simpl|];
        (split_and!; [done..|lia|right; eexists _, _; split; [reflexivity|]; split_and!; try done]).
      { right. eexists _, _. split; [reflexivity|]. simpl. split; [reflexivity|lia]. }
      all: try (intros re [= <-]; simpl; by eexists).
      all: simpl; split; [done|lia].
    + split_and!; [done..|]. right. by eexists _, _.
  - destruct c; simpl; (split_and!; [done..|lia|right; eexists _, _; split; [reflexivity|]; split_and!; try done]). by left.
Qed.

(** The exchanges of a whole request. *)
Definition exchanges (method path : string) (body : option payload) q w (r : result rerr (Z * string)) w' (n : nat) : Prop :=
  ∃ sent, pn_log (w_panel w') = pn_log (w_panel w) ++ sent
    ∧ (length sent ≤ n)%nat
    ∧ Forall (λ e, rq_Method (fst e) = method ∧ rq_URL (fst e) = pn_baseUrl (w_panel w) +:+ path
        ∧ rq_Body (fst e) = body ∧ rq_Query (fst e) = q
        ∧ rq_Authorization (fst e) = "Bearer " +:+ pn_tokenId (w_panel w) +:+ "." +:+ pn_token (w_panel w)) sent
    ∧ (∀ i e, sent !! i = Some e → (S i < length sent)%nat → retried (snd e))
    ∧ match r with
      | Ok (status, answer) => list.last (snd <$> sent) = Some (Answered status answer) ∧ HasError status = false
      | Err (ERequest re) => ∃ b, list.last (snd <$> sent) = Some (Answered (re_StatusCode re) b)
      | Err _ => True
      end
    ∧ pn_open (w_panel w') = pn_open (w_panel w) + (if is_ok r then 1 else 0)
    ∧ w_rest w' = w_rest w.

Lemma exchanges_first method path body q w a w' r :
  attempted method path body q w a w' →
  match a with Done s b => r = Ok (s, b) | Permanent e => r = Err e | Retriable e => r = Err e ∨ r = Err ECanceled end →
  exchanges method path body q w r w' 1.
Proof.
  intros (Hw & _ & _ & _ & _ & Ho & [[-> Hl]|(req & o & Hl & Hm & Hu & Hb & Hq & Ha & Hr)]) Hres.
  - exists []. rewrite app_nil_r. split_and!; [done|simpl; lia|done|done| |by destruct Hres as [-> | ->]|done].
    by destruct Hres as [-> | ->].
  - exists [(req, o)]. split_and!; [done|simpl; lia|by constructor| | | |done].
    + intros i e _ Hi. simpl in Hi. lia.
    + simpl. destruct a as [s b|e|e].
      * subst r. by destruct Hr as [-> ?].
      * destruct Hr as [_ Hr]. destruct Hres as [-> | ->]; [|done]. destruct e as [| | | |re| |]; try done.
        destruct (Hr re eq_refl) as [b ->]. by exists b.
      * subst r. destruct Hr as [[_ ->]|(re & b & -> & -> & _)]; [done|]. by exists b.
    + destruct a as [s b|e|e]; [by subst r| |by subst r]. by destruct Hres as [-> | ->].
Qed.
Lemma exchanges_more method path body q w e w1 r w2 n :
  attempted method path body q w (Retriable e) w1 → exchanges method path body q w1 r w2 n →
  exchanges method path body q w r w2 (S n).
Proof.
  intros (Hw & _ & Hbu & Hti & Hto & Ho & H1) (sent & Hl2 & Hn & Hall & Hre & Hr & Ho2 & Hw2).
  rewrite Hbu, Hti, Hto in Hall. rewrite Hw in Hw2. rewrite Ho, Z.add_0_r in Ho2.
  destruct H1 as [[_ Hl]|(req & o & Hl & Hm & Hu & Hb & Hq & Ha & Ht & _)].
  - exists sent. rewrite Hl in Hl2. split_and!; [done|lia|done..].
  - exists ((req, o) :: sent). rewrite Hl, <-app_assoc in Hl2. split_and!; [done|simpl; lia|by constructor| | |done|done].
    + intros [|i] e' Hi Hlt; simpl in *; [by injection Hi as <-|]. eapply Hre; [exact Hi|lia].
    + destruct r as [[s b]|e'].
      * destruct Hr as [Hr ?]. split; [|done]. destruct sent as [|x sent]; [done|]. by rewrite fmap_cons, last_cons, Hr.
      * destruct e' as [| | | |re| |]; try done. destruct Hr as [b Hr]. exists b.
        destruct sent as [|x sent]; [done|]. by rewrite fmap_cons, last_cons, Hr.
Qed.

Lemma retry_exchanges method path body q waits w :
  let '(r, w') := exec (retry waits (try_once (X:=X) method path body q)) w in
  exchanges method path body q w r w' (S (length waits)).
Proof.
  revert w. induction waits as [|v waits IH]; intros w; cbn [retry]; unfold mbind, prog_mbind;
    rewrite exec_bind; pose proof (try_once_attempts method path body q w) as Ht; destruct (exec _ w) as [a w1].
  { destruct a; simpl; (eapply exchanges_first; [exact Ht|]); [done|by left|done]. }
  assert (∀ r, exchanges method path body q w r w1 1 → exchanges method path body q w r w1 (S (S (length waits)))) as Hmore.
  { intros r (sent & Hl & Hn & Hrest). exists sent. split; [done|]. split; [lia|done]. }
  destruct a as [s b|e|e]; simpl; [apply Hmore; by eapply exchanges_first| |apply Hmore; by eapply exchanges_first].
  destruct v; simpl; [|apply Hmore; eapply exchanges_first; [exact Ht|by (left + right)]..].
  pose proof (IH w1) as Hi. destruct (exec (retry _ _) w1) as [r w2]. by eapply exchanges_more.
Qed.

(** C33: a request to the Panel, whatever the network, the Panel and the backoff do.  Every
    attempt sends the same method, address, query and body with the credentials; every
    attempt but the last ended without an answer or with an error of the Panel's that is not
    the client's fault (not 4xx), and was not cancelled; a result is the answer to the last
    attempt and no error, and an error of the Panel carries the status of the last answer.
    With a maximum, there is at most one attempt more than it says.  A response is left open
    only when it is returned. *)
Theorem request_attempts method path body q w :
  let '(r, w') := exec (request (X:=X) method path body q) w in
  exchanges method path body q w r w'
    (S (if 0 <? pn_maxAttempts (w_panel w) then Z.to_nat (pn_maxAttempts (w_panel w))
        else length (backoff_waits (pn_log (w_panel w))))).
Proof.
  unfold request, backoff. simpl. set (waits := if _ <? _ then _ else _).
  pose proof (retry_exchanges method path body q waits w) as Hr. destruct (exec _ w) as [r w'].
  destruct Hr as (sent & Hl & Hn & Hrest). exists sent. split; [done|]. split; [|done].
  subst waits. destruct (0 <? _); [rewrite length_take in Hn|]; lia.
Qed.

(** Every endpoint closes the body of its answer: after a call that runs alone as many
    bodies are open as before. *)
Definition closes {A} (p : prog (world X) A) : Prop :=
  ∀ w, pn_open (w_panel (snd (exec p w))) = pn_open (w_panel w).
Lemma request_open method path body q w :
  pn_open (w_panel (snd (exec (request (X:=X) method path body q) w)))
  = pn_open (w_panel w) + (if is_ok (fst (exec (request (X:=X) method path body q) w)) then 1 else 0).
Proof.
  unfold request, backoff. simpl. set (waits := if _ <? _ then _ else _).
  pose proof (retry_exchanges method path body q waits w) as Hr. destruct (exec _ w) as [r w'].
  by destruct Hr as (sent & _ & _ & _ & _ & _ & Ho & _).
Qed.
Lemma closes_after {A} method path body q (f : result rerr (Z * string) → prog (world X) A) :
  (∀ r w, pn_open (w_panel (snd (exec (f r) w))) = pn_open (w_panel w) - (if is_ok r then 1 else 0)) →
  closes (request (X:=X) method path body q ≫= f).
Proof.
  intros Hf w. unfold mbind, prog_mbind. rewrite exec_bind. pose proof (request_open method path body q w) as Ho.
  destruct (exec _ w) as [r w']. simpl in *. rewrite Hf, Ho. lia.
Qed.
Lemma send_closes path data : closes (send (X:=X) path data).
Proof.
  unfold send, Post. destruct (marshals data); simpl; [|done]. apply closes_after. intros [[s b]|e] w; simpl; lia.
Qed.
Lemma fetch_closes {A} `{Decode A} path q : closes (fetch (X:=X) (A:=A) path q).
Proof. unfold fetch, Get. apply closes_after. intros [[s b]|e] w; simpl; lia. Qed.
Lemma ValidateSftpCredentials_closes `{Decode SftpAuthResponse} req : closes (ValidateSftpCredentials (X:=X) req).
Proof.
  unfold ValidateSftpCredentials, Post. destruct (marshals _); simpl; [|done]. apply closes_after.
  intros [[s b]|e] w; simpl; [lia|]. destruct e as [| | | |re| |]; simpl; try lia. destruct (_ && _); simpl; lia.
Qed.

(** ** The list of servers *)

Context `{!Decode (list RawServerData * Pagination)}.

Definition page_query (page limit : Z) : list (string * string) :=
  [("page"%string, FormatInt page); ("per_page"%string, FormatInt limit)].

(** The Panel has the servers on the given pages, which do not change meanwhile: an answer to
    the request for a page is that page, and the request for page 0 is answered with the
    first. *)
Definition serves (limit : Z) (pages : list (list RawServerData)) : Prop :=
  (∀ status body, answered (page_query 0 limit) status body →
     ∃ meta, decode body = Some (default [] (head pages), meta) ∧ pg_CurrentPage meta = 1 ∧ pg_LastPage meta = zlen pages)
  ∧ ∀ i ps status body, pages !! i = Some ps → answered (page_query (Z.of_nat i + 1) limit) status body →
     ∃ meta, decode body = Some (ps, meta).

Lemma join_pages_ok servers l r :
  join_pages servers l = Ok r → ∃ found, l = map Ok found ∧ r = servers ++ concat (map fst found).
Proof.
  revert servers. induction l as [|[[ps m]|e] l IH]; intros servers Hj; cbn [join_pages] in Hj; [| |done].
  - exists []. split; [done|]. simpl. rewrite app_nil_r. by injection Hj as ->.
  - destruct (IH _ Hj) as (found & -> & ->). exists ((ps, m) :: found). split; [done|]. simpl. by rewrite <-app_assoc.
Qed.

Lemma further_pages_all meta n :
  pg_CurrentPage meta = 1 → pg_LastPage meta = Z.of_nat n → Z.of_nat n < 2 ^ 64 →
  further_pages meta = map (λ i, Z.of_nat i + 1) (seq 1 (n - 1)).
Proof.
  intros Hc Hl Hn. unfold further_pages. rewrite Hc, Hl.
  destruct (Z.ltb_spec 1 (Z.of_nat n)); [|by replace (n - 1)%nat with 0%nat by lia].
  replace (wrapu64 (1 + 1)) with 2 by done. unfold seqZ.
  replace (Z.to_nat (Z.of_nat n + 1 - 2)) with (n - 1)%nat by lia.
  rewrite <-seq_shift, map_map. apply map_ext. lia.
Qed.

(** The further pages and what was found for them, matched. *)
Lemma concat_pages (rest : list (list RawServerData)) (found : list (list RawServerData * Pagination)) l' :
  map Z.of_nat (seq 0 (length rest)) ≡ₚ l' →
  Forall2 (λ i f, ∀ ps, rest !! Z.to_nat i = Some ps → fst f = ps) l' found →
  concat rest ≡ₚ concat (map fst found).
Proof.
  intros Hp H2.
  assert (map fst found = map (λ i, default [] (rest !! Z.to_nat i)) l') as ->.
  { assert (Forall (λ i, is_Some (rest !! Z.to_nat i)) l') as Hl'.
    { rewrite <-Hp. apply list.Forall_forall. intros i Hi. apply list_elem_of_fmap in Hi as (k & -> & Hk).
      rewrite Nat2Z.id. apply lookup_lt_is_Some. apply elem_of_seq in Hk. lia. }
    clear Hp. induction H2 as [|i f l' found Hf H2 IH]; [done|]. inversion Hl' as [|? ? [ps Hps] Hl'']; subst. simpl.
    rewrite Hps. simpl. rewrite (Hf ps Hps). f_equal. by apply IH. }
  rewrite <-Hp. rewrite map_map. clear. match goal with |- ?a ≡ₚ ?b => cut (a = b); [by intros ->|] end. f_equal.
  induction rest as [|ps rest IH] using rev_ind; [done|].
  rewrite length_app, Nat.add_1_r, seq_S, map_app. simpl. rewrite Nat2Z.id, lookup_app_r, Nat.sub_diag by done. simpl. f_equal.
  rewrite IH at 1. apply map_ext_in. intros k Hk. apply in_seq in Hk. rewrite Nat2Z.id. rewrite lookup_app_l by lia. done.
Qed.

(** C30: the list of servers that Wings fetches is complete.  The Panel keeps its servers on
    pages and does not change them meanwhile; the first page is fetched alone, the others in
    parallel, with any interleaving of the goroutines, of other requests and of failed and
    repeated attempts.  If the client returns a list, the list is exactly the servers of all
    pages, in some order. *)
Theorem GetServers_complete limit pages :
  serves limit pages → pages ≠ [] → zlen pages < 2 ^ 63 →
  yields (GetServers (X:=X) limit) (λ r, ∀ l, r = Ok l → l ≡ₚ concat pages).
Proof.
  intros [Hfirst Hrest] Hne Hn. unfold GetServers, getServersPaged. eapply yields_seq; [apply fetch_yields|].
  intros [[servers meta]|e] Hr; [|done].
  destruct (Hr _ eq_refl) as (status & body & Ha & Hd). destruct (Hfirst _ _ Ha) as (meta' & Hd' & Hc & Hl).
  rewrite Hd in Hd'. injection Hd' as -> ->.
  eapply yields_seq; [apply yields_True|]. intros turns _.
  rewrite (further_pages_all _ (length pages)) by (done || unfold zlen in *; lia).
  rewrite map_map. set (m := length (tail pages)).
  assert (length pages - 1 = m)%nat as -> by (subst m; destruct pages; [done|simpl; lia]).
  eapply yields_seq.
  - apply (par_yields (λ i r, ∀ f, r = Ok f → ∀ ps, tail pages !! Z.to_nat i = Some ps → fst f = ps)
             turns (map Z.of_nat (seq 0 m)) _ []); [|constructor].
    rewrite <-seq_shift, map_map. apply Forall2_fmap_2, Forall_Forall2_diag, list.Forall_forall.
    intros k Hk%elem_of_seq. eapply yields_mono; [|apply fetch_yields]. intros r Hok f -> ps Hps.
    destruct (Hok _ eq_refl) as (st & b & Ha' & Hd'). rewrite Nat2Z.id in Hps.
    assert (pages !! S k = Some ps) as Hps' by (destruct pages; done).
    rewrite wrap64_id in Ha'; [|unfold in_int64, int64_min, int64_max, zlen in *; subst m; destruct pages; simpl in *; lia].
    destruct (Hrest _ _ _ _ Hps' Ha') as [meta'' Hd'']. rewrite Hd' in Hd''. by injection Hd'' as ->.
  - intros l (l' & Hp & H2) r Hj. simpl in Hp. apply join_pages_ok in Hj as (found & -> & ->).
    destruct pages as [|p0 pages]; [done|]. simpl. f_equiv. symmetry. eapply concat_pages; [exact Hp|].
    apply Forall2_fmap_r in H2. eapply list.Forall2_impl; [exact H2|]. simpl. intros i f Hf ps. by apply Hf.
Qed.
End Facts.

(** ** A Panel with three pages *)

Section Example.
Definition w_page (i : Z) : list RawServerData := [mkRawServerData ("server " +:+ FormatInt i) EmptyString EmptyString].
Definition w_pages : list (list RawServerData) := [w_page 1; w_page 2; w_page 3].

(** The first attempt at each page fails; the body of an answer is the number of the page. *)
Definition w_http : Http := {|
  http_do log req :=
    let page := match rq_Query req with (_, p) :: _ => p | [] => EmptyString end in
    if bool_decide (Exists (λ e, rq_Query (fst e) = rq_Query req) log)
    then Answered 200 page else Answered 502 EmptyString;
  backoff_waits _ := [Again; Again; Again];
  valid_url _ := true;
  marshals _ := true;
  errors_of _ := [];
  version := "1.0";
  interleaving _ := [0; 1; 0]%nat ++ repeat 1%nat 20;
|}.
Definition w_decode : Decode (list RawServerData * Pagination) := λ body,
  if bool_decide (body = "0"%string) then Some (w_page 1, mkPagination 1 1 3 1 1 3)
  else i ← parse_digits 0 body; Some (w_page i, mkPagination i i 3 1 i 3).
Definition w_start : world () := mkWorld (New "https://panel/" "id" "token" 0) ().

Lemma w_serves : serves (HH:=w_http) (Decode0:=w_decode) 1 w_pages.
Proof.
  assert (∀ q page rest status body, q = (page, rest) :: [("per_page", "1")]%string →
    answered (HH:=w_http) q status body → body = rest) as Hbody.
  { intros q page rest status body -> (log & req & Hq & Ha & He). simpl in Ha. rewrite Hq in Ha.
    destruct (bool_decide _); injection Ha as <- <-; done. }
  split.
  - intros status body Ha. apply (Hbody _ "page"%string "0"%string) in Ha as ->; [|done]. by eexists.
  - intros i ps status body Hi Ha.
    assert (i < 3)%nat as Hlt by (apply lookup_lt_Some in Hi; done).
    apply (Hbody _ "page"%string (FormatInt (Z.of_nat i + 1))) in Ha as ->; [|done].
    destruct i as [|[|[|i]]]; [injection Hi as <-; by eexists..|lia].
Qed.

(** The interleaved goroutines append the pages in another order. *)
Lemma GetServers_complete_witness :
  yields (GetServers (HH:=w_http) (Decode0:=w_decode) (X:=()) 1) (λ r, ∀ l, r = Ok l → l ≡ₚ concat w_pages)
  ∧ fst (exec (GetServers (HH:=w_http) (Decode0:=w_decode) 1) w_start) = Ok (w_page 1 ++ w_page 3 ++ w_page 2).
Proof. split; [|vm_compute; reflexivity]. apply (GetServers_complete (HH:=w_http) (Decode0:=w_decode)); [apply w_serves|done|done]. Defined.

(** [maxAttempts] counts the retries and not the executions. *)
Lemma maxAttempts_counts_retries :
  let h := {| http_do _ _ := Answered 500 EmptyString; backoff_waits _ := repeat Again 9; valid_url _ := true; marshals _ := true;
              errors_of _ := []; version := "1.0"; interleaving _ := [] |} in
  length (pn_log (w_panel (snd (exec (request (HH:=h) "GET" "/test" None []) (mkWorld (New "https://panel" "id" "token" 2) ()))))) = 3%nat.
Proof. vm_compute. reflexivity. Qed.
End Example.
