(* ===== verification/Delivery.v ===== *)
(** * Delivery of activity to the Panel (internal/cron: delivery.go, activity_cron.go,
    sftp_cron.go; SaveActivity of server/activity.go)

    The stored activity is one table of the local database, shared by the goroutines that
    store and by two jobs: one sends everything but SFTP events, the other merges SFTP
    events by user, server, address, event and minute and sends the merged events.  Every
    statement is one action and may fail ([db_fails]); between two statements, and while
    the Panel answers, any other goroutine may run.  The table keeps, besides its rows, all
    activity that was ever stored and the identifiers of what was pruned. *)

From stdpp Require Import base gmap list strings numbers countable.
From S2P Require Import Prelude GoStrings Network Activity Threads Remote.
Open Scope Z_scope.

(** ** The database *)

Record table := mkTable {
  t_rows : list Activity;               (* in the order of their identifiers *)
  t_last : Z;                           (* the largest identifier assigned so far *)
  t_stmts : nat;                        (* the statements executed *)
  t_saved : list Activity;
  t_pruned : list Z;
  t_activity_running : bool;            (* activityCron.mu *)
  t_sftp_running : bool;                (* sftpCron.mu *)
}.
Definition empty_table : table := mkTable [] 0 0 [] [] false false.

(** SQLite and gorm: which statements fail, the next identifier of a primary key, the order
    of rows by event, descending, which leaves the order of equal events open; the clock; the
    length of the JSON of metadata; and the order of a range over a map. *)
Class Database := {
  db_fails : nat → bool;
  db_newID : Z → Z;
  db_by_event : nat → list Activity → list Activity;
  db_clock : nat → Z;
  meta_len : option ActivityMeta → Z;
  range_items : nat → ∀ A, list A → list A;
}.
Class DatabaseLaws `{Database} := {
  newID_grows n : n < db_newID n;
  by_event_rows n l : db_by_event n l ≡ₚ l;
  meta_len_nonneg m : 0 ≤ meta_len m;
  range_items_all n A (l : list A) : range_items n A l ≡ₚ l;
}.

(** [event LIKE 'server:sftp.%']: SQLite's LIKE ignores the case of ASCII letters. *)
Definition is_sftp (a : Activity) : bool := HasPrefix (map_string ascii_lower (a_Event a)) "server:sftp.".

Inductive cerr := EDatabase | EPanel (e : rerr) | ErrCronRunning | EFuel.

Definition maxBatchesPerRun : nat := 50.
Definition maxStoredActivity : Z := 100000.
Definition maxFilesPerEvent : Z := 500.
Definition maxRequestBytes : Z := 4 * 2 ^ 20.

Record batchItem := mkItem { bi_activity : Activity; bi_ids : list Z }.

(** ** Merged events (sftp_cron.go) *)

Record mapKey := mkKey {
  k_User : string; k_Server : string; k_IP : string; k_Event : string;
  k_Minute : Z;                         (* the timestamp, formatted to the minute *)
  k_Part : Z;
}.
#[export] Instance mapKey_eq_dec : EqDecision mapKey.
Proof. solve_decision. Defined.
#[export] Instance mapKey_countable : Countable mapKey.
Proof.
  refine (inj_countable' (λ k, (k_User k, k_Server k, k_IP k, k_Event k, k_Minute k, k_Part k))
            (λ '(u, s, i, e, m, p), mkKey u s i e m p) _). by intros [].
Defined.
Record eventGroup := mkGroup { g_activity : Activity; g_ids : list Z; g_files : Z }.
Record eventMap := mkEventMap { em_max : Z; em_bytes : Z; em_m : gmap mapKey eventGroup }.

(** Rows are in UTC, where two moments print the same minute exactly when they are in the
    same 60 seconds. *)
Definition minute (t : Z) : Z := t / (60 * 10 ^ 9).

Definition files_of (a : Activity) : list string :=
  match (m ← a_Metadata a; m !! "files"%string) with Some (VSlice l) => l | _ => [] end.
Definition files_meta (l : list string) : option ActivityMeta := Some {["files"%string := VSlice l]}.

Definition first_key (a : Activity) : mapKey :=
  mkKey (String_of (a_User a)) (a_Server a) (a_IP a) (a_Event a) (minute (a_Timestamp a)) 0.
Definition next_part (k : mapKey) : mapKey :=
  mkKey (k_User k) (k_Server k) (k_IP k) (k_Event k) (k_Minute k) (k_Part k + 1).

(** The loop of [forActivity]: the first part of the group that is missing or has room. *)
Fixpoint find_part (fuel : nat) (m : gmap mapKey eventGroup) (key : mapKey) : option mapKey :=
  match m !! key with
  | None => Some key
  | Some v => if g_files v <? maxFilesPerEvent then Some key
              else match fuel with O => None | S fuel' => find_part fuel' m (next_part key) end
  end.
(** The key of the group for an activity, and the map with it. *)
Definition forActivity (a : Activity) (em : eventMap) : option (mapKey * eventMap) :=
  key ← find_part (size (em_m em)) (em_m em) (first_key a);
  match em_m em !! key with
  | Some _ => Some (key, em)
  | None =>
      if em_max em <=? Z.of_nat (size (em_m em)) then None
      else Some (key, mkEventMap (em_max em) (em_bytes em)
                        (<[key := mkGroup (set_meta (files_meta []) a) [] 0]> (em_m em)))
  end.

Section Delivery.
Context `{HH : Http} `{HD : Database} `{HU : UnicodeTables}.
Abbreviation thread A := (prog (world table) A).

Definition activitySize (a : Activity) : Z := meta_len (a_Metadata a) + 256.

Definition merge_into (a : Activity) (g : eventGroup) : eventGroup :=
  let m := g_activity g in
  let m := if a_Timestamp a <? a_Timestamp m then set_time (a_Timestamp a) m else m in
  let ids := g_ids g ++ [a_ID a] in
  match (md ← a_Metadata a; md !! "files"%string) with
  | Some (VSlice l) => mkGroup (set_meta (files_meta (files_of m ++ l)) m) ids (g_files g + zlen l)
  | _ => mkGroup m ids (g_files g)
  end.
Definition Push (a : Activity) (em : eventMap) : bool * eventMap :=
  let size := activitySize a in
  if (0 <? em_bytes em) && (maxRequestBytes <? em_bytes em + size) then (false, em) else
  match forActivity a em with
  | None => (false, em)
  | Some (key, em) =>
      (true, mkEventMap (em_max em) (em_bytes em + size) (alter (merge_into a) key (em_m em)))
  end.
Definition Items (n : nat) (em : eventMap) : list batchItem :=
  range_items n _ ((λ g, mkItem (g_activity g) (g_ids g)) <$> (map_to_list (em_m em)).*2).

(** ** Statements *)

Definition executed (t : table) : table :=
  mkTable (t_rows t) (t_last t) (S (t_stmts t)) (t_saved t) (t_pruned t) (t_activity_running t) (t_sftp_running t).
Definition statement {A} (f : table → A * table) : thread (result cerr A) :=
  atomic (λ w,
    let t := w_rest w in
    if db_fails (t_stmts t) then (Err EDatabase, on_rest executed w)
    else let '(a, t') := f (executed t) in (Ok a, on_rest (λ _, t') w)).

Definition set_rows (l : list Activity) (t : table) : table :=
  mkTable l (t_last t) (t_stmts t) (t_saved t) (t_pruned t) (t_activity_running t) (t_sftp_running t).
Definition insert_row (a : Activity) (t : table) : table :=
  let row := set_id (db_newID (t_last t)) (BeforeCreate (db_clock (t_stmts t)) a) in
  mkTable (t_rows t ++ [row]) (db_newID (t_last t)) (t_stmts t) (t_saved t ++ [row]) (t_pruned t)
          (t_activity_running t) (t_sftp_running t).
Definition delete_ids (ids : list Z) (t : table) : table :=
  set_rows (filter (λ a, a_ID a ∉ ids) (t_rows t)) t.
(** The oldest [excess] rows. *)
Definition delete_oldest (excess : Z) (t : table) : table :=
  let oldest := map a_ID (take (Z.to_nat excess) (t_rows t)) in
  let t := delete_ids oldest t in
  mkTable (t_rows t) (t_last t) (t_stmts t) (t_saved t) (t_pruned t ++ oldest) (t_activity_running t) (t_sftp_running t).

(** [SaveActivity]: an error is only logged. *)
Definition SaveActivity (a : RequestActivity) (event : string) (metadata : option ActivityMeta) : thread unit :=
  _ ← statement (λ t, ((), insert_row (ra_Event a event metadata) t)); mret ().

(** ** Delivery (delivery.go) *)

Definition isRefused (e : rerr) : bool :=
  match AsRequestError e with
  | None => false
  | Some re => bool_decide (re_StatusCode re ∈ [400; 413; 422])
  end.

Fixpoint deliver (fuel : nat) (items : list batchItem) : thread (list Z * option cerr) :=
  match items with
  | [] => mret ([], None)
  | item :: rest =>
      r ← SendActivityLogs (map bi_activity items);
      match r with
      | Ok _ => mret (concat (map bi_ids items), None)
      | Err e =>
          if negb (isRefused e) then mret ([], Some (EPanel e)) else
          match rest with
          | [] => mret (bi_ids item, None)
          | _ =>
              match fuel with
              | O => mret ([], Some EFuel)
              | S fuel' =>
                  let mid := (length items / 2)%nat in
                  '(done, err) ← deliver fuel' (take mid items);
                  match err with
                  | Some _ => mret (done, err)
                  | None => '(more, err) ← deliver fuel' (drop mid items); mret (done ++ more, err)
                  end
              end
          end
      end
  end.

(** The rows are deleted in chunks; the loop ends when no identifier is left. *)
Fixpoint delete_chunks (fuel : nat) (ids : list Z) : thread (option cerr) :=
  match ids, fuel with
  | [], _ => mret None
  | _, O => mret (Some EFuel)
  | _, S fuel' =>
      r ← statement (λ t, ((), delete_ids (take (Z.to_nat 32000) ids) t));
      match r with
      | Err e => mret (Some e)
      | Ok _ => delete_chunks fuel' (drop (Z.to_nat 32000) ids)
      end
  end.
Definition deleteActivity (ids : list Z) : thread (option cerr) := delete_chunks (length ids) ids.

Definition pruneActivity (max : Z) : thread (option cerr) :=
  r ← statement (λ t, (zlen (t_rows t), t));
  match r with
  | Err e => mret (Some e)
  | Ok count =>
      if count <=? max then mret None
      else
        r ← statement (λ t, ((), delete_oldest (count - max) t));
        mret (match r with Err e => Some e | Ok _ => None end)
  end.

(** Delivering and deleting what was settled, along with the invalid rows; the error of the
    deletion comes first. *)
Definition settle (invalid : list Z) (items : list batchItem) : thread (list Z * option cerr) :=
  '(done, err) ← deliver (length items) items;
  derr ← deleteActivity (invalid ++ done);
  mret (done, match derr with Some e => Some e | None => err end).

(** ** Everything but SFTP events (activity_cron.go) *)

Definition batchSize (max : Z) : Z := if max <=? 0 then 100 else max.
Definition activity_sendBatch (max : Z) : thread (result cerr Z) :=
  r ← statement (λ t, (take (Z.to_nat (batchSize max)) (filter (λ a, is_sftp a = false) (t_rows t)), t));
  match r with
  | Err e => mret (Err e)
  | Ok [] => mret (Ok 0)
  | Ok activity =>
      let invalid := map a_ID (filter (λ a, ip_ok (a_IP a) = false) activity) in
      let items := map (λ a, mkItem a [a_ID a]) (filter (λ a, ip_ok (a_IP a) = true) activity) in
      '(_, err) ← settle invalid items;
      mret (match err with Some e => Err e | None => Ok (zlen activity) end)
  end.

(** [SwapIf] of the flag of a job, and its release at the end. *)
Definition swap_if (v : bool) (b : bool) : bool * bool := if bool_decide (b = v) then (false, b) else (true, v).
Definition set_activity_running (b : bool) (t : table) : table :=
  mkTable (t_rows t) (t_last t) (t_stmts t) (t_saved t) (t_pruned t) b (t_sftp_running t).
Definition set_sftp_running (b : bool) (t : table) : table :=
  mkTable (t_rows t) (t_last t) (t_stmts t) (t_saved t) (t_pruned t) (t_activity_running t) b.

Fixpoint activity_batches (n : nat) (max : Z) : thread (option cerr) :=
  match n with
  | O => mret None
  | S n' =>
      r ← activity_sendBatch max;
      match r with
      | Err e => mret (Some e)
      | Ok k => if k <? batchSize max then mret None else activity_batches n' max
      end
  end.
Definition activity_Run (max : Z) : thread (option cerr) :=
  free ← atomic (λ w, let '(ok, b) := swap_if true (t_activity_running (w_rest w)) in (ok, on_rest (set_activity_running b) w));
  if negb free then mret (Some ErrCronRunning) else
  err ← pruneActivity maxStoredActivity;
  err ← match err with Some e => mret (Some e) | None => activity_batches maxBatchesPerRun max end;
  _ ← modify (on_rest (set_activity_running false));
  mret err.

(** ** SFTP events (sftp_cron.go) *)

Definition fetchRecords (offset limit : Z) : thread (result cerr (list Activity)) :=
  statement (λ t, (take (Z.to_nat limit) (drop (Z.to_nat offset)
    (db_by_event (t_stmts t) (filter (λ a, is_sftp a = true) (t_rows t)))), t)).

(** One page: the invalid rows, whether anything was added, whether something did not fit. *)
Record progress := mkProgress { pr_events : eventMap; pr_invalid : list Z; pr_full : bool; pr_added : bool }.
Definition take_row (p : progress) (a : Activity) : progress :=
  if negb (ip_ok (a_IP a)) then mkProgress (pr_events p) (pr_invalid p ++ [a_ID a]) (pr_full p) (pr_added p)
  else match Push a (pr_events p) with
       | (true, em) => mkProgress em (pr_invalid p) (pr_full p) true
       | (false, em) => mkProgress em (pr_invalid p) true (pr_added p)
       end.
(** Every page that adds an activity adds 256 bytes to the request. *)
Definition page_fuel : nat := Z.to_nat (maxRequestBytes / 256 + 2).
Fixpoint pages (fuel : nat) (o : Z) (p : progress) : thread (result cerr progress) :=
  match fuel with
  | O => mret (Err EFuel)
  | S fuel' =>
      r ← fetchRecords o (em_max (pr_events p));
      match r with
      | Err e => mret (Err e)
      | Ok [] => mret (Ok p)
      | Ok activity =>
          let p' := foldl take_row (mkProgress (pr_events p) (pr_invalid p) (pr_full p) false) activity in
          if pr_added p' then pages fuel' (o + zlen activity) p' else mret (Ok p')
      end
  end.
Definition new_events (max : Z) : eventMap := mkEventMap (if max <=? 0 then 100 else max) 0 ∅.
Definition sftp_sendBatch (max : Z) : thread (result cerr bool) :=
  r ← pages page_fuel 0 (mkProgress (new_events max) [] false false);
  match r with
  | Err e => mret (Err e)
  | Ok p =>
      items ← gets (λ w, Items (t_stmts (w_rest w)) (pr_events p));
      '(done, err) ← settle (pr_invalid p) items;
      mret (match err with Some e => Err e | None => Ok (pr_full p && (0 <? zlen done)) end)
  end.
Fixpoint sftp_batches (n : nat) (max : Z) : thread (option cerr) :=
  match n with
  | O => mret None
  | S n' =>
      r ← sftp_sendBatch max;
      match r with
      | Err e => mret (Some e)
      | Ok more => if negb more then mret None else sftp_batches n' max
      end
  end.
Definition sftp_Run (max : Z) : thread (option cerr) :=
  free ← atomic (λ w, let '(ok, b) := swap_if true (t_sftp_running (w_rest w)) in (ok, on_rest (set_sftp_running b) w));
  if negb free then mret (Some ErrCronRunning) else
  err ← sftp_batches maxBatchesPerRun max;
  _ ← modify (on_rest (set_sftp_running false));
  mret err.
End Delivery.
