(* ===== verification/DeliveryFacts.v ===== *)
(** * Merged events and delivered batches

    The events merged from SFTP activity stay within the limits of a request and lose
    nothing; the loop over pages ends; and a batch that the Panel refuses is split until
    what it refuses stands alone. *)

From stdpp Require Import base gmap list strings numbers fin_maps.
From S2P Require Import Prelude GoStrings Network Activity Threads Remote RemoteFacts Delivery.
Open Scope Z_scope.

Section Merge.
Context `{HH : Http} `{HD : Database} `{HU : UnicodeTables} `{HL : !DatabaseLaws}.
Implicit Types (em : eventMap) (a : Activity) (key : mapKey) (g : eventGroup).

(** ** The key of a group *)

Definition with_part (k : mapKey) (p : Z) : mapKey := mkKey (k_User k) (k_Server k) (k_IP k) (k_Event k) (k_Minute k) p.
Lemma with_part_next k p : next_part (with_part k p) = with_part k (p + 1).
Proof. done. Qed.
Lemma with_part_self k : with_part k (k_Part k) = k.
Proof. by destruct k. Qed.
#[local] Instance with_part_inj k : Inj (=) (=) (with_part k).
Proof. by intros p q [= ->]. Qed.

(** The search finds a part: each part it passes is another key of the map. *)
Lemma find_part_some_aux fuel (em : gmap mapKey eventGroup) k p :
  (∀ i, 0 ≤ i < p → is_Some (em !! with_part k i)) → 0 ≤ p → (size em < fuel + Z.to_nat p + 1)%nat →
  ∃ q, find_part fuel em (with_part k p) = Some (with_part k q)
       ∧ (∀ g, em !! with_part k q = Some g → g_files g < maxFilesPerEvent).
Proof.
  revert p. induction fuel as [|fuel IH]; intros p Hp Hp0 Hn; simpl; destruct (em !! with_part k p) as [g|] eqn:Hg.
  - exfalso. set (ks := with_part k <$> seqZ 0 (p + 1)).
    assert (size (list_to_set ks : gset mapKey) ≤ size (dom em))%nat as Hs.
    { apply subseteq_size. intros x [i [-> Hi]]%elem_of_list_to_set%list_elem_of_fmap. apply elem_of_seqZ in Hi.
      apply elem_of_dom. destruct (decide (i = p)) as [->|]; [by eexists|]. apply Hp. lia. }
    rewrite size_dom, size_list_to_set in Hs by (apply NoDup_fmap; [apply _|apply NoDup_seqZ]).
    subst ks. rewrite length_fmap, length_seqZ in Hs. lia.
  - exists p. split; [done|]. by rewrite Hg.
  - destruct (g_files g <? maxFilesPerEvent) eqn:E.
    + exists p. split; [done|]. rewrite Hg. intros ? [= <-]. lia.
    + rewrite with_part_next. apply IH; [|lia|lia]. intros i Hi.
      destruct (decide (i = p)) as [->|]; [by eexists|]. apply Hp. lia.
  - exists p. split; [done|]. by rewrite Hg.
Qed.
Lemma find_part_some em a :
  ∃ q, find_part (size (em_m em)) (em_m em) (first_key a) = Some (with_part (first_key a) q)
       ∧ (∀ g, em_m em !! with_part (first_key a) q = Some g → g_files g < maxFilesPerEvent).
Proof. apply (find_part_some_aux _ _ (first_key a) 0); simpl; lia. Qed.

(** ** Merging *)

(** The merged event stands for the activity: they agree on everything but the files, of
    which it has all, and the time, of which it has the minute and not a later one. *)
Definition covers (m a : Activity) : Prop :=
  String_of (a_User m) = String_of (a_User a) ∧ a_Server m = a_Server a ∧ a_IP m = a_IP a ∧ a_Event m = a_Event a
  ∧ minute (a_Timestamp m) = minute (a_Timestamp a) ∧ a_Timestamp m ≤ a_Timestamp a
  ∧ files_of a ⊆ files_of m.

(** The event of a group agrees with its key. *)
Definition keyed key (m : Activity) : Prop :=
  String_of (a_User m) = k_User key ∧ a_Server m = k_Server key ∧ a_IP m = k_IP key ∧ a_Event m = k_Event key
  ∧ minute (a_Timestamp m) = k_Minute key.

Lemma files_of_meta l m : files_of (set_meta (files_meta l) m) = l.
Proof. reflexivity. Qed.
Lemma files_of_time t m : files_of (set_time t m) = files_of m.
Proof. done. Qed.
Lemma merge_files a g : files_of (g_activity (merge_into a g)) = files_of (g_activity g) ++ files_of a.
Proof.
  unfold merge_into. unfold files_of at 4. destruct (md ← a_Metadata a; md !! _) as [[l|j]|]; cbn [g_activity].
  - rewrite files_of_meta. by destruct (_ <? _).
  - rewrite app_nil_r. by destruct (_ <? _).
  - rewrite app_nil_r. by destruct (_ <? _).
Qed.
Lemma merge_ids a g : g_ids (merge_into a g) = g_ids g ++ [a_ID a].
Proof. unfold merge_into. by destruct (md ← a_Metadata a; md !! _) as [[l|j]|]. Qed.
Lemma merge_count a g : g_files (merge_into a g) = g_files g + zlen (files_of a).
Proof.
  unfold merge_into, files_of. destruct (md ← a_Metadata a; md !! _) as [[l|j]|]; simpl; [done|unfold zlen; simpl; lia..].
Qed.
Lemma merge_time a g : a_Timestamp (g_activity (merge_into a g)) = Z.min (a_Timestamp (g_activity g)) (a_Timestamp a).
Proof.
  unfold merge_into. destruct (md ← a_Metadata a; md !! _) as [[l|j]|]; simpl;
    destruct (Z.ltb_spec (a_Timestamp a) (a_Timestamp (g_activity g))); simpl; lia.
Qed.
Lemma merge_rest a g :
  a_User (g_activity (merge_into a g)) = a_User (g_activity g) ∧ a_Server (g_activity (merge_into a g)) = a_Server (g_activity g)
  ∧ a_IP (g_activity (merge_into a g)) = a_IP (g_activity g) ∧ a_Event (g_activity (merge_into a g)) = a_Event (g_activity g).
Proof. unfold merge_into. by destruct (md ← a_Metadata a; md !! _) as [[l|j]|]; simpl; destruct (_ <? _). Qed.

Lemma keyed_first a p : keyed (with_part (first_key a) p) a.
Proof. by split_and!. Qed.
Lemma keyed_merge key a g : keyed key (g_activity g) → keyed key a → keyed key (g_activity (merge_into a g)).
Proof.
  intros (Hu & Hs & Hi & He & Hm) (_ & _ & _ & _ & Hm'). destruct (merge_rest a g) as (Ru & Rs & Ri & Re).
  unfold keyed. rewrite Ru, Rs, Ri, Re, merge_time. split_and!; [done..|].
  destruct (Z.min_spec (a_Timestamp (g_activity g)) (a_Timestamp a)) as [[_ ->]|[_ ->]]; done.
Qed.
Lemma covers_merge key a b g :
  keyed key (g_activity g) → keyed key a → covers (g_activity g) b → covers (g_activity (merge_into a g)) b.
Proof.
  intros Hk Ha (Hu & Hs & Hi & He & Hm & Ht & Hf). pose proof (keyed_merge key a g Hk Ha) as (_ & _ & _ & _ & Hm').
  destruct Hk as (_ & _ & _ & _ & Hmg). destruct (merge_rest a g) as (Ru & Rs & Ri & Re).
  unfold covers. rewrite Ru, Rs, Ri, Re, Hm', <-Hmg, Hm, merge_time, merge_files. split_and!; [done..|lia|set_solver].
Qed.
Lemma covers_new key a g : keyed key (g_activity g) → keyed key a → covers (g_activity (merge_into a g)) a.
Proof.
  intros Hk Ha. pose proof (keyed_merge key a g Hk Ha) as (? & ? & ? & ? & ?). destruct Ha as (? & ? & ? & ? & ?).
  unfold covers. rewrite merge_time, merge_files. split_and!; [congruence.. | |lia|set_solver].
  rewrite merge_time in *. congruence.
Qed.

(** ** Everything of a map of groups *)

Definition total {B} (F : eventGroup → list B) (m : gmap mapKey eventGroup) : list B := concat (F <$> (map_to_list m).*2).
Lemma total_delete {B} (F : eventGroup → list B) (m : gmap mapKey eventGroup) key g : m !! key = Some g → total F m ≡ₚ F g ++ total F (delete key m).
Proof. intros Hg. unfold total. by rewrite <-(map_to_list_delete m key g Hg). Qed.
Lemma total_insert {B} (F : eventGroup → list B) (m : gmap mapKey eventGroup) key g : total F (<[key := g]> m) ≡ₚ F g ++ total F (delete key m).
Proof. rewrite (total_delete F _ key g) by apply lookup_insert_eq. by rewrite delete_insert_eq. Qed.
Lemma total_new {B} (F : eventGroup → list B) (m : gmap mapKey eventGroup) key g : m !! key = None → total F (<[key := g]> m) ≡ₚ F g ++ total F m.
Proof. intros Hn. rewrite total_insert, delete_id; done. Qed.
Lemma alter_found (m : gmap mapKey eventGroup) key g f : m !! key = Some g → alter f key m = <[key := f g]> m.
Proof.
  intros Hg. apply map_eq. intros k. destruct (decide (k = key)) as [->|Hk].
  - by rewrite lookup_alter_eq, Hg, lookup_insert_eq.
  - by rewrite lookup_alter_ne, lookup_insert_ne.
Qed.
Lemma total_alter {B} (F : eventGroup → list B) (m : gmap mapKey eventGroup) key g f :
  m !! key = Some g → total F (alter f key m) ++ F g ≡ₚ total F m ++ F (f g).
Proof.
  intros Hg. rewrite (alter_found _ _ g) by done.
  rewrite total_insert, (total_delete F m key g) by done. solve_Permutation.
Qed.

(** ** A batch *)

Definition request_size (acc : list Activity) : Z := foldr (λ a n, activitySize a + n) 0 acc.
Lemma activitySize_pos a : 256 ≤ activitySize a.
Proof. unfold activitySize. pose proof (meta_len_nonneg (a_Metadata a)). lia. Qed.
Lemma request_size_snoc acc a : request_size (acc ++ [a]) = request_size acc + activitySize a.
Proof. unfold request_size. induction acc as [|b acc IH]; simpl; lia. Qed.
Lemma request_size_min acc : 256 * zlen acc ≤ request_size acc.
Proof.
  unfold request_size, zlen. induction acc as [|b acc IH]; simpl; [lia|]. pose proof (activitySize_pos b). lia.
Qed.

Record group_ok (acc : list Activity) key g : Prop := mkGroupOk {
  go_keyed : keyed key (g_activity g);
  go_count : g_files g = zlen (files_of (g_activity g));
  (* full before the last activity, if ever *)
  go_room : g_ids g = [] ∨ ∃ before a, a ∈ acc ∧ files_of (g_activity g) = before ++ files_of a ∧ zlen before < maxFilesPerEvent;
  go_covers : ∀ i, i ∈ g_ids g → ∃ a, a ∈ acc ∧ a_ID a = i ∧ covers (g_activity g) a;
}.
Record batch_ok (acc : list Activity) em : Prop := mkBatchOk {
  bo_groups : ∀ key g, em_m em !! key = Some g → group_ok acc key g;
  bo_size : Z.of_nat (size (em_m em)) ≤ em_max em;
  bo_bytes : em_bytes em = request_size acc;
  bo_limit : (length acc ≤ 1)%nat ∨ em_bytes em ≤ maxRequestBytes;
  bo_ids : total g_ids (em_m em) ≡ₚ map a_ID acc;
  bo_files : total (files_of ∘ g_activity) (em_m em) ≡ₚ concat (map files_of acc);
}.

Lemma batch_ok_new max : batch_ok [] (new_events max).
Proof.
  split; simpl; [by intros key g ?%lookup_empty_Some| |done|left; simpl; lia|done..].
  rewrite map_size_empty. destruct (Z.leb_spec max 0); lia.
Qed.

(** The group for an activity has its key, and room. *)
Lemma forActivity_ok acc a em key em' :
  batch_ok acc em → forActivity a em = Some (key, em') →
  em_max em' = em_max em ∧ em_bytes em' = em_bytes em ∧ batch_ok acc em'
  ∧ keyed key a ∧ ∃ g, em_m em' !! key = Some g ∧ g_files g < maxFilesPerEvent.
Proof.
  intros B Hf. unfold forActivity in Hf. destruct (find_part_some em a) as (q & Hq & Hroom). rewrite Hq in Hf. simpl in Hf.
  destruct (em_m em !! with_part (first_key a) q) as [g|] eqn:Hg.
  { injection Hf as <- <-. split_and!; [done..|]. exists g. split; [done|by apply Hroom]. }
  destruct (Z.leb_spec (em_max em) (Z.of_nat (size (em_m em)))); [done|]. injection Hf as <- <-. simpl.
  split_and!; [done..| |done|eexists; split; [apply lookup_insert_eq|done]].
  destruct B as [Bg Bs Bb Bl Bi Bf]. split; simpl; [| |done|done| |].
  - intros k g0 Hk. apply lookup_insert_Some in Hk as [[<- <-]|[_ Hk]]; [|by apply Bg].
    split; simpl; [exact (keyed_first a q)|done|by left|by intros i ?%not_elem_of_nil].
  - rewrite map_size_insert_None by done. lia.
  - by rewrite total_new.
  - rewrite total_new by done. simpl. by rewrite files_of_meta.
Qed.

Lemma group_ok_later acc a key g : group_ok acc key g → group_ok (acc ++ [a]) key g.
Proof.
  intros [Hk Hc Hr Hv]. split; [done..| |].
  - destruct Hr as [?|(l & b & Hb & ?)]; [by left|]. right. exists l, b. split; [set_solver|done].
  - intros i Hi. destruct (Hv i Hi) as (b & Hb & ?). exists b. split; [set_solver|done].
Qed.
Lemma group_ok_merge acc a key g :
  keyed key a → g_files g < maxFilesPerEvent → group_ok acc key g → group_ok (acc ++ [a]) key (merge_into a g).
Proof.
  intros Ha Hroom [Hk Hc Hr Hv]. split.
  - by apply keyed_merge.
  - rewrite merge_count, merge_files, Hc. unfold zlen. rewrite length_app. lia.
  - right. exists (files_of (g_activity g)), a. rewrite merge_files. split_and!; [set_solver|done|lia].
  - intros i. rewrite merge_ids, elem_of_app, list_elem_of_singleton. intros [Hi| ->].
    + destruct (Hv i Hi) as (b & Hb & Hbi & Hc'). exists b. split_and!; [set_solver|done|by eapply covers_merge].
    + exists a. split_and!; [set_solver|done|by eapply covers_new].
Qed.

Lemma Push_ok acc a em : batch_ok acc em →
  match Push a em with
  | (true, em') => batch_ok (acc ++ [a]) em' ∧ em_max em' = em_max em
  | (false, em') => em' = em
  end.
Proof.
  intros B. unfold Push. destruct (_ && _) eqn:Hfull; [done|].
  destruct (forActivity a em) as [[key em1]|] eqn:Hf; [|done].
  destruct (forActivity_ok _ _ _ _ _ B Hf) as (Hmax & Hbytes & B1 & Ha & g & Hg & Hroom).
  split; [|done]. pose proof (bo_bytes _ _ B) as Hsum. destruct B1 as [Bg Bs Bb Bl Bi Bf]. split; simpl.
  - intros k g' Hk. destruct (decide (k = key)) as [->|Hne].
    + rewrite lookup_alter_eq, Hg in Hk. injection Hk as <-. apply group_ok_merge; [done|done|by apply Bg].
    + rewrite lookup_alter_ne in Hk by done. by apply group_ok_later, Bg.
  - rewrite (alter_found _ _ g) by done. by rewrite map_size_insert, Hg.
  - by rewrite request_size_snoc, Bb.
  - apply andb_false_iff in Hfull as [Hz|Hz].
    + left. rewrite length_app. simpl. pose proof (request_size_min acc). unfold zlen in *. lia.
    + right. rewrite Hbytes. apply Z.ltb_ge in Hz. lia.
  - apply (Permutation_app_inv_r (g_ids g)). rewrite total_alter by done.
    rewrite Bi, merge_ids, map_app. simpl. solve_Permutation.
  - apply (Permutation_app_inv_r (files_of (g_activity g))). rewrite (total_alter (files_of ∘ g_activity) _ key g) by done.
    rewrite Bf. simpl. rewrite merge_files, map_app, concat_app. simpl. rewrite app_nil_r. solve_Permutation.
Qed.

(** ** Pages *)

Lemma take_row_ok acc p a : batch_ok acc (pr_events p) →
  let p' := take_row p a in
  em_max (pr_events p') = em_max (pr_events p)
  ∧ ∃ more, batch_ok (acc ++ more) (pr_events p') ∧ pr_added p' = pr_added p || negb (bool_decide (more = []))
    ∧ Forall (λ b, b = a ∧ ip_ok (a_IP b) = true) more
    ∧ ∀ i, i ∈ pr_invalid p' → i ∈ pr_invalid p ∨ (i = a_ID a ∧ ip_ok (a_IP a) = false).
Proof.
  intros B. unfold take_row. destruct (ip_ok (a_IP a)) eqn:Hip; cbn [negb].
  - pose proof (Push_ok _ a _ B) as HP. destruct (Push a (pr_events p)) as [[] em'].
    + destruct HP as [HP Hm]. split; [done|]. exists [a]. simpl. rewrite orb_true_r. split_and!; [done..|by constructor|by left].
    + subst em'. split; [done|]. exists []. rewrite app_nil_r. simpl. rewrite orb_false_r. split_and!; [done..|by left].
  - split; [done|]. exists []. rewrite app_nil_r. simpl. rewrite orb_false_r. split_and!; [done..|].
    intros i. rewrite elem_of_app, list_elem_of_singleton. naive_solver.
Qed.
Lemma take_rows_ok acc p l : batch_ok acc (pr_events p) →
  let p' := foldl take_row p l in
  em_max (pr_events p') = em_max (pr_events p)
  ∧ ∃ more, batch_ok (acc ++ more) (pr_events p') ∧ pr_added p' = pr_added p || negb (bool_decide (more = []))
    ∧ Forall (λ b, b ∈ l ∧ ip_ok (a_IP b) = true) more
    ∧ ∀ i, i ∈ pr_invalid p' → i ∈ pr_invalid p ∨ ∃ b, b ∈ l ∧ i = a_ID b ∧ ip_ok (a_IP b) = false.
Proof.
  revert acc p. induction l as [|a l IH]; intros acc p B; simpl.
  { split; [done|]. exists []. rewrite app_nil_r. simpl. rewrite orb_false_r. split_and!; [done..|by left]. }
  destruct (take_row_ok acc p a B) as (Hm & more & B1 & Ha & Hf & Hi).
  destruct (IH _ _ B1) as (Hm2 & more2 & B2 & Ha2 & Hf2 & Hi2). split; [congruence|].
  exists (more ++ more2). rewrite app_assoc. split_and!; [done| | |].
  - rewrite Ha2, Ha, <-orb_assoc. f_equal. by destruct more.
  - apply Forall_app. split; (eapply list.Forall_impl; [eassumption|]); simpl; [intros ? [-> ?]|intros ? [? ?]]; split; set_solver.
  - intros i Hin. apply Hi2 in Hin as [Hin|(b & Hb & ? & ?)]; [|right; exists b; set_solver].
    apply Hi in Hin as [Hin|[? ?]]; [by left|]. right. exists a. set_solver.
Qed.

(** What the pages gave: the batch of the activity that was taken, and rows without a valid
    address. *)
Lemma pages_yields fuel o p acc :
  batch_ok acc (pr_events p) → maxRequestBytes / 256 + 1 - zlen acc < Z.of_nat fuel →
  yields (pages fuel o p) (λ r,
    match r with
    | Err e => e = EDatabase
    | Ok p' => em_max (pr_events p') = em_max (pr_events p) ∧ ∃ acc', acc `prefix_of` acc' ∧ batch_ok acc' (pr_events p')
    end).
Proof.
  revert o p acc. induction fuel as [|fuel IH]; intros o p acc B Hf.
  { exfalso. pose proof (bo_bytes _ _ B) as Hb. pose proof (request_size_min acc).
    pose proof (Z.div_le_lower_bound maxRequestBytes 256 (zlen acc)). destruct (bo_limit _ _ B); unfold zlen in *; try lia.
    change (maxRequestBytes / 256) with 16384 in *. lia. }
  cbn [pages]. eapply yields_seq with (P := λ r, match r with Err e => e = EDatabase | Ok _ => True end).
  { intros w. unfold statement. destruct (db_fails _); done. }
  intros [[|a l]|e] Hr; [by split; [|exists acc]| |done].
  set (p0 := mkProgress (pr_events p) (pr_invalid p) (pr_full p) false).
  destruct (take_rows_ok acc p0 (a :: l) B) as (Hm & more & B1 & Ha & _). simpl in Hm.
  cbv zeta. destruct (pr_added _) eqn:Hadd.
  - eapply yields_mono; [|apply (IH _ _ _ B1)].
    + intros [p'|e]; [|done]. intros [Hm2 (acc' & Hpre & B2)]. split; [by etransitivity; [exact Hm2|exact Hm]|]. exists acc'. split; [|done].
      etransitivity; [|exact Hpre]. by apply prefix_app_r.
    + simpl in Ha. destruct more; [done|]. unfold zlen in *. rewrite length_app. simpl. lia.
  - split; [done|]. exists (acc ++ more). split; [by apply prefix_app_r|done].
Qed.

(** C32: a request of merged SFTP events is bounded and complete, and collecting it ends.
    However many rows there are and whatever is stored, deleted or fails between two pages,
    the collection stops after at most 16386 pages, with an error of the database or with a
    batch of some accepted rows: at most the maximum of events; at most 4 MiB, unless it is a
    single row; each event merges rows of its own user, server, address, event and minute
    only, and had fewer than 500 files before its last row; the identifiers and the files of
    the events together are exactly those of the accepted rows. *)
Theorem sftp_request_bounded max :
  yields (pages page_fuel 0 (mkProgress (new_events max) [] false false)) (λ r,
    match r with
    | Err e => e = EDatabase
    | Ok p => em_max (pr_events p) = (if max <=? 0 then 100 else max) ∧ ∃ accepted, batch_ok accepted (pr_events p)
    end).
Proof.
  eapply yields_mono; [|apply (pages_yields _ _ _ []); [apply batch_ok_new|]].
  - intros [p|e]; [|done]. intros [Hm (acc & _ & B)]. split; [done|by exists acc].
  - unfold page_fuel, zlen. rewrite Z2Nat.id by done. simpl. lia.
Qed.
End Merge.

(** ** Splitting refused batches *)

Section Deliver.
Context `{HH : Http} `{HD : Database}.
Implicit Types (items : list batchItem) (w : world table).

Lemma halves {A} (items : list A) n : (2 ≤ length items)%nat → (length items ≤ S n)%nat →
  (length (take (length items / 2) items) ≤ n)%nat ∧ (length (drop (length items / 2) items) ≤ n)%nat.
Proof.
  intros H2 Hn. rewrite length_take, length_drop.
  pose proof (Nat.div_lt (length items) 2 ltac:(lia) ltac:(lia)).
  pose proof (Nat.div_str_pos (length items) 2 ltac:(lia)). lia.
Qed.

(** The number of items is fuel enough. *)
Lemma deliver_ends fuel items : (length items ≤ fuel)%nat → yields (deliver fuel items) (λ r, snd r ≠ Some EFuel).
Proof.
  revert items. induction fuel as [|fuel IH]; intros [|item [|item2 rest]] Hn; try (simpl in Hn; lia); try done;
    cbn [deliver]; (eapply yields_seq; [apply yields_True|]); intros [u|e] _; try done; destruct (isRefused e); try done.
  cbn [negb]. set (items := item :: item2 :: rest) in *. destruct (halves items fuel) as [H1 H2]; [simpl; lia|done|].
  eapply yields_seq; [apply IH, H1|]. intros [ds [err|]] Hr; [done|].
  eapply yields_seq; [apply IH, H2|]. by intros [more [err2|]] Hr2.
Qed.

(** The activity that the Panel accepted in a list of exchanges, in order. *)
Definition accepted (log : list exchange) : list Activity :=
  concat (map (λ e, match e with
                    | (req, Answered status _) =>
                        match rq_Body req with
                        | Some (PActivity l) => if HasError status then [] else l
                        | _ => []
                        end
                    | _ => []
                    end) log).
Lemma accepted_app l1 l2 : accepted (l1 ++ l2) = accepted l1 ++ accepted l2.
Proof. unfold accepted. by rewrite map_app, concat_app. Qed.

Section Validating.
Context (good : Activity → bool).
(** A Panel that refuses a request as a whole when one activity in it is bad. *)
Hypothesis validates : ∀ log req l, rq_Body req = Some (PActivity l) →
  http_do log req = Answered (if forallb good l then 204 else 422) EmptyString.
Hypothesis urls : ∀ u, valid_url u = true.
Hypothesis encodes : ∀ d, marshals d = true.

Lemma try_once_validated l w :
  let '(a, w1) := exec (try_once "POST" "/activity" (Some (PActivity l)) []) w in
  (∃ sent, pn_log (w_panel w1) = pn_log (w_panel w) ++ sent ∧ accepted sent = if forallb good l then l else [])
  ∧ w_rest w1 = w_rest w
  ∧ if forallb good l then a = Done 204 EmptyString else ∃ e, a = Permanent e ∧ isRefused e = true.
Proof.
  unfold try_once, requestOnce. simpl. rewrite urls. simpl. erewrite validates by reflexivity.
  destruct (forallb good l) eqn:E; simpl.
  - split_and!; [|done|done]. eexists. split; [reflexivity|]. unfold accepted. simpl. by rewrite app_nil_r.
  - unfold Response_Error. simpl. destruct (errors_of EmptyString) as [|[[code st] detail] more]; simpl;
      (split_and!; [by eexists; split; [reflexivity|]|done|by eexists; split; [reflexivity|]]).
Qed.
Lemma SendActivityLogs_validated l w :
  let '(r, w') := exec (SendActivityLogs l) w in
  (∃ sent, pn_log (w_panel w') = pn_log (w_panel w) ++ sent ∧ accepted sent = if forallb good l then l else [])
  ∧ w_rest w' = w_rest w
  ∧ if forallb good l then r = Ok () else ∃ e, r = Err e ∧ isRefused e = true.
Proof.
  unfold SendActivityLogs, send, Post. rewrite encodes. cbn [negb]. unfold request, backoff.
  unfold mbind, prog_mbind. rewrite !exec_bind. simpl. set (waits := if _ <? _ then _ else _).
  pose proof (try_once_validated l w) as HT. generalize dependent waits. intros waits.
  destruct waits as [|v waits]; cbn [retry]; unfold mbind, prog_mbind; rewrite exec_bind;
    destruct (exec _ w) as [a w1]; destruct HT as (HT1 & HT2 & HT3); destruct (forallb good l);
    [subst a|destruct HT3 as (e & -> & He)|subst a|destruct HT3 as (e & -> & He)]; simpl; eauto.
Qed.

Lemma deliver_validated fuel items w : (length items ≤ fuel)%nat →
  let '(r, w') := exec (deliver fuel items) w in
  r = (concat (map bi_ids items), None)
  ∧ (∃ sent, pn_log (w_panel w') = pn_log (w_panel w) ++ sent ∧ accepted sent = filter (λ a, good a = true) (map bi_activity items))
  ∧ w_rest w' = w_rest w.
Proof.
  assert (∀ l, forallb good l = true → filter (λ a, good a = true) l = l) as Hall.
  { intros l. induction l as [|a l IHl]; simpl; [done|]. intros [Ha Hl]%andb_true_iff. rewrite filter_cons_True by done. by rewrite IHl. }
  revert items w. induction fuel as [|fuel IH]; intros [|item rest] w Hn; try (simpl in Hn; lia).
  1,2: simpl; split_and!; [done|exists []; by rewrite app_nil_r|done].
  cbn [deliver]. set (items := item :: rest) in *. unfold mbind, prog_mbind. rewrite exec_bind.
  pose proof (SendActivityLogs_validated (map bi_activity items) w) as HS. destruct (exec _ w) as [r w1].
  destruct HS as ((sent & Hl & Ha) & Hw & Hr). destruct (forallb good (map bi_activity items)) eqn:E.
  { subst r. simpl. split_and!; [done| |done]. exists sent. by rewrite Ha, Hall. }
  destruct Hr as (e & -> & He). rewrite He. cbn [negb]. destruct rest as [|item2 rest].
  { simpl. rewrite app_nil_r. split_and!; [done| |done]. exists sent. split; [done|]. rewrite Ha.
    subst items. simpl in E. rewrite andb_true_r in E. simpl. by rewrite filter_cons_False by (by rewrite E). }
  destruct (halves items fuel) as [H1 H2]; [simpl; lia|done|].
  rewrite exec_bind. pose proof (IH (take (length items / 2) items) w1 H1) as IH1. destruct (exec _ w1) as [r1 w2].
  destruct IH1 as (-> & (sent1 & Hl1 & Ha1) & Hw1).
  rewrite exec_bind. pose proof (IH (drop (length items / 2) items) w2 H2) as IH2. destruct (exec _ w2) as [r2 w3].
  destruct IH2 as (-> & (sent2 & Hl2 & Ha2) & Hw2).
  simpl. split_and!; [| |congruence].
  - rewrite <-concat_app, <-map_app, take_drop. done.
  - exists (sent ++ sent1 ++ sent2). split; [rewrite Hl2, Hl1, Hl; by rewrite !app_assoc|].
    rewrite !accepted_app, Ha, Ha1, Ha2. simpl. rewrite <-filter_app, <-map_app, take_drop. done.
Qed.

(** C31: a bad activity never holds up the others.  With a Panel that refuses a request as a
    whole when one of its activities is invalid, delivering a batch ends without an error,
    settles every row of it, and the Panel has accepted exactly the valid activities, each
    once and in their order. *)
Theorem deliver_isolates items w :
  let '(r, w') := exec (deliver (length items) items) w in
  r = (concat (map bi_ids items), None)
  ∧ ∃ sent, pn_log (w_panel w') = pn_log (w_panel w) ++ sent
            ∧ accepted sent = filter (λ a, good a = true) (map bi_activity items).
Proof. pose proof (deliver_validated (length items) items w ltac:(done)) as H. destruct (exec _ w). naive_solver. Qed.
End Validating.
End Deliver.
