(* ===== verification/DeliverySafe.v ===== *)
(** * No activity is lost

    Under every interleaving of the goroutines that store activity, of the two jobs and of
    other requests to the Panel, with statements that fail and a Panel that answers as it
    likes, every activity that was stored is still in the table, or there is a reason. *)

From stdpp Require Import base gmap list strings numbers.
From S2P Require Import Prelude GoStrings Network Activity Threads Remote RemoteFacts Delivery DeliveryFacts.
Open Scope Z_scope.

Section Safe.
Context `{HH : Http} `{HD : Database} `{HU : UnicodeTables} `{HL : !DatabaseLaws}.
Abbreviation W := (world table).
Implicit Types (w : W) (m : Activity).

Definition log_of w : list exchange := pn_log (w_panel w).
Definition rows w : list Activity := t_rows (w_rest w).
Definition saved w : list Activity := t_saved (w_rest w).

(** ** Why an activity may be gone *)

(** The Panel answered the request with this body so. *)
Definition exchanged (log : list exchange) (status : Z) (data : payload) : Prop :=
  ∃ req answer, (req, Answered status answer) ∈ log ∧ rq_Body req = Some data.
(** The Panel accepted a request with the event in it, or refused one with only it. *)
Definition settled (log : list exchange) m : Prop :=
  (∃ status l, exchanged log status (PActivity l) ∧ HasError status = false ∧ m ∈ l)
  ∨ ∃ status, exchanged log status (PActivity [m]) ∧ status ∈ [400; 413; 422].
(** An SFTP event is sent merged with others, anything else as it is. *)
Definition stands_for (m a : Activity) : Prop := if is_sftp a then covers m a else m = a.
Definition gone w (a : Activity) : Prop := ip_ok (a_IP a) = false ∨ ∃ m, settled (log_of w) m ∧ stands_for m a.
Definition accounted w (a : Activity) : Prop := a ∈ rows w ∨ a_ID a ∈ t_pruned (w_rest w) ∨ gone w a.

(** ** The invariant, and what every goroutine relies on *)

Record delivery_ok w : Prop := mkDeliveryOk {
  do_ids : ∀ a b, a ∈ saved w → b ∈ saved w → a_ID a = a_ID b → a = b;
  do_last : ∀ a, a ∈ saved w → a_ID a ≤ t_last (w_rest w);
  do_rows : rows w ⊆ saved w;
  do_accounted : ∀ a, a ∈ saved w → accounted w a;
}.
Definition later w w' : Prop := log_of w ⊆ log_of w' ∧ saved w ⊆ saved w'.
#[local] Instance later_preorder : PreOrder later.
Proof. split; [by intros w|]. intros w1 w2 w3 [? ?] [? ?]. split; set_solver. Qed.

Abbreviation safely p Q w := (safe delivery_ok later p Q w).

(** The rules of [Threads] for this invariant. *)
Lemma then_ {A B} (f : A → prog W B) p (P : A → W → Prop) Q w :
  safely p P w → (∀ a w', later w w' → P a w' → safely (f a) Q w') → safely (p ≫= f) Q w.
Proof. apply (safe_seq _ _). Qed.
Lemma look {B} (f : W → B) (Q : B → W → Prop) w :
  (∀ w', later w w' → delivery_ok w' → Q (f w') w') → safely (gets f) Q w.
Proof. apply (safe_gets _ _). Qed.
Lemma weaken {A} (p : prog W A) (P Q : A → W → Prop) w :
  (∀ a w', later w w' → P a w' → Q a w') → safely p P w → safely p Q w.
Proof. apply (safe_mono _ _). Qed.
Lemma just {A} (a : A) (Q : A → W → Prop) w : Q a w → safely (mret a) Q w.
Proof. done. Qed.

Lemma settled_later l1 l2 m : l1 ⊆ l2 → settled l1 m → settled l2 m.
Proof.
  intros Hl [(s & l & (r & b & Hr & ?) & ?)|(s & (r & b & Hr & ?) & ?)]; [left; exists s, l|right; exists s];
    (split; [|done]); exists r, b; (split; [by apply Hl|done]).
Qed.
Lemma gone_later w w' a : log_of w ⊆ log_of w' → gone w a → gone w' a.
Proof. intros Hl [?|(m & ? & ?)]; [by left|]. right. exists m. split; [by eapply settled_later|done]. Qed.

(** What may be deleted: an identifier of stored activity that has a reason to go. *)
Definition deletable w (i : Z) : Prop := ∃ a, a ∈ saved w ∧ a_ID a = i ∧ gone w a.
Lemma deletable_later w w' i : later w w' → deletable w i → deletable w' i.
Proof. intros [Hl Hs] (a & Ha & ? & Hg). exists a. split; [by apply Hs|]. split; [done|by eapply gone_later]. Qed.

(** ** The client of the Panel *)

(** An action on the client only adds to the log. *)
Lemma panel_ok w p : delivery_ok w → log_of w ⊆ pn_log p → delivery_ok (mkWorld p (w_rest w)) ∧ later w (mkWorld p (w_rest w)).
Proof.
  intros [Hi Hla Hr Ha] Hl. split; [|by split]. split; [done..|].
  intros a Hin. destruct (Ha a Hin) as [?|[?|?]]; [by left|by right; left|]. right. right. by eapply (gone_later w).
Qed.

Definition exchanged_with (log : list exchange) (status : Z) (body : option payload) : Prop :=
  ∃ req answer, (req, Answered status answer) ∈ log ∧ rq_Body req = body.

Lemma panel_action {B} (f : panel → B * panel) (Q : B → W → Prop) w :
  (∀ p, pn_log p ⊆ pn_log (snd (f p))) → (∀ w', later w w' → Q (fst (f (w_panel w'))) (mkWorld (snd (f (w_panel w'))) (w_rest w'))) →
  safely (atomic (λ w', (fst (f (w_panel w')), mkWorld (snd (f (w_panel w'))) (w_rest w')))) Q w.
Proof.
  intros Hf HQ w' HR HI. cbn [fst snd]. destruct (panel_ok w' (snd (f (w_panel w'))) HI (Hf _)) as [? ?]. split_and!; [done..|by apply HQ].
Qed.

Lemma requestOnce_safe method path body q w :
  safely (requestOnce method path body q) (λ r w',
    match r with Ok (s, _) => exchanged_with (log_of w') s body | Err e => ∀ re, e ≠ ERequest re end) w.
Proof.
  unfold requestOnce. eapply then_; [by apply (look _ (λ _ _, True))|]. intros url w1 _ _.
  destruct (negb _); [by apply just|]. eapply then_; [by apply (look _ (λ _ _, True))|]. intros [id token] w2 _ _.
  set (req := mkHttpRequest _ _ _ _ _ _).
  apply (then_ _ _ (λ o w', ∀ s b, o = Answered s b → exchanged_with (log_of w') s body)).
  - apply (panel_action (λ p, let o := http_do (pn_log p) req in
      (o, log_exchange (req, o) (match o with Answered _ _ => 1 | NoAnswer _ => 0 end) p))); simpl; [set_solver|].
    intros w3 _ s b Ho. exists req, b. rewrite <-Ho. split; [|done]. unfold log_of. simpl. set_solver.
  - intros [s b|c] w4 _ Ho; apply just; [by eapply Ho|by destruct c].
Qed.
Lemma close_safe w : safely close_body (λ _ w', log_of w ⊆ log_of w') w.
Proof. apply (panel_action (λ p, ((), close_one p))); [done|]. intros w' [Hl _]. done. Qed.

(** An error of the Panel has the status of an answer. *)
Definition reported (log : list exchange) (body : option payload) (e : rerr) : Prop :=
  ∀ re, e = ERequest re → exchanged_with log (re_StatusCode re) body.
Lemma exchanged_with_later l1 l2 s body : l1 ⊆ l2 → exchanged_with l1 s body → exchanged_with l2 s body.
Proof. intros Hl (r & b & Hr & ?). exists r, b. split; [by apply Hl|done]. Qed.

Lemma try_once_safe method path body q w :
  safely (try_once method path body q) (λ a w',
    match a with
    | Done s _ => exchanged_with (log_of w') s body ∧ HasError s = false
    | Retriable e | Permanent e => reported (log_of w') body e
    end) w.
Proof.
  unfold try_once. eapply then_; [apply requestOnce_safe|]. intros [[s b]|e] w1 _ Hr.
  - unfold Response_Error. destruct (HasError s) eqn:He; cbn [negb]; [|by apply just].
    destruct (default _ _) as [[code st] detail].
    eapply then_; [apply close_safe|]. intros [] w2 _ Hl.
    assert (reported (log_of w2) body (ERequest (mkRequestError code st detail s))).
    { intros re [= <-]. simpl. by eapply exchanged_with_later. }
    by destruct (_ && _); apply just.
  - assert (reported (log_of w1) body e) by (intros re ->; by destruct (Hr re)).
    by destruct e; apply just.
Qed.

Lemma retry_safe waits body (op : prog W attempt) w :
  (∀ w, safely op (λ a w',
    match a with
    | Done s _ => exchanged_with (log_of w') s body ∧ HasError s = false
    | Retriable e | Permanent e => reported (log_of w') body e
    end) w) →
  safely (retry waits op) (λ r w',
    match r with
    | Ok (s, _) => exchanged_with (log_of w') s body ∧ HasError s = false
    | Err e => reported (log_of w') body e
    end) w.
Proof.
  intros Hop. revert w. induction waits as [|v waits IH]; intros w; cbn [retry]; (eapply then_; [apply Hop|]);
    intros [s b|e|e] w1 _ Ha; try by apply just.
  destruct v; [apply IH|by apply just..].
Qed.
Lemma request_safe method path body q w :
  safely (request method path body q) (λ r w',
    match r with
    | Ok (s, _) => exchanged_with (log_of w') s body ∧ HasError s = false
    | Err e => reported (log_of w') body e
    end) w.
Proof.
  unfold request. eapply then_; [by apply (look _ (λ _ _, True))|]. intros waits w1 _ _.
  apply retry_safe. intros w2. apply try_once_safe.
Qed.
Lemma SendActivityLogs_safe l w :
  safely (SendActivityLogs l) (λ r w',
    match r with
    | Ok _ => ∃ s, exchanged (log_of w') s (PActivity l) ∧ HasError s = false
    | Err e => isRefused e = true → ∃ s, exchanged (log_of w') s (PActivity l) ∧ s ∈ [400; 413; 422]
    end) w.
Proof.
  unfold SendActivityLogs, send, Post. destruct (negb _); [by apply just|].
  eapply then_; [apply request_safe|]. intros [[s b]|e] w1 _ Hr.
  - eapply then_; [apply close_safe|]. intros [] w2 _ Hl. apply just. destruct Hr as [Hr He]. exists s.
    split; [|done]. by eapply exchanged_with_later in Hr.
  - apply just. unfold isRefused. destruct e as [| | | |re| |]; try done. simpl. intros Hs%bool_decide_eq_true.
    exists (re_StatusCode re). split; [by apply Hr|done].
Qed.

(** ** Delivering *)

(** Every identifier that delivering returns is of an item that is settled. *)
Definition item_settled (items : list batchItem) w (i : Z) : Prop :=
  ∃ item, item ∈ items ∧ i ∈ bi_ids item ∧ settled (log_of w) (bi_activity item).
Lemma item_settled_later items items' w w' i :
  items ⊆ items' → later w w' → item_settled items w i → item_settled items' w' i.
Proof. intros Hi [Hl _] (it & ? & ? & ?). exists it. split; [set_solver|]. split; [done|by eapply settled_later]. Qed.

Lemma in_ids items i : i ∈ concat (map bi_ids items) → ∃ it, it ∈ items ∧ i ∈ bi_ids it.
Proof.
  intros (ids & Hids & Hi)%list_elem_of_In%in_concat. apply in_map_iff in Hids as (it & <- & Hit).
  exists it. by rewrite !list_elem_of_In.
Qed.
Lemma all_accepted items w s i :
  exchanged (log_of w) s (PActivity (map bi_activity items)) → HasError s = false →
  i ∈ concat (map bi_ids items) → item_settled items w i.
Proof.
  intros Hx Hs (it & Hit & Hi)%in_ids. exists it. split_and!; [done..|]. left. eexists s, _. split_and!; [done..|].
  by apply list_elem_of_fmap_2.
Qed.

Lemma deliver_safe fuel items w :
  safely (deliver fuel items) (λ r w', ∀ i, i ∈ fst r → item_settled items w' i) w.
Proof.
  revert items w. induction fuel as [|fuel IH]; intros [|item rest] w; try (by apply just; intros i ?%not_elem_of_nil);
    cbn [deliver]; (eapply then_; [apply SendActivityLogs_safe|]); intros [u|e] w1 _ Hr;
    try (destruct Hr as (s & Hx & Hs); apply just; intros i; by eapply all_accepted);
    (destruct (isRefused e) eqn:He; cbn [negb]; [|by apply just; intros i ?%not_elem_of_nil]);
    destruct (Hr eq_refl) as (s & Hx & Hs); destruct rest as [|item2 rest];
    try (apply just; intros i Hi; exists item; split_and!; [set_solver|done|right; by exists s]);
    [by apply just; intros i ?%not_elem_of_nil|].
  set (items := item :: item2 :: rest). set (n := (length items / 2)%nat).
  assert (∀ w' w'' i, later w' w'' → item_settled (take n items) w' i → item_settled items w'' i) as Hleft.
  { intros w' w'' i. apply item_settled_later. intros x Hx'. rewrite <-(take_drop n items). set_solver. }
  assert (∀ w' i, item_settled (drop n items) w' i → item_settled items w' i) as Hright.
  { intros w' i. apply item_settled_later; [|done]. intros x Hx'. rewrite <-(take_drop n items). set_solver. }
  eapply then_; [apply IH|]. intros [ds err] w2 _ Hd. cbn [fst] in Hd.
  destruct err as [err|]; [apply just; intros i Hi; by eapply Hleft, Hd|].
  eapply then_; [apply IH|]. intros [more err] w3 HR Hm. cbn [fst] in Hm.
  apply just. cbn [fst]. intros i [Hi|Hi]%elem_of_app; [by eapply Hleft, Hd|by apply Hright, Hm].
Qed.

(** ** Statements *)

(** A change of the table keeps the invariant if it only takes rows away for a reason, or
    adds one with a new identifier. *)
Definition keeps_table w (t : table) : Prop :=
  let w' := mkWorld (w_panel w) t in delivery_ok w' ∧ later w w'.
Lemma keeps_executed w : delivery_ok w → keeps_table w (executed (w_rest w)).
Proof. by intros [Hi Hla Hr Ha]. Qed.

Lemma statement_safe {A} (f : table → A * table) (Q : result cerr A → W → Prop) w :
  (∀ w', later w w' → delivery_ok w' → keeps_table w' (snd (f (w_rest w'))) ∧ Q (Ok (fst (f (w_rest w')))) (mkWorld (w_panel w') (snd (f (w_rest w'))))) →
  (∀ w', later w w' → Q (Err EDatabase) w') →
  safely (statement f) Q w.
Proof.
  intros Hok Herr w' HR HI. pose proof (keeps_executed _ HI) as [HI1 HR1]. unfold on_rest.
  destruct (db_fails _); cbn [fst snd].
  { split_and!; [done..|]. apply Herr. by etransitivity. }
  destruct (Hok (mkWorld (w_panel w') (executed (w_rest w')))) as [[HI2 HR2] HQ]; [by etransitivity|done|].
  cbn [w_rest w_panel] in *. destruct (f (executed (w_rest w'))) as [a t']. cbn [fst snd] in *. split_and!; [done| |done].
  etransitivity; [exact HR1|exact HR2].
Qed.
Lemma query_safe {A} (f : table → A) (Q : A → W → Prop) w :
  (∀ w', later w w' → delivery_ok w' → Q (f (w_rest w')) w') →
  safely (statement (λ t, (f t, t))) (λ r w', match r with Ok a => Q a w' | Err e => e = EDatabase end) w.
Proof.
  intros HQ. apply statement_safe; [|done]. intros w' HR HI. cbn [fst snd]. split; [split; [|done]|]; destruct w'; [done|by apply HQ].
Qed.

Lemma delete_ids_ok w ids : delivery_ok w → (∀ i, i ∈ ids → deletable w i) → keeps_table w (delete_ids ids (w_rest w)).
Proof.
  intros [Hi Hla Hr Ha] Hd. split; [|done]. split; simpl; [done|done| |].
  - unfold rows. simpl. intros a [_ Hin]%list_elem_of_filter. by apply Hr.
  - intros a Hin. destruct (Ha a Hin) as [Hrow|[?|?]]; [|by right; left|by right; right].
    destruct (decide (a_ID a ∈ ids)) as [Hids|Hids].
    + right. right. destruct (Hd _ Hids) as (b & Hb & Heq & Hg). by rewrite (Hi a b Hin Hb).
    + left. apply list_elem_of_filter. by split.
Qed.
Lemma delete_oldest_ok w n : delivery_ok w → keeps_table w (delete_oldest n (w_rest w)).
Proof.
  intros [Hi Hla Hr Ha]. split; [|done]. unfold delete_oldest. cbv zeta. set (oldest := map _ _). split; simpl; [done|done| |].
  - unfold rows. simpl. intros a [_ Hin]%list_elem_of_filter. by apply Hr.
  - intros a Hin. destruct (Ha a Hin) as [Hrow|[?|?]]; [|right; left; simpl; set_solver|by right; right].
    destruct (decide (a_ID a ∈ oldest)) as [Hids|Hids].
    + right. left. simpl. set_solver.
    + left. apply list_elem_of_filter. by split.
Qed.
Lemma insert_row_ok w a : delivery_ok w → keeps_table w (insert_row a (w_rest w)).
Proof.
  intros [Hi Hla Hr Ha]. pose proof (newID_grows (t_last (w_rest w))) as Hnew. unfold insert_row. cbv zeta.
  set (row := set_id _ _). assert (a_ID row = db_newID (t_last (w_rest w))) as Hrow by done.
  split; [|split; [done|unfold saved; simpl; set_solver]]. split; unfold saved, rows in *; simpl.
  - intros b c [Hb| ->%list_elem_of_singleton]%elem_of_app [Hc| ->%list_elem_of_singleton]%elem_of_app Heq; try done.
    + by apply Hi.
    + apply Hla in Hb. lia.
    + apply Hla in Hc. lia.
  - intros b [Hb| ->%list_elem_of_singleton]%elem_of_app; [apply Hla in Hb|]; lia.
  - set_solver.
  - intros b [Hb| ->%list_elem_of_singleton]%elem_of_app; [|left; unfold rows; simpl; set_solver].
    destruct (Ha b Hb) as [?|[?|?]]; [left; unfold rows in *; simpl; set_solver|by right; left|by right; right].
Qed.

Lemma delete_chunks_safe fuel ids w :
  (∀ i, i ∈ ids → deletable w i) → safely (delete_chunks fuel ids) (λ _ _, True) w.
Proof.
  revert ids w. induction fuel as [|fuel IH]; intros [|i0 ids] w Hd; try done.
  cbn [delete_chunks]. set (all := i0 :: ids) in *. generalize (Z.to_nat 32000). intros chunk.
  apply (then_ _ _ (λ r w', ∀ i, i ∈ all → deletable w' i)).
  - apply statement_safe; [|by intros w' HR i Hi; eapply deletable_later; [exact HR|by apply Hd]].
    intros w' HR HI. cbn [fst snd].
    assert (∀ i, i ∈ all → deletable w' i) as Hd' by (intros i Hi; eapply deletable_later; [exact HR|by apply Hd]).
    assert (keeps_table w' (delete_ids (take chunk all) (w_rest w'))) as [HI' HR'].
    { apply delete_ids_ok; [done|]. intros i Hi. apply Hd'. rewrite <-(take_drop chunk all). set_solver. }
    split; [done|]. intros i Hi. eapply deletable_later; [exact HR'|by apply Hd'].
  - intros [u|e] w1 _ Hd1; [|by apply just]. apply IH. intros i Hi. apply Hd1. rewrite <-(take_drop chunk all). set_solver.
Qed.
Lemma settle_safe invalid items w :
  (∀ i, i ∈ invalid → deletable w i) →
  (∀ w' i, later w w' → item_settled items w' i → deletable w' i) →
  safely (settle invalid items) (λ _ _, True) w.
Proof.
  intros Hinv Hit. unfold settle. eapply then_; [apply deliver_safe|]. intros [ds err] w1 HR Hds. cbn [fst] in Hds.
  eapply then_; [apply delete_chunks_safe|by intros].
  intros i [Hi|Hi]%elem_of_app; [eapply deletable_later; [exact HR|by apply Hinv]|apply Hit; [done|by apply Hds]].
Qed.
Lemma pruneActivity_safe max w : safely (pruneActivity max) (λ _ _, True) w.
Proof.
  unfold pruneActivity. eapply then_; [by apply (query_safe _ (λ _ _, True))|]. intros [count|e] w1 _ _; [|by apply just].
  destruct (_ <=? _); [by apply just|]. eapply then_; [|by intros].
  apply (statement_safe _ (λ _ _, True)); [|done]. intros w' _ HI. split; [by apply delete_oldest_ok|done].
Qed.

(** ** The jobs *)

Lemma activity_sendBatch_safe max w : safely (activity_sendBatch max) (λ _ _, True) w.
Proof.
  unfold activity_sendBatch.
  eapply then_; [apply (query_safe _ (λ l w', ∀ a, a ∈ l → a ∈ saved w' ∧ is_sftp a = false))|].
  { intros w' _ [_ _ Hr _] a Ha. apply elem_of_take in Ha as (k & Hk & _). apply list_elem_of_lookup_2 in Hk.
    apply list_elem_of_filter in Hk as [? Hk]. split; [by apply Hr|done]. }
  intros [[|a0 l0]|e] w1 _ Hl; [by apply just| |by apply just]. set (activity := a0 :: l0) in *.
  eapply then_; [apply settle_safe|by intros [ds err] w2 _ _].
  - intros i (a & -> & Ha)%list_elem_of_fmap. apply list_elem_of_filter in Ha as [Hip Ha]. exists a.
    split; [by apply Hl|]. split; [done|by left].
  - intros w' i [_ Hs] (it & Hit & Hi & Hset). apply list_elem_of_fmap in Hit as (a & -> & Ha).
    apply list_elem_of_filter in Ha as [Hip Ha]. simpl in Hi. apply list_elem_of_singleton in Hi as ->.
    destruct (Hl a Ha) as [Hsv Hsf]. exists a. split; [by apply Hs|]. split; [done|]. right. exists a. split; [done|].
    unfold stands_for. by rewrite Hsf.
Qed.

(** Accepted rows and invalid rows of the pages. *)
Definition collected w (p : progress) : Prop :=
  (∃ acc, batch_ok acc (pr_events p) ∧ ∀ a, a ∈ acc → a ∈ saved w ∧ is_sftp a = true)
  ∧ ∀ i, i ∈ pr_invalid p → deletable w i.
Lemma collected_later w w' p : later w w' → collected w p → collected w' p.
Proof.
  intros HR [(acc & B & Ha) Hi]. split; [|by intros i ?; eapply deletable_later; [exact HR|apply Hi]].
  exists acc. split; [done|]. intros a Hin. destruct (Ha a Hin). split; [by apply HR|done].
Qed.
Lemma pages_safe fuel o p w :
  collected w p → safely (pages fuel o p) (λ r w', match r with Ok p' => collected w' p' | Err _ => True end) w.
Proof.
  revert o p w. induction fuel as [|fuel IH]; intros o p w Hc; [done|]. cbn [pages].
  eapply then_; [apply (query_safe _ (λ l w', collected w' p ∧ ∀ a, a ∈ l → a ∈ saved w' ∧ is_sftp a = true))|].
  { intros w' HR [_ _ Hr _]. split; [by eapply collected_later|]. intros a Ha.
    apply elem_of_take in Ha as (k & Hk & _). rewrite lookup_drop in Hk. apply list_elem_of_lookup_2 in Hk.
    rewrite by_event_rows in Hk. apply list_elem_of_filter in Hk as [? Hk]. split; [by apply Hr|done]. }
  intros [[|a l]|e] w1 _ Hl; [by apply just, Hl| |by apply just]. destruct Hl as [[(acc & B & Hacc) Hinv] Hl].
  set (p0 := mkProgress (pr_events p) (pr_invalid p) (pr_full p) false).
  destruct (take_rows_ok acc p0 (a :: l) B) as (_ & more & B1 & _ & Hmore & Hi). cbv zeta.
  assert (collected w1 (foldl take_row p0 (a :: l))) as Hc1.
  { split.
    - exists (acc ++ more). split; [done|]. intros b [Hb|Hb]%elem_of_app; [by apply Hacc|].
      rewrite list.Forall_forall in Hmore. apply Hmore in Hb as [Hb _]. by apply Hl.
    - intros i Hin. apply Hi in Hin as [Hin|(b & Hb & -> & Hip)]; [by apply Hinv|].
      exists b. split; [by apply Hl|]. split; [done|by left]. }
  destruct (pr_added _); [by apply IH|by apply just].
Qed.
Lemma Items_deletable w n p i : collected w p → item_settled (Items n (pr_events p)) w i → deletable w i.
Proof.
  intros [(acc & B & Hacc) _] (it & Hit & Hi & Hset). unfold Items in Hit. rewrite range_items_all in Hit.
  apply list_elem_of_fmap in Hit as (g & -> & Hg). apply list_elem_of_fmap in Hg as ([key g'] & -> & Hg).
  apply elem_of_map_to_list in Hg. simpl in *. destruct (go_covers _ _ _ (bo_groups _ _ B _ _ Hg) i Hi) as (a & Ha & Hai & Hcov).
  destruct (Hacc a Ha) as [Hsv Hsf]. exists a. split; [done|]. split; [done|]. right. exists (g_activity g'). split; [done|].
  unfold stands_for. by rewrite Hsf.
Qed.
Lemma sftp_sendBatch_safe max w : safely (sftp_sendBatch max) (λ _ _, True) w.
Proof.
  unfold sftp_sendBatch. eapply then_; [apply pages_safe|].
  { split; [|by intros i ?%not_elem_of_nil]. exists []. split; [apply batch_ok_new|by intros a ?%not_elem_of_nil]. }
  intros [p|e] w1 _ Hc; [|by apply just].
  eapply then_; [apply (look _ (λ items w', ∃ n, items = Items n (pr_events p))); by eexists|]. intros items w2 HR [n ->].
  eapply then_; [apply settle_safe|by intros [ds err] w3 _ _].
  - intros i Hi. eapply deletable_later; [exact HR|by apply Hc].
  - intros w' i HR'. apply Items_deletable. eapply collected_later; [|exact Hc]. by etransitivity.
Qed.

(** An action on the flags of the jobs. *)
Definition same_rows w w' : Prop :=
  w_panel w' = w_panel w ∧ t_rows (w_rest w') = t_rows (w_rest w) ∧ t_last (w_rest w') = t_last (w_rest w)
  ∧ t_saved (w_rest w') = t_saved (w_rest w) ∧ t_pruned (w_rest w') = t_pruned (w_rest w).
Lemma flag_safe {B} (f : W → B * W) w : (∀ w, same_rows w (snd (f w))) → safely (atomic f) (λ _ _, True) w.
Proof.
  intros Hg w' HR [Hi Hla Hr Ha]. destruct (Hg w') as (H0 & H1 & H2 & H3 & H4). destruct (f w') as [b w1]. cbn [fst snd] in *.
  split_and!; [|split; unfold log_of, saved; by rewrite ?H0, ?H3|done].
  split; unfold rows, saved, accounted, gone, log_of, rows in *; rewrite ?H0, ?H1, ?H2, ?H3, ?H4; done.
Qed.
Lemma swap_safe (flag : table → bool) (set : bool → table → table) w :
  (∀ w b, same_rows w (on_rest (set b) w)) →
  safely (atomic (λ w, let '(ok, b) := swap_if true (flag (w_rest w)) in (ok, on_rest (set b) w))) (λ _ _, True) w.
Proof. intros Hs. apply flag_safe. intros w'. destruct (swap_if _ _) as [ok b]. apply Hs. Qed.
Lemma activity_Run_safe max w : safely (activity_Run max) (λ _ _, True) w.
Proof.
  unfold activity_Run. eapply then_; [by apply swap_safe|]. intros free w1 _ _.
  destruct free; [|by apply just]. cbn [negb]. eapply then_; [apply pruneActivity_safe|]. intros err w2 _ _.
  apply (then_ _ _ (λ _ _, True)).
  - destruct err; [by apply just|]. generalize maxBatchesPerRun w2. intros n. induction n as [|n IH]; intros w3; [by apply just|].
    cbn [activity_batches]. eapply then_; [apply activity_sendBatch_safe|]. intros [k|e] w4 _ _; [|by apply just].
    destruct (_ <? _); [by apply just|apply IH].
  - intros err' w3 _ _. eapply then_; [by apply flag_safe|by intros].
Qed.
Lemma sftp_Run_safe max w : safely (sftp_Run max) (λ _ _, True) w.
Proof.
  unfold sftp_Run. eapply then_; [by apply swap_safe|]. intros free w1 _ _.
  destruct free; [|by apply just]. cbn [negb]. apply (then_ _ _ (λ _ _, True)).
  - generalize maxBatchesPerRun w1. intros n. induction n as [|n IH]; intros w3; [by apply just|].
    cbn [sftp_batches]. eapply then_; [apply sftp_sendBatch_safe|]. intros [k|e] w4 _ _; [|by apply just].
    destruct (negb k); [by apply just|apply IH].
  - intros err' w3 _ _. eapply then_; [by apply flag_safe|by intros].
Qed.

(** ** Every interleaving *)

(** What runs: activity is stored, the jobs run, other requests are made to the Panel, and
    the credentials are replaced. *)
Inductive goroutine : prog W unit → Prop :=
| run_save ra event metadata : goroutine (SaveActivity ra event metadata)
| run_activity max : goroutine (_ ← activity_Run max; mret ())
| run_sftp max : goroutine (_ ← sftp_Run max; mret ())
| run_request method path body q : goroutine (_ ← request method path body q; mret ())
| run_credentials id token : goroutine (SetCredentials id token).

(** The start: a database with some rows from earlier. *)
Definition started w : Prop :=
  saved w = rows w ∧ NoDup (map a_ID (rows w)) ∧ ∀ a, a ∈ rows w → a_ID a ≤ t_last (w_rest w).
Lemma started_ok w : started w → delivery_ok w.
Proof.
  intros (Hs & Hn & Hl). split; rewrite ?Hs; [|done|done|by left].
  intros a b Ha Hb Heq. apply list_elem_of_lookup_1 in Ha as [i Hi], Hb as [j Hj].
  assert (i = j) as ->; [|congruence]. eapply NoDup_lookup; [exact Hn|..]; rewrite list_lookup_fmap.
  - by rewrite Hi.
  - by rewrite Hj, Heq.
Qed.

(** C12: no activity is lost.  At every moment of every interleaving of goroutines that store
    activity, of both jobs and of other requests, whichever statements fail and whatever the
    Panel answers, every activity that was ever stored is still stored, or was pruned as the
    oldest, or has no valid address, or the Panel accepted a request in which it was, or the
    Panel refused a request with it alone.  A SFTP event was sent as a part of a merged event
    of its user, server, address, kind and minute with all its files; any other, as it is. *)
Theorem activity_accounted w0 ts w :
  started w0 → steps goroutine ([], w0) (ts, w) → ∀ a, a ∈ saved w → accounted w a.
Proof.
  intros H0 Hs. destruct (safe_steps delivery_ok later goroutine w0 ts w) as [HI _]; [by apply started_ok| |done|apply HI].
  intros p w' Hp _. destruct Hp.
  - eapply then_; [|by intros]. apply (statement_safe _ (λ _ _, True)); [|done]. intros w1 _ HI. split; [by apply insert_row_ok|done].
  - eapply then_; [apply activity_Run_safe|by intros].
  - eapply then_; [apply sftp_Run_safe|by intros].
  - eapply then_; [apply request_safe|by intros].
  - by apply (panel_action (λ p, ((), mkPanel (pn_baseUrl p) id token (pn_maxAttempts p) (pn_log p) (pn_open p)))).
Qed.
End Safe.
