(* ===== verification/DeliveryExample.v ===== *)
(** * Delivery of activity on a small Panel

    A database and a Panel on which the hypotheses of the theorems hold, and three
    behaviours of the job for SFTP events. *)

From stdpp Require Import base gmap list strings numbers sorting.
From S2P Require Import Prelude GoStrings Network Activity Threads Remote RemoteFacts Delivery DeliveryFacts DeliverySafe.
Open Scope Z_scope.

Definition later_event (a b : Activity) : Prop := str_leb (a_Event b) (a_Event a) = true.
#[local] Instance later_event_dec : RelDecision later_event.
Proof. intros a b. unfold later_event. apply _. Defined.

#[local] Instance x_unicode : UnicodeTables := {| unicode_lower s := s; unicode_upper s := s; unicode_trim s := s |}.
#[local] Instance x_database : Database := {|
  db_fails _ := false;
  db_newID n := n + 1;
  db_by_event _ l := merge_sort later_event l;
  db_clock n := Z.of_nat n * 10 ^ 9;
  meta_len m := match m with Some md => 20 * Z.of_nat (size md) | None => 4 end;
  range_items _ _ l := l;
|}.
#[local] Instance x_laws : DatabaseLaws.
Proof.
  split.
  - intros n. simpl. lia.
  - intros n l. simpl. apply merge_sort_Permutation.
  - intros [md|]; simpl; lia.
  - done.
Qed.

(** The Panel refuses a request with a console command in it that says "refused". *)
Definition x_good (a : Activity) : bool :=
  negb (bool_decide ((m ← a_Metadata a; m !! "command"%string) = Some (VOther "refused"))).
#[local] Instance x_http : Http := {|
  http_do log req :=
    match rq_Body req with
    | Some (PActivity l) => Answered (if forallb x_good l then 204 else 422) EmptyString
    | _ => Answered 204 EmptyString
    end;
  backoff_waits _ := [Again; Stop];
  valid_url _ := true;
  marshals _ := true;
  errors_of _ := [];
  version := "1.0";
  interleaving _ := [];
|}.

Definition x_user : RequestActivity := NewRequestActivity "server" "user" "203.0.113.9:2022".
Definition x_zone : RequestActivity := NewRequestActivity "server" "user" "[fe80::1%eth0]:2022".
Definition x_files (l : list string) : option ActivityMeta := files_meta l.
Definition x_command (c : string) : option ActivityMeta := Some {["command"%string := VOther c]}.
Definition x_empty : world table := mkWorld (New "https://panel" "id" "token" 0) empty_table.

(** What the schedule leaves: the rows, and the files or commands the Panel accepted. *)
Definition outcome_of (w : world table) : list Z * list (string * list string) :=
  (map a_ID (rows w), map (λ a, (a_Event a, files_of a)) (accepted (log_of w))).

(** ** Interleaved jobs *)

Definition x_threads : list (prog (world table) unit) :=
  [SaveActivity x_user ActivitySftpWrite (x_files ["a"; "b"]%string);
   SaveActivity x_user ActivityConsoleCommand (x_command "refused");
   SaveActivity x_user ActivitySftpWrite (x_files ["c"]%string);
   SaveActivity x_zone ActivitySftpDelete (x_files ["d"]%string);
   SaveActivity x_user ActivityConsoleCommand (x_command "say hi");
   _ ← activity_Run 100; mret ();
   _ ← sftp_Run 100; mret ()].
Lemma x_goroutines : Forall goroutine x_threads.
Proof. repeat constructor. Qed.
(** The second save comes after the jobs have started. *)
Definition x_turns : list nat := [0; 1; 2; 3; 5; 6; 5; 6; 4]%nat ++ repeat 5%nat 40 ++ repeat 6%nat 40.

Lemma activity_accounted_witness :
  started x_empty
  ∧ (let w := snd (schedule x_turns (x_threads, x_empty)) in
     (∀ a, a ∈ saved w → accounted w a)
     ∧ length (saved w) = 5%nat
     ∧ outcome_of w = ([], [("server:console.command", []); ("server:sftp.write", ["a"; "b"; "c"])]%string)).
Proof.
  assert (started x_empty) as Hs by (split; [done|split; [constructor|by intros a ?%not_elem_of_nil]]).
  split; [done|]. cbv zeta. split; [|by vm_compute].
  apply (activity_accounted x_empty (fst (schedule x_turns (x_threads, x_empty)))); [done|].
  rewrite <-surjective_pairing. etransitivity; [|apply schedule_steps].
  apply (spawn_steps goroutine x_threads [] x_empty), x_goroutines.
Defined.

Lemma sftp_request_bounded_witness :
  DatabaseLaws ∧ yields (pages page_fuel 0 (mkProgress (new_events 3) [] false false)) (λ r,
    match r with
    | Err e => e = EDatabase
    | Ok p => em_max (pr_events p) = 3 ∧ ∃ accepted, batch_ok accepted (pr_events p)
    end).
Proof. split; [apply x_laws|]. apply (sftp_request_bounded 3). Defined.

Definition x_item (i : Z) (c : string) : batchItem := mkItem (mkActivity i None "server" ActivityConsoleCommand (x_command c) "::1" 0) [i].
Definition x_items : list batchItem := [x_item 1 "a"; x_item 2 "refused"; x_item 3 "b"; x_item 4 "refused"; x_item 5 "c"].
Lemma deliver_isolates_witness :
  (let '(r, w') := exec (deliver (length x_items) x_items) x_empty in
   r = ([1; 2; 3; 4; 5], None)
   ∧ ∃ sent, pn_log (w_panel w') = pn_log (w_panel x_empty) ++ sent
             ∧ accepted sent = filter (λ a, x_good a = true) (map bi_activity x_items))
  ∧ map a_ID (filter (λ a, x_good a = true) (map bi_activity x_items)) = [1; 3; 5].
Proof.
  split; [|by vm_compute]. apply (deliver_isolates x_good); [|done|done].
  intros log req l Hb. simpl. by rewrite Hb.
Defined.

(** ** What the job does besides *)

Definition x_row (i : Z) (event ip file : string) (t : Z) : Activity :=
  mkActivity i (Some "user"%string) "server" event (x_files [file]) ip (t * 10 ^ 9).
Definition x_stored (l : list Activity) : world table :=
  mkWorld (New "https://panel" "id" "token" 0) (mkTable l (zlen l) 0 l [] false false).

(** A row that is read again, because another was stored while the pages were read, is
    merged twice: the event lists its file two times. *)
Lemma row_merged_twice :
  let w0 := x_stored [x_row 1 ActivitySftpRename "203.0.113.9" "a" 0] in
  let ts := [(_ ← sftp_Run 1; mret ()); SaveActivity x_user ActivitySftpWrite (x_files ["b"]%string)] in
  outcome_of (snd (schedule ([0; 0; 1] ++ repeat 0 20)%nat (ts, w0)))
  = ([2], [("server:sftp.rename", ["a"; "a"])]%string).
Proof. vm_compute. reflexivity. Qed.

(** A page with only invalid rows ends the run, although the rows after it belong to no other
    request: they are sent by the next run only. *)
Lemma invalid_page_ends_run :
  let w0 := x_stored [x_row 1 ActivitySftpWrite "fe80::1%eth0" "a" 0; x_row 2 ActivitySftpRename "203.0.113.9" "b" 0] in
  let w1 := snd (exec (sftp_Run 1) w0) in
  outcome_of w1 = ([2], [])
  ∧ outcome_of (snd (exec (sftp_Run 1) w1)) = ([], [("server:sftp.rename", ["b"])]%string).
Proof. vm_compute. done. Qed.

(** Events are merged by the minute of the clock and not by the minute after the first. *)
Lemma minutes_not_merged :
  let w0 := x_stored [x_row 1 ActivitySftpWrite "203.0.113.9" "a" 59; x_row 2 ActivitySftpWrite "203.0.113.9" "b" 61] in
  length (accepted (log_of (snd (exec (sftp_Run 100) w0)))) = 2%nat.
Proof. vm_compute. reflexivity. Qed.
