(* ===== verification/Sinks.v ===== *)
(** * Sinks and events (system/sink_pool.go, events/events.go)

    A pool is a list of channels; a push sends one message to every channel of the pool, each
    in a goroutine of its own, which drops the oldest message of a channel that stays full.
    The state is the heap of channels, the pool and the senders in flight; a step relation
    interleaves registrations, pushes, senders and readers.  The pool's lock is held for
    reading while a push is in flight, so that the list only changes between pushes.  A
    channel also records what was pushed to it, what its reader got, what was dropped and
    how many senders timed out on it. *)

From stdpp Require Import base gmap list strings relations.
From Stdlib Require Import Ascii.
From S2P Require Import Prelude GoStrings.

Abbreviation msg := string.

Record chan := mkChan {
  ch_cap : nat;
  ch_buf : list msg;
  ch_closed : bool;
  ch_got : list msg;                    (* received by its reader *)
  ch_lost : list msg;                   (* dropped *)
  ch_pushed : list msg;                 (* of the pushes while it was in the pool *)
  ch_timeouts : nat;                    (* senders that waited in vain for room *)
}.
Definition new_chan (cap : nat) : chan := mkChan cap [] false [] [] [] 0.
Definition set_buf (l : list msg) (c : chan) : chan := mkChan (ch_cap c) l (ch_closed c) (ch_got c) (ch_lost c) (ch_pushed c) (ch_timeouts c).
Definition set_closed (c : chan) : chan := mkChan (ch_cap c) (ch_buf c) true (ch_got c) (ch_lost c) (ch_pushed c) (ch_timeouts c).
Definition add_got (m : msg) (c : chan) : chan := mkChan (ch_cap c) (ch_buf c) (ch_closed c) (ch_got c ++ [m]) (ch_lost c) (ch_pushed c) (ch_timeouts c).
Definition add_lost (m : msg) (c : chan) : chan := mkChan (ch_cap c) (ch_buf c) (ch_closed c) (ch_got c) (ch_lost c ++ [m]) (ch_pushed c) (ch_timeouts c).
Definition add_pushed (m : msg) (c : chan) : chan := mkChan (ch_cap c) (ch_buf c) (ch_closed c) (ch_got c) (ch_lost c) (ch_pushed c ++ [m]) (ch_timeouts c).
Definition add_timeout (c : chan) : chan := mkChan (ch_cap c) (ch_buf c) (ch_closed c) (ch_got c) (ch_lost c) (ch_pushed c) (S (ch_timeouts c)).

(** The goroutine of a push: in its first select, after its timeout, after it made room. *)
Inductive stage := Sending | Dropping | Resending.
Record sender := mkSender { sd_chan : option nat; sd_msg : msg; sd_stage : stage }.

(** A channel of the pool may be nil. *)
Record state := mkState {
  s_chans : gmap nat chan;
  s_sinks : list (option nat);
  s_flying : list sender;
  s_panicked : bool;
}.
Definition NewSinkPool : state := mkState ∅ [] [] false.

Definition set_chans (m : gmap nat chan) (s : state) : state := mkState m (s_sinks s) (s_flying s) (s_panicked s).
Definition set_flying (l : list sender) (s : state) : state := mkState (s_chans s) (s_sinks s) l (s_panicked s).
Definition panic (s : state) : state := mkState (s_chans s) (s_sinks s) (s_flying s) true.
Definition on_chan (c : nat) (f : chan → chan) (s : state) : state := set_chans (alter f c (s_chans s)) s.
Definition at_chan (s : state) (c : nat) : option chan := s_chans s !! c.

(** ** The pool *)

Definition On (c : option nat) (s : state) : state :=
  mkState (s_chans s) (s_sinks s ++ [c]) (s_flying s) (s_panicked s).

(** Closing a closed channel is a panic. *)
Definition close (c : nat) (s : state) : state :=
  match at_chan s c with
  | Some ch => if ch_closed ch then panic s else on_chan c set_closed s
  | None => s
  end.
(** The list without the first occurrence, if there is one. *)
Fixpoint remove_first (c : option nat) (l : list (option nat)) : option (list (option nat)) :=
  match l with
  | [] => None
  | sink :: l' => if decide (c = sink) then Some l' else cons sink <$> remove_first c l'
  end.
Definition Off (c : option nat) (s : state) : state :=
  match remove_first c (s_sinks s) with
  | None => s
  | Some sinks =>
      let s := mkState (s_chans s) sinks (s_flying s) (s_panicked s) in
      match c with Some c => close c s | None => s end
  end.
Definition Destroy (s : state) : state :=
  let s' := foldl (λ s c, match c with Some c => close c s | None => s end) s (s_sinks s) in
  mkState (s_chans s') [] (s_flying s') (s_panicked s').

(** The start of a push: one sender for each channel. *)
Definition Push (m : msg) (s : state) : state :=
  mkState (foldl (λ cs c, match c with Some c => alter (add_pushed m) c cs | None => cs end) (s_chans s) (s_sinks s))
          (s_sinks s) (s_flying s ++ map (λ c, mkSender c m Sending) (s_sinks s)) (s_panicked s).

(** What a sender does next: put its message into the buffer, hand it to a reader that waits,
    time out, take the oldest message of the buffer or, of a channel without one, that of
    another sender, or give up because nothing else is ready. *)
Inductive choice := Enqueue | Rendezvous | Timeout | Drop | Steal (j : nat) | GiveUp.

(** Whether a send is ready: there is room. *)
Definition room (ch : chan) : bool := bool_decide (length (ch_buf ch) < ch_cap ch)%nat.
Definition stage_sends (st : stage) : bool := match st with Dropping => false | _ => true end.

(** The sender is done, or at its next stage. *)
Definition finish (i : nat) (s : state) : state := set_flying (delete i (s_flying s)) s.
Definition advance (i : nat) (x : sender) (st : stage) (s : state) : state :=
  set_flying (<[i := mkSender (sd_chan x) (sd_msg x) st]> (s_flying s)) s.

(** A sender of a nil channel is never ready: it times out and finds nothing to drop. *)
Definition move_nil (a : choice) (i : nat) (x : sender) (s : state) : option state :=
  match a, sd_stage x with
  | Timeout, Sending => Some (advance i x Dropping s)
  | GiveUp, Dropping | GiveUp, Resending => Some (finish i s)
  | _, _ => None
  end.
Definition move_chan (a : choice) (i : nat) (x : sender) (c : nat) (ch : chan) (s : state) : option state :=
  match a with
  | Enqueue =>
      if negb (stage_sends (sd_stage x)) then None
      else if ch_closed ch then Some (panic s)
      else if room ch then Some (finish i (on_chan c (set_buf (ch_buf ch ++ [sd_msg x])) s)) else None
  | Rendezvous =>
      if negb (stage_sends (sd_stage x)) || ch_closed ch || negb (bool_decide (ch_buf ch = [])) then None
      else Some (finish i (on_chan c (add_got (sd_msg x)) s))
  | Timeout => match sd_stage x with Sending => Some (advance i x Dropping (on_chan c add_timeout s)) | _ => None end
  | Drop =>
      match sd_stage x, ch_buf ch with
      | Dropping, m :: rest => Some (advance i x Resending (on_chan c (λ ch, add_lost m (set_buf rest ch)) s))
      | Dropping, [] => if ch_closed ch then Some (advance i x Resending s) else None
      | _, _ => None
      end
  | Steal j =>
      match sd_stage x, s_flying s !! j with
      | Dropping, Some y =>
          if bool_decide (i ≠ j) && bool_decide (sd_chan y = Some c) && bool_decide (ch_cap ch = 0%nat)
             && negb (ch_closed ch) && bool_decide (ch_buf ch = []) && match sd_stage y with Sending => true | _ => false end
          then Some (finish j (advance i x Resending (on_chan c (add_lost (sd_msg y)) s)))
          else None
      | _, _ => None
      end
  | GiveUp =>
      match sd_stage x with
      | Sending => None
      | Dropping => if bool_decide (ch_buf ch = []) && negb (ch_closed ch)
                    then Some (finish i (on_chan c (add_lost (sd_msg x)) s)) else None
      | Resending => if ch_closed ch || room ch then None else Some (finish i (on_chan c (add_lost (sd_msg x)) s))
      end
  end.
Definition move (a : choice) (i : nat) (s : state) : option state :=
  match s_flying s !! i with
  | None => None
  | Some x =>
      match sd_chan x with
      | None => move_nil a i x s
      | Some c => match at_chan s c with Some ch => move_chan a i x c ch s | None => None end
      end
  end.

(** A reader takes the oldest message. *)
Definition receive (c : nat) (s : state) : option state :=
  match at_chan s c with
  | Some ch => match ch_buf ch with
               | m :: rest => Some (on_chan c (λ ch, add_got m (set_buf rest ch)) s)
               | [] => None
               end
  | None => None
  end.

(** ** Interleavings *)

(** A listener makes a channel and registers it once, and takes it off at any time, also when
    the pool was destroyed meanwhile.  The list changes while no push is in flight. *)
Inductive step : state → state → Prop :=
| step_register cap c s :
    s_flying s = [] → at_chan s c = None → step s (On (Some c) (set_chans (<[c := new_chan cap]> (s_chans s)) s))
| step_register_nil s : s_flying s = [] → step s (On None s)
| step_off c s : s_flying s = [] → step s (Off c s)
| step_destroy s : s_flying s = [] → step s (Destroy s)
| step_push m s : step s (Push m s)
| step_move a i s s' : move a i s = Some s' → step s s'
| step_receive c s s' : receive c s = Some s' → step s s'.

(** ** The bus *)

(** JSON of an event. *)
Class EventCodec (D : Type) := {
  ev_encode : string → D → msg;
  ev_decode : msg → option (string * D);
}.
(** The topic up to its first colon. *)
Fixpoint before_colon (s : string) : string :=
  match s with
  | EmptyString => EmptyString
  | String c s' => if Ascii.eqb c ":"%char then EmptyString else String c (before_colon s')
  end.
Definition publish_topic (topic : string) : string :=
  if Contains topic ":" then before_colon topic else topic.
Definition Publish {D} `{EventCodec D} (topic : string) (data : D) (s : state) : state :=
  Push (ev_encode (publish_topic topic) data) s.
(** [MustDecode] panics on [None]. *)
Definition DecodeTo {D} `{EventCodec D} (data : msg) : option (string * D) := ev_decode data.
