(* ===== verification/SinksFacts.v ===== *)
(** * What the sinks guarantee

    No sender ever meets a closed channel, buffers keep their bound, and every message that
    was pushed to a channel is accounted for; a push ends; and a full channel keeps the
    newest messages. *)

From stdpp Require Import base gmap list strings relations.
From S2P Require Import Prelude GoStrings Sinks.

Implicit Types (s : state) (c : nat) (ch : chan) (m : msg) (x y : sender).

(** ** The invariant *)

(** The messages of the senders in flight to a channel. *)
Definition pending c (l : list sender) : list msg := sd_msg <$> filter (λ x, sd_chan x = Some c) l.

Record chan_ok s c ch : Prop := mkChanOk {
  co_bound : (length (ch_buf ch) ≤ ch_cap ch)%nat;
  co_all : ch_got ch ++ ch_lost ch ++ ch_buf ch ++ pending c (s_flying s) ≡ₚ ch_pushed ch;
}.
Record pool_ok s : Prop := mkPoolOk {
  po_panic : s_panicked s = false;
  po_sinks : NoDup (filter (λ o, is_Some o) (s_sinks s));
  po_open : ∀ c, Some c ∈ s_sinks s → ∃ ch, at_chan s c = Some ch ∧ ch_closed ch = false;
  po_flying : ∀ x, x ∈ s_flying s → sd_chan x ∈ s_sinks s;
  po_chans : ∀ c ch, at_chan s c = Some ch → chan_ok s c ch;
}.

Lemma chan_ok_frame s s' c ch : s_flying s' = s_flying s → chan_ok s c ch → chan_ok s' c ch.
Proof. intros Hf [Hb Ha]. split; [done|]. by rewrite Hf. Qed.

Lemma pool_ok_new : pool_ok NewSinkPool.
Proof. split; simpl; [done|constructor|by intros c ?%not_elem_of_nil|by intros x ?%not_elem_of_nil|]. intros c ch Hc. unfold at_chan in Hc. simpl in Hc. by apply lookup_empty_Some in Hc. Qed.

(** ** Registration *)

Lemma at_on_chan s c c' f : at_chan (on_chan c f s) c' = if decide (c = c') then f <$> at_chan s c else at_chan s c'.
Proof. unfold at_chan, on_chan, set_chans. simpl. destruct (decide (c = c')) as [->|]; [by rewrite lookup_alter_eq|by rewrite lookup_alter_ne]. Qed.

Lemma register_ok s cap c : pool_ok s → s_flying s = [] → at_chan s c = None →
  pool_ok (On (Some c) (set_chans (<[c := new_chan cap]> (s_chans s)) s)).
Proof.
  intros [Hp Hn Ho Hf Hc] Hfl Hnew.
  assert (Some c ∉ s_sinks s) as Hnot by (intros Hin; destruct (Ho c Hin) as (ch & Hch & _); congruence).
  split; simpl; [done| | | |].
  - rewrite filter_app. apply NoDup_app. split; [done|]. split; [|rewrite filter_cons_True by done; apply NoDup_singleton].
    intros o [_ Ho']%list_elem_of_filter. rewrite filter_cons_True by done. intros ->%list_elem_of_singleton. done.
  - intros c' [Hin|[= ->]%list_elem_of_singleton]%elem_of_app; unfold at_chan; simpl.
    + rewrite lookup_insert_ne by (intros ->; done). by apply Ho.
    + exists (new_chan cap). by rewrite lookup_insert_eq.
  - rewrite Hfl. by intros x ?%not_elem_of_nil.
  - intros c' ch. unfold at_chan. simpl. intros [[<- <-]|[_ Hch]]%lookup_insert_Some.
    + split; [simpl; lia|]. unfold pending. simpl. by rewrite Hfl.
    + destruct (Hc c' ch Hch) as [Hb Ha]. by split.
Qed.

(** Closing a channel that is no longer in the pool. *)
Lemma close_ok s c : s_flying s = [] → pool_ok s → Some c ∉ s_sinks s →
  (∀ ch, at_chan s c = Some ch → ch_closed ch = false) → pool_ok (close c s).
Proof.
  intros Hfl [Hp Hn Ho Hf Hc] Hnot Hopen. unfold close. destruct (at_chan s c) as [ch|] eqn:Hch; [|by split].
  rewrite (Hopen ch eq_refl). split; simpl; [done|done| |done|].
  - intros c' Hin. rewrite at_on_chan. rewrite decide_False by (intros ->; done). by apply Ho.
  - intros c' ch'. rewrite at_on_chan. case_decide as Hd; [|intros Hch'; by destruct (Hc c' ch' Hch')].
    rewrite Hch. intros [= <-]. subst. destruct (Hc c' ch Hch) as [Hb Ha]. by split.
Qed.
Lemma remove_first_some o l l' : remove_first o l = Some l' → l ≡ₚ o :: l'.
Proof.
  revert l'. induction l as [|x l IH]; intros l'; simpl; [done|]. case_decide as Hd; [by intros [= <-]; subst|].
  destruct (remove_first o l) as [r|] eqn:E; [|done]. intros [= <-]. rewrite (IH r) by done. by rewrite Permutation_swap.
Qed.
(** A pool from which a channel was taken, still open. *)
Lemma taken_ok s o l' : pool_ok s → s_flying s = [] → s_sinks s ≡ₚ o :: l' →
  pool_ok (mkState (s_chans s) l' (s_flying s) (s_panicked s))
  ∧ ∀ c, o = Some c → Some c ∉ l' ∧ ∃ ch, at_chan s c = Some ch ∧ ch_closed ch = false.
Proof.
  intros [Hp Hn Ho Hf Hc] Hfl Hperm. rewrite Hperm in Hn. split.
  - split; simpl; [done| | | |by intros c ch Hch; apply (chan_ok_frame s), Hc].
    + destruct o; [|done]. rewrite filter_cons_True in Hn by done. by apply NoDup_cons in Hn as [_ ?].
    + intros c Hin. apply Ho. rewrite Hperm. by right.
    + rewrite Hfl. by intros x ?%not_elem_of_nil.
  - intros c ->. rewrite filter_cons_True in Hn by done. apply NoDup_cons in Hn as [Hn _]. split.
    + intros Hin. apply Hn, list_elem_of_filter. by split.
    + apply Ho. rewrite Hperm. by left.
Qed.
Lemma Off_ok s o : pool_ok s → s_flying s = [] → pool_ok (Off o s).
Proof.
  intros HI Hfl. unfold Off. destruct (remove_first o (s_sinks s)) as [l'|] eqn:E; [|done].
  destruct (taken_ok s o l' HI Hfl (remove_first_some _ _ _ E)) as [HI' Hc]. destruct o as [c|]; [|done].
  destruct (Hc c eq_refl) as (Hnot & ch & Hch & Hop). apply close_ok; [done|done|done|].
  intros ch' Hch'. unfold at_chan in *. simpl in Hch'. congruence.
Qed.

Lemma close_frame c s : s_sinks (close c s) = s_sinks s ∧ s_flying (close c s) = s_flying s.
Proof. unfold close. destruct (at_chan s c) as [ch|]; [|done]. by destruct (ch_closed ch). Qed.

(** Destroying closes the channels one by one; seen from outside, each is taken first. *)
Lemma Destroy_aux l s : pool_ok s → s_flying s = [] → s_sinks s ≡ₚ l →
  let s' := foldl (λ s o, match o with Some c => close c s | None => s end) s l in
  pool_ok (mkState (s_chans s') [] (s_flying s') (s_panicked s')).
Proof.
  intros HI Hfl Hl.
  assert (∀ l s, pool_ok (mkState (s_chans s) l (s_flying s) (s_panicked s)) → s_flying s = [] →
    let s' := foldl (λ s o, match o with Some c => close c s | None => s end) s l in
    pool_ok (mkState (s_chans s') [] (s_flying s') (s_panicked s'))) as Haux.
  { clear. intros l. induction l as [|o l IH]; intros s HI Hfl; [done|]. simpl.
    destruct (taken_ok _ o l HI Hfl ltac:(done)) as [HI' Hc]. simpl in HI'. destruct o as [c|]; [|by apply IH].
    destruct (Hc c eq_refl) as (Hnot & ch & Hch & Hop). apply IH; [|by rewrite (proj2 (close_frame c s))].
    pose proof (close_ok (mkState (s_chans s) l (s_flying s) (s_panicked s)) c Hfl HI' Hnot) as Hcl.
    unfold close, at_chan in *. simpl in *. rewrite Hch in *. rewrite Hop in *. apply Hcl. by intros ch' [= <-]. }
  apply Haux; [|done]. destruct HI as [Hp Hn Ho Hf Hc]. split; simpl; [done| | | |by intros c ch Hch; apply (chan_ok_frame s), Hc].
  - by rewrite <-Hl.
  - intros c Hin. apply Ho. by rewrite Hl.
  - rewrite Hfl. by intros x ?%not_elem_of_nil.
Qed.
Lemma Destroy_ok s : pool_ok s → s_flying s = [] → pool_ok (Destroy s).
Proof. intros HI Hfl. by apply Destroy_aux. Qed.

(** ** Pushing *)

Definition append_pushed (l : list msg) (ch : chan) : chan :=
  mkChan (ch_cap ch) (ch_buf ch) (ch_closed ch) (ch_got ch) (ch_lost ch) (ch_pushed ch ++ l) (ch_timeouts ch).
Lemma pending_app c l1 l2 : pending c (l1 ++ l2) = pending c l1 ++ pending c l2.
Proof. unfold pending. by rewrite filter_app, fmap_app. Qed.
Lemma pending_cons c x l : pending c (x :: l) = (if decide (sd_chan x = Some c) then [sd_msg x] else []) ++ pending c l.
Proof. unfold pending. rewrite filter_cons. by destruct (decide _). Qed.
Lemma push_lookup m l (cs : gmap nat chan) c :
  foldl (λ cs o, match o with Some c => alter (add_pushed m) c cs | None => cs end) cs l !! c
  = append_pushed (pending c (map (λ o, mkSender o m Sending) l)) <$> cs !! c.
Proof.
  revert cs. induction l as [|o l IH]; intros cs; simpl.
  { unfold pending, append_pushed. simpl. destruct (cs !! c) as [[]|]; simpl; [by rewrite app_nil_r|done]. }
  rewrite IH, pending_cons. simpl. destruct o as [c'|]; [|by rewrite decide_False by done].
  destruct (decide (c' = c)) as [->|Hne].
  - rewrite decide_True by done. rewrite lookup_alter_eq. destruct (cs !! c) as [[]|]; [|done]. simpl.
    unfold append_pushed, add_pushed. simpl. by rewrite <-app_assoc.
  - rewrite decide_False by congruence. by rewrite lookup_alter_ne.
Qed.
Lemma pool_Push_ok s m : pool_ok s → pool_ok (Push m s).
Proof.
  intros [Hp Hn Ho Hf Hc]. split; simpl; [done|done| | |].
  - intros c Hin. destruct (Ho c Hin) as (ch & Hch & Hop). unfold at_chan in *. simpl. rewrite push_lookup, Hch. by eexists.
  - intros x [Hx|Hx]%elem_of_app; [by apply Hf|]. apply list_elem_of_fmap in Hx as (o & -> & Hin). done.
  - intros c ch. unfold at_chan. simpl. rewrite push_lookup. intros (ch0 & Hch0 & ->)%fmap_Some.
    destruct (Hc c ch0 Hch0) as [Hb Ha]. split; [done|]. simpl. rewrite pending_app, <-Ha. solve_Permutation.
Qed.

(** ** Senders *)

Definition held (ch : chan) : list msg := ch_got ch ++ ch_lost ch ++ ch_buf ch.
Lemma held_all s c ch : chan_ok s c ch → held ch ++ pending c (s_flying s) ≡ₚ ch_pushed ch.
Proof. intros [_ Ha]. rewrite <-Ha. unfold held. by rewrite <-!app_assoc. Qed.

(** A change of one channel and of the senders that moves messages only. *)
Lemma moved_ok s c ch f fl :
  pool_ok s → at_chan s c = Some ch →
  ch_cap (f ch) = ch_cap ch → ch_closed (f ch) = ch_closed ch → ch_pushed (f ch) = ch_pushed ch →
  (length (ch_buf (f ch)) ≤ ch_cap ch)%nat →
  (∀ x, x ∈ fl → sd_chan x ∈ s_sinks s) →
  held (f ch) ++ pending c fl ≡ₚ held ch ++ pending c (s_flying s) →
  (∀ c', c' ≠ c → pending c' fl ≡ₚ pending c' (s_flying s)) →
  pool_ok (set_flying fl (on_chan c f s)).
Proof.
  intros [Hp Hn Ho Hf Hc] Hch Hcap Hcl Hpu Hb Hfl Hheld Hother. split; simpl; [done|done| |done|].
  - intros c' Hin. destruct (Ho c' Hin) as (ch' & Hch' & Hop). unfold set_flying, at_chan. simpl.
    change (∃ ch, at_chan (on_chan c f s) c' = Some ch ∧ ch_closed ch = false). rewrite at_on_chan.
    case_decide as Hd; [|by exists ch']. subst c'. rewrite Hch. exists (f ch). split; [done|]. congruence.
  - intros c' ch'. change (at_chan (set_flying fl (on_chan c f s)) c') with (at_chan (on_chan c f s) c'). rewrite at_on_chan.
    case_decide as Hd.
    + subst c'. rewrite Hch. intros [= <-]. split; [by rewrite Hcap|]. simpl.
      rewrite Hpu, <-(held_all s c ch) by by apply Hc. rewrite <-Hheld. unfold held. by rewrite <-!app_assoc.
    + intros Hch'. destruct (Hc c' ch' Hch') as [Hb' Ha']. split; [done|]. simpl. rewrite <-Ha'. by rewrite Hother.
Qed.

Lemma pending_delete c l i x : l !! i = Some x →
  pending c l ≡ₚ (if decide (sd_chan x = Some c) then [sd_msg x] else []) ++ pending c (delete i l).
Proof. intros Hx. rewrite <-pending_cons. unfold pending. by rewrite <-(delete_Permutation l i x Hx). Qed.
Lemma pending_same c l i x st : l !! i = Some x → pending c (<[i := mkSender (sd_chan x) (sd_msg x) st]> l) = pending c l.
Proof.
  revert i. induction l as [|y l IH]; intros [|i] Hx; simpl in *; [done|done| |].
  - injection Hx as ->. by rewrite !pending_cons.
  - rewrite !pending_cons. by rewrite IH.
Qed.
Lemma flying_delete s i x : pool_ok s → x ∈ delete i (s_flying s) → sd_chan x ∈ s_sinks s.
Proof. intros HI Hx. apply (po_flying _ HI). by apply (sublist_subseteq _ _ (sublist_delete (s_flying s) i)). Qed.
Lemma plain_ok s fl : pool_ok s → (∀ x, x ∈ fl → sd_chan x ∈ s_sinks s) →
  (∀ c, is_Some (at_chan s c) → pending c fl ≡ₚ pending c (s_flying s)) → pool_ok (set_flying fl s).
Proof.
  intros [Hp Hn Ho Hf Hc] Hfl Hpend. split; simpl; [done..|].
  intros c ch Hch. destruct (Hc c ch Hch) as [Hb Ha]. split; [done|]. simpl. rewrite <-Ha. rewrite Hpend; [done|by exists ch].
Qed.
Lemma flying_insert s i x st : pool_ok s → s_flying s !! i = Some x →
  ∀ y, y ∈ <[i := mkSender (sd_chan x) (sd_msg x) st]> (s_flying s) → sd_chan y ∈ s_sinks s.
Proof.
  intros HI Hx y Hy. apply list_elem_of_lookup_1 in Hy as [j Hj]. apply list_lookup_insert_Some in Hj as [(_ & <- & _)|[_ Hj]]; simpl.
  - apply (po_flying _ HI). by eapply list_elem_of_lookup_2.
  - apply (po_flying _ HI). by eapply list_elem_of_lookup_2.
Qed.
Lemma advance_ok s i x st : pool_ok s → s_flying s !! i = Some x → pool_ok (advance i x st s).
Proof. intros HI Hx. apply plain_ok; [done|by apply flying_insert|]. intros c _. by rewrite pending_same. Qed.

(** The sender's own message goes somewhere: it is done. *)
Lemma finished_ok s i x c ch f : pool_ok s → s_flying s !! i = Some x → sd_chan x = Some c → at_chan s c = Some ch →
  ch_cap (f ch) = ch_cap ch → ch_closed (f ch) = ch_closed ch → ch_pushed (f ch) = ch_pushed ch →
  (length (ch_buf (f ch)) ≤ ch_cap ch)%nat → held (f ch) ≡ₚ held ch ++ [sd_msg x] →
  pool_ok (finish i (on_chan c f s)).
Proof.
  intros HI Hx Hc Hch Hcap Hcl Hpu Hb Hh. apply (moved_ok s c ch f (delete i (s_flying s))); try done.
  - intros y. by apply flying_delete.
  - rewrite Hh, (pending_delete c (s_flying s) i x) by done. rewrite decide_True by done. solve_Permutation.
  - intros c' Hne. rewrite (pending_delete c' (s_flying s) i x) by done. rewrite decide_False by congruence. done.
Qed.
(** The sender goes on, and the channel changed. *)
Lemma advanced_ok s i x st c ch f : pool_ok s → s_flying s !! i = Some x → at_chan s c = Some ch →
  ch_cap (f ch) = ch_cap ch → ch_closed (f ch) = ch_closed ch → ch_pushed (f ch) = ch_pushed ch →
  (length (ch_buf (f ch)) ≤ ch_cap ch)%nat → held (f ch) ≡ₚ held ch →
  pool_ok (advance i x st (on_chan c f s)).
Proof.
  intros HI Hx Hch Hcap Hcl Hpu Hb Hh.
  apply (moved_ok s c ch f (<[i := mkSender (sd_chan x) (sd_msg x) st]> (s_flying s))); try done.
  - by apply flying_insert.
  - by rewrite Hh, pending_same.
  - intros c' _. by rewrite pending_same.
Qed.

Lemma move_ok a i s s' : pool_ok s → move a i s = Some s' → pool_ok s'.
Proof.
  intros HI. unfold move. destruct (s_flying s !! i) as [x|] eqn:Hx; [|done].
  assert (sd_chan x ∈ s_sinks s) as Hin by (apply (po_flying _ HI); by eapply list_elem_of_lookup_2).
  destruct (sd_chan x) as [c|] eqn:Hc.
  2:{ unfold move_nil. destruct a, (sd_stage x); try done; intros [= <-]; [by apply advance_ok|..];
      (apply plain_ok; [done|intros y; by apply flying_delete|]; intros c _;
       rewrite (pending_delete c (s_flying s) i x), decide_False by (done || congruence); done). }
  destruct (po_open _ HI c Hin) as (ch & Hch & Hop). rewrite Hch. pose proof (co_bound _ _ _ (po_chans _ HI c ch Hch)) as Hb.
  unfold move_chan. rewrite Hop. destruct a as [| | | |j|]; simpl.
  - destruct (stage_sends _); [|done]. simpl. destruct (room ch) eqn:Hroom; [|done]. intros [= <-]. apply bool_decide_eq_true in Hroom.
    eapply finished_ok; try done; simpl; [rewrite length_app; simpl; lia|]. unfold held. simpl. solve_Permutation.
  - destruct (stage_sends _); [|done]. simpl. destruct (bool_decide _) eqn:Hbuf; [|done]. intros [= <-].
    eapply finished_ok; try done. unfold held. simpl. solve_Permutation.
  - destruct (sd_stage x); try done. intros [= <-]. by eapply advanced_ok.
  - destruct (sd_stage x), (ch_buf ch) as [|m rest] eqn:Hbuf; try done. intros [= <-].
    eapply advanced_ok; try done; simpl; [simpl in Hb; rewrite ?Hbuf in Hb; simpl in Hb; lia|]. unfold held. simpl. rewrite Hbuf. solve_Permutation.
  - destruct (sd_stage x); try done. destruct (s_flying s !! j) as [y|] eqn:Hy; [|done].
    destruct (_ && _) eqn:Hg; [|done]. intros [= <-]. rewrite !andb_true_iff, !bool_decide_eq_true in Hg.
    destruct Hg as [[[[[Hne Hyc] Hcap] _] Hbuf] _].
    set (fl := <[i := mkSender (sd_chan x) (sd_msg x) Resending]> (s_flying s)).
    assert (fl !! j = Some y) as Hy' by (subst fl; by rewrite list_lookup_insert_ne).
    assert (∀ c', pending c' (s_flying s) ≡ₚ (if decide (sd_chan y = Some c') then [sd_msg y] else []) ++ pending c' (delete j fl)) as Hd.
    { intros c'. rewrite <-(pending_delete c' fl j y Hy'). subst fl. by rewrite pending_same. }
    apply (moved_ok s c ch (add_lost (sd_msg y)) (delete j fl)); try done.
    + intros z Hz. eapply flying_insert; [done|exact Hx|]. by apply (sublist_subseteq _ _ (sublist_delete _ j)).
    + rewrite Hd, decide_True by done. unfold held. simpl. solve_Permutation.
    + intros c' Hne'. rewrite Hd, decide_False by congruence. done.
  - destruct (sd_stage x); try done.
    + destruct (bool_decide _) eqn:Hbuf; [|done]. intros [= <-]. eapply finished_ok; try done. unfold held. simpl. solve_Permutation.
    + simpl. destruct (room ch); [done|]. intros [= <-]. eapply finished_ok; try done. unfold held. simpl. solve_Permutation.
Qed.
Lemma receive_ok c s s' : pool_ok s → receive c s = Some s' → pool_ok s'.
Proof.
  intros HI. unfold receive. destruct (at_chan s c) as [ch|] eqn:Hch; [|done]. destruct (ch_buf ch) as [|m rest] eqn:Hbuf; [done|].
  intros [= <-]. pose proof (co_bound _ _ _ (po_chans _ HI c ch Hch)) as Hb. rewrite Hbuf in Hb. simpl in Hb.
  apply (moved_ok s c ch (λ ch, add_got m (set_buf rest ch)) (s_flying s)); try done.
  - simpl. lia.
  - apply (po_flying _ HI).
  - unfold held. simpl. rewrite Hbuf. solve_Permutation.
Qed.

(** ** Every interleaving *)

Lemma pool_ok_step s s' : step s s' → pool_ok s → pool_ok s'.
Proof.
  intros Hs HI. destruct Hs as [cap c s Hf Hn|s Hf|o s Hf|s Hf|m s|a i s s' Hm|c s s' Hr].
  - by apply register_ok.
  - destruct HI as [Hp Hn Ho Hfl Hc]. split; simpl; [done| | | |by intros c ch Hch; apply (chan_ok_frame s), Hc].
    + rewrite filter_app, filter_cons_False by (by intros [? ?]). by rewrite app_nil_r.
    + intros c [Hin|?%list_elem_of_singleton]%elem_of_app; [by apply Ho|done].
    + rewrite Hf. by intros x ?%not_elem_of_nil.
  - by apply Off_ok.
  - by apply Destroy_ok.
  - by apply pool_Push_ok.
  - by eapply move_ok.
  - by eapply receive_ok.
Qed.

Lemma pool_ok_reached s : rtc step NewSinkPool s → pool_ok s.
Proof.
  generalize pool_ok_new. generalize NewSinkPool. intros s0 H0 Hr.
  induction Hr as [|s1 s2 s3 Hs Hr IH]; [done|]. by apply IH, (pool_ok_step s1).
Qed.

(** ** What is lost *)

(** The messages a sender may still drop: after its timeout the one it takes out to make
    room and, if there is none then, its own. *)
Definition stage_owes (st : stage) : nat := match st with Sending => 0 | Dropping => 2 | Resending => 1 end.
Definition sender_owes c x : nat := if decide (sd_chan x = Some c) then stage_owes (sd_stage x) else 0.
Definition owed c (l : list sender) : nat := sum_list_with (sender_owes c) l.
Definition lost_ok s : Prop :=
  ∀ c ch, at_chan s c = Some ch → (length (ch_lost ch) + owed c (s_flying s) ≤ 2 * ch_timeouts ch)%nat.

Lemma owed_delete c l i x : l !! i = Some x → owed c l = (sender_owes c x + owed c (delete i l))%nat.
Proof.
  unfold owed. revert i. induction l as [|y l IH]; intros [|i] Hx; simpl in *; [done|done|by injection Hx as ->|].
  rewrite (IH i) by done. lia.
Qed.
Lemma owed_insert c l i x y : l !! i = Some x →
  (owed c (<[i := y]> l) + sender_owes c x = owed c l + sender_owes c y)%nat.
Proof.
  unfold owed. revert i. induction l as [|z l IH]; intros [|i] Hx; simpl in *; [done|done|injection Hx as ->; lia|].
  specialize (IH i Hx). lia.
Qed.
Lemma owed_sending c m l : owed c (map (λ o, mkSender o m Sending) l) = 0%nat.
Proof. unfold owed, sender_owes. induction l as [|o l IH]; simpl; [done|]. rewrite IH. by case_decide. Qed.
Lemma owed_app c l1 l2 : owed c (l1 ++ l2) = (owed c l1 + owed c l2)%nat.
Proof. unfold owed. by rewrite sum_list_with_app. Qed.

Lemma lost_close c s : lost_ok s → lost_ok (close c s).
Proof.
  intros HI. unfold close. destruct (at_chan s c) as [ch|] eqn:Hch; [|done]. destruct (ch_closed ch); [done|].
  intros c' ch'. rewrite at_on_chan. case_decide as Hd; [|by apply HI].
  subst c'. rewrite Hch. intros [= <-]. simpl. by apply HI.
Qed.
Lemma lost_closes l s : lost_ok s →
  lost_ok (foldl (λ s o, match o with Some c => close c s | None => s end) s l).
Proof. revert s. induction l as [|[c|] l IH]; intros s HI; simpl; [done|by apply IH, lost_close|by apply IH]. Qed.

(** A change of one channel that drops as much as its senders owe less, or timed out on it. *)
Lemma lost_moved s c ch f fl : lost_ok s → at_chan s c = Some ch →
  (length (ch_lost (f ch)) + owed c fl + 2 * ch_timeouts ch
   ≤ length (ch_lost ch) + owed c (s_flying s) + 2 * ch_timeouts (f ch))%nat →
  (∀ c', c' ≠ c → (owed c' fl ≤ owed c' (s_flying s))%nat) → lost_ok (set_flying fl (on_chan c f s)).
Proof.
  intros HI Hch Hle Hother c' ch'.
  change (at_chan (set_flying fl (on_chan c f s)) c') with (at_chan (on_chan c f s) c').
  rewrite at_on_chan. simpl. case_decide as Hd.
  - subst c'. rewrite Hch. intros [= <-]. specialize (HI c ch Hch). lia.
  - intros Hch'. specialize (HI c' ch' Hch'). specialize (Hother c' ltac:(congruence)). lia.
Qed.
Lemma lost_finished s i x c ch f : lost_ok s → s_flying s !! i = Some x → at_chan s c = Some ch →
  (length (ch_lost (f ch)) + 2 * ch_timeouts ch ≤ length (ch_lost ch) + sender_owes c x + 2 * ch_timeouts (f ch))%nat →
  lost_ok (finish i (on_chan c f s)).
Proof.
  intros HI Hx Hch Hle. eapply (lost_moved s c ch f (delete i (s_flying s))); [done..| |].
  - rewrite (owed_delete c _ i x Hx). lia.
  - intros c' _. rewrite (owed_delete c' _ i x Hx). lia.
Qed.
Lemma lost_advanced s i x st c ch f : lost_ok s → s_flying s !! i = Some x → sd_chan x = Some c → at_chan s c = Some ch →
  (length (ch_lost (f ch)) + stage_owes st + 2 * ch_timeouts ch
   ≤ length (ch_lost ch) + stage_owes (sd_stage x) + 2 * ch_timeouts (f ch))%nat →
  lost_ok (advance i x st (on_chan c f s)).
Proof.
  intros HI Hx Hc Hch Hle.
  apply (lost_moved s c ch f (<[i := mkSender (sd_chan x) (sd_msg x) st]> (s_flying s))); [done..| |].
  - pose proof (owed_insert c _ i x (mkSender (sd_chan x) (sd_msg x) st) Hx) as Ho.
    unfold sender_owes in Ho. simpl in Ho. rewrite !decide_True in Ho by done. lia.
  - intros c' Hne. pose proof (owed_insert c' _ i x (mkSender (sd_chan x) (sd_msg x) st) Hx) as Ho.
    unfold sender_owes in Ho. simpl in Ho. rewrite !decide_False in Ho by congruence. lia.
Qed.
Lemma lost_plain s fl : lost_ok s → (∀ c, is_Some (at_chan s c) → (owed c fl ≤ owed c (s_flying s))%nat) → lost_ok (set_flying fl s).
Proof. intros HI Hle c ch Hch. specialize (HI c ch Hch). specialize (Hle c ltac:(by exists ch)). simpl. lia. Qed.

Lemma lost_move a i s s' : lost_ok s → move a i s = Some s' → lost_ok s'.
Proof.
  intros HI. unfold move. destruct (s_flying s !! i) as [x|] eqn:Hx; [|done].
  destruct (sd_chan x) as [c|] eqn:Hc.
  2:{ unfold move_nil. destruct a, (sd_stage x); try done; intros [= <-]; apply lost_plain; try done; intros c _.
      - pose proof (owed_insert c _ i x (mkSender (sd_chan x) (sd_msg x) Dropping) Hx) as Ho.
        unfold sender_owes in Ho. simpl in Ho. rewrite !decide_False in Ho by congruence. lia.
      - rewrite (owed_delete c _ i x Hx). lia.
      - rewrite (owed_delete c _ i x Hx). lia. }
  destruct (at_chan s c) as [ch|] eqn:Hch; [|done].
  assert (sender_owes c x = stage_owes (sd_stage x)) as Hx' by (unfold sender_owes; by rewrite decide_True).
  unfold move_chan. destruct a as [| | | |j|]; simpl.
  - destruct (negb _); [done|]. destruct (ch_closed ch); [intros [= <-]; done|].
    destruct (room ch); [|done]. intros [= <-]. eapply lost_finished; try done. simpl. lia.
  - destruct (_ || _); [done|]. intros [= <-]. eapply lost_finished; try done. simpl. lia.
  - destruct (sd_stage x) eqn:Hst; try done. intros [= <-]. eapply lost_advanced; try done. simpl. lia.
  - destruct (sd_stage x) eqn:Hst; try done. destruct (ch_buf ch) as [|m rest] eqn:Hbuf.
    + destruct (ch_closed ch); [|done]. intros [= <-].
      pose proof (lost_advanced s i x Resending c ch id HI Hx Hc Hch) as Hl. rewrite Hst in Hl. simpl in Hl.
      specialize (Hl ltac:(lia)). unfold on_chan in Hl.
      intros c' ch' Hch'. apply (Hl c' ch'). unfold at_chan in *. simpl in *.
      destruct (decide (c = c')) as [->|Hne]; [|by rewrite lookup_alter_ne]. rewrite lookup_alter_eq, Hch'. done.
    + intros [= <-]. eapply lost_advanced; try done. rewrite Hst. simpl. rewrite length_app. simpl. lia.
  - destruct (sd_stage x) eqn:Hst; try done. destruct (s_flying s !! j) as [y|] eqn:Hy; [|done].
    destruct (_ && _) eqn:Hg; [|done]. intros [= <-]. rewrite !andb_true_iff, !bool_decide_eq_true in Hg.
    destruct Hg as [[[[[Hne Hyc] Hcap] _] Hbuf] _].
    set (fl := <[i := mkSender (sd_chan x) (sd_msg x) Resending]> (s_flying s)).
    assert (fl !! j = Some y) as Hy' by (subst fl; by rewrite list_lookup_insert_ne).
    apply (lost_moved s c ch (add_lost (sd_msg y)) (delete j fl)); [done..| |].
    + pose proof (owed_insert c _ i x (mkSender (sd_chan x) (sd_msg x) Resending) Hx) as Ho.
      pose proof (owed_delete c fl j y Hy') as Hd. fold fl in Ho. unfold sender_owes in Ho. simpl in Ho.
      rewrite !decide_True in Ho by done. rewrite Hst in Ho. simpl in *. rewrite length_app. simpl. lia.
    + intros c' Hne'. pose proof (owed_insert c' _ i x (mkSender (sd_chan x) (sd_msg x) Resending) Hx) as Ho.
      pose proof (owed_delete c' fl j y Hy') as Hd. fold fl in Ho. unfold sender_owes in Ho. simpl in Ho.
      rewrite !decide_False in Ho by congruence. lia.
  - destruct (sd_stage x) eqn:Hst; [done| |].
    + destruct (_ && _); [|done]. intros [= <-]. eapply lost_finished; try done. simpl. rewrite Hx', length_app. simpl. lia.
    + destruct (_ || _); [done|]. intros [= <-]. eapply lost_finished; try done. simpl. rewrite Hx', length_app. simpl. lia.
Qed.
Lemma lost_step s s' : step s s' → lost_ok s → lost_ok s'.
Proof.
  intros Hs HI. destruct Hs as [cap c s Hf Hn|s Hf|o s Hf|s Hf|m s|a i s s' Hm|c s s' Hr].
  - intros c' ch. unfold at_chan. simpl. intros [[<- <-]|[_ Hch]]%lookup_insert_Some; [|by apply HI].
    rewrite Hf. simpl. lia.
  - exact HI.
  - unfold Off. destruct (remove_first o (s_sinks s)); [|done]. destruct o as [c|]; [|exact HI]. by apply lost_close.
  - unfold Destroy. intros c ch Hch. by apply (lost_closes (s_sinks s) s HI c ch).
  - intros c ch. unfold at_chan. simpl. rewrite push_lookup. intros (ch0 & Hch0 & ->)%fmap_Some.
    simpl. rewrite owed_app, owed_sending. specialize (HI c ch0 Hch0). lia.
  - by eapply lost_move.
  - unfold receive in Hr. destruct (at_chan s c) as [ch|] eqn:Hch; [|done]. destruct (ch_buf ch) as [|m rest]; [done|].
    injection Hr as <-. eapply (lost_moved s c ch _ (s_flying s)); [done..| |done]. simpl. lia.
Qed.
Lemma lost_reached s : rtc step NewSinkPool s → lost_ok s.
Proof.
  assert (lost_ok NewSinkPool) as H0 by (intros c ch Hch; unfold at_chan in Hch; simpl in Hch; by apply lookup_empty_Some in Hch).
  revert H0. generalize NewSinkPool. intros s0 H0 Hr.
  induction Hr as [|s1 s2 s3 Hs Hr IH]; [done|]. by apply IH, (lost_step s1).
Qed.

(** C14: sinks never fail and lose nothing silently.  Listeners register channels of their
    own, each once, or nil ones.  In every state that registrations, removals, pushes,
    senders, readers and the destruction of the pool reach, in any order: no send met a
    closed channel and none was closed twice; no channel holds more than its capacity; the
    messages that were pushed to a channel are exactly those its reader got, those that were
    dropped, those in its buffer and those still being sent to it; and messages are only
    dropped when a sender's wait of ten milliseconds ran out, at most two each time (one
    taken out to make room and, if it still finds none, its own), so that a channel on which
    no send timed out lost nothing. *)
Theorem sinks_accounted s :
  rtc step NewSinkPool s →
  s_panicked s = false
  ∧ ∀ c ch, at_chan s c = Some ch →
      (length (ch_buf ch) ≤ ch_cap ch)%nat
      ∧ ch_got ch ++ ch_lost ch ++ ch_buf ch ++ pending c (s_flying s) ≡ₚ ch_pushed ch
      ∧ (length (ch_lost ch) ≤ 2 * ch_timeouts ch)%nat.
Proof.
  intros Hr. pose proof (pool_ok_reached _ Hr) as HI. split; [apply HI|]. intros c ch Hch.
  destruct (po_chans _ HI c ch Hch). split_and!; [done..|]. pose proof (lost_reached _ Hr c ch Hch). lia.
Qed.

(** ** A push ends *)

Definition stage_effort (st : stage) : nat := match st with Sending => 3 | Dropping => 2 | Resending => 1 end.
Definition effort (l : list sender) : nat := sum_list_with (λ x, stage_effort (sd_stage x)) l.
Definition moves : relation state := λ s s', ∃ a i, move a i s = Some s'.

Lemma effort_delete l i x : l !! i = Some x → effort l = (stage_effort (sd_stage x) + effort (delete i l))%nat.
Proof.
  unfold effort. revert i. induction l as [|y l IH]; intros [|i] Hx; simpl in *; [done|done|by injection Hx as ->|]. rewrite (IH i) by done. lia.
Qed.
Lemma effort_insert l i x y : l !! i = Some x →
  (effort (<[i := y]> l) + stage_effort (sd_stage x) = effort l + stage_effort (sd_stage y))%nat.
Proof.
  unfold effort. revert i. induction l as [|z l IH]; intros [|i] Hx; simpl in *; [done|done|injection Hx as ->; lia|]. specialize (IH i Hx). lia.
Qed.
Lemma effort_finish l i x : l !! i = Some x → (effort (delete i l) < effort l)%nat.
Proof. intros Hx. rewrite (effort_delete l i x Hx). destruct (sd_stage x); simpl; lia. Qed.
Lemma effort_advance l i x o m st : l !! i = Some x → (stage_effort st < stage_effort (sd_stage x))%nat →
  (effort (<[i := mkSender o m st]> l) < effort l)%nat.
Proof. intros Hx Hst. pose proof (effort_insert l i x (mkSender o m st) Hx). simpl in *. lia. Qed.

(** Every move of a sender brings it nearer to its end. *)
Lemma move_effort a i s s' : pool_ok s → move a i s = Some s' → (effort (s_flying s') < effort (s_flying s))%nat.
Proof.
  intros HI Hm. pose proof (po_panic _ (move_ok _ _ _ _ HI Hm)) as Hnp. revert Hm.
  unfold move. destruct (s_flying s !! i) as [x|] eqn:Hx; [|done].
  pose proof (λ o m st, effort_advance _ _ _ o m st Hx) as Hadv. pose proof (effort_finish _ _ _ Hx) as Hfin.
  destruct (sd_chan x) as [c|] eqn:Hc.
  2:{ unfold move_nil. destruct a, (sd_stage x) eqn:Hst; try done; intros [= <-]; simpl; [|done..]. apply Hadv. simpl. lia. }
  destruct (at_chan s c) as [ch|] eqn:Hch; [|done]. unfold move_chan. destruct a as [| | | |j|]; simpl.
  - destruct (negb _); [done|]. destruct (ch_closed ch); [intros [= <-]; done|]. destruct (room ch); [|done]. by intros [= <-].
  - destruct (_ || _); [done|]. by intros [= <-].
  - destruct (sd_stage x) eqn:Hst; try done. intros [= <-]. simpl. apply Hadv. simpl. lia.
  - destruct (sd_stage x) eqn:Hst; try done. destruct (ch_buf ch); [destruct (ch_closed ch); [|done]|];
      intros [= <-]; simpl; apply Hadv; simpl; lia.
  - destruct (sd_stage x) eqn:Hst; try done. destruct (s_flying s !! j) as [y|] eqn:Hy; [|done]. destruct (_ && _) eqn:Hg; [|done].
    intros [= <-]. simpl. assert (i ≠ j) as Hne by (rewrite !andb_true_iff, bool_decide_eq_true in Hg; tauto).
    set (fl := <[i := _]> (s_flying s)). assert (fl !! j = Some y) as Hy' by (subst fl; by rewrite list_lookup_insert_ne).
    pose proof (effort_finish fl j y Hy'). pose proof (Hadv (Some c) (sd_msg x) Resending ltac:(simpl; lia)) as Ha.
    subst fl. rewrite Hc in *. lia.
  - destruct (sd_stage x) eqn:Hst; [done| |].
    + destruct (_ && _); [|done]. by intros [= <-].
    + destruct (_ || _); [done|]. by intros [= <-].
Qed.
(** A sender in flight is never stuck. *)
Lemma move_progress s x l : pool_ok s → s_flying s = x :: l → ∃ a s', move a 0 s = Some s'.
Proof.
  intros HI Hfl. unfold move. rewrite Hfl. simpl. destruct (sd_chan x) as [c|] eqn:Hc.
  2:{ unfold move_nil. destruct (sd_stage x); [exists Timeout|exists GiveUp|exists GiveUp]; by eexists. }
  destruct (po_open _ HI c) as (ch & Hch & Hop); [rewrite <-Hc; apply (po_flying _ HI); rewrite Hfl; by left|]. rewrite Hch.
  unfold move_chan. destruct (sd_stage x) eqn:Hst.
  - exists Timeout. by eexists.
  - destruct (ch_buf ch) as [|m rest] eqn:Hbuf; [exists GiveUp|exists Drop]; rewrite ?Hop; simpl; by eexists.
  - destruct (room ch) eqn:Hroom; [exists Enqueue|exists GiveUp]; rewrite Hop; simpl; by eexists.
Qed.

(** A push ends by itself, in at most three moves of each sender. *)
Lemma push_ends s : pool_ok s →
  (∀ n s', nsteps moves n s s' → (n ≤ 3 * length (s_flying s))%nat)
  ∧ ∃ s', rtc moves s s' ∧ s_flying s' = [].
Proof.
  intros HI. split.
  - assert (∀ n s s', pool_ok s → nsteps moves n s s' → (n ≤ effort (s_flying s))%nat) as Hn.
    { clear. intros n. induction n as [|n IH]; intros s s' HI Hr; [lia|]. inversion Hr as [|? ? s1 ? (a & i & Hm) Hr']; subst.
      pose proof (move_effort _ _ _ _ HI Hm). specialize (IH s1 s' (move_ok _ _ _ _ HI Hm) Hr'). lia. }
    intros n s' Hr. etransitivity; [by eapply Hn|]. clear. unfold effort. induction (s_flying s) as [|x l IH]; simpl; [lia|].
    destruct (sd_stage x); simpl; lia.
  - remember (effort (s_flying s)) as n eqn:Hn. revert s HI Hn. induction (lt_wf n) as [n _ IH]. intros s HI ->.
    destruct (s_flying s) as [|x l] eqn:Hfl; [by exists s|].
    destruct (move_progress s x l HI Hfl) as (a & s1 & Hm). pose proof (move_effort _ _ _ _ HI Hm) as He. rewrite Hfl in He.
    destruct (IH _ He s1 (move_ok _ _ _ _ HI Hm) eq_refl) as (s' & Hr & Hs'). exists s'. split; [|done].
    eapply rtc_l; [|exact Hr]. by exists a, 0%nat.
Qed.

(** ** A full channel keeps the newest messages *)

(** A push to one channel without a reader: the message goes in, or, after the timeout, the
    oldest goes out first. *)
Definition deposit (m : msg) (s : state) : state :=
  let s := Push m s in
  match move Enqueue 0 s with
  | Some s' => s'
  | None => default s (s1 ← move Timeout 0 s; s2 ← move Drop 0 s1; move Enqueue 0 s2)
  end.
Lemma deposit_newest m s c ch :
  s_sinks s = [Some c] → s_flying s = [] → at_chan s c = Some ch → ch_closed ch = false →
  (0 < ch_cap ch)%nat → (length (ch_buf ch) ≤ ch_cap ch)%nat →
  ∃ ch', at_chan (deposit m s) c = Some ch' ∧ s_flying (deposit m s) = [] ∧ s_sinks (deposit m s) = [Some c]
    ∧ ch_closed ch' = false ∧ ch_cap ch' = ch_cap ch
    ∧ ch_buf ch' = drop (S (length (ch_buf ch)) - ch_cap ch) (ch_buf ch ++ [m]).
Proof.
  intros Hs Hf Hch Hop Hcap Hb. unfold deposit, Push. rewrite Hs, Hf. simpl. unfold move. simpl. unfold at_chan in *. simpl.
  rewrite lookup_alter_eq, Hch. simpl. unfold room. simpl. rewrite Hop. simpl.
  case_bool_decide as Hroom.
  - simpl. rewrite !lookup_alter_eq, Hch. simpl. eexists. split_and!; [reflexivity|done..|]. simpl.
    by replace (S (length (ch_buf ch)) - ch_cap ch)%nat with 0%nat by lia.
  - simpl. rewrite !lookup_alter_eq, Hch. simpl. destruct (ch_buf ch) as [|m0 rest] eqn:Hbuf; [simpl in *; lia|]. simpl.
    rewrite !lookup_alter_eq, Hch. simpl. rewrite Hop. unfold room. simpl. rewrite bool_decide_true by (simpl in *; lia). simpl.
    rewrite !lookup_alter_eq, Hch. simpl. eexists. split_and!; [reflexivity|done..|]. simpl.
    replace (S (S (length rest)) - ch_cap ch)%nat with 1%nat by (simpl in *; lia). done.
Qed.
Lemma deposits_newest ms s c ch :
  s_sinks s = [Some c] → s_flying s = [] → at_chan s c = Some ch → ch_closed ch = false →
  (0 < ch_cap ch)%nat → (length (ch_buf ch) ≤ ch_cap ch)%nat →
  ∃ ch', at_chan (foldl (λ s m, deposit m s) s ms) c = Some ch'
    ∧ ch_buf ch' = drop (length (ch_buf ch ++ ms) - ch_cap ch) (ch_buf ch ++ ms).
Proof.
  revert s ch. induction ms as [|m ms IH]; intros s ch Hs Hf Hch Hop Hcap Hb; simpl.
  { exists ch. split; [done|]. rewrite app_nil_r. by replace (length (ch_buf ch) - ch_cap ch)%nat with 0%nat by lia. }
  destruct (deposit_newest m s c ch Hs Hf Hch Hop Hcap Hb) as (ch1 & H1 & H2 & H3 & H4 & H5 & H6).
  destruct (IH _ ch1 H3 H2 H1 H4) as (ch2 & Hch2 & Hbuf2); [lia|rewrite H6, H5, length_drop, length_app; simpl; lia|].
  exists ch2. split; [done|]. rewrite Hbuf2, H6, H5. set (k := (S (length (ch_buf ch)) - ch_cap ch)%nat).
  assert (k ≤ length (ch_buf ch ++ [m]))%nat as Hk by (rewrite length_app; simpl; lia).
  rewrite <-drop_app_le by done. rewrite drop_drop, <-app_assoc. simpl. f_equal.
  rewrite length_drop. rewrite !length_app in *. simpl in *. lia.
Qed.

(** ** Examples *)

(** Two listeners, three messages; the second channel is full after two. *)
Definition x_turns : list (state → option state) :=
  [λ s, Some (On (Some 1%nat) (set_chans (<[1%nat := new_chan 8]> (s_chans s)) s));
   λ s, Some (On (Some 2%nat) (set_chans (<[2%nat := new_chan 1]> (s_chans s)) s));
   λ s, Some (Push "a" s); move Enqueue 1; move Enqueue 0;
   λ s, Some (Push "b" s); move Enqueue 0; move Timeout 0; move Drop 0; receive 1; move Enqueue 0;
   λ s, Some (Off (Some 1%nat) s); λ s, Some (Push "c" s); move Timeout 0].
Definition x_state : state := default NewSinkPool (foldl (λ r f, r ≫= f) (Some NewSinkPool) x_turns).
Lemma x_reached : rtc step NewSinkPool x_state.
Proof.
  do 2 (eapply rtc_l; [(apply (step_register 8 1) + apply (step_register 1 2)); vm_compute; reflexivity|]).
  eapply rtc_l; [apply (step_push "a")|].
  eapply rtc_l; [apply (step_move Enqueue 1); vm_compute; reflexivity|].
  eapply rtc_l; [apply (step_move Enqueue 0); vm_compute; reflexivity|].
  eapply rtc_l; [apply (step_push "b")|].
  eapply rtc_l; [apply (step_move Enqueue 0); vm_compute; reflexivity|].
  eapply rtc_l; [apply (step_move Timeout 0); vm_compute; reflexivity|].
  eapply rtc_l; [apply (step_move Drop 0); vm_compute; reflexivity|].
  eapply rtc_l; [apply (step_receive 1); vm_compute; reflexivity|].
  eapply rtc_l; [apply (step_move Enqueue 0); vm_compute; reflexivity|].
  eapply rtc_l; [apply (step_off (Some 1%nat)); vm_compute; reflexivity|].
  eapply rtc_l; [apply (step_push "c")|].
  eapply rtc_l; [apply (step_move Timeout 0); vm_compute; reflexivity|].
  vm_compute. apply rtc_refl.
Qed.
Lemma sinks_accounted_witness :
  (s_panicked x_state = false
   ∧ ∀ c ch, at_chan x_state c = Some ch →
      (length (ch_buf ch) ≤ ch_cap ch)%nat
      ∧ ch_got ch ++ ch_lost ch ++ ch_buf ch ++ pending c (s_flying x_state) ≡ₚ ch_pushed ch
      ∧ (length (ch_lost ch) ≤ 2 * ch_timeouts ch)%nat)
  ∧ at_chan x_state 2 = Some (mkChan 1 ["b"] false [] ["a"] ["a"; "b"; "c"] 2)%string.
Proof. split; [apply (sinks_accounted x_state x_reached)|vm_compute; reflexivity]. Defined.

(** A channel without a buffer, as a websocket listens for events with, keeps nothing: when
    its reader is late it is the newest message that is dropped. *)
Lemma unbuffered_drops_newest :
  let s := On (Some 1%nat) (set_chans {[1%nat := new_chan 0]} NewSinkPool) in
  (s1 ← move Timeout 0 (Push "a" s); move GiveUp 0 s1) ≫= (λ s, at_chan s 1)
  = Some (mkChan 0 [] false [] ["a"] ["a"] 1)%string.
Proof. vm_compute. reflexivity. Qed.

(** Registering a channel twice is not safe: taking it off once closes it under the other
    registration. *)
Lemma twice_registered_panics :
  let s := On (Some 1%nat) (On (Some 1%nat) (set_chans {[1%nat := new_chan 8]} NewSinkPool)) in
  s_panicked <$> move Enqueue 0 (Push "a" (Off (Some 1%nat) s)) = Some true.
Proof. vm_compute. reflexivity. Qed.
