(* ===== verification/Console.v ===== *)
(** * The console of a server (system/rate.go, server/console.go, and the handling of output
    in server/listeners.go and remote/types.go)

    A line of output is first compared with the lines that mark a server as started, and
    then, unless the console is throttled, pushed to the sink of the log.  The throttle is a
    limit per period and the locker of [Locker], which makes the warning appear once for a
    row of refused lines.  The clock is an argument. *)

From stdpp Require Import base list strings numbers sorting.
From S2P Require Import Prelude GoStrings Locker Environment Sinks.
Open Scope Z_scope.

(** ** Rates (system/rate.go) *)

Record Rate := mkRate { r_limit : Z; r_duration : Z; r_count : Z; r_last : Z }.

Definition NewRate (limit duration now : Z) : Rate := mkRate limit duration 0 now.
(** [time.Time.Sub] saturates. *)
Definition Sub (t u : Z) : Z := Z.max int64_min (Z.min int64_max (t - u)).
Definition Try (now : Z) (r : Rate) : bool * Rate :=
  let r := if r_duration r <? Sub now (r_last r) then mkRate (r_limit r) (r_duration r) 0 now else r in
  if r_limit r <? wrapu64 (r_count r + 1) then (false, r)
  else (true, mkRate (r_limit r) (r_duration r) (wrapu64 (r_count r + 1)) (r_last r)).
Definition rate_Reset (now : Z) (r : Rate) : Rate := mkRate (r_limit r) (r_duration r) 0 now.

(** ** The throttle (server/console.go) *)

Record ConsoleThrottle := mkThrottle { ct_limit : Rate; ct_lock : Locker }.
Definition newConsoleThrottle (lines period now : Z) : ConsoleThrottle := mkThrottle (NewRate lines period now) NewLocker.
(** The period in nanoseconds, from milliseconds that may be too many. *)
Definition throttle_period (millis : Z) : Z :=
  let largest := int64_max / 10 ^ 6 in (if largest <? millis then largest else millis) * 10 ^ 6.
Definition Throttler (lines millis now : Z) : ConsoleThrottle := newConsoleThrottle lines (throttle_period millis) now.

(** Whether the line is allowed, and whether the warning is published. *)
Definition Allow (now : Z) (ct : ConsoleThrottle) : bool * bool * ConsoleThrottle :=
  let '(ok, limit) := Try now (ct_limit ct) in
  if ok then (true, false, mkThrottle limit (Release (ct_lock ct)))
  else let '(r, lock) := Acquire (ct_lock ct) in (false, is_ok r, mkThrottle limit lock).
Definition throttle_Reset (now : Z) (ct : ConsoleThrottle) : ConsoleThrottle := mkThrottle (rate_Reset now (ct_limit ct)) (ct_lock ct).

(** ** Lines that mark a server as started (remote/types.go, server/listeners.go) *)

(** The regular expressions of Go, and the one that matches colour codes. *)
Class Regexps := {
  regexp : Type;
  regexp_Compile : string → option regexp;
  regexp_Match : regexp → string → bool;
  strip_ansi : string → string;
}.

Section Output.
Context `{RX : Regexps}.

Record OutputLineMatcher := mkMatcher { olm_raw : string; olm_reg : option regexp; olm_literal : string }.
Definition Matches (olm : OutputLineMatcher) (s : string) : bool :=
  match olm_reg olm with None => Contains s (olm_literal olm) | Some reg => regexp_Match reg s end.
(** [UnmarshalJSON], of the string that was unmarshalled. *)
Definition matcher_of (raw : string) : OutputLineMatcher :=
  if HasPrefix raw "regex:" && (6 <? strlen raw) then
    let pattern := String.substring 6 (String.length raw - 6) raw in
    match regexp_Compile pattern with
    | Some r => mkMatcher raw (Some r) raw
    | None => mkMatcher raw None pattern
    end
  else mkMatcher raw None raw.

Record Startup := mkStartup { su_Done : list OutputLineMatcher; su_StripAnsi : bool }.

Definition onConsoleOutput (cfg : Startup) (data : string) (e : env) : env :=
  if negb (bool_decide (State e = Starting)) && negb (bool_decide (State e = Running)) then e
  else if bool_decide (State e = Starting) then
    let v := if su_StripAnsi cfg then strip_ansi data else data in
    if existsb (λ l, Matches l v) (su_Done cfg) then SetState Running e else e
  else e.

(** What the handling of a line changes: the environment, the throttle and the sink; and
    whether the warning is published. *)
Definition processConsoleOutputEvent (cfg : Startup) (now : Z) (v : string) (e : env) (ct : ConsoleThrottle) (sink : Sinks.state) :
    env * ConsoleThrottle * Sinks.state * bool :=
  let e := onConsoleOutput cfg v e in
  let '(ok, strike, ct) := Allow now ct in
  if ok then (e, ct, Push v sink, strike) else (e, ct, sink, strike).
End Output.

(** ** What holds of them *)

(** The answers to calls at the given times. *)
Fixpoint tries (r : Rate) (times : list Z) : list (Z * bool) :=
  match times with
  | [] => []
  | t :: times' => let '(ok, r') := Try t r in (t, ok) :: tries r' times'
  end.
(** The calls that are allowed after [lo] and until [hi]. *)
Definition allowed_in (lo hi : Z) (l : list (Z * bool)) : nat := length (filter (λ p, snd p = true ∧ lo < fst p ≤ hi) l).

Definition rate_ok (r : Rate) : Prop := 0 ≤ r_count r ≤ r_limit r ∧ r_limit r < 2 ^ 64 - 1 ∧ 0 ≤ r_duration r.

Lemma Try_ok t r : rate_ok r → let '(ok, r') := Try t r in
  rate_ok r' ∧ r_limit r' = r_limit r ∧ r_duration r' = r_duration r
  ∧ let reset := r_duration r <? Sub t (r_last r) in
    r_last r' = (if reset then t else r_last r)
    ∧ r_count r' = (if reset then 0 else r_count r) + (if ok then 1 else 0).
Proof.
  intros (Hc & Hl & Hd).
  assert (∀ n, 0 ≤ n ≤ r_limit r → wrapu64 (n + 1) = n + 1) as Hw by (intros n Hn; unfold wrapu64; apply Z.mod_small; lia).
  unfold Try, rate_ok. destruct (r_duration r <? Sub t (r_last r)); cbn [r_limit r_count r_duration r_last];
    rewrite Hw by lia; match goal with |- context [?a <? ?b] => destruct (Z.ltb_spec a b) end;
    cbn [r_limit r_count r_duration r_last]; repeat split; lia.
Qed.

Lemma none_after r times lo hi : Forall (Z.lt hi) times → allowed_in lo hi (tries r times) = 0%nat.
Proof.
  revert r. induction times as [|t times IH]; intros r Hf; [done|]. inversion Hf as [|? ? Ht Hf']; subst. cbn [tries].
  destruct (Try t r) as [ok r']. unfold allowed_in in *. rewrite filter_cons_False by (simpl; lia). by apply IH.
Qed.

(** A period that has begun within the time looked at is the last. *)
Lemma one_period r times lo :
  rate_ok r → lo < r_last r → StronglySorted Z.le times →
  Z.of_nat (allowed_in lo (lo + r_duration r) (tries r times)) ≤ r_limit r - r_count r.
Proof.
  revert r. induction times as [|t times IH]; intros r Hr Hlo Hs; [unfold allowed_in; simpl; destruct Hr; lia|].
  inversion Hs as [|? ? Hs' Ht]; subst. destruct (decide (t ≤ lo + r_duration r)) as [Hin|Hout].
  - cbn [tries]. pose proof (Try_ok t r Hr) as HT. destruct (Try t r) as [ok r'].
    destruct HT as (Hr' & Hl & Hd & Hlast & Hcount). unfold allowed_in. rewrite filter_cons. simpl.
    assert (Sub t (r_last r) ≤ r_duration r) as Hsub.
    { destruct Hr as (_ & _ & Hd0). unfold Sub, int64_min, int64_max. lia. }
    rewrite (proj2 (Z.ltb_ge _ _) Hsub) in Hlast, Hcount.
    specialize (IH r' Hr' ltac:(lia) Hs'). rewrite Hl, Hd in IH. unfold allowed_in in IH.
    destruct (decide _) as [[-> _]|]; simpl; [lia|destruct ok; lia].
  - rewrite none_after; [destruct Hr; lia|]. constructor; [lia|]. eapply list.Forall_impl; [exact Ht|]. simpl. lia.
Qed.
(** Two periods at most meet a time as long as one. *)
Lemma two_periods r times lo :
  rate_ok r → StronglySorted Z.le times → Forall (Z.lt lo) times →
  Z.of_nat (allowed_in lo (lo + r_duration r) (tries r times)) ≤ (r_limit r - r_count r) + r_limit r.
Proof.
  revert r. induction times as [|t times IH]; intros r Hr Hs Hlo; [unfold allowed_in; simpl; destruct Hr; lia|].
  inversion Hs as [|? ? Hs' Ht]; inversion Hlo as [|? ? Hlt Hlo']; subst. cbn [tries]. pose proof (Try_ok t r Hr) as HT. destruct (Try t r) as [ok r'].
  destruct HT as (Hr' & Hl & Hd & Hlast & Hcount). unfold allowed_in. rewrite filter_cons. simpl.
  pose proof (IH r' Hr' Hs' Hlo') as IH'. rewrite Hl, Hd in IH'. unfold allowed_in in IH'.
  destruct (_ <? _).
  - pose proof (one_period r' times lo Hr' ltac:(lia) Hs') as H1. rewrite Hl, Hd in H1. unfold allowed_in in H1.
    destruct Hr as [Hc _]. destruct (decide _) as [[-> _]|]; simpl; [lia|destruct ok; lia].
  - destruct (decide _) as [[-> _]|]; simpl; [lia|destruct ok; lia].
Qed.

Lemma any_periods r times lo :
  rate_ok r → StronglySorted Z.le times →
  Z.of_nat (allowed_in lo (lo + r_duration r) (tries r times)) ≤ 2 * r_limit r.
Proof.
  revert r. induction times as [|t times IH]; intros r Hr Hs; [unfold allowed_in; simpl; destruct Hr; lia|].
  inversion Hs as [|? ? Hs' Ht]; subst. destruct (decide (lo < t)) as [Hlt|Hge].
  - pose proof (two_periods r (t :: times) lo Hr Hs) as H2. destruct Hr as [Hc _]. etransitivity; [apply H2|lia].
    constructor; [done|]. eapply list.Forall_impl; [exact Ht|]. simpl. lia.
  - cbn [tries]. pose proof (Try_ok t r Hr) as HT. destruct (Try t r) as [ok r']. destruct HT as (Hr' & Hl & Hd & _).
    unfold allowed_in. rewrite filter_cons_False by (simpl; lia). pose proof (IH r' Hr' Hs') as IH'. by rewrite Hl, Hd in IH'.
Qed.

(** The limit of the console.  In any time as long as the period, wherever it starts, at
    most twice the limit of calls is allowed, whenever the calls come. *)
Theorem rate_bounded limit duration now times lo :
  0 ≤ limit < 2 ^ 64 - 1 → 0 ≤ duration → StronglySorted Z.le times →
  Z.of_nat (allowed_in lo (lo + duration) (tries (NewRate limit duration now) times)) ≤ 2 * limit.
Proof.
  intros Hl Hd Hs. pose proof (any_periods (NewRate limit duration now) times lo) as H. simpl in H.
  apply H; [|done]. repeat split; simpl; lia.
Qed.

(** ** The warning *)

Fixpoint allows (ct : ConsoleThrottle) (times : list Z) : list (bool * bool) :=
  match times with
  | [] => []
  | t :: times' => let '(ok, strike, ct') := Allow t ct in (ok, strike) :: allows ct' times'
  end.
(** The first refusal of each row of refusals. *)
Fixpoint first_refusals (refused : bool) (l : list bool) : list bool :=
  match l with
  | [] => []
  | ok :: l' => (negb ok && negb refused) :: first_refusals (negb ok) l'
  end.

Lemma strikes_from ct times :
  destroyed (ct_lock ct) = false →
  map snd (allows ct times) = first_refusals (l_ch (ct_lock ct)) (map fst (allows ct times)).
Proof.
  revert ct. induction times as [|t times IH]; intros ct Hd; [done|]. cbn [allows]. unfold Allow.
  destruct (Try t (ct_limit ct)) as [[] limit].
  - simpl. f_equal. by apply (IH (mkThrottle limit (Release (ct_lock ct)))).
  - unfold Acquire. rewrite Hd. destruct (ct_lock ct) as [[] d]; simpl in *; f_equal.
    + by apply (IH (mkThrottle limit (mkLocker true d))).
    + by apply (IH (mkThrottle limit (mkLocker true d))).
Qed.
(** The warning that output is throttled is published at the first refused line after an
    allowed one, and at no other, whatever the limit and whenever the lines come. *)
Theorem strikes_once lines millis now times :
  let l := allows (Throttler lines millis now) times in map snd l = first_refusals false (map fst l).
Proof. by apply (strikes_from (Throttler lines millis now)). Qed.

(** The line that marks a server as started is found also when it is throttled. *)
Lemma done_line_found `{RX : Regexps} cfg now v e ct sink :
  State e = Starting → existsb (λ l, Matches l (if su_StripAnsi cfg then strip_ansi v else v)) (su_Done cfg) = true →
  State (fst (fst (fst (processConsoleOutputEvent cfg now v e ct sink)))) = Running.
Proof.
  intros He Hm. unfold processConsoleOutputEvent. destruct (Allow now ct) as [[ok strike] ct'].
  assert (State (onConsoleOutput cfg v e) = Running) as Hr.
  { unfold onConsoleOutput. rewrite He. simpl. rewrite Hm. unfold SetState, State in *. rewrite He. by rewrite decide_False by done. }
  by destruct ok.
Qed.

(** The period is the configured one or the largest there is. *)
Lemma throttle_period_fits millis : 0 ≤ millis → in_int64 (throttle_period millis).
Proof.
  intros Hm. unfold throttle_period, in_int64, int64_min. change (int64_max / 10 ^ 6) with 9223372036854.
  change int64_max with 9223372036854775807. cbv zeta. destruct (Z.ltb_spec 9223372036854 millis); lia.
Qed.

(** Two lines a second: the second window starts right after the first. *)
Lemma rate_bounded_witness :
  Z.of_nat (allowed_in 99 (99 + 100) (tries (NewRate 2 100 0) [100; 100; 100; 101; 102; 103])) ≤ 2 * 2
  ∧ allowed_in 99 (99 + 100) (tries (NewRate 2 100 0) [100; 100; 100; 101; 102; 103]) = 4%nat.
Proof.
  split; [|vm_compute; reflexivity]. apply (rate_bounded 2 100 0); [lia|lia|].
  repeat (constructor; [|repeat (constructor; [lia|]); constructor]). constructor.
Defined.
