(* ===== verification/FileOps.v ===== *)
(** * File operations (server/file_operations.go)

    A server runs at most 64 file operations at a time.  Each has a goroutine that does the
    work, reports the end and sends the result, and another that publishes the progress.
    The state is every operation that was ever started, with the place where its two
    goroutines are, the registry, and the log of what was published; each step is one
    function of the code or one action of a goroutine, and the work itself is any sequence
    of its calls that ends with any error. *)

From stdpp Require Import base gmap list strings relations numbers.
From S2P Require Import Prelude GoStrings.
Open Scope Z_scope.

Definition maxFileOperationsPerServer : nat := 64.

(** What the code distinguishes of an error: a context that was cancelled, its own error, or
    another. *)
Inductive operr := ErrFileOperationCanceled | ErrContextCanceled | ErrOperation (what : string).
#[export] Instance operr_eq_dec : EqDecision operr.
Proof. solve_decision. Defined.

Definition canceled_text : string := "operation cancelled".
Definition safeFileOperationError (e : operr) : string :=
  match e with
  | ErrContextCanceled | ErrFileOperationCanceled => canceled_text
  | ErrOperation _ => "file operation failed"
  end.

(** The goroutine of the work: in the work, waiting for the publisher, out of the registry,
    with the end published, and with the result sent. *)
Inductive wpc := Working | Stopping (e : option operr) | Removed (e : option operr) | Reported (e : option operr) | Ended (e : option operr).
(** The goroutine that publishes the progress. *)
Inductive ppc := PubNew | PubRunning | PubStopped.

Record FileOperation := mkOp {
  o_typ : string;
  o_startTime : Z;
  o_bytesProcessed : Z;
  o_bytesTotal : Z;
  o_filesProcessed : Z;
  o_cancelled : bool;
  o_ctx : bool;                         (* the context is done *)
  o_work : wpc;
  o_pub : ppc;
}.
Definition set_bytes (f : Z → Z) (o : FileOperation) : FileOperation :=
  mkOp (o_typ o) (o_startTime o) (f (o_bytesProcessed o)) (o_bytesTotal o) (o_filesProcessed o) (o_cancelled o) (o_ctx o) (o_work o) (o_pub o).
Definition set_total (v : Z) (o : FileOperation) : FileOperation :=
  mkOp (o_typ o) (o_startTime o) (o_bytesProcessed o) v (o_filesProcessed o) (o_cancelled o) (o_ctx o) (o_work o) (o_pub o).
Definition set_files (f : Z → Z) (o : FileOperation) : FileOperation :=
  mkOp (o_typ o) (o_startTime o) (o_bytesProcessed o) (o_bytesTotal o) (f (o_filesProcessed o)) (o_cancelled o) (o_ctx o) (o_work o) (o_pub o).
Definition set_cancelled (o : FileOperation) : FileOperation :=
  mkOp (o_typ o) (o_startTime o) (o_bytesProcessed o) (o_bytesTotal o) (o_filesProcessed o) true true (o_work o) (o_pub o).
Definition set_ctx (o : FileOperation) : FileOperation :=
  mkOp (o_typ o) (o_startTime o) (o_bytesProcessed o) (o_bytesTotal o) (o_filesProcessed o) (o_cancelled o) true (o_work o) (o_pub o).
Definition set_work (w : wpc) (o : FileOperation) : FileOperation :=
  mkOp (o_typ o) (o_startTime o) (o_bytesProcessed o) (o_bytesTotal o) (o_filesProcessed o) (o_cancelled o) (o_ctx o) w (o_pub o).
Definition set_pub (p : ppc) (o : FileOperation) : FileOperation :=
  mkOp (o_typ o) (o_startTime o) (o_bytesProcessed o) (o_bytesTotal o) (o_filesProcessed o) (o_cancelled o) (o_ctx o) (o_work o) p.

(** The methods that the work calls; the counters are 64 bits wide. *)
Definition AddBytesProcessed (v : Z) : FileOperation → FileOperation := set_bytes (λ n, wrapu64 (n + v)).
Definition SetBytesTotal (v : Z) : FileOperation → FileOperation := set_total v.
Definition AddFilesProcessed (v : Z) : FileOperation → FileOperation := set_files (λ n, wrapu64 (n + v)).

Record FileOperationSnapshot := mkSnapshot {
  sn_Type : string; sn_ServerUUID : string; sn_StartTime : Z;
  sn_BytesProcessed : Z; sn_BytesTotal : Z; sn_FilesProcessed : Z; sn_Cancelled : bool;
}.
Definition Snapshot (server : string) (o : FileOperation) : FileOperationSnapshot :=
  mkSnapshot (o_typ o) server (o_startTime o) (o_bytesProcessed o) (o_bytesTotal o) (o_filesProcessed o) (o_cancelled o).

(** What is published on the bus. *)
Inductive opevent := OperationProgress (id json : string) | OperationError (id message : string) | OperationCompleted (id : string).

Record manager := mkManager {
  m_server : string;
  m_ops : gmap string FileOperation;
  m_operations : gset string;           (* the registry *)
  m_published : list opevent;
  m_results : list (string * option operr);
}.
Definition NewFileOperationManager (server : string) : manager := mkManager server ∅ ∅ [] [].
Definition on_op (id : string) (f : FileOperation → FileOperation) (m : manager) : manager :=
  mkManager (m_server m) (alter f id (m_ops m)) (m_operations m) (m_published m) (m_results m).
Definition publishArgs (e : opevent) (m : manager) : manager :=
  mkManager (m_server m) (m_ops m) (m_operations m) (m_published m ++ [e]) (m_results m).

(** ** The functions *)

(** [Start], with a new identifier: refused when the registry is full. *)
Definition Start (id typ : string) (now : Z) (m : manager) : option manager :=
  if bool_decide (maxFileOperationsPerServer ≤ size (m_operations m))%nat then None
  else Some (mkManager (m_server m) (<[id := mkOp typ now 0 0 0 false false Working PubNew]> (m_ops m))
               ({[id]} ∪ m_operations m) (m_published m) (m_results m)).
Definition Cancel (id : string) (m : manager) : bool * manager :=
  if bool_decide (id ∈ m_operations m) then (true, on_op id set_cancelled m) else (false, m).
Definition CancelAll (m : manager) : manager :=
  mkManager (m_server m) (map_imap (λ id o, Some (if bool_decide (id ∈ m_operations m) then set_cancelled o else o)) (m_ops m))
            (m_operations m) (m_published m) (m_results m).
Definition Has (id : string) (m : manager) : bool := bool_decide (id ∈ m_operations m).
Definition Count (m : manager) : nat := size (m_operations m).

Section Steps.
(** JSON of a snapshot, if it can be marshalled. *)
Context (snapshot_json : FileOperationSnapshot → option string).

Definition publishProgress (id : string) (o : FileOperation) (m : manager) : manager :=
  match snapshot_json (Snapshot (m_server m) o) with
  | Some payload => publishArgs (OperationProgress id payload) m
  | None => m
  end.

(** One round of [publishProgressUntilDone]: the first publication, another at a tick, or
    the end, which needs the work to be over. *)
Definition pub_step (stop : bool) (id : string) (o : FileOperation) (m : manager) : option manager :=
  match o_pub o, stop with
  | PubNew, false => Some (on_op id (set_pub PubRunning) (publishProgress id o m))
  | PubRunning, false => Some (publishProgress id o m)
  | PubRunning, true =>
      match o_work o with
      | Working => None
      | _ => Some (on_op id (set_pub PubStopped) m)
      end
  | _, _ => None
  end.

(** The end of the work, with its error. *)
Definition work_done (e : option operr) (id : string) (o : FileOperation) (m : manager) : option manager :=
  match o_work o with Working => Some (on_op id (set_work (Stopping e)) m) | _ => None end.

(** The rest of the goroutine: out of the registry once the publisher has stopped, deciding
    what the result is; then the last event; then the result. *)
Definition finish_step (id : string) (o : FileOperation) (m : manager) : option manager :=
  match o_work o, o_pub o with
  | Stopping e, PubStopped =>
      let e' := if o_cancelled o || o_ctx o then Some ErrFileOperationCanceled else e in
      let m := mkManager (m_server m) (m_ops m) (m_operations m ∖ {[id]}) (m_published m) (m_results m) in
      Some (on_op id (set_work (Removed e')) m)
  | Removed e, _ =>
      let event := match e with
                   | None => OperationCompleted id
                   | Some e => OperationError id (safeFileOperationError e)
                   end in
      Some (on_op id (set_work (Reported e)) (publishArgs event m))
  | Reported e, _ =>
      let m := mkManager (m_server m) (m_ops m) (m_operations m) (m_published m) (m_results m ++ [(id, e)]) in
      Some (on_op id (set_work (Ended e)) m)
  | _, _ => None
  end.

(** What the work may do to its operation. *)
Inductive work_call : (FileOperation → FileOperation) → Prop :=
| call_bytes v : work_call (AddBytesProcessed v)
| call_total v : work_call (SetBytesTotal v)
| call_files v : work_call (AddFilesProcessed v).

Inductive step : manager → manager → Prop :=
| step_start id typ now m m' : m_ops m !! id = None → Start id typ now m = Some m' → step m m'
| step_call id f o m : m_ops m !! id = Some o → o_work o = Working → work_call f → step m (on_op id f m)
| step_work id o e m m' : m_ops m !! id = Some o → work_done e id o m = Some m' → step m m'
| step_pub stop id o m m' : m_ops m !! id = Some o → pub_step stop id o m = Some m' → step m m'
| step_finish id o m m' : m_ops m !! id = Some o → finish_step id o m = Some m' → step m m'
| step_cancel id m : step m (snd (Cancel id m))
| step_cancel_all m : step m (CancelAll m)
(* the parent's or the server's context is done *)
| step_ctx id m : step m (on_op id set_ctx m).
End Steps.

(** ** Every operation ends once *)

Definition event_of (id : string) (e : opevent) : Prop :=
  match e with OperationProgress i _ | OperationError i _ | OperationCompleted i => i = id end.
#[export] Instance event_of_dec id e : Decision (event_of id e).
Proof. destruct e; simpl; apply _. Defined.
Definition is_progress (e : opevent) : Prop := match e with OperationProgress _ _ => True | _ => False end.
(** The events of one operation, in order. *)
Definition events_of (id : string) (m : manager) : list opevent := filter (event_of id) (m_published m).
Definition results_of (id : string) (m : manager) : list (option operr) := snd <$> filter (λ p, fst p = id) (m_results m).

(** The event that reports a result. *)
Definition end_event (id : string) (e : option operr) : opevent :=
  match e with None => OperationCompleted id | Some e => OperationError id (safeFileOperationError e) end.

(** What was said about an operation, by the place of its goroutine. *)
Definition told (id : string) (m : manager) (o : FileOperation) : Prop :=
  match o_work o with
  | Working | Stopping _ | Removed _ => Forall is_progress (events_of id m) ∧ results_of id m = []
  | Reported e => (∃ before, Forall is_progress before ∧ events_of id m = before ++ [end_event id e]) ∧ results_of id m = []
  | Ended e => (∃ before, Forall is_progress before ∧ events_of id m = before ++ [end_event id e]) ∧ results_of id m = [e]
  end.
Definition registered (o : FileOperation) : Prop := match o_work o with Working | Stopping _ => True | _ => False end.
Definition result_of (o : FileOperation) : option (option operr) :=
  match o_work o with Removed e | Reported e | Ended e => Some e | _ => None end.

Record op_ok (m : manager) (id : string) (o : FileOperation) : Prop := mkOpOk {
  op_told : told id m o;
  op_registered : id ∈ m_operations m ↔ registered o;
  op_pub : match o_work o with Working => o_pub o ≠ PubStopped | Stopping _ => True | _ => o_pub o = PubStopped end;
  op_cancelled : o_cancelled o = true → ∀ e, result_of o = Some e → e = Some ErrFileOperationCanceled;
}.
Record manager_ok (m : manager) : Prop := mkManagerOk {
  mo_bound : (size (m_operations m) ≤ maxFileOperationsPerServer)%nat;
  mo_known : ∀ id, id ∈ m_operations m → is_Some (m_ops m !! id);
  mo_ops : ∀ id o, m_ops m !! id = Some o → op_ok m id o;
  mo_none : ∀ id, m_ops m !! id = None → events_of id m = [] ∧ results_of id m = [];
}.

Lemma manager_ok_new server : manager_ok (NewFileOperationManager server).
Proof.
  split; simpl; [vm_compute; lia|set_solver|by intros id o ?%lookup_empty_Some|done].
Qed.

Lemma events_publish id e m : events_of id (publishArgs e m) = events_of id m ++ (if decide (event_of id e) then [e] else []).
Proof. unfold events_of, publishArgs. simpl. rewrite list.filter_app, list.filter_cons, filter_nil. by destruct (decide _). Qed.

(** A change of one operation. *)
Lemma lookup_on_op id id' f m :
  m_ops (on_op id f m) !! id' = if decide (id = id') then f <$> m_ops m !! id else m_ops m !! id'.
Proof. unfold on_op. simpl. case_decide as Hd; [subst; apply lookup_alter_eq|by apply lookup_alter_ne]. Qed.

(** The step of one operation: the others are not spoken of and stay where they are. *)
Lemma one_op m m' id o o' :
  manager_ok m → m_ops m !! id = Some o →
  (∀ id', m_ops m' !! id' = if decide (id = id') then Some o' else m_ops m !! id') →
  (∀ id', id' ≠ id → (id' ∈ m_operations m' ↔ id' ∈ m_operations m)) →
  m_operations m' ⊆ m_operations m →
  (∀ id', id' ≠ id → events_of id' m' = events_of id' m ∧ results_of id' m' = results_of id' m) →
  op_ok m' id o' → manager_ok m'.
Proof.
  intros [Hb Hk Ho Hn] Hid Hops Hreg Hsub Hev Hok. split.
  - etransitivity; [by apply subseteq_size|done].
  - intros id' Hin. rewrite Hops. case_decide; [by eexists|]. by apply Hk, Hsub.
  - intros id' x. rewrite Hops. case_decide as Hd; [intros [= <-]; by subst|]. intros Hx.
    destruct (Hev id') as [He Hr]; [done|]. destruct (Ho id' x Hx) as [Ht Hreg' Hp Hc]. split; [|rewrite Hreg by done; done|done|done].
    unfold told in *. by rewrite He, Hr.
  - intros id'. rewrite Hops. case_decide as Hd; [done|]. intros Hx. destruct (Hev id') as [-> ->]; [done|]. by apply Hn.
Qed.

(** A step that keeps the registry and says nothing. *)
Lemma quiet_step m id o f :
  manager_ok m → m_ops m !! id = Some o → op_ok (on_op id f m) id (f o) → manager_ok (on_op id f m).
Proof.
  intros HI Hid Hok. apply (one_op m _ id o (f o)); try done. intros id'. rewrite lookup_on_op. case_decide; [by rewrite Hid|done].
Qed.

Section Ends.
Context (snapshot_json : FileOperationSnapshot → option string).

Lemma progress_events id id' o m :
  events_of id' (publishProgress snapshot_json id o m) = events_of id' m
  ∨ (id' = id ∧ ∃ j, events_of id' (publishProgress snapshot_json id o m) = events_of id' m ++ [OperationProgress id j]).
Proof.
  unfold publishProgress. destruct (snapshot_json _) as [j|]; [|by left]. rewrite events_publish.
  destruct (decide _) as [Hd|Hd]; [right|left; by rewrite app_nil_r]. simpl in Hd. split; [done|]. by exists j.
Qed.
Lemma progress_frame id o m :
  m_ops (publishProgress snapshot_json id o m) = m_ops m ∧ m_operations (publishProgress snapshot_json id o m) = m_operations m
  ∧ m_results (publishProgress snapshot_json id o m) = m_results m.
Proof. unfold publishProgress. by destruct (snapshot_json _). Qed.

(** Publishing the progress of an operation whose publisher runs, which then is at the same
    place or further. *)
Lemma publish_ok id o p m :
  manager_ok m → m_ops m !! id = Some o → o_pub o ≠ PubStopped → p ≠ PubStopped →
  manager_ok (on_op id (set_pub p) (publishProgress snapshot_json id o m)).
Proof.
  intros HI Hid Hp Hp'. destruct (progress_frame id o m) as (Hops & Hreg & Hres).
  destruct (mo_ops _ HI id o Hid) as [Ht Hr Hpub Hc].
  assert (match o_work o with Working | Stopping _ => True | _ => False end) as Hw by (destruct (o_work o); done).
  apply (one_op m _ id o (set_pub p o)); try done.
  - intros id'. rewrite lookup_on_op, Hops. case_decide; [by rewrite Hid|done].
  - intros id' _. simpl. by rewrite Hreg.
  - simpl. by rewrite Hreg.
  - intros id' Hne. unfold results_of. simpl. rewrite Hres. split; [|done].
    destruct (progress_events id id' o m) as [He|[? _]]; [exact He|done].
  - split; [|simpl; by rewrite Hreg|simpl; by destruct (o_work o)|done].
    unfold told in *. unfold results_of in *. simpl. rewrite Hres.
    change (events_of id (on_op id (set_pub p) (publishProgress snapshot_json id o m))) with (events_of id (publishProgress snapshot_json id o m)).
    assert (∀ l : list (option operr), Forall is_progress (events_of id m) ∧ l = [] → Forall is_progress (events_of id (publishProgress snapshot_json id o m)) ∧ l = []) as Hmore.
    { intros l [Hf ->]. split; [|done]. destruct (progress_events id id o m) as [-> |[_ [j ->]]]; [done|]. apply Forall_app. split; [done|by constructor]. }
    destruct (o_work o); by try apply Hmore.
Qed.
Lemma on_op_id id o p m : m_ops m !! id = Some o → o_pub o = p → on_op id (set_pub p) m = m.
Proof.
  intros Hid Hp. destruct m as [sv ops reg pub res]. unfold on_op. simpl in *. f_equal.
  apply map_eq. intros id'. destruct (decide (id = id')) as [<-|]; [|by rewrite lookup_alter_ne].
  rewrite lookup_alter_eq, Hid. simpl. f_equal. destruct o. simpl in *. by subst.
Qed.

Lemma pub_step_ok stop id o m m' :
  manager_ok m → m_ops m !! id = Some o → pub_step snapshot_json stop id o m = Some m' → manager_ok m'.
Proof.
  intros HI Hid. unfold pub_step. destruct (o_pub o) eqn:Hp, stop; try done.
  - intros [= <-]. by apply publish_ok; [..|congruence|].
  - destruct (mo_ops _ HI id o Hid) as [Ht Hr Hpub Hc]. destruct (o_work o) eqn:Hw; try done; try (exfalso; congruence).
    intros [= <-]. apply (quiet_step m id o); [done..|]. split; [|done|simpl; by rewrite Hw|done].
    unfold told in *. simpl. by rewrite Hw in *.
  - intros [= <-]. rewrite <-(on_op_id id o PubRunning (publishProgress snapshot_json id o m)); [|by rewrite (proj1 (progress_frame id o m))|done].
    by apply publish_ok; [..|congruence|].
Qed.
Lemma work_done_ok e id o m m' : manager_ok m → m_ops m !! id = Some o → work_done e id o m = Some m' → manager_ok m'.
Proof.
  intros HI Hid. unfold work_done. destruct (mo_ops _ HI id o Hid) as [Ht Hr Hpub Hc]. destruct (o_work o) eqn:Hw; try done. intros [= <-].
  apply (quiet_step m id o); [done..|]. unfold told, registered in *. rewrite Hw in *. by split.
Qed.
Lemma results_snoc id id' e m :
  results_of id' (mkManager (m_server m) (m_ops m) (m_operations m) (m_published m) (m_results m ++ [(id, e)]))
  = results_of id' m ++ (if decide (id = id') then [e] else []).
Proof. unfold results_of. simpl. rewrite list.filter_app, fmap_app, list.filter_cons, filter_nil. simpl. by case_decide. Qed.
Lemma finish_step_ok id o m m' : manager_ok m → m_ops m !! id = Some o → finish_step id o m = Some m' → manager_ok m'.
Proof.
  intros HI Hid. destruct (mo_ops _ HI id o Hid) as [Ht Hr Hpub Hc]. unfold finish_step.
  destruct (o_work o) as [|e|e|e|e] eqn:Hw; try done.
  - destruct (o_pub o) eqn:Hp; try done. intros [= <-].
    set (e' := if o_cancelled o || o_ctx o then Some ErrFileOperationCanceled else e).
    apply (one_op m _ id o (set_work (Removed e') o)); try done.
    + intros id'. rewrite lookup_on_op. simpl. case_decide; [by rewrite Hid|done].
    + simpl. set_solver.
    + simpl. set_solver.
    + split; [|simpl; unfold registered; simpl; set_solver|done|].
      * unfold told in *. rewrite Hw in Ht. simpl. exact Ht.
      * simpl. intros Hcc e0 [= <-]. subst e'. by rewrite Hcc.
  - intros [= <-]. apply (one_op m _ id o (set_work (Reported e) o)); try done.
    + intros id'. rewrite lookup_on_op. simpl. case_decide; [by rewrite Hid|done].
    + intros id' Hne. split; [|done]. change (events_of id' (publishArgs (end_event id e) m) = events_of id' m). rewrite events_publish.
      rewrite decide_False; [by rewrite app_nil_r|]. destruct e; simpl; congruence.
    + split; [|simpl; unfold registered in *; rewrite Hw in Hr; done|simpl; done|simpl; intros Hcc e0 [= <-]; apply Hc; [done|]; unfold result_of; by rewrite Hw].
      unfold told in *. rewrite Hw in Ht. simpl. destruct Ht as [Hf Hres]. split; [|exact Hres]. exists (events_of id m). split; [done|].
      change (events_of id (publishArgs (end_event id e) m) = events_of id m ++ [end_event id e]). rewrite events_publish. rewrite decide_True; [done|]. by destruct e.
  - intros [= <-]. apply (one_op m _ id o (set_work (Ended e) o)); try done.
    + intros id'. rewrite lookup_on_op. simpl. case_decide; [by rewrite Hid|done].
    + intros id' Hne. split; [done|]. etransitivity; [apply (results_snoc id id' e m)|]. rewrite decide_False by done. by rewrite app_nil_r.
    + split; [|simpl; unfold registered in *; rewrite Hw in Hr; done|simpl; done|simpl; intros Hcc e0 [= <-]; apply Hc; [done|]; unfold result_of; by rewrite Hw].
      unfold told in *. rewrite Hw in Ht. simpl. destruct Ht as [Hf Hres]. split; [exact Hf|].
      etransitivity; [apply (results_snoc id id e m)|]. rewrite decide_True by done. by rewrite Hres.
Qed.

Lemma Start_ok id typ now m m' : manager_ok m → m_ops m !! id = None → Start id typ now m = Some m' → manager_ok m'.
Proof.
  intros [Hb Hk Ho Hn] Hid. unfold Start. case_bool_decide as Hfull; [done|]. intros [= <-].
  assert (id ∉ m_operations m) as Hnot by (intros Hin; destruct (Hk id Hin); congruence). split; simpl.
  - rewrite size_union by set_solver. rewrite size_singleton. lia.
  - intros id' [->%elem_of_singleton|Hin]%elem_of_union; [by rewrite lookup_insert_eq; eexists|].
    destruct (decide (id' = id)) as [->|]; [by rewrite lookup_insert_eq; eexists|]. rewrite lookup_insert_ne by done. by apply Hk.
  - intros id' o [[<- <-]|[Hne Hx]]%lookup_insert_Some.
    + destruct (Hn id Hid) as [He Hr]. split; [|simpl; set_solver|done|done]. unfold told. simpl.
      change (Forall is_progress (events_of id m) ∧ results_of id m = []). by rewrite He.
    + destruct (Ho id' o Hx) as [Ht Hr Hp Hc]. split; [done|simpl; rewrite <-Hr; set_solver|done|done].
  - intros id' [Hx Hne]%lookup_insert_None. by apply Hn.
Qed.
(** A change that neither the events nor the goroutines see, and cancels only what is
    registered. *)
Lemma inert_ok id f m : manager_ok m →
  (∀ o, o_work (f o) = o_work o ∧ o_pub (f o) = o_pub o) →
  (∀ o, m_ops m !! id = Some o → o_cancelled (f o) = true → o_cancelled o = true ∨ registered o) →
  manager_ok (on_op id f m).
Proof.
  intros HI Hf Hc. destruct (m_ops m !! id) as [o|] eqn:Hid.
  - apply (quiet_step m id o); [done..|]. destruct (mo_ops _ HI id o Hid) as [Ht Hr Hp Hcc]. destruct (Hf o) as [Hw Hpu].
    split; unfold told, registered, result_of in *; rewrite ?Hw, ?Hpu; [done..|].
    intros Hcan e He. destruct (Hc o eq_refl Hcan) as [?|Hreg]; [by eapply Hcc|]. by destruct (o_work o).
  - replace (on_op id f m) with m; [done|]. destruct m as [sv ops reg pub res]. unfold on_op. simpl in *. f_equal.
    symmetry. apply map_eq. intros id'. destruct (decide (id = id')) as [<-|]; [|by rewrite lookup_alter_ne]. by rewrite lookup_alter_eq, Hid.
Qed.
Lemma CancelAll_ok m : manager_ok m → manager_ok (CancelAll m).
Proof.
  intros [Hb Hk Ho Hn]. split; simpl; [done| | |].
  - intros id Hin. rewrite map_lookup_imap. destruct (Hk id Hin) as [o ->]. by eexists.
  - intros id x. rewrite map_lookup_imap. destruct (m_ops m !! id) as [o|] eqn:Hid; [|done]. simpl. intros [= <-].
    destruct (Ho id o Hid) as [Ht Hr Hp Hc]. case_bool_decide as Hin; [|by split].
    split; [done|done|done|]. simpl. intros _ e He. apply Hr in Hin. unfold registered, result_of in *. simpl in He. by destruct (o_work o).
  - intros id. rewrite map_lookup_imap. destruct (m_ops m !! id) eqn:Hid; [done|]. intros _. by apply Hn.
Qed.

Lemma step_ok m m' : step snapshot_json m m' → manager_ok m → manager_ok m'.
Proof.
  intros Hs HI. destruct Hs as [id typ now m m' Hid Hst|id f o m Hid Hw Hf|id o e m m' Hid Hst|stop id o m m' Hid Hst|id o m m' Hid Hst|id m|m|id m].
  - by eapply Start_ok.
  - apply inert_ok; [done|by destruct Hf|]. intros o' Ho' Hcan. left. by destruct Hf.
  - by eapply work_done_ok.
  - by eapply pub_step_ok.
  - by eapply finish_step_ok.
  - unfold Cancel. case_bool_decide as Hin; [|done]. simpl. apply inert_ok; [done|done|]. intros o Ho _. right.
    by apply (mo_ops _ HI id o Ho).
  - by apply CancelAll_ok.
  - apply inert_ok; [done|done|]. intros o _ Hcan. by left.
Qed.

(** C15: a file operation ends once, and its end is told once.  In every state that any order
    of starts, cancellations, work, ticks and ends of contexts reaches: at most 64 operations
    are registered, and an operation is registered exactly until its work is over; while it
    is, only its progress was published and nothing was sent; afterwards, no progress is
    published any more, the end is published once, and then exactly one result is sent, the
    one that was published; and an operation that was cancelled while it was registered ends
    with the error that says so. *)
Theorem operation_ends_once server m :
  rtc (step snapshot_json) (NewFileOperationManager server) m →
  (Count m ≤ maxFileOperationsPerServer)%nat
  ∧ ∀ id o, m_ops m !! id = Some o →
      told id m o ∧ (Has id m = true ↔ registered o)
      ∧ (o_cancelled o = true → ∀ e, result_of o = Some e → e = Some ErrFileOperationCanceled).
Proof.
  intros Hr. assert (manager_ok m) as HI.
  { revert Hr. generalize (manager_ok_new server). generalize (NewFileOperationManager server). intros m0 H0 Hr.
    induction Hr as [|m1 m2 m3 Hs Hr IH]; [done|]. by eapply IH, step_ok. }
  split; [apply HI|]. intros id o Hid. destruct (mo_ops _ HI id o Hid) as [Ht Hreg Hp Hc]. split_and!; [done| |done].
  unfold Has. by rewrite bool_decide_eq_true.
Qed.

(** Once its work is over, an operation ends by itself: the publisher stops, and the goroutine
    goes on to its end. *)
Definition will_end (id : string) (m : manager) : Prop :=
  ∃ m' o' e, rtc (step snapshot_json) m m' ∧ m_ops m' !! id = Some o' ∧ o_work o' = Ended e.
Lemma will_end_step id m m1 : step snapshot_json m m1 → will_end id m1 → will_end id m.
Proof. intros Hs (m' & o' & e & Hr & ?). exists m', o', e. split; [by eapply rtc_l|done]. Qed.
Lemma lookup_self id o f m m' : m_ops m !! id = Some o → m_ops m' = m_ops m → m_ops (on_op id f m') !! id = Some (f o).
Proof. intros Hid Hm. by rewrite lookup_on_op, decide_True, Hm, Hid. Qed.

Lemma reported_ends id o e m : m_ops m !! id = Some o → o_work o = Reported e → will_end id m.
Proof.
  intros Hid Hw. eapply will_end_step; [eapply step_finish; [exact Hid|unfold finish_step; rewrite Hw; reflexivity]|].
  eexists _, _, e. split_and!; [apply rtc_refl|by eapply lookup_self|done].
Qed.
Lemma removed_ends id o e m : m_ops m !! id = Some o → o_work o = Removed e → will_end id m.
Proof.
  intros Hid Hw. eapply will_end_step; [eapply step_finish; [exact Hid|unfold finish_step; rewrite Hw; reflexivity]|].
  eapply (reported_ends _ _ e); [by eapply lookup_self|done].
Qed.
Lemma stopped_ends id o e m : m_ops m !! id = Some o → o_work o = Stopping e → o_pub o = PubStopped → will_end id m.
Proof.
  intros Hid Hw Hp. eapply will_end_step; [eapply step_finish; [exact Hid|unfold finish_step; rewrite Hw, Hp; reflexivity]|].
  eapply removed_ends; [by eapply lookup_self|reflexivity].
Qed.
Lemma running_ends id o e m : m_ops m !! id = Some o → o_work o = Stopping e → o_pub o = PubRunning → will_end id m.
Proof.
  intros Hid Hw Hp. eapply will_end_step; [eapply (step_pub _ true); [exact Hid|unfold pub_step; rewrite Hp, Hw; reflexivity]|].
  eapply (stopped_ends _ _ e); [by eapply lookup_self|done|done].
Qed.
Lemma operation_ends id o m : m_ops m !! id = Some o → o_work o ≠ Working → will_end id m.
Proof.
  intros Hid Hw. destruct (o_work o) as [|e|e|e|e] eqn:Ew; [done| |by eapply removed_ends|by eapply reported_ends|].
  2:{ exists m, o, e. split_and!; [apply rtc_refl|done..]. }
  destruct (o_pub o) eqn:Ep; [|by eapply running_ends|by eapply stopped_ends].
  eapply will_end_step; [eapply (step_pub _ false); [exact Hid|unfold pub_step; rewrite Ep; reflexivity]|].
  eapply (running_ends _ _ e); [eapply lookup_self; [exact Hid|by apply progress_frame]|done|done].
Qed.
End Ends.

(** ** An operation that is cancelled after its work *)

Definition x_json : FileOperationSnapshot → option string := λ s, Some (FormatInt (sn_BytesProcessed s)).
Definition x_run : list (manager → option manager) :=
  let at_op f m := match m_ops m !! "1"%string with Some o => f "1"%string o m | None => None end in
  [Start "1" "copy" 0; λ m, Some (on_op "1" (AddBytesProcessed 5) m); at_op (pub_step x_json false); at_op (work_done None);
   λ m, Some (snd (Cancel "1" m)); at_op (pub_step x_json false); at_op (pub_step x_json true);
   at_op finish_step; at_op finish_step; at_op finish_step].
Definition x_end : manager := default (NewFileOperationManager "server") (foldl (λ r f, r ≫= f) (Some (NewFileOperationManager "server")) x_run).
Lemma x_end_reached : rtc (step x_json) (NewFileOperationManager "server") x_end.
Proof.
  eapply rtc_l; [apply (step_start _ "1" "copy" 0); [vm_compute; reflexivity|vm_compute; reflexivity]|].
  eapply rtc_l; [eapply (step_call _ "1" (AddBytesProcessed 5)); [vm_compute; reflexivity|reflexivity|constructor]|].
  eapply rtc_l; [eapply (step_pub _ false "1"); [vm_compute; reflexivity|vm_compute; reflexivity]|].
  eapply rtc_l; [eapply (step_work _ "1" _ None); [vm_compute; reflexivity|vm_compute; reflexivity]|].
  eapply rtc_l; [apply (step_cancel _ "1")|].
  eapply rtc_l; [eapply (step_pub _ false "1"); [vm_compute; reflexivity|vm_compute; reflexivity]|].
  eapply rtc_l; [eapply (step_pub _ true "1"); [vm_compute; reflexivity|vm_compute; reflexivity]|].
  do 3 (eapply rtc_l; [eapply (step_finish _ "1"); [vm_compute; reflexivity|vm_compute; reflexivity]|]).
  match goal with |- rtc _ ?a _ => assert (x_end = a) as -> by (vm_compute; reflexivity) end. apply rtc_refl.
Qed.
Lemma operation_ends_once_witness :
  ((Count x_end ≤ maxFileOperationsPerServer)%nat
   ∧ ∀ id o, m_ops x_end !! id = Some o →
      told id x_end o ∧ (Has id x_end = true ↔ registered o)
      ∧ (o_cancelled o = true → ∀ e, result_of o = Some e → e = Some ErrFileOperationCanceled))
  ∧ m_published x_end = [OperationProgress "1" "5"; OperationProgress "1" "5"; OperationError "1" "operation cancelled"]
  ∧ m_results x_end = [("1"%string, Some ErrFileOperationCanceled)].
Proof. split; [apply (operation_ends_once x_json "server"), x_end_reached|vm_compute; done]. Defined.
