(* ===== verification/Downloader.v ===== *)
(** * Remote downloads (router/downloader/downloader.go and its handlers in
    router/router_server_files.go)

    A user names a URL and Wings saves the file to the server's data.  Every request is a
    thread on the shared registry of downloads.  Names are resolved, connections made, answers
    received and files written by a world ([Internet]) that may change its mind at every
    moment: a moment is the number of the actions so far.  The state also keeps every
    connection that was attempted and every file that was written. *)

From stdpp Require Import base gmap list strings numbers.
From S2P Require Import Prelude GoStrings Paths Network Threads.
Open Scope Z_scope.

(** ** Data *)

Inductive derr :=
| ErrInternalResolution | ErrInvalidIPAddress | ErrDownloadFailed
| ESplitAddress | EConnect | ECreateRequest | EBadStatus | EContentLength | EDisposition | EDenied | EWriteFile.
#[export] Instance derr_eq_dec : EqDecision derr.
Proof. solve_decision. Defined.
Definition IsDownloadError (e : derr) : bool :=
  match e with ErrDownloadFailed | ErrInvalidIPAddress | ErrInternalResolution => true | _ => false end.

(** What is used of a URL: its text, the host and port to connect to, and its path. *)
Record URL := mkURL { u_String : string; u_Address : string; u_Path : string }.
Record DownloadRequest := mkDownloadRequest { dr_Directory : string; dr_URL : URL; dr_FileName : string; dr_UseHeader : bool }.
(** The function that cancels the context is missing before the download is executed; a
    download knows whether its context was cancelled. *)
Record Download := mkDownload {
  dl_path : string;
  dl_req : DownloadRequest;
  dl_server : string;
  dl_cancelFunc : bool;
  dl_cancelled : bool;
}.
Record response := mkResponse { rs_StatusCode : Z; rs_ContentLength : Z; rs_Disposition : string }.

(** The configuration, the resolver, the dialer, the transport and the server, at a moment.
    The dialer resolves the name again and tries the addresses it gets; an idle connection of
    an earlier request may be used again. *)
Class Internet := {
  allowlist : nat → list string;                         (* Api.RemoteDownloadAllowlist *)
  LookupNetIP : nat → string → option (list Addr);
  candidates : nat → string → list string;
  connects : nat → string → bool;
  idle : nat → URL → bool;
  valid_request : URL → bool;                            (* http.NewRequestWithContext *)
  respond : nat → URL → option response;
  media_filename : string → option (option string);      (* mime.ParseMediaType: an error, or the parameter *)
  patterns : nat → string → string → bool;               (* of the server's deny list *)
  fs_writes : nat → string → string → bool;              (* Filesystem.Write succeeds *)
  has_space : nat → string → bool;
}.

(** An identifier is a random UUID; here it is the number of downloads before. *)
Record state := mkState {
  d_now : nat;
  d_downloads : list Download;
  d_downloadCache : gset nat;
  d_serverCache : gmap string (list nat);
  d_dialed : list (string * string);                     (* the host, and the address connected to *)
  d_written : list (nat * string * Z);                   (* the download, the path, and the length *)
}.
Definition no_downloads : state := mkState 0 [] ∅ ∅ [] [].
Definition tick (s : state) : state :=
  mkState (S (d_now s)) (d_downloads s) (d_downloadCache s) (d_serverCache s) (d_dialed s) (d_written s).
Definition on_download (i : nat) (f : Download → Download) (s : state) : state :=
  mkState (d_now s) (alter f i (d_downloads s)) (d_downloadCache s) (d_serverCache s) (d_dialed s) (d_written s).

(** ** The registry *)

Definition track (i : nat) (dl : Download) (s : state) : state :=
  if decide (i ∈ d_downloadCache s) then s
  else mkState (d_now s) (d_downloads s) ({[i]} ∪ d_downloadCache s)
         (<[dl_server dl := default [] (d_serverCache s !! dl_server dl) ++ [i]]> (d_serverCache s)) (d_dialed s) (d_written s).
Definition find (i : nat) (s : state) : option Download :=
  if decide (i ∈ d_downloadCache s) then d_downloads s !! i else None.
Definition remove (i : nat) (s : state) : state :=
  match find i s with
  | None => s
  | Some dl =>
      mkState (d_now s) (d_downloads s) (d_downloadCache s ∖ {[i]})
        (match d_serverCache s !! dl_server dl with
         | Some tracked => <[dl_server dl := filter (λ k, k ≠ i) tracked]> (d_serverCache s)
         | None => d_serverCache s
         end) (d_dialed s) (d_written s)
  end.
Definition ByServer (sid : string) (s : state) : list nat :=
  filter (λ i, i ∈ d_downloadCache s) (default [] (d_serverCache s !! sid)).
Definition ByID (i : nat) (s : state) : option Download := find i s.
Definition BelongsTo (dl : Download) (sid : string) : bool := bool_decide (dl_server dl = sid).

Definition New (sid : string) (r : DownloadRequest) (s : state) : nat * state :=
  let i := length (d_downloads s) in
  let dl := mkDownload EmptyString r sid false false in
  (i, track i dl (mkState (d_now s) (d_downloads s ++ [dl]) (d_downloadCache s) (d_serverCache s) (d_dialed s) (d_written s))).

Definition cancel (dl : Download) : Download :=
  mkDownload (dl_path dl) (dl_req dl) (dl_server dl) (dl_cancelFunc dl) (dl_cancelFunc dl || dl_cancelled dl).
Definition cancellable (dl : Download) : Download :=
  mkDownload (dl_path dl) (dl_req dl) (dl_server dl) true (dl_cancelled dl).
Definition set_dl_path (p : string) (dl : Download) : Download :=
  mkDownload p (dl_req dl) (dl_server dl) (dl_cancelFunc dl) (dl_cancelled dl).

(** [Path] *)
Definition Path (dl : Download) : string := path_Join (dr_Directory (dl_req dl)) (dl_path dl).

(** ** Names *)

(** Only the last element of what the header says; the URL's last element is what follows
    its last slash. *)
Definition header_name (v : string) : option string :=
  let name := path_Base (Clean (String slash v)) in
  if bool_decide (name = "/"%string) || bool_decide (name = "."%string) then None else Some name.
Definition url_name (u : URL) : string := default EmptyString (list.last (Split slash (u_Path u))).
Definition asked_name (r : DownloadRequest) : string :=
  if bool_decide (dr_FileName r = EmptyString) then url_name (dr_URL r) else dr_FileName r.

Section Downloads.
Context `{UnicodeTables} `{IN : Internet}.
Abbreviation thread A := (prog state A).

(** A look at the world. *)
Definition observe {A} (f : nat → A) : thread A := atomic (λ s, (f (d_now s), tick s)).

(** The path of a download once the answer is there. *)
Definition chosen_path (dl : Download) (res : response) : result derr string :=
  p ← (if dr_UseHeader (dl_req dl) && negb (bool_decide (rs_Disposition res = EmptyString)) then
         match media_filename (rs_Disposition res) with
         | None => Err EDisposition
         | Some params => Ok (default (dl_path dl) (params ≫= header_name))
         end
       else Ok (dl_path dl));
  Ok (if bool_decide (p = EmptyString) then asked_name (dl_req dl) else p).

(** ** Connections *)

Definition isBlocked (allowed : list string) (host : string) (ip : Addr) : bool :=
  IsInternal ip && negb (IsAllowed allowed host ip).

(** [checkConnection], with the configuration at the moment of the call. *)
Definition checkConnection (host address : string) : thread (option derr) :=
  match SplitHostPort address with
  | None => mret (Some ESplitAddress)
  | Some (ipStr, _) =>
      match ParseAddr ipStr with
      | None => mret (Some ErrInternalResolution)
      | Some ip =>
          blocked ← observe (λ t, isBlocked (allowlist t) host ip);
          mret (if (blocked : bool) then Some ErrInternalResolution else None)
      end
  end.

(** The dialer: each address is checked immediately before it is connected to; the first
    error is returned when no address is left. *)
Definition connect (host address : string) : thread bool :=
  atomic (λ s, (connects (d_now s) address,
    mkState (S (d_now s)) (d_downloads s) (d_downloadCache s) (d_serverCache s) (d_dialed s ++ [(host, address)]) (d_written s))).
Fixpoint dial (host : string) (addresses : list string) (first : option derr) : thread (result derr string) :=
  match addresses with
  | [] => mret (Err (default EConnect first))
  | address :: rest =>
      refused ← checkConnection host address;
      match refused with
      | Some e => dial host rest (Some (default e first))
      | None =>
          ok ← connect host address;
          if (ok : bool) then mret (Ok address) else dial host rest (Some (default EConnect first))
      end
  end.

(** The check of all addresses of a name before it is dialed. *)
Fixpoint any_blocked (host : string) (ips : list Addr) : thread bool :=
  match ips with
  | [] => mret false
  | ip :: rest =>
      blocked ← observe (λ t, isBlocked (allowlist t) host ip);
      if (blocked : bool) then mret true else any_blocked host rest
  end.
Definition DialContext (addr : string) : thread (result derr string) :=
  match SplitHostPort addr with
  | None => mret (Err ESplitAddress)
  | Some (host, _) =>
      ips ← observe (λ t, LookupNetIP t host);
      match ips with
      | None | Some [] => mret (Err ErrInvalidIPAddress)
      | Some ips =>
          blocked ← any_blocked host ips;
          if (blocked : bool) then mret (Err ErrInternalResolution)
          else addresses ← observe (λ t, candidates t addr); dial host addresses None
      end
  end.

(** [client.Do]: redirects are not followed, so that there is one address to dial. *)
Definition client_Do (u : URL) : thread (result derr response) :=
  reuse ← observe (λ t, idle t u);
  conn ← (if (reuse : bool) then mret (Ok EmptyString) else DialContext (u_Address u));
  match conn with
  | Err e => mret (Err e)
  | Ok _ => res ← observe (λ t, respond t u); mret (match res with Some r => Ok r | None => Err EConnect end)
  end.

(** ** A download *)

Definition Cancel (i : nat) : thread unit :=
  _ ← modify (λ s, tick (on_download i cancel s));
  modify (λ s, tick (remove i s)).

(** The file is written under the download's path unless that is on the deny list. *)
Definition save (i : nat) (sid p : string) (length : Z) : thread (option derr) :=
  denied ← observe (λ t, IsIgnored (patterns t sid) [p]);
  match denied with
  | Err _ => mret (Some EDenied)
  | Ok _ =>
      ok ← atomic (λ s, (fs_writes (d_now s) sid p,
        mkState (S (d_now s)) (d_downloads s) (d_downloadCache s) (d_serverCache s) (d_dialed s) (d_written s ++ [(i, p, length)])));
      mret (if (ok : bool) then None else Some EWriteFile)
  end.
Definition execute_body (i : nat) (dl : Download) : thread (option derr) :=
  if negb (valid_request (dr_URL (dl_req dl))) then mret (Some ECreateRequest) else
  r ← client_Do (dr_URL (dl_req dl));
  match r with
  | Err e => mret (Some (if IsDownloadError e then e else ErrDownloadFailed))
  | Ok res =>
      if negb (rs_StatusCode res =? 200) then mret (Some EBadStatus) else
      if rs_ContentLength res <? 1 then mret (Some EContentLength) else
      match chosen_path dl res with
      | Err e => mret (Some e)
      | Ok path =>
          _ ← modify (λ s, tick (on_download i (set_dl_path path) s));
          save i (dl_server dl) (Path (set_dl_path path dl)) (rs_ContentLength res)
      end
  end.
(** [Execute]; only the download itself writes its path. *)
Definition Execute (i : nat) (dl : Download) : thread (option derr) :=
  _ ← modify (λ s, tick (on_download i cancellable s));
  err ← execute_body i dl;
  _ ← Cancel i;
  mret err.

(** ** Requests *)

Inductive pull_answer := NoSpace | TooMany | Accepted | Failed (e : derr) | Completed.

(** [postServerPullRemoteFile]; in the background the answer does not wait for the end. *)
Definition postServerPullRemoteFile (sid : string) (r : DownloadRequest) (foreground : bool) : thread pull_answer :=
  space ← observe (λ t, has_space t sid);
  if negb (space : bool) then mret NoSpace else
  tracked ← gets (ByServer sid);
  if decide (3 ≤ length tracked)%nat then mret TooMany else
  i ← atomic (λ s, let '(i, s') := New sid r s in (i, tick s'));
  err ← Execute i (mkDownload EmptyString r sid false false);
  mret (if foreground then match err with Some e => Failed e | None => Completed end else Accepted).
Definition deleteServerPullRemoteFile (sid : string) (i : nat) : thread unit :=
  found ← gets (ByID i);
  match found with
  | Some dl => if BelongsTo dl sid then Cancel i else mret ()
  | None => mret ()
  end.
End Downloads.
