(* ===== verification/DownloaderFacts.v ===== *)
(** * Where downloads connect to, and where they write

    Under every interleaving of requests that start and cancel downloads, with names that
    resolve to something else at every moment, Wings connects to no internal address that the
    operator has not allowed; a name from a header stays in the directory that was asked for;
    and the two indexes of the registry agree. *)

From stdpp Require Import base gmap sets list strings numbers.
From S2P Require Import Prelude GoStrings Paths PathsFacts Network NetworkFacts Threads Downloader.
Open Scope Z_scope.

(** ** Names *)

Lemma path_Base_abs ws w : Forall plain ws → plain w → path_Base (abs (ws ++ [w])) = w.
Proof.
  intros Hws (He & _ & _ & Hs). assert (∃ a, abs (ws ++ [w]) = a +:+ String slash w) as [a Ha].
  { destruct (decide (ws = [])) as [->|Hne]; [by exists EmptyString|]. exists (String slash (Join slash ws)).
    unfold abs. by rewrite Join_app by done. }
  unfold path_Base. rewrite bool_decide_false by done. rewrite TrimRight_id.
  - rewrite Ha, after_slash_app by done. by rewrite bool_decide_false.
  - rewrite Ha. intros s' E. apply (f_equal (Split slash)) in E. rewrite !Split_app, (Split_word w) in E by done.
    change (Split slash EmptyString) with [EmptyString] in E. by apply app_inj_tail in E as [_ E].
Qed.
(** A name from a header is one plain element. *)
Lemma header_name_plain v name : header_name v = Some name → plain name.
Proof.
  unfold header_name. destruct (Clean_shape (String slash v)) as (n & ps & Hps & _ & HC). rewrite is_rooted_cons in HC. rewrite HC.
  destruct ps as [|w ws _] using rev_ind; [done|]. apply Forall_app in Hps as [Hws Hw]. inversion Hw as [|? ? Hp _]; subst.
  rewrite path_Base_abs by done. destruct (_ || _); [done|]. by intros [= <-].
Qed.

(** Where a download may write: with a plain name from the header, or with the name that was
    asked for, in the directory. *)
Definition placed (r : DownloadRequest) (p : string) : Prop :=
  (dr_UseHeader r = true ∧ ∃ name, plain name ∧ p = path_Join (dr_Directory r) name)
  ∨ p = path_Join (dr_Directory r) (asked_name r).
Lemma header_placed r name ds : plain name → Forall plain ds → dr_Directory r = abs ds →
  path_Join (dr_Directory r) name = abs (ds ++ [name]).
Proof. intros Hn Hds ->. apply (path_Join_abs ds [name]); [done|by constructor|done]. Qed.

Section Facts.
Context `{UnicodeTables} `{IN : Internet}.
Implicit Types (s : state) (dl : Download).

Lemma chosen_placed dl res path :
  dl_path dl = EmptyString → chosen_path dl res = Ok path → placed (dl_req dl) (Path (set_dl_path path dl)).
Proof.
  unfold chosen_path, placed, Path. intros ->. cbn [dl_req dl_path set_dl_path].
  destruct (dr_UseHeader (dl_req dl)); cbn [andb]; [|intros [= <-]; by right].
  destruct (negb _); [|intros [= <-]; by right]. destruct (media_filename _) as [[v|]|]; [|intros [= <-]; by right|done].
  cbn [mbind option_bind]. destruct (header_name v) as [name|] eqn:Hn; [|intros [= <-]; by right].
  apply header_name_plain in Hn. cbn. rewrite bool_decide_false by apply Hn. intros [= <-]. left. by eauto.
Qed.

(** ** The invariant *)

(** An address that may be connected to: with a list that was in force at some moment. *)
Definition reachable s (host address : string) : Prop :=
  ∃ ip port a, SplitHostPort address = Some (ip, port) ∧ ParseAddr ip = Some a
    ∧ (special a = false ∨ ∃ t, (t < d_now s)%nat ∧ IsAllowed (allowlist t) host a = true).
Definition write_ok s (i : nat) (p : string) (len : Z) : Prop :=
  ∃ dl, d_downloads s !! i = Some dl ∧ placed (dl_req dl) p ∧ 1 ≤ len
    ∧ ∃ t, (t < d_now s)%nat ∧ is_ignored1 (patterns t (dl_server dl)) p = false.
(** The downloads of a server that are tracked. *)
Definition tracked_by s (sid : string) (i : nat) : Prop :=
  i ∈ d_downloadCache s ∧ ∃ dl, d_downloads s !! i = Some dl ∧ dl_server dl = sid.

Record downloads_ok s : Prop := mkDownloadsOk {
  dk_dialed : ∀ host address, (host, address) ∈ d_dialed s → reachable s host address;
  dk_written : ∀ i p len, (i, p, len) ∈ d_written s → write_ok s i p len;
  dk_known : ∀ i, i ∈ d_downloadCache s → is_Some (d_downloads s !! i);
  dk_servers : ∀ sid, NoDup (default [] (d_serverCache s !! sid))
                      ∧ ∀ i, i ∈ default [] (d_serverCache s !! sid) ↔ tracked_by s sid i;
}.

(** Time passes; a download keeps its request and its server, and is not tracked again. *)
Record later s s' : Prop := mkLater {
  lt_now : (d_now s ≤ d_now s')%nat;
  lt_downloads : ∀ i dl, d_downloads s !! i = Some dl →
    ∃ dl', d_downloads s' !! i = Some dl' ∧ dl_req dl' = dl_req dl ∧ dl_server dl' = dl_server dl;
  lt_untracked : ∀ i, is_Some (d_downloads s !! i) → i ∉ d_downloadCache s → i ∉ d_downloadCache s';
}.
#[local] Instance later_preorder : PreOrder later.
Proof.
  split; [intros s; split; [done|eauto|done]|]. intros s1 s2 s3 [N1 D1 U1] [N2 D2 U2]. split; [lia| |].
  - intros i dl (dl2 & H2 & E2 & F2)%D1. apply D2 in H2 as (dl3 & H3 & E3 & F3). exists dl3. split; [done|]. split; congruence.
  - intros i Hi Hc. apply U2; [|by apply U1]. destruct Hi as [dl (dl2 & ? & _)%D1]. by eexists.
Qed.

Abbreviation safely p Q s := (safe downloads_ok later p Q s).
Lemma next_ {A B} (f : A → prog state B) p (P : A → state → Prop) Q s :
  safely p P s → (∀ a s', later s s' → P a s' → safely (f a) Q s') → safely (p ≫= f) Q s.
Proof. apply (safe_seq _ _). Qed.

Lemma reachable_later s s' host address : (d_now s ≤ d_now s')%nat → reachable s host address → reachable s' host address.
Proof.
  intros Hn (ip & port & a & ? & ? & Ha). exists ip, port, a. split; [done|]. split; [done|].
  destruct Ha as [?|(t & ? & ?)]; [by left|]. right. exists t. split; [lia|done].
Qed.
Lemma write_later s s' i p len : later s s' → write_ok s i p len → write_ok s' i p len.
Proof.
  intros [N D _] (dl & (dl' & ? & Er & Es)%D & ? & ? & t & ? & ?). exists dl'. rewrite Er, Es. split_and!; try done.
  exists t. split; [lia|done].
Qed.

(** A change that leaves the registry, and of the logs adds what is allowed. *)
Lemma same_registry_ok s s' :
  later s s' → d_downloadCache s' = d_downloadCache s → d_serverCache s' = d_serverCache s →
  length (d_downloads s') = length (d_downloads s) →
  (∀ host address, (host, address) ∈ d_dialed s' → (host, address) ∈ d_dialed s ∨ reachable s' host address) →
  (∀ i p len, (i, p, len) ∈ d_written s' → (i, p, len) ∈ d_written s ∨ write_ok s' i p len) →
  downloads_ok s → downloads_ok s'.
Proof.
  intros HL Hc Hs Hlen Hd Hw [Kd Kw Kk Ks]. split.
  - intros host address [Hx|Hx]%Hd; [|done]. eapply reachable_later; [apply HL|by apply Kd].
  - intros i p len [Hx|Hx]%Hw; [|done]. eapply write_later; [done|by apply Kw].
  - intros i. rewrite Hc. intros Hi. apply lookup_lt_is_Some. rewrite Hlen. by apply lookup_lt_is_Some, Kk.
  - intros sid. rewrite Hs. destruct (Ks sid) as [Hn He]. split; [done|]. intros i. rewrite He. unfold tracked_by. rewrite Hc.
    split; intros [Hi (dl & Hdl & Hsid)]; (split; [done|]).
    + apply (lt_downloads _ _ HL) in Hdl as (dl' & ? & _ & E). exists dl'. split; [done|congruence].
    + assert (is_Some (d_downloads s !! i)) as [dl0 H0] by by apply Kk. pose proof (lt_downloads _ _ HL _ _ H0) as (dl' & ? & _ & E).
      simplify_eq. eauto.
Qed.
Lemma tick_ok s : downloads_ok s → downloads_ok (tick s).
Proof. apply same_registry_ok; simpl; auto. split; simpl; [lia|eauto|done]. Qed.
Lemma tick_later s s' : later s s' → later s (tick s').
Proof. intros [N D U]. split; simpl; [lia|done|done]. Qed.

(** The rules for actions. *)
Lemma observe_safe {A} (f : nat → A) (Q : A → state → Prop) s :
  (∀ s', later s s' → Q (f (d_now s')) (tick s')) → safely (observe f) Q s.
Proof.
  intros HQ s' HL HI. cbn [observe atomic fst snd]. split_and!; [by apply tick_ok|by apply tick_later|by apply HQ].
Qed.
Lemma on_download_later i f s : (∀ dl, dl_req (f dl) = dl_req dl ∧ dl_server (f dl) = dl_server dl) → later s (on_download i f s).
Proof.
  intros Hf. split; [done| |done]. intros j dl Hj. unfold on_download. simpl. destruct (decide (i = j)) as [->|Hne].
  - exists (f dl). rewrite list_lookup_alter_eq, Hj. split; [done|apply Hf].
  - exists dl. by rewrite list_lookup_alter_ne.
Qed.
Lemma on_download_safe i f (Q : unit → state → Prop) s :
  (∀ dl, dl_req (f dl) = dl_req dl ∧ dl_server (f dl) = dl_server dl) →
  (∀ s', later s s' → Q () (tick (on_download i f s'))) →
  safely (modify (λ s, tick (on_download i f s))) Q s.
Proof.
  intros Hf HQ s' HL HI. cbn [modify atomic fst snd]. pose proof (on_download_later i f s' Hf) as HL'.
  split_and!; [|by apply tick_later|by apply HQ]. apply tick_ok. revert HI.
  apply same_registry_ok; simpl; auto. apply length_alter.
Qed.

(** ** Connections *)

Lemma isBlocked_false allowed host a : valid_addr a → isBlocked allowed host a = false →
  special a = false ∨ IsAllowed allowed host a = true.
Proof.
  intros Hv. unfold isBlocked. rewrite (IsInternal_exact a Hv). destruct (special a); [|by left]. simpl. rewrite negb_false_iff. by right.
Qed.
Lemma checkConnection_safe host address s :
  safely (checkConnection host address) (λ r s', r = None → reachable s' host address) s.
Proof.
  unfold checkConnection. destruct (SplitHostPort address) as [[ip port]|] eqn:Hsplit; [|done].
  destruct (ParseAddr ip) as [a|] eqn:Hparse; [|done].
  eapply next_; [apply (observe_safe _ (λ b s', b = false → reachable s' host address))|].
  - intros s' _ Hb. exists ip, port, a. split; [done|]. split; [done|].
    apply isBlocked_false in Hb as [?|?]; [by left| |by eapply ParseAddr_valid]. right. exists (d_now s'). simpl. split; [lia|done].
  - intros [] s' _ Hb; simpl; [done|]. intros _. by apply Hb.
Qed.
Lemma connect_safe host address s : reachable s host address → safely (connect host address) (λ _ _, True) s.
Proof.
  intros Hr s' HL HI. cbn [connect atomic fst snd]. split_and!; [| |done].
  - revert HI. apply same_registry_ok; simpl; auto; [split; simpl; [lia|eauto|done]|].
    intros h a [Hx|Hx%list_elem_of_singleton]%elem_of_app; [by left|]. injection Hx as -> ->. right.
    eapply reachable_later; [|exact Hr]. simpl. pose proof (lt_now _ _ HL). lia.
  - split; simpl; [lia|eauto|done].
Qed.
Lemma dial_safe host addresses first s : safely (dial host addresses first) (λ _ _, True) s.
Proof.
  revert first s. induction addresses as [|address rest IH]; intros first s; [done|]. cbn [dial].
  eapply next_; [apply checkConnection_safe|]. intros [e|] s1 _ Hr; [apply IH|].
  eapply next_; [by apply connect_safe, Hr|]. intros [] s2 _ _; [done|apply IH].
Qed.
Lemma any_blocked_safe host ips s : safely (any_blocked host ips) (λ _ _, True) s.
Proof.
  revert s. induction ips as [|ip ips IH]; intros s; [done|]. cbn [any_blocked].
  eapply next_; [by apply (observe_safe _ (λ _ _, True))|]. intros [] s1 _ _; [done|apply IH].
Qed.
Lemma DialContext_safe addr s : safely (DialContext addr) (λ _ _, True) s.
Proof.
  unfold DialContext. destruct (SplitHostPort addr) as [[host port]|]; [|done].
  eapply next_; [by apply (observe_safe _ (λ _ _, True))|]. intros [[|ip ips]|] s1 _ _; [done| |done].
  eapply next_; [apply any_blocked_safe|]. intros [] s2 _ _; [done|].
  eapply next_; [by apply (observe_safe _ (λ _ _, True))|]. intros addresses s3 _ _. apply dial_safe.
Qed.
Lemma client_Do_safe u s : safely (client_Do u) (λ _ _, True) s.
Proof.
  unfold client_Do. eapply next_; [by apply (observe_safe _ (λ _ _, True))|]. intros reuse s1 _ _.
  apply (next_ _ _ (λ _ _, True)); [destruct reuse; [done|apply DialContext_safe]|]. intros [a|e] s2 _ _; [|done].
  eapply next_; [by apply (observe_safe _ (λ _ _, True))|done].
Qed.

(** ** The registry *)

Lemma New_ok sid r s : downloads_ok s →
  let '(i, s') := New sid r s in
  downloads_ok s' ∧ later s s' ∧ d_downloads s' !! i = Some (mkDownload EmptyString r sid false false).
Proof.
  intros [Kd Kw Kk Ks]. unfold New. set (dl := mkDownload EmptyString r sid false false). set (i := length (d_downloads s)).
  assert (i ∉ d_downloadCache s) as Hi. { intros Hx%Kk%lookup_lt_is_Some. lia. }
  unfold track. cbn [d_downloadCache d_serverCache d_downloads d_now d_dialed d_written]. rewrite decide_False by done.
  assert (∀ j x, d_downloads s !! j = Some x → (d_downloads s ++ [dl]) !! j = Some x) as Hold by (intros; by apply lookup_app_l_Some).
  assert ((d_downloads s ++ [dl]) !! i = Some dl) as Hnew by by rewrite lookup_app_r, Nat.sub_diag by done.
  match goal with |- downloads_ok ?s' ∧ _ => assert (later s s') as HL end.
  { split; simpl; [done|eauto|]. intros j [x Hj] Hc Hin. apply lookup_lt_Some in Hj. apply elem_of_union in Hin as [->%elem_of_singleton|?]; [lia|done]. }
  split_and!; [|done|done]. split; cbn [d_downloadCache d_serverCache d_downloads d_now d_dialed d_written].
  - intros h a Hx. eapply reachable_later; [|by apply Kd]. done.
  - intros j p len Hx. eapply write_later; [exact HL|by apply Kw].
  - intros j [->%elem_of_singleton|Hj]%elem_of_union; [by eexists|]. destruct (Kk j Hj) as [x Hx]. eauto.
  - intros sid'. destruct (Ks sid') as [Hn He]. unfold tracked_by. cbn [d_downloadCache d_downloads].
    destruct (decide (sid = sid')) as [<-|Hne].
    + rewrite lookup_insert_eq. change (dl_server dl) with sid. unfold default at 1 3; cbn [id]. split.
      * apply list.NoDup_app. split_and!; [done| |apply NoDup_singleton]. intros j Hj%He ->%list_elem_of_singleton. by destruct Hj.
      * intros j. rewrite elem_of_app, list_elem_of_singleton, He, elem_of_union, elem_of_singleton. split.
        -- intros [[Hc (x & Hx & ?)]| ->]; (split; [by auto|]); eauto.
        -- intros [[->|Hc] (x & Hx & Hsid)]; [by right|]. left. split; [done|]. destruct (Kk j Hc) as [y Hy]. rewrite (Hold _ _ Hy) in Hx. simplify_eq. eauto.
    + rewrite lookup_insert_ne by done. split; [done|]. intros j. rewrite He, elem_of_union, elem_of_singleton. split.
      * intros [Hc (x & Hx & ?)]. split; [by right|]. eauto.
      * intros [[->|Hc] (x & Hx & Hsid)]; [rewrite Hnew in Hx; injection Hx as <-; done|]. split; [done|]. destruct (Kk j Hc) as [y Hy]. rewrite (Hold _ _ Hy) in Hx. simplify_eq. eauto.
Qed.

Lemma remove_ok i s : downloads_ok s → downloads_ok (remove i s) ∧ later s (remove i s) ∧ i ∉ d_downloadCache (remove i s).
Proof.
  intros HI. unfold remove, find. destruct (decide (i ∈ d_downloadCache s)) as [Hc|Hc]; [|done].
  destruct HI as [Kd Kw Kk Ks]. destruct (Kk i Hc) as [dl Hdl]. rewrite Hdl. destruct (Ks (dl_server dl)) as [_ He].
  destruct (d_serverCache s !! dl_server dl) as [l|] eqn:Hl.
  2: { exfalso. apply (not_elem_of_nil i), (He i). split; [done|eauto]. }
  match goal with |- downloads_ok ?s' ∧ _ => assert (later s s') as HL end.
  { split; simpl; [done|eauto|]. set_solver. }
  split_and!; [|done|simpl; set_solver]. split; cbn [d_downloadCache d_serverCache d_downloads d_now d_dialed d_written].
  - intros h a Hx. eapply reachable_later; [|by apply Kd]. done.
  - intros j p len Hx. eapply write_later; [exact HL|by apply Kw].
  - intros j Hj. apply Kk. set_solver.
  - intros sid. destruct (Ks sid) as [Hn Hes]. unfold tracked_by in *. cbn [d_downloadCache d_downloads].
    destruct (decide (dl_server dl = sid)) as [<-|Hne].
    + rewrite lookup_insert_eq. rewrite Hl in Hn, Hes. cbn [default id] in *. split; [by apply list.NoDup_filter|].
      intros j. rewrite list_elem_of_filter, Hes. set_solver.
    + rewrite lookup_insert_ne by done. split; [done|]. intros j. rewrite Hes. split; [|set_solver].
      intros [Hj (x & Hx & Hsid)]. split; [|eauto]. apply elem_of_difference. split; [done|]. intros ->%elem_of_singleton. congruence.
Qed.

(** ** A download *)

(** When a download was cancelled it is not tracked, and stays so. *)
Lemma Cancel_safe i s : is_Some (d_downloads s !! i) → safely (Cancel i) (λ _ s', i ∉ d_downloadCache s') s.
Proof.
  intros Hi. unfold Cancel. eapply next_; [by apply (on_download_safe i cancel (λ _ _, True)); [by intros []|]|].
  intros _ s1 _ _ s2 HL HI. cbn [modify atomic fst snd]. destruct (remove_ok i s2 HI) as (Hok & Hl & Hc).
  split_and!; [by apply tick_ok|by apply tick_later|done].
Qed.
Lemma save_safe i sid p len s dl :
  d_downloads s !! i = Some dl → dl_server dl = sid → placed (dl_req dl) p → 1 ≤ len →
  safely (save i sid p len) (λ _ _, True) s.
Proof.
  intros Hdl Hsid Hp Hlen. unfold save.
  eapply next_; [apply (observe_safe _ (λ r s', is_ok r = true → write_ok s' i p len))|].
  - intros s' HL Hr. apply (lt_downloads _ _ HL) in Hdl as (dl' & Hdl' & Er & Es). exists dl'. rewrite Er, Es, Hsid.
    split_and!; [done|done|done|]. exists (d_now s'). split; [simpl; lia|]. revert Hr. unfold IsIgnored, require. cbn [existsb].
    rewrite orb_false_r. by destruct (is_ignored1 _ p).
  - intros [u|e] s1 _ Hw; [|done]. specialize (Hw eq_refl). apply (next_ _ _ (λ _ _, True)); [|done]. intros s2 HL HI. cbn [atomic fst snd].
    split_and!; [| |exact I].
    + revert HI. apply same_registry_ok; simpl; auto; [split; simpl; [lia|eauto|done]|].
      intros j q l [Hx|Hx%list_elem_of_singleton]%elem_of_app; [by left|]. injection Hx as -> -> ->. right.
      eapply write_later; [|exact Hw]. etransitivity; [exact HL|]. split; simpl; [lia|eauto|done].
    + split; simpl; [lia|eauto|done].
Qed.
Lemma execute_body_safe i dl s dl0 :
  d_downloads s !! i = Some dl0 → dl_req dl0 = dl_req dl → dl_server dl0 = dl_server dl → dl_path dl = EmptyString →
  safely (execute_body i dl) (λ _ _, True) s.
Proof.
  intros Hi Hr Hs Hp. unfold execute_body. destruct (negb (valid_request _)); [done|].
  eapply next_; [apply client_Do_safe|]. intros [res|e] s1 HL1 _; [|done]. destruct (negb (_ =? _)); [done|].
  destruct (Z.ltb_spec (rs_ContentLength res) 1); [done|]. destruct (chosen_path dl res) as [path|e] eqn:Hpath; [|done].
  apply (lt_downloads _ _ HL1) in Hi as (dl1 & Hi & Er1 & Es1).
  eapply next_; [by apply (on_download_safe i (set_dl_path path) (λ _ _, True))|]. intros [] s2 HL2 _.
  apply (lt_downloads _ _ HL2) in Hi as (dl2 & Hi & Er2 & Es2). eapply save_safe; [exact Hi|congruence| |done].
  rewrite Er2, Er1, Hr. by eapply chosen_placed.
Qed.
(** Whatever happens, a download that has ended is not tracked. *)
Lemma Execute_safe i dl s :
  d_downloads s !! i = Some dl → dl_path dl = EmptyString → safely (Execute i dl) (λ _ s', i ∉ d_downloadCache s') s.
Proof.
  intros Hi Hp. unfold Execute. eapply next_; [by apply (on_download_safe i cancellable (λ _ _, True))|]. intros _ s1 HL1 _.
  apply (lt_downloads _ _ HL1) in Hi as (dl1 & Hi & Er1 & Es1). eapply next_; [by eapply execute_body_safe|]. intros err s2 HL2 _.
  apply (lt_downloads _ _ HL2) in Hi as (dl2 & Hi & _). eapply next_; [by apply Cancel_safe; eexists|]. by intros u s3 _ Hc.
Qed.

Lemma post_safe sid r foreground s : safely (postServerPullRemoteFile sid r foreground) (λ _ _, True) s.
Proof.
  unfold postServerPullRemoteFile. eapply next_; [by apply (observe_safe _ (λ _ _, True))|]. intros [] s1 _ _; [|done]. cbn [negb].
  eapply next_; [by apply (safe_gets _ _ _ (λ _ _, True))|]. intros tracked s2 _ _. case_decide; [done|].
  apply (next_ _ _ (λ i s', d_downloads s' !! i = Some (mkDownload EmptyString r sid false false))).
  - intros s3 _ HI. cbn [atomic fst snd]. pose proof (New_ok sid r s3 HI) as HN. destruct (New sid r s3) as [i s4].
    destruct HN as (? & ? & ?). cbn [fst snd]. split_and!; [by apply tick_ok|by apply tick_later|done].
  - intros i s3 _ Hi. eapply next_; [by apply Execute_safe|done].
Qed.
Lemma delete_safe sid i s : safely (deleteServerPullRemoteFile sid i) (λ _ _, True) s.
Proof.
  unfold deleteServerPullRemoteFile.
  eapply next_; [apply (safe_gets _ _ _ (λ found s', is_Some found → is_Some (d_downloads s' !! i)))|].
  - intros s' _ _. unfold ByID, find. destruct (decide _); [done|by intros [? ?]].
  - intros [dl|] s1 _ Hi; [|done]. destruct (BelongsTo dl sid); [|done].
    eapply (safe_mono _ _); [|by apply Cancel_safe, Hi]. done.
Qed.

(** ** Every interleaving *)

Inductive request : prog state unit → Prop :=
| request_pull sid r foreground : request (_ ← postServerPullRemoteFile sid r foreground; mret ())
| request_delete sid i : request (deleteServerPullRemoteFile sid i).

(** C13: remote downloads reach nothing internal and write where they may.  At every moment of
    every interleaving of requests that start and cancel downloads, whatever names resolve to
    at each look and whatever the answers say: every address that a connection was attempted
    to is outside of the special ranges, or allowed for its host by a list that the operator
    had configured; every file that was written has a length, was not on the deny list of its
    server, and is in the directory that was asked for under a plain name when the name came
    from a header, and otherwise is the file that was asked for; and the downloads listed for
    a server are exactly the tracked ones of that server, each once. *)
Theorem downloads_confined ts s :
  steps request ([], no_downloads) (ts, s) →
  (∀ host address, (host, address) ∈ d_dialed s → reachable s host address)
  ∧ (∀ i p len, (i, p, len) ∈ d_written s → write_ok s i p len)
  ∧ ∀ sid, NoDup (ByServer sid s) ∧ ∀ i, i ∈ ByServer sid s ↔ tracked_by s sid i.
Proof.
  intros Hs. destruct (safe_steps downloads_ok later request no_downloads ts s) as [[Kd Kw Kk Ks] _]; [| |done|].
  - split; simpl; [by intros ? ? ?%not_elem_of_nil|by intros ? ? ? ?%not_elem_of_nil|set_solver|].
    intros sid. rewrite lookup_empty. split; [constructor|]. intros i. split; [by intros ?%not_elem_of_nil|]. intros [Hx _]. set_solver.
  - intros p w Hp _. destruct Hp; [eapply next_; [apply post_safe|done]|apply delete_safe].
  - split_and!; [done|done|]. intros sid. destruct (Ks sid) as [Hn He]. unfold ByServer. split; [by apply list.NoDup_filter|].
    intros i. rewrite list_elem_of_filter, He. unfold tracked_by. naive_solver.
Qed.
End Facts.
