(* ===== verification/DownloaderExample.v ===== *)
(** * Downloads from a host that changes its address

    A host whose name resolves to a public address when it is asked for and to an internal one
    when it is dialed, and whose answers name a file outside of the directory; and two races
    of the handlers. *)

From stdpp Require Import base gmap list strings numbers.
From S2P Require Import Prelude GoStrings Paths PathsFacts Network NetworkFacts Threads Downloader DownloaderFacts.
Open Scope Z_scope.

#[local] Instance dx_unicode : UnicodeTables := {| unicode_lower s := s; unicode_upper s := s; unicode_trim s := s |}.
#[local] Instance dx_internet : Internet := {|
  allowlist _ := [];
  LookupNetIP _ _ := Some [Addr4 (quad 9 9 9 9)];
  candidates _ _ := ["10.0.0.1:80"; "9.9.9.9:80"]%string;
  connects _ _ := true;
  idle _ _ := false;
  valid_request _ := true;
  respond _ _ := Some (mkResponse 200 5 "attachment");
  media_filename _ := Some (Some "../../etc/passwd"%string);
  patterns _ _ _ := false;
  fs_writes _ _ _ := true;
  has_space _ _ := true;
|}.
Definition dx_request : DownloadRequest :=
  mkDownloadRequest "/home" (mkURL "http://mirror.example/file" "mirror.example:80" "/file") EmptyString true.
Definition dx_pull : prog state unit := _ ← postServerPullRemoteFile "server" dx_request false; mret ().

Lemma dx_entries : Forall request (replicate 4 dx_pull ++ [deleteServerPullRemoteFile "server" 0]).
Proof. apply Forall_app_2; [apply Forall_replicate; constructor|by repeat constructor]. Qed.

(** The state after the given turns of four requests that start a download and one that
    cancels the first. *)
Definition dx_run (turns : list nat) : pool state * state :=
  schedule turns (replicate 4 dx_pull ++ [deleteServerPullRemoteFile "server" 0], no_downloads).
Lemma dx_reached turns : steps request ([], no_downloads) (dx_run turns).
Proof. etransitivity; [exact (spawn_steps request _ [] _ dx_entries)|apply schedule_steps]. Qed.

(** The internal address is not connected to, and the file is written in the directory. *)
Definition dx_one : list nat := replicate 30 0%nat.
Lemma downloads_confined_witness :
  d_dialed (snd (dx_run dx_one)) = [("mirror.example", "9.9.9.9:80")]%string
  ∧ d_written (snd (dx_run dx_one)) = [(0%nat, "/home/passwd"%string, 5)]
  ∧ (∀ host address, (host, address) ∈ d_dialed (snd (dx_run dx_one)) → reachable (snd (dx_run dx_one)) host address)
  ∧ (∀ i p len, (i, p, len) ∈ d_written (snd (dx_run dx_one)) → write_ok (snd (dx_run dx_one)) i p len)
  ∧ ∀ sid, NoDup (ByServer sid (snd (dx_run dx_one))) ∧ ∀ i, i ∈ ByServer sid (snd (dx_run dx_one)) ↔ tracked_by (snd (dx_run dx_one)) sid i.
Proof.
  split; [vm_compute; reflexivity|]. split; [vm_compute; reflexivity|].
  apply (downloads_confined (fst (dx_run dx_one)) (snd (dx_run dx_one))). rewrite <-surjective_pairing. apply dx_reached.
Defined.

(** The limit of three downloads is not kept: the handler counts and registers under
    different locks, so that four requests all find room. *)
Lemma limit_raced :
  length (ByServer "server" (snd (dx_run [0; 1; 2; 3; 0; 1; 2; 3; 0; 1; 2; 3]%nat))) = 4%nat.
Proof. vm_compute. reflexivity. Qed.

(** A download that is cancelled before it is executed has no context to cancel yet: it is
    taken off the registry, and runs and writes its file all the same. *)
Lemma cancelled_before_start :
  let before := snd (dx_run ([0; 0; 0; 4; 4; 4]%nat)) in
  let after := snd (dx_run ([0; 0; 0; 4; 4; 4]%nat ++ replicate 12 0%nat)) in
  ByServer "server" before = [] ∧ d_written before = []
  ∧ dl_cancelled <$> (d_downloads after !! 0%nat) = Some false ∧ d_written after = [(0%nat, "/home/passwd"%string, 5)].
Proof. vm_compute. repeat split; reflexivity. Qed.
